(* ===== verification/_CoqProject ===== *)
-Q . S2P
Prelude.v
Bits.v
Smt.v
Bytes.v
BytesFacts.v
Ir.v
SmtFacts.v
Sem.v
Evaluator.v
EvaluatorFacts.v
BytesTheorems.v
Polynomial.v
Builder.v
Config.v
Gates.v
GatesFacts.v
Circuits.v
CircuitsFacts.v
CircuitTheorems.v
Blast.v
BlastFacts.v
BuilderSpec.v
BuilderReads.v
PolynomialFacts.v
BuilderFacts.v
BuilderArith.v
BuilderStruct.v
BuilderCompare.v
BuilderVars.v
BuilderState.v
BuilderApi.v
BuilderSession.v
BuilderTheorems.v
BlastNode.v
BlastQuery.v
Cnf.v
CnfFacts.v
Sat.v
SatFacts.v
Model.v
ModelFacts.v
Recognisers.v
UnionFind.v
PatternRecognisers.v
RecogniserFacts.v
PatternFacts.v
Shortcuts.v
ShortcutsFacts.v
Solver.v
SolverFacts.v
OptimizeFacts.v
SolveFacts.v
WireBase.v
WireBaseFacts.v
WireExpr.v
WireExprFacts.v
WireDag.v
WireRequest.v
WireRequestFacts.v
WireResponse.v
Backend.v
WireQuery.v
SolverBackend.v
Server.v
WireResponseFacts.v
ServerFacts.v
BackendFacts.v
DispatchFacts.v
WireMeaning.v
WireQueryFacts.v
WireQueryTheorems.v
WireModel.v
WireBuilder.v
WireBuilderFacts.v
WireBuilderOps.v
WireCompact.v
WireClientApi.v
WireClient.v
ServiceFacts.v
ServiceTheorems.v
