(* ===== verification/Prelude.v ===== *)
(** * A verification of the qfbvsmtrs solver, its wire format and its server

    The repository is a server for quantifier-free bit-vector formulas.  Its core is
    the solver crate [qfbvsmtrs] (src/crates/qfbvsmtrs), the wire format [smt-wire]
    (src/crates/smt-wire) with the client's expression builder, and the server
    [smt-server] (src/crates/smt-server).  A client builds an expression and sends a
    request; a connection reads the frame, the cache may know its answer, else the
    request is parsed and validated and handed to a backend: a router, a race of
    solvers, or the server's own solver.  There the request's flat DAG is replayed on a
    term builder that rewrites as it goes, the finished query is bit-blasted to gates,
    the gates are encoded in CNF, a SAT solver answers, and the answer is read back as a
    model, an unsat core or an optimum, checked against the request and encoded into
    a response frame.  This library follows that path: every stage is a file of definitions
    translated from the source, followed by files of theorems about it, and the stages'
    theorems are composed into statements about the whole path.

    ** How code is modelled

    Code that returns [Result] returns [outcome] ([Ok], [Err] or [Panic]); code with
    a mutable receiver is in the state monad [M] over it (both in this file).
    [Panic] stands for indexing out of range, [unwrap], arithmetic overflow where the
    code relies on its absence, and assertions, so a theorem that excludes it is a
    proof of panic freedom.  Word-level values are the byte vectors of the code;
    integers of fixed width are [Z] with their wrap-around, truncation or overflow
    check written out; a Rust string is the string of its UTF-8 bytes.  [HashMap]
    and [BTreeMap] are [gmap] or a sorted association list where iteration order
    matters.  What polls of the clock and of the cancellation token see, whether
    the end of a budget is an [Instant], whether a
    thread can be started and in which order threads send their results is supplied
    by the world, a parameter of the run.  [Instant::now() + budget] and [thread::spawn]
    panic when the world says so ([deadline_representable], [workers_start]), and
    [thread::Builder] fails; a worker's panic stays in its thread, and
    [catch_unwind] turns one of splr into an answer.  The external SAT solvers, and the
    shortcut recognisers that are not modelled, are type classes with a contract; splr and
    varisat, and any other backend of the server, may panic.

    ** The files, by component

    - Specification.  [Bits], [Smt], [SmtFacts]: SMT-LIB's bit-vector
      operations on integers in [[0, 2^w)], and the arithmetic of that range.  [Sem]:
      the meaning [denote] of an arena, [satisfies] and [satisfiable] of a query.
    - Bytes (builder.rs and ir.rs, the routines on little-endian vectors).  [Bytes];
      [BytesFacts] and [BytesTheorems]: each routine computes the operation on the
      numbers its canonical vectors represent ([bv_repr]).
    - Terms and queries (ir.rs, query.rs).  [Ir]: sorts, node kinds, the hash-consing
      arena; adding a node keeps the arena consistent, typed and without duplicates.
    - Evaluator (eval.rs).  [Evaluator], [EvaluatorFacts]: evaluation agrees with
      [denote], and the three query tests are exact.
    - Term builder (builder.rs).  [Polynomial], [Builder], [BuilderState]: all
      constructors with their rewrites, polynomial normal forms, assertions, scopes
      and options.  [BuilderSpec] is the vocabulary ([makes_bv], [makes_bool], [aspec]:
      what an arena program returns, that it keeps the invariant and only extends the
      arena).  [BuilderReads], [PolynomialFacts], [BuilderFacts], [BuilderArith],
      [BuilderStruct], [BuilderCompare]:
      one specification per constructor; [BuilderTheorems] collects them.  [BuilderApi],
      [BuilderSession]: the public interface as data and the invariant of every
      session, the assertions as a stack of frames.
    - Gates and circuits (gates.rs, circuits.rs).  [Gates], [Circuits]; [GatesFacts],
      [CircuitsFacts], [CircuitTheorems]: every gate and circuit
      computes its Boolean function or SMT-LIB operation, and gates are shared.
    - Bit-blaster (blast.rs).  [Blast]; [BlastFacts], [BlastNode],
      [BlastQuery]: the gates of every reachable term hold its value.
    - CNF and SAT (cnf.rs, sat.rs).  [Cnf], [Sat]; [CnfFacts], [SatFacts]: the encoding
      is equisatisfiable with the gates, the DPLL solver decides, and an answer of an
      external solver is checked before it is believed.
    - Models and results (model.rs, solver.rs).  [Model] (models, and the results of a solve),
      [ModelFacts].
    - Solver (solver.rs, config.rs).  [Config], [Solver]; [SolverFacts],
      [OptimizeFacts], [SolveFacts]: what each answer means, minimal
      cores, exact optima, that limits only interrupt (an answer given under a budget or a
      token is the one given without), and a builder session in front of it.
    - Shortcuts (solver/shortcuts).  [Shortcuts]: the engine.  [Recognisers]: the two
      assignment and the two successor recognisers (assignment.rs, successor.rs);
      [RecogniserFacts]: their soundness.  [UnionFind]: the two union-find structures
      (common.rs, extensional.rs) and that they compute equivalence closures.
      [PatternRecognisers]: nine contradiction recognisers (common.rs, direct_eq.rs,
      arithmetic.rs, division_remainder.rs, overflow_guards.rs, favaro_mba.rs,
      extensional.rs, lfsr.rs); [PatternFacts]: their soundness, two of them on arenas that
      are [regular], with a satisfiable query that each answers wrongly otherwise.
      [ShortcutsFacts]: the engine tries the passes of its table in order and stops at
      the first hit, and what a hit means.
    - Wire format (smt-wire).  [WireBase] (le.rs, types.rs, error.rs), [WireExpr]
      (constants.rs, expr.rs), [WireRequest] (request.rs), [WireResponse] (response.rs);
      [WireBaseFacts], [WireExprFacts], [WireRequestFacts], [WireResponseFacts]: parsing
      and encoding are inverse in both directions and never panic.  [WireDag]: the
      validator accepts exactly the well-sorted DAGs ([dag_ok]).
    - From a request to an answer (wire.rs, simplify.rs).  [WireMeaning]: the meaning of
      a request in terms of valuations of its symbols.  [WireQuery]: the translation;
      [WireQueryFacts], [WireQueryTheorems]: the query means what the
      request means.  [WireModel] composes the path without shortcuts: from the bytes of a frame to an
      answer of [solve_without_shortcuts] about valuations of the request's symbols, a block of the response that
      the client's check accepts, and a minimal core; it rests on [BuilderVars], which
      shows that no rewrite of the builder makes a variable.
    - The client's builder (smt-wire, builder.rs).  [WireBuilder]: expressions, masks,
      compaction and the requests made of them; [WireBuilderFacts], [WireBuilderOps],
      [WireCompact]: what each operation returns and that compaction keeps meanings;
      [WireClientApi]: every call a client can make, as data, and the invariant of the
      states it reaches; [WireClient]: the requests of a client are accepted and mean what it
      built, composed with the path above.
    - Backends (smt-server: backend.rs, command_router.rs, pool.rs, racing.rs).
      [Backend]: results, the checks of artifacts, router, pool and race.  [BackendFacts]:
      [Keeps], the interface between the server and its backends, is a type class:
      what a backend promises of the results it returns (it may also fail or panic); the
      combinators inherit it, and a race is won by the first conclusive result.
    - The server (protocol.rs, cache.rs, server.rs).  [Server]: responses, the cache,
      dispatch, the loop of a connection, permits, and the interleavings of connections
      on the cache ([service_step]).  [ServerFacts]: a response carries what the backend
      returned, checked.  [DispatchFacts]: every payload is answered unless the backend
      panics, which nothing catches; cached answers are genuine, frames are answered in order.
    - The server's own solver (qfbvsmtrs_backend.rs).  [SolverBackend];
      [ServiceFacts]: results are values of their types, the model's block is a
      model of the request, and the promise [truthful] about the request's
      symbols, kept by this backend, and by every [arrangement] of it in routers, pools and races,
      on requests [in_range]; [ServiceTheorems]: what a client
      reads off a response is true, of the request and of the terms it built, and the
      server's other guarantees.  The assumptions of these truths are that an [Unsat] of splr is
      right ([trusted]) and that the recognisers not modelled are sound
      ([SoundRecognisers]).

    ** Fuel and bounds

    Recursion that is not structural takes fuel, and a lemma shows the fuel is
    enough on every well-formed input, so no theorem is conditional on it.  A term's
    operands have smaller ids, so: [bv_shl] and [bv_lshr] recurse at most [S a] times
    on the id [a]; [bv_mul], [bv_eq] and [bv_cmp] [S (a + b)] times; [bv_extract] [S]
    of its operand; [bv_add] twice (a rebuilt sum is not scaled again); the masks of
    possible bits count the code's own depth limit of 64; polynomials the code's own
    budget of 512 visits; [group_terms] the length of its list.  The worklist of
    [reachable_terms] runs for the number of nodes and edges; unit propagation for
    the number of variables and the search too (each round, each decision assigns one).
    Marking for a compaction descends to smaller indices, so the index and one is enough;
    every turn of a connection reads at least four bytes, so the length of the input and one
    is.  [find] of the union-find over terms takes the number of known terms and one, and
    over bits the length of the vector and one, since a path to a root repeats no element;
    the search for a chain of equalities ([search_fuel]) pushes at most one term per
    equality for each term it has not seen; a walk over a term's leaves takes its id and
    one.  [in_range] and [all_fit] ask that the variables of the CNF stay below [2^31] and
    the terms below [2^32], where the code's casts begin to wrap; [in_range] asks also that
    the request's arena is [regular].

    ** Not modelled

    - The recognisers of polynomial.rs, structural.rs, simple_processor.rs, log_slicing.rs
      (shifts, comparisons, adders), popcount.rs (two) and witnesses.rs (two): ten
      operations of the class [Recognisers], with the contract [SoundRecognisers] that a hit
      tells the truth.
    - splr and varisat: external SAT solvers, parameters of [Sat], fixed functions of
      what they are given.
    - smt-wire's api.rs, a typed wrapper around the builder, and client.rs, the client's
      socket.
    - The SMT-LIB front ends (frontend.rs, smt-qfbv-smtlib, the server's smt2.rs and
      smtlib.rs): the text protocol is a parameter of [Server].
    - The adapters of Z3, binbit and Rumba: any backend that keeps its promise; the
      recording database; sockets, timeouts and the accept loop, which are I/O.
    Display texts of errors and panic messages are left out everywhere: an error is
    its constructor and its context. *)
From stdpp Require Export base list list_numbers numbers option strings gmap.
From Stdlib Require Export ZArith Lia.

#[export] Set Default Goal Selector "!".

(** [simpl] must not unfold arithmetic into its recursion. *)
#[global] Arguments Nat.div : simpl never.
#[global] Arguments Nat.modulo : simpl never.
#[global] Arguments Nat.mul : simpl never.
#[global] Arguments Nat.pow : simpl never.
#[global] Arguments Z.pow : simpl never.
#[global] Arguments Z.modulo : simpl never.
#[global] Arguments Z.div : simpl never.
#[global] Arguments Z.shiftl : simpl never.
#[global] Arguments Z.shiftr : simpl never.
#[global] Arguments Z.testbit : simpl never.
#[global] Arguments Z.of_nat : simpl never.

(** ** Errors and outcomes *)

(** The crate's error type.  The formatted diagnostic text that
    [Error::Invalid] carries besides its context is not modelled. *)
Inductive Error :=
  | Invalid (context : string)
  | Unsupported (message : string)
  | Parse (message : string)
  | Timeout
  | Internal (message : string).

#[export] Instance Error_eq_dec : EqDecision Error.
Proof. solve_decision. Defined.

(** The outcome of running Rust code: a value, an [Err], or a panic (an
    out-of-range index, [expect] on [None], ...). *)
Inductive outcome (E A : Type) :=
  | Ok (a : A)
  | Err (e : E)
  | Panic.
Arguments Ok {E A} _.
Arguments Err {E A} _.
Arguments Panic {E A}.

(** The crate's [Result]. *)
Abbreviation res := (outcome Error).

#[export] Instance res_ret {E} : MRet (outcome E) := @Ok E.
#[export] Instance res_bind {E} : MBind (outcome E) := fun A B f m =>
  match m with Ok a => f a | Err e => Err e | Panic => Panic end.
#[export] Instance res_fmap {E} : FMap (outcome E) := fun A B f m =>
  match m with Ok a => Ok (f a) | Err e => Err e | Panic => Panic end.

(** [r.map_err(f)] *)
Definition map_err {E F A} (f : E -> F) (r : outcome E A) : outcome F A :=
  match r with Ok a => Ok a | Err e => Err (f e) | Panic => Panic end.

(** [v[i]] on a slice: panics out of range. *)
Definition index {A} (l : list A) (i : nat) : res A :=
  match l !! i with Some x => Ok x | None => Panic end.

(** [v[i] = x], [v[lo..hi]], [v[lo..hi].copy_from_slice(src)] and
    [v.last().expect(..)]: each panics out of range. *)
Definition set_index {A} (l : list A) (i : nat) (x : A) : res (list A) :=
  if i <? length l then Ok (<[i := x]> l) else Panic.

Definition slice {A} (l : list A) (lo hi : nat) : res (list A) :=
  if (lo <=? hi) && (hi <=? length l) then Ok (take (hi - lo) (drop lo l)) else Panic.

Definition copy_from_slice {A} (l : list A) (lo hi : nat) (src : list A) : res (list A) :=
  if (lo <=? hi) && (hi <=? length l) && (length src =? hi - lo)
  then Ok (take lo l ++ src ++ drop hi l) else Panic.

Definition last_expect {A} (l : list A) : res A :=
  match last l with Some x => Ok x | None => Panic end.

Lemma index_Some {A} (l : list A) i x : l !! i = Some x -> index l i = Ok x.
Proof. by unfold index; intros ->. Qed.

Lemma index_Ok {A} (l : list A) i x : index l i = Ok x -> l !! i = Some x.
Proof. unfold index. destruct (l !! i); congruence. Qed.

Lemma bind_ok {E A B} (m : outcome E A) (k : A -> outcome E B) y :
  (m ≫= k) = Ok y <-> exists x, m = Ok x /\ k x = Ok y.
Proof. destruct m; naive_solver. Qed.

(** ** Stateful fallible code: a state and outcome monad *)

Definition M (S A : Type) : Type := S -> res A * S.

#[export] Instance M_ret {S} : MRet (M S) := fun A a s => (Ok a, s).
#[export] Instance M_bind {S} : MBind (M S) := fun A B f m s =>
  match m s with
  | (Ok a, s') => f a s'
  | (Err e, s') => (Err e, s')
  | (Panic, s') => (Panic, s')
  end.

Definition lift {S A} (r : res A) : M S A := fun s => (r, s).
Definition get {S} : M S S := fun s => (Ok s, s).
Definition gets {S A} (f : S -> A) : M S A := fun s => (Ok (f s), s).
Definition put {S} (s : S) : M S unit := fun _ => (Ok tt, s).
Definition fail {S A} (e : Error) : M S A := fun s => (Err e, s).
Definition panic {S A} : M S A := fun s => (Panic, s).

(** Total-correctness weakest precondition: no [Err], no [Panic]. *)
Definition wp {S A} (m : M S A) (s : S) (Q : A -> S -> Prop) : Prop :=
  match m s with (Ok a, s') => Q a s' | _ => False end.

Lemma wp_ret {S A} (a : A) (s : S) Q : Q a s -> wp (mret a) s Q.
Proof. done. Qed.

Lemma wp_bind {S A B} (m : M S A) (k : A -> M S B) s Q :
  wp m s (fun a s' => wp (k a) s' Q) -> wp (m ≫= k) s Q.
Proof.
  unfold wp, mbind, M_bind. by destruct (m s) as [[a|e|] s'].
Qed.

Lemma wp_mono {S A} (m : M S A) s (Q Q' : A -> S -> Prop) :
  wp m s Q -> (forall a s', Q a s' -> Q' a s') -> wp m s Q'.
Proof. unfold wp. destruct (m s) as [[a|e|] s']; naive_solver. Qed.

Lemma wp_inv {S A} (m : M S A) s Q :
  wp m s Q -> exists a s', m s = (Ok a, s') /\ Q a s'.
Proof. unfold wp. destruct (m s) as [[a|e|] s']; naive_solver. Qed.

Lemma wp_lift {S A} (r : res A) (s : S) Q a :
  r = Ok a -> Q a s -> wp (lift r) s Q.
Proof. by intros ->. Qed.

(** ** Counted loops: [for i in lo..hi] and [for i in (lo..hi).rev()] *)

Definition for_range {S} (lo hi : nat) (body : nat -> S -> S) (s : S) : S :=
  foldl (fun s i => body i s) s (seq lo (hi - lo)).

Definition for_range_rev {S} (lo hi : nat) (body : nat -> S -> S) (s : S) : S :=
  foldl (fun s i => body i s) s (reverse (seq lo (hi - lo))).

Lemma for_range_ind {S} (P : nat -> S -> Prop) lo hi body s :
  lo <= hi -> P lo s ->
  (forall i s, lo <= i < hi -> P i s -> P (i + 1) (body i s)) ->
  P hi (for_range lo hi body s).
Proof.
  intros Hle Hlo Hstep. unfold for_range.
  remember (hi - lo) as n eqn:Hn. revert lo s Hle Hlo Hstep Hn.
  induction n as [|n IH]; intros lo s Hle Hlo Hstep Hn; simpl.
  - by replace hi with lo by lia.
  - apply IH; try lia.
    + replace (Datatypes.S lo) with (lo + 1) by lia. apply Hstep; [lia|done].
    + intros i s' Hi. apply Hstep. lia.
Qed.

Lemma for_range_rev_ind {S} (P : nat -> S -> Prop) lo hi body s :
  lo <= hi -> P hi s ->
  (forall i s, lo <= i < hi -> P (i + 1) s -> P i (body i s)) ->
  P lo (for_range_rev lo hi body s).
Proof.
  intros Hle Hhi Hstep. unfold for_range_rev.
  remember (hi - lo) as n eqn:Hn. revert hi s Hle Hhi Hstep Hn.
  induction n as [|n IH]; intros hi s Hle Hhi Hstep Hn.
  - simpl. by replace lo with hi by lia.
  - rewrite seq_S, reverse_snoc. simpl. replace (lo + n) with (hi - 1) by lia.
    apply (IH (hi - 1)); try lia.
    + apply Hstep; [lia|]. by replace (hi - 1 + 1) with hi by lia.
    + intros i s' Hi. apply Hstep. lia.
Qed.

(** ** Machine integers *)

Definition u8 (z : Z) : Z := (z mod 2 ^ 8)%Z.
Definition u16 (z : Z) : Z := (z mod 2 ^ 16)%Z.

(** [n as u32] for a [usize] held as [nat]. *)
Definition u32 (n : nat) : nat := Z.to_nat (Z.of_nat n mod 2 ^ 32).

Lemma u32_small n : (Z.of_nat n < 2 ^ 32)%Z -> u32 n = n.
Proof. intros H. unfold u32. rewrite Z.mod_small; lia. Qed.

Lemma u32_le n : u32 n <= n.
Proof.
  unfold u32. pose proof (Z.mod_le (Z.of_nat n) (2 ^ 32) ltac:(lia) ltac:(lia)).
  pose proof (Z.mod_pos_bound (Z.of_nat n) (2 ^ 32) ltac:(lia)). lia.
Qed.

(** [usize::div_ceil] *)
Definition div_ceil (n d : nat) : nat := (n + (d - 1)) / d.
#[global] Arguments div_ceil : simpl never.

(** ** Generic list lemmas *)

Lemma foldl_snoc {A B} (f : A -> B -> A) a l x : foldl f a (l ++ [x]) = f (foldl f a l) x.
Proof. by rewrite foldl_app. Qed.

Lemma Forall2_lookup_l' {A B} (P : A -> B -> Prop) l k i x :
  Forall2 P l k -> l !! i = Some x -> exists y, k !! i = Some y /\ P x y.
Proof. intros H Hi. eapply Forall2_lookup_l in Hi; eauto. Qed.

Lemma bool_decide_reflects (P : Prop) `{Decision P} (b : bool) :
  (P <-> b = true) -> bool_decide P = b.
Proof. intros HP. case_bool_decide; destruct b; naive_solver. Qed.

(** Boolean comparisons with a known answer. *)
Lemma ltb_t (a b : nat) : a < b -> (a <? b) = true.
Proof. apply Nat.ltb_lt. Qed.
Lemma ltb_f (a b : nat) : b <= a -> (a <? b) = false.
Proof. apply Nat.ltb_ge. Qed.
Lemma leb_t (a b : nat) : a <= b -> (a <=? b) = true.
Proof. apply Nat.leb_le. Qed.
Lemma leb_f (a b : nat) : b < a -> (a <=? b) = false.
Proof. apply Nat.leb_gt. Qed.
