(* ===== verification/Bits.v ===== *)
(** * Bit lists and integers

    Least-significant-bit-first bit lists (the order of [circuits::Bits]) and
    the integers they stand for: [bz] reads a bit list as an unsigned integer,
    [zb w v] writes the low [w] bits of [v].  The byte vectors of the word
    level and the gate vectors of the circuit level are both related to these. *)
From S2P Require Import Prelude.

#[local] Open Scope Z_scope.

Create Rewrite HintDb bits.

Fixpoint bz (l : list bool) : Z :=
  match l with [] => 0 | b :: l => Z.b2z b + 2 * bz l end.

Fixpoint zb (w : nat) (v : Z) : list bool :=
  match w with O => [] | S w => Z.odd v :: zb w (Z.div2 v) end.

(** [2^w] for a width held as [nat]. *)
Notation "'pow2' w" := (2 ^ Z.of_nat w)%Z (at level 10, w at level 9).

Lemma pow2_pos (w : nat) : 0 < pow2 w.
Proof. apply Z.pow_pos_nonneg; lia. Qed.

Lemma pow2_S (w : nat) : pow2 (S w) = 2 * pow2 w.
Proof. rewrite Nat2Z.inj_succ, Z.pow_succ_r; lia. Qed.

Lemma pow2_add (a b : nat) : pow2 (a + b) = pow2 a * pow2 b.
Proof. rewrite Nat2Z.inj_add, Z.pow_add_r; lia. Qed.

Lemma pow2_le (a b : nat) : (a <= b)%nat -> pow2 a <= pow2 b.
Proof. intros. apply Z.pow_le_mono_r; lia. Qed.

Lemma length_zb w v : length (zb w v) = w.
Proof. revert v. induction w; intros v; simpl; auto. Qed.
#[export] Hint Rewrite length_zb : bits.

Lemma bz_bound l : 0 <= bz l < pow2 (length l).
Proof.
  induction l as [|b l IH]; [simpl; lia|].
  cbn [bz length]. rewrite pow2_S. destruct b; simpl Z.b2z; lia.
Qed.

Lemma bz_nonneg l : 0 <= bz l.
Proof. apply bz_bound. Qed.

Lemma odd_b2z_2 b z : Z.odd (Z.b2z b + 2 * z) = b.
Proof. rewrite Z.odd_add_mul_2. by destruct b. Qed.

Lemma div2_b2z_2 b z : Z.div2 (Z.b2z b + 2 * z) = z.
Proof.
  rewrite Z.div2_div. replace (Z.b2z b + 2 * z) with (z * 2 + Z.b2z b) by lia.
  rewrite Z.div_add_l, Z.div_small; destruct b; simpl; lia.
Qed.

Lemma b2z_odd_div2 v : Z.b2z (Z.odd v) + 2 * Z.div2 v = v.
Proof. pose proof (Z.div2_odd v). lia. Qed.

Lemma bz_zb w v : bz (zb w v) = v mod pow2 w.
Proof.
  revert v. induction w as [|w IH]; intros v.
  - simpl. by rewrite Z.mod_1_r.
  - cbn [zb bz]. rewrite IH, pow2_S.
    pose proof (pow2_pos w). rewrite Z.rem_mul_r by lia.
    rewrite <- Z.div2_div, Zmod_odd. by destruct (Z.odd v).
Qed.

Lemma zb_bz l : zb (length l) (bz l) = l.
Proof.
  induction l as [|b l IH]; [done|]. cbn [bz length zb].
  by rewrite odd_b2z_2, div2_b2z_2, IH.
Qed.

Lemma bz_inj l k : length l = length k -> bz l = bz k -> l = k.
Proof. intros Hl Hz. rewrite <- (zb_bz l), <- (zb_bz k). congruence. Qed.

Lemma bz_zb_small w v : 0 <= v < pow2 w -> bz (zb w v) = v.
Proof. intros. rewrite bz_zb. by apply Z.mod_small. Qed.

Lemma zb_eq w a b : a mod pow2 w = b mod pow2 w -> zb w a = zb w b.
Proof.
  intros H. apply bz_inj; [by rewrite !length_zb|]. by rewrite !bz_zb.
Qed.

Lemma zb_mod w v : zb w (v mod pow2 w) = zb w v.
Proof. apply zb_eq. apply Z.mod_mod. pose proof (pow2_pos w). lia. Qed.

Lemma testbit_bz l i :
  Z.testbit (bz l) (Z.of_nat i) = default false (l !! i).
Proof.
  revert i. induction l as [|b l IH]; intros i.
  - by rewrite Z.testbit_0_l.
  - destruct i as [|i].
    + cbn [bz]. change (Z.of_nat 0) with 0. rewrite Z.bit0_odd. by rewrite odd_b2z_2.
    + cbn [bz]. rewrite Nat2Z.inj_succ, Z.add_comm.
      rewrite Z.testbit_succ_r by lia. apply IH.
Qed.

Lemma lookup_zb w v i :
  zb w v !! i = if decide (i < w)%nat then Some (Z.testbit v (Z.of_nat i)) else None.
Proof.
  revert v i. induction w as [|w IH]; intros v i; [done|].
  destruct i as [|i]; cbn [zb].
  - rewrite decide_True by lia. change (Z.of_nat 0) with 0. by rewrite Z.bit0_odd.
  - change ((_ :: ?l) !! S i) with (l !! i). rewrite IH.
    rewrite Nat2Z.inj_succ, <- Z.div2_bits, <- Z.div2_div by lia.
    repeat case_decide; try done; lia.
Qed.

Lemma lookup_zb_lt w v i : (i < w)%nat -> zb w v !! i = Some (Z.testbit v (Z.of_nat i)).
Proof. intros. rewrite lookup_zb. by rewrite decide_True. Qed.

(** Extensionality: a bit list of length [w] is [zb w v] when it has [v]'s bits. *)
Lemma zb_ext l w v :
  length l = w ->
  (forall i, (i < w)%nat -> default false (l !! i) = Z.testbit v (Z.of_nat i)) ->
  l = zb w v.
Proof.
  intros Hlen H. apply list_eq. intros i. rewrite lookup_zb. case_decide as Hi.
  - rewrite <- H by done. destruct (l !! i) eqn:E; [done|].
    apply lookup_ge_None in E. lia.
  - apply lookup_ge_None. lia.
Qed.

(** Integers below [pow2 w] are determined by their low [w] bits. *)
Lemma Z_ext_w w a b :
  0 <= a < pow2 w -> 0 <= b < pow2 w ->
  (forall i, (i < w)%nat -> Z.testbit a (Z.of_nat i) = Z.testbit b (Z.of_nat i)) ->
  a = b.
Proof.
  intros Ha Hb H. rewrite <- (bz_zb_small w a), <- (bz_zb_small w b) by done.
  f_equal. apply zb_ext; [by rewrite length_zb|]. intros i Hi.
  rewrite lookup_zb_lt by done. simpl. by apply H.
Qed.

Lemma testbit_high w a i : 0 <= a < pow2 w -> Z.of_nat w <= i -> Z.testbit a i = false.
Proof.
  intros Ha Hi. rewrite <- (Z.mod_small a (pow2 w)) by done.
  apply Z.mod_pow2_bits_high. lia.
Qed.

Lemma testbit_pow2_mod w a i :
  Z.testbit (a mod pow2 w) (Z.of_nat i) = (i <? w)%nat && Z.testbit a (Z.of_nat i).
Proof.
  destruct (Nat.ltb_spec i w).
  - rewrite Z.mod_pow2_bits_low by lia. done.
  - rewrite Z.mod_pow2_bits_high by lia. done.
Qed.

Lemma bz_app l k : bz (l ++ k) = bz l + pow2 (length l) * bz k.
Proof.
  induction l as [|b l IH]; [cbn [app bz length]; change (pow2 0) with 1; lia|].
  change ((b :: l) ++ k) with (b :: (l ++ k)). cbn [bz length].
  rewrite IH, pow2_S. lia.
Qed.

Lemma zb_app a b v : zb (a + b) v = zb a v ++ zb b (Z.shiftr v (Z.of_nat a)).
Proof.
  symmetry. apply zb_ext; [by rewrite length_app, !length_zb|].
  intros i Hi. destruct (decide (i < a)%nat).
  - rewrite lookup_app_l by (by rewrite length_zb). by rewrite lookup_zb_lt.
  - rewrite lookup_app_r by (rewrite length_zb; lia).
    rewrite length_zb, lookup_zb_lt by lia. simpl.
    rewrite Z.shiftr_spec by lia. f_equal. lia.
Qed.

Lemma bz_replicate_false n : bz (replicate n false) = 0.
Proof. induction n as [|n IH]; [done|]. cbn [replicate bz]. by rewrite IH. Qed.

Lemma bz_replicate_true n : bz (replicate n true) = pow2 n - 1.
Proof.
  induction n as [|n IH]; [done|]. cbn [replicate bz]. rewrite IH, pow2_S. simpl Z.b2z. lia.
Qed.

Lemma zb_0 n : zb n 0 = replicate n false.
Proof.
  apply bz_inj; [by rewrite length_zb, length_replicate|].
  rewrite bz_zb, bz_replicate_false. apply Z.mod_0_l. pose proof (pow2_pos n). lia.
Qed.

Lemma zb_ones n : zb n (-1) = replicate n true.
Proof.
  symmetry. apply zb_ext; [by rewrite length_replicate|]. intros i Hi.
  rewrite lookup_replicate_2 by done. simpl. by rewrite Z.bits_m1 by lia.
Qed.

Lemma zb_take k w v : (k <= w)%nat -> take k (zb w v) = zb k v.
Proof.
  intros. replace w with (k + (w - k))%nat by lia. rewrite zb_app.
  rewrite take_app_length'; [done|by rewrite length_zb].
Qed.

Lemma zb_drop k w v : (k <= w)%nat -> drop k (zb w v) = zb (w - k) (Z.shiftr v (Z.of_nat k)).
Proof.
  intros. replace w with (k + (w - k))%nat at 1 by lia. rewrite zb_app.
  rewrite drop_app_length'; [done|by rewrite length_zb].
Qed.

(** The most significant bit. *)
Lemma last_zb w v : (0 < w)%nat -> last (zb w v) = Some (Z.testbit v (Z.of_nat w - 1)).
Proof.
  intros Hw. rewrite last_lookup, length_zb. rewrite lookup_zb_lt by lia.
  do 2 f_equal. lia.
Qed.

Lemma msb_spec w v : (0 < w)%nat -> 0 <= v < pow2 w ->
  Z.testbit v (Z.of_nat w - 1) = (pow2 w <=? 2 * v).
Proof.
  intros Hw Hv. replace (Z.of_nat w - 1) with (Z.of_nat (w - 1)) by lia.
  replace w with (S (w - 1))%nat in * by lia. rewrite pow2_S in *.
  replace (S (w - 1) - 1)%nat with (w - 1)%nat by lia.
  pose proof (pow2_pos (w - 1)%nat) as Hp.
  rewrite Z.testbit_eqb by lia.
  destruct (Z.leb_spec (2 * pow2 (w - 1)) (2 * v)) as [H|H].
  - replace (v / pow2 (w - 1)) with 1; [done|].
    apply Z.div_unique with (v - pow2 (w - 1)); lia.
  - rewrite Z.div_small by lia. done.
Qed.

Lemma zb_succ_r w v : zb (S w) v = zb w v ++ [Z.testbit v (Z.of_nat w)].
Proof.
  replace (S w) with (w + 1)%nat by lia. rewrite zb_app. f_equal.
  cbn [zb]. f_equal. rewrite <- Z.bit0_odd, Z.shiftr_spec by lia. f_equal.
Qed.

(** One more bit of a residue. *)
Lemma mod_pow2_S c k : c mod pow2 (S k) = c mod pow2 k + Z.b2z (Z.testbit c (Z.of_nat k)) * pow2 k.
Proof.
  pose proof (pow2_pos k). rewrite pow2_S, (Z.mul_comm 2), Z.rem_mul_r by lia.
  rewrite Z.testbit_spec' by lia. lia.
Qed.

