(* ===== verification/Smt.v ===== *)
(** * The abstract specification: SMT-LIB bit-vector operations on integers

    A bit-vector of width [w] is an integer in [0, 2^w).  These are the
    meanings the theory [FixedSizeBitVectors] (with the overflow predicates of
    SMT-LIB 2.7) gives to the operations; nothing here is translated from the
    program.  The evaluator ([eval.rs]) and the circuits ([circuits.rs]) are
    both proved to compute these functions. *)
From S2P Require Import Prelude Bits.

#[local] Open Scope Z_scope.

Inductive value :=
  | VBool (b : bool)
  | VBv (w : nat) (z : Z).

#[export] Instance value_eq_dec : EqDecision value.
Proof. solve_decision. Defined.

Section ops.
Variable w : nat.

Definition wrap (z : Z) : Z := z mod pow2 w.

(** Two's complement reading. *)
Definition sval (a : Z) : Z := if pow2 w <=? 2 * a then a - pow2 w else a.

Definition bvnot (a : Z) : Z := pow2 w - 1 - a.
Definition bvneg (a : Z) : Z := wrap (- a).
Definition bvadd (a b : Z) : Z := wrap (a + b).
Definition bvsub (a b : Z) : Z := wrap (a - b).
Definition bvmul (a b : Z) : Z := wrap (a * b).

Definition bvudiv (a b : Z) : Z := if b =? 0 then pow2 w - 1 else a / b.
Definition bvurem (a b : Z) : Z := if b =? 0 then a else a mod b.

(** Signed division truncates towards zero; [bvsrem] takes the sign of the
    dividend, [bvsmod] the sign of the divisor. *)
Definition bvsdiv (a b : Z) : Z :=
  if b =? 0 then (if sval a <? 0 then 1 else pow2 w - 1)
  else wrap (Z.quot (sval a) (sval b)).
Definition bvsrem (a b : Z) : Z :=
  if b =? 0 then a else wrap (Z.rem (sval a) (sval b)).
Definition bvsmod (a b : Z) : Z :=
  if b =? 0 then a else wrap (sval a mod sval b).

Definition bvshl (a b : Z) : Z :=
  if b <? Z.of_nat w then wrap (Z.shiftl a b) else 0.
Definition bvlshr (a b : Z) : Z :=
  if b <? Z.of_nat w then Z.shiftr a b else 0.
Definition bvashr (a b : Z) : Z :=
  wrap (Z.shiftr (sval a) (Z.min b (Z.of_nat w))).

(** Here [w] is the width of the low operand. *)
Definition bvconcat (high low : Z) : Z := high * pow2 w + low.
Definition bvsext (extra : nat) (a : Z) : Z := sval a mod pow2 (w + extra).

Fixpoint bvrepeat (count : nat) (a : Z) : Z :=
  match count with O => 0 | S n => bvconcat (bvrepeat n a) a end.

Definition bvrotl (k : nat) (a : Z) : Z :=
  let k := (k mod w)%nat in
  wrap (Z.shiftl a (Z.of_nat k)) + Z.shiftr a (Z.of_nat (w - k)).
Definition bvrotr (k : nat) (a : Z) : Z := bvrotl (w - k mod w) a.

Definition bvult (a b : Z) : bool := a <? b.
Definition bvule (a b : Z) : bool := a <=? b.
Definition bvslt (a b : Z) : bool := sval a <? sval b.
Definition bvsle (a b : Z) : bool := sval a <=? sval b.

Definition in_signed_range (z : Z) : bool := (- pow2 w <=? 2 * z) && (2 * z <? pow2 w).

Definition bvuaddo (a b : Z) : bool := pow2 w <=? a + b.
Definition bvsaddo (a b : Z) : bool := negb (in_signed_range (sval a + sval b)).
Definition bvusubo (a b : Z) : bool := a - b <? 0.
Definition bvssubo (a b : Z) : bool := negb (in_signed_range (sval a - sval b)).
Definition bvumulo (a b : Z) : bool := pow2 w <=? a * b.
Definition bvsmulo (a b : Z) : bool := negb (in_signed_range (sval a * sval b)).
Definition bvnego (a : Z) : bool := negb (in_signed_range (- sval a)).
(** The only quotient out of range is [min / -1]. *)
Definition bvsdivo (a b : Z) : bool :=
  negb (b =? 0) && negb (in_signed_range (Z.quot (sval a) (sval b))).
End ops.

Definition bvextract (high low : nat) (a : Z) : Z :=
  Z.shiftr a (Z.of_nat low) mod pow2 (high - low + 1).

(** ** Facts shared by the two implementations *)

Lemma wrap_bound w z : 0 <= wrap w z < pow2 w.
Proof. apply Z.mod_pos_bound, pow2_pos. Qed.

Lemma wrap_small w z : 0 <= z < pow2 w -> wrap w z = z.
Proof. apply Z.mod_small. Qed.

Lemma zb_wrap w z : zb w (wrap w z) = zb w z.
Proof. apply zb_mod. Qed.

Lemma zb_wrap_eq w a b : wrap w a = wrap w b -> zb w a = zb w b.
Proof. apply zb_eq. Qed.

Lemma sval_wrap w a : 0 <= a < pow2 w -> wrap w (sval w a) = a.
Proof.
  intros Ha. unfold wrap, sval. case_match; [|by apply Z.mod_small].
  symmetry. apply Z.mod_unique_pos with (-1); lia.
Qed.

Lemma sval_range w a : 0 <= a < pow2 w -> - pow2 w <= 2 * sval w a < pow2 w.
Proof. intros Ha. unfold sval. case_match eqn:E; lia. Qed.

Lemma sval_in_range w a : 0 <= a < pow2 w -> in_signed_range w (sval w a) = true.
Proof. intros Ha. pose proof (sval_range w a Ha). unfold in_signed_range. lia. Qed.

Lemma sval_msb w a : (0 < w)%nat -> 0 <= a < pow2 w ->
  sval w a = if Z.testbit a (Z.of_nat w - 1) then a - pow2 w else a.
Proof. intros Hw Ha. by rewrite msb_spec. Qed.

Lemma sval_neg w a : (0 < w)%nat -> 0 <= a < pow2 w ->
  (sval w a <? 0) = Z.testbit a (Z.of_nat w - 1).
Proof.
  intros Hw Ha. rewrite msb_spec by done. unfold sval. case_match eqn:E; lia.
Qed.

(** Wrapping loses exactly the multiples of [2^w]. *)
Lemma wrap_eq_iff w a b : wrap w a = wrap w b <-> exists k, a = b + k * pow2 w.
Proof.
  unfold wrap. pose proof (pow2_pos w). split.
  - intros H'. exists (a / pow2 w - b / pow2 w).
    pose proof (Z.div_mod a (pow2 w) ltac:(lia)).
    pose proof (Z.div_mod b (pow2 w) ltac:(lia)). lia.
  - intros [k ->]. apply Z.mod_add. lia.
Qed.

Lemma wrap_add_mul w a k : wrap w (a + k * pow2 w) = wrap w a.
Proof. apply Z.mod_add. pose proof (pow2_pos w). lia. Qed.

Lemma wrap_wrap w a : wrap w (wrap w a) = wrap w a.
Proof. apply Z.mod_mod. pose proof (pow2_pos w). lia. Qed.

Lemma wrap_add w a b : wrap w (wrap w a + wrap w b) = wrap w (a + b).
Proof. symmetry. apply Z.add_mod. pose proof (pow2_pos w). lia. Qed.

Lemma wrap_add_l w a b : wrap w (wrap w a + b) = wrap w (a + b).
Proof. by rewrite <- wrap_add, wrap_wrap, wrap_add. Qed.

Lemma wrap_add_r w a b : wrap w (a + wrap w b) = wrap w (a + b).
Proof. by rewrite <- wrap_add, wrap_wrap, wrap_add. Qed.

Lemma wrap_mul w a b : wrap w (wrap w a * wrap w b) = wrap w (a * b).
Proof. symmetry. apply Z.mul_mod. pose proof (pow2_pos w). lia. Qed.

Lemma wrap_sub w a b : wrap w (wrap w a - wrap w b) = wrap w (a - b).
Proof. symmetry. apply Zminus_mod. Qed.

Lemma wrap_opp w a : wrap w (- wrap w a) = wrap w (- a).
Proof. rewrite <- !Z.sub_0_l. rewrite <- wrap_sub, wrap_wrap, wrap_sub. done. Qed.

(** A result is out of the signed range exactly when reading the wrapped result
    as a signed number does not give it back. *)
Lemma in_signed_range_sval w z : in_signed_range w z = (sval w (wrap w z) =? z).
Proof.
  pose proof (pow2_pos w). pose proof (wrap_bound w z).
  unfold in_signed_range. apply eq_bool_prop_intro. rewrite andb_True, !Is_true_true.
  rewrite Z.leb_le, Z.ltb_lt, Z.eqb_eq. split.
  - intros [H1 H2]. unfold wrap. destruct (decide (0 <= z)).
    + rewrite Z.mod_small by lia. unfold sval. case_match eqn:E; lia.
    + replace (z mod pow2 w) with (z + pow2 w) by (apply Z.mod_unique_pos with (-1); lia).
      unfold sval. case_match eqn:E; lia.
  - intros <-. pose proof (sval_range w (wrap w z) ltac:(lia)). lia.
Qed.

(** ** Ranges *)

Lemma bvextract_bound high low a : 0 <= bvextract high low a < pow2 (high - low + 1).
Proof. apply wrap_bound. Qed.

Lemma bvconcat_bound wh wl h l : 0 <= h < pow2 wh -> 0 <= l < pow2 wl ->
  0 <= bvconcat wl h l < pow2 (wh + wl).
Proof.
  intros Hh Hl. unfold bvconcat. rewrite pow2_add. pose proof (pow2_pos wl). nia.
Qed.

Lemma bvsext_bound w extra a : 0 <= bvsext w extra a < pow2 (w + extra).
Proof. apply wrap_bound. Qed.

Lemma bvrepeat_bound w n a : 0 <= a < pow2 w -> 0 <= bvrepeat w n a < pow2 (w * n).
Proof.
  intros Ha. induction n as [|n IH].
  - rewrite Nat.mul_0_r. simpl. lia.
  - cbn [bvrepeat]. replace (w * S n)%nat with (w * n + w)%nat by lia. by apply bvconcat_bound.
Qed.

(** ** Bits of the structural operations *)

Lemma testbit_concat wl h l i : 0 <= l < pow2 wl ->
  Z.testbit (bvconcat wl h l) (Z.of_nat i) =
    if (i <? wl)%nat then Z.testbit l (Z.of_nat i) else Z.testbit h (Z.of_nat (i - wl)).
Proof.
  intros Hl. unfold bvconcat. destruct (Nat.ltb_spec i wl).
  - rewrite <- (Z.mod_pow2_bits_low _ (Z.of_nat wl)) by lia.
    rewrite Z.add_comm, Z.mod_add by (pose proof (pow2_pos wl); lia).
    by rewrite Z.mod_small.
  - replace (Z.of_nat i) with (Z.of_nat (i - wl) + Z.of_nat wl) by lia.
    rewrite <- Z.div_pow2_bits by lia. f_equal.
    rewrite Z.div_add_l, Z.div_small by (pose proof (pow2_pos wl); lia). lia.
Qed.

Lemma testbit_extract high low a i :
  Z.testbit (bvextract high low a) (Z.of_nat i) =
    (i <? high - low + 1)%nat && Z.testbit a (Z.of_nat (low + i)).
Proof.
  unfold bvextract. rewrite testbit_pow2_mod, Z.shiftr_spec by lia.
  do 2 f_equal. lia.
Qed.

Lemma testbit_sval w a i : (0 < w)%nat -> 0 <= a < pow2 w ->
  Z.testbit (sval w a) (Z.of_nat i) =
    if (i <? w)%nat then Z.testbit a (Z.of_nat i) else Z.testbit a (Z.of_nat w - 1).
Proof.
  intros Hw Ha. rewrite sval_msb by done. destruct (Z.testbit a (Z.of_nat w - 1)) eqn:E.
  - replace (a - pow2 w) with (bvconcat w (-1) a) by (unfold bvconcat; lia).
    rewrite testbit_concat by done. case_match; [done|]. by rewrite Z.bits_m1 by lia.
  - destruct (Nat.ltb_spec i w); [done|]. apply (testbit_high w); lia.
Qed.

Lemma testbit_sext w extra a i : (0 < w)%nat -> 0 <= a < pow2 w ->
  Z.testbit (bvsext w extra a) (Z.of_nat i) =
    (i <? w + extra)%nat &&
    if (i <? w)%nat then Z.testbit a (Z.of_nat i) else Z.testbit a (Z.of_nat w - 1).
Proof. intros Hw Ha. unfold bvsext. by rewrite testbit_pow2_mod, testbit_sval. Qed.

Lemma testbit_repeat w n a i : (0 < w)%nat -> 0 <= a < pow2 w ->
  Z.testbit (bvrepeat w n a) (Z.of_nat i) =
    (i <? w * n)%nat && Z.testbit a (Z.of_nat (i mod w)).
Proof.
  intros Hw Ha. revert i. induction n as [|n IH]; intros i.
  - rewrite Nat.mul_0_r. simpl. by rewrite Z.testbit_0_l.
  - cbn [bvrepeat]. rewrite testbit_concat by done. destruct (Nat.ltb_spec i w).
    + rewrite Nat.mod_small by done. destruct (Nat.ltb_spec i (w * S n)); [done|nia].
    + rewrite IH. f_equal.
      * apply eq_bool_prop_intro. rewrite !Is_true_true, !Nat.ltb_lt. nia.
      * do 2 f_equal. replace i with ((i - w) + 1 * w)%nat at 2 by lia.
        by rewrite Nat.Div0.mod_add.
Qed.

(** [x / 2^k] has the high bits of [x]. *)
Lemma shiftr_bound w a k : 0 <= a < pow2 w -> 0 <= k -> 0 <= Z.shiftr a k < pow2 w.
Proof.
  intros Ha Hk. rewrite Z.shiftr_div_pow2 by done.
  pose proof (Z.pow_pos_nonneg 2 k ltac:(lia) Hk). split.
  - apply Z.div_pos; lia.
  - apply Z.div_lt_upper_bound; [lia|]. nia.
Qed.

Lemma bvrotl_eq_lor w k a : 0 <= a < pow2 w ->
  bvrotl w k a =
    Z.lor (wrap w (Z.shiftl a (Z.of_nat (k mod w)))) (Z.shiftr a (Z.of_nat (w - k mod w))).
Proof.
  intros Ha. unfold bvrotl. set (j := (k mod w)%nat).
  assert (w = 0 \/ j < w)%nat as Hj
    by (destruct w; [by left|right; apply Nat.mod_upper_bound; lia]).
  rewrite Z.add_nocarry_lxor, Z.lxor_lor; [done| |].
  all: apply Z.bits_inj'; intros i Hi; rewrite Z.land_spec, Z.bits_0.
  all: replace i with (Z.of_nat (Z.to_nat i)) by lia; generalize (Z.to_nat i); intros n.
  all: unfold wrap; rewrite testbit_pow2_mod, Z.shiftl_spec, Z.shiftr_spec by lia.
  all: destruct (Nat.ltb_spec n j);
    [rewrite (Z.testbit_neg_r a (Z.of_nat n - _)) by lia; by rewrite andb_false_r|].
  all: rewrite (testbit_high w a (Z.of_nat n + _)) by lia; by rewrite andb_false_r.
Qed.

Lemma testbit_rotl w k a i : (i < w)%nat -> 0 <= a < pow2 w ->
  Z.testbit (bvrotl w k a) (Z.of_nat i) = Z.testbit a (Z.of_nat ((i + w - k mod w) mod w)).
Proof.
  intros Hi Ha. rewrite bvrotl_eq_lor by done.
  pose proof (Nat.mod_upper_bound k w ltac:(lia)) as Hj. set (j := (k mod w)%nat) in *.
  unfold wrap. rewrite Z.lor_spec, testbit_pow2_mod, Z.shiftl_spec, Z.shiftr_spec by lia.
  assert ((i <? w)%nat = true) as -> by (by apply Nat.ltb_lt). rewrite andb_true_l.
  destruct (decide (i < j)%nat).
  - rewrite (Z.testbit_neg_r a (Z.of_nat i - _)) by lia. rewrite orb_false_l.
    rewrite Nat.mod_small by lia. f_equal. lia.
  - rewrite (testbit_high w a (Z.of_nat i + _)) by lia. rewrite orb_false_r.
    replace (i + w - j)%nat with ((i - j) + 1 * w)%nat by lia.
    rewrite Nat.Div0.mod_add, Nat.mod_small by lia. f_equal. lia.
Qed.

Lemma bvrotl_bound w k a : 0 <= a < pow2 w -> 0 <= bvrotl w k a < pow2 w.
Proof.
  intros Ha. assert (0 <= bvrotl w k a).
  { unfold bvrotl. pose proof (wrap_bound w (Z.shiftl a (Z.of_nat (k mod w)))).
    assert (0 <= Z.shiftr a (Z.of_nat (w - k mod w))) by (apply Z.shiftr_nonneg; lia). lia. }
  split; [done|]. destruct (decide (w = 0)%nat) as [->|].
  { change (pow2 0) with 1 in *. assert (a = 0) as -> by lia. unfold bvrotl.
    rewrite Z.shiftl_0_l, Z.shiftr_0_l. done. }
  enough (bvrotl w k a = wrap w (bvrotl w k a))
    by (pose proof (wrap_bound w (bvrotl w k a)); lia).
  apply Z.bits_inj'. intros i Hi. replace i with (Z.of_nat (Z.to_nat i)) by lia.
  unfold wrap. rewrite testbit_pow2_mod. destruct (Nat.ltb_spec (Z.to_nat i) w); [done|].
  rewrite andb_false_l, bvrotl_eq_lor by done. unfold wrap.
  pose proof (Nat.mod_upper_bound k w ltac:(lia)).
  rewrite Z.lor_spec, testbit_pow2_mod, Z.shiftr_spec by lia.
  rewrite (testbit_high w a) by lia.
  destruct (Nat.ltb_spec (Z.to_nat i) w); [lia|done].
Qed.

Lemma testbit_rotr w k a i : (i < w)%nat -> 0 <= a < pow2 w ->
  Z.testbit (bvrotr w k a) (Z.of_nat i) = Z.testbit a (Z.of_nat ((i + k) mod w)).
Proof.
  intros Hi Ha. unfold bvrotr. rewrite testbit_rotl by done. do 2 f_equal.
  pose proof (Nat.mod_upper_bound k w ltac:(lia)).
  rewrite <- (Nat.Div0.add_mod_idemp_r i k). destruct (decide (k mod w = 0)%nat) as [->|].
  - rewrite Nat.sub_0_r, Nat.Div0.mod_same, Nat.sub_0_r, Nat.add_0_r.
    replace (i + w)%nat with (i + 1 * w)%nat by lia. by rewrite Nat.Div0.mod_add.
  - rewrite (Nat.mod_small (w - k mod w)) by lia. f_equal. lia.
Qed.
