(* ===== verification/Bytes.v ===== *)
(** * Byte-vector arithmetic ([ir.rs], [builder.rs])

    The word level stores a bit-vector of width [w] as [div_ceil w 8] bytes,
    least significant first, with the unused high bits zero.  This file models
    the byte routines of [builder.rs] and the width and normalisation helpers
    of [ir.rs], and relates each to the integer operation it computes.  A [u8]
    is an integer in [0, 256); [u16] sums and products wrap explicitly. *)
From S2P Require Import Prelude Bits Smt.

#[local] Open Scope Z_scope.

(** ** Widths and normalisation ([ir.rs]) *)

Definition MAX_BV_WIDTH : Z := 65536.

Definition validate_bv_width (width : nat) (context : string) : res unit :=
  if (1 <=? Z.of_nat width) && (Z.of_nat width <=? MAX_BV_WIDTH)
  then Ok tt else Err (Invalid context).

Definition bytes_for_width (width : nat) : res nat :=
  _ ← validate_bv_width width "BV width"; Ok (div_ceil width 8).

Definition mask_unused_high_bits (bytes : list Z) (width : nat) : list Z :=
  let valid_bits := (width mod 8)%nat in
  if (valid_bits =? 0)%nat || (length bytes =? 0)%nat then bytes
  else
    let mask := u8 (Z.shiftl 1 (Z.of_nat valid_bits)) - 1 in
    let last := (length bytes - 1)%nat in
    alter (fun b => Z.land b mask) last bytes.

Definition normalized_bytes (bytes : list Z) (width : nat) : res (list Z) :=
  expected ← bytes_for_width width;
  if negb (length bytes =? expected)%nat then Err (Invalid "BV bytes")
  else Ok (mask_unused_high_bits bytes width).

(** ** Bits of a byte vector *)

Definition get_bit (bytes : list Z) (bit : nat) : bool :=
  match bytes !! (bit / 8)%nat with
  | Some byte => negb (Z.land (Z.shiftr byte (Z.of_nat (bit mod 8))) 1 =? 0)
  | None => false
  end.

(** Out of range [set_bit] does nothing ([if let Some(byte)]). *)
Definition set_bit (bytes : list Z) (bit : nat) : list Z :=
  alter (fun byte => Z.lor byte (u8 (Z.shiftl 1 (Z.of_nat (bit mod 8))))) (bit / 8)%nat bytes.

(** ** Arithmetic *)

Fixpoint add_bytes_loop (a b : list Z) (carry : Z) : list Z :=
  match a, b with
  | x :: a, y :: b =>
      let sum := u16 (u16 (x + y) + carry) in
      u8 sum :: add_bytes_loop a b (Z.shiftr sum 8)
  | _, _ => []
  end.

Definition add_bytes (a b : list Z) (width : nat) : list Z :=
  mask_unused_high_bits (add_bytes_loop a b 0) width.

Fixpoint neg_bytes_loop (out : list Z) (carry : Z) : list Z :=
  match out with
  | [] => []
  | byte :: rest =>
      let sum := u16 (byte + carry) in
      let carry := Z.shiftr sum 8 in
      u8 sum :: (if carry =? 0 then rest else neg_bytes_loop rest carry)
  end.

(** [!byte] *)
Definition not_u8 (byte : Z) : Z := Z.lxor byte 255.

Definition neg_bytes (bytes : list Z) (width : nat) : list Z :=
  mask_unused_high_bits (neg_bytes_loop (not_u8 <$> bytes) 1) width.

Definition sub_bytes (a b : list Z) (width : nat) : list Z :=
  add_bytes a (neg_bytes b width) width.

(** One row of the schoolbook product; [pos] is [i + j]. *)
Fixpoint mul_bytes_row (x : Z) (b : list Z) (pos : nat) (carry : Z) (out : list Z) : list Z :=
  match b with
  | [] => out
  | y :: b =>
      match out !! pos with
      | None => out
      | Some slot =>
          let product := u16 (u16 (slot + u16 (x * y)) + carry) in
          mul_bytes_row x b (S pos) (Z.shiftr product 8) (<[pos := u8 product]> out)
      end
  end.

Fixpoint mul_bytes_rows (a b : list Z) (i : nat) (out : list Z) : list Z :=
  match a with
  | [] => out
  | x :: a => mul_bytes_rows a b (S i) (mul_bytes_row x b i 0 out)
  end.

Definition mul_bytes (a b : list Z) (width : nat) : list Z :=
  mask_unused_high_bits (mul_bytes_rows a b 0 (replicate (length a) 0)) width.

(** ** Structure *)

Definition high_bits_zero (bytes : list Z) (from width : nat) : bool :=
  forallb (fun bit => negb (get_bit bytes bit)) (seq from (width - from)).

Definition extract_bytes (bytes : list Z) (low width : nat) : list Z :=
  let out := replicate (div_ceil width 8) 0 in
  let out := for_range 0 width (fun bit out =>
    if get_bit bytes (low + bit) then set_bit out bit else out) out in
  mask_unused_high_bits out width.

Definition concat_bytes (high : list Z) (high_width : nat) (low : list Z) (low_width : nat)
    : list Z :=
  let width := (high_width + low_width)%nat in
  let out := replicate (div_ceil width 8) 0 in
  let out := for_range 0 low_width (fun bit out =>
    if get_bit low bit then set_bit out bit else out) out in
  let out := for_range 0 high_width (fun bit out =>
    if get_bit high bit then set_bit out (low_width + bit) else out) out in
  mask_unused_high_bits out width.

(** [Vec::resize(n, 0)] *)
Definition resize_bytes (n : nat) (bytes : list Z) : list Z := resize n 0 bytes.

Definition sext_bytes (bytes : list Z) (width extra : nat) : list Z :=
  let out_width := (width + extra)%nat in
  let out := resize_bytes (div_ceil out_width 8) bytes in
  let out := if get_bit bytes (width - 1)
             then for_range width out_width (fun bit out => set_bit out bit) out
             else out in
  mask_unused_high_bits out out_width.

Definition repeat_bytes (bytes : list Z) (width count : nat) : list Z :=
  let out_width := (width * count)%nat in
  let out := replicate (div_ceil out_width 8) 0 in
  let out := for_range 0 count (fun copy out =>
    let offset := (copy * width)%nat in
    for_range 0 width (fun bit out =>
      if get_bit bytes bit then set_bit out (offset + bit) else out) out) out in
  mask_unused_high_bits out out_width.

Definition rotate_left_bytes (bytes : list Z) (width amount : nat) : list Z :=
  let out := replicate (div_ceil width 8) 0 in
  for_range 0 width (fun bit out =>
    let source := ((bit + width - amount) mod width)%nat in
    if get_bit bytes source then set_bit out bit else out) out.

Definition rotate_right_bytes (bytes : list Z) (width amount : nat) : list Z :=
  let out := replicate (div_ceil width 8) 0 in
  for_range 0 width (fun bit out =>
    let source := ((bit + amount) mod width)%nat in
    if get_bit bytes source then set_bit out bit else out) out.

Definition shl_bytes (bytes : list Z) (width amount : nat) : list Z :=
  let out := replicate (div_ceil width 8) 0 in
  let out := for_range amount width (fun bit out =>
    if get_bit bytes (bit - amount) then set_bit out bit else out) out in
  mask_unused_high_bits out width.

(** [saturating_sub] is the truncated subtraction of [nat]. *)
Definition lshr_bytes (bytes : list Z) (width amount : nat) : list Z :=
  let out := replicate (div_ceil width 8) 0 in
  for_range 0 (width - amount) (fun bit out =>
    if get_bit bytes (bit + amount) then set_bit out bit else out) out.

Definition ashr_bytes (bytes : list Z) (width amount : nat) : list Z :=
  let out := lshr_bytes bytes width (amount `min` width) in
  let out := if get_bit bytes (width - 1)
             then let start := (width - amount `min` width)%nat in
                  for_range start width (fun bit out => set_bit out bit) out
             else out in
  mask_unused_high_bits out width.

(** ** Bounded conversion and comparison *)

Definition usize_max : Z := 2 ^ 64 - 1.

(** The loop over the bits of one byte; [inl] is the early [return]. *)
Fixpoint bounded_usize_bits (byte : Z) (byte_index bit_in_byte n : nat) (value bound : Z) : Z + Z :=
  match n with
  | O => inr value
  | S n =>
      if Z.land (Z.shiftr byte (Z.of_nat bit_in_byte)) 1 =? 0
      then bounded_usize_bits byte byte_index (S bit_in_byte) n value bound
      else
        let bit := (byte_index * 8 + bit_in_byte)%nat in
        if 64 <=? Z.of_nat bit then inl bound
        else
          let value := Z.min (value + Z.shiftl 1 (Z.of_nat bit)) usize_max in
          if bound <=? value then inl bound
          else bounded_usize_bits byte byte_index (S bit_in_byte) n value bound
  end.

Fixpoint bounded_usize_loop (bytes : list Z) (byte_index : nat) (value bound : Z) : Z :=
  match bytes with
  | [] => value
  | byte :: bytes =>
      if byte =? 0 then bounded_usize_loop bytes (S byte_index) value bound
      else match bounded_usize_bits byte byte_index 0 8 value bound with
           | inl r => r
           | inr value => bounded_usize_loop bytes (S byte_index) value bound
           end
  end.

Definition bytes_to_bounded_usize (bytes : list Z) (bound : nat) : nat :=
  Z.to_nat (bounded_usize_loop bytes 0 0 (Z.of_nat bound)).

Definition is_one_bytes (bytes : list Z) : bool :=
  bool_decide (head bytes = Some 1) && forallb (fun byte => byte =? 0) (drop 1 bytes).

(** Compare from the most significant pair; the first difference decides. *)
Fixpoint cmp_pairs (l : list (Z * Z)) : comparison :=
  match l with
  | [] => Eq
  | (x, y) :: l => match x ?= y with Eq => cmp_pairs l | non_eq => non_eq end
  end.

Definition cmp_unsigned_bytes (a b : list Z) : comparison :=
  cmp_pairs (reverse (zip a b)).

Definition signed_less_than (a b : list Z) (width : nat) : bool :=
  let sign_a := get_bit a (width - 1) in
  let sign_b := get_bit b (width - 1) in
  match sign_a, sign_b with
  | true, false => true
  | false, true => false
  | _, _ => match cmp_unsigned_bytes a b with Lt => true | _ => false end
  end.
