(* ===== verification/BytesFacts.v ===== *)
(** * What the byte routines compute

    [bv_repr w bs z]: the byte vector [bs] is the canonical representation of
    the [w]-bit integer [z] (right length, every byte in range, unused high
    bits zero).  Every routine of [Bytes.v] is related to the operation of
    [Smt.v] it implements. *)
From S2P Require Import Prelude Bits Smt Bytes.

#[local] Open Scope Z_scope.

Definition is_byte (b : Z) : Prop := 0 <= b < 256.

Fixpoint bval (l : list Z) : Z :=
  match l with [] => 0 | b :: l => b + 256 * bval l end.

Record bv_repr (w : nat) (bs : list Z) (z : Z) : Prop := {
  repr_length : length bs = div_ceil w 8;
  repr_bytes : Forall is_byte bs;
  repr_val : bval bs = z;
  repr_bound : z < pow2 w;
}.

(** The executable form of "some integer is represented". *)
Definition canonical (w : nat) (bs : list Z) : bool :=
  (length bs =? div_ceil w 8)%nat
  && forallb (fun b => (0 <=? b) && (b <? 256)) bs
  && (bval bs <? pow2 w).

(** ** Lengths *)

Lemma div_ceil_8_bounds w : (8 * div_ceil w 8 < w + 8 /\ w <= 8 * div_ceil w 8)%nat.
Proof.
  unfold div_ceil. pose proof (Nat.div_mod_eq (w + 7) 8).
  pose proof (Nat.mod_upper_bound (w + 7) 8). simpl Nat.sub. lia.
Qed.

Lemma div_ceil_8_pos w : (0 < w -> 0 < div_ceil w 8)%nat.
Proof. pose proof (div_ceil_8_bounds w). lia. Qed.

Lemma byte_pos bit n : (bit < 8 * n)%nat -> (bit / 8 < n)%nat.
Proof. intros. apply Nat.Div0.div_lt_upper_bound; lia. Qed.

(** ** Bits and values *)

Lemma bval_nonneg l : Forall is_byte l -> 0 <= bval l.
Proof. induction 1 as [|b l [] ? IH]; simpl; lia. Qed.

Lemma bval_bound l : Forall is_byte l -> bval l < pow2 (8 * length l).
Proof.
  induction 1 as [|b l Hb Hl IH]; [simpl; lia|].
  cbn [bval length]. replace (8 * S (length l))%nat with (8 + 8 * length l)%nat by lia.
  rewrite pow2_add. change (pow2 8) with 256. destruct Hb. lia.
Qed.

Lemma repr_nonneg w bs z : bv_repr w bs z -> 0 <= z.
Proof. intros [_ Hb <- _]. by apply bval_nonneg. Qed.

Lemma repr_range w bs z : bv_repr w bs z -> 0 <= z < pow2 w.
Proof. intros H. split; [by eapply repr_nonneg|apply H]. Qed.

Lemma land_1_testbit b i : 0 <= i -> negb (Z.land (Z.shiftr b i) 1 =? 0) = Z.testbit b i.
Proof.
  intros Hi. change 1 with (Z.ones 1). rewrite Z.land_ones by lia. change (2 ^ 1) with 2.
  rewrite Zmod_odd, <- Z.bit0_odd, Z.shiftr_spec, Z.add_0_l by lia.
  by destruct (Z.testbit b i).
Qed.

Lemma get_bit_lookup bs bit :
  get_bit bs bit = default false ((fun b => Z.testbit b (Z.of_nat (bit mod 8))) <$> bs !! (bit / 8)%nat).
Proof.
  unfold get_bit. destruct (bs !! _) as [b|]; simpl; [|done].
  apply land_1_testbit. lia.
Qed.

Lemma get_bit_cons b bs bit :
  get_bit (b :: bs) bit =
    if decide (bit < 8)%nat then Z.testbit b (Z.of_nat bit) else get_bit bs (bit - 8).
Proof.
  rewrite !get_bit_lookup. case_decide.
  - rewrite Nat.div_small, Nat.mod_small by lia. done.
  - assert (bit / 8 = S ((bit - 8) / 8) /\ bit mod 8 = (bit - 8) mod 8)%nat as [-> ->].
    { pose proof (Nat.div_mod_eq bit 8). pose proof (Nat.div_mod_eq (bit - 8) 8).
      pose proof (Nat.mod_upper_bound bit 8 ltac:(lia)).
      pose proof (Nat.mod_upper_bound (bit - 8) 8 ltac:(lia)). lia. }
    done.
Qed.

Lemma testbit_add_high b z i : is_byte b -> (i < 8)%nat ->
  Z.testbit (b + 256 * z) (Z.of_nat i) = Z.testbit b (Z.of_nat i).
Proof.
  intros Hb Hi. rewrite <- (Z.mod_pow2_bits_low (b + 256 * z) 8) by lia.
  rewrite <- (Z.mod_pow2_bits_low b 8) by lia. f_equal.
  change (2 ^ 8) with 256. rewrite (Z.mul_comm 256 z). by apply Z.mod_add.
Qed.

Lemma testbit_add_low b z i : is_byte b -> (8 <= i)%nat ->
  Z.testbit (b + 256 * z) (Z.of_nat i) = Z.testbit z (Z.of_nat (i - 8)).
Proof.
  intros [] Hi. replace (Z.of_nat i) with (Z.of_nat (i - 8) + 8) by lia.
  rewrite <- Z.div_pow2_bits by lia. f_equal. change (2 ^ 8) with 256.
  rewrite (Z.mul_comm 256 z), Z.div_add, Z.div_small; lia.
Qed.

Lemma testbit_bval bs i : Forall is_byte bs -> Z.testbit (bval bs) (Z.of_nat i) = get_bit bs i.
Proof.
  intros Hbs. revert i. induction Hbs as [|b bs Hb Hbs IH]; intros i.
  - by rewrite Z.testbit_0_l.
  - cbn [bval]. rewrite get_bit_cons. case_decide.
    + by apply testbit_add_high.
    + rewrite testbit_add_low by (done || lia). apply IH.
Qed.

Lemma get_bit_ge bs i : (8 * length bs <= i)%nat -> get_bit bs i = false.
Proof.
  intros Hi. rewrite get_bit_lookup, lookup_ge_None_2; [done|].
  apply Nat.div_le_lower_bound; lia.
Qed.

(** A byte vector of the right length whose bits are those of [z] represents [z]. *)
Lemma repr_intro w bs z :
  length bs = div_ceil w 8 -> Forall is_byte bs -> 0 <= z < pow2 w ->
  (forall i, (i < 8 * length bs)%nat -> get_bit bs i = Z.testbit z (Z.of_nat i)) ->
  bv_repr w bs z.
Proof.
  intros Hlen Hb Hz Hbits. split; try done; [|lia].
  apply (Z_ext_w (8 * length bs)).
  - split; [by apply bval_nonneg|by apply bval_bound].
  - split; [lia|]. pose proof (div_ceil_8_bounds w).
    pose proof (pow2_le w (8 * length bs) ltac:(lia)). lia.
  - intros i Hi. rewrite testbit_bval by done. by apply Hbits.
Qed.

Lemma repr_testbit w bs z i : bv_repr w bs z -> get_bit bs i = Z.testbit z (Z.of_nat i).
Proof. intros [_ Hb <- _]. by rewrite testbit_bval. Qed.

Lemma bval_inj l k : length l = length k -> Forall is_byte l -> Forall is_byte k ->
  bval l = bval k -> l = k.
Proof.
  revert k. induction l as [|a l IH]; intros [|b k]; try done.
  intros [= Hlen] Hl Hk. inversion_clear Hl as [|?? Ha Hl']. inversion_clear Hk as [|?? Hb Hk'].
  destruct Ha, Hb. cbn [bval]. intros.
  assert (a = b /\ bval l = bval k) as [-> ?] by lia. f_equal. by apply IH.
Qed.

(** Representations are canonical: comparing byte vectors compares integers. *)
Lemma repr_inj w a b x y : bv_repr w a x -> bv_repr w b y -> a = b <-> x = y.
Proof.
  intros [La Ba Va _] [Lb Bb Vb _]. split; [congruence|].
  intros ->. apply bval_inj; congruence.
Qed.

Lemma canonical_spec w bs : canonical w bs = true <-> bv_repr w bs (bval bs).
Proof.
  unfold canonical. rewrite !andb_true_iff, Nat.eqb_eq, Z.ltb_lt, forallb_forall. split.
  - intros [[Hlen Hb] Hv]. split; try done.
    apply Forall_forall. intros b Hin. apply list_elem_of_In, Hb in Hin. unfold is_byte. lia.
  - intros [Hlen Hb _ Hv]. split; [split|]; try done. intros b Hin.
    rewrite Forall_forall in Hb. apply list_elem_of_In, Hb in Hin. unfold is_byte in Hin. lia.
Qed.

(** ** Bytes stay bytes *)

Lemma is_byte_u8 z : is_byte (u8 z).
Proof. apply Z.mod_pos_bound. lia. Qed.

Lemma is_byte_bits b : is_byte b <-> 0 <= b /\ forall i, 8 <= i -> Z.testbit b i = false.
Proof.
  unfold is_byte. split.
  - intros Hb. split; [lia|]. intros i Hi. by apply (testbit_high 8).
  - intros [H0 H]. split; [done|].
    replace b with (b mod 2 ^ 8); [change 256 with (2 ^ 8); apply Z.mod_pos_bound; lia|].
    apply Z.bits_inj'. intros i Hi. destruct (decide (i < 8)).
    + by apply Z.mod_pow2_bits_low.
    + rewrite Z.mod_pow2_bits_high by lia. symmetry. apply H. lia.
Qed.

Lemma is_byte_land a b : is_byte a -> 0 <= b -> is_byte (Z.land a b).
Proof.
  rewrite !is_byte_bits. intros [Ha Hai] Hb. split; [apply Z.land_nonneg; auto|].
  intros i Hi. by rewrite Z.land_spec, Hai.
Qed.

Lemma is_byte_lor a b : is_byte a -> is_byte b -> is_byte (Z.lor a b).
Proof.
  rewrite !is_byte_bits. intros [Ha Hai] [Hb Hbi]. split; [by apply Z.lor_nonneg|].
  intros i Hi. by rewrite Z.lor_spec, Hai, Hbi.
Qed.

Lemma is_byte_lxor a b : is_byte a -> is_byte b -> is_byte (Z.lxor a b).
Proof.
  rewrite !is_byte_bits. intros [Ha Hai] [Hb Hbi]. split.
  - apply Z.lxor_nonneg. tauto.
  - intros i Hi. by rewrite Z.lxor_spec, Hai, Hbi.
Qed.

Lemma Forall_alter_byte f i l :
  Forall is_byte l -> (forall b, is_byte b -> is_byte (f b)) -> Forall is_byte (alter f i l).
Proof.
  intros Hl Hf. apply Forall_alter; [done|]. auto.
Qed.

Lemma bytes_set_bit l i : Forall is_byte l -> Forall is_byte (set_bit l i).
Proof.
  intros Hl. apply Forall_alter_byte; [done|]. intros. apply is_byte_lor, is_byte_u8. done.
Qed.

Lemma length_set_bit l i : length (set_bit l i) = length l.
Proof. apply length_alter. Qed.

Lemma mask_shift_ones k : (k < 8)%nat -> u8 (Z.shiftl 1 (Z.of_nat k)) - 1 = Z.ones (Z.of_nat k).
Proof.
  intros Hk. rewrite Z.ones_equiv. unfold u8. rewrite Z.shiftl_1_l, Z.mod_small; [lia|].
  split; [lia|]. apply Z.pow_lt_mono_r; lia.
Qed.

Lemma get_bit_alter f l i bit :
  get_bit (alter f i l) bit =
    if decide (i = bit / 8)%nat
    then default false ((fun b => Z.testbit (f b) (Z.of_nat (bit mod 8))) <$> l !! i)
    else get_bit l bit.
Proof.
  rewrite !get_bit_lookup, list_lookup_alter. case_decide; subst; [|done].
  by destruct (l !! _).
Qed.

Lemma testbit_shift_1 k j : (k < 8)%nat ->
  Z.testbit (u8 (Z.shiftl 1 (Z.of_nat k))) (Z.of_nat j) = (j =? k)%nat.
Proof.
  intros Hk. unfold u8. rewrite Z.shiftl_1_l, Z.mod_small.
  - destruct (Nat.eqb_spec j k) as [->|].
    + apply Z.pow2_bits_true. lia.
    + apply Z.pow2_bits_false. lia.
  - split; [lia|]. apply Z.pow_lt_mono_r; lia.
Qed.

Lemma get_set_bit l i k :
  get_bit (set_bit l i) k = get_bit l k || ((k =? i)%nat && (k <? 8 * length l)%nat).
Proof.
  unfold set_bit. rewrite get_bit_alter.
  assert (i mod 8 < 8 /\ k mod 8 < 8)%nat by (split; apply Nat.mod_upper_bound; lia).
  pose proof (Nat.div_mod_eq i 8). pose proof (Nat.div_mod_eq k 8). case_decide as Hd.
  - rewrite get_bit_lookup, <- Hd. destruct (l !! (i / 8)%nat) as [b|] eqn:E; simpl.
    + apply lookup_lt_Some in E. rewrite Z.lor_spec, testbit_shift_1 by lia. f_equal.
      destruct (Nat.eqb_spec k i) as [->|].
      * rewrite Nat.eqb_refl. symmetry. apply Nat.ltb_lt. lia.
      * apply Nat.eqb_neq. lia.
    + apply lookup_ge_None in E. symmetry. apply andb_false_iff. right. apply Nat.ltb_ge. lia.
  - destruct (Nat.eqb_spec k i) as [->|]; [done|]. by rewrite orb_false_r.
Qed.

(** ** Masking *)

Lemma length_mask l w : length (mask_unused_high_bits l w) = length l.
Proof. unfold mask_unused_high_bits. case_match; [done|]. apply length_alter. Qed.

Lemma bytes_mask l w : Forall is_byte l -> Forall is_byte (mask_unused_high_bits l w).
Proof.
  intros Hl. unfold mask_unused_high_bits. case_match; [done|].
  apply Forall_alter_byte; [done|]. intros. apply is_byte_land; [done|].
  rewrite mask_shift_ones by (apply Nat.mod_upper_bound; lia). rewrite Z.ones_equiv.
  pose proof (pow2_pos (w mod 8)). lia.
Qed.

Lemma get_bit_mask l w k : length l = div_ceil w 8 ->
  get_bit (mask_unused_high_bits l w) k = get_bit l k && (k <? w)%nat.
Proof.
  intros Hlen. pose proof (div_ceil_8_bounds w) as Hb. pose proof (Nat.div_mod_eq w 8).
  pose proof (Nat.mod_upper_bound w 8 ltac:(lia)).
  unfold mask_unused_high_bits. case_match eqn:E.
  - destruct (Nat.ltb_spec k w); [by rewrite andb_true_r|].
    rewrite andb_false_r. apply get_bit_ge.
    apply orb_true_iff in E as [E%Nat.eqb_eq|E%Nat.eqb_eq]; lia.
  - apply orb_false_iff in E as [E1%Nat.eqb_neq E2%Nat.eqb_neq].
    rewrite get_bit_alter. pose proof (Nat.div_mod_eq k 8).
    pose proof (Nat.mod_upper_bound k 8 ltac:(lia)). case_decide as Hd.
    + rewrite get_bit_lookup, <- Hd.
      destruct (lookup_lt_is_Some_2 l (length l - 1)) as [b Eb]; [lia|]. rewrite Eb. simpl.
      rewrite mask_shift_ones, Z.land_spec, Z.testbit_ones_nonneg by lia. f_equal.
      apply eq_bool_prop_intro. rewrite !Is_true_true, Z.ltb_lt, Nat.ltb_lt. lia.
    + destruct (Nat.ltb_spec k w); [by rewrite andb_true_r|].
      rewrite andb_false_r. apply get_bit_ge.
      assert (k / 8 <> w / 8)%nat by lia. lia.
Qed.

(** Masking a byte vector of the right length wraps its value. *)
Lemma mask_repr w l : length l = div_ceil w 8 -> Forall is_byte l ->
  bv_repr w (mask_unused_high_bits l w) (wrap w (bval l)).
Proof.
  intros Hlen Hb. apply repr_intro.
  - by rewrite length_mask.
  - by apply bytes_mask.
  - apply wrap_bound.
  - intros i _. rewrite get_bit_mask by done. unfold wrap.
    by rewrite testbit_pow2_mod, testbit_bval, andb_comm.
Qed.

(** Masking by bits: what every bit-copying loop ends with. *)
Lemma mask_repr_bits w l z : length l = div_ceil w 8 -> Forall is_byte l ->
  0 <= z < pow2 w ->
  (forall i, (i < w)%nat -> get_bit l i = Z.testbit z (Z.of_nat i)) ->
  bv_repr w (mask_unused_high_bits l w) z.
Proof.
  intros Hlen Hb Hz H. apply repr_intro; [by rewrite length_mask|by apply bytes_mask|done|].
  intros i _. rewrite get_bit_mask by done. destruct (Nat.ltb_spec i w).
  - rewrite andb_true_r. by apply H.
  - rewrite andb_false_r. symmetry. apply (testbit_high w); lia.
Qed.

(** ** Arithmetic *)

Lemma mod_256_split s t P : 0 < P ->
  (s + 256 * t) mod (256 * P) = s mod 256 + 256 * ((t + s / 256) mod P).
Proof.
  intros HP. rewrite Z.rem_mul_r by lia. rewrite (Z.mul_comm 256 t).
  rewrite Z.mod_add, Z.div_add by lia. do 3 f_equal. lia.
Qed.

Lemma u16_small z : 0 <= z < 65536 -> u16 z = z.
Proof. apply Z.mod_small. Qed.

Lemma shiftr_8 z : Z.shiftr z 8 = z / 256.
Proof. by rewrite Z.shiftr_div_pow2 by lia. Qed.

Lemma u8_mod z : u8 z = z mod 256.
Proof. done. Qed.

Lemma pow2_8S n : pow2 (8 * S n) = 256 * pow2 (8 * n).
Proof. replace (8 * S n)%nat with (8 + 8 * n)%nat by lia. by rewrite pow2_add. Qed.

Lemma add_bytes_loop_spec a b c :
  length a = length b -> Forall is_byte a -> Forall is_byte b -> 0 <= c <= 1 ->
  length (add_bytes_loop a b c) = length a /\
  Forall is_byte (add_bytes_loop a b c) /\
  bval (add_bytes_loop a b c) = (bval a + bval b + c) mod pow2 (8 * length a).
Proof.
  revert b c. induction a as [|x a IH]; intros [|y b] c; try done.
  { intros _ _ _ _. cbn [bval add_bytes_loop length]. rewrite Z.mod_1_r. done. }
  intros [= Hlen] Ha Hb Hc. inversion_clear Ha as [|?? [] Ha']. inversion_clear Hb as [|?? [] Hb'].
  cbn [add_bytes_loop]. rewrite (u16_small (x + y)), u16_small, shiftr_8 by lia.
  assert (0 <= (x + y + c) / 256 <= 1) as Hc' by (Z.div_mod_to_equations; lia).
  destruct (IH b _ Hlen Ha' Hb' Hc') as (Hl & Hby & Hv).
  cbn [length bval]. split; [by rewrite Hl|]. split; [constructor; [apply is_byte_u8|done]|].
  rewrite Hv, u8_mod, pow2_8S, <- mod_256_split by apply pow2_pos. f_equal. lia.
Qed.

Lemma wrap_mod_wider w n z : (w <= n)%nat -> wrap w (z mod pow2 n) = wrap w z.
Proof.
  intros. unfold wrap. replace n with (w + (n - w))%nat by lia.
  rewrite pow2_add. apply Z.mod_mod_divide. exists (pow2 (n - w)). lia.
Qed.

Lemma wrap_bytes_wider w (l : list Z) z : length l = div_ceil w 8 ->
  wrap w (z mod pow2 (8 * length l)) = wrap w z.
Proof. intros ->. apply wrap_mod_wider. apply div_ceil_8_bounds. Qed.

Lemma add_bytes_repr w a b x y :
  bv_repr w a x -> bv_repr w b y -> bv_repr w (add_bytes a b w) (bvadd w x y).
Proof.
  intros [La Ba Va _] [Lb Bb Vb _].
  destruct (add_bytes_loop_spec a b 0) as (Hl & Hb & Hv); try congruence; try lia; try done.
  unfold bvadd, add_bytes.
  rewrite <- (wrap_bytes_wider w a), <- Va, <- Vb by done.
  rewrite <- (Z.add_0_r (bval a + bval b)), <- Hv. apply mask_repr; congruence.
Qed.

Lemma neg_bytes_loop_spec l c :
  Forall is_byte l -> 0 <= c <= 1 ->
  length (neg_bytes_loop l c) = length l /\
  Forall is_byte (neg_bytes_loop l c) /\
  bval (neg_bytes_loop l c) = (bval l + c) mod pow2 (8 * length l).
Proof.
  intros Hl. revert c. induction Hl as [|x l Hx Hl IH]; intros c Hc.
  { cbn [bval neg_bytes_loop length]. rewrite Z.mod_1_r. done. }
  destruct Hx. cbn [neg_bytes_loop]. rewrite u16_small, shiftr_8 by lia.
  assert (0 <= (x + c) / 256 <= 1) as Hc' by (Z.div_mod_to_equations; lia).
  pose proof (bval_nonneg l Hl). pose proof (bval_bound l Hl).
  case_match eqn:E; cbn [length bval].
  - split; [done|]. split; [constructor; [apply is_byte_u8|done]|].
    rewrite u8_mod, pow2_8S. replace (x + 256 * bval l + c) with ((x + c) + 256 * bval l) by lia.
    apply Z.eqb_eq in E.
    rewrite mod_256_split, E, Z.add_0_r, (Z.mod_small (bval l)) by (apply pow2_pos || lia). done.
  - destruct (IH _ Hc') as (IH1 & IH2 & IH3). split; [by rewrite IH1|].
    split; [constructor; [apply is_byte_u8|done]|].
    rewrite IH3, u8_mod, pow2_8S, <- mod_256_split by apply pow2_pos. f_equal. lia.
Qed.

Lemma not_u8_sub b : is_byte b -> not_u8 b = 255 - b.
Proof.
  intros Hb.
  assert (forallb (fun b => not_u8 b =? 255 - b) (seqZ 0 256) = true) as H by by vm_compute.
  rewrite forallb_forall in H. apply Z.eqb_eq, H, list_elem_of_In, elem_of_seqZ.
  unfold is_byte in Hb. lia.
Qed.

Lemma not_bytes_spec l : Forall is_byte l ->
  Forall is_byte (not_u8 <$> l) /\ bval (not_u8 <$> l) = pow2 (8 * length l) - 1 - bval l.
Proof.
  induction 1 as [|b l Hb Hl [IH1 IH2]]; [done|]. rewrite fmap_cons.
  split.
  - constructor; [|done]. rewrite not_u8_sub by done. unfold is_byte in *. lia.
  - cbn [length bval]. rewrite IH2, pow2_8S, not_u8_sub by done. lia.
Qed.

Lemma pow2_bytes_wrap w (l : list Z) : length l = div_ceil w 8 ->
  exists k, pow2 (8 * length l) = k * pow2 w.
Proof.
  intros ->. pose proof (div_ceil_8_bounds w).
  exists (pow2 (8 * div_ceil w 8 - w)). rewrite <- pow2_add. do 2 f_equal. lia.
Qed.

Lemma neg_bytes_repr w a x : bv_repr w a x -> bv_repr w (neg_bytes a w) (bvneg w x).
Proof.
  intros [La Ba Va _]. destruct (not_bytes_spec a Ba) as [Hb Hv].
  destruct (neg_bytes_loop_spec (not_u8 <$> a) 1) as (H1 & H2 & H3); [done|lia|].
  rewrite length_fmap in *. unfold bvneg, neg_bytes.
  replace (wrap w (- x)) with (wrap w (bval (neg_bytes_loop (not_u8 <$> a) 1))).
  - apply mask_repr; congruence.
  - rewrite H3, Hv, (wrap_bytes_wider w a) by done.
    destruct (pow2_bytes_wrap w a La) as [k Hk]. rewrite Hk.
    replace (k * pow2 w - 1 - bval a + 1) with (- x + k * pow2 w) by lia. apply wrap_add_mul.
Qed.

Lemma sub_bytes_repr w a b x y :
  bv_repr w a x -> bv_repr w b y -> bv_repr w (sub_bytes a b w) (bvsub w x y).
Proof.
  intros Ha Hb. unfold sub_bytes.
  replace (bvsub w x y) with (bvadd w x (bvneg w y)).
  - apply add_bytes_repr; [done|]. by apply neg_bytes_repr.
  - unfold bvadd, bvneg, bvsub. rewrite <- wrap_add, wrap_wrap, wrap_add. f_equal.
Qed.

Lemma not_bytes_repr w a x : bv_repr w a x ->
  bv_repr w (mask_unused_high_bits (not_u8 <$> a) w) (bvnot w x).
Proof.
  intros H. pose proof (repr_range _ _ _ H). destruct H as [La Ba Va Hx].
  destruct (not_bytes_spec a Ba) as [Hb Hv].
  replace (bvnot w x) with (wrap w (bval (not_u8 <$> a))).
  - apply mask_repr; [|done]. by rewrite length_fmap.
  - rewrite Hv. destruct (pow2_bytes_wrap w a La) as [k ->]. unfold bvnot.
    rewrite <- (wrap_small w (pow2 w - 1 - x)) by lia.
    apply wrap_eq_iff. exists (k - 1). lia.
Qed.

(** *** Multiplication *)

Lemma bval_insert l k s v : l !! k = Some s ->
  bval (<[k := v]> l) = bval l + (v - s) * pow2 (8 * k).
Proof.
  revert k. induction l as [|b l IH]; intros [|k]; try done.
  - intros [= ->]. change (pow2 (8 * 0)) with 1. simpl. lia.
  - intros Hk. cbn [bval]. change (<[S k := v]> (b :: l)) with (b :: <[k := v]> l). cbn [bval].
    rewrite IH by done. rewrite pow2_8S. lia.
Qed.

Lemma mul_bytes_row_spec x b pos c out :
  is_byte x -> Forall is_byte b -> is_byte c -> Forall is_byte out ->
  (length out <= pos + length b)%nat ->
  let r := mul_bytes_row x b pos c out in
  length r = length out /\ Forall is_byte r /\
  exists k, bval r = bval out + pow2 (8 * pos) * (x * bval b + c) + k * pow2 (8 * length out).
Proof.
  intros Hx Hb. revert pos c out.
  assert (forall pos (out : list Z) z, (length out <= pos)%nat ->
    exists k, bval out = bval out + pow2 (8 * pos) * z + k * pow2 (8 * length out)) as Hout.
  { intros pos out z Hp. exists (- pow2 (8 * (pos - length out)) * z).
    replace (8 * pos)%nat with (8 * (pos - length out) + 8 * length out)%nat by lia.
    rewrite pow2_add. lia. }
  induction Hb as [|y b Hy Hb IH]; intros pos c out Hc Ho Hlen; cbn [mul_bytes_row].
  { split_and!; try done. apply Hout. simpl in Hlen. lia. }
  destruct (out !! pos) as [s|] eqn:Es.
  2:{ split_and!; try done. apply Hout. by apply lookup_ge_None. }
  assert (is_byte s) as Hs by (by eapply Forall_lookup_1).
  unfold is_byte in *. assert (0 <= x * y <= 255 * 255) by nia.
  rewrite (u16_small (x * y)), (u16_small (s + x * y)), u16_small, shiftr_8 by lia.
  set (p := s + x * y + c) in *.
  assert (0 <= p / 256 < 256) as Hc' by (subst p; Z.div_mod_to_equations; lia).
  destruct (IH (S pos) (p / 256) (<[pos := u8 p]> out)) as (H1 & H2 & k & Hk).
  - done.
  - apply Forall_insert; [done|apply is_byte_u8].
  - rewrite length_insert. simpl in Hlen. lia.
  - rewrite length_insert in *. split_and!; try done. exists k.
    rewrite Hk, (bval_insert _ _ s) by done. cbn [bval]. rewrite pow2_8S, u8_mod.
    pose proof (Z.div_mod p 256 ltac:(lia)) as Hp. subst p. nia.
Qed.

Lemma mul_bytes_rows_spec a b i out :
  Forall is_byte a -> Forall is_byte b -> Forall is_byte out ->
  (length out <= length b)%nat ->
  let r := mul_bytes_rows a b i out in
  length r = length out /\ Forall is_byte r /\
  exists k, bval r = bval out + pow2 (8 * i) * (bval a * bval b) + k * pow2 (8 * length out).
Proof.
  intros Ha Hb. revert i out. induction Ha as [|x a Hx Ha IH]; intros i out Ho Hlen;
    cbn [mul_bytes_rows].
  { split_and!; try done. exists 0. simpl. lia. }
  destruct (mul_bytes_row_spec x b i 0 out) as (H1 & H2 & k & Hk); try done; [lia|].
  destruct (IH (S i) (mul_bytes_row x b i 0 out)) as (H3 & H4 & k' & Hk'); try done.
  { by rewrite H1. }
  rewrite H1 in *. split_and!; try done. exists (k + k').
  rewrite Hk', Hk. cbn [bval]. rewrite pow2_8S. lia.
Qed.

Lemma bval_replicate_0 n : bval (replicate n 0) = 0.
Proof. induction n as [|n IH]; [done|]. cbn [replicate bval]. by rewrite IH. Qed.

Lemma bytes_replicate n b : is_byte b -> Forall is_byte (replicate n b).
Proof. intros. by apply Forall_replicate. Qed.

Lemma is_byte_0 : is_byte 0.
Proof. unfold is_byte. lia. Qed.
#[export] Hint Resolve is_byte_0 bytes_replicate : core.

Lemma mul_bytes_repr w a b x y :
  bv_repr w a x -> bv_repr w b y -> bv_repr w (mul_bytes a b w) (bvmul w x y).
Proof.
  intros [La Ba Va _] [Lb Bb Vb _].
  destruct (mul_bytes_rows_spec a b 0 (replicate (length a) 0)) as (H1 & H2 & k & Hk);
    try done; auto; [rewrite length_replicate; lia|].
  rewrite length_replicate in *. unfold mul_bytes, bvmul.
  replace (wrap w (x * y)) with (wrap w (bval (mul_bytes_rows a b 0 (replicate (length a) 0)))).
  - apply mask_repr; congruence.
  - rewrite Hk, bval_replicate_0, Va, Vb. destruct (pow2_bytes_wrap w a La) as [j ->].
    change (pow2 (8 * 0)) with 1. apply wrap_eq_iff. exists (k * j). lia.
Qed.

(** ** Bitwise operations on equal-length vectors *)

Lemma get_bit_zip_with f fb a b i :
  (forall x y j, (j < 8)%nat ->
     Z.testbit (f x y) (Z.of_nat j) = fb (Z.testbit x (Z.of_nat j)) (Z.testbit y (Z.of_nat j))) ->
  fb false false = false -> length a = length b ->
  get_bit (zip_with f a b) i = fb (get_bit a i) (get_bit b i).
Proof.
  intros Hf Hfb Hlen. rewrite !get_bit_lookup, lookup_zip_with.
  destruct (a !! (i / 8)%nat) as [x|] eqn:Ea.
  - destruct (lookup_lt_is_Some_2 b (i / 8)) as [y Eb].
    { apply lookup_lt_Some in Ea. lia. }
    rewrite Eb. simpl. apply Hf, Nat.mod_upper_bound. lia.
  - rewrite (lookup_ge_None_2 b) by (apply lookup_ge_None in Ea; lia). simpl. by rewrite Hfb.
Qed.

Lemma bitwise_repr f fb fz w a b x y :
  (forall x y i, 0 <= i -> Z.testbit (f x y) i = fb (Z.testbit x i) (Z.testbit y i)) ->
  (forall x y i, 0 <= i -> Z.testbit (fz x y) i = fb (Z.testbit x i) (Z.testbit y i)) ->
  (forall x y, 0 <= x -> 0 <= y -> 0 <= f x y) ->
  (forall x y, 0 <= x -> 0 <= y -> 0 <= fz x y) ->
  fb false false = false ->
  bv_repr w a x -> bv_repr w b y -> bv_repr w (zip_with f a b) (fz x y).
Proof.
  intros Hf Hz Hf0 Hz0 Hfb Ha Hb. pose proof (repr_range _ _ _ Ha). pose proof (repr_range _ _ _ Hb).
  assert (length a = length b) as Hlen by (destruct Ha, Hb; congruence).
  apply repr_intro.
  - rewrite length_zip_with, <- Hlen, Nat.min_id. apply Ha.
  - apply Forall_zip_with_fst with (P := is_byte); [apply Ha|].
    apply Forall_forall. intros v Hv u Hu.
    assert (is_byte v) as Hv' by (destruct Hb as [_ Hb _ _]; rewrite Forall_forall in Hb; auto).
    apply is_byte_bits in Hu as [Hu0 Hu]. apply is_byte_bits in Hv' as [Hv0 Hv'].
    apply is_byte_bits. split; [auto|]. intros i Hi. rewrite Hf by lia. by rewrite Hu, Hv'.
  - assert (0 <= fz x y) by (apply Hz0; lia). split; [done|].
    rewrite <- (Z.mod_small x (pow2 w)), <- (Z.mod_small y (pow2 w)) by lia.
    destruct (Z.lt_ge_cases (fz (x mod pow2 w) (y mod pow2 w)) (pow2 w)) as [|Hge]; [done|].
    exfalso. rewrite !Z.mod_small in Hge by lia.
    enough (fz x y = fz x y mod pow2 w) as E by (pose proof (wrap_bound w (fz x y)) as Hw;
      unfold wrap in Hw; lia).
    apply Z.bits_inj'. intros i Hi. destruct (decide (i < Z.of_nat w)).
    + by rewrite Z.mod_pow2_bits_low.
    + rewrite Z.mod_pow2_bits_high, Hz, !(testbit_high w) by lia. done.
  - intros i _. rewrite (get_bit_zip_with f fb) by (auto with lia).
    by rewrite (repr_testbit _ _ _ _ Ha), (repr_testbit _ _ _ _ Hb), Hz by lia.
Qed.

Lemma and_bytes_repr w a b x y :
  bv_repr w a x -> bv_repr w b y -> bv_repr w (zip_with Z.land a b) (Z.land x y).
Proof.
  apply (bitwise_repr Z.land andb); try done; intros; try apply Z.land_spec;
    apply Z.land_nonneg; auto.
Qed.

Lemma or_bytes_repr w a b x y :
  bv_repr w a x -> bv_repr w b y -> bv_repr w (zip_with Z.lor a b) (Z.lor x y).
Proof.
  apply (bitwise_repr Z.lor orb); try done; intros; try apply Z.lor_spec;
    apply Z.lor_nonneg; auto.
Qed.

Lemma xor_bytes_repr w a b x y :
  bv_repr w a x -> bv_repr w b y -> bv_repr w (zip_with Z.lxor a b) (Z.lxor x y).
Proof.
  apply (bitwise_repr Z.lxor xorb); try done; intros; try apply Z.lxor_spec;
    apply Z.lxor_nonneg; tauto.
Qed.

(** ** Bit-copying loops *)

(** The effect of [for i in lo..hi { if c(i) { set_bit(out, off + i) } }]. *)
Lemma fill_spec (lo hi off : nat) (c : nat -> bool) out :
  let r := for_range lo hi (fun i out => if c i then set_bit out (off + i) else out) out in
  length r = length out /\
  (Forall is_byte out -> Forall is_byte r) /\
  forall k, get_bit r k =
    get_bit out k ||
    ((k <? 8 * length out)%nat && (off + lo <=? k)%nat && (k <? off + hi)%nat && c (k - off)%nat).
Proof.
  destruct (decide (lo <= hi)%nat) as [Hle|Hgt].
  2:{ unfold for_range. replace (hi - lo)%nat with 0%nat by lia. simpl.
      split_and!; try done. intros k. symmetry.
      destruct (Nat.leb_spec (off + lo) k), (Nat.ltb_spec k (off + hi)); try lia;
        by rewrite ?andb_false_r, ?andb_false_l, ?andb_false_r, orb_false_r. }
  apply (for_range_ind (fun hi r => length r = length out /\
    (Forall is_byte out -> Forall is_byte r) /\
    forall k, get_bit r k = get_bit out k ||
      ((k <? 8 * length out)%nat && (off + lo <=? k)%nat && (k <? off + hi)%nat && c (k - off)%nat)));
    [done| |].
  - split_and!; try done. intros k.
    destruct (Nat.leb_spec (off + lo) k), (Nat.ltb_spec k (off + lo)); try lia;
      by rewrite ?andb_false_r, ?andb_false_l, ?andb_false_r, orb_false_r.
  - intros i r Hi (Hlen & Hb & Hbits).
    assert (forall k, (k < off + (i + 1))%nat <-> k = off + i \/ k < off + i)%nat as Hlt by lia.
    destruct (c i) eqn:Ec.
    + split_and!.
      * by rewrite length_set_bit.
      * intros. apply bytes_set_bit. auto.
      * intros k. rewrite get_set_bit, Hbits, Hlen.
        destruct (Nat.eqb_spec k (off + i)) as [->|Hne].
        -- replace (off + i - off)%nat with i by lia. rewrite Ec.
           destruct (Nat.leb_spec (off + lo) (off + i)); [|lia].
           destruct (Nat.ltb_spec (off + i) (off + (i + 1))); [|lia].
           destruct (Nat.ltb_spec (off + i) (off + i)); [lia|].
           destruct (get_bit out (off + i)), (off + i <? 8 * length out)%nat; done.
        -- rewrite andb_false_l, orb_false_r. do 3 f_equal.
           apply eq_bool_prop_intro. rewrite !Is_true_true, !Nat.ltb_lt. lia.
    + split_and!; try done. intros k. rewrite Hbits.
      destruct (decide (k = off + i)%nat) as [->|Hne].
      * replace (off + i - off)%nat with i by lia. by rewrite Ec, !andb_false_r.
      * do 3 f_equal. apply eq_bool_prop_intro. rewrite !Is_true_true, !Nat.ltb_lt. lia.
Qed.

Lemma get_bit_zero n k : get_bit (replicate n 0) k = false.
Proof.
  rewrite <- testbit_bval by auto. by rewrite bval_replicate_0, Z.testbit_0_l.
Qed.

(** [fill] from zero at offset zero. *)
Lemma fill_zero_bits n lo hi (c : nat -> bool) i : (i < 8 * n)%nat ->
  get_bit (for_range lo hi (fun i (out : list Z) => if c i then set_bit out i else out) (replicate n 0)) i
  = (lo <=? i)%nat && (i <? hi)%nat && c i.
Proof.
  intros Hi. destruct (fill_spec lo hi 0 c (replicate n 0)) as (_ & _ & H).
  simpl Nat.add in H. rewrite H, get_bit_zero, length_replicate, orb_false_l, Nat.sub_0_r.
  by rewrite (ltb_t i (8 * n)), andb_true_l by done.
Qed.

Lemma fill_zero_shape n lo hi (c : nat -> bool) :
  let r := for_range lo hi (fun i (out : list Z) => if c i then set_bit out i else out) (replicate n 0) in
  length r = n /\ Forall is_byte r.
Proof.
  destruct (fill_spec lo hi 0 c (replicate n 0)) as (H1 & H2 & _).
  simpl Nat.add in H1, H2. rewrite length_replicate in H1. auto.
Qed.

(** A copy loop over a fresh vector followed by the final mask. *)
Lemma fill_mask_repr w (c : nat -> bool) lo hi z :
  0 <= z < pow2 w ->
  (forall i, (i < w)%nat ->
     (lo <=? i)%nat && (i <? hi)%nat && c i = Z.testbit z (Z.of_nat i)) ->
  bv_repr w (mask_unused_high_bits
    (for_range lo hi (fun i (out : list Z) => if c i then set_bit out i else out)
       (replicate (div_ceil w 8) 0)) w) z.
Proof.
  intros Hz H. destruct (fill_zero_shape (div_ceil w 8) lo hi c).
  apply mask_repr_bits; try done. intros i Hi. rewrite fill_zero_bits; [by apply H|].
  pose proof (div_ceil_8_bounds w). lia.
Qed.

(** The same without a mask, when the loop stays below [w]. *)
Lemma fill_repr w (c : nat -> bool) lo hi z :
  0 <= z < pow2 w -> (hi <= w)%nat ->
  (forall i, (i < w)%nat ->
     (lo <=? i)%nat && (i <? hi)%nat && c i = Z.testbit z (Z.of_nat i)) ->
  bv_repr w (for_range lo hi (fun i (out : list Z) => if c i then set_bit out i else out)
    (replicate (div_ceil w 8) 0)) z.
Proof.
  intros Hz Hhi H. destruct (fill_zero_shape (div_ceil w 8) lo hi c) as [Hlen Hb].
  apply repr_intro; try done. rewrite Hlen. intros i Hi. rewrite fill_zero_bits by done.
  destruct (decide (i < w)%nat) as [Hw|Hw]; [by apply H|].
  rewrite (testbit_high w) by (done || lia).
  destruct (Nat.ltb_spec i hi); [lia|]. by rewrite andb_false_r.
Qed.

Lemma extract_bytes_repr w a x low high : bv_repr w a x -> (low <= high < w)%nat ->
  bv_repr (high - low + 1) (extract_bytes a low (high - low + 1)) (bvextract high low x).
Proof.
  intros Ha Hr. unfold extract_bytes. apply fill_mask_repr; [apply bvextract_bound|].
  intros i Hi. rewrite testbit_extract, (repr_testbit _ _ _ _ Ha).
  by rewrite (leb_t 0 i) by lia.
Qed.

Lemma concat_bytes_repr wh wl h l x y : bv_repr wh h x -> bv_repr wl l y ->
  bv_repr (wh + wl) (concat_bytes h wh l wl) (bvconcat wl x y).
Proof.
  intros Hh Hl. pose proof (repr_range _ _ _ Hh). pose proof (repr_range _ _ _ Hl).
  unfold concat_bytes. set (n := div_ceil (wh + wl) 8).
  set (out := for_range 0 wl _ (replicate n 0)).
  destruct (fill_zero_shape n 0 wl (get_bit l)) as [Hlen Hb].
  destruct (fill_spec 0 wh wl (get_bit h) out) as (Hlen' & Hb' & Hbits).
  pose proof (div_ceil_8_bounds (wh + wl)).
  apply mask_repr_bits; [by rewrite Hlen'|auto|by apply bvconcat_bound|].
  intros i Hi. rewrite Hbits. unfold out at 1 2. rewrite Hlen.
  rewrite fill_zero_bits by (unfold n; lia). rewrite testbit_concat by done.
  rewrite (repr_testbit _ _ _ _ Hh), (repr_testbit _ _ _ _ Hl).
  rewrite (leb_t 0 i), (ltb_t i (8 * n)) by (unfold n; lia).
  destruct (Nat.ltb_spec i wl).
  - rewrite (leb_f (wl + 0) i) by lia. simpl. by rewrite orb_false_r.
  - rewrite (leb_t (wl + 0) i), (ltb_t i (wl + wh)) by lia. done.
Qed.

Lemma get_bit_resize n bs i : Forall is_byte bs -> (length bs <= n)%nat ->
  get_bit (resize_bytes n bs) i = get_bit bs i.
Proof.
  intros Hb Hn. unfold resize_bytes. rewrite resize_ge by done.
  rewrite !get_bit_lookup. destruct (decide (i / 8 < length bs)%nat).
  - by rewrite lookup_app_l.
  - rewrite lookup_app_r, (lookup_ge_None_2 bs) by lia.
    destruct (decide (i / 8 - length bs < n - length bs)%nat).
    + rewrite lookup_replicate_2 by done. simpl. by rewrite Z.testbit_0_l.
    + rewrite lookup_ge_None_2; [done|]. rewrite length_replicate. lia.
Qed.

Lemma div_ceil_8_mono a b : (a <= b -> div_ceil a 8 <= div_ceil b 8)%nat.
Proof. intros. unfold div_ceil. apply Nat.Div0.div_le_mono. lia. Qed.

Lemma resize_shape n bs : Forall is_byte bs -> (length bs <= n)%nat ->
  length (resize_bytes n bs) = n /\ Forall is_byte (resize_bytes n bs).
Proof.
  intros Hb Hn. unfold resize_bytes. split; [apply length_resize|].
  apply Forall_resize; auto.
Qed.

Lemma zext_bytes_repr w a x extra : bv_repr w a x ->
  bv_repr (w + extra)
    (mask_unused_high_bits (resize_bytes (div_ceil (w + extra) 8) a) (w + extra)) x.
Proof.
  intros Ha. pose proof (repr_range _ _ _ Ha).
  assert (length a <= div_ceil (w + extra) 8)%nat.
  { rewrite (repr_length _ _ _ Ha). apply div_ceil_8_mono. lia. }
  destruct (resize_shape (div_ceil (w + extra) 8) a) as [Hlen Hb]; [apply Ha|done|].
  apply mask_repr_bits; [done|done| |].
  - pose proof (pow2_le w (w + extra) ltac:(lia)). lia.
  - intros i Hi. rewrite get_bit_resize by (apply Ha || done). by rewrite (repr_testbit _ _ _ _ Ha).
Qed.

Lemma sext_bytes_repr w a x extra : (0 < w)%nat -> bv_repr w a x ->
  bv_repr (w + extra) (sext_bytes a w extra) (bvsext w extra x).
Proof.
  intros Hw Ha. pose proof (repr_range _ _ _ Ha).
  assert (length a <= div_ceil (w + extra) 8)%nat.
  { rewrite (repr_length _ _ _ Ha). apply div_ceil_8_mono. lia. }
  destruct (resize_shape (div_ceil (w + extra) 8) a) as [Hlen Hb]; [apply Ha|done|].
  unfold sext_bytes. set (out := resize_bytes _ a) in *.
  assert (forall i, get_bit out i = Z.testbit x (Z.of_nat i)) as Hout.
  { intros i. unfold out. rewrite get_bit_resize by (apply Ha || done). by rewrite (repr_testbit _ _ _ _ Ha). }
  pose proof (div_ceil_8_bounds (w + extra)).
  rewrite (repr_testbit _ _ _ _ Ha). replace (Z.of_nat (w - 1)) with (Z.of_nat w - 1) by lia.
  destruct (Z.testbit x (Z.of_nat w - 1)) eqn:Es.
  - destruct (fill_spec w (w + extra) 0 (fun _ => true) out) as (Hlen' & Hb' & Hbits).
    simpl Nat.add in Hbits, Hlen', Hb'.
    apply mask_repr_bits; [congruence|auto|apply bvsext_bound|].
    intros i Hi. rewrite Hbits, Hout, testbit_sext, Es by done.
    rewrite (ltb_t i (w + extra)), (ltb_t i (8 * length out)) by lia.
    destruct (Nat.ltb_spec i w).
    + rewrite (leb_f w i) by lia. by rewrite andb_false_r, orb_false_r.
    + rewrite (leb_t w i) by lia. by rewrite orb_true_r.
  - apply mask_repr_bits; [done|done|apply bvsext_bound|].
    intros i Hi. rewrite Hout, testbit_sext, Es by done.
    rewrite (ltb_t i (w + extra)) by lia.
    destruct (Nat.ltb_spec i w); [done|]. by apply (testbit_high w); lia.
Qed.

Lemma repeat_bytes_repr w a x count : (0 < w)%nat -> bv_repr w a x ->
  bv_repr (w * count) (repeat_bytes a w count) (bvrepeat w count x).
Proof.
  intros Hw Ha. pose proof (repr_range _ _ _ Ha) as Hx.
  pose proof (div_ceil_8_bounds (w * count)).
  unfold repeat_bytes. set (n := div_ceil (w * count) 8) in *. set (out := for_range 0 count _ _).
  enough (length out = n /\ Forall is_byte out /\ forall k, get_bit out k =
      (k <? 8 * n)%nat && Z.testbit (bvrepeat w count x) (Z.of_nat k)) as (Hlen & Hb & Hbits).
  { apply mask_repr_bits; [done|done|by apply bvrepeat_bound|].
    intros i Hi. by rewrite Hbits, (ltb_t i (8 * n)) by lia. }
  unfold out. apply (for_range_ind (fun m (out : list Z) => length out = n /\ Forall is_byte out /\
    forall k, get_bit out k = (k <? 8 * n)%nat && Z.testbit (bvrepeat w m x) (Z.of_nat k))).
  - lia.
  - rewrite length_replicate. split_and!; auto. intros k.
    rewrite get_bit_zero. simpl. by rewrite Z.testbit_0_l, andb_false_r.
  - intros m r Hm (Hlen & Hb & Hbits).
    destruct (fill_spec 0 w (m * w) (get_bit a) r) as (Hlen' & Hb' & Hbits').
    split_and!; [congruence|auto|]. intros k. rewrite Hbits', Hbits, Hlen.
    rewrite !testbit_repeat, (repr_testbit _ _ _ _ Ha) by done.
    rewrite <- andb_assoc, <- andb_assoc, <- andb_orb_distrib_r. f_equal.
    destruct (Nat.leb_spec (m * w + 0) k) as [Hk|Hk].
    + rewrite (ltb_f k (w * m)) by lia. rewrite andb_false_l, orb_false_l, andb_true_l.
      destruct (Nat.ltb_spec k (m * w + w)) as [Hk2|Hk2].
      * rewrite (ltb_t k (w * (m + 1))) by lia. do 3 f_equal.
        apply (Nat.mod_unique _ _ m); lia.
      * by rewrite (ltb_f k (w * (m + 1))) by lia.
    + rewrite (ltb_t k (w * m)), (ltb_t k (w * (m + 1))) by lia.
      by rewrite andb_false_l, orb_false_r.
Qed.

Lemma rotate_left_bytes_repr w a x amount : (amount < w)%nat -> bv_repr w a x ->
  bv_repr w (rotate_left_bytes a w amount) (bvrotl w amount x).
Proof.
  intros Hk Ha. pose proof (repr_range _ _ _ Ha).
  apply (fill_repr w (fun bit => get_bit a ((bit + w - amount) mod w)));
    [by apply bvrotl_bound|done|].
  intros i Hi. rewrite (leb_t 0 i), (ltb_t i w) by lia.
  rewrite testbit_rotl, (Nat.mod_small amount), (repr_testbit _ _ _ _ Ha) by done. done.
Qed.

Lemma rotate_right_bytes_repr w a x amount : (amount < w)%nat -> bv_repr w a x ->
  bv_repr w (rotate_right_bytes a w amount) (bvrotr w amount x).
Proof.
  intros Hk Ha. pose proof (repr_range _ _ _ Ha).
  apply (fill_repr w (fun bit => get_bit a ((bit + amount) mod w)));
    [by apply bvrotl_bound|done|].
  intros i Hi. rewrite (leb_t 0 i), (ltb_t i w) by lia.
  by rewrite testbit_rotr, (repr_testbit _ _ _ _ Ha) by done.
Qed.

Lemma testbit_shiftl_nat a k i :
  Z.testbit (Z.shiftl a (Z.of_nat k)) (Z.of_nat i) =
    (k <=? i)%nat && Z.testbit a (Z.of_nat (i - k)).
Proof.
  rewrite Z.shiftl_spec by lia. destruct (Nat.leb_spec k i).
  - simpl. f_equal. lia.
  - apply Z.testbit_neg_r. lia.
Qed.

Lemma testbit_shiftr_nat a k i :
  Z.testbit (Z.shiftr a (Z.of_nat k)) (Z.of_nat i) = Z.testbit a (Z.of_nat (i + k)).
Proof. rewrite Z.shiftr_spec by lia. f_equal. lia. Qed.

Lemma shl_bytes_repr w a x k : bv_repr w a x ->
  bv_repr w (shl_bytes a w k) (wrap w (Z.shiftl x (Z.of_nat k))).
Proof.
  intros Ha. apply fill_mask_repr; [apply wrap_bound|]. intros i Hi.
  unfold wrap. rewrite testbit_pow2_mod, testbit_shiftl_nat, (repr_testbit _ _ _ _ Ha).
  by rewrite (ltb_t i w), andb_true_r by done.
Qed.

Lemma lshr_bytes_repr w a x k : bv_repr w a x ->
  bv_repr w (lshr_bytes a w k) (Z.shiftr x (Z.of_nat k)).
Proof.
  intros Ha. pose proof (repr_range _ _ _ Ha).
  apply (fill_repr w (fun bit => get_bit a (bit + k))); [apply shiftr_bound; lia|lia|].
  intros i Hi. rewrite testbit_shiftr_nat, (repr_testbit _ _ _ _ Ha), (leb_t 0 i) by lia.
  destruct (Nat.ltb_spec i (w - k)); [done|]. symmetry. apply (testbit_high w); lia.
Qed.

(** The amount is clamped at the width, as in [Smt.bvashr]. *)
Lemma ashr_bytes_repr w a x k : (0 < w)%nat -> bv_repr w a x ->
  bv_repr w (ashr_bytes a w k) (bvashr w x (Z.of_nat k)).
Proof.
  intros Hw Ha. pose proof (repr_range _ _ _ Ha) as Hx. unfold ashr_bytes, bvashr.
  rewrite <- Nat2Z.inj_min. set (j := (k `min` w)%nat). assert (j <= w)%nat by lia.
  pose proof (lshr_bytes_repr w a x j Ha) as Ho. set (out := lshr_bytes a w j) in *.
  pose proof (div_ceil_8_bounds w).
  pose proof (repr_length _ _ _ Ho) as Hlen. pose proof (repr_bytes _ _ _ Ho) as Hb.
  assert (forall i, get_bit out i = Z.testbit x (Z.of_nat (i + j))) as Hout.
  { intros i. unfold out. rewrite (repr_testbit _ _ _ _ (lshr_bytes_repr w a x j Ha)).
    apply testbit_shiftr_nat. }
  assert (forall i, (i < w)%nat -> Z.testbit (wrap w (Z.shiftr (sval w x) (Z.of_nat j))) (Z.of_nat i) =
    if (i + j <? w)%nat then Z.testbit x (Z.of_nat (i + j)) else Z.testbit x (Z.of_nat w - 1)) as Hz.
  { intros i Hi. unfold wrap.
    by rewrite testbit_pow2_mod, (ltb_t i w), testbit_shiftr_nat, testbit_sval by done. }
  rewrite (repr_testbit _ _ _ _ Ha). replace (Z.of_nat (w - 1)) with (Z.of_nat w - 1) by lia.
  destruct (Z.testbit x (Z.of_nat w - 1)) eqn:Es.
  - destruct (fill_spec (w - j) w 0 (fun _ => true) out) as (Hlen' & Hb' & Hbits).
    simpl Nat.add in Hbits, Hlen', Hb'.
    apply mask_repr_bits; [congruence|auto|apply wrap_bound|].
    intros i Hi. rewrite Hbits, Hout, Hz, (ltb_t i w), (ltb_t i (8 * length out)) by lia.
    destruct (Nat.ltb_spec (i + j) w).
    + rewrite (leb_f (w - j) i) by lia. by rewrite andb_false_r, orb_false_r.
    + rewrite (leb_t (w - j) i) by lia. by rewrite orb_true_r.
  - apply mask_repr_bits; [done|done|apply wrap_bound|].
    intros i Hi. rewrite Hout, Hz by done.
    destruct (Nat.ltb_spec (i + j) w); [done|]. apply (testbit_high w); lia.
Qed.

(** ** Comparison *)

Lemma cmp_pairs_snoc l x y :
  cmp_pairs (l ++ [(x, y)]) = match cmp_pairs l with Eq => x ?= y | c => c end.
Proof.
  induction l as [|[x' y'] l IH]; simpl; [by destruct (x ?= y)|].
  by destruct (x' ?= y').
Qed.

Lemma cmp_unsigned_bytes_spec a b :
  length a = length b -> Forall is_byte a -> Forall is_byte b ->
  cmp_unsigned_bytes a b = (bval a ?= bval b).
Proof.
  unfold cmp_unsigned_bytes. revert b. induction a as [|x a IH]; intros [|y b]; try done.
  intros [= Hlen] Ha Hb. inversion_clear Ha as [|?? [] Ha']. inversion_clear Hb as [|?? [] Hb'].
  cbn [zip zip_with bval]. rewrite reverse_cons, cmp_pairs_snoc.
  change (zip_with pair a b) with (zip a b). rewrite IH by done. symmetry.
  destruct (Z.compare_spec (bval a) (bval b)) as [->|?|?].
  - destruct (Z.compare_spec x y); [apply Z.compare_eq_iff|apply Z.compare_lt_iff|apply Z.compare_gt_iff]; lia.
  - apply Z.compare_lt_iff. lia.
  - apply Z.compare_gt_iff. lia.
Qed.

Lemma cmp_unsigned_repr w a b x y : bv_repr w a x -> bv_repr w b y ->
  cmp_unsigned_bytes a b = (x ?= y).
Proof.
  intros [La Ba Va _] [Lb Bb Vb _]. rewrite cmp_unsigned_bytes_spec by congruence. congruence.
Qed.

Lemma signed_less_than_repr w a b x y : (0 < w)%nat -> bv_repr w a x -> bv_repr w b y ->
  signed_less_than a b w = bvslt w x y.
Proof.
  intros Hw Ha Hb. pose proof (repr_range _ _ _ Ha). pose proof (repr_range _ _ _ Hb).
  unfold signed_less_than, bvslt.
  rewrite (repr_testbit _ _ _ _ Ha), (repr_testbit _ _ _ _ Hb).
  replace (Z.of_nat (w - 1)) with (Z.of_nat w - 1) by lia.
  rewrite (cmp_unsigned_repr w a b x y), !sval_msb by done.
  destruct (Z.testbit x _), (Z.testbit y _); unfold Z.ltb.
  - by rewrite <- !Z.add_opp_r, !(Z.add_comm _ (- _)), Z.add_compare_mono_l.
  - rewrite (proj2 (Z.compare_lt_iff _ _)); [done|lia].
  - rewrite (proj2 (Z.compare_gt_iff _ _)); [done|lia].
  - done.
Qed.

Lemma high_bits_zero_spec a from width :
  high_bits_zero a from width = true <->
  forall i, (from <= i < width)%nat -> get_bit a i = false.
Proof.
  unfold high_bits_zero. rewrite forallb_forall. split.
  - intros H i Hi. specialize (H i). rewrite in_seq in H. apply negb_true_iff, H. lia.
  - intros H i Hi%in_seq. rewrite H; [done|lia].
Qed.

(** ** Bounded conversion *)

Lemma testbit_split b k : 0 <= k -> Z.shiftr b k = Z.b2z (Z.testbit b k) + 2 * Z.shiftr b (k + 1).
Proof.
  intros Hk. rewrite <- (b2z_odd_div2 (Z.shiftr b k)). f_equal.
  - f_equal. rewrite <- Z.bit0_odd, Z.shiftr_spec by lia. f_equal.
  - by rewrite Z.div2_spec, Z.shiftr_shiftr by lia.
Qed.

Lemma bounded_usize_bits_spec byte i k n value bound :
  is_byte byte -> (k + n = 8)%nat -> 0 <= value < bound -> bound <= usize_max ->
  let total := value + Z.shiftr byte (Z.of_nat k) * pow2 (i * 8 + k) in
  bounded_usize_bits byte i k n value bound =
    if bound <=? total then inl bound else inr total.
Proof.
  intros Hb. revert k value. induction n as [|n IH]; intros k value Hk Hv Hbound total.
  - assert (Z.shiftr byte (Z.of_nat k) = 0) as E.
    { replace k with 8%nat by lia. rewrite Z.shiftr_div_pow2 by lia. by apply Z.div_small. }
    subst total. rewrite E, Z.mul_0_l, Z.add_0_r. simpl. destruct (Z.leb_spec bound value); [lia|done].
  - cbn [bounded_usize_bits].
    assert (forall v, v + 2 * Z.shiftr byte (Z.of_nat k + 1) * pow2 (i * 8 + k) =
      v + Z.shiftr byte (Z.of_nat (S k)) * pow2 (i * 8 + S k)) as Hstep.
    { intros v. rewrite Nat.add_succ_r, pow2_S. rewrite Nat2Z.inj_succ. unfold Z.succ. lia. }
    pose proof (land_1_testbit byte (Z.of_nat k) ltac:(lia)) as Ht.
    subst total. set (p := pow2 (i * 8 + k)) in *.
    assert (0 < p) by apply pow2_pos.
    assert (0 <= Z.shiftr byte (Z.of_nat k + 1)) by (apply Z.shiftr_nonneg; unfold is_byte in Hb; lia).
    destruct (Z.land _ 1 =? 0); simpl in Ht;
      rewrite (testbit_split byte (Z.of_nat k)), <- Ht by lia; cbn [Z.b2z].
    + rewrite IH by (done || lia). rewrite Z.add_0_l, Hstep. done.
    + assert (Z.shiftl 1 (Z.of_nat (i * 8 + k)) = p) as Hp by (rewrite Z.shiftl_1_l; done).
      rewrite Hp. destruct (Z.leb_spec 64 (Z.of_nat (i * 8 + k))) as [H64|H64].
      * assert (usize_max < p) by (pose proof (Z.pow_le_mono_r 2 64 (Z.of_nat (i * 8 + k)));
          unfold usize_max; subst p; lia).
        destruct (Z.leb_spec bound (value + (1 + 2 * Z.shiftr byte (Z.of_nat k + 1)) * p)); [done|nia].
      * destruct (Z.leb_spec bound (Z.min (value + p) usize_max)).
        -- destruct (Z.leb_spec bound (value + (1 + 2 * Z.shiftr byte (Z.of_nat k + 1)) * p)); [done|nia].
        -- rewrite IH by (done || lia). rewrite Z.min_l, <- Hstep by lia.
           by replace (value + p + 2 * Z.shiftr byte (Z.of_nat k + 1) * p)
             with (value + (1 + 2 * Z.shiftr byte (Z.of_nat k + 1)) * p) by lia.
Qed.

Lemma bounded_usize_loop_spec bytes i value bound :
  Forall is_byte bytes -> 0 <= value < bound -> bound <= usize_max ->
  bounded_usize_loop bytes i value bound = Z.min bound (value + bval bytes * pow2 (i * 8)).
Proof.
  intros Hb. revert i value. induction Hb as [|b bs Hb Hbs IH]; intros i value Hv Hbound.
  - simpl. lia.
  - cbn [bounded_usize_loop bval]. pose proof (pow2_pos (i * 8)). pose proof (bval_nonneg bs Hbs).
    assert (forall v, v + bval bs * pow2 (S i * 8) = v + 256 * bval bs * pow2 (i * 8)) as Hs.
    { intros v. replace (S i * 8)%nat with (8 + i * 8)%nat by lia. rewrite pow2_add.
      change (pow2 8) with 256. lia. }
    destruct (Z.eqb_spec b 0) as [->|].
    + rewrite IH, Hs by done. lia.
    + rewrite bounded_usize_bits_spec, Nat.add_0_r by (done || lia).
      change (Z.of_nat 0) with 0. rewrite Z.shiftr_0_r. destruct Hb.
      destruct (Z.leb_spec bound (value + b * pow2 (i * 8))); [nia|].
      rewrite IH, Hs by (done || nia). f_equal. lia.
Qed.

(** Shift amounts are read exactly up to the width and clamped to it beyond. *)
Lemma bytes_to_bounded_usize_repr w a x bound :
  bv_repr w a x -> (0 < bound)%nat -> Z.of_nat bound <= usize_max ->
  Z.of_nat (bytes_to_bounded_usize a bound) = Z.min (Z.of_nat bound) x.
Proof.
  intros Ha H0 Hb. pose proof (repr_range _ _ _ Ha). destruct Ha as [_ Ba Va _].
  unfold bytes_to_bounded_usize. rewrite bounded_usize_loop_spec by (done || lia).
  change (pow2 (0 * 8)) with 1. rewrite Va. lia.
Qed.
