(* ===== verification/Ir.v ===== *)
(** * The term arena ([ir.rs]) and queries ([query.rs])

    Sorts, node kinds, the hash-consing arena and its well-formedness: the ids
    map and the node vector agree, and (for arenas built by the builder) every
    node's operands come earlier and have the sorts its operation needs. *)
From S2P Require Import Prelude Bits Smt Bytes BytesFacts.


(** [struct TermId(u32)] *)
Abbreviation TermId := nat (only parsing).

Inductive Sort := SBool | SBv (width : nat).

#[export] Instance Sort_eq_dec : EqDecision Sort.
Proof. solve_decision. Defined.

Inductive NodeKind :=
  | BvConst (width : nat) (bytes : list Z)
  | BvVar (width : nat) (name : string) (external : option nat)
  | BoolConst (value : bool)
  | BoolVar (name : string) (external : option nat)
  | BvNot (x : TermId)
  | BvNeg (x : TermId)
  | BvAnd (a b : TermId)
  | BvOr (a b : TermId)
  | BvXor (a b : TermId)
  | BvAdd (a b : TermId)
  | BvSub (a b : TermId)
  | BvMul (a b : TermId)
  | BvUDiv (a b : TermId)
  | BvURem (a b : TermId)
  | BvSDiv (a b : TermId)
  | BvSRem (a b : TermId)
  | BvSMod (a b : TermId)
  | BvShl (a b : TermId)
  | BvLShr (a b : TermId)
  | BvAShr (a b : TermId)
  | BvExtract (child : TermId) (high low : nat)
  | BvConcat (high low : TermId)
  | BvZeroExtend (child : TermId) (extra : nat)
  | BvSignExtend (child : TermId) (extra : nat)
  | BvRepeat (child : TermId) (count : nat)
  | BvRotateLeft (child : TermId) (amount : nat)
  | BvRotateRight (child : TermId) (amount : nat)
  | BvIte (cond then_value else_value : TermId)
  | BvSelect (cases : list (TermId * TermId)) (default : TermId)
  | BoolNot (x : TermId)
  | BoolAnd (a b : TermId)
  | BoolOr (a b : TermId)
  | BoolImplies (a b : TermId)
  | BoolEq (a b : TermId)
  | BoolIte (cond then_value else_value : TermId)
  | BvEq (a b : TermId)
  | BvUlt (a b : TermId)
  | BvUle (a b : TermId)
  | BvSlt (a b : TermId)
  | BvSle (a b : TermId)
  | UAddOverflow (a b : TermId)
  | SAddOverflow (a b : TermId)
  | USubOverflow (a b : TermId)
  | SSubOverflow (a b : TermId)
  | UMulOverflow (a b : TermId)
  | SMulOverflow (a b : TermId)
  | NegOverflow (x : TermId)
  | SDivOverflow (a b : TermId).

(** *** Keys of the [ids] hash map

    [HashMap<NodeKey, TermId>] needs a countable key type: node kinds are
    encoded as generic trees whose leaves are numbers, bytes and names. *)
Definition kind_leaf : Type := nat + (Z + string).

Definition lnat (n : nat) : gen_tree kind_leaf := GenLeaf (inl n).
Definition lbyte (z : Z) : gen_tree kind_leaf := GenLeaf (inr (inl z)).
Definition lname (s : string) : gen_tree kind_leaf := GenLeaf (inr (inr s)).
Definition lext (o : option nat) : gen_tree kind_leaf :=
  match o with None => GenNode 0 [] | Some n => GenNode 1 [lnat n] end.
Definition lbool (b : bool) : gen_tree kind_leaf := lnat (if b then 1 else 0).
Definition lcase (c : TermId * TermId) : gen_tree kind_leaf := GenNode 0 [lnat c.1; lnat c.2].

Definition encode_kind (k : NodeKind) : gen_tree kind_leaf :=
  match k with
  | BvConst w bs => GenNode 0 (lnat w :: (lbyte <$> bs))
  | BvVar w n e => GenNode 1 [lnat w; lname n; lext e]
  | BoolConst v => GenNode 2 [lbool v]
  | BoolVar n e => GenNode 3 [lname n; lext e]
  | BvNot x => GenNode 4 [lnat x]
  | BvNeg x => GenNode 5 [lnat x]
  | BvAnd a b => GenNode 6 [lnat a; lnat b]
  | BvOr a b => GenNode 7 [lnat a; lnat b]
  | BvXor a b => GenNode 8 [lnat a; lnat b]
  | BvAdd a b => GenNode 9 [lnat a; lnat b]
  | BvSub a b => GenNode 10 [lnat a; lnat b]
  | BvMul a b => GenNode 11 [lnat a; lnat b]
  | BvUDiv a b => GenNode 12 [lnat a; lnat b]
  | BvURem a b => GenNode 13 [lnat a; lnat b]
  | BvSDiv a b => GenNode 14 [lnat a; lnat b]
  | BvSRem a b => GenNode 15 [lnat a; lnat b]
  | BvSMod a b => GenNode 16 [lnat a; lnat b]
  | BvShl a b => GenNode 17 [lnat a; lnat b]
  | BvLShr a b => GenNode 18 [lnat a; lnat b]
  | BvAShr a b => GenNode 19 [lnat a; lnat b]
  | BvExtract c h l => GenNode 20 [lnat c; lnat h; lnat l]
  | BvConcat h l => GenNode 21 [lnat h; lnat l]
  | BvZeroExtend c e => GenNode 22 [lnat c; lnat e]
  | BvSignExtend c e => GenNode 23 [lnat c; lnat e]
  | BvRepeat c n => GenNode 24 [lnat c; lnat n]
  | BvRotateLeft c n => GenNode 25 [lnat c; lnat n]
  | BvRotateRight c n => GenNode 26 [lnat c; lnat n]
  | BvIte c t e => GenNode 27 [lnat c; lnat t; lnat e]
  | BvSelect cs d => GenNode 28 (lnat d :: (lcase <$> cs))
  | BoolNot x => GenNode 29 [lnat x]
  | BoolAnd a b => GenNode 30 [lnat a; lnat b]
  | BoolOr a b => GenNode 31 [lnat a; lnat b]
  | BoolImplies a b => GenNode 32 [lnat a; lnat b]
  | BoolEq a b => GenNode 33 [lnat a; lnat b]
  | BoolIte c t e => GenNode 34 [lnat c; lnat t; lnat e]
  | BvEq a b => GenNode 35 [lnat a; lnat b]
  | BvUlt a b => GenNode 36 [lnat a; lnat b]
  | BvUle a b => GenNode 37 [lnat a; lnat b]
  | BvSlt a b => GenNode 38 [lnat a; lnat b]
  | BvSle a b => GenNode 39 [lnat a; lnat b]
  | UAddOverflow a b => GenNode 40 [lnat a; lnat b]
  | SAddOverflow a b => GenNode 41 [lnat a; lnat b]
  | USubOverflow a b => GenNode 42 [lnat a; lnat b]
  | SSubOverflow a b => GenNode 43 [lnat a; lnat b]
  | UMulOverflow a b => GenNode 44 [lnat a; lnat b]
  | SMulOverflow a b => GenNode 45 [lnat a; lnat b]
  | NegOverflow x => GenNode 46 [lnat x]
  | SDivOverflow a b => GenNode 47 [lnat a; lnat b]
  end.

Definition dnat (t : gen_tree kind_leaf) : nat :=
  match t with GenLeaf (inl n) => n | _ => 0 end.
Definition dbyte (t : gen_tree kind_leaf) : Z :=
  match t with GenLeaf (inr (inl z)) => z | _ => 0%Z end.
Definition dname (t : gen_tree kind_leaf) : string :=
  match t with GenLeaf (inr (inr s)) => s | _ => ""%string end.
Definition dext (t : gen_tree kind_leaf) : option nat :=
  match t with GenNode 1 [n] => Some (dnat n) | _ => None end.
Definition dbool (t : gen_tree kind_leaf) : bool := bool_decide (dnat t = 1).
Definition dcase (t : gen_tree kind_leaf) : TermId * TermId :=
  match t with GenNode 0 [a; b] => (dnat a, dnat b) | _ => (0, 0) end.

Definition decode_binary (tag a b : nat) : option NodeKind :=
  match tag with
  | 6 => Some (BvAnd a b) | 7 => Some (BvOr a b) | 8 => Some (BvXor a b)
  | 9 => Some (BvAdd a b) | 10 => Some (BvSub a b) | 11 => Some (BvMul a b)
  | 12 => Some (BvUDiv a b) | 13 => Some (BvURem a b) | 14 => Some (BvSDiv a b)
  | 15 => Some (BvSRem a b) | 16 => Some (BvSMod a b) | 17 => Some (BvShl a b)
  | 18 => Some (BvLShr a b) | 19 => Some (BvAShr a b) | 21 => Some (BvConcat a b)
  | 22 => Some (BvZeroExtend a b) | 23 => Some (BvSignExtend a b) | 24 => Some (BvRepeat a b)
  | 25 => Some (BvRotateLeft a b) | 26 => Some (BvRotateRight a b)
  | 30 => Some (BoolAnd a b) | 31 => Some (BoolOr a b) | 32 => Some (BoolImplies a b)
  | 33 => Some (BoolEq a b) | 35 => Some (BvEq a b) | 36 => Some (BvUlt a b)
  | 37 => Some (BvUle a b) | 38 => Some (BvSlt a b) | 39 => Some (BvSle a b)
  | 40 => Some (UAddOverflow a b) | 41 => Some (SAddOverflow a b)
  | 42 => Some (USubOverflow a b) | 43 => Some (SSubOverflow a b)
  | 44 => Some (UMulOverflow a b) | 45 => Some (SMulOverflow a b)
  | 47 => Some (SDivOverflow a b)
  | _ => None
  end.

Definition decode_kind (t : gen_tree kind_leaf) : option NodeKind :=
  match t with
  | GenNode 0 (w :: bs) => Some (BvConst (dnat w) (dbyte <$> bs))
  | GenNode 1 [w; n; e] => Some (BvVar (dnat w) (dname n) (dext e))
  | GenNode 2 [v] => Some (BoolConst (dbool v))
  | GenNode 3 [n; e] => Some (BoolVar (dname n) (dext e))
  | GenNode 4 [x] => Some (BvNot (dnat x))
  | GenNode 5 [x] => Some (BvNeg (dnat x))
  | GenNode 20 [c; h; l] => Some (BvExtract (dnat c) (dnat h) (dnat l))
  | GenNode 27 [c; t; e] => Some (BvIte (dnat c) (dnat t) (dnat e))
  | GenNode 28 (d :: cs) => Some (BvSelect (dcase <$> cs) (dnat d))
  | GenNode 29 [x] => Some (BoolNot (dnat x))
  | GenNode 34 [c; t; e] => Some (BoolIte (dnat c) (dnat t) (dnat e))
  | GenNode 46 [x] => Some (NegOverflow (dnat x))
  | GenNode tag [a; b] => decode_binary tag (dnat a) (dnat b)
  | _ => None
  end.

Lemma decode_encode_kind k : decode_kind (encode_kind k) = Some k.
Proof.
  destruct k; try reflexivity; simpl; unfold lbool, dbool;
    repeat match goal with
    | o : option nat |- _ => destruct o
    | b : bool |- _ => destruct b
    end; try reflexivity.
  - do 2 f_equal. rewrite <- list_fmap_compose. apply list_fmap_id.
  - do 2 f_equal. rewrite <- list_fmap_compose.
    rewrite <- (list_fmap_id cases) at 2. apply list_fmap_ext. by intros ? [].
Qed.

#[export] Instance NodeKind_eq_dec : EqDecision NodeKind.
Proof.
  refine (fun a b => cast_if (decide (encode_kind a = encode_kind b)));
    [|congruence].
  abstract (apply (inj Some); rewrite <- !decode_encode_kind; by f_equal).
Defined.

#[export] Instance NodeKind_countable : Countable NodeKind :=
  inj_countable encode_kind decode_kind decode_encode_kind.

#[export] Instance Sort_countable : Countable Sort.
Proof.
  refine (inj_countable' (fun s => match s with SBool => None | SBv w => Some w end)
    (fun o => match o with None => SBool | Some w => SBv w end) _); abstract (by intros []).
Defined.

Definition is_bool (s : Sort) : bool := match s with SBool => true | SBv _ => false end.
Definition bv_width (s : Sort) : option nat :=
  match s with SBool => None | SBv width => Some width end.

Record Node := mkNode { kind : NodeKind; sort : Sort }.

#[export] Instance Node_eq_dec : EqDecision Node.
Proof. solve_decision. Defined.

(** [struct NodeKey { kind, sort }] *)
Abbreviation NodeKey := (NodeKind * Sort)%type (only parsing).

Record Arena := mkArena { nodes : list Node; ids : gmap NodeKey TermId }.

Definition validate_sort (s : Sort) : res unit :=
  match s with SBool => Ok tt | SBv width => validate_bv_width width "BV sort width" end.

Module Arena.
Definition new : Arena := {| nodes := []; ids := ∅ |}.
Definition len (a : Arena) : nat := length (nodes a).
Definition is_empty (a : Arena) : bool := (length (nodes a) =? 0)%nat.

Definition node (a : Arena) (id : TermId) : res Node :=
  match nodes a !! id with Some n => Ok n | None => Err (Invalid "term id") end.

Definition sort_of (a : Arena) (id : TermId) : res Sort := n ← node a id; Ok (sort n).

(** Hash consing: an existing node is returned, a new one is appended. *)
Definition add (k : NodeKind) (s : Sort) : M Arena TermId :=
  lift (validate_sort s) ;;
  a ← get;
  match ids a !! (k, s) with
  | Some existing => mret existing
  | None =>
      let id := length (nodes a) in
      if (Z.of_nat id <? 2 ^ 32)%Z
      then put {| nodes := nodes a ++ [mkNode k s]; ids := <[(k, s) := id]> (ids a) |} ;;
           mret id
      else fail (Invalid "arena")
  end.

Definition expect_bool (a : Arena) (id : TermId) (context : string) : res unit :=
  s ← sort_of a id;
  if decide (s = SBool) then Ok tt else Err (Invalid context).

Definition expect_bv (a : Arena) (id : TermId) (context : string) : res nat :=
  s ← sort_of a id;
  match s with SBv width => Ok width | SBool => Err (Invalid context) end.

Definition expect_same_bv (a : Arena) (x y : TermId) (context : string) : res nat :=
  aw ← expect_bv a x context;
  bw ← expect_bv a y context;
  if (aw =? bw)%nat then Ok aw else Err (Invalid context).
End Arena.

(** *** Queries ([query.rs]) *)

Inductive Command := Solve | Simplify | Minimize | Maximize.

#[export] Instance Command_eq_dec : EqDecision Command.
Proof. solve_decision. Defined.

Record Assertion := mkAssertion { root : TermId; name : option string }.

Record Query := mkQuery {
  arena : Arena;
  assertions : list Assertion;
  assumptions : list TermId;
  command : Command;
  target : option TermId;
  signed : bool;
  want_model : bool;
  want_core : bool;
  get_values : list string;
}.

Definition assertions_and_assumptions (q : Query) : list TermId :=
  (root <$> assertions q) ++ assumptions q.

(** ** Typing

    [sort_of_kind prior k]: the sort of a node of kind [k] over the earlier
    nodes [prior], when its operands exist and have the sorts it needs.  This
    is what the builder checks before it calls [Arena.add]. *)

Definition width_at (prior : list Node) (id : TermId) : option nat :=
  n ← prior !! id; bv_width (sort n).
Definition bool_at (prior : list Node) (id : TermId) : bool :=
  match prior !! id with Some n => is_bool (sort n) | None => false end.

Definition binary_width (prior : list Node) (a b : TermId) : option nat :=
  w ← width_at prior a; w' ← width_at prior b; if (w =? w')%nat then Some w else None.

Definition when {A} (b : bool) (x : A) : option A := if b then Some x else None.

Definition sort_of_kind (prior : list Node) (k : NodeKind) : option Sort :=
  match k with
  | BvConst w bs => when (canonical w bs) (SBv w)
  | BvVar w _ _ => Some (SBv w)
  | BoolConst _ | BoolVar _ _ => Some SBool
  | BvNot x | BvNeg x => SBv <$> width_at prior x
  | BvAnd a b | BvOr a b | BvXor a b | BvAdd a b | BvSub a b | BvMul a b
  | BvUDiv a b | BvURem a b | BvSDiv a b | BvSRem a b | BvSMod a b
  | BvShl a b | BvLShr a b | BvAShr a b => SBv <$> binary_width prior a b
  | BvExtract c high low =>
      w ← width_at prior c;
      when ((low <=? high)%nat && (high <? w)%nat) (SBv (high - low + 1))
  | BvConcat h l => wh ← width_at prior h; wl ← width_at prior l; Some (SBv (wh + wl))
  | BvZeroExtend c extra | BvSignExtend c extra =>
      w ← width_at prior c; Some (SBv (w + extra))
  | BvRepeat c count => w ← width_at prior c; when (1 <=? count)%nat (SBv (w * count))
  | BvRotateLeft c _ | BvRotateRight c _ => SBv <$> width_at prior c
  | BvIte c t e => w ← binary_width prior t e; when (bool_at prior c) (SBv w)
  | BvSelect cases d =>
      w ← width_at prior d;
      when (forallb (fun c => bool_at prior c.1 && bool_decide (width_at prior c.2 = Some w)) cases)
        (SBv w)
  | BoolNot x => when (bool_at prior x) SBool
  | BoolAnd a b | BoolOr a b | BoolImplies a b | BoolEq a b =>
      when (bool_at prior a && bool_at prior b) SBool
  | BoolIte c t e => when (bool_at prior c && bool_at prior t && bool_at prior e) SBool
  | BvEq a b | BvUlt a b | BvUle a b | BvSlt a b | BvSle a b
  | UAddOverflow a b | SAddOverflow a b | USubOverflow a b | SSubOverflow a b
  | UMulOverflow a b | SMulOverflow a b | SDivOverflow a b =>
      _ ← binary_width prior a b; Some SBool
  | NegOverflow x => _ ← width_at prior x; Some SBool
  end.

Definition valid_sort (s : Sort) : bool :=
  match validate_sort s with Ok _ => true | _ => false end.

Definition node_ok (prior : list Node) (n : Node) : bool :=
  bool_decide (sort_of_kind prior (kind n) = Some (sort n)) && valid_sort (sort n).

Fixpoint well_typed_from (prior rest : list Node) : bool :=
  match rest with
  | [] => true
  | n :: rest => node_ok prior n && well_typed_from (prior ++ [n]) rest
  end.

(** Every node is well sorted over the nodes before it. *)
Definition well_typed (ns : list Node) : bool := well_typed_from [] ns.

(** The [ids] map is exactly the inverse of the node vector. *)
Definition ids_agree (a : Arena) : Prop :=
  forall k s i, ids a !! (k, s) = Some i <-> nodes a !! i = Some (mkNode k s).

Record wf_arena (a : Arena) : Prop := {
  wf_typed : well_typed (nodes a) = true;
  wf_ids : ids_agree a;
}.

(** A query whose roots are Bool terms, and whose target is a term, of a
    well-typed arena that [Arena.add] could have built (ids are 32 bits). *)
Definition well_formed (q : Query) : bool :=
  well_typed (nodes (arena q))
  && (forallb (bool_at (nodes (arena q))) (assertions_and_assumptions q)
      && (match target q with Some t => (t <? length (nodes (arena q))) | None => true end
          && (Z.of_nat (length (nodes (arena q))) <=? 2 ^ 32)%Z)).

(** ** Facts *)

Lemma well_typed_from_app prior l k :
  well_typed_from prior (l ++ k) = well_typed_from prior l && well_typed_from (prior ++ l) k.
Proof.
  revert prior. induction l as [|n l IH]; intros prior; simpl.
  - by rewrite app_nil_r.
  - rewrite IH, <- app_assoc. by rewrite andb_assoc.
Qed.

Lemma well_typed_snoc ns n : well_typed (ns ++ [n]) = well_typed ns && node_ok ns n.
Proof. unfold well_typed. rewrite well_typed_from_app. simpl. by rewrite andb_true_r. Qed.

Lemma well_typed_lookup ns i n :
  well_typed ns = true -> ns !! i = Some n -> node_ok (take i ns) n = true.
Proof.
  intros Hwt Hi. rewrite <- (take_drop_middle ns i n Hi) in Hwt. unfold well_typed in Hwt.
  rewrite well_typed_from_app in Hwt. simpl in Hwt. by apply andb_true_iff in Hwt as [_ [? _]%andb_true_iff].
Qed.

(** Rule induction over a well-typed node vector. *)
Lemma well_typed_ind (P : list Node -> Prop) :
  P [] ->
  (forall ns n, well_typed ns = true -> node_ok ns n = true -> P ns -> P (ns ++ [n])) ->
  forall ns, well_typed ns = true -> P ns.
Proof.
  intros H0 Hs ns. induction ns as [|n ns IH] using rev_ind; [done|].
  rewrite well_typed_snoc. intros [? ?]%andb_true_iff. auto.
Qed.

(** The legal widths. *)
Abbreviation legal w := ((1 <= w)%nat /\ (Z.of_nat w <= MAX_BV_WIDTH)%Z).

Lemma valid_sort_bv w : valid_sort (SBv w) = true <-> legal w.
Proof.
  unfold valid_sort, validate_sort, validate_bv_width. case_match eqn:E; case_match eqn:E2; try done.
  - apply andb_true_iff in E2. lia.
  - apply andb_false_iff in E2. lia.
Qed.

Lemma width_legal ns i w : well_typed ns = true -> width_at ns i = Some w -> legal w.
Proof.
  unfold width_at. destruct (ns !! i) as [n|] eqn:E; [|done]. intros Hwt. simpl.
  pose proof (well_typed_lookup _ _ _ Hwt E) as [_ Hs]%andb_true_iff.
  destruct (sort n); [done|]. intros [= ->]. by apply valid_sort_bv.
Qed.

Lemma binary_width_Some prior a b w : binary_width prior a b = Some w ->
  width_at prior a = Some w /\ width_at prior b = Some w.
Proof.
  unfold binary_width. destruct (width_at prior a) as [wa|], (width_at prior b) as [wb|]; try done.
  simpl. case_match eqn:E; [|done]. apply Nat.eqb_eq in E. naive_solver.
Qed.

Lemma when_Some {A} b (x y : A) : when b x = Some y <-> b = true /\ x = y.
Proof. unfold when. destruct b; split; naive_solver. Qed.

(** *** Queries *)

Lemma well_formed_roots q t : well_formed q = true -> t ∈ assertions_and_assumptions q ->
  bool_at (nodes (arena q)) t = true.
Proof.
  intros [_ [Hr _]%andb_true_iff]%andb_true_iff Ht.
  rewrite forallb_forall in Hr. apply Hr. by apply list_elem_of_In.
Qed.

Lemma well_formed_typed q : well_formed q = true -> well_typed (nodes (arena q)) = true.
Proof. by intros [? _]%andb_true_iff. Qed.

Lemma well_formed_length q : well_formed q = true -> (Z.of_nat (length (nodes (arena q))) <= 2 ^ 32)%Z.
Proof. unfold well_formed. rewrite !andb_true_iff. intros (_ & _ & _ & H). lia. Qed.

Lemma width_at_lt prior i w : width_at prior i = Some w -> i < length prior.
Proof. unfold width_at. destruct (prior !! i) eqn:E; [|done]. intros _. by eapply lookup_lt_Some. Qed.

Lemma bool_at_lt ns t : bool_at ns t = true -> (t < length ns)%nat.
Proof. unfold bool_at. destruct (ns !! t) eqn:E; [|done]. intros _. by eapply lookup_lt_Some. Qed.

Lemma width_at_grow ns ns' t w : ns `prefix_of` ns' -> width_at ns t = Some w -> width_at ns' t = Some w.
Proof.
  unfold width_at. intros Hp. destruct (ns !! t) as [n|] eqn:E; [|done].
  by rewrite (prefix_lookup_Some _ _ _ _ E Hp).
Qed.

Lemma bool_at_grow ns ns' t : ns `prefix_of` ns' -> bool_at ns t = true -> bool_at ns' t = true.
Proof.
  unfold bool_at. intros Hp. destruct (ns !! t) as [n|] eqn:E; [|done].
  by rewrite (prefix_lookup_Some _ _ _ _ E Hp).
Qed.

Lemma sort_of_kind_grow ns ns' k s : ns `prefix_of` ns' -> sort_of_kind ns k = Some s ->
  sort_of_kind ns' k = Some s.
Proof.
  intros Hp. pose proof (fun t w => width_at_grow ns ns' t w Hp) as Hw.
  pose proof (fun t => bool_at_grow ns ns' t Hp) as Hb.
  assert (forall a b w, binary_width ns a b = Some w -> binary_width ns' a b = Some w) as Hbw.
  { intros a b w [Ha Hb']%binary_width_Some. unfold binary_width. rewrite (Hw _ _ Ha), (Hw _ _ Hb').
    simpl. by rewrite Nat.eqb_refl. }
  assert (forall a b, bool_at ns a && bool_at ns b = true -> bool_at ns' a && bool_at ns' b = true) as Hbb.
  { intros a b [??]%andb_true_iff. apply andb_true_iff. auto. }
  destruct k; cbn [sort_of_kind]; intros H; try done;
    repeat match type of H with
    | _ <$> ?o = Some _ => let E := fresh "E" in destruct o eqn:E; simpl in H; [|done]
    | ?o ≫= _ = Some _ => let E := fresh "E" in destruct o eqn:E; simpl in H; [|done]
    end;
    repeat match goal with
    | E : width_at ns _ = Some _ |- _ => rewrite (Hw _ _ E); clear E
    | E : binary_width ns _ _ = Some _ |- _ => rewrite (Hbw _ _ _ E); clear E
    end; simpl; try done;
    apply when_Some in H as [Hc ->]; apply when_Some; (split; [|done]); auto.
  - apply forallb_forall. intros c Hin. rewrite forallb_forall in Hc.
    specialize (Hc c Hin) as [? Hd%bool_decide_eq_true]%andb_true_iff.
    apply andb_true_iff. split; [auto|]. apply bool_decide_eq_true. auto.
  - apply andb_true_iff in Hc as [[? ?]%andb_true_iff ?]. rewrite !andb_true_iff. auto.
Qed.

(** *** The arena *)

Lemma arena_new_wf : wf_arena Arena.new.
Proof. split; [done|]. intros k s i. simpl. by rewrite lookup_empty, lookup_nil. Qed.

(** [add] on an arena whose ids agree: it returns the id of exactly the
    requested node, extends the vector by at most that node, and keeps the
    agreement. *)
Lemma arena_add_spec a k s id a' :
  ids_agree a -> Arena.add k s a = (Ok id, a') ->
  nodes a' !! id = Some (mkNode k s) /\ ids_agree a' /\
  (a' = a \/ nodes a' = nodes a ++ [mkNode k s] /\ id = length (nodes a)).
Proof.
  intros Hids. unfold ids_agree in Hids. unfold Arena.add, mbind, M_bind, lift, get, mret, M_ret, put, fail.
  destruct (validate_sort s); try done.
  destruct (ids a !! (k, s)) as [i|] eqn:E.
  - intros [= <- <-]. split_and!; auto. by apply Hids.
  - destruct (_ <? _)%Z; [|done]. intros [= <- <-]. simpl. split_and!.
    + by apply list_lookup_middle.
    + intros k' s' i. simpl. destruct (decide ((k', s') = (k, s))) as [[= -> ->]|Hne].
      * rewrite lookup_insert_eq. split.
        -- intros [= <-]. by apply list_lookup_middle.
        -- intros Hi. f_equal. destruct (decide (i < length (nodes a))).
           { rewrite lookup_app_l in Hi by done. apply Hids in Hi. congruence. }
           apply lookup_lt_Some in Hi as Hlt. rewrite length_app in Hlt. simpl in Hlt. lia.
      * rewrite lookup_insert_ne by done. rewrite Hids. split; intros Hi.
        -- rewrite lookup_app_l; [done|]. by eapply lookup_lt_Some.
        -- destruct (decide (i < length (nodes a))).
           { by rewrite lookup_app_l in Hi by done. }
           apply lookup_lt_Some in Hi as Hlt. rewrite length_app in Hlt. simpl in Hlt.
           replace i with (length (nodes a)) in Hi by lia. rewrite list_lookup_middle in Hi by done.
           congruence.
    + right. done.
Qed.

Lemma add_nodes_prefix a k s id a' :
  ids_agree a -> Arena.add k s a = (Ok id, a') -> nodes a `prefix_of` nodes a'.
Proof.
  intros Hids Hadd. destruct (arena_add_spec a k s id a' Hids Hadd) as (_ & _ & [->|[-> _]]).
  - done.
  - by apply prefix_app_r.
Qed.

Lemma add_wf a k s id a' :
  wf_arena a -> node_ok (nodes a) (mkNode k s) = true ->
  Arena.add k s a = (Ok id, a') -> wf_arena a'.
Proof.
  intros [Ht Hids] Hok Hadd. destruct (arena_add_spec a k s id a' Hids Hadd) as (_ & Hids' & [->|[E _]]).
  - by split.
  - split; [|done]. by rewrite E, well_typed_snoc, Ht, Hok.
Qed.

(** *** Adding a node *)

Lemma add_ok a k s : ids_agree a -> valid_sort s = true -> (Z.of_nat (length (nodes a)) < 2 ^ 32)%Z ->
  exists id a', Arena.add k s a = (Ok id, a').
Proof.
  intros Hids Hs Hl. unfold Arena.add, mbind, M_bind, lift, get, mret, M_ret, put, fail.
  unfold valid_sort in Hs. destruct (validate_sort s) as [[]| |]; try done.
  destruct (ids a !! (k, s)); [by eexists _, _|].
  destruct (Z.ltb_spec (Z.of_nat (length (nodes a))) (2 ^ 32)%Z); [by eexists _, _|lia].
Qed.

(** The variables. *)
Definition var_kind (k : NodeKind) : bool :=
  match k with BvVar _ _ _ | BoolVar _ _ => true | _ => false end.

(** What adding a well-sorted node to a well-formed arena gives. *)
Record added (a : Arena) (k : NodeKind) (s : Sort) (id : TermId) (a' : Arena) : Prop := {
  ad_wf : wf_arena a';
  ad_node : nodes a' !! id = Some (mkNode k s);
  ad_prefix : nodes a `prefix_of` nodes a';
  ad_length : (length (nodes a') <= S (length (nodes a)));
  ad_new : forall i n, nodes a' !! i = Some n -> nodes a !! i = Some n \/ n = mkNode k s;
}.

Lemma add_added a k s : wf_arena a -> node_ok (nodes a) (mkNode k s) = true ->
  (Z.of_nat (length (nodes a)) < 2 ^ 32)%Z ->
  exists id a', Arena.add k s a = (Ok id, a') /\ added a k s id a'.
Proof.
  intros Hwf Hok Hl. pose proof Hok as [_ Hs]%andb_true_iff.
  destruct (add_ok a k s (wf_ids _ Hwf) Hs Hl) as (id & a' & E). exists id, a'. split; [done|].
  destruct (arena_add_spec a k s id a' (wf_ids _ Hwf) E) as (Hn & _ & Hcase).
  split; [by eapply add_wf|done|by eapply add_nodes_prefix, E; apply Hwf|..].
  - destruct Hcase as [->|[-> _]]; [lia|]. rewrite length_app. simpl. lia.
  - intros i n. destruct Hcase as [->|[-> _]]; [by left|].
    intros [[_ H]|[_ <-]]%lookup_snoc_Some; [by left|by right].
Qed.

(** A small query for the concrete instances of the theorems:
    [x + 3 = 2] over eight bits, with an overflow predicate in the arena. *)
Definition sample_arena : Arena :=
  {| nodes := [mkNode (BvVar 8 "x" (Some 0)) (SBv 8); mkNode (BvConst 8 [3%Z]) (SBv 8);
               mkNode (BvAdd 0 1) (SBv 8); mkNode (BvConst 8 [2%Z]) (SBv 8);
               mkNode (BvEq 2 3) SBool; mkNode (UMulOverflow 0 2) SBool];
     ids := ∅ |}.

Definition sample_query : Query :=
  {| arena := sample_arena; assertions := [{| root := 4; name := Some "a"%string |}];
     assumptions := []; command := Solve; target := None; signed := false;
     want_model := true; want_core := false; get_values := [] |}.

(** A node added while ids last. *)
Lemma arena_add_ok a k s : wf_arena a -> node_ok (nodes a) (mkNode k s) = true ->
  (Z.of_nat (length (nodes a)) < 2 ^ 32)%Z ->
  exists id a', Arena.add k s a = (Ok id, a') /\ added a k s id a' /\
    (forall i, nodes a !! i = Some (mkNode k s) -> id = i /\ a' = a) /\
    Arena.add k s a' = (Ok id, a').
Proof.
  intros Hwf Hok Hl. destruct (add_added a k s Hwf Hok Hl) as (id & a' & E & Ha).
  exists id, a'. split; [done|]. split; [done|].
  pose proof Hok as [_ Hs]%andb_true_iff.
  assert (forall b i, wf_arena b -> nodes b !! i = Some (mkNode k s) -> Arena.add k s b = (Ok i, b)) as Hold.
  { intros b i Hb Hi. apply (wf_ids _ Hb) in Hi. unfold Arena.add, mbind, M_bind, lift, get, mret, M_ret.
    unfold valid_sort in Hs. simpl in Hs. destruct (validate_sort s) as [[]|e|]; [|done..].
    by rewrite Hi. }
  split; [|destruct Ha; by apply Hold].
  intros i Hi. rewrite (Hold a i Hwf Hi) in E. by simplify_eq.
Qed.

(** A node refused. *)
Lemma arena_add_failure a k s e a' : wf_arena a -> Arena.add k s a = (Err e, a') ->
  a' = a /\ (valid_sort s = false \/
             (mkNode k s ∉ nodes a /\ (2 ^ 32 <= Z.of_nat (length (nodes a)))%Z)).
Proof.
  intros Hwf. unfold Arena.add, mbind, M_bind, lift, get, mret, M_ret, put, fail, valid_sort.
  destruct (validate_sort s) as [[]|e'|]; [|intros [= _ <-]; split; [done|by left]|done].
  destruct (ids a !! (k, s)) as [i|] eqn:Ei; [done|].
  destruct (Z.ltb_spec (Z.of_nat (length (nodes a))) (2 ^ 32)%Z); [done|].
  intros [= _ <-]. split; [done|]. right. split; [|done].
  intros [i Hi]%list_elem_of_lookup. apply (wf_ids _ Hwf) in Hi. congruence.
Qed.

(** C34: adding a node is hash consing.  While ids last, adding a well-sorted node
    to a well-formed arena succeeds, keeps every earlier node, and returns the id
    of exactly that node in a well-formed arena; a node that is present is returned
    and nothing is added; adding it again returns the same id.  Adding a node fails
    only for an illegal width or when the ids are used up, and a failure leaves the
    arena as it was. *)
Theorem arena_add_correct a k s : wf_arena a ->
  (node_ok (nodes a) (mkNode k s) = true -> (Z.of_nat (length (nodes a)) < 2 ^ 32)%Z ->
   exists id a', Arena.add k s a = (Ok id, a') /\ added a k s id a' /\
     (forall i, nodes a !! i = Some (mkNode k s) -> id = i /\ a' = a) /\
     Arena.add k s a' = (Ok id, a')) /\
  (forall e a', Arena.add k s a = (Err e, a') ->
   a' = a /\ (valid_sort s = false \/
              (mkNode k s ∉ nodes a /\ (2 ^ 32 <= Z.of_nat (length (nodes a)))%Z))).
Proof. intros Ha. split; [by apply arena_add_ok|]. intros e a'. by apply arena_add_failure. Qed.

Lemma arena_add_correct_witness :
  exists id a', Arena.add (BoolVar "p" None) SBool Arena.new = (Ok id, a') /\
    added Arena.new (BoolVar "p" None) SBool id a' /\
    (forall i, nodes Arena.new !! i = Some (mkNode (BoolVar "p" None) SBool) -> id = i /\ a' = Arena.new) /\
    Arena.add (BoolVar "p" None) SBool a' = (Ok id, a').
Proof. apply arena_add_correct; [apply arena_new_wf|reflexivity|reflexivity]. Defined.
