(* ===== verification/SmtFacts.v ===== *)
(** * Sign-magnitude and carry characterisations

    The program computes the signed operations and the overflow predicates from
    sign bits, absolute values and carries.  These lemmas equate those formulas
    with the integer definitions of [Smt.v]; they serve the evaluator and the
    circuits alike. *)
From S2P Require Import Prelude Bits Smt.

#[local] Open Scope Z_scope.

Definition msb (w : nat) (a : Z) : bool := Z.testbit a (Z.of_nat w - 1).
Definition bvabs (w : nat) (a : Z) : Z := if msb w a then bvneg w a else a.

(** One step of restoring division: the quotient and remainder of [2 x + bit]
    from those of [x]. *)
Lemma udiv_step x b (bit : bool) : 0 < b -> 0 <= x ->
  let d := 2 * (x mod b) + Z.b2z bit in
  (2 * x + Z.b2z bit) mod b = (if b <=? d then d - b else d) /\
  (2 * x + Z.b2z bit) / b = 2 * (x / b) + Z.b2z (b <=? d).
Proof.
  intros Hb Hx d. pose proof (Z.div_mod x b ltac:(lia)) as Hd.
  pose proof (Z.mod_pos_bound x b Hb). assert (0 <= Z.b2z bit <= 1) by (destruct bit; simpl; lia).
  destruct (Z.leb_spec b d); simpl Z.b2z; subst d; split; symmetry.
  - apply Z.mod_unique_pos with (2 * (x / b) + 1); lia.
  - apply Z.div_unique_pos with (2 * (x mod b) + Z.b2z bit - b); lia.
  - apply Z.mod_unique_pos with (2 * (x / b)); lia.
  - apply Z.div_unique_pos with (2 * (x mod b) + Z.b2z bit); lia.
Qed.

Lemma shiftr_split a i : 0 <= i ->
  Z.shiftr a i = 2 * Z.shiftr a (i + 1) + Z.b2z (Z.testbit a i).
Proof.
  intros Hi. rewrite <- (b2z_odd_div2 (Z.shiftr a i)), Z.add_comm. f_equal.
  - by rewrite Z.div2_spec, Z.shiftr_shiftr by lia.
  - f_equal. rewrite <- Z.bit0_odd, Z.shiftr_spec by lia. f_equal.
Qed.

(** Floor remainder from the remainder of the magnitudes. *)
Lemma quot_m1 x : Z.quot x (-1) = - x.
Proof. change (-1) with (Z.opp 1). rewrite Z.quot_opp_r, Z.quot_1_r; lia. Qed.

Lemma mod_by_signs x y : y <> 0 ->
  x mod y =
    let u := Z.abs x mod Z.abs y in
    if u =? 0 then 0
    else match x <? 0, y <? 0 with
         | false, false => u
         | true, false => y - u
         | false, true => y + u
         | true, true => - u
         end.
Proof.
  intros Hy. cbv zeta.
  pose proof (Z.div_mod (Z.abs x) (Z.abs y) ltac:(lia)) as Hd.
  pose proof (Z.mod_pos_bound (Z.abs x) (Z.abs y) ltac:(lia)) as Hm.
  set (q := Z.abs x / Z.abs y) in *. set (u := Z.abs x mod Z.abs y) in *. clearbody q u.
  symmetry.
  destruct (Z.eqb_spec u 0), (Z.ltb_spec x 0), (Z.ltb_spec y 0);
    rewrite ?(Z.abs_neq x), ?(Z.abs_neq y), ?(Z.abs_eq x), ?(Z.abs_eq y) in * by lia.
  1, 4: apply Z.mod_unique with q; lia.
  1, 2: apply Z.mod_unique with (-q); lia.
  2, 3: apply Z.mod_unique with (-q - 1); lia.
  all: apply Z.mod_unique with q; lia.
Qed.

Section facts.
Context (w : nat) (Hw : (0 < w)%nat).

Lemma pow2_ok : 0 <= 0 < pow2 w.
Proof. pose proof (pow2_pos w). lia. Qed.

Lemma bvadd_range a b : 0 <= bvadd w a b < pow2 w.
Proof. apply wrap_bound. Qed.
Lemma bvsub_range a b : 0 <= bvsub w a b < pow2 w.
Proof. apply wrap_bound. Qed.

Lemma sval_msb' a : 0 <= a < pow2 w -> sval w a = if msb w a then a - pow2 w else a.
Proof. by apply sval_msb. Qed.

Lemma msb_ge a : 0 <= a < pow2 w -> msb w a = (pow2 w <=? 2 * a).
Proof. by apply msb_spec. Qed.

Lemma bvneg_pos a : 0 < a < pow2 w -> bvneg w a = pow2 w - a.
Proof. intros. symmetry. apply Z.mod_unique_pos with (-1); lia. Qed.

Lemma bvneg_0 : bvneg w 0 = 0.
Proof. apply wrap_small. pose proof (pow2_pos w). lia. Qed.

Lemma bvabs_sval a : 0 <= a < pow2 w -> bvabs w a = Z.abs (sval w a).
Proof.
  intros Ha. unfold bvabs. rewrite sval_msb' by done. pose proof (pow2_pos w).
  destruct (msb w a) eqn:E; [|lia]. rewrite msb_ge in E by done. rewrite bvneg_pos by lia. lia.
Qed.

Lemma bvabs_bound a : 0 <= a < pow2 w -> 0 <= bvabs w a < pow2 w.
Proof. intros. unfold bvabs. case_match; [apply wrap_bound|done]. Qed.

Lemma bvabs_0 a : 0 <= a < pow2 w -> bvabs w a = 0 <-> a = 0.
Proof.
  intros Ha. rewrite bvabs_sval, Z.abs_0_iff by done. unfold sval. case_match; lia.
Qed.

Lemma wrap_opp_sval a : wrap w (- a) = bvneg w a.
Proof. done. Qed.

Lemma msb_sval_sgn a : 0 <= a < pow2 w -> msb w a = (sval w a <? 0).
Proof. intros. symmetry. by apply sval_neg. Qed.

(** Signed division by unsigned division of the magnitudes. *)
Lemma bvsdiv_sign_magnitude a b : 0 <= a < pow2 w -> 0 <= b < pow2 w ->
  bvsdiv w a b =
    let q := bvudiv w (bvabs w a) (bvabs w b) in
    if xorb (msb w a) (msb w b) then bvneg w q else q.
Proof.
  intros Ha Hb. cbv zeta. unfold bvsdiv, bvudiv.
  rewrite !bvabs_sval, !msb_sval_sgn by done.
  assert ((b =? 0) = (Z.abs (sval w b) =? 0)) as ->.
  { apply eq_bool_prop_intro. rewrite !Is_true_true, !Z.eqb_eq, <- bvabs_sval by done.
    symmetry. by apply bvabs_0. }
  pose proof (sval_range w a Ha). pose proof (sval_range w b Hb).
  set (x := sval w a) in *. set (y := sval w b) in *. clearbody x y.
  pose proof (pow2_le 1 w ltac:(lia)) as Hp. change (pow2 1) with 2 in Hp.
  destruct (Z.eqb_spec (Z.abs y) 0) as [Hy|Hy].
  - assert (y = 0) as -> by lia. rewrite Z.ltb_irrefl, xorb_false_r.
    case_match; [|done]. rewrite bvneg_pos by lia. lia.
  - rewrite <- Z.quot_div_nonneg by lia. unfold bvneg.
    assert (0 <= Z.quot (Z.abs x) (Z.abs y) < pow2 w) as Hq.
    { rewrite Z.quot_div_nonneg by lia. split; [apply Z.div_pos; lia|].
      apply Z.div_lt_upper_bound; nia. }
    destruct (Z.ltb_spec x 0), (Z.ltb_spec y 0); simpl.
    + rewrite <- (wrap_small w (Z.quot (Z.abs x) (Z.abs y))) by done.
      rewrite !Z.abs_neq, Z.quot_opp_opp by lia. done.
    + rewrite Z.abs_neq, Z.abs_eq, Z.quot_opp_l, Z.opp_involutive by lia. done.
    + rewrite Z.abs_eq, Z.abs_neq, Z.quot_opp_r, Z.opp_involutive by lia. done.
    + rewrite !Z.abs_eq in * by lia. by apply wrap_small.
Qed.

Lemma bvsrem_sign_magnitude a b : 0 <= a < pow2 w -> 0 <= b < pow2 w ->
  bvsrem w a b =
    let r := bvurem (bvabs w a) (bvabs w b) in if msb w a then bvneg w r else r.
Proof.
  intros Ha Hb. cbv zeta. unfold bvsrem, bvurem.
  assert ((b =? 0) = (bvabs w b =? 0)) as ->.
  { apply eq_bool_prop_intro. rewrite !Is_true_true, !Z.eqb_eq. symmetry. by apply bvabs_0. }
  destruct (Z.eqb_spec (bvabs w b) 0) as [E|E].
  - apply (proj1 (bvabs_0 b Hb)) in E. subst. unfold bvabs. destruct (msb w a) eqn:Em; [|done].
    unfold bvneg. rewrite wrap_opp, Z.opp_involutive. symmetry. by apply wrap_small.
  - rewrite !bvabs_sval, msb_sval_sgn in * by done.
    pose proof (sval_range w a Ha). pose proof (sval_range w b Hb).
    set (x := sval w a) in *. set (y := sval w b) in *. clearbody x y.
    rewrite <- Z.rem_mod_nonneg, Z.rem_abs_r by lia.
    destruct (Z.ltb_spec x 0).
    + rewrite (Z.abs_neq x), Z.rem_opp_l by lia. unfold bvneg. by rewrite Z.opp_involutive.
    + rewrite (Z.abs_eq x) by lia. apply wrap_small.
      pose proof (Z.rem_bound_pos_pos x (Z.abs y) ltac:(lia) ltac:(lia)) as Hr.
      rewrite Z.rem_abs_r in Hr by lia. lia.
Qed.

(** The four sign cases of [bvsmod]. *)
Lemma bvsmod_cases a b : 0 <= a < pow2 w -> 0 <= b < pow2 w ->
  bvsmod w a b =
    let u := bvurem (bvabs w a) (bvabs w b) in
    if u =? 0 then u
    else match msb w a, msb w b with
         | false, false => u
         | true, false => bvsub w b u
         | false, true => bvadd w b u
         | true, true => bvneg w u
         end.
Proof.
  intros Ha Hb. cbv zeta. unfold bvsmod, bvurem.
  assert ((b =? 0) = (bvabs w b =? 0)) as ->.
  { apply eq_bool_prop_intro. rewrite !Is_true_true, !Z.eqb_eq. symmetry. by apply bvabs_0. }
  destruct (Z.eqb_spec (bvabs w b) 0) as [E|E].
  - apply (proj1 (bvabs_0 b Hb)) in E. subst.
    assert (msb w 0 = false) as -> by (unfold msb; apply Z.testbit_0_l).
    unfold bvabs. destruct (msb w a) eqn:Em.
    + assert (0 < a) by (destruct (decide (a = 0)) as [->|]; [unfold msb in Em; by rewrite Z.testbit_0_l in Em|lia]).
      rewrite bvneg_pos by lia. destruct (Z.eqb_spec (pow2 w - a) 0); [lia|].
      unfold bvsub. rewrite Z.sub_0_l. apply Z.mod_unique_pos with (-1); lia.
    + by case_match.
  - rewrite !bvabs_sval, !msb_sval_sgn in * by done.
    assert (exists k, b = sval w b + k * pow2 w) as [k Hk].
    { apply wrap_eq_iff. by rewrite sval_wrap, wrap_small. }
    pose proof (sval_range w a Ha). pose proof (sval_range w b Hb).
    set (x := sval w a) in *. set (y := sval w b) in *. clearbody x y.
    pose proof (Z.mod_pos_bound (Z.abs x) (Z.abs y) ltac:(lia)).
    rewrite mod_by_signs by lia. cbv zeta. unfold bvsub, bvadd, bvneg. subst b.
    destruct (Z.eqb_spec (Z.abs x mod Z.abs y) 0) as [->|Hz]; [apply wrap_small, pow2_ok|].
    destruct (Z.ltb_spec x 0), (Z.ltb_spec y 0); [done| | |apply wrap_small; lia].
    all: apply wrap_eq_iff; exists (-k); lia.
Qed.

(** *** Overflow predicates *)

Lemma bvuaddo_lt a b : 0 <= a < pow2 w -> 0 <= b < pow2 w ->
  bvuaddo w a b = (bvadd w a b <? a).
Proof.
  intros Ha Hb. unfold bvuaddo, bvadd. apply eq_bool_prop_intro.
  rewrite !Is_true_true, Z.leb_le, Z.ltb_lt. destruct (Z.lt_ge_cases (a + b) (pow2 w)).
  - rewrite wrap_small by lia. lia.
  - replace (wrap w (a + b)) with (a + b - pow2 w) by (apply Z.mod_unique_pos with 1; lia). lia.
Qed.

(** The carry out of a [w]-bit addition. *)
Lemma bvuaddo_carry a b : 0 <= a < pow2 w -> 0 <= b < pow2 w ->
  bvuaddo w a b = Z.testbit (a + b) (Z.of_nat w).
Proof.
  intros Ha Hb. unfold bvuaddo. rewrite Z.testbit_eqb by lia.
  destruct (Z.leb_spec (pow2 w) (a + b)).
  - replace ((a + b) / pow2 w) with 1; [done|].
    apply Z.div_unique with (a + b - pow2 w); lia.
  - by rewrite Z.div_small by lia.
Qed.

Lemma bvsaddo_signs a b : 0 <= a < pow2 w -> 0 <= b < pow2 w ->
  bvsaddo w a b = eqb (msb w a) (msb w b) && xorb (msb w a) (msb w (bvadd w a b)).
Proof.
  intros Ha Hb. unfold bvsaddo. rewrite in_signed_range_sval.
  assert (wrap w (sval w a + sval w b) = bvadd w a b) as ->.
  { rewrite <- wrap_add, !sval_wrap by done. done. }
  pose proof (bvadd_range a b). rewrite !msb_sval_sgn by done.
  assert (exists k, bvadd w a b = sval w a + sval w b + k * pow2 w) as [k Hk].
  { apply wrap_eq_iff. rewrite <- wrap_add, !sval_wrap by done. apply wrap_wrap. }
  pose proof (sval_range w a Ha). pose proof (sval_range w b Hb).
  pose proof (sval_range w (bvadd w a b) ltac:(done)).
  assert (exists j, sval w (bvadd w a b) = sval w a + sval w b + j * pow2 w) as [j Hj].
  { unfold sval at 1. case_match; [exists (k - 1)|exists k]; lia. }
  pose proof (pow2_pos w).
  set (s := sval w (bvadd w a b)) in *. set (x := sval w a) in *. set (y := sval w b) in *.
  clearbody s x y.
  assert (j = 0 \/ j = 1 \/ j = -1) as [->|[->| ->]] by nia.
  all: destruct (Z.eqb_spec s (x + y)), (Z.ltb_spec x 0), (Z.ltb_spec y 0), (Z.ltb_spec s 0);
    simpl; (done || lia).
Qed.

Lemma bvssubo_signs a b : 0 <= a < pow2 w -> 0 <= b < pow2 w ->
  bvssubo w a b = xorb (msb w a) (msb w b) && xorb (msb w a) (msb w (bvsub w a b)).
Proof.
  intros Ha Hb. unfold bvssubo. rewrite in_signed_range_sval.
  assert (wrap w (sval w a - sval w b) = bvsub w a b) as ->.
  { rewrite <- wrap_sub, !sval_wrap by done. done. }
  pose proof (bvsub_range a b). rewrite !msb_sval_sgn by done.
  assert (exists k, bvsub w a b = sval w a - sval w b + k * pow2 w) as [k Hk].
  { apply wrap_eq_iff. rewrite <- wrap_sub, !sval_wrap by done. apply wrap_wrap. }
  pose proof (sval_range w a Ha). pose proof (sval_range w b Hb).
  pose proof (sval_range w (bvsub w a b) ltac:(done)).
  assert (exists j, sval w (bvsub w a b) = sval w a - sval w b + j * pow2 w) as [j Hj].
  { unfold sval at 1. case_match; [exists (k - 1)|exists k]; lia. }
  pose proof (pow2_pos w).
  set (s := sval w (bvsub w a b)) in *. set (x := sval w a) in *. set (y := sval w b) in *.
  clearbody s x y.
  assert (j = 0 \/ j = 1 \/ j = -1) as [->|[->| ->]] by nia.
  all: destruct (Z.eqb_spec s (x - y)), (Z.ltb_spec x 0), (Z.ltb_spec y 0), (Z.ltb_spec s 0);
    simpl; (done || lia).
Qed.

Lemma bvusubo_lt a b : bvusubo a b = (a <? b).
Proof. unfold bvusubo. destruct (Z.ltb_spec a b), (Z.ltb_spec (a - b) 0); (done || lia). Qed.

(** The full product of zero-extended operands. *)
Lemma umul_full a b : 0 <= a < pow2 w -> 0 <= b < pow2 w ->
  bvmul (w + w) a b = a * b.
Proof. intros Ha Hb. apply wrap_small. rewrite pow2_add. nia. Qed.

Lemma bvumulo_high a b : 0 <= a < pow2 w -> 0 <= b < pow2 w ->
  bvumulo w a b = negb (Z.shiftr (bvmul (w + w) a b) (Z.of_nat w) =? 0).
Proof.
  intros Ha Hb. rewrite umul_full by done. unfold bvumulo.
  rewrite Z.shiftr_div_pow2 by lia. pose proof (pow2_pos w).
  destruct (Z.leb_spec (pow2 w) (a * b)).
  - destruct (Z.eqb_spec (a * b / pow2 w) 0) as [E|]; [|done].
    apply Z.div_small_iff in E; nia.
  - by rewrite Z.div_small by nia.
Qed.

Lemma bvsmulo_ext a b : 0 <= a < pow2 w -> 0 <= b < pow2 w ->
  let p := bvmul (w + w) (bvsext w w a) (bvsext w w b) in
  bvsmulo w a b = negb (p =? bvsext w w (wrap w p)).
Proof.
  intros Ha Hb. cbv zeta. unfold bvsmulo. f_equal. rewrite in_signed_range_sval.
  assert (bvmul (w + w) (bvsext w w a) (bvsext w w b) = wrap (w + w) (sval w a * sval w b)) as ->.
  { apply wrap_mul. }
  pose proof (sval_range w a Ha). pose proof (sval_range w b Hb).
  set (z := sval w a * sval w b). pose proof (pow2_pos w).
  assert (- (pow2 w * pow2 w) <= 4 * z <= pow2 w * pow2 w) as Hz by (subst z; nia).
  assert (wrap w (wrap (w + w) z) = wrap w z) as ->.
  { unfold wrap. rewrite pow2_add. apply Z.mod_mod_divide. by exists (pow2 w). }
  pose proof (sval_range w (wrap w z) (wrap_bound w z)).
  unfold bvsext. fold (wrap (w + w) (sval w (wrap w z))).
  apply eq_bool_prop_intro. rewrite !Is_true_true, !Z.eqb_eq. split; [by intros ->|].
  intros [k Hk]%wrap_eq_iff. rewrite pow2_add in Hk. assert (k = 0) by nia. lia.
Qed.

Lemma out_of_signed_range z :
  negb (in_signed_range w z) = true <-> z < - pow2 (w - 1) \/ pow2 (w - 1) <= z.
Proof.
  unfold in_signed_range. rewrite negb_true_iff, andb_false_iff, Z.leb_gt, Z.ltb_ge.
  assert (pow2 w = 2 * pow2 (w - 1)) by (rewrite <- pow2_S; do 2 f_equal; lia). lia.
Qed.

Lemma bvnego_min a : 0 <= a < pow2 w -> bvnego w a = (a =? pow2 (w - 1)).
Proof.
  intros Ha. unfold bvnego.
  assert (pow2 w = 2 * pow2 (w - 1)) as Hp by (rewrite <- pow2_S; do 2 f_equal; lia).
  apply eq_bool_prop_intro. rewrite !Is_true_true, out_of_signed_range, Z.eqb_eq.
  unfold sval. case_match; lia.
Qed.

Lemma bvsdivo_min a b : 0 <= a < pow2 w -> 0 <= b < pow2 w ->
  bvsdivo w a b = (a =? pow2 (w - 1)) && (b =? pow2 w - 1).
Proof.
  intros Ha Hb. unfold bvsdivo. pose proof (pow2_pos (w - 1)).
  assert (pow2 w = 2 * pow2 (w - 1)) as Hp by (rewrite <- pow2_S; do 2 f_equal; lia).
  apply eq_bool_prop_intro.
  rewrite !Is_true_true, !andb_true_iff, out_of_signed_range, negb_true_iff, !Z.eqb_eq, Z.eqb_neq.
  assert (b = 0 <-> sval w b = 0) as Hb0 by (unfold sval; case_match; lia).
  assert (sval w a = - pow2 (w - 1) <-> a = pow2 (w - 1)) as Ha1 by (unfold sval; case_match; lia).
  assert (sval w b = -1 <-> b = pow2 w - 1) as Hb1 by (unfold sval; case_match; lia).
  pose proof (sval_range w a Ha). pose proof (sval_range w b Hb).
  rewrite <- Ha1, <- Hb1, Hb0. set (x := sval w a) in *. set (y := sval w b) in *. clearbody x y.
  rewrite Hp in *. clear - H H0 H1. split.
  - intros [Hy Hq]. destruct (decide (y = -1)) as [->|].
    + rewrite quot_m1 in Hq. lia.
    + destruct (decide (y = 1)) as [->|]; [rewrite Z.quot_1_r in Hq; lia|].
      pose proof (Z.quot_abs x y ltac:(lia)) as Hqa.
      assert (Z.quot (Z.abs x) (Z.abs y) <= Z.abs x / 2).
      { rewrite Z.quot_div_nonneg by lia. apply Z.div_le_compat_l; lia. }
      assert (Z.abs x / 2 < pow2 (w - 1)) by (apply Z.div_lt_upper_bound; lia). lia.
  - intros [-> ->]. split; [lia|]. rewrite quot_m1. lia.
Qed.
End facts.

(** ** Every operation stays in range *)

Create HintDb bv_bounds.

Lemma bvnot_bound w a : 0 <= a < pow2 w -> 0 <= bvnot w a < pow2 w.
Proof. unfold bvnot. lia. Qed.

Lemma bitop_bound (f : Z -> Z -> Z) (fb : bool -> bool -> bool) w a b :
  (forall x y i, Z.testbit (f x y) i = fb (Z.testbit x i) (Z.testbit y i)) ->
  (forall x y, 0 <= x -> 0 <= y -> 0 <= f x y) -> fb false false = false ->
  0 <= a < pow2 w -> 0 <= b < pow2 w -> 0 <= f a b < pow2 w.
Proof.
  intros Hf H0 Hfb Ha Hb. assert (0 <= f a b) by (apply H0; lia). split; [done|].
  replace (f a b) with (f a b mod pow2 w); [apply wrap_bound|].
  apply Z.bits_inj'. intros i Hi. destruct (decide (i < Z.of_nat w)).
  - by apply Z.mod_pow2_bits_low.
  - rewrite Z.mod_pow2_bits_high, Hf, !(testbit_high w) by lia. done.
Qed.

Lemma land_bound w a b : 0 <= a < pow2 w -> 0 <= b < pow2 w -> 0 <= Z.land a b < pow2 w.
Proof. apply (bitop_bound _ andb); [apply Z.land_spec|intros; apply Z.land_nonneg; auto|done]. Qed.
Lemma lor_bound w a b : 0 <= a < pow2 w -> 0 <= b < pow2 w -> 0 <= Z.lor a b < pow2 w.
Proof. apply (bitop_bound _ orb); [apply Z.lor_spec|intros; apply Z.lor_nonneg; auto|done]. Qed.
Lemma lxor_bound w a b : 0 <= a < pow2 w -> 0 <= b < pow2 w -> 0 <= Z.lxor a b < pow2 w.
Proof. apply (bitop_bound _ xorb); [apply Z.lxor_spec|intros; apply Z.lxor_nonneg; tauto|done]. Qed.

Lemma bvudiv_bound w a b : 0 <= a < pow2 w -> 0 <= b -> 0 <= bvudiv w a b < pow2 w.
Proof.
  intros Ha Hb. unfold bvudiv. destruct (Z.eqb_spec b 0); [lia|].
  split; [apply Z.div_pos; lia|]. pose proof (Z.div_le_upper_bound a b a). nia.
Qed.

Lemma bvurem_bound w a b : 0 <= a < pow2 w -> 0 <= b < pow2 w -> 0 <= bvurem a b < pow2 w.
Proof.
  intros Ha Hb. unfold bvurem. destruct (Z.eqb_spec b 0); [lia|].
  pose proof (Z.mod_pos_bound a b). lia.
Qed.

Lemma bvsdiv_bound w a b : (0 < w)%nat -> 0 <= bvsdiv w a b < pow2 w.
Proof.
  intros Hw. unfold bvsdiv. case_match; [|apply wrap_bound].
  pose proof (pow2_le 1 w ltac:(lia)). change (pow2 1) with 2 in *. case_match; lia.
Qed.

Lemma bvsrem_bound w a b : 0 <= a < pow2 w -> 0 <= bvsrem w a b < pow2 w.
Proof. intros. unfold bvsrem. case_match; [lia|apply wrap_bound]. Qed.

Lemma bvsmod_bound w a b : 0 <= a < pow2 w -> 0 <= bvsmod w a b < pow2 w.
Proof. intros. unfold bvsmod. case_match; [lia|apply wrap_bound]. Qed.

Lemma bvshl_bound w a b : 0 <= bvshl w a b < pow2 w.
Proof. unfold bvshl. case_match; [apply wrap_bound|pose proof (pow2_pos w); lia]. Qed.

Lemma bvlshr_bound w a b : 0 <= a < pow2 w -> 0 <= b -> 0 <= bvlshr w a b < pow2 w.
Proof. intros. unfold bvlshr. case_match; [by apply shiftr_bound|lia]. Qed.

Lemma bvneg_bound w a : 0 <= bvneg w a < pow2 w.
Proof. apply wrap_bound. Qed.
Lemma bvadd_bound w a b : 0 <= bvadd w a b < pow2 w.
Proof. apply wrap_bound. Qed.
Lemma bvsub_bound w a b : 0 <= bvsub w a b < pow2 w.
Proof. apply wrap_bound. Qed.
Lemma bvmul_bound w a b : 0 <= bvmul w a b < pow2 w.
Proof. apply wrap_bound. Qed.
Lemma bvashr_bound w a b : 0 <= bvashr w a b < pow2 w.
Proof. apply wrap_bound. Qed.

#[export] Hint Resolve wrap_bound bvneg_bound bvadd_bound bvsub_bound bvmul_bound bvashr_bound
  bvnot_bound land_bound lor_bound lxor_bound bvudiv_bound
  bvurem_bound bvsdiv_bound bvsrem_bound bvsmod_bound bvshl_bound bvlshr_bound
  bvextract_bound bvconcat_bound bvsext_bound bvrepeat_bound bvrotl_bound : bv_bounds.

(** ** Shifts compose *)

Section shifts.
Context (w : nat).
Hypothesis Hw : (0 < w)%nat.

Lemma testbit_bvshl z a i : 0 <= a -> 0 <= i < Z.of_nat w ->
  Z.testbit (bvshl w z a) i = Z.testbit z (i - a).
Proof.
  intros Ha Hi. unfold bvshl, wrap. destruct (Z.ltb_spec a (Z.of_nat w)).
  - rewrite Z.mod_pow2_bits_low, Z.shiftl_spec by lia. done.
  - rewrite Z.testbit_0_l, Z.testbit_neg_r by lia. done.
Qed.

Lemma testbit_bvlshr z a i : 0 <= z < pow2 w -> 0 <= a -> 0 <= i ->
  Z.testbit (bvlshr w z a) i = Z.testbit z (i + a).
Proof.
  intros Hz Ha Hi. unfold bvlshr. destruct (Z.ltb_spec a (Z.of_nat w)).
  - by rewrite Z.shiftr_spec by lia.
  - rewrite Z.testbit_0_l, (testbit_high w) by lia. done.
Qed.

Lemma testbit_sval_high z i : 0 <= z < pow2 w -> Z.of_nat w - 1 <= i ->
  Z.testbit (sval w z) i = msb w z.
Proof.
  intros Hz Hi. replace i with (Z.of_nat (Z.to_nat i)) by lia. rewrite testbit_sval by done.
  unfold msb. destruct (Nat.ltb_spec (Z.to_nat i) w); [|done]. f_equal. lia.
Qed.

Lemma testbit_bvashr z a i : 0 <= z < pow2 w -> 0 <= a -> 0 <= i < Z.of_nat w ->
  Z.testbit (bvashr w z a) i = Z.testbit (sval w z) (i + a).
Proof.
  intros Hz Ha Hi. unfold bvashr, wrap. rewrite Z.mod_pow2_bits_low, Z.shiftr_spec by lia.
  destruct (decide (a <= Z.of_nat w)).
  - f_equal. lia.
  - rewrite !testbit_sval_high by lia. done.
Qed.

Lemma bv_ext a b : 0 <= a < pow2 w -> 0 <= b < pow2 w ->
  (forall i, 0 <= i < Z.of_nat w -> Z.testbit a i = Z.testbit b i) -> a = b.
Proof. intros Ha Hb H. apply (Z_ext_w w); auto. intros i Hi. apply H. lia. Qed.

Lemma bvshl_0 z : 0 <= z < pow2 w -> bvshl w z 0 = z.
Proof.
  intros Hz. apply bv_ext; auto with bv_bounds. intros i Hi.
  rewrite testbit_bvshl by lia. f_equal. lia.
Qed.

Lemma bvshl_add z a b : 0 <= a -> 0 <= b -> bvshl w (bvshl w z a) b = bvshl w z (a + b).
Proof.
  intros Ha Hb. apply bv_ext; auto with bv_bounds. intros i Hi.
  rewrite (testbit_bvshl _ b), (testbit_bvshl _ (a + b)) by lia.
  destruct (decide (b <= i)).
  - rewrite testbit_bvshl by lia. f_equal. lia.
  - by rewrite !Z.testbit_neg_r by lia.
Qed.

Lemma bvlshr_0 z : 0 <= z < pow2 w -> bvlshr w z 0 = z.
Proof.
  intros Hz. apply bv_ext; [by apply bvlshr_bound|done|]. intros i Hi.
  rewrite testbit_bvlshr by lia. f_equal. lia.
Qed.

Lemma bvlshr_add z a b : 0 <= z < pow2 w -> 0 <= a -> 0 <= b ->
  bvlshr w (bvlshr w z a) b = bvlshr w z (a + b).
Proof.
  intros Hz Ha Hb. pose proof (bvlshr_bound w z a Hz Ha) as Hs.
  apply bv_ext; [by apply bvlshr_bound|apply bvlshr_bound; lia|]. intros i Hi.
  rewrite (testbit_bvlshr _ b), (testbit_bvlshr _ a), (testbit_bvlshr _ (a + b)) by lia.
  f_equal. lia.
Qed.

Lemma bvashr_0 z : 0 <= z < pow2 w -> bvashr w z 0 = z.
Proof.
  intros Hz. unfold bvashr. rewrite Z.min_l, Z.shiftr_0_r by lia. by apply sval_wrap.
Qed.

Lemma bvashr_add z a b : 0 <= z < pow2 w -> 0 <= a -> 0 <= b ->
  bvashr w (bvashr w z a) b = bvashr w z (a + b).
Proof.
  intros Hz Ha Hb. pose proof (bvashr_bound w z a) as Hs.
  apply bv_ext; auto with bv_bounds. intros i Hi.
  rewrite (testbit_bvashr _ b), (testbit_bvashr _ (a + b)) by lia.
  replace (i + (a + b)) with (i + b + a) by lia.
  destruct (decide (i + b < Z.of_nat w)).
  - replace (i + b) with (Z.of_nat (Z.to_nat (i + b))) at 1 by lia.
    rewrite testbit_sval by done. rewrite ltb_t by lia.
    rewrite testbit_bvashr by lia. f_equal. lia.
  - rewrite !testbit_sval_high by lia. unfold msb at 1.
    rewrite testbit_bvashr by lia. apply testbit_sval_high; lia.
Qed.
End shifts.

(** ** Arithmetic modulo [2^w]

    Congruence is coarser than equality, so it comes with [Proper] instances for
    the ring operations: sums and products are rewritten up to it. *)

#[local] Open Scope Z_scope.

Definition eqm (w : nat) (a b : Z) : Prop := wrap w a = wrap w b.

#[export] Instance eqm_equiv w : Equivalence (eqm w).
Proof.
  split; unfold eqm; [by intros a|by intros a b|]. intros a b c E1 E2. by rewrite E1.
Qed.

#[export] Instance eqm_add w : Proper (eqm w ==> eqm w ==> eqm w) Z.add.
Proof. unfold eqm. intros a a' Ha b b' Hb. by rewrite <- wrap_add, Ha, Hb, wrap_add. Qed.

#[export] Instance eqm_mul w : Proper (eqm w ==> eqm w ==> eqm w) Z.mul.
Proof. unfold eqm. intros a a' Ha b b' Hb. by rewrite <- wrap_mul, Ha, Hb, wrap_mul. Qed.

#[export] Instance eqm_sub w : Proper (eqm w ==> eqm w ==> eqm w) Z.sub.
Proof. unfold eqm. intros a a' Ha b b' Hb. by rewrite <- wrap_sub, Ha, Hb, wrap_sub. Qed.

#[export] Instance eqm_opp w : Proper (eqm w ==> eqm w) Z.opp.
Proof. unfold eqm. intros a a' Ha. by rewrite <- wrap_opp, Ha, wrap_opp. Qed.

Lemma eqm_wrap w a : eqm w (wrap w a) a.
Proof. apply wrap_wrap. Qed.

Lemma eqm_pow2 w : eqm w (pow2 w) 0.
Proof. unfold eqm. by rewrite <- (Z.add_0_l (pow2 w)), <- (Z.mul_1_l (pow2 w)), wrap_add_mul. Qed.

Lemma eqm_range w a b : 0 <= a < pow2 w -> 0 <= b < pow2 w -> eqm w a b -> a = b.
Proof. unfold eqm. intros Ha Hb. by rewrite !wrap_small. Qed.

Lemma eqm_bvadd w a b : eqm w (bvadd w a b) (a + b).
Proof. apply eqm_wrap. Qed.
Lemma eqm_bvsub w a b : eqm w (bvsub w a b) (a - b).
Proof. apply eqm_wrap. Qed.
Lemma eqm_bvneg w a : eqm w (bvneg w a) (- a).
Proof. apply eqm_wrap. Qed.
Lemma eqm_bvmul w a b : eqm w (bvmul w a b) (a * b).
Proof. apply eqm_wrap. Qed.
Lemma eqm_bvnot w a : eqm w (bvnot w a) (- a - 1).
Proof.
  unfold bvnot. rewrite eqm_pow2. by replace (0 - 1 - a) with (- a - 1) by lia.
Qed.

Lemma bvshl_mul w a k : 0 <= k -> bvshl w a k = wrap w (a * 2 ^ k).
Proof.
  intros Hk. unfold bvshl. destruct (Z.ltb_spec k (Z.of_nat w)).
  - by rewrite Z.shiftl_mul_pow2.
  - replace (2 ^ k) with (2 ^ (k - Z.of_nat w) * pow2 w).
    + rewrite Z.mul_assoc. rewrite <- (Z.add_0_l (_ * pow2 w)), wrap_add_mul.
      symmetry. apply wrap_small. pose proof (pow2_pos w). lia.
    + rewrite <- Z.pow_add_r by lia. f_equal. lia.
Qed.

Lemma eqm_bvshl w a k : 0 <= k -> eqm w (bvshl w a k) (a * 2 ^ k).
Proof. intros Hk. rewrite bvshl_mul by done. apply eqm_wrap. Qed.

(** Equations of bit-vectors from congruences. *)
Lemma bvadd_eq w a b z : 0 <= z < pow2 w -> eqm w (a + b) z -> bvadd w a b = z.
Proof. intros Hz E. apply (eqm_range w); [apply bvadd_bound|done|]. by rewrite eqm_bvadd. Qed.
Lemma bvmul_eq w a b z : 0 <= z < pow2 w -> eqm w (a * b) z -> bvmul w a b = z.
Proof. intros Hz E. apply (eqm_range w); [apply bvmul_bound|done|]. by rewrite eqm_bvmul. Qed.

Lemma eqm_eq w a b : a = b -> eqm w a b.
Proof. by intros ->. Qed.

Lemma bvmul_neg_l w a b : bvmul w (bvneg w a) b = bvneg w (bvmul w a b).
Proof.
  apply (eqm_range w); [apply bvmul_bound|apply bvneg_bound|].
  rewrite eqm_bvmul, !eqm_bvneg, eqm_bvmul. apply eqm_eq. ring.
Qed.

Lemma bvmul_shl_l w a b k : 0 <= k -> bvmul w (bvshl w a k) b = bvshl w (bvmul w a b) k.
Proof.
  intros Hk. apply (eqm_range w); [apply bvmul_bound|apply bvshl_bound|].
  rewrite eqm_bvmul, !eqm_bvshl, eqm_bvmul by done. apply eqm_eq. ring.
Qed.

Lemma bvmul_comm w a b : bvmul w a b = bvmul w b a.
Proof. unfold bvmul. by rewrite Z.mul_comm. Qed.

Lemma bvadd_comm w a b : bvadd w a b = bvadd w b a.
Proof. unfold bvadd. by rewrite Z.add_comm. Qed.

Lemma bvmul_m1 w b : bvmul w (pow2 w - 1) b = bvneg w b.
Proof.
  apply (eqm_range w); [apply bvmul_bound|apply bvneg_bound|].
  rewrite eqm_bvmul, eqm_bvneg, eqm_pow2. apply eqm_eq. ring.
Qed.

Lemma bvmul_1 w b : 0 <= b < pow2 w -> bvmul w 1 b = b.
Proof. intros Hb. unfold bvmul. rewrite Z.mul_1_l. by apply wrap_small. Qed.

Lemma bvadd_0 w b : 0 <= b < pow2 w -> bvadd w 0 b = b.
Proof. intros Hb. unfold bvadd. rewrite Z.add_0_l. by apply wrap_small. Qed.

Lemma bvmul_0 w b : bvmul w 0 b = 0.
Proof. unfold bvmul. rewrite Z.mul_0_l. apply wrap_small. pose proof (pow2_pos w). lia. Qed.
