(* ===== verification/Sem.v ===== *)
(** * The meaning of a query

    [denote env ns] gives every node of a node vector its SMT-LIB value under an
    environment for the variables.  It is the specification the evaluator
    ([Evaluator.v]), the bit-blaster ([Blast.v]) and the solver ([Solver.v])
    are proved against. *)
From S2P Require Import Prelude Bits Smt SmtFacts Bytes BytesFacts Ir.

#[local] Open Scope Z_scope.

(** Variables are identified by the arena index of their node. *)
Record Env := mkEnv { env_bv : TermId -> Z; env_bool : TermId -> bool }.

Definition sem_bv (vals : list value) (i : TermId) : Z :=
  match vals !! i with Some (VBv _ z) => z | _ => 0 end.
Definition sem_w (vals : list value) (i : TermId) : nat :=
  match vals !! i with Some (VBv w _) => w | _ => 0%nat end.
Definition sem_bool (vals : list value) (i : TermId) : bool :=
  match vals !! i with Some (VBool b) => b | _ => false end.

(** The value of the first case whose selector holds. *)
Fixpoint sem_select (vals : list value) (cases : list (TermId * TermId)) (d : TermId) : Z :=
  match cases with
  | [] => sem_bv vals d
  | (s, v) :: cases => if sem_bool vals s then sem_bv vals v else sem_select vals cases d
  end.

Definition sem_kind (env : Env) (i : TermId) (vals : list value) (k : NodeKind) : value :=
  let bv := sem_bv vals in
  let w := sem_w vals in
  let bo := sem_bool vals in
  match k with
  | BvConst width bytes => VBv width (bval bytes)
  | BvVar width _ _ => VBv width (wrap width (env_bv env i))
  | BoolConst b => VBool b
  | BoolVar _ _ => VBool (env_bool env i)
  | BvNot x => VBv (w x) (bvnot (w x) (bv x))
  | BvNeg x => VBv (w x) (bvneg (w x) (bv x))
  | BvAnd a b => VBv (w a) (Z.land (bv a) (bv b))
  | BvOr a b => VBv (w a) (Z.lor (bv a) (bv b))
  | BvXor a b => VBv (w a) (Z.lxor (bv a) (bv b))
  | BvAdd a b => VBv (w a) (bvadd (w a) (bv a) (bv b))
  | BvSub a b => VBv (w a) (bvsub (w a) (bv a) (bv b))
  | BvMul a b => VBv (w a) (bvmul (w a) (bv a) (bv b))
  | BvUDiv a b => VBv (w a) (bvudiv (w a) (bv a) (bv b))
  | BvURem a b => VBv (w a) (bvurem (bv a) (bv b))
  | BvSDiv a b => VBv (w a) (bvsdiv (w a) (bv a) (bv b))
  | BvSRem a b => VBv (w a) (bvsrem (w a) (bv a) (bv b))
  | BvSMod a b => VBv (w a) (bvsmod (w a) (bv a) (bv b))
  | BvShl a b => VBv (w a) (bvshl (w a) (bv a) (bv b))
  | BvLShr a b => VBv (w a) (bvlshr (w a) (bv a) (bv b))
  | BvAShr a b => VBv (w a) (bvashr (w a) (bv a) (bv b))
  | BvExtract c high low => VBv (high - low + 1) (bvextract high low (bv c))
  | BvConcat h l => VBv (w h + w l) (bvconcat (w l) (bv h) (bv l))
  | BvZeroExtend c extra => VBv (w c + extra) (bv c)
  | BvSignExtend c extra => VBv (w c + extra) (bvsext (w c) extra (bv c))
  | BvRepeat c count => VBv (w c * count) (bvrepeat (w c) count (bv c))
  | BvRotateLeft c amount => VBv (w c) (bvrotl (w c) amount (bv c))
  | BvRotateRight c amount => VBv (w c) (bvrotr (w c) amount (bv c))
  | BvIte c t e => VBv (w t) (if bo c then bv t else bv e)
  | BvSelect cases d => VBv (w d) (sem_select vals cases d)
  | BoolNot x => VBool (negb (bo x))
  | BoolAnd a b => VBool (bo a && bo b)
  | BoolOr a b => VBool (bo a || bo b)
  | BoolImplies a b => VBool (implb (bo a) (bo b))
  | BoolEq a b => VBool (eqb (bo a) (bo b))
  | BoolIte c t e => VBool (if bo c then bo t else bo e)
  | BvEq a b => VBool (bv a =? bv b)
  | BvUlt a b => VBool (bvult (bv a) (bv b))
  | BvUle a b => VBool (bvule (bv a) (bv b))
  | BvSlt a b => VBool (bvslt (w a) (bv a) (bv b))
  | BvSle a b => VBool (bvsle (w a) (bv a) (bv b))
  | UAddOverflow a b => VBool (bvuaddo (w a) (bv a) (bv b))
  | SAddOverflow a b => VBool (bvsaddo (w a) (bv a) (bv b))
  | USubOverflow a b => VBool (bvusubo (bv a) (bv b))
  | SSubOverflow a b => VBool (bvssubo (w a) (bv a) (bv b))
  | UMulOverflow a b => VBool (bvumulo (w a) (bv a) (bv b))
  | SMulOverflow a b => VBool (bvsmulo (w a) (bv a) (bv b))
  | NegOverflow x => VBool (bvnego (w x) (bv x))
  | SDivOverflow a b => VBool (bvsdivo (w a) (bv a) (bv b))
  end.

Definition denote_step (env : Env) (vals : list value) (n : Node) : list value :=
  vals ++ [sem_kind env (length vals) vals (kind n)].

Definition denote (env : Env) (ns : list Node) : list value := foldl (denote_step env) [] ns.

(** The environment satisfies every assertion and assumption. *)
Definition satisfies (env : Env) (q : Query) : bool :=
  forallb (sem_bool (denote env (nodes (arena q)))) (assertions_and_assumptions q).

Definition satisfiable (q : Query) : Prop := exists env, satisfies env q = true.

(** ** Structure *)

Lemma denote_snoc env ns n :
  denote env (ns ++ [n]) = denote env ns ++ [sem_kind env (length (denote env ns)) (denote env ns) (kind n)].
Proof. unfold denote. by rewrite foldl_snoc. Qed.

Lemma length_denote env ns : length (denote env ns) = length ns.
Proof.
  induction ns as [|n ns IH] using rev_ind; [done|].
  by rewrite denote_snoc, !length_app, IH.
Qed.

Lemma denote_app_prefix env ns ms : denote env ns `prefix_of` denote env (ns ++ ms).
Proof.
  induction ms as [|m ms IH] using rev_ind; [by rewrite app_nil_r|].
  rewrite app_assoc, denote_snoc. by apply prefix_app_r.
Qed.

Lemma denote_prefix env ns ms : ns `prefix_of` ms -> denote env ns `prefix_of` denote env ms.
Proof. intros [k ->]. apply denote_app_prefix. Qed.

Lemma denote_lookup env ns i n : ns !! i = Some n ->
  denote env ns !! i = Some (sem_kind env i (denote env (take i ns)) (kind n)).
Proof.
  intros Hi. assert (i < length ns)%nat as Hlt by (by eapply lookup_lt_Some).
  rewrite <- (take_drop_middle ns i n Hi) at 1.
  replace (take i ns ++ n :: drop (S i) ns) with ((take i ns ++ [n]) ++ drop (S i) ns)
    by (by rewrite <- app_assoc).
  eapply prefix_lookup_Some; [|apply denote_app_prefix].
  rewrite denote_snoc, length_denote, length_take.
  replace (i `min` length ns)%nat with i by lia.
  apply list_lookup_middle. rewrite length_denote, length_take. lia.
Qed.

(** ** Values have the sorts of their nodes *)

Definition value_ok (s : Sort) (v : value) : Prop :=
  match s, v with
  | SBool, VBool _ => True
  | SBv w, VBv w' z => w = w' /\ 0 <= z < pow2 w
  | _, _ => False
  end.

Definition vals_ok (prior : list Node) (vals : list value) : Prop :=
  Forall2 (fun n v => value_ok (sort n) v) prior vals.

Lemma vals_ok_bv prior vals i w : vals_ok prior vals -> width_at prior i = Some w ->
  sem_w vals i = w /\ 0 <= sem_bv vals i < pow2 w /\ vals !! i = Some (VBv w (sem_bv vals i)).
Proof.
  intros H. unfold width_at, sem_w, sem_bv. destruct (prior !! i) as [n|] eqn:E; [|done]. simpl.
  destruct (Forall2_lookup_l _ _ _ _ _ H E) as (v & -> & Hv).
  destruct (sort n), v; try done; simpl in *. intros [= <-]. by destruct Hv as [-> ?].
Qed.

Lemma vals_ok_bool prior vals i : vals_ok prior vals -> bool_at prior i = true ->
  vals !! i = Some (VBool (sem_bool vals i)).
Proof.
  intros H. unfold bool_at, sem_bool. destruct (prior !! i) as [n|] eqn:E; [|done].
  destruct (Forall2_lookup_l _ _ _ _ _ H E) as (v & -> & Hv).
  by destruct (sort n), v.
Qed.

(** Reads the operand facts off a typing hypothesis. *)
Ltac typing_facts Hv :=
  repeat match goal with
  | H : Some _ = Some _ |- _ => injection H as H; try subst
  | H : None = Some _ |- _ => discriminate H
  | H : SBv _ = ?s |- _ => is_var s; subst s
  | H : SBool = ?s |- _ => is_var s; subst s
  | H : when _ _ = Some _ |- _ => apply when_Some in H as [? H]
  | H : _ && _ = true |- _ => apply andb_true_iff in H as [? ?]
  | H : _ <$> ?o = Some _ |- _ => let E := fresh "E" in destruct o eqn:E; simpl in H
  | H : ?o ≫= _ = Some _ |- _ => let E := fresh "E" in destruct o eqn:E; simpl in H
  | H : binary_width _ _ _ = Some _ |- _ => apply binary_width_Some in H as [? ?]
  | H : width_at _ ?i = Some _ |- _ =>
      let E := fresh "Ew" in
      destruct (vals_ok_bv _ _ _ _ Hv H) as (E & ? & ?); rewrite ?E; clear H
  | H : bool_at _ ?i = true |- _ =>
      pose proof (vals_ok_bool _ _ _ Hv H); clear H
  end.

Lemma sem_select_bound prior vals cases d w :
  vals_ok prior vals -> 0 <= sem_bv vals d < pow2 w ->
  forallb (fun c => bool_at prior c.1 && bool_decide (width_at prior c.2 = Some w)) cases = true ->
  0 <= sem_select vals cases d < pow2 w.
Proof.
  intros Hv Hd. induction cases as [|[s v] cases IH]; [done|]. simpl.
  intros [[_ Hw%bool_decide_eq_true]%andb_true_iff Hc]%andb_true_iff.
  case_match; [|by apply IH]. by apply (vals_ok_bv _ _ _ _ Hv Hw).
Qed.

Lemma sem_kind_ok env i prior vals n :
  vals_ok prior vals -> node_ok prior n = true ->
  value_ok (sort n) (sem_kind env i vals (kind n)).
Proof.
  intros Hv. unfold node_ok. destruct n as [k s]. simpl.
  intros [Hs%bool_decide_eq_true Hvs]%andb_true_iff.
  destruct k; cbn [sort_of_kind sem_kind] in *; typing_facts Hv; simpl in *;
    try apply valid_sort_bv in Hvs as [? ?];
    try (split; [done|]); auto with bv_bounds lia.
  - match goal with H : canonical _ _ = true |- _ => by apply canonical_spec, repr_range in H end.
  - match goal with |- 0 <= ?x < pow2 (?a + ?b) => pose proof (pow2_le a (a + b) ltac:(lia)) end.
    lia.
  - by apply bvrotl_bound.
  - case_match; lia.
  - by eapply sem_select_bound.
Qed.

Lemma denote_ok env ns : well_typed ns = true -> vals_ok ns (denote env ns).
Proof.
  revert ns. apply well_typed_ind; [constructor|].
  intros ns n Hwt Hok IH. rewrite denote_snoc. apply Forall2_app; [done|].
  constructor; [|constructor]. by apply (sem_kind_ok _ _ ns).
Qed.

(** ** Environments *)

(** Only the variables below a node matter to it. *)
Lemma denote_env_ext env env' ns :
  (forall i, (i < length ns)%nat -> env_bv env i = env_bv env' i /\ env_bool env i = env_bool env' i) ->
  denote env ns = denote env' ns.
Proof.
  induction ns as [|n ns IH] using rev_ind; [done|]. intros H.
  rewrite !denote_snoc, IH.
  - f_equal. f_equal. rewrite length_denote. destruct (H (length ns)) as [H1 H2].
    { rewrite length_app. simpl. lia. }
    destruct (kind n); simpl; rewrite ?H1, ?H2; done.
  - intros i Hi. apply H. rewrite length_app. lia.
Qed.

(** Growing the arena does not change the meaning of the terms it had. *)
Lemma sem_bool_prefix env ns ms i : ns `prefix_of` ms -> (i < length ns)%nat ->
  sem_bool (denote env ms) i = sem_bool (denote env ns) i.
Proof.
  intros Hp Hi. unfold sem_bool.
  destruct (lookup_lt_is_Some_2 (denote env ns) i) as [v E]; [by rewrite length_denote|].
  rewrite E. by rewrite (prefix_lookup_Some _ _ _ _ E (denote_prefix env _ _ Hp)).
Qed.

Lemma sem_bv_prefix env ns ms i : ns `prefix_of` ms -> (i < length ns)%nat ->
  sem_bv (denote env ms) i = sem_bv (denote env ns) i.
Proof.
  intros Hp Hi. unfold sem_bv.
  destruct (lookup_lt_is_Some_2 (denote env ns) i) as [v E]; [by rewrite length_denote|].
  rewrite E. by rewrite (prefix_lookup_Some _ _ _ _ E (denote_prefix env _ _ Hp)).
Qed.
