(* ===== verification/Evaluator.v ===== *)
(** * The concrete evaluator ([eval.rs])

    Evaluates every node of a query's arena, in order, under one of three kinds
    of assignment, and decides whether the query holds there.  The theorems
    state that it computes [Sem.denote] under the environment the assignment
    describes, with the one exception the source has: an unsigned
    multiplication-overflow predicate wider than 32768 bits is an [Err]. *)
From S2P Require Import Prelude Bits Smt SmtFacts Bytes BytesFacts Ir Sem.

#[local] Open Scope Z_scope.

Inductive Value := EvBool (value : bool) | EvBv (width : nat) (bytes : list Z).

Definition value_bool (v : Value) : res bool :=
  match v with
  | EvBool value => Ok value
  | EvBv _ _ => Err (Internal "expected Bool value during evaluation")
  end.

Definition value_bv (v : Value) : res (nat * list Z) :=
  match v with
  | EvBv width bytes => Ok (width, bytes)
  | EvBool _ => Err (Internal "expected BV value during evaluation")
  end.

(** The explicit assignment is a [BTreeMap<TermId, Vec<u8>>]; it is only read. *)
Inductive EvalAssignment :=
  | Constant (value : bool)
  | Seed (seed : Z)
  | Explicit (values : gmap TermId (list Z)).

(** ** Seeded values: 64-bit wrapping arithmetic *)

Definition u64 (z : Z) : Z := z mod 2 ^ 64.

Definition splitmix64 (value : Z) : Z :=
  let value := u64 (value + 0x9e3779b97f4a7c15) in
  let value := u64 (Z.lxor value (Z.shiftr value 30) * 0xbf58476d1ce4e5b9) in
  let value := u64 (Z.lxor value (Z.shiftr value 27) * 0x94d049bb133111eb) in
  Z.lxor value (Z.shiftr value 31).

Definition name_bytes (name : string) : list Z :=
  (fun c => Z.of_N (Ascii.N_of_ascii c)) <$> String.list_ascii_of_string name.

Definition seeded_word (seed : Z) (index : nat) (name : string) (external : option nat)
    (chunk : Z) : Z :=
  let state :=
    Z.lxor (Z.lxor (Z.lxor seed (u64 (Z.of_nat index * 0x9e3779b97f4a7c15)))
      (Z.shiftl (match external with Some e => Z.of_nat e | None => 2 ^ 32 - 1 end) 32))
      (u64 (chunk * 0xbf58476d1ce4e5b9)) in
  let state := foldl (fun state byte =>
    let state := Z.lxor state byte in
    let state := u64 (state * 0x1000000001b3) in
    Z.lxor state (Z.shiftr state 32)) state (name_bytes name) in
  splitmix64 state.

Definition seeded_bool (seed : Z) (index : nat) (name : string) (external : option nat) : bool :=
  negb (Z.land (seeded_word seed index name external 0) 1 =? 0).

Fixpoint to_le_bytes (n : nat) (word : Z) : list Z :=
  match n with O => [] | S n => u8 word :: to_le_bytes n (Z.shiftr word 8) end.

(** [bytes.chunks_mut(8)]: the [chunk]-th chunk has at most eight bytes. *)
Definition seeded_bytes (width : nat) (seed : Z) (index : nat) (name : string)
    (external : option nat) : res (list Z) :=
  n ← bytes_for_width width;
  let slot (chunk : nat) : list Z :=
    take (8 `min` (n - 8 * chunk)) (to_le_bytes 8 (seeded_word seed index name external (Z.of_nat chunk))) in
  Ok (mask_unused_high_bits (mjoin (slot <$> seq 0 (div_ceil n 8))) width).

Definition constant_bytes (width : nat) (ones : bool) : res (list Z) :=
  n ← bytes_for_width width;
  Ok (mask_unused_high_bits (replicate n (if ones then 255 else 0)) width).

(** ** Operand access and the operations *)

Definition bool_at_id (values : list Value) (x : TermId) : res bool :=
  v ← index values x; value_bool v.
Definition bv_at_id (values : list Value) (x : TermId) : res (nat * list Z) :=
  v ← index values x; value_bv v.

Definition unary_bv (values : list Value) (x : TermId) (f : list Z -> nat -> list Z) : res Value :=
  '(width, bytes) ← bv_at_id values x; Ok (EvBv width (f bytes width)).

Definition binary_bv (values : list Value) (a b : TermId)
    (f : list Z -> list Z -> nat -> list Z) : res Value :=
  '(width, av) ← bv_at_id values a; '(_, bv) ← bv_at_id values b;
  Ok (EvBv width (f av bv width)).

Definition bitwise_bv (values : list Value) (a b : TermId) (f : Z -> Z -> Z) : res Value :=
  '(width, av) ← bv_at_id values a; '(_, bv) ← bv_at_id values b;
  Ok (EvBv width (zip_with f av bv)).

Definition shift_value (values : list Value) (value amount : TermId)
    (f : list Z -> nat -> nat -> list Z) : res Value :=
  '(width, bytes) ← bv_at_id values value; '(_, amount_bytes) ← bv_at_id values amount;
  Ok (EvBv width (f bytes width (bytes_to_bounded_usize amount_bytes width))).

Definition unsigned_cmp_value (values : list Value) (a b : TermId) (strict : bool) : res Value :=
  '(_, av) ← bv_at_id values a; '(_, bv) ← bv_at_id values b;
  let ordering := cmp_unsigned_bytes av bv in
  Ok (EvBool (if strict then bool_decide (ordering = Lt) else bool_decide (ordering <> Gt))).

Definition signed_cmp_value (values : list Value) (a b : TermId) (strict : bool) : res Value :=
  '(width, av) ← bv_at_id values a; '(_, bv) ← bv_at_id values b;
  Ok (EvBool (if strict then signed_less_than av bv width
              else negb (signed_less_than bv av width))).

(** ** Division: restoring, one bit at a time from the top *)

Definition udiv_urem_step (dividend divisor : list Z) (width bit : nat)
    (s : list Z * list Z) : list Z * list Z :=
  let '(quotient, remainder) := s in
  let remainder := shl_bytes remainder width 1 in
  let remainder := if get_bit dividend bit then set_bit remainder 0 else remainder in
  if bool_decide (cmp_unsigned_bytes remainder divisor <> Lt)
  then (set_bit quotient bit, sub_bytes remainder divisor width)
  else (quotient, remainder).

Definition udiv_urem_bytes (dividend divisor : list Z) (width : nat) : res (list Z * list Z) :=
  if forallb (fun byte => byte =? 0) divisor
  then ones ← constant_bytes width true; Ok (ones, dividend)
  else
    quotient ← constant_bytes width false;
    remainder ← constant_bytes width false;
    Ok (for_range_rev 0 width (udiv_urem_step dividend divisor width) (quotient, remainder)).

Definition udiv_urem_value (values : list Value) (a b : TermId) : res (Value * Value) :=
  '(width, dividend) ← bv_at_id values a; '(_, divisor) ← bv_at_id values b;
  '(quotient, remainder) ← udiv_urem_bytes dividend divisor width;
  Ok (EvBv width quotient, EvBv width remainder).

Inductive SignedDivKind := Div | Rem | Mod.

Definition signed_div_rem_value (values : list Value) (a b : TermId) (kind : SignedDivKind)
    : res Value :=
  '(width, av) ← bv_at_id values a; '(_, bv) ← bv_at_id values b;
  let sign_a := get_bit av (width - 1) in
  let sign_b := get_bit bv (width - 1) in
  let abs_a := if sign_a then neg_bytes av width else av in
  let abs_b := if sign_b then neg_bytes bv width else bv in
  '(q, r) ← udiv_urem_bytes abs_a abs_b width;
  match kind with
  | Div => Ok (EvBv width (if xorb sign_a sign_b then neg_bytes q width else q))
  | Rem => Ok (EvBv width (if sign_a then neg_bytes r width else r))
  | Mod =>
      let u_zero := forallb (fun byte => byte =? 0) r in
      Ok (EvBv width
        (if u_zero then r
         else match sign_a, sign_b with
              | false, false => r
              | true, false => sub_bytes bv r width
              | false, true => add_bytes bv r width
              | true, true => neg_bytes r width
              end))
  end.

(** ** Overflow predicates *)

Definition unsigned_add_overflow_value (values : list Value) (a b : TermId) : res Value :=
  '(width, av) ← bv_at_id values a; '(_, bv) ← bv_at_id values b;
  let sum := add_bytes av bv width in
  Ok (EvBool (bool_decide (cmp_unsigned_bytes sum av = Lt))).

Definition signed_add_overflow_value (values : list Value) (a b : TermId) : res Value :=
  '(width, av) ← bv_at_id values a; '(_, bv) ← bv_at_id values b;
  let sum := add_bytes av bv width in
  let sa := get_bit av (width - 1) in
  let sb := get_bit bv (width - 1) in
  let ss := get_bit sum (width - 1) in
  Ok (EvBool (eqb sa sb && negb (eqb sa ss))).

Definition signed_sub_overflow_value (values : list Value) (a b : TermId) : res Value :=
  '(width, av) ← bv_at_id values a; '(_, bv) ← bv_at_id values b;
  let diff := sub_bytes av bv width in
  let sa := get_bit av (width - 1) in
  let sb := get_bit bv (width - 1) in
  let sd := get_bit diff (width - 1) in
  Ok (EvBool (negb (eqb sa sb) && negb (eqb sa sd))).

Definition unsigned_mul_overflow_value (values : list Value) (a b : TermId) : res Value :=
  '(width, av) ← bv_at_id values a; '(_, bv) ← bv_at_id values b;
  na ← bytes_for_width (width * 2);
  let aw := resize_bytes na av in
  nb ← bytes_for_width (width * 2);
  let bw := resize_bytes nb bv in
  let product := mul_bytes aw bw (width * 2) in
  Ok (EvBool (existsb (get_bit product) (seq width (width * 2 - width)))).

Definition signed_mul_overflow_value (values : list Value) (a b : TermId) : res Value :=
  '(width, av) ← bv_at_id values a; '(_, bv) ← bv_at_id values b;
  let aw := sext_bytes av width width in
  let bw := sext_bytes bv width width in
  let product := mul_bytes aw bw (width * 2) in
  let low := extract_bytes product 0 width in
  let sign_extended_low := sext_bytes low width width in
  Ok (EvBool (negb (bool_decide (product = sign_extended_low)))).

Definition neg_overflow_value (values : list Value) (x : TermId) : res Value :=
  '(width, bytes) ← bv_at_id values x;
  Ok (EvBool (get_bit bytes (width - 1)
              && forallb (fun bit => negb (get_bit bytes bit)) (seq 0 (width - 1)))).

Definition signed_div_overflow_value (values : list Value) (a b : TermId) : res Value :=
  '(width, av) ← bv_at_id values a; '(_, bv) ← bv_at_id values b;
  let a_min := get_bit av (width - 1)
               && forallb (fun bit => negb (get_bit av bit)) (seq 0 (width - 1)) in
  ones ← constant_bytes width true;
  Ok (EvBool (a_min && bool_decide (bv = ones))).

(** ** One node *)

(** The value a variable gets under an assignment. *)
Definition bv_var_bytes (assignment : EvalAssignment) (index width : nat) (name : string)
    (external : option nat) : res (list Z) :=
  match assignment with
  | Constant value => constant_bytes width value
  | Seed seed => seeded_bytes width seed index name external
  | Explicit values =>
      match values !! u32 index with
      | Some bytes => Ok bytes
      | None => Ok (replicate (match bytes_for_width width with Ok n => n | _ => 0%nat end) 0)
      end
  end.

Definition bool_var_value (assignment : EvalAssignment) (index : nat) (name : string)
    (external : option nat) : bool :=
  match assignment with
  | Constant value => value
  | Seed seed => seeded_bool seed index name external
  | Explicit _ => false
  end.

(** The first case whose selector evaluates to true. *)
Fixpoint select_value (values : list Value) (cases : list (TermId * TermId)) (default : TermId)
    : res TermId :=
  match cases with
  | [] => Ok default
  | (selector, value) :: cases =>
      s ← bool_at_id values selector;
      if (s : bool) then Ok value else select_value values cases default
  end.

Definition evaluate_kind (assignment : EvalAssignment) (idx : nat) (values : list Value)
    (k : NodeKind) : res Value :=
  match k with
  | BoolConst value => Ok (EvBool value)
  | BoolVar name external => Ok (EvBool (bool_var_value assignment idx name external))
  | BvConst width bytes => Ok (EvBv width bytes)
  | BvVar width name external =>
      bytes ← bv_var_bytes assignment idx width name external; Ok (EvBv width bytes)
  | BvNot x =>
      '(width, bytes) ← bv_at_id values x;
      Ok (EvBv width (mask_unused_high_bits (not_u8 <$> bytes) width))
  | BvNeg x => unary_bv values x neg_bytes
  | BvAnd a b => bitwise_bv values a b Z.land
  | BvOr a b => bitwise_bv values a b Z.lor
  | BvXor a b => bitwise_bv values a b Z.lxor
  | BvAdd a b => binary_bv values a b add_bytes
  | BvSub a b => binary_bv values a b sub_bytes
  | BvMul a b => binary_bv values a b mul_bytes
  | BvUDiv a b => '(quotient, _) ← udiv_urem_value values a b; Ok quotient
  | BvURem a b => '(_, remainder) ← udiv_urem_value values a b; Ok remainder
  | BvSDiv a b => signed_div_rem_value values a b Div
  | BvSRem a b => signed_div_rem_value values a b Rem
  | BvSMod a b => signed_div_rem_value values a b Mod
  | BvShl a b => shift_value values a b shl_bytes
  | BvLShr a b => shift_value values a b lshr_bytes
  | BvAShr a b => shift_value values a b ashr_bytes
  | BvExtract child high low =>
      '(_, bytes) ← bv_at_id values child;
      let width := (high - low + 1)%nat in
      Ok (EvBv width (extract_bytes bytes low width))
  | BvConcat high low =>
      '(high_width, high_bytes) ← bv_at_id values high;
      '(low_width, low_bytes) ← bv_at_id values low;
      Ok (EvBv (high_width + low_width) (concat_bytes high_bytes high_width low_bytes low_width))
  | BvZeroExtend child extra =>
      '(child_width, child_bytes) ← bv_at_id values child;
      let width := (child_width + extra)%nat in
      n ← bytes_for_width width;
      Ok (EvBv width (mask_unused_high_bits (resize_bytes n child_bytes) width))
  | BvSignExtend child extra =>
      '(child_width, child_bytes) ← bv_at_id values child;
      Ok (EvBv (child_width + extra) (sext_bytes child_bytes child_width extra))
  | BvRepeat child count =>
      '(child_width, child_bytes) ← bv_at_id values child;
      Ok (EvBv (child_width * count) (repeat_bytes child_bytes child_width count))
  | BvRotateLeft child amount =>
      '(width, bytes) ← bv_at_id values child;
      Ok (EvBv width (rotate_left_bytes bytes width (amount mod width)))
  | BvRotateRight child amount =>
      '(width, bytes) ← bv_at_id values child;
      Ok (EvBv width (rotate_right_bytes bytes width (amount mod width)))
  | BvIte cond then_value else_value | BoolIte cond then_value else_value =>
      c ← bool_at_id values cond;
      if (c : bool) then index values then_value else index values else_value
  | BvSelect cases default =>
      selected ← select_value values cases default; index values selected
  | BoolNot x => v ← bool_at_id values x; Ok (EvBool (negb v))
  | BoolAnd a b =>
      av ← bool_at_id values a;
      if (av : bool) then bv ← bool_at_id values b; Ok (EvBool bv) else Ok (EvBool false)
  | BoolOr a b =>
      av ← bool_at_id values a;
      if (av : bool) then Ok (EvBool true) else bv ← bool_at_id values b; Ok (EvBool bv)
  | BoolImplies a b =>
      av ← bool_at_id values a;
      if negb av then Ok (EvBool true) else bv ← bool_at_id values b; Ok (EvBool bv)
  | BoolEq a b =>
      av ← bool_at_id values a; bv ← bool_at_id values b; Ok (EvBool (eqb av bv))
  | BvEq a b =>
      '(_, av) ← bv_at_id values a; '(_, bv) ← bv_at_id values b;
      Ok (EvBool (bool_decide (av = bv)))
  | BvUlt a b => unsigned_cmp_value values a b true
  | BvUle a b => unsigned_cmp_value values a b false
  | BvSlt a b => signed_cmp_value values a b true
  | BvSle a b => signed_cmp_value values a b false
  | UAddOverflow a b => unsigned_add_overflow_value values a b
  | SAddOverflow a b => signed_add_overflow_value values a b
  | USubOverflow a b => unsigned_cmp_value values a b true
  | SSubOverflow a b => signed_sub_overflow_value values a b
  | UMulOverflow a b => unsigned_mul_overflow_value values a b
  | SMulOverflow a b => signed_mul_overflow_value values a b
  | NegOverflow x => neg_overflow_value values x
  | SDivOverflow a b => signed_div_overflow_value values a b
  end.

(** ** The whole arena, and the query *)

Fixpoint evaluate_nodes (assignment : EvalAssignment) (rest : list Node) (values : list Value)
    : res (list Value) :=
  match rest with
  | [] => Ok values
  | node :: rest =>
      value ← evaluate_kind assignment (length values) values (kind node);
      evaluate_nodes assignment rest (values ++ [value])
  end.

Definition evaluate (query : Query) (assignment : EvalAssignment) : res (list Value) :=
  evaluate_nodes assignment (nodes (arena query)) [].

(** The two loops that stop at the first root that is false. *)
Fixpoint all_true (values : list Value) (roots : list TermId) : res bool :=
  match roots with
  | [] => Ok true
  | root :: roots =>
      b ← bool_at_id values root;
      if negb b then Ok false else all_true values roots
  end.

Definition query_holds (query : Query) (values : list Value) : res bool :=
  b ← all_true values (root <$> assertions query);
  if (b : bool) then all_true values (assumptions query) else Ok false.

Definition query_satisfied_by_constant_assignment (query : Query) (ones : bool) : res bool :=
  values ← evaluate query (Constant ones); query_holds query values.

Definition query_satisfied_by_seeded_assignment (query : Query) (seed : Z) : res bool :=
  values ← evaluate query (Seed seed); query_holds query values.

Definition query_satisfied_by_bv_assignment (query : Query) (assignment : gmap TermId (list Z))
    : res bool :=
  values ← evaluate query (Explicit assignment); query_holds query values.
