(* ===== verification/EvaluatorFacts.v ===== *)
(** * The evaluator computes the meaning of the query

    Every operation of [Evaluator.v] is related to the integer operation of
    [Smt.v]; rule induction over the arena then gives [evaluate_correct], and
    the three [query_satisfied_by_*] routines are sound and exact tests for
    their assignment. *)
From S2P Require Import Prelude Bits Smt SmtFacts Bytes BytesFacts Ir Sem Evaluator.

#[local] Open Scope Z_scope.

Definition val_repr (v : Value) (s : value) : Prop :=
  match v, s with
  | EvBool b, VBool b' => b = b'
  | EvBv w bs, VBv w' z => w = w' /\ bv_repr w bs z
  | _, _ => False
  end.

Lemma bytes_for_width_ok w : legal w -> bytes_for_width w = Ok (div_ceil w 8).
Proof.
  intros [H1 H2]. unfold bytes_for_width, validate_bv_width.
  assert ((1 <=? Z.of_nat w) && (Z.of_nat w <=? MAX_BV_WIDTH) = true) as -> by lia. done.
Qed.

Lemma bytes_for_width_Err w : ~ legal w -> bytes_for_width w = Err (Invalid "BV width").
Proof.
  intros H. unfold bytes_for_width, validate_bv_width.
  assert ((1 <=? Z.of_nat w) && (Z.of_nat w <=? MAX_BV_WIDTH) = false) as -> by lia. done.
Qed.

Lemma bval_replicate_ff n : bval (replicate n 255) = pow2 (8 * n) - 1.
Proof. induction n as [|n IH]; [done|]. cbn [replicate bval]. rewrite IH, pow2_8S. lia. Qed.

Lemma constant_bytes_ok w ones : legal w ->
  exists bs, constant_bytes w ones = Ok bs /\ bv_repr w bs (if ones then pow2 w - 1 else 0).
Proof.
  intros Hw. unfold constant_bytes. rewrite bytes_for_width_ok by done. simpl.
  eexists; split; [done|]. set (l := replicate _ _).
  assert (length l = div_ceil w 8) as Hlen by apply length_replicate.
  replace (if ones then _ else _) with (wrap w (bval l)).
  - apply mask_repr; [done|]. apply bytes_replicate. unfold is_byte. destruct ones; lia.
  - subst l. destruct ones.
    + rewrite bval_replicate_ff.
      destruct (pow2_bytes_wrap w (replicate (div_ceil w 8) 255)) as [k Hk]; [done|].
      rewrite length_replicate in Hk. rewrite Hk.
      replace (k * pow2 w - 1) with (-1 + k * pow2 w) by lia. rewrite wrap_add_mul.
      symmetry. pose proof (pow2_pos w). apply Z.mod_unique_pos with (-1); lia.
    + by rewrite bval_replicate_0, wrap_small by (pose proof (pow2_pos w); lia).
Qed.

Lemma all_zero_repr w bs z : bv_repr w bs z ->
  forallb (fun byte => byte =? 0) bs = (z =? 0).
Proof.
  intros [_ Hb <- _]. induction Hb as [|b bs Hb Hbs IH]; [done|].
  cbn [forallb bval]. rewrite IH. pose proof (bval_nonneg bs Hbs). unfold is_byte in Hb.
  destruct (Z.eqb_spec b 0), (Z.eqb_spec (bval bs) 0), (Z.eqb_spec (b + 256 * bval bs) 0); lia.
Qed.

Lemma set_bit_repr w bs z i : bv_repr w bs z -> (i < w)%nat ->
  Z.testbit z (Z.of_nat i) = false -> bv_repr w (set_bit bs i) (z + pow2 i).
Proof.
  intros H Hi Hz. pose proof (repr_range _ _ _ H). pose proof (div_ceil_8_bounds w).
  assert (z + pow2 i = Z.lor z (pow2 i)) as ->.
  { rewrite Z.add_nocarry_lxor, Z.lxor_lor; try done;
      (apply Z.bits_inj'; intros j Hj; rewrite Z.land_spec, Z.bits_0;
       destruct (Z.eqb_spec (Z.of_nat i) j) as [<-|];
       [by rewrite Hz|by rewrite Z.pow2_bits_false, andb_false_r by lia]). }
  apply repr_intro.
  - by rewrite length_set_bit, (repr_length _ _ _ H).
  - by apply bytes_set_bit, H.
  - apply lor_bound; [done|]. split; [apply Z.pow_nonneg; lia|]. apply Z.pow_lt_mono_r; lia.
  - intros j Hj. rewrite length_set_bit in Hj. rewrite get_set_bit, (repr_testbit _ _ _ _ H), Z.lor_spec.
    f_equal. rewrite (ltb_t j) by done. rewrite andb_true_r. destruct (Nat.eqb_spec j i) as [->|].
    + by rewrite Z.pow2_bits_true by lia.
    + by rewrite Z.pow2_bits_false by lia.
Qed.

(** ** Division *)

Lemma set_bit_0_repr w bs z : (0 < w)%nat -> bv_repr w bs (2 * z) -> bv_repr w (set_bit bs 0) (2 * z + 1).
Proof.
  intros Hw H. apply (set_bit_repr w bs (2 * z) 0); [done|lia|].
  change (Z.of_nat 0) with 0. apply Z.testbit_even_0.
Qed.

Section division.
Context (w : nat) (a b : list Z) (x y : Z).
Hypothesis Hw : legal w.
Hypothesis Ha : bv_repr w a x.
Hypothesis Hb : bv_repr w b y.
Hypothesis Hy : 0 < y.

(** After the bits above [i]: the quotient and remainder of [x >> i]. *)
Definition division_inv (i : nat) (s : list Z * list Z) : Prop :=
  bv_repr w s.1 (Z.shiftr x (Z.of_nat i) / y * pow2 i) /\
  bv_repr w s.2 (Z.shiftr x (Z.of_nat i) mod y).

Lemma division_step i s : (i < w)%nat ->
  division_inv (i + 1) s -> division_inv i (udiv_urem_step a b w i s).
Proof.
  intros Hi [Hq Hr]. destruct s as [q r]. simpl in Hq, Hr. unfold udiv_urem_step.
  pose proof (repr_range _ _ _ Ha) as Hx.
  rewrite Nat2Z.inj_add in Hq, Hr. change (Z.of_nat 1) with 1 in *.
  assert (0 <= Z.shiftr x (Z.of_nat i + 1)) as Hs by (apply Z.shiftr_nonneg; lia).
  pose proof (shiftr_bound w x (Z.of_nat i) Hx ltac:(lia)) as Hxi.
  pose proof (shiftr_split x (Z.of_nat i) ltac:(lia)) as Hsplit.
  destruct (udiv_step (Z.shiftr x (Z.of_nat i + 1)) y (Z.testbit x (Z.of_nat i)) Hy Hs) as [Em Ed].
  rewrite <- Hsplit in Em, Ed.
  rewrite (repr_testbit _ _ _ i Ha).
  set (X := Z.shiftr x (Z.of_nat i + 1)) in *. set (c := Z.testbit x (Z.of_nat i)) in *.
  pose proof (Z.mod_le X y Hs Hy). pose proof (Z.mod_pos_bound X y Hy).
  assert (bv_repr w (shl_bytes r w 1) (2 * (X mod y))) as Hr2.
  { replace (2 * (X mod y)) with (wrap w (Z.shiftl (X mod y) (Z.of_nat 1))).
    - by apply shl_bytes_repr.
    - rewrite Z.shiftl_mul_pow2 by lia. change (pow2 1) with 2.
      rewrite Z.mul_comm. apply wrap_small. destruct c; simpl in Hsplit; lia. }
  assert (bv_repr w (if c then set_bit (shl_bytes r w 1) 0 else shl_bytes r w 1)
            (2 * (X mod y) + Z.b2z c)) as Hd.
  { destruct c; simpl Z.b2z; [apply set_bit_0_repr; [lia|done]|by rewrite Z.add_0_r]. }
  set (r' := if c then _ else _) in *. set (d := 2 * (X mod y) + Z.b2z c) in *.
  rewrite (cmp_unsigned_repr _ _ _ _ _ Hd Hb). fold (Z.lt d y).
  assert (X / y * 2 ^ (Z.of_nat i + 1) = 2 * (X / y) * pow2 i) as Eq
    by (rewrite Z.pow_add_r by lia; lia).
  rewrite Eq in Hq. destruct (Z.leb_spec y d) as [Hle|Hlt].
  - rewrite bool_decide_true by (by apply Z.compare_ge_iff).
    split; simpl; rewrite ?Em, ?Ed.
    + simpl Z.b2z. replace ((2 * (X / y) + 1) * pow2 i) with (2 * (X / y) * pow2 i + pow2 i) by lia.
      apply set_bit_repr; [done|done|].
      rewrite <- Eq. apply Z.mul_pow2_bits_low. lia.
    + replace (d - y) with (bvsub w d y); [by apply sub_bytes_repr|].
      pose proof (repr_range _ _ _ Hd). apply wrap_small. lia.
  - rewrite bool_decide_false by (intros Hge; by apply Hge, Z.compare_lt_iff).
    split; simpl; rewrite ?Em, ?Ed; simpl Z.b2z; rewrite ?Z.add_0_r; done.
Qed.
End division.

Lemma udiv_urem_bytes_ok w a b x y : legal w -> bv_repr w a x -> bv_repr w b y ->
  exists q r, udiv_urem_bytes a b w = Ok (q, r) /\
    bv_repr w q (bvudiv w x y) /\ bv_repr w r (bvurem x y).
Proof.
  intros Hw Ha Hb. pose proof (repr_range _ _ _ Hb). pose proof (repr_range _ _ _ Ha) as Hx.
  unfold udiv_urem_bytes, bvudiv, bvurem. rewrite (all_zero_repr _ _ _ Hb).
  destruct (constant_bytes_ok w true Hw) as (ones & E1 & H1).
  destruct (constant_bytes_ok w false Hw) as (zeros & E0 & H0). rewrite E1, E0. simpl.
  destruct (Z.eqb_spec y 0) as [->|Hne]; [by exists ones, a|].
  assert (division_inv w x y 0 (for_range_rev 0 w (udiv_urem_step a b w) (zeros, zeros))) as [Hq Hr].
  { apply (for_range_rev_ind (division_inv w x y)); [lia| |].
    - unfold division_inv. rewrite Z.shiftr_div_pow2, (Z.div_small x) by lia.
      rewrite Z.div_0_l, Z.mod_0_l by lia. done.
    - intros i s Hi. apply division_step; (done || lia). }
  destruct (for_range_rev _ _ _ _) as [q r]. exists q, r. split; [done|].
  simpl in Hq, Hr. change (Z.of_nat 0) with 0 in *. rewrite Z.shiftr_0_r in *.
  change (2 ^ 0) with 1 in *. by rewrite Z.mul_1_r in Hq.
Qed.

(** ** Operands *)

Definition evaluates (r : res Value) (s : value) : Prop := exists v, r = Ok v /\ val_repr v s.

Lemma evaluates_bv w bs z : bv_repr w bs z -> evaluates (Ok (EvBv w bs)) (VBv w z).
Proof. eexists; split; [done|]. by split. Qed.

Lemma evaluates_bool b b' : b = b' -> evaluates (Ok (EvBool b)) (VBool b').
Proof. intros ->. by eexists. Qed.

Lemma evaluates_index values dvals i v : Forall2 val_repr values dvals -> dvals !! i = Some v ->
  evaluates (index values i) v.
Proof.
  intros H Hi. destruct (Forall2_lookup_r _ _ _ _ _ H Hi) as (v' & E & R).
  exists v'. split; [by apply index_Some|done].
Qed.

Lemma value_operand_bv values dvals prior x w :
  Forall2 val_repr values dvals -> vals_ok prior dvals -> width_at prior x = Some w ->
  exists bs, bv_at_id values x = Ok (w, bs) /\ bv_repr w bs (sem_bv dvals x) /\ sem_w dvals x = w.
Proof.
  intros Hr Hv Hx. destruct (vals_ok_bv _ _ _ _ Hv Hx) as (E & _ & Hl).
  destruct (evaluates_index _ _ _ _ Hr Hl) as ([|w' bs] & Ei & R); [done|].
  destruct R as [-> R]. exists bs. unfold bv_at_id. by rewrite Ei.
Qed.

Lemma value_operand_bool values dvals prior x :
  Forall2 val_repr values dvals -> vals_ok prior dvals -> bool_at prior x = true ->
  bool_at_id values x = Ok (sem_bool dvals x).
Proof.
  intros Hr Hv Hx. pose proof (vals_ok_bool _ _ _ Hv Hx) as Hl.
  destruct (evaluates_index _ _ _ _ Hr Hl) as ([b|] & Ei & R); [|done].
  unfold bool_at_id. rewrite Ei. simpl. by rewrite <- R.
Qed.

(** ** Signed operations and overflow predicates *)

Section operations.
Context (values : list Value) (a b : TermId) (w : nat) (av bv : list Z) (x y : Z).
Hypothesis Hw : legal w.
Hypothesis Ea : bv_at_id values a = Ok (w, av).
Hypothesis Ra : bv_repr w av x.
Hypothesis Eb : bv_at_id values b = Ok (w, bv).
Hypothesis Rb : bv_repr w bv y.

Lemma sign_bit bs z : bv_repr w bs z -> get_bit bs (w - 1) = msb w z.
Proof. intros H. rewrite (repr_testbit _ _ _ _ H). unfold msb. f_equal. lia. Qed.

Lemma abs_repr bs z : bv_repr w bs z -> bv_repr w (if msb w z then neg_bytes bs w else bs) (bvabs w z).
Proof. intros H. unfold bvabs. case_match; [by apply neg_bytes_repr|done]. Qed.

Lemma signed_div_rem_ok kind :
  evaluates (signed_div_rem_value values a b kind)
    (VBv w match kind with Div => bvsdiv w x y | Rem => bvsrem w x y | Mod => bvsmod w x y end).
Proof.
  pose proof (repr_range _ _ _ Ra). pose proof (repr_range _ _ _ Rb).
  unfold signed_div_rem_value. rewrite Ea, Eb. simpl. rewrite !(sign_bit _ _ Ra), !(sign_bit _ _ Rb).
  destruct (udiv_urem_bytes_ok w _ _ _ _ Hw (abs_repr _ _ Ra) (abs_repr _ _ Rb))
    as (q & r & E & Hq & Hr). rewrite E. simpl.
  clear E. destruct kind; apply evaluates_bv;
    rewrite ?bvsdiv_sign_magnitude, ?bvsrem_sign_magnitude, ?bvsmod_cases by (done || lia);
    cbv zeta; rewrite ?(all_zero_repr _ _ _ Hr); try destruct (_ =? 0);
    destruct (msb w x), (msb w y); simpl;
    auto using neg_bytes_repr, sub_bytes_repr, add_bytes_repr.
Qed.

Lemma unsigned_add_overflow_ok :
  evaluates (unsigned_add_overflow_value values a b) (VBool (bvuaddo w x y)).
Proof.
  pose proof (repr_range _ _ _ Ra). pose proof (repr_range _ _ _ Rb).
  unfold unsigned_add_overflow_value. rewrite Ea, Eb. simpl. apply evaluates_bool.
  rewrite (cmp_unsigned_repr _ _ _ _ _ (add_bytes_repr _ _ _ _ _ Ra Rb) Ra).
  rewrite bvuaddo_lt by (done || lia). apply bool_decide_reflects. by rewrite Z.ltb_lt.
Qed.

Lemma signed_add_overflow_ok :
  evaluates (signed_add_overflow_value values a b) (VBool (bvsaddo w x y)).
Proof.
  pose proof (repr_range _ _ _ Ra). pose proof (repr_range _ _ _ Rb).
  unfold signed_add_overflow_value. rewrite Ea, Eb. simpl. apply evaluates_bool.
  rewrite (sign_bit _ _ Ra), (sign_bit _ _ Rb), (sign_bit _ _ (add_bytes_repr _ _ _ _ _ Ra Rb)).
  rewrite bvsaddo_signs by (done || lia). f_equal. by destruct (msb w x), (msb w (bvadd w x y)).
Qed.

Lemma signed_sub_overflow_ok :
  evaluates (signed_sub_overflow_value values a b) (VBool (bvssubo w x y)).
Proof.
  pose proof (repr_range _ _ _ Ra). pose proof (repr_range _ _ _ Rb).
  unfold signed_sub_overflow_value. rewrite Ea, Eb. simpl. apply evaluates_bool.
  rewrite (sign_bit _ _ Ra), (sign_bit _ _ Rb), (sign_bit _ _ (sub_bytes_repr _ _ _ _ _ Ra Rb)).
  rewrite bvssubo_signs by (done || lia).
  by destruct (msb w x), (msb w y), (msb w (bvsub w x y)).
Qed.

Lemma resize_repr bs z n : bv_repr w bs z -> (w <= n)%nat ->
  bv_repr n (resize_bytes (div_ceil n 8) bs) z.
Proof.
  intros H Hn. pose proof (repr_range _ _ _ H). pose proof (div_ceil_8_mono w n Hn).
  assert (length bs <= div_ceil n 8)%nat by (rewrite (repr_length _ _ _ H); lia).
  destruct (resize_shape (div_ceil n 8) bs) as [Hl Hb]; [apply H|done|].
  apply repr_intro; [done..| |].
  - pose proof (pow2_le w n Hn). lia.
  - intros i _. rewrite get_bit_resize by (apply H || done). by apply repr_testbit with w.
Qed.

Lemma existsb_high bs z n : bv_repr (w + n) bs z ->
  existsb (get_bit bs) (seq w n) = negb (Z.shiftr z (Z.of_nat w) =? 0).
Proof.
  intros H. pose proof (repr_range _ _ _ H) as Hz.
  apply eq_bool_prop_intro. rewrite !Is_true_true, negb_true_iff, Z.eqb_neq, existsb_exists. split.
  - intros (i & Hi%in_seq & Hbit) E. rewrite (repr_testbit _ _ _ _ H) in Hbit.
    assert (Z.testbit (Z.shiftr z (Z.of_nat w)) (Z.of_nat (i - w)) = true) as Hs.
    { rewrite Z.shiftr_spec by lia. rewrite <- Hbit. f_equal. lia. }
    by rewrite E, Z.testbit_0_l in Hs.
  - intros Hne. destruct (existsb (get_bit bs) (seq w n)) eqn:E.
    { by apply existsb_exists in E. }
    exfalso. apply Hne, Z.bits_inj'. intros i Hi. rewrite Z.bits_0, Z.shiftr_spec by lia.
    replace (i + Z.of_nat w) with (Z.of_nat (Z.to_nat i + w)) by lia.
    destruct (decide (Z.to_nat i < n)%nat).
    + rewrite <- (repr_testbit _ _ _ _ H). destruct (get_bit _ _) eqn:Eb'; [|done].
      rewrite <- E. symmetry. apply existsb_exists. exists (Z.to_nat i + w)%nat.
      split; [apply in_seq; lia|done].
    + apply (testbit_high (w + n)); lia.
Qed.

Lemma unsigned_mul_overflow_ok :
  if bool_decide (Z.of_nat (w * 2) <= MAX_BV_WIDTH)
  then evaluates (unsigned_mul_overflow_value values a b) (VBool (bvumulo w x y))
  else unsigned_mul_overflow_value values a b = Err (Invalid "BV width").
Proof.
  pose proof (repr_range _ _ _ Ra). pose proof (repr_range _ _ _ Rb).
  unfold unsigned_mul_overflow_value. rewrite Ea, Eb. simpl. case_bool_decide as Hwide.
  - rewrite !bytes_for_width_ok by lia. simpl. apply evaluates_bool.
    replace (w * 2)%nat with (w + w)%nat by lia.
    rewrite bvumulo_high by (done || lia). replace (w + w - w)%nat with w by lia.
    apply existsb_high. by apply mul_bytes_repr; apply resize_repr; (done || lia).
  - by rewrite !bytes_for_width_Err by lia.
Qed.

Lemma signed_mul_overflow_ok :
  evaluates (signed_mul_overflow_value values a b) (VBool (bvsmulo w x y)).
Proof.
  pose proof (repr_range _ _ _ Ra). pose proof (repr_range _ _ _ Rb).
  unfold signed_mul_overflow_value. rewrite Ea, Eb. simpl. apply evaluates_bool.
  replace (w * 2)%nat with (w + w)%nat by lia.
  rewrite bvsmulo_ext by (done || lia). cbv zeta. f_equal.
  assert (bv_repr (w + w) (mul_bytes (sext_bytes av w w) (sext_bytes bv w w) (w + w))
            (bvmul (w + w) (bvsext w w x) (bvsext w w y))) as Hp
    by (apply mul_bytes_repr; apply sext_bytes_repr; (done || lia)).
  pose proof (extract_bytes_repr _ _ _ 0 (w - 1) Hp ltac:(lia)) as Hl.
  replace (w - 1 - 0 + 1)%nat with w in Hl by lia.
  assert (bvextract (w - 1) 0 (bvmul (w + w) (bvsext w w x) (bvsext w w y)) =
          wrap w (bvmul (w + w) (bvsext w w x) (bvsext w w y))) as El.
  { unfold bvextract, wrap. change (Z.of_nat 0) with 0. rewrite Z.shiftr_0_r.
    do 3 f_equal. lia. }
  rewrite El in Hl. assert (0 < w)%nat by lia. pose proof (sext_bytes_repr _ _ _ w ltac:(done) Hl) as Hs.
  apply bool_decide_reflects. by rewrite Z.eqb_eq, (repr_inj _ _ _ _ _ Hp Hs).
Qed.

Lemma is_min_repr bs z : bv_repr w bs z ->
  get_bit bs (w - 1) && forallb (fun bit => negb (get_bit bs bit)) (seq 0 (w - 1))
  = (z =? pow2 (w - 1)).
Proof.
  intros H. pose proof (repr_range _ _ _ H). apply eq_bool_prop_intro.
  rewrite !Is_true_true, andb_true_iff, Z.eqb_eq, forallb_forall. split.
  - intros [Htop Hrest]. apply (Z_ext_w w); [done| |].
    + split; [apply Z.pow_nonneg; lia|apply Z.pow_lt_mono_r; lia].
    + intros i Hi. rewrite <- (repr_testbit _ _ _ _ H). destruct (decide (i = w - 1)%nat) as [->|].
      * by rewrite Htop, Z.pow2_bits_true by lia.
      * rewrite Z.pow2_bits_false by lia. apply negb_true_iff, Hrest, in_seq. lia.
  - intros ->. rewrite (repr_testbit _ _ _ _ H), Z.pow2_bits_true by lia. split; [done|].
    intros i Hi%in_seq. by rewrite (repr_testbit _ _ _ _ H), Z.pow2_bits_false by lia.
Qed.

Lemma neg_overflow_ok : evaluates (neg_overflow_value values a) (VBool (bvnego w x)).
Proof.
  pose proof (repr_range _ _ _ Ra). unfold neg_overflow_value. rewrite Ea. simpl.
  apply evaluates_bool. by rewrite (is_min_repr _ _ Ra), bvnego_min by (done || lia).
Qed.

Lemma signed_div_overflow_ok :
  evaluates (signed_div_overflow_value values a b) (VBool (bvsdivo w x y)).
Proof.
  pose proof (repr_range _ _ _ Ra). pose proof (repr_range _ _ _ Rb).
  unfold signed_div_overflow_value. rewrite Ea, Eb. simpl.
  destruct (constant_bytes_ok w true Hw) as (ones & E & Hones). rewrite E. simpl.
  apply evaluates_bool. rewrite (is_min_repr _ _ Ra), bvsdivo_min by (done || lia). f_equal.
  apply bool_decide_reflects. by rewrite Z.eqb_eq, (repr_inj _ _ _ _ _ Rb Hones).
Qed.

Lemma shift_amount : Z.of_nat (bytes_to_bounded_usize bv w) = Z.min (Z.of_nat w) y.
Proof.
  apply (bytes_to_bounded_usize_repr w); [done|lia|].
  destruct Hw as [_ ?]. unfold MAX_BV_WIDTH, usize_max in *. lia.
Qed.
End operations.

(** ** Variables *)

Lemma to_le_bytes_shape n word : length (to_le_bytes n word) = n /\ Forall is_byte (to_le_bytes n word).
Proof.
  revert word. induction n as [|n IH]; intros word; [done|]. cbn [to_le_bytes length].
  destruct (IH (Z.shiftr word 8)) as [-> ?]. split; [done|].
  constructor; [apply is_byte_u8|done].
Qed.

Lemma bval_to_le n z : bval (to_le_bytes n z) = z mod pow2 (8 * n).
Proof.
  revert z. induction n as [|n IH]; intros z; simpl.
  - change (pow2 (8 * 0)) with 1. by rewrite Z.mod_1_r.
  - rewrite IH, u8_mod, shiftr_8, pow2_8S. pose proof (mod_256_split z 0 (pow2 (8 * n)) (pow2_pos _)) as E.
    by rewrite Z.mul_0_r, !Z.add_0_r, Z.add_0_l in E.
Qed.

Lemma take_to_le k n z : (k <= n)%nat -> take k (to_le_bytes n z) = to_le_bytes k z.
Proof.
  revert k z. induction n as [|n IH]; intros [|k] z Hk; try done; [lia|]. simpl. rewrite IH by lia. done.
Qed.

Lemma chunks_shape n (f : nat -> Z) k :
  let l := mjoin ((fun chunk => take (8 `min` (n - 8 * chunk)) (to_le_bytes 8 (f chunk))) <$> seq 0 k) in
  length l = ((8 * k) `min` n)%nat /\ Forall is_byte l.
Proof.
  cbv zeta. induction k as [|k [IHl IHb]]; [done|].
  set (g := fun chunk : nat => take (8 `min` (n - 8 * chunk)) (to_le_bytes 8 (f chunk))) in *.
  assert (mjoin (g <$> seq 0 (S k)) = mjoin (g <$> seq 0 k) ++ g k) as ->.
  { rewrite seq_S, fmap_app, join_app. f_equal. apply app_nil_r. }
  destruct (to_le_bytes_shape 8 (f k)) as [Hlen Hb].
  rewrite length_app, IHl. unfold g at 1. rewrite length_take, Hlen. split; [lia|].
  apply Forall_app. split; [done|]. by apply Forall_take.
Qed.

Lemma seeded_bytes_ok w seed i name external : legal w ->
  exists bs, seeded_bytes w seed i name external = Ok bs /\ bv_repr w bs (bval bs).
Proof.
  intros Hw. unfold seeded_bytes. rewrite bytes_for_width_ok by done.
  eexists; split; [reflexivity|]. set (n := div_ceil w 8).
  destruct (chunks_shape n (fun chunk => seeded_word seed i name external (Z.of_nat chunk)) (div_ceil n 8))
    as [Hl Hb].
  pose proof (div_ceil_8_bounds n) as Hn.
  assert ((8 * div_ceil n 8) `min` n = n)%nat as E by lia. rewrite E in Hl.
  pose proof (mask_repr w _ Hl Hb) as H. by rewrite (repr_val _ _ _ H).
Qed.

(** The environment an assignment describes. *)
Definition assigned_bv (assignment : EvalAssignment) (i : nat) (k : NodeKind) : Z :=
  match k with
  | BvVar w name external =>
      match bv_var_bytes assignment i w name external with Ok bs => bval bs | _ => 0 end
  | _ => 0
  end.

Definition assigned_bool (assignment : EvalAssignment) (i : nat) (k : NodeKind) : bool :=
  match k with BoolVar name external => bool_var_value assignment i name external | _ => false end.

Definition env_of (assignment : EvalAssignment) (ns : list Node) : Env :=
  {| env_bv i := match ns !! i with Some n => assigned_bv assignment i (kind n) | None => 0 end;
     env_bool i := match ns !! i with Some n => assigned_bool assignment i (kind n) | None => false end |}.

(** An explicit assignment gives each bit-vector variable normalised bytes. *)
Definition explicit_ok (values : gmap TermId (list Z)) (i : nat) (n : Node) : bool :=
  match kind n with
  | BvVar w _ _ => match values !! u32 i with Some bs => canonical w bs | None => true end
  | _ => true
  end.

Definition assignment_ok (assignment : EvalAssignment) (ns : list Node) : bool :=
  match assignment with
  | Explicit values => forallb id (imap (explicit_ok values) ns)
  | _ => true
  end.

Lemma bv_var_ok assignment ns i w name external s :
  assignment_ok assignment ns = true -> legal w ->
  ns !! i = Some (mkNode (BvVar w name external) s) ->
  exists bs, bv_var_bytes assignment i w name external = Ok bs /\ bv_repr w bs (bval bs).
Proof.
  intros Hok Hw Hi. destruct assignment as [ones|seed|values]; simpl in *.
  - destruct (constant_bytes_ok w ones Hw) as (bs & E & H). exists bs.
    by rewrite (repr_val _ _ _ H).
  - by apply seeded_bytes_ok.
  - rewrite forallb_forall in Hok. specialize (Hok (explicit_ok values i (mkNode (BvVar w name external) s))).
    destruct (values !! u32 i) as [bs|] eqn:E.
    + exists bs. split; [done|]. apply canonical_spec.
      unfold explicit_ok in Hok. simpl in Hok. rewrite E in Hok. apply Hok.
      apply list_elem_of_In, list_elem_of_lookup. exists i. rewrite list_lookup_imap, Hi. simpl.
      unfold explicit_ok. simpl. by rewrite E.
    + rewrite bytes_for_width_ok by done. eexists; split; [done|].
      destruct (constant_bytes_ok w false Hw) as (bs & Hbs & H).
      rewrite bval_replicate_0. apply repr_intro; try done; auto.
      * by rewrite length_replicate.
      * pose proof (pow2_pos w). lia.
      * intros j _. by rewrite get_bit_zero, Z.testbit_0_l.
Qed.

(** ** One node *)

Definition umul_narrow_kind (prior : list Node) (k : NodeKind) : bool :=
  match k with
  | UMulOverflow a _ =>
      match width_at prior a with Some w => bool_decide (Z.of_nat (w * 2) <= MAX_BV_WIDTH) | None => true end
  | _ => true
  end.

(** Every unsigned multiplication-overflow predicate has operands of at most
    32768 bits. *)
Definition umul_narrow (ns : list Node) : bool :=
  forallb (fun n => umul_narrow_kind ns (kind n)) ns.

(** Replaces the operands of a node by their values. *)
Ltac eval_operands Hr Hv Hwt :=
  typing_facts_keep;
  repeat match goal with
  | H : width_at _ ?i = Some ?w |- _ =>
      let bs := fresh "bs" in let E := fresh "Ebv" in let R := fresh "R" in let W := fresh "W" in
      pose proof (width_legal _ _ _ Hwt H);
      destruct (value_operand_bv _ _ _ _ _ Hr Hv H) as (bs & E & R & W); clear H
  | H : bool_at _ ?i = true |- _ =>
      pose proof (value_operand_bool _ _ _ _ Hr Hv H); clear H
  end
with typing_facts_keep :=
  repeat match goal with
  | H : Some _ = Some _ |- _ => injection H as H; try subst
  | H : None = Some _ |- _ => discriminate H
  | H : when _ _ = Some _ |- _ => apply when_Some in H as [? H]
  | H : _ && _ = true |- _ => apply andb_true_iff in H as [? ?]
  | H : _ <$> ?o = Some _ |- _ => let E := fresh "E" in destruct o eqn:E; simpl in H
  | H : ?o ≫= _ = Some _ |- _ => let E := fresh "E" in destruct o eqn:E; simpl in H
  | H : binary_width _ _ _ = Some _ |- _ => apply binary_width_Some in H as [? ?]
  end.

Lemma select_ok values dvals prior cases d w :
  Forall2 val_repr values dvals -> vals_ok prior dvals -> width_at prior d = Some w ->
  forallb (fun c => bool_at prior c.1 && bool_decide (width_at prior c.2 = Some w)) cases = true ->
  evaluates (selected ← select_value values cases d; index values selected)
    (VBv w (sem_select dvals cases d)).
Proof.
  intros Hr Hv Hd. induction cases as [|[s v] cases IH]; simpl.
  - intros _. destruct (vals_ok_bv _ _ _ _ Hv Hd) as (_ & _ & Hl). by apply (evaluates_index _ dvals).
  - intros [[Hs Hw%bool_decide_eq_true]%andb_true_iff Hc]%andb_true_iff.
    rewrite (value_operand_bool _ _ _ _ Hr Hv Hs). simpl. case_match; [|by apply IH].
    destruct (vals_ok_bv _ _ _ _ Hv Hw) as (_ & _ & Hl). by apply (evaluates_index _ dvals).
Qed.

(** Shifts: an amount of [w] or more acts as [w]. *)
Lemma shl_amount_ok w a x k y : bv_repr w a x -> 0 <= y -> Z.of_nat k = Z.min (Z.of_nat w) y ->
  bv_repr w (shl_bytes a w k) (bvshl w x y).
Proof.
  intros Ha Hy Hk. pose proof (shl_bytes_repr w a x k Ha) as H.
  replace (bvshl w x y) with (wrap w (Z.shiftl x (Z.of_nat k))); [done|].
  unfold bvshl. destruct (Z.ltb_spec y (Z.of_nat w)).
  - do 2 f_equal. lia.
  - replace (Z.of_nat k) with (Z.of_nat w) by lia. rewrite Z.shiftl_mul_pow2 by lia.
    apply Z.mod_mul. pose proof (pow2_pos w). lia.
Qed.

Lemma lshr_amount_ok w a x k y : bv_repr w a x -> 0 <= y -> Z.of_nat k = Z.min (Z.of_nat w) y ->
  bv_repr w (lshr_bytes a w k) (bvlshr w x y).
Proof.
  intros Ha Hy Hk. pose proof (lshr_bytes_repr w a x k Ha) as H. pose proof (repr_range _ _ _ Ha).
  replace (bvlshr w x y) with (Z.shiftr x (Z.of_nat k)); [done|].
  unfold bvlshr. destruct (Z.ltb_spec y (Z.of_nat w)).
  - f_equal. lia.
  - replace (Z.of_nat k) with (Z.of_nat w) by lia. rewrite Z.shiftr_div_pow2 by lia.
    apply Z.div_small. lia.
Qed.

Lemma ashr_amount_ok w a x k y : (0 < w)%nat -> bv_repr w a x -> Z.of_nat k = Z.min (Z.of_nat w) y ->
  bv_repr w (ashr_bytes a w k) (bvashr w x y).
Proof.
  intros Hw Ha Hk. pose proof (ashr_bytes_repr w a x k Hw Ha) as H.
  replace (bvashr w x y) with (bvashr w x (Z.of_nat k)); [done|].
  unfold bvashr. do 2 f_equal. lia.
Qed.

Lemma bvrotl_mod w k x : bvrotl w (k mod w) x = bvrotl w k x.
Proof. unfold bvrotl. by rewrite Nat.Div0.mod_mod. Qed.

Lemma bvrotr_mod w k x : bvrotr w (k mod w) x = bvrotr w k x.
Proof. unfold bvrotr. by rewrite Nat.Div0.mod_mod. Qed.

Create HintDb bytes_repr.
#[local] Hint Resolve neg_bytes_repr and_bytes_repr or_bytes_repr xor_bytes_repr add_bytes_repr
  sub_bytes_repr mul_bytes_repr not_bytes_repr concat_bytes_repr : bytes_repr.
#[local] Hint Resolve signed_div_rem_ok unsigned_add_overflow_ok signed_add_overflow_ok
  signed_sub_overflow_ok signed_mul_overflow_ok neg_overflow_ok signed_div_overflow_ok : bytes_repr.

Section one_node.
Context (assignment : EvalAssignment) (env : Env) (i : nat).
Context (prior : list Node) (values : list Value) (dvals : list value).
Hypothesis Hwt : well_typed prior = true.
Hypothesis Hr : Forall2 val_repr values dvals.
Hypothesis Hv : vals_ok prior dvals.

Lemma unsigned_cmp_ok a b w av bv x y strict :
  bv_at_id values a = Ok (w, av) -> bv_repr w av x ->
  bv_at_id values b = Ok (w, bv) -> bv_repr w bv y ->
  evaluates (unsigned_cmp_value values a b strict) (VBool (if strict then x <? y else x <=? y)).
Proof.
  intros Ea Ra Eb Rb. unfold unsigned_cmp_value. rewrite Ea, Eb. simpl. apply evaluates_bool.
  rewrite (cmp_unsigned_repr _ _ _ _ _ Ra Rb).
  destruct strict; apply bool_decide_reflects; by rewrite ?Z.ltb_lt, ?Z.leb_le.
Qed.

Lemma signed_cmp_ok a b w av bv x y strict : legal w ->
  bv_at_id values a = Ok (w, av) -> bv_repr w av x ->
  bv_at_id values b = Ok (w, bv) -> bv_repr w bv y ->
  evaluates (signed_cmp_value values a b strict)
    (VBool (if strict then bvslt w x y else bvsle w x y)).
Proof.
  intros Hw Ea Ra Eb Rb. unfold signed_cmp_value. rewrite Ea, Eb. simpl. apply evaluates_bool.
  destruct strict.
  - by apply signed_less_than_repr; [lia| |].
  - rewrite (signed_less_than_repr w bv av y x) by (done || lia). unfold bvslt, bvsle.
    by rewrite Z.leb_antisym.
Qed.

(** The values variables get, as the environment has them. *)
Definition variable_agrees (k : NodeKind) : Prop :=
  match k with
  | BvVar w name external =>
      exists bs, bv_var_bytes assignment i w name external = Ok bs /\ bv_repr w bs (env_bv env i)
  | BoolVar name external => bool_var_value assignment i name external = env_bool env i
  | _ => True
  end.

Definition is_umul (k : NodeKind) : bool :=
  match k with UMulOverflow _ _ => true | _ => false end.

Lemma index_bv x w bs : bv_at_id values x = Ok (w, bs) -> index values x = Ok (EvBv w bs).
Proof. unfold bv_at_id. destruct (index values x) as [[]| |]; naive_solver. Qed.

Lemma index_bool x b : bool_at_id values x = Ok b -> index values x = Ok (EvBool b).
Proof. unfold bool_at_id. destruct (index values x) as [[]| |]; naive_solver. Qed.

Lemma udiv_urem_value_ok a b w av bv x y : legal w ->
  bv_at_id values a = Ok (w, av) -> bv_repr w av x ->
  bv_at_id values b = Ok (w, bv) -> bv_repr w bv y ->
  exists q r, udiv_urem_value values a b = Ok (EvBv w q, EvBv w r) /\
    bv_repr w q (bvudiv w x y) /\ bv_repr w r (bvurem x y).
Proof.
  intros Hw Ea Ra Eb Rb. unfold udiv_urem_value. rewrite Ea, Eb. simpl.
  destruct (udiv_urem_bytes_ok w av bv x y Hw Ra Rb) as (q & r & E & Hq & Hrem).
  exists q, r. by rewrite E.
Qed.

(** The operand-free kinds, and [BvSelect] whose operands are a list. *)
Lemma evaluate_leaf k s : sort_of_kind prior k = Some s -> valid_sort s = true ->
  match k with BvConst _ _ | BvVar _ _ _ | BoolConst _ | BoolVar _ _ | BvSelect _ _ => True
  | _ => False end ->
  variable_agrees k -> evaluates (evaluate_kind assignment i values k) (sem_kind env i dvals k).
Proof.
  intros Hs Hsort Hk Hvar. destruct k; try done; clear Hk; simpl in *.
  - apply when_Some in Hs as [Hc _]. by apply evaluates_bv, canonical_spec.
  - destruct Hvar as (bs & -> & Hb). simpl. apply evaluates_bv.
    rewrite wrap_small; [done|]. by eapply repr_range.
  - by apply evaluates_bool.
  - by apply evaluates_bool.
  - destruct (width_at prior default) as [w|] eqn:Hd; [|done]. simpl in Hs.
    apply when_Some in Hs as [Hc _].
    destruct (vals_ok_bv _ _ _ _ Hv Hd) as (-> & _). by apply (select_ok _ _ prior).
Qed.

Lemma evaluate_kind_not_umul n :
  node_ok prior n = true -> variable_agrees (kind n) -> is_umul (kind n) = false ->
  evaluates (evaluate_kind assignment i values (kind n)) (sem_kind env i dvals (kind n)).
Proof.
  unfold node_ok. destruct n as [k s]. simpl.
  intros [Hs%bool_decide_eq_true Hsort]%andb_true_iff Hvar Humul.
  destruct k; try discriminate Humul; try by apply (evaluate_leaf _ s).
  all: clear Humul Hvar; cbn [sort_of_kind sem_kind evaluate_kind] in *; eval_operands Hr Hv Hwt;
    repeat match goal with H : sem_w _ _ = _ |- _ => rewrite H; clear H end;
    try (eauto with bytes_repr; fail);
    try match goal with |- context [udiv_urem_value _ ?a ?b] =>
      edestruct (udiv_urem_value_ok a b) as (q & r & E & Hq & Hrem); [done..|];
      rewrite E; apply evaluates_bv; done
    end;
    unfold unary_bv, binary_bv, bitwise_bv, shift_value;
    repeat match goal with
    | H : bv_at_id _ _ = _ |- context [bv_at_id _ _] => rewrite H; simpl
    | H : bool_at_id _ _ = _ |- context [bool_at_id _ _] => rewrite H; simpl
    | H : bv_at_id _ _ = _ |- context [index _ _] => rewrite (index_bv _ _ _ H)
    | H : bool_at_id _ _ = _ |- context [index _ _] => rewrite (index_bool _ _ H)
    | |- context [if negb (sem_bool ?d ?x) then _ else _] => destruct (sem_bool d x); simpl
    | |- context [if sem_bool ?d ?x then _ else _] => destruct (sem_bool d x); simpl
    end;
    try (apply evaluates_bv; by eauto with bytes_repr); try (apply evaluates_bool; done).
  - by apply (signed_div_rem_ok values a b n bs0 bs (sem_bv dvals a) (sem_bv dvals b)) with (kind := Div).
  - by apply (signed_div_rem_ok values a b n bs0 bs (sem_bv dvals a) (sem_bv dvals b)) with (kind := Rem).
  - by apply (signed_div_rem_ok values a b n bs0 bs (sem_bv dvals a) (sem_bv dvals b)) with (kind := Mod).
  - apply evaluates_bv, shl_amount_ok; [done|apply repr_range in R; lia|].
    by apply shift_amount.
  - apply evaluates_bv, lshr_amount_ok; [done|apply repr_range in R; lia|].
    by apply shift_amount.
  - apply evaluates_bv, ashr_amount_ok; [lia|done|]. by apply shift_amount.
  - apply evaluates_bv, (extract_bytes_repr n); [done|].
    match goal with H : (_ <=? _)%nat = true |- _ => apply Nat.leb_le in H end.
    match goal with H : (_ <? _)%nat = true |- _ => apply Nat.ltb_lt in H end. lia.
  - rewrite bytes_for_width_ok by (by apply valid_sort_bv in Hsort). by apply evaluates_bv, zext_bytes_repr.
  - apply evaluates_bv, sext_bytes_repr; [lia|done].
  - apply evaluates_bv, repeat_bytes_repr; [lia|done].
  - rewrite <- bvrotl_mod. apply evaluates_bv, rotate_left_bytes_repr; [|done].
    apply Nat.mod_upper_bound. lia.
  - rewrite <- bvrotr_mod. apply evaluates_bv, rotate_right_bytes_repr; [|done].
    apply Nat.mod_upper_bound. lia.
  - apply evaluates_bool, bool_decide_reflects. by rewrite Z.eqb_eq, (repr_inj _ _ _ _ _ R0 R).
  - by apply (unsigned_cmp_ok _ _ n bs0 bs (sem_bv dvals a) (sem_bv dvals b) true).
  - by apply (unsigned_cmp_ok _ _ n bs0 bs (sem_bv dvals a) (sem_bv dvals b) false).
  - by apply (signed_cmp_ok _ _ n bs0 bs (sem_bv dvals a) (sem_bv dvals b) true).
  - by apply (signed_cmp_ok _ _ n bs0 bs (sem_bv dvals a) (sem_bv dvals b) false).
  - rewrite (bvusubo_lt n) by lia. by apply (unsigned_cmp_ok _ _ n bs0 bs (sem_bv dvals a) (sem_bv dvals b) true).
Qed.

Lemma evaluate_kind_umul a b s :
  sort_of_kind prior (UMulOverflow a b) = Some s ->
  evaluates (evaluate_kind assignment i values (UMulOverflow a b))
    (sem_kind env i dvals (UMulOverflow a b)) \/
  evaluate_kind assignment i values (UMulOverflow a b) = Err (Invalid "BV width") /\
    umul_narrow_kind prior (UMulOverflow a b) = false.
Proof.
  cbn [sort_of_kind sem_kind evaluate_kind umul_narrow_kind]. intros Hs. typing_facts_keep.
  match goal with H : width_at prior a = Some ?w |- _ => rename w into n; rewrite H end.
  eval_operands Hr Hv Hwt.
  repeat match goal with H : sem_w _ _ = _ |- _ => rewrite H; clear H end.
  pose proof (unsigned_mul_overflow_ok values a b n bs0 bs (sem_bv dvals a) (sem_bv dvals b)) as Hok.
  case_bool_decide; [left|right; split]; auto.
Qed.
End one_node.

(** ** The arena *)

Lemma evaluate_nodes_ok assignment rest prior values :
  let ns := prior ++ rest in
  let env := env_of assignment ns in
  well_typed ns = true -> assignment_ok assignment ns = true ->
  Forall2 val_repr values (denote env prior) ->
  match evaluate_nodes assignment rest values with
  | Ok values' => Forall2 val_repr values' (denote env ns)
  | Err e => e = Invalid "BV width" /\ umul_narrow ns = false
  | Panic => False
  end.
Proof.
  revert prior values. induction rest as [|n rest IH]; intros prior values ns env Hwt Hasg Hr.
  { subst ns. simpl. by rewrite app_nil_r. }
  assert (length values = length prior) as Hlen.
  { by rewrite (Forall2_length _ _ _ Hr), length_denote. }
  assert (ns !! length prior = Some n) as Hn by (by apply list_lookup_middle).
  assert (ns = (prior ++ [n]) ++ rest) as Ens by (subst ns; by rewrite <- app_assoc).
  pose proof (well_typed_lookup _ _ _ Hwt Hn) as Hok.
  subst ns. rewrite take_app_length in Hok. set (ns := prior ++ n :: rest) in *.
  assert (well_typed prior = true) as Hp.
  { unfold well_typed, ns in Hwt. rewrite well_typed_from_app in Hwt.
    by apply andb_true_iff in Hwt as [? _]. }
  assert (variable_agrees assignment env (length prior) (kind n)) as Hvar.
  { destruct n as [k s]. destruct k; simpl; try done; rewrite Hn; simpl; [|done].
    destruct (bv_var_ok assignment ns (length prior) width name external s) as (bs & E & H); try done.
    - apply andb_true_iff in Hok as [[= <-]%bool_decide_eq_true Hs]. by apply valid_sort_bv.
    - exists bs. by rewrite E. }
  cbn [evaluate_nodes]. rewrite Hlen.
  assert (evaluates (evaluate_kind assignment (length prior) values (kind n))
            (sem_kind env (length prior) (denote env prior) (kind n)) \/
          evaluate_kind assignment (length prior) values (kind n) = Err (Invalid "BV width") /\
            umul_narrow_kind prior (kind n) = false) as [(v & E & Hv)|[E Hwide]].
  { pose proof (denote_ok env prior Hp) as Hd. destruct (is_umul (kind n)) eqn:Eu.
    - destruct n as [k s]. destruct k; try done. eapply evaluate_kind_umul; try done.
      by apply andb_true_iff in Hok as [?%bool_decide_eq_true _].
    - left. by eapply evaluate_kind_not_umul. }
  - rewrite E. simpl. specialize (IH (prior ++ [n]) (values ++ [v])). cbv zeta in IH.
    rewrite <- Ens in IH. apply IH; try done.
    rewrite denote_snoc. apply Forall2_app; [done|]. constructor; [|constructor].
    by rewrite length_denote.
  - rewrite E. simpl. split; [done|]. apply not_true_iff_false. unfold umul_narrow.
    rewrite forallb_forall. intros Hall. specialize (Hall n). rewrite <- not_true_iff_false in Hwide.
    apply Hwide. destruct (kind n); try done. simpl in *.
    rewrite <- Hall by (apply list_elem_of_In, list_elem_of_lookup; eauto).
    unfold width_at. destruct (prior !! a) as [m|] eqn:Ea.
    + unfold ns. rewrite (lookup_app_l_Some prior _ _ m Ea). by destruct (Some m ≫= _).
    + exfalso. apply Hwide. simpl. unfold width_at. by rewrite Ea.
Qed.

Lemma evaluate_outcome query assignment :
  well_typed (nodes (arena query)) = true ->
  assignment_ok assignment (nodes (arena query)) = true ->
  match evaluate query assignment with
  | Ok values => Forall2 val_repr values (denote (env_of assignment (nodes (arena query))) (nodes (arena query)))
  | Err e => e = Invalid "BV width" /\ umul_narrow (nodes (arena query)) = false
  | Panic => False
  end.
Proof.
  intros Hwt Hasg. apply (evaluate_nodes_ok assignment _ []); [done..|constructor].
Qed.

Lemma all_true_ok prior values dvals roots :
  Forall2 val_repr values dvals -> vals_ok prior dvals -> forallb (bool_at prior) roots = true ->
  all_true values roots = Ok (forallb (sem_bool dvals) roots).
Proof.
  intros Hr Hv. induction roots as [|r roots IH]; [done|]. simpl.
  intros [Hb Hbs]%andb_true_iff. rewrite (value_operand_bool _ _ _ _ Hr Hv Hb). simpl.
  rewrite IH by done. by destruct (sem_bool dvals r).
Qed.

Lemma query_holds_ok query env values :
  well_formed query = true ->
  Forall2 val_repr values (denote env (nodes (arena query))) ->
  query_holds query values = Ok (satisfies env query).
Proof.
  intros [Hwt [Hb _]%andb_true_iff]%andb_true_iff Hr. pose proof (denote_ok env _ Hwt) as Hv.
  unfold assertions_and_assumptions in Hb. rewrite forallb_app in Hb.
  apply andb_true_iff in Hb as [Ha Hs]. unfold query_holds, satisfies, assertions_and_assumptions.
  rewrite forallb_app, (all_true_ok _ _ _ _ Hr Hv Ha), (all_true_ok _ _ _ _ Hr Hv Hs). simpl.
  by match goal with |- context [if ?b then _ else Ok false] => destruct b end.
Qed.

(** What the three [query_satisfied_by_*] routines share. *)
Definition tested (query : Query) (assignment : EvalAssignment) : res bool :=
  values ← evaluate query assignment; query_holds query values.

Lemma tested_outcome query assignment :
  well_formed query = true -> assignment_ok assignment (nodes (arena query)) = true ->
  match tested query assignment with
  | Ok b => b = satisfies (env_of assignment (nodes (arena query))) query
  | Err e => e = Invalid "BV width" /\ umul_narrow (nodes (arena query)) = false
  | Panic => False
  end.
Proof.
  intros Hwf Hasg. pose proof Hwf as [Hwt _]%andb_true_iff. unfold tested.
  pose proof (evaluate_outcome query assignment Hwt Hasg) as H.
  destruct (evaluate query assignment); simpl; try done.
  by rewrite (query_holds_ok _ _ _ Hwf H).
Qed.

Lemma tested_facts query a (r := tested query a) :
  well_formed query = true -> assignment_ok a (nodes (arena query)) = true ->
  r <> Panic /\
  (forall e, r = Err e -> e = Invalid "BV width" /\ umul_narrow (nodes (arena query)) = false) /\
  (r = Ok true -> satisfiable query).
Proof.
  intros Hwf Ha. pose proof (tested_outcome query a Hwf Ha) as H. fold r in H.
  destruct r as [b|e|]; [|naive_solver|done]. split_and!; [done..|].
  intros [= ->]. by exists (env_of a (nodes (arena query))).
Qed.

(** ** The theorems *)

(** The evaluator computes the SMT-LIB meaning of every node: on a
    well-typed arena, under an assignment of normalised bytes and with no
    unsigned multiplication-overflow predicate wider than 32768 bits,
    [evaluate] returns one value per node and each is the node's value under
    the environment the assignment describes. *)
Lemma evaluate_correct query assignment :
  well_typed (nodes (arena query)) = true ->
  assignment_ok assignment (nodes (arena query)) = true ->
  umul_narrow (nodes (arena query)) = true ->
  exists values, evaluate query assignment = Ok values /\
    Forall2 val_repr values
      (denote (env_of assignment (nodes (arena query))) (nodes (arena query))).
Proof.
  intros Hwt Hasg Hn. pose proof (evaluate_outcome query assignment Hwt Hasg) as H.
  destruct (evaluate query assignment) as [values| |]; [by exists values| |done].
  destruct H as [_ H]. congruence.
Qed.

(** Each of the three tests decides exactly whether its assignment
    satisfies the query, so a [true] answer is a proof of satisfiability.  They may fail only when the
    query has a too wide unsigned multiplication-overflow predicate, with the
    ["BV width"] error; they never panic, and a [true] answer is right even then. *)
Lemma query_tests_correct query :
  well_formed query = true ->
  (umul_narrow (nodes (arena query)) = true ->
  (forall ones, query_satisfied_by_constant_assignment query ones
     = Ok (satisfies (env_of (Constant ones) (nodes (arena query))) query)) /\
  (forall seed, query_satisfied_by_seeded_assignment query seed
     = Ok (satisfies (env_of (Seed seed) (nodes (arena query))) query)) /\
  (forall values, assignment_ok (Explicit values) (nodes (arena query)) = true ->
     query_satisfied_by_bv_assignment query values
     = Ok (satisfies (env_of (Explicit values) (nodes (arena query))) query))) /\
  (forall ones seed,
     Forall (fun r => r <> Panic /\
               (forall e, r = Err e -> e = Invalid "BV width" /\ umul_narrow (nodes (arena query)) = false) /\
               (r = Ok true -> satisfiable query))
       [query_satisfied_by_constant_assignment query ones;
        query_satisfied_by_seeded_assignment query seed]).
Proof.
  intros Hwf. split; [|intros ones seed; repeat apply Forall_cons_2;
    [by apply (tested_facts query (Constant ones))|by apply (tested_facts query (Seed seed))|constructor]].
  intros Hn.
  assert (forall a, assignment_ok a (nodes (arena query)) = true ->
    tested query a = Ok (satisfies (env_of a (nodes (arena query))) query)) as H.
  { intros a Ha. pose proof (tested_outcome query a Hwf Ha) as H.
    destruct (tested query a); [by rewrite H| |done]. destruct H as [_ H]. congruence. }
  split_and!; intros; by apply H.
Qed.

(** C26: the evaluator is right.  On a well-typed arena, under an assignment of normalised
    bytes and with no unsigned multiplication-overflow predicate wider than 32768 bits,
    [evaluate] returns one value per node and each is the node's SMT-LIB value under the
    environment the assignment describes.  Each of the three tests decides exactly
    whether its assignment satisfies the query, so a [true] answer is a proof of
    satisfiability.  They may fail only when the query has a too wide unsigned
    multiplication-overflow predicate, with the ["BV width"] error; they never panic, and
    a [true] answer is right even then. *)
Theorem evaluator_correct query : well_formed query = true ->
  (forall assignment, assignment_ok assignment (nodes (arena query)) = true ->
   umul_narrow (nodes (arena query)) = true ->
   exists values, evaluate query assignment = Ok values /\
    Forall2 val_repr values
      (denote (env_of assignment (nodes (arena query))) (nodes (arena query)))) /\
  (umul_narrow (nodes (arena query)) = true ->
  (forall ones, query_satisfied_by_constant_assignment query ones
     = Ok (satisfies (env_of (Constant ones) (nodes (arena query))) query)) /\
  (forall seed, query_satisfied_by_seeded_assignment query seed
     = Ok (satisfies (env_of (Seed seed) (nodes (arena query))) query)) /\
  (forall values, assignment_ok (Explicit values) (nodes (arena query)) = true ->
     query_satisfied_by_bv_assignment query values
     = Ok (satisfies (env_of (Explicit values) (nodes (arena query))) query))) /\
  (forall ones seed,
     Forall (fun r => r <> Panic /\
               (forall e, r = Err e -> e = Invalid "BV width" /\ umul_narrow (nodes (arena query)) = false) /\
               (r = Ok true -> satisfiable query))
       [query_satisfied_by_constant_assignment query ones;
        query_satisfied_by_seeded_assignment query seed]).
Proof.
  intros Hwf. split; [|by apply query_tests_correct]. intros a Ha Hn. apply evaluate_correct; [|done..].
  by apply andb_true_iff in Hwf as [Hwt _].
Qed.

Lemma evaluator_correct_witness : (exists values,
  evaluate sample_query (Constant true) = Ok values /\
  Forall2 val_repr values (denote (env_of (Constant true) (nodes (arena sample_query))) (nodes (arena sample_query)))) /\
  query_satisfied_by_constant_assignment sample_query true
    = Ok (satisfies (env_of (Constant true) (nodes (arena sample_query))) sample_query).
Proof.
  destruct (evaluator_correct sample_query eq_refl) as (He & Ht & _).
  split; [apply He; vm_compute; reflexivity|]. exact (proj1 (Ht eq_refl) true).
Defined.
