(* ===== verification/BytesTheorems.v ===== *)
(** * What the byte routines promise

    The bit-vector routines of [builder.rs] and [ir.rs] on little-endian byte
    vectors, which the evaluator and the term builder share.  [bv_repr w bytes z]:
    the vector has the length of the width, its unused high bits are clear, and it
    spells [z].  Every routine maps representations to the representation of
    SMT-LIB's result. *)
From S2P Require Import Prelude Bits Smt SmtFacts Bytes BytesFacts Ir Sem Evaluator EvaluatorFacts.

#[local] Open Scope Z_scope.

Lemma bval_all_zero l : (forall z, z ∈ l -> z = 0) -> bval l = 0.
Proof.
  induction l as [|b l IH]; intros H; [done|]. simpl.
  rewrite IH by (intros z Hz; apply H; by right). rewrite (H b) by left. done.
Qed.

Lemma bval_zero_elem l z : Forall is_byte l -> bval l = 0 -> z ∈ l -> z = 0.
Proof.
  induction 1 as [|b l Hb Hl IH]; simpl; [by intros _ ?%elem_of_nil|].
  intros E. pose proof (bval_nonneg l Hl). unfold is_byte in Hb.
  intros [->|Hz]%elem_of_cons; [lia|]. apply IH; [lia|done].
Qed.

(** Normalisation accepts exactly the vectors of the length of a legal width,
    clears their unused high bits, which reduces the value modulo [2^w], and is
    idempotent. *)
Lemma normalized_bytes_correct bytes width : Forall is_byte bytes ->
  match normalized_bytes bytes width with
  | Ok r => legal width /\ length bytes = div_ceil width 8 /\
      bv_repr width r (wrap width (bval bytes)) /\ normalized_bytes r width = Ok r
  | Err _ => ~ (legal width /\ length bytes = div_ceil width 8)
  | Panic => False
  end.
Proof.
  intros Hb. destruct (decide (1 <= width)%nat); [|].
  2:{ unfold normalized_bytes, bytes_for_width, validate_bv_width.
      destruct (Z.leb_spec 1 (Z.of_nat width)); [lia|]. simpl. tauto. }
  destruct (decide (Z.of_nat width <= MAX_BV_WIDTH)).
  2:{ unfold normalized_bytes, bytes_for_width, validate_bv_width.
      destruct (Z.leb_spec (Z.of_nat width) MAX_BV_WIDTH); [lia|]. rewrite andb_false_r. simpl. tauto. }
  unfold normalized_bytes. rewrite bytes_for_width_ok by done. simpl.
  destruct (Nat.eqb_spec (length bytes) (div_ceil width 8)) as [Hl|Hl]; simpl; [|tauto].
  pose proof (mask_repr _ _ Hl Hb) as Hr. split_and!; [done..|].
  rewrite length_mask, Hl, Nat.eqb_refl. simpl. f_equal.
  pose proof (mask_repr width _ (repr_length _ _ _ Hr) (repr_bytes _ _ _ Hr)) as Hr2.
  rewrite (repr_val _ _ _ Hr), wrap_small in Hr2 by apply wrap_bound.
  by apply (repr_inj _ _ _ _ _ Hr2 Hr).
Qed.

(** A byte vector shifted by the amount another one spells is SMT-LIB's
    shift.  The amount is read clamped to the width, and however large it is the
    reading does not overflow the machine word. *)
Lemma byte_shifts_repr w a b x y : (0 < w)%nat -> Z.of_nat w <= usize_max ->
  bv_repr w a x -> bv_repr w b y ->
  Z.of_nat (bytes_to_bounded_usize b w) = Z.min (Z.of_nat w) y /\
  bv_repr w (shl_bytes a w (bytes_to_bounded_usize b w)) (bvshl w x y) /\
  bv_repr w (lshr_bytes a w (bytes_to_bounded_usize b w)) (bvlshr w x y) /\
  bv_repr w (ashr_bytes a w (bytes_to_bounded_usize b w)) (bvashr w x y).
Proof.
  intros Hw Hmax Ha Hb.
  pose proof (repr_range _ _ _ Hb). pose proof (bytes_to_bounded_usize_repr w b y w Hb Hw Hmax) as Hk. split; [done|].
  split_and!.
  - by apply shl_amount_ok; [|lia|].
  - by apply lshr_amount_ok; [|lia|].
  - by apply ashr_amount_ok.
Qed.

Lemma is_one_bytes_repr w a x : (0 < w)%nat -> bv_repr w a x -> is_one_bytes a = (x =? 1).
Proof.
  intros Hw [Hl Hb <- _]. pose proof (div_ceil_8_bounds w).
  destruct a as [|b a]; [simpl in Hl; lia|]. apply Forall_cons in Hb as [Hb Ha].
  unfold is_one_bytes. simpl. rewrite drop_0. pose proof (bval_nonneg a Ha). unfold is_byte in Hb.
  destruct (Z.eqb_spec (b + 256 * bval a) 1) as [E|E].
  - assert (b = 1 /\ bval a = 0) as [-> E0] by lia. rewrite bool_decide_true by done. simpl.
    apply forallb_forall. intros z Hz%list_elem_of_In. apply Z.eqb_eq. by eapply bval_zero_elem.
  - apply andb_false_iff. rewrite bool_decide_eq_false. destruct (decide (b = 1)) as [->|]; [right|left; congruence].
    apply not_true_iff_false. rewrite forallb_forall. intros Hz. apply E.
    rewrite (bval_all_zero a); [lia|]. intros z Hin. by apply Z.eqb_eq, Hz, list_elem_of_In.
Qed.

(** Canonical byte vectors are ordered as their values: the unsigned and the
    signed comparison, and the test for one. *)
Lemma byte_orders_repr w a b x y : (0 < w)%nat -> bv_repr w a x -> bv_repr w b y ->
  cmp_unsigned_bytes a b = (x ?= y) /\
  signed_less_than a b w = bvslt w x y /\
  is_one_bytes a = (x =? 1) /\
  (a = b <-> x = y).
Proof.
  intros Hw Ha Hb. split_and!.
  - by eapply cmp_unsigned_repr.
  - by apply signed_less_than_repr.
  - by apply (is_one_bytes_repr w).
  - by eapply repr_inj.
Qed.

(** ** Theorems *)

(** C35: the byte routines of the ring compute SMT-LIB's operations.  Modulo [2^w]:
    addition with its carry chain, negation, subtraction, the schoolbook product and
    the complement; restoring division never fails or panics on operands of a legal
    width and computes SMT-LIB's total quotient and remainder.  Across byte boundaries:
    extraction, concatenation, extensions, repetition and rotations, and the shifts by
    the amount another vector spells, which is read clamped to the width and never
    overflows the machine word.  The results are again canonical, and canonical
    vectors are ordered as their values, unsigned and signed. *)
Theorem byte_routines_correct w a x b y wl l z low high extra count amount :
  legal w -> bv_repr w a x -> bv_repr w b y -> bv_repr wl l z -> (low <= high < w)%nat -> (amount < w)%nat ->
  (bv_repr w (add_bytes a b w) (bvadd w x y) /\
  bv_repr w (neg_bytes a w) (bvneg w x) /\
  bv_repr w (sub_bytes a b w) (bvsub w x y) /\
  bv_repr w (mul_bytes a b w) (bvmul w x y) /\
  bv_repr w (mask_unused_high_bits (not_u8 <$> a) w) (bvnot w x) /\
  exists q r, udiv_urem_bytes a b w = Ok (q, r) /\
    bv_repr w q (bvudiv w x y) /\ bv_repr w r (bvurem x y)) /\
  bv_repr (high - low + 1) (extract_bytes a low (high - low + 1)) (bvextract high low x) /\
  bv_repr (w + wl) (concat_bytes a w l wl) (bvconcat wl x z) /\
  bv_repr (w + extra) (mask_unused_high_bits (resize_bytes (div_ceil (w + extra) 8) a) (w + extra)) x /\
  bv_repr (w + extra) (sext_bytes a w extra) (bvsext w extra x) /\
  bv_repr (w * count) (repeat_bytes a w count) (bvrepeat w count x) /\
  bv_repr w (rotate_left_bytes a w amount) (bvrotl w amount x) /\
  bv_repr w (rotate_right_bytes a w amount) (bvrotr w amount x) /\
  (Z.of_nat (bytes_to_bounded_usize b w) = Z.min (Z.of_nat w) y /\
   bv_repr w (shl_bytes a w (bytes_to_bounded_usize b w)) (bvshl w x y) /\
   bv_repr w (lshr_bytes a w (bytes_to_bounded_usize b w)) (bvlshr w x y) /\
   bv_repr w (ashr_bytes a w (bytes_to_bounded_usize b w)) (bvashr w x y)) /\
  (cmp_unsigned_bytes a b = (x ?= y) /\ signed_less_than a b w = bvslt w x y /\
   is_one_bytes a = (x =? 1) /\ (a = b <-> x = y)).
Proof.
  intros Hleg Ha Hb Hl Hr Hk.
  assert ((0 < w)%nat /\ Z.of_nat w <= usize_max) as [Hw Hmax].
  { destruct Hleg as [Hw Hm]. unfold MAX_BV_WIDTH, usize_max in *. lia. }
  split; [split_and!|].
  - by apply add_bytes_repr.
  - by apply neg_bytes_repr.
  - by apply sub_bytes_repr.
  - by apply mul_bytes_repr.
  - by apply not_bytes_repr.
  - by apply udiv_urem_bytes_ok.
  - split; [by apply (extract_bytes_repr w)|]. split; [by apply concat_bytes_repr|].
    split; [by apply zext_bytes_repr|]. split; [by apply sext_bytes_repr|].
    split; [by apply repeat_bytes_repr|]. split; [by apply rotate_left_bytes_repr|].
    split; [by apply rotate_right_bytes_repr|].
    split; [by apply byte_shifts_repr|by apply byte_orders_repr].
Qed.

(** ** Witnesses: [3243] and [5] over twelve bits *)

Lemma spelled w bs : canonical w bs = true -> bv_repr w bs (bval bs).
Proof. apply canonical_spec. Qed.

Lemma byte_routines_correct_witness :
  bv_repr 12 (mul_bytes [171; 12] [5; 0] 12) (bvmul 12 3243 5) /\
  bv_repr 12 (rotate_left_bytes [171; 12] 12 5) (bvrotl 12 5 3243).
Proof.
  destruct (byte_routines_correct 12 [171; 12] 3243 [5; 0] 5 12 [5; 0] 5 3 9 4 2 5)
    as ((_ & _ & _ & Hm & _) & _ & _ & _ & _ & _ & Hr & _);
    [split; [lia|unfold MAX_BV_WIDTH; lia]|by apply spelled|by apply spelled|by apply spelled|lia|lia|].
  split; [exact Hm|exact Hr].
Defined.
