(* ===== verification/Polynomial.v ===== *)
(** * Ordered maps ([std::collections::BTreeMap])

    The builder's polynomials are [BTreeMap<Vec<TermId>, Vec<u8>>].  A map is the
    list of its entries in increasing key order; keys are compared by a class of
    total comparisons, whose laws the facts below are proved against, with the
    lexicographic order of [Vec<TermId>] as the instance. *)
From S2P Require Import Prelude.
From stdpp Require Import sorting.
From S2P Require Import Bits Smt Bytes Ir.

Class TotalCompare (K : Type) := {
  cmp : K -> K -> comparison;
  cmp_eq : forall a b, cmp a b = Eq <-> a = b;
  cmp_opp : forall a b, cmp b a = CompOpp (cmp a b);
  cmp_trans : forall a b c, cmp a b = Lt -> cmp b c = Lt -> cmp a c = Lt;
}.

(** ** The order of numbers and of vectors *)

#[export] Instance nat_compare : TotalCompare nat.
Proof.
  refine {| cmp := Nat.compare |}.
  - intros a b. apply Nat.compare_eq_iff.
  - intros a b. apply Nat.compare_antisym.
  - intros a b c. rewrite !Nat.compare_lt_iff. lia.
Defined.

Section lexicographic.
Context {K : Type} `{TotalCompare K}.

Fixpoint list_cmp (l k : list K) : comparison :=
  match l, k with
  | [], [] => Eq
  | [], _ :: _ => Lt
  | _ :: _, [] => Gt
  | x :: l, y :: k => match cmp x y with Eq => list_cmp l k | c => c end
  end.

Lemma cmp_refl (a : K) : cmp a a = Eq.
Proof. by apply cmp_eq. Qed.

Lemma list_cmp_eq l k : list_cmp l k = Eq <-> l = k.
Proof.
  revert k. induction l as [|x l IH]; intros [|y k]; simpl; try done.
  destruct (cmp x y) eqn:E.
  - apply cmp_eq in E as ->. rewrite IH. naive_solver.
  - split; [done|]. intros [= -> _]. by rewrite cmp_refl in E.
  - split; [done|]. intros [= -> _]. by rewrite cmp_refl in E.
Qed.

Lemma list_cmp_opp l k : list_cmp k l = CompOpp (list_cmp l k).
Proof.
  revert k. induction l as [|x l IH]; intros [|y k]; simpl; try done.
  rewrite (cmp_opp x y). destruct (cmp x y); simpl; auto.
Qed.

Lemma list_cmp_trans l k m : list_cmp l k = Lt -> list_cmp k m = Lt -> list_cmp l m = Lt.
Proof.
  revert k m. induction l as [|x l IH]; intros [|y k] [|z m]; simpl; try done.
  destruct (cmp x y) eqn:E1, (cmp y z) eqn:E2; try done.
  - apply cmp_eq in E1 as ->. rewrite E2. apply IH.
  - apply cmp_eq in E1 as ->. by rewrite E2.
  - apply cmp_eq in E2 as ->. by rewrite E1.
  - by rewrite (cmp_trans _ _ _ E1 E2).
Qed.
End lexicographic.

#[export] Instance list_compare `{TotalCompare K} : TotalCompare (list K) :=
  {| cmp := list_cmp; cmp_eq := list_cmp_eq; cmp_opp := list_cmp_opp; cmp_trans := list_cmp_trans |}.

(** ** The map *)

Module BTreeMap.
Section maps.
Context {K : Type} `{TotalCompare K} {V : Type}.

Fixpoint get (k : K) (m : list (K * V)) : option V :=
  match m with
  | [] => None
  | (k', v) :: m => match cmp k k' with Lt => None | Eq => Some v | Gt => get k m end
  end.

Fixpoint insert (k : K) (v : V) (m : list (K * V)) : list (K * V) :=
  match m with
  | [] => [(k, v)]
  | (k', v') :: m' =>
      match cmp k k' with
      | Lt => (k, v) :: m
      | Eq => (k, v) :: m'
      | Gt => (k', v') :: insert k v m'
      end
  end.

Fixpoint remove (k : K) (m : list (K * V)) : list (K * V) :=
  match m with
  | [] => []
  | (k', v') :: m' =>
      match cmp k k' with Lt => m | Eq => m' | Gt => (k', v') :: remove k m' end
  end.

(** Every key of [m] is above [k]. *)
Definition above (k : K) (m : list (K * V)) : Prop := Forall (fun e => cmp k e.1 = Lt) m.

(** The entries are in strictly increasing key order. *)
Fixpoint sorted (m : list (K * V)) : Prop :=
  match m with [] => True | (k, _) :: m => above k m /\ sorted m end.

Lemma above_weaken k k' m : cmp k k' = Lt -> above k' m -> above k m.
Proof. intros Hk Ha. eapply Forall_impl; [exact Ha|]. intros e. by apply cmp_trans. Qed.

Lemma cmp_gt (a b : K) : cmp a b = Gt -> cmp b a = Lt.
Proof. intros E. by rewrite cmp_opp, E. Qed.

Lemma above_insert k k' v m : cmp k k' = Lt -> above k m -> above k (insert k' v m).
Proof.
  intros Hk. induction m as [|[k1 v1] m IH]; intros Ha; simpl.
  - by repeat constructor.
  - inversion Ha as [|? ? H1 H2]; subst. destruct (cmp k' k1) eqn:E; constructor; auto.
    by apply IH.
Qed.

Lemma above_remove k k' m : above k m -> above k (remove k' m).
Proof.
  induction m as [|[k1 v1] m IH]; intros Ha; simpl; [done|].
  inversion Ha as [|? ? H1 H2]; subst. destruct (cmp k' k1); [done..|]. constructor; auto. by apply IH.
Qed.

Lemma insert_sorted k v m : sorted m -> sorted (insert k v m).
Proof.
  induction m as [|[k1 v1] m IH]; [by repeat constructor|]. simpl. intros [Ha Hs].
  destruct (cmp k k1) eqn:E; simpl.
  - apply cmp_eq in E as ->. done.
  - split; [|done]. constructor; [done|]. by eapply above_weaken.
  - split; [|auto]. apply above_insert; [|done]. by apply cmp_gt.
Qed.

Lemma remove_sorted k m : sorted m -> sorted (remove k m).
Proof.
  induction m as [|[k1 v1] m IH]; [done|]. simpl. intros [Ha Hs].
  destruct (cmp k k1); simpl; [done..|]. split; [by apply above_remove|auto].
Qed.

(** Where the entry of a key is, and what the operations do around it. *)
Lemma get_Some k v m : get k m = Some v -> exists l r, m = l ++ (k, v) :: r /\
  (forall v', insert k v' m = l ++ (k, v') :: r) /\ remove k m = l ++ r.
Proof.
  induction m as [|[k1 v1] m IH]; [done|]. simpl. destruct (cmp k k1) eqn:E; [|done|].
  - intros [= ->]. apply cmp_eq in E as ->. by exists [], m.
  - intros Hg. destruct (IH Hg) as (l & r & -> & Hi & Hr). exists ((k1, v1) :: l), r.
    rewrite Hr. split_and!; try done. intros v'. by rewrite Hi.
Qed.

Lemma get_None k m : get k m = None -> exists l r, m = l ++ r /\
  (forall v', insert k v' m = l ++ (k, v') :: r) /\ remove k m = m.
Proof.
  induction m as [|[k1 v1] m IH]; [by exists [], []|]. simpl. destruct (cmp k k1) eqn:E; [done| |].
  - intros _. by exists [], ((k1, v1) :: m).
  - intros Hg. destruct (IH Hg) as (l & r & -> & Hi & Hr). exists ((k1, v1) :: l), r.
    rewrite Hr. split_and!; try done. intros v'. by rewrite Hi.
Qed.

(** What is read after an update. *)
Lemma get_above k m : above k m -> get k m = None.
Proof. destruct m as [|[k1 v1] m]; [done|]. simpl. intros [E _]%Forall_cons. simpl in E. by rewrite E. Qed.

Lemma cmp_same (k : K) : cmp k k = Eq.
Proof. by apply cmp_eq. Qed.

Lemma get_insert k k' v m : get k (insert k' v m) = match cmp k k' with Eq => Some v | _ => get k m end.
Proof.
  induction m as [|[k1 v1] m IH]; simpl; [by destruct (cmp k k')|].
  destruct (cmp k' k1) eqn:E; simpl.
  - apply cmp_eq in E as ->. by destruct (cmp k k1).
  - destruct (cmp k k') eqn:E'; [done| |done]. by rewrite (cmp_trans _ _ _ E' E).
  - apply cmp_gt in E. rewrite IH. destruct (cmp k k1) eqn:E1; [|by rewrite (cmp_trans _ _ _ E1 E)|done].
    apply cmp_eq in E1 as ->. by rewrite E.
Qed.

Lemma get_remove k k' m : sorted m -> get k (remove k' m) = match cmp k k' with Eq => None | _ => get k m end.
Proof.
  induction m as [|[k1 v1] m IH]; simpl; [by destruct (cmp k k')|]. intros [Ha Hs].
  destruct (cmp k' k1) eqn:E; simpl.
  - apply cmp_eq in E as ->. destruct (cmp k k1) eqn:E1; [|apply get_above; by eapply above_weaken|done].
    apply cmp_eq in E1 as ->. by apply get_above.
  - destruct (cmp k k') eqn:E'; [|done..]. apply cmp_eq in E' as ->. by rewrite E.
  - apply cmp_gt in E. rewrite IH by done. destruct (cmp k k1) eqn:E1; [|by rewrite (cmp_trans _ _ _ E1 E)|done].
    apply cmp_eq in E1 as ->. by rewrite E.
Qed.
End maps.
End BTreeMap.

(** ** Polynomials over bit-vector terms ([builder.rs])

    Sums of products of terms with coefficients modulo [2^w]: a map from the
    sorted list of the factors to the coefficient's bytes, never zero.  The
    builder compares terms by their polynomials. *)

#[local] Open Scope Z_scope.

Abbreviation Monomial := (list TermId) (only parsing).
Abbreviation Polynomial := (list (list TermId * list Z)) (only parsing).

Definition all_zero (bytes : list Z) : bool := forallb (fun byte => byte =? 0) bytes.

(** [let mut one = vec![0; bytes_for_width(width)?]; one[0] = 1;] *)
Definition one_bytes (width : nat) : res (list Z) :=
  n ← bytes_for_width width; set_index (replicate n 0) 0 1.

Definition sort_ids (l : list TermId) : list TermId := merge_sort le l.

Definition polynomial_add_assign (polynomial : Polynomial) (monomial : Monomial)
    (coefficient : list Z) (width : nat) : Polynomial :=
  if all_zero coefficient then polynomial
  else
    let updated := match BTreeMap.get monomial polynomial with
                   | Some existing => add_bytes existing coefficient width
                   | None => coefficient
                   end in
    if all_zero updated then BTreeMap.remove monomial polynomial
    else BTreeMap.insert monomial updated polynomial.

Definition polynomial_constant (bytes : list Z) : Polynomial :=
  if negb (all_zero bytes) then BTreeMap.insert [] bytes [] else [].

Definition polynomial_atom (term : TermId) (width : nat) : res Polynomial :=
  coefficient ← one_bytes width; Ok (BTreeMap.insert [term] coefficient []).

Definition polynomial_add (left right : Polynomial) (width : nat) : Polynomial :=
  foldl (fun out '(monomial, coefficient) => polynomial_add_assign out monomial coefficient width)
    left right.

Definition polynomial_sub (left right : Polynomial) (width : nat) : Polynomial :=
  foldl (fun out '(monomial, coefficient) =>
    polynomial_add_assign out monomial (neg_bytes coefficient width) width) left right.

Definition polynomial_neg (poly : Polynomial) (width : nat) : Polynomial :=
  foldl (fun out '(monomial, coefficient) =>
    polynomial_add_assign out monomial (neg_bytes coefficient width) width) [] poly.

Definition polynomial_scale (poly : Polynomial) (factor : list Z) (width : nat) : Polynomial :=
  if all_zero factor then []
  else foldl (fun out '(monomial, coefficient) =>
    polynomial_add_assign out monomial (mul_bytes coefficient factor width) width) [] poly.

(** The inner loop over [right]; [None] is the early return of the limits. *)
Fixpoint polynomial_mul_row (left_monomial : Monomial) (left_coefficient : list Z)
    (right : Polynomial) (width : nat) (out : Polynomial) : option Polynomial :=
  match right with
  | [] => Some out
  | (right_monomial, right_coefficient) :: rest =>
      let monomial := sort_ids (left_monomial ++ right_monomial) in
      if (16 <? length monomial)%nat then None
      else
        let coefficient := mul_bytes left_coefficient right_coefficient width in
        let out := polynomial_add_assign out monomial coefficient width in
        if (512 <? length out)%nat then None
        else polynomial_mul_row left_monomial left_coefficient rest width out
  end.

Fixpoint polynomial_mul_rows (left right : Polynomial) (width : nat) (out : Polynomial)
    : option Polynomial :=
  match left with
  | [] => Some out
  | (left_monomial, left_coefficient) :: rest =>
      out ← polynomial_mul_row left_monomial left_coefficient right width out;
      polynomial_mul_rows rest right width out
  end.

Definition polynomial_mul (left right : Polynomial) (width : nat) : option Polynomial :=
  polynomial_mul_rows left right width [].
