(* ===== verification/Builder.v ===== *)
(** * The term builder ([builder.rs])

    The constructors fold constants and apply local rewrites before they ask the
    arena for a node.  They act on the arena only, so they are programs of
    [M Arena]; the methods that also touch assertions, scopes and options are
    programs over the whole [Builder] (last part).  A read of the arena that can
    fail is a function into [res], run by [rd]; [?] is its bind.

    Recursive constructors carry fuel, which the public names instantiate:
    running out is [Panic], and [BuilderTheorems] shows it does not happen. *)
From stdpp Require Import sorting.
From S2P Require Import Prelude Bits Smt Bytes Ir Evaluator Polynomial.

#[local] Open Scope Z_scope.

(** ** Reading *)

Definition rd {A} (f : Arena -> res A) : M Arena A := fun s => (f s, s).

(** [a? || b?] evaluates [b] only when [a] is false. *)
Definition or_res (x y : res bool) : res bool := b ← x; if (b : bool) then Ok true else y.
Definition and_res (x y : res bool) : res bool := b ← x; if (b : bool) then y else Ok false.

(** [if let (Some(x), Some(y)) = (..)] *)
Definition both {A B} (x : option A) (y : option B) : option (A * B) :=
  a ← x; b ← y; Some (a, b).

Definition expect_bool (x : TermId) (context : string) : M Arena unit :=
  rd (fun s => Arena.expect_bool s x context).
Definition expect_bv (x : TermId) (context : string) : M Arena nat :=
  rd (fun s => Arena.expect_bv s x context).
Definition expect_same_bv (x y : TermId) (context : string) : M Arena nat :=
  rd (fun s => Arena.expect_same_bv s x y context).

Definition order_pair (a b : TermId) : TermId * TermId :=
  if (a <=? b)%nat then (a, b) else (b, a).

Section queries.
Variable s : Arena.

Definition bv_ite_parts (id : TermId) : res (option (TermId * TermId * TermId)) :=
  n ← Arena.node s id;
  Ok (match kind n with BvIte c t e => Some (c, t, e) | _ => None end).

Definition extension_parts (id : TermId) : res (option (TermId * nat * nat * bool)) :=
  n ← Arena.node s id;
  match kind n with
  | BvZeroExtend child extra =>
      width ← Arena.expect_bv s child "BV zero extension child";
      Ok (Some (child, width, extra, false))
  | BvSignExtend child extra =>
      width ← Arena.expect_bv s child "BV sign extension child";
      Ok (Some (child, width, extra, true))
  | _ => Ok None
  end.

Definition one_bit_const_value (id : TermId) : res (option bool) :=
  n ← Arena.node s id;
  match kind n with
  | BvConst 1 bytes => byte ← index bytes 0; Ok (Some (negb (Z.land byte 1 =? 0)))
  | _ => Ok None
  end.

Definition bool_const_value (id : TermId) : res (option bool) :=
  n ← Arena.node s id;
  Ok (match kind n with BoolConst value => Some value | _ => None end).

Definition bv_const_value (id : TermId) : res (option (nat * list Z)) :=
  n ← Arena.node s id;
  Ok (match kind n with BvConst width bytes => Some (width, bytes) | _ => None end).

(** The pair of the two constants' bytes, when both are constants. *)
Definition const_bytes_pair (a b : TermId) : res (option (list Z * list Z)) :=
  ca ← bv_const_value a; cb ← bv_const_value b; Ok (both (option_map snd ca) (option_map snd cb)).

Definition is_zero (id : TermId) : res bool :=
  c ← bv_const_value id;
  Ok (match c with Some (_, bytes) => all_zero bytes | None => false end).

Definition is_one (id : TermId) : res bool :=
  c ← bv_const_value id;
  Ok (match c with Some (_, bytes) => is_one_bytes bytes | None => false end).

Definition is_all_ones (id : TermId) : res bool :=
  c ← bv_const_value id;
  Ok (match c with
      | Some (width, bytes) =>
          bool_decide (bytes = mask_unused_high_bits (replicate (length bytes) 255) width)
      | None => false
      end).

Definition is_bool_negation_pair (a b : TermId) : res bool :=
  na ← Arena.node s a;
  if match kind na with BoolNot inner => (inner =? b)%nat | _ => false end then Ok true
  else
    nb ← Arena.node s b;
    Ok (match kind nb with BoolNot inner => (inner =? a)%nat | _ => false end).

Definition is_bv_negation_pair (a b : TermId) : res bool :=
  na ← Arena.node s a;
  if match kind na with BvNot inner => (inner =? b)%nat | _ => false end then Ok true
  else
    nb ← Arena.node s b;
    Ok (match kind nb with BvNot inner => (inner =? a)%nat | _ => false end).

Definition bv_not_child (id : TermId) : res (option TermId) :=
  n ← Arena.node s id; Ok (match kind n with BvNot child => Some child | _ => None end).

Definition bool_not_child (id : TermId) : res (option TermId) :=
  n ← Arena.node s id; Ok (match kind n with BoolNot child => Some child | _ => None end).

Definition bv_neg_child (id : TermId) : res (option TermId) :=
  n ← Arena.node s id; Ok (match kind n with BvNeg child => Some child | _ => None end).

Definition bv_and_contains (id child : TermId) : res bool :=
  n ← Arena.node s id;
  Ok (match kind n with BvAnd a b => (a =? child)%nat || (b =? child)%nat | _ => false end).

Definition bv_or_contains (id child : TermId) : res bool :=
  n ← Arena.node s id;
  Ok (match kind n with BvOr a b => (a =? child)%nat || (b =? child)%nat | _ => false end).

Definition bv_shl_parts (id : TermId) : res (option (TermId * TermId)) :=
  n ← Arena.node s id; Ok (match kind n with BvShl v a => Some (v, a) | _ => None end).

Definition bv_lshr_parts (id : TermId) : res (option (TermId * TermId)) :=
  n ← Arena.node s id; Ok (match kind n with BvLShr v a => Some (v, a) | _ => None end).

Definition bv_extract_parts (id : TermId) : res (option (TermId * nat * nat)) :=
  n ← Arena.node s id;
  Ok (match kind n with BvExtract child high low => Some (child, high, low) | _ => None end).

Definition bv_concat_parts (id : TermId) : res (option (TermId * TermId)) :=
  n ← Arena.node s id; Ok (match kind n with BvConcat h l => Some (h, l) | _ => None end).

Definition self_shift_left_pair (a b : TermId) : res bool :=
  pa ← bv_shl_parts a;
  if match pa with Some (v, m) => (v =? b)%nat && (m =? b)%nat | None => false end then Ok true
  else
    pb ← bv_shl_parts b;
    Ok (match pb with Some (v, m) => (v =? a)%nat && (m =? a)%nat | None => false end).

Definition const_shift_amount (id : TermId) (width : nat) : res (option nat) :=
  c ← bv_const_value id;
  Ok (match c with Some (_, bytes) => Some (bytes_to_bounded_usize bytes width) | None => None end).

Definition shifted_same_add_parts (a b : TermId) : res (option (TermId * TermId)) :=
  let second :=
    pb ← bv_shl_parts b;
    match pb with
    | Some (value, amount) =>
        if (value =? a)%nat then
          c ← bv_const_value value;
          Ok (match c with None => Some (value, amount) | Some _ => None end)
        else Ok None
    | None => Ok None
    end in
  pa ← bv_shl_parts a;
  match pa with
  | Some (value, amount) =>
      if (value =? b)%nat then
        c ← bv_const_value value;
        match c with None => Ok (Some (value, amount)) | Some _ => second end
      else second
  | None => second
  end.

(** ** Which bits of a term can be set *)

(** [for (left, right) in left.iter_mut().zip(right)] *)
Definition zip_assign (f : Z -> Z -> Z) (left right : list Z) : list Z :=
  zip_with f left right ++ drop (length right) left.

(** The recursion stops at depth 65: [fuel] is [65 - depth]. *)
Fixpoint possible_bit_mask_bytes (fuel : nat) (term : TermId) (width : nat)
    : res (option (list Z)) :=
  match fuel with
  | O => Ok None
  | S fuel =>
      if (4096 <? width)%nat then Ok None
      else
        byte_len ← bytes_for_width width;
        n ← Arena.node s term;
        match kind n with
        | BvConst actual bytes =>
            Ok (if (actual =? width)%nat
                then Some (mask_unused_high_bits (resize_bytes byte_len bytes) width) else None)
        | BvVar actual _ _ =>
            Ok (if (actual =? width)%nat
                then Some (mask_unused_high_bits (replicate byte_len 255) width) else None)
        | BvZeroExtend child extra =>
            child_sort ← Arena.sort_of s child;
            match child_sort with
            | SBool => Ok None
            | SBv child_width =>
                if (child_width + extra =? width)%nat then
                  mask ← possible_bit_mask_bytes fuel child child_width;
                  Ok (option_map (fun m => mask_unused_high_bits (resize_bytes byte_len m) width) mask)
                else Ok None
            end
        | BvShl value amount =>
            c ← const_shift_amount amount width;
            match c with
            | None => Ok None
            | Some shift =>
                mask ← possible_bit_mask_bytes fuel value width;
                Ok (option_map (fun m => shl_bytes m width shift) mask)
            end
        | BvLShr value amount =>
            c ← const_shift_amount amount width;
            match c with
            | None => Ok None
            | Some shift =>
                mask ← possible_bit_mask_bytes fuel value width;
                Ok (option_map (fun m => lshr_bytes m width shift) mask)
            end
        | BvExtract child high low =>
            child_sort ← Arena.sort_of s child;
            match child_sort with
            | SBool => Ok None
            | SBv child_width =>
                if negb (high - low + 1 =? width)%nat then Ok None
                else
                  mask ← possible_bit_mask_bytes fuel child child_width;
                  Ok (option_map (fun m => extract_bytes m low width) mask)
            end
        | BvConcat high low =>
            high_sort ← Arena.sort_of s high;
            match high_sort with
            | SBool => Ok None
            | SBv high_width =>
                low_sort ← Arena.sort_of s low;
                match low_sort with
                | SBool => Ok None
                | SBv low_width =>
                    if negb (high_width + low_width =? width)%nat then Ok None
                    else
                      high_mask ← possible_bit_mask_bytes fuel high high_width;
                      low_mask ← possible_bit_mask_bytes fuel low low_width;
                      Ok (match high_mask, low_mask with
                          | Some hm, Some lm => Some (concat_bytes hm high_width lm low_width)
                          | _, _ => None
                          end)
                end
            end
        | BvAnd a b =>
            lm ← possible_bit_mask_bytes fuel a width;
            rm ← possible_bit_mask_bytes fuel b width;
            Ok (match lm, rm with
                | Some l, Some r => Some (zip_assign Z.land l r)
                | Some mask, None | None, Some mask => Some mask
                | None, None => None
                end)
        | BvOr a b | BvXor a b =>
            lm ← possible_bit_mask_bytes fuel a width;
            rm ← possible_bit_mask_bytes fuel b width;
            Ok (match lm, rm with
                | Some l, Some r => Some (zip_assign Z.lor l r)
                | _, _ => None
                end)
        | _ => Ok None
        end
  end.

Definition have_disjoint_possible_bits (a b : TermId) (width : nat) : res bool :=
  if (4096 <? width)%nat then Ok false
  else
    lm ← possible_bit_mask_bytes 65 a width;
    rm ← possible_bit_mask_bytes 65 b width;
    Ok (match lm, rm with
        | Some lm, Some rm =>
            negb (existsb (fun '(l, r) => negb (Z.land l r =? 0)) (zip lm rm))
        | _, _ => false
        end).

(** ** Sums and products *)

(** The recursion descends the arena: [S id] is enough fuel. *)
Fixpoint collect_bv_add (fuel : nat) (id : TermId) (out : list TermId) : res (list TermId) :=
  match fuel with
  | O => Panic
  | S fuel =>
      n ← Arena.node s id;
      match kind n with
      | BvAdd a b => out ← collect_bv_add fuel a out; collect_bv_add fuel b out
      | _ => Ok (out ++ [id])
      end
  end.

Fixpoint collect_bv_mul (fuel : nat) (id : TermId) (out : list TermId) : res (list TermId) :=
  match fuel with
  | O => Panic
  | S fuel =>
      n ← Arena.node s id;
      match kind n with
      | BvMul a b => out ← collect_bv_mul fuel a out; collect_bv_mul fuel b out
      | _ => Ok (out ++ [id])
      end
  end.

Definition scaled_add_term (term : TermId) (width : nat) : res (TermId * list Z) :=
  one ← one_bytes width;
  n ← Arena.node s term;
  match kind n with
  | BvMul a b =>
      ca ← bv_const_value a;
      match ca with
      | Some (_, coefficient) => Ok (b, coefficient)
      | None =>
          cb ← bv_const_value b;
          Ok (match cb with Some (_, coefficient) => (a, coefficient) | None => (term, one) end)
      end
  | _ => Ok (term, one)
  end.

(** [let Some(x) = m? else { return Ok(None) };] *)
Definition or_none {S A B} (m : M S (option A)) (k : A -> M S (option B)) : M S (option B) :=
  o ← m; match o with Some x => k x | None => mret None end.

(** The state is the remaining budget of visited nodes; each call spends one, so
    [S budget] bounds the recursion. *)
Fixpoint polynomial (fuel : nat) (term : TermId) (width : nat) : M nat (option Polynomial) :=
  match fuel with
  | O => panic
  | S fuel =>
      budget ← get;
      if (budget =? 0)%nat then mret None
      else
        put (budget - 1)%nat ;;
        term_width ← lift (Arena.expect_bv s term "BV polynomial term");
        if negb (term_width =? width)%nat then mret None
        else
          n ← lift (Arena.node s term);
          match kind n with
          | BvConst _ bytes => mret (Some (polynomial_constant bytes))
          | BvAdd a b =>
              or_none (polynomial fuel a width) (fun left =>
              or_none (polynomial fuel b width) (fun right =>
              mret (Some (polynomial_add left right width))))
          | BvSub a b =>
              or_none (polynomial fuel a width) (fun left =>
              or_none (polynomial fuel b width) (fun right =>
              mret (Some (polynomial_sub left right width))))
          | BvNeg child =>
              or_none (polynomial fuel child width) (fun poly =>
              mret (Some (polynomial_neg poly width)))
          | BvNot child =>
              or_none (polynomial fuel child width) (fun poly =>
              one ← lift (one_bytes width);
              mret (Some (polynomial_add_assign (polynomial_neg poly width) []
                            (neg_bytes one width) width)))
          | BvMul a b =>
              or_none (polynomial fuel a width) (fun left =>
              or_none (polynomial fuel b width) (fun right =>
              mret (polynomial_mul left right width)))
          | BvShl value amount =>
              c ← lift (const_shift_amount amount width);
              match c with
              | None => atom ← lift (polynomial_atom term width); mret (Some atom)
              | Some shift =>
                  if (width <=? shift)%nat then mret (Some [])
                  else
                    or_none (polynomial fuel value width) (fun poly =>
                    nbytes ← lift (bytes_for_width width);
                    let factor := set_bit (replicate nbytes 0) shift in
                    mret (Some (polynomial_scale poly factor width)))
              end
          | _ => atom ← lift (polynomial_atom term width); mret (Some atom)
          end
  end.

Definition polynomial_budget : nat := 512.

Definition polynomial_equality (a b : TermId) : res (option bool) :=
  width ← Arena.expect_same_bv s a b "BV polynomial equality";
  if (128 <? width)%nat then Ok None
  else
    let compare : M nat (option bool) :=
      or_none (polynomial (S polynomial_budget) a width) (fun left =>
      or_none (polynomial (S polynomial_budget) b width) (fun right =>
      mret (if bool_decide (left = right) then Some true
            else
              let diff := polynomial_sub left right width in
              if (length diff =? 0)%nat then Some true
              else if forallb (fun e => (length (fst e) =? 0)%nat) diff then Some false
              else None))) in
    (compare polynomial_budget).1.
End queries.

(** ** Constants and variables *)

Definition bool_var_external (name : string) (external : option nat) : M Arena TermId :=
  Arena.add (BoolVar name external) SBool.
Definition bool_var (name : string) : M Arena TermId := bool_var_external name None.

Definition bv_var_external (name : string) (width : nat) (external : option nat)
    : M Arena TermId :=
  lift (validate_bv_width width "BV variable width") ;;
  Arena.add (BvVar width name external) (SBv width).
Definition bv_var (name : string) (width : nat) : M Arena TermId := bv_var_external name width None.

Definition bool_const (value : bool) : M Arena TermId := Arena.add (BoolConst value) SBool.
Definition bool_true : M Arena TermId := bool_const true.
Definition bool_false : M Arena TermId := bool_const false.

Definition bv_const_bytes (bytes : list Z) (width : nat) : M Arena TermId :=
  bytes ← lift (normalized_bytes bytes width);
  Arena.add (BvConst width bytes) (SBv width).

Definition bv_const (value : Z) (width : nat) : M Arena TermId :=
  lift (validate_bv_width width "BV constant width") ;;
  n ← lift (bytes_for_width width);
  let raw := to_le_bytes 8 value in
  let count := (n `min` length raw)%nat in
  bytes ← lift (copy_from_slice (replicate n 0) 0 count (take count raw));
  bv_const_bytes (mask_unused_high_bits bytes width) width.

Definition zero (width : nat) : M Arena TermId :=
  n ← lift (bytes_for_width width); bv_const_bytes (replicate n 0) width.

Definition all_ones (width : nat) : M Arena TermId :=
  n ← lift (bytes_for_width width);
  bv_const_bytes (mask_unused_high_bits (replicate n 255) width) width.

(** ** Nodes without rewriting *)

Definition bv_unary (x : TermId) (f : TermId -> NodeKind) : M Arena TermId :=
  width ← expect_bv x "BV unary"; Arena.add (f x) (SBv width).

Definition bv_binary (a b : TermId) (f : TermId -> TermId -> NodeKind) : M Arena TermId :=
  width ← expect_same_bv a b "BV binary"; Arena.add (f a b) (SBv width).

Definition bv_add_node (a b : TermId) (width : nat) : M Arena TermId :=
  let '(a, b) := order_pair a b in Arena.add (BvAdd a b) (SBv width).

Definition bv_mul_node (a b : TermId) (width : nat) : M Arena TermId :=
  let '(a, b) := order_pair a b in Arena.add (BvMul a b) (SBv width).

Definition overflow_binary (a b : TermId) (f : TermId -> TermId -> NodeKind) : M Arena TermId :=
  expect_same_bv a b "overflow predicate" ;; Arena.add (f a b) SBool.

(** ** Bitwise operations and negation *)

Definition bv_not (x : TermId) : M Arena TermId :=
  c ← rd (fun s => bv_const_value s x);
  match c with
  | Some (width, bytes) => bv_const_bytes (mask_unused_high_bits (not_u8 <$> bytes) width) width
  | None =>
      inner ← rd (fun s => bv_not_child s x);
      match inner with Some inner => mret inner | None => bv_unary x BvNot end
  end.

Definition bv_neg (x : TermId) : M Arena TermId :=
  c ← rd (fun s => bv_const_value s x);
  match c with
  | Some (width, bytes) => bv_const_bytes (neg_bytes bytes width) width
  | None =>
      inner ← rd (fun s => bv_neg_child s x);
      match inner with Some inner => mret inner | None => bv_unary x BvNeg end
  end.

Definition bv_and (a b : TermId) : M Arena TermId :=
  let '(a, b) := order_pair a b in
  width ← expect_same_bv a b "BV_AND";
  if (a =? b)%nat then mret a else
  z ← rd (fun s => or_res (is_zero s a) (is_zero s b));
  if (z : bool) then za ← rd (fun s => is_zero s a); mret (if (za : bool) then a else b) else
  o ← rd (fun s => or_res (is_all_ones s a) (is_all_ones s b));
  if (o : bool) then oa ← rd (fun s => is_all_ones s a); mret (if (oa : bool) then b else a) else
  c ← rd (fun s => const_bytes_pair s a b);
  match c with
  | Some (av, bv) => bv_const_bytes (zip_with Z.land av bv) width
  | None =>
      n ← rd (fun s => is_bv_negation_pair s a b);
      if (n : bool) then zero width else
      d ← rd (fun s => have_disjoint_possible_bits s a b width);
      if (d : bool) then zero width else
      oab ← rd (fun s => bv_or_contains s a b);
      if (oab : bool) then mret b else
      oba ← rd (fun s => bv_or_contains s b a);
      if (oba : bool) then mret a else
      Arena.add (BvAnd a b) (SBv width)
  end.

(** [bv_or] and [bv_add] call each other: [bv_or] takes the addition to use. *)
Definition bv_or_with (add : TermId -> TermId -> M Arena TermId) (a b : TermId) : M Arena TermId :=
  let '(a, b) := order_pair a b in
  width ← expect_same_bv a b "BV_OR";
  if (a =? b)%nat then mret a else
  z ← rd (fun s => or_res (is_zero s a) (is_zero s b));
  if (z : bool) then za ← rd (fun s => is_zero s a); mret (if (za : bool) then b else a) else
  o ← rd (fun s => or_res (is_all_ones s a) (is_all_ones s b));
  if (o : bool) then oa ← rd (fun s => is_all_ones s a); mret (if (oa : bool) then a else b) else
  c ← rd (fun s => const_bytes_pair s a b);
  match c with
  | Some (av, bv) => bv_const_bytes (zip_with Z.lor av bv) width
  | None =>
      n ← rd (fun s => is_bv_negation_pair s a b);
      if (n : bool) then all_ones width else
      aab ← rd (fun s => bv_and_contains s a b);
      if (aab : bool) then mret b else
      aba ← rd (fun s => bv_and_contains s b a);
      if (aba : bool) then mret a else
      sh ← rd (fun s => self_shift_left_pair s a b);
      if (sh : bool) then add a b else
      Arena.add (BvOr a b) (SBv width)
  end.

(** ** Shifts *)

Fixpoint bv_shl_fuel (fuel : nat) (a b : TermId) : M Arena TermId :=
  match fuel with
  | O => panic
  | S fuel =>
      width ← expect_same_bv a b "BV shl";
      z ← rd (fun s => is_zero s a);
      if (z : bool) then zero width else
      let rest :=
        inner ← rd (fun s => bv_neg_child s a);
        match inner with
        | Some inner => shifted ← bv_shl_fuel fuel inner b; bv_neg shifted
        | None => Arena.add (BvShl a b) (SBv width)
        end in
      k ← rd (fun s => const_shift_amount s b width);
      match k with
      | Some amount =>
          if (amount =? 0)%nat then mret a else
          if (width <=? amount)%nat then zero width else
          c ← rd (fun s => bv_const_value s a);
          match c with
          | Some (_, bytes) => bv_const_bytes (shl_bytes bytes width amount) width
          | None => rest
          end
      | None => rest
      end
  end.

Definition bv_shl (a b : TermId) : M Arena TermId := bv_shl_fuel (S a) a b.

Fixpoint bv_lshr_fuel (fuel : nat) (a b : TermId) : M Arena TermId :=
  match fuel with
  | O => panic
  | S fuel =>
      width ← expect_same_bv a b "BV lshr";
      z ← rd (fun s => or_res (Ok (a =? b)%nat) (is_zero s a));
      if (z : bool) then zero width else
      let rest :=
        parts ← rd (fun s => bv_lshr_parts s a);
        match parts with
        | Some (inner, inner_amount) =>
            if (b <? inner_amount)%nat then
              shifted ← bv_lshr_fuel fuel inner b; bv_lshr_fuel fuel shifted inner_amount
            else Arena.add (BvLShr a b) (SBv width)
        | None => Arena.add (BvLShr a b) (SBv width)
        end in
      k ← rd (fun s => const_shift_amount s b width);
      match k with
      | Some amount =>
          if (amount =? 0)%nat then mret a else
          if (width <=? amount)%nat then zero width else
          c ← rd (fun s => bv_const_value s a);
          match c with
          | Some (_, bytes) => bv_const_bytes (lshr_bytes bytes width amount) width
          | None => rest
          end
      | None => rest
      end
  end.

Definition bv_lshr (a b : TermId) : M Arena TermId := bv_lshr_fuel (S a) a b.

Definition bv_ashr (a b : TermId) : M Arena TermId :=
  width ← expect_same_bv a b "BV ashr";
  k ← rd (fun s => const_shift_amount s b width);
  match k with
  | Some amount =>
      if (amount =? 0)%nat then mret a else
      c ← rd (fun s => bv_const_value s a);
      match c with
      | Some (_, bytes) => bv_const_bytes (ashr_bytes bytes width amount) width
      | None => Arena.add (BvAShr a b) (SBv width)
      end
  | None => Arena.add (BvAShr a b) (SBv width)
  end.

(** ** Multiplication *)

(** [for next in iter { cur = node(cur, next)? }] *)
Fixpoint chain (node : TermId -> TermId -> M Arena TermId) (cur : TermId) (terms : list TermId)
    : M Arena TermId :=
  match terms with
  | [] => mret cur
  | next :: terms => cur ← node cur next; chain node cur terms
  end.

Definition rebuild_bv_mul (terms : list TermId) (width : nat) : M Arena TermId :=
  if (length terms =? 0)%nat then bv_const 1 width
  else match sort_ids terms with
       | [] => panic
       | first :: rest => chain (fun cur next => bv_mul_node cur next width) first rest
       end.

(** The loop over the factors: [None] when a zero is met, otherwise the product
    of the constants and the other factors. *)
Fixpoint split_factors (terms : list TermId) (width : nat) (constant : list Z)
    (non_const : list TermId) : M Arena (option (list Z * list TermId)) :=
  match terms with
  | [] => mret (Some (constant, non_const))
  | term :: terms =>
      c ← rd (fun s => bv_const_value s term);
      match c with
      | Some (_, bytes) =>
          if all_zero bytes then mret None
          else split_factors terms width (mul_bytes constant bytes width) non_const
      | None => split_factors terms width constant (non_const ++ [term])
      end
  end.

Definition canonical_bv_mul (a b : TermId) (width : nat) : M Arena (option TermId) :=
  terms ← rd (fun s => out ← collect_bv_mul s (S a) a []; collect_bv_mul s (S b) b out);
  if (length terms <=? 2)%nat then mret None
  else
    constant ← lift (one_bytes width);
    parts ← split_factors terms width constant [];
    match parts with
    | None => z ← zero width; mret (Some z)
    | Some (constant, non_const) =>
        non_const ←
          (if negb (is_one_bytes constant)
           then c ← bv_const_bytes constant width; mret (non_const ++ [c])
           else mret non_const);
        r ← rebuild_bv_mul non_const width; mret (Some r)
    end.

Fixpoint bv_mul_fuel (fuel : nat) (a b : TermId) : M Arena TermId :=
  match fuel with
  | O => panic
  | S fuel =>
      let '(a, b) := order_pair a b in
      width ← expect_same_bv a b "BV_MUL";
      z ← rd (fun s => or_res (is_zero s a) (is_zero s b));
      if (z : bool) then zero width else
      o ← rd (fun s => or_res (is_one s a) (is_one s b));
      if (o : bool) then oa ← rd (fun s => is_one s a); mret (if (oa : bool) then b else a) else
      f ← rd (fun s => or_res (is_all_ones s a) (is_all_ones s b));
      if (f : bool) then
        fa ← rd (fun s => is_all_ones s a); bv_neg (if (fa : bool) then b else a) else
      na ← rd (fun s => bv_neg_child s a);
      match na with
      | Some inner => product ← bv_mul_fuel fuel inner b; bv_neg product
      | None =>
      nb ← rd (fun s => bv_neg_child s b);
      match nb with
      | Some inner => product ← bv_mul_fuel fuel a inner; bv_neg product
      | None =>
      c ← rd (fun s => const_bytes_pair s a b);
      match c with
      | Some (av, bv) => bv_const_bytes (mul_bytes av bv width) width
      | None =>
      sa ← rd (fun s => bv_shl_parts s a);
      match sa with
      | Some (value, amount) => product ← bv_mul_fuel fuel value b; bv_shl product amount
      | None =>
      sb ← rd (fun s => bv_shl_parts s b);
      match sb with
      | Some (value, amount) => product ← bv_mul_fuel fuel a value; bv_shl product amount
      | None =>
      canonical ← canonical_bv_mul a b width;
      match canonical with
      | Some canonical => mret canonical
      | None => bv_mul_node a b width
      end end end end end end
  end.

Definition bv_mul (a b : TermId) : M Arena TermId := bv_mul_fuel (S (a + b)) a b.

(** ** Addition *)

Definition rebuild_bv_add (terms : list TermId) (width : nat) : M Arena TermId :=
  if (length terms =? 0)%nat then zero width
  else match sort_ids terms with
       | [] => panic
       | first :: rest => chain (fun cur next => bv_add_node cur next width) first rest
       end.

(** The first loop: the sum of the constants, and the other terms. *)
Fixpoint split_terms (terms : list TermId) (width : nat) (constant : list Z)
    (non_const : list TermId) : M Arena (list Z * list TermId) :=
  match terms with
  | [] => mret (constant, non_const)
  | term :: terms =>
      c ← rd (fun s => bv_const_value s term);
      match c with
      | Some (_, bytes) => split_terms terms width (add_bytes constant bytes width) non_const
      | None => split_terms terms width constant (non_const ++ [term])
      end
  end.

Fixpoint scaled_terms (terms : list TermId) (width : nat) : M Arena (list (TermId * list Z)) :=
  match terms with
  | [] => mret []
  | term :: terms =>
      sc ← rd (fun s => scaled_add_term s term width);
      rest ← scaled_terms terms width;
      mret (sc :: rest)
  end.

(** [sort_unstable_by_key(base)]: the coefficients of equal bases are only added
    up, so their order does not matter. *)
Definition base_le (x y : TermId * list Z) : Prop := (x.1 <= y.1)%nat.
#[export] Instance base_le_dec : RelDecision base_le.
Proof. intros x y. unfold base_le. apply _. Defined.
Definition sort_by_base (l : list (TermId * list Z)) : list (TermId * list Z) :=
  merge_sort base_le l.

(** The inner loop of the grouping: the entries at the front with this base. *)
Fixpoint take_base (base : TermId) (scaled : list (TermId * list Z)) (width : nat)
    (coefficient : list Z) (count : nat) : list Z * nat * list (TermId * list Z) :=
  match scaled with
  | (base', c) :: rest =>
      if (base' =? base)%nat
      then take_base base rest width (add_bytes coefficient c width) (S count)
      else (coefficient, count, scaled)
  | [] => (coefficient, count, [])
  end.

(** The outer loop; every round consumes an entry, so [length scaled] rounds. *)
Fixpoint group_terms (fuel : nat) (scaled : list (TermId * list Z)) (width : nat)
    (grouped : list TermId) (changed : bool) : M Arena (list TermId * bool) :=
  match scaled with
  | [] => mret (grouped, changed)
  | (base, _) :: _ =>
      match fuel with
      | O => panic
      | S fuel =>
          n ← lift (bytes_for_width width);
          let '(coefficient, count, rest) := take_base base scaled width (replicate n 0) 0 in
          let changed := (1 <? count)%nat || changed in
          grouped ←
            (if negb (all_zero coefficient) then
               if is_one_bytes coefficient then mret (grouped ++ [base])
               else
                 coefficient ← bv_const_bytes coefficient width;
                 product ← bv_mul base coefficient;
                 mret (grouped ++ [product])
             else mret grouped);
          group_terms fuel rest width grouped changed
      end
  end.

Definition canonical_bv_add (a b : TermId) (width : nat) : M Arena (option TermId) :=
  terms ← rd (fun s => out ← collect_bv_add s (S a) a []; collect_bv_add s (S b) b out);
  let changed := (2 <? length terms)%nat in
  n ← lift (bytes_for_width width);
  '(constant, non_const) ← split_terms terms width (replicate n 0) [];
  scaled ← scaled_terms non_const width;
  let scaled := sort_by_base scaled in
  '(grouped, changed) ← group_terms (length scaled) scaled width [] changed;
  grouped ←
    (if negb (all_zero constant)
     then c ← bv_const_bytes constant width; mret (grouped ++ [c])
     else mret grouped);
  if negb changed then mret None
  else r ← rebuild_bv_add grouped width; mret (Some r).

(** Two levels are enough: the addition of [one] and [one << amount] rewrites no
    further, and a sum that is a disjunction of disjoint operands is not of the
    form [x | x << x] (no shift node has two constant operands). *)
Fixpoint bv_add_fuel (fuel : nat) (a b : TermId) : M Arena TermId :=
  match fuel with
  | O => panic
  | S fuel =>
      let '(a, b) := order_pair a b in
      width ← expect_same_bv a b "BV_ADD";
      z ← rd (fun s => or_res (is_zero s a) (is_zero s b));
      if (z : bool) then za ← rd (fun s => is_zero s a); mret (if (za : bool) then b else a) else
      c ← rd (fun s => const_bytes_pair s a b);
      match c with
      | Some (av, bv) => bv_const_bytes (add_bytes av bv width) width
      | None =>
          d ← rd (fun s => have_disjoint_possible_bits s a b width);
          if (d : bool) then bv_or_with (bv_add_fuel fuel) a b else
          canonical ← canonical_bv_add a b width;
          match canonical with
          | Some canonical => mret canonical
          | None =>
              parts ← rd (fun s => shifted_same_add_parts s a b);
              match parts with
              | Some (value, amount) =>
                  one ← bv_const 1 width;
                  shifted_one ← bv_shl one amount;
                  factor ← bv_add_fuel fuel one shifted_one;
                  bv_mul value factor
              | None => bv_add_node a b width
              end
          end
      end
  end.

Definition bv_add (a b : TermId) : M Arena TermId := bv_add_fuel 2 a b.

Definition bv_or (a b : TermId) : M Arena TermId := bv_or_with bv_add a b.

Definition bv_xor (a b : TermId) : M Arena TermId :=
  let '(a, b) := order_pair a b in
  width ← expect_same_bv a b "BV_XOR";
  if (a =? b)%nat then zero width else
  z ← rd (fun s => or_res (is_zero s a) (is_zero s b));
  if (z : bool) then za ← rd (fun s => is_zero s a); mret (if (za : bool) then b else a) else
  c ← rd (fun s => const_bytes_pair s a b);
  match c with
  | Some (av, bv) => bv_const_bytes (zip_with Z.lxor av bv) width
  | None =>
      n ← rd (fun s => is_bv_negation_pair s a b);
      if (n : bool) then all_ones width else
      d ← rd (fun s => have_disjoint_possible_bits s a b width);
      if (d : bool) then bv_or a b else
      Arena.add (BvXor a b) (SBv width)
  end.

Definition bv_sub (a b : TermId) : M Arena TermId :=
  width ← expect_same_bv a b "BV_SUB";
  z ← rd (fun s => or_res (Ok (a =? b)%nat) (and_res (is_zero s a) (is_zero s b)));
  if (z : bool) then zero width else
  zb ← rd (fun s => is_zero s b);
  if (zb : bool) then mret a else
  c ← rd (fun s => const_bytes_pair s a b);
  match c with
  | Some (av, bv) => bv_const_bytes (sub_bytes av bv width) width
  | None => Arena.add (BvSub a b) (SBv width)
  end.

(** ** Division *)

Definition bv_udiv (a b : TermId) : M Arena TermId :=
  width ← expect_same_bv a b "BV udiv";
  zb ← rd (fun s => is_zero s b);
  if (zb : bool) then all_ones width else
  ob ← rd (fun s => is_one s b);
  if (ob : bool) then mret a else
  z ← rd (fun s => and_res (is_zero s a) (c ← bv_const_value s b; Ok (bool_decide (is_Some c))));
  if (z : bool) then zero width else
  Arena.add (BvUDiv a b) (SBv width).

Definition bv_urem (a b : TermId) : M Arena TermId :=
  width ← expect_same_bv a b "BV urem";
  z ← rd (fun s => or_res (is_zero s a) (is_one s b));
  if (z : bool) then zero width else
  zb ← rd (fun s => is_zero s b);
  if (zb : bool) then mret a else
  Arena.add (BvURem a b) (SBv width).

Definition bv_sdiv (a b : TermId) : M Arena TermId := bv_binary a b BvSDiv.
Definition bv_srem (a b : TermId) : M Arena TermId := bv_binary a b BvSRem.
Definition bv_smod (a b : TermId) : M Arena TermId := bv_binary a b BvSMod.

(** ** Structure *)

(** [bv_extract] and [bv_concat] call each other. *)
Definition bv_concat_with (extract : TermId -> nat -> nat -> M Arena TermId) (high low : TermId)
    : M Arena TermId :=
  high_width ← expect_bv high "BV concat";
  low_width ← expect_bv low "BV concat";
  if negb (Z.of_nat (high_width + low_width) <? 2 ^ 32) then fail (Invalid "BV concat") else
  let width := (high_width + low_width)%nat in
  lift (validate_bv_width width "BV concat width") ;;
  c ← rd (fun s => const_bytes_pair s high low);
  match c with
  | Some (high_bytes, low_bytes) =>
      bv_const_bytes (concat_bytes high_bytes high_width low_bytes low_width) width
  | None =>
      parts ← rd (fun s => h ← bv_extract_parts s high; l ← bv_extract_parts s low; Ok (both h l));
      match parts with
      | Some ((high_child, high_hi, high_lo), (low_child, low_hi, low_lo)) =>
          if (high_child =? low_child)%nat && (low_hi + 1 =? high_lo)%nat
          then extract high_child high_hi low_lo
          else Arena.add (BvConcat high low) (SBv width)
      | None => Arena.add (BvConcat high low) (SBv width)
      end
  end.

Fixpoint bv_extract_fuel (fuel : nat) (child : TermId) (high low : nat) : M Arena TermId :=
  match fuel with
  | O => panic
  | S fuel =>
      width ← expect_bv child "BV extract";
      if (high <? low)%nat || (width <=? high)%nat then fail (Invalid "BV extract") else
      if (low =? 0)%nat && (high + 1 =? width)%nat then mret child else
      let out_width := (high - low + 1)%nat in
      c ← rd (fun s => bv_const_value s child);
      match c with
      | Some (_, bytes) => bv_const_bytes (extract_bytes bytes low out_width) out_width
      | None =>
      e ← rd (fun s => bv_extract_parts s child);
      match e with
      | Some (inner, _, inner_low) => bv_extract_fuel fuel inner (inner_low + high) (inner_low + low)
      | None =>
      cc ← rd (fun s => bv_concat_parts s child);
      match cc with
      | Some (high_child, low_child) =>
          low_width ← expect_bv low_child "BV concat low child";
          if (high <? low_width)%nat then bv_extract_fuel fuel low_child high low else
          if (low_width <=? low)%nat then
            bv_extract_fuel fuel high_child (high - low_width) (low - low_width) else
          low_part ← bv_extract_fuel fuel low_child (low_width - 1) low;
          high_part ← bv_extract_fuel fuel high_child (high - low_width) 0;
          bv_concat_with (bv_extract_fuel fuel) high_part low_part
      | None => Arena.add (BvExtract child high low) (SBv out_width)
      end end end
  end.

Definition bv_extract (child : TermId) (high low : nat) : M Arena TermId :=
  bv_extract_fuel (S child) child high low.

Definition bv_concat (high low : TermId) : M Arena TermId := bv_concat_with bv_extract high low.

Definition bv_zext (child : TermId) (extra : nat) : M Arena TermId :=
  width ← expect_bv child "BV zero extension";
  if negb (Z.of_nat (width + extra) <? 2 ^ 32) then fail (Invalid "BV zero extension") else
  let out_width := (width + extra)%nat in
  lift (validate_bv_width out_width "BV zero extension width") ;;
  if (extra =? 0)%nat then mret child else
  c ← rd (fun s => bv_const_value s child);
  match c with
  | Some (_, bytes) =>
      n ← lift (bytes_for_width out_width);
      bv_const_bytes (resize_bytes n bytes) out_width
  | None => Arena.add (BvZeroExtend child extra) (SBv out_width)
  end.

Definition bv_sext (child : TermId) (extra : nat) : M Arena TermId :=
  width ← expect_bv child "BV sign extension";
  if negb (Z.of_nat (width + extra) <? 2 ^ 32) then fail (Invalid "BV sign extension") else
  let out_width := (width + extra)%nat in
  lift (validate_bv_width out_width "BV sign extension width") ;;
  if (extra =? 0)%nat then mret child else
  c ← rd (fun s => bv_const_value s child);
  match c with
  | Some (_, bytes) => bv_const_bytes (sext_bytes bytes width extra) out_width
  | None => Arena.add (BvSignExtend child extra) (SBv out_width)
  end.

Definition bv_repeat (child : TermId) (count : nat) : M Arena TermId :=
  if (count =? 0)%nat then fail (Invalid "BV repeat") else
  width ← expect_bv child "BV repeat";
  if negb (Z.of_nat (width * count) <? 2 ^ 32) then fail (Invalid "BV repeat") else
  let out_width := (width * count)%nat in
  lift (validate_bv_width out_width "BV repeat width") ;;
  if (count =? 1)%nat then mret child else
  c ← rd (fun s => bv_const_value s child);
  match c with
  | Some (_, bytes) => bv_const_bytes (repeat_bytes bytes width count) out_width
  | None => Arena.add (BvRepeat child count) (SBv out_width)
  end.

(** [%] on a zero divisor panics. *)
Definition rem_u32 (a b : nat) : res nat := if (b =? 0)%nat then Panic else Ok (a mod b)%nat.

Definition bv_rotate_left (child : TermId) (amount : nat) : M Arena TermId :=
  width ← expect_bv child "BV rotate_left";
  amount ← lift (rem_u32 amount width);
  if (amount =? 0)%nat then mret child else
  c ← rd (fun s => bv_const_value s child);
  match c with
  | Some (_, bytes) => bv_const_bytes (rotate_left_bytes bytes width amount) width
  | None => Arena.add (BvRotateLeft child amount) (SBv width)
  end.

Definition bv_rotate_right (child : TermId) (amount : nat) : M Arena TermId :=
  width ← expect_bv child "BV rotate_right";
  amount ← lift (rem_u32 amount width);
  if (amount =? 0)%nat then mret child else
  c ← rd (fun s => bv_const_value s child);
  match c with
  | Some (_, bytes) => bv_const_bytes (rotate_right_bytes bytes width amount) width
  | None => Arena.add (BvRotateRight child amount) (SBv width)
  end.

Definition bv_ite (cond then_value else_value : TermId) : M Arena TermId :=
  expect_bool cond "BV ite condition" ;;
  width ← expect_same_bv then_value else_value "BV ite branches";
  if (then_value =? else_value)%nat then mret then_value else
  v ← rd (fun s => bool_const_value s cond);
  match v with
  | Some value => mret (if (value : bool) then then_value else else_value)
  | None => Arena.add (BvIte cond then_value else_value) (SBv width)
  end.

(** The checks of [bv_select], case by case. *)
Fixpoint check_cases (cases : list (TermId * TermId)) (width : nat) : M Arena unit :=
  match cases with
  | [] => mret tt
  | (selector, value) :: cases =>
      expect_bool selector "BV select selector" ;;
      value_width ← expect_bv value "BV select value";
      if negb (value_width =? width)%nat then fail (Invalid "BV select")
      else check_cases cases width
  end.

Definition bv_select (cases : list (TermId * TermId)) (default : TermId) : M Arena TermId :=
  width ← expect_bv default "BV select default";
  check_cases cases width ;;
  Arena.add (BvSelect cases default) (SBv width).

(** ** Booleans *)

Definition bool_not (x : TermId) : M Arena TermId :=
  expect_bool x "Bool not" ;;
  v ← rd (fun s => bool_const_value s x);
  match v with
  | Some value => bool_const (negb value)
  | None =>
      inner ← rd (fun s => bool_not_child s x);
      match inner with Some inner => mret inner | None => Arena.add (BoolNot x) SBool end
  end.

Definition bool_and (a b : TermId) : M Arena TermId :=
  let '(a, b) := order_pair a b in
  expect_bool a "Bool and" ;;
  expect_bool b "Bool and" ;;
  if (a =? b)%nat then mret a else
  n ← rd (fun s => is_bool_negation_pair s a b);
  if (n : bool) then bool_false else
  va ← rd (fun s => bool_const_value s a);
  match va with
  | Some value => mret (if (value : bool) then b else a)
  | None =>
      vb ← rd (fun s => bool_const_value s b);
      match vb with
      | Some value => mret (if (value : bool) then a else b)
      | None => Arena.add (BoolAnd a b) SBool
      end
  end.

Definition bool_or (a b : TermId) : M Arena TermId :=
  let '(a, b) := order_pair a b in
  expect_bool a "Bool or" ;;
  expect_bool b "Bool or" ;;
  if (a =? b)%nat then mret a else
  n ← rd (fun s => is_bool_negation_pair s a b);
  if (n : bool) then bool_true else
  va ← rd (fun s => bool_const_value s a);
  match va with
  | Some value => mret (if (value : bool) then a else b)
  | None =>
      vb ← rd (fun s => bool_const_value s b);
      match vb with
      | Some value => mret (if (value : bool) then b else a)
      | None => Arena.add (BoolOr a b) SBool
      end
  end.

Definition bool_implies (a b : TermId) : M Arena TermId :=
  expect_bool a "Bool implies" ;;
  expect_bool b "Bool implies" ;;
  if (a =? b)%nat then bool_true else
  va ← rd (fun s => bool_const_value s a);
  match va with
  | Some value => if (value : bool) then mret b else bool_true
  | None =>
      vb ← rd (fun s => bool_const_value s b);
      match vb with
      | Some value => if (value : bool) then bool_true else bool_not a
      | None => Arena.add (BoolImplies a b) SBool
      end
  end.

Definition bool_eq (a b : TermId) : M Arena TermId :=
  expect_bool a "Bool eq" ;;
  expect_bool b "Bool eq" ;;
  if (a =? b)%nat then bool_true else
  n ← rd (fun s => is_bool_negation_pair s a b);
  if (n : bool) then bool_false else
  v ← rd (fun s => va ← bool_const_value s a; vb ← bool_const_value s b; Ok (both va vb));
  match v with
  | Some (av, bv) => bool_const (eqb av bv)
  | None => let '(a, b) := order_pair a b in Arena.add (BoolEq a b) SBool
  end.

Definition bool_xor (a b : TermId) : M Arena TermId := eq ← bool_eq a b; bool_not eq.

Definition bool_ite (cond then_value else_value : TermId) : M Arena TermId :=
  expect_bool cond "Bool ite condition" ;;
  expect_bool then_value "Bool ite then" ;;
  expect_bool else_value "Bool ite else" ;;
  if (then_value =? else_value)%nat then mret then_value else
  v ← rd (fun s => bool_const_value s cond);
  match v with
  | Some value => mret (if (value : bool) then then_value else else_value)
  | None => Arena.add (BoolIte cond then_value else_value) SBool
  end.

(** ** Equality *)

Definition one_bit_ite_const_equality (ite constant : TermId) : M Arena (option TermId) :=
  c ← rd (fun s => bv_const_value s constant);
  match c with
  | None => mret None
  | Some (const_width, const_bytes) =>
      if negb (const_width =? 1)%nat then mret None else
      parts ← rd (fun s => bv_ite_parts s ite);
      match parts with
      | None => mret None
      | Some (cond, then_value, else_value) =>
          tb ← rd (fun s => one_bit_const_value s then_value);
          match tb with
          | None => mret None
          | Some then_bit =>
              eb ← rd (fun s => one_bit_const_value s else_value);
              match eb with
              | None => mret None
              | Some else_bit =>
                  byte ← lift (index const_bytes 0);
                  let expected := negb (Z.land byte 1 =? 0) in
                  if eqb then_bit expected && negb (eqb else_bit expected) then mret (Some cond)
                  else if negb (eqb then_bit expected) && eqb else_bit expected then
                    r ← bool_not cond; mret (Some r)
                  else r ← bool_const (eqb then_bit expected); mret (Some r)
              end
          end
      end
  end.

Definition extension_const_equality_with (eq : TermId -> TermId -> M Arena TermId)
    (extended constant : TermId) : M Arena (option TermId) :=
  c ← rd (fun s => bv_const_value s constant);
  match c with
  | None => mret None
  | Some (const_width, const_bytes) =>
      parts ← rd (fun s => extension_parts s extended);
      match parts with
      | None => mret None
      | Some (child, child_width, extra, is_signed) =>
          if negb (const_width =? child_width + extra)%nat then mret None else
          let child_bytes := extract_bytes const_bytes 0 child_width in
          let in_range :=
            if (is_signed : bool)
            then bool_decide (sext_bytes child_bytes child_width extra = const_bytes)
            else high_bits_zero const_bytes child_width const_width in
          if negb in_range then r ← bool_false; mret (Some r)
          else
            child_const ← bv_const_bytes child_bytes child_width;
            r ← eq child child_const; mret (Some r)
      end
  end.

Fixpoint bv_eq_fuel (fuel : nat) (a b : TermId) : M Arena TermId :=
  match fuel with
  | O => panic
  | S fuel =>
      expect_same_bv a b "BV eq" ;;
      if (a =? b)%nat then bool_true else
      n ← rd (fun s => is_bv_negation_pair s a b);
      if (n : bool) then bool_false else
      r ← one_bit_ite_const_equality a b;
      match r with Some reduced => mret reduced | None =>
      r ← one_bit_ite_const_equality b a;
      match r with Some reduced => mret reduced | None =>
      r ← extension_const_equality_with (bv_eq_fuel fuel) a b;
      match r with Some reduced => mret reduced | None =>
      r ← extension_const_equality_with (bv_eq_fuel fuel) b a;
      match r with Some reduced => mret reduced | None =>
      c ← rd (fun s => const_bytes_pair s a b);
      match c with
      | Some (av, bv) => bool_const (bool_decide (av = bv))
      | None =>
          v ← rd (fun s => polynomial_equality s a b);
          match v with
          | Some value => bool_const value
          | None => let '(a, b) := order_pair a b in Arena.add (BvEq a b) SBool
          end
      end end end end end
  end.

Definition bv_eq (a b : TermId) : M Arena TermId := bv_eq_fuel (S (a + b)) a b.

Definition bv_ne (a b : TermId) : M Arena TermId := eq ← bv_eq a b; bool_not eq.

(** ** Comparisons

    [f] is one of the four comparison constructors; any other is the code's
    [unreachable!]. *)

Definition zero_extend_const_unsigned_cmp_with
    (cmp : TermId -> TermId -> (TermId -> TermId -> NodeKind) -> M Arena TermId)
    (extended constant : TermId) (strict extended_on_left : bool) : M Arena (option TermId) :=
  let some (m : M Arena TermId) : M Arena (option TermId) := r ← m; mret (Some r) in
  c ← rd (fun s => bv_const_value s constant);
  match c with
  | None => mret None
  | Some (const_width, const_bytes) =>
      parts ← rd (fun s => extension_parts s extended);
      match parts with
      | None => mret None
      | Some (child, child_width, extra, is_signed) =>
          if (is_signed : bool) || negb (const_width =? child_width + extra)%nat then mret None else
          let high_zero := high_bits_zero const_bytes child_width const_width in
          let const_zero := all_zero const_bytes in
          let const_low := extract_bytes const_bytes 0 child_width in
          low_const ← bv_const_bytes const_low child_width;
          if extended_on_left then
            if strict then
              if const_zero then some bool_false else
              if negb high_zero then some bool_true else
              some (cmp child low_const BvUlt)
            else
              if negb high_zero then some bool_true else
              some (cmp child low_const BvUle)
          else if negb high_zero then some bool_false
          else if strict then
            o ← rd (fun s => is_all_ones s low_const);
            if (o : bool) then some bool_false else
            some (cmp low_const child BvUlt)
          else
            if const_zero then some bool_true else
            some (cmp low_const child BvUle)
      end
  end.

Fixpoint bv_cmp_fuel (fuel : nat) (a b : TermId) (f : TermId -> TermId -> NodeKind)
    : M Arena TermId :=
  match fuel with
  | O => panic
  | S fuel =>
      width ← expect_same_bv a b "BV comparison";
      if (a =? b)%nat then
        match f a b with
        | BvUlt _ _ | BvSlt _ _ => bool_false
        | BvUle _ _ | BvSle _ _ => bool_true
        | _ => panic
        end
      else
        let comparison := f a b in
        let rest : M Arena TermId :=
          c ← rd (fun s => const_bytes_pair s a b);
          match c with
          | Some (av, bv) =>
              value ←
                match comparison with
                | BvUlt _ _ => mret (match cmp_unsigned_bytes av bv with Lt => true | _ => false end)
                | BvUle _ _ => mret (match cmp_unsigned_bytes av bv with Gt => false | _ => true end)
                | BvSlt _ _ => mret (signed_less_than av bv width)
                | BvSle _ _ => mret (signed_less_than av bv width || bool_decide (av = bv))
                | _ => panic
                end;
              bool_const value
          | None => Arena.add comparison SBool
          end in
        let unsigned (strict : bool) : M Arena TermId :=
          r ← zero_extend_const_unsigned_cmp_with (bv_cmp_fuel fuel) a b strict true;
          match r with Some reduced => mret reduced | None =>
          r ← zero_extend_const_unsigned_cmp_with (bv_cmp_fuel fuel) b a strict false;
          match r with Some reduced => mret reduced | None => rest end end in
        match comparison with
        | BvUlt _ _ => unsigned true
        | BvUle _ _ => unsigned false
        | _ => rest
        end
  end.

Definition bv_cmp (a b : TermId) (f : TermId -> TermId -> NodeKind) : M Arena TermId :=
  bv_cmp_fuel (S (a + b)) a b f.

Definition bv_ult (a b : TermId) : M Arena TermId := bv_cmp a b BvUlt.
Definition bv_ule (a b : TermId) : M Arena TermId := bv_cmp a b BvUle.
Definition bv_ugt (a b : TermId) : M Arena TermId := bv_ult b a.
Definition bv_uge (a b : TermId) : M Arena TermId := bv_ule b a.
Definition bv_slt (a b : TermId) : M Arena TermId := bv_cmp a b BvSlt.
Definition bv_sle (a b : TermId) : M Arena TermId := bv_cmp a b BvSle.
Definition bv_sgt (a b : TermId) : M Arena TermId := bv_slt b a.
Definition bv_sge (a b : TermId) : M Arena TermId := bv_sle b a.

(** ** Overflow predicates *)

Definition uadd_ovf (a b : TermId) : M Arena TermId := overflow_binary a b UAddOverflow.
Definition sadd_ovf (a b : TermId) : M Arena TermId := overflow_binary a b SAddOverflow.
Definition usub_ovf (a b : TermId) : M Arena TermId := overflow_binary a b USubOverflow.
Definition ssub_ovf (a b : TermId) : M Arena TermId := overflow_binary a b SSubOverflow.
Definition umul_ovf (a b : TermId) : M Arena TermId := overflow_binary a b UMulOverflow.
Definition smul_ovf (a b : TermId) : M Arena TermId := overflow_binary a b SMulOverflow.
Definition sdiv_ovf (a b : TermId) : M Arena TermId := overflow_binary a b SDivOverflow.
Definition neg_ovf (x : TermId) : M Arena TermId :=
  expect_bv x "neg overflow" ;; Arena.add (NegOverflow x) SBool.
