(* ===== verification/Config.v ===== *)
(** * Configuration and limits ([config.rs])

    The solver's settings, and what its polls of the wall clock and of the
    cancellation flag can observe.  Both are outside the program's control, so a
    run is parameterised by [Limits]: the answer each poll gets, indexed by the
    point of the run that makes it (distinct polls have distinct points).
    A theorem for every [Limits] therefore covers every timing. *)
From S2P Require Import Prelude.

Inductive SatBackendKind := Splr | Varisat | Dpll.
Inductive ShortcutMode := Enabled | Disabled | ValidateSatWitnesses | Audit.

#[export] Instance SatBackendKind_eq_dec : EqDecision SatBackendKind.
Proof. solve_decision. Defined.
#[export] Instance ShortcutMode_eq_dec : EqDecision ShortcutMode.
Proof. solve_decision. Defined.

(** [CancellationToken]s are shared flags, compared by identity ([Arc::ptr_eq]);
    their contents over time are part of [Limits] below. *)
Record CancellationToken := mkToken { token_id : nat }.

#[export] Instance CancellationToken_eq_dec : EqDecision CancellationToken.
Proof. solve_decision. Defined.

Record Config := mkConfig {
  sat_backend : SatBackendKind;
  budget : option Z;  (* nanoseconds *)
  shortcut_mode : ShortcutMode;
  cancellation_token : option CancellationToken;
}.

Module Config.
Definition default : Config :=
  {| sat_backend := Splr; budget := None; shortcut_mode := Enabled; cancellation_token := None |}.
Definition with_budget (c : Config) (b : option Z) : Config :=
  {| sat_backend := sat_backend c; budget := b; shortcut_mode := shortcut_mode c;
     cancellation_token := cancellation_token c |}.
Definition with_sat_backend (c : Config) (b : SatBackendKind) : Config :=
  {| sat_backend := b; budget := budget c; shortcut_mode := shortcut_mode c;
     cancellation_token := cancellation_token c |}.
Definition with_shortcut_mode (c : Config) (m : ShortcutMode) : Config :=
  {| sat_backend := sat_backend c; budget := budget c; shortcut_mode := m;
     cancellation_token := cancellation_token c |}.
Definition with_cancellation_token (c : Config) (t : option CancellationToken) : Config :=
  {| sat_backend := sat_backend c; budget := budget c; shortcut_mode := shortcut_mode c;
     cancellation_token := t |}.
End Config.

(** A poll is named by its path in the run: call numbers and loop counters.
    [representable p nanos] says whether [Instant::now() + nanos], taken at [p], is an
    [Instant]; the addition panics when it is not. *)
Record Limits := mkLimits {
  has_deadline : bool;
  expired : list nat -> bool;
  is_cancelled : list nat -> bool;
  representable : list nat -> Z -> bool;
}.

(** No deadline and no cancellation token. *)
Definition unlimited : Limits :=
  {| has_deadline := false; expired _ := false; is_cancelled _ := false; representable _ _ := true |}.

(** [deadline.is_some_and(|d| Instant::now() >= d)] *)
Definition deadline_passed (lim : Limits) (p : list nat) : bool := has_deadline lim && expired lim p.

(** The limits seen by a callee, whose polls are below the path [n]. *)
Definition under (n : nat) (lim : Limits) : Limits :=
  {| has_deadline := has_deadline lim;
     expired p := expired lim (n :: p);
     is_cancelled p := is_cancelled lim (n :: p);
     representable p := representable lim (n :: p) |}.

Definition check_limits (lim : Limits) (p : list nat) : res unit :=
  if is_cancelled lim p then Err Timeout
  else if deadline_passed lim p then Err Timeout
  else Ok tt.

(** The limits of a run under configuration [c]: a deadline if there is a budget,
    and no cancellation without a token. *)
Definition limits_of (c : Config) (world : Limits) : Limits :=
  {| has_deadline := match budget c with Some _ => true | None => false end;
     expired := expired world;
     is_cancelled p := match cancellation_token c with
                       | Some _ => is_cancelled world p | None => false end;
     representable := representable world |}.

(** Whether [Instant::now() + budget], at the start of a solve, does not overflow. *)
Definition deadline_representable (c : Config) (world : Limits) : bool :=
  match budget c with Some nanos => representable world [] nanos | None => true end.

(** No poll ever observes a limit. *)
Definition never (lim : Limits) : Prop :=
  forall p, is_cancelled lim p = false /\ deadline_passed lim p = false.

Lemma never_unlimited : never unlimited.
Proof. done. Qed.

Lemma never_under n lim : never lim -> never (under n lim).
Proof. intros H p. apply (H (n :: p)). Qed.

Lemma check_limits_cases lim p :
  check_limits lim p = Ok tt \/ check_limits lim p = Err Timeout /\ ~ never lim.
Proof.
  unfold check_limits. destruct (is_cancelled lim p) eqn:E1.
  { right. split; [done|]. intros H. destruct (H p). congruence. }
  destruct (deadline_passed lim p) eqn:E2; [|by left].
  right. split; [done|]. intros H. destruct (H p). congruence.
Qed.

(** ** Runs that only a limit can stop

    The computation returns a value satisfying [Q], or a poll saw a limit. *)
Definition outcome {A} (lim : Limits) (r : res A) (Q : A -> Prop) : Prop :=
  match r with Ok a => Q a | Err e => e = Timeout /\ ~ never lim | Panic => False end.

Definition wpl {S A} (lim : Limits) (m : M S A) (s : S) (Q : A -> S -> Prop) : Prop :=
  outcome lim (m s).1 (fun a => Q a (m s).2).

Lemma outcome_mono {A} lim (r : res A) (Q Q' : A -> Prop) :
  outcome lim r Q -> (forall a, Q a -> Q' a) -> outcome lim r Q'.
Proof. destruct r; simpl; auto. Qed.

Lemma outcome_weaken {A} lim lim' (r : res A) Q :
  (never lim -> never lim') -> outcome lim' r Q -> outcome lim r Q.
Proof. destruct r; simpl; try done. intros Hn [? H]. split; [done|]. auto. Qed.

Lemma outcome_under {A} n lim (r : res A) Q : outcome (under n lim) r Q -> outcome lim r Q.
Proof. apply outcome_weaken, never_under. Qed.

Lemma outcome_bind {A B} lim (r : res A) (k : A -> res B) Q :
  outcome lim r (fun a => outcome lim (k a) Q) -> outcome lim (r ≫= k) Q.
Proof. by destruct r. Qed.

Lemma outcome_check lim p (b : bool) Q :
  Q tt -> outcome lim (if b then check_limits lim p else Ok tt) Q.
Proof. intros H. destruct b; [|done]. by destruct (check_limits_cases lim p) as [->|[-> ?]]. Qed.

Lemma outcome_never {A} lim (r : res A) Q : never lim -> outcome lim r Q -> exists a, r = Ok a /\ Q a.
Proof. intros Hn. destruct r; simpl; [eauto|tauto|tauto]. Qed.

Lemma wpl_ret {S A} lim (a : A) (s : S) Q : Q a s -> wpl lim (mret a) s Q.
Proof. done. Qed.

Lemma wpl_mono {S A} lim (m : M S A) s (Q Q' : A -> S -> Prop) :
  wpl lim m s Q -> (forall a s', Q a s' -> Q' a s') -> wpl lim m s Q'.
Proof. unfold wpl. intros H HQ. eapply outcome_mono; [exact H|]. auto. Qed.

Lemma wpl_under {S A} n lim (m : M S A) s Q : wpl (under n lim) m s Q -> wpl lim m s Q.
Proof. apply outcome_under. Qed.

Lemma wpl_bind {S A B} lim (m : M S A) (k : A -> M S B) s Q :
  wpl lim m s (fun a s' => wpl lim (k a) s' Q) -> wpl lim (m ≫= k) s Q.
Proof. unfold wpl, mbind, M_bind. by destruct (m s) as [[a|e|] s']. Qed.

Lemma wpl_lift {S A} lim (r : res A) (s : S) Q :
  outcome lim r (fun a => Q a s) -> wpl lim (lift r) s Q.
Proof. done. Qed.

Lemma wpl_wp {S A} lim (m : M S A) s Q : wp m s Q -> wpl lim m s Q.
Proof. unfold wp, wpl. by destruct (m s) as [[a|e|] s']. Qed.
