(* ===== verification/Gates.v ===== *)
(** * The gate arena ([gates.rs])

    A hash-consed arena of Boolean gates with local simplification.  A
    [GateId] is a 32-bit number that [add_raw] obtains by truncating the vector's
    length ([as u32]), so the arena is only faithful while it has at most
    [2^32] gates: [bounded].  Every operation is total on the ids the arena
    gave out, whatever its size; on a bounded arena it also computes the Boolean
    function it is named after. *)
From S2P Require Import Prelude.

Abbreviation GateId := nat (only parsing).

Inductive GateKind :=
  | Const (value : bool)
  | Input (id : nat)
  | Not (x : GateId)
  | And (a b : GateId)
  | Or (a b : GateId)
  | Xor (a b : GateId)
  | Mux (sel t f : GateId).

#[export] Instance GateKind_eq_dec : EqDecision GateKind.
Proof. solve_decision. Defined.

(** Keys of the [ids] hash map. *)
Definition encode_gate (k : GateKind) : nat * (nat * nat * nat) :=
  match k with
  | Const v => (0, (if v then 1 else 0, 0, 0))
  | Input n => (1, (n, 0, 0))
  | Not x => (2, (x, 0, 0))
  | And a b => (3, (a, b, 0))
  | Or a b => (4, (a, b, 0))
  | Xor a b => (5, (a, b, 0))
  | Mux s t f => (6, (s, t, f))
  end.

Definition decode_gate (c : nat * (nat * nat * nat)) : GateKind :=
  match c with
  | (0, (v, _, _)) => Const (bool_decide (v = 1))
  | (1, (n, _, _)) => Input n
  | (2, (x, _, _)) => Not x
  | (3, (a, b, _)) => And a b
  | (4, (a, b, _)) => Or a b
  | (5, (a, b, _)) => Xor a b
  | (_, (s, t, f)) => Mux s t f
  end.

#[export] Instance GateKind_countable : Countable GateKind.
Proof. refine (inj_countable' encode_gate decode_gate _); abstract (by intros [[]| | | | | |]). Defined.

Record GateArena := mkGates {
  gates : list GateKind;
  gate_ids : gmap GateKind GateId;
  false_id : GateId;
  true_id : GateId;
  input_count : nat;
}.

Definition order_pair (a b : GateId) : GateId * GateId :=
  if a <=? b then (a, b) else (b, a).

Module GateArena.
(** [let id = GateId(self.gates.len() as u32)]: the length is truncated. *)
Definition add_raw (kind : GateKind) : M GateArena GateId := fun g =>
  match gate_ids g !! kind with
  | Some existing => (Ok existing, g)
  | None =>
      let id := u32 (length (gates g)) in
      (Ok id, {| gates := gates g ++ [kind]; gate_ids := <[kind := id]> (gate_ids g);
                 false_id := false_id g; true_id := true_id g;
                 input_count := input_count g |})
  end.

Definition empty : GateArena :=
  {| gates := []; gate_ids := ∅; false_id := 0; true_id := 1; input_count := 0 |}.

Definition set_consts (f t : GateId) : M GateArena unit := fun g =>
  (Ok tt, {| gates := gates g; gate_ids := gate_ids g; false_id := f; true_id := t;
             input_count := input_count g |}).

Definition new_steps : M GateArena unit :=
  f ← add_raw (Const false);
  t ← add_raw (Const true);
  set_consts f t.

Definition new : GateArena := (new_steps empty).2.

Definition const_gate (g : GateArena) (value : bool) : GateId :=
  if value then true_id g else false_id g.

Definition bump_input : M GateArena nat := fun g =>
  (Ok (input_count g),
   {| gates := gates g; gate_ids := gate_ids g; false_id := false_id g; true_id := true_id g;
      input_count := u32 (input_count g + 1) |}).

Definition input : M GateArena GateId :=
  id ← bump_input; add_raw (Input id).

(** [self.gates[x.index()]] *)
Definition gate_at (x : GateId) : M GateArena GateKind :=
  g ← get; lift (index (gates g) x).

Definition not (x : GateId) : M GateArena GateId :=
  g ← get;
  if x =? false_id g then mret (true_id g)
  else if x =? true_id g then mret (false_id g)
  else
    k ← gate_at x;
    match k with Not inner => mret inner | _ => add_raw (Not x) end.

Definition is_not_of (k : GateKind) (b : GateId) : bool :=
  match k with Not x => x =? b | _ => false end.

Definition is_negation_pair (a b : GateId) : M GateArena bool :=
  ka ← gate_at a;
  if is_not_of ka b then mret true
  else kb ← gate_at b; mret (is_not_of kb a).

Definition and (a b : GateId) : M GateArena GateId :=
  let '(a, b) := order_pair a b in
  g ← get;
  if (a =? false_id g) || (b =? false_id g) then mret (false_id g)
  else if a =? true_id g then mret b
  else if (b =? true_id g) || (a =? b) then mret a
  else
    neg ← is_negation_pair a b;
    if (neg : bool) then mret (false_id g) else add_raw (And a b).

Definition or (a b : GateId) : M GateArena GateId :=
  let '(a, b) := order_pair a b in
  g ← get;
  if (a =? true_id g) || (b =? true_id g) then mret (true_id g)
  else if a =? false_id g then mret b
  else if (b =? false_id g) || (a =? b) then mret a
  else
    neg ← is_negation_pair a b;
    if (neg : bool) then mret (true_id g) else add_raw (Or a b).

Definition xor (a b : GateId) : M GateArena GateId :=
  let '(a, b) := order_pair a b in
  g ← get;
  if a =? false_id g then mret b
  else if b =? false_id g then mret a
  else if a =? b then mret (false_id g)
  else if a =? true_id g then not b
  else if b =? true_id g then not a
  else add_raw (Xor a b).

Definition xnor (a b : GateId) : M GateArena GateId :=
  x ← xor a b; not x.

Definition mux (sel t f : GateId) : M GateArena GateId :=
  g ← get;
  if sel =? true_id g then mret t
  else if sel =? false_id g then mret f
  else if t =? f then mret t
  else if (t =? true_id g) && (f =? false_id g) then mret sel
  else if (t =? false_id g) && (f =? true_id g) then not sel
  else add_raw (Mux sel t f).

Definition implies (a b : GateId) : M GateArena GateId :=
  not_a ← not a; or not_a b.

(** The loops stop early at the absorbing constant. *)
Fixpoint and_many_loop (l : list GateId) (out : GateId) : M GateArena GateId :=
  match l with
  | [] => mret out
  | gate :: l =>
      out ← and out gate;
      f ← gets false_id;
      if out =? f then mret out else and_many_loop l out
  end.

Definition and_many (l : list GateId) : M GateArena GateId :=
  out ← gets true_id; and_many_loop l out.

Fixpoint or_many_loop (l : list GateId) (out : GateId) : M GateArena GateId :=
  match l with
  | [] => mret out
  | gate :: l =>
      out ← or out gate;
      t ← gets true_id;
      if out =? t then mret out else or_many_loop l out
  end.

Definition or_many (l : list GateId) : M GateArena GateId :=
  out ← gets false_id; or_many_loop l out.
End GateArena.

(** ** Meaning *)

Definition gate_bit (vals : list bool) (x : GateId) : bool := default false (vals !! x).

Definition gate_val (ι : nat -> bool) (vals : list bool) (k : GateKind) : bool :=
  let v := gate_bit vals in
  match k with
  | Const b => b
  | Input n => ι n
  | Not x => negb (v x)
  | And a b => v a && v b
  | Or a b => v a || v b
  | Xor a b => xorb (v a) (v b)
  | Mux sel t f => if v sel then v t else v f
  end.

(** The value of every gate under input values [ι]. *)
Definition gates_val (ι : nat -> bool) (gs : list GateKind) : list bool :=
  foldl (fun vals k => vals ++ [gate_val ι vals k]) [] gs.

Definition gval (ι : nat -> bool) (g : GateArena) (x : GateId) : bool :=
  gate_bit (gates_val ι (gates g)) x.

Definition operands (k : GateKind) : list GateId :=
  match k with
  | Const _ | Input _ => []
  | Not x => [x]
  | And a b | Or a b | Xor a b => [a; b]
  | Mux sel t f => [sel; t; f]
  end.

(** ** Well-formedness *)

Definition bounded (g : GateArena) : Prop := (Z.of_nat (length (gates g)) <= 2 ^ 32)%Z.

(** What holds of an arena of any size: every id is in range. *)
Record in_range (g : GateArena) : Prop := {
  false_lt : false_id g < length (gates g);
  true_lt : true_id g < length (gates g);
  ids_lt : forall k x, gate_ids g !! k = Some x -> x < length (gates g);
  operands_lt : forall i k, gates g !! i = Some k -> Forall (fun x => x < length (gates g)) (operands k);
}.

(** What holds of a bounded one. *)
Record consistent (g : GateArena) : Prop := {
  false_const : gates g !! false_id g = Some (Const false);
  true_const : gates g !! true_id g = Some (Const true);
  ids_inverse : forall k x, gate_ids g !! k = Some x <-> gates g !! x = Some k;
  operands_earlier : forall i k, gates g !! i = Some k -> Forall (fun x => x < i) (operands k);
  inputs_below : forall i n, gates g !! i = Some (Input n) -> n < input_count g;
}.

Record wf (g : GateArena) : Prop := {
  wf_range : in_range g;
  wf_consistent : bounded g -> consistent g;
  wf_inputs : bounded g -> input_count g + 2 <= length (gates g);
}.

(** The later arena extends the earlier one. *)
Record ext (g g' : GateArena) : Prop := {
  ext_gates : gates g `prefix_of` gates g';
  ext_false : false_id g' = false_id g;
  ext_true : true_id g' = true_id g;
  ext_inputs : bounded g' -> input_count g <= input_count g';
}.
