(* ===== verification/GatesFacts.v ===== *)
(** * Gates compute Boolean functions

    [bit ι g x b] says gate [x] of arena [g] has value [b] under the inputs [ι]
    (as far as the arena is bounded).  Every operation extends the arena, keeps
    it well formed, and relates the bits of its operands to the bit of its
    result.  [gspec] packages the three; [gate_step] chains them. *)
From S2P Require Import Prelude Gates.

(** ** Values under extension *)

Lemma bounded_prefix g g' : gates g `prefix_of` gates g' -> bounded g' -> bounded g.
Proof. intros H%prefix_length. unfold bounded. lia. Qed.

Lemma ext_refl g : ext g g.
Proof. split; done. Qed.

Lemma ext_trans g1 g2 g3 : ext g1 g2 -> ext g2 g3 -> ext g1 g3.
Proof.
  intros [P1 F1 T1 I1] [P2 F2 T2 I2]. split; [by etrans|congruence..|].
  intros Hb. pose proof (bounded_prefix _ _ P2 Hb). specialize (I2 Hb). specialize (I1 H). lia.
Qed.

Lemma ext_length g g' : ext g g' -> length (gates g) <= length (gates g').
Proof. intros []. by apply prefix_length. Qed.

Lemma ext_bounded g g' : ext g g' -> bounded g' -> bounded g.
Proof. intros []. by apply bounded_prefix. Qed.

Section values.
Context (ι : nat -> bool).

Lemma gates_val_snoc gs k : gates_val ι (gs ++ [k]) = gates_val ι gs ++ [gate_val ι (gates_val ι gs) k].
Proof. unfold gates_val. by rewrite foldl_snoc. Qed.

Lemma length_gates_val gs : length (gates_val ι gs) = length gs.
Proof.
  induction gs as [|k gs IH] using rev_ind; [done|]. by rewrite gates_val_snoc, !length_app, IH.
Qed.

Lemma gates_val_prefix gs gs' : gs `prefix_of` gs' -> gates_val ι gs `prefix_of` gates_val ι gs'.
Proof.
  intros [ks ->]. induction ks as [|k ks IH] using rev_ind; [by rewrite app_nil_r|].
  rewrite app_assoc, gates_val_snoc. by apply prefix_app_r.
Qed.

Lemma gate_bit_prefix gs gs' x : gs `prefix_of` gs' -> x < length gs ->
  gate_bit (gates_val ι gs') x = gate_bit (gates_val ι gs) x.
Proof.
  intros Hp Hx. unfold gate_bit.
  destruct (lookup_lt_is_Some_2 (gates_val ι gs) x) as [v E]; [by rewrite length_gates_val|].
  by rewrite E, (prefix_lookup_Some _ _ _ _ E (gates_val_prefix _ _ Hp)).
Qed.

Lemma gate_val_prefix gs gs' k : gs `prefix_of` gs' -> Forall (fun x => x < length gs) (operands k) ->
  gate_val ι (gates_val ι gs') k = gate_val ι (gates_val ι gs) k.
Proof.
  intros Hp Hk. destruct k; simpl in *; rewrite ?Forall_cons in Hk; try done;
    repeat match goal with H : _ /\ _ |- _ => destruct H end;
    by rewrite !(gate_bit_prefix _ _ _ Hp).
Qed.

(** The value of a gate is that of its kind over the whole arena. *)
Lemma gval_kind g x k : consistent g -> gates g !! x = Some k ->
  gval ι g x = gate_val ι (gates_val ι (gates g)) k.
Proof.
  intros Hc Hx. pose proof (operands_earlier g Hc _ _ Hx) as Hk.
  pose proof (lookup_lt_Some _ _ _ Hx) as Hlt.
  pose proof (take_drop_middle (gates g) x k Hx) as E.
  assert (length (take x (gates g)) = x) as Hlen by (rewrite length_take; lia).
  assert (take x (gates g) ++ [k] `prefix_of` gates g) as Hp.
  { exists (drop (S x) (gates g)). by rewrite <- app_assoc. }
  unfold gval. rewrite (gate_bit_prefix (take x (gates g) ++ [k])).
  - rewrite gates_val_snoc. unfold gate_bit.
    rewrite list_lookup_middle by (by rewrite length_gates_val). simpl.
    symmetry. apply gate_val_prefix; [|by rewrite Hlen].
    etrans; [|exact Hp]. by apply prefix_app_r.
  - done.
  - rewrite length_app, Hlen. simpl. lia.
Qed.

Definition bit (g : GateArena) (x : GateId) (b : bool) : Prop :=
  x < length (gates g) /\ (bounded g -> gval ι g x = b).

Definition bits (g : GateArena) (xs : list GateId) (bs : list bool) : Prop :=
  Forall2 (bit g) xs bs.

Lemma bit_ext g g' x b : ext g g' -> bit g x b -> bit g' x b.
Proof.
  intros He [Hx Hb]. split; [apply ext_length in He; lia|]. intros Hbd.
  unfold gval. rewrite (gate_bit_prefix _ _ _ (ext_gates _ _ He) Hx).
  apply Hb. by eapply ext_bounded.
Qed.

Lemma bits_ext g g' xs bs : ext g g' -> bits g xs bs -> bits g' xs bs.
Proof. intros He H. eapply Forall2_impl; [exact H|]. intros x b. by apply bit_ext. Qed.

Lemma bits_length g xs bs : bits g xs bs -> length xs = length bs.
Proof. apply Forall2_length. Qed.

Lemma bits_cons_inv g x xs bs : bits g (x :: xs) bs ->
  exists b bs', bs = b :: bs' /\ bit g x b /\ bits g xs bs'.
Proof. intros (b & bs' & ? & ? & ->)%Forall2_cons_inv_l. eauto. Qed.

Lemma bit_eq g x b b' : bit g x b -> b = b' -> bit g x b'.
Proof. by intros H <-. Qed.

(** ** Specifications *)

(** A program that adds gates but no inputs. *)
Definition gspec {A} (g : GateArena) (m : M GateArena A) (Q : A -> GateArena -> Prop) : Prop :=
  wf g -> wp m g (fun a g' => (ext g g' /\ input_count g' = input_count g) /\ wf g' /\ Q a g').

Lemma gspec_ret {A} g (a : A) (Q : A -> GateArena -> Prop) : Q a g -> gspec g (mret a) Q.
Proof. intros H Hwf. split; [split; [apply ext_refl|done]|done]. Qed.

Lemma gspec_bind {A B} g (m : M GateArena A) (k : A -> M GateArena B) Q R :
  gspec g m Q ->
  (forall a g', ext g g' -> wf g' -> Q a g' -> gspec g' (k a) R) ->
  gspec g (m ≫= k) R.
Proof.
  intros Hm Hk Hwf. apply wp_bind. eapply wp_mono; [by apply Hm|].
  intros a g' ([He Hn] & Hwf' & HQ). eapply wp_mono; [by apply (Hk a g')|].
  intros b g'' ([He' Hn'] & Hwf'' & HR).
  split; [split; [by eapply ext_trans|congruence]|done].
Qed.

Lemma gspec_mono {A} g (m : M GateArena A) (Q R : A -> GateArena -> Prop) :
  gspec g m Q -> (forall a g', ext g g' -> wf g' -> Q a g' -> R a g') -> gspec g m R.
Proof.
  intros Hm H Hwf. eapply wp_mono; [by apply Hm|]. intros a g' ([? ?] & ? & ?). auto.
Qed.

Lemma gspec_get {A} g (k : GateArena -> M GateArena A) R : gspec g (k g) R -> gspec g (get ≫= k) R.
Proof. done. Qed.

Lemma gspec_gets {A B} g (f : GateArena -> B) (k : B -> M GateArena A) R :
  gspec g (k (f g)) R -> gspec g (gets f ≫= k) R.
Proof. done. Qed.

Lemma gspec_gets_ret {A} g (f : GateArena -> A) (Q : A -> GateArena -> Prop) :
  Q (f g) g -> gspec g (gets f) Q.
Proof. intros H Hwf. split; [split; [apply ext_refl|done]|done]. Qed.

Lemma gspec_wf {A} g (m : M GateArena A) Q : (wf g -> gspec g m Q) -> gspec g m Q.
Proof. intros H Hwf. by apply H. Qed.

(** The constants. *)
Lemma false_bit g : wf g -> bit g (false_id g) false.
Proof.
  intros [Hr Hc _]. split; [apply Hr|]. intros Hb. specialize (Hc Hb).
  by rewrite (gval_kind _ _ _ Hc (false_const _ Hc)).
Qed.

Lemma true_bit g : wf g -> bit g (true_id g) true.
Proof.
  intros [Hr Hc _]. split; [apply Hr|]. intros Hb. specialize (Hc Hb).
  by rewrite (gval_kind _ _ _ Hc (true_const _ Hc)).
Qed.

(** Two bits of the same gate agree, on a bounded arena. *)
Lemma bit_agree g x b b' : bounded g -> bit g x b -> bit g x b' -> b = b'.
Proof. intros Hb [_ H] [_ H']. by rewrite <- H, <- H'. Qed.

(** ** [add_raw] *)

Lemma add_raw_in_range g kind x g' :
  in_range g -> Forall (fun y => y < length (gates g)) (operands kind) ->
  GateArena.add_raw kind g = (Ok x, g') ->
  ext g g' /\ in_range g' /\ x < length (gates g').
Proof.
  intros Hr Hk. unfold GateArena.add_raw. destruct (gate_ids g !! kind) as [i|] eqn:E.
  - intros [= <- <-]. split; [apply ext_refl|]. split; [done|]. by eapply ids_lt.
  - intros [= <- <-]. pose proof (u32_le (length (gates g))) as Hu.
    destruct Hr as [Hf Ht Hi Ho].
    split_and!; [split; simpl; try done; by apply prefix_app_r| |simpl; rewrite length_app; simpl; lia].
    split; simpl; rewrite length_app; simpl; [lia|lia| |].
    + intros k y. rewrite lookup_insert. case_decide; [intros [= <-]; lia|].
      intros Hy%Hi. lia.
    + intros i k Hik. apply lookup_app_Some in Hik as [Hik|[Hle Hik]].
      * eapply Forall_impl; [by eapply Ho|]. simpl. lia.
      * apply list_lookup_singleton_Some in Hik as [_ <-].
        eapply Forall_impl; [exact Hk|]. simpl. lia.
Qed.

(** On a bounded arena the result is the id of exactly that gate; an input
    gate must be below the input count. *)
Lemma add_raw_consistent g kind x g' :
  consistent g -> bounded g' -> Forall (fun y => y < length (gates g)) (operands kind) ->
  (forall n, kind = Input n -> n < input_count g) ->
  GateArena.add_raw kind g = (Ok x, g') ->
  consistent g' /\ gates g' !! x = Some kind.
Proof.
  intros Hc Hbd Hk Hin. unfold GateArena.add_raw. destruct (gate_ids g !! kind) as [i|] eqn:E.
  - intros [= <- <-]. split; [done|]. by apply Hc.
  - intros [= <- <-]. unfold bounded in Hbd. simpl in *. rewrite length_app in Hbd. simpl in Hbd.
    rewrite u32_small by lia. destruct Hc as [Hf Ht Hi Ho Hn].
    split; [|by apply list_lookup_middle]. split; simpl.
    + by apply lookup_app_l_Some.
    + by apply lookup_app_l_Some.
    + intros k y. rewrite lookup_insert. case_decide as Hd; [subst k; split|].
      * intros [= <-]. by apply list_lookup_middle.
      * intros H. apply lookup_app_Some in H as [H|[Hle H]].
        { apply Hi in H. congruence. }
        apply list_lookup_singleton_Some in H as [H _]. f_equal. lia.
      * rewrite Hi. split; [by intros ?; apply lookup_app_l_Some|].
        intros H. apply lookup_app_Some in H as [H|[Hle H]]; [done|].
        apply list_lookup_singleton_Some in H as [_ <-]. done.
    + intros i k Hik. apply lookup_app_Some in Hik as [Hik|[Hle Hik]]; [by eapply Ho|].
      apply list_lookup_singleton_Some in Hik as [Hz <-].
      eapply Forall_impl; [exact Hk|]. simpl. lia.
    + intros i n H. apply lookup_app_Some in H as [H|[Hle H]]; [by eapply Hn|].
      apply list_lookup_singleton_Some in H as [_ ->]. by apply Hin.
Qed.

Lemma add_raw_total kind g : exists x g', GateArena.add_raw kind g = (Ok x, g').
Proof. unfold GateArena.add_raw. case_match; eauto. Qed.

Lemma add_raw_count kind g x g' : GateArena.add_raw kind g = (Ok x, g') ->
  input_count g' = input_count g /\ length (gates g) <= length (gates g').
Proof.
  unfold GateArena.add_raw. case_match; intros [= <- <-]; [done|]. simpl.
  rewrite length_app. lia.
Qed.

(** A gate over bits already in the arena. *)
Lemma add_raw_spec g kind b :
  Forall (fun y => y < length (gates g)) (operands kind) ->
  (forall n, kind <> Input n) ->
  (bounded g -> gate_val ι (gates_val ι (gates g)) kind = b) ->
  gspec g (GateArena.add_raw kind) (fun x g' => bit g' x b).
Proof.
  intros Hk Hni Hv [Hr Hc Hin]. destruct (add_raw_total kind g) as (x & g' & E).
  unfold wp. rewrite E. destruct (add_raw_in_range g kind x g' Hr Hk E) as (He & Hr' & Hx).
  assert (bounded g' -> consistent g' /\ gates g' !! x = Some kind) as H.
  { intros Hb. apply (add_raw_consistent g kind); try done.
    - apply Hc. by eapply ext_bounded.
    - intros n ->. by destruct (Hni n). }
  destruct (add_raw_count _ _ _ _ E) as [Hcount _].
  split; [done|]. split; [|split; [done|]].
  { split; [done|intros Hb; by apply H|]. intros Hb. destruct (add_raw_count _ _ _ _ E) as [-> ?].
    specialize (Hin (ext_bounded _ _ He Hb)). lia. }
  intros Hb. destruct (H Hb) as [Hc' Hl]. rewrite (gval_kind _ _ _ Hc' Hl).
  rewrite (gate_val_prefix _ _ _ (ext_gates _ _ He) Hk). apply Hv. by eapply ext_bounded.
Qed.

Lemma gate_at_spec g x : x < length (gates g) ->
  gspec g (GateArena.gate_at x) (fun k g' => g' = g /\ gates g !! x = Some k).
Proof.
  intros Hx Hwf. destruct (lookup_lt_is_Some_2 _ _ Hx) as [k E].
  unfold wp, GateArena.gate_at, mbind, M_bind, get, lift. rewrite (index_Some _ _ _ E).
  split; [split; [apply ext_refl|done]|done].
Qed.

(** ** The gates *)

Lemma bit_value g x b : bit g x b -> bounded g -> gate_bit (gates_val ι (gates g)) x = b.
Proof. by intros [_ H]. Qed.

Lemma not_spec g x b : bit g x b -> gspec g (GateArena.not x) (fun y g' => bit g' y (negb b)).
Proof.
  intros Hx. apply gspec_wf. intros Hwf. apply gspec_get.
  destruct (Nat.eqb_spec x (false_id g)) as [->|_].
  { apply gspec_ret. split; [apply Hwf|]. intros Hb.
    rewrite (bit_agree _ _ _ _ Hb Hx (false_bit g Hwf)). by apply true_bit. }
  destruct (Nat.eqb_spec x (true_id g)) as [->|_].
  { apply gspec_ret. split; [apply Hwf|]. intros Hb.
    rewrite (bit_agree _ _ _ _ Hb Hx (true_bit g Hwf)). by apply false_bit. }
  eapply gspec_bind; [apply gate_at_spec, Hx|]. intros k g' _ _ [-> Hk].
  assert (gspec g (GateArena.add_raw (Not x)) (fun y g' => bit g' y (negb b))).
  { apply add_raw_spec; [constructor; [apply Hx|done]|done|]. intros Hb. simpl.
    by rewrite (bit_value _ _ _ Hx Hb). }
  destruct k as [| |z| | | |]; try done. apply gspec_ret.
  pose proof (operands_lt _ (wf_range _ Hwf) _ _ Hk) as Hz. inversion_clear Hz. split; [done|].
  intros Hb. destruct Hx as [_ Hx]. specialize (Hx Hb).
  rewrite (gval_kind _ _ _ (wf_consistent _ Hwf Hb) Hk) in Hx. simpl in Hx.
  by rewrite <- Hx, negb_involutive.
Qed.

Lemma is_not_of_true k b : GateArena.is_not_of k b = true -> k = Not b.
Proof. destruct k; try done. simpl. by intros ->%Nat.eqb_eq. Qed.

Lemma not_kind_value g x z a b : wf g -> bounded g ->
  gates g !! x = Some (Not z) -> bit g x a -> bit g z b -> a = negb b.
Proof.
  intros Hwf Hb Hk [_ Hx] [_ Hz]. rewrite <- Hx, <- Hz by done.
  by rewrite (gval_kind _ _ _ (wf_consistent _ Hwf Hb) Hk).
Qed.

Lemma is_negation_pair_spec g x y a b : bit g x a -> bit g y b ->
  gspec g (GateArena.is_negation_pair x y)
    (fun n g' => g' = g /\ (n = true -> bounded g -> a = negb b)).
Proof.
  intros Hx Hy. apply gspec_wf. intros Hwf.
  eapply gspec_bind; [apply gate_at_spec, Hx|]. intros k g' _ _ [-> Hk].
  destruct (GateArena.is_not_of k y) eqn:E.
  { apply gspec_ret. split; [done|]. intros _ Hb. apply is_not_of_true in E as ->.
    by apply (not_kind_value g x y). }
  eapply gspec_bind; [apply gate_at_spec, Hy|]. intros k' g' _ _ [-> Hk'].
  apply gspec_ret. split; [done|]. intros ->%is_not_of_true Hb.
  rewrite (not_kind_value g y x b a) by done. by rewrite negb_involutive.
Qed.

Lemma order_pair_cases x y : order_pair x y = (x, y) \/ order_pair x y = (y, x).
Proof. unfold order_pair. case_match; auto. Qed.

Lemma bit_ret g x b b' : bit g x b -> (bounded g -> b = b') -> bit g x b'.
Proof. intros [Hx Hv] H. split; [done|]. intros Hb. rewrite <- H by done. by apply Hv. Qed.

(** Splits the simplification tests of a gate constructor. *)
Ltac gate_tests :=
  repeat match goal with
  | |- gspec _ (if ?c then _ else _) _ => destruct c eqn:?
  | H : _ || _ = true |- _ => apply orb_true_iff in H as [H|H]
  | H : _ && _ = true |- _ => apply andb_true_iff in H as [H ?]
  | H : (_ =? _) = true |- _ => apply Nat.eqb_eq in H; subst
  | H : (_ =? _) = false |- _ => clear H
  end.

(** In a bounded arena: identifies the values of constants and of equal ids. *)
Ltac known_bits Hwf Hb :=
  repeat match goal with
  | H : bit ?g (false_id ?g) ?b |- _ =>
      let E := fresh in pose proof (bit_agree _ _ _ _ Hb H (false_bit g Hwf)) as E; clear H; subst
  | H : bit ?g (true_id ?g) ?b |- _ =>
      let E := fresh in pose proof (bit_agree _ _ _ _ Hb H (true_bit g Hwf)) as E; clear H; subst
  | H : bit ?g ?x ?a, H' : bit ?g ?x ?b |- _ =>
      let E := fresh in pose proof (bit_agree _ _ _ _ Hb H H') as E; clear H; subst
  end.

Ltac bool_cases := repeat match goal with b : bool |- _ => destruct b end; simpl in *; done.

(** A test whose outcome is an operand or a constant. *)
Ltac gate_ret Hwf :=
  apply gspec_ret;
  match goal with
  | |- bit ?g (false_id ?g) _ => apply (bit_ret _ _ _ _ (false_bit _ Hwf))
  | |- bit ?g (true_id ?g) _ => apply (bit_ret _ _ _ _ (true_bit _ Hwf))
  | H : bit ?g ?x _ |- bit ?g ?x _ => apply (bit_ret _ _ _ _ H)
  end;
  let Hb := fresh "Hb" in intros Hb; known_bits Hwf Hb; bool_cases.

Ltac gate_add :=
  apply add_raw_spec;
    [simpl; rewrite ?Forall_cons; repeat split; try apply Forall_nil_2;
       match goal with H : bit _ ?x _ |- ?x < _ => apply H end
    |done
    |let Hb := fresh "Hb" in intros Hb; simpl;
     repeat match goal with H : bit _ ?x _ |- _ => rewrite (bit_value _ _ _ H Hb); clear H end;
     bool_cases].

Ltac ordered x y := unfold GateArena.and, GateArena.or, GateArena.xor;
  destruct (order_pair_cases x y) as [-> | ->].

Lemma and_spec g x y a b : bit g x a -> bit g y b ->
  gspec g (GateArena.and x y) (fun z g' => bit g' z (a && b)).
Proof.
  intros Hx Hy. apply gspec_wf. intros Hwf.
  ordered x y; apply gspec_get; gate_tests; try gate_ret Hwf.
  - eapply gspec_bind; [by apply (is_negation_pair_spec g x y a b)|]. intros n g' _ _ [-> Hn].
    destruct n; [|gate_add]. apply gspec_ret, (bit_ret _ _ _ _ (false_bit _ Hwf)).
    intros Hb. rewrite (Hn eq_refl Hb). by destruct b.
  - eapply gspec_bind; [by apply (is_negation_pair_spec g y x b a)|]. intros n g' _ _ [-> Hn].
    destruct n; [|gate_add]. apply gspec_ret, (bit_ret _ _ _ _ (false_bit _ Hwf)).
    intros Hb. rewrite (Hn eq_refl Hb). by destruct a.
Qed.

Lemma or_spec g x y a b : bit g x a -> bit g y b ->
  gspec g (GateArena.or x y) (fun z g' => bit g' z (a || b)).
Proof.
  intros Hx Hy. apply gspec_wf. intros Hwf.
  ordered x y; apply gspec_get; gate_tests; try gate_ret Hwf.
  - eapply gspec_bind; [by apply (is_negation_pair_spec g x y a b)|]. intros n g' _ _ [-> Hn].
    destruct n; [|gate_add]. apply gspec_ret, (bit_ret _ _ _ _ (true_bit _ Hwf)).
    intros Hb. rewrite (Hn eq_refl Hb). by destruct b.
  - eapply gspec_bind; [by apply (is_negation_pair_spec g y x b a)|]. intros n g' _ _ [-> Hn].
    destruct n; [|gate_add]. apply gspec_ret, (bit_ret _ _ _ _ (true_bit _ Hwf)).
    intros Hb. rewrite (Hn eq_refl Hb). by destruct a.
Qed.

(** [not] of an operand when the other one is the constant true. *)
Lemma not_true_spec g x b c : bit g x b -> (bounded g -> negb b = c) ->
  gspec g (GateArena.not x) (fun z g' => bit g' z c).
Proof.
  intros Hx Hc. eapply gspec_mono; [by apply (not_spec g x b)|].
  intros z g' He _ Hz. eapply bit_ret; [exact Hz|]. intros Hb. apply Hc. by eapply ext_bounded.
Qed.

Lemma xor_spec g x y a b : bit g x a -> bit g y b ->
  gspec g (GateArena.xor x y) (fun z g' => bit g' z (xorb a b)).
Proof.
  intros Hx Hy. apply gspec_wf. intros Hwf.
  ordered x y; apply gspec_get; gate_tests; try gate_ret Hwf; try gate_add.
  all: match goal with H : bit ?g ?z _ |- gspec ?g (GateArena.not ?z) _ =>
         eapply not_true_spec; [exact H|] end;
       intros Hb; known_bits Hwf Hb; bool_cases.
Qed.

Lemma mux_spec g s t f c a b : bit g s c -> bit g t a -> bit g f b ->
  gspec g (GateArena.mux s t f) (fun z g' => bit g' z (if c then a else b)).
Proof.
  intros Hs Ht Hf. apply gspec_wf. intros Hwf. apply gspec_get; gate_tests;
    try gate_ret Hwf; try gate_add.
  eapply not_true_spec; [exact Hs|]. intros Hb; known_bits Hwf Hb; bool_cases.
Qed.
End values.

(** Moves what is known about an arena to an extension of it. *)
Ltac transport He :=
  repeat match type of He with
  | ext ?g _ =>
      match goal with
      | H : bit _ g _ _ |- _ => apply (bit_ext _ _ _ _ _ He) in H
      | H : bits _ g _ _ |- _ => apply (bits_ext _ _ _ _ _ He) in H
      | Hwf : wf g |- _ => clear Hwf
      end
  end.

(** Runs the first operation of a gate program with its specification [lem]. *)
Tactic Notation "gate_step" uconstr(lem) "as" simple_intropattern(z) simple_intropattern(Hz) :=
  let g' := fresh "g" in let He := fresh "He" in let Hwf := fresh "Hwf" in
  eapply gspec_bind; [eapply lem; eauto|]; cbv beta; intros z g' He Hwf Hz; transport He.

(** The last operation. *)
Tactic Notation "gate_last" uconstr(lem) :=
  eapply gspec_mono; [eapply lem; eauto|]; cbv beta; intros ? ? ?He ?Hwf ?Hz.

Section derived.
Context (ι : nat -> bool).
#[local] Abbreviation bit := (bit ι).
#[local] Abbreviation bits := (bits ι).

Lemma xnor_spec g x y a b : bit g x a -> bit g y b ->
  gspec g (GateArena.xnor x y) (fun z g' => bit g' z (eqb a b)).
Proof.
  intros Hx Hy. unfold GateArena.xnor. gate_step xor_spec as z Hz. 
  gate_last not_spec.
  eapply bit_eq; [done|]. by destruct a, b.
Qed.

Lemma implies_spec g x y a b : bit g x a -> bit g y b ->
  gspec g (GateArena.implies x y) (fun z g' => bit g' z (implb a b)).
Proof.
  intros Hx Hy. unfold GateArena.implies. gate_step not_spec as z Hz. gate_last or_spec.
  eapply bit_eq; [done|]. by destruct a, b.
Qed.

Lemma and_many_loop_spec g xs bs out b : bits g xs bs -> bit g out b ->
  gspec g (GateArena.and_many_loop xs out) (fun z g' => bit g' z (b && forallb id bs)).
Proof.
  revert g bs out b. induction xs as [|x xs IH]; intros g bs out b Hxs Hout.
  { apply Forall2_nil_inv_l in Hxs as ->. apply gspec_ret. by rewrite andb_true_r. }
  destruct (bits_cons_inv _ _ _ _ _ Hxs) as (c & cs & -> & Hx & Hrest). simpl.
  gate_step (and_spec ι _ out x) as out' Hout'. apply gspec_gets.
  rewrite andb_assoc. destruct (Nat.eqb_spec out' (false_id g0)) as [->|_]; [|by apply IH].
  apply gspec_ret. eapply bit_ret; [done|]. intros Hb.
  by rewrite (bit_agree _ _ _ _ _ Hb Hout' (false_bit _ _ Hwf)).
Qed.

Lemma and_many_spec g xs bs : bits g xs bs ->
  gspec g (GateArena.and_many xs) (fun z g' => bit g' z (forallb id bs)).
Proof.
  intros Hxs. apply gspec_wf. intros Hwf. apply gspec_gets.
  apply (and_many_loop_spec g xs bs _ true); [done|by apply true_bit].
Qed.

Lemma or_many_loop_spec g xs bs out b : bits g xs bs -> bit g out b ->
  gspec g (GateArena.or_many_loop xs out) (fun z g' => bit g' z (b || existsb id bs)).
Proof.
  revert g bs out b. induction xs as [|x xs IH]; intros g bs out b Hxs Hout.
  { apply Forall2_nil_inv_l in Hxs as ->. apply gspec_ret. by rewrite orb_false_r. }
  destruct (bits_cons_inv _ _ _ _ _ Hxs) as (c & cs & -> & Hx & Hrest). simpl.
  gate_step (or_spec ι _ out x) as out' Hout'. apply gspec_gets.
  rewrite orb_assoc. destruct (Nat.eqb_spec out' (true_id g0)) as [->|_]; [|by apply IH].
  apply gspec_ret. eapply bit_ret; [done|]. intros Hb.
  by rewrite (bit_agree _ _ _ _ _ Hb Hout' (true_bit _ _ Hwf)).
Qed.

Lemma or_many_spec g xs bs : bits g xs bs ->
  gspec g (GateArena.or_many xs) (fun z g' => bit g' z (existsb id bs)).
Proof.
  intros Hxs. apply gspec_wf. intros Hwf. apply gspec_gets.
  apply (or_many_loop_spec g xs bs _ false); [done|by apply false_bit].
Qed.

(** A fresh input reads the next input value. *)
Lemma input_spec g : wf g ->
  wp GateArena.input g (fun z g' => ext g g' /\ wf g' /\ bit g' z (ι (input_count g)) /\
    (bounded g' -> gates g' !! z = Some (Input (input_count g)) /\
                   input_count g' = input_count g + 1)).
Proof.
  intros [Hr Hc Hin]. unfold GateArena.input, wp, mbind, M_bind, GateArena.bump_input.
  set (g0 := {| gates := gates g |}).
  destruct (add_raw_total (Input (input_count g)) g0) as (z & g' & E). rewrite E.
  assert (in_range g0) as Hr0 by (by destruct Hr; split).
  destruct (add_raw_in_range g0 (Input (input_count g)) z g' Hr0 (Forall_nil_2 _) E)
    as (He & Hr' & Hz).
  destruct (add_raw_count _ _ _ _ E) as [Hn _].
  assert (bounded g' -> input_count g' = input_count g + 1 /\
    length (gates g') = length (gates g) + 1 /\ input_count g + 2 <= length (gates g) /\
    consistent g' /\ gates g' !! z = Some (Input (input_count g))) as H.
  { intros Hb. assert (bounded g) as Hbg by (eapply bounded_prefix, Hb; apply He).
    specialize (Hc Hbg). specialize (Hin Hbg). unfold bounded in Hbg.
    assert (u32 (input_count g + 1) = input_count g + 1) as Hu by (apply u32_small; lia).
    simpl in Hn. rewrite Hn, Hu. split; [done|]. split; [|split; [done|]].
    - revert E. unfold GateArena.add_raw. destruct (gate_ids g0 !! _) as [i|] eqn:El.
      + apply (ids_inverse _ Hc), (inputs_below _ Hc) in El. lia.
      + intros [= <- <-]. simpl. by rewrite length_app.
    - apply (add_raw_consistent g0 (Input (input_count g))); try done; simpl; rewrite ?Hu.
      + destruct Hc as [Hf Ht Hi Ho Hib]. split; simpl; try done.
        intros i n H%Hib. rewrite Hu. lia.
      + intros n [= <-]. lia. }
  assert (ext g g') as He'.
  { destruct He as [P F T _]. split; try done. intros Hb. destruct (H Hb) as [-> _]. lia. }
  split_and!; [done| | |].
  - split; [done|intros Hb; by apply H|]. intros Hb. destruct (H Hb) as (-> & -> & ? & _). lia.
  - split; [done|]. intros Hb. destruct (H Hb) as (_ & _ & _ & Hc' & Hl).
    by rewrite (gval_kind _ _ _ _ Hc' Hl).
  - intros Hb. by destruct (H Hb) as (? & _ & _ & _ & ?).
Qed.
End derived.

(** ** A new arena *)

Lemma new_eq : GateArena.new =
  {| gates := [Const false; Const true];
     gate_ids := <[Const true := 1]> (<[Const false := 0]> ∅);
     false_id := 0; true_id := 1; input_count := 0 |}.
Proof. vm_compute. reflexivity. Qed.

Lemma new_wf : wf GateArena.new.
Proof.
  rewrite new_eq. split; [| |done].
  - split; simpl; try lia.
    + intros k x. rewrite !lookup_insert. repeat case_decide; intros [= <-]; lia.
    + intros [|[|i]] k; simpl; intros [= <-]; constructor.
  - intros _. split; try done; simpl.
    + intros k x. rewrite !lookup_insert. repeat case_decide; subst;
        destruct x as [|[|x]]; simpl; naive_solver.
    + intros [|[|i]] k; simpl; intros [= <-]; constructor.
    + intros [|[|i]] n; done.
Qed.

(** A small arena for the concrete instances: the exclusive or of two inputs is
    gate 4. *)
Definition sample_steps : M GateArena GateId :=
  x ← GateArena.input; y ← GateArena.input; GateArena.xor x y.

Definition sample_gates : GateArena := (sample_steps GateArena.new).2.

Lemma sample_gates_wf : wf sample_gates.
Proof.
  assert (wp sample_steps GateArena.new (fun _ g => wf g)) as H.
  { unfold sample_steps. apply wp_bind. eapply wp_mono; [apply (input_spec (fun _ => false)), new_wf|].
    intros x g1 (_ & Hwf1 & Hx & _). apply wp_bind.
    eapply wp_mono; [by apply (input_spec (fun _ => false))|]. intros y g2 (He & Hwf2 & Hy & _).
    eapply wp_mono; [apply (xor_spec (fun _ => false) g2 x y false false); [by eapply bit_ext|done|done]|].
    by intros z g3 (_ & ? & _). }
  unfold wp in H. unfold sample_gates. by destruct (sample_steps GateArena.new) as [[]].
Qed.
