(* ===== verification/Circuits.v ===== *)
(** * Bit-vector circuits ([circuits.rs])

    Every bit-vector operation as a program over the gate arena; bits are least
    significant first.  Loops are written as the recursions they are, in the
    order the source creates the gates; slices and indexing panic out of range. *)
From S2P Require Import Prelude Bits Bytes Gates.

Abbreviation Bits := (list GateId) (only parsing).
Abbreviation G := (M GateArena) (only parsing).

Module Circuits.
Definition zero (width : nat) (g : GateArena) : list GateId := replicate width (false_id g).
Definition ones (width : nat) (g : GateArena) : list GateId := replicate width (true_id g).

Definition bitwise_not (x : list GateId) : M GateArena (list GateId) := mapM GateArena.not x.

Definition bitwise_binary (f : GateId -> GateId -> M GateArena GateId) (a b : list GateId)
    : M GateArena (list GateId) := mapM (fun p => f p.1 p.2) (zip a b).

Definition bv_and := bitwise_binary GateArena.and.
Definition bv_or := bitwise_binary GateArena.or.
Definition bv_xor := bitwise_binary GateArena.xor.

(** ** Addition and subtraction *)

Fixpoint adder (l : list (GateId * GateId)) (carry : GateId)
    : M GateArena (list GateId * GateId) :=
  match l with
  | [] => mret ([], carry)
  | (x, y) :: l =>
      axb ← GateArena.xor x y;
      sum ← GateArena.xor axb carry;
      xy ← GateArena.and x y;
      c_and_axb ← GateArena.and carry axb;
      carry ← GateArena.or xy c_and_axb;
      '(out, carry) ← adder l carry;
      mret (sum :: out, carry)
  end.

Definition add_with_carry (a b : list GateId) (carry_in : GateId)
    : M GateArena (list GateId * GateId) := adder (zip a b) carry_in.

Definition add (a b : list GateId) : M GateArena (list GateId) :=
  carry_in ← gets false_id;
  r ← add_with_carry a b carry_in; mret r.1.

Definition sub (a b : list GateId) : M GateArena (list GateId) :=
  not_b ← bitwise_not b;
  carry_in ← gets true_id;
  r ← add_with_carry a not_b carry_in; mret r.1.

Definition neg (x : list GateId) : M GateArena (list GateId) :=
  zeros ← gets (zero (length x));
  sub zeros x.

(** ** Multiplication *)

(** One partial product: [partial[i + shift] = a[i] & sel]. *)
Fixpoint mul_partial (a : list GateId) (i shift : nat) (sel : GateId) (width : nat)
    (partial : list GateId) : M GateArena (list GateId) :=
  match a with
  | [] => mret partial
  | abit :: a =>
      let out_index := i + shift in
      if out_index <? width then
        x ← GateArena.and abit sel;
        partial ← lift (set_index partial out_index x);
        mul_partial a (S i) shift sel width partial
      else mul_partial a (S i) shift sel width partial
  end.

Fixpoint mul_rows (a b : list GateId) (shift width : nat) (acc : list GateId)
    : M GateArena (list GateId) :=
  match b with
  | [] => mret acc
  | sel :: b =>
      partial ← gets (zero width);
      partial ← mul_partial a 0 shift sel width partial;
      acc ← add acc partial;
      mul_rows a b (S shift) width acc
  end.

Definition mul_width (a b : list GateId) (width : nat) : M GateArena (list GateId) :=
  acc ← gets (zero width); mul_rows a b 0 width acc.

Definition mul (a b : list GateId) : M GateArena (list GateId) := mul_width a b (length a).

Definition const_bit (bytes : list Z) (bit : nat) : bool :=
  match bytes !! (bit / 8) with
  | Some byte => negb (Z.land (Z.shiftr byte (Z.of_nat (bit mod 8))) 1 =? 0)%Z
  | None => false
  end.

Definition const_is_zero (bytes : list Z) (width : nat) : bool :=
  forallb (fun bit => negb (const_bit bytes bit)) (seq 0 width).
Definition const_is_one (bytes : list Z) (width : nat) : bool :=
  const_bit bytes 0 && forallb (fun bit => negb (const_bit bytes bit)) (seq 1 (width - 1)).
Definition const_is_all_ones (bytes : list Z) (width : nat) : bool :=
  forallb (fun bit => const_bit bytes bit) (seq 0 width).

(** The shift-and-add loop over the set bits of the constant. *)
Fixpoint mul_const_loop (value : list GateId) (constant : list Z) (shifts : list nat)
    (acc : option (list GateId)) : M GateArena (option (list GateId)) :=
  match shifts with
  | [] => mret acc
  | shift :: shifts =>
      if negb (const_bit constant shift) then mul_const_loop value constant shifts acc
      else
        let width := length value in
        partial ← gets (zero width);
        partial ← (if shift <? width
                   then lift (src ← slice value 0 (width - shift);
                              copy_from_slice partial shift width src)
                   else mret partial);
        match acc with
        | Some current =>
            acc ← add current partial; mul_const_loop value constant shifts (Some acc)
        | None => mul_const_loop value constant shifts (Some partial)
        end
  end.

Definition mul_const (value : list GateId) (constant : list Z) : M GateArena (list GateId) :=
  let width := length value in
  if const_is_zero constant width then gets (zero width)
  else if const_is_one constant width then mret value
  else if const_is_all_ones constant width then neg value
  else
    acc ← mul_const_loop value constant (seq 0 width) None;
    match acc with Some acc => mret acc | None => gets (zero width) end.

(** ** Comparison *)

Definition eq_bits (a b : list GateId) : M GateArena GateId :=
  xnor ← bitwise_binary GateArena.xnor a b; GateArena.and_many xnor.

Definition is_zero (x : list GateId) : M GateArena GateId :=
  any ← GateArena.or_many x; GateArena.not any.

Fixpoint ult_loop (l : list (GateId * GateId)) (lt eq : GateId) : M GateArena GateId :=
  match l with
  | [] => mret lt
  | (x, y) :: l =>
      not_x ← GateArena.not x;
      x_lt_y ← GateArena.and not_x y;
      eq_and_lt ← GateArena.and eq x_lt_y;
      lt ← GateArena.or lt eq_and_lt;
      same ← GateArena.xnor x y;
      eq ← GateArena.and eq same;
      ult_loop l lt eq
  end.

Definition ult (a b : list GateId) : M GateArena GateId :=
  lt ← gets false_id;
  eq ← gets true_id;
  ult_loop (reverse (zip a b)) lt eq.

Definition ule (a b : list GateId) : M GateArena GateId :=
  b_lt_a ← ult b a; GateArena.not b_lt_a.

Definition slt (a b : list GateId) : M GateArena GateId :=
  sign_a ← lift (last_expect a);
  sign_b ← lift (last_expect b);
  signs_differ ← GateArena.xor sign_a sign_b;
  unsigned_lt ← ult a b;
  GateArena.mux signs_differ sign_a unsigned_lt.

Definition sle (a b : list GateId) : M GateArena GateId :=
  b_lt_a ← slt b a; GateArena.not b_lt_a.

(** ** Shifts: a barrel of stages, one per bit of the amount *)

Definition mux_bits (sel : GateId) (t f : list GateId) : M GateArena (list GateId) :=
  mapM (fun p => GateArena.mux sel p.1 p.2) (zip t f).

(** [1usize.checked_shl(stage as u32).unwrap_or(usize::MAX)] *)
Definition stage_shift (stage : nat) : Z :=
  if stage <? 64 then (2 ^ Z.of_nat stage)%Z else usize_max.

Definition shl_stage (out : list GateId) (stage : nat) (g : GateArena) : res (list GateId) :=
  let n := length out in
  let shift := stage_shift stage in
  let shifted := replicate n (false_id g) in
  if (shift <? Z.of_nat n)%Z then
    let shift := Z.to_nat shift in
    src ← slice out 0 (n - shift); copy_from_slice shifted shift n src
  else Ok shifted.

Definition lshr_stage (out : list GateId) (stage : nat) (g : GateArena) : res (list GateId) :=
  let n := length out in
  let shift := stage_shift stage in
  let shifted := replicate n (false_id g) in
  if (shift <? Z.of_nat n)%Z then
    let shift := Z.to_nat shift in
    src ← slice out shift n; copy_from_slice shifted 0 (n - shift) src
  else Ok shifted.

Definition ashr_stage (out : list GateId) (stage : nat) (g : GateArena) : res (list GateId) :=
  let n := length out in
  let shift := stage_shift stage in
  sign ← last_expect out;
  let shifted := replicate n sign in
  if (shift <? Z.of_nat n)%Z then
    let shift := Z.to_nat shift in
    src ← slice out shift n; copy_from_slice shifted 0 (n - shift) src
  else Ok shifted.

Fixpoint shift_stages (stage_op : list GateId -> nat -> GateArena -> res (list GateId))
    (amount : list GateId) (stage : nat) (out : list GateId) : M GateArena (list GateId) :=
  match amount with
  | [] => mret out
  | sel :: amount =>
      g ← get;
      shifted ← lift (stage_op out stage g);
      out ← mux_bits sel shifted out;
      shift_stages stage_op amount (S stage) out
  end.

Definition shl (value amount : list GateId) := shift_stages shl_stage amount 0 value.
Definition lshr (value amount : list GateId) := shift_stages lshr_stage amount 0 value.
Definition ashr (value amount : list GateId) := shift_stages ashr_stage amount 0 value.

(** ** Structure: no gates *)

Definition concat (high low : list GateId) : list GateId := low ++ high.

Definition extract (value : list GateId) (high low : nat) : res (list GateId) :=
  slice value low (high + 1).

Definition zext (g : GateArena) (value : list GateId) (extra : nat) : list GateId :=
  value ++ replicate extra (false_id g).

Definition sext (value : list GateId) (extra : nat) : res (list GateId) :=
  sign ← last_expect value; Ok (value ++ replicate extra sign).

Fixpoint repeat (value : list GateId) (count : nat) : list GateId :=
  match count with O => [] | S count => value ++ repeat value count end.

(** [% n] panics on an empty vector. *)
Definition rotate_left (value : list GateId) (amount : nat) : res (list GateId) :=
  let n := length value in
  if n =? 0 then Panic
  else let amount := amount mod n in
       mapM (fun i => index value ((i + n - amount) mod n)) (seq 0 n).

Definition rotate_right (value : list GateId) (amount : nat) : res (list GateId) :=
  let n := length value in
  if n =? 0 then Panic
  else let amount := amount mod n in
       mapM (fun i => index value ((i + amount) mod n)) (seq 0 n).

(** ** Division: restoring, from the top bit *)

(** [for i in (0..n).rev()]: [k] iterations are left. *)
Fixpoint udiv_urem_loop (dividend divisor : list GateId) (k : nat) (rem quo : list GateId)
    : M GateArena (list GateId * list GateId) :=
  match k with
  | O => mret (rem, quo)
  | S i =>
      let n := length dividend in
      f ← gets false_id;
      top ← lift (index dividend i);
      shifted ← lift (set_index (replicate n f) 0 top);
      rem ← (if 1 <? n
             then lift (src ← slice rem 0 (n - 1); copy_from_slice shifted 1 n src)
             else mret shifted);
      ge ← ule divisor rem;
      rem_minus_divisor ← sub rem divisor;
      rem ← mux_bits ge rem_minus_divisor rem;
      quo ← lift (set_index quo i ge);
      udiv_urem_loop dividend divisor i rem quo
  end.

Definition udiv_urem (dividend divisor : list GateId)
    : M GateArena (list GateId * list GateId) :=
  let n := length dividend in
  rem ← gets (zero n);
  quo ← gets (zero n);
  '(rem, quo) ← udiv_urem_loop dividend divisor n rem quo;
  divisor_zero ← is_zero divisor;
  all_ones ← gets (ones n);
  quotient ← mux_bits divisor_zero all_ones quo;
  remainder ← mux_bits divisor_zero dividend rem;
  mret (quotient, remainder).

Definition abs_bits (x : list GateId) : M GateArena (list GateId) :=
  sign ← lift (last_expect x);
  neg_x ← neg x;
  mux_bits sign neg_x x.

Definition sdiv (a b : list GateId) : M GateArena (list GateId) :=
  sign_a ← lift (last_expect a);
  sign_b ← lift (last_expect b);
  abs_a ← abs_bits a;
  abs_b ← abs_bits b;
  '(q, _) ← udiv_urem abs_a abs_b;
  neg_q ← neg q;
  signs_differ ← GateArena.xor sign_a sign_b;
  mux_bits signs_differ neg_q q.

Definition srem (a b : list GateId) : M GateArena (list GateId) :=
  sign_a ← lift (last_expect a);
  abs_a ← abs_bits a;
  abs_b ← abs_bits b;
  '(_, r) ← udiv_urem abs_a abs_b;
  neg_r ← neg r;
  mux_bits sign_a neg_r r.

Definition smod (a b : list GateId) : M GateArena (list GateId) :=
  sign_a ← lift (last_expect a);
  sign_b ← lift (last_expect b);
  abs_a ← abs_bits a;
  abs_b ← abs_bits b;
  '(_, u) ← udiv_urem abs_a abs_b;
  u_zero ← is_zero u;
  neg_u ← neg u;
  b_minus_u ← sub b u;
  b_plus_u ← add b u;
  when_b_nonneg ← mux_bits sign_a b_minus_u u;
  when_b_neg ← mux_bits sign_a neg_u b_plus_u;
  nonzero_result ← mux_bits sign_b when_b_neg when_b_nonneg;
  mux_bits u_zero u nonzero_result.

(** ** Overflow predicates *)

Definition uadd_overflow (a b : list GateId) : M GateArena GateId :=
  carry_in ← gets false_id;
  r ← add_with_carry a b carry_in; mret r.2.

Definition usub_overflow (a b : list GateId) : M GateArena GateId := ult a b.

Definition sadd_overflow (a b : list GateId) : M GateArena GateId :=
  sum ← add a b;
  sa ← lift (last_expect a);
  sb ← lift (last_expect b);
  ss ← lift (last_expect sum);
  same_ab ← GateArena.xnor sa sb;
  diff_sum ← GateArena.xor sa ss;
  GateArena.and same_ab diff_sum.

Definition ssub_overflow (a b : list GateId) : M GateArena GateId :=
  diff ← sub a b;
  sa ← lift (last_expect a);
  sb ← lift (last_expect b);
  sd ← lift (last_expect diff);
  diff_ab ← GateArena.xor sa sb;
  diff_res ← GateArena.xor sa sd;
  GateArena.and diff_ab diff_res.

Definition umul_overflow (a b : list GateId) : M GateArena GateId :=
  let n := length a in
  f ← gets false_id;
  let aw := a ++ replicate n f in
  let bw := b ++ replicate n f in
  product ← mul_width aw bw (n * 2);
  high ← lift (slice product n (length product));
  GateArena.or_many high.

Definition smul_overflow (a b : list GateId) : M GateArena GateId :=
  let n := length a in
  aw ← lift (sext a n);
  bw ← lift (sext b n);
  product ← mul_width aw bw (n * 2);
  low ← lift (slice product 0 n);
  sign_extended_low ← lift (sext low n);
  equal ← eq_bits product sign_extended_low;
  GateArena.not equal.

(** [min[n - 1] = true]: [n - 1] underflows, hence panics, on an empty vector. *)
Definition min_bits (n : nat) (g : GateArena) : res (list GateId) :=
  set_index (replicate n (false_id g)) (n - 1) (true_id g).

Definition neg_overflow (x : list GateId) : M GateArena GateId :=
  g ← get;
  min ← lift (min_bits (length x) g);
  eq_bits x min.

Definition sdiv_overflow (a b : list GateId) : M GateArena GateId :=
  let n := length a in
  g ← get;
  min ← lift (min_bits n g);
  let minus_one := replicate n (true_id g) in
  a_min ← eq_bits a min;
  b_minus_one ← eq_bits b minus_one;
  GateArena.and a_min b_minus_one.
End Circuits.
