(* ===== verification/CircuitsFacts.v ===== *)
(** * Circuits compute the bit-vector operations

    [num ι g xs w z] says the gate vector [xs] holds the [w]-bit number [z].
    Each circuit, run on vectors that hold its operands, returns a vector that
    holds the value [Smt.v] gives the operation (or a gate that holds the
    predicate), extends the arena, and never panics. *)
From S2P Require Import Prelude Bits Smt SmtFacts Bytes BytesFacts Gates GatesFacts Circuits.

#[local] Open Scope Z_scope.

Section num.
Context (ι : nat -> bool).

Definition num (g : GateArena) (xs : list GateId) (w : nat) (z : Z) : Prop :=
  0 <= z < pow2 w /\ bits ι g xs (zb w z).

Lemma num_ext g g' xs w z : ext g g' -> num g xs w z -> num g' xs w z.
Proof. intros He [? H]. split; [done|]. by eapply bits_ext. Qed.

Lemma num_length g xs w z : num g xs w z -> length xs = w.
Proof. intros [_ H]. by rewrite (bits_length _ _ _ _ H), length_zb. Qed.

Lemma num_of_bits g xs l : bits ι g xs l -> num g xs (length l) (bz l).
Proof. intros H. split; [apply bz_bound|]. by rewrite zb_bz. Qed.

(** A vector whose bits are those of [z] holds [z]. *)
Lemma num_bits g xs l w z : bits ι g xs l -> length l = w -> 0 <= z < pow2 w ->
  (forall i, (i < w)%nat -> default false (l !! i) = Z.testbit z (Z.of_nat i)) ->
  num g xs w z.
Proof. intros H Hl Hz Hb. split; [done|]. by rewrite <- (zb_ext l w z). Qed.

Lemma num_wrap g xs w z : bits ι g xs (zb w z) -> num g xs w (wrap w z).
Proof. intros H. split; [apply wrap_bound|]. by rewrite zb_wrap. Qed.

Lemma num_eq g xs w z z' : num g xs w z -> z = z' -> num g xs w z'.
Proof. by intros H <-. Qed.

Lemma num_false g w : wf g -> num g (replicate w (false_id g)) w 0.
Proof.
  intros Hwf. split; [pose proof (pow2_pos w); lia|]. rewrite zb_0.
  apply Forall2_replicate. by apply false_bit.
Qed.

Lemma num_true g w : wf g -> num g (replicate w (true_id g)) w (pow2 w - 1).
Proof.
  intros Hwf. pose proof (pow2_pos w). split; [lia|].
  replace (zb w (pow2 w - 1)) with (zb w (-1)).
  - rewrite zb_ones. apply Forall2_replicate. by apply true_bit.
  - apply zb_eq. replace (pow2 w - 1) with (-1 + 1 * pow2 w) by lia. by rewrite Z.mod_add by lia.
Qed.

Lemma num_lookup g xs w z i : num g xs w z -> (i < w)%nat ->
  exists x, xs !! i = Some x /\ bit ι g x (Z.testbit z (Z.of_nat i)).
Proof.
  intros [_ H] Hi. pose proof (lookup_zb_lt w z i Hi) as Hl.
  destruct (Forall2_lookup_r _ _ _ _ _ H Hl) as (x & ? & ?). eauto.
Qed.

(** The sign gate. *)
Lemma num_last g xs w z : (0 < w)%nat -> num g xs w z ->
  exists s, last_expect xs = Ok s /\ bit ι g s (msb w z).
Proof.
  intros Hw H. destruct (num_lookup _ _ _ _ (w - 1) H) as (s & E & Hs); [lia|].
  exists s. unfold last_expect. rewrite last_lookup, (num_length _ _ _ _ H).
  replace (Nat.pred w) with (w - 1)%nat by lia. rewrite E. split; [done|].
  eapply bit_eq; [done|]. unfold msb. f_equal. lia.
Qed.
End num.

Ltac transport He ::=
  repeat match type of He with
  | ext ?g _ =>
      match goal with
      | H : bit _ g _ _ |- _ => apply (bit_ext _ _ _ _ _ He) in H
      | H : bits _ g _ _ |- _ => apply (bits_ext _ _ _ _ _ He) in H
      | H : num _ g _ _ _ |- _ => apply (num_ext _ _ _ _ _ _ He) in H
      | Hwf : wf g |- _ => clear Hwf
      end
  end.

(** Brings the well-formedness of the current arena into the context. *)
Ltac get_wf Hwf := apply gspec_wf; intros Hwf.

(** *** Lifted computations *)

Lemma gspec_lift {A B} g (r : res A) a (k : A -> M GateArena B) R :
  r = Ok a -> gspec g (k a) R -> gspec g (lift r ≫= k) R.
Proof. by intros ->. Qed.

Section maps.
Context (ι : nat -> bool).
#[local] Abbreviation bit := (bit ι).
#[local] Abbreviation bits := (bits ι).

(** A gate operation applied to each element of a vector. *)
Lemma mapM_spec (f : GateId -> M GateArena GateId) (fb : bool -> bool) :
  (forall g x b, bit g x b -> gspec g (f x) (fun y g' => bit g' y (fb b))) ->
  forall xs g bs, bits g xs bs -> gspec g (mapM f xs) (fun ys g' => bits g' ys (fb <$> bs)).
Proof.
  intros Hf xs. induction xs as [|x xs IH]; intros g bs H.
  { apply Forall2_nil_inv_l in H as ->. apply gspec_ret. constructor. }
  destruct (bits_cons_inv _ _ _ _ _ H) as (b & bs' & -> & Hx & Hxs). clear H. simpl.
  gate_step Hf as y Hy. gate_step IH as ys Hys. apply gspec_ret. by constructor.
Qed.

(** Pairs of gates and their bits. *)
Definition bits2 (g : GateArena) (ps : list (GateId * GateId)) (bs : list (bool * bool)) : Prop :=
  Forall2 (fun p b => bit g p.1 b.1 /\ bit g p.2 b.2) ps bs.

Lemma bits2_ext g g' ps bs : ext g g' -> bits2 g ps bs -> bits2 g' ps bs.
Proof.
  intros He H. eapply Forall2_impl; [exact H|]. intros p b [? ?].
  split; by eapply bit_ext.
Qed.

Lemma bits2_zip g xs ys bs cs : bits g xs bs -> bits g ys cs -> bits2 g (zip xs ys) (zip bs cs).
Proof.
  intros H. revert ys cs. induction H as [|x b xs bs Hx H IH]; intros ys cs Hy; [constructor|].
  destruct Hy as [|y c ys cs Hy Hys]; [constructor|]. simpl. constructor; [done|]. by apply IH.
Qed.

Lemma bits2_cons_inv g p ps bs : bits2 g (p :: ps) bs ->
  exists b c bs', bs = (b, c) :: bs' /\ bit g p.1 b /\ bit g p.2 c /\ bits2 g ps bs'.
Proof. intros ([b c] & bs' & [? ?] & ? & ->)%Forall2_cons_inv_l. eauto 10. Qed.

Lemma fmap_zip {A B C} (h : A -> B -> C) l k :
  (fun p => h p.1 p.2) <$> zip l k = zip_with h l k.
Proof. revert k. induction l as [|x l IH]; intros [|y k]; try done. simpl. by rewrite <- IH. Qed.

Lemma bitwise_binary_spec (f : GateId -> GateId -> M GateArena GateId) (fb : bool -> bool -> bool) :
  (forall g x y a b, bit g x a -> bit g y b -> gspec g (f x y) (fun z g' => bit g' z (fb a b))) ->
  forall xs ys g bs cs, bits g xs bs -> bits g ys cs ->
    gspec g (Circuits.bitwise_binary f xs ys) (fun zs g' => bits g' zs (zip_with fb bs cs)).
Proof.
  intros Hf xs ys g bs cs Hx Hy. pose proof (bits2_zip _ _ _ _ _ Hx Hy) as H. clear Hx Hy.
  replace (zip_with fb bs cs) with ((fun p => fb p.1 p.2) <$> zip bs cs)
    by apply fmap_zip.
  unfold Circuits.bitwise_binary. revert g H. generalize (zip xs ys), (zip bs cs).
  intros ps. induction ps as [|p ps IH]; intros qs g H.
  { apply Forall2_nil_inv_l in H as ->. apply gspec_ret. constructor. }
  destruct (bits2_cons_inv _ _ _ _ H) as (b & c & qs' & -> & Hb & Hc & Hps). clear H. simpl.
  gate_step Hf as z Hz. apply (bits2_ext _ _ _ _ He) in Hps.
  gate_step IH as zs Hzs. apply gspec_ret. by constructor.
Qed.
End maps.

Section arithmetic.
Context (ι : nat -> bool).
#[local] Abbreviation bit := (bit ι).
#[local] Abbreviation bits := (bits ι).
#[local] Abbreviation num := (num ι).

(** *** Bitwise operations *)

Lemma bitwise_not_spec g xs w x : num g xs w x ->
  gspec g (Circuits.bitwise_not xs) (fun r g' => num g' r w (bvnot w x)).
Proof.
  intros [Hx H]. eapply gspec_mono; [eapply (mapM_spec ι _ negb), H; intros; by apply not_spec|].
  intros r g' _ _ Hr. unfold bvnot. apply (num_bits _ _ _ _ _ _ Hr).
  - by rewrite length_fmap, length_zb.
  - lia.
  - intros i Hi. rewrite list_lookup_fmap, lookup_zb_lt by done. simpl.
    replace (pow2 w - 1 - x) with (Z.ldiff (Z.ones (Z.of_nat w)) x).
    + rewrite Z.ldiff_spec, Z.ones_spec_low by lia. done.
    + rewrite <- Z.sub_nocarry_ldiff.
      * rewrite Z.ones_equiv. lia.
      * apply Z.bits_inj'. intros j Hj. rewrite Z.ldiff_spec, Z.bits_0.
        destruct (decide (j < Z.of_nat w)).
        -- rewrite Z.ones_spec_low by lia. apply andb_false_r.
        -- by rewrite (testbit_high w x) by lia.
Qed.

Lemma bitwise_spec f fb fz g xs ys w x y :
  (forall g x y a b, bit g x a -> bit g y b -> gspec g (f x y) (fun z g' => bit g' z (fb a b))) ->
  (forall a b i, Z.testbit (fz a b) i = fb (Z.testbit a i) (Z.testbit b i)) ->
  (0 <= x < pow2 w -> 0 <= y < pow2 w -> 0 <= fz x y < pow2 w) ->
  num g xs w x -> num g ys w y ->
  gspec g (Circuits.bitwise_binary f xs ys) (fun r g' => num g' r w (fz x y)).
Proof.
  intros Hf Hfz Hb [Hx Hxs] [Hy Hys].
  eapply gspec_mono; [by eapply (bitwise_binary_spec ι f fb)|].
  intros r g' _ _ Hr. apply (num_bits _ _ _ _ _ _ Hr); auto.
  - rewrite length_zip_with, !length_zb. lia.
  - intros i Hi. rewrite lookup_zip_with, !lookup_zb_lt by done. simpl. by rewrite Hfz.
Qed.

Lemma bitwise_and_spec g xs ys w x y : num g xs w x -> num g ys w y ->
  gspec g (Circuits.bv_and xs ys) (fun r g' => num g' r w (Z.land x y)).
Proof.
  apply (bitwise_spec _ andb); [intros; by apply and_spec|apply Z.land_spec|].
  intros. by apply land_bound.
Qed.

Lemma bitwise_or_spec g xs ys w x y : num g xs w x -> num g ys w y ->
  gspec g (Circuits.bv_or xs ys) (fun r g' => num g' r w (Z.lor x y)).
Proof.
  apply (bitwise_spec _ orb); [intros; by apply or_spec|apply Z.lor_spec|].
  intros. by apply lor_bound.
Qed.

Lemma bitwise_xor_spec g xs ys w x y : num g xs w x -> num g ys w y ->
  gspec g (Circuits.bv_xor xs ys) (fun r g' => num g' r w (Z.lxor x y)).
Proof.
  apply (bitwise_spec _ xorb); [intros; by apply xor_spec|apply Z.lxor_spec|].
  intros. by apply lxor_bound.
Qed.

(** *** Addition *)

Lemma full_adder (x y c : bool) :
  Z.b2z x + Z.b2z y + Z.b2z c
  = Z.b2z (xorb (xorb x y) c) + 2 * Z.b2z ((x && y) || (c && xorb x y)).
Proof. by destruct x, y, c. Qed.

Lemma adder_spec ps : forall g bs c carry, bits2 ι g ps bs -> bit g carry c ->
  let total := bz bs.*1 + bz bs.*2 + Z.b2z c in
  gspec g (Circuits.adder ps carry) (fun r g' =>
    bits g' r.1 (zb (length bs) total) /\ bit g' r.2 (Z.testbit total (Z.of_nat (length bs)))).
Proof.
  induction ps as [|[px py] ps IH]; intros g bs c carry H Hc total.
  { apply Forall2_nil_inv_l in H as ->. apply gspec_ret. split; [constructor|].
    eapply bit_eq; [done|]. by destruct c. }
  destruct (bits2_cons_inv _ _ _ _ _ H) as (x & y & bs' & -> & Hx & Hy & Hps). clear H.
  set (c' := (x && y) || (c && xorb x y)).
  assert (total = Z.b2z (xorb (xorb x y) c) + 2 * (bz bs'.*1 + bz bs'.*2 + Z.b2z c')) as Ht.
  { subst total c'. rewrite !fmap_cons. cbn [fst snd bz]. pose proof (full_adder x y c). lia. }
  clearbody total. simpl in Hx, Hy. cbn [Circuits.adder].
  gate_step (xor_spec ι _ px py) as axb Haxb. apply (bits2_ext _ _ _ _ _ He) in Hps.
  gate_step (xor_spec ι _ axb carry) as s Hs. apply (bits2_ext _ _ _ _ _ He0) in Hps.
  gate_step (and_spec ι _ px py) as xy Hxy. apply (bits2_ext _ _ _ _ _ He1) in Hps.
  gate_step (and_spec ι _ carry axb) as ca Hca. apply (bits2_ext _ _ _ _ _ He2) in Hps.
  gate_step (or_spec ι _ xy ca) as carry' Hcarry'. apply (bits2_ext _ _ _ _ _ He3) in Hps.
  gate_step IH as r Hr. destruct r as [out cout]. destruct Hr as [Hout Hcout]. simpl in *.
  apply gspec_ret. simpl.
  rewrite Ht. split.
  - cbn [length zb]. rewrite odd_b2z_2, div2_b2z_2. by constructor.
  - rewrite Nat2Z.inj_succ, Z.add_comm, Z.testbit_succ_r by lia. done.
Qed.

Lemma add_with_carry_spec g xs ys w x y c carry : num g xs w x -> num g ys w y -> bit g carry c ->
  gspec g (Circuits.add_with_carry xs ys carry) (fun r g' =>
    num g' r.1 w (wrap w (x + y + Z.b2z c)) /\
    bit g' r.2 (Z.testbit (x + y + Z.b2z c) (Z.of_nat w))).
Proof.
  intros [Hx Hxs] [Hy Hys] Hc. pose proof (bits2_zip _ _ _ _ _ _ Hxs Hys) as H.
  eapply gspec_mono; [by apply (adder_spec _ _ _ c carry H)|]. cbv beta zeta.
  intros r g' _ _ [H1 H2].
  assert (length (zip (zb w x) (zb w y)) = w) as Hl
    by (rewrite length_zip_with, !length_zb; lia).
  rewrite Hl in *. rewrite fst_zip, snd_zip in * by (rewrite !length_zb; lia).
  rewrite !bz_zb_small in * by done. split; [by apply num_wrap|done].
Qed.

Lemma add_spec g xs ys w x y : num g xs w x -> num g ys w y ->
  gspec g (Circuits.add xs ys) (fun r g' => num g' r w (bvadd w x y)).
Proof.
  intros Hx Hy. get_wf Hwf. pose proof (false_bit ι g Hwf). apply gspec_gets.
  gate_step (add_with_carry_spec _ xs ys w x y false (false_id g)) as r Hr.
  apply gspec_ret. eapply num_eq; [apply Hr|]. unfold bvadd. f_equal. simpl. lia.
Qed.

Lemma uadd_overflow_spec g xs ys w x y : (0 < w)%nat -> num g xs w x -> num g ys w y ->
  gspec g (Circuits.uadd_overflow xs ys) (fun r g' => bit g' r (bvuaddo w x y)).
Proof.
  intros Hw Hx Hy. get_wf Hwf. pose proof (false_bit ι g Hwf). apply gspec_gets.
  gate_step (add_with_carry_spec _ xs ys w x y false (false_id g)) as r Hr.
  apply gspec_ret. eapply bit_eq; [apply Hr|]. destruct Hx, Hy.
  rewrite bvuaddo_carry by done. f_equal. simpl. lia.
Qed.

Lemma sub_spec g xs ys w x y : num g xs w x -> num g ys w y ->
  gspec g (Circuits.sub xs ys) (fun r g' => num g' r w (bvsub w x y)).
Proof.
  intros Hx Hy. unfold Circuits.sub. gate_step bitwise_not_spec as ny Hny. apply gspec_gets.
  pose proof (true_bit ι g0 Hwf).
  gate_step (add_with_carry_spec _ xs ny w x _ true (true_id g0)) as r Hr.
  apply gspec_ret. eapply num_eq; [apply Hr|]. unfold bvsub, bvnot. simpl.
  replace (x + (pow2 w - 1 - y) + 1) with (x - y + 1 * pow2 w) by lia. apply wrap_add_mul.
Qed.

Lemma neg_spec g xs w x : num g xs w x ->
  gspec g (Circuits.neg xs) (fun r g' => num g' r w (bvneg w x)).
Proof.
  intros Hx. get_wf Hwf. apply gspec_gets. unfold Circuits.zero. rewrite (num_length _ _ _ _ _ Hx).
  eapply gspec_mono; [eapply sub_spec; [by apply num_false|exact Hx]|]. done.
Qed.
End arithmetic.

(** *** List surgery on numbers *)

Lemma set_index_ok {A} (l : list A) i x : (i < length l)%nat -> set_index l i x = Ok (<[i := x]> l).
Proof. intros H. unfold set_index. by rewrite ltb_t. Qed.

Lemma slice_ok {A} (l : list A) lo hi : (lo <= hi <= length l)%nat ->
  slice l lo hi = Ok (take (hi - lo) (drop lo l)).
Proof. intros H. unfold slice. by rewrite !leb_t by lia. Qed.

Lemma copy_from_slice_ok {A} (l src : list A) lo hi :
  (lo <= hi <= length l)%nat -> length src = (hi - lo)%nat ->
  copy_from_slice l lo hi src = Ok (take lo l ++ src ++ drop hi l).
Proof.
  intros H Hs. unfold copy_from_slice. rewrite !leb_t, Hs by lia. by rewrite Nat.eqb_refl.
Qed.

Lemma zb_insert w k P b : (k < w)%nat -> Z.testbit P (Z.of_nat k) = false ->
  <[k := b]> (zb w P) = zb w (P + Z.b2z b * pow2 k).
Proof.
  intros Hk HP. apply zb_ext; [by rewrite length_insert, length_zb|]. intros i Hi.
  assert (P + Z.b2z b * pow2 k = Z.lor P (Z.b2z b * pow2 k)) as ->.
  { rewrite Z.add_nocarry_lxor, Z.lxor_lor; [done| |];
      (apply Z.bits_inj'; intros j Hj; rewrite Z.land_spec, Z.bits_0; destruct b; simpl;
       [rewrite Z.mul_1_l; destruct (Z.eqb_spec (Z.of_nat k) j) as [<-|];
         [by rewrite HP|by rewrite Z.pow2_bits_false, andb_false_r by lia]
       |by rewrite Z.testbit_0_l, andb_false_r]). }
  rewrite Z.lor_spec, list_lookup_insert. case_decide as Hd.
  - destruct Hd as [<- _]. rewrite HP. destruct b; simpl.
    + by rewrite Z.mul_1_l, Z.pow2_bits_true by lia.
    + by rewrite Z.testbit_0_l.
  - rewrite lookup_zb_lt by done. simpl.
    assert (i <> k) by (intros ->; apply Hd; by rewrite length_zb). destruct b; simpl.
    + by rewrite Z.mul_1_l, Z.pow2_bits_false, orb_false_r by lia.
    + by rewrite Z.testbit_0_l, orb_false_r.
Qed.

Lemma bits_insert ι g xs l i x b : bits ι g xs l -> bit ι g x b ->
  bits ι g (<[i := x]> xs) (<[i := b]> l).
Proof. intros H Hb. by apply Forall2_insert. Qed.

Section multiplication.
Context (ι : nat -> bool).
#[local] Abbreviation bit := (bit ι).
#[local] Abbreviation bits := (bits ι).
#[local] Abbreviation num := (num ι).

Lemma mul_partial_spec xs : forall g la i shift sel s width partial P,
  bits g xs la -> bit g sel s -> bits g partial (zb width P) -> 0 <= P < pow2 (i + shift) ->
  gspec g (Circuits.mul_partial xs i shift sel width partial) (fun r g' =>
    bits g' r (zb width (P + pow2 (i + shift) * (bz la * Z.b2z s)))).
Proof.
  induction xs as [|x xs IH]; intros g la i shift sel s width partial P Ha Hs Hp HP.
  { apply Forall2_nil_inv_l in Ha as ->. apply gspec_ret. simpl bz.
    by rewrite Z.mul_0_l, Z.mul_0_r, Z.add_0_r. }
  destruct (bits_cons_inv _ _ _ _ _ Ha) as (b & la' & -> & Hb & Ha'). clear Ha.
  assert (pow2 (S i + shift) = 2 * pow2 (i + shift)) as E by apply pow2_S.
  pose proof (pow2_pos (i + shift)). cbn [Circuits.mul_partial bz].
  destruct (Nat.ltb_spec (i + shift) width) as [Hw|Hw].
  - gate_step (and_spec ι _ x sel) as y Hy.
    pose proof (bits_length _ _ _ _ Hp) as Hl. rewrite length_zb in Hl.
    eapply gspec_lift; [apply set_index_ok; lia|].
    pose proof (bits_insert _ _ _ _ (i + shift) _ _ Hp Hy) as Hp'.
    rewrite zb_insert in Hp' by (done || apply (testbit_high (i + shift)); lia).
    eapply gspec_mono; [eapply (IH _ _ (S i)); [done|done|exact Hp'|]|].
    + rewrite E. destruct b, s; simpl; lia.
    + cbv beta. intros r g' _ _. rewrite E. intros Hr. eapply eq_ind; [exact Hr|].
      f_equal. destruct b, s; simpl; lia.
  - eapply gspec_mono; [eapply (IH _ _ (S i)); [done|done|exact Hp|lia]|].
    cbv beta. intros r g' _ _ Hr. eapply eq_ind; [exact Hr|]. apply zb_eq.
    replace (i + shift)%nat with (width + (i + shift - width))%nat in * by lia.
    set (d := (i + shift - width)%nat) in *. rewrite E, pow2_add.
    pose proof (pow2_pos width).
    replace (P + 2 * (pow2 width * pow2 d) * (bz la' * Z.b2z s))
      with (P + (2 * pow2 d * (bz la' * Z.b2z s)) * pow2 width) by lia.
    replace (P + pow2 width * pow2 d * ((Z.b2z b + 2 * bz la') * Z.b2z s))
      with (P + (pow2 d * ((Z.b2z b + 2 * bz la') * Z.b2z s)) * pow2 width) by lia.
    by rewrite !Z.mod_add by lia.
Qed.

Lemma mul_rows_spec ys : forall g xs la lb shift width acc A,
  bits g xs la -> bits g ys lb -> num g acc width A ->
  gspec g (Circuits.mul_rows xs ys shift width acc) (fun r g' =>
    num g' r width (wrap width (A + bz la * bz lb * pow2 shift))).
Proof.
  induction ys as [|y ys IH]; intros g xs la lb shift width acc A Ha Hb Hacc.
  { apply Forall2_nil_inv_l in Hb as ->. apply gspec_ret. simpl bz.
    rewrite Z.mul_0_r, Z.mul_0_l, Z.add_0_r, wrap_small; [done|apply Hacc]. }
  destruct (bits_cons_inv _ _ _ _ _ Hb) as (b & lb' & -> & Hy & Hb'). clear Hb.
  cbn [Circuits.mul_rows bz]. get_wf Hwf. apply gspec_gets.
  destruct (num_false ι g width Hwf) as [_ Hz]. pose proof (pow2_pos (0 + shift)).
  assert (0 <= 0 < pow2 (0 + shift)) by lia.
  gate_step (mul_partial_spec xs _ la 0 shift y b width) as partial Hp. simpl in Hp.
  pose proof (num_wrap _ _ _ _ _ Hp) as Hp'.
  gate_step (add_spec ι _ acc partial) as acc' Hacc'.
  eapply gspec_mono; [by eapply (IH _ xs la lb')|]. cbv beta.
  intros r g' _ _ Hr. eapply num_eq; [exact Hr|].
  rewrite pow2_S. unfold bvadd. rewrite wrap_add_l.
  rewrite (Z.add_comm A), <- Z.add_assoc, wrap_add_l. f_equal. lia.
Qed.

Lemma mul_width_spec g xs ys la lb width : bits g xs la -> bits g ys lb ->
  gspec g (Circuits.mul_width xs ys width) (fun r g' =>
    num g' r width (wrap width (bz la * bz lb))).
Proof.
  intros Ha Hb. get_wf Hwf. apply gspec_gets. pose proof (num_false ι g width Hwf).
  eapply gspec_mono; [by eapply (mul_rows_spec ys _ xs la lb 0)|]. cbv beta.
  intros r g' _ _ Hr. eapply num_eq; [exact Hr|]. f_equal. change (pow2 0) with 1. lia.
Qed.

Lemma mul_spec g xs ys w x y : num g xs w x -> num g ys w y ->
  gspec g (Circuits.mul xs ys) (fun r g' => num g' r w (bvmul w x y)).
Proof.
  intros Hx Hy. unfold Circuits.mul. rewrite (num_length _ _ _ _ _ Hx).
  destruct Hx as [Hx Hxs], Hy as [Hy Hys].
  eapply gspec_mono; [by eapply (mul_width_spec _ xs ys)|]. cbv beta.
  intros r g' _ _ Hr. by rewrite !bz_zb_small in Hr.
Qed.
End multiplication.

(** *** Comparisons of bit lists *)

Lemma forallb_eqb l k : length l = length k ->
  forallb id (zip_with eqb l k) = (bz l =? bz k).
Proof.
  revert k. induction l as [|a l IH]; intros [|b k]; try done. intros [= Hl].
  cbn [zip_with forallb bz id]. rewrite IH by done.
  destruct a, b, (Z.eqb_spec (bz l) (bz k)); simpl; symmetry; rewrite ?Z.eqb_eq, ?Z.eqb_neq; lia.
Qed.

Lemma existsb_bz l : existsb id l = negb (bz l =? 0).
Proof.
  induction l as [|a l IH]; [done|]. cbn [existsb bz id]. rewrite IH. pose proof (bz_nonneg l).
  destruct a, (Z.eqb_spec (bz l) 0); simpl; symmetry;
    rewrite ?negb_true_iff, ?negb_false_iff, ?Z.eqb_eq, ?Z.eqb_neq; lia.
Qed.

Lemma zip_with_if {A} (c : bool) (l k : list A) : length l = length k ->
  zip_with (fun a b => if c then a else b) l k = if c then l else k.
Proof.
  revert k. induction l as [|a l IH]; intros [|b k]; try done; [by destruct c|].
  intros [= Hl]. simpl. rewrite IH by done. by destruct c.
Qed.

Definition ult_step (s : bool * bool) (p : bool * bool) : bool * bool :=
  (s.1 || (s.2 && (negb p.1 && p.2)), s.2 && eqb p.1 p.2).

(** Comparing from the top: less so far, and equal so far. *)
Lemma ult_fold l k : length l = length k ->
  foldl ult_step (false, true) (reverse (zip l k)) = (bz l <? bz k, bz l =? bz k).
Proof.
  revert k. induction l as [|a l IH]; intros [|b k]; try done. intros [= Hl].
  cbn [zip zip_with bz]. rewrite reverse_cons, foldl_snoc, IH by done. unfold ult_step. simpl.
  f_equal; apply eq_bool_prop_intro; rewrite !Is_true_true.
  - rewrite orb_true_iff, !andb_true_iff, !Z.ltb_lt, Z.eqb_eq. destruct a, b; simpl; lia.
  - rewrite andb_true_iff, !Z.eqb_eq. destruct a, b; simpl; lia.
Qed.

Section comparison.
Context (ι : nat -> bool).
#[local] Abbreviation bit := (bit ι).
#[local] Abbreviation bits := (bits ι).
#[local] Abbreviation num := (num ι).

Lemma eq_bits_spec g xs ys w x y : num g xs w x -> num g ys w y ->
  gspec g (Circuits.eq_bits xs ys) (fun r g' => bit g' r (x =? y)).
Proof.
  intros [Hx Hxs] [Hy Hys]. unfold Circuits.eq_bits.
  gate_step (bitwise_binary_spec ι GateArena.xnor eqb (xnor_spec ι) xs ys) as l Hl.
  gate_last (and_many_spec ι _ l). eapply bit_eq; [done|].
  rewrite forallb_eqb by (by rewrite !length_zb). by rewrite !bz_zb_small.
Qed.

Lemma is_zero_spec g xs w x : num g xs w x ->
  gspec g (Circuits.is_zero xs) (fun r g' => bit g' r (x =? 0)).
Proof.
  intros [Hx Hxs]. unfold Circuits.is_zero. gate_step (or_many_spec ι _ xs) as any Hany.
  gate_last (not_spec ι _ any). eapply bit_eq; [done|].
  by rewrite existsb_bz, negb_involutive, bz_zb_small.
Qed.

Lemma ult_loop_spec ps : forall g bs lt eq l e, bits2 ι g ps bs -> bit g lt l -> bit g eq e ->
  gspec g (Circuits.ult_loop ps lt eq) (fun r g' => bit g' r (foldl ult_step (l, e) bs).1).
Proof.
  induction ps as [|[px py] ps IH]; intros g bs lt eq l e H Hl He.
  { apply Forall2_nil_inv_l in H as ->. by apply gspec_ret. }
  destruct (bits2_cons_inv _ _ _ _ _ H) as (x & y & bs' & -> & Hx & Hy & Hps). clear H.
  simpl in Hx, Hy. cbn [Circuits.ult_loop].
  gate_step (not_spec ι _ px) as nx Hnx. apply (bits2_ext _ _ _ _ _ He0) in Hps.
  gate_step (and_spec ι _ nx py) as xy Hxy. apply (bits2_ext _ _ _ _ _ He1) in Hps.
  gate_step (and_spec ι _ eq xy) as el Hel. apply (bits2_ext _ _ _ _ _ He2) in Hps.
  gate_step (or_spec ι _ lt el) as lt' Hlt'. apply (bits2_ext _ _ _ _ _ He3) in Hps.
  gate_step (xnor_spec ι _ px py) as same Hsame. apply (bits2_ext _ _ _ _ _ He4) in Hps.
  gate_step (and_spec ι _ eq same) as eq' Heq'. apply (bits2_ext _ _ _ _ _ He5) in Hps.
  exact (IH _ _ _ _ _ _ Hps Hlt' Heq').
Qed.

Lemma ult_spec g xs ys w x y : num g xs w x -> num g ys w y ->
  gspec g (Circuits.ult xs ys) (fun r g' => bit g' r (x <? y)).
Proof.
  intros [Hx Hxs] [Hy Hys]. get_wf Hwf. pose proof (false_bit ι _ Hwf). pose proof (true_bit ι _ Hwf).
  do 2 apply gspec_gets.
  assert (bits2 ι g (reverse (zip xs ys)) (reverse (zip (zb w x) (zb w y)))).
  { apply Forall2_reverse, bits2_zip; done. }
  gate_last (ult_loop_spec (reverse (zip xs ys))). eapply bit_eq; [done|].
  rewrite ult_fold by (by rewrite !length_zb). simpl. by rewrite !bz_zb_small.
Qed.

Lemma ule_spec g xs ys w x y : num g xs w x -> num g ys w y ->
  gspec g (Circuits.ule xs ys) (fun r g' => bit g' r (x <=? y)).
Proof.
  intros Hx Hy. unfold Circuits.ule. gate_step (ult_spec _ ys xs) as lt Hlt.
  gate_last (not_spec ι _ lt). eapply bit_eq; [done|]. by rewrite Z.leb_antisym.
Qed.

Lemma mux_bits_spec g sel xs ys c w x y : bit g sel c -> num g xs w x -> num g ys w y ->
  gspec g (Circuits.mux_bits sel xs ys) (fun r g' => num g' r w (if c then x else y)).
Proof.
  intros Hsel [Hx Hxs] [Hy Hys].
  enough (gspec g (Circuits.mux_bits sel xs ys) (fun r g' =>
    bits g' r ((fun p => if c then p.1 else p.2) <$> zip (zb w x) (zb w y)))) as H.
  { eapply gspec_mono; [exact H|]. cbv beta. intros r g' _ _ Hr.
    split; [by destruct c|]. eapply eq_ind; [exact Hr|]. rewrite (fmap_zip (fun a b => if c then a else b)).
    rewrite zip_with_if by (by rewrite !length_zb). by destruct c. }
  pose proof (bits2_zip _ _ _ _ _ _ Hxs Hys) as H. clear Hx Hxs Hy Hys.
  unfold Circuits.mux_bits. revert g Hsel H. generalize (zip xs ys), (zip (zb w x) (zb w y)).
  intros ps. induction ps as [|p ps IH]; intros bs g Hsel H.
  { apply Forall2_nil_inv_l in H as ->. apply gspec_ret. constructor. }
  destruct (bits2_cons_inv _ _ _ _ _ H) as (a & b & bs' & -> & Ha & Hb & Hps). clear H. simpl.
  gate_step (mux_spec ι _ sel p.1 p.2) as z Hz. apply (bits2_ext _ _ _ _ _ He) in Hps.
  gate_step IH as zs Hzs. apply gspec_ret. by constructor.
Qed.

(** *** Signed comparison: by the signs, else unsigned *)

Lemma bvslt_signs w x y : (0 < w)%nat -> 0 <= x < pow2 w -> 0 <= y < pow2 w ->
  bvslt w x y = if xorb (msb w x) (msb w y) then msb w x else x <? y.
Proof.
  intros Hw Hx Hy. unfold bvslt. rewrite !msb_ge by done. unfold sval.
  destruct (Z.leb_spec (pow2 w) (2 * x)), (Z.leb_spec (pow2 w) (2 * y)); simpl;
    apply eq_bool_prop_intro; rewrite ?Is_true_true, ?Z.ltb_lt; try lia;
    split; try done; lia.
Qed.

Lemma slt_spec g xs ys w x y : (0 < w)%nat -> num g xs w x -> num g ys w y ->
  gspec g (Circuits.slt xs ys) (fun r g' => bit g' r (bvslt w x y)).
Proof.
  intros Hw Hx Hy. destruct (num_last _ _ _ _ _ Hw Hx) as (sa & Ea & Ha).
  destruct (num_last _ _ _ _ _ Hw Hy) as (sb & Eb & Hb). unfold Circuits.slt.
  eapply gspec_lift; [done|]. eapply gspec_lift; [done|].
  gate_step (xor_spec ι _ sa sb) as d Hd. gate_step (ult_spec _ xs ys) as lt Hlt.
  gate_last (mux_spec ι _ d sa lt). eapply bit_eq; [done|]. destruct Hx, Hy.
  by rewrite bvslt_signs.
Qed.

Lemma sle_spec g xs ys w x y : (0 < w)%nat -> num g xs w x -> num g ys w y ->
  gspec g (Circuits.sle xs ys) (fun r g' => bit g' r (bvsle w x y)).
Proof.
  intros Hw Hx Hy. unfold Circuits.sle. gate_step (slt_spec _ ys xs) as lt Hlt.
  gate_last (not_spec ι _ lt). eapply bit_eq; [done|]. unfold bvslt, bvsle.
  by rewrite Z.leb_antisym.
Qed.
End comparison.

(** *** Shifts *)

Lemma stage_shift_lt stage n : Z.of_nat n <= usize_max ->
  (Circuits.stage_shift stage <? Z.of_nat n) = (pow2 stage <? Z.of_nat n) /\
  (pow2 stage < Z.of_nat n -> Circuits.stage_shift stage = pow2 stage).
Proof.
  intros Hn. unfold Circuits.stage_shift. destruct (Nat.ltb_spec stage 64) as [|H]; [done|].
  assert (usize_max < pow2 stage) as Hb.
  { apply Z.lt_le_trans with (2 ^ 64); [done|]. apply Z.pow_le_mono_r; lia. }
  split; [|lia]. rewrite !(proj2 (Z.ltb_ge _ _)) by lia. done.
Qed.

Section shifting.
Context (ι : nat -> bool).
#[local] Abbreviation bit := (bit ι).
#[local] Abbreviation bits := (bits ι).
#[local] Abbreviation num := (num ι).

(** The vectors a stage assembles. *)
Lemma shifted_up g xs w z s x b : bit g x b -> num g xs w z -> (s <= w)%nat ->
  bits g (replicate s x ++ take (w - s) xs) (replicate s b ++ take (w - s) (zb w z)).
Proof. intros Hx [_ H] Hs. apply Forall2_app; [by apply Forall2_replicate|by apply Forall2_take]. Qed.

Lemma shifted_down g xs w z s x b : bit g x b -> num g xs w z -> (s <= w)%nat ->
  bits g (drop s xs ++ replicate s x) (drop s (zb w z) ++ replicate s b).
Proof. intros Hx [_ H] Hs. apply Forall2_app; [by apply Forall2_drop|by apply Forall2_replicate]. Qed.

Lemma lookup_up w z s i : (s <= w)%nat -> (i < w)%nat ->
  default false ((replicate s false ++ take (w - s) (zb w z)) !! i)
  = Z.testbit z (Z.of_nat i - Z.of_nat s).
Proof.
  intros Hs Hi. destruct (decide (i < s)%nat).
  - rewrite lookup_app_l, lookup_replicate_2 by (rewrite ?length_replicate; lia).
    by rewrite Z.testbit_neg_r by lia.
  - rewrite lookup_app_r, length_replicate, lookup_take_lt by (rewrite ?length_replicate; lia).
    rewrite lookup_zb_lt by lia. simpl. f_equal. lia.
Qed.

Lemma lookup_down w z s b i : (s <= w)%nat -> (i < w)%nat ->
  default false ((drop s (zb w z) ++ replicate s b) !! i)
  = if (i + s <? w)%nat then Z.testbit z (Z.of_nat i + Z.of_nat s) else b.
Proof.
  intros Hs Hi. destruct (Nat.ltb_spec (i + s) w).
  - rewrite lookup_app_l, lookup_drop by (rewrite length_drop, length_zb; lia).
    rewrite lookup_zb_lt by lia. simpl. f_equal. lia.
  - rewrite lookup_app_r by (rewrite length_drop, length_zb; lia).
    rewrite length_drop, length_zb, lookup_replicate_2 by lia. done.
Qed.

Definition stage_spec (op : nat -> Z -> Z -> Z)
    (stage_op : list GateId -> nat -> GateArena -> res (list GateId)) (w : nat) : Prop :=
  forall g xs z stage, wf g -> num g xs w z ->
    exists r, stage_op xs stage g = Ok r /\ num g r w (op w z (pow2 stage)).

Context (w : nat).
Hypothesis Hw : (0 < w)%nat.
Hypothesis Hmax : Z.of_nat w <= usize_max.

Lemma shl_stage_spec : stage_spec bvshl Circuits.shl_stage w.
Proof.
  intros g xs z stage Hwf Hx. pose proof (num_length _ _ _ _ _ Hx) as Hl. pose proof (pow2_pos stage).
  unfold Circuits.shl_stage. rewrite Hl. destruct (stage_shift_lt stage w Hmax) as [-> Hs].
  destruct (Z.ltb_spec (pow2 stage) (Z.of_nat w)) as [Hlt|Hge].
  - rewrite Hs by done. set (s := Z.to_nat (pow2 stage)).
    assert (Z.of_nat s = pow2 stage) as Es by lia.
    rewrite slice_ok by lia. simpl. rewrite drop_0, Nat.sub_0_r.
    rewrite copy_from_slice_ok by (rewrite ?length_replicate, ?length_take; lia).
    eexists; split; [done|]. rewrite take_replicate, drop_replicate.
    replace (s `min` w)%nat with s by lia. replace (w - w)%nat with 0%nat by lia.
    rewrite app_nil_r. eapply num_bits; [eapply shifted_up; [by apply false_bit|exact Hx|lia]| | |].
    + rewrite length_app, length_replicate, length_take, length_zb. lia.
    + apply bvshl_bound.
    + intros i Hi. rewrite lookup_up, testbit_bvshl by lia. by rewrite Es.
  - eexists; split; [done|]. eapply num_eq; [by apply num_false|]. unfold bvshl.
    by rewrite (proj2 (Z.ltb_ge _ _)).
Qed.

Lemma lshr_stage_spec : stage_spec bvlshr Circuits.lshr_stage w.
Proof.
  intros g xs z stage Hwf Hx. pose proof (num_length _ _ _ _ _ Hx) as Hl. pose proof (pow2_pos stage).
  unfold Circuits.lshr_stage. rewrite Hl. destruct (stage_shift_lt stage w Hmax) as [-> Hs].
  destruct (Z.ltb_spec (pow2 stage) (Z.of_nat w)) as [Hlt|Hge].
  - rewrite Hs by done. set (s := Z.to_nat (pow2 stage)).
    assert (Z.of_nat s = pow2 stage) as Es by lia.
    rewrite slice_ok by lia. simpl. rewrite take_ge by (rewrite length_drop; lia).
    rewrite copy_from_slice_ok by (rewrite ?length_replicate, ?length_drop; lia).
    eexists; split; [done|]. rewrite take_0, drop_replicate. simpl.
    replace (w - (w - s))%nat with s by lia.
    eapply num_bits; [eapply shifted_down; [by apply false_bit|exact Hx|lia]| | |].
    + rewrite length_app, length_replicate, length_drop, length_zb. lia.
    + apply bvlshr_bound; [apply Hx|lia].
    + intros i Hi. rewrite lookup_down, testbit_bvlshr by (apply Hx || lia). rewrite Es.
      destruct (Nat.ltb_spec (i + s) w); [done|].
      symmetry. apply (testbit_high w); [apply Hx|lia].
  - eexists; split; [done|]. eapply num_eq; [by apply num_false|]. unfold bvlshr.
    by rewrite (proj2 (Z.ltb_ge _ _)).
Qed.

Lemma ashr_stage_spec : stage_spec bvashr Circuits.ashr_stage w.
Proof.
  intros g xs z stage Hwf Hx. pose proof (num_length _ _ _ _ _ Hx) as Hl. pose proof (pow2_pos stage).
  destruct (num_last _ _ _ _ _ Hw Hx) as (sign & Esign & Hsign).
  unfold Circuits.ashr_stage. rewrite Esign, Hl. simpl.
  destruct (stage_shift_lt stage w Hmax) as [-> Hs].
  assert (forall s, (s <= w)%nat -> Z.of_nat s = Z.min (pow2 stage) (Z.of_nat w) ->
    num g (drop s xs ++ replicate s sign) w (bvashr w z (pow2 stage))) as Hcore.
  { intros s Hsw Es. eapply num_bits; [eapply shifted_down; [exact Hsign|exact Hx|lia]| | |].
    - rewrite length_app, length_replicate, length_drop, length_zb. lia.
    - apply bvashr_bound.
    - intros i Hi. rewrite lookup_down, testbit_bvashr by (apply Hx || lia).
      destruct (Nat.ltb_spec (i + s) w).
      + replace (Z.of_nat i + pow2 stage) with (Z.of_nat (i + s)) by lia.
        rewrite testbit_sval by (apply Hx || lia). rewrite ltb_t by done. f_equal. lia.
      + symmetry. apply testbit_sval_high; [done|apply Hx|lia]. }
  destruct (Z.ltb_spec (pow2 stage) (Z.of_nat w)) as [Hlt|Hge].
  - rewrite Hs by done. set (s := Z.to_nat (pow2 stage)) in *.
    rewrite slice_ok by lia. simpl. rewrite take_ge by (rewrite length_drop; lia).
    rewrite copy_from_slice_ok by (rewrite ?length_replicate, ?length_drop; lia).
    eexists; split; [done|]. rewrite take_0, drop_replicate. simpl.
    replace (w - (w - s))%nat with s by lia. apply Hcore; lia.
  - eexists; split; [done|]. specialize (Hcore w). rewrite drop_ge in Hcore by lia. apply Hcore; lia.
Qed.

Lemma shift_stages_spec op stage_op :
  stage_spec op stage_op w ->
  (forall z, 0 <= z < pow2 w -> op w z 0 = z) ->
  (forall z a b, 0 <= z < pow2 w -> 0 <= a -> 0 <= b -> op w (op w z a) b = op w z (a + b)) ->
  forall amount g lb stage xs z, bits g amount lb -> num g xs w z ->
    gspec g (Circuits.shift_stages stage_op amount stage xs) (fun r g' =>
      num g' r w (op w z (pow2 stage * bz lb))).
Proof.
  intros Hop H0 Hadd amount. induction amount as [|sel amount IH]; intros g lb stage xs z Hb Hx.
  { apply Forall2_nil_inv_l in Hb as ->. apply gspec_ret. simpl bz. rewrite Z.mul_0_r, H0; [done|].
    apply Hx. }
  destruct (bits_cons_inv _ _ _ _ _ Hb) as (b & lb' & -> & Hsel & Hb'). clear Hb.
  cbn [Circuits.shift_stages bz]. get_wf Hwf. apply gspec_get.
  destruct (Hop _ _ _ stage Hwf Hx) as (r & Er & Hr). eapply gspec_lift; [done|].
  gate_step (mux_bits_spec ι _ sel r xs) as out Hout.
  eapply gspec_mono; [by eapply (IH _ lb')|]. cbv beta. intros r' g' _ _ Hr'.
  eapply num_eq; [exact Hr'|]. rewrite pow2_S. pose proof (bz_nonneg lb'). pose proof (pow2_pos stage).
  destruct Hx as [Hz _]. destruct b; simpl Z.b2z.
  - rewrite Hadd by (done || lia). f_equal. lia.
  - f_equal. lia.
Qed.

Lemma shl_spec g xs ys x y : num g xs w x -> num g ys w y ->
  gspec g (Circuits.shl xs ys) (fun r g' => num g' r w (bvshl w x y)).
Proof.
  intros Hx [Hy Hys].
  eapply gspec_mono; [by eapply (shift_stages_spec bvshl _ shl_stage_spec); auto using bvshl_0, bvshl_add|].
  cbv beta. intros r g' _ _ Hr. rewrite bz_zb_small in Hr by done.
  change (pow2 0) with 1 in Hr. by rewrite Z.mul_1_l in Hr.
Qed.

Lemma lshr_spec g xs ys x y : num g xs w x -> num g ys w y ->
  gspec g (Circuits.lshr xs ys) (fun r g' => num g' r w (bvlshr w x y)).
Proof.
  intros Hx [Hy Hys].
  eapply gspec_mono; [by eapply (shift_stages_spec bvlshr _ lshr_stage_spec); auto using bvlshr_0, bvlshr_add|].
  cbv beta. intros r g' _ _ Hr. rewrite bz_zb_small in Hr by done.
  change (pow2 0) with 1 in Hr. by rewrite Z.mul_1_l in Hr.
Qed.

Lemma ashr_spec g xs ys x y : num g xs w x -> num g ys w y ->
  gspec g (Circuits.ashr xs ys) (fun r g' => num g' r w (bvashr w x y)).
Proof.
  intros Hx [Hy Hys].
  eapply gspec_mono; [by eapply (shift_stages_spec bvashr _ ashr_stage_spec); auto using bvashr_0, bvashr_add|].
  cbv beta. intros r g' _ _ Hr. rewrite bz_zb_small in Hr by done.
  change (pow2 0) with 1 in Hr. by rewrite Z.mul_1_l in Hr.
Qed.
End shifting.

(** *** Structure *)

Lemma mapM_index_ok {A} (l : list A) (f : nat -> nat) (P : nat -> Prop) js :
  Forall (fun j => P j /\ (f j < length l)%nat) js ->
  exists r, mapM (M := res) (fun j => index l (f j)) js = Ok r /\
    Forall2 (fun j x => P j /\ l !! f j = Some x) js r.
Proof.
  induction 1 as [|j js [Hp Hj] H IH]; [eexists; split; [done|constructor]|].
  destruct IH as (r & E & Hr). destruct (lookup_lt_is_Some_2 _ _ Hj) as [x Hx].
  exists (x :: r). simpl. rewrite (index_Some _ _ _ Hx). simpl. rewrite E. split; [done|].
  by constructor.
Qed.

Section structure.
Context (ι : nat -> bool).
#[local] Abbreviation bit := (bit ι).
#[local] Abbreviation bits := (bits ι).
#[local] Abbreviation num := (num ι).

Lemma concat_spec g hs ls wh wl x y : num g hs wh x -> num g ls wl y ->
  num g (Circuits.concat hs ls) (wh + wl) (bvconcat wl x y).
Proof.
  intros [Hx Hh] [Hy Hl].
  apply (num_bits _ _ _ (zb wl y ++ zb wh x)); [by apply Forall2_app| | |].
  - rewrite length_app, !length_zb. lia.
  - by apply bvconcat_bound.
  - intros i Hi. rewrite testbit_concat by done. destruct (Nat.ltb_spec i wl).
    + by rewrite lookup_app_l, lookup_zb_lt by (rewrite ?length_zb; lia).
    + by rewrite lookup_app_r, length_zb, lookup_zb_lt by (rewrite ?length_zb; lia).
Qed.

Lemma extract_spec g xs w x high low : num g xs w x -> (low <= high < w)%nat ->
  exists r, Circuits.extract xs high low = Ok r /\ num g r (high - low + 1) (bvextract high low x).
Proof.
  intros Hx Hr. pose proof (num_length _ _ _ _ _ Hx) as Hl. destruct Hx as [Hx Hxs].
  unfold Circuits.extract. rewrite slice_ok by lia. eexists; split; [done|].
  apply (num_bits _ _ _ (take (high + 1 - low) (drop low (zb w x))));
    [by apply Forall2_take, Forall2_drop| | |].
  - rewrite length_take, length_drop, length_zb. lia.
  - apply bvextract_bound.
  - intros i Hi. rewrite testbit_extract, lookup_take_lt, lookup_drop, lookup_zb_lt by lia.
    by rewrite ltb_t by lia.
Qed.

Lemma zext_spec g xs w x extra : wf g -> num g xs w x -> num g (Circuits.zext g xs extra) (w + extra) x.
Proof.
  intros Hwf [Hx Hxs]. apply (num_bits _ _ _ (zb w x ++ replicate extra false)).
  - apply Forall2_app; [done|]. by apply Forall2_replicate, false_bit.
  - by rewrite length_app, length_zb, length_replicate.
  - pose proof (pow2_le w (w + extra) ltac:(lia)). lia.
  - intros i Hi. destruct (decide (i < w)%nat).
    + by rewrite lookup_app_l, lookup_zb_lt by (rewrite ?length_zb; lia).
    + rewrite lookup_app_r, length_zb, lookup_replicate_2 by (rewrite ?length_zb; lia).
      symmetry. apply (testbit_high w); lia.
Qed.

Lemma sext_spec g xs w x extra : (0 < w)%nat -> num g xs w x ->
  exists r, Circuits.sext xs extra = Ok r /\ num g r (w + extra) (bvsext w extra x).
Proof.
  intros Hw Hx. destruct (num_last _ _ _ _ _ Hw Hx) as (s & E & Hs). destruct Hx as [Hx Hxs].
  unfold Circuits.sext. rewrite E. eexists; split; [done|].
  apply (num_bits _ _ _ (zb w x ++ replicate extra (msb w x))).
  - apply Forall2_app; [done|]. by apply Forall2_replicate.
  - by rewrite length_app, length_zb, length_replicate.
  - apply bvsext_bound.
  - intros i Hi. rewrite testbit_sext, ltb_t by done. simpl. destruct (Nat.ltb_spec i w).
    + by rewrite lookup_app_l, lookup_zb_lt by (rewrite ?length_zb; lia).
    + by rewrite lookup_app_r, length_zb, lookup_replicate_2 by (rewrite ?length_zb; lia).
Qed.

Lemma repeat_spec g xs w x count : num g xs w x ->
  num g (Circuits.repeat xs count) (w * count) (bvrepeat w count x).
Proof.
  intros Hx. induction count as [|n IH].
  - rewrite Nat.mul_0_r. split; [simpl; lia|constructor].
  - simpl. replace (w * S n)%nat with (w * n + w)%nat by lia. by apply (concat_spec g _ xs).
Qed.

(** Both rotations pick bit [f i] of the operand for bit [i]. *)
Lemma rotation_spec g xs w x z (f : nat -> nat) : num g xs w x -> 0 <= z < pow2 w ->
  (forall i, (i < w)%nat -> (f i < w)%nat /\ Z.testbit z (Z.of_nat i) = Z.testbit x (Z.of_nat (f i))) ->
  exists r, mapM (M := res) (fun i => index xs (f i)) (seq 0 w) = Ok r /\ num g r w z.
Proof.
  intros Hx Hz Hf. pose proof (num_length _ _ _ _ _ Hx) as Hl.
  destruct (mapM_index_ok xs f (fun i => i < w)%nat (seq 0 w)) as (r & E & Hr).
  { apply Forall_seq. intros i Hi. rewrite Hl. split; [lia|]. apply Hf. lia. }
  exists r. split; [done|].
  apply (num_bits _ _ _ ((fun i => Z.testbit x (Z.of_nat (f i))) <$> seq 0 w)); [| |done|].
  - apply Forall2_fmap_r. apply Forall2_flip in Hr. eapply Forall2_impl; [exact Hr|]. simpl.
    intros y i [Hi Hy].
    destruct (num_lookup _ _ _ _ _ (f i) Hx) as (y' & Ey & Hb); [by apply Hf|]. naive_solver.
  - by rewrite length_fmap, length_seq.
  - intros i Hi. rewrite list_lookup_fmap, lookup_seq_lt by done. simpl. by destruct (Hf i Hi).
Qed.

Lemma rotate_left_spec g xs w x amount : (0 < w)%nat -> num g xs w x ->
  exists r, Circuits.rotate_left xs amount = Ok r /\ num g r w (bvrotl w amount x).
Proof.
  intros Hw Hx. unfold Circuits.rotate_left. rewrite (num_length _ _ _ _ _ Hx).
  destruct (Nat.eqb_spec w 0); [lia|].
  apply (rotation_spec g xs w x); [done|by apply bvrotl_bound, Hx|]. intros i Hi.
  split; [apply Nat.mod_upper_bound; lia|]. by apply testbit_rotl; [|apply Hx].
Qed.

Lemma rotate_right_spec g xs w x amount : (0 < w)%nat -> num g xs w x ->
  exists r, Circuits.rotate_right xs amount = Ok r /\ num g r w (bvrotr w amount x).
Proof.
  intros Hw Hx. unfold Circuits.rotate_right. rewrite (num_length _ _ _ _ _ Hx).
  destruct (Nat.eqb_spec w 0); [lia|].
  apply (rotation_spec g xs w x); [done|by apply bvrotl_bound, Hx|]. intros i Hi.
  split; [apply Nat.mod_upper_bound; lia|]. rewrite testbit_rotr by (done || apply Hx).
  by rewrite Nat.Div0.add_mod_idemp_r.
Qed.
End structure.

(** *** Multiplication by a constant *)

Section constant.
Context (ι : nat -> bool).
#[local] Abbreviation num := (num ι).
Context (w : nat) (bs : list Z) (c : Z).
Hypothesis Hw : (0 < w)%nat.
Hypothesis Hc : bv_repr w bs c.

Lemma const_bit_ok i : Circuits.const_bit bs i = Z.testbit c (Z.of_nat i).
Proof. apply (repr_testbit _ _ _ i Hc). Qed.

Lemma const_is_zero_ok : Circuits.const_is_zero bs w = true -> c = 0.
Proof.
  intros H. pose proof (repr_range _ _ _ Hc) as Hr. apply (Z_ext_w w); [done|pose proof (pow2_pos w); lia|].
  intros i Hi. rewrite Z.testbit_0_l, <- const_bit_ok.
  unfold Circuits.const_is_zero in H. rewrite forallb_forall in H.
  apply negb_true_iff, H, in_seq. lia.
Qed.

Lemma const_is_one_ok : Circuits.const_is_one bs w = true -> c = 1.
Proof.
  intros [H0 H]%andb_true_iff. pose proof (repr_range _ _ _ Hc) as Hr.
  apply (Z_ext_w w); [done|pose proof (pow2_le 1 w Hw); change (pow2 1) with 2 in *; lia|].
  intros i Hi. rewrite <- const_bit_ok. destruct i as [|i]; [by rewrite H0|].
  rewrite forallb_forall in H.
  assert (Circuits.const_bit bs (S i) = false) as -> by (apply negb_true_iff, H, in_seq; lia).
  change 1 with (2 ^ 0). by rewrite Z.pow2_bits_false by lia.
Qed.

Lemma const_is_all_ones_ok : Circuits.const_is_all_ones bs w = true -> c = pow2 w - 1.
Proof.
  intros H. pose proof (repr_range _ _ _ Hc) as Hr.
  apply (Z_ext_w w); [done|pose proof (pow2_pos w); lia|].
  intros i Hi. rewrite <- const_bit_ok.
  replace (pow2 w - 1) with (Z.ones (Z.of_nat w)) by (rewrite Z.ones_equiv; lia).
  rewrite Z.ones_spec_low by lia. unfold Circuits.const_is_all_ones in H.
  rewrite forallb_forall in H. apply H, in_seq. lia.
Qed.

(** The sum so far: [x] times the low [k] bits of the constant. *)
Definition const_acc (g : GateArena) (acc : option (list GateId)) (x : Z) (k : nat) : Prop :=
  match acc with
  | Some a => num g a w (wrap w (x * (c mod pow2 k)))
  | None => c mod pow2 k = 0
  end.

Lemma const_partial g xs x k : wf g -> num g xs w x -> (k < w)%nat ->
  exists p, (src ← slice xs 0 (w - k); copy_from_slice (Circuits.zero w g) k w src) = Ok p /\
    num g p w (wrap w (x * pow2 k)).
Proof.
  intros Hwf Hx Hk. pose proof (num_length _ _ _ _ _ Hx) as Hl.
  rewrite slice_ok by lia. simpl. rewrite drop_0, Nat.sub_0_r. unfold Circuits.zero.
  rewrite copy_from_slice_ok by (rewrite ?length_replicate, ?length_take; lia).
  eexists; split; [done|]. rewrite take_replicate, drop_replicate.
  replace (k `min` w)%nat with k by lia. replace (w - w)%nat with 0%nat by lia. rewrite app_nil_r.
  eapply num_bits; [eapply shifted_up; [by apply false_bit|exact Hx|lia]| |apply wrap_bound|].
  - rewrite length_app, length_replicate, length_take, length_zb. lia.
  - intros i Hi. rewrite lookup_up by lia. unfold wrap. rewrite testbit_pow2_mod, ltb_t by done.
    rewrite <- Z.shiftl_mul_pow2, Z.shiftl_spec by lia. done.
Qed.

Lemma mul_const_loop_spec m : forall g xs x k acc, (k + m = w)%nat ->
  num g xs w x -> const_acc g acc x k ->
  gspec g (Circuits.mul_const_loop xs bs (seq k m) acc) (fun r g' => const_acc g' r x w).
Proof.
  induction m as [|m IH]; intros g xs x k acc Hkm Hx Hacc.
  { apply gspec_ret. by assert (k = w) as <- by lia. }
  cbn [seq Circuits.mul_const_loop]. rewrite const_bit_ok. pose proof (mod_pow2_S c k) as Hmod.
  destruct (Z.testbit c (Z.of_nat k)); simpl negb; cbn iota; simpl Z.b2z in Hmod.
  - get_wf Hwf. apply gspec_gets. rewrite (num_length _ _ _ _ _ Hx), ltb_t by lia.
    destruct (const_partial g xs x k Hwf Hx ltac:(lia)) as (p & Ep & Hp).
    eapply gspec_lift; [exact Ep|]. destruct acc as [a|]; simpl in Hacc.
    + gate_step (add_spec ι _ a p) as a' Ha'. apply IH; [lia|done|]. simpl.
      eapply num_eq; [exact Ha'|]. rewrite Hmod. unfold bvadd. rewrite wrap_add. f_equal. lia.
    + apply IH; [lia|done|]. simpl. eapply num_eq; [exact Hp|]. rewrite Hmod, Hacc. f_equal. lia.
  - apply IH; [lia|done|]. rewrite Z.mul_0_l, Z.add_0_r in Hmod. unfold const_acc. by rewrite Hmod.
Qed.

Lemma mul_const_spec g xs x : num g xs w x ->
  gspec g (Circuits.mul_const xs bs) (fun r g' => num g' r w (bvmul w x c)).
Proof.
  intros Hx. pose proof (repr_range _ _ _ Hc). pose proof Hx as [Hr _].
  unfold Circuits.mul_const. rewrite (num_length _ _ _ _ _ Hx). get_wf Hwf.
  destruct (Circuits.const_is_zero bs w) eqn:E0.
  { apply const_is_zero_ok in E0. apply gspec_gets_ret. eapply num_eq; [by apply num_false|].
    unfold bvmul. rewrite E0, Z.mul_0_r. symmetry. apply wrap_small. lia. }
  destruct (Circuits.const_is_one bs w) eqn:E1.
  { apply const_is_one_ok in E1. apply gspec_ret. eapply num_eq; [done|].
    unfold bvmul. rewrite E1, Z.mul_1_r. symmetry. by apply wrap_small. }
  destruct (Circuits.const_is_all_ones bs w) eqn:E2.
  { apply const_is_all_ones_ok in E2. gate_last neg_spec. eapply num_eq; [done|].
    unfold bvmul, bvneg. rewrite E2. replace (x * (pow2 w - 1)) with (- x + x * pow2 w) by lia.
    by rewrite wrap_add_mul. }
  assert (const_acc g None x 0) as H0 by (simpl; change (pow2 0) with 1; apply Z.mod_1_r).
  gate_step (mul_const_loop_spec w _ xs x 0) as acc Hacc. unfold const_acc in Hacc.
  rewrite Z.mod_small in Hacc by done. destruct acc as [a|]; [by apply gspec_ret|].
  apply gspec_gets_ret. eapply num_eq; [by apply num_false|].
  unfold bvmul. rewrite Hacc, Z.mul_0_r. symmetry. apply wrap_small. lia.
Qed.
End constant.

(** ** Division and overflow circuits

    The restoring divider keeps the remainder of the bits above [i] and their
    quotient; the signed operations and the overflow predicates follow from it
    through the sign-magnitude lemmas of [SmtFacts.v]. *)

#[local] Open Scope Z_scope.

Section division.
Context (ι : nat -> bool).
#[local] Abbreviation bit := (bit ι).
#[local] Abbreviation bits := (bits ι).
#[local] Abbreviation num := (num ι).
Context (w : nat).
Hypothesis Hw : (0 < w)%nat.

(** What the divider knows with [k] iterations left; nothing is claimed of a
    zero divisor, whose result is replaced at the end. *)
Definition divider_state (g : GateArena) (x y : Z) (k : nat) (rem quo : list GateId) : Prop :=
  exists r q, num g rem w r /\ num g quo w q /\
    (0 < y -> r = Z.shiftr x (Z.of_nat k) mod y /\ q = Z.shiftr x (Z.of_nat k) / y * pow2 k).

Lemma num_shift_in g rem r top b : wf g -> num g rem w r -> bit g top b ->
  exists l, (if (1 <? w)%nat
             then lift (S := GateArena) (src ← slice rem 0 (w - 1);
                        copy_from_slice (<[0%nat := top]> (replicate w (false_id g))) 1 w src)
             else mret (<[0%nat := top]> (replicate w (false_id g)))) = (fun s => (Ok l, s)) /\
    num g l w (wrap w (2 * r + Z.b2z b)).
Proof.
  intros Hwf Hr Hb. pose proof (num_length _ _ _ _ _ Hr) as Hl. destruct Hr as [Hr Hrem].
  exists (top :: take (w - 1) rem). split.
  - destruct w as [|[|n]] eqn:E; [lia|done|]. cbn [Nat.ltb Nat.leb].
    rewrite slice_ok by lia. cbn [mbind res_bind]. rewrite drop_0, Nat.sub_0_r.
    rewrite copy_from_slice_ok by (rewrite ?length_insert, ?length_replicate, ?length_take; lia).
    cbn [replicate]. simpl (<[0%nat := _]> _). rewrite drop_ge by (simpl; rewrite length_replicate; lia).
    rewrite app_nil_r. done.
  - apply (num_bits _ _ _ (b :: take (w - 1) (zb w r))).
    + constructor; [done|]. by apply Forall2_take.
    + simpl. rewrite length_take, length_zb. lia.
    + apply wrap_bound.
    + intros i Hi. unfold wrap. rewrite testbit_pow2_mod, ltb_t by done. simpl.
      rewrite (Z.add_comm _ (Z.b2z b)). destruct i as [|i].
      * change (Z.of_nat 0) with 0. simpl. by rewrite Z.bit0_odd, odd_b2z_2.
      * rewrite Nat2Z.inj_succ. rewrite (Z.add_comm _ (2 * r)), Z.testbit_succ_r by lia.
        change ((b :: ?l) !! S i) with (l !! i). by rewrite lookup_take_lt, lookup_zb_lt by lia.
Qed.

Lemma udiv_urem_loop_spec k : forall g xs ys x y rem quo, (k <= w)%nat ->
  num g xs w x -> num g ys w y -> divider_state g x y k rem quo ->
  gspec g (Circuits.udiv_urem_loop xs ys k rem quo) (fun rq g' =>
    divider_state g' x y 0 rq.1 rq.2).
Proof.
  induction k as [|i IH]; intros g xs ys x y rem quo Hk Hx Hy (r & q & Hr & Hq & Hinv).
  { apply gspec_ret. by exists r, q. }
  cbn [Circuits.udiv_urem_loop]. get_wf Hwf. apply gspec_gets.
  destruct (num_lookup _ _ _ _ _ i Hx) as (top & Etop & Htop); [lia|].
  eapply gspec_lift; [by apply index_Some|].
  rewrite (num_length _ _ _ _ _ Hx).
  eapply gspec_lift; [apply set_index_ok; rewrite length_replicate; lia|].
  destruct (num_shift_in g rem r top _ Hwf Hr Htop) as (l & El & Hl). rewrite El.
  change (fun s : GateArena => (Ok l, s)) with (mret (M := M GateArena) l).
  eapply (gspec_bind _ _ _ (fun l' g' => g' = g /\ l' = l)); [by apply gspec_ret|].
  intros l' g' _ _ [-> ->].
  gate_step (ule_spec ι _ ys l) as ge Hge.
  gate_step (sub_spec ι _ l ys) as d Hd.
  gate_step (mux_bits_spec ι _ ge d l) as rem' Hrem'.
  eapply gspec_lift; [apply set_index_ok; rewrite (num_length _ _ _ _ _ Hq); lia|].
  apply IH; [lia|done|done|].
  set (b := Z.testbit x (Z.of_nat i)) in *. set (D := wrap w (2 * r + Z.b2z b)) in *.
  destruct Hq as [Hq0 Hq]. pose proof (bits_insert _ _ _ _ i _ _ Hq Hge) as Hq'.
  pose proof (num_of_bits _ _ _ _ Hq') as Hqn. rewrite length_insert, length_zb in Hqn.
  eexists _, _. split; [exact Hrem'|]. split; [exact Hqn|]. intros Hy0.
  destruct (Hinv Hy0) as [-> ->]. clear Hinv.
  pose proof (proj1 Hx) as Hxr.
  pose proof (shiftr_split x (Z.of_nat i) ltac:(lia)) as Hsplit. fold b in Hsplit.
  replace (Z.of_nat i + 1) with (Z.of_nat (S i)) in Hsplit by lia.
  set (X := Z.shiftr x (Z.of_nat (S i))) in *.
  assert (0 <= X) as HX by (apply Z.shiftr_nonneg; lia).
  destruct (udiv_step X y b Hy0 HX) as [Em Ed]. rewrite <- Hsplit in Em, Ed.
  pose proof (shiftr_bound w x (Z.of_nat i) Hxr ltac:(lia)).
  pose proof (Z.mod_le X y HX Hy0). pose proof (Z.mod_pos_bound X y Hy0).
  assert (D = 2 * (X mod y) + Z.b2z b) as ED.
  { apply wrap_small. destruct b; simpl in *; lia. }
  rewrite Em, Ed, ED. split.
  - destruct (Z.leb_spec y (2 * (X mod y) + Z.b2z b)); [|done].
    apply wrap_small. lia.
  - rewrite zb_insert by (lia || apply Z.mul_pow2_bits_low; lia).
    replace (X / y * pow2 (S i) + Z.b2z (y <=? 2 * (X mod y) + Z.b2z b) * pow2 i)
      with (Z.shiftr x (Z.of_nat i) / y * pow2 i) by (rewrite Ed, pow2_S; lia).
    rewrite <- Ed. apply bz_zb_small. pose proof (pow2_pos i).
    assert (0 <= Z.shiftr x (Z.of_nat i) / y) by (apply Z.div_pos; lia).
    assert (Z.shiftr x (Z.of_nat i) / y <= Z.shiftr x (Z.of_nat i)) by (apply Z.div_le_upper_bound; nia).
    assert (Z.shiftr x (Z.of_nat i) * pow2 i <= x).
    { rewrite Z.shiftr_div_pow2 by lia. rewrite Z.mul_comm. apply Z.mul_div_le. lia. }
    nia.
Qed.

Lemma udiv_urem_spec g xs ys x y : num g xs w x -> num g ys w y ->
  gspec g (Circuits.udiv_urem xs ys) (fun qr g' =>
    num g' qr.1 w (bvudiv w x y) /\ num g' qr.2 w (bvurem x y)).
Proof.
  intros Hx Hy. pose proof (proj1 Hx) as Hxr. pose proof (proj1 Hy) as Hyr.
  unfold Circuits.udiv_urem. rewrite (num_length _ _ _ _ _ Hx).
  get_wf Hwf. do 2 apply gspec_gets.
  assert (divider_state g x y w (Circuits.zero w g) (Circuits.zero w g)) as H0.
  { exists 0, 0. split; [by apply num_false|]. split; [by apply num_false|]. intros Hy0.
    rewrite Z.shiftr_div_pow2, Z.div_small by lia. rewrite Z.mod_0_l, Z.div_0_l by lia. done. }
  gate_step (udiv_urem_loop_spec w _ xs ys x y) as rq Hrq. destruct rq as [rem quo].
  destruct Hrq as (r & q & Hr & Hq & Hinv). simpl in Hr, Hq.
  change (pow2 0) with 1 in Hinv. rewrite Z.shiftr_0_r, Z.mul_1_r in Hinv.
  gate_step (is_zero_spec ι _ ys) as dz Hdz. apply gspec_gets.
  match goal with H : wf ?g |- gspec ?g _ _ => pose proof (num_true ι g w H) as Hones end.
  gate_step (mux_bits_spec ι _ dz (Circuits.ones w _) quo) as quotient Hquot.
  gate_step (mux_bits_spec ι _ dz xs rem) as remainder Hrem.
  apply gspec_ret. simpl. unfold bvudiv, bvurem. destruct (Z.eqb_spec y 0); [done|].
  destruct Hinv as [-> ->]; [lia|]. done.
Qed.

(** *** Signed division *)

Lemma abs_bits_spec g xs x : num g xs w x ->
  gspec g (Circuits.abs_bits xs) (fun r g' => num g' r w (bvabs w x)).
Proof.
  intros Hx. destruct (num_last _ _ _ _ _ Hw Hx) as (s & E & Hs). unfold Circuits.abs_bits.
  eapply gspec_lift; [done|]. gate_step (neg_spec ι _ xs) as n Hn.
  gate_last (mux_bits_spec ι _ s n xs). done.
Qed.

Lemma sdiv_spec g xs ys x y : num g xs w x -> num g ys w y ->
  gspec g (Circuits.sdiv xs ys) (fun r g' => num g' r w (bvsdiv w x y)).
Proof.
  intros Hx Hy. destruct (num_last _ _ _ _ _ Hw Hx) as (sa & Ea & Hsa).
  destruct (num_last _ _ _ _ _ Hw Hy) as (sb & Eb & Hsb).
  rewrite bvsdiv_sign_magnitude by (done || apply Hx || apply Hy). cbv zeta.
  unfold Circuits.sdiv. do 2 (eapply gspec_lift; [done|]).
  gate_step (abs_bits_spec _ xs) as aa Haa. gate_step (abs_bits_spec _ ys) as ab Hab.
  gate_step (udiv_urem_spec _ aa ab) as qr Hqr. destruct qr as [q r]. destruct Hqr as [Hq Hr]. simpl in *.
  gate_step (neg_spec ι _ q) as nq Hnq. gate_step (xor_spec ι _ sa sb) as d Hd.
  by gate_last (mux_bits_spec ι _ d nq q).
Qed.

Lemma srem_spec g xs ys x y : num g xs w x -> num g ys w y ->
  gspec g (Circuits.srem xs ys) (fun r g' => num g' r w (bvsrem w x y)).
Proof.
  intros Hx Hy. destruct (num_last _ _ _ _ _ Hw Hx) as (sa & Ea & Hsa).
  rewrite bvsrem_sign_magnitude by (done || apply Hx || apply Hy). cbv zeta.
  unfold Circuits.srem. eapply gspec_lift; [done|].
  gate_step (abs_bits_spec _ xs) as aa Haa. gate_step (abs_bits_spec _ ys) as ab Hab.
  gate_step (udiv_urem_spec _ aa ab) as qr Hqr. destruct qr as [q r]. destruct Hqr as [Hq Hr]. simpl in *.
  gate_step (neg_spec ι _ r) as nr Hnr.
  by gate_last (mux_bits_spec ι _ sa nr r).
Qed.

Lemma smod_spec g xs ys x y : num g xs w x -> num g ys w y ->
  gspec g (Circuits.smod xs ys) (fun r g' => num g' r w (bvsmod w x y)).
Proof.
  intros Hx Hy. destruct (num_last _ _ _ _ _ Hw Hx) as (sa & Ea & Hsa).
  destruct (num_last _ _ _ _ _ Hw Hy) as (sb & Eb & Hsb).
  rewrite bvsmod_cases by (done || apply Hx || apply Hy). cbv zeta.
  unfold Circuits.smod. do 2 (eapply gspec_lift; [done|]).
  gate_step (abs_bits_spec _ xs) as aa Haa. gate_step (abs_bits_spec _ ys) as ab Hab.
  gate_step (udiv_urem_spec _ aa ab) as qr Hqr. destruct qr as [q u]. destruct Hqr as [Hq Hu]. simpl in *.
  set (U := bvurem (bvabs w x) (bvabs w y)) in *.
  gate_step (is_zero_spec ι _ u) as uz Huz. gate_step (neg_spec ι _ u) as nu Hnu.
  gate_step (sub_spec ι _ ys u) as bmu Hbmu. gate_step (add_spec ι _ ys u) as bpu Hbpu.
  gate_step (mux_bits_spec ι _ sa bmu u) as m1 Hm1.
  gate_step (mux_bits_spec ι _ sa nu bpu) as m2 Hm2.
  gate_step (mux_bits_spec ι _ sb m2 m1) as m3 Hm3.
  gate_last (mux_bits_spec ι _ uz u m3). eapply num_eq; [done|].
  by destruct (U =? 0), (msb w x), (msb w y).
Qed.

(** *** Overflow predicates *)

Lemma usub_overflow_spec g xs ys x y : num g xs w x -> num g ys w y ->
  gspec g (Circuits.usub_overflow xs ys) (fun r g' => bit g' r (bvusubo x y)).
Proof.
  intros Hx Hy. rewrite (bvusubo_lt w) by done. unfold Circuits.usub_overflow.
  by gate_last (ult_spec ι _ xs ys).
Qed.

Lemma sadd_overflow_spec g xs ys x y : num g xs w x -> num g ys w y ->
  gspec g (Circuits.sadd_overflow xs ys) (fun r g' => bit g' r (bvsaddo w x y)).
Proof.
  intros Hx Hy. rewrite bvsaddo_signs by (done || apply Hx || apply Hy).
  unfold Circuits.sadd_overflow. gate_step (add_spec ι _ xs ys) as s Hs.
  destruct (num_last _ _ _ _ _ Hw Hx) as (sa & Ea & Hsa).
  destruct (num_last _ _ _ _ _ Hw Hy) as (sb & Eb & Hsb).
  destruct (num_last _ _ _ _ _ Hw Hs) as (ss & Es & Hss).
  do 3 (eapply gspec_lift; [done|]).
  gate_step (xnor_spec ι _ sa sb) as d1 Hd1. gate_step (xor_spec ι _ sa ss) as d2 Hd2.
  by gate_last (and_spec ι _ d1 d2).
Qed.

Lemma ssub_overflow_spec g xs ys x y : num g xs w x -> num g ys w y ->
  gspec g (Circuits.ssub_overflow xs ys) (fun r g' => bit g' r (bvssubo w x y)).
Proof.
  intros Hx Hy. rewrite bvssubo_signs by (done || apply Hx || apply Hy).
  unfold Circuits.ssub_overflow. gate_step (sub_spec ι _ xs ys) as s Hs.
  destruct (num_last _ _ _ _ _ Hw Hx) as (sa & Ea & Hsa).
  destruct (num_last _ _ _ _ _ Hw Hy) as (sb & Eb & Hsb).
  destruct (num_last _ _ _ _ _ Hw Hs) as (ss & Es & Hss).
  do 3 (eapply gspec_lift; [done|]).
  gate_step (xor_spec ι _ sa sb) as d1 Hd1. gate_step (xor_spec ι _ sa ss) as d2 Hd2.
  by gate_last (and_spec ι _ d1 d2).
Qed.

Lemma umul_overflow_spec g xs ys x y : num g xs w x -> num g ys w y ->
  gspec g (Circuits.umul_overflow xs ys) (fun r g' => bit g' r (bvumulo w x y)).
Proof.
  intros Hx Hy. rewrite bvumulo_high by (done || apply Hx || apply Hy).
  unfold Circuits.umul_overflow. rewrite (num_length _ _ _ _ _ Hx).
  get_wf Hwf. apply gspec_gets.
  pose proof (zext_spec ι g xs w x w Hwf Hx) as Hx'. pose proof (zext_spec ι g ys w y w Hwf Hy) as Hy'.
  replace (w * 2)%nat with (w + w)%nat by lia.
  destruct Hx' as [Hxr Hxs]. destruct Hy' as [Hyr Hys].
  gate_step (mul_width_spec ι _ (Circuits.zext g xs w) (Circuits.zext g ys w)) as p Hp.
  rewrite !bz_zb_small in Hp by done. fold (bvmul (w + w) x y) in Hp.
  pose proof (num_length _ _ _ _ _ Hp) as Hl. destruct Hp as [Hpr Hp].
  eapply gspec_lift; [apply slice_ok; lia|].
  replace (length p - w)%nat with w by lia. rewrite take_ge by (rewrite length_drop; lia).
  pose proof (Forall2_drop _ _ _ w Hp) as Hhigh. rewrite zb_drop in Hhigh by lia.
  replace (w + w - w)%nat with w in Hhigh by lia.
  eapply gspec_mono; [by apply (or_many_spec ι _ _ _ Hhigh)|]. cbv beta. intros r g' _ _ Hr.
  eapply bit_eq; [exact Hr|]. rewrite existsb_bz, bz_zb_small; [done|].
  split; [apply Z.shiftr_nonneg; lia|]. rewrite Z.shiftr_div_pow2 by lia.
  rewrite pow2_add in Hpr. apply Z.div_lt_upper_bound; lia.
Qed.

Lemma smul_overflow_spec g xs ys x y : num g xs w x -> num g ys w y ->
  gspec g (Circuits.smul_overflow xs ys) (fun r g' => bit g' r (bvsmulo w x y)).
Proof.
  intros Hx Hy. rewrite bvsmulo_ext by (done || apply Hx || apply Hy). cbv zeta.
  unfold Circuits.smul_overflow. rewrite (num_length _ _ _ _ _ Hx).
  destruct (sext_spec ι g xs w x w Hw Hx) as (aw & Eaw & [Har Ha]).
  destruct (sext_spec ι g ys w y w Hw Hy) as (bw & Ebw & [Hbr Hb]).
  do 2 (eapply gspec_lift; [done|]). replace (w * 2)%nat with (w + w)%nat by lia.
  gate_step (mul_width_spec ι _ aw bw) as p Hp.
  rewrite !bz_zb_small in Hp by done. fold (bvmul (w + w) (bvsext w w x) (bvsext w w y)) in Hp.
  set (P := bvmul (w + w) _ _) in *. pose proof (num_length _ _ _ _ _ Hp) as Hl.
  eapply gspec_lift; [apply slice_ok; lia|]. rewrite drop_0, Nat.sub_0_r.
  assert (num g0 (take w p) w (wrap w P)) as Hlow.
  { apply num_wrap. rewrite <- (zb_take w (w + w)) by lia. by apply Forall2_take, Hp. }
  destruct (sext_spec ι g0 _ w _ w Hw Hlow) as (sl & Esl & Hsl).
  eapply gspec_lift; [done|]. gate_step (eq_bits_spec ι _ p sl) as e He'.
  by gate_last (not_spec ι _ e).
Qed.

Lemma min_bits_spec g : wf g ->
  exists l, Circuits.min_bits w g = Ok l /\ num g l w (pow2 (w - 1)).
Proof.
  intros Hwf. unfold Circuits.min_bits. rewrite set_index_ok by (rewrite length_replicate; lia).
  eexists; split; [done|]. destruct (num_false ι g w Hwf) as [_ H].
  pose proof (bits_insert _ _ _ _ (w - 1) _ _ H (true_bit ι g Hwf)) as H'.
  rewrite zb_insert in H' by (lia || apply Z.testbit_0_l). simpl Z.b2z in H'.
  rewrite Z.add_0_l, Z.mul_1_l in H'. split; [|done].
  split; [apply Z.pow_nonneg; lia|apply Z.pow_lt_mono_r; lia].
Qed.

Lemma neg_overflow_spec g xs x : num g xs w x ->
  gspec g (Circuits.neg_overflow xs) (fun r g' => bit g' r (bvnego w x)).
Proof.
  intros Hx. rewrite bvnego_min by (done || apply Hx). unfold Circuits.neg_overflow.
  get_wf Hwf. apply gspec_get. rewrite (num_length _ _ _ _ _ Hx).
  destruct (min_bits_spec g Hwf) as (l & E & Hl). eapply gspec_lift; [done|].
  by gate_last (eq_bits_spec ι _ xs l).
Qed.

Lemma sdiv_overflow_spec g xs ys x y : num g xs w x -> num g ys w y ->
  gspec g (Circuits.sdiv_overflow xs ys) (fun r g' => bit g' r (bvsdivo w x y)).
Proof.
  intros Hx Hy. rewrite bvsdivo_min by (done || apply Hx || apply Hy).
  unfold Circuits.sdiv_overflow.
  get_wf Hwf. apply gspec_get. rewrite (num_length _ _ _ _ _ Hx).
  destruct (min_bits_spec g Hwf) as (l & E & Hl). eapply gspec_lift; [done|].
  pose proof (num_true ι g w Hwf) as Hones.
  gate_step (eq_bits_spec ι _ xs l) as e1 He1.
  gate_step (eq_bits_spec ι _ ys (replicate w (true_id g))) as e2 He2.
  by gate_last (and_spec ι _ e1 e2).
Qed.
End division.
