(* ===== verification/CircuitTheorems.v ===== *)
(** * What the gates and circuits promise

    The theorems about [gates.rs] and [circuits.rs], for a client that has a
    well-formed arena and vectors of its gates.  [reads] is the number a vector
    holds under an assignment of the inputs; a circuit's result is stated for
    every assignment at once.  Values are promised while the arena stays within
    the [u32] range of gate ids; everything else holds without that bound. *)
From S2P Require Import Prelude Bits Smt SmtFacts Bytes BytesFacts Gates GatesFacts Circuits.
From S2P Require Import CircuitsFacts.

#[local] Open Scope Z_scope.

(** ** Promises *)

Definition in_arena (g : GateArena) (xs : list GateId) : Prop :=
  Forall (fun x => (x < length (gates g))%nat) xs.

(** The unsigned number the gates hold, least significant first. *)
Definition reads (ι : nat -> bool) (g : GateArena) (xs : list GateId) : Z := bz (gval ι g <$> xs).

(** [xs] holds [w] bits whose value is [z]. *)
Definition holds (g : GateArena) (xs : list GateId) (w : nat) (z : (nat -> bool) -> Z) : Prop :=
  length xs = w /\ in_arena g xs /\ (bounded g -> forall ι, reads ι g xs = z ι).

(** A program that succeeds, only extends the arena, and whose result is [P]. *)
Definition yields {A} (g : GateArena) (m : M GateArena A) (P : A -> GateArena -> Prop) : Prop :=
  exists a g', m g = (Ok a, g') /\ wf g' /\ ext g g' /\ P a g'.

Definition word (g : GateArena) (m : M GateArena (list GateId)) (w : nat) (z : (nat -> bool) -> Z) : Prop :=
  yields g m (fun r g' => holds g' r w z).

Definition flag (g : GateArena) (m : M GateArena GateId) (b : (nat -> bool) -> bool) : Prop :=
  yields g m (fun r g' => (r < length (gates g'))%nat /\ (bounded g' -> forall ι, gval ι g' r = b ι)).

Definition pure_word (g : GateArena) (m : res (list GateId)) (w : nat) (z : (nat -> bool) -> Z) : Prop :=
  exists r, m = Ok r /\ holds g r w z.

(** ** From the specifications *)

(** A [gspec] for every assignment is one run for all of them. *)
Lemma yields_of_specs {A} g (m : M GateArena A) (Q : (nat -> bool) -> A -> GateArena -> Prop) : wf g ->
  (forall ι, gspec g m (Q ι)) -> yields g m (fun a g' => forall ι, Q ι a g').
Proof.
  intros Hwf H. destruct (wp_inv _ _ _ (H (fun _ => false) Hwf)) as (a & g' & E & [He _] & Hwf' & _).
  exists a, g'. split_and!; [done..|]. intros ι.
  pose proof (H ι Hwf) as Hw. unfold wp in Hw. rewrite E in Hw. apply Hw.
Qed.

Lemma yields_mono {A} g (m : M GateArena A) (P Q : A -> GateArena -> Prop) :
  (forall a g', P a g' -> Q a g') -> yields g m P -> yields g m Q.
Proof. intros H (a & g' & E & Hwf & He & HP). exists a, g'. auto. Qed.

Lemma bit_gval ι g x : (x < length (gates g))%nat -> bit ι g x (gval ι g x).
Proof. by split. Qed.

Lemma bits_gval ι g xs : in_arena g xs -> bits ι g xs (gval ι g <$> xs).
Proof.
  intros H. induction H as [|x xs Hx H IH]; [by constructor|]. rewrite fmap_cons.
  constructor; [by apply bit_gval|done].
Qed.

Lemma num_reads ι g xs w : in_arena g xs -> length xs = w -> num ι g xs w (reads ι g xs).
Proof.
  intros H <-. pose proof (num_of_bits ι g xs _ (bits_gval ι g xs H)) as Hn.
  by rewrite length_fmap in Hn.
Qed.

Lemma bits_in_arena ι g xs bs : bits ι g xs bs -> in_arena g xs.
Proof. intros H. induction H as [|x b xs bs [Hx _] H IH]; by constructor. Qed.

Lemma bits_value ι g xs bs : bounded g -> bits ι g xs bs -> gval ι g <$> xs = bs.
Proof.
  intros Hb H. induction H as [|x b xs bs [_ Hx] H IH]; [done|]. rewrite fmap_cons, IH. f_equal. by apply Hx.
Qed.

Lemma holds_num g xs w z : (forall ι, num ι g xs w (z ι)) -> holds g xs w z.
Proof.
  intros H. split_and!.
  - by eapply (num_length (fun _ => false)).
  - by eapply (bits_in_arena (fun _ => false)), (H (fun _ => false)).
  - intros Hb ι. destruct (H ι) as [Hz Hbits]. unfold reads.
    rewrite (bits_value _ _ _ _ Hb Hbits). by apply bz_zb_small.
Qed.

Lemma word_of_spec g m w z : wf g -> (forall ι, gspec g m (fun r g' => num ι g' r w (z ι))) -> word g m w z.
Proof. intros Hwf H. eapply yields_mono, yields_of_specs, H; [|done]. intros. by apply holds_num. Qed.

Lemma flag_of_spec g m b : wf g -> (forall ι, gspec g m (fun r g' => bit ι g' r (b ι))) -> flag g m b.
Proof.
  intros Hwf H. eapply yields_mono, yields_of_specs, H; [|done]. intros r g' Hr.
  split; [apply (Hr (fun _ => false))|]. intros Hb ι. by apply Hr.
Qed.

Lemma pure_of_spec g m w z : (forall ι, exists r, m = Ok r /\ num ι g r w (z ι)) -> pure_word g m w z.
Proof.
  intros H. destruct (H (fun _ => false)) as (r & E & _). exists r. split; [done|].
  apply holds_num. intros ι. destruct (H ι) as (r' & E' & Hr). congruence.
Qed.

(** The operands of a theorem: a word of [w] bits, and what it reads. *)
Record operand (g : GateArena) (w : nat) (xs : list GateId) : Prop := {
  op_in : in_arena g xs;
  op_length : length xs = w;
}.

Lemma operand_num ι g w xs : operand g w xs -> num ι g xs w (reads ι g xs).
Proof. intros [? ?]. by apply num_reads. Qed.

Create HintDb circuits.
#[local] Hint Resolve operand_num bit_gval bits_gval : circuits.

(** Proves a conjunction of promises from the components' specifications. *)
Ltac promises :=
  split_and!;
  lazymatch goal with
  | |- word _ _ _ _ => apply word_of_spec; [done|intros ι]
  | |- flag _ _ _ => apply flag_of_spec; [done|intros ι]
  | |- pure_word _ _ _ _ => apply pure_of_spec; intros ι
  | |- holds _ _ _ _ => apply holds_num; intros ι
  end.

(** ** Gates *)

Lemma forallb_id {A} (f : A -> bool) xs : forallb f xs = forallb id (f <$> xs).
Proof. induction xs as [|x l IH]; [done|]. rewrite fmap_cons. simpl. by rewrite IH. Qed.

Lemma existsb_id {A} (f : A -> bool) xs : existsb f xs = existsb id (f <$> xs).
Proof. induction xs as [|x l IH]; [done|]. rewrite fmap_cons. simpl. by rewrite IH. Qed.

(** *** Sharing *)

Lemma gate_pair_comm a b : order_pair a b = order_pair b a.
Proof. unfold order_pair. destruct (Nat.leb_spec a b), (Nat.leb_spec b a); f_equal; lia. Qed.

Lemma add_raw_again k g r g' : GateArena.add_raw k g = (Ok r, g') -> GateArena.add_raw k g' = (Ok r, g').
Proof.
  unfold GateArena.add_raw. destruct (gate_ids g !! k) as [i|] eqn:E.
  - intros [= <- <-]. by rewrite E.
  - intros [= <- <-]. simpl. by rewrite lookup_insert_eq.
Qed.

(** [m] run again on the arena it left gives the same gate and adds nothing. *)
Definition repeatable (g : GateArena) (m : M GateArena GateId) : Prop :=
  forall r g', m g = (Ok r, g') -> m g' = (Ok r, g').

(** What [add_raw] leaves unchanged. *)
Lemma add_raw_same k g r g' : GateArena.add_raw k g = (Ok r, g') ->
  false_id g' = false_id g /\ true_id g' = true_id g /\
  forall x, (x < length (gates g))%nat -> gates g' !! x = gates g !! x.
Proof.
  unfold GateArena.add_raw. destruct (gate_ids g !! k); intros [= <- <-]; [done|].
  split_and!; [done..|]. intros x Hx. simpl. by rewrite lookup_app_l.
Qed.

Lemma gate_at_again k g r g' x : GateArena.add_raw k g = (Ok r, g') -> (x < length (gates g))%nat ->
  exists kx, GateArena.gate_at x g = (Ok kx, g) /\ GateArena.gate_at x g' = (Ok kx, g').
Proof.
  intros (_ & _ & Hs)%add_raw_same Hx. destruct (lookup_lt_is_Some_2 _ _ Hx) as [kx Ek].
  exists kx. unfold GateArena.gate_at, mbind, M_bind, get, lift.
  by rewrite (index_Some _ _ _ Ek), (index_Some (gates g') x kx) by (by rewrite Hs).
Qed.

Lemma negation_pair_again k g r g' x y : GateArena.add_raw k g = (Ok r, g') ->
  (x < length (gates g))%nat -> (y < length (gates g))%nat ->
  exists neg, GateArena.is_negation_pair x y g = (Ok neg, g) /\ GateArena.is_negation_pair x y g' = (Ok neg, g').
Proof.
  intros E Hx Hy. destruct (gate_at_again _ _ _ _ x E Hx) as (kx & E1 & E2).
  destruct (gate_at_again _ _ _ _ y E Hy) as (ky & E3 & E4).
  unfold GateArena.is_negation_pair, mbind, M_bind. rewrite E1, E2.
  destruct (GateArena.is_not_of kx y); [by eexists|]. rewrite E3, E4. by eexists.
Qed.

Lemma repeatable_of g m :
  (forall r g', m g = (Ok r, g') -> g' = g \/ m g' = (Ok r, g')) -> repeatable g m.
Proof. intros H r g' E. by destruct (H r g' E) as [->|?]. Qed.

(** Follows a constructor's tests in [g], where it adds nothing, and in the
    extended arena, where they come out the same. *)
Ltac same_tests :=
  repeat match goal with
  | |- context [if ?c then _ else _] =>
      lazymatch c with context [if _ then _ else _] => fail | _ => destruct c eqn:?; [by intros [= <- <-]; left|] end
  end.

Ltac again E :=
  right; destruct (add_raw_same _ _ _ _ E) as (-> & -> & _);
  repeat match goal with H : _ = false |- _ => rewrite H; clear H end.

Section repeatable.
Context (g : GateArena) (a b : GateId).
Hypothesis Ha : (a < length (gates g))%nat.
Hypothesis Hb : (b < length (gates g))%nat.

Lemma ordered_lt : ((order_pair a b).1 < length (gates g))%nat /\ ((order_pair a b).2 < length (gates g))%nat.
Proof. by destruct (order_pair_cases a b) as [-> | ->]. Qed.

Lemma not_repeatable : repeatable g (GateArena.not a).
Proof.
  apply repeatable_of. intros r g'. unfold GateArena.not, mbind, M_bind, get. same_tests.
  destruct (add_raw_total (Not a) g) as (x & g1 & E).
  destruct (gate_at_again _ _ _ _ a E Ha) as (k & -> & E').
  destruct k; try (by intros [= <- <-]; left); rewrite E; intros [= <- <-]; again E; rewrite E';
    by eapply add_raw_again.
Qed.

Lemma pair_again k x g1 :
  let p := order_pair a b in
  GateArena.add_raw k g = (Ok x, g1) ->
  exists neg, GateArena.is_negation_pair p.1 p.2 g = (Ok neg, g) /\
    GateArena.is_negation_pair p.1 p.2 g1 = (Ok neg, g1).
Proof. intros p E. destruct ordered_lt. by eapply negation_pair_again. Qed.

Lemma and_repeatable : repeatable g (GateArena.and a b).
Proof.
  apply repeatable_of. intros r g'. unfold GateArena.and.
  pose proof pair_again as Hp. cbv zeta in Hp.
  destruct (order_pair a b) as [x y]. unfold mbind, M_bind, get. same_tests.
  destruct (add_raw_total (And x y) g) as (z & g1 & E).
  destruct (Hp _ _ _ E) as ([] & Eg & Eg1); simpl in *; rewrite Eg; [by intros [= <- <-]; left|].
  rewrite E. intros [= <- <-]. again E. rewrite Eg1. by eapply add_raw_again.
Qed.

Lemma or_repeatable : repeatable g (GateArena.or a b).
Proof.
  apply repeatable_of. intros r g'. unfold GateArena.or.
  pose proof pair_again as Hp. cbv zeta in Hp.
  destruct (order_pair a b) as [x y]. unfold mbind, M_bind, get. same_tests.
  destruct (add_raw_total (Or x y) g) as (z & g1 & E).
  destruct (Hp _ _ _ E) as ([] & Eg & Eg1); simpl in *; rewrite Eg; [by intros [= <- <-]; left|].
  rewrite E. intros [= <- <-]. again E. rewrite Eg1. by eapply add_raw_again.
Qed.
End repeatable.

(** The gate constructors compute the functions they are named after, for
    every assignment of the inputs: each simplification they apply (constants,
    equal operands, negation pairs, double negation) is sound, and the n-ary ones
    may stop early at the absorbing constant.  An arena they extend stays well
    formed and keeps its gates.  Gates are shared: a well-formed arena within range
    has no gate twice; the binary constructors do not depend on the order of their
    operands; and asking again for a negation, conjunction or disjunction gives the
    same gate and adds nothing. *)
Lemma gates_correct g a b c xs : wf g ->
  (a < length (gates g))%nat -> (b < length (gates g))%nat -> (c < length (gates g))%nat ->
  in_arena g xs ->
  (flag g (GateArena.not a) (fun ι => negb (gval ι g a)) /\
  flag g (GateArena.and a b) (fun ι => gval ι g a && gval ι g b) /\
  flag g (GateArena.or a b) (fun ι => gval ι g a || gval ι g b) /\
  flag g (GateArena.xor a b) (fun ι => xorb (gval ι g a) (gval ι g b)) /\
  flag g (GateArena.xnor a b) (fun ι => eqb (gval ι g a) (gval ι g b)) /\
  flag g (GateArena.implies a b) (fun ι => implb (gval ι g a) (gval ι g b)) /\
  flag g (GateArena.mux c a b) (fun ι => if gval ι g c then gval ι g a else gval ι g b) /\
  flag g (GateArena.and_many xs) (fun ι => forallb (gval ι g) xs) /\
  flag g (GateArena.or_many xs) (fun ι => existsb (gval ι g) xs)) /\
  ((bounded g -> NoDup (gates g)) /\
   GateArena.and a b g = GateArena.and b a g /\
   GateArena.or a b g = GateArena.or b a g /\
   GateArena.xor a b g = GateArena.xor b a g /\
   repeatable g (GateArena.not a) /\ repeatable g (GateArena.and a b) /\ repeatable g (GateArena.or a b)).
Proof.
  intros Hwf Ha Hb Hc Hxs. split.
  { promises.
    - apply not_spec; auto with circuits.
    - apply and_spec; auto with circuits.
    - apply or_spec; auto with circuits.
    - apply xor_spec; auto with circuits.
    - apply xnor_spec; auto with circuits.
    - apply implies_spec; auto with circuits.
    - apply mux_spec; auto with circuits.
    - rewrite forallb_id. apply and_many_spec; auto with circuits.
    - rewrite existsb_id. apply or_many_spec; auto with circuits. }
  split_and!;
    [| unfold GateArena.and, GateArena.or, GateArena.xor; by rewrite (gate_pair_comm a b)..
     |by apply not_repeatable|by apply and_repeatable|by apply or_repeatable].
  intros Hbd. apply NoDup_alt. intros i j k Hi Hj. destruct (wf_consistent _ Hwf Hbd) as [_ _ Hinv _ _].
  apply Hinv in Hi, Hj. congruence.
Qed.

(** ** Words *)

(** The bitwise, additive and multiplicative circuits compute SMT-LIB's
    operations modulo [2^w]: not, and, or, xor, the ripple-carry adder, the
    subtractor, negation, the shift-and-add multiplier, and the multiplier by a
    constant, which recodes the constant by its bits.  The division circuits compute
    its total divisions: the restoring divider gives the quotient and the remainder
    (all ones and the dividend for a zero divisor), and the signed ones give the
    truncated quotient, its remainder, and the modulo that takes the divisor's sign. *)
Lemma arithmetic_circuits_correct g w xs ys cs c : wf g -> (0 < w)%nat ->
  operand g w xs -> operand g w ys -> bv_repr w cs c ->
  (word g (Circuits.bitwise_not xs) w (fun ι => bvnot w (reads ι g xs)) /\
   word g (Circuits.bv_and xs ys) w (fun ι => Z.land (reads ι g xs) (reads ι g ys)) /\
   word g (Circuits.bv_or xs ys) w (fun ι => Z.lor (reads ι g xs) (reads ι g ys)) /\
   word g (Circuits.bv_xor xs ys) w (fun ι => Z.lxor (reads ι g xs) (reads ι g ys)) /\
   word g (Circuits.add xs ys) w (fun ι => bvadd w (reads ι g xs) (reads ι g ys)) /\
   word g (Circuits.sub xs ys) w (fun ι => bvsub w (reads ι g xs) (reads ι g ys)) /\
   word g (Circuits.neg xs) w (fun ι => bvneg w (reads ι g xs)) /\
   word g (Circuits.mul xs ys) w (fun ι => bvmul w (reads ι g xs) (reads ι g ys)) /\
   word g (Circuits.mul_const xs cs) w (fun ι => bvmul w (reads ι g xs) c)) /\
  (yields g (Circuits.udiv_urem xs ys) (fun qr g' =>
     holds g' qr.1 w (fun ι => bvudiv w (reads ι g xs) (reads ι g ys)) /\
     holds g' qr.2 w (fun ι => bvurem (reads ι g xs) (reads ι g ys))) /\
   word g (Circuits.sdiv xs ys) w (fun ι => bvsdiv w (reads ι g xs) (reads ι g ys)) /\
   word g (Circuits.srem xs ys) w (fun ι => bvsrem w (reads ι g xs) (reads ι g ys)) /\
   word g (Circuits.smod xs ys) w (fun ι => bvsmod w (reads ι g xs) (reads ι g ys))).
Proof.
  intros Hwf Hw Hx Hy Hc. split; [|split].
  - promises; [apply bitwise_not_spec|apply bitwise_and_spec|apply bitwise_or_spec|apply bitwise_xor_spec
      |apply add_spec|apply sub_spec|apply neg_spec|apply mul_spec|apply mul_const_spec]; auto with circuits.
  - eapply yields_mono; [|apply yields_of_specs; [done|]; intros ι;
      by apply (udiv_urem_spec ι w Hw g xs ys); auto with circuits].
    simpl. intros qr g' H. split; apply holds_num; intros ι; apply (H ι).
  - promises; [apply sdiv_spec|apply srem_spec|apply smod_spec]; auto with circuits.
Qed.

(** The comparison circuits decide equality, zero, and the unsigned and
    signed orders; the word multiplexer selects; and the overflow circuits decide
    whether the exact result of each operation is outside the range of the width. *)
Lemma predicate_circuits_correct g w xs ys c : wf g -> (0 < w)%nat ->
  operand g w xs -> operand g w ys -> (c < length (gates g))%nat ->
  flag g (Circuits.eq_bits xs ys) (fun ι => reads ι g xs =? reads ι g ys) /\
  flag g (Circuits.is_zero xs) (fun ι => reads ι g xs =? 0) /\
  flag g (Circuits.ult xs ys) (fun ι => reads ι g xs <? reads ι g ys) /\
  flag g (Circuits.ule xs ys) (fun ι => reads ι g xs <=? reads ι g ys) /\
  flag g (Circuits.slt xs ys) (fun ι => bvslt w (reads ι g xs) (reads ι g ys)) /\
  flag g (Circuits.sle xs ys) (fun ι => bvsle w (reads ι g xs) (reads ι g ys)) /\
  word g (Circuits.mux_bits c xs ys) w (fun ι => if gval ι g c then reads ι g xs else reads ι g ys) /\
  flag g (Circuits.uadd_overflow xs ys) (fun ι => bvuaddo w (reads ι g xs) (reads ι g ys)) /\
  flag g (Circuits.usub_overflow xs ys) (fun ι => bvusubo (reads ι g xs) (reads ι g ys)) /\
  flag g (Circuits.sadd_overflow xs ys) (fun ι => bvsaddo w (reads ι g xs) (reads ι g ys)) /\
  flag g (Circuits.ssub_overflow xs ys) (fun ι => bvssubo w (reads ι g xs) (reads ι g ys)) /\
  flag g (Circuits.umul_overflow xs ys) (fun ι => bvumulo w (reads ι g xs) (reads ι g ys)) /\
  flag g (Circuits.smul_overflow xs ys) (fun ι => bvsmulo w (reads ι g xs) (reads ι g ys)) /\
  flag g (Circuits.neg_overflow xs) (fun ι => bvnego w (reads ι g xs)) /\
  flag g (Circuits.sdiv_overflow xs ys) (fun ι => bvsdivo w (reads ι g xs) (reads ι g ys)).
Proof.
  intros Hwf Hw Hx Hy Hc. promises.
  - apply (eq_bits_spec ι g xs ys w); auto with circuits.
  - apply (is_zero_spec ι g xs w); auto with circuits.
  - apply (ult_spec ι g xs ys w); auto with circuits.
  - apply (ule_spec ι g xs ys w); auto with circuits.
  - apply slt_spec; auto with circuits.
  - apply sle_spec; auto with circuits.
  - apply mux_bits_spec; auto with circuits.
  - apply uadd_overflow_spec; auto with circuits.
  - apply (usub_overflow_spec ι w); auto with circuits.
  - apply sadd_overflow_spec; auto with circuits.
  - apply ssub_overflow_spec; auto with circuits.
  - apply umul_overflow_spec; auto with circuits.
  - apply smul_overflow_spec; auto with circuits.
  - apply neg_overflow_spec; auto with circuits.
  - apply sdiv_overflow_spec; auto with circuits.
Qed.

(** The barrel shifters compute SMT-LIB's shifts by a word: distances of
    the width or more give zero, or copies of the sign.  The number of stages is
    the width, so a stage's distance saturates instead of overflowing [usize].  The
    structural circuits rearrange gates and add none: concatenation, extraction,
    zero and sign extension, repetition and rotation read as SMT-LIB defines them,
    and extraction, sign extension and rotation do not panic on operands in range. *)
Lemma shift_circuits_correct g w xs ys wl ls high low extra count amount : wf g -> (0 < w)%nat ->
  Z.of_nat w <= usize_max -> operand g w xs -> operand g w ys -> operand g wl ls -> (low <= high < w)%nat ->
  (word g (Circuits.shl xs ys) w (fun ι => bvshl w (reads ι g xs) (reads ι g ys)) /\
   word g (Circuits.lshr xs ys) w (fun ι => bvlshr w (reads ι g xs) (reads ι g ys)) /\
   word g (Circuits.ashr xs ys) w (fun ι => bvashr w (reads ι g xs) (reads ι g ys))) /\
  (holds g (Circuits.concat xs ls) (w + wl) (fun ι => bvconcat wl (reads ι g xs) (reads ι g ls)) /\
   pure_word g (Circuits.extract xs high low) (high - low + 1) (fun ι => bvextract high low (reads ι g xs)) /\
   holds g (Circuits.zext g xs extra) (w + extra) (fun ι => reads ι g xs) /\
   pure_word g (Circuits.sext xs extra) (w + extra) (fun ι => bvsext w extra (reads ι g xs)) /\
   holds g (Circuits.repeat xs count) (w * count) (fun ι => bvrepeat w count (reads ι g xs)) /\
   pure_word g (Circuits.rotate_left xs amount) w (fun ι => bvrotl w amount (reads ι g xs)) /\
   pure_word g (Circuits.rotate_right xs amount) w (fun ι => bvrotr w amount (reads ι g xs))).
Proof.
  intros Hwf Hw Hmax Hx Hy Hl Hr. split.
  - promises; [apply shl_spec|apply lshr_spec|apply ashr_spec]; auto with circuits.
  - promises; [apply concat_spec|apply (extract_spec ι g xs w)|apply (zext_spec ι g xs w)|apply sext_spec
      |apply repeat_spec|apply rotate_left_spec|apply rotate_right_spec]; auto with circuits.
Qed.

(** ** Witnesses

    On the arena of [sample_gates]: two inputs, gates 2 and 3, and their exclusive
    or, gate 4. *)
Lemma sample_in_arena l : forallb (fun x => x <? length (gates sample_gates))%nat l = true ->
  in_arena sample_gates l.
Proof.
  rewrite forallb_forall. intros H. apply Forall_forall. intros x Hx.
  by apply Nat.ltb_lt, H, list_elem_of_In.
Qed.

Lemma sample_operand l : forallb (fun x => x <? length (gates sample_gates))%nat l = true ->
  operand sample_gates (length l) l.
Proof. intros H. split; [by apply sample_in_arena|done]. Qed.

Create HintDb witnesses.

Lemma sample_constant : bv_repr 2 [3] 3.
Proof. split; [reflexivity|repeat constructor; lia|reflexivity|reflexivity]. Qed.

#[local] Hint Extern 1 (operand sample_gates _ _) =>
  (apply (sample_operand [_; _]); vm_compute; reflexivity) : witnesses.
#[local] Hint Extern 1 (in_arena sample_gates _) => (apply sample_in_arena; vm_compute; reflexivity) : witnesses.
#[local] Hint Extern 1 (_ < _)%nat => (vm_compute; lia) : witnesses.
#[local] Hint Resolve sample_gates_wf sample_constant : witnesses.

(** ** The theorems *)

(** C31: the circuits of words compute SMT-LIB's operations.  Bitwise, additive and
    multiplicative ones modulo [2^w]: not, and, or, xor, the ripple-carry adder, the
    subtractor, negation, the shift-and-add multiplier, and the multiplier by a
    constant, which recodes the constant by its bits.  The total divisions: the
    restoring divider gives the quotient and the remainder (all ones and the dividend for a
    zero divisor), and the signed ones the truncated quotient, its remainder, and the modulo
    that takes the divisor's sign.  The barrel shifters, whose stages' distances saturate
    instead of overflowing [usize]: distances of the width or more give zero, or copies of
    the sign.  The structural circuits rearrange gates and add none: concatenation,
    extraction, zero and sign extension, repetition and rotation read as SMT-LIB defines
    them, and do not panic on operands in range. *)
Theorem word_circuits_correct g w xs ys cs c wl ls high low extra count amount : wf g -> (0 < w)%nat ->
  operand g w xs -> operand g w ys -> bv_repr w cs c ->
  (word g (Circuits.bitwise_not xs) w (fun ι => bvnot w (reads ι g xs)) /\
   word g (Circuits.bv_and xs ys) w (fun ι => Z.land (reads ι g xs) (reads ι g ys)) /\
   word g (Circuits.bv_or xs ys) w (fun ι => Z.lor (reads ι g xs) (reads ι g ys)) /\
   word g (Circuits.bv_xor xs ys) w (fun ι => Z.lxor (reads ι g xs) (reads ι g ys)) /\
   word g (Circuits.add xs ys) w (fun ι => bvadd w (reads ι g xs) (reads ι g ys)) /\
   word g (Circuits.sub xs ys) w (fun ι => bvsub w (reads ι g xs) (reads ι g ys)) /\
   word g (Circuits.neg xs) w (fun ι => bvneg w (reads ι g xs)) /\
   word g (Circuits.mul xs ys) w (fun ι => bvmul w (reads ι g xs) (reads ι g ys)) /\
   word g (Circuits.mul_const xs cs) w (fun ι => bvmul w (reads ι g xs) c)) /\
  (yields g (Circuits.udiv_urem xs ys) (fun qr g' =>
     holds g' qr.1 w (fun ι => bvudiv w (reads ι g xs) (reads ι g ys)) /\
     holds g' qr.2 w (fun ι => bvurem (reads ι g xs) (reads ι g ys))) /\
   word g (Circuits.sdiv xs ys) w (fun ι => bvsdiv w (reads ι g xs) (reads ι g ys)) /\
   word g (Circuits.srem xs ys) w (fun ι => bvsrem w (reads ι g xs) (reads ι g ys)) /\
   word g (Circuits.smod xs ys) w (fun ι => bvsmod w (reads ι g xs) (reads ι g ys))) /\
  (Z.of_nat w <= usize_max -> operand g wl ls -> (low <= high < w)%nat ->
   (word g (Circuits.shl xs ys) w (fun ι => bvshl w (reads ι g xs) (reads ι g ys)) /\
   word g (Circuits.lshr xs ys) w (fun ι => bvlshr w (reads ι g xs) (reads ι g ys)) /\
   word g (Circuits.ashr xs ys) w (fun ι => bvashr w (reads ι g xs) (reads ι g ys))) /\
  (holds g (Circuits.concat xs ls) (w + wl) (fun ι => bvconcat wl (reads ι g xs) (reads ι g ls)) /\
   pure_word g (Circuits.extract xs high low) (high - low + 1) (fun ι => bvextract high low (reads ι g xs)) /\
   holds g (Circuits.zext g xs extra) (w + extra) (fun ι => reads ι g xs) /\
   pure_word g (Circuits.sext xs extra) (w + extra) (fun ι => bvsext w extra (reads ι g xs)) /\
   holds g (Circuits.repeat xs count) (w * count) (fun ι => bvrepeat w count (reads ι g xs)) /\
   pure_word g (Circuits.rotate_left xs amount) w (fun ι => bvrotl w amount (reads ι g xs)) /\
   pure_word g (Circuits.rotate_right xs amount) w (fun ι => bvrotr w amount (reads ι g xs)))).
Proof.
  intros Hwf Hw Hx Hy Hc. destruct (arithmetic_circuits_correct g w xs ys cs c Hwf Hw Hx Hy Hc) as [H1 H2].
  split; [exact H1|]. split; [exact H2|]. intros Hmax Hl Hr. by apply shift_circuits_correct.
Qed.

Lemma word_circuits_correct_witness :
  word sample_gates (Circuits.mul [2; 3]%nat [3; 4]%nat) 2
    (fun ι => bvmul 2 (reads ι sample_gates [2; 3]%nat) (reads ι sample_gates [3; 4]%nat)) /\
  word sample_gates (Circuits.ashr [2; 3]%nat [3; 4]%nat) 2
    (fun ι => bvashr 2 (reads ι sample_gates [2; 3]%nat) (reads ι sample_gates [3; 4]%nat)) /\
  pure_word sample_gates (Circuits.rotate_left [2; 3]%nat 1) 2
    (fun ι => bvrotl 2 1 (reads ι sample_gates [2; 3]%nat)).
Proof.
  destruct (word_circuits_correct sample_gates 2 [2; 3]%nat [3; 4]%nat [3] 3 2 [3; 4]%nat 1 0 1 1 1) as (Ha & _ & Hs);
    auto with witnesses.
  destruct Hs as ((_ & _ & H1) & H2); auto with witnesses; [vm_compute; discriminate|].
  split_and!; [apply Ha|exact H1|apply H2].
Defined.

(** C32: the gates and the circuits of predicates.  The gate constructors compute the
    functions they are named after, for every assignment of the inputs: each simplification
    they apply (constants, equal operands, negation pairs, double negation) is sound, and the
    n-ary ones may stop early at the absorbing constant.  An arena they extend stays well
    formed and keeps its gates.  Gates are shared: a well-formed arena within range has no
    gate twice; the binary constructors do not depend on the order of their operands; and asking
    again for a negation, conjunction or disjunction gives the same gate and adds nothing.
    The comparison circuits decide equality, zero, and the unsigned and signed orders;
    the word multiplexer selects; and the overflow circuits decide whether the exact result
    of each operation is outside the range of the width. *)
Theorem flag_circuits_correct g w a b c xs ys : wf g -> (0 < w)%nat ->
  (a < length (gates g))%nat -> (b < length (gates g))%nat -> (c < length (gates g))%nat ->
  operand g w xs -> operand g w ys ->
  ((flag g (GateArena.not a) (fun ι => negb (gval ι g a)) /\
  flag g (GateArena.and a b) (fun ι => gval ι g a && gval ι g b) /\
  flag g (GateArena.or a b) (fun ι => gval ι g a || gval ι g b) /\
  flag g (GateArena.xor a b) (fun ι => xorb (gval ι g a) (gval ι g b)) /\
  flag g (GateArena.xnor a b) (fun ι => eqb (gval ι g a) (gval ι g b)) /\
  flag g (GateArena.implies a b) (fun ι => implb (gval ι g a) (gval ι g b)) /\
  flag g (GateArena.mux c a b) (fun ι => if gval ι g c then gval ι g a else gval ι g b) /\
  flag g (GateArena.and_many xs) (fun ι => forallb (gval ι g) xs) /\
  flag g (GateArena.or_many xs) (fun ι => existsb (gval ι g) xs)) /\
  ((bounded g -> NoDup (gates g)) /\
   GateArena.and a b g = GateArena.and b a g /\
   GateArena.or a b g = GateArena.or b a g /\
   GateArena.xor a b g = GateArena.xor b a g /\
   repeatable g (GateArena.not a) /\ repeatable g (GateArena.and a b) /\ repeatable g (GateArena.or a b))) /\
  flag g (Circuits.eq_bits xs ys) (fun ι => reads ι g xs =? reads ι g ys) /\
  flag g (Circuits.is_zero xs) (fun ι => reads ι g xs =? 0) /\
  flag g (Circuits.ult xs ys) (fun ι => reads ι g xs <? reads ι g ys) /\
  flag g (Circuits.ule xs ys) (fun ι => reads ι g xs <=? reads ι g ys) /\
  flag g (Circuits.slt xs ys) (fun ι => bvslt w (reads ι g xs) (reads ι g ys)) /\
  flag g (Circuits.sle xs ys) (fun ι => bvsle w (reads ι g xs) (reads ι g ys)) /\
  word g (Circuits.mux_bits c xs ys) w (fun ι => if gval ι g c then reads ι g xs else reads ι g ys) /\
  flag g (Circuits.uadd_overflow xs ys) (fun ι => bvuaddo w (reads ι g xs) (reads ι g ys)) /\
  flag g (Circuits.usub_overflow xs ys) (fun ι => bvusubo (reads ι g xs) (reads ι g ys)) /\
  flag g (Circuits.sadd_overflow xs ys) (fun ι => bvsaddo w (reads ι g xs) (reads ι g ys)) /\
  flag g (Circuits.ssub_overflow xs ys) (fun ι => bvssubo w (reads ι g xs) (reads ι g ys)) /\
  flag g (Circuits.umul_overflow xs ys) (fun ι => bvumulo w (reads ι g xs) (reads ι g ys)) /\
  flag g (Circuits.smul_overflow xs ys) (fun ι => bvsmulo w (reads ι g xs) (reads ι g ys)) /\
  flag g (Circuits.neg_overflow xs) (fun ι => bvnego w (reads ι g xs)) /\
  flag g (Circuits.sdiv_overflow xs ys) (fun ι => bvsdivo w (reads ι g xs) (reads ι g ys)).
Proof.
  intros Hwf Hw Ha Hb Hc Hx Hy. split; [apply gates_correct; try done; apply Hx|by apply predicate_circuits_correct].
Qed.

Lemma flag_circuits_correct_witness :
  flag sample_gates (GateArena.and 2 3) (fun ι => gval ι sample_gates 2 && gval ι sample_gates 3) /\
  flag sample_gates (Circuits.slt [2; 3]%nat [3; 4]%nat)
    (fun ι => bvslt 2 (reads ι sample_gates [2; 3]%nat) (reads ι sample_gates [3; 4]%nat)).
Proof.
  destruct (flag_circuits_correct sample_gates 2 2 3 4 [2; 3]%nat [3; 4]%nat) as [[Hg _] Hp]; auto with witnesses.
  split; [apply Hg|apply Hp].
Defined.
