(* ===== verification/Blast.v ===== *)
(** * Bit-blasting ([blast.rs])

    Translates the reachable part of a query's arena, node by node, into gates,
    and conjoins the roots into one assertion gate. *)
From S2P Require Import Prelude Bits Bytes Ir Config Gates Circuits.

Inductive BlastedValue := BBool (gate : GateId) | BBv (bits : list GateId).

Record BlastedVariable := mkBlastedVariable {
  bv_term : TermId;
  bv_name : string;
  bv_external : option nat;
  bv_sort : Sort;
  bv_bits : list GateId;
}.

Record BlastResult := mkBlastResult {
  br_gates : GateArena;
  br_assertion : GateId;
  br_variables : list BlastedVariable;
}.

Record BlastContext := mkBlastContext {
  bc_gates : GateArena;
  bc_values : list (option BlastedValue);
  bc_variables : list BlastedVariable;
}.

(** ** Reachability *)

(** In the order [push_children] pushes them. *)
Definition push_children (k : NodeKind) : list TermId :=
  match k with
  | BvConst _ _ | BvVar _ _ _ | BoolConst _ | BoolVar _ _ => []
  | BvNot x | BvNeg x | BvExtract x _ _ | BvZeroExtend x _ | BvSignExtend x _ | BvRepeat x _
  | BvRotateLeft x _ | BvRotateRight x _ | BoolNot x | NegOverflow x => [x]
  | BvAnd a b | BvOr a b | BvXor a b | BvAdd a b | BvSub a b | BvMul a b | BvUDiv a b
  | BvURem a b | BvSDiv a b | BvSRem a b | BvSMod a b | BvShl a b | BvLShr a b | BvAShr a b
  | BvConcat a b | BoolAnd a b | BoolOr a b | BoolImplies a b | BoolEq a b | BvEq a b
  | BvUlt a b | BvUle a b | BvSlt a b | BvSle a b | UAddOverflow a b | SAddOverflow a b
  | USubOverflow a b | SSubOverflow a b | UMulOverflow a b | SMulOverflow a b
  | SDivOverflow a b => [a; b]
  | BvIte c t e | BoolIte c t e => [c; t; e]
  | BvSelect cases default => default :: mjoin ((fun c => [c.1; c.2]) <$> cases)
  end.

(** The worklist loop.  The stack's top is the head of the list; running out of
    fuel, which [reach_fuel] excludes, is a [Panic] here. *)
Fixpoint reach_loop (a : Arena) (lim : Limits) (fuel steps : nat) (stack : list TermId)
    (reachable : list bool) : res (list bool) :=
  match fuel with
  | O => Panic
  | S fuel =>
      match stack with
      | [] => Ok reachable
      | id :: stack =>
          _ ← (if (steps mod Z.to_nat 4096 =? 0)%nat then check_limits lim [steps] else Ok tt);
          match reachable !! id with
          | None => Err (Invalid "term id")
          | Some true => reach_loop a lim fuel (S steps) stack reachable
          | Some false =>
              let reachable := <[id := true]> reachable in
              node ← Arena.node a id;
              reach_loop a lim fuel (S steps) (reverse (push_children (kind node)) ++ stack) reachable
          end
      end
  end.

(** The initial stack, bottom first: the roots, then the target. *)
Definition initial_stack (q : Query) : list TermId :=
  assertions_and_assumptions q ++ match target q with Some t => [t] | None => [] end.

(** Every pop either removes an entry or marks a new node and pushes its children. *)
Definition reach_fuel (q : Query) : nat :=
  length (initial_stack q)
  + sum_list ((fun n => S (length (push_children (kind n)))) <$> nodes (arena q)) + 1.

Definition reachable_terms (q : Query) (lim : Limits) : res (list bool) :=
  reach_loop (arena q) lim (reach_fuel q) 0 (reverse (initial_stack q))
    (replicate (length (nodes (arena q))) false).

(** ** The context *)

Definition on_gates {A} (m : M GateArena A) : M BlastContext A := fun ctx =>
  let '(r, g) := m (bc_gates ctx) in
  (r, {| bc_gates := g; bc_values := bc_values ctx; bc_variables := bc_variables ctx |}).

Definition push_variable (v : BlastedVariable) : M BlastContext unit := fun ctx =>
  (Ok tt, {| bc_gates := bc_gates ctx; bc_values := bc_values ctx;
             bc_variables := bc_variables ctx ++ [v] |}).

Definition set_value (i : nat) (v : BlastedValue) : M BlastContext unit := fun ctx =>
  match set_index (bc_values ctx) i (Some v) with
  | Ok values => (Ok tt, {| bc_gates := bc_gates ctx; bc_values := values;
                            bc_variables := bc_variables ctx |})
  | Err e => (Err e, ctx)
  | Panic => (Panic, ctx)
  end.

Definition bc_value (ctx : BlastContext) (id : TermId) : res BlastedValue :=
  match bc_values ctx !! id with
  | Some (Some v) => Ok v
  | _ => Err (Internal "term has not been blasted")
  end.

Definition bc_bool (id : TermId) : M BlastContext GateId := fun ctx =>
  (v ← bc_value ctx id;
   match v with BBool gate => Ok gate | BBv _ => Err (Internal "expected Bool blasted value") end,
   ctx).

Definition bc_bv (id : TermId) : M BlastContext (list GateId) := fun ctx =>
  (v ← bc_value ctx id;
   match v with BBv bits => Ok bits | BBool _ => Err (Internal "expected BV blasted value") end,
   ctx).

(** ** One node *)

Definition bv_const_value (q : Query) (id : TermId) : res (option (nat * list Z)) :=
  n ← Arena.node (arena q) id;
  Ok (match kind n with BvConst width bytes => Some (width, bytes) | _ => None end).

Definition byte_bit (byte : Z) (bit : nat) : bool :=
  negb (Z.land (Z.shiftr byte (Z.of_nat (bit mod 8))) 1 =? 0)%Z.

(** The counting loop stops once it has seen three set bits. *)
Fixpoint count_ones (bytes : list Z) (bits : list nat) (ones : nat) : nat :=
  match bits with
  | [] => ones
  | bit :: bits =>
      if byte_bit (default 0%Z (bytes !! (bit / 8))) bit
      then if 2 <? S ones then S ones else count_ones bytes bits (S ones)
      else count_ones bytes bits ones
  end.

Definition use_constant_multiplier (bytes : list Z) (width : nat) : bool :=
  (count_ones bytes (seq 0 width) 0 <=? 2)
  || forallb (fun bit => byte_bit (default 0%Z (bytes !! (bit / 8))) bit) (seq 0 width).

Definition B := M BlastContext BlastedValue.

Definition bv1 (x : TermId) (f : list GateId -> M GateArena (list GateId)) : B :=
  xs ← bc_bv x; r ← on_gates (f xs); mret (BBv r).
Definition bv2 (a b : TermId) (f : list GateId -> list GateId -> M GateArena (list GateId)) : B :=
  xs ← bc_bv a; ys ← bc_bv b; r ← on_gates (f xs ys); mret (BBv r).
Definition pred1 (x : TermId) (f : list GateId -> M GateArena GateId) : B :=
  xs ← bc_bv x; r ← on_gates (f xs); mret (BBool r).
Definition pred2 (a b : TermId) (f : list GateId -> list GateId -> M GateArena GateId) : B :=
  xs ← bc_bv a; ys ← bc_bv b; r ← on_gates (f xs ys); mret (BBool r).
Definition bool1 (x : TermId) (f : GateId -> M GateArena GateId) : B :=
  v ← bc_bool x; r ← on_gates (f v); mret (BBool r).
Definition bool2 (a b : TermId) (f : GateId -> GateId -> M GateArena GateId) : B :=
  av ← bc_bool a; bv ← bc_bool b; r ← on_gates (f av bv); mret (BBool r).

(** Constants and variables; a variable is also recorded for the model. *)
Definition blast_leaf (id : TermId) (k : NodeKind) : B :=
  match k with
  | BvConst width bytes =>
      bits ← mapM (fun bit =>
        byte ← lift (index bytes (bit / 8));
        on_gates (gets (fun g => GateArena.const_gate g (byte_bit byte bit)))) (seq 0 width);
      mret (BBv bits)
  | BvVar width name external =>
      bits ← mapM (fun _ => on_gates GateArena.input) (seq 0 width);
      push_variable (mkBlastedVariable id name external (SBv width) bits) ;;
      mret (BBv bits)
  | BoolConst value =>
      g ← on_gates (gets (fun g => GateArena.const_gate g value)); mret (BBool g)
  | BoolVar name external =>
      bit ← on_gates GateArena.input;
      push_variable (mkBlastedVariable id name external SBool [bit]) ;;
      mret (BBool bit)
  | _ => panic
  end.

(** Multiplication by a constant with few set bits (or all set) is shift-and-add. *)
Definition blast_mul (q : Query) (a b : TermId) : B :=
  ca ← lift (bv_const_value q a);
  match ca with
  | Some (_, bytes) =>
      ys ← bc_bv b;
      if use_constant_multiplier bytes (length ys)
      then r ← on_gates (Circuits.mul_const ys bytes); mret (BBv r)
      else xs ← bc_bv a; r ← on_gates (Circuits.mul xs ys); mret (BBv r)
  | None =>
      cb ← lift (bv_const_value q b);
      match cb with
      | Some (_, bytes) =>
          xs ← bc_bv a;
          if use_constant_multiplier bytes (length xs)
          then r ← on_gates (Circuits.mul_const xs bytes); mret (BBv r)
          else ys ← bc_bv b; r ← on_gates (Circuits.mul xs ys); mret (BBv r)
      | None =>
          xs ← bc_bv a; ys ← bc_bv b; r ← on_gates (Circuits.mul xs ys); mret (BBv r)
      end
  end.

(** The cases from the last to the first. *)
Fixpoint blast_select (cases : list (TermId * TermId)) (result : list GateId)
    : M BlastContext (list GateId) :=
  match cases with
  | [] => mret result
  | (selector, value) :: cases =>
      s ← bc_bool selector;
      v ← bc_bv value;
      result ← on_gates (Circuits.mux_bits s v result);
      blast_select cases result
  end.

(** The operations with bit-vector results. *)
Definition blast_bv (q : Query) (k : NodeKind) : B :=
  match k with
  | BvNot x => bv1 x Circuits.bitwise_not
  | BvNeg x => bv1 x Circuits.neg
  | BvAnd a b => bv2 a b Circuits.bv_and
  | BvOr a b => bv2 a b Circuits.bv_or
  | BvXor a b => bv2 a b Circuits.bv_xor
  | BvAdd a b => bv2 a b Circuits.add
  | BvSub a b => bv2 a b Circuits.sub
  | BvMul a b => blast_mul q a b
  | BvUDiv a b => bv2 a b (fun xs ys => '(quot, _) ← Circuits.udiv_urem xs ys; mret quot)
  | BvURem a b => bv2 a b (fun xs ys => '(_, rem) ← Circuits.udiv_urem xs ys; mret rem)
  | BvSDiv a b => bv2 a b Circuits.sdiv
  | BvSRem a b => bv2 a b Circuits.srem
  | BvSMod a b => bv2 a b Circuits.smod
  | BvShl a b => bv2 a b Circuits.shl
  | BvLShr a b => bv2 a b Circuits.lshr
  | BvAShr a b => bv2 a b Circuits.ashr
  | BvExtract c high low => bv1 c (fun xs => lift (Circuits.extract xs high low))
  | BvConcat h l => bv2 h l (fun xs ys => mret (Circuits.concat xs ys))
  | BvZeroExtend c extra => bv1 c (fun xs => gets (fun g => Circuits.zext g xs extra))
  | BvSignExtend c extra => bv1 c (fun xs => lift (Circuits.sext xs extra))
  | BvRepeat c count => bv1 c (fun xs => mret (Circuits.repeat xs count))
  | BvRotateLeft c amount => bv1 c (fun xs => lift (Circuits.rotate_left xs amount))
  | BvRotateRight c amount => bv1 c (fun xs => lift (Circuits.rotate_right xs amount))
  | BvIte c t e =>
      cond ← bc_bool c; ts ← bc_bv t; es ← bc_bv e;
      r ← on_gates (Circuits.mux_bits cond ts es); mret (BBv r)
  | BvSelect cases default =>
      result ← bc_bv default;
      result ← blast_select (reverse cases) result;
      mret (BBv result)
  | _ => panic
  end.

(** The operations with Boolean results. *)
Definition blast_bool (k : NodeKind) : B :=
  match k with
  | BoolNot x => bool1 x GateArena.not
  | BoolAnd a b => bool2 a b GateArena.and
  | BoolOr a b => bool2 a b GateArena.or
  | BoolImplies a b => bool2 a b GateArena.implies
  | BoolEq a b => bool2 a b GateArena.xnor
  | BoolIte c t e =>
      cv ← bc_bool c; tv ← bc_bool t; ev ← bc_bool e;
      r ← on_gates (GateArena.mux cv tv ev); mret (BBool r)
  | BvEq a b => pred2 a b Circuits.eq_bits
  | BvUlt a b => pred2 a b Circuits.ult
  | BvUle a b => pred2 a b Circuits.ule
  | BvSlt a b => pred2 a b Circuits.slt
  | BvSle a b => pred2 a b Circuits.sle
  | UAddOverflow a b => pred2 a b Circuits.uadd_overflow
  | SAddOverflow a b => pred2 a b Circuits.sadd_overflow
  | USubOverflow a b => pred2 a b Circuits.usub_overflow
  | SSubOverflow a b => pred2 a b Circuits.ssub_overflow
  | UMulOverflow a b => pred2 a b Circuits.umul_overflow
  | SMulOverflow a b => pred2 a b Circuits.smul_overflow
  | NegOverflow x => pred1 x Circuits.neg_overflow
  | SDivOverflow a b => pred2 a b Circuits.sdiv_overflow
  | _ => panic
  end.

Definition blast_kind (q : Query) (id : TermId) (k : NodeKind) : B :=
  match k with
  | BvConst _ _ | BvVar _ _ _ | BoolConst _ | BoolVar _ _ => blast_leaf id k
  | BvNot _ | BvNeg _ | BvAnd _ _ | BvOr _ _ | BvXor _ _ | BvAdd _ _ | BvSub _ _ | BvMul _ _
  | BvUDiv _ _ | BvURem _ _ | BvSDiv _ _ | BvSRem _ _ | BvSMod _ _ | BvShl _ _ | BvLShr _ _
  | BvAShr _ _ | BvExtract _ _ _ | BvConcat _ _ | BvZeroExtend _ _ | BvSignExtend _ _
  | BvRepeat _ _ | BvRotateLeft _ _ | BvRotateRight _ _ | BvIte _ _ _ | BvSelect _ _ =>
      blast_bv q k
  | _ => blast_bool k
  end.

(** ** The whole query *)

Definition is_variable (k : NodeKind) : bool :=
  match k with BvVar _ _ _ | BoolVar _ _ => true | _ => false end.

(** Whether node [i] is translated. *)
Definition included (q : Query) (reachable : list bool) (i : nat) (k : NodeKind) : res bool :=
  r ← index reachable i;
  Ok (r || (want_model q && is_variable k)).

Fixpoint blast_nodes (q : Query) (lim : Limits) (reachable : list bool) (rest : list Node) (i : nat)
    : M BlastContext unit :=
  match rest with
  | [] => mret tt
  | node :: rest =>
      lift (if (i mod Z.to_nat 1024 =? 0)%nat then check_limits lim [i] else Ok tt) ;;
      inc ← lift (included q reachable i (kind node));
      (if (inc : bool) then
         value ← blast_kind q (u32 i) (kind node);
         set_value i value
       else mret tt) ;;
      blast_nodes q lim reachable rest (S i)
  end.

Definition blast_steps (q : Query) (lim : Limits) : M BlastContext GateId :=
  reachable ← lift (reachable_terms q (under 0 lim));
  blast_nodes q (under 1 lim) reachable (nodes (arena q)) 0 ;;
  assertion_bits ← mapM bc_bool (assertions_and_assumptions q);
  on_gates (GateArena.and_many assertion_bits).

Definition blast_query_with_limits (q : Query) (lim : Limits) : res BlastResult :=
  let ctx := {| bc_gates := GateArena.new;
                bc_values := replicate (length (nodes (arena q))) None;
                bc_variables := [] |} in
  match blast_steps q lim ctx with
  | (Ok assertion, ctx) =>
      Ok {| br_gates := bc_gates ctx; br_assertion := assertion; br_variables := bc_variables ctx |}
  | (Err e, _) => Err e
  | (Panic, _) => Panic
  end.
