(* ===== verification/BlastFacts.v ===== *)
(** * Bit-blasting is faithful

    First the reachability worklist: it terminates within its fuel and its
    result contains the roots and is closed under operands.  Then each node:
    its gates hold the value [Sem.denote] gives it.  Then the query: the
    assertion gate is true exactly when the environment read off the variables'
    gates satisfies the query, and every environment is read off some input. *)
From S2P Require Import Prelude Bits Smt SmtFacts Bytes BytesFacts Ir Sem Config Gates GatesFacts.
From S2P Require Import Circuits CircuitsFacts Blast.

(** ** Reachability *)

(** The shape of a typing hypothesis, without using it up. *)
Ltac typing_shape :=
  repeat match goal with
  | H : Some _ = Some _ |- _ => injection H as H; try subst
  | H : None = Some _ |- _ => discriminate H
  | H : SBv _ = ?s |- _ => is_var s; subst s
  | H : SBool = ?s |- _ => is_var s; subst s
  | H : when _ _ = Some _ |- _ => apply when_Some in H as [? H]
  | H : _ && _ = true |- _ => apply andb_true_iff in H as [? ?]
  | H : _ <$> ?o = Some _ |- _ => let E := fresh "Ew" in destruct o eqn:E; simpl in H
  | H : ?o ≫= _ = Some _ |- _ => let E := fresh "Ew" in destruct o eqn:E; simpl in H
  | H : binary_width _ _ _ = Some _ |- _ => apply binary_width_Some in H as [? ?]
  end.

Lemma children_lt prior k s : sort_of_kind prior k = Some s ->
  Forall (fun x => x < length prior) (push_children k).
Proof.
  destruct k; cbn [sort_of_kind push_children]; intros Hs; typing_shape;
    repeat (apply Forall_cons; split); try apply Forall_nil_2; eauto using width_at_lt, bool_at_lt.
  match goal with H : forallb _ _ = true |- _ => revert H end.
  induction cases as [|[sel v] cases IH]; [constructor|]. simpl.
  intros [[? ?%bool_decide_eq_true]%andb_true_iff ?]%andb_true_iff.
  repeat (apply Forall_cons; split); eauto using width_at_lt, bool_at_lt.
Qed.

Lemma node_children_lt ns i n : well_typed ns = true -> ns !! i = Some n ->
  Forall (fun x => x < i) (push_children (kind n)).
Proof.
  intros Hwt Hi. pose proof (well_typed_lookup _ _ _ Hwt Hi) as [Hs%bool_decide_eq_true _]%andb_true_iff.
  apply children_lt in Hs. pose proof (lookup_lt_Some _ _ _ Hi).
  eapply Forall_impl; [exact Hs|]. simpl. intros x. rewrite length_take. lia.
Qed.

Definition weight (n : Node) (r : bool) : nat := if r then 0 else S (length (push_children (kind n))).
Definition unmarked (ns : list Node) (reach : list bool) : nat := sum_list (zip_with weight ns reach).

Lemma unmarked_insert ns reach i n : ns !! i = Some n -> reach !! i = Some false ->
  unmarked ns (<[i := true]> reach) + S (length (push_children (kind n))) = unmarked ns reach.
Proof.
  unfold unmarked. revert reach i. induction ns as [|m ns IH]; intros [|r reach] [|i]; try done.
  - intros [= ->] [= ->]. simpl. lia.
  - intros Hn Hr. simpl. specialize (IH reach i Hn Hr). lia.
Qed.

Lemma unmarked_initial ns :
  unmarked ns (replicate (length ns) false)
  = sum_list ((fun n => S (length (push_children (kind n)))) <$> ns).
Proof. unfold unmarked. induction ns as [|n ns IH]; [done|]. simpl. by rewrite IH. Qed.

Definition marked (reach : list bool) (i : nat) : Prop := reach !! i = Some true.

Lemma marked_insert reach i j : marked reach j -> marked (<[i := true]> reach) j.
Proof.
  unfold marked. intros H. destruct (decide (i = j)) as [->|].
  - apply list_lookup_insert_eq. by eapply lookup_lt_Some.
  - by rewrite list_lookup_insert_ne.
Qed.

(** Operands of marked nodes are marked or waiting. *)
Definition closed_up_to (ns : list Node) (reach : list bool) (stack : list TermId) : Prop :=
  forall i n x, marked reach i -> ns !! i = Some n -> x ∈ push_children (kind n) ->
    marked reach x \/ x ∈ stack.

Definition reach_post (a : Arena) (lim : Limits) (stack : list TermId) (reach : list bool)
    (r : res (list bool)) : Prop :=
  match r with
  | Ok reach' =>
      length reach' = length (nodes a) /\ closed_up_to (nodes a) reach' [] /\
      (forall x, marked reach x \/ x ∈ stack -> marked reach' x)
  | Err e => e = Timeout /\ ~ never lim
  | Panic => False
  end.

Lemma reach_post_mono a lim stack stack' reach reach' r :
  (forall x, marked reach' x \/ x ∈ stack' -> marked reach x \/ x ∈ stack) ->
  reach_post a lim stack reach r -> reach_post a lim stack' reach' r.
Proof. intros H. destruct r; simpl; [|done..]. intros (? & ? & Hm). split_and!; auto. Qed.

Section reach.
Context (a : Arena).
Hypothesis Hwt : well_typed (nodes a) = true.

Lemma reach_loop_spec lim fuel : forall steps stack reach,
  length stack + unmarked (nodes a) reach < fuel ->
  length reach = length (nodes a) ->
  Forall (fun x => x < length (nodes a)) stack ->
  closed_up_to (nodes a) reach stack ->
  reach_post a lim stack reach (reach_loop a lim fuel steps stack reach).
Proof.
  induction fuel as [|fuel IH]; intros steps stack reach Hfuel Hlen Hstack Hcl; [lia|].
  cbn [reach_loop]. destruct stack as [|id stack].
  { split_and!; try done. intros x [Hx|Hx]; [done|]. by apply elem_of_nil in Hx. }
  apply Forall_cons in Hstack as [Hid Hstack].
  assert ((if steps mod Z.to_nat 4096 =? 0 then check_limits lim [steps] else Ok tt) = Ok tt \/
    (if steps mod Z.to_nat 4096 =? 0 then check_limits lim [steps] else Ok tt) = Err Timeout /\ ~ never lim)
    as [-> | [-> Hl]] by (destruct (_ =? 0); [apply check_limits_cases|by left]); [|done].
  cbn [mbind res_bind length] in *.
  destruct (lookup_lt_is_Some_2 reach id) as [r Er]; [lia|]. rewrite Er.
  destruct (lookup_lt_is_Some_2 (nodes a) id) as [n En]; [done|].
  destruct r.
  - eapply reach_post_mono; [|apply (IH (S steps) stack reach); try done; [lia|]].
    + intros x. rewrite elem_of_cons. intros [?|[->|?]]; auto.
    + intros i m x Hi Hm Hx. destruct (Hcl i m x Hi Hm Hx) as [?|Hin]; [by left|].
      apply elem_of_cons in Hin as [->|?]; [by left|by right].
  - unfold Arena.node. rewrite En. cbn [mbind res_bind].
    pose proof (unmarked_insert _ _ _ _ En Er) as Hdec.
    pose proof (node_children_lt _ _ _ Hwt En) as Hch.
    assert (marked (<[id := true]> reach) id) as Hself by (apply list_lookup_insert_eq; lia).
    eapply reach_post_mono; [|apply (IH (S steps))].
    + intros x. rewrite elem_of_cons, elem_of_app. intros [?|[->|?]]; auto using marked_insert.
    + rewrite length_app, length_reverse. lia.
    + by rewrite length_insert.
    + apply Forall_app. split; [|done]. apply Forall_reverse.
      eapply Forall_impl; [exact Hch|]. simpl. lia.
    + intros i m x Hi Hm Hx. destruct (decide (i = id)) as [->|Hne].
      { right. apply elem_of_app. left. apply elem_of_reverse. congruence. }
      unfold marked in Hi. rewrite list_lookup_insert_ne in Hi by done.
      destruct (Hcl i m x Hi Hm Hx) as [?|Hin]; [left; by apply marked_insert|].
      apply elem_of_cons in Hin as [->|?]; [by left|].
      right. apply elem_of_app. by right.
Qed.
End reach.

Lemma initial_stack_lt q : well_formed q = true ->
  Forall (fun x => x < length (nodes (arena q))) (initial_stack q).
Proof.
  intros [_ [Hb [Ht _]%andb_true_iff]%andb_true_iff]%andb_true_iff.
  apply Forall_app. split.
  - apply Forall_forall. intros x Hx. rewrite forallb_forall in Hb.
    apply bool_at_lt, Hb. by apply list_elem_of_In.
  - destruct (target q); [|constructor]. constructor; [by apply Nat.ltb_lt|constructor].
Qed.

(** The worklist terminates within its fuel; what it marks contains the roots
    and the target and is closed under operands. *)
Lemma reachable_terms_spec q lim : well_formed q = true ->
  reach_post (arena q) lim (initial_stack q) [] (reachable_terms q lim).
Proof.
  intros Hwf. pose proof Hwf as [Hwt _]%andb_true_iff. unfold reachable_terms.
  eapply reach_post_mono; [|apply (reach_loop_spec _ Hwt)].
  - intros x [?|Hx]; [done|]. right. by apply elem_of_reverse.
  - rewrite length_reverse, unmarked_initial. unfold reach_fuel. lia.
  - apply length_replicate.
  - by apply Forall_reverse, initial_stack_lt.
  - intros i n x Hi. unfold marked in Hi. apply lookup_replicate in Hi as [[=] _].
Qed.

(** the reachability worklist of a well-formed query ends within its fuel and
    never indexes out of range; what it marks contains every root and the target,
    and with a node all its operands. *)
Theorem reachable_terms_correct q lim : well_formed q = true ->
  match reachable_terms q lim with
  | Ok reach =>
      length reach = length (nodes (arena q)) /\
      (forall t, t ∈ assertions_and_assumptions q \/ target q = Some t -> marked reach t) /\
      (forall i n x, marked reach i -> nodes (arena q) !! i = Some n -> x ∈ push_children (kind n) ->
         marked reach x)
  | Err e => e = Timeout /\ ~ never lim
  | Panic => False
  end.
Proof.
  intros Hwf. pose proof (reachable_terms_spec q lim Hwf) as H.
  destruct (reachable_terms q lim) as [reach|e|]; [|done..].
  destruct H as (Hl & Hc & Hm). split_and!; [done| |].
  - intros t Ht. apply Hm. right. unfold initial_stack.
    destruct Ht as [Ht| ->]; apply elem_of_app; [by left|right; by left].
  - intros i n x Hi Hn Hx. by destruct (Hc i n x Hi Hn Hx) as [?|?%elem_of_nil].
Qed.

(** In the sample query everything but the overflow predicate is reachable. *)
Lemma reachable_terms_correct_witness :
  reachable_terms sample_query unlimited = Ok [true; true; true; true; true; false] /\
  forall t, t ∈ assertions_and_assumptions sample_query \/ target sample_query = Some t ->
    marked [true; true; true; true; true; false] t.
Proof.
  assert (reachable_terms sample_query unlimited = Ok [true; true; true; true; true; false]) as E
    by (vm_compute; reflexivity).
  split; [exact E|]. pose proof (reachable_terms_correct sample_query unlimited eq_refl) as H.
  rewrite E in H. exact (proj1 (proj2 H)).
Defined.

(** ** Terms in terms of their operands

    The value of a node of a well-typed arena is the operation applied to the
    values its operands have in the same arena. *)

#[local] Open Scope Z_scope.

Section terms.
Context (env : Env) (ns : list Node).
Hypothesis Hwt : well_typed ns = true.

Lemma operand_value i n x : ns !! i = Some n -> x ∈ push_children (kind n) ->
  denote env (take i ns) !! x = denote env ns !! x.
Proof.
  intros Hi Hx. pose proof (node_children_lt _ _ _ Hwt Hi) as Hlt. rewrite Forall_forall in Hlt.
  specialize (Hlt x Hx). simpl in Hlt. pose proof (lookup_lt_Some _ _ _ Hi).
  destruct (lookup_lt_is_Some_2 (denote env (take i ns)) x) as [v E].
  { rewrite length_denote, length_take. lia. }
  rewrite E. symmetry. eapply prefix_lookup_Some; [exact E|]. apply denote_prefix.
  exists (drop i ns). symmetry. apply take_drop.
Qed.

Lemma operand_sem_bv i n x : ns !! i = Some n -> x ∈ push_children (kind n) ->
  sem_bv (denote env (take i ns)) x = sem_bv (denote env ns) x.
Proof. intros Hi Hx. unfold sem_bv. by rewrite (operand_value i n x Hi Hx). Qed.

Lemma operand_sem_w i n x : ns !! i = Some n -> x ∈ push_children (kind n) ->
  sem_w (denote env (take i ns)) x = sem_w (denote env ns) x.
Proof. intros Hi Hx. unfold sem_w. by rewrite (operand_value i n x Hi Hx). Qed.

Lemma operand_sem_bool i n x : ns !! i = Some n -> x ∈ push_children (kind n) ->
  sem_bool (denote env (take i ns)) x = sem_bool (denote env ns) x.
Proof. intros Hi Hx. unfold sem_bool. by rewrite (operand_value i n x Hi Hx). Qed.

Lemma operand_sem_select vals vals' cases d : sem_bv vals d = sem_bv vals' d ->
  (forall c, c ∈ cases -> sem_bool vals c.1 = sem_bool vals' c.1 /\ sem_bv vals c.2 = sem_bv vals' c.2) ->
  sem_select vals cases d = sem_select vals' cases d.
Proof.
  intros Hd. induction cases as [|[s v] cases IH]; [done|]. intros Hc. simpl.
  destruct (Hc (s, v)) as [Hs Hv]; [by constructor|]. simpl in Hs, Hv. rewrite Hs, Hv. case_match; [done|].
  apply IH. intros c Hin. apply Hc. by constructor.
Qed.

(** The value of a node, over the values of the whole arena. *)
Lemma denote_kind i n : ns !! i = Some n -> denote env ns !! i = Some (sem_kind env i (denote env ns) (kind n)).
Proof.
  intros Hi. rewrite (denote_lookup _ _ _ _ Hi). f_equal.
  pose proof (fun x => operand_sem_bv i n x Hi) as Hb. pose proof (fun x => operand_sem_w i n x Hi) as Hw.
  pose proof (fun x => operand_sem_bool i n x Hi) as Ho. destruct n as [k s]. simpl in *.
  destruct k; simpl in *; rewrite ?Hw, ?Hb, ?Ho by set_solver; try done.
  f_equal. apply operand_sem_select; [apply Hb; set_solver|].
  intros c Hc. assert (forall x, x ∈ [c.1; c.2] ->
    x ∈ default :: mjoin ((fun c : TermId * TermId => [c.1; c.2]) <$> cases)) as Hin.
  { intros x Hx. constructor. apply list_elem_of_join. exists [c.1; c.2]. split; [done|].
    apply list_elem_of_fmap. by exists c. }
  split; [apply Ho|apply Hb]; apply Hin; set_solver.
Qed.

(** The kinds the clients look through. *)
Lemma denote_eq i a b s : ns !! i = Some (mkNode (BvEq a b) s) ->
  sem_bool (denote env ns) i = (sem_bv (denote env ns) a =? sem_bv (denote env ns) b).
Proof. intros Hi. unfold sem_bool at 1. by rewrite (denote_kind _ _ Hi). Qed.

Lemma denote_ult i a b s : ns !! i = Some (mkNode (BvUlt a b) s) ->
  sem_bool (denote env ns) i = (sem_bv (denote env ns) a <? sem_bv (denote env ns) b).
Proof. intros Hi. unfold sem_bool at 1. by rewrite (denote_kind _ _ Hi). Qed.

Lemma denote_and i a b s : ns !! i = Some (mkNode (BoolAnd a b) s) ->
  sem_bool (denote env ns) i = sem_bool (denote env ns) a && sem_bool (denote env ns) b.
Proof. intros Hi. unfold sem_bool at 1. by rewrite (denote_kind _ _ Hi). Qed.

Lemma denote_add i a b s : ns !! i = Some (mkNode (BvAdd a b) s) ->
  sem_bv (denote env ns) i =
  bvadd (sem_w (denote env ns) a) (sem_bv (denote env ns) a) (sem_bv (denote env ns) b).
Proof. intros Hi. unfold sem_bv at 1. by rewrite (denote_kind _ _ Hi). Qed.

Lemma denote_extract i c high low s : ns !! i = Some (mkNode (BvExtract c high low) s) ->
  sem_bv (denote env ns) i = bvextract high low (sem_bv (denote env ns) c).
Proof. intros Hi. unfold sem_bv at 1. by rewrite (denote_kind _ _ Hi). Qed.

Lemma denote_const i w bytes s : ns !! i = Some (mkNode (BvConst w bytes) s) ->
  sem_bv (denote env ns) i = bval bytes.
Proof. intros Hi. unfold sem_bv at 1. by rewrite (denote_lookup _ _ _ _ Hi). Qed.
End terms.
