(* ===== verification/BuilderSpec.v ===== *)
(** * Specifications of arena programs

    The vocabulary the builder's correctness is stated in.  [inv] is the arena
    invariant, [isbv s t w x] says the term [t] of the arena [s] is a bit-vector of
    width [w] whose value under every environment [env] is [x env], and
    [aspec s m Q] is total correctness of a constructor [m] run in [s]: it never
    panics, only extends the arena, keeps the invariant, and returns a result that
    satisfies [Q] unless the 2^32 ids are used up. *)
From S2P Require Import Prelude Bits Smt SmtFacts Bytes BytesFacts Ir Sem.
From S2P Require Import EvaluatorFacts BlastFacts Blast Polynomial Builder.

#[local] Open Scope Z_scope.

(** ** The arena invariant *)

Definition is_const (ns : list Node) (t : TermId) : Prop :=
  exists w bs s, ns !! t = Some (mkNode (BvConst w bs) s).

(** Shift nodes are in the normal forms that [bv_shl] and [bv_lshr] leave: no
    left shift of two constants, and the amounts of nested right shifts ordered.
    Termination of [bv_add] and of [bv_lshr] depends on them. *)
Definition normal_kind (ns : list Node) (k : NodeKind) : Prop :=
  match k with
  | BvShl a b => ~ (is_const ns a /\ is_const ns b)
  | BvLShr a b => forall x ia s, ns !! a = Some (mkNode (BvLShr x ia) s) -> (ia <= b)%nat
  | _ => True
  end.

Record inv (s : Arena) : Prop := {
  inv_wf : wf_arena s;
  inv_length : Z.of_nat (length (nodes s)) <= 2 ^ 32;
  inv_normal : forall i n, nodes s !! i = Some n -> normal_kind (nodes s) (kind n);
}.

Definition grows (s s' : Arena) : Prop := nodes s `prefix_of` nodes s'.
Definition exhausted (s : Arena) : Prop := Z.of_nat (length (nodes s)) = 2 ^ 32.

#[export] Instance grows_preorder : PreOrder grows.
Proof. unfold grows. split; [intros s; reflexivity|intros s1 s2 s3 ? ?; by etrans]. Qed.

Lemma grows_lookup s s' i n : grows s s' -> nodes s !! i = Some n -> nodes s' !! i = Some n.
Proof. intros Hg Hi. by eapply prefix_lookup_Some. Qed.

Lemma inv_typed s : inv s -> well_typed (nodes s) = true.
Proof. intros H. apply H. Qed.

Lemma inv_new : inv Arena.new.
Proof. split; [apply arena_new_wf|done|]. intros i n. simpl. by rewrite lookup_nil. Qed.

(** ** Terms and their values *)

Definition val (s : Arena) (t : TermId) (env : Env) : Z := sem_bv (denote env (nodes s)) t.
Definition truth (s : Arena) (t : TermId) (env : Env) : bool := sem_bool (denote env (nodes s)) t.

Definition isbv (s : Arena) (t : TermId) (w : nat) (x : Env -> Z) : Prop :=
  width_at (nodes s) t = Some w /\ forall env, val s t env = x env.

Definition isbool (s : Arena) (t : TermId) (p : Env -> bool) : Prop :=
  bool_at (nodes s) t = true /\ forall env, truth s t env = p env.

Definition isconst (s : Arena) (t : TermId) (w : nat) (z : Z) : Prop :=
  exists bs, nodes s !! t = Some (mkNode (BvConst w bs) (SBv w)) /\ bv_repr w bs z.

Lemma isbv_val s t w : width_at (nodes s) t = Some w -> isbv s t w (val s t).
Proof. by split. Qed.

Lemma isbv_ext s t w x y : (forall env, x env = y env) -> isbv s t w x -> isbv s t w y.
Proof. intros E [Hw Hx]. split; [done|]. intros env. by rewrite <- E. Qed.

Lemma isbool_ext s t p q : (forall env, p env = q env) -> isbool s t p -> isbool s t q.
Proof. intros E [Hw Hx]. split; [done|]. intros env. by rewrite <- E. Qed.

Lemma isbv_grow s s' t w x : grows s s' -> isbv s t w x -> isbv s' t w x.
Proof.
  intros Hg [Hw Hx]. split; [by eapply width_at_grow|]. intros env. rewrite <- Hx.
  unfold val. apply sem_bv_prefix; [done|]. by eapply width_at_lt.
Qed.

Lemma isbool_grow s s' t p : grows s s' -> isbool s t p -> isbool s' t p.
Proof.
  intros Hg [Hw Hx]. split; [by eapply bool_at_grow|]. intros env. rewrite <- Hx.
  unfold truth. apply sem_bool_prefix; [done|]. by apply bool_at_lt.
Qed.

Lemma isconst_grow s s' t w z : grows s s' -> isconst s t w z -> isconst s' t w z.
Proof. intros Hg (bs & Hn & Hb). exists bs. split; [by eapply grows_lookup|done]. Qed.

Lemma isbv_legal s t w x : inv s -> isbv s t w x -> legal w.
Proof. intros Hi [Hw _]. eapply width_legal, Hw. by apply inv_typed. Qed.

Lemma isbv_sem s t w x env : inv s -> isbv s t w x ->
  sem_w (denote env (nodes s)) t = w /\ sem_bv (denote env (nodes s)) t = x env.
Proof.
  intros Hi [Hw Hx]. split; [|apply Hx].
  by apply (vals_ok_bv _ _ _ _ (denote_ok env _ (inv_typed _ Hi)) Hw).
Qed.

Lemma isbool_sem s t p env : isbool s t p -> sem_bool (denote env (nodes s)) t = p env.
Proof. intros [_ Hp]. apply Hp. Qed.

Lemma isbv_range s t w x env : inv s -> isbv s t w x -> 0 <= x env < pow2 w.
Proof.
  intros Hi [Hw Hx]. rewrite <- Hx.
  by apply (vals_ok_bv _ _ _ _ (denote_ok env _ (inv_typed _ Hi)) Hw).
Qed.

Lemma isbv_inj s t w w' x y : isbv s t w x -> isbv s t w' y -> w = w' /\ forall env, x env = y env.
Proof. intros [Hw Hx] [Hw' Hy]. split; [congruence|]. intros env. by rewrite <- Hx. Qed.

Lemma isbool_inj s t p q : isbool s t p -> isbool s t q -> forall env, p env = q env.
Proof. intros [_ Hp] [_ Hq] env. by rewrite <- Hp. Qed.

(** ** What a node says about its operands *)

Lemma sem_select_take env ns i n cases d : well_typed ns = true -> ns !! i = Some n ->
  (forall x, x ∈ d :: (fst <$> cases) ++ (snd <$> cases) -> x ∈ push_children (kind n)) ->
  sem_select (denote env (take i ns)) cases d = sem_select (denote env ns) cases d.
Proof.
  intros Hwt Hi. induction cases as [|[c v] cases IH]; intros Hx; simpl in *.
  - apply (operand_sem_bv env ns Hwt i n); [done|]. apply Hx. by left.
  - rewrite IH by (intros x Hin; apply Hx; revert Hin; rewrite !elem_of_cons, !elem_of_app, !elem_of_cons; tauto).
    rewrite (operand_sem_bool env ns Hwt i n c Hi) by (apply Hx; right; by left).
    rewrite (operand_sem_bv env ns Hwt i n v Hi); [done|]. apply Hx. right.
    rewrite elem_of_cons, elem_of_app, elem_of_cons. tauto.
Qed.

Lemma case_operands (cases : list (TermId * TermId)) (d : TermId) x :
  x ∈ d :: (fst <$> cases) ++ (snd <$> cases) ->
  x ∈ d :: mjoin ((fun c => [c.1; c.2]) <$> cases).
Proof.
  rewrite !elem_of_cons, elem_of_app, !list_elem_of_fmap.
  intros [->|[(c & -> & Hc)|(c & -> & Hc)]]; [by left|right..]; apply list_elem_of_join;
    exists [c.1; c.2]; (split; [repeat (first [by left|right])|]); apply list_elem_of_fmap; by exists c.
Qed.

Lemma node_value ns env i n : well_typed ns = true -> ns !! i = Some n ->
  denote env ns !! i = Some (sem_kind env i (denote env ns) (kind n)).
Proof.
  intros Hwt Hi. rewrite (denote_lookup _ _ _ _ Hi). f_equal.
  pose proof (operand_sem_bv env ns Hwt i n) as Hb. pose proof (operand_sem_w env ns Hwt i n) as Hw.
  pose proof (operand_sem_bool env ns Hwt i n) as Ho. pose proof (sem_select_take env ns i n) as Hs.
  destruct (kind n) eqn:E; simpl; try reflexivity;
    rewrite ?Hb, ?Hw, ?Ho by (first [done|simpl; repeat (first [by left|right])]); try reflexivity.
  - f_equal. apply Hs; [done..|]. simpl. apply case_operands.
Qed.

Lemma node_typed s i n : inv s -> nodes s !! i = Some n ->
  sort_of_kind (take i (nodes s)) (kind n) = Some (sort n).
Proof.
  intros Hi Hn. pose proof (well_typed_lookup _ _ _ (inv_typed _ Hi) Hn) as Hok.
  by apply andb_true_iff in Hok as [?%bool_decide_eq_true _].
Qed.

Lemma isbv_take s i x w : width_at (take i (nodes s)) x = Some w ->
  (x < i)%nat /\ isbv s x w (val s x).
Proof.
  intros Hw. pose proof (width_at_lt _ _ _ Hw) as Hlt. rewrite length_take in Hlt.
  split; [lia|]. apply isbv_val. eapply width_at_grow, Hw. exists (drop i (nodes s)).
  by rewrite take_drop.
Qed.

Lemma isbool_take s i x : bool_at (take i (nodes s)) x = true -> (x < i)%nat /\ isbool s x (truth s x).
Proof.
  intros Hw. pose proof (bool_at_lt _ _ Hw) as Hlt. rewrite length_take in Hlt.
  split; [lia|]. split; [|done]. eapply bool_at_grow, Hw. exists (drop i (nodes s)).
  by rewrite take_drop.
Qed.

(** Reads the operands' sorts off a typing equation. *)
Ltac operand_facts :=
  repeat match goal with
  | H : Some _ = Some _ |- _ => injection H as H; try subst
  | H : None = Some _ |- _ => discriminate H
  | H : SBv _ = SBv _ |- _ => injection H as H; try subst
  | H : SBool = SBv _ |- _ => discriminate H
  | H : SBv _ = SBool |- _ => discriminate H
  | H : when _ _ = Some _ |- _ => apply when_Some in H as [? H]
  | H : _ && _ = true |- _ => apply andb_true_iff in H as [? ?]
  | H : _ <$> ?o = Some _ |- _ => let E := fresh "E" in destruct o eqn:E; simpl in H
  | H : ?o ≫= _ = Some _ |- _ => let E := fresh "E" in destruct o eqn:E; simpl in H
  | H : binary_width _ _ _ = Some _ |- _ => apply binary_width_Some in H as [? ?]
  | H : width_at (take _ (nodes _)) _ = Some _ |- _ => apply isbv_take in H as [? ?]
  | H : bool_at (take _ (nodes _)) _ = true |- _ => apply isbool_take in H as [? ?]
  end.

(** Rewrites the operands of a [sem_kind] to the values they are known to have. *)
Ltac operand_values Hi env :=
  repeat match goal with
  | H : isbv _ ?t _ _ |- context [sem_w (denote env _) ?t] =>
      rewrite (proj1 (isbv_sem _ _ _ _ env Hi H))
  | H : isbv _ ?t _ _ |- context [sem_bv (denote env _) ?t] =>
      rewrite (proj2 (isbv_sem _ _ _ _ env Hi H))
  | H : isbool _ ?t _ |- context [sem_bool (denote env _) ?t] =>
      rewrite (isbool_sem _ _ _ env H)
  end.

Lemma isbv_sort s t w x k so : isbv s t w x -> nodes s !! t = Some (mkNode k so) -> so = SBv w.
Proof. intros [Hw _] Hn. unfold width_at in Hw. rewrite Hn in Hw. by destruct so; simplify_eq/=. Qed.

Lemma isbool_sort s t p k so : isbool s t p -> nodes s !! t = Some (mkNode k so) -> so = SBool.
Proof. intros [Hw _] Hn. unfold bool_at in Hw. rewrite Hn in Hw. by destruct so. Qed.

Lemma isbv_kind s t w x k so env : inv s -> isbv s t w x -> nodes s !! t = Some (mkNode k so) ->
  sem_kind env t (denote env (nodes s)) k = VBv w (x env).
Proof.
  intros Hi [Hw Hx] Hn.
  destruct (vals_ok_bv _ _ _ _ (denote_ok env _ (inv_typed _ Hi)) Hw) as (_ & _ & Hv).
  rewrite (node_value _ env _ _ (inv_typed _ Hi) Hn) in Hv. injection Hv as ->. by rewrite <- Hx.
Qed.

Lemma isbool_kind s t p k so env : inv s -> isbool s t p -> nodes s !! t = Some (mkNode k so) ->
  sem_kind env t (denote env (nodes s)) k = VBool (p env).
Proof.
  intros Hi [Hw Hp] Hn.
  pose proof (vals_ok_bool _ _ _ (denote_ok env _ (inv_typed _ Hi)) Hw) as Hv.
  rewrite (node_value _ env _ _ (inv_typed _ Hi) Hn) in Hv. injection Hv as ->. by rewrite <- Hp.
Qed.

Definition number (v : value) : Z := match v with VBv _ z => z | VBool _ => 0 end.

(** What each kind a rewrite looks through says about its operands. *)
Section views.
Context (s : Arena) (t : TermId) (w : nat) (x : Env -> Z) (so : Sort).
Hypothesis Hi : inv s.
Hypothesis Hx : isbv s t w x.

Ltac view_open Hn :=
  pose proof (node_typed _ _ _ Hi Hn) as Ht;
  pose proof (isbv_sort _ _ _ _ _ _ Hx Hn) as Eso; subst so; simpl in Ht; operand_facts.

Ltac view_close Hn :=
  split_and!; try done; try (intros env; pose proof (isbv_kind _ _ _ _ _ _ env Hi Hx Hn) as Hk;
    apply (f_equal number) in Hk; simpl in Hk; rewrite <- Hk; operand_values Hi env; done).

Ltac view Hn := view_open Hn; view_close Hn.

(** The width of the operand [c]. *)
Ltac width_of c := match goal with H : isbv s c ?cw _ |- _ => exists cw end.

Lemma view_const w' bs : nodes s !! t = Some (mkNode (BvConst w' bs) so) ->
  w' = w /\ bv_repr w bs (bval bs) /\ forall env, x env = bval bs.
Proof. intros Hn. view Hn. by apply canonical_spec. Qed.

Lemma view_not c : nodes s !! t = Some (mkNode (BvNot c) so) ->
  (c < t)%nat /\ isbv s c w (val s c) /\ forall env, x env = bvnot w (val s c env).
Proof. intros Hn. view Hn. Qed.

Lemma view_neg c : nodes s !! t = Some (mkNode (BvNeg c) so) ->
  (c < t)%nat /\ isbv s c w (val s c) /\ forall env, x env = bvneg w (val s c env).
Proof. intros Hn. view Hn. Qed.

Lemma view_and a b : nodes s !! t = Some (mkNode (BvAnd a b) so) ->
  isbv s a w (val s a) /\ isbv s b w (val s b) /\ forall env, x env = Z.land (val s a env) (val s b env).
Proof. intros Hn. view Hn. Qed.

Lemma view_or a b : nodes s !! t = Some (mkNode (BvOr a b) so) ->
  isbv s a w (val s a) /\ isbv s b w (val s b) /\ forall env, x env = Z.lor (val s a env) (val s b env).
Proof. intros Hn. view Hn. Qed.

Lemma view_xor a b : nodes s !! t = Some (mkNode (BvXor a b) so) ->
  isbv s a w (val s a) /\ isbv s b w (val s b) /\ forall env, x env = Z.lxor (val s a env) (val s b env).
Proof. intros Hn. view Hn. Qed.

Lemma view_add a b : nodes s !! t = Some (mkNode (BvAdd a b) so) ->
  (a < t)%nat /\ (b < t)%nat /\ isbv s a w (val s a) /\ isbv s b w (val s b) /\
  forall env, x env = bvadd w (val s a env) (val s b env).
Proof. intros Hn. view Hn. Qed.

Lemma view_sub a b : nodes s !! t = Some (mkNode (BvSub a b) so) ->
  isbv s a w (val s a) /\ isbv s b w (val s b) /\ forall env, x env = bvsub w (val s a env) (val s b env).
Proof. intros Hn. view Hn. Qed.

Lemma view_mul a b : nodes s !! t = Some (mkNode (BvMul a b) so) ->
  (a < t)%nat /\ (b < t)%nat /\ isbv s a w (val s a) /\ isbv s b w (val s b) /\
  forall env, x env = bvmul w (val s a env) (val s b env).
Proof. intros Hn. view Hn. Qed.

Lemma view_shl a b : nodes s !! t = Some (mkNode (BvShl a b) so) ->
  (a < t)%nat /\ (b < t)%nat /\ isbv s a w (val s a) /\ isbv s b w (val s b) /\
  forall env, x env = bvshl w (val s a env) (val s b env).
Proof. intros Hn. view Hn. Qed.

Lemma view_lshr a b : nodes s !! t = Some (mkNode (BvLShr a b) so) ->
  (a < t)%nat /\ (b < t)%nat /\ isbv s a w (val s a) /\ isbv s b w (val s b) /\
  forall env, x env = bvlshr w (val s a env) (val s b env).
Proof. intros Hn. view Hn. Qed.

Lemma view_extract c high low : nodes s !! t = Some (mkNode (BvExtract c high low) so) ->
  exists cw, (c < t)%nat /\ (low <= high)%nat /\ (high < cw)%nat /\ w = (high - low + 1)%nat /\
    isbv s c cw (val s c) /\ forall env, x env = bvextract high low (val s c env).
Proof. intros Hn. view_open Hn. width_of c. view_close Hn; [by apply Nat.leb_le|by apply Nat.ltb_lt]. Qed.

Lemma view_concat h l : nodes s !! t = Some (mkNode (BvConcat h l) so) ->
  exists wh wl, (h < t)%nat /\ (l < t)%nat /\ w = (wh + wl)%nat /\
    isbv s h wh (val s h) /\ isbv s l wl (val s l) /\
    forall env, x env = bvconcat wl (val s h env) (val s l env).
Proof. intros Hn. view_open Hn. eexists _, _. view_close Hn. Qed.

Lemma view_zext c extra : nodes s !! t = Some (mkNode (BvZeroExtend c extra) so) ->
  exists cw, (c < t)%nat /\ w = (cw + extra)%nat /\ isbv s c cw (val s c) /\
    forall env, x env = val s c env.
Proof. intros Hn. view_open Hn. width_of c. view_close Hn. Qed.

Lemma view_sext c extra : nodes s !! t = Some (mkNode (BvSignExtend c extra) so) ->
  exists cw, (c < t)%nat /\ w = (cw + extra)%nat /\ isbv s c cw (val s c) /\
    forall env, x env = bvsext cw extra (val s c env).
Proof. intros Hn. view_open Hn. width_of c. view_close Hn. Qed.

Lemma view_ite c a b : nodes s !! t = Some (mkNode (BvIte c a b) so) ->
  isbool s c (truth s c) /\ isbv s a w (val s a) /\ isbv s b w (val s b) /\
  forall env, x env = if truth s c env then val s a env else val s b env.
Proof. intros Hn. view Hn. Qed.
End views.

Lemma view_bool_not s t p c so : inv s -> isbool s t p -> nodes s !! t = Some (mkNode (BoolNot c) so) ->
  isbool s c (truth s c) /\ forall env, p env = negb (truth s c env).
Proof.
  intros Hi Hp Hn. pose proof (node_typed _ _ _ Hi Hn) as Ht. simpl in Ht. operand_facts.
  split; [done|]. intros env. pose proof (isbool_kind _ _ _ _ _ env Hi Hp Hn) as Hk.
  simpl in Hk. injection Hk as <-. done.
Qed.

Lemma view_bool_const s t p b so : inv s -> isbool s t p ->
  nodes s !! t = Some (mkNode (BoolConst b) so) -> forall env, p env = b.
Proof.
  intros Hi Hp Hn env. pose proof (isbool_kind _ _ _ _ _ env Hi Hp Hn) as Hk.
  simpl in Hk. by injection Hk as <-.
Qed.

(** ** Total correctness of constructors *)

Definition aspec {X} (s : Arena) (m : M Arena X) (Q : X -> Arena -> Prop) : Prop :=
  match m s with
  | (Ok r, s') => grows s s' /\ inv s' /\ Q r s'
  | (Err e, s') => grows s s' /\ inv s' /\ e = Invalid "arena" /\ exhausted s'
  | (Panic, _) => False
  end.

Lemma aspec_ret {X} s (r : X) (Q : X -> Arena -> Prop) : inv s -> Q r s -> aspec s (mret r) Q.
Proof. intros Hi HQ. unfold aspec, mret, M_ret. split_and!; [reflexivity|done..]. Qed.

Lemma aspec_bind {X Y} s (m : M Arena X) (k : X -> M Arena Y) Q R :
  aspec s m Q ->
  (forall r s', grows s s' -> inv s' -> Q r s' -> aspec s' (k r) R) ->
  aspec s (m ≫= k) R.
Proof.
  unfold aspec, mbind, M_bind. destruct (m s) as [[r|e|] s']; [|done..].
  intros (Hg & Hi & HQ) Hk. specialize (Hk r s' Hg Hi HQ).
  destruct (k r s') as [[r'|e|] s'']; [| |done].
  - destruct Hk as (Hg' & ? & ?). split_and!; [by etrans|done..].
  - destruct Hk as (Hg' & ? & ? & ?). split_and!; [by etrans|done..].
Qed.

Lemma aspec_mono {X} s (m : M Arena X) (Q R : X -> Arena -> Prop) : aspec s m Q ->
  (forall r s', grows s s' -> inv s' -> Q r s' -> R r s') -> aspec s m R.
Proof.
  unfold aspec. intros Hm H. destruct (m s) as [[r|e|] s']; [|done..].
  destruct Hm as (? & ? & ?). split_and!; auto.
Qed.

(** Reads and checks that succeed. *)
Lemma aspec_rd {X Y} s (f : Arena -> res X) (k : X -> M Arena Y) x R :
  f s = Ok x -> aspec s (k x) R -> aspec s (rd f ≫= k) R.
Proof. intros E H. unfold aspec, mbind, M_bind, rd. by rewrite E. Qed.

Lemma aspec_lift {X Y} s (m : res X) (k : X -> M Arena Y) x R :
  m = Ok x -> aspec s (k x) R -> aspec s (lift m ≫= k) R.
Proof. intros -> H. unfold aspec, mbind, M_bind, lift. done. Qed.

(** *** Adding a node *)

Lemma is_const_grow ns ns' t : ns `prefix_of` ns' -> (t < length ns)%nat ->
  is_const ns' t -> is_const ns t.
Proof.
  intros Hp Ht (w & bs & so & Hn). destruct (lookup_lt_is_Some_2 ns t Ht) as [n E].
  exists w, bs, so. rewrite E. by rewrite (prefix_lookup_Some _ _ _ _ E Hp) in Hn.
Qed.

Lemma normal_kind_grow ns ns' k so : ns `prefix_of` ns' -> sort_of_kind ns k = Some so ->
  normal_kind ns k -> normal_kind ns' k.
Proof.
  intros Hp Hs. destruct k; simpl in *; try done.
  - intros Hc [Ha Hb]. apply Hc. destruct (binary_width ns a b) eqn:E; [|done].
    apply binary_width_Some in E as [?%width_at_lt ?%width_at_lt]. split; by eapply is_const_grow.
  - intros HN x ia s0 Ha. destruct (binary_width ns a b) eqn:E; [|done].
    apply binary_width_Some in E as [Hlt%width_at_lt _]. apply (HN x ia s0).
    destruct (lookup_lt_is_Some_2 ns a Hlt) as [m En]. rewrite En.
    by rewrite (prefix_lookup_Some _ _ _ _ En Hp) in Ha.
Qed.

Lemma normal_add s k so s' : inv s -> node_ok (nodes s) (mkNode k so) = true ->
  normal_kind (nodes s) k -> nodes s' = nodes s ++ [mkNode k so] ->
  forall i n, nodes s' !! i = Some n -> normal_kind (nodes s') (kind n).
Proof.
  intros Hi Hok Hk E i n Hn. assert (nodes s `prefix_of` nodes s') as Hp by (rewrite E; by apply prefix_app_r).
  rewrite E in Hn. destruct (decide (i < length (nodes s))%nat) as [Hlt|].
  - rewrite lookup_app_l in Hn by done. pose proof (node_typed _ _ _ Hi Hn) as Ht.
    pose proof (inv_normal _ Hi _ _ Hn) as HN.
    destruct (kind n) eqn:Ek; simpl in HN |- *; try done; simpl in Ht; operand_facts.
    + intros [Ha Hb]. apply HN.
      split; (eapply is_const_grow; [exact Hp| |eassumption]); lia.
    + intros x ia so' Ha. apply (HN x ia so'). rewrite E in Ha. by rewrite lookup_app_l in Ha by lia.
  - apply lookup_lt_Some in Hn as Hl. rewrite length_app in Hl. simpl in Hl.
    replace i with (length (nodes s)) in Hn by lia. rewrite list_lookup_middle in Hn by done.
    injection Hn as <-. simpl. apply andb_true_iff in Hok as [Hs%bool_decide_eq_true _].
    by eapply normal_kind_grow.
Qed.

Lemma aspec_add s k so : inv s -> node_ok (nodes s) (mkNode k so) = true ->
  normal_kind (nodes s) k ->
  aspec s (Arena.add k so) (fun r s' => nodes s' !! r = Some (mkNode k so)).
Proof.
  intros Hi Hok Hk. destruct (decide (Z.of_nat (length (nodes s)) < 2 ^ 32)) as [Hl|Hl].
  - destruct (add_added s k so (inv_wf _ Hi) Hok Hl) as (id & s' & E & Ha).
    unfold aspec. rewrite E. split; [exact (ad_prefix _ _ _ _ _ Ha)|].
    split; [|exact (ad_node _ _ _ _ _ Ha)].
    split; [exact (ad_wf _ _ _ _ _ Ha)|pose proof (ad_length _ _ _ _ _ Ha); lia|].
    destruct (arena_add_spec _ _ _ _ _ (wf_ids _ (inv_wf _ Hi)) E) as (_ & _ & [->|[En _]]).
    + apply Hi.
    + by eapply normal_add.
  - pose proof (inv_length _ Hi). assert (exhausted s) as Hx by (unfold exhausted; lia).
    unfold aspec, Arena.add, mbind, M_bind, lift, get, mret, M_ret, put, fail.
    apply andb_true_iff in Hok as [_ Hs]. unfold valid_sort in Hs. simpl in Hs.
    destruct (validate_sort so) as [[]|e|]; [|done..].
    destruct (ids s !! (k, so)) as [i|] eqn:Ei.
    + split_and!; [reflexivity|done|]. by apply (wf_ids _ (inv_wf _ Hi)) in Ei.
    + destruct (Z.ltb_spec (Z.of_nat (length (nodes s))) (2 ^ 32)); [done|]. split_and!; [reflexivity|done..].
Qed.

(** The operands keep their values in the arena the node was added to. *)
Lemma aspec_add_bv s k w x : inv s -> legal w -> sort_of_kind (nodes s) k = Some (SBv w) ->
  normal_kind (nodes s) k ->
  (forall r s', grows s s' -> inv s' -> forall env, sem_kind env r (denote env (nodes s')) k = VBv w (x env)) ->
  aspec s (Arena.add k (SBv w)) (fun r s' => isbv s' r w x /\ nodes s' !! r = Some (mkNode k (SBv w))).
Proof.
  intros Hi Hw Hs Hk Hx. eapply aspec_mono; [apply aspec_add; [done| |done]|].
  - apply andb_true_iff. split; [by apply bool_decide_eq_true|by apply valid_sort_bv].
  - intros r s' Hg Hi' Hn. split; [|done]. split; [unfold width_at; by rewrite Hn|].
    intros env. unfold val, sem_bv. rewrite (node_value _ env _ _ (inv_typed _ Hi') Hn). simpl.
    by rewrite (Hx r s' Hg Hi').
Qed.

Lemma aspec_add_bool s k p : inv s -> sort_of_kind (nodes s) k = Some SBool ->
  normal_kind (nodes s) k ->
  (forall r s', grows s s' -> inv s' -> forall env, sem_kind env r (denote env (nodes s')) k = VBool (p env)) ->
  aspec s (Arena.add k SBool) (fun r s' => isbool s' r p /\ nodes s' !! r = Some (mkNode k SBool)).
Proof.
  intros Hi Hs Hk Hx. eapply aspec_mono; [apply aspec_add; [done| |done]|].
  - apply andb_true_iff. split; [by apply bool_decide_eq_true|done].
  - intros r s' Hg Hi' Hn. split; [|done]. split; [unfold bool_at; by rewrite Hn|].
    intros env. unfold truth, sem_bool. rewrite (node_value _ env _ _ (inv_typed _ Hi') Hn). simpl.
    by rewrite (Hx r s' Hg Hi').
Qed.
