(* ===== verification/BuilderReads.v ===== *)
(** * What the builder's queries read

    Each query of [Builder.v] succeeds on terms of the arena, and what it answers
    is a fact about the terms' values: a constant's bytes spell its value, the
    parts of a negation or a shift determine it, and the bits outside a term's
    mask are zero. *)
From stdpp Require Import sorting.
From S2P Require Import Prelude Bits Smt SmtFacts Bytes BytesFacts Ir Sem Evaluator EvaluatorFacts.
From S2P Require Import BlastFacts Polynomial Builder BuilderSpec.

#[local] Open Scope Z_scope.

Lemma node_read s t n : nodes s !! t = Some n -> Arena.node s t = Ok n.
Proof. unfold Arena.node. by intros ->. Qed.

Lemma isbv_node s t w x : isbv s t w x -> exists k, nodes s !! t = Some (mkNode k (SBv w)).
Proof.
  intros [Hw _]. unfold width_at in Hw. destruct (nodes s !! t) as [[k so]|]; [|done].
  simpl in Hw. destruct so; simplify_eq/=. by exists k.
Qed.

Lemma isbool_node s t p : isbool s t p -> exists k, nodes s !! t = Some (mkNode k SBool).
Proof.
  intros [Hw _]. unfold bool_at in Hw. destruct (nodes s !! t) as [[k so]|]; [|done].
  simpl in Hw. destruct so; [by exists k|done].
Qed.

Lemma sort_read s t w x : isbv s t w x -> Arena.sort_of s t = Ok (SBv w).
Proof. intros [k Hn]%isbv_node. unfold Arena.sort_of. by rewrite (node_read _ _ _ Hn). Qed.

Lemma expect_bv_read s t w x c : isbv s t w x -> Arena.expect_bv s t c = Ok w.
Proof. intros H. unfold Arena.expect_bv. by rewrite (sort_read _ _ _ _ H). Qed.

Lemma expect_same_bv_read s a b w x y c : isbv s a w x -> isbv s b w y ->
  Arena.expect_same_bv s a b c = Ok w.
Proof.
  intros Ha Hb. unfold Arena.expect_same_bv.
  rewrite (expect_bv_read _ _ _ _ _ Ha), (expect_bv_read _ _ _ _ _ Hb). simpl.
  by rewrite Nat.eqb_refl.
Qed.

Lemma expect_bool_read s t p c : isbool s t p -> Arena.expect_bool s t c = Ok tt.
Proof.
  intros [k Hn]%isbool_node. unfold Arena.expect_bool, Arena.sort_of. by rewrite (node_read _ _ _ Hn).
Qed.

Lemma or_read x y p q : x = Ok p -> y = Ok q -> or_res x y = Ok (p || q).
Proof. intros -> ->. by destruct p. Qed.

Lemma and_read x y p q : x = Ok p -> y = Ok q -> and_res x y = Ok (p && q).
Proof. intros -> ->. by destruct p. Qed.

(** Case analysis on the pair a commutative operation orders. *)
Lemma order_pair_ind (P : TermId * TermId -> Prop) a b : P (a, b) -> P (b, a) -> P (order_pair a b).
Proof. unfold order_pair. by destruct (a <=? b)%nat. Qed.

(** ** Constants *)

Section reads.
Context (s : Arena).
Hypothesis Hi : inv s.

Definition const_fact (t : TermId) (w : nat) (x : Env -> Z) (c : option (nat * list Z)) : Prop :=
  match c with
  | Some (w', bs) =>
      w' = w /\ nodes s !! t = Some (mkNode (BvConst w bs) (SBv w)) /\
      bv_repr w bs (bval bs) /\ forall env, x env = bval bs
  | None => ~ is_const (nodes s) t
  end.

Lemma const_read t w x : isbv s t w x -> exists c, bv_const_value s t = Ok c /\ const_fact t w x c.
Proof.
  intros Hx. destruct (isbv_node _ _ _ _ Hx) as [k Hn]. unfold bv_const_value.
  rewrite (node_read _ _ _ Hn). cbn [mbind res_bind]. eexists. split; [done|].
  destruct k; simpl; try (intros (w' & bs & so & Hc); congruence).
  destruct (view_const s t w x _ Hi Hx _ _ Hn) as (-> & Hb & Hv). done.
Qed.

Lemma const_fact_is_const t w x w' bs : const_fact t w x (Some (w', bs)) -> is_const (nodes s) t.
Proof. intros (_ & Hn & _). by exists w, bs, (SBv w). Qed.

Lemma const_pair_read a b w x y : isbv s a w x -> isbv s b w y ->
  exists c, const_bytes_pair s a b = Ok c /\
    match c with
    | Some (av, bv) =>
        (bv_repr w av (bval av) /\ forall env, x env = bval av) /\
        (bv_repr w bv (bval bv) /\ forall env, y env = bval bv)
    | None => ~ (is_const (nodes s) a /\ is_const (nodes s) b)
    end.
Proof.
  intros Ha Hb. destruct (const_read a w x Ha) as (ca & Ea & Fa).
  destruct (const_read b w y Hb) as (cb & Eb & Fb). unfold const_bytes_pair.
  rewrite Ea, Eb. cbn [mbind res_bind]. eexists. split; [done|].
  destruct ca as [[wa av]|], cb as [[wb bv]|]; simpl in *; try tauto.
Qed.

Lemma all_zero_bval bs : all_zero bs = true -> bval bs = 0.
Proof.
  unfold all_zero. induction bs as [|b bs IH]; [done|]. simpl.
  intros [?%Z.eqb_eq ?]%andb_true_iff. rewrite IH by done. lia.
Qed.

Lemma is_one_bval bs : is_one_bytes bs = true -> bval bs = 1.
Proof.
  unfold is_one_bytes. destruct bs as [|b bs]; [done|]. simpl.
  intros [[= ->]%bool_decide_eq_true Hz]%andb_true_iff.
  rewrite (all_zero_bval bs); [lia|]. by rewrite drop_0 in Hz.
Qed.

Lemma is_zero_read t w x : isbv s t w x -> exists z, is_zero s t = Ok z /\
  (z = true -> forall env, x env = 0).
Proof.
  intros Hx. destruct (const_read t w x Hx) as (c & E & F). unfold is_zero. rewrite E.
  eexists. split; [done|]. destruct c as [[w' bs]|]; [|done].
  destruct F as (_ & _ & _ & F). intros Hz env. by rewrite F, all_zero_bval.
Qed.

Lemma is_one_read t w x : isbv s t w x -> exists z, is_one s t = Ok z /\
  (z = true -> forall env, x env = 1).
Proof.
  intros Hx. destruct (const_read t w x Hx) as (c & E & F). unfold is_one. rewrite E.
  eexists. split; [done|]. destruct c as [[w' bs]|]; [|done].
  destruct F as (_ & _ & _ & F). intros Hz env. by rewrite F, is_one_bval.
Qed.

Lemma ones_bytes_repr w : legal w ->
  bv_repr w (mask_unused_high_bits (replicate (div_ceil w 8) 255) w) (pow2 w - 1).
Proof.
  intros Hw. destruct (constant_bytes_ok w true Hw) as (bs & E & Hb).
  unfold constant_bytes in E. rewrite bytes_for_width_ok in E by done. by injection E as ->.
Qed.

Lemma zero_bytes_repr w : bv_repr w (replicate (div_ceil w 8) 0) 0.
Proof.
  split; [apply length_replicate|apply bytes_replicate, is_byte_0|apply bval_replicate_0|].
  apply pow2_pos.
Qed.

Lemma is_all_ones_read t w x : isbv s t w x -> exists z, is_all_ones s t = Ok z /\
  (z = true -> forall env, x env = pow2 w - 1).
Proof.
  intros Hx. destruct (const_read t w x Hx) as (c & E & F). unfold is_all_ones. rewrite E.
  eexists. split; [done|]. destruct c as [[w' bs]|]; [|done].
  destruct F as (-> & _ & Hb & F). intros Hz%bool_decide_eq_true env. rewrite F, Hz.
  rewrite (repr_length _ _ _ Hb). by apply ones_bytes_repr, (isbv_legal s t w x).
Qed.

(** Shift amounts are read exactly, up to the width. *)
Lemma const_shift_read t w x : isbv s t w x -> exists o, const_shift_amount s t w = Ok o /\
  match o with
  | Some k => is_const (nodes s) t /\ forall env, Z.of_nat k = Z.min (Z.of_nat w) (x env)
  | None => ~ is_const (nodes s) t
  end.
Proof.
  intros Hx. destruct (const_read t w x Hx) as (c & E & F). unfold const_shift_amount. rewrite E.
  eexists. split; [done|]. pose proof (isbv_legal s t w x Hi Hx) as [? Hw].
  unfold MAX_BV_WIDTH in Hw. destruct c as [[w' bs]|]; [|done].
  split; [by eapply const_fact_is_const|]. destruct F as (_ & _ & Hb & F). intros env.
  rewrite F. apply (bytes_to_bounded_usize_repr w); [done|lia|unfold usize_max; lia].
Qed.

Lemma bool_const_read t p : isbool s t p -> exists o, bool_const_value s t = Ok o /\
  match o with Some b => forall env, p env = b | None => True end.
Proof.
  intros Hp. destruct (isbool_node _ _ _ Hp) as [k Hn]. unfold bool_const_value.
  rewrite (node_read _ _ _ Hn). cbn [mbind res_bind]. eexists. split; [done|].
  destruct k; try done. simpl. by eapply view_bool_const.
Qed.

(** ** Parts *)

(** Runs a query that looks at the kind of one node. *)
Ltac read_kind Hx Hn :=
  match type of Hx with
  | isbv _ _ _ _ => destruct (isbv_node _ _ _ _ Hx) as [k Hn]
  | isbool _ _ _ => destruct (isbool_node _ _ _ Hx) as [k Hn]
  end;
  rewrite (node_read _ _ _ Hn); cbn [mbind res_bind kind].

Lemma not_child_read t w x : isbv s t w x -> exists o, bv_not_child s t = Ok o /\
  match o with
  | Some c => isbv s c w (val s c) /\ forall env, x env = bvnot w (val s c env)
  | None => True
  end.
Proof.
  intros Hx. unfold bv_not_child. read_kind Hx Hn. eexists. split; [done|].
  destruct k; try done. simpl. by eapply view_not.
Qed.

Lemma neg_child_read t w x : isbv s t w x -> exists o, bv_neg_child s t = Ok o /\
  match o with
  | Some c => (c < t)%nat /\ isbv s c w (val s c) /\ forall env, x env = bvneg w (val s c env)
  | None => True
  end.
Proof.
  intros Hx. unfold bv_neg_child. read_kind Hx Hn. eexists. split; [done|].
  destruct k; try done. simpl. by eapply view_neg.
Qed.

Lemma bool_not_child_read t p : isbool s t p -> exists o, bool_not_child s t = Ok o /\
  match o with
  | Some c => isbool s c (truth s c) /\ forall env, p env = negb (truth s c env)
  | None => True
  end.
Proof.
  intros Hx. unfold bool_not_child. read_kind Hx Hn. eexists. split; [done|].
  destruct k; try done. simpl. by eapply view_bool_not.
Qed.

Lemma shl_parts_read t w x : isbv s t w x -> exists o, bv_shl_parts s t = Ok o /\
  match o with
  | Some (v, m) => (v < t)%nat /\ (m < t)%nat /\ isbv s v w (val s v) /\ isbv s m w (val s m) /\
      ~ (is_const (nodes s) v /\ is_const (nodes s) m) /\
      forall env, x env = bvshl w (val s v env) (val s m env)
  | None => True
  end.
Proof.
  intros Hx. unfold bv_shl_parts. read_kind Hx Hn. eexists. split; [done|].
  destruct k; try done. simpl.
  destruct (view_shl s t w x _ Hi Hx _ _ Hn) as (? & ? & ? & ? & ?).
  split_and!; try done. apply (inv_normal _ Hi _ _ Hn).
Qed.

Lemma lshr_parts_read t w x : isbv s t w x -> exists o, bv_lshr_parts s t = Ok o /\
  match o with
  | Some (v, m) => nodes s !! t = Some (mkNode (BvLShr v m) (SBv w)) /\
      (v < t)%nat /\ isbv s v w (val s v) /\ isbv s m w (val s m) /\
      forall env, x env = bvlshr w (val s v env) (val s m env)
  | None => forall v m so, nodes s !! t <> Some (mkNode (BvLShr v m) so)
  end.
Proof.
  intros Hx. unfold bv_lshr_parts. read_kind Hx Hn. eexists. split; [done|].
  destruct k; simpl; try (intros v m so; congruence).
  destruct (view_lshr s t w x _ Hi Hx _ _ Hn) as (? & ? & ? & ? & ?). done.
Qed.

Lemma extract_parts_read t w x : isbv s t w x -> exists o, bv_extract_parts s t = Ok o /\
  match o with
  | Some (c, high, low) => nodes s !! t = Some (mkNode (BvExtract c high low) (SBv w)) /\
      exists cw, (c < t)%nat /\ (low <= high)%nat /\ (high < cw)%nat /\ w = (high - low + 1)%nat /\
        isbv s c cw (val s c) /\ forall env, x env = bvextract high low (val s c env)
  | None => forall c high low so, nodes s !! t <> Some (mkNode (BvExtract c high low) so)
  end.
Proof.
  intros Hx. unfold bv_extract_parts. read_kind Hx Hn. eexists. split; [done|].
  destruct k; simpl; try (intros; congruence). split; [done|]. by eapply view_extract.
Qed.

Lemma concat_parts_read t w x : isbv s t w x -> exists o, bv_concat_parts s t = Ok o /\
  match o with
  | Some (h, l) => exists wh wl, (h < t)%nat /\ (l < t)%nat /\ w = (wh + wl)%nat /\
      isbv s h wh (val s h) /\ isbv s l wl (val s l) /\
      forall env, x env = bvconcat wl (val s h env) (val s l env)
  | None => True
  end.
Proof.
  intros Hx. unfold bv_concat_parts. read_kind Hx Hn. eexists. split; [done|].
  destruct k; try done. by eapply view_concat.
Qed.

Lemma ite_parts_read t w x : isbv s t w x -> exists o, bv_ite_parts s t = Ok o /\
  match o with
  | Some (c, a, b) => isbool s c (truth s c) /\ isbv s a w (val s a) /\ isbv s b w (val s b) /\
      forall env, x env = if truth s c env then val s a env else val s b env
  | None => True
  end.
Proof.
  intros Hx. unfold bv_ite_parts. read_kind Hx Hn. eexists. split; [done|].
  destruct k; try done. by eapply view_ite.
Qed.

Lemma extension_parts_read t w x : isbv s t w x -> exists o, extension_parts s t = Ok o /\
  match o with
  | Some (c, cw, extra, sgn) => (c < t)%nat /\ ~ is_const (nodes s) t /\ w = (cw + extra)%nat /\
      isbv s c cw (val s c) /\
      forall env, x env = if (sgn : bool) then bvsext cw extra (val s c env) else val s c env
  | None => True
  end.
Proof.
  intros Hx. unfold extension_parts. read_kind Hx Hn.
  assert (forall e, ~ (k = e /\ nodes s !! t = Some (mkNode k (SBv w)) /\
    (forall w bs, e <> BvConst w bs) /\ is_const (nodes s) t)) as Hnc.
  { intros e (-> & Hn' & He & (w' & bs & so & Hc)). rewrite Hc in Hn'. injection Hn' as <- _.
    by eapply He. }
  destruct k; try (by eexists).
  - destruct (view_zext s t w x _ Hi Hx _ _ Hn) as (cw & ? & -> & Hc & Hv).
    cbn [mbind res_bind]. rewrite (expect_bv_read _ _ _ _ _ Hc). eexists. split; [done|]. split_and!; try done.
    intros Hco. by eapply Hnc.
  - destruct (view_sext s t w x _ Hi Hx _ _ Hn) as (cw & ? & -> & Hc & Hv).
    cbn [mbind res_bind]. rewrite (expect_bv_read _ _ _ _ _ Hc). eexists. split; [done|]. split_and!; try done.
    intros Hco. by eapply Hnc.
Qed.

Lemma one_bit_read t x : isbv s t 1 x -> exists o, one_bit_const_value s t = Ok o /\
  match o with Some b => forall env, x env = Z.b2z b | None => True end.
Proof.
  intros Hx. unfold one_bit_const_value. read_kind Hx Hn. destruct k; try (by eexists).
  destruct (view_const s t 1 x _ Hi Hx _ _ Hn) as (-> & Hb & Hv).
  destruct Hb as [Hl Hf _ Hb]. change (div_ceil 1 8) with 1%nat in Hl.
  destruct bytes as [|b [|]]; try done. simpl. eexists. split; [done|]. intros env.
  rewrite Hv. simpl in *. change (pow2 1) with 2 in Hb. apply Forall_cons in Hf as [[? ?] _].
  assert (b = 0 \/ b = 1) as [-> | ->] by lia; done.
Qed.

(** ** Pairs *)

Lemma bvnot_bvnot w x : bvnot w (bvnot w x) = x.
Proof. unfold bvnot. lia. Qed.

Lemma bv_negation_read a b w x y : isbv s a w x -> isbv s b w y ->
  exists z, is_bv_negation_pair s a b = Ok z /\ (z = true -> forall env, x env = bvnot w (y env)).
Proof.
  intros Ha Hb. unfold is_bv_negation_pair.
  destruct (isbv_node _ _ _ _ Ha) as [ka Na], (isbv_node _ _ _ _ Hb) as [kb Nb].
  rewrite (node_read _ _ _ Na), (node_read _ _ _ Nb). cbn [mbind res_bind kind].
  assert (forall c, ka = BvNot c -> c = b -> forall env, x env = bvnot w (y env)) as Hab.
  { intros c -> -> env. destruct (view_not s a w x _ Hi Ha _ Na) as (_ & Hc & ->).
    by rewrite (proj2 (isbv_inj _ _ _ _ _ _ Hc Hb)). }
  assert (forall c, kb = BvNot c -> c = a -> forall env, x env = bvnot w (y env)) as Hba.
  { intros c -> -> env. destruct (view_not s b w y _ Hi Hb _ Nb) as (_ & Hc & ->).
    by rewrite bvnot_bvnot, (proj2 (isbv_inj _ _ _ _ _ _ Hc Ha)). }
  case_match eqn:E.
  - eexists. split; [done|]. intros _. destruct ka; try done. apply Nat.eqb_eq in E. by eapply Hab.
  - eexists. split; [done|]. intros Hz. destruct kb; try done. apply Nat.eqb_eq in Hz. by eapply Hba.
Qed.

Lemma bool_negation_read a b p q : isbool s a p -> isbool s b q ->
  exists z, is_bool_negation_pair s a b = Ok z /\ (z = true -> forall env, p env = negb (q env)).
Proof.
  intros Ha Hb. unfold is_bool_negation_pair.
  destruct (isbool_node _ _ _ Ha) as [ka Na], (isbool_node _ _ _ Hb) as [kb Nb].
  rewrite (node_read _ _ _ Na), (node_read _ _ _ Nb). cbn [mbind res_bind kind].
  assert (forall c, ka = BoolNot c -> c = b -> forall env, p env = negb (q env)) as Hab.
  { intros c -> -> env. destruct (view_bool_not s a p _ _ Hi Ha Na) as (Hc & ->).
    by rewrite (isbool_inj _ _ _ _ Hc Hb). }
  assert (forall c, kb = BoolNot c -> c = a -> forall env, p env = negb (q env)) as Hba.
  { intros c -> -> env. destruct (view_bool_not s b q _ _ Hi Hb Nb) as (Hc & ->).
    by rewrite negb_involutive, (isbool_inj _ _ _ _ Hc Ha). }
  case_match eqn:E.
  - eexists. split; [done|]. intros _. destruct ka; try done. apply Nat.eqb_eq in E. by eapply Hab.
  - eexists. split; [done|]. intros Hz. destruct kb; try done. apply Nat.eqb_eq in Hz. by eapply Hba.
Qed.

Lemma and_contains_read a b w x y : isbv s a w x -> isbv s b w y ->
  exists z, bv_and_contains s a b = Ok z /\ (z = true -> forall env, Z.lor (x env) (y env) = y env).
Proof.
  intros Ha Hb. unfold bv_and_contains. read_kind Ha Na. eexists. split; [done|].
  destruct k; try done.
  intros Hz env. destruct (view_and s a w x _ Hi Ha _ _ Na) as (Hc & Hd & ->).
  simpl in Hz. apply orb_true_iff in Hz as [->%Nat.eqb_eq| ->%Nat.eqb_eq].
  - rewrite (proj2 (isbv_inj _ _ _ _ _ _ Hc Hb)). apply Z.bits_inj'. intros i _.
    rewrite Z.lor_spec, Z.land_spec. by destruct (Z.testbit (y env) i), (Z.testbit _ i).
  - rewrite (proj2 (isbv_inj _ _ _ _ _ _ Hd Hb)). apply Z.bits_inj'. intros i _.
    rewrite Z.lor_spec, Z.land_spec. by destruct (Z.testbit (y env) i), (Z.testbit _ i).
Qed.

Lemma or_contains_read a b w x y : isbv s a w x -> isbv s b w y ->
  exists z, bv_or_contains s a b = Ok z /\ (z = true -> forall env, Z.land (x env) (y env) = y env).
Proof.
  intros Ha Hb. unfold bv_or_contains. read_kind Ha Na. eexists. split; [done|].
  destruct k; try done.
  intros Hz env. destruct (view_or s a w x _ Hi Ha _ _ Na) as (Hc & Hd & ->).
  simpl in Hz. apply orb_true_iff in Hz as [->%Nat.eqb_eq| ->%Nat.eqb_eq].
  - rewrite (proj2 (isbv_inj _ _ _ _ _ _ Hc Hb)). apply Z.bits_inj'. intros i _.
    rewrite Z.land_spec, Z.lor_spec. by destruct (Z.testbit (y env) i), (Z.testbit _ i).
  - rewrite (proj2 (isbv_inj _ _ _ _ _ _ Hd Hb)). apply Z.bits_inj'. intros i _.
    rewrite Z.land_spec, Z.lor_spec. by destruct (Z.testbit (y env) i), (Z.testbit _ i).
Qed.
End reads.

(** ** A term and its shift *)

(** No bit of [v] is above position [v]. *)
Lemma self_shift_disjoint w v : 0 <= v < pow2 w -> Z.land v (bvshl w v v) = 0.
Proof.
  intros Hv. unfold bvshl. destruct (Z.ltb_spec v (Z.of_nat w)); [|by rewrite Z.land_0_r].
  apply Z.bits_inj'. intros i Hi. rewrite Z.land_spec, Z.bits_0. unfold wrap.
  destruct (decide (i < v)).
  - destruct (decide (i < Z.of_nat w)).
    + rewrite Z.mod_pow2_bits_low, Z.shiftl_spec, (Z.testbit_neg_r _ (i - v)) by lia. apply andb_false_r.
    + rewrite Z.mod_pow2_bits_high by lia. apply andb_false_r.
  - assert (v < 2 ^ i).
    { destruct (decide (v = 0)) as [->|]; [by apply Z.pow_pos_nonneg|].
      pose proof (Z.pow_gt_lin_r 2 i ltac:(lia) Hi). lia. }
    replace (Z.testbit v i) with false; [done|]. symmetry.
    apply (testbit_high (Z.to_nat i)); [|lia]. rewrite Z2Nat.id by lia. lia.
Qed.

Section shifts.
Context (s : Arena).
Hypothesis Hi : inv s.

(** [b] is [a << a] for a term [a] that is not constant. *)
Definition self_shift (a b : TermId) (w : nat) : Prop :=
  nodes s !! b = Some (mkNode (BvShl a a) (SBv w)) /\ ~ is_const (nodes s) a.

Lemma shl_parts_node t w x v m : isbv s t w x -> bv_shl_parts s t = Ok (Some (v, m)) ->
  nodes s !! t = Some (mkNode (BvShl v m) (SBv w)).
Proof.
  intros Hx. destruct (isbv_node _ _ _ _ Hx) as [k Hn]. unfold bv_shl_parts.
  rewrite (node_read _ _ _ Hn). simpl. destruct k; try done. by intros [= <- <-].
Qed.

Lemma self_shift_parts a b w y p : isbv s b w y -> bv_shl_parts s b = Ok p ->
  match p with Some (v, m) => (v =? a)%nat && (m =? a)%nat | None => false end = true ->
  self_shift a b w.
Proof.
  intros Hb Ep Ht. destruct p as [[v m]|]; [|done].
  apply andb_true_iff in Ht as [->%Nat.eqb_eq ->%Nat.eqb_eq].
  pose proof (shl_parts_node _ _ _ _ _ Hb Ep) as Hn. split; [done|]. intros Hc.
  pose proof (inv_normal _ Hi _ _ Hn) as HN. simpl in HN. tauto.
Qed.

Lemma self_shift_value a b w x y : isbv s a w x -> isbv s b w y -> self_shift a b w ->
  forall env, Z.land (x env) (y env) = 0.
Proof.
  intros Ha Hb [Hn _] env. destruct (view_shl s b w y _ Hi Hb _ _ Hn) as (_ & _ & Ha' & _ & ->).
  rewrite <- !(proj2 (isbv_inj _ _ _ _ _ _ Ha Ha')). apply self_shift_disjoint.
  by eapply isbv_range.
Qed.

Lemma self_shift_read a b w x y : isbv s a w x -> isbv s b w y ->
  exists z, self_shift_left_pair s a b = Ok z /\
    (z = true -> self_shift a b w \/ self_shift b a w).
Proof.
  intros Ha Hb. unfold self_shift_left_pair.
  destruct (shl_parts_read s Hi a w x Ha) as (pa & Ea & _), (shl_parts_read s Hi b w y Hb) as (pb & Eb & _).
  rewrite Ea. cbn [mbind res_bind]. case_match eqn:Ta.
  - eexists. split; [done|]. intros _. right. by eapply self_shift_parts.
  - rewrite Eb. cbn [mbind res_bind]. eexists. split; [done|]. intros Ht. left.
    by eapply self_shift_parts.
Qed.

(** One of the two is a shift of the other, which is not a constant. *)
Lemma shifted_same_read a b w x y : isbv s a w x -> isbv s b w y ->
  exists o, shifted_same_add_parts s a b = Ok o /\
    match o with
    | Some (v, m) => isbv s v w (val s v) /\ isbv s m w (val s m) /\ ~ is_const (nodes s) v /\
        (v = a /\ nodes s !! b = Some (mkNode (BvShl v m) (SBv w)) \/
         v = b /\ nodes s !! a = Some (mkNode (BvShl v m) (SBv w))) /\
        forall env, bvadd w (x env) (y env) = bvadd w (val s v env) (bvshl w (val s v env) (val s m env))
    | None => True
    end.
Proof.
  intros Ha Hb. unfold shifted_same_add_parts.
  destruct (shl_parts_read s Hi a w x Ha) as (pa & Epa & Ha'), (shl_parts_read s Hi b w y Hb) as (pb & Epb & Hb').
  rewrite Epa, Epb. cbn [mbind res_bind].
  set (second := match pb with Some _ => _ | None => _ end).
  assert (exists o, second = Ok o /\ match o with
    | Some (v, m) => isbv s v w (val s v) /\ isbv s m w (val s m) /\ ~ is_const (nodes s) v /\
        (v = a /\ nodes s !! b = Some (mkNode (BvShl v m) (SBv w)) \/
         v = b /\ nodes s !! a = Some (mkNode (BvShl v m) (SBv w))) /\
        forall env, bvadd w (x env) (y env) = bvadd w (val s v env) (bvshl w (val s v env) (val s m env))
    | None => True end) as Hsecond.
  { subst second. destruct pb as [[v m]|]; [|by eexists].
    destruct (Nat.eqb_spec v a) as [->|]; [|by eexists]. destruct Hb' as (_ & _ & Hv & Hm & _ & Hy).
    destruct (const_read s Hi a w x Ha) as (c & -> & Hc). eexists. split; [done|].
    destruct c as [[? ?]|]; [done|]. split_and!; try done.
    { left. split; [done|]. by eapply shl_parts_node. }
    intros env. by rewrite Hy, (proj2 (isbv_inj _ _ _ _ _ _ Ha Hv)). }
  destruct pa as [[v m]|]; [|done]. destruct (Nat.eqb_spec v b) as [->|]; [|done].
  destruct Ha' as (_ & _ & Hv & Hm & _ & Hx).
  destruct (const_read s Hi b w y Hb) as (c & -> & Hc). cbn [mbind res_bind].
  destruct c as [[? ?]|]; [done|]. eexists. split; [done|]. split_and!; try done.
  { right. split; [done|]. by eapply shl_parts_node. }
  intros env. rewrite Hx, (proj2 (isbv_inj _ _ _ _ _ _ Hb Hv)). unfold bvadd. f_equal. lia.
Qed.
End shifts.

(** ** Masks of possible bits

    [possible_bit_mask_bytes] bounds which bits of a term can be set; two terms
    whose masks are disjoint have disjoint values, so that their sum, their
    disjunction and their exclusive disjunction agree. *)

#[local] Open Scope Z_scope.

(** Every bit [x] can have is a bit of [m]. *)
Definition within (x m : Z) : Prop :=
  forall i : nat, Z.testbit x (Z.of_nat i) = true -> Z.testbit m (Z.of_nat i) = true.

Definition covers (w : nat) (x : Env -> Z) (mask : list Z) : Prop :=
  exists m, bv_repr w mask m /\ forall env, within (x env) m.

Lemma covers_intro w x mask m : bv_repr w mask m -> (forall env, within (x env) m) -> covers w x mask.
Proof. intros. by exists m. Qed.

Lemma covers_ext w x y mask : (forall env, x env = y env) -> covers w x mask -> covers w y mask.
Proof. intros E (m & Hm & Hx). exists m. split; [done|]. intros env. by rewrite <- E. Qed.

Lemma zip_assign_same f (l r : list Z) : length l = length r -> zip_assign f l r = zip_with f l r.
Proof. intros E. unfold zip_assign. rewrite <- E, drop_all. apply app_nil_r. Qed.

Lemma covers_length w x mask : covers w x mask -> length mask = div_ceil w 8.
Proof. intros (m & Hm & _). by eapply repr_length. Qed.

Lemma covers_ones w x : legal w -> (forall env, 0 <= x env < pow2 w) ->
  covers w x (mask_unused_high_bits (replicate (div_ceil w 8) 255) w).
Proof.
  intros Hw Hx. eapply covers_intro; [by apply ones_bytes_repr|]. intros env i Hb.
  destruct (Nat.ltb_spec i w).
  - replace (pow2 w - 1) with (Z.ones (Z.of_nat w)) by (rewrite Z.ones_equiv; lia).
    apply Z.ones_spec_low. lia.
  - by rewrite (testbit_high w) in Hb by (apply Hx || lia).
Qed.

Lemma covers_zext w extra x mask : covers w x mask ->
  covers (w + extra) x (mask_unused_high_bits (resize_bytes (div_ceil (w + extra) 8) mask) (w + extra)).
Proof. intros (m & Hm & Hx). exists m. split; [by apply zext_bytes_repr|done]. Qed.

Lemma covers_shl w x k n mask : (forall env, 0 <= x env < pow2 w) ->
  (forall env, 0 <= k env) -> (forall env, Z.of_nat n = Z.min (Z.of_nat w) (k env)) ->
  covers w x mask -> covers w (fun env => bvshl w (x env) (k env)) (shl_bytes mask w n).
Proof.
  intros Hx Hk Hn (m & Hm & Hxm). eapply covers_intro; [by apply shl_bytes_repr|].
  intros env i Hb. specialize (Hn env). unfold bvshl in Hb. destruct (Z.ltb_spec (k env) (Z.of_nat w)).
  2:{ by rewrite Z.testbit_0_l in Hb. }
  replace (k env) with (Z.of_nat n) in Hb by lia. unfold wrap in *.
  rewrite testbit_pow2_mod, testbit_shiftl_nat in *.
  apply andb_true_iff in Hb as [-> [-> Hb]%andb_true_iff]. simpl. by apply (Hxm env).
Qed.

Lemma covers_lshr w x k n mask : (forall env, 0 <= x env < pow2 w) ->
  (forall env, 0 <= k env) -> (forall env, Z.of_nat n = Z.min (Z.of_nat w) (k env)) ->
  covers w x mask -> covers w (fun env => bvlshr w (x env) (k env)) (lshr_bytes mask w n).
Proof.
  intros Hx Hk Hn (m & Hm & Hxm). eapply covers_intro; [by apply lshr_bytes_repr|].
  intros env i Hb. specialize (Hn env). unfold bvlshr in Hb. destruct (Z.ltb_spec (k env) (Z.of_nat w)).
  2:{ by rewrite Z.testbit_0_l in Hb. }
  replace (k env) with (Z.of_nat n) in Hb by lia.
  rewrite testbit_shiftr_nat in *. by apply (Hxm env).
Qed.

Lemma covers_extract w x high low mask : (low <= high < w)%nat -> covers w x mask ->
  covers (high - low + 1) (fun env => bvextract high low (x env)) (extract_bytes mask low (high - low + 1)).
Proof.
  intros Hr (m & Hm & Hxm). eapply covers_intro; [by apply (extract_bytes_repr w)|].
  intros env i Hb. rewrite testbit_extract in *. apply andb_true_iff in Hb as [-> Hb].
  simpl. by apply (Hxm env).
Qed.

Lemma covers_concat wh wl x y hm lm : (forall env, 0 <= y env < pow2 wl) ->
  covers wh x hm -> covers wl y lm ->
  covers (wh + wl) (fun env => bvconcat wl (x env) (y env)) (concat_bytes hm wh lm wl).
Proof.
  intros Hy (m & Hm & Hxm) (n & Hn & Hyn). eapply covers_intro; [by apply concat_bytes_repr|].
  intros env i Hb. rewrite testbit_concat in * by (apply Hy || by eapply repr_range).
  case_match; [by apply (Hyn env)|by apply (Hxm env)].
Qed.

Lemma covers_and w x y l r : covers w x l -> covers w y r ->
  covers w (fun env => Z.land (x env) (y env)) (zip_assign Z.land l r).
Proof.
  intros Hl Hr. rewrite zip_assign_same by (by rewrite (covers_length _ _ _ Hl), (covers_length _ _ _ Hr)).
  destruct Hl as (m & Hm & Hx), Hr as (n & Hn & Hy).
  eapply covers_intro; [by apply and_bytes_repr|]. intros env i. rewrite !Z.land_spec.
  intros [H1 H2]%andb_true_iff. by rewrite (Hx env), (Hy env).
Qed.

Lemma covers_or_with (f : Z -> Z -> Z) (fb : bool -> bool -> bool) w x y l r :
  (forall a b i, Z.testbit (f a b) i = fb (Z.testbit a i) (Z.testbit b i)) -> fb false false = false ->
  covers w x l -> covers w y r -> covers w (fun env => f (x env) (y env)) (zip_assign Z.lor l r).
Proof.
  intros Hf Hfb Hl Hr. rewrite zip_assign_same by (by rewrite (covers_length _ _ _ Hl), (covers_length _ _ _ Hr)).
  destruct Hl as (m & Hm & Hx), Hr as (n & Hn & Hy).
  eapply covers_intro; [by apply or_bytes_repr|]. intros env i. rewrite Hf, Z.lor_spec.
  destruct (Z.testbit (x env) (Z.of_nat i)) eqn:E1; [by rewrite (Hx env)|].
  destruct (Z.testbit (y env) (Z.of_nat i)) eqn:E2; [by rewrite (Hy env), orb_true_r|].
  by rewrite Hfb.
Qed.

Lemma covers_weaken w x y mask : (forall env, within (y env) (x env)) -> covers w x mask -> covers w y mask.
Proof. intros H (m & Hm & Hx). exists m. split; [done|]. intros env i Hb. apply (Hx env), H, Hb. Qed.

Section masks.
Context (s : Arena).
Hypothesis Hi : inv s.

Lemma mask_read fuel t w x : isbv s t w x -> exists o, possible_bit_mask_bytes s fuel t w = Ok o /\
  match o with Some mask => covers w x mask | None => True end.
Proof.
  revert t w x. induction fuel as [|fuel IH]; intros t w x Hx; [by eexists|]. simpl.
  destruct (4096 <? w)%nat; [by eexists|].
  pose proof (isbv_legal _ _ _ _ Hi Hx) as Hw. rewrite bytes_for_width_ok by done.
  destruct (isbv_node _ _ _ _ Hx) as [k Hn]. rewrite (node_read _ _ _ Hn). cbn [mbind res_bind kind].
  destruct k; try (by eexists).
  - (* constant *)
    destruct (view_const s t w x _ Hi Hx _ _ Hn) as (-> & Hb & Hv). rewrite Nat.eqb_refl.
    eexists. split; [done|]. exists (bval bytes). split.
    + pose proof (zext_bytes_repr w bytes (bval bytes) 0 Hb) as Hz. by rewrite Nat.add_0_r in Hz.
    + intros env i. by rewrite Hv.
  - (* variable *)
    pose proof (node_typed _ _ _ Hi Hn) as Ht. simpl in Ht. injection Ht as ->. rewrite Nat.eqb_refl.
    eexists. split; [done|]. apply covers_ones; [done|]. intros env. by eapply isbv_range.
  - (* conjunction *)
    destruct (view_and s t w x _ Hi Hx _ _ Hn) as (Ha & Hb & Hv).
    destruct (IH a w _ Ha) as (la & -> & Hla), (IH b w _ Hb) as (lb & -> & Hlb). simpl.
    eexists. split; [done|].
    assert (forall env i, Z.testbit (x env) i = Z.testbit (val s a env) i && Z.testbit (val s b env) i) as Hbit.
    { intros env i. by rewrite Hv, Z.land_spec. }
    destruct la as [la|], lb as [lb|]; [| | |done].
    + eapply covers_ext; [intros env; symmetry; apply Hv|]. by apply covers_and.
    + eapply covers_weaken, Hla. intros env i. rewrite Hbit. by intros [? _]%andb_true_iff.
    + eapply covers_weaken, Hlb. intros env i. rewrite Hbit. by intros [_ ?]%andb_true_iff.
  - (* disjunction *)
    destruct (view_or s t w x _ Hi Hx _ _ Hn) as (Ha & Hb & Hv).
    destruct (IH a w _ Ha) as (la & -> & Hla), (IH b w _ Hb) as (lb & -> & Hlb). simpl.
    eexists. split; [done|]. destruct la as [la|], lb as [lb|]; [|done..].
    eapply covers_ext; [intros env; symmetry; apply Hv|].
    by apply (covers_or_with Z.lor orb); [apply Z.lor_spec|..].
  - (* exclusive disjunction *)
    destruct (view_xor s t w x _ Hi Hx _ _ Hn) as (Ha & Hb & Hv).
    destruct (IH a w _ Ha) as (la & -> & Hla), (IH b w _ Hb) as (lb & -> & Hlb). simpl.
    eexists. split; [done|]. destruct la as [la|], lb as [lb|]; [|done..].
    eapply covers_ext; [intros env; symmetry; apply Hv|].
    by apply (covers_or_with Z.lxor xorb); [apply Z.lxor_spec|..].
  - (* left shift *)
    destruct (view_shl s t w x _ Hi Hx _ _ Hn) as (_ & _ & Ha & Hb & Hv).
    destruct (const_shift_read s Hi b w _ Hb) as (c & -> & Hc). cbn [mbind res_bind].
    destruct c as [k|]; [|by eexists]. destruct Hc as [_ Hk].
    destruct (IH a w _ Ha) as (la & -> & Hla). simpl. eexists. split; [done|].
    destruct la as [la|]; [|done]. eapply covers_ext; [intros env; symmetry; apply Hv|].
    apply covers_shl; try done; intros env; by eapply isbv_range.
  - (* right shift *)
    destruct (view_lshr s t w x _ Hi Hx _ _ Hn) as (_ & _ & Ha & Hb & Hv).
    destruct (const_shift_read s Hi b w _ Hb) as (c & -> & Hc). cbn [mbind res_bind].
    destruct c as [k|]; [|by eexists]. destruct Hc as [_ Hk].
    destruct (IH a w _ Ha) as (la & -> & Hla). simpl. eexists. split; [done|].
    destruct la as [la|]; [|done]. eapply covers_ext; [intros env; symmetry; apply Hv|].
    apply covers_lshr; try done; intros env; by eapply isbv_range.
  - (* extraction *)
    destruct (view_extract s t w x _ Hi Hx _ _ _ Hn) as (cw & _ & ? & ? & -> & Hc & Hv).
    rewrite (sort_read _ _ _ _ Hc). cbn [mbind res_bind]. rewrite Nat.eqb_refl. simpl negb. cbn iota.
    destruct (IH child cw _ Hc) as (lc & -> & Hlc). simpl. eexists. split; [done|].
    destruct lc as [lc|]; [|done]. eapply covers_ext; [intros env; symmetry; apply Hv|].
    by apply (covers_extract cw).
  - (* concatenation *)
    destruct (view_concat s t w x _ Hi Hx _ _ Hn) as (wh & wl & _ & _ & -> & Hh & Hl & Hv).
    rewrite (sort_read _ _ _ _ Hh). cbn [mbind res_bind].
    rewrite (sort_read _ _ _ _ Hl). cbn [mbind res_bind]. rewrite Nat.eqb_refl. simpl negb. cbn iota.
    destruct (IH high wh _ Hh) as (lh & -> & Hlh), (IH low wl _ Hl) as (ll & -> & Hll). simpl.
    eexists. split; [done|]. destruct lh as [lh|], ll as [ll|]; [|done..].
    eapply covers_ext; [intros env; symmetry; apply Hv|]. apply covers_concat; try done.
    intros env. by eapply isbv_range.
  - (* zero extension *)
    destruct (view_zext s t w x _ Hi Hx _ _ Hn) as (cw & _ & -> & Hc & Hv).
    rewrite (sort_read _ _ _ _ Hc). cbn [mbind res_bind]. rewrite Nat.eqb_refl.
    destruct (IH child cw _ Hc) as (lc & -> & Hlc). simpl. eexists. split; [done|].
    destruct lc as [lc|]; [|done]. eapply covers_ext; [intros env; symmetry; apply Hv|].
    by apply covers_zext.
Qed.

Lemma disjoint_masks l r : existsb (fun '(a, b) => negb (Z.land a b =? 0)) (zip l r) = false ->
  bval (zip_with Z.land l r) = 0.
Proof.
  revert r. induction l as [|a l IH]; intros [|b r]; try done. simpl.
  intros [E%negb_false_iff%Z.eqb_eq H]%orb_false_iff. rewrite E, IH; [lia|done].
Qed.

Lemma disjoint_read a b w x y : isbv s a w x -> isbv s b w y ->
  exists d, have_disjoint_possible_bits s a b w = Ok d /\
    (d = true -> forall env, Z.land (x env) (y env) = 0).
Proof.
  intros Ha Hb. unfold have_disjoint_possible_bits. destruct (4096 <? w)%nat; [by eexists|].
  destruct (mask_read 65 a w x Ha) as (la & -> & Hla), (mask_read 65 b w y Hb) as (lb & -> & Hlb).
  cbn [mbind res_bind]. eexists. split; [done|].
  destruct la as [la|], lb as [lb|]; [|done..]. intros Hd%negb_true_iff env.
  destruct Hla as (m & Hm & Hx), Hlb as (n & Hn & Hy).
  pose proof (repr_val _ _ _ (and_bytes_repr _ _ _ _ _ Hm Hn)) as E.
  rewrite (disjoint_masks _ _ Hd) in E.
  apply Z.bits_inj'. intros i Hi0. rewrite Z.land_spec, Z.bits_0.
  replace i with (Z.of_nat (Z.to_nat i)) by lia.
  assert (Z.testbit m (Z.of_nat (Z.to_nat i)) && Z.testbit n (Z.of_nat (Z.to_nat i)) = false) as Hz
    by (by rewrite <- Z.land_spec, <- E, Z.bits_0).
  destruct (Z.testbit (x env) _) eqn:Ex; [|done]. destruct (Z.testbit (y env) _) eqn:Ey; [|done].
  by rewrite (Hx env _ Ex), (Hy env _ Ey) in Hz.
Qed.

(** Without a constant shift amount a left shift has no mask. *)
Lemma disjoint_shl_read a b v m w x y : isbv s a w x -> isbv s b w y ->
  nodes s !! b = Some (mkNode (BvShl v m) (SBv w)) -> ~ is_const (nodes s) m ->
  have_disjoint_possible_bits s a b w = Ok false /\ have_disjoint_possible_bits s b a w = Ok false.
Proof.
  intros Ha Hb Hn Hm. destruct (view_shl s b w y _ Hi Hb _ _ Hn) as (_ & _ & _ & Hm' & _).
  destruct (const_shift_read s Hi m w _ Hm') as (c & Ec & Hc).
  destruct c as [k|]; [by destruct Hc|].
  assert (forall fuel, possible_bit_mask_bytes s fuel b w = Ok None) as E.
  { intros [|fuel]; [done|]. simpl. destruct (4096 <? w)%nat; [done|].
    rewrite bytes_for_width_ok by (by eapply isbv_legal). rewrite (node_read _ _ _ Hn).
    cbn [mbind res_bind kind]. by rewrite Ec. }
  unfold have_disjoint_possible_bits. destruct (4096 <? w)%nat; [done|].
  destruct (mask_read 65 a w x Ha) as (la & -> & _). rewrite E. cbn [mbind res_bind].
  by destruct la.
Qed.
End masks.

(** ** Disjoint values *)

Lemma disjoint_add w x y : 0 <= x < pow2 w -> 0 <= y < pow2 w -> Z.land x y = 0 ->
  bvadd w x y = Z.lor x y.
Proof.
  intros Hx Hy E. unfold bvadd. rewrite Z.add_nocarry_lxor, Z.lxor_lor by done.
  apply wrap_small. by apply lor_bound.
Qed.
