(* ===== verification/PolynomialFacts.v ===== *)
(** * What the polynomials mean

    [psum ρ p] is the value of a polynomial when the terms have the values [ρ].
    Every polynomial the builder forms has sorted monomials in increasing order, canonical
    nonzero coefficients, and is congruent modulo [2^w] to the value of its term; a
    polynomial is determined by its coefficients. *)
From stdpp Require Import sorting.
From S2P Require Import Prelude Bits Smt SmtFacts Bytes BytesFacts Ir Sem EvaluatorFacts.
From S2P Require Import BlastFacts Polynomial Builder BuilderSpec BuilderReads.

#[local] Open Scope Z_scope.

Definition product (ρ : TermId -> Z) (m : list TermId) : Z := foldr (fun t z => ρ t * z) 1 m.

Fixpoint psum (ρ : TermId -> Z) (p : list (list TermId * list Z)) : Z :=
  match p with [] => 0 | (m, c) :: p => bval c * product ρ m + psum ρ p end.

Definition coefficient_ok (w : nat) (c : list Z) : Prop := bv_repr w c (bval c).

(** Factors in order, and a coefficient of the ring that is not zero. *)
Record entry_ok (w : nat) (e : list TermId * list Z) : Prop := {
  entry_sorted : Sorted le e.1;
  entry_coefficient : coefficient_ok w e.2;
  entry_nonzero : bval e.2 <> 0;
}.

(** The normal form: entries in strictly increasing order of their monomials. *)
Record poly_ok (w : nat) (p : list (list TermId * list Z)) : Prop := {
  poly_sorted : BTreeMap.sorted p;
  poly_entries : Forall (entry_ok w) p;
}.

(** Entries that can be added to a normal form. *)
Definition term_ok (w : nat) (e : list TermId * list Z) : Prop := Sorted le e.1 /\ coefficient_ok w e.2.

Lemma poly_ok_nil w : poly_ok w [].
Proof. split; [done|constructor]. Qed.

Lemma coefficient_of w c z : bv_repr w c z -> coefficient_ok w c /\ bval c = z.
Proof. intros H. pose proof (repr_val _ _ _ H) as E. split; [|done]. unfold coefficient_ok. by rewrite E. Qed.

Lemma product_app ρ l k : product ρ (l ++ k) = product ρ l * product ρ k.
Proof.
  induction l as [|t l IH]; simpl; [by rewrite Z.mul_1_l|]. fold (product ρ (l ++ k)).
  rewrite IH. fold (product ρ l). lia.
Qed.

Lemma product_perm ρ l k : l ≡ₚ k -> product ρ l = product ρ k.
Proof.
  induction 1 as [|t l k _ IH|t u l|l k m _ IH1 _ IH2]; simpl; fold (product ρ) in *.
  - done.
  - fold (product ρ l) (product ρ k). by rewrite IH.
  - lia.
  - by rewrite IH1.
Qed.

Lemma product_sort ρ l : product ρ (sort_ids l) = product ρ l.
Proof. apply product_perm, merge_sort_Permutation. Qed.

Lemma sort_ids_sorted l : Sorted le (sort_ids l).
Proof. apply (Sorted_merge_sort le). Qed.

Lemma psum_app ρ p q : psum ρ (p ++ q) = psum ρ p + psum ρ q.
Proof. induction p as [|[m c] p IH]; simpl; [done|]. rewrite IH. lia. Qed.

Lemma all_zero_ok w c : coefficient_ok w c -> all_zero c = (bval c =? 0).
Proof. intros H. by apply (all_zero_repr w). Qed.

Lemma add_assign_ok w p m c : poly_ok w p -> term_ok w (m, c) ->
  poly_ok w (polynomial_add_assign p m c w) /\
  forall ρ, eqm w (psum ρ (polynomial_add_assign p m c w)) (psum ρ p + bval c * product ρ m).
Proof.
  intros [Hs Hc] [Hmon Hok]. simpl in Hmon, Hok. unfold polynomial_add_assign. rewrite (all_zero_ok w) by done.
  destruct (Z.eqb_spec (bval c) 0) as [E|Hne].
  { split; [done|]. intros ρ. rewrite E. by rewrite Z.mul_0_l, Z.add_0_r. }
  destruct (BTreeMap.get m p) as [e|] eqn:Eg.
  - destruct (BTreeMap.get_Some _ _ _ Eg) as (l & r & Ep & Hins & Hrem).
    pose proof Hc as Hc'. rewrite Ep, Forall_app, Forall_cons in Hc'. destruct Hc' as (Hl & [_ He Hez] & Hr).
    simpl in He. destruct (coefficient_of _ _ _ (add_bytes_repr _ _ _ _ _ He Hok)) as [Ha Ev].
    rewrite (all_zero_ok w) by done.
    assert (forall ρ, eqm w (psum ρ p + bval c * product ρ m)
      (psum ρ l + bval (add_bytes e c w) * product ρ m + psum ρ r)) as Hsum.
    { intros ρ. rewrite Ev, eqm_bvadd, Ep, psum_app. simpl. apply eq_subrelation; [apply _|]. lia. }
    destruct (Z.eqb_spec (bval (add_bytes e c w)) 0) as [Ez|Hnz].
    + split.
      * split; [by apply BTreeMap.remove_sorted|]. rewrite Hrem. by apply Forall_app.
      * intros ρ. rewrite Hsum, Ez, Hrem, psum_app. apply eq_subrelation; [apply _|]. lia.
    + split.
      * split; [by apply BTreeMap.insert_sorted|]. rewrite Hins. apply Forall_app.
        split; [done|]. by constructor.
      * intros ρ. rewrite Hsum, Hins, psum_app. simpl. apply eq_subrelation; [apply _|]. lia.
  - destruct (BTreeMap.get_None _ _ Eg) as (l & r & Ep & Hins & Hrem).
    rewrite (all_zero_ok w) by done. destruct (Z.eqb_spec (bval c) 0); [done|]. split.
    + split; [by apply BTreeMap.insert_sorted|]. rewrite Hins. pose proof Hc as Hc'.
      rewrite Ep, Forall_app in Hc'. destruct Hc'. apply Forall_app. split; [done|]. by constructor.
    + intros ρ. rewrite Hins, Ep, !psum_app. simpl. apply eq_subrelation; [apply _|]. lia.
Qed.

(** The loops over a polynomial: every coefficient is multiplied by [a]. *)
Lemma polynomial_fold_ok w (f : list Z -> list Z) (a : Z) q p :
  (forall c, coefficient_ok w c -> coefficient_ok w (f c) /\ eqm w (bval (f c)) (a * bval c)) ->
  poly_ok w p -> Forall (term_ok w) q ->
  let r := foldl (fun out '(m, c) => polynomial_add_assign out m (f c) w) p q in
  poly_ok w r /\ forall ρ, eqm w (psum ρ r) (psum ρ p + a * psum ρ q).
Proof.
  intros Hf. revert p. induction q as [|[m c] q IH]; intros p Hp Hq; simpl.
  - split; [done|]. intros ρ. by rewrite Z.mul_0_r, Z.add_0_r.
  - apply Forall_cons in Hq as [[Hm Hc] Hq]. destruct (Hf c Hc) as [Hfc Ef].
    destruct (add_assign_ok w p m (f c) Hp (conj Hm Hfc)) as [Hp' Es].
    destruct (IH _ Hp' Hq) as [Hr Er]. split; [done|]. intros ρ.
    rewrite Er, Es, Ef. apply eq_subrelation; [apply _|]. simpl. lia.
Qed.

Lemma poly_ok_weak w p : poly_ok w p -> Forall (term_ok w) p.
Proof. intros [_ H]. eapply Forall_impl; [exact H|]. by intros e [? ? _]. Qed.

Lemma neg_coefficient w c : coefficient_ok w c ->
  coefficient_ok w (neg_bytes c w) /\ eqm w (bval (neg_bytes c w)) (-1 * bval c).
Proof.
  intros H. destruct (coefficient_of _ _ _ (neg_bytes_repr _ _ _ H)) as [? ->]. split; [done|].
  rewrite eqm_bvneg. by replace (-1 * bval c) with (- bval c) by lia.
Qed.

Lemma polynomial_add_ok w p q : poly_ok w p -> poly_ok w q ->
  poly_ok w (polynomial_add p q w) /\ forall ρ, eqm w (psum ρ (polynomial_add p q w)) (psum ρ p + psum ρ q).
Proof.
  intros Hp Hq. destruct (polynomial_fold_ok w (fun c => c) 1 q p) as [H E]; [|done|by apply poly_ok_weak|].
  - intros c Hc. by rewrite Z.mul_1_l.
  - split; [done|]. intros ρ. unfold polynomial_add. rewrite E. by rewrite Z.mul_1_l.
Qed.

Lemma polynomial_sub_ok w p q : poly_ok w p -> poly_ok w q ->
  poly_ok w (polynomial_sub p q w) /\ forall ρ, eqm w (psum ρ (polynomial_sub p q w)) (psum ρ p - psum ρ q).
Proof.
  intros Hp Hq. destruct (polynomial_fold_ok w (fun c => neg_bytes c w) (-1) q p) as [H E];
    [apply neg_coefficient|done|by apply poly_ok_weak|].
  split; [done|]. intros ρ. unfold polynomial_sub. rewrite E.
  apply eq_subrelation; [apply _|]. lia.
Qed.

Lemma polynomial_neg_ok w p : poly_ok w p ->
  poly_ok w (polynomial_neg p w) /\ forall ρ, eqm w (psum ρ (polynomial_neg p w)) (- psum ρ p).
Proof.
  intros Hp. destruct (polynomial_fold_ok w (fun c => neg_bytes c w) (-1) p []) as [H E];
    [apply neg_coefficient|apply poly_ok_nil|by apply poly_ok_weak|].
  split; [done|]. intros ρ. unfold polynomial_neg. rewrite E.
  apply eq_subrelation; [apply _|]. simpl. lia.
Qed.

Lemma polynomial_scale_ok w p f : poly_ok w p -> coefficient_ok w f ->
  poly_ok w (polynomial_scale p f w) /\
  forall ρ, eqm w (psum ρ (polynomial_scale p f w)) (psum ρ p * bval f).
Proof.
  intros Hp Hf. unfold polynomial_scale. rewrite (all_zero_ok w) by done.
  destruct (Z.eqb_spec (bval f) 0) as [->|_].
  { split; [apply poly_ok_nil|]. intros ρ. by rewrite Z.mul_0_r. }
  destruct (polynomial_fold_ok w (fun c => mul_bytes c f w) (bval f) p []) as [H E];
    [|apply poly_ok_nil|by apply poly_ok_weak|].
  - intros c Hc. destruct (coefficient_of _ _ _ (mul_bytes_repr _ _ _ _ _ Hc Hf)) as [? ->].
    split; [done|]. by rewrite eqm_bvmul, Z.mul_comm.
  - split; [done|]. intros ρ. rewrite E. apply eq_subrelation; [apply _|]. simpl. lia.
Qed.

Lemma mul_row_ok w lm lc right out r : coefficient_ok w lc ->
  Forall (term_ok w) right -> poly_ok w out ->
  polynomial_mul_row lm lc right w out = Some r ->
  poly_ok w r /\ forall ρ, eqm w (psum ρ r) (psum ρ out + bval lc * product ρ lm * psum ρ right).
Proof.
  intros Hlc. revert out. induction right as [|[rm rc] right IH]; intros out Hr Ho; simpl.
  - intros [= ->]. split; [done|]. intros ρ. by rewrite Z.mul_0_r, Z.add_0_r.
  - apply Forall_cons in Hr as [[_ Hrc] Hr]. simpl in Hrc. destruct (16 <? _)%nat; [done|].
    destruct (coefficient_of _ _ _ (mul_bytes_repr _ _ _ _ _ Hlc Hrc)) as [Hm Em].
    destruct (add_assign_ok w out (sort_ids (lm ++ rm)) _ Ho (conj (sort_ids_sorted _) Hm)) as [Ho' Eo].
    destruct (512 <? _)%nat; [done|]. intros E. destruct (IH _ Hr Ho' E) as [Hok Er].
    split; [done|]. intros ρ. rewrite Er, Eo, Em, eqm_bvmul, product_sort, product_app.
    apply eq_subrelation; [apply _|]. simpl. lia.
Qed.

Lemma mul_rows_ok w left right out r : Forall (term_ok w) left ->
  Forall (term_ok w) right -> poly_ok w out ->
  polynomial_mul_rows left right w out = Some r ->
  poly_ok w r /\ forall ρ, eqm w (psum ρ r) (psum ρ out + psum ρ left * psum ρ right).
Proof.
  intros Hl Hr. revert out. induction left as [|[lm lc] left IH]; intros out Ho; simpl.
  - intros [= ->]. split; [done|]. intros ρ. by rewrite Z.mul_0_l, Z.add_0_r.
  - apply Forall_cons in Hl as [[_ Hlc] Hl]. simpl in Hlc.
    destruct (polynomial_mul_row lm lc right w out) as [out'|] eqn:E1; [|done]. simpl. intros E2.
    destruct (mul_row_ok w lm lc right out out' Hlc Hr Ho E1) as [Ho' E1'].
    destruct (IH Hl out' Ho' E2) as [Hok E2']. split; [done|]. intros ρ.
    rewrite E2', E1'. apply eq_subrelation; [apply _|]. lia.
Qed.

Lemma polynomial_mul_ok w p q r : poly_ok w p -> poly_ok w q -> polynomial_mul p q w = Some r ->
  poly_ok w r /\ forall ρ, eqm w (psum ρ r) (psum ρ p * psum ρ q).
Proof.
  intros Hp Hq E.
  apply (mul_rows_ok w p q []); auto using poly_ok_weak, poly_ok_nil.
Qed.

Lemma constant_ok w bs : coefficient_ok w bs ->
  poly_ok w (polynomial_constant bs) /\ forall ρ, psum ρ (polynomial_constant bs) = bval bs.
Proof.
  intros H. unfold polynomial_constant. rewrite (all_zero_ok w) by done.
  destruct (Z.eqb_spec (bval bs) 0) as [E|Hne]; simpl.
  - rewrite E. split; [apply poly_ok_nil|done].
  - split; [|intros ρ; lia]. split; [by repeat constructor|]. constructor; [done|constructor].
Qed.

Lemma one_bytes_ok w : legal w -> exists bs, one_bytes w = Ok bs /\ bv_repr w bs 1.
Proof.
  intros Hw. unfold one_bytes. rewrite bytes_for_width_ok by done. cbn [mbind res_bind].
  destruct Hw as [Hw _]. pose proof (div_ceil_8_pos w ltac:(lia)). unfold set_index.
  rewrite length_replicate, ltb_t by done. eexists. split; [done|].
  destruct (div_ceil w 8) as [|n] eqn:En; [lia|]. simpl. split.
  - simpl. by rewrite length_replicate, En.
  - constructor; [unfold is_byte; lia|]. apply bytes_replicate, is_byte_0.
  - simpl. by rewrite bval_replicate_0.
  - pose proof (pow2_le 1 w ltac:(lia)). change (pow2 1) with 2 in *. lia.
Qed.

Lemma atom_ok w t : legal w -> exists p, polynomial_atom t w = Ok p /\ poly_ok w p /\
  forall ρ, psum ρ p = ρ t.
Proof.
  intros Hw. unfold polynomial_atom. destruct (one_bytes_ok w Hw) as (bs & -> & Hb).
  destruct (coefficient_of _ _ _ Hb) as [Hc Ev]. simpl. eexists. split; [done|]. split.
  - split; [by repeat constructor|]. constructor; [|constructor]. split; simpl; [by repeat constructor|done|by rewrite Ev].
  - intros ρ. simpl. lia.
Qed.

(** ** Coefficients

    A normal form is determined by them, and subtraction subtracts them. *)

Definition coefficient (m : list TermId) (p : list (list TermId * list Z)) : Z := default 0 (bval <$> BTreeMap.get m p).

Lemma cmp_ids (m k : list TermId) : match cmp m k with Eq => m = k | _ => m <> k end.
Proof.
  destruct (cmp m k) eqn:E; [by apply cmp_eq|intros ->; by rewrite BTreeMap.cmp_same in E..].
Qed.

Lemma coefficient_cons m k c p : BTreeMap.above k p ->
  coefficient m ((k, c) :: p) = (if decide (m = k) then bval c else 0) + coefficient m p.
Proof.
  intros Ha. unfold coefficient. cbn [BTreeMap.get]. pose proof (cmp_ids m k) as Hk. destruct (cmp m k) eqn:E.
  - rewrite decide_True by done. subst m. rewrite (BTreeMap.get_above k p Ha). simpl. lia.
  - rewrite decide_False by done. by rewrite (BTreeMap.get_above m p (BTreeMap.above_weaken _ _ _ E Ha)).
  - by rewrite decide_False.
Qed.

Lemma get_entry (m : list TermId) (p : list (list TermId * list Z)) c : BTreeMap.get m p = Some c -> (m, c) ∈ p.
Proof. intros (l & r & -> & _)%BTreeMap.get_Some. apply elem_of_app. right. by left. Qed.

Lemma coefficient_range w m p : poly_ok w p -> 0 <= coefficient m p < pow2 w.
Proof.
  intros [_ Hp]. unfold coefficient. destruct (BTreeMap.get m p) as [c|] eqn:E; simpl; [|pose proof (pow2_pos w); lia].
  apply get_entry in E. rewrite Forall_forall in Hp. apply (repr_range _ _ _ (entry_coefficient _ _ (Hp _ E))).
Qed.

Lemma coefficient_zero w m p : poly_ok w p -> coefficient m p = 0 -> BTreeMap.get m p = None.
Proof.
  intros [_ Hp]. unfold coefficient. destruct (BTreeMap.get m p) as [c|] eqn:E; [|done]. simpl. intros Hz. exfalso.
  apply get_entry in E. rewrite Forall_forall in Hp. by apply (entry_nonzero _ _ (Hp _ E)).
Qed.

(** Only the empty polynomial has no coefficients. *)
Lemma coefficients_none w p : poly_ok w p -> p = [] <-> forall m, coefficient m p = 0.
Proof.
  intros Hp. split; [by intros -> m|]. intros H. destruct p as [|[m c] p]; [done|]. exfalso.
  pose proof (coefficient_zero w m _ Hp (H m)) as E. cbn [BTreeMap.get] in E. by rewrite BTreeMap.cmp_same in E.
Qed.

Lemma coefficient_add_assign w p m c k : poly_ok w p -> coefficient_ok w c ->
  eqm w (coefficient k (polynomial_add_assign p m c w)) (coefficient k p + if decide (k = m) then bval c else 0).
Proof.
  intros [Hs Hp] Hok. unfold polynomial_add_assign. rewrite (all_zero_ok w) by done.
  destruct (Z.eqb_spec (bval c) 0) as [E|Hne]; [destruct (decide _); by rewrite ?E, Z.add_0_r|]. cbv zeta.
  set (updated := match BTreeMap.get m p with Some e => _ | None => c end).
  assert (coefficient_ok w updated /\ eqm w (bval updated) (coefficient m p + bval c)) as [Hu Eu].
  { unfold updated, coefficient. destruct (BTreeMap.get m p) as [e|] eqn:Eg; simpl; [|by split].
    apply get_entry in Eg. rewrite Forall_forall in Hp. pose proof (entry_coefficient _ _ (Hp _ Eg)) as He. simpl in He.
    destruct (coefficient_of _ _ _ (add_bytes_repr _ _ _ _ _ He Hok)) as [Ha Ev]. split; [done|]. by rewrite Ev, eqm_bvadd. }
  rewrite (all_zero_ok w) by done. pose proof (cmp_ids k m) as Hk.
  destruct (Z.eqb_spec (bval updated) 0) as [Ez|_]; unfold coefficient at 1.
  - rewrite BTreeMap.get_remove by done. destruct (cmp k m).
    + subst k. rewrite decide_True by done. by rewrite <- Eu, Ez.
    + rewrite decide_False by done. by rewrite Z.add_0_r.
    + rewrite decide_False by done. by rewrite Z.add_0_r.
  - rewrite BTreeMap.get_insert. destruct (cmp k m).
    + subst k. rewrite decide_True by done. by rewrite <- Eu.
    + rewrite decide_False by done. by rewrite Z.add_0_r.
    + rewrite decide_False by done. by rewrite Z.add_0_r.
Qed.

Lemma coefficient_sub w p q k : poly_ok w p -> poly_ok w q ->
  eqm w (coefficient k (polynomial_sub p q w)) (coefficient k p - coefficient k q).
Proof.
  intros Hp [Hsq Hq]. unfold polynomial_sub. revert p Hp. induction q as [|[m c] q IH]; intros p Hp; simpl.
  { by rewrite Z.sub_0_r. }
  destruct Hsq as [Ha Hsq]. apply Forall_cons in Hq as [[Hm Hc Hz] Hq]. destruct (neg_coefficient w c Hc) as [Hn En].
  destruct (add_assign_ok w p m (neg_bytes c w) Hp) as [Hp' _]; [by split|].
  rewrite (IH Hsq Hq _ Hp'), (coefficient_add_assign w) by done. rewrite (coefficient_cons k m c q Ha).
  destruct (decide (k = m)); [rewrite En|]; apply eq_subrelation; (apply _ || lia).
Qed.

(** The difference is empty exactly when the coefficients are the same. *)
Lemma same_coefficients w p q k : poly_ok w p -> poly_ok w q ->
  coefficient k (polynomial_sub p q w) = 0 <-> coefficient k p = coefficient k q.
Proof.
  intros Hp Hq. pose proof (coefficient_sub w p q k Hp Hq) as E.
  pose proof (coefficient_range w k _ Hp). pose proof (coefficient_range w k _ Hq).
  pose proof (coefficient_range w k _ (proj1 (polynomial_sub_ok w p q Hp Hq))). pose proof (pow2_pos w). split; intros H'.
  - apply (eqm_range w); [done..|]. rewrite H' in E.
    replace (coefficient k p) with (coefficient k q + (coefficient k p - coefficient k q)) by lia.
    rewrite <- E. by rewrite Z.add_0_r.
  - apply (eqm_range w); [done|lia|]. rewrite E, H'. by rewrite Z.sub_diag.
Qed.

(** What the two tests of the difference say. *)
Lemma constant_only w p : poly_ok w p -> p <> [] ->
  forallb (fun e => (length (fst e) =? 0)%nat) p = true <->
  coefficient [] p <> 0 /\ forall m, m <> [] -> coefficient m p = 0.
Proof.
  intros Hp Hne. destruct p as [|[k c] p]; [done|]. pose proof Hp as [[Ha _] He].
  apply Forall_cons in He as [[_ _ Hz] He]. simpl in Hz. split.
  - simpl. intros [->%Nat.eqb_eq%length_zero_iff_nil Hk]%andb_true_iff. destruct p as [|[k' c'] p].
    + split; [done|]. intros m Hm. unfold coefficient. simpl. by destruct m.
    + exfalso. simpl in Hk. apply andb_true_iff in Hk as [->%Nat.eqb_eq%length_zero_iff_nil _].
      by apply Forall_cons in Ha as [? _].
  - intros [Hc Hm]. assert (forall m, m <> [] -> BTreeMap.get m ((k, c) :: p) = None) as Hget.
    { intros m H'. by apply (coefficient_zero w), Hm. }
    assert (k = []) as ->.
    { destruct (decide (k = [])) as [|Hk]; [done|]. specialize (Hget k Hk). cbn [BTreeMap.get] in Hget. by rewrite BTreeMap.cmp_same in Hget. }
    destruct p as [|[k' c'] p]; [done|]. exfalso. apply Forall_cons in Ha as [Ha _]. simpl in Ha.
    assert (k' <> []) as Hk' by (by intros ->). specialize (Hget k' Hk'). cbn [BTreeMap.get] in Hget.
    rewrite BTreeMap.cmp_same in Hget. by destruct k'.
Qed.

(** ** The polynomial of a term *)

Section terms.
Context (s : Arena).
Hypothesis Hi : inv s.

(** [p] is the value of a term modulo [2^w], whatever the environment. *)
Definition denotes (w : nat) (p : list (list TermId * list Z)) (x : Env -> Z) : Prop :=
  poly_ok w p /\ forall env, eqm w (psum (fun t => val s t env) p) (x env).

(** A run that spends budget and returns a polynomial of [x], or gives up. *)
Definition poly_spec (m : M nat (option (list (list TermId * list Z)))) (budget : nat) (w : nat)
    (x : Env -> Z) : Prop :=
  exists o rest, m budget = (Ok o, rest) /\ (rest <= budget)%nat /\
    match o with Some p => denotes w p x | None => True end.

Lemma poly_spec_ret o budget w x : match o with Some p => denotes w p x | None => True end ->
  poly_spec (mret o) budget w x.
Proof. intros H. by exists o, budget. Qed.

Lemma poly_spec_or_none m k budget w y x : poly_spec m budget w y ->
  (forall p rest, (rest <= budget)%nat -> denotes w p y -> poly_spec (k p) rest w x) ->
  poly_spec (or_none m k) budget w x.
Proof.
  intros (o & rest & E & Hle & Ho) Hk. unfold poly_spec, or_none, mbind, M_bind. rewrite E.
  destruct o as [p|]; [|by exists None, rest].
  destruct (Hk p rest Hle Ho) as (o' & rest' & E' & Hle' & Ho'). exists o', rest'.
  split_and!; [done|lia|done].
Qed.

Lemma poly_spec_lift {X} (m : res X) v k budget w x : m = Ok v ->
  poly_spec (k v) budget w x -> poly_spec (lift m ≫= k) budget w x.
Proof. intros -> H. unfold poly_spec, mbind, M_bind, lift in *. done. Qed.

Lemma poly_spec_get k budget w x : poly_spec (k budget) budget w x -> poly_spec (get ≫= k) budget w x.
Proof. done. Qed.

Lemma poly_spec_put m b budget w x : (b <= budget)%nat -> poly_spec m b w x ->
  poly_spec (put b ;; m) budget w x.
Proof. intros Hb (o & rest & E & Hle & Ho). exists o, rest. split_and!; [exact E|lia|done]. Qed.

Lemma denotes_mono w p x y : (forall env, eqm w (x env) (y env)) -> denotes w p x -> denotes w p y.
Proof. intros E [Hp Hx]. split; [done|]. intros env. by rewrite Hx. Qed.

Lemma denotes_binary (f : list (list TermId * list Z) -> list (list TermId * list Z) -> list (list TermId * list Z))
    (g h : Z -> Z -> Z) w p q x y :
  (poly_ok w p -> poly_ok w q -> poly_ok w (f p q) /\
    forall ρ, eqm w (psum ρ (f p q)) (g (psum ρ p) (psum ρ q))) ->
  Proper (eqm w ==> eqm w ==> eqm w) g -> (forall a b, eqm w (h a b) (g a b)) ->
  denotes w p x -> denotes w q y -> denotes w (f p q) (fun env => h (x env) (y env)).
Proof.
  intros Hf Hg Hh [Hp Ex] [Hq Ey]. destruct (Hf Hp Hq) as [Hok E]. split; [done|].
  intros env. by rewrite E, Hh, Ex, Ey.
Qed.

Lemma poly_atom_spec t w x budget : isbv s t w x ->
  poly_spec (atom ← lift (polynomial_atom t w); mret (Some atom)) budget w x.
Proof.
  intros Hx. destruct (atom_ok w t (isbv_legal _ _ _ _ Hi Hx)) as (p & E & Hp & Ev).
  eapply poly_spec_lift; [exact E|]. apply poly_spec_ret. split; [done|]. intros env.
  rewrite Ev. by rewrite (proj2 Hx env).
Qed.

Lemma shl_factor_ok w k : legal w -> (k < w)%nat ->
  coefficient_ok w (set_bit (replicate (div_ceil w 8) 0) k) /\
  bval (set_bit (replicate (div_ceil w 8) 0) k) = pow2 k.
Proof.
  intros Hw Hk. apply coefficient_of.
  pose proof (set_bit_repr w _ 0 k (zero_bytes_repr w) Hk) as H. rewrite Z.testbit_0_l in H.
  by apply H.
Qed.

Lemma polynomial_spec fuel t w x budget : isbv s t w x -> (budget < fuel)%nat ->
  poly_spec (polynomial s fuel t w) budget w x.
Proof.
  revert t x budget. induction fuel as [|fuel IH]; intros t x budget Hx Hf; [lia|].
  cbn [polynomial]. apply poly_spec_get.
  destruct (Nat.eqb_spec budget 0) as [->|Hb]; [by apply poly_spec_ret|].
  apply poly_spec_put; [lia|].
  eapply poly_spec_lift; [by eapply expect_bv_read|]. rewrite Nat.eqb_refl. simpl negb. cbn iota.
  destruct (isbv_node _ _ _ _ Hx) as [k Hn]. eapply poly_spec_lift; [by apply node_read|]. cbn [kind].
  pose proof (isbv_legal _ _ _ _ Hi Hx) as Hw.
  destruct k; try by apply poly_atom_spec.
  - (* constant *)
    destruct (view_const s t w x _ Hi Hx _ _ Hn) as (-> & Hc & Hv). apply poly_spec_ret.
    destruct (constant_ok w bytes Hc) as [Hp Ep]. split; [done|]. intros env. by rewrite Ep, Hv.
  - (* complement *)
    destruct (view_not s t w x _ Hi Hx _ Hn) as (_ & Hc & Hv).
    eapply poly_spec_or_none; [apply IH; [exact Hc|lia]|]. intros p rest Hle [Hp Ep].
    destruct (one_bytes_ok w Hw) as (one & E1 & H1). eapply poly_spec_lift; [exact E1|].
    apply poly_spec_ret. destruct (coefficient_of _ _ _ (neg_bytes_repr _ _ _ H1)) as [Hc1 Ev1].
    destruct (polynomial_neg_ok w p Hp) as [Hn' En].
    destruct (add_assign_ok w _ [] _ Hn' (conj (Sorted_nil _) Hc1)) as [Ha Ea]. split; [done|]. intros env.
    rewrite Ea, En, Ev1, Ep, Hv, eqm_bvnot, eqm_bvneg. simpl. apply eq_subrelation; [apply _|]. lia.
  - (* negation *)
    destruct (view_neg s t w x _ Hi Hx _ Hn) as (_ & Hc & Hv).
    eapply poly_spec_or_none; [apply IH; [exact Hc|lia]|]. intros p rest Hle [Hp Ep].
    apply poly_spec_ret. destruct (polynomial_neg_ok w p Hp) as [Hn' En].
    split; [done|]. intros env. by rewrite En, Ep, Hv, eqm_bvneg.
  - (* sum *)
    destruct (view_add s t w x _ Hi Hx _ _ Hn) as (_ & _ & Ha & Hb' & Hv).
    eapply poly_spec_or_none; [apply IH; [exact Ha|lia]|]. intros p rest Hle Hp.
    eapply poly_spec_or_none; [apply IH; [exact Hb'|lia]|]. intros q rest' Hle' Hq.
    apply poly_spec_ret. eapply denotes_mono.
    2:{ apply (denotes_binary (fun p q => polynomial_add p q w) Z.add (bvadd w) w p q);
          [apply polynomial_add_ok|apply _|apply eqm_bvadd|exact Hp|exact Hq]. }
    intros env. by rewrite Hv.
  - (* difference *)
    destruct (view_sub s t w x _ Hi Hx _ _ Hn) as (Ha & Hb' & Hv).
    eapply poly_spec_or_none; [apply IH; [exact Ha|lia]|]. intros p rest Hle Hp.
    eapply poly_spec_or_none; [apply IH; [exact Hb'|lia]|]. intros q rest' Hle' Hq.
    apply poly_spec_ret. eapply denotes_mono.
    2:{ apply (denotes_binary (fun p q => polynomial_sub p q w) Z.sub (bvsub w) w p q);
          [apply polynomial_sub_ok|apply _|apply eqm_bvsub|exact Hp|exact Hq]. }
    intros env. by rewrite Hv.
  - (* product *)
    destruct (view_mul s t w x _ Hi Hx _ _ Hn) as (_ & _ & Ha & Hb' & Hv).
    eapply poly_spec_or_none; [apply IH; [exact Ha|lia]|]. intros p rest Hle [Hp Ep].
    eapply poly_spec_or_none; [apply IH; [exact Hb'|lia]|]. intros q rest' Hle' [Hq Eq].
    apply poly_spec_ret. destruct (polynomial_mul p q w) as [r|] eqn:Er; [|done].
    destruct (polynomial_mul_ok w p q r Hp Hq Er) as [Hr Em]. split; [done|].
    intros env. by rewrite Em, Ep, Eq, Hv, eqm_bvmul.
  - (* left shift *)
    destruct (view_shl s t w x _ Hi Hx _ _ Hn) as (_ & _ & Ha & Hb' & Hv).
    destruct (const_shift_read s Hi b w _ Hb') as (c & Ec & Hc).
    eapply poly_spec_lift; [exact Ec|]. destruct c as [k|]; [|by apply poly_atom_spec].
    destruct Hc as [_ Hk]. destruct (Nat.leb_spec w k) as [Hwk|Hwk].
    + apply poly_spec_ret. split; [apply poly_ok_nil|]. intros env. specialize (Hk env).
      rewrite Hv. unfold bvshl. destruct (Z.ltb_spec (val s b env) (Z.of_nat w)); [lia|done].
    + eapply poly_spec_or_none; [apply IH; [exact Ha|lia]|]. intros p rest Hle [Hp Ep].
      eapply poly_spec_lift; [by apply bytes_for_width_ok|]. apply poly_spec_ret.
      destruct (shl_factor_ok w k Hw Hwk) as [Hfa Ef].
      destruct (polynomial_scale_ok w p _ Hp Hfa) as [Hs Es]. split; [done|]. intros env.
      assert (val s b env = Z.of_nat k) as Evb by (specialize (Hk env); lia).
      rewrite Es, Ef, Ep, Hv, Evb.
      by rewrite eqm_bvshl by lia.
Qed.

(** ** Deciding equality *)

Lemma constant_difference w p ρ : poly_ok w p -> p <> [] ->
  forallb (fun e => (length (fst e) =? 0)%nat) p = true ->
  0 < psum ρ p < pow2 w.
Proof.
  intros [Hs Hc] Hne Hk. destruct p as [|[m c] p]; [done|]. simpl in Hk, Hs.
  apply andb_true_iff in Hk as [Hm%Nat.eqb_eq Hk]. apply length_zero_iff_nil in Hm as ->.
  apply Forall_cons in Hc as [[_ Hb Hz] _]. simpl in *. destruct p as [|[m' c'] p].
  - simpl. pose proof (repr_range _ _ _ Hb). lia.
  - exfalso. simpl in Hk. apply andb_true_iff in Hk as [Hm'%Nat.eqb_eq _].
    apply length_zero_iff_nil in Hm' as ->. destruct Hs as [Ha _]. by apply Forall_cons in Ha as [? _].
Qed.

Lemma polynomial_equality_read a b w x y : isbv s a w x -> isbv s b w y ->
  exists o, polynomial_equality s a b = Ok o /\
    match o with Some v => forall env, (x env =? y env) = v | None => True end.
Proof.
  intros Ha Hb. unfold polynomial_equality. rewrite (expect_same_bv_read _ _ _ _ _ _ _ Ha Hb).
  cbn [mbind res_bind]. destruct (128 <? w)%nat; [by eexists|].
  destruct (polynomial_spec (S polynomial_budget) a w x polynomial_budget Ha) as (oa & ra & Ea & Hra & Hoa); [lia|].
  unfold or_none at 1. unfold mbind, M_bind. rewrite Ea. destruct oa as [p|]; [|by eexists].
  destruct (polynomial_spec (S polynomial_budget) b w y ra Hb) as (ob & rb & Eb & _ & Hob); [lia|].
  unfold or_none, mbind, M_bind. rewrite Eb. destruct ob as [q|]; [|by eexists].
  simpl. eexists. split; [done|]. destruct Hoa as [Hp Ep], Hob as [Hq Eq].
  assert (forall env, 0 <= x env < pow2 w) as Rx by (intros env; by eapply isbv_range).
  assert (forall env, 0 <= y env < pow2 w) as Ry by (intros env; by eapply isbv_range).
  case_bool_decide as E.
  { subst q. intros env. apply Z.eqb_eq, (eqm_range w); auto. by rewrite <- Ep. }
  destruct (polynomial_sub_ok w p q Hp Hq) as [Hd Ed]. set (d := polynomial_sub p q w) in *.
  assert (forall env, eqm w (psum (fun t => val s t env) d) (x env - y env)) as Hxy.
  { intros env. by rewrite Ed, Ep, Eq. }
  destruct (Nat.eqb_spec (length d) 0) as [Hl|Hl].
  { apply length_zero_iff_nil in Hl. intros env. apply Z.eqb_eq, (eqm_range w); auto.
    specialize (Hxy env). rewrite Hl in Hxy. simpl in Hxy.
    replace (x env) with (y env + (x env - y env)) by lia. rewrite <- Hxy. by rewrite Z.add_0_r. }
  destruct (forallb _ d) eqn:Ek; [|done]. intros env. apply Z.eqb_neq. intros Exy.
  pose proof (constant_difference w d (fun t => val s t env) Hd) as Hpos.
  assert (d <> []) as Hne by (intros E0; by rewrite E0 in Hl).
  specialize (Hpos Hne Ek). specialize (Hxy env). rewrite Exy, Z.sub_diag in Hxy.
  apply (eqm_range w) in Hxy; lia.
Qed.

(** The test of two normal forms is complete: it tells them apart exactly by their
    coefficients, and decides whenever at most the constant coefficients differ. *)
Lemma compared_exactly w p q : poly_ok w p -> poly_ok w q ->
  let d := polynomial_sub p q w in
  let verdict :=
    if bool_decide (p = q) then Some true
    else if (length d =? 0)%nat then Some true
    else if forallb (fun e => (length (fst e) =? 0)%nat) d then Some false else None in
  (verdict = Some true <-> forall m, coefficient m p = coefficient m q) /\
  (verdict = Some false <-> coefficient [] p <> coefficient [] q /\ forall m, m <> [] -> coefficient m p = coefficient m q).
Proof.
  intros Hp Hq. cbv zeta. pose proof (fun m => same_coefficients w p q m Hp Hq) as Hsame.
  destruct (polynomial_sub_ok w p q Hp Hq) as [Hd _]. set (d := polynomial_sub p q w) in *.
  pose proof (coefficients_none w d Hd) as Hnone. pose proof (constant_only w d Hd) as Hconst.
  assert (d = [] <-> forall m, coefficient m p = coefficient m q) as Heq.
  { rewrite Hnone. by split; intros H m; apply Hsame. }
  case_bool_decide as E; [subst q; naive_solver|].
  destruct (Nat.eqb_spec (length d) 0) as [Hl|Hl].
  { apply length_zero_iff_nil in Hl. split; [naive_solver|]. rewrite Heq in Hl. naive_solver. }
  assert (d <> []) as Hne by (intros E0; by rewrite E0 in Hl).
  assert (coefficient [] d <> 0 /\ (forall m, m <> [] -> coefficient m d = 0) <->
    coefficient [] p <> coefficient [] q /\ forall m, m <> [] -> coefficient m p = coefficient m q) as Hc.
  { rewrite (Hsame []). split; intros [H1 H2]; (split; [done|]); intros m Hm; by apply Hsame, H2. }
  rewrite <- Hc, <- Heq, <- Hconst by done. destruct (forallb _ d); naive_solver.
Qed.
End terms.
