(* ===== verification/BuilderFacts.v ===== *)
(** * The builder's constructors, one by one

    Each constructor's specification: on terms with given values it returns a term
    whose value is SMT-LIB's operation on them, under every environment, through
    constant folding and every local rewrite.  This file has the constants, the
    bitwise operations, the shifts and multiplication. *)
From stdpp Require Import sorting.
From S2P Require Import Prelude Bits Smt SmtFacts Bytes BytesFacts Ir Sem Evaluator EvaluatorFacts.
From S2P Require Import BlastFacts Polynomial PolynomialFacts Builder.
From S2P Require Import BuilderSpec BuilderReads.

#[local] Open Scope Z_scope.

(** ** Automation *)

(** Carries the facts about the terms of [s] over to an arena it grew into. *)
Ltac grow_facts Hg :=
  repeat match goal with
  | H : isbv ?s _ _ _ |- _ => match type of Hg with grows s _ => apply (isbv_grow _ _ _ _ _ Hg) in H end
  | H : isbool ?s _ _ |- _ => match type of Hg with grows s _ => apply (isbool_grow _ _ _ _ Hg) in H end
  | H : isconst ?s _ _ _ |- _ => match type of Hg with grows s _ => apply (isconst_grow _ _ _ _ _ Hg) in H end
  end.

(** The sort of a node over terms with known sorts. *)
Ltac sorts :=
  simpl; unfold binary_width;
  repeat match goal with
  | H : isbv ?s ?t _ _ |- context [width_at (nodes ?s) ?t] => rewrite (proj1 H)
  | H : isbool ?s ?t _ |- context [bool_at (nodes ?s) ?t] => rewrite (proj1 H)
  end; simpl; rewrite ?Nat.eqb_refl; try reflexivity.

(** The value of a node over terms with known values. *)
Ltac node_values :=
  let r := fresh "r" in let s' := fresh "s'" in let Hg := fresh "Hg" in let Hi' := fresh "Hi'" in
  let env := fresh "env" in
  intros r s' Hg Hi' env; grow_facts Hg; simpl; operand_values Hi' env; try reflexivity.

Lemma add_bv s k w x : inv s -> legal w -> sort_of_kind (nodes s) k = Some (SBv w) ->
  normal_kind (nodes s) k ->
  (forall r s', grows s s' -> inv s' -> forall env, sem_kind env r (denote env (nodes s')) k = VBv w (x env)) ->
  aspec s (Arena.add k (SBv w)) (fun r s' => isbv s' r w x).
Proof.
  intros. eapply aspec_mono; [by apply aspec_add_bv|]. by intros r s' _ _ [? _].
Qed.

Lemma add_bool s k p : inv s -> sort_of_kind (nodes s) k = Some SBool -> normal_kind (nodes s) k ->
  (forall r s', grows s s' -> inv s' -> forall env, sem_kind env r (denote env (nodes s')) k = VBool (p env)) ->
  aspec s (Arena.add k SBool) (fun r s' => isbool s' r p).
Proof.
  intros. eapply aspec_mono; [by apply aspec_add_bool|]. by intros r s' _ _ [? _].
Qed.

Ltac add_node_bv Hi :=
  apply add_bv; [exact Hi|by eapply isbv_legal; [exact Hi|eassumption]|sorts|done|node_values].
Ltac add_node_bool Hi := apply add_bool; [exact Hi|sorts|done|node_values].

(** Runs a check or a query whose answer is known. *)
Lemma aspec_expect_bv {Y} s t w x c (k : nat -> M Arena Y) R : isbv s t w x ->
  aspec s (k w) R -> aspec s (expect_bv t c ≫= k) R.
Proof. intros Hx. apply aspec_rd. by eapply expect_bv_read. Qed.

Lemma aspec_same_bv {Y} s a b w x y c (k : nat -> M Arena Y) R : isbv s a w x -> isbv s b w y ->
  aspec s (k w) R -> aspec s (expect_same_bv a b c ≫= k) R.
Proof. intros Ha Hb. apply aspec_rd. by eapply expect_same_bv_read. Qed.

Lemma aspec_expect_bool {Y} s t p c (k : unit -> M Arena Y) R : isbool s t p ->
  aspec s (k tt) R -> aspec s (expect_bool t c ≫= k) R.
Proof. intros Hx. apply aspec_rd. by eapply expect_bool_read. Qed.

Ltac answer := first [eassumption | reflexivity | apply or_read; answer | apply and_read; answer].

(** One step of a program: a check of sorts or a query answered by a hypothesis. *)
Ltac step :=
  first
    [ eapply aspec_same_bv; [eassumption..|]
    | eapply aspec_expect_bv; [eassumption|]
    | eapply aspec_expect_bool; [eassumption|]
    | eapply aspec_rd; [answer|] ].

(** Continues after a constructor, with what it returned. *)
Ltac next r s' Hg Hi Hr := intros r s' Hg Hi Hr; cbv beta in Hr; grow_facts Hg.

Lemma aspec_ret_bv s t w x y : inv s -> isbv s t w x -> (forall env, x env = y env) ->
  aspec s (mret t) (fun r s' => isbv s' r w y).
Proof. intros Hi Hx E. apply aspec_ret; [done|]. by eapply isbv_ext. Qed.

Lemma aspec_ret_bool s t p q : inv s -> isbool s t p -> (forall env, p env = q env) ->
  aspec s (mret t) (fun r s' => isbool s' r q).
Proof. intros Hi Hx E. apply aspec_ret; [done|]. by eapply isbool_ext. Qed.

Lemma aspec_ext_bv s m w x y : (forall env, x env = y env) ->
  aspec s m (fun r s' => isbv s' r w x) -> aspec s m (fun r s' => isbv s' r w y).
Proof. intros E Hm. eapply aspec_mono; [exact Hm|]. intros r s' _ _. by apply isbv_ext. Qed.

Lemma aspec_ext_bool s m p q : (forall env, p env = q env) ->
  aspec s m (fun r s' => isbool s' r p) -> aspec s m (fun r s' => isbool s' r q).
Proof. intros E Hm. eapply aspec_mono; [exact Hm|]. intros r s' _ _. by apply isbool_ext. Qed.

(** ** Constants and variables *)

Lemma isconst_isbv s t w z : inv s -> isconst s t w z -> isbv s t w (fun _ => z).
Proof.
  intros Hi (bs & Hn & Hb). assert (isbv s t w (val s t)) as Hx
    by (apply isbv_val; unfold width_at; by rewrite Hn).
  destruct (view_const s t w _ _ Hi Hx _ _ Hn) as (_ & Hb' & Hv).
  eapply isbv_ext; [|exact Hx]. intros env. rewrite Hv. apply Hb.
Qed.

Lemma isconst_is_const s t w z : isconst s t w z -> is_const (nodes s) t.
Proof. intros (bs & Hn & _). by exists w, bs, (SBv w). Qed.

(** A constant from bytes of the right length: the unused bits are cleared. *)
Lemma const_bytes_masked s bytes w : inv s -> legal w -> length bytes = div_ceil w 8 ->
  Forall is_byte bytes ->
  aspec s (bv_const_bytes bytes w) (fun r s' => isconst s' r w (wrap w (bval bytes))).
Proof.
  intros Hi Hw Hl Hb. unfold bv_const_bytes.
  pose proof (mask_repr w bytes Hl Hb) as Hm.
  eapply aspec_lift.
  { unfold normalized_bytes. rewrite bytes_for_width_ok by done. cbn [mbind res_bind].
    by rewrite Hl, Nat.eqb_refl. }
  set (bs := mask_unused_high_bits bytes w) in *.
  assert (canonical w bs = true) as Hc by (apply canonical_spec; by rewrite (repr_val _ _ _ Hm)).
  eapply aspec_mono; [apply aspec_add; [done| |done]|].
  - apply andb_true_iff. split; [|by apply valid_sort_bv]. apply bool_decide_eq_true. simpl.
    by rewrite Hc.
  - intros r s' _ _ Hn. by exists bs.
Qed.

Lemma const_bytes_spec s bytes w z : inv s -> legal w -> bv_repr w bytes z ->
  aspec s (bv_const_bytes bytes w) (fun r s' => isconst s' r w z).
Proof.
  intros Hi Hw Hb. pose proof (repr_range _ _ _ Hb) as Hr.
  replace z with (wrap w (bval bytes)) by (rewrite (repr_val _ _ _ Hb); by apply wrap_small).
  apply const_bytes_masked; [done..|exact (repr_length _ _ _ Hb)|exact (repr_bytes _ _ _ Hb)].
Qed.

Lemma const_bytes_bv s bytes w z x : inv s -> legal w -> bv_repr w bytes z -> (forall env, z = x env) ->
  aspec s (bv_const_bytes bytes w) (fun r s' => isbv s' r w x).
Proof.
  intros Hi Hw Hb E. eapply aspec_mono; [by apply const_bytes_spec|].
  intros r s' _ Hi' Hc. eapply isbv_ext; [|exact (isconst_isbv _ _ _ _ Hi' Hc)]. done.
Qed.

Lemma zero_const_spec s w : inv s -> legal w -> aspec s (zero w) (fun r s' => isconst s' r w 0).
Proof.
  intros Hi Hw. unfold zero. eapply aspec_lift; [by apply bytes_for_width_ok|].
  apply const_bytes_spec; [done..|]. apply zero_bytes_repr.
Qed.

Lemma zero_spec s w x : inv s -> legal w -> (forall env, x env = 0) ->
  aspec s (zero w) (fun r s' => isbv s' r w x).
Proof.
  intros Hi Hw E. eapply aspec_mono; [by apply zero_const_spec|].
  intros r s' _ Hi' Hc. eapply isbv_ext; [|exact (isconst_isbv _ _ _ _ Hi' Hc)]. done.
Qed.

Lemma all_ones_spec s w x : inv s -> legal w -> (forall env, x env = pow2 w - 1) ->
  aspec s (all_ones w) (fun r s' => isbv s' r w x).
Proof.
  intros Hi Hw E. unfold all_ones. eapply aspec_lift; [by apply bytes_for_width_ok|].
  eapply const_bytes_bv; [done..|by apply ones_bytes_repr|]. done.
Qed.

Lemma bool_const_spec s b p : inv s -> (forall env, p env = b) ->
  aspec s (bool_const b) (fun r s' => isbool s' r p).
Proof. intros Hi E. unfold bool_const. add_node_bool Hi. by rewrite E. Qed.

Lemma bval_app_zeros l n : bval (l ++ replicate n 0) = bval l.
Proof. induction l as [|b l IH]; simpl; [apply bval_replicate_0|]. by rewrite IH. Qed.

Lemma mask_again w bs z : bv_repr w bs z -> bv_repr w (mask_unused_high_bits bs w) z.
Proof.
  intros Hb. pose proof (mask_repr w bs (repr_length _ _ _ Hb) (repr_bytes _ _ _ Hb)) as H.
  rewrite (repr_val _ _ _ Hb), wrap_small in H by (by eapply repr_range). done.
Qed.

Lemma bv_const_const s value w : inv s -> legal w -> 0 <= value < 2 ^ 64 ->
  aspec s (bv_const value w) (fun r s' => isconst s' r w (wrap w value)).
Proof.
  intros Hi Hw Hv. unfold bv_const.
  eapply aspec_lift; [unfold validate_bv_width; destruct Hw; rewrite (proj2 (andb_true_iff _ _)); [done|lia]|].
  eapply aspec_lift; [by apply bytes_for_width_ok|].
  destruct (to_le_bytes_shape 8 value) as [Hl8 Hb8]. rewrite Hl8.
  set (n := div_ceil w 8). set (k := (n `min` 8)%nat).
  rewrite (take_to_le k 8) by lia. destruct (to_le_bytes_shape k value) as [Hlk Hbk].
  eapply aspec_lift.
  { unfold copy_from_slice. rewrite length_replicate, Hlk, (leb_t 0), (leb_t k), Nat.sub_0_r, Nat.eqb_refl by lia.
    simpl. by rewrite drop_replicate. }
  simpl. set (bytes := to_le_bytes k value ++ replicate (n - k) 0).
  assert (length bytes = n) as Hlen by (unfold bytes; rewrite length_app, length_replicate; lia).
  assert (Forall is_byte bytes) as Hby
    by (apply Forall_app; split; [done|apply bytes_replicate, is_byte_0]).
  apply const_bytes_spec; [done..|].
  replace (wrap w value) with (wrap w (bval bytes)); [by apply mask_repr|].
  unfold bytes. rewrite bval_app_zeros, bval_to_le. pose proof (div_ceil_8_bounds w).
  destruct (decide (n <= 8)%nat).
  - apply wrap_mod_wider. lia.
  - f_equal. apply Z.mod_small. replace k with 8%nat by lia. done.
Qed.

Lemma bv_one_spec s w : inv s -> legal w -> aspec s (bv_const 1 w) (fun r s' => isconst s' r w 1).
Proof.
  intros Hi Hw. pose proof (bv_const_const s 1 w Hi Hw ltac:(lia)) as H.
  rewrite wrap_small in H; [done|]. destruct Hw. pose proof (pow2_le 1 w ltac:(lia)).
  change (pow2 1) with 2 in *. lia.
Qed.

Lemma bv_var_const_bool_spec s name ext : inv s ->
  aspec s (bool_var_external name ext) (fun r s' => isbool s' r (fun env => env_bool env r)).
Proof.
  intros Hi. unfold bool_var_external. eapply aspec_mono; [apply aspec_add; done|].
  intros r s' _ Hi' Hn. split; [unfold bool_at; by rewrite Hn|]. intros env.
  unfold truth, sem_bool. by rewrite (node_value _ env _ _ (inv_typed _ Hi') Hn).
Qed.

Lemma bv_var_external_spec s name w ext : inv s -> legal w ->
  aspec s (bv_var_external name w ext) (fun r s' => isbv s' r w (fun env => wrap w (env_bv env r))).
Proof.
  intros Hi Hw. unfold bv_var_external.
  eapply aspec_lift; [unfold validate_bv_width; destruct Hw; rewrite (proj2 (andb_true_iff _ _)); [done|lia]|].
  eapply aspec_mono; [apply aspec_add; [done| |done]|].
  - apply andb_true_iff. split; [by apply bool_decide_eq_true|by apply valid_sort_bv].
  - intros r s' _ Hi' Hn. split; [unfold width_at; by rewrite Hn|]. intros env.
    unfold val, sem_bv. by rewrite (node_value _ env _ _ (inv_typed _ Hi') Hn).
Qed.

(** ** Complement and negation *)

Lemma bvneg_bvneg w x : 0 <= x < pow2 w -> bvneg w (bvneg w x) = x.
Proof. intros Hx. unfold bvneg. rewrite wrap_opp, Z.opp_involutive. by apply wrap_small. Qed.

Lemma bv_not_spec s t w x : inv s -> isbv s t w x ->
  aspec s (bv_not t) (fun r s' => isbv s' r w (fun env => bvnot w (x env))).
Proof.
  intros Hi Hx. destruct (const_read s Hi t w x Hx) as (c & Ec & Hc).
  destruct (not_child_read s Hi t w x Hx) as (o & Eo & Ho).
  pose proof (isbv_legal _ _ _ _ Hi Hx) as Hw. unfold bv_not. step.
  destruct c as [[w' bs]|].
  { destruct Hc as (-> & _ & Hb & Hv). eapply const_bytes_bv; [done..|by apply not_bytes_repr|].
    intros env. by rewrite Hv. }
  step. destruct o as [inner|].
  { destruct Ho as [Ho Hv]. eapply aspec_ret_bv; [done..|]. intros env. by rewrite Hv, bvnot_bvnot. }
  unfold bv_unary. step. add_node_bv Hi.
Qed.

Lemma bv_neg_spec s t w x : inv s -> isbv s t w x ->
  aspec s (bv_neg t) (fun r s' => isbv s' r w (fun env => bvneg w (x env))).
Proof.
  intros Hi Hx. destruct (const_read s Hi t w x Hx) as (c & Ec & Hc).
  destruct (neg_child_read s Hi t w x Hx) as (o & Eo & Ho).
  pose proof (isbv_legal _ _ _ _ Hi Hx) as Hw. unfold bv_neg. step.
  destruct c as [[w' bs]|].
  { destruct Hc as (-> & _ & Hb & Hv). eapply const_bytes_bv; [done..|by apply neg_bytes_repr|].
    intros env. by rewrite Hv. }
  step. destruct o as [inner|].
  { destruct Ho as (_ & Ho & Hv). eapply aspec_ret_bv; [done..|]. intros env.
    rewrite Hv, bvneg_bvneg; [done|]. by eapply isbv_range. }
  unfold bv_unary. step. add_node_bv Hi.
Qed.

(** ** Conjunction *)

Lemma land_ones w x : 0 <= x < pow2 w -> Z.land x (pow2 w - 1) = x.
Proof.
  intros Hx. replace (pow2 w - 1) with (Z.ones (Z.of_nat w)) by (rewrite Z.ones_equiv; lia).
  rewrite Z.land_ones by lia. by apply Z.mod_small.
Qed.

Lemma bvnot_ldiff w x : 0 <= x < pow2 w -> bvnot w x = Z.ldiff (Z.ones (Z.of_nat w)) x.
Proof.
  intros Hx. unfold bvnot. replace (pow2 w - 1) with (Z.ones (Z.of_nat w)) by (rewrite Z.ones_equiv; lia).
  apply Z.sub_nocarry_ldiff. apply Z.bits_inj'. intros i Hi0. rewrite Z.ldiff_spec, Z.bits_0.
  destruct (Z.ltb_spec i (Z.of_nat w)).
  - rewrite Z.ones_spec_low by lia. by rewrite andb_false_r.
  - by rewrite (testbit_high w) by lia.
Qed.

Lemma testbit_bvnot w x i : 0 <= x < pow2 w -> 0 <= i ->
  Z.testbit (bvnot w x) i = (i <? Z.of_nat w) && negb (Z.testbit x i).
Proof.
  intros Hx Hi. rewrite bvnot_ldiff, Z.ldiff_spec by done. f_equal.
  destruct (Z.ltb_spec i (Z.of_nat w)); [apply Z.ones_spec_low; lia|apply Z.ones_spec_high; lia].
Qed.

Lemma land_bvnot w x : 0 <= x < pow2 w -> Z.land (bvnot w x) x = 0.
Proof.
  intros Hx. apply Z.bits_inj'. intros i Hi. rewrite Z.land_spec, testbit_bvnot, Z.bits_0 by done.
  destruct (Z.testbit x i); [by rewrite andb_false_r|by rewrite andb_false_r].
Qed.

Lemma lor_bvnot w x : 0 <= x < pow2 w -> Z.lor (bvnot w x) x = pow2 w - 1.
Proof.
  intros Hx. replace (pow2 w - 1) with (Z.ones (Z.of_nat w)) by (rewrite Z.ones_equiv; lia).
  apply Z.bits_inj'. intros i Hi. rewrite Z.lor_spec, testbit_bvnot by done.
  destruct (Z.ltb_spec i (Z.of_nat w)).
  - rewrite Z.ones_spec_low by lia. by destruct (Z.testbit x i).
  - by rewrite Z.ones_spec_high, (testbit_high w) by lia.
Qed.

Lemma lxor_bvnot w x : 0 <= x < pow2 w -> Z.lxor (bvnot w x) x = pow2 w - 1.
Proof. intros Hx. rewrite Z.lxor_lor by (by apply land_bvnot). by apply lor_bvnot. Qed.

(** The facts the binary constructors start from. *)
Ltac binary_reads Hi Ha Hb :=
  match type of Ha with isbv ?s ?a ?w ?x => match type of Hb with isbv _ ?b _ ?y =>
    destruct (is_zero_read s Hi a w x Ha) as (za & Eza & Hza);
    destruct (is_zero_read s Hi b w y Hb) as (zb & Ezb & Hzb);
    destruct (is_one_read s Hi a w x Ha) as (ua & Eua & Hua);
    destruct (is_one_read s Hi b w y Hb) as (ub & Eub & Hub);
    destruct (is_all_ones_read s Hi a w x Ha) as (oa & Eoa & Hoa);
    destruct (is_all_ones_read s Hi b w y Hb) as (ob & Eob & Hob);
    destruct (const_pair_read s Hi a b w x y Ha Hb) as (c & Ec & Hc);
    destruct (bv_negation_read s Hi a b w x y Ha Hb) as (n & En & Hn);
    destruct (disjoint_read s Hi a b w x y Ha Hb) as (d & Ed & Hd);
    pose proof (isbv_legal s a w x Hi Ha) as Hw;
    assert (forall env, 0 <= x env < pow2 w) as Rx by (intros env0; by apply (isbv_range s a w x env0 Hi Ha));
    assert (forall env, 0 <= y env < pow2 w) as Ry by (intros env0; by apply (isbv_range s b w y env0 Hi Hb))
  end end.

(** A constructor that orders its operands is specified on ordered ones. *)
Lemma order_pair_comm a b : order_pair a b = order_pair b a.
Proof. unfold order_pair. destruct (Nat.leb_spec a b), (Nat.leb_spec b a); try done; [|lia]. f_equal; lia. Qed.

Lemma order_pair_le a b : (a <= b)%nat -> order_pair a b = (a, b).
Proof. intros H. unfold order_pair. by rewrite leb_t. Qed.

Lemma by_order (m : TermId -> TermId -> M Arena TermId) (f : Z -> Z -> Z) (P : TermId -> TermId -> Prop) s w a b x y :
  (forall a b, m a b = m b a) -> (forall a b, f a b = f b a) -> (P a b -> P b a) ->
  (forall a b x y, (a <= b)%nat -> P a b -> isbv s a w x -> isbv s b w y ->
    aspec s (m a b) (fun r s' => isbv s' r w (fun env => f (x env) (y env)))) ->
  P a b -> isbv s a w x -> isbv s b w y ->
  aspec s (m a b) (fun r s' => isbv s' r w (fun env => f (x env) (y env))).
Proof.
  intros Hm Hf HP H Hab Hx Hy. destruct (decide (a <= b)%nat) as [|Hlt]; [by apply H|].
  rewrite Hm. eapply aspec_ext_bv; [|apply (H b a y x); auto; lia]. intros env. apply Hf.
Qed.

Lemma bv_and_spec s a b w x y : inv s -> isbv s a w x -> isbv s b w y ->
  aspec s (bv_and a b) (fun r s' => isbv s' r w (fun env => Z.land (x env) (y env))).
Proof.
  intros Hi. apply (by_order bv_and Z.land (fun _ _ => True)); try done.
  { intros a' b'. unfold bv_and. by rewrite order_pair_comm. }
  { apply Z.land_comm. }
  clear a b x y. intros a b x y Hab _ Ha Hb. binary_reads Hi Ha Hb.
  destruct (or_contains_read s Hi a b w x y Ha Hb) as (oab & Eoab & Hoab).
  destruct (or_contains_read s Hi b a w y x Hb Ha) as (oba & Eoba & Hoba).
  unfold bv_and. rewrite order_pair_le by done. step. destruct (Nat.eqb_spec a b) as [->|_].
  { eapply aspec_ret_bv; [done|exact Ha|]. intros env.
    by rewrite <- (proj2 (isbv_inj _ _ _ _ _ _ Ha Hb)), Z.land_diag. }
  step. destruct (za || zb) eqn:Ez.
  { step. destruct za.
    - eapply aspec_ret_bv; [done..|]. intros env. by rewrite Hza.
    - simpl in Ez. eapply aspec_ret_bv; [done..|]. intros env. by rewrite Hzb, Z.land_0_r. }
  step. destruct (oa || ob) eqn:Eo.
  { step. destruct oa.
    - eapply aspec_ret_bv; [done..|]. intros env. by rewrite Hoa, Z.land_comm, land_ones.
    - simpl in Eo. eapply aspec_ret_bv; [done..|]. intros env. by rewrite Hob, land_ones. }
  step. destruct c as [[av bv]|].
  { destruct Hc as [[Hav Ea] [Hbv Eb]]. eapply const_bytes_bv; [done..|by apply and_bytes_repr|].
    intros env. by rewrite Ea, Eb. }
  step. destruct n. { apply zero_spec; [done..|]. intros env. by rewrite Hn, land_bvnot. }
  step. destruct d. { apply zero_spec; [done..|]. auto. }
  step. destruct oab. { eapply aspec_ret_bv; [done..|]. intros env. by rewrite Hoab. }
  step. destruct oba. { eapply aspec_ret_bv; [done..|]. intros env. by rewrite Z.land_comm, Hoba. }
  add_node_bv Hi.
Qed.

(** ** Disjunction *)

Lemma lor_ones w x : 0 <= x < pow2 w -> Z.lor x (pow2 w - 1) = pow2 w - 1.
Proof.
  intros Hx. replace (pow2 w - 1) with (Z.ones (Z.of_nat w)) by (rewrite Z.ones_equiv; lia).
  apply Z.bits_inj'. intros i Hi. rewrite Z.lor_spec. destruct (Z.ltb_spec i (Z.of_nat w)).
  - rewrite Z.ones_spec_low by lia. apply orb_true_r.
  - by rewrite Z.ones_spec_high, (testbit_high w) by lia.
Qed.

(** [add] is only asked for the sum of a term and its shift by itself. *)
Definition add_of_shift (add : TermId -> TermId -> M Arena TermId) (s : Arena) (w : nat) (a b : TermId) : Prop :=
  forall a' b', order_pair a b = (a', b') -> self_shift s a' b' w \/ self_shift s b' a' w ->
  aspec s (add a' b') (fun r s' => isbv s' r w (fun env => bvadd w (val s a' env) (val s b' env))).

Lemma bv_or_with_spec add s a b w x y : inv s -> add_of_shift add s w a b ->
  isbv s a w x -> isbv s b w y ->
  aspec s (bv_or_with add a b) (fun r s' => isbv s' r w (fun env => Z.lor (x env) (y env))).
Proof.
  intros Hi. apply (by_order (bv_or_with add) Z.lor (add_of_shift add s w)).
  { intros a' b'. unfold bv_or_with. by rewrite order_pair_comm. }
  { apply Z.lor_comm. }
  { unfold add_of_shift. by rewrite order_pair_comm. }
  clear a b x y. intros a b x y Hab Hadd Ha Hb. binary_reads Hi Ha Hb.
  destruct (and_contains_read s Hi a b w x y Ha Hb) as (aab & Eaab & Haab).
  destruct (and_contains_read s Hi b a w y x Hb Ha) as (aba & Eaba & Haba).
  destruct (self_shift_read s Hi a b w x y Ha Hb) as (sh & Esh & Hsh).
  unfold bv_or_with. rewrite order_pair_le by done. step. destruct (Nat.eqb_spec a b) as [->|_].
  { eapply aspec_ret_bv; [done|exact Ha|]. intros env.
    by rewrite <- (proj2 (isbv_inj _ _ _ _ _ _ Ha Hb)), Z.lor_diag. }
  step. destruct (za || zb) eqn:Ez.
  { step. destruct za.
    - eapply aspec_ret_bv; [done..|]. intros env. by rewrite Hza.
    - simpl in Ez. eapply aspec_ret_bv; [done..|]. intros env. by rewrite Hzb, Z.lor_0_r. }
  step. destruct (oa || ob) eqn:Eo.
  { step. destruct oa.
    - eapply aspec_ret_bv; [done..|]. intros env. by rewrite Hoa, Z.lor_comm, lor_ones.
    - simpl in Eo. eapply aspec_ret_bv; [done..|]. intros env. by rewrite Hob, lor_ones. }
  step. destruct c as [[av bv]|].
  { destruct Hc as [[Hav Ea] [Hbv Eb]]. eapply const_bytes_bv; [done..|by apply or_bytes_repr|].
    intros env. by rewrite Ea, Eb. }
  step. destruct n. { apply all_ones_spec; [done..|]. intros env. by rewrite Hn, lor_bvnot. }
  step. destruct aab. { eapply aspec_ret_bv; [done..|]. intros env. by rewrite Haab. }
  step. destruct aba. { eapply aspec_ret_bv; [done..|]. intros env. by rewrite Z.lor_comm, Haba. }
  step. destruct sh.
  { eapply aspec_ext_bv; [|apply (Hadd a b); [by apply order_pair_le|auto]]. intros env.
    cbv beta. rewrite (proj2 Ha env), (proj2 Hb env). apply disjoint_add; auto.
    destruct (Hsh eq_refl) as [Hs|Hs]; [by eapply self_shift_value|].
    rewrite Z.land_comm. by eapply self_shift_value. }
  add_node_bv Hi.
Qed.

(** ** Shifts *)

Lemma bvshl_neg w a k : 0 <= k -> bvshl w (bvneg w a) k = bvneg w (bvshl w a k).
Proof.
  intros Hk. apply (eqm_range w); [apply bvshl_bound|apply bvneg_bound|].
  rewrite eqm_bvshl, !eqm_bvneg, eqm_bvshl by done. apply eq_subrelation; [apply _|]. lia.
Qed.

Lemma bv_shl_fuel_spec fuel s a b w x y : inv s -> (a < fuel)%nat -> isbv s a w x -> isbv s b w y ->
  aspec s (bv_shl_fuel fuel a b) (fun r s' => isbv s' r w (fun env => bvshl w (x env) (y env))).
Proof.
  revert s a b x y. induction fuel as [|fuel IH]; intros s a b x y Hi Hf Ha Hb; [lia|].
  binary_reads Hi Ha Hb. cbn [bv_shl_fuel]. step. step.
  destruct za.
  { apply zero_spec; [done..|]. intros env. rewrite Hza by done. apply (eqm_range w);
      [apply bvshl_bound|lia|]. rewrite eqm_bvshl by apply Ry. done. }
  destruct (const_read s Hi a w x Ha) as (ca & Eca & Hca).
  destruct (const_shift_read s Hi b w y Hb) as (k & Ek & Hk).
  destruct (neg_child_read s Hi a w x Ha) as (ng & Eng & Hng).
  set (rest := rd (fun s => bv_neg_child s a) ≫= _).
  assert (~ (is_const (nodes s) a /\ is_const (nodes s) b) ->
    aspec s rest (fun r s' => isbv s' r w (fun env => bvshl w (x env) (y env)))) as Hrest.
  { intros Hnc. subst rest. step. destruct ng as [inner|].
    - destruct Hng as (Hlt & Hin & Hv).
      eapply aspec_bind; [apply IH; [done|lia|exact Hin|exact Hb]|]. next r s' Hg Hi' Hr.
      eapply aspec_ext_bv; [|by apply bv_neg_spec]. intros env. simpl. by rewrite Hv, bvshl_neg by apply Ry.
    - apply add_bv; [exact Hi|done|sorts|exact Hnc|node_values]. }
  step. destruct k as [k|].
  2:{ apply Hrest. tauto. }
  destruct Hk as [Hcb Hk]. destruct (Nat.eqb_spec k 0) as [->|Hk0].
  { eapply aspec_ret_bv; [done..|]. intros env. specialize (Hk env).
    replace (y env) with 0 by (destruct Hw; lia). by rewrite bvshl_0 by (destruct Hw; lia || auto). }
  destruct (Nat.leb_spec w k).
  { apply zero_spec; [done..|]. intros env. specialize (Hk env). unfold bvshl.
    destruct (Z.ltb_spec (y env) (Z.of_nat w)); [lia|done]. }
  step. destruct ca as [[w' bs]|].
  2:{ apply Hrest. simpl in Hca. tauto. }
  destruct Hca as (-> & _ & Hbs & Hv). eapply const_bytes_bv; [done..|by apply shl_bytes_repr|].
  intros env. specialize (Hk env). unfold bvshl. rewrite Hv.
  destruct (Z.ltb_spec (y env) (Z.of_nat w)); [|lia]. do 2 f_equal. lia.
Qed.

Lemma bv_shl_spec s a b w x y : inv s -> isbv s a w x -> isbv s b w y ->
  aspec s (bv_shl a b) (fun r s' => isbv s' r w (fun env => bvshl w (x env) (y env))).
Proof. intros Hi. apply bv_shl_fuel_spec; [done|lia]. Qed.

Lemma const_lookup_grow s s' t n : grows s s' -> (t < length (nodes s))%nat ->
  nodes s' !! t = Some n -> nodes s !! t = Some n.
Proof.
  intros Hg Ht Hn. destruct (lookup_lt_is_Some_2 _ _ Ht) as [m E].
  by rewrite (grows_lookup _ _ _ _ Hg E) in Hn; simplify_eq.
Qed.

(** If [t] is a right shift, its amount is at most [c]: what makes the
    reordering of nested shifts terminate. *)
Definition amount_le (s : Arena) (t c : TermId) : Prop :=
  forall v m so, nodes s !! t = Some (mkNode (BvLShr v m) so) -> (m <= c)%nat.

Lemma amount_le_grow s s' t c : grows s s' -> (t < length (nodes s))%nat ->
  amount_le s t c -> amount_le s' t c.
Proof. intros Hg Ht H v m so Hn. eapply H. by eapply const_lookup_grow. Qed.

Lemma isconst_amount_le s t w z c : isconst s t w z -> amount_le s t c.
Proof. intros (bs & Hn & _) v m so. congruence. Qed.

Lemma bvlshr_self w x : 0 <= x < pow2 w -> bvlshr w x x = 0.
Proof.
  intros Hx. unfold bvlshr. destruct (Z.ltb_spec x (Z.of_nat w)); [|done].
  rewrite Z.shiftr_div_pow2 by lia. apply Z.div_small. pose proof (Z.pow_gt_lin_r 2 x). lia.
Qed.

(** What a right shift of [a] by [b] returns. *)
Definition lshr_post (s : Arena) (a b : TermId) (w : nat) (z : Env -> Z) (r : TermId) (s' : Arena) : Prop :=
  isbv s' r w z /\ forall c, (b <= c)%nat -> amount_le s a c -> amount_le s' r c.

Lemma lshr_post_const s a b w z bytes k : inv s -> legal w -> bv_repr w bytes k ->
  (forall env, z env = k) -> aspec s (bv_const_bytes bytes w) (lshr_post s a b w z).
Proof.
  intros Hi Hw Hb Hz. eapply aspec_mono; [by apply const_bytes_spec|]. next r s' Hg Hi' Hr. split.
  - eapply isbv_ext; [|exact (isconst_isbv _ _ _ _ Hi' Hr)]. done.
  - intros c _ _. by eapply isconst_amount_le.
Qed.

Lemma lshr_post_zero s a b w z : inv s -> legal w ->
  (forall env, z env = 0) -> aspec s (zero w) (lshr_post s a b w z).
Proof.
  intros Hi Hw Hz. eapply aspec_mono; [by apply zero_const_spec|]. next r s' Hg Hi' Hr. split.
  - eapply isbv_ext; [|exact (isconst_isbv _ _ _ _ Hi' Hr)]. done.
  - intros c _ _. by eapply isconst_amount_le.
Qed.

(** Everything but the nested shift, which [rest] handles. *)
Lemma lshr_step fuel s a b w x y : inv s -> isbv s a w x -> isbv s b w y ->
  let z env := bvlshr w (x env) (y env) in
  (forall parts, bv_lshr_parts s a = Ok parts ->
    aspec s (match parts with
             | Some (inner, inner_amount) =>
                 if (b <? inner_amount)%nat then
                   shifted ← bv_lshr_fuel fuel inner b; bv_lshr_fuel fuel shifted inner_amount
                 else Arena.add (BvLShr a b) (SBv w)
             | None => Arena.add (BvLShr a b) (SBv w)
             end) (lshr_post s a b w z)) ->
  aspec s (bv_lshr_fuel (S fuel) a b) (lshr_post s a b w z).
Proof.
  intros Hi Ha Hb z Hrest. binary_reads Hi Ha Hb. cbn [bv_lshr_fuel]. step. step.
  destruct ((a =? b)%nat || za) eqn:Ez.
  { apply lshr_post_zero; [done..|]. intros env. unfold z. destruct (Nat.eqb_spec a b) as [->|].
    - rewrite <- (proj2 (isbv_inj _ _ _ _ _ _ Ha Hb)). by apply bvlshr_self.
    - simpl in Ez. rewrite Hza by done. unfold bvlshr. rewrite Z.shiftr_0_l. by destruct (y env <? Z.of_nat w). }
  destruct (const_read s Hi a w x Ha) as (ca & Eca & Hca).
  destruct (const_shift_read s Hi b w y Hb) as (k & Ek & Hk).
  destruct (lshr_parts_read s Hi a w x Ha) as (pa & Epa & _). specialize (Hrest pa Epa).
  set (rest := rd (fun s => bv_lshr_parts s a) ≫= _).
  assert (aspec s rest (lshr_post s a b w z)) as Hr by (subst rest; step; exact Hrest).
  step. destruct k as [k|]; [|exact Hr].
  destruct Hk as [_ Hk]. destruct (Nat.eqb_spec k 0) as [->|Hk0].
  { apply aspec_ret; [done|]. split; [|done]. eapply isbv_ext; [|exact Ha]. intros env. unfold z.
    specialize (Hk env). replace (y env) with 0 by (destruct Hw; lia).
    by rewrite bvlshr_0 by (destruct Hw; lia || auto). }
  destruct (Nat.leb_spec w k).
  { apply lshr_post_zero; [done..|]. intros env. specialize (Hk env). unfold z, bvlshr.
    destruct (Z.ltb_spec (y env) (Z.of_nat w)); [lia|done]. }
  step. destruct ca as [[w' bs]|]; [|exact Hr].
  destruct Hca as (-> & _ & Hbs & Hv). eapply lshr_post_const; [done..|by apply lshr_bytes_repr|].
  intros env. specialize (Hk env). unfold z, bvlshr. rewrite Hv.
  destruct (Z.ltb_spec (y env) (Z.of_nat w)); [|lia]. f_equal. lia.
Qed.

Lemma lshr_add s a b w x y : inv s -> isbv s a w x -> isbv s b w y -> amount_le s a b ->
  aspec s (Arena.add (BvLShr a b) (SBv w)) (lshr_post s a b w (fun env => bvlshr w (x env) (y env))).
Proof.
  intros Hi Ha Hb Hle. eapply aspec_mono.
  { apply aspec_add_bv; [exact Hi|by eapply isbv_legal, Ha|sorts|exact Hle|].
    node_values. }
  intros r s' Hg Hi' [Hr Hn]. split; [done|]. intros c Hc _ v m so Hn'. by simplify_eq.
Qed.

(** With ordered amounts there is no recursion. *)
Lemma lshr_ordered fuel s a b w x y : inv s -> isbv s a w x -> isbv s b w y -> amount_le s a b ->
  aspec s (bv_lshr_fuel (S fuel) a b) (lshr_post s a b w (fun env => bvlshr w (x env) (y env))).
Proof.
  intros Hi Ha Hb Hle. apply lshr_step; [done..|]. intros parts Ep.
  destruct (lshr_parts_read s Hi a w x Ha) as (o & Eo & Ho). rewrite Ep in Eo. injection Eo as <-.
  destruct parts as [[inner ia]|]; [|by apply lshr_add].
  destruct Ho as (Hn & _). specialize (Hle _ _ _ Hn). destruct (Nat.ltb_spec b ia); [lia|].
  apply lshr_add; [done..|]. intros v m so Hn'. rewrite Hn in Hn'. by simplify_eq.
Qed.

Lemma bv_lshr_fuel_spec fuel s a b w x y : inv s -> (a < fuel)%nat -> isbv s a w x -> isbv s b w y ->
  aspec s (bv_lshr_fuel fuel a b) (lshr_post s a b w (fun env => bvlshr w (x env) (y env))).
Proof.
  revert s a b x y. induction fuel as [|fuel IH]; intros s a b x y Hi Hf Ha Hb; [lia|].
  apply lshr_step; [done..|]. intros parts Ep.
  destruct (lshr_parts_read s Hi a w x Ha) as (o & Eo & Ho). rewrite Ep in Eo. injection Eo as <-.
  destruct parts as [[inner ia]|].
  2:{ apply lshr_add; [done..|]. intros v m so Hn. by apply Ho in Hn. }
  destruct Ho as (Hn & Hlt & Hin & Hia & Hv). destruct (Nat.ltb_spec b ia) as [Hbi|Hbi].
  2:{ apply lshr_add; [done..|]. intros v m so Hn'. rewrite Hn in Hn'. by simplify_eq. }
  pose proof (inv_normal _ Hi _ _ Hn) as HN. simpl in HN.
  pose proof (width_at_lt _ _ _ (proj1 Ha)) as Hal.
  eapply aspec_bind; [apply (IH s inner b); [done|lia|exact Hin|exact Hb]|].
  next r s' Hg Hi' Hr. destruct Hr as [Hr Ham].
  destruct fuel as [|fuel]; [lia|].
  eapply aspec_mono; [apply (lshr_ordered fuel s' r ia); [done|exact Hr|exact Hia|]|].
  { apply Ham; [lia|]. intros v m so Hi0. by eapply HN. }
  next r' s'' Hg' Hi'' Hr'. destruct Hr' as [Hr' Ham']. split.
  - eapply isbv_ext; [|exact Hr']. intros env. cbv beta. rewrite Hv.
    pose proof (isbv_legal _ _ _ _ Hi'' Hia) as [? _].
    assert (0 <= val s inner env < pow2 w) by (by eapply isbv_range, Hin).
    assert (0 <= val s ia env < pow2 w) by (by eapply isbv_range, Hia).
    assert (0 <= y env < pow2 w) by (by eapply isbv_range, Hb).
    rewrite !bvlshr_add by lia. f_equal. lia.
  - intros c Hbc Hac. specialize (Hac _ _ _ Hn). apply Ham'; [done|].
    intros v m so Hn'. enough (m <= ia)%nat by lia. revert Hn'. apply Ham; [lia|].
    intros v' m' so' Hi0. by eapply HN.
Qed.

Lemma bv_lshr_spec s a b w x y : inv s -> isbv s a w x -> isbv s b w y ->
  aspec s (bv_lshr a b) (fun r s' => isbv s' r w (fun env => bvlshr w (x env) (y env))).
Proof.
  intros Hi Ha Hb. eapply aspec_mono; [by apply bv_lshr_fuel_spec; [done|lia|exact Ha|exact Hb]|].
  by intros r s' _ _ [? _].
Qed.

Lemma bv_ashr_spec s a b w x y : inv s -> isbv s a w x -> isbv s b w y ->
  aspec s (bv_ashr a b) (fun r s' => isbv s' r w (fun env => bvashr w (x env) (y env))).
Proof.
  intros Hi Ha Hb. binary_reads Hi Ha Hb.
  destruct (const_read s Hi a w x Ha) as (ca & Eca & Hca).
  destruct (const_shift_read s Hi b w y Hb) as (k & Ek & Hk). unfold bv_ashr. step. step.
  destruct k as [k|]; [|add_node_bv Hi]. destruct Hk as [_ Hk]. destruct (Nat.eqb_spec k 0) as [->|Hk0].
  { eapply aspec_ret_bv; [done..|]. intros env. specialize (Hk env).
    replace (y env) with 0 by (destruct Hw; lia). by rewrite bvashr_0 by (destruct Hw; lia || auto). }
  step. destruct ca as [[w' bs]|]; [|add_node_bv Hi].
  destruct Hca as (-> & _ & Hbs & Hv).
  eapply const_bytes_bv; [done..|apply ashr_bytes_repr; [destruct Hw; lia|exact Hbs]|].
  intros env. rewrite Hv, (Hk env). unfold bvashr. do 2 f_equal. specialize (Ry env). lia.
Qed.
