(* ===== verification/BuilderArith.v ===== *)
(** * The builder's sums and products

    The canonical forms of multiplication and addition: nested nodes are
    flattened, constants are combined, equal terms are grouped with their
    coefficients, and the result is rebuilt in order.  Flattening is read as a
    product, or a sum, of term values modulo [2^w]. *)
From stdpp Require Import sorting.
From S2P Require Import Prelude Bits Smt SmtFacts Bytes BytesFacts Ir Sem EvaluatorFacts.
From S2P Require Import BlastFacts Polynomial PolynomialFacts Builder.
From S2P Require Import BuilderSpec BuilderReads BuilderFacts.

#[local] Open Scope Z_scope.

Lemma val_grow s s' t w x env : grows s s' -> isbv s t w x -> val s' t env = val s t env.
Proof.
  intros Hg Hx. pose proof (isbv_grow _ _ _ _ _ Hg Hx) as [_ E']. destruct Hx as [_ E].
  by rewrite E', E.
Qed.

(** Terms of one width, each with its own value. *)
Definition terms_ok (s : Arena) (w : nat) (l : list TermId) : Prop := Forall (fun t => isbv s t w (val s t)) l.

Lemma terms_ok_grow s s' w l : grows s s' -> terms_ok s w l -> terms_ok s' w l.
Proof.
  intros Hg H. eapply Forall_impl; [exact H|]. intros t Ht. simpl.
  eapply isbv_ext; [|exact (isbv_grow _ _ _ _ _ Hg Ht)]. intros env. exact (eq_sym (val_grow _ _ _ _ _ env Hg Ht)).
Qed.

Definition prod_of (s : Arena) (l : list TermId) (env : Env) : Z := product (fun t => val s t env) l.
Definition sum_of (s : Arena) (l : list TermId) (env : Env) : Z := foldr (fun t z => val s t env + z) 0 l.

Lemma prod_of_grow s s' w l env : grows s s' -> terms_ok s w l -> prod_of s' l env = prod_of s l env.
Proof.
  intros Hg. unfold prod_of. induction l as [|t l IH]; [done|]. intros [Ht Hl]%Forall_cons. simpl.
  fold (product (fun t => val s' t env) l) (product (fun t => val s t env) l).
  rewrite IH by done. by rewrite (val_grow _ _ _ _ _ env Hg Ht).
Qed.

Lemma sum_of_grow s s' w l env : grows s s' -> terms_ok s w l -> sum_of s' l env = sum_of s l env.
Proof.
  intros Hg. unfold sum_of. induction l as [|t l IH]; [done|]. intros [Ht Hl]%Forall_cons. simpl.
  rewrite IH by done. by rewrite (val_grow _ _ _ _ _ env Hg Ht).
Qed.

Lemma prod_of_cons s t l env : prod_of s (t :: l) env = val s t env * prod_of s l env.
Proof. done. Qed.
Lemma prod_of_app s l k env : prod_of s (l ++ k) env = prod_of s l env * prod_of s k env.
Proof. apply product_app. Qed.
Lemma prod_of_perm s l k env : l ≡ₚ k -> prod_of s l env = prod_of s k env.
Proof. apply product_perm. Qed.
Lemma sum_of_app s l k env : sum_of s (l ++ k) env = sum_of s l env + sum_of s k env.
Proof. unfold sum_of. induction l as [|t l IH]; simpl; [done|]. rewrite IH. lia. Qed.
Lemma sum_of_perm s l k env : l ≡ₚ k -> sum_of s l env = sum_of s k env.
Proof. unfold sum_of. induction 1; simpl; lia. Qed.

(** ** Flattening *)

Lemma collect_mul_read s fuel t w x out : inv s -> (t < fuel)%nat -> isbv s t w x ->
  exists l, collect_bv_mul s fuel t out = Ok (out ++ l) /\ terms_ok s w l /\
    forall env, eqm w (prod_of s l env) (x env).
Proof.
  intros Hi. revert t x out. induction fuel as [|fuel IH]; intros t x out Hf Hx; [lia|].
  cbn [collect_bv_mul]. destruct (isbv_node _ _ _ _ Hx) as [k Hn].
  rewrite (node_read _ _ _ Hn). cbn [mbind res_bind kind].
  assert (exists l, Ok (E := Error) (out ++ [t]) = Ok (out ++ l) /\ terms_ok s w l /\
    forall env, eqm w (prod_of s l env) (x env)) as Hleaf.
  { exists [t]. split; [done|]. split.
    - constructor; [by apply isbv_val, (proj1 Hx)|constructor].
    - intros env. unfold prod_of. simpl. by rewrite Z.mul_1_r, (proj2 Hx env). }
  destruct k; try exact Hleaf. clear Hleaf.
  destruct (view_mul s t w x _ Hi Hx _ _ Hn) as (? & ? & Ha & Hb & Hv).
  destruct (IH a _ out ltac:(lia) Ha) as (la & -> & Hla & Ea). cbn [mbind res_bind].
  destruct (IH b _ (out ++ la) ltac:(lia) Hb) as (lb & -> & Hlb & Eb).
  exists (la ++ lb). rewrite app_assoc. split; [done|]. split; [by apply Forall_app|].
  intros env. by rewrite prod_of_app, Ea, Eb, Hv, eqm_bvmul.
Qed.

Lemma collect_add_read s fuel t w x out : inv s -> (t < fuel)%nat -> isbv s t w x ->
  exists l, collect_bv_add s fuel t out = Ok (out ++ l) /\ terms_ok s w l /\
    forall env, eqm w (sum_of s l env) (x env).
Proof.
  intros Hi. revert t x out. induction fuel as [|fuel IH]; intros t x out Hf Hx; [lia|].
  cbn [collect_bv_add]. destruct (isbv_node _ _ _ _ Hx) as [k Hn].
  rewrite (node_read _ _ _ Hn). cbn [mbind res_bind kind].
  assert (exists l, Ok (E := Error) (out ++ [t]) = Ok (out ++ l) /\ terms_ok s w l /\
    forall env, eqm w (sum_of s l env) (x env)) as Hleaf.
  { exists [t]. split; [done|]. split.
    - constructor; [by apply isbv_val, (proj1 Hx)|constructor].
    - intros env. unfold sum_of. simpl. by rewrite Z.add_0_r, (proj2 Hx env). }
  destruct k; try exact Hleaf. clear Hleaf.
  destruct (view_add s t w x _ Hi Hx _ _ Hn) as (? & ? & Ha & Hb & Hv).
  destruct (IH a _ out ltac:(lia) Ha) as (la & -> & Hla & Ea). cbn [mbind res_bind].
  destruct (IH b _ (out ++ la) ltac:(lia) Hb) as (lb & -> & Hlb & Eb).
  exists (la ++ lb). rewrite app_assoc. split; [done|]. split; [by apply Forall_app|].
  intros env. by rewrite sum_of_app, Ea, Eb, Hv, eqm_bvadd.
Qed.

(** ** Rebuilding *)

Lemma bv_mul_node_spec s a b w x y : inv s -> isbv s a w x -> isbv s b w y ->
  aspec s (bv_mul_node a b w) (fun r s' => isbv s' r w (fun env => bvmul w (x env) (y env))).
Proof.
  intros Hi Ha Hb. unfold bv_mul_node. apply order_pair_ind; [add_node_bv Hi|].
  eapply aspec_ext_bv; [intros env; apply bvmul_comm|]. add_node_bv Hi.
Qed.

Lemma bv_add_node_spec s a b w x y : inv s -> isbv s a w x -> isbv s b w y ->
  aspec s (bv_add_node a b w) (fun r s' => isbv s' r w (fun env => bvadd w (x env) (y env))).
Proof.
  intros Hi Ha Hb. unfold bv_add_node. apply order_pair_ind; [add_node_bv Hi|].
  eapply aspec_ext_bv; [intros env; apply bvadd_comm|]. add_node_bv Hi.
Qed.

Lemma chain_mul_spec s cur w x l : inv s -> isbv s cur w x -> terms_ok s w l ->
  aspec s (chain (fun cur next => bv_mul_node cur next w) cur l)
    (fun r s' => isbv s' r w (fun env => wrap w (x env * prod_of s l env))).
Proof.
  revert s cur x. induction l as [|t l IH]; intros s cur x Hi Hx Hl; cbn [chain].
  - eapply aspec_ret_bv; [done..|]. intros env. unfold prod_of. simpl. rewrite Z.mul_1_r.
    symmetry. apply wrap_small. by eapply isbv_range.
  - apply Forall_cons in Hl as [Ht Hl]. eapply aspec_bind; [by apply bv_mul_node_spec|].
    intros r s' Hg Hi' Hr. cbv beta in Hr.
    eapply aspec_ext_bv; [|apply IH; [done|exact Hr|by eapply terms_ok_grow]].
    intros env. cbv beta. rewrite (prod_of_grow s s' w l env Hg Hl), prod_of_cons.
    change (eqm w (bvmul w (x env) (val s t env) * prod_of s l env) (x env * (val s t env * prod_of s l env))).
    rewrite eqm_bvmul. apply eqm_eq. ring.
Qed.

Lemma chain_add_spec s cur w x l : inv s -> isbv s cur w x -> terms_ok s w l ->
  aspec s (chain (fun cur next => bv_add_node cur next w) cur l)
    (fun r s' => isbv s' r w (fun env => wrap w (x env + sum_of s l env))).
Proof.
  revert s cur x. induction l as [|t l IH]; intros s cur x Hi Hx Hl; cbn [chain].
  - eapply aspec_ret_bv; [done..|]. intros env. unfold sum_of. simpl. rewrite Z.add_0_r.
    symmetry. apply wrap_small. by eapply isbv_range.
  - apply Forall_cons in Hl as [Ht Hl]. eapply aspec_bind; [by apply bv_add_node_spec|].
    intros r s' Hg Hi' Hr. cbv beta in Hr.
    eapply aspec_ext_bv; [|apply IH; [done|exact Hr|by eapply terms_ok_grow]].
    intros env. cbv beta. rewrite (sum_of_grow s s' w l env Hg Hl).
    change (eqm w (bvadd w (x env) (val s t env) + sum_of s l env) (x env + (val s t env + sum_of s l env))).
    rewrite eqm_bvadd. apply eqm_eq. ring.
Qed.

(** A nonempty list stays nonempty when sorted. *)
Lemma sort_ids_cons l : (length l =? 0)%nat = false ->
  exists first rest, sort_ids l = first :: rest /\ first :: rest ≡ₚ l.
Proof.
  intros Hl%Nat.eqb_neq. pose proof (merge_sort_Permutation le l) as Hp. unfold sort_ids.
  destruct (merge_sort le l) as [|first rest] eqn:E; [|by exists first, rest].
  apply Permutation_nil in Hp as ->. done.
Qed.

Lemma rebuild_mul_spec s l w : inv s -> legal w -> terms_ok s w l ->
  aspec s (rebuild_bv_mul l w) (fun r s' => isbv s' r w (fun env => wrap w (prod_of s l env))).
Proof.
  intros Hi Hw Hl. unfold rebuild_bv_mul. destruct (length l =? 0)%nat eqn:E.
  - apply Nat.eqb_eq, length_zero_iff_nil in E as ->.
    eapply aspec_mono; [by apply bv_one_spec|]. next r s' Hg Hi' Hr.
    eapply isbv_ext; [|exact (isconst_isbv _ _ _ _ Hi' Hr)]. intros env.
    symmetry. apply wrap_small. destruct Hw. pose proof (pow2_le 1 w ltac:(lia)). change (pow2 1) with 2 in *.
    unfold prod_of. simpl. lia.
  - destruct (sort_ids_cons l E) as (f & rest & -> & Hp).
    assert (terms_ok s w (f :: rest)) as [Hf Hr]%Forall_cons by (unfold terms_ok; by rewrite Hp).
    eapply aspec_ext_bv; [|by apply chain_mul_spec]. intros env. cbv beta.
    by rewrite <- prod_of_cons, (prod_of_perm _ _ _ _ Hp).
Qed.

Lemma rebuild_add_spec s l w : inv s -> legal w -> terms_ok s w l ->
  aspec s (rebuild_bv_add l w) (fun r s' => isbv s' r w (fun env => wrap w (sum_of s l env))).
Proof.
  intros Hi Hw Hl. unfold rebuild_bv_add. destruct (length l =? 0)%nat eqn:E.
  - apply Nat.eqb_eq, length_zero_iff_nil in E as ->. by apply zero_spec.
  - destruct (sort_ids_cons l E) as (f & rest & -> & Hp).
    assert (terms_ok s w (f :: rest)) as [Hf Hr]%Forall_cons by (unfold terms_ok; by rewrite Hp).
    eapply aspec_ext_bv; [|by apply chain_add_spec]. intros env. cbv beta.
    by rewrite <- (sum_of_perm _ _ _ env Hp).
Qed.

(** ** Multiplication *)

(** A read-only program: it returns in the arena it started in. *)
Definition reads {X} (s : Arena) (m : M Arena X) (Q : X -> Prop) : Prop := exists r, m s = (Ok r, s) /\ Q r.

Lemma reads_bind {X Y} s (m : M Arena X) (k : X -> M Arena Y) Q R :
  reads s m Q -> (forall r, Q r -> aspec s (k r) R) -> aspec s (m ≫= k) R.
Proof. intros (r & E & HQ) H. unfold aspec, mbind, M_bind. rewrite E. by apply H. Qed.

Lemma reads_rd {X Y} s (f : Arena -> res X) (k : X -> M Arena Y) x Q :
  f s = Ok x -> reads s (k x) Q -> reads s (rd f ≫= k) Q.
Proof. intros E (r & Er & HQ). exists r. unfold mbind, M_bind, rd. by rewrite E. Qed.

Lemma reads_ret {X} s (x : X) (Q : X -> Prop) : Q x -> reads s (mret x) Q.
Proof. intros H. by exists x. Qed.

Lemma reads_reads_bind {X Y} s (m : M Arena X) (k : X -> M Arena Y) Q R :
  reads s m Q -> (forall r, Q r -> reads s (k r) R) -> reads s (m ≫= k) R.
Proof. intros (r & E & HQ) H. destruct (H r HQ) as (r' & E' & HR). exists r'. unfold mbind, M_bind. by rewrite E. Qed.

Definition split_factors_post (s : Arena) (w : nat) (z : Env -> Z) (o : option (list Z * list TermId)) : Prop :=
  match o with
  | Some (constant, l) => coefficient_ok w constant /\ terms_ok s w l /\
      forall env, eqm w (bval constant * prod_of s l env) (z env)
  | None => forall env, eqm w 0 (z env)
  end.

Lemma split_factors_spec s w l c nc : inv s -> terms_ok s w l -> coefficient_ok w c -> terms_ok s w nc ->
  reads s (split_factors l w c nc)
    (split_factors_post s w (fun env => bval c * prod_of s nc env * prod_of s l env)).
Proof.
  intros Hi. revert c nc. induction l as [|t l IH]; intros c nc Hl Hc Hnc; cbn [split_factors].
  - apply reads_ret. split_and!; [done..|]. intros env. apply eqm_eq. unfold prod_of at 3. simpl. lia.
  - apply Forall_cons in Hl as [Ht Hl]. destruct (const_read s Hi t w _ Ht) as (o & Eo & Ho).
    eapply reads_rd; [exact Eo|]. destruct o as [[w' bs]|].
    + destruct Ho as (_ & _ & Hb & Hv). destruct (all_zero bs) eqn:Ez.
      * apply reads_ret. intros env. rewrite prod_of_cons, Hv, (all_zero_bval _ Ez). apply eqm_eq. ring.
      * destruct (coefficient_of _ _ _ (mul_bytes_repr _ _ _ _ _ Hc Hb)) as [Hm Em].
        destruct (IH _ nc Hl Hm Hnc) as (o & E & HQ). exists o. split; [exact E|].
        destruct o as [[c' l']|]; [destruct HQ as (? & ? & HQ); split_and!; try done|];
          intros env; (etrans; [apply (HQ env)|]); cbv beta; rewrite Em, eqm_bvmul, prod_of_cons, Hv; apply eqm_eq; ring.
    + destruct (IH c (nc ++ [t]) Hl Hc) as (o & E & HQ).
      { apply Forall_app. split; [done|]. by constructor. }
      exists o. split; [exact E|].
      destruct o as [[c' l']|]; [destruct HQ as (? & ? & HQ); split_and!; try done|];
        intros env; (etrans; [apply (HQ env)|]); cbv beta; rewrite prod_of_app, !prod_of_cons; apply eqm_eq; unfold prod_of at 2; simpl; ring.
Qed.

Lemma canonical_mul_spec s a b w x y : inv s -> isbv s a w x -> isbv s b w y ->
  aspec s (canonical_bv_mul a b w) (fun o s' =>
    match o with Some r => isbv s' r w (fun env => bvmul w (x env) (y env)) | None => True end).
Proof.
  intros Hi Ha Hb. pose proof (isbv_legal _ _ _ _ Hi Ha) as Hw. unfold canonical_bv_mul.
  destruct (collect_mul_read s (S a) a w x [] Hi ltac:(lia) Ha) as (la & Ea & Hla & Va).
  destruct (collect_mul_read s (S b) b w y la Hi ltac:(lia) Hb) as (lb & Eb & Hlb & Vb).
  eapply aspec_rd. { rewrite Ea. exact Eb. }
  destruct (_ <=? 2)%nat; [by apply aspec_ret|].
  destruct (one_bytes_ok w Hw) as (one & E1 & H1). eapply aspec_lift; [exact E1|].
  destruct (coefficient_of _ _ _ H1) as [Hc1 Ev1].
  eapply reads_bind.
  { apply split_factors_spec; [done|apply Forall_app; by split|exact Hc1|constructor]. }
  intros parts Hparts.
  assert (forall env, eqm w (bval one * prod_of s [] env * prod_of s (la ++ lb) env) (bvmul w (x env) (y env))) as Hxy.
  { intros env. rewrite prod_of_app, Ev1, Va, Vb, eqm_bvmul. apply eqm_eq. unfold prod_of. simpl. ring. }
  destruct parts as [[constant l]|].
  2:{ eapply aspec_bind; [apply (zero_spec s w (fun env => bvmul w (x env) (y env))); [done..|]|].
      - intros env. apply (eqm_range w); [apply bvmul_bound|pose proof (pow2_pos w); lia|].
        rewrite <- Hxy. symmetry. apply Hparts.
      - intros r s' _ Hi' Hr. by apply aspec_ret. }
  destruct Hparts as (Hc & Hl & Hval).
  eapply aspec_bind with (Q := fun l' s' => terms_ok s' w l' /\
    forall env, eqm w (prod_of s' l' env) (bvmul w (x env) (y env))).
  { destruct (is_one_bytes constant) eqn:Eo; simpl.
    - apply aspec_ret; [done|]. split; [done|]. intros env.
      rewrite <- Hxy, <- (Hval env), (is_one_bval _ Eo). by rewrite Z.mul_1_l.
    - eapply aspec_bind; [by apply const_bytes_spec|]. intros r s' Hg Hi' Hr. cbv beta in Hr.
      pose proof (isconst_isbv _ _ _ _ Hi' Hr) as Hrv.
      apply aspec_ret; [done|]. split.
      + apply Forall_app. split; [by eapply terms_ok_grow|]. constructor; [|constructor].
        by apply isbv_val, (proj1 Hrv).
      + intros env. rewrite prod_of_app, (prod_of_grow s s' w l env Hg Hl), prod_of_cons, (proj2 Hrv env).
        rewrite <- Hxy, <- (Hval env). apply eqm_eq. unfold prod_of at 2. simpl. ring. }
  intros l' s' Hg Hi' [Hl' Hv']. eapply aspec_bind; [by apply rebuild_mul_spec|].
  intros r s'' Hg' Hi'' Hr. apply aspec_ret; [done|]. eapply isbv_ext; [|exact Hr]. intros env.
  cbv beta. apply (eqm_range w); [apply wrap_bound|apply bvmul_bound|]. rewrite eqm_wrap. apply Hv'.
Qed.

Lemma bv_mul_fuel_spec fuel s a b w x y : inv s -> (a + b < fuel)%nat -> isbv s a w x -> isbv s b w y ->
  aspec s (bv_mul_fuel fuel a b) (fun r s' => isbv s' r w (fun env => bvmul w (x env) (y env))).
Proof.
  revert s a b x y. induction fuel as [|fuel IH]; intros s a b x y Hi Hf; [lia|].
  apply (by_order (bv_mul_fuel (S fuel)) (bvmul w) (fun a b => (a + b < S fuel)%nat)); [| |lia| |done].
  { intros a' b'. cbn [bv_mul_fuel]. by rewrite order_pair_comm. }
  { apply bvmul_comm. }
  clear a b x y Hf. intros a b x y Hab Hf Ha Hb. binary_reads Hi Ha Hb.
  destruct (neg_child_read s Hi a w x Ha) as (na & Ena & Hna), (neg_child_read s Hi b w y Hb) as (nb & Enb & Hnb).
  destruct (shl_parts_read s Hi a w x Ha) as (sa & Esa & Hsa), (shl_parts_read s Hi b w y Hb) as (sb & Esb & Hsb).
  cbn [bv_mul_fuel]. rewrite order_pair_le by done. step. step.
  destruct (za || zb) eqn:Ez.
  { apply zero_spec; [done..|]. intros env. apply orb_true_iff in Ez as [->| ->].
    - by rewrite Hza, bvmul_0.
    - by rewrite Hzb, bvmul_comm, bvmul_0. }
  step. destruct (ua || ub) eqn:Eu.
  { step. destruct ua.
    - eapply aspec_ret_bv; [done..|]. intros env. by rewrite Hua, bvmul_1.
    - simpl in Eu. eapply aspec_ret_bv; [done..|]. intros env. by rewrite Hub, bvmul_comm, bvmul_1. }
  step. destruct (oa || ob) eqn:Eo.
  { step. destruct oa.
    - eapply aspec_ext_bv; [|by apply bv_neg_spec]. intros env. cbv beta. by rewrite Hoa, bvmul_m1.
    - simpl in Eo. eapply aspec_ext_bv; [|by apply bv_neg_spec]. intros env. cbv beta.
      by rewrite Hob, bvmul_comm, bvmul_m1. }
  step. destruct na as [inner|].
  { destruct Hna as (Hlt & Hin & Hv). eapply aspec_bind; [apply (IH s inner b); [done|lia|done..]|].
    next r s' Hg Hi' Hr. eapply aspec_ext_bv; [|by apply bv_neg_spec]. intros env. cbv beta.
    by rewrite Hv, bvmul_neg_l. }
  step. destruct nb as [inner|].
  { destruct Hnb as (Hlt & Hin & Hv). eapply aspec_bind; [apply (IH s a inner); [done|lia|done..]|].
    next r s' Hg Hi' Hr. eapply aspec_ext_bv; [|by apply bv_neg_spec]. intros env. cbv beta.
    by rewrite Hv, !(bvmul_comm w (x env)), bvmul_neg_l. }
  step. destruct c as [[av bv]|].
  { destruct Hc as [[Hav Ea] [Hbv Eb]]. eapply const_bytes_bv; [done..|by apply mul_bytes_repr|].
    intros env. by rewrite Ea, Eb. }
  step. destruct sa as [[v m]|].
  { destruct Hsa as (Hlt & _ & Hv & Hm & _ & Ev). eapply aspec_bind; [apply (IH s v b); [done|lia|done..]|].
    next r s' Hg Hi' Hr. eapply aspec_ext_bv; [|by apply bv_shl_spec]. intros env. cbv beta.
    rewrite Ev, bvmul_shl_l; [done|]. by eapply isbv_range, Hm. }
  step. destruct sb as [[v m]|].
  { destruct Hsb as (Hlt & _ & Hv & Hm & _ & Ev). eapply aspec_bind; [apply (IH s a v); [done|lia|done..]|].
    next r s' Hg Hi' Hr. eapply aspec_ext_bv; [|by apply bv_shl_spec]. intros env. cbv beta.
    rewrite Ev, !(bvmul_comm w (x env)), bvmul_shl_l; [done|]. by eapply isbv_range, Hm. }
  eapply aspec_bind; [by apply canonical_mul_spec|]. next o s' Hg Hi' Hr. destruct o as [r|].
  { by apply aspec_ret. }
  by apply bv_mul_node_spec.
Qed.

Lemma bv_mul_spec s a b w x y : inv s -> isbv s a w x -> isbv s b w y ->
  aspec s (bv_mul a b) (fun r s' => isbv s' r w (fun env => bvmul w (x env) (y env))).
Proof. intros Hi. apply bv_mul_fuel_spec; [done|lia]. Qed.

(** ** The builder's addition

    The canonical form of a sum groups equal terms with their coefficients;
    addition itself may also become a disjunction, when no bit can carry, or a
    multiplication, when a term is added to a shift of itself. *)

#[local] Open Scope Z_scope.

(** ** Splitting a sum into constants and terms *)

Lemma split_terms_spec s w l c nc : inv s -> terms_ok s w l -> coefficient_ok w c -> terms_ok s w nc ->
  reads s (split_terms l w c nc) (fun '(constant, rest) =>
    coefficient_ok w constant /\ terms_ok s w rest /\
    forall env, eqm w (bval constant + sum_of s rest env) (bval c + sum_of s nc env + sum_of s l env)).
Proof.
  intros Hi. revert c nc. induction l as [|t l IH]; intros c nc Hl Hc Hnc; cbn [split_terms].
  - apply reads_ret. split_and!; [done..|]. intros env. apply eqm_eq. unfold sum_of at 3. simpl. lia.
  - apply Forall_cons in Hl as [Ht Hl]. destruct (const_read s Hi t w _ Ht) as (o & Eo & Ho).
    eapply reads_rd; [exact Eo|]. destruct o as [[w' bs]|].
    + destruct Ho as (_ & _ & Hb & Hv).
      destruct (coefficient_of _ _ _ (add_bytes_repr _ _ _ _ _ Hc Hb)) as [Hm Em].
      destruct (IH _ nc Hl Hm Hnc) as ([c' l'] & E & ? & ? & HQ). exists (c', l'). split; [exact E|].
      split_and!; [done..|]. intros env. etrans; [apply (HQ env)|]. rewrite Em, eqm_bvadd.
      apply eqm_eq. cbn [sum_of foldr]. fold (sum_of s l env). rewrite Hv. lia.
    + destruct (IH c (nc ++ [t]) Hl Hc) as ([c' l'] & E & ? & ? & HQ).
      { apply Forall_app. split; [done|]. by constructor. }
      exists (c', l'). split; [exact E|]. split_and!; [done..|]. intros env.
      etrans; [apply (HQ env)|]. rewrite sum_of_app. apply eqm_eq. unfold sum_of. simpl. lia.
Qed.

(** ** Coefficients *)

Definition scaled_ok (s : Arena) (w : nat) (l : list (TermId * list Z)) : Prop :=
  Forall (fun e => isbv s e.1 w (val s e.1) /\ coefficient_ok w e.2) l.

Definition scaled_sum (s : Arena) (l : list (TermId * list Z)) (env : Env) : Z :=
  foldr (fun e z => val s e.1 env * bval e.2 + z) 0 l.

Lemma scaled_ok_grow s s' w l : grows s s' -> scaled_ok s w l -> scaled_ok s' w l.
Proof.
  intros Hg H. eapply Forall_impl; [exact H|]. intros e [He Hc]. split; [|done].
  eapply isbv_ext; [|exact (isbv_grow _ _ _ _ _ Hg He)].
  intros env. exact (eq_sym (val_grow _ _ _ _ _ env Hg He)).
Qed.

Lemma scaled_sum_grow s s' w l env : grows s s' -> scaled_ok s w l -> scaled_sum s' l env = scaled_sum s l env.
Proof.
  intros Hg. unfold scaled_sum. induction l as [|e l IH]; [done|]. intros [[He _] Hl]%Forall_cons. simpl.
  rewrite IH by done. by rewrite (val_grow _ _ _ _ _ env Hg He).
Qed.

Lemma scaled_sum_perm s l k env : l ≡ₚ k -> scaled_sum s l env = scaled_sum s k env.
Proof. unfold scaled_sum. induction 1; simpl; lia. Qed.

Lemma scaled_term_read s t w x : inv s -> isbv s t w x -> exists p, scaled_add_term s t w = Ok p /\
  isbv s p.1 w (val s p.1) /\ coefficient_ok w p.2 /\
  forall env, eqm w (val s p.1 env * bval p.2) (x env).
Proof.
  intros Hi Hx. unfold scaled_add_term.
  destruct (one_bytes_ok w (isbv_legal _ _ _ _ Hi Hx)) as (one & E1 & H1). rewrite E1.
  cbn [mbind res_bind]. destruct (coefficient_of _ _ _ H1) as [Hc1 Ev1].
  assert (isbv s t w (val s t) /\ coefficient_ok w one /\
    forall env, eqm w (val s t env * bval one) (x env)) as Hplain.
  { split_and!; [by apply isbv_val, (proj1 Hx)|done|]. intros env.
    rewrite Ev1, (proj2 Hx env). by rewrite Z.mul_1_r. }
  destruct (isbv_node _ _ _ _ Hx) as [k Hn]. rewrite (node_read _ _ _ Hn). cbn [mbind res_bind kind].
  destruct k; try (by eexists).
  destruct (view_mul s t w x _ Hi Hx _ _ Hn) as (_ & _ & Ha & Hb & Hv).
  destruct (const_read s Hi a w _ Ha) as (ca & -> & Hca). cbn [mbind res_bind].
  destruct ca as [[w' bs]|].
  { destruct Hca as (_ & _ & Hbs & Ea). eexists. split; [done|]. split_and!; [done..|].
    intros env. simpl. rewrite Hv, Ea, eqm_bvmul. by rewrite Z.mul_comm. }
  destruct (const_read s Hi b w _ Hb) as (cb & -> & Hcb). cbn [mbind res_bind].
  eexists. split; [done|]. destruct cb as [[w' bs]|]; [|done].
  destruct Hcb as (_ & _ & Hbs & Eb). split_and!; [done..|].
  intros env. simpl. by rewrite Hv, Eb, eqm_bvmul.
Qed.

Lemma scaled_terms_spec s w l : inv s -> terms_ok s w l ->
  reads s (scaled_terms l w) (fun scaled => scaled_ok s w scaled /\
    forall env, eqm w (scaled_sum s scaled env) (sum_of s l env)).
Proof.
  intros Hi. induction l as [|t l IH]; intros Hl; cbn [scaled_terms].
  - apply reads_ret. split; [constructor|done].
  - apply Forall_cons in Hl as [Ht Hl]. destruct (scaled_term_read s t w _ Hi Ht) as (p & Ep & Hp & Hc & Hv).
    eapply reads_rd; [exact Ep|]. eapply reads_reads_bind; [by apply IH|]. intros rest [Hr Er].
    apply reads_ret. split; [by constructor|]. intros env.
    change (eqm w (val s p.1 env * bval p.2 + scaled_sum s rest env) (val s t env + sum_of s l env)).
    by rewrite Hv, Er.
Qed.

(** ** Grouping *)

Lemma take_base_spec s w base l c count c' count' rest : scaled_ok s w l -> coefficient_ok w c ->
  take_base base l w c count = (c', count', rest) ->
  coefficient_ok w c' /\ scaled_ok s w rest /\ (length rest <= length l)%nat /\
  forall env, eqm w (val s base env * bval c' + scaled_sum s rest env)
                    (val s base env * bval c + scaled_sum s l env).
Proof.
  revert c count. induction l as [|[b cb] l IH]; intros c count Hl Hc; simpl.
  - intros [= <- <- <-]. done.
  - destruct (Nat.eqb_spec b base) as [->|].
    + apply Forall_cons in Hl as [[_ Hcb] Hl]. simpl in Hcb.
      destruct (coefficient_of _ _ _ (add_bytes_repr _ _ _ _ _ Hc Hcb)) as [Ha Ea].
      intros E. destruct (IH _ _ Hl Ha E) as (? & ? & ? & HQ). split_and!; [done..|lia|].
      intros env. rewrite HQ, Ea, eqm_bvadd. apply eqm_eq. unfold scaled_sum. simpl. lia.
    + intros [= <- <- <-]. done.
Qed.

Lemma group_terms_spec fuel s w scaled grouped changed : inv s -> legal w -> (length scaled <= fuel)%nat ->
  scaled_ok s w scaled -> terms_ok s w grouped ->
  aspec s (group_terms fuel scaled w grouped changed) (fun gc s' => terms_ok s' w gc.1 /\
    forall env, eqm w (sum_of s' gc.1 env) (sum_of s grouped env + scaled_sum s scaled env)).
Proof.
  revert s scaled grouped changed. induction fuel as [|fuel IH]; intros s scaled grouped changed Hi Hw Hf Hs Hg;
    (destruct scaled as [|[base c0] scaled];
      [apply aspec_ret; [done|]; split; [done|]; intros env; apply eqm_eq; unfold scaled_sum; simpl; lia|]);
    [simpl in Hf; lia|].
  cbn [group_terms]. eapply aspec_lift; [by apply bytes_for_width_ok|].
  pose proof (zero_bytes_repr w) as Hz. destruct (coefficient_of _ _ _ Hz) as [Hzc Ez].
  pose proof Hs as [[Hbase _] _]%Forall_cons. simpl in Hbase.
  (* the first entry is always taken *)
  assert (exists c0', take_base base ((base, c0) :: scaled) w (replicate (div_ceil w 8) 0) 0 =
    take_base base scaled w c0' 1 /\ c0' = add_bytes (replicate (div_ceil w 8) 0) c0 w) as (c0' & Et & Ec0).
  { simpl. rewrite Nat.eqb_refl. by eexists. }
  destruct (take_base base ((base, c0) :: scaled) w (replicate (div_ceil w 8) 0) 0) as [[c count] rest] eqn:Etb.
  destruct (take_base_spec s w base _ _ _ _ _ _ Hs Hzc Etb) as (Hc & Hrest & _ & Hsum).
  assert (length rest <= length scaled)%nat as Hlen.
  { apply Forall_cons in Hs as [[_ Hc0] Hs].
    destruct (coefficient_of _ _ _ (add_bytes_repr _ _ _ _ _ Hz Hc0)) as [Ha _]. subst c0'.
    by destruct (take_base_spec s w base _ _ _ _ _ _ Hs Ha (eq_sym Et)) as (_ & _ & ? & _). }
  eapply aspec_bind with (Q := fun g s' => terms_ok s' w g /\
    forall env, eqm w (sum_of s' g env) (sum_of s grouped env + val s base env * bval c)).
  { rewrite (all_zero_ok w) by done. destruct (Z.eqb_spec (bval c) 0) as [E0|E0]; simpl.
    { apply aspec_ret; [done|]. split; [done|]. intros env. apply eqm_eq. rewrite E0. lia. }
    destruct (is_one_bytes c) eqn:E1.
    { apply aspec_ret; [done|]. split; [apply Forall_app; split; [done|by constructor]|].
      intros env. rewrite sum_of_app, (is_one_bval _ E1). apply eqm_eq. unfold sum_of. simpl. lia. }
    eapply aspec_bind; [by apply const_bytes_spec|]. intros k s' Hg' Hi' Hk. cbv beta in Hk.
    pose proof (isconst_isbv _ _ _ _ Hi' Hk) as Hkv.
    pose proof (isbv_grow _ _ _ _ _ Hg' Hbase) as Hbase'.
    eapply aspec_bind; [by apply bv_mul_spec|]. intros p s'' Hg'' Hi'' Hp. cbv beta in Hp.
    assert (grows s s'') as Hg2 by (by etrans).
    apply aspec_ret; [done|]. split.
    - apply Forall_app. split; [by eapply terms_ok_grow|]. constructor; [|constructor].
      by apply isbv_val, (proj1 Hp).
    - intros env. rewrite sum_of_app, (sum_of_grow s s'' w grouped env Hg2 Hg).
      unfold sum_of at 2. simpl. rewrite (proj2 Hp env), eqm_bvmul. by rewrite Z.add_0_r. }
  intros g s' Hg' Hi' [Hgo Hgs].
  eapply aspec_mono; [apply (IH s' rest g); [done|done|simpl in Hf; lia|by eapply scaled_ok_grow|done]|].
  intros [g' ch'] s'' Hg'' Hi'' [Hok Hv]. split; [done|]. intros env. rewrite Hv, Hgs.
  rewrite (scaled_sum_grow s s' w rest env Hg' Hrest). rewrite <- Z.add_assoc, Hsum, Ez.
  apply eqm_eq. lia.
Qed.

Lemma sort_by_base_ok s w l : scaled_ok s w l -> scaled_ok s w (sort_by_base l) /\
  forall env, scaled_sum s (sort_by_base l) env = scaled_sum s l env.
Proof.
  intros H. pose proof (merge_sort_Permutation base_le l) as Hp. split.
  - unfold scaled_ok, sort_by_base. by rewrite Hp.
  - intros env. by apply scaled_sum_perm.
Qed.

Lemma canonical_add_spec s a b w x y : inv s -> isbv s a w x -> isbv s b w y ->
  aspec s (canonical_bv_add a b w) (fun o s' =>
    match o with Some r => isbv s' r w (fun env => bvadd w (x env) (y env)) | None => True end).
Proof.
  intros Hi Ha Hb. pose proof (isbv_legal _ _ _ _ Hi Ha) as Hw. unfold canonical_bv_add.
  destruct (collect_add_read s (S a) a w x [] Hi ltac:(lia) Ha) as (la & Ea & Hla & Va).
  destruct (collect_add_read s (S b) b w y la Hi ltac:(lia) Hb) as (lb & Eb & Hlb & Vb).
  eapply aspec_rd. { rewrite Ea. exact Eb. }
  eapply aspec_lift; [by apply bytes_for_width_ok|].
  destruct (coefficient_of _ _ _ (zero_bytes_repr w)) as [Hz Ez].
  eapply reads_bind; [apply split_terms_spec; [done|apply Forall_app; by split|exact Hz|constructor]|].
  intros [constant nc] (Hc & Hnc & Hval). eapply reads_bind; [by apply scaled_terms_spec|].
  intros scaled [Hs Hss]. destruct (sort_by_base_ok s w scaled Hs) as [Hso Hsum].
  eapply aspec_bind; [apply (group_terms_spec _ s w _ []); [done|done|done|exact Hso|constructor]|].
  intros [g ch] s1 Hg1 Hi1 [Hgo Hgv]. simpl in Hgo, Hgv.
  assert (forall env, eqm w (bval constant + sum_of s1 g env) (bvadd w (x env) (y env))) as Hxy.
  { intros env. rewrite Hgv, Hsum, Hss.
    transitivity (bval constant + sum_of s nc env); [apply eqm_eq; unfold sum_of; simpl; lia|].
    rewrite Hval, Ez, sum_of_app, Va, Vb, eqm_bvadd. apply eqm_eq. unfold sum_of. simpl. lia. }
  eapply aspec_bind with (Q := fun l' s' => terms_ok s' w l' /\
    forall env, eqm w (sum_of s' l' env) (bvadd w (x env) (y env))).
  { rewrite (all_zero_ok w) by done. destruct (Z.eqb_spec (bval constant) 0) as [E0|E0]; simpl.
    - apply aspec_ret; [done|]. split; [done|]. intros env. by rewrite <- Hxy, E0.
    - eapply aspec_bind; [by apply const_bytes_spec|]. intros k s' Hg' Hi' Hk. cbv beta in Hk.
      pose proof (isconst_isbv _ _ _ _ Hi' Hk) as Hkv. apply aspec_ret; [done|]. split.
      + apply Forall_app. split; [by eapply terms_ok_grow|]. constructor; [|constructor].
        by apply isbv_val, (proj1 Hkv).
      + intros env. rewrite sum_of_app, (sum_of_grow s1 s' w g env Hg' Hgo), <- Hxy.
        unfold sum_of at 2. simpl. rewrite (proj2 Hkv env). apply eqm_eq. lia. }
  intros l' s' Hg' Hi' [Hl' Hv']. destruct ch; simpl; [|by apply aspec_ret].
  eapply aspec_bind; [by apply rebuild_add_spec|].
  intros r s'' Hg'' Hi'' Hr. apply aspec_ret; [done|]. eapply isbv_ext; [|exact Hr]. intros env.
  cbv beta. apply (eqm_range w); [apply wrap_bound|apply bvadd_bound|]. rewrite eqm_wrap. apply Hv'.
Qed.

(** ** Addition *)

(** One shifted left by [m]: folded, or a node with a variable amount. *)
Definition const_or_shift (s : Arena) (one r m : TermId) (w : nat) : Prop :=
  is_const (nodes s) r \/
  nodes s !! r = Some (mkNode (BvShl one m) (SBv w)) /\ ~ is_const (nodes s) m.

Lemma shl_of_const s a b w x y : inv s -> isbv s a w x -> isbv s b w y -> is_const (nodes s) a ->
  aspec s (bv_shl a b) (fun r s' => const_or_shift s' a r b w).
Proof.
  intros Hi Ha Hb Hca. binary_reads Hi Ha Hb. unfold bv_shl. cbn [bv_shl_fuel]. step. step.
  assert (forall bytes z, bv_repr w bytes z ->
    aspec s (bv_const_bytes bytes w) (fun r s' => const_or_shift s' a r b w)) as Hconst.
  { intros bytes z Hz. eapply aspec_mono; [by apply (const_bytes_spec s bytes w z)|].
    intros r s' _ _ Hr. left. exact (isconst_is_const _ _ _ _ Hr). }
  assert (aspec s (zero w) (fun r s' => const_or_shift s' a r b w)) as Hzero.
  { eapply aspec_mono; [by apply zero_const_spec|]. intros r s' _ _ Hr. left. exact (isconst_is_const _ _ _ _ Hr). }
  destruct za; [exact Hzero|].
  destruct (const_read s Hi a w x Ha) as (ca & Eca & Hac).
  destruct (const_shift_read s Hi b w y Hb) as (k & Ek & Hk).
  step. destruct k as [k|].
  - destruct (k =? 0)%nat; [apply aspec_ret; [done|by left]|].
    destruct (w <=? k)%nat; [exact Hzero|]. step. destruct ca as [[w' bs]|]; [|done].
    destruct Hac as (_ & _ & Hbs & _). eapply Hconst. by apply shl_bytes_repr.
  - destruct (neg_child_read s Hi a w x Ha) as (ng & Eng & _).
    assert (ng = None) as ->.
    { destruct Hca as (w' & bs & so & Hnd). unfold bv_neg_child in Eng. rewrite (node_read _ _ _ Hnd) in Eng.
      by injection Eng as <-. }
    step. eapply aspec_mono.
    { apply (aspec_add_bv s (BvShl a b) w (fun env => bvshl w (x env) (y env))); [exact Hi|done|sorts|simpl; tauto|node_values]. }
    intros r s' Hg _ [_ Hn']. right. split; [done|]. intros Hc'. apply Hk.
    eapply is_const_grow; [exact Hg| |exact Hc']. eapply width_at_lt, (proj1 Hb).
Qed.

(** Everything but the two recursive rewrites of an addition. *)
Lemma add_step fuel s a b w x y : inv s -> (a <= b)%nat -> isbv s a w x -> isbv s b w y ->
  let post r s' := isbv s' r w (fun env => bvadd w (x env) (y env)) in
  (~ (is_const (nodes s) a /\ is_const (nodes s) b) ->
    have_disjoint_possible_bits s a b w = Ok true ->
    (forall env, Z.land (x env) (y env) = 0) -> aspec s (bv_or_with (bv_add_fuel fuel) a b) post) ->
  (forall s' v m, grows s s' -> inv s' -> isbv s' v w (val s' v) -> isbv s' m w (val s' m) ->
    ~ is_const (nodes s') v ->
    (v = a /\ nodes s' !! b = Some (mkNode (BvShl v m) (SBv w)) \/
     v = b /\ nodes s' !! a = Some (mkNode (BvShl v m) (SBv w))) ->
    (forall env, bvadd w (x env) (y env) = bvadd w (val s' v env) (bvshl w (val s' v env) (val s' m env))) ->
    aspec s' (one ← bv_const 1 w; shifted_one ← bv_shl one m;
              factor ← bv_add_fuel fuel one shifted_one; bv_mul v factor) post) ->
  aspec s (bv_add_fuel (S fuel) a b) post.
Proof.
  intros Hi Hab Ha Hb post Hor Hshift. binary_reads Hi Ha Hb.
  cbn [bv_add_fuel]. rewrite order_pair_le by done. step. step.
  destruct (za || zb) eqn:Ez.
  { step. destruct za.
    - eapply aspec_ret_bv; [done..|]. intros env. by rewrite Hza, bvadd_0.
    - simpl in Ez. eapply aspec_ret_bv; [done..|]. intros env. by rewrite Hzb, bvadd_comm, bvadd_0. }
  step. destruct c as [[av bv]|].
  { destruct Hc as [[Hav Ea] [Hbv Eb]]. eapply const_bytes_bv; [done..|by apply add_bytes_repr|].
    intros env. by rewrite Ea, Eb. }
  step. destruct d. { apply Hor; auto. }
  eapply aspec_bind; [by apply canonical_add_spec|]. next o s' Hg Hi' Hr. destruct o as [r|].
  { by apply aspec_ret. }
  destruct (shifted_same_read s' Hi' a b w x y Ha Hb) as (o & Eo & Ho). step.
  destruct o as [[v m]|].
  - destruct Ho as (Hv & Hm & Hnc & Hcase & E). by apply Hshift.
  - by apply bv_add_node_spec.
Qed.

(** The sum of a constant and a shift of it: no further rewriting. *)
Lemma add_one_shifted fuel s one sh m w x y : inv s -> isbv s one w x -> isbv s sh w y ->
  is_const (nodes s) one -> const_or_shift s one sh m w ->
  aspec s (bv_add_fuel (S fuel) one sh) (fun r s' => isbv s' r w (fun env => bvadd w (x env) (y env))).
Proof.
  intros Hi Hx Hy Hone Hsh.
  assert (~ (is_const (nodes s) one /\ is_const (nodes s) sh) ->
    have_disjoint_possible_bits s one sh w = Ok false /\ have_disjoint_possible_bits s sh one w = Ok false) as Hdis.
  { intros Hnc. destruct Hsh as [Hsh|[Hn Hm]]; [tauto|]. by eapply (disjoint_shl_read s Hi one sh). }
  assert (forall s' v k m', grows s s' -> is_const (nodes s') one /\
    nodes s' !! one <> Some (mkNode (BvShl v m') k)) as Hno.
  { intros s' v k m' Hg. destruct Hone as (w1 & bs & so & Hn1).
    pose proof (grows_lookup _ _ _ _ Hg Hn1) as Hn1'. split; [by exists w1, bs, so|]. by rewrite Hn1'. }
  destruct (decide (one <= sh)%nat) as [Hle|Hlt].
  - apply add_step; [done..| |].
    + intros Hnc Hd. apply Hdis in Hnc as [E _]. by rewrite Hd in E.
    + intros s' v m' Hg Hi' _ _ Hnc Hcase _. destruct (Hno s' v (SBv w) m' Hg) as [H1 H2].
      destruct Hcase as [[-> _]|[_ Hn]]; by exfalso.
  - assert (bv_add_fuel (S fuel) one sh = bv_add_fuel (S fuel) sh one) as ->
      by (cbn [bv_add_fuel]; by rewrite order_pair_comm).
    eapply aspec_ext_bv; [intros env; apply bvadd_comm|].
    apply (add_step fuel s sh one w y x); [done|lia|done..| |].
    + intros Hnc Hd. destruct Hdis as [_ E]; [tauto|]. by rewrite Hd in E.
    + intros s' v m' Hg Hi' _ _ Hnc Hcase _. destruct (Hno s' v (SBv w) m' Hg) as [H1 H2].
      destruct Hcase as [[_ Hn]|[-> _]]; by exfalso.
Qed.

(** [x + (x << m)] is [x * (1 + (1 << m))]. *)
Lemma shift_as_product w v m : 0 <= m ->
  bvmul w v (bvadd w 1 (bvshl w 1 m)) = bvadd w v (bvshl w v m).
Proof.
  intros Hm. apply (eqm_range w); [apply bvmul_bound|apply bvadd_bound|].
  rewrite eqm_bvmul, !eqm_bvadd, !eqm_bvshl by done. apply eqm_eq. ring.
Qed.

Lemma bv_add_fuel_spec fuel s a b w x y : inv s -> isbv s a w x -> isbv s b w y ->
  aspec s (bv_add_fuel (S (S fuel)) a b) (fun r s' => isbv s' r w (fun env => bvadd w (x env) (y env))).
Proof.
  intros Hi. apply (by_order (bv_add_fuel (S (S fuel))) (bvadd w) (fun _ _ => True)); try done.
  { intros a' b'. cbn [bv_add_fuel]. by rewrite order_pair_comm. }
  { apply bvadd_comm. }
  clear a b x y. intros a b x y Hab _ Ha Hb. pose proof (isbv_legal _ _ _ _ Hi Ha) as Hw.
  apply add_step; [done..| |].
  - intros Hnc Hd Hland.
    eapply aspec_ext_bv; [|apply (bv_or_with_spec _ s a b w x y); [done| |done..]].
    { intros env. cbv beta. symmetry. apply disjoint_add; [by eapply isbv_range..|apply Hland]. }
    intros a' b' E Hs. rewrite order_pair_le in E by done. injection E as <- <-. exfalso.
    destruct Hs as [[Hn Hc]|[Hn Hc]].
    + destruct (disjoint_shl_read s Hi a b a a w x y Ha Hb Hn Hc) as [E _]. by rewrite Hd in E.
    + destruct (disjoint_shl_read s Hi b a b b w y x Hb Ha Hn Hc) as [_ E]. by rewrite Hd in E.
  - intros s1 v m Hg1 Hi1 Hv Hm Hnc _ E.
    eapply aspec_bind; [by apply bv_one_spec|]. next one s2 Hg2 Hi2 Hone.
    pose proof (isconst_isbv _ _ _ _ Hi2 Hone) as Hone'.
    pose proof (isconst_is_const _ _ _ _ Hone) as Honec.
    eapply aspec_bind.
    { pose proof (bv_shl_spec s2 one m w _ _ Hi2 Hone' Hm) as H1.
      pose proof (shl_of_const s2 one m w _ _ Hi2 Hone' Hm Honec) as H2.
      unfold aspec in H1, H2 |- *. destruct (bv_shl one m s2) as [[r|e|] s3]; [|exact H1|done].
      destruct H1 as (? & ? & H1), H2 as (_ & _ & H2).
      split; [done|]. split; [done|]. exact (conj H1 H2). }
    intros sh s3 Hg3 Hi3 [Hsh Hshc]. cbv beta in Hsh. grow_facts Hg3.
    eapply aspec_bind; [eapply add_one_shifted; [done|exact Hone'|exact Hsh| |exact Hshc]|].
    { by eapply isconst_is_const. }
    next f s4 Hg4 Hi4 Hf. eapply aspec_ext_bv; [|by apply bv_mul_spec].
    intros env. cbv beta. rewrite E. apply shift_as_product. by eapply isbv_range, Hm.
Qed.

Lemma bv_add_spec s a b w x y : inv s -> isbv s a w x -> isbv s b w y ->
  aspec s (bv_add a b) (fun r s' => isbv s' r w (fun env => bvadd w (x env) (y env))).
Proof. apply bv_add_fuel_spec. Qed.

(** ** The other constructors that use addition *)

Lemma bv_or_spec s a b w x y : inv s -> isbv s a w x -> isbv s b w y ->
  aspec s (bv_or a b) (fun r s' => isbv s' r w (fun env => Z.lor (x env) (y env))).
Proof.
  intros Hi Ha Hb. apply bv_or_with_spec; [done| |done..]. intros a' b' E _.
  assert (isbv s a' w (val s a') /\ isbv s b' w (val s b')) as [Ha' Hb'].
  { unfold order_pair in E. destruct (a <=? b)%nat; injection E as <- <-;
      (split; apply isbv_val; first [apply Ha|apply Hb]). }
  by apply bv_add_spec.
Qed.

Lemma bv_xor_spec s a b w x y : inv s -> isbv s a w x -> isbv s b w y ->
  aspec s (bv_xor a b) (fun r s' => isbv s' r w (fun env => Z.lxor (x env) (y env))).
Proof.
  intros Hi. apply (by_order bv_xor Z.lxor (fun _ _ => True)); try done.
  { intros a' b'. unfold bv_xor. by rewrite order_pair_comm. }
  { apply Z.lxor_comm. }
  clear a b x y. intros a b x y Hab _ Ha Hb. binary_reads Hi Ha Hb.
  unfold bv_xor. rewrite order_pair_le by done. step. destruct (Nat.eqb_spec a b) as [->|_].
  { apply zero_spec; [done..|]. intros env.
    by rewrite <- (proj2 (isbv_inj _ _ _ _ _ _ Ha Hb)), Z.lxor_nilpotent. }
  step. destruct (za || zb) eqn:Ez.
  { step. destruct za.
    - eapply aspec_ret_bv; [done..|]. intros env. by rewrite Hza, Z.lxor_0_l.
    - simpl in Ez. eapply aspec_ret_bv; [done..|]. intros env. by rewrite Hzb, Z.lxor_0_r. }
  step. destruct c as [[av bv]|].
  { destruct Hc as [[Hav Ea] [Hbv Eb]]. eapply const_bytes_bv; [done..|by apply xor_bytes_repr|].
    intros env. by rewrite Ea, Eb. }
  step. destruct n. { apply all_ones_spec; [done..|]. intros env. by rewrite Hn, lxor_bvnot. }
  step. destruct d.
  { eapply aspec_ext_bv; [|by apply bv_or_spec]. intros env. cbv beta. by rewrite Z.lxor_lor by auto. }
  add_node_bv Hi.
Qed.

Lemma bv_sub_spec s a b w x y : inv s -> isbv s a w x -> isbv s b w y ->
  aspec s (bv_sub a b) (fun r s' => isbv s' r w (fun env => bvsub w (x env) (y env))).
Proof.
  intros Hi Ha Hb. binary_reads Hi Ha Hb. unfold bv_sub. step. step.
  assert (bvsub w 0 0 = 0 /\ forall z, bvsub w z z = 0) as [_ Hself].
  { unfold bvsub. split; [|intros z; rewrite Z.sub_diag]; apply wrap_small; pose proof (pow2_pos w); lia. }
  destruct ((a =? b)%nat || (za && zb)) eqn:Ez.
  { apply zero_spec; [done..|]. intros env. destruct (Nat.eqb_spec a b) as [->|].
    - rewrite (proj2 (isbv_inj _ _ _ _ _ _ Ha Hb)). apply Hself.
    - simpl in Ez. apply andb_true_iff in Ez as [-> ->]. rewrite Hza, Hzb by done. apply Hself. }
  step. destruct zb.
  { eapply aspec_ret_bv; [done..|]. intros env. rewrite Hzb by done. unfold bvsub.
    rewrite Z.sub_0_r. symmetry. by apply wrap_small. }
  step. destruct c as [[av bv]|].
  { destruct Hc as [[Hav Ea] [Hbv Eb]]. eapply const_bytes_bv; [done..|by apply sub_bytes_repr|].
    intros env. by rewrite Ea, Eb. }
  add_node_bv Hi.
Qed.
