(* ===== verification/BuilderStruct.v ===== *)
(** * The builder's division and structural constructors

    Division folds its easy cases; extraction looks through extraction and
    concatenation, and concatenation joins adjacent extractions, which recurse
    into each other: [extract_root_le] is the measure that stops them. *)
From stdpp Require Import sorting.
From S2P Require Import Prelude Bits Smt SmtFacts Bytes BytesFacts Ir Sem EvaluatorFacts.
From S2P Require Import BlastFacts Polynomial Builder.
From S2P Require Import BuilderSpec BuilderReads BuilderFacts.

#[local] Open Scope Z_scope.

(** ** Division *)

Lemma bvudiv_1 w x : bvudiv w x 1 = x.
Proof. unfold bvudiv. simpl. apply Z.div_1_r. Qed.

Lemma bvurem_1 x : bvurem x 1 = 0.
Proof. unfold bvurem. simpl. apply Z.mod_1_r. Qed.

Lemma bv_udiv_spec s a b w x y : inv s -> isbv s a w x -> isbv s b w y ->
  aspec s (bv_udiv a b) (fun r s' => isbv s' r w (fun env => bvudiv w (x env) (y env))).
Proof.
  intros Hi Ha Hb. destruct (is_zero_read s Hi a w x Ha) as (za & Eza & Hza).
  destruct (is_zero_read s Hi b w y Hb) as (zb & Ezb & Hzb).
  destruct (is_one_read s Hi b w y Hb) as (ub & Eub & Hub).
  destruct (const_read s Hi b w y Hb) as (c & Ec & Hc).
  pose proof (isbv_legal _ _ _ _ Hi Ha) as Hw. unfold bv_udiv. step. step. destruct zb eqn:Ez.
  { apply all_ones_spec; [done..|]. intros env. by rewrite Hzb. }
  step. destruct ub. { eapply aspec_ret_bv; [done..|]. intros env. by rewrite Hub, bvudiv_1. }
  eapply aspec_rd. { apply and_read; [exact Eza|]. by rewrite Ec. }
  destruct (za && bool_decide (is_Some c)) eqn:E; [|add_node_bv Hi].
  apply andb_true_iff in E as [-> [[w' bs] ->]%bool_decide_eq_true].
  apply zero_spec; [done..|]. intros env. rewrite Hza by done. unfold bvudiv.
  destruct (Z.eqb_spec (y env) 0) as [Hy|]; [|by rewrite Z.div_0_l].
  (* the divisor is a constant that is not zero *)
  exfalso. destruct Hc as (-> & _ & Hbs & Hv). unfold is_zero in Ezb. rewrite Ec in Ezb.
  injection Ezb as Ezb. pose proof (all_zero_repr _ _ _ Hbs) as E. unfold all_zero in Ezb.
  rewrite Ezb in E. rewrite Hv in Hy. lia.
Qed.

Lemma bv_urem_spec s a b w x y : inv s -> isbv s a w x -> isbv s b w y ->
  aspec s (bv_urem a b) (fun r s' => isbv s' r w (fun env => bvurem (x env) (y env))).
Proof.
  intros Hi Ha Hb. destruct (is_zero_read s Hi a w x Ha) as (za & Eza & Hza).
  destruct (is_zero_read s Hi b w y Hb) as (zb & Ezb & Hzb).
  destruct (is_one_read s Hi b w y Hb) as (ub & Eub & Hub).
  pose proof (isbv_legal _ _ _ _ Hi Ha) as Hw. unfold bv_urem. step. step.
  destruct (za || ub) eqn:E.
  { apply zero_spec; [done..|]. intros env. apply orb_true_iff in E as [->| ->].
    - rewrite Hza by done. unfold bvurem. destruct (y env =? 0); [done|apply Zmod_0_l].
    - by rewrite Hub, bvurem_1. }
  step. destruct zb. { eapply aspec_ret_bv; [done..|]. intros env. by rewrite Hzb. }
  add_node_bv Hi.
Qed.

Lemma bv_sdiv_spec s a b w x y : inv s -> isbv s a w x -> isbv s b w y ->
  aspec s (bv_sdiv a b) (fun r s' => isbv s' r w (fun env => bvsdiv w (x env) (y env))).
Proof. intros Hi Ha Hb. unfold bv_sdiv, bv_binary. step. add_node_bv Hi. Qed.

Lemma bv_srem_spec s a b w x y : inv s -> isbv s a w x -> isbv s b w y ->
  aspec s (bv_srem a b) (fun r s' => isbv s' r w (fun env => bvsrem w (x env) (y env))).
Proof. intros Hi Ha Hb. unfold bv_srem, bv_binary. step. add_node_bv Hi. Qed.

Lemma bv_smod_spec s a b w x y : inv s -> isbv s a w x -> isbv s b w y ->
  aspec s (bv_smod a b) (fun r s' => isbv s' r w (fun env => bvsmod w (x env) (y env))).
Proof. intros Hi Ha Hb. unfold bv_smod, bv_binary. step. add_node_bv Hi. Qed.

(** ** Extractions of extractions and concatenations *)

Lemma testbit_ext a b : (forall i : nat, Z.testbit a (Z.of_nat i) = Z.testbit b (Z.of_nat i)) -> a = b.
Proof. intros H. apply Z.bits_inj'. intros i Hi. rewrite <- (Z2Nat.id i) by done. apply H. Qed.

Lemma extract_all w x : (0 < w)%nat -> 0 <= x < pow2 w -> bvextract (w - 1) 0 x = x.
Proof.
  intros Hw Hx. unfold bvextract. rewrite Z.shiftr_0_r. apply Z.mod_small.
  by replace (w - 1 - 0 + 1)%nat with w by lia.
Qed.

Lemma extract_extract ih il h l x : (il <= ih)%nat -> (l <= h)%nat -> (h <= ih - il)%nat ->
  bvextract h l (bvextract ih il x) = bvextract (il + h) (il + l) x.
Proof.
  intros ???. apply testbit_ext. intros i. rewrite !testbit_extract.
  replace (il + h - (il + l) + 1)%nat with (h - l + 1)%nat by lia.
  destruct (Nat.ltb_spec i (h - l + 1)); [|done]. simpl.
  rewrite ltb_t by lia. simpl. do 2 f_equal. lia.
Qed.

Lemma extract_low wl hv lv h l : 0 <= lv < pow2 wl -> (l <= h < wl)%nat ->
  bvextract h l (bvconcat wl hv lv) = bvextract h l lv.
Proof.
  intros Hl Hr. apply testbit_ext. intros i. rewrite !testbit_extract.
  destruct (Nat.ltb_spec i (h - l + 1)); [|done]. by rewrite testbit_concat, ltb_t by (done || lia).
Qed.

Lemma extract_high wl hv lv h l : 0 <= lv < pow2 wl -> (wl <= l <= h)%nat ->
  bvextract h l (bvconcat wl hv lv) = bvextract (h - wl) (l - wl) hv.
Proof.
  intros Hl Hr. apply testbit_ext. intros i. rewrite !testbit_extract.
  replace (h - wl - (l - wl) + 1)%nat with (h - l + 1)%nat by lia.
  destruct (Nat.ltb_spec i (h - l + 1)); [|done].
  rewrite testbit_concat, ltb_f by (done || lia). simpl. do 2 f_equal. lia.
Qed.

Lemma extract_across wl hv lv h l : 0 <= lv < pow2 wl -> (l < wl <= h)%nat ->
  bvconcat (wl - 1 - l + 1) (bvextract (h - wl) 0 hv) (bvextract (wl - 1) l lv) =
  bvextract h l (bvconcat wl hv lv).
Proof.
  intros Hl Hr. apply testbit_ext. intros i.
  rewrite testbit_concat by apply bvextract_bound. rewrite !testbit_extract, testbit_concat by done.
  destruct (Nat.ltb_spec i (wl - 1 - l + 1)).
  - rewrite (ltb_t i (h - l + 1)), (ltb_t (l + i) wl) by lia. done.
  - rewrite (ltb_f (l + i) wl) by lia. f_equal.
    + apply eq_bool_prop_intro. rewrite !Is_true_true, !Nat.ltb_lt. lia.
    + do 2 f_equal. lia.
Qed.

Lemma concat_extracts hh hl lh ll x : (hl <= hh)%nat -> (ll <= lh)%nat -> (lh + 1 = hl)%nat ->
  bvconcat (lh - ll + 1) (bvextract hh hl x) (bvextract lh ll x) = bvextract hh ll x.
Proof.
  intros ???. apply testbit_ext. intros i. rewrite testbit_concat by apply bvextract_bound.
  rewrite !testbit_extract. destruct (Nat.ltb_spec i (lh - ll + 1)).
  - by rewrite (ltb_t i (hh - ll + 1)) by lia.
  - f_equal; [apply eq_bool_prop_intro; rewrite !Is_true_true, !Nat.ltb_lt; lia|]. do 2 f_equal. lia.
Qed.

(** If [t] is an extraction, the term it extracts from is at most [c]. *)
Definition extract_root_le (s : Arena) (t c : TermId) : Prop :=
  forall c' h l so, nodes s !! t = Some (mkNode (BvExtract c' h l) so) -> (c' <= c)%nat.

Lemma extract_root_grow s s' t c : grows s s' -> (t < length (nodes s))%nat ->
  extract_root_le s t c -> extract_root_le s' t c.
Proof. intros Hg Ht H c' h l so Hn. eapply H. by eapply const_lookup_grow. Qed.

Lemma isconst_extract_root s t w z c : isconst s t w z -> extract_root_le s t c.
Proof. intros (bs & Hn & _) c' h l so. congruence. Qed.

(** What an extraction from [c] returns. *)
Definition extract_post (c : TermId) (w : nat) (z : Env -> Z) (r : TermId) (s' : Arena) : Prop :=
  isbv s' r w z /\ extract_root_le s' r c.

(** What concatenating below the root [c] returns. *)
Definition extract_spec (ext : TermId -> nat -> nat -> M Arena TermId) (s : Arena) (bound : TermId) : Prop :=
  forall c cw z hi lo, (c <= bound)%nat -> isbv s c cw z -> (lo <= hi < cw)%nat ->
  aspec s (ext c hi lo) (extract_post c (hi - lo + 1) (fun env => bvextract hi lo (z env))).

Lemma legal_u32 w : legal w -> (Z.of_nat w <? 2 ^ 32) = true.
Proof. unfold MAX_BV_WIDTH. intros [? ?]. lia. Qed.

Lemma validate_legal w c : legal w -> validate_bv_width w c = Ok tt.
Proof. intros [? ?]. unfold validate_bv_width. rewrite (proj2 (andb_true_iff _ _)); [done|lia]. Qed.

Lemma concat_with_spec ext s bound high low wh wl x y : inv s -> isbv s high wh x -> isbv s low wl y ->
  legal (wh + wl) -> extract_root_le s high bound -> extract_spec ext s bound ->
  aspec s (bv_concat_with ext high low)
    (extract_post bound (wh + wl) (fun env => bvconcat wl (x env) (y env))).
Proof.
  intros Hi Hh Hl Hw Hroot Hext. unfold bv_concat_with. step. step.
  rewrite legal_u32 by done. simpl negb. cbn iota. eapply aspec_lift; [by apply validate_legal|].
  destruct (const_read s Hi high wh x Hh) as (ch & Ech & Hch).
  destruct (const_read s Hi low wl y Hl) as (cl & Ecl & Hcl).
  eapply aspec_rd; [unfold const_bytes_pair; rewrite Ech, Ecl; reflexivity|].
  assert (aspec s (Arena.add (BvConcat high low) (SBv (wh + wl)))
    (extract_post bound (wh + wl) (fun env => bvconcat wl (x env) (y env)))) as Hadd.
  { eapply aspec_mono.
    - apply (aspec_add_bv s (BvConcat high low) (wh + wl) (fun env => bvconcat wl (x env) (y env)));
        [exact Hi|done| |done|node_values]. simpl. by rewrite (proj1 Hh), (proj1 Hl).
    - intros r s' _ _ [Hr Hn]. split; [done|]. intros c' h l so Hn'. congruence. }
  destruct (both _ _) as [[hb lb]|] eqn:Eb.
  { destruct ch as [[w1 b1]|], cl as [[w2 b2]|]; try done. simpl in Eb. injection Eb as <- <-.
    destruct Hch as (-> & _ & Hhb & Vh), Hcl as (-> & _ & Hlb & Vl).
    eapply aspec_mono; [apply const_bytes_spec; [done..|by apply concat_bytes_repr]|].
    next r s' Hg Hi' Hr. split; [|by eapply isconst_extract_root].
    eapply isbv_ext; [|exact (isconst_isbv _ _ _ _ Hi' Hr)]. intros env. cbv beta. by rewrite Vh, Vl. }
  destruct (extract_parts_read s Hi high wh x Hh) as (ph & Eph & Hph).
  destruct (extract_parts_read s Hi low wl y Hl) as (pl & Epl & Hpl).
  eapply aspec_rd; [rewrite Eph, Epl; reflexivity|].
  destruct ph as [[[hc hh] hl]|]; [|exact Hadd]. destruct pl as [[[lc lh] ll]|]; [|exact Hadd]. simpl.
  destruct Hph as (Nh & cw & _ & ? & ? & -> & Hc & Vh), Hpl as (Nl & cw' & _ & ? & ? & -> & Hc' & Vl).
  destruct (Nat.eqb_spec hc lc) as [<-|]; [|exact Hadd]. simpl.
  destruct (Nat.eqb_spec (lh + 1) hl) as [<-|]; [|exact Hadd].
  destruct (isbv_inj _ _ _ _ _ _ Hc Hc') as [<- _].
  pose proof (Hroot _ _ _ _ Nh) as Hle.
  eapply aspec_mono; [apply (Hext hc cw (val s hc) hh ll); [done|exact Hc|lia]|].
  intros r s' _ _ [Hr Hrr]. split; [|intros c' h l so Hn; specialize (Hrr _ _ _ _ Hn); lia].
  replace (hh - (lh + 1) + 1 + (lh - ll + 1))%nat with (hh - ll + 1)%nat by lia.
  eapply isbv_ext; [|exact Hr]. intros env. cbv beta. rewrite Vh, Vl. symmetry. apply concat_extracts; lia.
Qed.

Lemma bv_extract_fuel_spec fuel s child w x high low : inv s -> (child < fuel)%nat -> isbv s child w x ->
  (low <= high < w)%nat ->
  aspec s (bv_extract_fuel fuel child high low)
    (extract_post child (high - low + 1) (fun env => bvextract high low (x env))).
Proof.
  revert s child w x high low. induction fuel as [|fuel IH]; intros s child w x high low Hi Hf Hx Hr; [lia|].
  pose proof (isbv_legal _ _ _ _ Hi Hx) as Hw.
  assert (forall env, 0 <= x env < pow2 w) as Rx by (intros env; by eapply isbv_range).
  cbn [bv_extract_fuel]. step. rewrite (ltb_f high low), (leb_f w high) by lia. simpl orb. cbn iota.
  destruct ((low =? 0)%nat && (high + 1 =? w)%nat) eqn:Efull.
  { apply andb_true_iff in Efull as [->%Nat.eqb_eq Ew%Nat.eqb_eq]. apply aspec_ret; [done|]. split.
    - replace (high - 0 + 1)%nat with w by lia. eapply isbv_ext; [|exact Hx]. intros env.
      replace high with (w - 1)%nat by lia. symmetry. apply extract_all; [lia|done].
    - intros c' h l so Hn. destruct (extract_parts_read s Hi child w x Hx) as (o & Eo & Ho).
      unfold bv_extract_parts in Eo. rewrite (node_read _ _ _ Hn) in Eo. injection Eo as <-.
      destruct Ho as (_ & cw & ? & _). lia. }
  assert (legal (high - low + 1)) as Hw' by (destruct Hw; split; lia).
  destruct (const_read s Hi child w x Hx) as (c & Ec & Hc). step. destruct c as [[w' bs]|].
  { destruct Hc as (-> & _ & Hb & Hv).
    eapply aspec_mono; [apply const_bytes_spec; [done..|by apply (extract_bytes_repr w)]|].
    next r s' Hg Hi' Hr'. split; [|by eapply isconst_extract_root].
    eapply isbv_ext; [|exact (isconst_isbv _ _ _ _ Hi' Hr')]. intros env. cbv beta. by rewrite Hv. }
  assert (forall c z r s', (c < child)%nat -> (forall env, z env = bvextract high low (x env)) ->
    extract_post c (high - low + 1) z r s' ->
    extract_post child (high - low + 1) (fun env => bvextract high low (x env)) r s') as Hmono.
  { intros c z r s' Hlt Hz [H1 H2]. split; [by eapply isbv_ext|].
    intros c' h l so Hn. specialize (H2 _ _ _ _ Hn). lia. }
  destruct (extract_parts_read s Hi child w x Hx) as (e & Ee & He). step. destruct e as [[[inner ih] il]|].
  { destruct He as (_ & cw & Hlt & ? & ? & -> & Hin & Hv).
    pose proof (IH s inner cw (val s inner) (il + high)%nat (il + low)%nat Hi ltac:(lia) Hin ltac:(lia)) as Hs'.
    replace (il + high - (il + low) + 1)%nat with (high - low + 1)%nat in Hs' by lia.
    eapply aspec_mono; [exact Hs'|]. intros r s' _ _. apply Hmono; [done|]. intros env. cbv beta.
    rewrite Hv. symmetry. apply extract_extract; lia. }
  destruct (concat_parts_read s Hi child w x Hx) as (cc & Ecc & Hcc). step. destruct cc as [[hc lc]|].
  2:{ eapply aspec_mono.
      - apply (aspec_add_bv s (BvExtract child high low) (high - low + 1) (fun env => bvextract high low (x env)));
          [exact Hi|done| |done|node_values]. simpl. rewrite (proj1 Hx). simpl.
        by rewrite (leb_t low high), (ltb_t high w) by lia.
      - intros r s' _ _ [Hr' Hn]. split; [done|]. intros c' h l so Hn'. rewrite Hn in Hn'. by simplify_eq. }
  destruct Hcc as (wh & wl & Hlth & Hltl & -> & Hhc & Hlc & Hv). step.
  assert (forall env, 0 <= val s lc env < pow2 wl) as Rl by (intros env; by eapply isbv_range).
  destruct (Nat.ltb_spec high wl).
  { eapply aspec_mono; [apply (IH s lc wl (val s lc) high low); [done|lia|exact Hlc|lia]|]. intros r s' _ _.
    apply Hmono; [done|]. intros env. cbv beta. rewrite Hv, extract_low; [done|apply Rl|lia]. }
  destruct (Nat.leb_spec wl low).
  { pose proof (IH s hc wh (val s hc) (high - wl)%nat (low - wl)%nat Hi ltac:(lia) Hhc ltac:(lia)) as H'.
    replace (high - wl - (low - wl) + 1)%nat with (high - low + 1)%nat in H' by lia.
    eapply aspec_mono; [exact H'|]. intros r s' _ _. apply Hmono; [done|]. intros env. cbv beta.
    rewrite Hv, extract_high; [done|apply Rl|lia]. }
  eapply aspec_bind; [apply (IH s lc wl (val s lc) (wl - 1)%nat low); [done|lia|exact Hlc|lia]|].
  intros lp s1 Hg1 Hi1 [Hlp _]. grow_facts Hg1.
  eapply aspec_bind; [apply (IH s1 hc wh (val s hc) (high - wl)%nat 0%nat); [done|lia|exact Hhc|lia]|].
  intros hp s2 Hg2 Hi2 [Hhp Hroot]. grow_facts Hg2.
  eapply aspec_mono.
  { eapply (concat_with_spec _ s2 hc hp lp); [done|exact Hhp|exact Hlp| |exact Hroot|].
    - by replace (high - wl - 0 + 1 + (wl - 1 - low + 1))%nat with (high - low + 1)%nat by lia.
    - intros c cw z hi lo Hle Hc' Hlo. apply (IH s2 c cw z hi lo); [done|lia|done|lia]. }
  intros r s' _ _. replace (high - wl - 0 + 1 + (wl - 1 - low + 1))%nat with (high - low + 1)%nat by lia.
  apply Hmono; [done|]. intros env. cbv beta. rewrite Hv. apply extract_across; [apply Rl|lia].
Qed.

Lemma bv_extract_spec s child w x high low : inv s -> isbv s child w x -> (low <= high < w)%nat ->
  aspec s (bv_extract child high low)
    (fun r s' => isbv s' r (high - low + 1) (fun env => bvextract high low (x env))).
Proof.
  intros Hi Hx Hr. eapply aspec_mono; [apply (bv_extract_fuel_spec (S child) s child w x); [done|lia|done..]|].
  by intros r s' _ _ [? _].
Qed.

Lemma bv_concat_spec s high low wh wl x y : inv s -> isbv s high wh x -> isbv s low wl y ->
  legal (wh + wl) ->
  aspec s (bv_concat high low) (fun r s' => isbv s' r (wh + wl) (fun env => bvconcat wl (x env) (y env))).
Proof.
  intros Hi Hh Hl Hw. eapply aspec_mono.
  - apply (concat_with_spec bv_extract s high high low wh wl); [done..| |].
    + intros c h l so Hn. destruct (extract_parts_read s Hi high wh x Hh) as (o & Eo & Ho).
      unfold bv_extract_parts in Eo. rewrite (node_read _ _ _ Hn) in Eo. injection Eo as <-.
      destruct Ho as (_ & cw & ? & _). lia.
    + intros c cw z hi lo _ Hc Hr. apply (bv_extract_fuel_spec (S c) s c cw z); [done|lia|done..].
  - by intros r s' _ _ [? _].
Qed.

(** ** Extensions, repetition, rotations *)

Lemma bv_zext_spec s child w x extra : inv s -> isbv s child w x -> legal (w + extra) ->
  aspec s (bv_zext child extra) (fun r s' => isbv s' r (w + extra) x).
Proof.
  intros Hi Hx Hw. destruct (const_read s Hi child w x Hx) as (c & Ec & Hc).
  unfold bv_zext. step. rewrite legal_u32 by done. simpl negb. cbn iota.
  eapply aspec_lift; [by apply validate_legal|]. destruct (Nat.eqb_spec extra 0) as [->|].
  { rewrite Nat.add_0_r. by eapply aspec_ret_bv. }
  step. destruct c as [[w' bs]|].
  - destruct Hc as (_ & _ & Hb & Hv). eapply aspec_lift; [by apply bytes_for_width_ok|].
    assert (length bs <= div_ceil (w + extra) 8)%nat as Hlen.
    { rewrite (repr_length _ _ _ Hb). apply div_ceil_8_mono. lia. }
    destruct (resize_shape (div_ceil (w + extra) 8) bs (repr_bytes _ _ _ Hb) Hlen) as [Hl Hby].
    eapply aspec_mono; [by apply const_bytes_masked|]. next r s' Hg Hi' Hr.
    eapply isbv_ext; [|exact (isconst_isbv _ _ _ _ Hi' Hr)]. intros env. rewrite Hv.
    pose proof (mask_repr (w + extra) _ Hl Hby) as H1.
    pose proof (zext_bytes_repr w bs (bval bs) extra Hb) as H2.
    by rewrite <- (repr_val _ _ _ H1), (repr_val _ _ _ H2).
  - apply add_bv; [exact Hi|done| |done|node_values]. simpl. by rewrite (proj1 Hx).
Qed.

Lemma bv_sext_spec s child w x extra : inv s -> isbv s child w x -> legal (w + extra) ->
  aspec s (bv_sext child extra) (fun r s' => isbv s' r (w + extra) (fun env => bvsext w extra (x env))).
Proof.
  intros Hi Hx Hw. destruct (const_read s Hi child w x Hx) as (c & Ec & Hc).
  pose proof (isbv_legal _ _ _ _ Hi Hx) as [Hw0 _].
  unfold bv_sext. step. rewrite legal_u32 by done. simpl negb. cbn iota.
  eapply aspec_lift; [by apply validate_legal|]. destruct (Nat.eqb_spec extra 0) as [->|].
  { rewrite Nat.add_0_r. eapply aspec_ret_bv; [done|exact Hx|]. intros env. unfold bvsext.
    rewrite Nat.add_0_r. symmetry. apply sval_wrap. by eapply isbv_range. }
  step. destruct c as [[w' bs]|].
  - destruct Hc as (_ & _ & Hb & Hv). eapply const_bytes_bv; [done..|apply sext_bytes_repr; [lia|exact Hb]|].
    intros env. by rewrite Hv.
  - apply add_bv; [exact Hi|done| |done|node_values]. simpl. by rewrite (proj1 Hx).
Qed.

Lemma bv_repeat_spec s child w x count : inv s -> isbv s child w x -> (0 < count)%nat ->
  legal (w * count) ->
  aspec s (bv_repeat child count) (fun r s' => isbv s' r (w * count) (fun env => bvrepeat w count (x env))).
Proof.
  intros Hi Hx Hcnt Hw. destruct (const_read s Hi child w x Hx) as (c & Ec & Hc).
  pose proof (isbv_legal _ _ _ _ Hi Hx) as [Hw0 _].
  unfold bv_repeat. destruct (Nat.eqb_spec count 0); [lia|]. step. rewrite legal_u32 by done. simpl negb.
  cbn iota. eapply aspec_lift; [by apply validate_legal|]. destruct (Nat.eqb_spec count 1) as [->|].
  { rewrite Nat.mul_1_r. eapply aspec_ret_bv; [done|exact Hx|]. intros env. simpl. unfold bvconcat. lia. }
  step. destruct c as [[w' bs]|].
  - destruct Hc as (_ & _ & Hb & Hv). eapply const_bytes_bv; [done..|apply repeat_bytes_repr; [lia|exact Hb]|].
    intros env. by rewrite Hv.
  - apply add_bv; [exact Hi|done| |done|node_values]. destruct count as [|count]; [lia|].
    simpl. by rewrite (proj1 Hx).
Qed.

Lemma rotl_mod w k x : (0 < w)%nat -> bvrotl w (k mod w) x = bvrotl w k x.
Proof. intros Hw. unfold bvrotl. by rewrite Nat.Div0.mod_mod. Qed.

Lemma rotr_mod w k x : (0 < w)%nat -> bvrotr w (k mod w) x = bvrotr w k x.
Proof. intros Hw. unfold bvrotr. by rewrite Nat.Div0.mod_mod. Qed.

Lemma rotl_0 w x : (0 < w)%nat -> 0 <= x < pow2 w -> bvrotl w 0 x = x.
Proof.
  intros Hw Hx. apply (Z_ext_w w); [by apply bvrotl_bound|done|]. intros i Hi.
  rewrite testbit_rotl, Nat.Div0.mod_0_l by done. do 2 f_equal.
  replace (i + w - 0)%nat with (i + 1 * w)%nat by lia. rewrite Nat.Div0.mod_add. by apply Nat.mod_small.
Qed.

Lemma rotr_0 w x : (0 < w)%nat -> 0 <= x < pow2 w -> bvrotr w 0 x = x.
Proof.
  intros Hw Hx. unfold bvrotr. rewrite Nat.Div0.mod_0_l, Nat.sub_0_r, <- rotl_mod, Nat.Div0.mod_same by done.
  by apply rotl_0.
Qed.

Lemma rem_u32_legal a w : legal w -> rem_u32 a w = Ok (a mod w)%nat.
Proof. intros [? _]. unfold rem_u32. destruct (Nat.eqb_spec w 0); [lia|done]. Qed.

Lemma bv_rotate_left_spec s child w x k : inv s -> isbv s child w x ->
  aspec s (bv_rotate_left child k) (fun r s' => isbv s' r w (fun env => bvrotl w k (x env))).
Proof.
  intros Hi Hx. destruct (const_read s Hi child w x Hx) as (c & Ec & Hc).
  pose proof (isbv_legal _ _ _ _ Hi Hx) as Hw. assert (0 < w)%nat as Hw0 by (destruct Hw; lia).
  pose proof (Nat.mod_upper_bound k w ltac:(lia)) as Hlt.
  unfold bv_rotate_left. step. eapply aspec_lift; [by apply rem_u32_legal|].
  eapply aspec_ext_bv; [intros env; by apply rotl_mod|].
  destruct (Nat.eqb_spec (k mod w) 0) as [E|].
  { eapply aspec_ret_bv; [done|exact Hx|]. intros env. rewrite E. symmetry. apply rotl_0; [done|].
    by eapply isbv_range. }
  step. destruct c as [[w' bs]|].
  - destruct Hc as (_ & _ & Hb & Hv). eapply const_bytes_bv; [done..|by apply rotate_left_bytes_repr|].
    intros env. by rewrite Hv.
  - add_node_bv Hi.
Qed.

Lemma bv_rotate_right_spec s child w x k : inv s -> isbv s child w x ->
  aspec s (bv_rotate_right child k) (fun r s' => isbv s' r w (fun env => bvrotr w k (x env))).
Proof.
  intros Hi Hx. destruct (const_read s Hi child w x Hx) as (c & Ec & Hc).
  pose proof (isbv_legal _ _ _ _ Hi Hx) as Hw. assert (0 < w)%nat as Hw0 by (destruct Hw; lia).
  pose proof (Nat.mod_upper_bound k w ltac:(lia)) as Hlt.
  unfold bv_rotate_right. step. eapply aspec_lift; [by apply rem_u32_legal|].
  eapply aspec_ext_bv; [intros env; by apply rotr_mod|].
  destruct (Nat.eqb_spec (k mod w) 0) as [E|].
  { eapply aspec_ret_bv; [done|exact Hx|]. intros env. rewrite E. symmetry. apply rotr_0; [done|].
    by eapply isbv_range. }
  step. destruct c as [[w' bs]|].
  - destruct Hc as (_ & _ & Hb & Hv). eapply const_bytes_bv; [done..|by apply rotate_right_bytes_repr|].
    intros env. by rewrite Hv.
  - add_node_bv Hi.
Qed.

(** ** Choice *)

Lemma bv_ite_spec s c t e w p x y : inv s -> isbool s c p -> isbv s t w x -> isbv s e w y ->
  aspec s (bv_ite c t e) (fun r s' => isbv s' r w (fun env => if p env then x env else y env)).
Proof.
  intros Hi Hp Ht He. destruct (bool_const_read s Hi c p Hp) as (o & Eo & Ho).
  unfold bv_ite. step. step. destruct (Nat.eqb_spec t e) as [->|].
  { eapply aspec_ret_bv; [done|exact Ht|]. intros env.
    rewrite (proj2 (isbv_inj _ _ _ _ _ _ Ht He)). by destruct (p env). }
  step. destruct o as [[]|].
  - eapply aspec_ret_bv; [done|exact Ht|]. intros env. by rewrite Ho.
  - eapply aspec_ret_bv; [done|exact He|]. intros env. by rewrite Ho.
  - apply add_bv; [exact Hi|by eapply isbv_legal|sorts|done|node_values].
Qed.

(** The cases of a selection: Bool selectors, values of the width. *)
Definition cases_ok (s : Arena) (w : nat) (cases : list (TermId * TermId)) : Prop :=
  Forall (fun c => isbool s c.1 (truth s c.1) /\ isbv s c.2 w (val s c.2)) cases.

Lemma check_cases_ok s w cases : cases_ok s w cases -> check_cases cases w s = (Ok tt, s).
Proof.
  intros H. induction H as [|[c v] cases [Hc Hv] _ IH]; [done|]. simpl in *.
  unfold mbind, M_bind, expect_bool, expect_bv, rd.
  rewrite (expect_bool_read _ _ _ _ Hc), (expect_bv_read _ _ _ _ _ Hv), Nat.eqb_refl. done.
Qed.

Lemma select_grow s s' w cases d x env : grows s s' -> cases_ok s w cases -> isbv s d w x ->
  sem_select (denote env (nodes s')) cases d = sem_select (denote env (nodes s)) cases d.
Proof.
  intros Hg Hc Hd. induction Hc as [|[c v] cases [Hc Hv] _ IH]; simpl in *.
  - apply sem_bv_prefix; [exact Hg|]. by eapply width_at_lt, (proj1 Hd).
  - rewrite IH. rewrite (sem_bool_prefix env _ _ c Hg) by (by apply bool_at_lt, (proj1 Hc)).
    by rewrite (sem_bv_prefix env _ _ v Hg) by (by eapply width_at_lt, (proj1 Hv)).
Qed.

Lemma bv_select_spec s cases d w x : inv s -> cases_ok s w cases -> isbv s d w x ->
  aspec s (bv_select cases d)
    (fun r s' => isbv s' r w (fun env => sem_select (denote env (nodes s)) cases d)).
Proof.
  intros Hi Hc Hd. unfold bv_select. step.
  apply (aspec_bind s _ _ (fun _ s' => s' = s)).
  { unfold aspec. rewrite (check_cases_ok s w cases Hc). split_and!; [reflexivity|done|done]. }
  intros _ s' _ _ ->. apply add_bv; [exact Hi|by eapply isbv_legal| |done|].
  - simpl. rewrite (proj1 Hd). simpl. apply when_Some. split; [|done]. apply forallb_forall.
    intros [c v] Hin%list_elem_of_In. unfold cases_ok in Hc. rewrite Forall_forall in Hc.
    destruct (Hc _ Hin) as [Hs Hv]. simpl in *.
    rewrite (proj1 Hs), (proj1 Hv). by apply bool_decide_eq_true.
  - intros r s' Hg Hi' env. pose proof (isbv_grow _ _ _ _ _ Hg Hd) as Hd'. simpl.
    rewrite (proj1 (isbv_sem _ _ _ _ env Hi' Hd')). f_equal. by eapply select_grow.
Qed.
