(* ===== verification/BuilderCompare.v ===== *)
(** * The builder's predicates

    The Boolean connectives, equality, the comparisons and the overflow
    predicates.  Equality and the unsigned comparisons look through extensions
    compared with constants and recurse on the extended operand. *)
From stdpp Require Import sorting.
From S2P Require Import Prelude Bits Smt SmtFacts Bytes BytesFacts Ir Sem EvaluatorFacts.
From S2P Require Import BlastFacts Polynomial PolynomialFacts Builder.
From S2P Require Import BuilderSpec BuilderReads BuilderFacts BuilderStruct.

#[local] Open Scope Z_scope.

(** ** Connectives *)

Lemma bool_true_spec s p : inv s -> (forall env, p env = true) -> aspec s bool_true (fun r s' => isbool s' r p).
Proof. apply bool_const_spec. Qed.
Lemma bool_false_spec s p : inv s -> (forall env, p env = false) -> aspec s bool_false (fun r s' => isbool s' r p).
Proof. apply bool_const_spec. Qed.

Lemma bool_not_spec s t p : inv s -> isbool s t p ->
  aspec s (bool_not t) (fun r s' => isbool s' r (fun env => negb (p env))).
Proof.
  intros Hi Hp. destruct (bool_const_read s Hi t p Hp) as (o & Eo & Ho).
  destruct (bool_not_child_read s Hi t p Hp) as (c & Ec & Hc). unfold bool_not. step. step.
  destruct o as [b|]. { apply bool_const_spec; [done|]. intros env. by rewrite Ho. }
  step. destruct c as [inner|].
  { destruct Hc as [Hc Hv]. eapply aspec_ret_bool; [done|exact Hc|]. intros env.
    by rewrite Hv, negb_involutive. }
  add_node_bool Hi.
Qed.

(** The facts the binary connectives start from. *)
Ltac bool_reads Hi Ha Hb :=
  match type of Ha with isbool ?s ?a ?p => match type of Hb with isbool _ ?b ?q =>
    destruct (bool_const_read s Hi a p Ha) as (va & Eva & Hva);
    destruct (bool_const_read s Hi b q Hb) as (vb & Evb & Hvb);
    destruct (bool_negation_read s Hi a b p q Ha Hb) as (n & En & Hn)
  end end.

Lemma by_order_bool (m : TermId -> TermId -> M Arena TermId) (f : bool -> bool -> bool) s a b p q :
  (forall a b, m a b = m b a) -> (forall a b, f a b = f b a) ->
  (forall a b p q, (a <= b)%nat -> isbool s a p -> isbool s b q ->
    aspec s (m a b) (fun r s' => isbool s' r (fun env => f (p env) (q env)))) ->
  isbool s a p -> isbool s b q -> aspec s (m a b) (fun r s' => isbool s' r (fun env => f (p env) (q env))).
Proof.
  intros Hm Hf H Hx Hy. destruct (decide (a <= b)%nat) as [|Hlt]; [by apply H|].
  rewrite Hm. eapply aspec_ext_bool; [|apply (H b a q p); auto; lia]. intros env. apply Hf.
Qed.

Lemma bool_and_spec s a b p q : inv s -> isbool s a p -> isbool s b q ->
  aspec s (bool_and a b) (fun r s' => isbool s' r (fun env => p env && q env)).
Proof.
  intros Hi. apply by_order_bool.
  { intros a' b'. unfold bool_and. by rewrite order_pair_comm. }
  { apply andb_comm. }
  clear a b p q. intros a b p q Hab Ha Hb. bool_reads Hi Ha Hb.
  unfold bool_and. rewrite order_pair_le by done. step. step. destruct (Nat.eqb_spec a b) as [->|].
  { eapply aspec_ret_bool; [done|exact Ha|]. intros env. rewrite (isbool_inj _ _ _ _ Ha Hb). by destruct (q env). }
  step. destruct n. { apply bool_false_spec; [done|]. intros env. rewrite Hn by done. by destruct (q env). }
  step. destruct va as [[]|].
  { eapply aspec_ret_bool; [done|exact Hb|]. intros env. by rewrite Hva. }
  { eapply aspec_ret_bool; [done|exact Ha|]. intros env. by rewrite Hva. }
  step. destruct vb as [[]|].
  { eapply aspec_ret_bool; [done|exact Ha|]. intros env. by rewrite Hvb, andb_true_r. }
  { eapply aspec_ret_bool; [done|exact Hb|]. intros env. by rewrite Hvb, andb_false_r. }
  add_node_bool Hi.
Qed.

Lemma bool_or_spec s a b p q : inv s -> isbool s a p -> isbool s b q ->
  aspec s (bool_or a b) (fun r s' => isbool s' r (fun env => p env || q env)).
Proof.
  intros Hi. apply by_order_bool.
  { intros a' b'. unfold bool_or. by rewrite order_pair_comm. }
  { apply orb_comm. }
  clear a b p q. intros a b p q Hab Ha Hb. bool_reads Hi Ha Hb.
  unfold bool_or. rewrite order_pair_le by done. step. step. destruct (Nat.eqb_spec a b) as [->|].
  { eapply aspec_ret_bool; [done|exact Ha|]. intros env. rewrite (isbool_inj _ _ _ _ Ha Hb). by destruct (q env). }
  step. destruct n. { apply bool_true_spec; [done|]. intros env. rewrite Hn by done. by destruct (q env). }
  step. destruct va as [[]|].
  { eapply aspec_ret_bool; [done|exact Ha|]. intros env. by rewrite Hva. }
  { eapply aspec_ret_bool; [done|exact Hb|]. intros env. by rewrite Hva. }
  step. destruct vb as [[]|].
  { eapply aspec_ret_bool; [done|exact Hb|]. intros env. by rewrite Hvb, orb_true_r. }
  { eapply aspec_ret_bool; [done|exact Ha|]. intros env. by rewrite Hvb, orb_false_r. }
  add_node_bool Hi.
Qed.

Lemma bool_implies_spec s a b p q : inv s -> isbool s a p -> isbool s b q ->
  aspec s (bool_implies a b) (fun r s' => isbool s' r (fun env => implb (p env) (q env))).
Proof.
  intros Hi Ha Hb. bool_reads Hi Ha Hb. unfold bool_implies. step. step.
  destruct (Nat.eqb_spec a b) as [->|].
  { apply bool_true_spec; [done|]. intros env. rewrite (isbool_inj _ _ _ _ Ha Hb). by destruct (q env). }
  step. destruct va as [[]|].
  { eapply aspec_ret_bool; [done|exact Hb|]. intros env. by rewrite Hva. }
  { apply bool_true_spec; [done|]. intros env. by rewrite Hva. }
  step. destruct vb as [[]|].
  { apply bool_true_spec; [done|]. intros env. rewrite Hvb. by destruct (p env). }
  { eapply aspec_ext_bool; [|by apply bool_not_spec]. intros env. cbv beta. rewrite Hvb. by destruct (p env). }
  add_node_bool Hi.
Qed.

Lemma bool_eq_spec s a b p q : inv s -> isbool s a p -> isbool s b q ->
  aspec s (bool_eq a b) (fun r s' => isbool s' r (fun env => eqb (p env) (q env))).
Proof.
  intros Hi Ha Hb. bool_reads Hi Ha Hb. unfold bool_eq. step. step.
  destruct (Nat.eqb_spec a b) as [->|].
  { apply bool_true_spec; [done|]. intros env. rewrite (isbool_inj _ _ _ _ Ha Hb). by destruct (q env). }
  step. destruct n. { apply bool_false_spec; [done|]. intros env. rewrite Hn by done. by destruct (q env). }
  eapply aspec_rd; [rewrite Eva, Evb; reflexivity|]. destruct (both va vb) as [[av bv]|] eqn:E.
  { destruct va as [av'|], vb as [bv'|]; try done. injection E as -> ->.
    apply bool_const_spec; [done|]. intros env. by rewrite Hva, Hvb. }
  apply order_pair_ind; [add_node_bool Hi|].
  apply (aspec_ext_bool _ _ (fun env => eqb (q env) (p env))); [|add_node_bool Hi].
  intros env. by destruct (p env), (q env).
Qed.

Lemma bool_xor_spec s a b p q : inv s -> isbool s a p -> isbool s b q ->
  aspec s (bool_xor a b) (fun r s' => isbool s' r (fun env => xorb (p env) (q env))).
Proof.
  intros Hi Ha Hb. unfold bool_xor. eapply aspec_bind; [by apply bool_eq_spec|].
  next r s' Hg Hi' Hr. eapply aspec_ext_bool; [|by apply bool_not_spec]. intros env. cbv beta.
  by destruct (p env), (q env).
Qed.

Lemma bool_ite_spec s c t e p x y : inv s -> isbool s c p -> isbool s t x -> isbool s e y ->
  aspec s (bool_ite c t e) (fun r s' => isbool s' r (fun env => if p env then x env else y env)).
Proof.
  intros Hi Hp Ht He. destruct (bool_const_read s Hi c p Hp) as (o & Eo & Ho).
  unfold bool_ite. step. step. step. destruct (Nat.eqb_spec t e) as [->|].
  { eapply aspec_ret_bool; [done|exact Ht|]. intros env.
    rewrite (isbool_inj _ _ _ _ Ht He). by destruct (p env). }
  step. destruct o as [[]|].
  - eapply aspec_ret_bool; [done|exact Ht|]. intros env. by rewrite Ho.
  - eapply aspec_ret_bool; [done|exact He|]. intros env. by rewrite Ho.
  - add_node_bool Hi.
Qed.

(** ** Overflow predicates *)

Section overflow.
Context (s : Arena) (a b : TermId) (w : nat) (x y : Env -> Z).
Hypothesis Hi : inv s.
Hypothesis Ha : isbv s a w x.
Hypothesis Hb : isbv s b w y.

Definition predicate_post (m : M Arena TermId) (f : Z -> Z -> bool) : Prop :=
  aspec s m (fun r s' => isbool s' r (fun env => f (x env) (y env))).

Lemma uadd_ovf_spec : predicate_post (uadd_ovf a b) (bvuaddo w).
Proof. unfold predicate_post, uadd_ovf, overflow_binary. step. add_node_bool Hi. Qed.
Lemma sadd_ovf_spec : predicate_post (sadd_ovf a b) (bvsaddo w).
Proof. unfold predicate_post, sadd_ovf, overflow_binary. step. add_node_bool Hi. Qed.
Lemma usub_ovf_spec : predicate_post (usub_ovf a b) bvusubo.
Proof. unfold predicate_post, usub_ovf, overflow_binary. step. add_node_bool Hi. Qed.
Lemma ssub_ovf_spec : predicate_post (ssub_ovf a b) (bvssubo w).
Proof. unfold predicate_post, ssub_ovf, overflow_binary. step. add_node_bool Hi. Qed.
Lemma umul_ovf_spec : predicate_post (umul_ovf a b) (bvumulo w).
Proof. unfold predicate_post, umul_ovf, overflow_binary. step. add_node_bool Hi. Qed.
Lemma smul_ovf_spec : predicate_post (smul_ovf a b) (bvsmulo w).
Proof. unfold predicate_post, smul_ovf, overflow_binary. step. add_node_bool Hi. Qed.
Lemma sdiv_ovf_spec : predicate_post (sdiv_ovf a b) (bvsdivo w).
Proof. unfold predicate_post, sdiv_ovf, overflow_binary. step. add_node_bool Hi. Qed.
Lemma neg_ovf_spec : aspec s (neg_ovf a) (fun r s' => isbool s' r (fun env => bvnego w (x env))).
Proof. unfold neg_ovf. step. add_node_bool Hi. Qed.
End overflow.

(** ** The builder's equality and comparisons

    Equality decides what it can: complements differ, a one-bit choice between
    constants is its condition, an extension equals a constant when its operand
    equals the constant's low part, and terms with equal polynomials are equal.
    Unsigned comparisons of a zero extension with a constant are moved to the
    operand.  The recursion descends to operands or constants. *)

#[local] Open Scope Z_scope.

(** ** Extensions and their low parts *)

Lemma sext_low w extra z : 0 <= z < pow2 w -> wrap w (bvsext w extra z) = z.
Proof.
  intros Hz. unfold bvsext. rewrite wrap_mod_wider by lia. by apply sval_wrap.
Qed.

Lemma extract_low_wrap w y : (0 < w)%nat -> bvextract (w - 1) 0 y = wrap w y.
Proof.
  intros Hw. unfold bvextract, wrap. rewrite Z.shiftr_0_r. by replace (w - 1 - 0 + 1)%nat with w by lia.
Qed.

Lemma low_bytes_repr w cw bs y : (0 < cw <= w)%nat -> bv_repr w bs y ->
  bv_repr cw (extract_bytes bs 0 cw) (wrap cw y).
Proof.
  intros Hw Hb. pose proof (extract_bytes_repr w bs y 0 (cw - 1) Hb ltac:(lia)) as H.
  rewrite extract_low_wrap in H by lia. by replace (cw - 1 - 0 + 1)%nat with cw in H by lia.
Qed.

Lemma high_zero_repr w cw bs y : (cw <= w)%nat -> bv_repr w bs y ->
  high_bits_zero bs cw w = (y <? pow2 cw).
Proof.
  intros Hw Hb. pose proof (repr_range _ _ _ Hb) as Hr. apply eq_bool_prop_intro.
  rewrite !Is_true_true, high_bits_zero_spec, Z.ltb_lt. split.
  - intros H. replace y with (y mod pow2 cw); [apply Z.mod_pos_bound, pow2_pos|].
    apply testbit_ext. intros i. rewrite testbit_pow2_mod. destruct (Nat.ltb_spec i cw); [done|]. simpl.
    destruct (Nat.ltb_spec i w); [|by rewrite (testbit_high w) by lia].
    by rewrite <- (repr_testbit _ _ _ _ Hb), H by lia.
  - intros Hy i Hi. rewrite (repr_testbit _ _ _ _ Hb). apply (testbit_high cw); lia.
Qed.

(** ** A one-bit choice between constants *)

Lemma one_bit_bytes bs : bv_repr 1 bs (bval bs) -> exists b, bs = [b] /\ bval bs = Z.b2z (negb (Z.land b 1 =? 0)).
Proof.
  intros [Hl Hf _ Hb]. change (div_ceil 1 8) with 1%nat in Hl.
  destruct bs as [|b [|]]; try done. simpl in *. change (pow2 1) with 2 in Hb.
  apply Forall_cons in Hf as [[? ?] _]. exists b. split; [done|].
  assert (b = 0 \/ b = 1) as [-> | ->] by lia; done.
Qed.

Lemma b2z_eqb a b : (Z.b2z a =? Z.b2z b) = eqb a b.
Proof. by destruct a, b. Qed.

Definition decided (x y : Env -> Z) (o : option TermId) (s' : Arena) : Prop :=
  match o with Some r => isbool s' r (fun env => x env =? y env) | None => True end.

Lemma one_bit_ite_spec s ite c w x y : inv s -> isbv s ite w x -> isbv s c w y ->
  aspec s (one_bit_ite_const_equality ite c) (decided x y).
Proof.
  intros Hi Hx Hy. destruct (const_read s Hi c w y Hy) as (o & Eo & Ho).
  unfold one_bit_ite_const_equality. step. destruct o as [[w' bs]|]; [|by apply aspec_ret].
  destruct Ho as (-> & _ & Hb & Vy). destruct (Nat.eqb_spec w 1) as [->|]; [|by apply aspec_ret]. simpl.
  destruct (ite_parts_read s Hi ite 1 x Hx) as (p & Ep & Hp). step.
  destruct p as [[[cond t] e]|]; [|by apply aspec_ret]. destruct Hp as (Hc & Ht & He & Vx).
  destruct (one_bit_read s Hi t _ Ht) as (tb & Et & Htb). step.
  destruct tb as [tb|]; [|by apply aspec_ret].
  destruct (one_bit_read s Hi e _ He) as (eb & Ee & Heb). step.
  destruct eb as [eb|]; [|by apply aspec_ret].
  destruct (one_bit_bytes bs Hb) as (b & -> & Eb). eapply aspec_lift; [reflexivity|].
  set (expected := negb (Z.land b 1 =? 0)) in *.
  assert (forall env, (x env =? y env) = eqb (if truth s cond env then tb else eb) expected) as E.
  { intros env. rewrite Vx, Vy, Eb, Htb, Heb. destruct (truth s cond env); apply b2z_eqb. }
  destruct (eqb tb expected && negb (eqb eb expected)) eqn:E1.
  { apply aspec_ret; [done|]. eapply isbool_ext; [|exact Hc]. intros env. rewrite E.
    apply andb_true_iff in E1 as [H1 H2%negb_true_iff].
    by destruct (truth s cond env); rewrite ?H1, ?H2. }
  destruct (negb (eqb tb expected) && eqb eb expected) eqn:E2.
  { eapply aspec_bind; [by apply bool_not_spec|]. intros r s' _ Hi' Hr. apply aspec_ret; [done|].
    eapply isbool_ext; [|exact Hr]. intros env. cbv beta. rewrite E.
    apply andb_true_iff in E2 as [H1%negb_true_iff H2].
    by destruct (truth s cond env); rewrite ?H1, ?H2. }
  eapply aspec_bind; [apply (bool_const_spec s _ (fun env => x env =? y env)); [done|]|].
  - intros env. rewrite E. destruct (truth s cond env); [done|]. by destruct tb, eb, expected.
  - intros r s' _ Hi' Hr. by apply aspec_ret.
Qed.

(** ** An extension and a constant *)

(** What the recursive equality is asked: an operand of the extension against a
    new constant. *)
Definition eq_on_child (eq : TermId -> TermId -> M Arena TermId) (s : Arena) (extended : TermId) : Prop :=
  forall s' child c cw z k, grows s s' -> inv s' -> (child < extended)%nat -> ~ is_const (nodes s) extended ->
  isbv s' child cw z -> isconst s' c cw k ->
  aspec s' (eq child c) (fun r s'' => isbool s'' r (fun env => z env =? k)).

Lemma extension_eq_spec eq s e c w x y : inv s -> eq_on_child eq s e -> isbv s e w x -> isbv s c w y ->
  aspec s (extension_const_equality_with eq e c) (decided x y).
Proof.
  intros Hi Heq Hx Hy. destruct (const_read s Hi c w y Hy) as (o & Eo & Ho).
  unfold extension_const_equality_with. step. destruct o as [[w' bs]|]; [|by apply aspec_ret].
  destruct Ho as (-> & _ & Hb & Vy).
  destruct (extension_parts_read s Hi e w x Hx) as (p & Ep & Hp). step.
  destruct p as [[[[child cw] extra] sgn]|]; [|by apply aspec_ret].
  destruct Hp as (Hlt & Hnc & -> & Hc & Vx). rewrite Nat.eqb_refl. simpl negb. cbn iota.
  pose proof (isbv_legal _ _ _ _ Hi Hc) as Hcw. assert (0 < cw)%nat as Hcw0 by (destruct Hcw; lia).
  set (k := bval bs) in *. set (child_bytes := extract_bytes bs 0 cw).
  pose proof (low_bytes_repr (cw + extra) cw bs k ltac:(lia) Hb) as Hcb. fold child_bytes in Hcb.
  assert (forall env, 0 <= val s child env < pow2 cw) as Rc by (intros env; by eapply isbv_range).
  pose proof (repr_range _ _ _ Hb) as Rk.
  (* the constant is in the range of the extension exactly when it extends its low part *)
  set (in_range := if sgn then _ else _).
  assert (forall env, (x env =? y env) = in_range && (val s child env =? wrap cw k)) as E.
  { intros env. rewrite Vx, Vy. fold k. subst in_range. destruct sgn.
    - pose proof (repr_inj _ _ _ _ _ (sext_bytes_repr cw child_bytes (wrap cw k) extra Hcw0 Hcb) Hb) as Hinj.
      apply eq_bool_prop_intro. rewrite andb_True, !Is_true_true, !Z.eqb_eq, bool_decide_eq_true, Hinj. split.
      + intros E. assert (wrap cw k = val s child env) as Ek by (rewrite <- E; by apply sext_low).
        rewrite Ek. done.
      + by intros [E ->].
    - rewrite (high_zero_repr (cw + extra) cw bs k ltac:(lia) Hb). specialize (Rc env).
      destruct (Z.ltb_spec k (pow2 cw)); simpl.
      + by rewrite wrap_small by lia.
      + apply Z.eqb_neq. lia. }
  destruct in_range eqn:Er; simpl.
  - eapply aspec_bind; [by apply const_bytes_spec|]. intros kc s' Hg Hi' Hk. cbv beta in Hk.
    eapply aspec_bind; [apply (Heq s' child kc cw (val s child) (wrap cw k)); try done; exact (isbv_grow _ _ _ _ _ Hg Hc)|].
    intros r s'' _ Hi'' Hr. apply aspec_ret; [done|]. eapply isbool_ext; [|exact Hr].
    intros env. cbv beta. by rewrite E.
  - eapply aspec_bind; [apply (bool_false_spec s (fun env => x env =? y env)); [done|]|].
    + intros env. by rewrite E.
    + intros r s' _ Hi' Hr. by apply aspec_ret.
Qed.

(** ** Equality *)

(** The recursion's measure: an operand is below the fuel, or a constant, which
    equality does not look into. *)
Definition ready (s : Arena) (t : TermId) (fuel : nat) : Prop := is_const (nodes s) t \/ (t < fuel)%nat.

Lemma is_const_mono s s' t : grows s s' -> is_const (nodes s) t -> is_const (nodes s') t.
Proof. intros Hg (w & bs & so & Hn). exists w, bs, so. by eapply grows_lookup. Qed.

Lemma ready_grow s s' t fuel : grows s s' -> ready s t fuel -> ready s' t fuel.
Proof. intros Hg [H|H]; [left|by right]. by eapply is_const_mono. Qed.

Lemma decided_sym x y o s' : decided y x o s' -> decided x y o s'.
Proof. destruct o as [r|]; [|done]. apply isbool_ext. intros env. apply Z.eqb_sym. Qed.

Lemma bv_eq_fuel_spec fuel s a b w x y : inv s -> (0 < fuel)%nat -> ready s a fuel -> ready s b fuel ->
  isbv s a w x -> isbv s b w y ->
  aspec s (bv_eq_fuel fuel a b) (fun r s' => isbool s' r (fun env => x env =? y env)).
Proof.
  revert s a b w x y. induction fuel as [|fuel IH]; intros s a b w x y Hi Hf Ra Rb Ha Hb; [lia|clear Hf].
  cbn [bv_eq_fuel]. step. destruct (Nat.eqb_spec a b) as [->|_].
  { apply bool_true_spec; [done|]. intros env. rewrite (proj2 (isbv_inj _ _ _ _ _ _ Ha Hb)). apply Z.eqb_refl. }
  destruct (bv_negation_read s Hi a b w x y Ha Hb) as (n & En & Hn). step. destruct n.
  { apply bool_false_spec; [done|]. intros env. rewrite Hn by done.
    pose proof (isbv_legal _ _ _ _ Hi Hb) as [? _].
    assert (0 <= y env < pow2 w) by (by eapply isbv_range). apply Z.eqb_neq.
    pose proof (land_bvnot w (y env) ltac:(lia)) as H1. pose proof (lor_bvnot w (y env) ltac:(lia)) as H2.
    intros E. rewrite E, Z.land_diag in H1. rewrite E, Z.lor_diag in H2.
    pose proof (pow2_le 1 w ltac:(lia)). change (pow2 1) with 2 in *. lia. }
  assert (forall s1 t, grows s s1 -> inv s1 -> ready s t (S fuel) -> eq_on_child (bv_eq_fuel fuel) s1 t) as Hrec.
  { intros s1 t Hg1 Hi1 Rt s' child c cw z k Hg' Hi' Hlt Hnc Hc Hk.
    destruct (ready_grow s s1 t _ Hg1 Rt) as [|Ht]; [done|].
    apply (IH s' child c cw z (fun _ => k)); [done|lia|right; lia|left; by eapply isconst_is_const|done|].
    by apply isconst_isbv. }
  eapply aspec_bind; [by apply (one_bit_ite_spec s a b w x y)|]. intros o1 s1 Hg1 Hi1 H1.
  destruct o1 as [r|]; [by apply aspec_ret|]. clear H1. grow_facts Hg1.
  eapply aspec_bind; [by apply (one_bit_ite_spec s1 b a w y x)|]. intros o2 s2 Hg2 Hi2 H2.
  destruct o2 as [r|]; [apply aspec_ret; [done|by apply (decided_sym _ _ (Some r))]|]. clear H2. grow_facts Hg2.
  assert (grows s s2) as Hgs2 by (by etrans).
  eapply aspec_bind; [apply (extension_eq_spec _ s2 a b w x y); [done|by apply Hrec|done..]|]. intros o3 s3 Hg3 Hi3 H3.
  destruct o3 as [r|]; [by apply aspec_ret|]. clear H3. grow_facts Hg3.
  assert (grows s s3) as Hgs3 by (by etrans).
  eapply aspec_bind; [apply (extension_eq_spec _ s3 b a w y x); [done|by apply Hrec|done..]|]. intros o4 s4 Hg4 Hi4 H4.
  destruct o4 as [r|]; [apply aspec_ret; [done|by apply (decided_sym _ _ (Some r))]|]. clear H4. grow_facts Hg4.
  destruct (const_pair_read s4 Hi4 a b w x y Ha Hb) as (c & Ec & Hc). step. destruct c as [[av bv]|].
  { destruct Hc as [[Hav Ea] [Hbv Eb]]. apply bool_const_spec; [done|]. intros env.
    rewrite Ea, Eb. symmetry. apply bool_decide_reflects. rewrite Z.eqb_eq.
    apply (repr_inj _ _ _ _ _ Hav Hbv). }
  destruct (polynomial_equality_read s4 Hi4 a b w x y Ha Hb) as (v & Ev & Hv). step. destruct v as [v|].
  { by apply bool_const_spec. }
  apply order_pair_ind; [add_node_bool Hi4|].
  apply (aspec_ext_bool _ _ (fun env => y env =? x env)); [intros env; apply Z.eqb_sym|]. add_node_bool Hi4.
Qed.

Lemma bv_eq_spec s a b w x y : inv s -> isbv s a w x -> isbv s b w y ->
  aspec s (bv_eq a b) (fun r s' => isbool s' r (fun env => x env =? y env)).
Proof. intros Hi Ha Hb. apply (bv_eq_fuel_spec _ s a b w); try done; try (right; lia). lia. Qed.

Lemma bv_ne_spec s a b w x y : inv s -> isbv s a w x -> isbv s b w y ->
  aspec s (bv_ne a b) (fun r s' => isbool s' r (fun env => negb (x env =? y env))).
Proof.
  intros Hi Ha Hb. unfold bv_ne. eapply aspec_bind; [by apply (bv_eq_spec s a b w x y)|].
  intros r s' _ Hi' Hr. by apply bool_not_spec.
Qed.

(** ** Comparisons *)

(** The four comparison constructors and their meanings. *)
Inductive comparison_of (w : nat) : (TermId -> TermId -> NodeKind) -> (Z -> Z -> bool) -> Prop :=
  | cmp_ult : comparison_of w BvUlt bvult
  | cmp_ule : comparison_of w BvUle bvule
  | cmp_slt : comparison_of w BvSlt (bvslt w)
  | cmp_sle : comparison_of w BvSle (bvsle w).

Definition compared (x y : Env -> Z) (F : Z -> Z -> bool) (o : option TermId) (s' : Arena) : Prop :=
  match o with Some r => isbool s' r (fun env => F (x env) (y env)) | None => True end.

Lemma bind_ret_spec {X Y} s (v : X) (k : X -> M Arena Y) R : aspec s (k v) R -> aspec s (mret v ≫= k) R.
Proof. done. Qed.

(** What the recursive comparison is asked, on either side of the constant. *)
Definition cmp_on_child (cmp : TermId -> TermId -> (TermId -> TermId -> NodeKind) -> M Arena TermId)
    (s : Arena) (extended : TermId) : Prop :=
  forall s' child c cw z k f F, grows s s' -> inv s' -> (child < extended)%nat -> ~ is_const (nodes s) extended ->
  isbv s' child cw z -> isconst s' c cw k -> comparison_of cw f F ->
  aspec s' (cmp child c f) (fun r s'' => isbool s'' r (fun env => F (z env) k)) /\
  aspec s' (cmp c child f) (fun r s'' => isbool s'' r (fun env => F k (z env))).

(** The bound an unsigned comparison is strict or not about. *)
Definition unsigned (strict : bool) : Z -> Z -> bool := if strict then bvult else bvule.
Definition unsigned_node (strict : bool) : TermId -> TermId -> NodeKind := if strict then BvUlt else BvUle.

Lemma zext_cmp_spec cmp s e c strict (left : bool) w x y : inv s -> cmp_on_child cmp s e ->
  isbv s e w x -> isbv s c w y ->
  aspec s (zero_extend_const_unsigned_cmp_with cmp e c strict left)
    (compared (if left then x else y) (if left then y else x) (unsigned strict)).
Proof.
  intros Hi Hcmp Hx Hy. destruct (const_read s Hi c w y Hy) as (o & Eo & Ho).
  unfold zero_extend_const_unsigned_cmp_with. step. destruct o as [[w' bs]|]; [|by apply aspec_ret].
  destruct Ho as (-> & _ & Hb & Vy).
  destruct (extension_parts_read s Hi e w x Hx) as (p & Ep & Hp). step.
  destruct p as [[[[child cw] extra] sgn]|]; [|by apply aspec_ret].
  destruct Hp as (Hlt & Hnc & -> & Hc & Vx). rewrite Nat.eqb_refl.
  destruct sgn; [by apply aspec_ret|]. simpl orb. cbn iota.
  pose proof (isbv_legal _ _ _ _ Hi Hc) as Hcw. assert (0 < cw)%nat as Hcw0 by (destruct Hcw; lia).
  set (k := bval bs) in *.
  pose proof (low_bytes_repr (cw + extra) cw bs k ltac:(lia) Hb) as Hcb.
  assert (forall env, 0 <= val s child env < pow2 cw) as Rc by (intros env; by eapply isbv_range).
  pose proof (repr_range _ _ _ Hb) as Rk. pose proof (pow2_pos cw) as Pc.
  pose proof (all_zero_repr _ _ _ Hb) as Ez. change (all_zero bs = (k =? 0)) in Ez.
  pose proof (high_zero_repr (cw + extra) cw bs k ltac:(lia) Hb) as Eh.
  rewrite Ez, Eh. clear Ez Eh.
  eapply aspec_bind; [by apply const_bytes_spec|]. intros kc s1 Hg1 Hi1 Hk. cbv beta in Hk.
  pose proof (isbv_grow _ _ _ _ _ Hg1 Hc) as Hc1.
  set (post := compared _ _ _).
  assert (forall (b : bool), (forall env, unsigned strict ((if left then x else y) env) ((if left then y else x) env) = b) ->
    aspec s1 (r ← bool_const b; mret (Some r)) post) as Hconst.
  { intros b E. eapply aspec_bind; [by apply (bool_const_spec s1 b
      (fun env => unsigned strict ((if left then x else y) env) ((if left then y else x) env)))|].
    intros r s' _ Hi' Hr. by apply aspec_ret. }
  assert (forall m z, aspec s1 m (fun r s' => isbool s' r z) ->
    (forall env, unsigned strict ((if left then x else y) env) ((if left then y else x) env) = z env) ->
    aspec s1 (r ← m; mret (Some r)) post) as Hrec.
  { intros m z Hm E. eapply aspec_bind; [exact Hm|]. intros r s' _ Hi' Hr. apply aspec_ret; [done|].
    eapply isbool_ext; [|exact Hr]. intros env. cbv beta. by rewrite E. }
  destruct (Hcmp s1 child kc cw (val s child) (wrap cw k) (unsigned_node strict) (unsigned strict)) as [Hl Hr];
    try done; [by destruct strict; constructor|].
  destruct left; [destruct strict|destruct (Z.ltb_spec k (pow2 cw)) as [Hk1|Hk1]; simpl negb; cbn iota;
    [destruct strict|]].
  - (* extended < constant *)
    destruct (Z.eqb_spec k 0) as [E0|].
    { apply Hconst. intros env. simpl. unfold bvult. specialize (Rc env). rewrite Vx, Vy. fold k. lia. }
    destruct (Z.ltb_spec k (pow2 cw)); simpl.
    + eapply Hrec; [exact Hl|]. intros env. simpl. unfold bvult. rewrite Vx, Vy. fold k.
      by rewrite wrap_small by lia.
    + apply Hconst. intros env. simpl. unfold bvult. specialize (Rc env). rewrite Vx, Vy. fold k. lia.
  - (* extended <= constant *)
    destruct (Z.ltb_spec k (pow2 cw)); simpl.
    + eapply Hrec; [exact Hl|]. intros env. simpl. unfold bvule. rewrite Vx, Vy. fold k.
      by rewrite wrap_small by lia.
    + apply Hconst. intros env. simpl. unfold bvule. specialize (Rc env). rewrite Vx, Vy. fold k. lia.
  - (* constant < extended *)
    destruct (is_all_ones_read s1 Hi1 kc cw _ (isconst_isbv _ _ _ _ Hi1 Hk)) as (ones & Eones & Hones). step.
    destruct ones.
    + apply Hconst. intros env. simpl. unfold bvult. specialize (Rc env). rewrite Vx, Vy. fold k.
      pose proof (Hones eq_refl env) as E. rewrite wrap_small in E by lia. lia.
    + eapply Hrec; [exact Hr|]. intros env. simpl. unfold bvult. rewrite Vx, Vy. fold k.
      by rewrite wrap_small by lia.
  - (* constant <= extended *)
    destruct (Z.eqb_spec k 0) as [E0|].
    { apply Hconst. intros env. simpl. unfold bvule. specialize (Rc env). rewrite Vx, Vy. fold k. lia. }
    eapply Hrec; [exact Hr|]. intros env. simpl. unfold bvule. rewrite Vx, Vy. fold k.
    by rewrite wrap_small by lia.
  - (* a constant out of the child's range is above it *)
    apply Hconst. intros env. specialize (Rc env). rewrite Vx, Vy. fold k.
    destruct strict; simpl; unfold bvult, bvule; lia.
Qed.

(** The part after the rewrites: constants, then a node. *)
Definition cmp_rest (a b : TermId) (width : nat) (comparison : NodeKind) : M Arena TermId :=
  c ← rd (fun s => const_bytes_pair s a b);
  match c with
  | Some (av, bv) =>
      value ←
        match comparison with
        | BvUlt _ _ => mret (match cmp_unsigned_bytes av bv with Lt => true | _ => false end)
        | BvUle _ _ => mret (match cmp_unsigned_bytes av bv with Gt => false | _ => true end)
        | BvSlt _ _ => mret (signed_less_than av bv width)
        | BvSle _ _ => mret (signed_less_than av bv width || bool_decide (av = bv))
        | _ => panic
        end;
      bool_const value
  | None => Arena.add comparison SBool
  end.

Lemma cmp_rest_spec s a b w x y f F : inv s -> isbv s a w x -> isbv s b w y -> comparison_of w f F ->
  aspec s (cmp_rest a b w (f a b)) (fun r s' => isbool s' r (fun env => F (x env) (y env))).
Proof.
  intros Hi Ha Hb HF. destruct (const_pair_read s Hi a b w x y Ha Hb) as (c & Ec & Hc).
  pose proof (isbv_legal _ _ _ _ Hi Ha) as Hw. assert (0 < w)%nat as Hw0 by (destruct Hw; lia).
  unfold cmp_rest. step. destruct c as [[av bv]|].
  2:{ destruct HF; add_node_bool Hi. }
  destruct Hc as [[Hav Ea] [Hbv Eb]].
  pose proof (cmp_unsigned_repr _ _ _ _ _ Hav Hbv) as Ecmp.
  pose proof (signed_less_than_repr _ _ _ _ _ Hw0 Hav Hbv) as Eslt.
  pose proof (repr_inj _ _ _ _ _ Hav Hbv) as Einj.
  pose proof (repr_range _ _ _ Hav) as Rx. pose proof (repr_range _ _ _ Hbv) as Ry.
  assert (forall v, (forall env, F (x env) (y env) = v) ->
    aspec s (v' ← mret v; bool_const v') (fun r s' => isbool s' r (fun env => F (x env) (y env)))) as Hret.
  { intros v E. apply bind_ret_spec. by apply bool_const_spec. }
  destruct HF; apply Hret; intros env; rewrite Ea, Eb.
  - rewrite Ecmp. unfold bvult, Z.ltb. by destruct (_ ?= _).
  - rewrite Ecmp. unfold bvule, Z.leb. by destruct (_ ?= _).
  - by rewrite Eslt.
  - rewrite Eslt. unfold bvsle, bvslt. apply eq_bool_prop_intro.
    rewrite orb_True, !Is_true_true, Z.leb_le, Z.ltb_lt, bool_decide_eq_true, Einj. split; [|].
    + intros H. destruct (decide (sval w (bval av) < sval w (bval bv))); [by left|right].
      rewrite <- (sval_wrap w (bval av)), <- (sval_wrap w (bval bv)) by done. f_equal. lia.
    + intros [H| ->]; lia.
Qed.

Lemma bv_cmp_fuel_spec fuel s a b w x y f F : inv s -> (0 < fuel)%nat -> ready s a fuel -> ready s b fuel ->
  isbv s a w x -> isbv s b w y -> comparison_of w f F ->
  aspec s (bv_cmp_fuel fuel a b f) (fun r s' => isbool s' r (fun env => F (x env) (y env))).
Proof.
  revert s a b w x y f F. induction fuel as [|fuel IH]; intros s a b w x y f F Hi Hf Ra Rb Ha Hb HF; [lia|clear Hf].
  cbn [bv_cmp_fuel]. step. destruct (Nat.eqb_spec a b) as [->|_].
  { assert (forall env, x env = y env) as E by (by apply (isbv_inj _ _ _ _ _ _ Ha Hb)).
    destruct HF; [apply bool_false_spec|apply bool_true_spec|apply bool_false_spec|apply bool_true_spec];
      try done; intros env; rewrite E; unfold bvult, bvule, bvslt, bvsle; lia. }
  change (rd (fun s => const_bytes_pair s a b) ≫= _) with (cmp_rest a b w (f a b)).
  assert (forall s', grows s s' -> inv s' ->
    aspec s' (cmp_rest a b w (f a b)) (fun r s' => isbool s' r (fun env => F (x env) (y env)))) as Hrest.
  { intros s' Hg Hi'. apply cmp_rest_spec; try done; by eapply isbv_grow. }
  assert (forall s1 t, grows s s1 -> ready s t (S fuel) -> cmp_on_child (bv_cmp_fuel fuel) s1 t) as Hrec.
  { intros s1 t Hg1 Rt s' child c cw z k f' F' Hg' Hi' Hlt Hnc Hc Hk HF'.
    destruct (ready_grow s s1 t _ Hg1 Rt) as [|Ht]; [done|].
    pose proof (isconst_isbv _ _ _ _ Hi' Hk) as Hk'. pose proof (isconst_is_const _ _ _ _ Hk) as Hkc.
    split.
    - apply (IH s' child c cw z (fun _ => k)); try done; [lia|right; lia|by left].
    - apply (IH s' c child cw (fun _ => k) z); try done; [lia|by left|right; lia]. }
  assert (forall strict, unsigned strict = F ->
    aspec s (r ← zero_extend_const_unsigned_cmp_with (bv_cmp_fuel fuel) a b strict true;
      match r with Some reduced => mret reduced | None =>
      r ← zero_extend_const_unsigned_cmp_with (bv_cmp_fuel fuel) b a strict false;
      match r with Some reduced => mret reduced | None => cmp_rest a b w (f a b) end end)
      (fun r s' => isbool s' r (fun env => F (x env) (y env)))) as Hunsigned.
  { intros strict EF. eapply aspec_bind.
    { apply (zext_cmp_spec _ s a b strict true w x y); [done| |done..]. by apply Hrec. }
    intros o1 s1 Hg1 Hi1 H1. rewrite EF in H1. destruct o1 as [r|]; [by apply aspec_ret|]. clear H1.
    grow_facts Hg1. eapply aspec_bind.
    { apply (zext_cmp_spec _ s1 b a strict false w y x); [done| |done..]. by apply Hrec. }
    intros o2 s2 Hg2 Hi2 H2. rewrite EF in H2. destruct o2 as [r|]; [by apply aspec_ret|].
    apply Hrest; [by etrans|done]. }
  destruct HF; [by apply (Hunsigned true)|by apply (Hunsigned false)|by apply Hrest|by apply Hrest].
Qed.

Lemma bv_cmp_spec s a b w x y f F : inv s -> isbv s a w x -> isbv s b w y -> comparison_of w f F ->
  aspec s (bv_cmp a b f) (fun r s' => isbool s' r (fun env => F (x env) (y env))).
Proof. intros Hi Ha Hb HF. apply (bv_cmp_fuel_spec _ s a b w); try done; try (right; lia). lia. Qed.
