(* ===== verification/BuilderVars.v ===== *)
(** * The builder's variables

    No constructor but the two variable constructors makes a variable: whatever the
    others return, even an error, the variables of the arena are those it had. *)
From stdpp Require Import sorting.
From S2P Require Import Prelude Bits Smt Bytes Ir Evaluator Polynomial Builder.

#[local] Open Scope Z_scope.

Definition keeps_vars {X} (m : M Arena X) : Prop := forall s t n,
  nodes (m s).2 !! t = Some n -> var_kind (kind n) = true -> nodes s !! t = Some n.

Create HintDb vars.

Lemma keeps_ret {X} (x : X) : keeps_vars (mret x).
Proof. by intros s t n. Qed.

Lemma keeps_rd {X} (f : Arena -> res X) : keeps_vars (rd f).
Proof. by intros s t n. Qed.

Lemma keeps_lift {X} (r : res X) : keeps_vars (lift r).
Proof. by intros s t n. Qed.

Lemma keeps_fail {X} e : keeps_vars (fail e : M Arena X).
Proof. by intros s t n. Qed.

Lemma keeps_panic {X} : keeps_vars (panic : M Arena X).
Proof. by intros s t n. Qed.

Lemma keeps_bind {X Y} (m : M Arena X) (k : X -> M Arena Y) : keeps_vars m -> (forall x, keeps_vars (k x)) ->
  keeps_vars (m ≫= k).
Proof.
  intros Hm Hk s t n. unfold mbind, M_bind. specialize (Hm s t n).
  destruct (m s) as [[x|e|] s']; simpl in *; [|exact Hm..]. intros H Hv. apply Hm; [|done]. by apply (Hk x s').
Qed.

(** Adding a node that is no variable. *)
Lemma keeps_add k so : var_kind k = false -> keeps_vars (Arena.add k so).
Proof.
  intros Hk. unfold Arena.add. apply keeps_bind; [apply keeps_lift|]. intros [] s t n.
  unfold mbind, M_bind, get. destruct (ids s !! (k, so)); [done|]. simpl.
  destruct (_ <? _); [|done]. simpl. intros H Hv. apply lookup_snoc_Some in H as [[_ H]|[_ <-]]; [done|].
  simpl in Hv. congruence.
Qed.

#[export] Hint Resolve keeps_ret keeps_rd keeps_lift keeps_fail keeps_panic : vars.
#[export] Hint Extern 1 (keeps_vars (Arena.add _ _)) => (apply keeps_add; solve [reflexivity|auto]) : vars.

(** Follows the structure of a program. *)
Ltac keeps :=
  repeat first
    [ solve [auto with vars]
    | match goal with
      | |- keeps_vars (mbind _ _) => apply keeps_bind; [|intros ?]
      | |- keeps_vars (let '(_, _) := ?p in _) => destruct p
      | |- keeps_vars (match ?x with _ => _ end) => destruct x
      end
    | progress (cbv beta zeta) ].

Lemma keeps_expect_bool x c : keeps_vars (expect_bool x c).
Proof. apply keeps_rd. Qed.
Lemma keeps_expect_bv x c : keeps_vars (expect_bv x c).
Proof. apply keeps_rd. Qed.
Lemma keeps_expect_same_bv x y c : keeps_vars (expect_same_bv x y c).
Proof. apply keeps_rd. Qed.
#[export] Hint Resolve keeps_expect_bool keeps_expect_bv keeps_expect_same_bv : vars.

(** ** Constants and plain nodes *)

Lemma keeps_bool_const v : keeps_vars (bool_const v).
Proof. unfold bool_const. keeps. Qed.
Lemma keeps_bool_true : keeps_vars bool_true.
Proof. apply keeps_bool_const. Qed.
Lemma keeps_bool_false : keeps_vars bool_false.
Proof. apply keeps_bool_const. Qed.
Lemma keeps_bv_const_bytes bytes w : keeps_vars (bv_const_bytes bytes w).
Proof. unfold bv_const_bytes. keeps. Qed.
#[export] Hint Resolve keeps_bool_const keeps_bool_true keeps_bool_false keeps_bv_const_bytes : vars.

Lemma keeps_bv_const v w : keeps_vars (bv_const v w).
Proof. unfold bv_const. keeps. Qed.
Lemma keeps_zero w : keeps_vars (zero w).
Proof. unfold zero. keeps. Qed.
Lemma keeps_all_ones w : keeps_vars (all_ones w).
Proof. unfold all_ones. keeps. Qed.
#[export] Hint Resolve keeps_bv_const keeps_zero keeps_all_ones : vars.

Lemma keeps_bv_unary x f : (forall y, var_kind (f y) = false) -> keeps_vars (bv_unary x f).
Proof. intros H. unfold bv_unary. keeps. Qed.
Lemma keeps_bv_binary a b f : (forall x y, var_kind (f x y) = false) -> keeps_vars (bv_binary a b f).
Proof. intros H. unfold bv_binary. keeps. Qed.
Lemma keeps_overflow_binary a b f : (forall x y, var_kind (f x y) = false) -> keeps_vars (overflow_binary a b f).
Proof. intros H. unfold overflow_binary. keeps. Qed.
Lemma keeps_bv_add_node a b w : keeps_vars (bv_add_node a b w).
Proof. unfold bv_add_node. keeps. Qed.
Lemma keeps_bv_mul_node a b w : keeps_vars (bv_mul_node a b w).
Proof. unfold bv_mul_node. keeps. Qed.
#[export] Hint Resolve keeps_bv_unary keeps_bv_binary keeps_overflow_binary keeps_bv_add_node keeps_bv_mul_node : vars.

(** ** Bits, sums and products *)

Lemma keeps_bv_not x : keeps_vars (bv_not x).
Proof. unfold bv_not. keeps. Qed.
Lemma keeps_bv_neg x : keeps_vars (bv_neg x).
Proof. unfold bv_neg. keeps. Qed.
Lemma keeps_bv_and a b : keeps_vars (bv_and a b).
Proof. unfold bv_and. keeps. Qed.
Lemma keeps_bv_or_with add a b : (forall x y, keeps_vars (add x y)) -> keeps_vars (bv_or_with add a b).
Proof. intros H. unfold bv_or_with. keeps. Qed.
#[export] Hint Resolve keeps_bv_not keeps_bv_neg keeps_bv_and keeps_bv_or_with : vars.

Lemma keeps_bv_shl_fuel fuel : forall a b, keeps_vars (bv_shl_fuel fuel a b).
Proof. induction fuel as [|fuel IH]; intros a b; simpl; keeps. Qed.
Lemma keeps_bv_lshr_fuel fuel : forall a b, keeps_vars (bv_lshr_fuel fuel a b).
Proof. induction fuel as [|fuel IH]; intros a b; simpl; keeps. Qed.
Lemma keeps_bv_shl a b : keeps_vars (bv_shl a b).
Proof. apply keeps_bv_shl_fuel. Qed.
Lemma keeps_bv_lshr a b : keeps_vars (bv_lshr a b).
Proof. apply keeps_bv_lshr_fuel. Qed.
Lemma keeps_bv_ashr a b : keeps_vars (bv_ashr a b).
Proof. unfold bv_ashr. keeps. Qed.
#[export] Hint Resolve keeps_bv_shl keeps_bv_lshr keeps_bv_ashr : vars.

Lemma keeps_chain node l : (forall x y, keeps_vars (node x y)) -> forall cur, keeps_vars (chain node cur l).
Proof. intros H. induction l as [|x l IH]; intros cur; simpl; keeps. Qed.
#[export] Hint Resolve keeps_chain : vars.

Lemma keeps_rebuild_bv_mul l w : keeps_vars (rebuild_bv_mul l w).
Proof. unfold rebuild_bv_mul. keeps. Qed.
Lemma keeps_split_factors l w : forall c n, keeps_vars (split_factors l w c n).
Proof. induction l as [|x l IH]; intros c n; simpl; keeps. Qed.
#[export] Hint Resolve keeps_rebuild_bv_mul keeps_split_factors : vars.
Lemma keeps_canonical_bv_mul a b w : keeps_vars (canonical_bv_mul a b w).
Proof. unfold canonical_bv_mul. keeps. Qed.
#[export] Hint Resolve keeps_canonical_bv_mul : vars.
Lemma keeps_bv_mul_fuel fuel : forall a b, keeps_vars (bv_mul_fuel fuel a b).
Proof. induction fuel as [|fuel IH]; intros a b; simpl; keeps. Qed.
Lemma keeps_bv_mul a b : keeps_vars (bv_mul a b).
Proof. apply keeps_bv_mul_fuel. Qed.
#[export] Hint Resolve keeps_bv_mul_fuel keeps_bv_mul : vars.

Lemma keeps_rebuild_bv_add l w : keeps_vars (rebuild_bv_add l w).
Proof. unfold rebuild_bv_add. keeps. Qed.
Lemma keeps_split_terms l w : forall c n, keeps_vars (split_terms l w c n).
Proof. induction l as [|x l IH]; intros c n; simpl; keeps. Qed.
Lemma keeps_scaled_terms l w : keeps_vars (scaled_terms l w).
Proof. induction l as [|x l IH]; simpl; keeps. Qed.
Lemma keeps_group_terms fuel : forall l w r c, keeps_vars (group_terms fuel l w r c).
Proof. induction fuel as [|fuel IH]; intros l w r c; simpl; keeps. Qed.
#[export] Hint Resolve keeps_rebuild_bv_add keeps_split_terms keeps_scaled_terms keeps_group_terms : vars.
Lemma keeps_canonical_bv_add a b w : keeps_vars (canonical_bv_add a b w).
Proof. unfold canonical_bv_add. keeps. Qed.
#[export] Hint Resolve keeps_canonical_bv_add : vars.
Lemma keeps_bv_add_fuel fuel : forall a b, keeps_vars (bv_add_fuel fuel a b).
Proof. induction fuel as [|fuel IH]; intros a b; simpl; keeps. Qed.
Lemma keeps_bv_add a b : keeps_vars (bv_add a b).
Proof. apply keeps_bv_add_fuel. Qed.
#[export] Hint Resolve keeps_bv_add_fuel keeps_bv_add : vars.

Lemma keeps_bv_or a b : keeps_vars (bv_or a b).
Proof. apply keeps_bv_or_with. auto with vars. Qed.
#[export] Hint Resolve keeps_bv_or : vars.
Lemma keeps_bv_xor a b : keeps_vars (bv_xor a b).
Proof. unfold bv_xor. keeps. Qed.
Lemma keeps_bv_sub a b : keeps_vars (bv_sub a b).
Proof. unfold bv_sub. keeps. Qed.
Lemma keeps_bv_udiv a b : keeps_vars (bv_udiv a b).
Proof. unfold bv_udiv. keeps. Qed.
Lemma keeps_bv_urem a b : keeps_vars (bv_urem a b).
Proof. unfold bv_urem. keeps. Qed.
Lemma keeps_bv_sdiv a b : keeps_vars (bv_sdiv a b).
Proof. unfold bv_sdiv. keeps. Qed.
Lemma keeps_bv_srem a b : keeps_vars (bv_srem a b).
Proof. unfold bv_srem. keeps. Qed.
Lemma keeps_bv_smod a b : keeps_vars (bv_smod a b).
Proof. unfold bv_smod. keeps. Qed.
#[export] Hint Resolve keeps_bv_xor keeps_bv_sub keeps_bv_udiv keeps_bv_urem keeps_bv_sdiv keeps_bv_srem
  keeps_bv_smod : vars.

(** ** Structure *)

Lemma keeps_bv_concat_with extract a b : (forall x h l, keeps_vars (extract x h l)) -> keeps_vars (bv_concat_with extract a b).
Proof. intros H. unfold bv_concat_with. keeps. Qed.
#[export] Hint Resolve keeps_bv_concat_with : vars.
Lemma keeps_bv_extract_fuel fuel : forall x h l, keeps_vars (bv_extract_fuel fuel x h l).
Proof. induction fuel as [|fuel IH]; intros x h l; simpl; keeps. Qed.
Lemma keeps_bv_extract x h l : keeps_vars (bv_extract x h l).
Proof. apply keeps_bv_extract_fuel. Qed.
#[export] Hint Resolve keeps_bv_extract : vars.
Lemma keeps_bv_concat a b : keeps_vars (bv_concat a b).
Proof. apply keeps_bv_concat_with. auto with vars. Qed.
Lemma keeps_bv_zext x e : keeps_vars (bv_zext x e).
Proof. unfold bv_zext. keeps. Qed.
Lemma keeps_bv_sext x e : keeps_vars (bv_sext x e).
Proof. unfold bv_sext. keeps. Qed.
Lemma keeps_bv_ite c t e : keeps_vars (bv_ite c t e).
Proof. unfold bv_ite. keeps. Qed.
Lemma keeps_check_cases l w : keeps_vars (check_cases l w).
Proof. induction l as [|[x y] l IH]; simpl; keeps. Qed.
#[export] Hint Resolve keeps_bv_concat keeps_bv_zext keeps_bv_sext keeps_bv_ite keeps_check_cases : vars.
Lemma keeps_bv_select l d : keeps_vars (bv_select l d).
Proof. unfold bv_select. keeps. Qed.
#[export] Hint Resolve keeps_bv_select : vars.

(** ** Predicates *)

Lemma keeps_bool_not x : keeps_vars (bool_not x).
Proof. unfold bool_not. keeps. Qed.
Lemma keeps_bool_and a b : keeps_vars (bool_and a b).
Proof. unfold bool_and. keeps. Qed.
Lemma keeps_bool_or a b : keeps_vars (bool_or a b).
Proof. unfold bool_or. keeps. Qed.
#[export] Hint Resolve keeps_bool_not keeps_bool_and keeps_bool_or : vars.
Lemma keeps_bool_implies a b : keeps_vars (bool_implies a b).
Proof. unfold bool_implies. keeps. Qed.
Lemma keeps_bool_eq a b : keeps_vars (bool_eq a b).
Proof. unfold bool_eq. keeps. Qed.
#[export] Hint Resolve keeps_bool_implies keeps_bool_eq : vars.
Lemma keeps_one_bit_ite a b : keeps_vars (one_bit_ite_const_equality a b).
Proof. unfold one_bit_ite_const_equality. keeps. Qed.
Lemma keeps_extension_equality eq a b : (forall x y, keeps_vars (eq x y)) -> keeps_vars (extension_const_equality_with eq a b).
Proof. intros H. unfold extension_const_equality_with. keeps. Qed.
#[export] Hint Resolve keeps_one_bit_ite keeps_extension_equality : vars.
Lemma keeps_bv_eq_fuel fuel : forall a b, keeps_vars (bv_eq_fuel fuel a b).
Proof. induction fuel as [|fuel IH]; intros a b; simpl; keeps. Qed.
Lemma keeps_bv_eq a b : keeps_vars (bv_eq a b).
Proof. apply keeps_bv_eq_fuel. Qed.
#[export] Hint Resolve keeps_bv_eq : vars.

Lemma keeps_zero_extend_cmp cmp a b strict left :
  (forall x y f, (forall u v, var_kind (f u v) = false) -> keeps_vars (cmp x y f)) ->
  keeps_vars (zero_extend_const_unsigned_cmp_with cmp a b strict left).
Proof. intros H. unfold zero_extend_const_unsigned_cmp_with. keeps. Qed.
#[export] Hint Resolve keeps_zero_extend_cmp : vars.
Lemma keeps_bv_cmp_fuel fuel : forall a b f, (forall x y, var_kind (f x y) = false) -> keeps_vars (bv_cmp_fuel fuel a b f).
Proof.
  induction fuel as [|fuel IH]; intros a b f Hf; simpl; [keeps|].
  pose proof (keeps_add (f a b) SBool (Hf a b)) as Hadd. keeps.
Qed.
Lemma keeps_bv_cmp a b f : (forall x y, var_kind (f x y) = false) -> keeps_vars (bv_cmp a b f).
Proof. apply keeps_bv_cmp_fuel. Qed.
#[export] Hint Resolve keeps_bv_cmp : vars.

Lemma keeps_bv_ult a b : keeps_vars (bv_ult a b).
Proof. by apply keeps_bv_cmp. Qed.
Lemma keeps_bv_ule a b : keeps_vars (bv_ule a b).
Proof. by apply keeps_bv_cmp. Qed.
Lemma keeps_bv_slt a b : keeps_vars (bv_slt a b).
Proof. by apply keeps_bv_cmp. Qed.
Lemma keeps_bv_sle a b : keeps_vars (bv_sle a b).
Proof. by apply keeps_bv_cmp. Qed.
Lemma keeps_uadd_ovf a b : keeps_vars (uadd_ovf a b).
Proof. by apply keeps_overflow_binary. Qed.
Lemma keeps_sadd_ovf a b : keeps_vars (sadd_ovf a b).
Proof. by apply keeps_overflow_binary. Qed.
Lemma keeps_usub_ovf a b : keeps_vars (usub_ovf a b).
Proof. by apply keeps_overflow_binary. Qed.
Lemma keeps_ssub_ovf a b : keeps_vars (ssub_ovf a b).
Proof. by apply keeps_overflow_binary. Qed.
Lemma keeps_umul_ovf a b : keeps_vars (umul_ovf a b).
Proof. by apply keeps_overflow_binary. Qed.
Lemma keeps_smul_ovf a b : keeps_vars (smul_ovf a b).
Proof. by apply keeps_overflow_binary. Qed.
Lemma keeps_sdiv_ovf a b : keeps_vars (sdiv_ovf a b).
Proof. by apply keeps_overflow_binary. Qed.
Lemma keeps_neg_ovf x : keeps_vars (neg_ovf x).
Proof. unfold neg_ovf. keeps. Qed.
#[export] Hint Resolve keeps_bv_ult keeps_bv_ule keeps_bv_slt keeps_bv_sle keeps_uadd_ovf keeps_sadd_ovf keeps_usub_ovf
  keeps_ssub_ovf keeps_umul_ovf keeps_smul_ovf keeps_sdiv_ovf keeps_neg_ovf : vars.
