(* ===== verification/BuilderState.v ===== *)
(** * The builder as a whole ([builder.rs])

    [Builder] is the arena with the assertions, the scopes that delimit them, the
    assumptions and the options of the query under construction.  The term
    constructors of [Builder.v] run on its arena. *)
From stdpp Require Import sorting.
From S2P Require Import Prelude Bits Smt Bytes Ir Builder.

Record Builder := mkBuilder {
  b_arena : Arena;
  b_assertions : list Assertion;
  b_assumptions : list TermId;
  b_command : Command;
  b_target : option TermId;
  b_signed : bool;
  b_want_model : bool;
  b_want_core : bool;
  b_get_values : list string;
  b_scopes : list nat;
}.

Module TermBuilder.
Definition new : Builder :=
  {| b_arena := Arena.new; b_assertions := []; b_assumptions := []; b_command := Solve;
     b_target := None; b_signed := false; b_want_model := false; b_want_core := false;
     b_get_values := []; b_scopes := [] |}.

Definition finish (b : Builder) : res Query :=
  if (bool_decide (b_command b = Minimize) || bool_decide (b_command b = Maximize))
     && bool_decide (b_target b = None)
  then Err (Invalid "query target")
  else Ok {| arena := b_arena b; assertions := b_assertions b; assumptions := b_assumptions b;
             command := b_command b; target := b_target b; signed := b_signed b;
             want_model := b_want_model b; want_core := b_want_core b;
             get_values := b_get_values b |}.

(** A term constructor runs on [self.arena]. *)
Definition on_arena {A} (m : M Arena A) : M Builder A := fun b =>
  let '(r, s) := m (b_arena b) in
  (r, {| b_arena := s; b_assertions := b_assertions b; b_assumptions := b_assumptions b;
         b_command := b_command b; b_target := b_target b; b_signed := b_signed b;
         b_want_model := b_want_model b; b_want_core := b_want_core b;
         b_get_values := b_get_values b; b_scopes := b_scopes b |}).

(** Field assignments. *)
Definition with_assertions (l : list Assertion) (b : Builder) : Builder :=
  {| b_arena := b_arena b; b_assertions := l; b_assumptions := b_assumptions b;
     b_command := b_command b; b_target := b_target b; b_signed := b_signed b;
     b_want_model := b_want_model b; b_want_core := b_want_core b;
     b_get_values := b_get_values b; b_scopes := b_scopes b |}.
Definition with_scopes (l : list nat) (b : Builder) : Builder :=
  {| b_arena := b_arena b; b_assertions := b_assertions b; b_assumptions := b_assumptions b;
     b_command := b_command b; b_target := b_target b; b_signed := b_signed b;
     b_want_model := b_want_model b; b_want_core := b_want_core b;
     b_get_values := b_get_values b; b_scopes := l |}.
Definition with_assumptions (l : list TermId) (b : Builder) : Builder :=
  {| b_arena := b_arena b; b_assertions := b_assertions b; b_assumptions := l;
     b_command := b_command b; b_target := b_target b; b_signed := b_signed b;
     b_want_model := b_want_model b; b_want_core := b_want_core b;
     b_get_values := b_get_values b; b_scopes := b_scopes b |}.
Definition with_goal (c : Command) (t : option TermId) (sg : bool) (b : Builder) : Builder :=
  {| b_arena := b_arena b; b_assertions := b_assertions b; b_assumptions := b_assumptions b;
     b_command := c; b_target := t; b_signed := sg;
     b_want_model := b_want_model b; b_want_core := b_want_core b;
     b_get_values := b_get_values b; b_scopes := b_scopes b |}.
Definition with_outputs (m c : bool) (l : list string) (b : Builder) : Builder :=
  {| b_arena := b_arena b; b_assertions := b_assertions b; b_assumptions := b_assumptions b;
     b_command := b_command b; b_target := b_target b; b_signed := b_signed b;
     b_want_model := m; b_want_core := c; b_get_values := l; b_scopes := b_scopes b |}.

Definition modify (f : Builder -> Builder) : M Builder unit := fun b => (Ok tt, f b).

Definition set_want_model (v : bool) : M Builder unit :=
  modify (fun b => with_outputs v (b_want_core b) (b_get_values b) b).
Definition set_want_core (v : bool) : M Builder unit :=
  modify (fun b => with_outputs (b_want_model b) v (b_get_values b) b).
Definition add_get_value (name : string) : M Builder unit :=
  modify (fun b => with_outputs true (b_want_core b) (b_get_values b ++ [name]) b).
Definition set_command (c : Command) : M Builder unit :=
  modify (fun b => with_goal c (b_target b) (b_signed b) b).

Definition set_optimization (c : Command) (target : TermId) (sg : bool) : M Builder unit :=
  if negb (bool_decide (c = Minimize) || bool_decide (c = Maximize))
  then fail (Invalid "optimization command")
  else
    on_arena (expect_bv target "optimization target") ;;
    modify (with_goal c (Some target) sg).

Definition push : M Builder unit :=
  modify (fun b => with_scopes (b_scopes b ++ [length (b_assertions b)]) b).

Definition pop : M Builder unit := fun b =>
  match last (b_scopes b) with
  | None => (Err (Invalid "scope"), b)
  | Some len =>
      (Ok tt, with_assertions (take len (b_assertions b))
                (with_scopes (take (length (b_scopes b) - 1) (b_scopes b)) b))
  end.

Definition assert (root : TermId) : M Builder unit :=
  on_arena (expect_bool root "assertion") ;;
  modify (fun b => with_assertions (b_assertions b ++ [mkAssertion root None]) b).

Definition assert_named (name : string) (root : TermId) : M Builder unit :=
  on_arena (expect_bool root "named assertion") ;;
  modify (fun b => with_assertions (b_assertions b ++ [mkAssertion root (Some name)]) b).

Definition assume (root : TermId) : M Builder unit :=
  on_arena (expect_bool root "assumption") ;;
  modify (fun b => with_assumptions (b_assumptions b ++ [root]) b).
End TermBuilder.
