(* ===== verification/BuilderApi.v ===== *)
(** * Every call of the builder

    [Call] is the builder's constructor interface as data and [run_call] runs a
    call.  Whatever the arguments (dangling ids, mismatched widths, amounts out of
    range), a call never panics: it succeeds and keeps the invariant, or reports an
    error and leaves the arena as it was, or runs out of ids. *)
From stdpp Require Import sorting.
From S2P Require Import Prelude Bits Smt SmtFacts Bytes BytesFacts Ir Sem EvaluatorFacts.
From S2P Require Import BlastFacts Polynomial Builder BuilderSpec BuilderReads BuilderFacts.
From S2P Require Import BuilderArith BuilderStruct BuilderCompare.

#[local] Open Scope Z_scope.

Inductive BvBinary :=
  | CAnd | COr | CXor | CAdd | CSub | CMul | CUdiv | CUrem | CSdiv | CSrem | CSmod | CShl | CLshr | CAshr.

Inductive BvPredicate :=
  | CEq | CNe | CUlt | CUle | CUgt | CUge | CSlt | CSle | CSgt | CSge
  | CUaddo | CSaddo | CUsubo | CSsubo | CUmulo | CSmulo | CSdivo.

Inductive BoolBinary := CBoolAnd | CBoolOr | CBoolImplies | CBoolEq | CBoolXor.

Inductive Call :=
  | BvVariable (name : string) (width : nat) (external : option nat)
  | BoolVariable (name : string) (external : option nat)
  | BoolConstant (value : bool)
  | BvConstant (value : Z) (width : nat)
  | BvBytes (bytes : list Z) (width : nat)
  | Not (x : TermId)
  | Neg (x : TermId)
  | Binary (op : BvBinary) (a b : TermId)
  | Extract (child : TermId) (high low : nat)
  | Concat (high low : TermId)
  | Zext (child : TermId) (extra : nat)
  | Sext (child : TermId) (extra : nat)
  | Repeat (child : TermId) (count : nat)
  | RotateLeft (child : TermId) (amount : nat)
  | RotateRight (child : TermId) (amount : nat)
  | Ite (cond then_value else_value : TermId)
  | Select (cases : list (TermId * TermId)) (default : TermId)
  | Predicate (op : BvPredicate) (a b : TermId)
  | NegOvf (x : TermId)
  | BooleanNot (x : TermId)
  | Boolean (op : BoolBinary) (a b : TermId)
  | BooleanIte (cond then_value else_value : TermId).

Definition run_binary (op : BvBinary) : TermId -> TermId -> M Arena TermId :=
  match op with
  | CAnd => bv_and | COr => bv_or | CXor => bv_xor | CAdd => bv_add | CSub => bv_sub
  | CMul => bv_mul | CUdiv => bv_udiv | CUrem => bv_urem | CSdiv => bv_sdiv | CSrem => bv_srem
  | CSmod => bv_smod | CShl => bv_shl | CLshr => bv_lshr | CAshr => bv_ashr
  end.

Definition run_predicate (op : BvPredicate) : TermId -> TermId -> M Arena TermId :=
  match op with
  | CEq => bv_eq | CNe => bv_ne | CUlt => bv_ult | CUle => bv_ule | CUgt => bv_ugt | CUge => bv_uge
  | CSlt => bv_slt | CSle => bv_sle | CSgt => bv_sgt | CSge => bv_sge
  | CUaddo => uadd_ovf | CSaddo => sadd_ovf | CUsubo => usub_ovf | CSsubo => ssub_ovf
  | CUmulo => umul_ovf | CSmulo => smul_ovf | CSdivo => sdiv_ovf
  end.

Definition run_bool (op : BoolBinary) : TermId -> TermId -> M Arena TermId :=
  match op with
  | CBoolAnd => bool_and | CBoolOr => bool_or | CBoolImplies => bool_implies
  | CBoolEq => bool_eq | CBoolXor => bool_xor
  end.

Definition run_call (c : Call) : M Arena TermId :=
  match c with
  | BvVariable name width external => bv_var_external name width external
  | BoolVariable name external => bool_var_external name external
  | BoolConstant value => bool_const value
  | BvConstant value width => bv_const value width
  | BvBytes bytes width => bv_const_bytes bytes width
  | Not x => bv_not x
  | Neg x => bv_neg x
  | Binary op a b => run_binary op a b
  | Extract child high low => bv_extract child high low
  | Concat high low => bv_concat high low
  | Zext child extra => bv_zext child extra
  | Sext child extra => bv_sext child extra
  | Repeat child count => bv_repeat child count
  | RotateLeft child amount => bv_rotate_left child amount
  | RotateRight child amount => bv_rotate_right child amount
  | Ite c t e => bv_ite c t e
  | Select cases default => bv_select cases default
  | Predicate op a b => run_predicate op a b
  | NegOvf x => neg_ovf x
  | BooleanNot x => bool_not x
  | Boolean op a b => run_bool op a b
  | BooleanIte c t e => bool_ite c t e
  end.

(** SMT-LIB's meaning of the operations. *)
Definition binary_meaning (op : BvBinary) (w : nat) : Z -> Z -> Z :=
  match op with
  | CAnd => Z.land | COr => Z.lor | CXor => Z.lxor | CAdd => bvadd w | CSub => bvsub w
  | CMul => bvmul w | CUdiv => bvudiv w | CUrem => bvurem | CSdiv => bvsdiv w | CSrem => bvsrem w
  | CSmod => bvsmod w | CShl => bvshl w | CLshr => bvlshr w | CAshr => bvashr w
  end.

Definition predicate_meaning (op : BvPredicate) (w : nat) : Z -> Z -> bool :=
  match op with
  | CEq => Z.eqb | CNe => fun x y => negb (x =? y)
  | CUlt => bvult | CUle => bvule | CUgt => fun x y => bvult y x | CUge => fun x y => bvule y x
  | CSlt => bvslt w | CSle => bvsle w
  | CSgt => fun x y => bvslt w y x | CSge => fun x y => bvsle w y x
  | CUaddo => bvuaddo w | CSaddo => bvsaddo w | CUsubo => bvusubo | CSsubo => bvssubo w
  | CUmulo => bvumulo w | CSmulo => bvsmulo w | CSdivo => bvsdivo w
  end.

Definition bool_meaning (op : BoolBinary) : bool -> bool -> bool :=
  match op with
  | CBoolAnd => andb | CBoolOr => orb | CBoolImplies => implb | CBoolEq => eqb | CBoolXor => xorb
  end.

(** ** Well-sorted calls *)

Lemma run_binary_spec op s a b w x y : inv s -> isbv s a w x -> isbv s b w y ->
  aspec s (run_binary op a b) (fun r s' => isbv s' r w (fun env => binary_meaning op w (x env) (y env))).
Proof.
  intros Hi Ha Hb. destruct op; simpl.
  - by apply bv_and_spec.
  - by apply bv_or_spec.
  - by apply bv_xor_spec.
  - by apply bv_add_spec.
  - by apply bv_sub_spec.
  - by apply bv_mul_spec.
  - by apply bv_udiv_spec.
  - by apply bv_urem_spec.
  - by apply bv_sdiv_spec.
  - by apply bv_srem_spec.
  - by apply bv_smod_spec.
  - by apply bv_shl_spec.
  - by apply bv_lshr_spec.
  - by apply bv_ashr_spec.
Qed.

Lemma run_predicate_spec op s a b w x y : inv s -> isbv s a w x -> isbv s b w y ->
  aspec s (run_predicate op a b) (fun r s' => isbool s' r (fun env => predicate_meaning op w (x env) (y env))).
Proof.
  intros Hi Ha Hb. destruct op; simpl.
  - by apply (bv_eq_spec s a b w).
  - by apply (bv_ne_spec s a b w).
  - apply (bv_cmp_spec s a b w); try done. constructor.
  - apply (bv_cmp_spec s a b w); try done. constructor.
  - apply (bv_cmp_spec s b a w y x _ bvult); try done. constructor.
  - apply (bv_cmp_spec s b a w y x _ bvule); try done. constructor.
  - apply (bv_cmp_spec s a b w); try done. constructor.
  - apply (bv_cmp_spec s a b w); try done. constructor.
  - apply (bv_cmp_spec s b a w y x _ (bvslt w)); try done. constructor.
  - apply (bv_cmp_spec s b a w y x _ (bvsle w)); try done. constructor.
  - by apply uadd_ovf_spec.
  - by apply sadd_ovf_spec.
  - by eapply usub_ovf_spec.
  - by apply ssub_ovf_spec.
  - by apply umul_ovf_spec.
  - by apply smul_ovf_spec.
  - by apply sdiv_ovf_spec.
Qed.

Lemma run_bool_spec op s a b p q : inv s -> isbool s a p -> isbool s b q ->
  aspec s (run_bool op a b) (fun r s' => isbool s' r (fun env => bool_meaning op (p env) (q env))).
Proof.
  intros Hi Ha Hb. destruct op; simpl.
  - by apply bool_and_spec.
  - by apply bool_or_spec.
  - by apply bool_implies_spec.
  - by apply bool_eq_spec.
  - by apply bool_xor_spec.
Qed.

(** ** Ill-sorted calls *)

(** The operands' sorts are what the checks say. *)
Lemma expect_bv_cases s t : (exists w, isbv s t w (val s t)) \/ forall c, exists e, Arena.expect_bv s t c = Err e.
Proof.
  unfold Arena.expect_bv, Arena.sort_of, Arena.node.
  destruct (nodes s !! t) as [[k [|w]]|] eqn:E; cbn [mbind res_bind sort].
  - right. intros c. by eexists.
  - left. exists w. apply isbv_val. unfold width_at. by rewrite E.
  - right. intros c. by eexists.
Qed.

Lemma expect_bool_cases s t : isbool s t (truth s t) \/ forall c, exists e, Arena.expect_bool s t c = Err e.
Proof.
  unfold Arena.expect_bool, Arena.sort_of, Arena.node.
  destruct (nodes s !! t) as [[k [|w]]|] eqn:E; cbn [mbind res_bind sort].
  - left. split; [|done]. unfold bool_at. by rewrite E.
  - right. intros c. by eexists.
  - right. intros c. by eexists.
Qed.

Lemma expect_same_cases s a b :
  (exists w, isbv s a w (val s a) /\ isbv s b w (val s b)) \/
  ((forall c, exists e, Arena.expect_same_bv s a b c = Err e) /\
   (forall c, exists e, Arena.expect_same_bv s b a c = Err e)).
Proof.
  unfold Arena.expect_same_bv.
  destruct (expect_bv_cases s a) as [[wa Ha]|Ea]; destruct (expect_bv_cases s b) as [[wb Hb]|Eb].
  - destruct (decide (wa = wb)) as [->|Hne]; [left; by exists wb|right].
    split; intros c; rewrite (expect_bv_read _ _ _ _ c Ha), (expect_bv_read _ _ _ _ c Hb); simpl.
    + destruct (Nat.eqb_spec wa wb); [done|by eexists].
    + destruct (Nat.eqb_spec wb wa); [done|by eexists].
  - right. split; intros c; destruct (Eb c) as [e ->]; [|by eexists].
    rewrite (expect_bv_read _ _ _ _ c Ha). by eexists.
  - right. split; intros c; destruct (Ea c) as [e ->]; [by eexists|].
    rewrite (expect_bv_read _ _ _ _ c Hb). by eexists.
  - right. split; intros c; [destruct (Ea c) as [e ->]|destruct (Eb c) as [e ->]]; by eexists.
Qed.

(** The outcomes a call can have. *)
Definition safe (s : Arena) (m : M Arena TermId) : Prop :=
  aspec s m (fun r s' => (r < length (nodes s'))%nat) \/ exists e, m s = (Err e, s).

Lemma safe_bv s m w x : aspec s m (fun r s' => isbv s' r w x) -> safe s m.
Proof. intros H. left. eapply aspec_mono; [exact H|]. intros r s' _ _ [Hw _]. by eapply width_at_lt. Qed.

Lemma safe_bool s m p : aspec s m (fun r s' => isbool s' r p) -> safe s m.
Proof. intros H. left. eapply aspec_mono; [exact H|]. intros r s' _ _ [Hw _]. by apply bool_at_lt. Qed.

Lemma rd_err {X Y} s (f : Arena -> res X) (k : X -> M Arena Y) e : f s = Err e -> (rd f ≫= k) s = (Err e, s).
Proof. intros E. unfold mbind, M_bind, rd. by rewrite E. Qed.

Lemma safe_rd_err {X} s (f : Arena -> res X) (k : X -> M Arena TermId) :
  (exists e, f s = Err e) -> safe s (rd f ≫= k).
Proof. intros [e E]. right. exists e. by apply rd_err. Qed.

Lemma safe_rd {X} s (f : Arena -> res X) (k : X -> M Arena TermId) x :
  f s = Ok x -> safe s (k x) -> safe s (rd f ≫= k).
Proof.
  intros E [H|[e H]]; [left; by eapply aspec_rd|right].
  exists e. unfold mbind, M_bind, rd. by rewrite E.
Qed.

Lemma safe_lift {X} s (m : res X) (k : X -> M Arena TermId) : m <> Panic ->
  (forall x, m = Ok x -> safe s (k x)) -> safe s (lift m ≫= k).
Proof.
  intros Hm Hk. destruct m as [x|e|]; [|by right; exists e|done].
  destruct (Hk x eq_refl) as [H|[e H]]; [left; by eapply aspec_lift|right; by exists e].
Qed.

Lemma safe_bind_err {X} s (m : M Arena X) (k : X -> M Arena TermId) e : m s = (Err e, s) -> safe s (m ≫= k).
Proof. intros E. right. exists e. unfold mbind, M_bind. by rewrite E. Qed.

(** A call that fails at once. *)
Definition refused {X} (s : Arena) (m : M Arena X) : Prop := exists e, m s = (Err e, s).

Lemma safe_refused s m : refused s m -> safe s m.
Proof. by right. Qed.

Lemma refused_rd {X Y} s (f : Arena -> res X) (k : X -> M Arena Y) :
  (exists e, f s = Err e) -> refused s (rd f ≫= k).
Proof. intros [e E]. exists e. by apply rd_err. Qed.

Lemma refused_bind {X Y} s (m : M Arena X) (k : X -> M Arena Y) : refused s m -> refused s (m ≫= k).
Proof. intros [e E]. exists e. unfold mbind, M_bind. by rewrite E. Qed.

Lemma refused_pass {X Y} s (f : Arena -> res X) (k : X -> M Arena Y) x :
  f s = Ok x -> refused s (k x) -> refused s (rd f ≫= k).
Proof. intros E [e H]. exists e. unfold mbind, M_bind, rd. by rewrite E. Qed.

Lemma refused_lift {X Y} s (k : X -> M Arena Y) e : refused s (lift (Err e) ≫= k).
Proof. by exists e. Qed.

Lemma refused_fail {X} s e : refused s (fail e : M Arena X).
Proof. by exists e. Qed.

Definition mismatched (s : Arena) (a b : TermId) : Prop :=
  (forall c, exists e, Arena.expect_same_bv s a b c = Err e) /\
  (forall c, exists e, Arena.expect_same_bv s b a c = Err e).

Lemma mismatched_sym s a b : mismatched s a b -> mismatched s b a.
Proof. by intros [??]. Qed.

Lemma refused_binary op s a b : mismatched s a b -> refused s (run_binary op a b).
Proof.
  assert (forall a b, mismatched s a b -> forall Y c (k : nat -> M Arena Y),
    refused s (expect_same_bv a b c ≫= k)) as Hk by (intros ?? [H _] Y c k; apply refused_rd, H).
  intros H. pose proof (mismatched_sym _ _ _ H) as H'. destruct op; simpl;
    try (unfold bv_and, bv_or, bv_or_with, bv_xor, bv_add, bv_mul; cbn [bv_add_fuel bv_mul_fuel];
      apply order_pair_ind; by apply Hk); by apply Hk.
Qed.

Lemma refused_predicate op s a b : mismatched s a b -> refused s (run_predicate op a b).
Proof.
  assert (forall a b, mismatched s a b -> forall Y Z c (k : nat -> M Arena Y) (k' : Y -> M Arena Z),
    refused s ((expect_same_bv a b c ≫= k) ≫= k')) as Hk'.
  { intros ?? [H _] Y Z c k k'. apply refused_bind, refused_rd, H. }
  assert (forall a b, mismatched s a b -> forall Y c (k : nat -> M Arena Y),
    refused s (expect_same_bv a b c ≫= k)) as Hk by (intros ?? [H _] Y c k; apply refused_rd, H).
  intros H. pose proof (mismatched_sym _ _ _ H) as H'. destruct op; simpl;
    unfold bv_ugt, bv_uge, bv_sgt, bv_sge, bv_ult, bv_ule, bv_slt, bv_sle, bv_cmp, bv_eq, bv_ne, bv_eq;
    cbn [bv_cmp_fuel bv_eq_fuel]; first [by apply Hk|by apply Hk'].
Qed.

Lemma bool_pair_cases s a b :
  (isbool s a (truth s a) /\ isbool s b (truth s b)) \/
  (forall X c c' (k : unit -> M Arena X), refused s (expect_bool a c ≫= fun _ => expect_bool b c' ≫= k)) /\
  (forall X c c' (k : unit -> M Arena X), refused s (expect_bool b c ≫= fun _ => expect_bool a c' ≫= k)).
Proof.
  destruct (expect_bool_cases s a) as [Ha|Ea]; destruct (expect_bool_cases s b) as [Hb|Eb]; [by left|right..];
    split; intros X c c' k; first
      [ by apply refused_rd, Ea | by apply refused_rd, Eb
      | eapply refused_pass; [by eapply expect_bool_read|first [by apply refused_rd, Ea|by apply refused_rd, Eb]] ].
Qed.

Lemma boolean_safe op s a b : inv s -> safe s (run_bool op a b).
Proof.
  intros Hi. destruct (bool_pair_cases s a b) as [[Ha Hb]|[E E']].
  - by eapply safe_bool, run_bool_spec.
  - apply safe_refused. destruct op; simpl.
    + unfold bool_and. apply order_pair_ind; [apply E|apply E'].
    + unfold bool_or. apply order_pair_ind; [apply E|apply E'].
    + apply E.
    + apply E.
    + apply refused_bind, E.
Qed.

Lemma refused_expect_bv {X} s t c (k : nat -> M Arena X) :
  (forall c, exists e, Arena.expect_bv s t c = Err e) -> refused s (expect_bv t c ≫= k).
Proof. intros E. by apply refused_rd. Qed.

(** A read of the node itself: it fails, or the node is not a bit-vector. *)
Lemma not_bv_node s t : inv s -> (forall c, exists e, Arena.expect_bv s t c = Err e) ->
  (exists e, Arena.node s t = Err e) \/
  exists k, nodes s !! t = Some (mkNode k SBool).
Proof.
  intros Hi E. unfold Arena.node. destruct (nodes s !! t) as [[k so]|] eqn:Hn; [right|left; by eexists].
  exists k. destruct (E ""%string) as [e He]. unfold Arena.expect_bv, Arena.sort_of, Arena.node in He.
  rewrite Hn in He. cbn [mbind res_bind sort] in He. by destruct so.
Qed.

(** What a Bool node is not. *)
Lemma bool_kind ns k : sort_of_kind ns k = Some SBool ->
  match k with BvConst _ _ | BvNot _ | BvNeg _ => False | _ => True end.
Proof.
  intros H. destruct k; try done; simpl in H.
  - unfold when in H. by case_match.
  - by destruct (width_at ns x).
  - by destruct (width_at ns x).
Qed.

Lemma refused_unary s t (f : TermId -> NodeKind) (m : M Arena TermId)
    (g : nat * list Z -> M Arena TermId) (h : Arena -> TermId -> res (option TermId)) :
  inv s -> (forall c, exists e, Arena.expect_bv s t c = Err e) ->
  (forall k, nodes s !! t = Some (mkNode k SBool) -> h s t = Ok None) ->
  refused s (rd (fun s => bv_const_value s t) ≫= fun c =>
    match c with
    | Some c => g c
    | None => rd (fun s => h s t) ≫= fun inner =>
        match inner with Some inner => mret inner | None => bv_unary t f end
    end).
Proof.
  intros Hi E Hh. destruct (not_bv_node s t Hi E) as [[e He]|[k Hk]].
  - apply refused_rd. exists e. unfold bv_const_value. by rewrite He.
  - assert (bv_const_value s t = Ok None) as Ec.
    { unfold bv_const_value, Arena.node. rewrite Hk. cbn [mbind res_bind Ir.kind].
      pose proof (bool_kind _ _ (node_typed _ _ _ Hi Hk)). by destruct k. }
    eapply refused_pass; [exact Ec|]. cbv beta iota. eapply refused_pass; [by eapply Hh|].
    cbv beta iota. by apply refused_expect_bv.
Qed.

Lemma unary_safe s t : inv s -> safe s (bv_not t) /\ safe s (bv_neg t).
Proof.
  intros Hi. destruct (expect_bv_cases s t) as [[w Ht]|E].
  - split; eapply safe_bv; [by apply bv_not_spec|by apply bv_neg_spec].
  - assert (forall k, nodes s !! t = Some (mkNode k SBool) -> bv_not_child s t = Ok None /\ bv_neg_child s t = Ok None)
      as Hh.
    { intros k Hk. unfold bv_not_child, bv_neg_child, Arena.node. rewrite Hk. cbn [mbind res_bind Ir.kind].
      pose proof (bool_kind _ _ (node_typed _ _ _ Hi Hk)). by destruct k. }
    split; apply safe_refused.
    + apply (refused_unary s t BvNot (mret t) (fun '(w, bs) => _) bv_not_child Hi E). intros k Hk. by eapply Hh.
    + apply (refused_unary s t BvNeg (mret t) (fun '(w, bs) => _) bv_neg_child Hi E). intros k Hk. by eapply Hh.
Qed.

(** ** Constants and variables *)

Lemma legal_cases w : legal w \/ forall c, validate_bv_width w c = Err (Invalid c).
Proof.
  destruct (decide (legal w)) as [H|H]; [by left|right]. intros c. unfold validate_bv_width.
  destruct (_ && _) eqn:E; [|done]. apply andb_true_iff in E. lia.
Qed.

Lemma normalized_cases bytes w : (legal w /\ length bytes = div_ceil w 8) \/
  exists e, normalized_bytes bytes w = Err e.
Proof.
  unfold normalized_bytes. destruct (legal_cases w) as [Hw|E].
  - rewrite bytes_for_width_ok by done. cbn [mbind res_bind].
    destruct (Nat.eqb_spec (length bytes) (div_ceil w 8)); [by left|right; by eexists].
  - right. unfold bytes_for_width. rewrite E. by eexists.
Qed.

Lemma safe_const s m w z : aspec s m (fun r s' => isconst s' r w z) -> safe s m.
Proof.
  intros H. apply (safe_bv _ _ w (fun _ => z)). eapply aspec_mono; [exact H|].
  intros r s' _ Hi Hr. exact (isconst_isbv _ _ _ _ Hi Hr).
Qed.

Lemma constants_safe s : inv s ->
  (forall value w, 0 <= value < 2 ^ 64 -> safe s (bv_const value w)) /\
  (forall bytes w, Forall is_byte bytes -> safe s (bv_const_bytes bytes w)) /\
  (forall b, safe s (bool_const b)).
Proof.
  intros Hi. split_and!.
  - intros value w Hv. destruct (legal_cases w) as [Hw|E].
    + apply (safe_const _ _ w (wrap w value)). by apply bv_const_const.
    + apply safe_refused. unfold bv_const. rewrite E. apply refused_lift.
  - intros bytes w Hb. destruct (normalized_cases bytes w) as [[Hw Hl]|[e E]].
    + apply (safe_const _ _ w (wrap w (bval bytes))). by apply const_bytes_masked.
    + apply safe_refused. unfold bv_const_bytes. rewrite E. apply refused_lift.
  - intros b. by apply (safe_bool _ _ (fun _ => b)), bool_const_spec.
Qed.

Lemma variables_safe s : inv s ->
  (forall name w external, safe s (bv_var_external name w external)) /\
  (forall name external, safe s (bool_var_external name external)).
Proof.
  intros Hi. split.
  - intros name w external. destruct (legal_cases w) as [Hw|E]; [left|].
    { eapply aspec_mono; [by apply bv_var_external_spec|]. intros r s' _ _ [H _]. by eapply width_at_lt. }
    apply safe_refused. unfold bv_var_external. rewrite E. apply refused_lift.
  - intros name external. left. eapply aspec_mono; [by apply bv_var_const_bool_spec|].
    intros r s' _ _ [H _]. by apply bool_at_lt.
Qed.

(** ** Structure *)

(** An operand that is not a bit-vector is refused; the rest of the call sees its
    width. *)
Lemma safe_expect_bv s t c (k : nat -> M Arena TermId) :
  (forall w, isbv s t w (val s t) -> safe s (expect_bv t c ≫= k)) -> safe s (expect_bv t c ≫= k).
Proof.
  intros H. destruct (expect_bv_cases s t) as [[w Ht]|E]; [by eapply H|].
  by apply safe_refused, refused_expect_bv.
Qed.

Lemma refused_width {X} s t w c (k : nat -> M Arena X) :
  isbv s t w (val s t) -> refused s (k w) -> refused s (expect_bv t c ≫= k).
Proof. intros Ht H. eapply refused_pass; [by eapply expect_bv_read|done]. Qed.

(** The checks of the operations that change the width. *)
Lemma refused_resize {X} s w c c' (k : unit -> M Arena X) : ~ legal w ->
  refused s (if negb (Z.of_nat w <? 2 ^ 32) then fail c else lift (validate_bv_width w c') ≫= k).
Proof.
  intros Hw. destruct (legal_cases w) as [?|E]; [done|].
  case_match; [apply refused_fail|]. rewrite E. apply refused_lift.
Qed.

Lemma extract_safe s child high low : inv s -> safe s (bv_extract child high low).
Proof.
  intros Hi. unfold bv_extract. cbn [bv_extract_fuel]. apply safe_expect_bv. intros w Ht.
  destruct (decide (low <= high < w)%nat) as [Hr|Hr].
  - by eapply safe_bv, bv_extract_spec.
  - apply safe_refused. eapply refused_width; [done|]. cbv beta.
    replace ((high <? low) || (w <=? high))%nat with true; [apply refused_fail|].
    symmetry. apply orb_true_iff. rewrite Nat.ltb_lt, Nat.leb_le. lia.
Qed.

Lemma concat_safe s high low : inv s -> safe s (bv_concat high low).
Proof.
  intros Hi. apply safe_expect_bv. intros wh Hh.
  destruct (expect_bv_cases s low) as [[wl Hl]|E].
  - destruct (decide (legal (wh + wl))) as [Hw|Hw]; [by eapply safe_bv, bv_concat_spec|].
    apply safe_refused. eapply refused_width; [done|]. cbv beta. eapply refused_width; [done|].
    by apply refused_resize.
  - apply safe_refused. eapply refused_width; [done|]. by apply refused_expect_bv.
Qed.

Lemma extension_safe s child extra : inv s -> safe s (bv_zext child extra) /\ safe s (bv_sext child extra).
Proof.
  intros Hi. split; apply safe_expect_bv; intros w Ht.
  - destruct (decide (legal (w + extra))) as [Hw|Hw]; [by eapply safe_bv, bv_zext_spec|].
    apply safe_refused. eapply refused_width; [done|]. by apply refused_resize.
  - destruct (decide (legal (w + extra))) as [Hw|Hw]; [by eapply safe_bv, bv_sext_spec|].
    apply safe_refused. eapply refused_width; [done|]. by apply refused_resize.
Qed.

Lemma repeat_safe s child count : inv s -> safe s (bv_repeat child count).
Proof.
  intros Hi. destruct (decide (count = 0)%nat) as [->|Hc]; [by apply safe_refused, refused_fail|].
  destruct (expect_bv_cases s child) as [[w Ht]|E].
  - destruct (decide (legal (w * count))) as [Hw|Hw]; [eapply safe_bv, bv_repeat_spec; try done; lia|].
    apply safe_refused. unfold bv_repeat. destruct (Nat.eqb_spec count 0); [done|].
    eapply refused_width; [done|]. by apply refused_resize.
  - apply safe_refused. unfold bv_repeat. destruct (Nat.eqb_spec count 0); [done|]. by apply refused_expect_bv.
Qed.

Lemma rotate_safe s child k : inv s -> safe s (bv_rotate_left child k) /\ safe s (bv_rotate_right child k).
Proof.
  intros Hi. split; apply safe_expect_bv; intros w Ht; eapply safe_bv.
  - by apply bv_rotate_left_spec.
  - by apply bv_rotate_right_spec.
Qed.

(** ** Selections *)

Lemma check_cases_refused s w cases : inv s ->
  cases_ok s w cases \/ refused s (check_cases cases w).
Proof.
  intros Hi. induction cases as [|[c v] cases IH]; [by left; constructor|]. simpl.
  destruct (expect_bool_cases s c) as [Hc|E]; [|right; by apply refused_rd].
  destruct (expect_bv_cases s v) as [[wv Hv]|E];
    [|right; eapply refused_pass; [by eapply expect_bool_read|by apply refused_expect_bv]].
  destruct IH as [IH|IH]; destruct (decide (wv = w)) as [->|Hne].
  - left. by constructor.
  - right. eapply refused_pass; [by eapply expect_bool_read|]. cbv beta. eapply refused_width; [done|].
    cbv beta. destruct (Nat.eqb_spec wv w); [done|apply refused_fail].
  - right. eapply refused_pass; [by eapply expect_bool_read|]. cbv beta. eapply refused_width; [done|].
    cbv beta. by rewrite Nat.eqb_refl.
  - right. eapply refused_pass; [by eapply expect_bool_read|]. cbv beta. eapply refused_width; [done|].
    cbv beta. destruct (Nat.eqb_spec wv w); [done|apply refused_fail].
Qed.

Lemma select_safe s cases d : inv s -> safe s (bv_select cases d).
Proof.
  intros Hi. apply safe_expect_bv. intros w Hd. destruct (check_cases_refused s w cases Hi) as [Hc|E].
  - by eapply safe_bv, bv_select_spec.
  - apply safe_refused. eapply refused_width; [done|]. by apply refused_bind.
Qed.

Lemma ite_safe s c t e : inv s -> safe s (bv_ite c t e) /\ safe s (bool_ite c t e).
Proof.
  intros Hi. destruct (expect_bool_cases s c) as [Hc|E];
    [|split; apply safe_refused; by apply refused_rd].
  split.
  - destruct (expect_same_cases s t e) as [(w & Ht & He)|[E _]]; [by eapply safe_bv, bv_ite_spec|].
    apply safe_refused. eapply refused_pass; [by eapply expect_bool_read|]. by apply refused_rd.
  - destruct (bool_pair_cases s t e) as [[Ht He]|[E _]]; [by eapply safe_bool, bool_ite_spec|].
    apply safe_refused. eapply refused_pass; [by eapply expect_bool_read|]. apply E.
Qed.

(** ** Every call *)

(** The arguments Rust's types allow: a [u64] constant, bytes that are bytes. *)
Definition typed_call (c : Call) : Prop :=
  match c with
  | BvConstant value _ => 0 <= value < 2 ^ 64
  | BvBytes bytes _ => Forall is_byte bytes
  | _ => True
  end.

Lemma run_call_safe s c : inv s -> typed_call c -> safe s (run_call c).
Proof.
  intros Hi Hc. destruct c; simpl in *.
  - by apply variables_safe.
  - by apply variables_safe.
  - by apply constants_safe.
  - by apply constants_safe.
  - by apply constants_safe.
  - by apply unary_safe.
  - by apply unary_safe.
  - destruct (expect_same_cases s a b) as [(w & Ha & Hb)|E]; [by eapply safe_bv, run_binary_spec|].
    by apply safe_refused, refused_binary.
  - by apply extract_safe.
  - by apply concat_safe.
  - by apply extension_safe.
  - by apply extension_safe.
  - by apply repeat_safe.
  - by apply rotate_safe.
  - by apply rotate_safe.
  - by apply ite_safe.
  - by apply select_safe.
  - destruct (expect_same_cases s a b) as [(w & Ha & Hb)|E]; [by eapply safe_bool, run_predicate_spec|].
    by apply safe_refused, refused_predicate.
  - destruct (expect_bv_cases s x) as [[w Hx]|E]; [by eapply safe_bool, neg_ovf_spec|].
    by apply safe_refused, refused_expect_bv.
  - destruct (expect_bool_cases s x) as [Hx|E]; [by eapply safe_bool, bool_not_spec|].
    by apply safe_refused, refused_rd.
  - by apply boolean_safe.
  - by apply ite_safe.
Qed.
