(* ===== verification/BuilderSession.v ===== *)
(** * Sessions with the builder

    [Step] is the whole public interface of [Builder] as data: term constructors
    and the operations on assertions, scopes, assumptions and options.  A session
    is a sequence of steps from [Builder::new]; the client may ignore errors, so a
    failed step is followed by the next one in the state it left.  [builder_ok] is
    the invariant of every session, and [frames] the view of the assertions as a
    stack of scopes, which the operations refine. *)
From stdpp Require Import sorting.
From S2P Require Import Prelude Bits Smt Bytes BytesFacts Ir Sem EvaluatorFacts.
From S2P Require Import Builder BuilderSpec BuilderReads BuilderState BuilderApi.

Inductive Step :=
  | Construct (c : Call)
  | Push
  | Pop
  | Assert (root : TermId)
  | AssertNamed (name : string) (root : TermId)
  | Assume (root : TermId)
  | Optimization (c : Command) (target : TermId) (signed : bool)
  | SetCommand (c : Command)
  | WantModel (v : bool)
  | WantCore (v : bool)
  | GetValue (name : string).

Definition run_step (st : Step) : M Builder unit :=
  match st with
  | Construct c => TermBuilder.on_arena (run_call c) ;; mret tt
  | Push => TermBuilder.push
  | Pop => TermBuilder.pop
  | Assert root => TermBuilder.assert root
  | AssertNamed name root => TermBuilder.assert_named name root
  | Assume root => TermBuilder.assume root
  | Optimization c target signed => TermBuilder.set_optimization c target signed
  | SetCommand c => TermBuilder.set_command c
  | WantModel v => TermBuilder.set_want_model v
  | WantCore v => TermBuilder.set_want_core v
  | GetValue name => TermBuilder.add_get_value name
  end.

Definition typed_step (st : Step) : Prop :=
  match st with Construct c => typed_call c | _ => True end.

(** The states a session goes through. *)
Inductive session : Builder -> Prop :=
  | session_new : session TermBuilder.new
  | session_step b st r b' : session b -> typed_step st -> run_step st b = (r, b') -> session b'.

(** A sequence of steps, run whatever their results. *)
Definition run_steps (l : list Step) (b : Builder) : Builder :=
  foldl (fun b st => (run_step st b).2) b l.

Lemma session_run l b : session b -> Forall typed_step l -> session (run_steps l b).
Proof.
  intros Hb Hl. revert b Hb. induction Hl as [|st l Hst _ IH]; intros b Hb; [done|]. simpl.
  apply IH. destruct (run_step st b) as [r b'] eqn:E. by apply (session_step b st r b').
Qed.

(** ** The invariant *)

(** Scopes are lengths of the assertion stack, in order. *)
Fixpoint scopes_ok (low : nat) (scopes : list nat) (high : nat) : Prop :=
  match scopes with
  | [] => (low <= high)%nat
  | n :: scopes => (low <= n)%nat /\ scopes_ok n scopes high
  end.

Record builder_ok (b : Builder) : Prop := {
  ok_arena : inv (b_arena b);
  ok_assertions : Forall (fun a => bool_at (nodes (b_arena b)) (root a) = true) (b_assertions b);
  ok_assumptions : Forall (fun t => bool_at (nodes (b_arena b)) t = true) (b_assumptions b);
  ok_target : forall t, b_target b = Some t -> exists w, width_at (nodes (b_arena b)) t = Some w;
  ok_scopes : scopes_ok 0 (b_scopes b) (length (b_assertions b));
}.

Lemma scopes_ok_le low scopes high : scopes_ok low scopes high -> (low <= high)%nat.
Proof. revert low. induction scopes as [|n scopes IH]; intros low; simpl; [done|]. intros [? ?%IH]. lia. Qed.

Lemma scopes_ok_high low scopes high high' : (high <= high')%nat ->
  scopes_ok low scopes high -> scopes_ok low scopes high'.
Proof.
  intros Hh. revert low. induction scopes as [|n scopes IH]; intros low; simpl; [lia|].
  intros [? ?]. split; [done|auto].
Qed.

Lemma scopes_ok_snoc low scopes n high :
  scopes_ok low (scopes ++ [n]) high <-> scopes_ok low scopes n /\ (n <= high)%nat.
Proof.
  revert low. induction scopes as [|m scopes IH]; intros low; simpl; [done|]. rewrite IH. tauto.
Qed.

Lemma builder_new_ok : builder_ok TermBuilder.new.
Proof. split; [apply inv_new|constructor|constructor|done|simpl; lia]. Qed.

(** The arena of a builder may be extended. *)
Definition with_arena (s : Arena) (b : Builder) : Builder :=
  {| b_arena := s; b_assertions := b_assertions b; b_assumptions := b_assumptions b;
     b_command := b_command b; b_target := b_target b; b_signed := b_signed b;
     b_want_model := b_want_model b; b_want_core := b_want_core b;
     b_get_values := b_get_values b; b_scopes := b_scopes b |}.

Lemma with_arena_ok s b : builder_ok b -> inv s -> grows (b_arena b) s -> builder_ok (with_arena s b).
Proof.
  intros [Hi Ha Hs Ht Hsc] Hi' Hg. split; simpl; [done|..|done].
  - eapply Forall_impl; [exact Ha|]. intros a H. by eapply bool_at_grow.
  - eapply Forall_impl; [exact Hs|]. intros t H. by eapply bool_at_grow.
  - intros t (w & Hw)%Ht. exists w. by eapply width_at_grow.
Qed.

Lemma with_arena_same b : with_arena (b_arena b) b = b.
Proof. by destruct b. Qed.

Lemma on_arena_run {X} (m : M Arena X) b :
  TermBuilder.on_arena m b = ((m (b_arena b)).1, with_arena (m (b_arena b)).2 b).
Proof. unfold TermBuilder.on_arena, with_arena. by destruct (m (b_arena b)). Qed.

(** A checked step: the check reads the arena, then the state is updated. *)
Lemma checked_step {X} (f : Arena -> res X) (g : Builder -> Builder) b :
  (TermBuilder.on_arena (rd f) ;; TermBuilder.modify g) b =
    match f (b_arena b) with
    | Ok _ => (Ok tt, g b)
    | Err e => (Err e, b)
    | Panic => (Panic, b)
    end.
Proof.
  unfold mbind at 1, M_bind. rewrite on_arena_run. unfold rd. simpl. rewrite with_arena_same.
  by destruct (f (b_arena b)).
Qed.

(** What a step may do: it never panics, keeps the invariant, and an error leaves
    the builder as it was unless the ids ran out on the way. *)
Definition step_outcome (b : Builder) (o : res unit * Builder) : Prop :=
  builder_ok o.2 /\
  match o.1 with
  | Ok _ => True
  | Err e => o.2 = b \/
      e = Invalid "arena" /\ exists s, grows (b_arena b) s /\ exhausted s /\ o.2 = with_arena s b
  | Panic => False
  end.

Lemma construct_outcome b c : builder_ok b -> typed_call c -> step_outcome b (run_step (Construct c) b).
Proof.
  intros Hb Hc. simpl. unfold mbind, M_bind. rewrite on_arena_run. simpl.
  destruct (run_call_safe (b_arena b) c (ok_arena _ Hb) Hc) as [H|[e ->]].
  - unfold aspec in H. destruct (run_call c (b_arena b)) as [[r|e|] s']; simpl; [..|done].
    + destruct H as (Hg & Hi & _). split; [by apply with_arena_ok|done].
    + destruct H as (Hg & Hi & He & Hx). split; [by apply with_arena_ok|]. right. eauto.
  - simpl. rewrite with_arena_same. split; [done|by left].
Qed.

Lemma assertions_snoc_ok b a : builder_ok b -> bool_at (nodes (b_arena b)) (root a) = true ->
  builder_ok (TermBuilder.with_assertions (b_assertions b ++ [a]) b).
Proof.
  intros [Hi Ha Hs Ht Hsc] Hr. split; simpl; [done|..|done|done|].
  - apply Forall_app. by split; [|constructor].
  - rewrite length_app. eapply scopes_ok_high; [|done]. lia.
Qed.

Lemma assume_ok b t : builder_ok b -> bool_at (nodes (b_arena b)) t = true ->
  builder_ok (TermBuilder.with_assumptions (b_assumptions b ++ [t]) b).
Proof.
  intros [Hi Ha Hs Ht Hsc] Hr. split; simpl; [done|done|..|done|done].
  apply Forall_app. by split; [|constructor].
Qed.

Lemma goal_ok b c t sg : builder_ok b -> (forall t', t = Some t' -> exists w, width_at (nodes (b_arena b)) t' = Some w) ->
  builder_ok (TermBuilder.with_goal c t sg b).
Proof. intros [Hi Ha Hs Ht Hsc] H. by split. Qed.

Lemma outputs_ok b m c l : builder_ok b -> builder_ok (TermBuilder.with_outputs m c l b).
Proof. intros [Hi Ha Hs Ht Hsc]. by split. Qed.

Lemma push_ok b : builder_ok b ->
  builder_ok (TermBuilder.with_scopes (b_scopes b ++ [length (b_assertions b)]) b).
Proof. intros [Hi Ha Hs Ht Hsc]. split; simpl; [done..|]. by apply scopes_ok_snoc. Qed.

Lemma take_all_but_last {X} (l : list X) x : take (length (l ++ [x]) - 1) (l ++ [x]) = l.
Proof. rewrite length_app. simpl. replace (length l + 1 - 1)%nat with (length l) by lia. apply take_app_length. Qed.

(** [pop] on a stack of scopes [scopes ++ [n]]. *)
Lemma pop_run b scopes n : b_scopes b = scopes ++ [n] ->
  TermBuilder.pop b =
    (Ok tt, TermBuilder.with_assertions (take n (b_assertions b)) (TermBuilder.with_scopes scopes b)).
Proof. intros E. unfold TermBuilder.pop. by rewrite E, last_snoc, take_all_but_last. Qed.

Lemma pop_ok b scopes n : builder_ok b -> b_scopes b = scopes ++ [n] ->
  builder_ok (TermBuilder.with_assertions (take n (b_assertions b)) (TermBuilder.with_scopes scopes b)).
Proof.
  intros [Hi Ha Hs Ht Hsc] E. rewrite E in Hsc. apply scopes_ok_snoc in Hsc as [Hsc Hn].
  split; simpl; [done|..|done|done|].
  - by apply Forall_take.
  - by rewrite length_take_le.
Qed.

Lemma run_step_outcome b st : builder_ok b -> typed_step st -> step_outcome b (run_step st b).
Proof.
  intros Hb Hst.
  assert (forall g, builder_ok (g b) -> step_outcome b (Ok tt, g b)) as Hset by (intros g Hg; by split).
  assert (forall e, step_outcome b (Err e, b)) as Herr
    by (intros e; split; simpl; [done|by left]).
  destruct st as [c| | |t|name t|t|c t sg|c|v|v|name]; simpl.
  - by apply construct_outcome.
  - by apply Hset, push_ok.
  - destruct (b_scopes b) as [|n scopes _] eqn:E using rev_ind.
    + unfold TermBuilder.pop. rewrite E. apply Herr.
    + rewrite (pop_run _ _ _ E). split; [by apply pop_ok|done].
  - unfold TermBuilder.assert, expect_bool. rewrite checked_step.
    destruct (expect_bool_cases (b_arena b) t) as [Ht|E].
    + rewrite (expect_bool_read _ _ _ _ Ht). by apply Hset, assertions_snoc_ok, Ht.
    + destruct (E "assertion"%string) as [e ->]. apply Herr.
  - unfold TermBuilder.assert_named, expect_bool. rewrite checked_step.
    destruct (expect_bool_cases (b_arena b) t) as [Ht|E].
    + rewrite (expect_bool_read _ _ _ _ Ht). by apply Hset, assertions_snoc_ok, Ht.
    + destruct (E "named assertion"%string) as [e ->]. apply Herr.
  - unfold TermBuilder.assume, expect_bool. rewrite checked_step.
    destruct (expect_bool_cases (b_arena b) t) as [Ht|E].
    + rewrite (expect_bool_read _ _ _ _ Ht). by apply Hset, assume_ok, Ht.
    + destruct (E "assumption"%string) as [e ->]. apply Herr.
  - unfold TermBuilder.set_optimization. case_match; [apply Herr|].
    unfold expect_bv. rewrite checked_step.
    destruct (expect_bv_cases (b_arena b) t) as [[w Ht]|E].
    + rewrite (expect_bv_read _ _ _ _ _ Ht). apply Hset, goal_ok; [done|].
      intros t' [= <-]. exists w. apply Ht.
    + destruct (E "optimization target"%string) as [e ->]. apply Herr.
  - apply Hset, goal_ok; [done|]. apply (ok_target _ Hb).
  - by apply Hset, outputs_ok.
  - by apply Hset, outputs_ok.
  - by apply Hset, outputs_ok.
Qed.

Lemma session_ok b : session b -> builder_ok b.
Proof.
  induction 1 as [|b st r b' _ IH Hst E]; [apply builder_new_ok|].
  pose proof (run_step_outcome b st IH Hst) as [H _]. by rewrite E in H.
Qed.

(** ** The stack of scopes

    The assertions cut at the scopes: one frame for the base level and one for
    each open scope, the innermost last. *)
Fixpoint frames_from (low : nat) (scopes : list nat) (l : list Assertion) : list (list Assertion) :=
  match scopes with
  | [] => [l]
  | n :: scopes => take (n - low) l :: frames_from n scopes (drop (n - low) l)
  end.

Definition frames (b : Builder) : list (list Assertion) := frames_from 0 (b_scopes b) (b_assertions b).

(** The abstract operations on a stack of frames. *)
Inductive ScopeOp := OpenScope | CloseScope | Add (a : Assertion).

Definition scope_spec (op : ScopeOp) (stack : list (list Assertion)) : option (list (list Assertion)) :=
  match op with
  | OpenScope => Some (stack ++ [[]])
  | CloseScope => if (2 <=? length stack)%nat then Some (take (length stack - 1) stack) else None
  | Add a => Some (alter (fun frame => frame ++ [a]) (length stack - 1)%nat stack)
  end.

Lemma frames_length low scopes l : length (frames_from low scopes l) = S (length scopes).
Proof. revert low l. induction scopes as [|n scopes IH]; intros low l; simpl; [done|]. by rewrite IH. Qed.

Lemma frames_join low scopes l : mjoin (frames_from low scopes l) = l.
Proof.
  revert low l. induction scopes as [|n scopes IH]; intros low l; simpl; [by rewrite app_nil_r|].
  by rewrite IH, take_drop.
Qed.

Lemma frames_push low scopes l : scopes_ok low scopes (low + length l) ->
  frames_from low (scopes ++ [(low + length l)%nat]) l = frames_from low scopes l ++ [[]].
Proof.
  revert low l. induction scopes as [|n scopes IH]; intros low l; simpl.
  - intros _. replace (low + length l - low)%nat with (length l) by lia. by rewrite firstn_all, drop_all.
  - intros [Hn Hs]. pose proof (scopes_ok_le _ _ _ Hs). f_equal.
    assert (low + length l = n + length (drop (n - low) l))%nat as E by (rewrite length_drop; lia).
    rewrite E in *. by apply IH.
Qed.

Lemma frames_add low scopes l a : scopes_ok low scopes (low + length l) ->
  frames_from low scopes (l ++ [a]) =
    alter (fun frame => frame ++ [a]) (length (frames_from low scopes l) - 1)%nat (frames_from low scopes l).
Proof.
  revert low l. induction scopes as [|n scopes IH]; intros low l; simpl; [done|].
  intros [Hn Hs]. pose proof (scopes_ok_le _ _ _ Hs).
  rewrite take_app_le, drop_app_le by lia. rewrite IH.
  - rewrite frames_length. simpl. by rewrite Nat.sub_0_r.
  - replace (n + length (drop (n - low) l))%nat with (low + length l)%nat by (rewrite length_drop; lia). done.
Qed.

Lemma frames_pop low scopes n l : scopes_ok low scopes n -> (n <= low + length l)%nat ->
  frames_from low scopes (take (n - low) l) =
    take (length (frames_from low (scopes ++ [n]) l) - 1)%nat (frames_from low (scopes ++ [n]) l).
Proof.
  revert low l. induction scopes as [|m scopes IH]; intros low l; simpl; [done|].
  intros [Hm Hs] Hl. pose proof (scopes_ok_le _ _ _ Hs). rewrite frames_length, length_app. simpl.
  replace (S (length scopes + 1))%nat with (S (S (length scopes))) by lia. simpl. f_equal.
  - rewrite take_take. f_equal. lia.
  - rewrite skipn_firstn_comm. replace (n - low - (m - low))%nat with (n - m)%nat by lia.
    rewrite IH, frames_length, length_app by (done || (rewrite length_drop; lia)). simpl. f_equal. lia.
Qed.

(** What a step does to the stack. *)
Definition scope_op (st : Step) : option ScopeOp :=
  match st with
  | Push => Some OpenScope
  | Pop => Some CloseScope
  | Assert t => Some (Add (mkAssertion t None))
  | AssertNamed name t => Some (Add (mkAssertion t (Some name)))
  | _ => None
  end.

Lemma frames_push_builder b : builder_ok b ->
  frames (TermBuilder.with_scopes (b_scopes b ++ [length (b_assertions b)]) b) = frames b ++ [[]].
Proof. intros Hb. apply (frames_push 0), (ok_scopes b Hb). Qed.

Lemma frames_add_builder b a : builder_ok b ->
  scope_spec (Add a) (frames b) = Some (frames (TermBuilder.with_assertions (b_assertions b ++ [a]) b)).
Proof. intros Hb. simpl. f_equal. symmetry. apply (frames_add 0), (ok_scopes b Hb). Qed.

Lemma frames_pop_builder b scopes n : builder_ok b -> b_scopes b = scopes ++ [n] ->
  scope_spec CloseScope (frames b) =
    Some (frames (TermBuilder.with_assertions (take n (b_assertions b)) (TermBuilder.with_scopes scopes b))).
Proof.
  intros Hb E. pose proof (ok_scopes _ Hb) as Hs. rewrite E in Hs. apply scopes_ok_snoc in Hs as [Hs Hn].
  pose proof (frames_pop 0 scopes n (b_assertions b) Hs Hn) as H. rewrite Nat.sub_0_r in H.
  unfold scope_spec, frames. rewrite E. rewrite (proj2 (Nat.leb_le _ _)).
  - f_equal. symmetry. exact H.
  - rewrite frames_length, length_app. simpl. lia.
Qed.

(** Steps that leave assertions and scopes alone. *)
Lemma frames_with_arena s b : frames (with_arena s b) = frames b.
Proof. done. Qed.

Lemma construct_frames c b r b' : run_step (Construct c) b = (r, b') -> frames b' = frames b.
Proof.
  simpl. unfold mbind, M_bind. rewrite on_arena_run.
  destruct (run_call c (b_arena b)) as [[x|e|] s]; simpl; by intros [= <- <-].
Qed.

Lemma assert_frames name root c b r b' : builder_ok b ->
  (TermBuilder.on_arena (expect_bool root c) ;;
   TermBuilder.modify (fun b => TermBuilder.with_assertions (b_assertions b ++ [mkAssertion root name]) b)) b = (r, b') ->
  match r with
  | Ok _ => scope_spec (Add (mkAssertion root name)) (frames b) = Some (frames b')
  | _ => b' = b
  end.
Proof.
  intros Hb. unfold expect_bool. rewrite checked_step.
  destruct (Arena.expect_bool (b_arena b) root c); intros [= <- <-]; [|done..]. by apply frames_add_builder.
Qed.

Lemma pop_frames b r b' : builder_ok b -> TermBuilder.pop b = (r, b') ->
  match r with
  | Ok _ => scope_spec CloseScope (frames b) = Some (frames b')
  | Err e => b' = b /\ e = Invalid "scope" /\ scope_spec CloseScope (frames b) = None
  | Panic => False
  end.
Proof.
  intros Hb. destruct (b_scopes b) as [|n scopes _] eqn:E using rev_ind.
  - unfold TermBuilder.pop. rewrite E. intros [= <- <-]. split_and!; [done..|].
    simpl. unfold frames. by rewrite frames_length, E.
  - rewrite (pop_run _ _ _ E). intros [= <- <-]. by apply frames_pop_builder.
Qed.

Lemma finish_ok b : builder_ok b ->
  match TermBuilder.finish b with
  | Ok q => well_formed q = true /\ arena q = b_arena b /\ assertions q = mjoin (frames b) /\
      assumptions q = b_assumptions b /\ command q = b_command b /\
      ((command q = Minimize \/ command q = Maximize) ->
       exists t w, target q = Some t /\ width_at (nodes (arena q)) t = Some w /\ legal w)
  | Err e => e = Invalid "query target" /\ b_target b = None /\
      (b_command b = Minimize \/ b_command b = Maximize)
  | Panic => False
  end.
Proof.
  intros [Hi Ha Hs Ht Hsc]. unfold TermBuilder.finish.
  destruct (_ && _) eqn:E.
  - apply andb_true_iff in E as [E ->%bool_decide_eq_true]. split_and!; [done..|].
    apply orb_true_iff in E as [E%bool_decide_eq_true|E%bool_decide_eq_true]; tauto.
  - split_and!; [|done|symmetry; apply frames_join|done|done|].
    + unfold well_formed. simpl. rewrite (inv_typed _ Hi). simpl. rewrite !andb_true_iff. split_and!.
      * apply forallb_forall. intros t Hin%list_elem_of_In. unfold assertions_and_assumptions in Hin. simpl in Hin.
        apply elem_of_app in Hin as [Hin|Hin].
        -- apply list_elem_of_fmap in Hin as (a & -> & Hin). rewrite Forall_forall in Ha. by apply Ha.
        -- rewrite Forall_forall in Hs. by apply Hs.
      * destruct (b_target b) as [t|]; [|done]. destruct (Ht t eq_refl) as [w Hw].
        apply Nat.ltb_lt. by eapply width_at_lt.
      * apply Z.leb_le, Hi.
    + simpl. intros Hc. destruct (b_target b) as [t|].
      * destruct (Ht t eq_refl) as [w Hw]. exists t, w. split; [done|]. split; [exact Hw|].
        apply (isbv_legal _ t w (val (b_arena b) t) Hi), isbv_val, Hw.
      * exfalso. rewrite andb_false_iff, orb_false_iff in E.
        destruct E as [[?%bool_decide_eq_false ?%bool_decide_eq_false]|?%bool_decide_eq_false]; tauto.
Qed.

(** ** Theorems *)

(** C24: in every state a session can reach, whatever the arguments of the next
    step (dangling ids, operands of other sorts, illegal widths, amounts out of
    range), the step does not panic; it keeps the invariant of the builder (a
    well-sorted, hash-consed arena in range, Bool roots, a bit-vector target,
    scopes that cut the assertions in order); and when it fails it leaves the
    builder as it was, unless the 2^32 term ids ran out on the way.
    [finish] turns every such state into a well-formed query with exactly the
    session's arena, assertions and assumptions, and it fails only for a
    minimisation or maximisation whose target was never given; when there is a
    target it is a bit-vector term. *)
Theorem builder_steps_safe b : session b ->
  builder_ok b /\ (forall st, typed_step st -> step_outcome b (run_step st b)) /\
  match TermBuilder.finish b with
  | Ok q => well_formed q = true /\ arena q = b_arena b /\ assertions q = mjoin (frames b) /\
      assumptions q = b_assumptions b /\ command q = b_command b /\
      ((command q = Minimize \/ command q = Maximize) ->
       exists t w, target q = Some t /\ width_at (nodes (arena q)) t = Some w /\ legal w)
  | Err e => e = Invalid "query target" /\ b_target b = None /\
      (b_command b = Minimize \/ b_command b = Maximize)
  | Panic => False
  end.
Proof.
  intros Hb%session_ok. split; [done|]. split; [intros st Hst; by apply run_step_outcome|by apply finish_ok].
Qed.

(** C25: the flat vector of assertions with its vector of scope marks implements a
    stack of scopes: [push] opens an empty frame, [assert] and [assert_named]
    append to the innermost one, [pop] drops it and fails exactly on the base
    frame, no other step changes the stack, and the query's assertions are the
    frames in order. *)
Theorem builder_scopes_refine b st r b' : session b -> typed_step st -> run_step st b = (r, b') ->
  match r, scope_op st with
  | Ok _, Some op => scope_spec op (frames b) = Some (frames b')
  | _, None => frames b' = frames b
  | Err _, Some op => b' = b /\ (op = CloseScope -> scope_spec op (frames b) = None)
  | Panic, _ => False
  end /\ mjoin (frames b') = b_assertions b'.
Proof.
  intros Hs Hst E. apply session_ok in Hs as Hb. split; [|apply frames_join].
  destruct st as [c| | |t|name t|t|c t sg|c|v|v|name]; simpl scope_op; cbn iota.
  - pose proof (construct_outcome b c Hb Hst) as [_ Ho]. rewrite E in Ho.
    destruct r; by eapply construct_frames.
  - injection E as <- <-. simpl. f_equal. symmetry. by apply frames_push_builder.
  - pose proof (pop_frames _ _ _ Hb E). destruct r; [done| |done]. tauto.
  - pose proof (assert_frames None t _ _ _ _ Hb E) as H.
    pose proof (run_step_outcome b _ Hb Hst) as [_ Ho]. rewrite E in Ho. by destruct r.
  - pose proof (assert_frames (Some name) t _ _ _ _ Hb E) as H.
    pose proof (run_step_outcome b _ Hb Hst) as [_ Ho]. rewrite E in Ho. by destruct r.
  - pose proof (run_step_outcome b _ Hb Hst) as [_ Ho]. rewrite E in Ho. simpl in E.
    unfold TermBuilder.assume, expect_bool in E. rewrite checked_step in E.
    destruct (Arena.expect_bool _ _ _); injection E as <- <-; done.
  - pose proof (run_step_outcome b _ Hb Hst) as [_ Ho]. rewrite E in Ho. simpl in E.
    unfold TermBuilder.set_optimization in E. destruct (negb _); [unfold fail in E; by injection E as <- <-|].
    unfold expect_bv in E. rewrite checked_step in E.
    destruct (Arena.expect_bv _ _ _); injection E as <- <-; done.
  - by injection E as <- <-.
  - by injection E as <- <-.
  - by injection E as <- <-.
  - by injection E as <- <-.
Qed.

(** ** Witnesses: two levels of assertions over two variables *)

Definition sample_steps : list Step :=
  [Construct (BvVariable "x" 8 None); Construct (BvVariable "y" 8 None);
   Construct (Binary CAdd 0 1); Construct (Predicate CUlt 2 0); Assert 3; Push;
   Construct (Predicate CEq 0 1); AssertNamed "same" 4; Construct (Binary CMul 0 9)]%nat.

Definition sample_builder : Builder := run_steps sample_steps TermBuilder.new.

Lemma sample_session : session sample_builder.
Proof. apply session_run; [constructor|]. repeat constructor. Qed.

Lemma builder_steps_safe_witness :
  step_outcome sample_builder (run_step (Construct (Extract 4 9 2)) sample_builder) /\
  (run_step (Construct (Extract 4 9 2)) sample_builder).1 = Err (Invalid "BV extract") /\
  match TermBuilder.finish sample_builder with Ok q => well_formed q = true | _ => False end.
Proof.
  destruct (builder_steps_safe sample_builder sample_session) as (_ & Hs & H).
  split; [exact (Hs (Construct (Extract 4 9 2)) I)|]. split; [vm_compute; reflexivity|].
  assert (match TermBuilder.finish sample_builder with Ok _ => True | _ => False end) as E
    by (vm_compute; exact I).
  revert H E. generalize (TermBuilder.finish sample_builder). intros [q|e|] H E; [apply H|destruct E|destruct E].
Defined.

Lemma builder_scopes_refine_witness :
  frames sample_builder = [[mkAssertion 3 None]; [mkAssertion 4 (Some "same"%string)]] /\
  scope_spec CloseScope (frames sample_builder) = Some (frames (run_step Pop sample_builder).2).
Proof.
  split; [vm_compute; reflexivity|].
  assert ((run_step Pop sample_builder).1 = Ok tt) as E by (vm_compute; reflexivity).
  destruct (run_step Pop sample_builder) as [r b'] eqn:E2. cbn [fst snd] in *. subst r.
  exact (proj1 (builder_scopes_refine sample_builder Pop _ _ sample_session I E2)).
Defined.
