(* ===== verification/BuilderTheorems.v ===== *)
(** * What the term constructors compute

    For every constructor of [builder.rs]: in an arena that satisfies the
    invariant, on operands of the sorts it asks for, it terminates without a panic
    and returns a term whose value is SMT-LIB's result for every environment,
    whatever constants it folds and rewrites it applies; the arena only grows and
    keeps the invariant; the only failure left is running out of the 2^32 ids.
    This is [aspec]. *)
From stdpp Require Import sorting.
From S2P Require Import Prelude Bits Smt SmtFacts Bytes BytesFacts Ir Sem EvaluatorFacts.
From S2P Require Import BlastFacts Polynomial PolynomialFacts Builder BuilderSpec BuilderReads.
From S2P Require Import BuilderFacts BuilderArith BuilderStruct BuilderCompare.

#[local] Open Scope Z_scope.

(** The constructor [m], run in [s], makes a bit-vector of width [w] with the
    value [x], or a Bool with the value [p]. *)
Abbreviation makes_bv s m w x := (aspec s m (fun r s' => isbv s' r w x)).
Abbreviation makes_bool s m p := (aspec s m (fun r s' => isbool s' r p)).

(** C19: the arithmetic constructors are exact modulo [2^w].  Addition and
    multiplication flatten their operands, add up the coefficients of equal bases
    and fold constants; addition also turns disjoint sums into disjunctions and
    [x + (x << k)] into a product; multiplication pulls negations and shifts out.
    Division folds the cases of a zero, unit or absent divisor the way SMT-LIB
    defines them. *)
Theorem builder_arithmetic_correct s a b w x y : inv s -> isbv s a w x -> isbv s b w y ->
  makes_bv s (bv_neg a) w (fun env => bvneg w (x env)) /\
  makes_bv s (bv_add a b) w (fun env => bvadd w (x env) (y env)) /\
  makes_bv s (bv_sub a b) w (fun env => bvsub w (x env) (y env)) /\
  makes_bv s (bv_mul a b) w (fun env => bvmul w (x env) (y env)) /\
  makes_bv s (bv_udiv a b) w (fun env => bvudiv w (x env) (y env)) /\
  makes_bv s (bv_urem a b) w (fun env => bvurem (x env) (y env)) /\
  makes_bv s (bv_sdiv a b) w (fun env => bvsdiv w (x env) (y env)) /\
  makes_bv s (bv_srem a b) w (fun env => bvsrem w (x env) (y env)) /\
  makes_bv s (bv_smod a b) w (fun env => bvsmod w (x env) (y env)).
Proof.
  intros Hi Ha Hb. split_and!.
  - by apply bv_neg_spec.
  - by apply bv_add_spec.
  - by apply bv_sub_spec.
  - by apply bv_mul_spec.
  - by apply bv_udiv_spec.
  - by apply bv_urem_spec.
  - by apply bv_sdiv_spec.
  - by apply bv_srem_spec.
  - by apply bv_smod_spec.
Qed.

(** C20: the bitwise constructors and the shifts.  The rewrites cover absorbing and
    neutral constants, complements, absorption, operands whose possible bits are
    disjoint (by the bit mask analysis), and [x | (x << x)] through addition; shift
    amounts of the width or more give zero or copies of the sign, left shifts
    commute with negation and nested right shifts are put in the order of their
    amounts. *)
Theorem builder_bits_correct s a b w x y : inv s -> isbv s a w x -> isbv s b w y ->
  makes_bv s (bv_not a) w (fun env => bvnot w (x env)) /\
  makes_bv s (bv_and a b) w (fun env => Z.land (x env) (y env)) /\
  makes_bv s (bv_or a b) w (fun env => Z.lor (x env) (y env)) /\
  makes_bv s (bv_xor a b) w (fun env => Z.lxor (x env) (y env)) /\
  makes_bv s (bv_shl a b) w (fun env => bvshl w (x env) (y env)) /\
  makes_bv s (bv_lshr a b) w (fun env => bvlshr w (x env) (y env)) /\
  makes_bv s (bv_ashr a b) w (fun env => bvashr w (x env) (y env)).
Proof.
  intros Hi Ha Hb. split_and!.
  - by apply bv_not_spec.
  - by apply bv_and_spec.
  - by apply bv_or_spec.
  - by apply bv_xor_spec.
  - by apply bv_shl_spec.
  - by apply bv_lshr_spec.
  - by apply bv_ashr_spec.
Qed.

(** C21: the structural constructors.  Extraction looks through extractions and
    concatenations, splitting a range that spans both halves; concatenation merges
    adjacent extractions; extensions, repetition and rotations fold constants; the
    if-then-else and the selection (whose first true selector wins) choose. *)
Theorem builder_structure_correct s a b d w wb x y z c p cases high low extra count k :
  inv s -> isbv s a w x -> isbv s b wb y -> isbv s d w z -> isbool s c p -> cases_ok s w cases ->
  (low <= high < w)%nat -> legal (w + wb) -> legal (w + extra) -> (0 < count)%nat -> legal (w * count) ->
  makes_bv s (bv_extract a high low) (high - low + 1) (fun env => bvextract high low (x env)) /\
  makes_bv s (bv_concat a b) (w + wb) (fun env => bvconcat wb (x env) (y env)) /\
  makes_bv s (bv_zext a extra) (w + extra) x /\
  makes_bv s (bv_sext a extra) (w + extra) (fun env => bvsext w extra (x env)) /\
  makes_bv s (bv_repeat a count) (w * count) (fun env => bvrepeat w count (x env)) /\
  makes_bv s (bv_rotate_left a k) w (fun env => bvrotl w k (x env)) /\
  makes_bv s (bv_rotate_right a k) w (fun env => bvrotr w k (x env)) /\
  makes_bv s (bv_ite c a d) w (fun env => if p env then x env else z env) /\
  makes_bv s (bv_select cases d) w (fun env => sem_select (denote env (nodes s)) cases d).
Proof.
  intros Hi Ha Hb Hd Hc Hcases Hr Hw Hw2 Hcount Hw3. split_and!.
  - by eapply bv_extract_spec.
  - by apply bv_concat_spec.
  - by apply bv_zext_spec.
  - by apply bv_sext_spec.
  - by apply bv_repeat_spec.
  - by apply bv_rotate_left_spec.
  - by apply bv_rotate_right_spec.
  - by apply (bv_ite_spec s c a d w p).
  - by eapply bv_select_spec.
Qed.

(** C22: equality and the comparisons decide SMT-LIB's relations.  Equality decides
    complements, one-bit conditionals and extensions against constants, and
    polynomial identities; an unsigned comparison of a zero extension with a
    constant is decided or moved to the narrow operand, strict or not and on either
    side; [bv_ugt] and the like swap their operands; the overflow predicates say
    whether the exact result leaves the range of the width; and the Boolean constructors
    compute the connectives, through constants, equal operands, complements and double
    negation. *)
Theorem builder_predicates_correct s a b w x y c d e p q r : inv s -> isbv s a w x -> isbv s b w y ->
  isbool s c p -> isbool s d q -> isbool s e r ->
  (makes_bool s (bv_eq a b) (fun env => x env =? y env) /\
  makes_bool s (bv_ne a b) (fun env => negb (x env =? y env)) /\
  makes_bool s (bv_ult a b) (fun env => bvult (x env) (y env)) /\
  makes_bool s (bv_ule a b) (fun env => bvule (x env) (y env)) /\
  makes_bool s (bv_ugt a b) (fun env => bvult (y env) (x env)) /\
  makes_bool s (bv_uge a b) (fun env => bvule (y env) (x env)) /\
  makes_bool s (bv_slt a b) (fun env => bvslt w (x env) (y env)) /\
  makes_bool s (bv_sle a b) (fun env => bvsle w (x env) (y env)) /\
  makes_bool s (bv_sgt a b) (fun env => bvslt w (y env) (x env)) /\
  makes_bool s (bv_sge a b) (fun env => bvsle w (y env) (x env)) /\
  makes_bool s (uadd_ovf a b) (fun env => bvuaddo w (x env) (y env)) /\
  makes_bool s (sadd_ovf a b) (fun env => bvsaddo w (x env) (y env)) /\
  makes_bool s (usub_ovf a b) (fun env => bvusubo (x env) (y env)) /\
  makes_bool s (ssub_ovf a b) (fun env => bvssubo w (x env) (y env)) /\
  makes_bool s (umul_ovf a b) (fun env => bvumulo w (x env) (y env)) /\
  makes_bool s (smul_ovf a b) (fun env => bvsmulo w (x env) (y env)) /\
  makes_bool s (sdiv_ovf a b) (fun env => bvsdivo w (x env) (y env)) /\
  makes_bool s (neg_ovf a) (fun env => bvnego w (x env))) /\
  (makes_bool s (bool_not c) (fun env => negb (p env)) /\
   makes_bool s (bool_and c d) (fun env => p env && q env) /\
   makes_bool s (bool_or c d) (fun env => p env || q env) /\
   makes_bool s (bool_implies c d) (fun env => implb (p env) (q env)) /\
   makes_bool s (bool_eq c d) (fun env => eqb (p env) (q env)) /\
   makes_bool s (bool_xor c d) (fun env => xorb (p env) (q env)) /\
   makes_bool s (bool_ite e c d) (fun env => if r env then p env else q env)).
Proof.
  intros Hi Ha Hb Hc Hd He. split; [|split_and!;
    [by apply bool_not_spec|by apply bool_and_spec|by apply bool_or_spec|by apply bool_implies_spec
    |by apply bool_eq_spec|by apply bool_xor_spec|by apply bool_ite_spec]]. split_and!.
  - by apply (bv_eq_spec s a b w).
  - by apply (bv_ne_spec s a b w).
  - apply (bv_cmp_spec s a b w); try done. constructor.
  - apply (bv_cmp_spec s a b w); try done. constructor.
  - apply (bv_cmp_spec s b a w y x _ bvult); try done. constructor.
  - apply (bv_cmp_spec s b a w y x _ bvule); try done. constructor.
  - apply (bv_cmp_spec s a b w); try done. constructor.
  - apply (bv_cmp_spec s a b w); try done. constructor.
  - apply (bv_cmp_spec s b a w y x _ (bvslt w)); try done. constructor.
  - apply (bv_cmp_spec s b a w y x _ (bvsle w)); try done. constructor.
  - by apply uadd_ovf_spec.
  - by apply sadd_ovf_spec.
  - by eapply usub_ovf_spec.
  - by apply ssub_ovf_spec.
  - by apply umul_ovf_spec.
  - by apply smul_ovf_spec.
  - by apply sdiv_ovf_spec.
  - by eapply neg_ovf_spec.
Qed.

(** C23: the polynomial decision procedure for equality is right, total and complete for
    what it computes.  Translating an operand spends at most the budget it is given (512
    visits for both), and the polynomial it returns, if it does not give up, is a normal form
    of the term: monomials with their factors in order, strictly increasing, canonical
    non-zero coefficients of the ring of the width, and a sum that is, in every
    environment, the term's value modulo [2^w].  The comparison returns, and a verdict
    it gives, true or false, holds of the two values in every environment.  When both
    operands, no wider than 128 bits, have been translated, the verdict is true exactly when
    the two polynomials have the same coefficients, and false exactly when
    the constant coefficients are the only ones that differ. *)
Theorem polynomial_equality_correct s a b w x y : inv s -> isbv s a w x -> isbv s b w y ->
  (forall budget, exists o rest,
     polynomial s (S budget) a w budget = (Ok o, rest) /\ (rest <= budget)%nat /\
     forall p, o = Some p -> poly_ok w p /\ forall env, eqm w (psum (fun t => val s t env) p) (x env)) /\
  exists verdict, polynomial_equality s a b = Ok verdict /\
    (forall v, verdict = Some v -> forall env, (x env =? y env) = v) /\
    forall p q left right, (w <= 128)%nat ->
      polynomial s (S polynomial_budget) a w polynomial_budget = (Ok (Some p), left) ->
      polynomial s (S polynomial_budget) b w left = (Ok (Some q), right) ->
      (verdict = Some true <-> forall m, coefficient m p = coefficient m q) /\
      (verdict = Some false <->
         coefficient [] p <> coefficient [] q /\ forall m, m <> [] -> coefficient m p = coefficient m q).
Proof.
  intros Hi Ha Hb. split.
  { intros budget. destruct (polynomial_spec s Hi (S budget) a w x budget Ha) as (o & rest & E & Hle & Ho); [lia|].
    exists o, rest. split_and!; [done..|]. intros p ->. exact Ho. }
  destruct (polynomial_equality_read s Hi a b w x y Ha Hb) as (verdict & E & Hv). exists verdict. split; [done|].
  split; [by intros v ->|]. intros p q left right Hw Ep Eq.
  destruct (polynomial_spec s Hi (S polynomial_budget) a w x polynomial_budget Ha) as (op & rest & Ep' & Hle & Hp); [lia|].
  rewrite Ep in Ep'. injection Ep' as <- <-. destruct Hp as [Hp _].
  destruct (polynomial_spec s Hi (S polynomial_budget) b w y left Hb) as (oq & rest & Eq' & _ & Hq); [lia|].
  rewrite Eq in Eq'. injection Eq' as <- <-. destruct Hq as [Hq _].
  pose proof (compared_exactly w p q Hp Hq) as Hc. cbv zeta in Hc. revert E. unfold polynomial_equality.
  rewrite (expect_same_bv_read _ _ _ _ _ _ _ Ha Hb). cbn [mbind res_bind].
  destruct (Nat.ltb_spec 128 w); [lia|]. unfold or_none, mbind, M_bind. rewrite Ep, Eq. simpl fst. intros [= <-]. exact Hc.
Qed.

(** ** Witnesses: an arena with two byte variables and a Bool variable *)

Definition declare : M Arena TermId :=
  bv_var "x" 8 ;; bv_var "y" 8 ;; bool_var "p".
Definition declared_arena : Arena := (declare Arena.new).2.

Lemma declared_inv : inv declared_arena.
Proof.
  assert (aspec Arena.new declare (fun _ _ => True)) as H.
  { assert (legal 8) by (split; [lia|unfold MAX_BV_WIDTH; lia]). unfold declare.
    apply (aspec_bind _ _ _ _ _ (bv_var_external_spec Arena.new "x" 8 None inv_new H)).
    intros r1 s1 _ H1 _. apply (aspec_bind _ _ _ _ _ (bv_var_external_spec s1 "y" 8 None H1 H)).
    intros r2 s2 _ H2 _. eapply aspec_mono; [exact (bv_var_const_bool_spec s2 "p" None H2)|done]. }
  unfold aspec in H. unfold declared_arena. destruct (declare Arena.new) as [[r|e|] s]; [apply H..|destruct H].
Qed.

Lemma declared_x : isbv declared_arena 0 8 (val declared_arena 0).
Proof. apply isbv_val. vm_compute. reflexivity. Qed.
Lemma declared_y : isbv declared_arena 1 8 (val declared_arena 1).
Proof. apply isbv_val. vm_compute. reflexivity. Qed.
Lemma declared_p : isbool declared_arena 2 (truth declared_arena 2).
Proof. split; [vm_compute; reflexivity|done]. Qed.

Lemma builder_arithmetic_correct_witness :
  makes_bv declared_arena (bv_mul 0 1) 8 (fun env => bvmul 8 (val declared_arena 0 env) (val declared_arena 1 env)).
Proof.
  destruct (builder_arithmetic_correct _ 0 1 8 _ _ declared_inv declared_x declared_y) as (_ & _ & _ & H & _). exact H.
Defined.

Lemma builder_bits_correct_witness :
  makes_bv declared_arena (bv_lshr 0 1) 8 (fun env => bvlshr 8 (val declared_arena 0 env) (val declared_arena 1 env)).
Proof.
  destruct (builder_bits_correct _ 0 1 8 _ _ declared_inv declared_x declared_y) as (_ & _ & _ & _ & _ & H & _). exact H.
Defined.

Lemma builder_structure_correct_witness :
  makes_bv declared_arena (bv_extract 0 6 3) 4 (fun env => bvextract 6 3 (val declared_arena 0 env)).
Proof.
  assert (cases_ok declared_arena 8 [(2, 1)]%nat) as Hc
    by (constructor; [split; [exact declared_p|exact declared_y]|constructor]).
  assert (legal 16 /\ legal 12) as [H16 H12] by (unfold MAX_BV_WIDTH; lia).
  assert (3 <= 6 < 8 /\ 0 < 2)%nat as [Hr H2] by lia.
  exact (proj1 (builder_structure_correct declared_arena 0 1 1 8 8 _ _ _ 2 _ [(2, 1)]%nat 6 3 4 2 5
    declared_inv declared_x declared_y declared_y declared_p Hc Hr H16 H12 H2 H16)).
Defined.

Lemma builder_predicates_correct_witness :
  makes_bool declared_arena (bv_sle 0 1) (fun env => bvsle 8 (val declared_arena 0 env) (val declared_arena 1 env)) /\
  makes_bool declared_arena (bool_xor 2 2) (fun env => xorb (truth declared_arena 2 env) (truth declared_arena 2 env)).
Proof.
  destruct (builder_predicates_correct _ 0 1 8 _ _ 2 2 2 _ _ _ declared_inv declared_x declared_y
    declared_p declared_p declared_p) as ((_ & _ & _ & _ & _ & _ & _ & H & _) & _ & _ & _ & _ & _ & H' & _).
  split; [exact H|exact H'].
Defined.

Lemma polynomial_equality_correct_witness :
  polynomial_equality declared_arena 0 0 = Ok (Some true) /\
  forall env, (val declared_arena 0 env =? val declared_arena 0 env) = true.
Proof.
  assert (polynomial_equality declared_arena 0 0 = Ok (Some true)) as E by (vm_compute; reflexivity).
  split; [exact E|].
  destruct (polynomial_equality_correct _ 0 0 8 _ _ declared_inv declared_x declared_x) as (_ & v & Ev & H & _).
  rewrite E in Ev. injection Ev as <-. exact (H true eq_refl).
Defined.
