(* ===== verification/BlastNode.v ===== *)
(** * Translating one node

    [holds ι g bv v]: the gates of a translated term hold its value.  Every
    translation of a node whose operands are translated is total and holds the
    value the semantics gives the node. *)
From S2P Require Import Prelude Bits Smt SmtFacts Bytes BytesFacts Ir Sem Config Gates GatesFacts.
From S2P Require Import Circuits CircuitsFacts Blast BlastFacts.

#[local] Open Scope Z_scope.

Section node.
Context (ι : nat -> bool).

Definition holds (g : GateArena) (bv : BlastedValue) (v : value) : Prop :=
  match bv, v with
  | BBool x, VBool b => bit ι g x b
  | BBv xs, VBv w z => num ι g xs w z
  | _, _ => False
  end.

Lemma holds_ext g g' bv v : ext g g' -> holds g bv v -> holds g' bv v.
Proof. intros He. destruct bv, v; simpl; [by apply bit_ext|done|done|by apply num_ext]. Qed.

(** A step that adds gates and nothing else. *)
Definition bspec {A} (ctx : BlastContext) (m : M BlastContext A) (Q : A -> GateArena -> Prop) : Prop :=
  wf (bc_gates ctx) ->
  wp m ctx (fun a ctx' =>
    (ext (bc_gates ctx) (bc_gates ctx') /\
     input_count (bc_gates ctx') = input_count (bc_gates ctx)) /\ wf (bc_gates ctx') /\
    bc_values ctx' = bc_values ctx /\ bc_variables ctx' = bc_variables ctx /\
    Q a (bc_gates ctx')).

Lemma bspec_ret {A} ctx (a : A) (Q : A -> GateArena -> Prop) :
  Q a (bc_gates ctx) -> bspec ctx (mret a) Q.
Proof. intros H Hwf. split_and!; done. Qed.

Lemma bspec_gates {A} ctx (m : M GateArena A) Q :
  gspec (bc_gates ctx) m Q -> bspec ctx (on_gates m) Q.
Proof.
  intros H Hwf. specialize (H Hwf). unfold wp, on_gates in *.
  destruct (m (bc_gates ctx)) as [[a|e|] g']; try done. simpl. by destruct H as (? & ? & ?).
Qed.

Lemma bspec_bind {A B} ctx (m : M BlastContext A) (k : A -> M BlastContext B) Q R :
  bspec ctx m Q ->
  (forall a ctx', ext (bc_gates ctx) (bc_gates ctx') -> bc_values ctx' = bc_values ctx ->
     Q a (bc_gates ctx') -> bspec ctx' (k a) R) ->
  bspec ctx (m ≫= k) R.
Proof.
  intros Hm Hk Hwf. apply wp_bind. eapply wp_mono; [by apply Hm|].
  intros a ctx' ([He Hn] & Hwf' & Hv & Hx & HQ). eapply wp_mono; [by apply (Hk a ctx' He Hv HQ)|].
  intros b ctx'' ([He' Hn'] & Hwf'' & Hv' & Hx' & HR). split_and!; try congruence.
  by eapply ext_trans.
Qed.

(** Reads of operands. *)
Lemma bspec_bv {A} ctx x xs (k : list GateId -> M BlastContext A) R :
  bc_value ctx x = Ok (BBv xs) -> bspec ctx (k xs) R -> bspec ctx (bc_bv x ≫= k) R.
Proof.
  intros E H Hwf. unfold bc_bv, wp, mbind, M_bind. rewrite E. by apply H.
Qed.

Lemma bspec_bool {A} ctx x b (k : GateId -> M BlastContext A) R :
  bc_value ctx x = Ok (BBool b) -> bspec ctx (k b) R -> bspec ctx (bc_bool x ≫= k) R.
Proof.
  intros E H Hwf. unfold bc_bool, wp, mbind, M_bind. rewrite E. by apply H.
Qed.

Lemma bspec_lift {A B} ctx (r : res A) a (k : A -> M BlastContext B) R :
  r = Ok a -> bspec ctx (k a) R -> bspec ctx (lift r ≫= k) R.
Proof. by intros ->. Qed.

Lemma bspec_num ctx (m : M GateArena (list GateId)) w z :
  gspec (bc_gates ctx) m (fun r g => num ι g r w z) ->
  bspec ctx (r ← on_gates m; mret (BBv r)) (fun v g => holds g v (VBv w z)).
Proof.
  intros H. eapply bspec_bind; [by apply bspec_gates|]. intros r ctx' _ _ Hr. by apply bspec_ret.
Qed.

Lemma bspec_bit ctx (m : M GateArena GateId) b :
  gspec (bc_gates ctx) m (fun r g => bit ι g r b) ->
  bspec ctx (r ← on_gates m; mret (BBool r)) (fun v g => holds g v (VBool b)).
Proof.
  intros H. eapply bspec_bind; [by apply bspec_gates|]. intros r ctx' _ _ Hr. by apply bspec_ret.
Qed.

(** ** Operands *)

Context (q : Query) (env : Env) (prior : list Node).
Hypothesis Hwt : well_typed prior = true.
Let vals := denote env prior.
Hypothesis Hprior : prior `prefix_of` nodes (arena q).

Definition translated (ctx : BlastContext) (x : TermId) : Prop :=
  exists bv v, bc_values ctx !! x = Some (Some bv) /\ vals !! x = Some v /\ holds (bc_gates ctx) bv v.

Lemma translated_ext ctx ctx' x : ext (bc_gates ctx) (bc_gates ctx') ->
  bc_values ctx' = bc_values ctx -> translated ctx x -> translated ctx' x.
Proof.
  intros He Hv (bv & v & E & El & H). exists bv, v. rewrite Hv.
  split_and!; try done. by eapply holds_ext.
Qed.

Lemma operand_bv ctx x w : translated ctx x -> width_at prior x = Some w ->
  exists xs, bc_value ctx x = Ok (BBv xs) /\ num ι (bc_gates ctx) xs w (sem_bv vals x) /\
    sem_w vals x = w.
Proof.
  intros (bv & v & E & El & H) Hw.
  destruct (vals_ok_bv _ _ _ _ (denote_ok env prior Hwt) Hw) as (Ew & _ & Hl).
  assert (v = VBv w (sem_bv vals x)) as -> by (apply (inj Some); by rewrite <- El).
  destruct bv as [|xs]; [done|]. exists xs. unfold bc_value. by rewrite E.
Qed.

Lemma operand_bool ctx x : translated ctx x -> bool_at prior x = true ->
  exists g, bc_value ctx x = Ok (BBool g) /\ bit ι (bc_gates ctx) g (sem_bool vals x).
Proof.
  intros (bv & v & E & El & H) Hb.
  pose proof (vals_ok_bool _ _ _ (denote_ok env prior Hwt) Hb) as Hl.
  assert (v = VBool (sem_bool vals x)) as -> by (apply (inj Some); by rewrite <- El).
  destruct bv as [g|]; [|done]. exists g. unfold bc_value. by rewrite E.
Qed.

(** ** Selection *)

Lemma blast_select_spec cases w : forall ctx result (done_cases : list (TermId * TermId)) d,
  Forall (fun c => translated ctx c.1 /\ translated ctx c.2) cases ->
  Forall (fun c => bool_at prior c.1 = true /\ width_at prior c.2 = Some w) cases ->
  num ι (bc_gates ctx) result w (sem_select vals done_cases d) ->
  bspec ctx (blast_select cases result) (fun r g =>
    num ι g r w (sem_select vals (reverse cases ++ done_cases) d)).
Proof.
  induction cases as [|[s v] cases IH]; intros ctx result dc d Ht Hc Hres.
  { by apply bspec_ret. }
  apply Forall_cons in Ht as [[Hs Hv] Ht]. apply Forall_cons in Hc as [[Hbs Hwv] Hc].
  simpl in Hs, Hv, Hbs, Hwv. cbn [blast_select].
  destruct (operand_bool _ _ Hs Hbs) as (gs & Es & Hgs).
  destruct (operand_bv _ _ _ Hv Hwv) as (xs & Ev & Hxs & _).
  eapply bspec_bool; [done|]. eapply bspec_bv; [done|].
  eapply bspec_bind; [by apply bspec_gates, (mux_bits_spec ι _ gs xs result)|]. cbv beta.
  intros r ctx' He Hvals Hr. rewrite reverse_cons, <- app_assoc. apply IH; [|done|done].
  eapply Forall_impl; [exact Ht|]. intros c [? ?]. split; by eapply translated_ext.
Qed.

(** ** Constants *)

Lemma const_value_spec x w : width_at prior x = Some w ->
  exists r, bv_const_value q x = Ok r /\
    match r with
    | Some (_, bytes) => bv_repr w bytes (sem_bv vals x)
    | None => True
    end.
Proof.
  intros Hw. unfold bv_const_value, Arena.node. unfold width_at in Hw.
  destruct (prior !! x) as [n|] eqn:E; [|done]. simpl in Hw.
  rewrite (prefix_lookup_Some _ _ _ _ E Hprior). simpl. eexists; split; [done|].
  destruct (kind n) as [w' bytes| | | | | | | | | | | | | | | | | | | | | | | | | | | | | | | | | | | | | | | | | | | | | | | ] eqn:Ek; try done.
  pose proof (well_typed_lookup _ _ _ Hwt E) as [Hs%bool_decide_eq_true _]%andb_true_iff.
  rewrite Ek in Hs. cbn [sort_of_kind] in Hs. apply when_Some in Hs as [Hc Hs].
  rewrite <- Hs in Hw. injection Hw as ->. unfold sem_bv, vals.
  rewrite (denote_lookup _ _ _ _ E), Ek. cbn [sem_kind]. by apply canonical_spec.
Qed.

Lemma bvmul_swap w x y : bvmul w x y = bvmul w y x.
Proof. unfold bvmul. f_equal. lia. Qed.

Lemma blast_mul_spec ctx a b w : (0 < w)%nat ->
  width_at prior a = Some w -> width_at prior b = Some w -> translated ctx a -> translated ctx b ->
  bspec ctx (blast_mul q a b) (fun v g => holds g v (VBv w (bvmul w (sem_bv vals a) (sem_bv vals b)))).
Proof.
  intros Hw0 Ha Hb Ta Tb.
  destruct (operand_bv _ _ _ Ta Ha) as (xs & Ea & Hxs & _).
  destruct (operand_bv _ _ _ Tb Hb) as (ys & Eb & Hys & _).
  destruct (const_value_spec a w Ha) as (ra & Era & Hra).
  destruct (const_value_spec b w Hb) as (rb & Erb & Hrb).
  unfold blast_mul. eapply bspec_lift; [done|]. destruct ra as [[? bytes]|].
  - eapply bspec_bv; [done|]. destruct (use_constant_multiplier _ _); [|eapply bspec_bv; [done|]]; apply bspec_num.
    + rewrite bvmul_swap. by apply mul_const_spec.
    + by apply mul_spec.
  - eapply bspec_lift; [done|]. destruct rb as [[? bytes]|].
    + eapply bspec_bv; [done|]. destruct (use_constant_multiplier _ _); [|eapply bspec_bv; [done|]]; apply bspec_num.
      * by apply mul_const_spec.
      * by apply mul_spec.
    + eapply bspec_bv; [done|]. eapply bspec_bv; [done|]. apply bspec_num. by apply mul_spec.
Qed.

(** ** Programs over operands *)

Lemma bv1_spec ctx x f w w' z : width_at prior x = Some w -> translated ctx x ->
  (forall xs, num ι (bc_gates ctx) xs w (sem_bv vals x) ->
     gspec (bc_gates ctx) (f xs) (fun r g => num ι g r w' z)) ->
  bspec ctx (bv1 x f) (fun v g => holds g v (VBv w' z)).
Proof.
  intros Hw Ht Hf. destruct (operand_bv _ _ _ Ht Hw) as (xs & E & Hxs & _).
  eapply bspec_bv; [done|]. by apply bspec_num, Hf.
Qed.

Lemma bv2_spec ctx a b f w w2 w' z : width_at prior a = Some w -> width_at prior b = Some w2 ->
  translated ctx a -> translated ctx b ->
  (forall xs ys, num ι (bc_gates ctx) xs w (sem_bv vals a) -> num ι (bc_gates ctx) ys w2 (sem_bv vals b) ->
     gspec (bc_gates ctx) (f xs ys) (fun r g => num ι g r w' z)) ->
  bspec ctx (bv2 a b f) (fun v g => holds g v (VBv w' z)).
Proof.
  intros Hwa Hwb Ta Tb Hf. destruct (operand_bv _ _ _ Ta Hwa) as (xs & Ea & Hxs & _).
  destruct (operand_bv _ _ _ Tb Hwb) as (ys & Eb & Hys & _).
  do 2 (eapply bspec_bv; [done|]). by apply bspec_num, Hf.
Qed.

Lemma pred1_spec ctx x f w b : width_at prior x = Some w -> translated ctx x ->
  (forall xs, num ι (bc_gates ctx) xs w (sem_bv vals x) ->
     gspec (bc_gates ctx) (f xs) (fun r g => bit ι g r b)) ->
  bspec ctx (pred1 x f) (fun v g => holds g v (VBool b)).
Proof.
  intros Hw Ht Hf. destruct (operand_bv _ _ _ Ht Hw) as (xs & E & Hxs & _).
  eapply bspec_bv; [done|]. by apply bspec_bit, Hf.
Qed.

Lemma pred2_spec ctx x y f w b : width_at prior x = Some w -> width_at prior y = Some w ->
  translated ctx x -> translated ctx y ->
  (forall xs ys, num ι (bc_gates ctx) xs w (sem_bv vals x) -> num ι (bc_gates ctx) ys w (sem_bv vals y) ->
     gspec (bc_gates ctx) (f xs ys) (fun r g => bit ι g r b)) ->
  bspec ctx (pred2 x y f) (fun v g => holds g v (VBool b)).
Proof.
  intros Hwx Hwy Tx Ty Hf. destruct (operand_bv _ _ _ Tx Hwx) as (xs & Ex & Hxs & _).
  destruct (operand_bv _ _ _ Ty Hwy) as (ys & Ey & Hys & _).
  do 2 (eapply bspec_bv; [done|]). by apply bspec_bit, Hf.
Qed.

Lemma bool1_spec ctx x f b : bool_at prior x = true -> translated ctx x ->
  (forall v, bit ι (bc_gates ctx) v (sem_bool vals x) ->
     gspec (bc_gates ctx) (f v) (fun r g => bit ι g r b)) ->
  bspec ctx (bool1 x f) (fun v g => holds g v (VBool b)).
Proof.
  intros Hx Ht Hf. destruct (operand_bool _ _ Ht Hx) as (v & E & Hv).
  eapply bspec_bool; [done|]. by apply bspec_bit, Hf.
Qed.

Lemma bool2_spec ctx x y f b : bool_at prior x = true -> bool_at prior y = true ->
  translated ctx x -> translated ctx y ->
  (forall u v, bit ι (bc_gates ctx) u (sem_bool vals x) -> bit ι (bc_gates ctx) v (sem_bool vals y) ->
     gspec (bc_gates ctx) (f u v) (fun r g => bit ι g r b)) ->
  bspec ctx (bool2 x y f) (fun v g => holds g v (VBool b)).
Proof.
  intros Hx Hy Tx Ty Hf. destruct (operand_bool _ _ Tx Hx) as (u & Ex & Hu).
  destruct (operand_bool _ _ Ty Hy) as (v & Ey & Hv).
  do 2 (eapply bspec_bool; [done|]). by apply bspec_bit, Hf.
Qed.

Lemma gspec_pair_fst g (m : M GateArena (list GateId * list GateId)) w z Q :
  gspec g m (fun qr g' => num ι g' qr.1 w z /\ Q qr g') ->
  gspec g ('(quot, _) ← m; mret quot) (fun r g' => num ι g' r w z).
Proof.
  intros H. eapply gspec_bind; [exact H|]. intros [a b] g' _ _ [Hz _]. by apply gspec_ret.
Qed.

Lemma gspec_pair_snd g (m : M GateArena (list GateId * list GateId)) w z Q :
  gspec g m (fun qr g' => Q qr g' /\ num ι g' qr.2 w z) ->
  gspec g ('(_, rem) ← m; mret rem) (fun r g' => num ι g' r w z).
Proof.
  intros H. eapply gspec_bind; [exact H|]. intros [a b] g' _ _ [_ Hz]. by apply gspec_ret.
Qed.

Lemma gspec_of_res g (r : res (list GateId)) w z :
  (exists l, r = Ok l /\ num ι g l w z) -> gspec g (lift r) (fun l g' => num ι g' l w z).
Proof. intros (l & -> & H) Hwf. split_and!; try done; apply ext_refl. Qed.

Lemma width_sem x w : width_at prior x = Some w -> sem_w vals x = w.
Proof. intros H. by destruct (vals_ok_bv _ _ _ _ (denote_ok env prior Hwt) H) as (? & _). Qed.

Lemma legal_usize w : legal w -> Z.of_nat w <= usize_max.
Proof. unfold MAX_BV_WIDTH, usize_max. lia. Qed.

(** Operand typing facts in the context, with legality of each width. *)
Ltac widths :=
  typing_shape;
  repeat match goal with
  | H : width_at prior ?x = Some ?w |- _ =>
      lazymatch goal with
      | _ : sem_w vals x = w |- _ => fail
      | _ => pose proof (width_sem x w H); pose proof (width_legal _ _ _ Hwt H)
      end
  end.

Ltac children H :=
  repeat match type of H with
  | Forall _ (_ :: _) => let H1 := fresh "Ht" in apply Forall_cons in H as [H1 H]
  end.

Definition is_leaf (k : NodeKind) : bool :=
  match k with BvConst _ _ | BvVar _ _ _ | BoolConst _ | BoolVar _ _ => true | _ => false end.

Ltac pred2_with lem :=
  eapply pred2_spec; [eassumption|eassumption|done|done|]; intros; eapply lem; try eassumption; lia.

Lemma blast_bool_spec ctx i k :
  sort_of_kind prior k = Some SBool -> is_leaf k = false ->
  Forall (translated ctx) (push_children k) ->
  bspec ctx (blast_bool k) (fun v g => holds g v (sem_kind env i vals k)).
Proof.
  intros Hs Hl Hc. destruct k; try discriminate Hl;
    cbn [sort_of_kind push_children blast_bool sem_kind] in *; widths; try discriminate; children Hc;
    repeat match goal with H : sem_w vals _ = _ |- _ => rewrite H; clear H end.
  all: try (eapply bool1_spec; [done|done|]; intros; by apply not_spec).
  all: try (eapply bool2_spec; [done|done|done|done|]; intros; by apply and_spec).
  all: try (eapply bool2_spec; [done|done|done|done|]; intros; by apply or_spec).
  all: try (eapply bool2_spec; [done|done|done|done|]; intros; by apply implies_spec).
  all: try (eapply bool2_spec; [done|done|done|done|]; intros; by apply xnor_spec).
  all: try (eapply pred1_spec; [done|done|]; intros; apply neg_overflow_spec; (done || lia)).
  all: try first [pred2_with eq_bits_spec | pred2_with usub_overflow_spec | pred2_with ult_spec
    | pred2_with ule_spec | pred2_with slt_spec | pred2_with sle_spec
    | pred2_with uadd_overflow_spec | pred2_with sadd_overflow_spec | pred2_with ssub_overflow_spec
    | pred2_with umul_overflow_spec | pred2_with smul_overflow_spec | pred2_with sdiv_overflow_spec].
  destruct (operand_bool ctx cond) as (c & Ec & Hcond); [done..|].
  destruct (operand_bool ctx then_value) as (t & Et & Hthen); [done..|].
  destruct (operand_bool ctx else_value) as (e & Ee & Helse); [done..|].
  do 3 (eapply bspec_bool; [done|]). by apply bspec_bit, mux_spec.
Qed.

Ltac bv2_with lem :=
  eapply bv2_spec; [eassumption|eassumption|done|done|]; intros; eapply lem; first [eassumption | lia | by apply legal_usize].

Lemma blast_bv_spec ctx i k w :
  sort_of_kind prior k = Some (SBv w) -> legal w -> is_leaf k = false ->
  Forall (translated ctx) (push_children k) ->
  bspec ctx (blast_bv q k) (fun v g => holds g v (sem_kind env i vals k)).
Proof.
  intros Hs Hlegal Hl Hc. destruct k; try discriminate Hl;
    cbn [sort_of_kind push_children blast_bv sem_kind] in *; widths; try discriminate; children Hc;
    repeat match goal with H : sem_w vals _ = _ |- _ => rewrite H; clear H end.
  all: try first [bv2_with bitwise_and_spec | bv2_with bitwise_or_spec | bv2_with bitwise_xor_spec
    | bv2_with add_spec | bv2_with sub_spec | bv2_with sdiv_spec | bv2_with srem_spec
    | bv2_with smod_spec | bv2_with shl_spec | bv2_with lshr_spec | bv2_with ashr_spec].
  - eapply bv1_spec; [done..|]. intros. by apply bitwise_not_spec.
  - eapply bv1_spec; [done..|]. intros. by apply neg_spec.
  - apply blast_mul_spec; (done || lia).
  - eapply bv2_spec; [done..|]. intros xs ys Hx Hy. eapply gspec_pair_fst, udiv_urem_spec; (done || lia).
  - eapply bv2_spec; [done..|]. intros xs ys Hx Hy. eapply gspec_pair_snd, udiv_urem_spec; (done || lia).
  - eapply bv1_spec; [done..|]. intros xs Hx. eapply gspec_of_res, extract_spec; [done|].
    match goal with H : (_ <=? _)%nat = true |- _ => apply Nat.leb_le in H end.
    match goal with H : (_ <? _)%nat = true |- _ => apply Nat.ltb_lt in H end. lia.
  - eapply bv2_spec; [done..|]. intros xs ys Hx Hy. by apply gspec_ret, concat_spec.
  - eapply bv1_spec; [done..|]. intros xs Hx. get_wf Hwf. by apply gspec_gets_ret, zext_spec.
  - eapply bv1_spec; [done..|]. intros xs Hx. eapply gspec_of_res, sext_spec; (done || lia).
  - eapply bv1_spec; [done..|]. intros xs Hx. by apply gspec_ret, repeat_spec.
  - eapply bv1_spec; [done..|]. intros xs Hx. eapply gspec_of_res, rotate_left_spec; (done || lia).
  - eapply bv1_spec; [done..|]. intros xs Hx. eapply gspec_of_res, rotate_right_spec; (done || lia).
  - destruct (operand_bool ctx cond) as (c & Ec & Hcond); [done..|].
    destruct (operand_bv ctx then_value n) as (t & Et & Hthen & _); [done..|].
    destruct (operand_bv ctx else_value n) as (e & Ee & Helse & _); [done..|].
    eapply bspec_bool; [done|]. do 2 (eapply bspec_bv; [done|]). by apply bspec_num, mux_bits_spec.
  - destruct (operand_bv ctx default n) as (d & Ed & Hdef & _); [done..|].
    eapply bspec_bv; [done|].
    assert (Forall (fun c => (translated ctx c.1 /\ translated ctx c.2) /\
        bool_at prior c.1 = true /\ width_at prior c.2 = Some n) cases) as Hcases.
    { match goal with H : forallb _ cases = true |- _ => revert H end. revert Hc.
      clear. induction cases as [|[s v] cases IH]; [constructor|]. simpl.
      intros Hc [[? ?%bool_decide_eq_true]%andb_true_iff ?]%andb_true_iff.
      apply Forall_cons in Hc as [? Hc]. apply Forall_cons in Hc as [? Hc].
      constructor; auto. }
    apply Forall_and in Hcases as [Ht1 Ht2].
    eapply bspec_bind.
    + apply (blast_select_spec (reverse cases) n ctx d [] default); [by apply Forall_reverse..|done].
    + cbv beta. intros r ctx' _ _ Hr. rewrite reverse_involutive, app_nil_r in Hr. by apply bspec_ret.
Qed.

Lemma blast_kind_spec ctx i id k s :
  sort_of_kind prior k = Some s -> valid_sort s = true -> is_leaf k = false ->
  Forall (translated ctx) (push_children k) ->
  bspec ctx (blast_kind q id k) (fun v g => holds g v (sem_kind env i vals k)).
Proof.
  intros Hs Hv Hl Hc.
  assert (forall w, s = SBv w -> legal w) as Hlegal by (intros w ->; by apply valid_sort_bv).
  destruct k; try discriminate Hl; cbn [blast_kind];
    first [ by apply (blast_bool_spec ctx i); [assert (s = SBool) as ->
              by (cbn [sort_of_kind] in Hs; typing_shape; done)| |]
          | destruct s as [|w];
            [exfalso; cbn [sort_of_kind] in Hs; typing_shape; discriminate
            |by apply (blast_bv_spec ctx i _ w); [|apply Hlegal| |]] ].
Qed.
End node.
