(* ===== verification/BlastQuery.v ===== *)
(** * The blasted query

    The loop over the arena keeps two invariants.  [shape]: the variables'
    inputs are numbered consecutively, so every input assignment describes one
    environment and every environment comes from one.  [translates]: under an
    environment that agrees with the inputs, every translated node's gates hold
    its value.  Together they give [blast_post], the contract of
    [blast_query_with_limits]. *)
From S2P Require Import Prelude Bits Smt SmtFacts Bytes BytesFacts Ir Sem Config Gates GatesFacts.
From S2P Require Import Circuits CircuitsFacts Blast BlastFacts BlastNode.

Lemma mjoin_cons {A} (l : list A) ls : mjoin (l :: ls) = l ++ mjoin ls.
Proof. done. Qed.

Definition sort_width (s : Sort) : nat := match s with SBool => 1 | SBv w => w end.

(** The bits an environment gives a variable. *)
Definition var_bits (env : Env) (v : BlastedVariable) : list bool :=
  match bv_sort v with
  | SBool => [env_bool env (bv_term v)]
  | SBv w => zb w (wrap w (env_bv env (bv_term v)))
  end.

(** The environment gives the variable the value of its gates. *)
Definition agrees (ι : nat -> bool) (g : GateArena) (env : Env) (v : BlastedVariable) : Prop :=
  var_bits env v = gval ι g <$> bv_bits v.

Lemma length_var_bits env v : length (var_bits env v) = sort_width (bv_sort v).
Proof. unfold var_bits. destruct (bv_sort v); [done|]. apply length_zb. Qed.

Record var_ok (g : GateArena) (i : nat) (v : BlastedVariable) : Prop := {
  var_term : bv_term v < i;
  var_length : length (bv_bits v) = sort_width (bv_sort v);
  var_range : Forall (fun x => x < length (gates g)) (bv_bits v);
}.

Definition all_bits (vars : list BlastedVariable) : list GateId := mjoin (bv_bits <$> vars).

(** The input gates of the variables, in order, are inputs 0, 1, 2, ... *)
Definition inputs_in_order (g : GateArena) (xs : list GateId) : Prop :=
  input_count g = length xs /\ forall k x, xs !! k = Some x -> gates g !! x = Some (Input k).

Record shape (q : Query) (i : nat) (ctx : BlastContext) : Prop := {
  sh_wf : wf (bc_gates ctx);
  sh_values : length (bc_values ctx) = length (nodes (arena q));
  sh_vars : Forall (var_ok (bc_gates ctx) i) (bc_variables ctx);
  sh_nodup : NoDup (bv_term <$> bc_variables ctx);
  sh_inputs : bounded (bc_gates ctx) -> inputs_in_order (bc_gates ctx) (all_bits (bc_variables ctx));
}.

(** Every translated node below [i] holds its value. *)
Definition translates (ι : nat -> bool) (q : Query) (reach : list bool) (i : nat)
    (ctx : BlastContext) : Prop :=
  forall env, Forall (agrees ι (bc_gates ctx) env) (bc_variables ctx) ->
  forall j n, j < i -> nodes (arena q) !! j = Some n -> included q reach j (kind n) = Ok true ->
    translated ι env (nodes (arena q)) ctx j.

(** ** Agreement and extension *)

Lemma gval_ext ι g g' x : ext g g' -> x < length (gates g) -> gval ι g' x = gval ι g x.
Proof. intros He Hx. apply gate_bit_prefix; [apply He|done]. Qed.

Lemma agrees_ext ι g g' env v i : ext g g' -> var_ok g i v ->
  agrees ι g' env v <-> agrees ι g env v.
Proof.
  intros He Hv. unfold agrees. assert (gval ι g' <$> bv_bits v = gval ι g <$> bv_bits v) as ->; [|done].
  apply list_fmap_ext. intros j x Hj. apply gval_ext; [done|].
  by apply (Forall_lookup_1 _ _ _ _ (var_range _ _ _ Hv) Hj).
Qed.

Lemma agrees_all_ext ι g g' env vars i : ext g g' -> Forall (var_ok g i) vars ->
  Forall (agrees ι g' env) vars -> Forall (agrees ι g env) vars.
Proof.
  intros He Hv H. rewrite Forall_lookup in H. apply Forall_lookup. intros k v Hk.
  apply (agrees_ext ι g g' env v i); [done| |by apply (H k)].
  by apply (Forall_lookup_1 _ _ _ _ Hv Hk).
Qed.

Lemma var_ok_ext g g' i i' v : ext g g' -> i <= i' -> var_ok g i v -> var_ok g' i' v.
Proof.
  intros He Hi [Ht Hl Hr]. split; [lia|done|].
  eapply Forall_impl; [exact Hr|]. intros x Hx. apply ext_length in He. simpl in *. lia.
Qed.

(** The gates of an agreeing variable hold its value. *)
Lemma agrees_bits ι g env v i : var_ok g i v -> agrees ι g env v ->
  bits ι g (bv_bits v) (var_bits env v).
Proof.
  intros Hv Ha. rewrite Ha. apply Forall2_fmap_r, Forall_Forall2_diag.
  eapply Forall_impl; [apply (var_range _ _ _ Hv)|]. intros x Hx. by split.
Qed.

(** *** Every input assignment describes an environment *)

Definition env_of_vars (ι : nat -> bool) (g : GateArena) (vars : list BlastedVariable) : Env :=
  let values t := match find (fun v => bv_term v =? t) vars with
                  | Some v => gval ι g <$> bv_bits v | None => [] end in
  {| env_bv t := bz (values t); env_bool t := default false (head (values t)) |}.

Lemma find_nodup (vars : list BlastedVariable) v : NoDup (bv_term <$> vars) -> v ∈ vars ->
  find (fun u => bv_term u =? bv_term v) vars = Some v.
Proof.
  induction vars as [|u vars IH]; [by intros _ ?%elem_of_nil|].
  rewrite fmap_cons. intros [Hu Hnd]%NoDup_cons [->|Hin]%elem_of_cons; simpl.
  - by rewrite Nat.eqb_refl.
  - destruct (Nat.eqb_spec (bv_term u) (bv_term v)) as [E|_]; [|by apply IH].
    exfalso. apply Hu. rewrite E. by apply list_elem_of_fmap_2.
Qed.

Lemma env_of_vars_agrees ι q i ctx : shape q i ctx ->
  Forall (agrees ι (bc_gates ctx) (env_of_vars ι (bc_gates ctx) (bc_variables ctx))) (bc_variables ctx).
Proof.
  intros [_ _ Hv Hnd _]. apply Forall_forall. intros v Hin.
  pose proof (find_nodup _ _ Hnd Hin) as Hf. unfold agrees, var_bits, env_of_vars. simpl.
  rewrite Hf. rewrite Forall_forall in Hv. destruct (Hv v Hin) as [_ Hl _].
  set (bs := gval ι (bc_gates ctx) <$> bv_bits v).
  assert (length bs = sort_width (bv_sort v)) as Hbs by (by unfold bs; rewrite length_fmap).
  destruct (bv_sort v) as [|w]; simpl in Hbs.
  - destruct bs as [|b [|? ?]]; try done.
  - rewrite zb_wrap, <- Hbs. apply zb_bz.
Qed.

(** *** Every environment comes from an input assignment *)

Definition input_of_env (env : Env) (vars : list BlastedVariable) : nat -> bool :=
  fun k => default false (mjoin (var_bits env <$> vars) !! k).

Lemma gval_input ι g x k : wf g -> bounded g -> gates g !! x = Some (Input k) -> gval ι g x = ι k.
Proof. intros Hwf Hb Hx. by rewrite (gval_kind _ _ _ _ (wf_consistent _ Hwf Hb) Hx). Qed.

Lemma input_of_env_agrees q i ctx env : shape q i ctx -> bounded (bc_gates ctx) ->
  Forall (agrees (input_of_env env (bc_variables ctx)) (bc_gates ctx) env) (bc_variables ctx).
Proof.
  intros [Hwf _ Hv _ Hin] Hb. destruct (Hin Hb) as [_ Hk]. clear Hin.
  set (ι := input_of_env env (bc_variables ctx)).
  assert (forall pre post, bc_variables ctx = pre ++ post -> Forall (agrees ι (bc_gates ctx) env) post)
    as H; [|by apply (H [])].
  intros pre post. revert pre. induction post as [|v post IH]; intros pre E; [constructor|].
  constructor; [|apply (IH (pre ++ [v])); by rewrite <- app_assoc].
  rewrite E in Hv. apply Forall_app in Hv as [Hpre [Hvok _]%Forall_cons].
  assert (length (all_bits pre) = length (mjoin (var_bits env <$> pre))) as Hlen.
  { clear -Hpre. unfold all_bits. induction Hpre as [|u pre Hu Hpre IH]; [done|].
    rewrite !fmap_cons, !mjoin_cons, !length_app, IH, length_var_bits. by rewrite (var_length _ _ _ Hu). }
  unfold agrees. apply list_eq. intros j. rewrite list_lookup_fmap.
  destruct (bv_bits v !! j) as [x|] eqn:Ex.
  - assert (all_bits (bc_variables ctx) !! (length (all_bits pre) + j) = Some x) as Ha.
    { rewrite E. unfold all_bits. rewrite fmap_app, join_app, lookup_app_r by lia.
      rewrite fmap_cons, mjoin_cons. apply lookup_app_l_Some.
      by replace (_ + j - _) with j by lia. }
    apply Hk in Ha. simpl. rewrite (gval_input ι _ _ _ Hwf Hb Ha). unfold ι, input_of_env.
    rewrite E, fmap_app, join_app, Hlen, lookup_app_r by lia. rewrite fmap_cons, mjoin_cons.
    replace (_ + j - _) with j by lia.
    destruct (lookup_lt_is_Some_2 (var_bits env v) j) as [b Eb].
    { rewrite length_var_bits, <- (var_length _ _ _ Hvok). by eapply lookup_lt_Some. }
    by rewrite (lookup_app_l_Some _ _ _ _ Eb), Eb.
  - simpl. apply lookup_ge_None. apply lookup_ge_None in Ex.
    by rewrite length_var_bits, <- (var_length _ _ _ Hvok).
Qed.

(** ** Variables *)

Definition step_inputs (g g' : GateArena) (xs : list GateId) : Prop :=
  input_count g' = input_count g + length xs /\
  forall k x, xs !! k = Some x -> gates g' !! x = Some (Input (input_count g + k)).

Lemma input_ctx_spec ctx : wf (bc_gates ctx) ->
  wp (on_gates GateArena.input) ctx (fun x ctx' =>
    ext (bc_gates ctx) (bc_gates ctx') /\ wf (bc_gates ctx') /\
    bc_values ctx' = bc_values ctx /\ bc_variables ctx' = bc_variables ctx /\
    x < length (gates (bc_gates ctx')) /\
    (bounded (bc_gates ctx') -> step_inputs (bc_gates ctx) (bc_gates ctx') [x])).
Proof.
  intros Hwf. pose proof (input_spec (fun _ => false) (bc_gates ctx) Hwf) as H.
  unfold wp, on_gates in *. destruct (GateArena.input (bc_gates ctx)) as [[x|e|] g']; try done.
  destruct H as (He & Hwf' & [Hx _] & Hin). simpl. split_and!; try done.
  intros Hb. destruct (Hin Hb) as [Hg Hc]. split; [simpl; lia|].
  intros k y Hk. apply list_lookup_singleton_Some in Hk as [-> <-]. by rewrite Nat.add_0_r.
Qed.

Lemma inputs_spec (l : list nat) : forall ctx, wf (bc_gates ctx) ->
  wp (mapM (fun _ => on_gates GateArena.input) l) ctx (fun xs ctx' =>
    ext (bc_gates ctx) (bc_gates ctx') /\ wf (bc_gates ctx') /\
    bc_values ctx' = bc_values ctx /\ bc_variables ctx' = bc_variables ctx /\
    length xs = length l /\ Forall (fun x => x < length (gates (bc_gates ctx'))) xs /\
    (bounded (bc_gates ctx') -> step_inputs (bc_gates ctx) (bc_gates ctx') xs)).
Proof.
  induction l as [|a l IH]; intros ctx Hwf.
  { apply wp_ret. split_and!; done. }
  simpl. apply wp_bind. eapply wp_mono; [by apply input_ctx_spec|].
  intros x ctx1 (He1 & Hwf1 & Hv1 & Hx1 & Hlt & Hin1). apply wp_bind.
  eapply wp_mono; [by apply IH|].
  intros xs ctx2 (He2 & Hwf2 & Hv2 & Hx2 & Hlen & Hr & Hin2). apply wp_ret.
  split_and!; try congruence.
  - by eapply ext_trans.
  - simpl. by rewrite Hlen.
  - constructor; [|done]. apply ext_length in He2. lia.
  - intros Hb. destruct (Hin2 Hb) as [Hc2 Hg2].
    destruct (Hin1 (ext_bounded _ _ He2 Hb)) as [Hc1 Hg1]. simpl in Hc1.
    split; [simpl; lia|]. intros [|k] y Hk.
    + eapply prefix_lookup_Some; [by apply (Hg1 0)|apply He2].
    + rewrite (Hg2 k y Hk). do 2 f_equal. lia.
Qed.

(** The record kept for a variable node. *)
Definition described (k : NodeKind) (v : BlastedVariable) : Prop :=
  match k with
  | BvVar width name external => bv_name v = name /\ bv_external v = external /\ bv_sort v = SBv width
  | BoolVar name external => bv_name v = name /\ bv_external v = external /\ bv_sort v = SBool
  | _ => False
  end.

(** What translating node [i] guarantees, before its value is stored. *)
Record step_post (q : Query) (i : nat) (k : NodeKind) (ctx : BlastContext)
    (bv : BlastedValue) (ctx' : BlastContext) : Prop := {
  st_ext : ext (bc_gates ctx) (bc_gates ctx');
  st_wf : wf (bc_gates ctx');
  st_values : bc_values ctx' = bc_values ctx;
  st_new : exists new, bc_variables ctx' = bc_variables ctx ++ new /\
    Forall (fun v => bv_term v = i /\ described k v) new /\ (is_variable k = true -> new <> []);
  st_vars : Forall (var_ok (bc_gates ctx') (S i)) (bc_variables ctx');
  st_nodup : NoDup (bv_term <$> bc_variables ctx');
  st_inputs : bounded (bc_gates ctx') -> inputs_in_order (bc_gates ctx') (all_bits (bc_variables ctx'));
  st_holds : forall ι env, Forall (agrees ι (bc_gates ctx') env) (bc_variables ctx') ->
    holds ι (bc_gates ctx') bv (sem_kind env i (denote env (take i (nodes (arena q)))) k);
}.

Lemma push_variable_post q i k ctx ctx' s name external xs bv :
  shape q i ctx -> ext (bc_gates ctx) (bc_gates ctx') -> wf (bc_gates ctx') ->
  bc_values ctx' = bc_values ctx ->
  bc_variables ctx' = bc_variables ctx ++ [mkBlastedVariable i name external s xs] ->
  length xs = sort_width s -> Forall (fun x => x < length (gates (bc_gates ctx'))) xs ->
  (bounded (bc_gates ctx') -> step_inputs (bc_gates ctx) (bc_gates ctx') xs) ->
  described k (mkBlastedVariable i name external s xs) ->
  (forall ι env, bits ι (bc_gates ctx') xs (var_bits env (mkBlastedVariable i name external s xs)) ->
    holds ι (bc_gates ctx') bv (sem_kind env i (denote env (take i (nodes (arena q)))) k)) ->
  step_post q i k ctx bv ctx'.
Proof.
  intros [Hwf Hvals Hvars Hnd Hin] He Hwf' Hv Hx Hlen Hr Hstep Hd Hholds.
  set (v := mkBlastedVariable i name external s xs) in *.
  assert (var_ok (bc_gates ctx') (S i) v) as Hvok by (split; simpl; [lia|done|done]).
  assert (Forall (var_ok (bc_gates ctx') (S i)) (bc_variables ctx')) as Hall.
  { rewrite Hx. apply Forall_app. split; [|by constructor].
    eapply Forall_impl; [exact Hvars|]. intros u. apply var_ok_ext; [done|lia]. }
  split; try done.
  - exists [v]. split_and!; [done|by constructor|done].
  - rewrite Hx, fmap_app. apply NoDup_app. split_and!; [done| |apply NoDup_singleton].
    intros t Ht Hi. apply list_elem_of_singleton in Hi as ->.
    apply list_elem_of_fmap in Ht as (u & Eu & Hu). rewrite Forall_forall in Hvars.
    pose proof (var_term _ _ _ (Hvars u Hu)). simpl in Eu. lia.
  - intros Hb. destruct (Hstep Hb) as [Hc Hg]. destruct (Hin (ext_bounded _ _ He Hb)) as [Hc0 Hg0].
    assert (all_bits (bc_variables ctx') = all_bits (bc_variables ctx) ++ xs) as ->.
    { unfold all_bits. rewrite Hx, fmap_app, join_app. f_equal. simpl. apply app_nil_r. }
    split; [rewrite length_app; lia|]. intros j x Hj.
    apply lookup_app_Some in Hj as [Hj|[Hle Hj]].
    + eapply prefix_lookup_Some; [by apply Hg0|apply He].
    + rewrite (Hg _ _ Hj). do 2 f_equal. lia.
  - intros ι env Ha. apply Hholds. rewrite Hx in Ha. apply Forall_app in Ha as [_ [Ha _]%Forall_cons].
    by apply (agrees_bits _ _ _ v (S i)).
Qed.

Lemma blast_variable_spec q i k s ctx : shape q i ctx -> is_variable k = true ->
  sort_of_kind (take i (nodes (arena q))) k = Some s -> valid_sort s = true ->
  wp (blast_kind q i k) ctx (fun bv ctx' => step_post q i k ctx bv ctx').
Proof.
  intros Hsh Hk Hs Hvs. destruct k; try done; cbn [blast_kind blast_leaf sort_of_kind] in *;
    injection Hs as <-.
  - apply wp_bind. eapply wp_mono; [apply inputs_spec, Hsh|].
    intros xs ctx1 (He & Hwf & Hv & Hx & Hlen & Hr & Hin). rewrite length_seq in Hlen.
    unfold wp, push_variable, mbind, M_bind. simpl.
    eapply (push_variable_post q i _ ctx _ (SBv width) name external xs); simpl; try done.
    + by rewrite Hx.
    + intros ι env Hb. split; [apply wrap_bound|done].
  - apply wp_bind. eapply wp_mono; [apply input_ctx_spec, Hsh|].
    intros x ctx1 (He & Hwf & Hv & Hx & Hlt & Hin).
    unfold wp, push_variable, mbind, M_bind. simpl.
    eapply (push_variable_post q i _ ctx _ SBool name external [x]); simpl; try done.
    + by rewrite Hx.
    + by constructor.
    + intros ι env Hb. unfold var_bits in Hb. simpl in Hb. by inversion Hb.
Qed.

(** ** Constants and operations *)

Lemma const_gate_spec ι g b :
  gspec g (gets (fun g => GateArena.const_gate g b)) (fun x g => bit ι g x b).
Proof.
  get_wf Hwf. apply gspec_gets_ret. destruct b; [by apply true_bit|by apply false_bit].
Qed.

Lemma byte_bit_get bytes bit byte : bytes !! (bit / 8) = Some byte ->
  byte_bit byte bit = get_bit bytes bit.
Proof. unfold get_bit, byte_bit. by intros ->. Qed.

Lemma const_bits_spec ι bytes w z : bv_repr w bytes z -> forall m s ctx, s + m = w ->
  bspec ctx
    (mapM (fun bit => byte ← lift (index bytes (bit / 8));
       on_gates (gets (fun g => GateArena.const_gate g (byte_bit byte bit)))) (seq s m))
    (fun xs g => bits ι g xs ((fun i => Z.testbit z (Z.of_nat i)) <$> seq s m)).
Proof.
  intros Hr m. induction m as [|m IH]; intros s ctx Hs.
  { apply bspec_ret. constructor. }
  simpl. destruct (lookup_lt_is_Some_2 bytes (s / 8)) as [byte Eb].
  { rewrite (repr_length _ _ _ Hr). apply byte_pos. pose proof (div_ceil_8_bounds w). lia. }
  eapply bspec_bind.
  - eapply bspec_lift; [by apply index_Some|].
    apply bspec_gates, (const_gate_spec ι).
  - cbv beta. intros x ctx1 He _ Hx.
    eapply bspec_bind; [apply (IH (S s)); lia|]. cbv beta.
    intros xs ctx2 He2 _ Hxs. apply bspec_ret. constructor; [|done].
    rewrite (byte_bit_get _ _ _ Eb), (repr_testbit _ _ _ _ Hr) in Hx. by eapply bit_ext.
Qed.

Lemma blast_const_spec ι q i id k s vals env ctx prior :
  sort_of_kind prior k = Some s -> is_leaf k = true -> is_variable k = false ->
  bspec ctx (blast_kind q id k) (fun v g => holds ι g v (sem_kind env i vals k)).
Proof.
  intros Hs Hl Hk. destruct k as [w bytes| |b| | | | | | | | | | | | | | | | | | | | | | | | | | | | | | | | | | | | | | | | | | | | |];
    try done; cbn [blast_kind blast_leaf sem_kind sort_of_kind] in *.
  - apply when_Some in Hs as [Hc%canonical_spec _].
    eapply bspec_bind; [by apply (const_bits_spec ι _ _ _ Hc w 0)|]. cbv beta.
    intros xs ctx' _ _ Hxs. apply bspec_ret.
    apply (num_bits _ _ _ _ _ _ Hxs).
    + by rewrite length_fmap, length_seq.
    + by eapply repr_range.
    + intros j Hj. by rewrite list_lookup_fmap, lookup_seq_lt.
  - eapply bspec_bind.
    + apply bspec_gates, (const_gate_spec ι).
    + cbv beta. intros x ctx' _ _ Hx. by apply bspec_ret.
Qed.

Lemma bspec_outcome {A} ctx (m : M BlastContext A) Q : wf (bc_gates ctx) -> bspec ctx m Q ->
  exists a ctx', m ctx = (Ok a, ctx') /\
    (ext (bc_gates ctx) (bc_gates ctx') /\ input_count (bc_gates ctx') = input_count (bc_gates ctx)) /\
    wf (bc_gates ctx') /\
    bc_values ctx' = bc_values ctx /\ bc_variables ctx' = bc_variables ctx /\ Q a (bc_gates ctx').
Proof. intros Hwf H. by apply (wp_inv _ _ _ (H Hwf)). Qed.

Lemma translated_take ι env ns i ctx x : x < i ->
  translated ι env ns ctx x -> translated ι env (take i ns) ctx x.
Proof.
  intros Hx (bv & v & E & El & H). exists bv, v. split_and!; try done.
  assert (x < length ns) as Hlt by (rewrite <- (length_denote env); by eapply lookup_lt_Some).
  destruct (lookup_lt_is_Some_2 (denote env (take i ns)) x) as [v' E'].
  { rewrite length_denote, length_take. lia. }
  rewrite E'. f_equal. apply (inj Some). rewrite <- El. symmetry.
  eapply prefix_lookup_Some; [exact E'|]. apply denote_prefix.
  exists (drop i ns). symmetry. apply take_drop.
Qed.

Lemma included_true q reach i k : included q reach i k = Ok true ->
  reach !! i = Some true \/ (want_model q = true /\ is_variable k = true).
Proof.
  unfold included, index. destruct (reach !! i) as [r|]; [|done]. simpl.
  intros [= H]. destruct r; [by left|right]. by apply andb_true_iff.
Qed.

Lemma included_marked q reach i k : marked reach i -> included q reach i k = Ok true.
Proof. intros H. unfold included. by rewrite (index_Some _ _ _ H). Qed.

Section loop.
Context (q : Query) (reach : list bool).
Hypothesis Hwf : well_formed q = true.
Hypothesis Hreach : length reach = length (nodes (arena q)).
Hypothesis Hclosed : closed_up_to (nodes (arena q)) reach [].

Let ns := nodes (arena q).

Lemma Hwt : well_typed ns = true.
Proof. by apply andb_true_iff in Hwf as [? _]. Qed.

(** A translated node that is not a variable has translated operands. *)
Lemma operands_translated ι env i n ctx :
  translates ι q reach i ctx -> Forall (agrees ι (bc_gates ctx) env) (bc_variables ctx) ->
  ns !! i = Some n -> included q reach i (kind n) = Ok true -> is_variable (kind n) = false ->
  Forall (translated ι env (take i ns) ctx) (push_children (kind n)).
Proof.
  intros Ht Ha Hn Hinc Hv. pose proof (node_children_lt _ _ _ Hwt Hn) as Hlt.
  apply included_true in Hinc as [Hi|[_ ?]]; [|congruence].
  apply Forall_forall. intros x Hx. rewrite Forall_forall in Hlt. specialize (Hlt x Hx). simpl in Hlt.
  destruct (Hclosed i n x Hi Hn Hx) as [Hm|Hnil]; [|by apply elem_of_nil in Hnil].
  apply translated_take; [done|]. pose proof (lookup_lt_Some _ _ _ Hn).
  destruct (lookup_lt_is_Some_2 ns x) as [m Em]; [lia|].
  eapply Ht; [done|done|exact Em|]. by apply included_marked.
Qed.

Lemma blast_step_spec i n ctx : shape q i ctx -> (forall ι, translates ι q reach i ctx) ->
  ns !! i = Some n -> included q reach i (kind n) = Ok true ->
  wp (blast_kind q i (kind n)) ctx (fun bv ctx' => step_post q i (kind n) ctx bv ctx').
Proof.
  intros Hsh Ht Hn Hinc.
  pose proof (well_typed_lookup _ _ _ Hwt Hn) as [Hs%bool_decide_eq_true Hvs]%andb_true_iff.
  destruct (is_variable (kind n)) eqn:Hv; [by eapply blast_variable_spec|].
  assert (well_typed (take i ns) = true) as Hwti.
  { pose proof Hwt as Hw. rewrite <- (take_drop i ns) in Hw. unfold well_typed in Hw.
    rewrite well_typed_from_app in Hw. by apply andb_true_iff in Hw as [? _]. }
  assert (forall ι env, Forall (agrees ι (bc_gates ctx) env) (bc_variables ctx) ->
    bspec ctx (blast_kind q i (kind n)) (fun v g =>
      holds ι g v (sem_kind env i (denote env (take i ns)) (kind n)))) as Hspec.
  { intros ι env Ha. destruct (is_leaf (kind n)) eqn:Hl.
    - by eapply blast_const_spec.
    - eapply blast_kind_spec; try done; [exists (drop i ns); symmetry; apply take_drop|].
      by eapply operands_translated. }
  pose proof Hsh as [Hg Hvals Hvars Hnd Hin].
  set (ι0 := fun _ : nat => false).
  destruct (bspec_outcome _ _ _ Hg (Hspec ι0 _ (env_of_vars_agrees ι0 q i ctx Hsh)))
    as (bv & ctx' & E & [He Hcount] & Hwf' & Hv' & Hx' & _).
  unfold wp. rewrite E. split; rewrite ?Hx'; try done.
  - exists []. rewrite app_nil_r. split_and!; [done|constructor|congruence].
  - eapply Forall_impl; [exact Hvars|]. intros u. apply var_ok_ext; [done|lia].
  - intros Hb. destruct (Hin (ext_bounded _ _ He Hb)) as [Hc Hgk].
    split; [by rewrite Hcount|]. intros k x Hk.
    eapply prefix_lookup_Some; [by apply Hgk|apply He].
  - intros ι env Ha. pose proof (agrees_all_ext _ _ _ _ _ _ He Hvars Ha) as Ha0.
    destruct (bspec_outcome _ _ _ Hg (Hspec ι env Ha0)) as (bv2 & ctx2 & E2 & _ & _ & _ & _ & H).
    rewrite E in E2. by simplify_eq.
Qed.

(** *** The invariant of the loop *)

Record recorded (i : nat) (vars : list BlastedVariable) : Prop := {
  rec_node : Forall (fun v => exists n, ns !! bv_term v = Some n /\ described (kind n) v) vars;
  rec_all : forall j n, j < i -> ns !! j = Some n -> is_variable (kind n) = true ->
    included q reach j (kind n) = Ok true -> exists v, v ∈ vars /\ bv_term v = j;
}.

Definition loop_inv (i : nat) (ctx : BlastContext) : Prop :=
  shape q i ctx /\ (forall ι, translates ι q reach i ctx) /\ recorded i (bc_variables ctx).

Lemma loop_inv_skip i n ctx : ns !! i = Some n -> included q reach i (kind n) = Ok false ->
  loop_inv i ctx -> loop_inv (S i) ctx.
Proof.
  intros Hn Hinc (Hsh & Ht & Hr). split_and!.
  - destruct Hsh as [? ? Hv ? ?]. split; try done. eapply Forall_impl; [exact Hv|].
    intros v. apply var_ok_ext; [apply ext_refl|lia].
  - intros ι env Ha j m Hj Hm Hi. destruct (decide (j = i)) as [->|].
    + unfold ns in *. congruence.
    + by apply (Ht ι env Ha j m); [lia|..].
  - destruct Hr as [Hn' Ha]. split; [done|]. intros j m Hj Hm Hv Hi.
    destruct (decide (j = i)) as [->|]; [congruence|]. apply (Ha j m); try done. lia.
Qed.

Lemma recorded_step i n ctx bv ctx' : ns !! i = Some n -> recorded i (bc_variables ctx) ->
  step_post q i (kind n) ctx bv ctx' -> recorded (S i) (bc_variables ctx').
Proof.
  intros Hn [Hr Ha] Hst. destruct (st_new _ _ _ _ _ _ Hst) as (new & -> & Hnew & Hne). split.
  - apply Forall_app. split; [done|]. eapply Forall_impl; [exact Hnew|].
    intros v [E Hd]. exists n. by rewrite E.
  - intros j m Hj Hm Hv Hi. destruct (decide (j = i)) as [->|].
    + rewrite Hn in Hm. injection Hm as <-. destruct new as [|v new]; [by destruct (Hne Hv)|].
      apply Forall_cons in Hnew as [[E _] _]. exists v. split; [set_solver|done].
    + destruct (Ha j m) as (v & Hin & E); try done; [lia|]. exists v. split; [set_solver|done].
Qed.

Lemma loop_inv_step i n ctx bv ctx' : ns !! i = Some n -> included q reach i (kind n) = Ok true ->
  loop_inv i ctx -> step_post q i (kind n) ctx bv ctx' ->
  wp (set_value i bv) ctx' (fun _ ctx'' => loop_inv (S i) ctx'').
Proof.
  intros Hn Hinc (Hsh & Ht & Hr) Hst. pose proof (lookup_lt_Some _ _ _ Hn) as Hlt.
  destruct Hsh as [Hg Hvals Hvars Hnd Hin]. pose proof (recorded_step _ _ _ _ _ Hn Hr Hst) as Hr'.
  destruct Hst as [He Hwf' Hv' (new & Hnew & _ & _) Hvars' Hnd' Hin' Hholds].
  unfold wp, set_value, set_index. rewrite ltb_t by (rewrite Hv'; unfold ns in *; lia).
  split_and!; [split; simpl; try done; by rewrite length_insert, Hv'| |done].
  simpl. intros ι env Ha j m Hj Hm Hi. simpl in Ha.
  destruct (decide (j = i)) as [->|Hne].
  - assert (m = n) as -> by (unfold ns in *; congruence).
    exists bv, (sem_kind env i (denote env (take i ns)) (kind n)). simpl. split_and!.
    + apply list_lookup_insert_eq. rewrite Hv'. unfold ns in *. lia.
    + by apply denote_lookup.
    + by apply Hholds.
  - assert (Forall (agrees ι (bc_gates ctx) env) (bc_variables ctx)) as Ha0.
    { eapply (agrees_all_ext _ _ (bc_gates ctx')); [done..|]. rewrite Hnew in Ha. by apply Forall_app in Ha as [? _]. }
    destruct (Ht ι env Ha0 j m) as (b & v & E & El & H); [lia|done..|].
    exists b, v. simpl. split_and!; [|done|by eapply holds_ext].
    by rewrite list_lookup_insert_ne, Hv' by done.
Qed.

(** *** The loop *)

Lemma blast_nodes_spec lim : (Z.of_nat (length ns) <= 2 ^ 32)%Z -> forall rest i ctx,
  drop i ns = rest -> i <= length ns -> loop_inv i ctx ->
  wpl lim (blast_nodes q lim reach rest i) ctx (fun _ ctx' => loop_inv (length ns) ctx').
Proof.
  intros Hlen rest. induction rest as [|n rest IH]; intros i ctx Hd Hi Hinv.
  { apply wpl_ret. apply (f_equal length) in Hd. rewrite length_drop in Hd. simpl in Hd.
    by replace (length ns) with i by lia. }
  assert (ns !! i = Some n) as Hn by (rewrite <- (Nat.add_0_r i), <- lookup_drop; by rewrite Hd).
  pose proof (lookup_lt_Some _ _ _ Hn) as Hlt.
  assert (drop (S i) ns = rest) as Hd' by (rewrite (drop_S _ _ _ Hn) in Hd; by injection Hd).
  cbn [blast_nodes]. apply wpl_bind, wpl_lift, outcome_check. apply wpl_bind, wpl_lift.
  unfold included, index. destruct (lookup_lt_is_Some_2 reach i) as [r Er].
  { by rewrite Hreach. }
  rewrite Er. simpl. set (inc := r || (want_model q && is_variable (kind n))).
  assert (included q reach i (kind n) = Ok inc) as Hinc by (unfold included; by rewrite (index_Some _ _ _ Er)).
  apply wpl_bind. destruct inc.
  - apply wpl_wp, wp_bind. rewrite u32_small by lia.
    eapply wp_mono; [eapply blast_step_spec; try done; apply Hinv|].
    intros bv ctx' Hst. eapply wp_mono; [by eapply loop_inv_step|].
    intros u ctx'' Hinv'. apply IH; [done|lia|done].
  - apply wpl_ret. apply IH; [done|lia|]. by eapply loop_inv_skip.
Qed.
End loop.

(** ** The contract *)

(** The result translates the query: input assignments and environments
    correspond, and the assertion gate holds exactly under the satisfying ones. *)
Record blast_post (q : Query) (r : BlastResult) : Prop := {
  bp_wf : wf (br_gates r);
  bp_assertion : br_assertion r < length (gates (br_gates r));
  bp_vars : Forall (var_ok (br_gates r) (length (nodes (arena q)))) (br_variables r);
  bp_nodup : NoDup (bv_term <$> br_variables r);
  bp_node : Forall (fun v => exists n, nodes (arena q) !! bv_term v = Some n /\ described (kind n) v)
    (br_variables r);
  bp_all : forall j n, nodes (arena q) !! j = Some n -> is_variable (kind n) = true ->
    want_model q = true -> exists v, v ∈ br_variables r /\ bv_term v = j;
  bp_sem : bounded (br_gates r) -> forall ι env, Forall (agrees ι (br_gates r) env) (br_variables r) ->
    gval ι (br_gates r) (br_assertion r) = satisfies env q;
  bp_env : forall ι, Forall (agrees ι (br_gates r) (env_of_vars ι (br_gates r) (br_variables r)))
    (br_variables r);
  bp_input : bounded (br_gates r) -> forall env,
    Forall (agrees (input_of_env env (br_variables r)) (br_gates r) env) (br_variables r);
}.

(** Reading the roots' gates. *)
Lemma roots_spec ι ctx vals roots :
  Forall (fun t => exists x, bc_value ctx t = Ok (BBool x) /\ bit ι (bc_gates ctx) x (sem_bool vals t)) roots ->
  wp (mapM bc_bool roots) ctx (fun xs ctx' =>
    ctx' = ctx /\ bits ι (bc_gates ctx) xs (sem_bool vals <$> roots)).
Proof.
  induction 1 as [|t roots (x & E & Hx) Hr IH]; [by split; [|constructor]|].
  simpl. apply wp_bind. unfold wp at 1, bc_bool at 1. rewrite E.
  apply wp_bind. eapply wp_mono; [exact IH|]. intros xs ctx' [-> Hxs].
  apply wp_ret. split; [done|]. by constructor.
Qed.

Lemma forallb_fmap_id {A} (f : A -> bool) l : forallb id (f <$> l) = forallb f l.
Proof. induction l as [|a l IH]; [done|]. rewrite fmap_cons. simpl. by rewrite <- IH. Qed.

(** The conjunction of the roots, once every node is translated. *)
Lemma assertion_spec q reach ctx : well_formed q = true -> shape q (length (nodes (arena q))) ctx ->
  (forall ι, translates ι q reach (length (nodes (arena q))) ctx) ->
  (forall t, t ∈ assertions_and_assumptions q -> marked reach t) ->
  forall ι env, Forall (agrees ι (bc_gates ctx) env) (bc_variables ctx) ->
  bspec ctx (xs ← mapM bc_bool (assertions_and_assumptions q); on_gates (GateArena.and_many xs))
    (fun x g => bit ι g x (satisfies env q)).
Proof.
  intros Hwf Hsh Ht Hm ι env Ha Hg. apply wp_bind. eapply wp_mono.
  { apply (roots_spec ι _ (denote env (nodes (arena q)))), Forall_forall. intros t Hin.
    pose proof (well_formed_roots _ _ Hwf Hin) as Hb.
    destruct (nodes (arena q) !! t) as [n|] eqn:En; [|by unfold bool_at in Hb; rewrite En in Hb].
    eapply (operand_bool ι env (nodes (arena q)) (Hwt _ Hwf)); [|done].
    eapply Ht; [done|by eapply lookup_lt_Some|exact En|]. apply included_marked. by apply Hm. }
  intros xs ctx' [-> Hxs]. unfold satisfies.
  eapply wp_mono; [apply bspec_gates; [|done]; by apply and_many_spec|].
  intros x ctx'' H. by rewrite forallb_fmap_id in H.
Qed.

Lemma assertion_post q reach ctx : well_formed q = true ->
  (forall t, t ∈ assertions_and_assumptions q -> marked reach t) ->
  length reach = length (nodes (arena q)) ->
  loop_inv q reach (length (nodes (arena q))) ctx ->
  wp (xs ← mapM bc_bool (assertions_and_assumptions q); on_gates (GateArena.and_many xs)) ctx
    (fun x ctx => blast_post q {| br_gates := bc_gates ctx; br_assertion := x;
                                  br_variables := bc_variables ctx |}).
Proof.
  intros Hwf Hm Hlen (Hsh & Ht & Hrec). pose proof (assertion_spec _ _ _ Hwf Hsh Ht Hm) as Hspec.
  pose proof (env_of_vars_agrees (fun _ => false) _ _ _ Hsh) as Ha.
  destruct (bspec_outcome _ _ _ (sh_wf _ _ _ Hsh) (Hspec _ _ Ha))
    as (x & ctx' & E & [He Hc] & Hwf' & Hv & Hx & [Hlt _]).
  assert (shape q (length (nodes (arena q))) ctx') as Hsh'.
  { destruct Hsh as [Hg Hvals Hvars Hnd Hin]. split; rewrite ?Hv, ?Hx; try done.
    - eapply Forall_impl; [exact Hvars|]. intros u. by apply var_ok_ext.
    - intros Hb. destruct (Hin (ext_bounded _ _ He Hb)) as [Hc0 Hg0]. split; [congruence|].
      intros k y Hk. eapply prefix_lookup_Some; [by apply Hg0|apply He]. }
  unfold wp. rewrite E. split; simpl; try done; try apply Hsh'.
  - rewrite Hx. apply Hrec.
  - intros j n Hn Hk Hw. rewrite Hx. apply (rec_all _ _ _ _ Hrec j n); [by eapply lookup_lt_Some|done..|].
    unfold included. destruct (lookup_lt_is_Some_2 reach j) as [r Er].
    { rewrite Hlen. by eapply lookup_lt_Some. }
    rewrite (index_Some _ _ _ Er). simpl. by rewrite Hw, Hk, orb_true_r.
  - intros Hb ι env Ha'. rewrite Hx in Ha'.
    pose proof (agrees_all_ext _ _ _ _ _ _ He (sh_vars _ _ _ Hsh) Ha') as Ha0.
    destruct (bspec_outcome _ _ _ (sh_wf _ _ _ Hsh) (Hspec _ _ Ha0))
      as (x2 & ctx2 & E2 & _ & _ & _ & _ & [_ H]).
    rewrite E in E2. simplify_eq. by apply H.
  - intros ι. by eapply env_of_vars_agrees.
  - intros Hb env. by eapply input_of_env_agrees.
Qed.

(** The state in which the loop starts. *)
Definition initial_ctx (q : Query) : BlastContext :=
  {| bc_gates := GateArena.new; bc_values := replicate (length (nodes (arena q))) None;
     bc_variables := [] |}.

Lemma loop_inv_initial q reach : loop_inv q reach 0 (initial_ctx q).
Proof.
  split_and!.
  - split; simpl; [apply new_wf|apply length_replicate|constructor|constructor|].
    intros _. split; [done|]. intros k x [=].
  - intros ι env _ j n Hj. lia.
  - split; [constructor|]. intros j n Hj. lia.
Qed.

(** The contract of the bit-blaster. *)
Lemma blast_query_spec q lim : well_formed q = true ->
  outcome lim (blast_query_with_limits q lim) (blast_post q).
Proof.
  intros Hwf. pose proof (reachable_terms_spec q (under 0 lim) Hwf) as Hr.
  assert (wpl lim (blast_steps q lim) (initial_ctx q) (fun x ctx =>
    blast_post q {| br_gates := bc_gates ctx; br_assertion := x; br_variables := bc_variables ctx |})) as H.
  { unfold blast_steps. apply wpl_bind, wpl_lift. apply (outcome_under 0).
    destruct (reachable_terms q (under 0 lim)) as [reach|e|]; simpl in *; [|done..].
    destruct Hr as (Hlen & Hcl & Hroots).
    apply wpl_bind. eapply wpl_mono.
    { apply (wpl_under 1). apply (blast_nodes_spec q reach Hwf Hlen Hcl _ (well_formed_length _ Hwf)); [done|lia|].
      apply loop_inv_initial. }
    intros u ctx Hinv. apply wpl_wp. apply (assertion_post _ reach); try done.
    intros t Ht. apply Hroots. right. unfold initial_stack. by apply elem_of_app; left. }
  unfold blast_query_with_limits. unfold wpl in H. fold (initial_ctx q).
  by destruct (blast_steps q lim (initial_ctx q)) as [[x|e|] ctx].
Qed.

(** C3: bit-blasting a well-formed query never panics and fails only when a poll
    sees a limit.  While the arena stays within the [u32] range of gate ids its
    circuit computes the query: under every environment that agrees with the input
    gates the assertion gate is the query's truth value, and environments and input
    assignments correspond.  Each recorded variable describes its node. *)
Theorem blast_query_correct q lim : well_formed q = true ->
  match blast_query_with_limits q lim with
  | Ok r => blast_post q r
  | Err e => e = Timeout /\ ~ never lim
  | Panic => False
  end.
Proof. apply blast_query_spec. Qed.

Lemma blast_query_correct_witness : exists r,
  blast_query_with_limits sample_query unlimited = Ok r /\ blast_post sample_query r.
Proof.
  pose proof (blast_query_correct sample_query unlimited eq_refl) as H.
  destruct (blast_query_with_limits sample_query unlimited) as [r|e|].
  - exists r. split; [reflexivity|exact H].
  - destruct H as [_ H]. exfalso. apply H. intros p. split; reflexivity.
  - destruct H.
Defined.
