(* ===== verification/Cnf.v ===== *)
(** * CNF encoding ([cnf.rs])

    The Tseitin clauses of a gate arena.  Literals are [i32]s: gate [x] is the
    variable [x + 1], and every cast and sum wraps at 32 bits. *)
From S2P Require Import Prelude Config Gates.

#[local] Open Scope Z_scope.

(** [z as i32] and wrapping [i32] arithmetic. *)
Definition i32 (z : Z) : Z := (z + 2 ^ 31) mod 2 ^ 32 - 2 ^ 31.

Record Cnf := mkCnf { num_vars : nat; clauses : list (list Z) }.

(** [CnfVar], [Lit::positive], [Lit::negative]. *)
Abbreviation CnfVar := nat (only parsing).

Module Lit.
Definition positive (var : CnfVar) : Z := i32 (Z.of_nat var).
Definition negative (var : CnfVar) : Z := i32 (- i32 (Z.of_nat var)).
Definition raw (l : Z) : Z := l.
End Lit.

(** [-l] on an [i32]. *)
Definition neg (l : Z) : Z := i32 (- l).

(** [gate.index() as i32 + 1] *)
Definition lit (gate : GateId) : Z := i32 (i32 (Z.of_nat gate) + 1).

(** [sort_unstable_by_key(|lit| lit.abs())].  Clauses have at most three
    literals, which the standard library sorts by insertion; no theorem depends
    on the order among equal keys. *)
Fixpoint insert_by_abs (l : Z) (c : list Z) : list Z :=
  match c with
  | [] => [l]
  | x :: c' => if Z.abs l <=? Z.abs x then l :: c else x :: insert_by_abs l c'
  end.

Definition sort_by_abs (c : list Z) : list Z := foldr insert_by_abs [] c.

(** [Vec::dedup]: keeps the first of each run of equal elements. *)
Fixpoint dedup_from (x : Z) (c : list Z) : list Z :=
  match c with
  | [] => []
  | y :: c => if y =? x then dedup_from x c else y :: dedup_from y c
  end.

Definition dedup (c : list Z) : list Z :=
  match c with [] => [] | x :: c => x :: dedup_from x c end.

(** Two neighbours are opposite literals. *)
Fixpoint has_opposite_pair (c : list Z) : bool :=
  match c with
  | x :: (y :: _) as c => ((Z.abs x =? Z.abs y) && (x =? neg y)) || has_opposite_pair c
  | _ => false
  end.

Definition push_clause (cs : list (list Z)) (clause : list Z) : list (list Z) :=
  let clause := dedup (sort_by_abs clause) in
  if has_opposite_pair clause then cs else cs ++ [clause].

(** The clauses of gate number [index], in the order they are pushed. *)
Definition gate_clauses (index : nat) (k : GateKind) : list (list Z) :=
  let g := i32 (Z.of_nat (index + 1)) in
  match k with
  | Const value => [[if value then g else neg g]]
  | Input _ => []
  | Not a =>
      let a := lit a in [[g; a]; [neg g; neg a]]
  | And a b =>
      let a := lit a in let b := lit b in
      [[neg g; a]; [neg g; b]; [g; neg a; neg b]]
  | Or a b =>
      let a := lit a in let b := lit b in
      [[g; neg a]; [g; neg b]; [neg g; a; b]]
  | Xor a b =>
      let a := lit a in let b := lit b in
      [[neg a; neg b; neg g]; [neg a; b; g]; [a; neg b; g]; [a; b; neg g]]
  | Mux sel t f =>
      let s := lit sel in let t := lit t in let f_lit := lit f in
      [[neg s; neg t; g]; [neg s; t; neg g]; [s; neg f_lit; g]; [s; f_lit; neg g]]
  end.

Fixpoint encode_gates (lim : Limits) (gs : list GateKind) (index : nat) (cs : list (list Z))
    : res (list (list Z)) :=
  match gs with
  | [] => Ok cs
  | gate :: gs =>
      _ ← (if (index mod Z.to_nat 4096 =? 0)%nat then check_limits lim [index] else Ok tt);
      encode_gates lim gs (S index) (foldl push_clause cs (gate_clauses index gate))
  end.

Definition encode_with_limits (g : GateArena) (assertion : GateId) (lim : Limits) : res Cnf :=
  cs ← encode_gates lim (gates g) 0 [];
  Ok {| num_vars := length (gates g); clauses := push_clause cs [lit assertion] |}.

(** [encode]: no deadline, and [expect] turns an error into a panic. *)
Definition encode (g : GateArena) (assertion : GateId) : res Cnf :=
  match encode_with_limits g assertion unlimited with
  | Ok c => Ok c
  | _ => Panic
  end.

(** ** Meaning *)

(** A literal under a valuation of the variables 1, 2, ... *)
Definition lit_holds (ν : nat -> bool) (l : Z) : bool :=
  if 0 <? l then ν (Z.abs_nat l) else negb (ν (Z.abs_nat l)).

Definition clause_holds (ν : nat -> bool) (c : list Z) : bool := existsb (lit_holds ν) c.
Definition cnf_holds (ν : nat -> bool) (cs : list (list Z)) : bool := forallb (clause_holds ν) cs.

(** The literal names one of the variables 1..n. *)
Definition lit_ok (n : nat) (l : Z) : Prop := 1 <= Z.abs l <= Z.of_nat n.
Definition clauses_ok (n : nat) (cs : list (list Z)) : Prop := Forall (Forall (lit_ok n)) cs.
