(* ===== verification/CnfFacts.v ===== *)
(** * Correctness of the CNF encoding

    Sorting, deduplicating and dropping tautologies keep a clause's meaning; the
    clauses of a gate say that its variable has the gate's value; so the models of
    the encoding are exactly the runs of the circuit in which the assertion holds. *)
From S2P Require Import Prelude Config Gates GatesFacts Cnf.

#[local] Open Scope Z_scope.

(** ** Literals *)

Lemma i32_small z : - 2 ^ 31 <= z < 2 ^ 31 -> i32 z = z.
Proof. intros H. unfold i32. rewrite Z.mod_small; lia. Qed.

(** The arena is small enough for its variables to be [i32]s. *)
Definition numbered (n : nat) : Prop := Z.of_nat n < 2 ^ 31.

Lemma neg_ok n l : numbered n -> lit_ok n l -> neg l = - l.
Proof. unfold numbered, lit_ok, neg. intros ? ?. apply i32_small. lia. Qed.

Lemma lit_ok_neg n l : numbered n -> lit_ok n l -> lit_ok n (neg l).
Proof. intros Hn Hl. rewrite (neg_ok n) by done. unfold lit_ok in *. lia. Qed.

Lemma lit_eq n x : numbered n -> (x < n)%nat -> lit x = Z.of_nat (S x).
Proof.
  unfold numbered, lit. intros Hn Hx. rewrite (i32_small (Z.of_nat x)) by lia.
  rewrite i32_small; lia.
Qed.

Lemma lit_lit_ok n x : numbered n -> (x < n)%nat -> lit_ok n (lit x).
Proof. intros Hn Hx. rewrite (lit_eq n) by done. unfold lit_ok. lia. Qed.

Lemma gate_lit n index : numbered n -> (index < n)%nat -> i32 (Z.of_nat (index + 1)) = lit index.
Proof. intros Hn Hx. rewrite (lit_eq n) by done. unfold numbered in Hn. rewrite i32_small; lia. Qed.

Section valuation.
Context (ν : nat -> bool).

Lemma lit_holds_pos v : lit_holds ν (Z.of_nat (S v)) = ν (S v).
Proof. unfold lit_holds. destruct (Z.ltb_spec 0 (Z.of_nat (S v))); [|lia]. f_equal. lia. Qed.

Lemma lit_holds_opp l : l <> 0 -> lit_holds ν (- l) = negb (lit_holds ν l).
Proof.
  intros Hl. unfold lit_holds. replace (Z.abs_nat (- l)) with (Z.abs_nat l) by lia.
  destruct (Z.ltb_spec 0 l), (Z.ltb_spec 0 (- l)); try lia; [done|by rewrite negb_involutive].
Qed.

Lemma lit_holds_neg n l : numbered n -> lit_ok n l -> lit_holds ν (neg l) = negb (lit_holds ν l).
Proof. intros Hn Hl. rewrite (neg_ok n) by done. apply lit_holds_opp. unfold lit_ok in Hl. lia. Qed.

Lemma lit_holds_lit n x : numbered n -> (x < n)%nat -> lit_holds ν (lit x) = ν (S x).
Proof. intros Hn Hx. rewrite (lit_eq n) by done. apply lit_holds_pos. Qed.

(** ** [push_clause] keeps a clause's meaning *)

Lemma insert_by_abs_holds l c : clause_holds ν (insert_by_abs l c) = lit_holds ν l || clause_holds ν c.
Proof.
  induction c as [|x c IH]; [done|]. simpl. destruct (_ <=? _); [done|].
  simpl. rewrite IH. by destruct (lit_holds ν l), (lit_holds ν x).
Qed.

Lemma sort_by_abs_holds c : clause_holds ν (sort_by_abs c) = clause_holds ν c.
Proof. induction c as [|l c IH]; [done|]. simpl. by rewrite insert_by_abs_holds, IH. Qed.

Lemma dedup_from_holds c : forall x,
  lit_holds ν x || clause_holds ν (dedup_from x c) = lit_holds ν x || clause_holds ν c.
Proof.
  induction c as [|y c IH]; intros x; [done|]. simpl.
  destruct (Z.eqb_spec y x) as [->|]; simpl; rewrite IH; by destruct (lit_holds ν x).
Qed.

Lemma dedup_holds c : clause_holds ν (dedup c) = clause_holds ν c.
Proof. destruct c as [|x c]; [done|]. apply dedup_from_holds. Qed.

Lemma opposite_pair_holds n c : numbered n -> Forall (lit_ok n) c ->
  has_opposite_pair c = true -> clause_holds ν c = true.
Proof.
  intros Hn. induction c as [|x c IH]; [done|]. intros [Hx Hc]%Forall_cons H.
  destruct c as [|y c]; [done|]. simpl in H. apply orb_true_iff in H as [H|H].
  - apply andb_true_iff in H as [_ ->%Z.eqb_eq]. apply Forall_cons in Hc as [Hy _].
    simpl. rewrite (lit_holds_neg n) by done. by destruct (lit_holds ν y).
  - change (lit_holds ν x || clause_holds ν (y :: c) = true). rewrite IH by done. apply orb_true_r.
Qed.
End valuation.

Lemma insert_by_abs_perm l c : insert_by_abs l c ≡ₚ l :: c.
Proof.
  induction c as [|x c IH]; [done|]. simpl. destruct (_ <=? _); [done|]. rewrite IH. constructor.
Qed.

Lemma sort_by_abs_perm c : sort_by_abs c ≡ₚ c.
Proof. induction c as [|l c IH]; [done|]. simpl. by rewrite insert_by_abs_perm, IH. Qed.

Lemma dedup_subset c : dedup c ⊆ c.
Proof.
  destruct c as [|x c]; [done|]. simpl. apply list_subseteq_skip.
  revert x. induction c as [|y c IH]; intros x; [done|]. simpl.
  destruct (Z.eqb_spec y x) as [->|]; [specialize (IH x)|specialize (IH y)]; set_solver.
Qed.

Lemma normalised_ok n c : Forall (lit_ok n) c -> Forall (lit_ok n) (dedup (sort_by_abs c)).
Proof.
  rewrite !Forall_forall. intros H l Hl%dedup_subset. apply H. by rewrite (sort_by_abs_perm c) in Hl.
Qed.

Lemma cnf_holds_app ν cs ds : cnf_holds ν (cs ++ ds) = cnf_holds ν cs && cnf_holds ν ds.
Proof. apply forallb_app. Qed.

Lemma push_clause_holds ν n cs c : numbered n -> Forall (lit_ok n) c ->
  cnf_holds ν (push_clause cs c) = cnf_holds ν cs && clause_holds ν c.
Proof.
  intros Hn Hc. unfold push_clause. pose proof (normalised_ok _ _ Hc) as Hok.
  rewrite <- (sort_by_abs_holds ν c), <- (dedup_holds ν (sort_by_abs c)).
  destruct (has_opposite_pair _) eqn:E.
  - rewrite (opposite_pair_holds ν n _ Hn Hok E). by rewrite andb_true_r.
  - rewrite cnf_holds_app. simpl. by rewrite andb_true_r.
Qed.

Lemma push_clause_ok n cs c : Forall (lit_ok n) c -> clauses_ok n cs -> clauses_ok n (push_clause cs c).
Proof.
  intros Hc Hcs. unfold push_clause. destruct (has_opposite_pair _); [done|].
  apply Forall_app. split; [done|]. constructor; [|done]. by apply normalised_ok.
Qed.

Lemma push_clauses_holds ν n ds : numbered n -> clauses_ok n ds -> forall cs,
  cnf_holds ν (foldl push_clause cs ds) = cnf_holds ν cs && cnf_holds ν ds.
Proof.
  intros Hn Hds. induction Hds as [|d ds Hd Hds IH]; intros cs; simpl; [by rewrite andb_true_r|].
  rewrite IH, (push_clause_holds ν n) by done. by rewrite andb_assoc.
Qed.

Lemma push_clauses_ok n ds : clauses_ok n ds -> forall cs, clauses_ok n cs ->
  clauses_ok n (foldl push_clause cs ds).
Proof.
  induction 1 as [|d ds Hd Hds IH]; intros cs Hcs; simpl; [done|]. by apply IH, push_clause_ok.
Qed.

(** ** The clauses of a gate *)

(** The valuation [ν] gives gate [index] of kind [k] its value. *)
Definition gate_agrees (ν : nat -> bool) (index : nat) (k : GateKind) : bool :=
  let v x := ν (S x) in
  match k with
  | Const b => eqb (v index) b
  | Input _ => true
  | Not a => eqb (v index) (negb (v a))
  | And a b => eqb (v index) (v a && v b)
  | Or a b => eqb (v index) (v a || v b)
  | Xor a b => eqb (v index) (xorb (v a) (v b))
  | Mux sel t f => eqb (v index) (if v sel then v t else v f)
  end.

Section gate.
Context (n index : nat) (k : GateKind).
Hypothesis Hn : numbered n.
Hypothesis Hi : (index < n)%nat.

Let below : Prop := Forall (fun x => x < n)%nat (operands k).

Lemma gate_clauses_ok : below -> clauses_ok n (gate_clauses index k).
Proof.
  unfold gate_clauses, below, clauses_ok. rewrite (gate_lit n) by done.
  destruct k; simpl; intros Hk; rewrite ?Forall_cons in Hk; destruct_and?;
    repeat apply Forall_cons_2; try apply Forall_nil_2; try case_match;
    auto using lit_ok_neg, lit_lit_ok.
Qed.

Lemma gate_clauses_holds ν : below -> cnf_holds ν (gate_clauses index k) = gate_agrees ν index k.
Proof.
  unfold gate_clauses, below. rewrite (gate_lit n) by done.
  destruct k; simpl; intros Hk; rewrite ?Forall_cons in Hk; destruct_and?;
    repeat case_match; rewrite ?(lit_holds_neg _ n), ?(lit_holds_lit _ n) by auto using lit_lit_ok;
    repeat match goal with |- context [ν ?x] => destruct (ν x) end; done.
Qed.
End gate.

(** ** The whole encoding *)

(** Every gate of [gs], the first of them number [i], has its value. *)
Definition gates_agree (ν : nat -> bool) (gs : list GateKind) (i : nat) : Prop :=
  forall j k, gs !! j = Some k -> gate_agrees ν (i + j) k = true.

Lemma gates_agree_cons ν g gs i :
  gates_agree ν (g :: gs) i <-> gate_agrees ν i g = true /\ gates_agree ν gs (S i).
Proof.
  unfold gates_agree. split.
  - intros H. split; [rewrite <- (Nat.add_0_r i); by apply H|].
    intros j k Hj. replace (S i + j)%nat with (i + S j)%nat by lia. by apply H.
  - intros [Hg Hgs] [|j] k Hj; [injection Hj as <-; by rewrite Nat.add_0_r|].
    replace (i + S j)%nat with (S i + j)%nat by lia. by apply Hgs.
Qed.

Lemma encode_gates_spec n lim : numbered n -> forall gs index cs,
  (index + length gs = n)%nat -> Forall (fun k => Forall (fun x => x < n)%nat (operands k)) gs ->
  clauses_ok n cs ->
  outcome lim (encode_gates lim gs index cs) (fun cs' =>
    clauses_ok n cs' /\
    forall ν, cnf_holds ν cs' = true <-> cnf_holds ν cs = true /\ gates_agree ν gs index).
Proof.
  intros Hn gs. induction gs as [|g gs IH]; intros index cs Hlen Hops Hcs.
  { simpl. split; [done|]. intros ν. split; [|by intros [? _]]. intros ?. split; [done|]. by intros j k [=]. }
  apply Forall_cons in Hops as [Hg Hgs]. simpl in Hlen.
  cbn [encode_gates]. apply outcome_bind, outcome_check.
  eapply outcome_mono; [apply IH; [lia|done|]|].
  - apply push_clauses_ok; [|done]. apply gate_clauses_ok; [done|lia|done].
  - intros cs' [Hok Hν]. split; [done|]. intros ν. rewrite Hν, gates_agree_cons.
    rewrite (push_clauses_holds ν n), andb_true_iff by (try apply gate_clauses_ok; try done; lia).
    rewrite (gate_clauses_holds n) by (try done; lia). tauto.
Qed.

(** ** Valuations and runs of the circuit *)

(** The input values a valuation describes, and the valuation of a run. *)
Definition input_of_valuation (g : GateArena) (ν : nat -> bool) : nat -> bool :=
  fun n => match gate_ids g !! Input n with Some x => ν (S x) | None => false end.

Definition valuation_of_input (ι : nat -> bool) (g : GateArena) : nat -> bool :=
  fun v => gval ι g (v - 1)%nat.

Lemma gate_agrees_val ν g ι x k : consistent g -> gates g !! x = Some k ->
  (forall y, (y < x)%nat -> gval ι g y = ν (S y)) ->
  (forall n, k = Input n -> gval ι g x = ν (S x)) ->
  gate_agrees ν x k = true -> gval ι g x = ν (S x).
Proof.
  intros Hc Hx IH Hin Ha. pose proof (operands_earlier _ Hc _ _ Hx) as Hops.
  destruct k; try (by eapply Hin); unfold gate_agrees in Ha; simpl in Hops;
    rewrite ?Forall_cons in Hops; destruct_and?; apply eqb_prop in Ha;
    rewrite (gval_kind _ _ _ _ Hc Hx), Ha; unfold gval in IH; simpl; rewrite ?IH by done; done.
Qed.

Lemma valuation_run g ν : consistent g -> gates_agree ν (gates g) 0 ->
  forall x, (x < length (gates g))%nat -> gval (input_of_valuation g ν) g x = ν (S x).
Proof.
  intros Hc Ha x. induction (lt_wf x) as [x _ IH]. intros Hx.
  destruct (lookup_lt_is_Some_2 _ _ Hx) as [k Hk].
  eapply gate_agrees_val; [done|exact Hk| | |by apply (Ha x k)].
  - intros y Hy. apply IH; lia.
  - intros n ->. rewrite (gval_kind _ _ _ _ Hc Hk). simpl. unfold input_of_valuation.
    apply (ids_inverse _ Hc) in Hk. by rewrite Hk.
Qed.

Lemma run_valuation g ι : consistent g -> gates_agree (valuation_of_input ι g) (gates g) 0.
Proof.
  intros Hc x k Hx. simpl.
  assert (forall y, valuation_of_input ι g (S y) = gval ι g y) as E.
  { intros y. unfold valuation_of_input. f_equal. lia. }
  destruct k; unfold gate_agrees; rewrite ?E; try done;
    rewrite (gval_kind _ _ _ _ Hc Hx); apply eqb_true_iff; done.
Qed.

(** What the encoding of [assertion] promises. *)
Record cnf_post (g : GateArena) (assertion : GateId) (c : Cnf) : Prop := {
  cp_vars : num_vars c = length (gates g);
  cp_ok : clauses_ok (num_vars c) (clauses c);
  cp_model : forall ν, cnf_holds ν (clauses c) = true ->
    gval (input_of_valuation g ν) g assertion = true /\
    forall x, (x < length (gates g))%nat -> gval (input_of_valuation g ν) g x = ν (S x);
  cp_run : forall ι, gval ι g assertion = true -> cnf_holds (valuation_of_input ι g) (clauses c) = true;
}.

Lemma numbered_bounded g : numbered (length (gates g)) -> bounded g.
Proof. unfold numbered, bounded. lia. Qed.

Lemma encode_spec g assertion lim : wf g -> numbered (length (gates g)) ->
  (assertion < length (gates g))%nat ->
  outcome lim (encode_with_limits g assertion lim) (cnf_post g assertion).
Proof.
  intros Hwf Hn Ha. pose proof (wf_consistent _ Hwf (numbered_bounded _ Hn)) as Hc.
  unfold encode_with_limits. apply outcome_bind. eapply outcome_mono.
  { apply (encode_gates_spec (length (gates g)) lim Hn (gates g) 0 []); [done| |constructor].
    apply Forall_lookup. intros i k Hi. by apply (operands_lt _ (wf_range _ Hwf) i). }
  intros cs [Hok Hν]. simpl.
  assert (Forall (lit_ok (length (gates g))) [lit assertion]) as Hl by (constructor; [by apply lit_lit_ok|done]).
  assert (forall ν, cnf_holds ν (push_clause cs [lit assertion]) = true <->
    gates_agree ν (gates g) 0 /\ ν (S assertion) = true) as Hm.
  { intros ν. rewrite (push_clause_holds ν (length (gates g))), andb_true_iff, Hν by done.
    simpl. rewrite orb_false_r, (lit_holds_lit ν (length (gates g))) by done. simpl. tauto. }
  split; simpl; [done|by apply push_clause_ok| |].
  - intros ν [Hag HS]%Hm. pose proof (valuation_run _ _ Hc Hag) as Hrun.
    split; [by rewrite Hrun|done].
  - intros ι H. apply Hm. split; [by apply run_valuation|].
    unfold valuation_of_input. by rewrite Nat.sub_1_r.
Qed.

(** C6: encoding fails only when a poll sees a limit, and the models of the
    clauses are exactly the runs of the circuit in which the assertion holds: a
    model gives every gate its value, and every such run gives a model. *)
Theorem encode_correct g assertion lim : wf g -> numbered (length (gates g)) ->
  (assertion < length (gates g))%nat ->
  outcome lim (encode_with_limits g assertion lim) (cnf_post g assertion).
Proof. apply encode_spec. Qed.

Lemma encode_correct_witness :
  outcome unlimited (encode_with_limits sample_gates 4 unlimited) (cnf_post sample_gates 4).
Proof. apply encode_correct; [apply sample_gates_wf|vm_compute; reflexivity|vm_compute; lia]. Defined.
