(* ===== verification/Sat.v ===== *)
(** * SAT backends ([sat.rs])

    The bundled DPLL solver in full, and the code around the two external ones:
    [splr] and [varisat] are libraries, so a run is parameterised by what they
    report ([Backends]).  Every [Sat] answer is re-checked against the clauses. *)
From S2P Require Import Prelude Config Cnf.

Module SatResult.
Inductive t :=
  | Sat (values : list bool)  (* variable [v] is at index [v - 1] *)
  | Unsat
  | Unknown (message : string).
End SatResult.

(** [lit.unsigned_abs() as usize] *)
Definition var_of (l : Z) : nat := Z.abs_nat l.

(** ** Checking an assignment *)

Definition lit_is_satisfied (assignment : list bool) (l : Z) : bool :=
  let var := var_of l in
  if (var =? 0) || (length assignment <? var) then false
  else
    let value := default false (assignment !! (var - 1)) in
    if (0 <? l)%Z then value else negb value.

Definition sat_assignment_satisfies (clauses : list (list Z)) (assumptions : list Z)
    (assignment : list bool) : bool :=
  forallb (lit_is_satisfied assignment) assumptions
  && forallb (existsb (lit_is_satisfied assignment)) clauses.

(** ** The DPLL solver *)

Abbreviation PartialAssignment := (list (option bool)) (only parsing).

Definition assign_lit (a : PartialAssignment) (l : Z) : res (option PartialAssignment) :=
  let var := var_of l in
  let value := (0 <? l)%Z in
  current ← index a var;
  match current with
  | Some existing => if negb (eqb existing value) then Ok None else Ok (Some a)
  | None => a ← set_index a var (Some value); Ok (Some a)
  end.

Definition lit_value (a : PartialAssignment) (l : Z) : res (option bool) :=
  current ← index a (var_of l);
  Ok (match current with
      | Some value => Some (if (0 <? l)%Z then value else negb value)
      | None => None
      end).

Record DpllSolver := mkDpll {
  d_num_vars : nat;
  d_clauses : list (list Z);
  scores : list nat;
}.

(** What the scan of a clause finds: a true literal, or the number of unassigned
    literals and the last of them. *)
Inductive ClauseState :=
  | Satisfied
  | Open (unassigned : nat) (last_unassigned : Z).

Module DpllSolver.
Fixpoint add_scores (lits : list Z) (scores : list nat) : res (list nat) :=
  match lits with
  | [] => Ok scores
  | l :: lits =>
      s ← index scores (var_of l);
      scores ← set_index scores (var_of l) (s + 1);
      add_scores lits scores
  end.

Definition new_with_cancellation (num_vars : nat) (clauses : list (list Z)) : res DpllSolver :=
  scores ← add_scores (mjoin clauses) (replicate (num_vars + 1) 0);
  Ok {| d_num_vars := num_vars; d_clauses := clauses; scores := scores |}.

Fixpoint scan_clause (a : PartialAssignment) (clause : list Z) (unassigned : nat) (last : Z)
    : res ClauseState :=
  match clause with
  | [] => Ok (Open unassigned last)
  | l :: clause =>
      v ← lit_value a l;
      match v with
      | Some true => Ok Satisfied
      | Some false => scan_clause a clause unassigned last
      | None => scan_clause a clause (unassigned + 1) l
      end
  end.

(** One pass over the clauses; [None] is the early [return Ok(false)]. *)
Fixpoint propagate_pass (clauses : list (list Z)) (a : PartialAssignment) (changed : bool)
    : res (option (PartialAssignment * bool)) :=
  match clauses with
  | [] => Ok (Some (a, changed))
  | clause :: clauses =>
      state ← scan_clause a clause 0 0;
      match state with
      | Satisfied => propagate_pass clauses a changed
      | Open 0 _ => Ok None
      | Open 1 last =>
          r ← assign_lit a last;
          match r with
          | None => Ok None
          | Some a => propagate_pass clauses a true
          end
      | Open _ _ => propagate_pass clauses a changed
      end
  end.

(** The number of unassigned entries bounds the passes and the search depth. *)
Definition unassigned (a : PartialAssignment) : nat :=
  length (filter (fun o => o = None) a).

(** Running out of fuel, which the callers exclude, is a [Panic] here. *)
Fixpoint unit_propagate (self : DpllSolver) (fuel : nat) (lim : Limits) (round : nat)
    (a : PartialAssignment) : res (option PartialAssignment) :=
  match fuel with
  | O => Panic
  | S fuel =>
      _ ← check_limits lim [round];
      r ← propagate_pass (d_clauses self) a false;
      match r with
      | None => Ok None
      | Some (a, changed) =>
          if negb changed then Ok (Some a) else unit_propagate self fuel lim (S round) a
      end
  end.

Fixpoint any_true (a : PartialAssignment) (clause : list Z) : res bool :=
  match clause with
  | [] => Ok false
  | l :: clause =>
      v ← lit_value a l;
      match v with Some true => Ok true | _ => any_true a clause end
  end.

Fixpoint all_satisfied (a : PartialAssignment) (clauses : list (list Z)) : res bool :=
  match clauses with
  | [] => Ok true
  | clause :: clauses =>
      b ← any_true a clause;
      if (b : bool) then all_satisfied a clauses else Ok false
  end.

Definition all_clauses_satisfied (self : DpllSolver) (a : PartialAssignment) : res bool :=
  all_satisfied a (d_clauses self).

(** [max_by_key] returns the last of several maxima. *)
Fixpoint choose_loop (self : DpllSolver) (a : PartialAssignment) (vars : list nat)
    (best : option (nat * nat)) : res (option nat) :=
  match vars with
  | [] => Ok (fst <$> best)
  | var :: vars =>
      current ← index a var;
      match current with
      | Some _ => choose_loop self a vars best
      | None =>
          score ← index (scores self) var;
          choose_loop self a vars
            (match best with
             | Some (v, s) => if score <? s then best else Some (var, score)
             | None => Some (var, score)
             end)
      end
  end.

Definition choose_var (self : DpllSolver) (a : PartialAssignment) : res (option nat) :=
  choose_loop self a (seq 1 (d_num_vars self)) None.

Fixpoint search (self : DpllSolver) (fuel : nat) (lim : Limits) (a : PartialAssignment)
    : res (option PartialAssignment) :=
  match fuel with
  | O => Panic
  | S fuel =>
      _ ← check_limits lim [];
      r ← unit_propagate self (S (unassigned a)) (under 0 lim) 0 a;
      match r with
      | None => Ok None
      | Some a =>
          sat ← all_clauses_satisfied self a;
          if (sat : bool) then Ok (Some a)
          else
            chosen ← choose_var self a;
            match chosen with
            | None => Ok (Some a)
            | Some var =>
                true_branch ← set_index a var (Some true);
                r ← search self fuel (under 1 lim) true_branch;
                match r with
                | Some model => Ok (Some model)
                | None =>
                    false_branch ← set_index a var (Some false);
                    search self fuel (under 2 lim) false_branch
                end
            end
      end
  end.

Fixpoint assume (a : PartialAssignment) (assumptions : list Z) : res (option PartialAssignment) :=
  match assumptions with
  | [] => Ok (Some a)
  | l :: assumptions =>
      r ← assign_lit a l;
      match r with None => Ok None | Some a => assume a assumptions end
  end.

(** [model[var].unwrap_or(false)] for [var] in [1..=num_vars] *)
Definition read_model (n : nat) (model : PartialAssignment) : res (list bool) :=
  mapM (fun var => v ← index model var; Ok (match v with Some b => b | None => false end)) (seq 1 n).

(** [err.to_string()]; the text of [Error::Invalid] is not modelled. *)
Definition error_to_string (e : Error) : string :=
  match e with
  | Invalid context => "invalid " +:+ context +:+ ": "
  | Unsupported message => "unsupported feature: " +:+ message
  | Parse message => "parse error: " +:+ message
  | Timeout => "timeout"
  | Internal message => "internal error: " +:+ message
  end.

Definition solve (self : DpllSolver) (lim : Limits) (assumptions : list Z) : res SatResult.t :=
  r ← assume (replicate (d_num_vars self + 1) None) assumptions;
  match r with
  | None => Ok SatResult.Unsat
  | Some a =>
      match search self (S (unassigned a)) (under 0 lim) a with
      | Ok (Some model) =>
          values ← read_model (d_num_vars self) model;
          Ok (SatResult.Sat values)
      | Ok None => Ok SatResult.Unsat
      | Err Timeout =>
          if is_cancelled lim [1] then Ok (SatResult.Unknown "cancelled")
          else Ok (SatResult.Unknown "budget exhausted")
      | Err err => Ok (SatResult.Unknown (error_to_string err))
      | Panic => Panic
      end
  end.
End DpllSolver.

(** ** The external solvers *)

Module Splr.
Inductive Certificate := SAT (model : list Z) | UNSAT.
Inductive SolverError :=
  | EmptyClause | Inconsistent | RootLevelConflict | TimeOut | OtherError (text : string).
(** [try_from] fails with a result, or succeeds and [solve] gives one; either may panic. *)
Inductive outcome :=
  | Solved (r : Certificate + SolverError)
  | NotBuilt (r : Certificate + SolverError)
  | Panicked.
End Splr.

Module Varisat.
(** Literals of a model as [(index, is_positive)].  Unlike those of splr, panics of
    varisat are not caught. *)
Inductive outcome :=
  | OkTrue (model : option (list (nat * bool)))
  | OkFalse
  | Failed (text : string)
  | Panicked.
End Varisat.

(** What the libraries report.  [Limits] stands for the timing of the run. *)
Class Backends := {
  splr : Limits -> list (list Z) -> Splr.outcome;
  varisat : nat -> list (list Z) -> list Z -> Varisat.outcome;
}.

Section external.
Context `{Backends}.

Definition put_literal (num_vars : nat) (assignment : list bool) (l : Z) : list bool :=
  let index := var_of l in
  if (1 <=? index) && (index <=? num_vars) then <[index - 1 := (0 <? l)%Z]> assignment
  else assignment.

Definition splr_assignment (num_vars : nat) (model : list Z) : list bool :=
  foldl (put_literal num_vars) (replicate num_vars false) model.

(** The arms are the same whether [try_from] or [solve] produced the result. *)
Definition splr_result (num_vars : nat) (r : Splr.Certificate + Splr.SolverError) : SatResult.t :=
  match r with
  | inl (Splr.SAT model) => SatResult.Sat (splr_assignment num_vars model)
  | inl Splr.UNSAT => SatResult.Unsat
  | inr (Splr.EmptyClause | Splr.Inconsistent | Splr.RootLevelConflict) => SatResult.Unsat
  | inr Splr.TimeOut => SatResult.Unknown "budget exhausted"
  | inr (Splr.OtherError err) => SatResult.Unknown ("splr error: " +:+ err)
  end.

Definition solve_with_splr (num_vars : nat) (clauses : list (list Z)) (assumptions : list Z)
    (lim : Limits) : SatResult.t :=
  if deadline_passed lim [0] then SatResult.Unknown "budget exhausted"
  else
    match splr lim (clauses ++ ((fun a => [a]) <$> assumptions)) with
    | Splr.Solved r | Splr.NotBuilt r => splr_result num_vars r
    | Splr.Panicked => SatResult.Unknown "splr backend panicked"
    end.

Definition put_indexed (assignment : list bool) (l : nat * bool) : list bool :=
  let '(index, positive) := l in
  if index <? length assignment then <[index := positive]> assignment else assignment.

Definition solve_with_varisat (num_vars : nat) (clauses : list (list Z)) (assumptions : list Z)
    (lim : Limits) : res SatResult.t :=
  if has_deadline lim then Ok (SatResult.Unknown "varisat backend does not support deadlines")
  else
    match varisat num_vars clauses assumptions with
    | Varisat.OkTrue model =>
        Ok (SatResult.Sat (foldl put_indexed (replicate num_vars false) (default [] model)))
    | Varisat.OkFalse => Ok SatResult.Unsat
    | Varisat.Failed err => Ok (SatResult.Unknown ("varisat error: " +:+ err))
    | Varisat.Panicked => Panic
    end.

Definition run_backend (backend : SatBackendKind) (num_vars : nat) (clauses : list (list Z))
    (assumptions : list Z) (lim : Limits) : res SatResult.t :=
  match backend with
  | Splr => Ok (solve_with_splr num_vars clauses assumptions lim)
  | Varisat => solve_with_varisat num_vars clauses assumptions lim
  | Dpll =>
      solver ← DpllSolver.new_with_cancellation num_vars clauses;
      DpllSolver.solve solver lim assumptions
  end.

Definition solve_cnf_with_cancellation (backend : SatBackendKind) (num_vars : nat)
    (clauses : list (list Z)) (assumptions : list Z) (lim : Limits) : res SatResult.t :=
  if is_cancelled lim [0] then Ok (SatResult.Unknown "cancelled")
  else if deadline_passed lim [0] then Ok (SatResult.Unknown "budget exhausted")
  else
    result ← run_backend backend num_vars clauses assumptions (under 1 lim);
    match result with
    | SatResult.Sat assignment =>
        if sat_assignment_satisfies clauses assumptions assignment then Ok result
        else Ok (SatResult.Unknown "SAT backend returned invalid assignment")
    | _ => Ok result
    end.
End external.
