(* ===== verification/SatFacts.v ===== *)
(** * Correctness of the SAT layer

    The DPLL solver decides: a [Sat] answer satisfies the clauses and the
    assumptions, an [Unsat] answer is right, and it answers unless a poll sees a
    limit.  For the external solvers, [Sat] answers are right because they are
    re-checked; [Unsat] answers are right if the library's are ([trusted]). *)
From S2P Require Import Prelude Config Cnf CnfFacts Sat.

(** ** Partial assignments *)

(** [l]'s value under a partial assignment, without the bounds check. *)
Definition value (a : list (option bool)) (l : Z) : option bool :=
  match a !! var_of l with
  | Some (Some v) => Some (if (0 <? l)%Z then v else negb v)
  | _ => None
  end.

(** [ν] completes the partial assignment. *)
Definition extends (ν : nat -> bool) (a : list (option bool)) : Prop :=
  forall v b, a !! v = Some (Some b) -> ν v = b.

Definition open_lits (a : list (option bool)) (c : list Z) : list Z := filter (fun l => value a l = None) c.
Definition true_in (a : list (option bool)) (c : list Z) : bool :=
  existsb (fun l => bool_decide (value a l = Some true)) c.

Section partial.
Context (n : nat) (a : list (option bool)).
Hypothesis Ha : length a = S n.

Lemma lit_ok_lookup l : lit_ok n l -> exists o, a !! var_of l = Some o.
Proof.
  intros Hl. apply lookup_lt_is_Some_2. unfold lit_ok, var_of in *. lia.
Qed.

Lemma lit_value_ok l : lit_ok n l -> lit_value a l = Ok (value a l).
Proof.
  intros [o Ho]%lit_ok_lookup. unfold lit_value, value. rewrite (index_Some _ _ _ Ho), Ho.
  by destruct o.
Qed.

Lemma value_extends ν l b : extends ν a -> value a l = Some b -> lit_holds ν l = b.
Proof.
  unfold value, lit_holds. intros He. fold (var_of l). destruct (a !! var_of l) as [[v|]|] eqn:E; try done.
  intros [= <-]. by rewrite (He _ _ E).
Qed.

Lemma true_in_holds ν c : extends ν a -> true_in a c = true -> clause_holds ν c = true.
Proof.
  intros He (l & Hl & Hv)%existsb_exists. apply existsb_exists. exists l. split; [done|].
  apply bool_decide_eq_true in Hv. by apply (value_extends ν).
Qed.

(** A clause with no true literal depends on its open ones. *)
Lemma clause_holds_open ν c : extends ν a -> true_in a c = false ->
  clause_holds ν c = clause_holds ν (open_lits a c).
Proof.
  intros He. unfold true_in, open_lits. induction c as [|l c IH]; [done|]. simpl.
  intros [Hl Hc]%orb_false_iff. apply bool_decide_eq_false in Hl.
  rewrite filter_cons. destruct (value a l) as [b|] eqn:E.
  - rewrite decide_False by done. rewrite (value_extends ν l b) by done.
    destruct b; [done|]. by apply IH.
  - rewrite decide_True by done. simpl. by rewrite IH.
Qed.

Lemma scan_clause_ok c : Forall (lit_ok n) c -> forall u d,
  DpllSolver.scan_clause a c u d =
  Ok (if true_in a c then Satisfied
      else Open (u + length (open_lits a c)) (default d (last (open_lits a c)))).
Proof.
  unfold open_lits. induction 1 as [|l c Hl Hc IH]; intros u d; simpl.
  { by rewrite Nat.add_0_r. }
  rewrite (lit_value_ok l Hl). simpl. rewrite filter_cons. destruct (value a l) as [[]|] eqn:E.
  - done.
  - rewrite decide_False by done. rewrite IH. done.
  - rewrite decide_True by done. rewrite IH. simpl. destruct (true_in a c); [done|].
    f_equal. f_equal; [lia|]. rewrite last_cons. by destruct (last _).
Qed.

Lemma any_true_ok c : Forall (lit_ok n) c -> DpllSolver.any_true a c = Ok (true_in a c).
Proof.
  induction 1 as [|l c Hl Hc IH]; [done|]. simpl. rewrite (lit_value_ok l Hl). simpl.
  rewrite IH. by destruct (value a l) as [[]|].
Qed.

Lemma all_satisfied_ok cs : clauses_ok n cs -> DpllSolver.all_satisfied a cs = Ok (forallb (true_in a) cs).
Proof.
  induction 1 as [|c cs Hc Hcs IH]; [done|]. simpl. rewrite (any_true_ok c Hc). simpl.
  rewrite IH. by destruct (true_in a c).
Qed.

(** *** Assigning a literal *)

Lemma insert_open v b : a !! v = Some None ->
  exists a', set_index a v (Some b) = Ok a' /\ length a' = S n /\
    DpllSolver.unassigned a = S (DpllSolver.unassigned a') /\
    (forall ν, extends ν a' <-> extends ν a /\ ν v = b).
Proof.
  intros Ho. pose proof (lookup_lt_Some _ _ _ Ho). unfold set_index. rewrite ltb_t by done.
  eexists. split; [done|]. split; [by rewrite length_insert|]. split.
  - unfold DpllSolver.unassigned. rewrite insert_take_drop by done.
    rewrite <- (take_drop_middle a v None Ho) at 1.
    rewrite !filter_app, !filter_cons, !length_app. simpl. lia.
  - intros ν. split.
    + intros He. split; [|by apply He, list_lookup_insert_eq].
      intros u b' Hu. apply He. rewrite list_lookup_insert_ne; [done|]. intros <-. congruence.
    + intros [He Hv] u b' Hu. destruct (decide (u = v)) as [->|Hne].
      * rewrite list_lookup_insert_eq in Hu by done. congruence.
      * rewrite list_lookup_insert_ne in Hu by done. by apply He.
Qed.

Lemma lit_holds_true ν l : lit_holds ν l = true <-> ν (var_of l) = (0 <? l)%Z.
Proof.
  unfold lit_holds. fold (var_of l). destruct (0 <? l)%Z; [done|]. by rewrite negb_true_iff.
Qed.

Lemma assign_open l : lit_ok n l -> value a l = None ->
  exists a', assign_lit a l = Ok (Some a') /\ length a' = S n /\
    DpllSolver.unassigned a = S (DpllSolver.unassigned a') /\
    (forall ν, extends ν a' <-> extends ν a /\ lit_holds ν l = true).
Proof.
  intros Hl Hv. destruct (lit_ok_lookup l Hl) as [o Ho]. unfold value in Hv. rewrite Ho in Hv.
  destruct o as [v|]; [done|].
  destruct (insert_open (var_of l) (0 <? l)%Z Ho) as (a' & E & Hlen & Hun & Hν).
  exists a'. split_and!; [|done..|intros ν; by rewrite lit_holds_true].
  unfold assign_lit. by rewrite (index_Some _ _ _ Ho); simpl; rewrite E.
Qed.

(** Assigning an assumption. *)
Lemma assign_spec l : lit_ok n l -> exists r, assign_lit a l = Ok r /\
  match r with
  | None => forall ν, extends ν a -> lit_holds ν l = false
  | Some a' => length a' = S n /\ (forall ν, extends ν a' <-> extends ν a /\ lit_holds ν l = true)
  end.
Proof.
  intros Hl. destruct (value a l) as [b|] eqn:Hv.
  - unfold value in Hv. destruct (a !! var_of l) as [[v|]|] eqn:Ho; try done.
    unfold assign_lit. rewrite (index_Some _ _ _ Ho). simpl.
    destruct (eqb v (0 <? l)%Z) eqn:E; simpl; eexists; (split; [done|]).
    + split; [done|]. intros ν. rewrite lit_holds_true. split; [|tauto]. intros He.
      split; [done|]. rewrite (He _ _ Ho). by apply eqb_prop.
    + intros ν He. apply not_true_iff_false. rewrite lit_holds_true, (He _ _ Ho).
      by apply eqb_false_iff.
  - destruct (assign_open l Hl Hv) as (a' & E & ? & _ & ?). by exists (Some a').
Qed.
End partial.

(** ** Unit propagation *)

(** The clause is true, or still has an unassigned literal. *)
Definition settled (a : list (option bool)) (c : list Z) : Prop :=
  true_in a c = true \/ open_lits a c <> [].

(** [a'] follows from [a] and the clauses. *)
Record implied (n : nat) (cs : list (list Z)) (a a' : list (option bool)) : Prop := {
  im_length : length a' = S n;
  im_stronger : forall ν, extends ν a' -> extends ν a;
  im_models : forall ν, cnf_holds ν cs = true -> extends ν a -> extends ν a';
}.

Lemma implied_refl n cs a : length a = S n -> implied n cs a a.
Proof. by split. Qed.

Lemma implied_trans n cs a b c : implied n cs a b -> implied n cs b c -> implied n cs a c.
Proof. intros [] []. split; auto. Qed.

Lemma implied_cons n c cs a a' : implied n cs a a' -> implied n (c :: cs) a a'.
Proof. intros [? ? H]. split; try done. intros ν [_ ?]%andb_true_iff. auto. Qed.

Definition pass_post (n : nat) (cs : list (list Z)) (a : list (option bool)) (ch : bool)
    (r : res (option (list (option bool) * bool))) : Prop :=
  match r with
  | Ok None => forall ν, extends ν a -> cnf_holds ν cs = false
  | Ok (Some (a', ch')) => implied n cs a a' /\
      (ch' = ch /\ a' = a /\ Forall (settled a) cs \/
       ch' = true /\ DpllSolver.unassigned a' < DpllSolver.unassigned a)
  | _ => False
  end.

Lemma pass_post_skip n c cs a ch r : settled a c -> pass_post n cs a ch r -> pass_post n (c :: cs) a ch r.
Proof.
  intros Hc. destruct r as [[[a' ch']|]|e|]; simpl; try done.
  - intros [Hi Hch]. split; [by apply implied_cons|].
    destruct Hch as [(? & ? & ?)|?]; [left|by right]. split_and!; [done..|by constructor].
  - intros H ν He. rewrite (H ν He). apply andb_false_r.
Qed.

Lemma pass_post_unit n c cs a a1 ch r : length a1 = S n ->
  (forall ν, extends ν a1 <-> extends ν a /\ clause_holds ν c = true) ->
  DpllSolver.unassigned a = S (DpllSolver.unassigned a1) ->
  pass_post n cs a1 true r -> pass_post n (c :: cs) a ch r.
Proof.
  intros Hlen Hν Hun. destruct r as [[[a' ch']|]|e|]; simpl; try done.
  - intros [[Hl Hs Hm] Hch]. split.
    + split; [done|intros ν H; by apply Hν, Hs|]. intros ν [Hc Hcs]%andb_true_iff He. by apply Hm, Hν.
    + right. destruct Hch as [(-> & -> & _)|[-> ?]]; split; auto; lia.
  - intros H ν He. simpl. destruct (clause_holds ν c) eqn:E; [|done]. by apply H, Hν.
Qed.

Lemma propagate_pass_spec n cs : clauses_ok n cs -> forall a ch, length a = S n ->
  pass_post n cs a ch (DpllSolver.propagate_pass cs a ch).
Proof.
  induction 1 as [|c cs Hc Hcs IH]; intros a ch Ha; simpl.
  { split; [by apply implied_refl|]. left. split_and!; [done..|constructor]. }
  rewrite (scan_clause_ok n a Ha c Hc). simpl. destruct (true_in a c) eqn:Ht.
  { apply pass_post_skip; [by left|]. by apply IH. }
  pose proof (fun ν He => clause_holds_open a ν c He Ht) as Hopen.
  destruct (open_lits a c) as [|l [|l' ls]] eqn:Eo.
  - simpl. intros ν He. by rewrite (Hopen ν He).
  - simpl. assert (l ∈ open_lits a c) as Hin by (rewrite Eo; by constructor).
    apply list_elem_of_filter in Hin as [Hv Hin].
    rewrite Forall_forall in Hc. specialize (Hc l Hin).
    destruct (assign_open n a Ha l Hc Hv) as (a1 & -> & Ha1 & Hun & Hν). simpl.
    apply (pass_post_unit n c cs a a1); [done| |done|by apply IH].
    intros ν. rewrite Hν. split; intros [He Hh]; (split; [done|]).
    + rewrite (Hopen ν He). simpl. by rewrite Hh.
    + rewrite (Hopen ν He) in Hh. simpl in Hh. by rewrite orb_false_r in Hh.
  - simpl. apply pass_post_skip; [right; by rewrite Eo|]. by apply IH.
Qed.

(** The result of propagating to a fixed point. *)
Definition propagate_post (n : nat) (cs : list (list Z)) (a : list (option bool))
    (r : option (list (option bool))) : Prop :=
  match r with
  | None => forall ν, extends ν a -> cnf_holds ν cs = false
  | Some a' => implied n cs a a' /\ Forall (settled a') cs /\
      DpllSolver.unassigned a' <= DpllSolver.unassigned a
  end.

Lemma unit_propagate_spec self n lim : clauses_ok n (d_clauses self) -> forall fuel round a,
  length a = S n -> DpllSolver.unassigned a < fuel ->
  outcome lim (DpllSolver.unit_propagate self fuel lim round a) (propagate_post n (d_clauses self) a).
Proof.
  intros Hcs fuel. induction fuel as [|fuel IH]; intros round a Ha Hfuel; [lia|].
  cbn [DpllSolver.unit_propagate]. apply outcome_bind.
  destruct (check_limits_cases lim [round]) as [->|[-> ?]]; [|done]. simpl.
  pose proof (propagate_pass_spec n _ Hcs a false Ha) as H. unfold pass_post in H.
  destruct (DpllSolver.propagate_pass (d_clauses self) a false) as [[[a' ch]|]|e|]; try done. simpl.
  destruct H as [Hi [(-> & -> & Hs)|[-> Hlt]]]; simpl; [done|].
  eapply outcome_mono; [apply IH; [apply Hi|lia]|].
  intros [b|]; simpl.
  - intros (Hi' & Hs & Hle). split_and!; [by eapply implied_trans|done|lia].
  - intros H ν He. destruct (cnf_holds ν (d_clauses self)) eqn:E; [|done].
    rewrite <- E. apply H. by apply Hi.
Qed.

(** ** Choosing a variable *)

Definition best_ok (n : nat) (a : list (option bool)) (b : nat) : Prop :=
  1 <= b <= n /\ a !! b = Some None.

Lemma choose_loop_spec self n a : length a = S n -> length (scores self) = S n -> forall vars best,
  Forall (fun v => 1 <= v <= n) vars -> (forall b s, best = Some (b, s) -> best_ok n a b) ->
  exists r, DpllSolver.choose_loop self a vars best = Ok r /\
    (forall b, r = Some b -> best_ok n a b) /\
    (r = None -> best = None /\ Forall (fun v => exists b, a !! v = Some (Some b)) vars).
Proof.
  intros Ha Hsc vars. induction vars as [|v vars IH]; intros best Hv Hb.
  { eexists. split; [done|]. split; [|by destruct best].
    intros b E. destruct best as [[u s]|]; [|done]. injection E as <-. by eapply Hb. }
  apply Forall_cons in Hv as [Hv Hvs]. simpl.
  destruct (lookup_lt_is_Some_2 a v) as [o Ho]; [lia|].
  destruct (lookup_lt_is_Some_2 (scores self) v) as [s Hs]; [lia|].
  rewrite (index_Some _ _ _ Ho). simpl. destruct o as [b|].
  - destruct (IH best Hvs Hb) as (r & E & H1 & H2). exists r. split_and!; [done..|].
    intros Hr. destruct (H2 Hr). split; [done|]. constructor; eauto.
  - rewrite (index_Some _ _ _ Hs). simpl.
    set (best' := match best with Some (_, s0) => if s <? s0 then best else Some (v, s)
                  | None => Some (v, s) end).
    assert (forall u t, best' = Some (u, t) -> best_ok n a u) as Hb'.
    { intros u t E. unfold best' in E.
      destruct best as [[w s0]|]; [destruct (s <? s0)|]; simplify_eq; by (split; [lia|done]) || by eapply Hb. }
    destruct (IH best' Hvs Hb') as (r & E & H1 & H2).
    exists r. split_and!; [|done|].
    + rewrite <- E. unfold best'. by destruct best as [[]|].
    + intros Hr. destruct (H2 Hr) as [Hn _]. unfold best' in Hn. by destruct best as [[w s0]|]; [destruct (s <? s0)|].
Qed.

Lemma choose_var_spec self a : length a = S (d_num_vars self) ->
  length (scores self) = S (d_num_vars self) ->
  exists r, DpllSolver.choose_var self a = Ok r /\
    (forall b, r = Some b -> best_ok (d_num_vars self) a b) /\
    (r = None -> forall v, 1 <= v <= d_num_vars self -> exists b, a !! v = Some (Some b)).
Proof.
  intros Ha Hs. destruct (choose_loop_spec self _ a Ha Hs (seq 1 (d_num_vars self)) None) as (r & E & H1 & H2).
  - apply Forall_forall. intros v Hv%elem_of_seq. lia.
  - done.
  - exists r. split_and!; [done..|]. intros Hr v Hv. destruct (H2 Hr) as [_ Hall].
    rewrite Forall_forall in Hall. apply Hall, elem_of_seq. lia.
Qed.

(** ** Search *)

Definition search_post (n : nat) (cs : list (list Z)) (a : list (option bool))
    (r : option (list (option bool))) : Prop :=
  match r with
  | None => forall ν, extends ν a -> cnf_holds ν cs = false
  | Some m => length m = S n /\ forallb (true_in m) cs = true /\ (forall ν, extends ν m -> extends ν a)
  end.

(** With every variable assigned, a settled clause is true. *)
Lemma settled_true n a cs : length a = S n -> clauses_ok n cs -> Forall (settled a) cs ->
  (forall v, 1 <= v <= n -> exists b, a !! v = Some (Some b)) -> forallb (true_in a) cs = true.
Proof.
  intros Ha Hcs Hs Hall. apply forallb_forall. intros c Hc%list_elem_of_In.
  rewrite Forall_forall in Hs. destruct (Hs c Hc) as [?|Ho]; [done|]. destruct Ho.
  unfold clauses_ok in Hcs. rewrite Forall_forall in Hcs. specialize (Hcs c Hc).
  rewrite Forall_forall in Hcs. destruct (open_lits a c) as [|l ls] eqn:E; [done|].
  assert (l ∈ open_lits a c) as Hin by (rewrite E; by constructor).
  apply list_elem_of_filter in Hin as [Hv Hin]. specialize (Hcs l Hin).
  destruct (Hall (var_of l)) as [b Hb]; [unfold lit_ok, var_of in *; lia|].
  unfold value in Hv. by rewrite Hb in Hv.
Qed.

Lemma search_post_weaken n cs a b r : implied n cs a b -> search_post n cs b r -> search_post n cs a r.
Proof.
  intros [Hl Hs Hm]. destruct r as [m|]; simpl.
  - intros (? & ? & He). split_and!; auto.
  - intros H ν He. destruct (cnf_holds ν cs) eqn:E; [|done]. rewrite <- E. auto.
Qed.

Lemma search_spec self lim : clauses_ok (d_num_vars self) (d_clauses self) ->
  length (scores self) = S (d_num_vars self) -> forall fuel lim' a,
  (never lim -> never lim') ->
  length a = S (d_num_vars self) -> DpllSolver.unassigned a < fuel ->
  outcome lim (DpllSolver.search self fuel lim' a) (search_post (d_num_vars self) (d_clauses self) a).
Proof.
  intros Hcs Hsc fuel. induction fuel as [|fuel IH]; intros lim' a Hnev Ha Hfuel; [lia|].
  cbn [DpllSolver.search]. apply outcome_bind.
  destruct (check_limits_cases lim' []) as [->|[-> ?]]; [|split; [done|]; auto]. simpl.
  apply outcome_bind. eapply outcome_mono.
  { apply (outcome_weaken _ (under 0 lim')); [intros ?; by apply never_under, Hnev|].
    apply (unit_propagate_spec self _ _ Hcs (S (DpllSolver.unassigned a))); [done|lia]. }
  intros [b|]; simpl; [|done]. intros (Hi & Hset & Hle).
  unfold DpllSolver.all_clauses_satisfied. pose proof (im_length _ _ _ _ Hi) as Hb.
  rewrite (all_satisfied_ok _ b Hb _ Hcs). simpl.
  destruct (forallb (true_in b) (d_clauses self)) eqn:Hsat.
  { simpl. split_and!; [done|done|apply Hi]. }
  destruct (choose_var_spec self b Hb Hsc) as (chosen & -> & Hsome & Hnone). simpl.
  destruct chosen as [v|].
  2:{ by rewrite (settled_true _ _ _ Hb Hcs Hset (Hnone eq_refl)) in Hsat. }
  destruct (Hsome v eq_refl) as [Hv Hopen].
  destruct (insert_open _ b Hb v true Hopen) as (t & -> & Ht & Hut & Heqt). simpl.
  apply outcome_bind. eapply outcome_mono.
  { apply (IH (under 1 lim') t); [intros ?; by apply never_under, Hnev|done|lia]. }
  intros [m|]; simpl.
  - intros (? & ? & He). split_and!; [done..|]. intros ν Hν. by apply Hi, Heqt, He.
  - intros Hfalse. destruct (insert_open _ b Hb v false Hopen) as (f & -> & Hf & Huf & Heqf). simpl.
    eapply outcome_mono; [apply (IH (under 2 lim') f); [intros ?; by apply never_under, Hnev|done|lia]|].
    intros r Hr. apply (search_post_weaken _ _ _ _ _ Hi). destruct r as [m|]; simpl in *.
    + destruct Hr as (? & ? & He). split_and!; [done..|]. intros ν Hν. by apply Heqf, He.
    + intros ν He. destruct (ν v) eqn:Ev; [by apply Hfalse, Heqt|by apply Hr, Heqf].
Qed.

(** ** The DPLL solver *)

Definition unsat (cs : list (list Z)) (assumptions : list Z) : Prop :=
  forall ν, forallb (lit_holds ν) assumptions = true -> cnf_holds ν cs = false.

(** The valuation a list of values describes. *)
Definition valuation (values : list bool) : nat -> bool := fun v => default false (values !! (v - 1)).

Lemma lit_is_satisfied_ok values l : lit_ok (length values) l ->
  lit_is_satisfied values l = lit_holds (valuation values) l.
Proof.
  unfold lit_ok, lit_is_satisfied, lit_holds, valuation. fold (var_of l). intros Hl.
  rewrite (proj2 (Nat.eqb_neq (var_of l) 0)) by (unfold var_of; lia).
  rewrite ltb_f by (unfold var_of; lia). done.
Qed.

Lemma existsb_ext_in {A} (f g : A -> bool) l : (forall x, x ∈ l -> f x = g x) -> existsb f l = existsb g l.
Proof.
  induction l as [|x l IH]; intros H; [done|]. simpl. rewrite H by constructor.
  f_equal. apply IH. intros y Hy. apply H. by constructor.
Qed.

Lemma forallb_ext_in {A} (f g : A -> bool) l : (forall x, x ∈ l -> f x = g x) -> forallb f l = forallb g l.
Proof.
  induction l as [|x l IH]; intros H; [done|]. simpl. rewrite H by constructor.
  f_equal. apply IH. intros y Hy. apply H. by constructor.
Qed.

Lemma sat_assignment_satisfies_ok cs assumptions values :
  clauses_ok (length values) cs -> Forall (lit_ok (length values)) assumptions ->
  sat_assignment_satisfies cs assumptions values =
  forallb (lit_holds (valuation values)) assumptions && cnf_holds (valuation values) cs.
Proof.
  intros Hcs Has. unfold sat_assignment_satisfies, cnf_holds. unfold clauses_ok in Hcs.
  rewrite Forall_forall in Hcs. rewrite Forall_forall in Has. f_equal; apply forallb_ext_in.
  - intros l Hl. by apply lit_is_satisfied_ok, Has.
  - intros c Hc. apply existsb_ext_in. intros l Hl. apply lit_is_satisfied_ok.
    specialize (Hcs c Hc). rewrite Forall_forall in Hcs. by apply Hcs.
Qed.

Lemma add_scores_ok n lits : Forall (lit_ok n) lits -> forall sc, length sc = S n ->
  exists sc', DpllSolver.add_scores lits sc = Ok sc' /\ length sc' = S n.
Proof.
  induction 1 as [|l lits Hl Hls IH]; intros sc Hsc; [by exists sc|]. simpl.
  assert (var_of l < length sc) as Hlt by (unfold lit_ok, var_of in *; lia).
  destruct (lookup_lt_is_Some_2 _ _ Hlt) as [s Hs]. rewrite (index_Some _ _ _ Hs). simpl.
  unfold set_index. rewrite ltb_t by done. simpl. apply IH. by rewrite length_insert.
Qed.

Lemma new_ok n cs : clauses_ok n cs -> exists self, DpllSolver.new_with_cancellation n cs = Ok self /\
  d_num_vars self = n /\ d_clauses self = cs /\ length (scores self) = S n.
Proof.
  intros Hcs. unfold DpllSolver.new_with_cancellation.
  destruct (add_scores_ok n (mjoin cs)) with (sc := replicate (n + 1) 0) as (sc & -> & Hsc).
  - by apply Forall_join.
  - rewrite length_replicate. lia.
  - simpl. eexists. split; [done|]. done.
Qed.

Lemma assume_spec n assumptions : Forall (lit_ok n) assumptions -> forall a, length a = S n ->
  exists r, DpllSolver.assume a assumptions = Ok r /\
    match r with
    | None => forall ν, extends ν a -> forallb (lit_holds ν) assumptions = false
    | Some a' => length a' = S n /\
        (forall ν, extends ν a' <-> extends ν a /\ forallb (lit_holds ν) assumptions = true)
    end.
Proof.
  induction 1 as [|l ls Hl Hls IH]; intros a Ha; simpl.
  { eexists. split; [done|]. split; [done|]. tauto. }
  destruct (assign_spec n a Ha l Hl) as (r & -> & Hr). simpl. destruct r as [a1|].
  - destruct Hr as [Ha1 Hν]. destruct (IH a1 Ha1) as (r & E & Hr). exists r. split; [done|].
    destruct r as [a'|].
    + destruct Hr as [Hl' Hν']. split; [done|]. intros ν. rewrite Hν', Hν, andb_true_iff. tauto.
    + intros ν He. destruct (lit_holds ν l) eqn:E'; [|done]. by apply Hr, Hν.
  - eexists. split; [done|]. intros ν He. by rewrite Hr.
Qed.

Lemma extends_empty ν n : extends ν (replicate n None).
Proof. intros v b Hv. apply lookup_replicate in Hv as [[=] _]. Qed.

Lemma read_model_ok n m : length m = S n -> exists values, DpllSolver.read_model n m = Ok values /\
  length values = n /\ forall v, 1 <= v <= n -> valuation values v = match m !! v with Some (Some b) => b | _ => false end.
Proof.
  intros Hm. unfold DpllSolver.read_model, valuation.
  assert (forall k s, s + k <= S n -> exists values,
    mapM (fun var => v ← index m var; Ok (match v with Some b => b | None => false end)) (seq s k) = Ok values /\
    length values = k /\ forall j, j < k -> default false (values !! j) = match m !! (s + j) with Some (Some b) => b | _ => false end) as H.
  { induction k as [|k IH]; intros s Hs; [by exists []; split_and!; [..|lia]|].
    simpl. destruct (lookup_lt_is_Some_2 m s) as [o Ho]; [lia|]. rewrite (index_Some _ _ _ Ho). simpl.
    destruct (IH (S s)) as (vs & -> & Hl & Hj); [lia|]. simpl. eexists. split; [done|]. split; [simpl; lia|].
    intros [|j] Hlt; simpl.
    - rewrite Nat.add_0_r, Ho. by destruct o.
    - rewrite Hj by lia. by replace (s + S j) with (S s + j) by lia. }
  destruct (H n 1) as (vs & E & Hl & Hj); [lia|]. exists vs. split_and!; [done..|].
  intros v Hv. rewrite Hj by lia. by replace (1 + (v - 1)) with v by lia.
Qed.

(** The completion of a partial assignment by [false]. *)
Definition completion (m : list (option bool)) : nat -> bool :=
  fun v => match m !! v with Some (Some b) => b | _ => false end.

Lemma completion_extends m : extends (completion m) m.
Proof. intros v b Hv. unfold completion. by rewrite Hv. Qed.

Lemma lit_holds_agree n ν ν' l : (forall v, 1 <= v <= n -> ν v = ν' v) -> lit_ok n l ->
  lit_holds ν l = lit_holds ν' l.
Proof. unfold lit_ok, lit_holds. intros H Hl. by rewrite H by lia. Qed.

Lemma cnf_holds_agree n ν ν' cs : (forall v, 1 <= v <= n -> ν v = ν' v) -> clauses_ok n cs ->
  cnf_holds ν cs = cnf_holds ν' cs.
Proof.
  intros H Hcs. unfold clauses_ok in Hcs. rewrite Forall_forall in Hcs.
  apply forallb_ext_in. intros c Hc. specialize (Hcs c Hc). rewrite Forall_forall in Hcs.
  apply existsb_ext_in. intros l Hl. by apply (lit_holds_agree n); [|apply Hcs].
Qed.

Lemma forallb_lit_agree n ν ν' ls : (forall v, 1 <= v <= n -> ν v = ν' v) -> Forall (lit_ok n) ls ->
  forallb (lit_holds ν) ls = forallb (lit_holds ν') ls.
Proof.
  intros H Hls. rewrite Forall_forall in Hls. apply forallb_ext_in.
  intros l Hl. by apply (lit_holds_agree n); [|apply Hls].
Qed.

(** A right answer: a satisfying assignment, a proof-worthy [Unsat], or [Unknown]
    for one of the reasons [allowed]. *)
Definition answer_ok (n : nat) (cs : list (list Z)) (assumptions : list Z)
    (allowed : string -> Prop) (r : SatResult.t) : Prop :=
  match r with
  | SatResult.Sat values => length values = n /\
      forallb (lit_holds (valuation values)) assumptions = true /\ cnf_holds (valuation values) cs = true
  | SatResult.Unsat => unsat cs assumptions
  | SatResult.Unknown message => allowed message
  end.

Lemma model_answer n cs assumptions m values :
  clauses_ok n cs -> Forall (lit_ok n) assumptions -> length values = n ->
  (forall v, 1 <= v <= n -> valuation values v = completion m v) ->
  forallb (true_in m) cs = true -> forallb (lit_holds (completion m)) assumptions = true ->
  forallb (lit_holds (valuation values)) assumptions = true /\ cnf_holds (valuation values) cs = true.
Proof.
  intros Hcs Has Hlen Hv Hm Hass.
  rewrite (forallb_lit_agree n _ (completion m)), (cnf_holds_agree n _ (completion m)) by done.
  split; [done|]. apply forallb_forall. intros c Hc. rewrite forallb_forall in Hm.
  apply (true_in_holds m); [|by apply Hm]. apply completion_extends.
Qed.

Lemma dpll_solve_spec self lim assumptions :
  clauses_ok (d_num_vars self) (d_clauses self) -> length (scores self) = S (d_num_vars self) ->
  Forall (lit_ok (d_num_vars self)) assumptions ->
  exists r, DpllSolver.solve self lim assumptions = Ok r /\
    answer_ok (d_num_vars self) (d_clauses self) assumptions (fun _ => ~ never lim) r.
Proof.
  intros Hcs Hsc Has. unfold DpllSolver.solve.
  destruct (assume_spec _ assumptions Has (replicate (d_num_vars self + 1) None)) as (r & -> & Hr).
  { rewrite length_replicate. lia. }
  cbn [mbind res_bind]. destruct r as [a|].
  2:{ eexists. split; [done|]. intros ν Hν. rewrite Hr in Hν by apply extends_empty. done. }
  destruct Hr as [Ha Hν].
  pose proof (search_spec self lim Hcs Hsc (S (DpllSolver.unassigned a)) (under 0 lim) a
    (never_under 0 lim) Ha (Nat.lt_succ_diag_r _)) as Hs.
  destruct (DpllSolver.search _ _ _ a) as [[m|]|e|]; simpl in Hs; try done.
  - destruct Hs as (Hm & Hsat & Hext). destruct (read_model_ok _ m Hm) as (values & -> & Hlen & Hval).
    simpl. eexists. split; [done|]. split; [done|]. eapply model_answer; try done.
    by apply Hν, Hext, completion_extends.
  - eexists. split; [done|]. intros ν Hass. apply Hs, Hν. split; [apply extends_empty|done].
  - destruct Hs as [-> Hn]. destruct (is_cancelled lim [1]); by eexists.
Qed.

(** C5: the bundled DPLL solver is a decision procedure.  On clauses and
    assumptions over its variables it never panics; a [Sat] assignment satisfies
    them, [Unsat] means nothing does, and it answers [Unknown] only when a poll
    sees a limit. *)
Theorem dpll_decides n cs assumptions lim :
  clauses_ok n cs -> Forall (lit_ok n) assumptions ->
  exists self r, DpllSolver.new_with_cancellation n cs = Ok self /\
    DpllSolver.solve self lim assumptions = Ok r /\
    answer_ok n cs assumptions (fun _ => ~ never lim) r.
Proof.
  intros Hcs Has. destruct (new_ok n cs Hcs) as (self & E & <- & <- & Hsc).
  destruct (dpll_solve_spec self lim assumptions Hcs Hsc Has) as (r & Er & Hr). by exists self, r.
Qed.

(** ** The external backends *)

(** The libraries' promise: what they call unsatisfiable is. *)
Definition splr_claims_unsat (o : Splr.outcome) : Prop :=
  match o with
  | Splr.Solved r | Splr.NotBuilt r =>
      match r with
      | inl Splr.UNSAT | inr (Splr.EmptyClause | Splr.Inconsistent | Splr.RootLevelConflict) => True
      | _ => False
      end
  | Splr.Panicked => False
  end.

(** What the theorems below rely on for a backend: nothing for the bundled one.  The
    code catches the panics of splr; it relies on varisat to have none. *)
Definition trusted `{Backends} (backend : SatBackendKind) : Prop :=
  match backend with
  | Splr => forall lim cs, splr_claims_unsat (splr lim cs) -> forall ν, cnf_holds ν cs = false
  | Varisat => forall n cs assumptions, varisat n cs assumptions <> Varisat.Panicked /\
      (varisat n cs assumptions = Varisat.OkFalse -> unsat cs assumptions)
  | Dpll => True
  end.

Section backends.
Context `{B : Backends}.

Lemma solve_with_splr_unsat n cs assumptions lim : trusted Splr ->
  solve_with_splr n cs assumptions lim = SatResult.Unsat -> unsat cs assumptions.
Proof.
  unfold solve_with_splr. destruct (deadline_passed _ _); [done|]. intros Htr E ν Hν.
  assert (splr_claims_unsat (splr lim (cs ++ ((fun a => [a]) <$> assumptions)))) as Hu.
  { destruct (splr lim _) as [r|r|]; [| |done]; by destruct r as [[]|[]]. }
  pose proof (Htr _ _ Hu ν) as H. rewrite cnf_holds_app in H.
  assert (cnf_holds ν ((fun a => [a]) <$> assumptions) = true) as Ha.
  { clear -Hν. induction assumptions as [|a l IH]; [done|]. simpl in *.
    apply andb_true_iff in Hν as [-> Hl]. by apply IH. }
  by rewrite Ha, andb_true_r in H.
Qed.

Lemma solve_with_varisat_unsat n cs assumptions lim : trusted Varisat ->
  solve_with_varisat n cs assumptions lim = Ok SatResult.Unsat -> unsat cs assumptions.
Proof.
  unfold solve_with_varisat. destruct (has_deadline lim); [done|]. intros Htr.
  destruct (varisat n cs assumptions) eqn:E; [done| |done..]. intros _. by eapply Htr.
Qed.

Lemma solve_with_varisat_returns n cs assumptions lim : trusted Varisat ->
  exists r, solve_with_varisat n cs assumptions lim = Ok r.
Proof.
  intros Htr. unfold solve_with_varisat. destruct (has_deadline lim); [by eexists|].
  destruct (Htr n cs assumptions) as [Hp _]. destruct (varisat n cs assumptions); [by eexists..|done].
Qed.

Lemma put_literal_length n a l : length (put_literal n a l) = length a.
Proof. unfold put_literal. destruct (_ && _); [by rewrite length_insert|done]. Qed.

Lemma splr_assignment_length n model : length (splr_assignment n model) = n.
Proof.
  unfold splr_assignment. rewrite <- (length_replicate n false) at 3.
  generalize (replicate n false) as a. induction model as [|l ls IH]; intros a; [done|].
  simpl. by rewrite IH, put_literal_length.
Qed.

Lemma put_indexed_length a l : length (put_indexed a l) = length a.
Proof. unfold put_indexed. destruct l. destruct (_ <? _); [by rewrite length_insert|done]. Qed.

Lemma varisat_assignment_length model : forall a, length (foldl put_indexed a model) = length a.
Proof. induction model as [|l ls IH]; intros a; [done|]. simpl. by rewrite IH, put_indexed_length. Qed.

(** What a backend answers before the check of its assignment. *)
Lemma run_backend_spec backend n cs assumptions lim : trusted backend ->
  clauses_ok n cs -> Forall (lit_ok n) assumptions ->
  exists r, run_backend backend n cs assumptions lim = Ok r /\
    match r with
    | SatResult.Sat values => length values = n /\
        (backend = Dpll -> sat_assignment_satisfies cs assumptions values = true)
    | SatResult.Unsat => unsat cs assumptions
    | SatResult.Unknown _ => backend = Dpll -> ~ never lim
    end.
Proof.
  intros Htr Hcs Has. destruct backend; simpl.
  - eexists. split; [done|]. destruct (solve_with_splr _ _ _ _) eqn:E; [|by eapply solve_with_splr_unsat|done].
    split; [|done]. unfold solve_with_splr in E. destruct (deadline_passed _ _); [done|].
    destruct (splr _ _) as [r|r|]; [| |done]; destruct r as [[]|[]]; simpl in E; simplify_eq;
      apply splr_assignment_length.
  - destruct (solve_with_varisat_returns n cs assumptions lim Htr) as (r & E). exists r. split; [done|].
    destruct r; [|by eapply solve_with_varisat_unsat|done]. split; [|done]. unfold solve_with_varisat in E. destruct (has_deadline _); [done|].
    destruct (varisat _ _ _); simplify_eq. by rewrite varisat_assignment_length, length_replicate.
  - destruct (new_ok n cs Hcs) as (self & -> & <- & <- & Hsc). simpl.
    destruct (dpll_solve_spec self lim assumptions Hcs Hsc Has) as (r & -> & Hr).
    exists r. split; [done|]. destruct r; simpl in Hr; [|done..]. destruct Hr as (Hl & Ha & Hc).
    split; [done|]. intros _. rewrite sat_assignment_satisfies_ok by (by rewrite Hl). by rewrite Ha, Hc.
Qed.
End backends.

(** The layer's contract, for its client. *)
Lemma solve_cnf_spec `{B : Backends} backend n cs assumptions lim : trusted backend ->
  clauses_ok n cs -> Forall (lit_ok n) assumptions ->
  exists r, solve_cnf_with_cancellation backend n cs assumptions lim = Ok r /\
    answer_ok n cs assumptions (fun _ => backend = Dpll -> ~ never lim) r.
Proof.
  intros Htr Hcs Has. unfold solve_cnf_with_cancellation.
  destruct (is_cancelled lim [0]) eqn:Ec.
  { eexists. split; [done|]. intros _ Hn. by destruct (Hn [0]); rewrite Ec in *. }
  destruct (deadline_passed lim [0]) eqn:Ed.
  { eexists. split; [done|]. intros _ Hn. by destruct (Hn [0]); rewrite Ed in *. }
  destruct (run_backend_spec backend n cs assumptions (under 1 lim) Htr Hcs Has) as (r & -> & Hr). simpl.
  destruct r as [values| |text].
  - destruct Hr as [Hl Hd]. destruct (sat_assignment_satisfies cs assumptions values) eqn:E.
    + rewrite sat_assignment_satisfies_ok in E by (by rewrite Hl).
      apply andb_true_iff in E as [? ?]. by exists (SatResult.Sat values).
    + eexists. split; [done|]. intros ->. by specialize (Hd eq_refl).
  - by exists SatResult.Unsat.
  - eexists. split; [done|]. intros Hb Hn. apply Hr; [done|]. by apply never_under.
Qed.

(** External solvers that never answer, for the concrete instances. *)
Definition silent_backends : Backends :=
  {| splr _ _ := Splr.Panicked; varisat _ _ _ := Varisat.Failed "unavailable" |}.

Lemma dpll_decides_witness :
  exists self r, DpllSolver.new_with_cancellation 2 [[1; -2]; [2]]%Z = Ok self /\
    DpllSolver.solve self unlimited [1%Z] = Ok r /\
    answer_ok 2 [[1; -2]; [2]]%Z [1%Z] (fun _ => ~ never unlimited) r.
Proof.
  apply dpll_decides; repeat (apply Forall_cons_2 || apply Forall_nil_2); unfold lit_ok; simpl; lia.
Defined.
