(* ===== verification/Model.v ===== *)
(** * Models ([model.rs])

    A model lists, for every recorded variable, the value its gates have in the
    SAT assignment; [scalar_to_smt] prints a value as an SMT-LIB literal. *)
From S2P Require Import Prelude Smt Bytes Ir Gates Blast.
From stdpp Require Import pretty.

Inductive ScalarValue :=
  | ScalarBool (b : bool)
  | ScalarBv (width : nat) (bytes : list Z).

Record ModelEntry := mkModelEntry {
  me_term : TermId;
  me_name : string;
  me_external : option nat;
  me_value : ScalarValue;
}.

Record Model := mkModel { entries : list ModelEntry }.

Module Model.
Definition get (m : Model) (name : string) : option ScalarValue :=
  me_value <$> find (fun entry => String.eqb (me_name entry) name) (entries m).
End Model.

Definition gate_value (assignment : list bool) (gate : GateId) : res bool :=
  match assignment !! gate with
  | Some v => Ok v
  | None => Err (Internal ("missing SAT assignment for gate " +:+ pretty gate +:+ " ("
                           +:+ pretty (length assignment) +:+ " values)"))
  end.

(** [for (bit, gate) in bits { if gate_value(..)? { bytes[bit / 8] |= 1 << (bit % 8) } }] *)
Fixpoint fill_bytes (assignment : list bool) (gates : list GateId) (bit : nat) (bytes : list Z)
    : res (list Z) :=
  match gates with
  | [] => Ok bytes
  | gate :: gates =>
      v ← gate_value assignment gate;
      bytes ← (if (v : bool) then
                 byte ← index bytes (bit / 8);
                 set_index bytes (bit / 8) (Z.lor byte (u8 (Z.shiftl 1 (Z.of_nat (bit mod 8)))))
               else Ok bytes);
      fill_bytes assignment gates (S bit) bytes
  end.

Definition variable_value (assignment : list bool) (v : BlastedVariable) : res ScalarValue :=
  match bv_sort v with
  | SBool =>
      gate ← index (bv_bits v) 0;
      b ← gate_value assignment gate;
      Ok (ScalarBool b)
  | SBv width =>
      len ← bytes_for_width width;
      bytes ← fill_bytes assignment (bv_bits v) 0 (replicate len 0%Z);
      Ok (ScalarBv width (mask_unused_high_bits bytes width))
  end.

Definition build_entry (assignment : list bool) (v : BlastedVariable) : res ModelEntry :=
  value ← variable_value assignment v;
  Ok {| me_term := bv_term v; me_name := bv_name v; me_external := bv_external v;
        me_value := value |}.

Definition build_model (variables : list BlastedVariable) (assignment : list bool) : res Model :=
  entries ← mapM (build_entry assignment) variables;
  Ok {| entries := entries |}.

(** The digits are pushed from the most significant bit down. *)
Fixpoint push_digits (bytes : list Z) (bits : list nat) (out : string) : res string :=
  match bits with
  | [] => Ok out
  | bit :: bits =>
      byte ← index bytes (bit / 8);
      let digit := if negb (Z.land (Z.shiftr byte (Z.of_nat (bit mod 8))) 1 =? 0)%Z
                   then "1"%string else "0"%string in
      push_digits bytes bits (out +:+ digit)
  end.

Definition scalar_to_smt (value : ScalarValue) : res string :=
  match value with
  | ScalarBool false => Ok "false"%string
  | ScalarBool true => Ok "true"%string
  | ScalarBv width bytes => push_digits bytes (reverse (seq 0 width)) "#b"
  end.

(** ** Solver results ([solver.rs], [SolveResult]) *)

Module SolveStatus.
Inductive t := Sat | Unsat | Unknown | Simplified.

(** [{:?}] *)
Definition debug (s : t) : string :=
  match s with
  | Sat => "Sat" | Unsat => "Unsat" | Unknown => "Unknown" | Simplified => "Simplified"
  end.
End SolveStatus.

#[export] Instance SolveStatus_eq_dec : EqDecision SolveStatus.t.
Proof. solve_decision. Defined.

Record SolveResult := mkSolveResult {
  status : SolveStatus.t;
  model : option Model;
  core : option (list string);
  optimum : option ScalarValue;
  message : option string;
}.

Module SolveResult.
Definition of_status (s : SolveStatus.t) : SolveResult :=
  {| status := s; model := None; core := None; optimum := None; message := None |}.

Definition sat (m : option Model) : SolveResult :=
  {| status := SolveStatus.Sat; model := m; core := None; optimum := None; message := None |}.

Definition unsat : SolveResult := of_status SolveStatus.Unsat.

Definition sat_optimization (value : ScalarValue) (m : option Model) : SolveResult :=
  {| status := SolveStatus.Sat; model := m; core := None; optimum := Some value; message := None |}.

Definition unknown (text : string) : SolveResult :=
  {| status := SolveStatus.Unknown; model := None; core := None; optimum := None;
     message := Some text |}.

Definition simplified : SolveResult := of_status SolveStatus.Simplified.

Definition with_core (r : SolveResult) (c : option (list string)) : SolveResult :=
  {| status := status r; model := model r; core := c; optimum := optimum r; message := message r |}.
End SolveResult.
