(* ===== verification/ModelFacts.v ===== *)
(** * Correctness of models

    The entry of a variable holds the value the SAT assignment gives its gates,
    so an environment the model describes agrees with the circuit; the printed
    literal is the value in binary. *)
From S2P Require Import Prelude Bits Smt SmtFacts Bytes BytesFacts Ir Sem EvaluatorFacts Gates.
From S2P Require Import GatesFacts Blast BlastQuery Model.

#[local] Open Scope Z_scope.

(** ** Filling the bytes *)

Lemma fill_step bytes bit : (bit < 8 * length bytes)%nat ->
  (byte ← index bytes (bit / 8);
   set_index bytes (bit / 8) (Z.lor byte (u8 (Z.shiftl 1 (Z.of_nat (bit mod 8)))))) =
  Ok (set_bit bytes bit).
Proof.
  intros Hlt%byte_pos. destruct (lookup_lt_is_Some_2 _ _ Hlt) as [b Hb].
  rewrite (index_Some _ _ _ Hb). simpl. unfold set_index, set_bit. rewrite ltb_t by done.
  f_equal. apply list_eq. intros j. destruct (decide (bit / 8 = j)%nat) as [<-|Hne].
  - by rewrite list_lookup_insert_eq, list_lookup_alter_eq, Hb by done.
  - by rewrite list_lookup_insert_ne, list_lookup_alter_ne by done.
Qed.

Lemma fill_bytes_ok values gs : Forall (fun x => x < length values)%nat gs -> forall bit bytes,
  (bit + length gs <= 8 * length bytes)%nat -> Forall is_byte bytes ->
  exists bytes', fill_bytes values gs bit bytes = Ok bytes' /\
    length bytes' = length bytes /\ Forall is_byte bytes' /\
    forall k, get_bit bytes' k = get_bit bytes k ||
      ((bit <=? k)%nat && default false (gs !! (k - bit)%nat ≫= fun x => values !! x)).
Proof.
  induction 1 as [|x gs Hx Hgs IH]; intros bit bytes Hlen Hb.
  { exists bytes. split_and!; [done..|]. intros k. simpl. by rewrite andb_false_r, orb_false_r. }
  cbn [fill_bytes]. simpl in Hlen. destruct (lookup_lt_is_Some_2 _ _ Hx) as [v Hv].
  unfold gate_value. rewrite Hv. cbn [mbind res_bind].
  assert (forall k (b0 : bool), (k <> bit -> b0 = get_bit bytes k) -> (k = bit -> b0 = get_bit bytes k || v) ->
    b0 || ((S bit <=? k)%nat && default false (gs !! (k - S bit)%nat ≫= fun x => values !! x)) =
    get_bit bytes k || ((bit <=? k)%nat && default false ((x :: gs) !! (k - bit)%nat ≫= fun x => values !! x))) as Hk.
  { intros k b0 Hne Heq. destruct (Nat.lt_trichotomy k bit) as [Hlt|[->|Hgt]].
    - rewrite Hne, !leb_f by lia. done.
    - rewrite Heq, Nat.sub_diag, (leb_f (S bit) bit), (leb_t bit bit) by lia. simpl. rewrite Hv. simpl. by rewrite orb_false_r.
    - rewrite Hne, !leb_t by lia. by replace (k - bit)%nat with (S (k - S bit)) by lia. }
  destruct v.
  - rewrite fill_step by lia. cbn [mbind res_bind].
    destruct (IH (S bit) (set_bit bytes bit)) as (bytes' & E & Hl & Hb' & Hbits).
    + rewrite length_set_bit. lia.
    + by apply bytes_set_bit.
    + exists bytes'. split_and!; [done|by rewrite Hl, length_set_bit|done|].
      intros k. rewrite Hbits. apply Hk; rewrite get_set_bit.
      * intros Hne. destruct (Nat.eqb_spec k bit); [done|]. by rewrite orb_false_r.
      * intros ->. rewrite Nat.eqb_refl, ltb_t by lia. done.
  - destruct (IH (S bit) bytes) as (bytes' & E & Hl & Hb' & Hbits); [lia|done|].
    exists bytes'. split_and!; [done..|]. intros k. rewrite Hbits. apply Hk; [done|].
    intros _. by rewrite orb_false_r.
Qed.

(** ** Entries *)

(** The environment gives the entry's term the entry's value. *)
Definition entry_holds (env : Env) (e : ModelEntry) : Prop :=
  match me_value e with
  | ScalarBool b => env_bool env (me_term e) = b
  | ScalarBv w bytes => bv_repr w bytes (wrap w (env_bv env (me_term e)))
  end.

Definition describes (m : Model) (env : Env) : Prop := Forall (entry_holds env) (entries m).

(** A value of the sort, in its canonical form. *)
Definition value_sorted (s : Sort) (v : ScalarValue) : Prop :=
  match s, v with
  | SBool, ScalarBool _ => True
  | SBv w, ScalarBv w' bytes => w' = w /\ bv_repr w bytes (bval bytes)
  | _, _ => False
  end.

(** The entry of [v] under the gate values [values]. *)
Record entry_post (values : list bool) (v : BlastedVariable) (e : ModelEntry) : Prop := {
  ep_term : me_term e = bv_term v;
  ep_name : me_name e = bv_name v;
  ep_external : me_external e = bv_external v;
  ep_value : value_sorted (bv_sort v) (me_value e);
  ep_holds : forall env, entry_holds env e <->
    var_bits env v = (fun x => default false (values !! x)) <$> bv_bits v;
}.

Section entries.
Context (values : list bool).
Let val (x : GateId) : bool := default false (values !! x).

Lemma gate_value_ok x : (x < length values)%nat -> gate_value values x = Ok (val x).
Proof. intros [v Hv]%lookup_lt_is_Some_2. unfold gate_value, val. by rewrite Hv. Qed.

Lemma bv_entry v w : bv_sort v = SBv w -> legal w -> length (bv_bits v) = w ->
  Forall (fun x => x < length values)%nat (bv_bits v) ->
  exists bytes, variable_value values v = Ok (ScalarBv w bytes) /\ bv_repr w bytes (bz (val <$> bv_bits v)).
Proof.
  intros Hs Hw Hlen Hr. unfold variable_value. rewrite Hs, bytes_for_width_ok by done. cbn [mbind res_bind].
  pose proof (div_ceil_8_bounds w) as Hd.
  destruct (fill_bytes_ok values (bv_bits v) Hr 0 (replicate (div_ceil w 8) 0)) as (bytes & E & Hl & Hb & Hbits).
  { rewrite length_replicate. lia. }
  { by apply bytes_replicate, is_byte_0. }
  rewrite E. cbn [mbind res_bind]. rewrite length_replicate in Hl.
  eexists. split; [done|]. apply mask_repr_bits; [done..| |].
  - pose proof (bz_bound (val <$> bv_bits v)) as H. by rewrite length_fmap, Hlen in H.
  - intros i Hi. rewrite Hbits, get_bit_zero, testbit_bz, list_lookup_fmap, Nat.sub_0_r. simpl.
    destruct (bv_bits v !! i); done.
Qed.

Lemma var_bits_bv env v w : bv_sort v = SBv w -> length (bv_bits v) = w ->
  var_bits env v = val <$> bv_bits v <-> wrap w (env_bv env (bv_term v)) = bz (val <$> bv_bits v).
Proof.
  intros Hs Hlen. unfold var_bits. rewrite Hs. rewrite zb_wrap. unfold wrap. rewrite <- bz_zb. split.
  - by intros ->.
  - intros E. apply bz_inj; [|done]. by rewrite length_zb, length_fmap.
Qed.

Lemma build_entry_ok g i v : var_ok g i v -> length values = length (gates g) ->
  valid_sort (bv_sort v) = true ->
  exists e, build_entry values v = Ok e /\ entry_post values v e.
Proof.
  intros [Ht Hlen Hr] Hvals Hs. rewrite <- Hvals in Hr. unfold build_entry.
  destruct (bv_sort v) as [|w] eqn:Es; simpl in Hlen.
  - destruct (bv_bits v) as [|x [|? ?]] eqn:Eb; try done. apply Forall_cons in Hr as [Hx _].
    unfold variable_value. rewrite Es, Eb. cbn [index lookup list_lookup mbind res_bind].
    rewrite gate_value_ok by done. cbn [mbind res_bind]. eexists. split; [done|]. split; [done..|by rewrite Es|].
    intros env. unfold entry_holds, var_bits. simpl. rewrite Es, Eb. unfold val. simpl. split; [by intros ->|].
    by intros [=].
  - apply valid_sort_bv in Hs. destruct (bv_entry v w Es Hs Hlen Hr) as (bytes & -> & Hrepr). simpl.
    eexists. split; [done|]. split; [done..| |].
    { rewrite Es. simpl. split; [done|]. pose proof Hrepr as Hrepr'. by rewrite <- (repr_val _ _ _ Hrepr) in Hrepr'. }
    intros env. unfold entry_holds. simpl.
    etransitivity; [|symmetry; by apply (var_bits_bv env v w)]. split.
    + intros H. by rewrite <- (repr_val _ _ _ H), <- (repr_val _ _ _ Hrepr).
    + intros E. simpl. by rewrite E.
Qed.

Lemma build_model_ok g i vars : Forall (var_ok g i) vars -> length values = length (gates g) ->
  Forall (fun v => valid_sort (bv_sort v) = true) vars ->
  exists m, build_model vars values = Ok m /\ Forall2 (entry_post values) vars (entries m).
Proof.
  intros Hv Hl Hs. unfold build_model.
  assert (exists es, mapM (build_entry values) vars = Ok es /\ Forall2 (entry_post values) vars es)
    as (es & -> & H); [|by eexists].
  induction Hv as [|v vars Hv Hvs IH]; [by exists []|].
  apply Forall_cons in Hs as [Hs Hss]. destruct (build_entry_ok g i v Hv Hl Hs) as (e & E & He).
  destruct (IH Hss) as (es & E' & Hes). simpl. rewrite E. simpl. rewrite E'. simpl.
  eexists. split; [done|]. by constructor.
Qed.
End entries.

(** A model's environments are those that agree with the gates. *)
Lemma describes_agrees ι g values vars m env :
  Forall2 (entry_post values) vars (entries m) ->
  Forall (fun v => Forall (fun x => default false (values !! x) = gval ι g x) (bv_bits v)) vars ->
  describes m env <-> Forall (agrees ι g env) vars.
Proof.
  unfold describes. intros H Hval. induction H as [|v e vars es He Hes IH]; [by rewrite !Forall_nil|].
  apply Forall_cons in Hval as [Hv Hvs]. rewrite !Forall_cons, (IH Hvs), (ep_holds _ _ _ He).
  unfold agrees. assert ((fun x => default false (values !! x)) <$> bv_bits v = gval ι g <$> bv_bits v) as ->; [|done].
  apply list_fmap_ext. intros j x Hj. by apply (Forall_lookup_1 _ _ _ _ Hv Hj).
Qed.

(** ** Theorems *)

(** C33: a model says what the SAT assignment says.  From one value per gate,
    [build_model] succeeds for every variable whose gates are in range and has one
    entry per variable, in order, with the variable's term, name and external id and a
    canonical value of its sort;
    an environment agrees with an entry exactly when it gives the variable the
    bits its gates have. *)
Theorem build_model_correct g i vars values : Forall (var_ok g i) vars ->
  length values = length (gates g) -> Forall (fun v => valid_sort (bv_sort v) = true) vars ->
  exists m, build_model vars values = Ok m /\ Forall2 (entry_post values) vars (entries m).
Proof. intros Hv Hl. by apply (build_model_ok values g i). Qed.

(** The variable [x] of two bits, gates 2 and 3 of [sample_gates]. *)
Definition sample_variable : BlastedVariable :=
  {| bv_term := 0; bv_sort := SBv 2; bv_name := "x"; bv_external := None; bv_bits := [2; 3]%nat |}.

Lemma build_model_correct_witness :
  exists m, build_model [sample_variable] [false; true; false; true; true] = Ok m /\
    Forall2 (entry_post [false; true; false; true; true]) [sample_variable] (entries m).
Proof.
  apply (build_model_correct sample_gates 1).
  - apply Forall_singleton. split; [apply Nat.lt_0_1|reflexivity|].
    repeat constructor; apply Nat.ltb_lt; vm_compute; reflexivity.
  - vm_compute. reflexivity.
  - apply Forall_singleton. vm_compute. reflexivity.
Defined.

(** *** Printing *)

(** Reading binary digits, most significant first; anything else is refused. *)
Fixpoint read_binary (s : string) (acc : Z) : option Z :=
  match s with
  | EmptyString => Some acc
  | String c s =>
      if Ascii.eqb c (Ascii.ascii_of_nat 48) then read_binary s (2 * acc)
      else if Ascii.eqb c (Ascii.ascii_of_nat 49) then read_binary s (2 * acc + 1)
      else None
  end.

Lemma read_binary_digit (b : bool) s acc :
  read_binary ((if b then "1" else "0") +:+ s) acc = read_binary s (2 * acc + Z.b2z b).
Proof. destruct b; simpl; [done|]. by rewrite Z.add_0_r. Qed.

Lemma append_assoc (a b c : string) : (a +:+ b) +:+ c = a +:+ (b +:+ c).
Proof. induction a as [|x a IH]; [done|]. exact (f_equal (String x) IH). Qed.

Lemma append_nil (a : string) : a +:+ "" = a.
Proof. induction a as [|x a IH]; [done|]. exact (f_equal (String x) IH). Qed.

Lemma length_append (a b : string) : String.length (a +:+ b) = (String.length a + String.length b)%nat.
Proof. induction a as [|x a IH]; [done|]. exact (f_equal S IH). Qed.

(** The digits pushed for the low [n] bits spell them. *)
Lemma push_digits_low bytes : Forall is_byte bytes -> forall n, (n <= 8 * length bytes)%nat -> forall out,
  exists s, push_digits bytes (reverse (seq 0 n)) out = Ok (out +:+ s) /\ String.length s = n /\
    forall acc, read_binary s acc = Some (acc * pow2 n + bval bytes mod pow2 n).
Proof.
  intros Hb. induction n as [|n IH]; intros Hn out.
  - exists "". split_and!; [by rewrite append_nil|done|]. intros acc. simpl.
    change (pow2 0) with 1. by rewrite Z.mod_1_r, Z.add_0_r, Z.mul_1_r.
  - rewrite seq_S, reverse_app. change (reverse [(0 + n)%nat]) with [n]. cbn [app push_digits].
    destruct (lookup_lt_is_Some_2 bytes (n / 8)) as [byte Eb]; [apply byte_pos; lia|].
    rewrite (index_Some _ _ _ Eb). cbn [mbind res_bind].
    assert (negb (Z.land (Z.shiftr byte (Z.of_nat (n mod 8))) 1 =? 0) = get_bit bytes n) as ->
      by (unfold get_bit; by rewrite Eb).
    set (d := if get_bit bytes n then "1" else "0"). destruct (IH ltac:(lia) (out +:+ d)) as (s & E & Hl & Hs).
    exists (d +:+ s). split_and!.
    + by rewrite E, append_assoc.
    + rewrite length_append, Hl. unfold d. by destruct (get_bit bytes n).
    + intros acc. unfold d. rewrite read_binary_digit, Hs, mod_pow2_S, pow2_S. f_equal.
      rewrite <- (testbit_bval bytes n) by done. lia.
Qed.

(** the printed literal of a bit-vector value is [#b] and exactly [w] binary
    digits that read back as the value, so values of one width print differently
    exactly when they differ; printing a canonical value does not panic. *)
Theorem scalar_to_smt_correct w bytes z : bv_repr w bytes z ->
  exists digits, scalar_to_smt (ScalarBv w bytes) = Ok ("#b" +:+ digits) /\
    String.length digits = w /\ read_binary digits 0 = Some z.
Proof.
  intros Hr. pose proof (div_ceil_8_bounds w). pose proof (repr_range _ _ _ Hr) as Hz.
  destruct Hr as [Hl Hb Hv _].
  destruct (push_digits_low bytes Hb w ltac:(lia) "#b") as (s & E & Hs & Hread).
  exists s. split_and!; [done..|]. rewrite Hread, Hv, Z.mul_0_l, Z.add_0_l. by rewrite Z.mod_small.
Qed.

Lemma scalar_to_smt_correct_witness :
  exists digits, scalar_to_smt (ScalarBv 12 [171; 12]) = Ok ("#b" +:+ digits) /\
    String.length digits = 12%nat /\ read_binary digits 0 = Some 3243.
Proof. apply (scalar_to_smt_correct 12 [171; 12] 3243). by apply canonical_spec. Defined.
