(* ===== verification/Recognisers.v ===== *)
(** * Assignment witnesses ([solver/shortcuts/assignment.rs])

    Two recognisers of satisfiable queries that evaluate the query at candidate
    assignments: constants and pseudo-random seeds, and products of small
    per-variable candidate lists. *)
From S2P Require Import Prelude Smt Bytes Ir Evaluator.
From stdpp Require Import sorting.

#[local] Open Scope Z_scope.

(** [witnesses.rs] *)
Definition mask_for_width (width : nat) : Z :=
  if (64 <=? width)%nat then 2 ^ 64 - 1 else u64 (Z.shiftl 1 (Z.of_nat width)) - 1.

(** ** Constants and seeds *)

Fixpoint variable_bits (ns : list Node) (bits : Z) : option Z :=
  match ns with
  | [] => Some bits
  | n :: ns =>
      let bits :=
        match kind n with
        | BvVar width _ _ => Z.min (2 ^ 64 - 1) (bits + Z.of_nat width)
        | BoolVar _ _ => Z.min (2 ^ 64 - 1) (bits + 1)
        | _ => bits
        end in
      if 4096 <? bits then None else variable_bits ns bits
  end.

Definition small_enough_for_seeded_witness (q : Query) : res bool :=
  match variable_bits (nodes (arena q)) 0 with
  | None => Ok false
  | Some _ => Ok (Z.of_nat (length (nodes (arena q))) <=? 20000)
  end.

Definition witness_seeds : list Z :=
  [0x243f6a8885a308d3; 0x13198a2e03707344; 0xa4093822299f31d0; 0x082efa98ec4e6c89;
   0x452821e638d01377; 0xbe5466cf34e90c6c; 0xc0ac29b7c97c50dd; 0x3f84d5b5b5470917].

Fixpoint any_seed (q : Query) (seeds : list Z) : res bool :=
  match seeds with
  | [] => Ok false
  | seed :: seeds =>
      b ← query_satisfied_by_seeded_assignment q seed;
      if (b : bool) then Ok true else any_seed q seeds
  end.

Definition no_assumptions (q : Query) : bool :=
  match assumptions q with [] => true | _ => false end.

Definition has_constant_assignment_witness (q : Query) : res bool :=
  if negb (no_assumptions q) || (300000 <? Z.of_nat (length (nodes (arena q)))) then Ok false
  else
    zeros ← query_satisfied_by_constant_assignment q false;
    b ← (if (zeros : bool) then Ok true else query_satisfied_by_constant_assignment q true);
    if (b : bool) then Ok true
    else
      small ← small_enough_for_seeded_witness q;
      if negb small then Ok false else any_seed q witness_seeds.

(** ** Explicit candidates *)

(** The variables, or [None] when one rules the search out. *)
Fixpoint explicit_vars (ns : list Node) (i : nat) : option (list (TermId * nat)) :=
  match ns with
  | [] => Some []
  | n :: ns =>
      match kind n with
      | BvVar width _ _ =>
          if (width <=? 64)%nat then vars ← explicit_vars ns (S i); Some ((u32 i, width) :: vars)
          else None
      | BoolVar _ _ => None
      | _ => explicit_vars ns (S i)
      end
  end.

(** [Vec::dedup] after [sort_unstable]. *)
Fixpoint dedup_sorted `{EqDecision A} (l : list A) : list A :=
  match l with
  | x :: (y :: _) as l' => if decide (x = y) then dedup_sorted l' else x :: dedup_sorted l'
  | _ => l
  end.

Definition explicit_assignment_candidates (width : nat) : list Z :=
  let mask := mask_for_width width in
  let values := [0; 1; 2; 3; 4; 7; 8; 15; 16; 31; 32; 63; 64; 0x7f; 0x80; 0xff; 0x100; 0xffff;
                 0x10000; 0x10000000; 0x10000001; 0x40000000; 0x80000000; 2 ^ 64 - 1] in
  let values := if (1 <? width)%nat
                then values ++ [u64 (Z.shiftl 1 (Z.of_nat (Nat.min (width - 1) 63)))]
                else values in
  dedup_sorted (merge_sort Z.le ((fun value => Z.land value mask) <$> values)).

Definition bytes_from_u64 (width : nat) (value : Z) : res (list Z) :=
  len ← bytes_for_width width;
  Ok (mask_unused_high_bits
        ((fun index => u8 (Z.shiftr value (Z.of_nat (index * 8)))) <$> seq 0 len) width).

(** The map is threaded through the search, as the code's [&mut BTreeMap]. *)
Fixpoint explicit_assignment_search (q : Query) (rest : list (TermId * nat * list Z))
    (assignment : gmap TermId (list Z)) : res (bool * gmap TermId (list Z)) :=
  match rest with
  | [] => b ← query_satisfied_by_bv_assignment q assignment; Ok (b, assignment)
  | (var, width, values) :: rest =>
      (fix try_values (values : list Z) (assignment : gmap TermId (list Z)) :=
         match values with
         | [] => Ok (false, delete var assignment)
         | value :: values =>
             bytes ← bytes_from_u64 width value;
             r ← explicit_assignment_search q rest (<[var := bytes]> assignment);
             if r.1 : bool then Ok r else try_values values r.2
         end) values assignment
  end.

(** [try_fold(checked_mul).unwrap_or(usize::MAX)] *)
Definition candidate_product (candidates : list (list Z)) : Z :=
  default (2 ^ 64 - 1)
    (foldl (fun acc l => p ← acc;
       let p := p * Z.of_nat (length l) in if p <? 2 ^ 64 then Some p else None)
       (Some 1) candidates).

Definition has_small_explicit_assignment_witness (q : Query) : res bool :=
  if negb (no_assumptions q) || (10000 <? Z.of_nat (length (nodes (arena q)))) then Ok false
  else
    match explicit_vars (nodes (arena q)) 0 with
    | None => Ok false
    | Some vars =>
        if (length vars =? 0)%nat || (3 <? length vars)%nat then Ok false
        else
          let candidates := (fun v => explicit_assignment_candidates v.2) <$> vars in
          if 20000 <? candidate_product candidates then Ok false
          else
            r ← explicit_assignment_search q (zip vars candidates) ∅;
            Ok r.1
    end.

(** ** Unsigned successor recognisers ([solver/shortcuts/successor.rs])

    [x < y] and [y < x + 1] contradict each other; [x <= y] and [y + 1 <= x]
    hold together only by wrap-around.  The recursion over a term's conjuncts is
    over ids that decrease, so a term's id plus one is enough fuel. *)

#[local] Open Scope Z_scope.

(** [common.rs] *)
Definition is_one_bv_const (q : Query) (term : TermId) : res bool :=
  n ← Arena.node (arena q) term;
  match kind n with
  | BvConst _ bytes =>
      Ok (match bytes with first :: rest => (first =? 1) && forallb (fun byte => byte =? 0) rest | [] => false end)
  | _ => Ok false
  end.

(** [collect_unsigned_strict_less], [collect_unsigned_less_or_equal]: they differ in
    the relation they collect. *)
Fixpoint collect_less (pick : NodeKind -> option (TermId * TermId)) (q : Query) (fuel : nat)
    (term : TermId) (out : list (TermId * TermId)) : res (list (TermId * TermId)) :=
  match fuel with
  | O => Panic
  | S fuel =>
      n ← Arena.node (arena q) term;
      match pick (kind n), kind n with
      | Some p, _ => Ok (out ++ [p])
      | None, BoolAnd a b =>
          out ← collect_less pick q fuel a out;
          collect_less pick q fuel b out
      | None, _ => Ok out
      end
  end.

Definition ult_pair (k : NodeKind) : option (TermId * TermId) :=
  match k with BvUlt a b => Some (a, b) | _ => None end.
Definition ule_pair (k : NodeKind) : option (TermId * TermId) :=
  match k with BvUle a b => Some (a, b) | _ => None end.

Definition collect_unsigned_strict_less (q : Query) (term : TermId) := collect_less ult_pair q (S term) term.
Definition collect_unsigned_less_or_equal (q : Query) (term : TermId) := collect_less ule_pair q (S term) term.

(** [for assertion in &query.assertions { collect(query, assertion.root, &mut out)? }] *)
Fixpoint collect_all {S} (collect : TermId -> S -> res S) (roots : list TermId) (out : S) : res S :=
  match roots with
  | [] => Ok out
  | r :: roots => out ← collect r out; collect_all collect roots out
  end.

Definition is_unsigned_successor_term (q : Query) (term base : TermId) : res bool :=
  n ← Arena.node (arena q) term;
  match kind n with
  | BvAdd a b =>
      left ← (if (a =? base)%nat then is_one_bv_const q b else Ok false);
      if (left : bool) then Ok true
      else if (b =? base)%nat then is_one_bv_const q a else Ok false
  | _ => Ok false
  end.

(** [.unwrap_or(false)] *)
Definition or_false (r : res bool) : res bool := match r with Err _ => Ok false | other => other end.

Fixpoint any_successor (q : Query) (x y : TermId) (pairs : list (TermId * TermId)) : res bool :=
  match pairs with
  | [] => Ok false
  | (lhs, rhs) :: pairs =>
      b ← (if (lhs =? y)%nat then or_false (is_unsigned_successor_term q rhs x) else Ok false);
      if (b : bool) then Ok true else any_successor q x y pairs
  end.

Fixpoint any_contradiction (q : Query) (strict rest : list (TermId * TermId)) : res bool :=
  match rest with
  | [] => Ok false
  | (x, y) :: rest =>
      b ← any_successor q x y strict;
      if (b : bool) then Ok true else any_contradiction q strict rest
  end.

Definition has_unsigned_successor_contradiction (q : Query) : res bool :=
  strict ← collect_all (collect_unsigned_strict_less q) (root <$> assertions q) [];
  any_contradiction q strict strict.

Definition is_bv_var (k : NodeKind) : bool := match k with BvVar _ _ _ => true | _ => false end.

Definition validate_unsigned_successor_wraparound_witness (q : Query) (left right : TermId) : res bool :=
  ls ← Arena.sort_of (arena q) left;
  rs ← Arena.sort_of (arena q) right;
  match ls, rs with
  | SBv left_width, SBv right_width =>
      if negb (left_width =? right_width)%nat then Ok false
      else
        ln ← Arena.node (arena q) left;
        if negb (is_bv_var (kind ln)) then Ok false
        else
          rn ← Arena.node (arena q) right;
          if negb (is_bv_var (kind rn)) then Ok false
          else
            len ← bytes_for_width left_width;
            query_satisfied_by_bv_assignment q
              (<[right := mask_unused_high_bits (replicate len 255) left_width]>
                 (<[left := replicate len 0]> ∅))
  | _, _ => Ok false
  end.

(** The inner loop for one [(left, right)]; [None] when no pair matches. *)
Fixpoint wraparound_partner (q : Query) (validate : bool) (left right : TermId)
    (pairs : list (TermId * TermId)) : res (option bool) :=
  match pairs with
  | [] => Ok None
  | (other_left, other_right) :: pairs =>
      b ← (if negb (other_left =? left)%nat && negb (other_left =? right)%nat && (left =? other_right)%nat
           then is_unsigned_successor_term q other_left right else Ok false);
      if (b : bool) then
        r ← (if validate then validate_unsigned_successor_wraparound_witness q left right else Ok true);
        Ok (Some r)
      else wraparound_partner q validate left right pairs
  end.

Fixpoint wraparound_pairs (q : Query) (validate : bool) (all rest : list (TermId * TermId)) : res bool :=
  match rest with
  | [] => Ok false
  | (lhs, rhs) :: rest =>
      r ← wraparound_partner q validate lhs rhs all;
      match r with Some b => Ok b | None => wraparound_pairs q validate all rest end
  end.

Definition has_unsigned_successor_wraparound_witness (q : Query) (validate : bool) : res bool :=
  if negb (match assumptions q with [] => true | _ => false end) || negb (length (assertions q) =? 2)%nat
  then Ok false
  else
    non_strict ← collect_all (collect_unsigned_less_or_equal q) (root <$> assertions q) [];
    if negb (length non_strict =? 2)%nat then Ok false
    else wraparound_pairs q validate non_strict non_strict.
