(* ===== verification/UnionFind.v ===== *)
(** * Union-find ([solver/shortcuts/common.rs], [solver/shortcuts/extensional.rs])

    The two structures the recognisers use: over terms, in a map, and over the bits
    of terms, numbered in a vector.  Both are proved to represent the equivalence
    closure of the pairs they were given; the theory of parent functions that the
    proofs share comes first. *)
From S2P Require Import Prelude Ir.

(** ** The structures *)

(** A union-find over terms with path compression.  [find] also enters a term
    it does not know; its recursion ends within the number of known terms. *)
Module TermUnion.
Abbreviation t := (gmap TermId TermId).

Fixpoint find_from (fuel : nat) (parent : t) (term : TermId) : res (TermId * t) :=
  match fuel with
  | O => Panic
  | S fuel =>
      let up := default term (parent !! term) in
      let parent := <[term := up]> parent in
      if (up =? term)%nat then Ok (term, parent)
      else
        r ← find_from fuel parent up;
        Ok (r.1, <[term := r.1]> r.2)
  end.

Definition find (parent : t) (term : TermId) : res (TermId * t) :=
  find_from (S (size parent)) parent term.

Definition union (parent : t) (a b : TermId) : res t :=
  ra ← find parent a;
  rb ← find ra.2 b;
  Ok (if (ra.1 =? rb.1)%nat then rb.2 else <[ra.1 := rb.1]> rb.2).

Definition equivalent (parent : t) (a b : TermId) : res (bool * t) :=
  ra ← find parent a;
  rb ← find ra.2 b;
  Ok ((ra.1 =? rb.1)%nat, rb.2).

(** The loops of the client over equalities and over disequalities. *)
Fixpoint union_all (parent : t) (pairs : list (TermId * TermId)) : res t :=
  match pairs with
  | [] => Ok parent
  | (a, b) :: pairs => parent ← union parent a b; union_all parent pairs
  end.

Fixpoint any_equivalent (parent : t) (pairs : list (TermId * TermId)) : res bool :=
  match pairs with
  | [] => Ok false
  | (a, b) :: pairs =>
      r ← equivalent parent a b;
      if r.1 : bool then Ok true else any_equivalent r.2 pairs
  end.
End TermUnion.


(** A union-find over the bits of terms, numbered as they are met. *)
Module BitUnionFind.
Definition atom : Type := TermId * nat.
Record t := mk { indices : gmap atom nat; parent : list nat }.

Definition default : t := mk ∅ [].

Definition insert (u : t) (a : atom) : nat * t :=
  match indices u !! a with
  | Some index => (index, u)
  | None =>
      let index := length (parent u) in
      (index, mk (<[a := index]> (indices u)) (parent u ++ [index]))
  end.

Fixpoint find_from (fuel : nat) (parent : list nat) (index : nat) : res (nat * list nat) :=
  match fuel with
  | O => Panic
  | S fuel =>
      match parent !! index with
      | None => Panic
      | Some up =>
          if (up =? index)%nat then Ok (index, parent)
          else
            r ← find_from fuel parent up;
            Ok (r.1, <[index := r.1]> r.2)
      end
  end.

Definition find (u : t) (index : nat) : res (nat * t) :=
  r ← find_from (S (length (parent u))) (parent u) index;
  Ok (r.1, mk (indices u) r.2).

Definition union (u : t) (a b : atom) : res t :=
  let '(ai, u) := insert u a in
  let '(bi, u) := insert u b in
  ra ← find u ai;
  rb ← find ra.2 bi;
  Ok (if (ra.1 =? rb.1)%nat then rb.2
      else mk (indices rb.2) (<[rb.1 := ra.1]> (parent rb.2))).

Definition equivalent (u : t) (a b : atom) : res (bool * t) :=
  match indices u !! a, indices u !! b with
  | Some ai, Some bi =>
      ra ← find u ai;
      rb ← find ra.2 bi;
      Ok ((ra.1 =? rb.1)%nat, rb.2)
  | _, _ => Ok (false, u)
  end.

(** [for (left, right) in a_bits.into_iter().zip(b_bits)] *)
Fixpoint union_all (u : t) (pairs : list (atom * atom)) : res t :=
  match pairs with
  | [] => Ok u
  | (a, b) :: pairs => u ← union u a b; union_all u pairs
  end.

(** [iter.all(|(a, b)| union.equivalent(a, b))] *)
Fixpoint all_equivalent (u : t) (pairs : list (atom * atom)) : res (bool * t) :=
  match pairs with
  | [] => Ok (true, u)
  | (a, b) :: pairs =>
      r ← equivalent u a b;
      if r.1 : bool then all_equivalent r.2 pairs else Ok (false, r.2)
  end.
End BitUnionFind.

(** ** Parent functions

    A forest is the function that sends an element to its parent, and a root to
    itself. *)
Section forest.
Context {A : Type} `{EqDecision A}.
Implicit Types (up : A -> A) (x y r : A).

(** [x] reaches the root [r] in [n] steps. *)
Inductive path up : A -> nat -> A -> Prop :=
  | path_root x : up x = x -> path up x 0 x
  | path_step x n r : up x <> x -> path up (up x) n r -> path up x (S n) r.

Definition rooted up : Prop := forall x, exists n r, path up x n r.

Definition same up x y : Prop := exists n m r, path up x n r /\ path up y m r.

Definition relink up x r : A -> A := fun y => if decide (y = x) then r else up y.

Lemma path_det up x n r m r' : path up x n r -> path up x m r' -> n = m /\ r = r'.
Proof.
  intros H. revert m r'. induction H as [x Hx|x n r Hx _ IH]; intros m r' H'; inversion H'; subst; try done.
  destruct (IH _ _ ltac:(eassumption)) as [-> ->]. done.
Qed.

Lemma path_end up x n r : path up x n r -> up r = r.
Proof. by induction 1. Qed.

Lemma root_path up r : up r = r -> path up r 0 r.
Proof. by constructor. Qed.

Lemma same_roots up x y n m r r' : path up x n r -> path up y m r' -> same up x y <-> r = r'.
Proof.
  intros Hx Hy. split; [|intros <-; by exists n, m, r].
  intros (n' & m' & s & Hx' & Hy').
  destruct (path_det _ _ _ _ _ _ Hx Hx') as [_ ->]. by destruct (path_det _ _ _ _ _ _ Hy Hy') as [_ ->].
Qed.

(** Pointing an element at its root keeps the roots. *)
Lemma compress_path up x n r y m r' : path up x n r -> x <> r -> path up y m r' ->
  exists m', path (relink up x r) y m' r'.
Proof.
  intros Hx Hne Hy. induction Hy as [y Hy|y m r' Hy Hp [m' IH]].
  - exists 0. apply root_path. unfold relink. destruct (decide _) as [->|]; [|done].
    destruct (path_det _ _ _ _ _ _ Hx (root_path _ _ Hy)) as [_ ->]. done.
  - destruct (decide (y = x)) as [->|Hyx].
    + destruct (path_det _ _ _ _ _ _ Hx (path_step _ _ _ _ Hy Hp)) as [_ <-]. exists 1.
      assert (relink up x r x = r) as E by (unfold relink; by rewrite decide_True).
      apply path_step; rewrite E; [done|]. apply root_path. unfold relink. rewrite decide_False by done.
      by eapply path_end.
    + exists (S m'). assert (relink up x r y = up y) as E by (unfold relink; by rewrite decide_False).
      apply path_step; by rewrite E.
Qed.

Lemma compress_rooted up x n r : rooted up -> path up x n r -> x <> r -> rooted (relink up x r).
Proof.
  intros Hr Hx Hne y. destruct (Hr y) as (m & r' & Hy).
  destruct (compress_path _ _ _ _ _ _ _ Hx Hne Hy) as [m' ?]. eauto.
Qed.

Lemma compress_same up x n r y z : rooted up -> path up x n r -> x <> r ->
  same (relink up x r) y z <-> same up y z.
Proof.
  intros Hr Hx Hne. destruct (Hr y) as (my & ry & Hy), (Hr z) as (mz & rz & Hz).
  rewrite (same_roots _ _ _ _ _ _ _ Hy Hz).
  destruct (compress_path _ _ _ _ _ _ _ Hx Hne Hy) as [my' Hy'].
  destruct (compress_path _ _ _ _ _ _ _ Hx Hne Hz) as [mz' Hz']. by eapply same_roots.
Qed.

(** Pointing a root at another joins their classes. *)
Lemma link_path up a b y m r : up a = a -> up b = b -> a <> b -> path up y m r ->
  exists m', path (relink up a b) y m' (if decide (r = a) then b else r).
Proof.
  intros Ha Hb Hne Hy.
  assert (relink up a b a = b) as Ea by (unfold relink; by rewrite decide_True).
  assert (forall c, c <> a -> relink up a b c = up c) as Eo by (intros c Hc; unfold relink; by rewrite decide_False).
  induction Hy as [y Hy|y m r Hy Hp [m' IH]].
  - destruct (decide (y = a)) as [->|Hya].
    + exists 1. apply path_step; rewrite Ea; [done|]. apply root_path. by rewrite Eo.
    + exists 0. apply root_path. by rewrite Eo.
  - exists (S m'). assert (y <> a) as Hya by congruence. apply path_step; by rewrite Eo.
Qed.

Lemma link_rooted up a b : rooted up -> up a = a -> up b = b -> a <> b -> rooted (relink up a b).
Proof.
  intros Hr Ha Hb Hne y. destruct (Hr y) as (m & r & Hy).
  destruct (link_path _ _ _ _ _ _ Ha Hb Hne Hy) as [m' ?]. eauto.
Qed.

Lemma link_same up a b y z : rooted up -> up a = a -> up b = b -> a <> b ->
  same (relink up a b) y z <->
  same up y z \/ same up y a /\ same up b z \/ same up y b /\ same up a z.
Proof.
  intros Hr Ha Hb Hne. destruct (Hr y) as (my & ry & Hy), (Hr z) as (mz & rz & Hz).
  pose proof (root_path _ _ Ha) as Pa. pose proof (root_path _ _ Hb) as Pb.
  destruct (link_path _ _ _ _ _ _ Ha Hb Hne Hy) as [my' Hy'].
  destruct (link_path _ _ _ _ _ _ Ha Hb Hne Hz) as [mz' Hz'].
  rewrite (same_roots _ _ _ _ _ _ _ Hy' Hz'), (same_roots _ _ _ _ _ _ _ Hy Hz).
  rewrite (same_roots _ _ _ _ _ _ _ Hy Pa), (same_roots _ _ _ _ _ _ _ Pb Hz).
  rewrite (same_roots _ _ _ _ _ _ _ Hy Pb), (same_roots _ _ _ _ _ _ _ Pa Hz).
  repeat case_decide; subst; naive_solver.
Qed.

(** A path is no longer than the number of elements that are not roots. *)
Lemma path_elements up x n r : path up x n r -> exists l, length l = n /\ NoDup l /\
  forall y, y ∈ l -> up y <> y /\ exists k, (k <= n)%nat /\ path up y k r.
Proof.
  induction 1 as [x Hx|x n r Hx Hp (l & Hl & Hnd & IH)].
  - exists []. split_and!; [done|constructor|]. intros y Hy. by apply elem_of_nil in Hy.
  - exists (x :: l). split_and!; [simpl; by rewrite Hl|constructor; [|done]|].
    + intros Hin. destruct (IH x Hin) as (_ & k & Hk & Hpk).
      destruct (path_det _ _ _ _ _ _ Hpk (path_step _ _ _ _ Hx Hp)) as [-> _]. lia.
    + intros y [->|Hy]%elem_of_cons; [split; [done|]; exists (S n); split; [done|by apply path_step]|].
      destruct (IH y Hy) as (? & k & ? & ?). split; [done|]. exists k. split; [lia|done].
Qed.

Lemma path_bound up x n r D : path up x n r -> (forall y, up y <> y -> y ∈ D) -> (n <= length D)%nat.
Proof.
  intros (l & <- & Hnd & Hl)%path_elements HD. apply submseteq_length, NoDup_submseteq; [done|].
  intros y Hy. by apply HD, Hl.
Qed.

Lemma same_refl up x : rooted up -> same up x x.
Proof. intros Hr. destruct (Hr x) as (n & r & Hx). by exists n, n, r. Qed.

Lemma path_ext up up' x n r : (forall y, up y = up' y) -> path up x n r -> path up' x n r.
Proof.
  intros E. induction 1 as [x Hx|x n r Hx _ IH]; [apply root_path; by rewrite <- E|].
  apply path_step; by rewrite <- E.
Qed.

Lemma same_ext up up' x y : (forall z, up z = up' z) -> same up x y <-> same up' x y.
Proof.
  intros E. split; intros (n & m & r & Hx & Hy); exists n, m, r; split;
    (eapply path_ext; [|eassumption]); auto.
Qed.
End forest.

(** ** The equivalence a list of pairs generates *)

Definition closure {A} (pairs : list (A * A)) : relation A := rtsc (fun x y => (x, y) ∈ pairs).

(** The equivalence with two classes joined. *)
Definition join {A} (E : relation A) (a b : A) : relation A :=
  fun x y => E x y \/ E x a /\ E b y \/ E x b /\ E a y.

Section closure.
Context {A : Type}.
Implicit Types (l : list (A * A)) (x y : A).

Lemma closure_refl l x : closure l x x.
Proof. apply rtc_refl. Qed.

Lemma closure_sym l x y : closure l x y -> closure l y x.
Proof. apply rtsc_equivalence. Qed.

Lemma closure_trans l x y z : closure l x y -> closure l y z -> closure l x z.
Proof. unfold closure, rtsc. intros H1 H2. by etransitivity. Qed.

Lemma closure_elem l x y : (x, y) ∈ l -> closure l x y.
Proof. intros H. apply rtc_once. by left. Qed.

Lemma closure_nil x y : closure [] x y <-> x = y.
Proof.
  split; [|intros ->; apply closure_refl]. intros H. induction H as [|x y z Hxy _ IH]; [done|].
  destruct Hxy as [H|H]; by apply elem_of_nil in H.
Qed.

Lemma closure_incl (E : relation A) l x y : Equivalence E -> (forall x y, (x, y) ∈ l -> E x y) ->
  closure l x y -> E x y.
Proof.
  intros HE Hl H. induction H as [|x y z [Hxy|Hxy] _ IH]; [reflexivity|..]; (etransitivity; [|exact IH]); auto.
  symmetry. auto.
Qed.

Lemma join_closure l a b x y : join (closure l) a b x y <-> closure (l ++ [(a, b)]) x y.
Proof.
  assert (forall x y, closure l x y -> closure (l ++ [(a, b)]) x y) as Hmono.
  { intros u v. apply closure_incl; [split; [intros z; apply closure_refl|intros z w; apply closure_sym|
      intros z w p; apply closure_trans]|]. intros z w Hz. apply closure_elem, elem_of_app. by left. }
  assert (closure (l ++ [(a, b)]) a b) as Hab by (apply closure_elem, elem_of_app; right; by constructor).
  split.
  - intros [H|[[H1 H2]|[H1 H2]]]; [by apply Hmono|..]; apply Hmono in H1, H2.
    + eauto using closure_trans.
    + eauto using closure_trans, closure_sym.
  - apply (closure_incl (join (closure l) a b)).
    + split.
      * intros z. left. apply closure_refl.
      * intros u v [H|[[H1 H2]|[H1 H2]]]; [left|right; right|right; left]; eauto using closure_sym.
      * intros u v w [H|[[H1 H2]|[H1 H2]]] [H'|[[H1' H2']|[H1' H2']]]; unfold join;
          eauto 8 using closure_sym, closure_trans.
    + intros u v [H|H%list_elem_of_singleton]%elem_of_app; [left; by apply closure_elem|].
      injection H as -> ->. right. left. split; apply closure_refl.
Qed.
End closure.

Lemma same_path {A} `{EqDecision A} (up : A -> A) t r : rooted up -> up r = r -> same up t r ->
  exists n, path up t n r.
Proof.
  intros Hr Er (n & m & s & Ht & Hs). destruct (path_det _ _ _ _ _ _ Hs (root_path _ _ Er)) as [_ ->].
  by exists n.
Qed.

(** The forest represents the relation [E]. *)
Record represents {A} `{EqDecision A} (up : A -> A) (E : relation A) : Prop := {
  re_rooted : rooted up;
  re_same : forall x y, same up x y <-> E x y;
}.

(** A step that keeps the classes, and the roots. *)
Record refines_forest {A} `{EqDecision A} (up up' : A -> A) : Prop := {
  rf_rooted : rooted up';
  rf_same : forall x y, same up' x y <-> same up x y;
  rf_roots : forall x, up x = x -> up' x = x;
}.

Lemma represents_forest {A} `{EqDecision A} (up up' : A -> A) E :
  represents up E -> refines_forest up up' -> represents up' E.
Proof. intros [Hr Hs] [Hr' Hs' _]. split; [done|]. intros x y. by rewrite Hs'. Qed.

Lemma refines_trans {A} `{EqDecision A} (f g h : A -> A) :
  refines_forest f g -> refines_forest g h -> refines_forest f h.
Proof. intros [_ H1 H2] [H3 H4 H5]. split; [done| |auto]. intros x y. by rewrite H4. Qed.

Lemma refines_ext {A} `{EqDecision A} (f g : A -> A) : rooted f -> (forall x, f x = g x) -> refines_forest f g.
Proof.
  intros Hr Hx. split.
  - intros x. destruct (Hr x) as (n & r & Hp). exists n, r. by eapply path_ext.
  - intros x y. symmetry. by apply same_ext.
  - intros x E. by rewrite <- Hx.
Qed.

Lemma compress_refines {A} `{EqDecision A} (f : A -> A) x r : rooted f -> f r = r -> same f x r -> x <> r ->
  refines_forest f (relink f x r).
Proof.
  intros Hr Er Hs Hne. destruct (same_path _ _ _ Hr Er Hs) as [n Hp]. split.
  - by eapply compress_rooted.
  - intros y z. by eapply compress_same.
  - intros y Ey. unfold relink. destruct (decide _) as [->|]; [|done].
    destruct (path_det _ _ _ _ _ _ Hp (root_path _ _ Ey)) as [_ ->]. done.
Qed.

(** ** The union-find over terms *)

Module TermUnionFacts.
Import TermUnion.

Definition up (m : t) (x : TermId) : TermId := default x (m !! x).

Lemma up_insert (m : t) x y : forall z, relink (up m) x y z = up (<[x := y]> m) z.
Proof.
  intros z. unfold relink, up. destruct (decide (z = x)) as [->|].
  - by rewrite lookup_insert_eq.
  - by rewrite lookup_insert_ne.
Qed.

Lemma up_enter (m : t) x : forall z, up m z = up (<[x := up m x]> m) z.
Proof. intros z. rewrite <- up_insert. unfold relink. by destruct (decide _) as [->|]. Qed.

Lemma find_from_spec n : forall fuel (m : t) x r, rooted (up m) -> path (up m) x n r -> (n < fuel)%nat ->
  exists m', find_from fuel m x = Ok (r, m') /\ refines_forest (up m) (up m').
Proof.
  induction n as [|n IH]; intros fuel m x r Hr Hp Hf; (destruct fuel as [|fuel]; [lia|]); cbn [find_from];
    fold (up m x); pose proof (refines_ext _ _ Hr (up_enter m x)) as He; inversion Hp as [y Hx|y n' r' Hx Hp']; subst.
  - rewrite Hx, Nat.eqb_refl. eexists. split; [done|]. by rewrite Hx in He.
  - apply Nat.eqb_neq in Hx as Hb. rewrite Hb.
    destruct (IH fuel (<[x := up m x]> m) (up m x) r) as (m' & -> & Hm); [apply He| |lia|].
    { eapply path_ext; [|exact Hp']. apply up_enter. }
    assert (refines_forest (up m) (up m')) as R1 by by eapply refines_trans.
    pose proof (path_end _ _ _ _ Hp') as Er.
    assert (refines_forest (up m') (relink (up m') x r)) as R2.
    { apply compress_refines; [apply R1|by apply R1| |congruence].
      rewrite (rf_same _ _ R1). exists (S n), 0, r. split; [done|by apply root_path]. }
    simpl. eexists. split; [done|]. eapply refines_trans; [exact R1|]. eapply refines_trans; [exact R2|].
    apply refines_ext; [apply R2|apply up_insert].
Qed.

Lemma find_spec m x E : represents (up m) E -> exists r m', find m x = Ok (r, m') /\
  refines_forest (up m) (up m') /\ up m' r = r /\ E x r.
Proof.
  intros [Hr Hs]. destruct (Hr x) as (n & r & Hp).
  assert (n <= length (elements (dom m)))%nat as Hn.
  { apply (path_bound _ _ _ _ _ Hp). intros y Hy. apply elem_of_elements, elem_of_dom.
    unfold up in Hy. by destruct (m !! y). }
  destruct (find_from_spec n (S (size m)) m x r Hr Hp) as (m' & Ef & Hm).
  { change (length (elements (dom m))) with (size (dom m)) in Hn. rewrite size_dom in Hn. lia. }
  exists r, m'. split_and!; [done|done|apply Hm; by eapply path_end|].
  apply Hs. exists n, 0, r. split; [done|]. apply root_path. by eapply path_end.
Qed.

(** [union] joins the classes of its arguments. *)
Lemma union_spec m a b E : Equivalence E -> represents (up m) E ->
  exists m', union m a b = Ok m' /\ represents (up m') (join E a b).
Proof.
  intros HE Hm. unfold union. destruct (find_spec m a E Hm) as (ra & m1 & -> & R1 & Ea & Ha). cbn [mbind res_bind fst snd].
  destruct (find_spec m1 b E) as (rb & m2 & -> & R2 & Eb & Hb); [by eapply represents_forest|].
  cbn [mbind res_bind fst snd]. eexists. split; [done|].
  pose proof (represents_forest _ _ _ (represents_forest _ _ _ Hm R1) R2) as [Hr Hs].
  assert (forall x y, same (up (if (ra =? rb)%nat then m2 else <[ra:=rb]> m2)) x y <-> join E ra rb x y) as Hj.
  { intros x y. destruct (Nat.eqb_spec ra rb) as [->|Hne].
    - rewrite Hs. split; [by left|]. intros [?|[[H1 H2]|[H1 H2]]]; [done|by etransitivity..].
    - rewrite <- (same_ext _ _ _ _ (up_insert m2 ra rb)), link_same; [|done|by apply R2|done|done].
      unfold join. by rewrite !Hs. }
  split.
  - destruct (Nat.eqb_spec ra rb) as [->|Hne]; [done|].
    pose proof (link_rooted (up m2) ra rb Hr ltac:(by apply R2) Eb Hne) as Hl.
    apply (refines_ext _ _ Hl (up_insert m2 ra rb)).
  - intros x y. rewrite Hj. unfold join.
    assert (E ra a) by by symmetry. assert (E rb b) by by symmetry.
    split; (intros [?|[[H1 H2]|[H1 H2]]]; [by left|right; left|right; right]); split; by etransitivity; eauto.
Qed.

Lemma equivalent_spec m a b E : Equivalence E -> represents (up m) E ->
  exists v m', equivalent m a b = Ok (v, m') /\ represents (up m') E /\ (v = true <-> E a b).
Proof.
  intros HE Hm. unfold equivalent. destruct (find_spec m a E Hm) as (ra & m1 & -> & R1 & Ea & Ha). cbn [mbind res_bind fst snd].
  destruct (find_spec m1 b E) as (rb & m2 & -> & R2 & Eb & Hb); [by eapply represents_forest|].
  cbn [mbind res_bind fst snd].
  pose proof (represents_forest _ _ _ (represents_forest _ _ _ Hm R1) R2) as Hm2.
  eexists _, m2. split_and!; [done|done|]. rewrite Nat.eqb_eq. split.
  - intros ->. etransitivity; [exact Ha|by symmetry].
  - intros Hab. assert (E ra rb) as Hrr by (etransitivity; [symmetry; exact Ha|]; by etransitivity).
    apply Hm2 in Hrr. apply (same_roots _ _ _ _ _ _ _ (root_path _ _ (rf_roots _ _ R2 _ Ea)) (root_path _ _ Eb)) in Hrr. done.
Qed.

Lemma up_empty_represents : represents (up ∅) (closure []).
Proof.
  assert (forall x, path (up ∅) x 0 x) as Hp by (intros x; apply root_path; unfold up; by rewrite lookup_empty).
  split; [intros x; by exists 0%nat, x|]. intros x y. rewrite (same_roots _ _ _ _ _ _ _ (Hp x) (Hp y)). symmetry. apply closure_nil.
Qed.

#[export] Instance closure_equivalence {A} (l : list (A * A)) : Equivalence (closure l).
Proof. split; [intros x; apply closure_refl|intros x y; apply closure_sym|intros x y z; apply closure_trans]. Qed.

Lemma represents_iff (f : TermId -> TermId) E E' : (forall x y, E x y <-> E' x y) -> represents f E -> represents f E'.
Proof. intros H [Hr Hs]. split; [done|]. intros x y. by rewrite Hs. Qed.

Lemma union_all_spec pairs : forall m done, represents (up m) (closure done) ->
  exists m', union_all m pairs = Ok m' /\ represents (up m') (closure (done ++ pairs)).
Proof.
  induction pairs as [|[a b] pairs IH]; intros m done Hm; cbn [union_all].
  { exists m. by rewrite app_nil_r. }
  destruct (union_spec m a b _ _ Hm) as (m1 & -> & Hm1). cbn [mbind res_bind].
  destruct (IH m1 (done ++ [(a, b)])) as (m' & -> & Hm').
  { eapply represents_iff; [|exact Hm1]. intros x y. apply join_closure. }
  exists m'. by rewrite <- app_assoc in Hm'.
Qed.

Lemma any_equivalent_spec E pairs : Equivalence E -> forall m, represents (up m) E ->
  exists v, any_equivalent m pairs = Ok v /\ (v = true <-> exists a b, (a, b) ∈ pairs /\ E a b).
Proof.
  intros HE. induction pairs as [|[a b] pairs IH]; intros m Hm; cbn [any_equivalent].
  { exists false. split; [done|]. split; [done|]. intros (a & b & Hin & _). by apply elem_of_nil in Hin. }
  destruct (equivalent_spec m a b E HE Hm) as (v & m' & -> & Hm' & Hv). cbn [mbind res_bind fst snd].
  destruct v.
  - exists true. split; [done|]. split; [|done]. intros _. exists a, b. split; [by constructor|by apply Hv].
  - destruct (IH m' Hm') as (v & -> & Hv'). exists v. split; [done|]. rewrite Hv'.
    split; intros (x & y & Hin & Hxy); exists x, y; (split; [|done]).
    + by constructor.
    + apply elem_of_cons in Hin as [[= -> ->]|]; [by apply Hv in Hxy|done].
Qed.
End TermUnionFacts.

(** ** The union-find over bits *)

Module BitUnionFindFacts.
Import BitUnionFind.

Definition up (parent : list nat) (i : nat) : nat :=
  match parent !! i with Some p => p | None => i end.

(** Parents are entries of the vector. *)
Definition in_range (parent : list nat) : Prop := Forall (fun p => p < length parent) parent.

Lemma bit_up_insert parent x y : x < length parent -> forall z, relink (up parent) x y z = up (<[x := y]> parent) z.
Proof.
  intros Hx z. unfold relink, up. destruct (decide (z = x)) as [->|].
  - by rewrite list_lookup_insert_eq.
  - by rewrite list_lookup_insert_ne.
Qed.

Lemma in_range_insert parent x y : in_range parent -> y < length parent -> in_range (<[x := y]> parent).
Proof.
  unfold in_range. rewrite length_insert. intros H Hy.
  destruct (decide (x < length parent)); [by apply Forall_insert|by rewrite list_insert_ge by lia].
Qed.

Lemma up_lt parent x : in_range parent -> x < length parent -> up parent x < length parent.
Proof.
  intros H [p Hp]%lookup_lt_is_Some_2. unfold up. rewrite Hp. by eapply Forall_lookup in H.
Qed.

Lemma path_lt parent x n r : in_range parent -> path (up parent) x n r -> x < length parent -> r < length parent.
Proof. intros H. induction 1; intros; auto using up_lt. Qed.

Lemma bit_find_from_spec n : forall fuel parent x r, rooted (up parent) -> in_range parent -> x < length parent ->
  path (up parent) x n r -> n < fuel ->
  exists parent', find_from fuel parent x = Ok (r, parent') /\ refines_forest (up parent) (up parent') /\
    length parent' = length parent /\ in_range parent'.
Proof.
  induction n as [|n IH]; intros fuel parent x r Hr Hi Hx Hp Hf; (destruct fuel as [|fuel]; [lia|]);
    cbn [find_from]; pose proof (up_lt _ _ Hi Hx) as Hu; pose proof Hx as [p Ep]%lookup_lt_is_Some_2;
    assert (up parent x = p) as Eu by (unfold up; by rewrite Ep); rewrite Ep; rewrite Eu in Hu;
    inversion Hp as [y Hxr|y n' r' Hxr Hp']; subst.
  - rewrite Hxr, Nat.eqb_refl. exists parent. split_and!; [done|by apply refines_ext|done|done].
  - apply Nat.eqb_neq in Hxr as Hb. rewrite Hb.
    destruct (IH fuel parent (up parent x) r Hr Hi Hu Hp' ltac:(lia)) as (parent' & -> & R1 & Hl & Hi').
    pose proof (path_end _ _ _ _ Hp') as Er. simpl.
    assert (refines_forest (up parent') (relink (up parent') x r)) as R2.
    { apply compress_refines; [apply R1|by apply R1| |congruence].
      rewrite (rf_same _ _ R1). exists (S n), 0, r. split; [done|by apply root_path]. }
    eexists. split; [done|]. split_and!.
    + eapply refines_trans; [exact R1|]. eapply refines_trans; [exact R2|].
      apply refines_ext; [apply R2|apply bit_up_insert; lia].
    + by rewrite length_insert.
    + apply in_range_insert; [done|]. rewrite Hl. by eapply path_lt in Hp'.
Qed.

(** The structure represents [E]; atoms it does not know are related to themselves only. *)
Record rep (u : t) (E : relation atom) : Prop := {
  bu_index : forall a i, indices u !! a = Some i -> i < length (parent u);
  bu_inj : forall a b i, indices u !! a = Some i -> indices u !! b = Some i -> a = b;
  bu_range : in_range (parent u);
  bu_rooted : rooted (up (parent u));
  bu_same : forall a b i j, indices u !! a = Some i -> indices u !! b = Some j ->
    same (up (parent u)) i j <-> E a b;
  bu_known : forall a b, E a b -> a = b \/ is_Some (indices u !! a) /\ is_Some (indices u !! b);
}.

Lemma default_rep : rep default (closure []).
Proof.
  split; simpl; try (intros *; by rewrite lookup_empty).
  - constructor.
  - intros x. exists 0, x. by apply root_path.
  - intros a b ->%closure_nil. by left.
Qed.

Lemma insert_spec u a E : Equivalence E -> rep u E -> exists i u', insert u a = (i, u') /\ rep u' E /\
  indices u' !! a = Some i /\ forall b j, indices u !! b = Some j -> indices u' !! b = Some j.
Proof.
  intros HE [Hix Hinj Hrg Hrt Hsm Hkn]. unfold insert. destruct (indices u !! a) as [i|] eqn:Ea.
  { exists i, u. split_and!; [done|by split|done|done]. }
  eexists _, _. split; [done|]. cbn [indices parent]. set (n := length (parent u)).
  assert (forall b j, indices u !! b = Some j -> <[a := n]> (indices u) !! b = Some j) as Hold.
  { intros b j Hb. rewrite lookup_insert_ne; [done|]. intros <-. congruence. }
  assert (forall z, up (parent u) z = up (parent u ++ [n]) z) as Hup.
  { intros z. unfold up. destruct (decide (z < n)) as [Hz|Hz].
    - by rewrite lookup_app_l.
    - rewrite (lookup_ge_None_2 (parent u) z) by (fold n; lia). rewrite lookup_app_r by (fold n; lia). fold n.
      destruct (decide (z = n)) as [->|]; [by rewrite Nat.sub_diag|].
      rewrite lookup_ge_None_2; [done|]. simpl. lia. }
  assert (up (parent u) n = n) as Hn by (unfold up; by rewrite lookup_ge_None_2).
  assert (forall b j, indices u !! b = Some j -> ~ same (up (parent u)) n j) as Hnew.
  { intros b j Hb (m & k & r & Hm & Hk). apply Hix in Hb. pose proof (path_lt _ _ _ _ Hrg Hk Hb) as Hlt.
    destruct (path_det _ _ _ _ _ _ Hm (root_path _ _ Hn)) as [_ ->]. fold n in Hlt. lia. }
  assert (forall b, E a b -> a = b) as Hself.
  { intros b Hab. destruct (Hkn a b Hab) as [?|[[i Hi] _]]; [done|congruence]. }
  split; [|split; [by rewrite lookup_insert_eq|exact Hold]]. split; cbn [indices parent].
  - intros b i. rewrite length_app. simpl. destruct (decide (a = b)) as [->|].
    + rewrite lookup_insert_eq. intros [= <-]. fold n. lia.
    + rewrite lookup_insert_ne by done. intros Hb%Hix. lia.
  - intros b c i. destruct (decide (a = b)) as [<-|], (decide (a = c)) as [<-|];
      rewrite ?lookup_insert_eq, ?lookup_insert_ne by done; [done| | |apply Hinj].
    + intros [= <-] Hc%Hix. unfold n in Hc. lia.
    + intros Hc%Hix [= <-]. unfold n in Hc. lia.
  - unfold in_range. rewrite length_app. simpl. apply Forall_app. split; [|by constructor; [fold n; lia|]].
    eapply Forall_impl; [exact Hrg|]. simpl. lia.
  - apply (refines_ext _ _ Hrt Hup).
  - intros b c i j Hb Hc. rewrite <- (same_ext _ _ i j Hup). revert Hb Hc.
    destruct (decide (a = b)) as [<-|], (decide (a = c)) as [<-|];
      rewrite ?lookup_insert_eq, ?lookup_insert_ne by done.
    + intros [= <-] [= <-]. split; [done|]. intros _. by apply same_refl.
    + intros [= <-] Hc. split; [intros ?; by destruct (Hnew _ _ Hc)|]. intros ?%Hself. done.
    + intros Hb [= <-]. split.
      * intros (m & k & r & Hm & Hk). destruct (Hnew _ _ Hb). by exists k, m, r.
      * intros Hba. symmetry in Hba. by apply Hself in Hba.
    + apply Hsm.
  - intros b c Hbc. destruct (Hkn b c Hbc) as [?|[[i Hi] [j Hj]]]; [by left|right].
    split; [exists i|exists j]; by apply Hold.
Qed.

Lemma bit_find_spec u E a i : rep u E -> indices u !! a = Some i -> exists r u', find u i = Ok (r, u') /\
  rep u' E /\ indices u' = indices u /\ refines_forest (up (parent u)) (up (parent u')) /\
  length (parent u') = length (parent u) /\
  up (parent u) r = r /\ same (up (parent u)) i r /\ r < length (parent u).
Proof.
  intros [Hix Hinj Hrg Hrt Hsm Hkn] Ha. pose proof (Hix _ _ Ha) as Hi. destruct (Hrt i) as (n & r & Hp).
  assert (n <= length (seq 0 (length (parent u)))) as Hn.
  { apply (path_bound _ _ _ _ _ Hp). intros y Hy. apply elem_of_seq. unfold up in Hy.
    destruct (parent u !! y) eqn:E'; [|done]. apply lookup_lt_Some in E'. lia. }
  rewrite length_seq in Hn. unfold find.
  destruct (bit_find_from_spec n (S (length (parent u))) _ i r Hrt Hrg Hi Hp ltac:(lia)) as (p' & -> & R & Hl & Hr').
  cbn [mbind res_bind fst snd]. eexists _, _. split; [done|]. cbn [indices parent]. split_and!; try done.
  - split; cbn [indices parent]; [by rewrite Hl|done|done|apply R| |done].
    intros b c j k Hb Hc. rewrite (rf_same _ _ R). by apply Hsm.
  - by eapply path_end.
  - exists n, 0, r. split; [done|]. apply root_path. by eapply path_end.
  - by eapply path_lt.
Qed.

(** Two classes of the vector joined. *)
Lemma linked_rep u E a b i j ri rj : Equivalence E -> rep u E -> indices u !! a = Some i -> indices u !! b = Some j ->
  up (parent u) ri = ri -> up (parent u) rj = rj -> same (up (parent u)) i ri -> same (up (parent u)) j rj ->
  ri < length (parent u) -> rj < length (parent u) ->
  rep (if (ri =? rj)%nat then u else mk (indices u) (<[rj := ri]> (parent u))) (join E a b).
Proof.
  intros HE [Hix Hinj Hrg Hrt Hsm Hkn] Ha Hb Ei Ej Hi Hj Hli Hlj.
  assert (forall c d, join E a b c d -> c = d \/ is_Some (indices u !! c) /\ is_Some (indices u !! d)) as Hk'.
  { intros c d [H|[[H1 H2]|[H1 H2]]]; [by apply Hkn|right..];
      destruct (Hkn _ _ H1) as [->|[? _]], (Hkn _ _ H2) as [<-|[_ ?]]; eauto. }
  assert (forall c k s ks, indices u !! c = Some k -> indices u !! s = Some ks ->
    forall r, up (parent u) r = r -> same (up (parent u)) ks r -> same (up (parent u)) k r <-> E c s) as Hroot.
  { intros c k s ks Hc Hs r Er Hsr. rewrite <- (Hsm _ _ _ _ Hc Hs).
    destruct (Hrt k) as (n & r' & Hp), (same_path _ _ _ Hrt Er Hsr) as [m Hm].
    by rewrite (same_roots _ _ _ _ _ _ _ Hp Hm), (same_roots _ _ _ _ _ _ _ Hp (root_path _ _ Er)). }
  destruct (Nat.eqb_spec ri rj) as [<-|Hne].
  - split; try done. intros c d k l Hc Hd. rewrite (Hsm _ _ _ _ Hc Hd). split; [by left|].
    assert (E a b) as Hab by (apply (Hroot _ _ _ _ Ha Hb ri); done).
    intros [?|[[H1 H2]|[H1 H2]]]; [done|..].
    + etransitivity; [exact H1|]. by etransitivity.
    + etransitivity; [exact H1|]. etransitivity; [symmetry; exact Hab|done].
  - assert (rj <> ri) as Hne' by done.
    pose proof (bit_up_insert (parent u) rj ri Hlj) as Hup.
    pose proof (refines_ext _ _ (link_rooted _ _ _ Hrt Ej Ei Hne') Hup) as R.
    split; cbn [indices parent]; [by rewrite length_insert|done|by apply in_range_insert|apply R| |done].
    intros c d k l Hc Hd. rewrite (rf_same _ _ R), link_same by done. unfold join.
    assert (forall x y, same (up (parent u)) x y <-> same (up (parent u)) y x) as Hsym
      by (intros x y; split; intros (n & m & r & ? & ?); by exists m, n, r).
    rewrite (Hsm _ _ _ _ Hc Hd), (Hsym ri l), (Hsym rj l), (Hroot _ _ _ _ Hc Hb rj), (Hroot _ _ _ _ Hd Ha ri),
      (Hroot _ _ _ _ Hc Ha ri), (Hroot _ _ _ _ Hd Hb rj) by done.
    assert (forall x y, E x y <-> E y x) as Hes by (intros x y; split; by symmetry).
    rewrite (Hes d a), (Hes d b). tauto.
Qed.

Lemma bit_union_spec u a b E : Equivalence E -> rep u E ->
  exists u', union u a b = Ok u' /\ rep u' (join E a b).
Proof.
  intros HE Hu. unfold union.
  destruct (insert_spec u a E HE Hu) as (i & u1 & -> & H1 & Ha & _).
  destruct (insert_spec u1 b E HE H1) as (j & u2 & -> & H2 & Hb & Ho). apply Ho in Ha.
  destruct (bit_find_spec _ _ _ _ H2 Ha) as (ri & u3 & -> & H3 & E3 & R3 & L3 & Er & Sr & Lr). cbn [mbind res_bind fst snd].
  rewrite <- E3 in Hb.
  destruct (bit_find_spec _ _ _ _ H3 Hb) as (rj & u4 & -> & H4 & E4 & R4 & L4 & Es & Ss & Ls). cbn [mbind res_bind fst snd].
  eexists. split; [done|]. apply (linked_rep u4 E a b i j); [done|done|by rewrite E4, E3|by rewrite E4|..].
  - by apply R4, R3.
  - by apply R4.
  - by rewrite (rf_same _ _ R4), (rf_same _ _ R3).
  - by rewrite (rf_same _ _ R4).
  - lia.
  - lia.
Qed.

Lemma bit_equivalent_spec u a b E : rep u E -> exists v u', equivalent u a b = Ok (v, u') /\ rep u' E /\
  (v = true <-> E a b /\ is_Some (indices u !! a) /\ is_Some (indices u !! b)).
Proof.
  intros Hu. unfold equivalent.
  destruct (indices u !! a) as [i|] eqn:Ha; [destruct (indices u !! b) as [j|] eqn:Hb|];
    [|eexists _, _; split_and!; [done..|]; split; [done|intros (_ & ? & [? ?]); done]
     |eexists _, _; split_and!; [done..|]; split; [done|intros (_ & [? ?] & ?); done]].
  destruct (bit_find_spec _ _ _ _ Hu Ha) as (ri & u1 & -> & H1 & E1 & R1 & L1 & Er & Sr & Lr). cbn [mbind res_bind fst snd].
  rewrite <- E1 in Hb.
  destruct (bit_find_spec _ _ _ _ H1 Hb) as (rj & u2 & -> & H2 & E2 & R2 & L2 & Es & Ss & Ls). cbn [mbind res_bind fst snd].
  eexists _, _. split_and!; [done|done|]. rewrite Nat.eqb_eq.
  rewrite E1 in Hb. rewrite <- (bu_same _ _ Hu _ _ _ _ Ha Hb). rewrite (rf_same _ _ R1) in Ss.
  destruct (same_path _ _ _ (bu_rooted _ _ Hu) Er Sr) as [n Hn].
  assert (same (up (parent u1)) j rj) as Ss' by by rewrite (rf_same _ _ R1).
  destruct (same_path _ _ _ (bu_rooted _ _ H1) Es Ss') as [m Hm].
  rewrite <- (rf_same _ _ R1). pose proof (rf_roots _ _ R1 _ Er) as Er1.
  assert (same (up (parent u1)) i ri) as Sr1 by by rewrite (rf_same _ _ R1).
  destruct (same_path _ _ _ (bu_rooted _ _ H1) Er1 Sr1) as [n' Hn'].
  rewrite (same_roots _ _ _ _ _ _ _ Hn' Hm). split; [by eauto|by intros [? _]].
Qed.

Lemma rep_iff u E E' : (forall x y, E x y <-> E' x y) -> rep u E -> rep u E'.
Proof.
  intros H [H1 H2 H3 H4 H5 H6]. split; [done..| |].
  - intros a b i j Ha Hb. rewrite <- H. by apply H5.
  - intros a b ?%H. by apply H6.
Qed.

Lemma bit_union_all_spec pairs : forall u done, rep u (closure done) ->
  exists u', union_all u pairs = Ok u' /\ rep u' (closure (done ++ pairs)).
Proof.
  induction pairs as [|[a b] pairs IH]; intros u done Hu; cbn [union_all].
  { exists u. by rewrite app_nil_r. }
  destruct (bit_union_spec u a b _ _ Hu) as (u1 & -> & H1). cbn [mbind res_bind].
  destruct (IH u1 (done ++ [(a, b)])) as (u' & -> & Hu').
  { eapply rep_iff; [|exact H1]. intros x y. apply join_closure. }
  exists u'. by rewrite <- app_assoc in Hu'.
Qed.

(** *** The bits it knows: those it was given *)

Lemma find_indices u i r u' : find u i = Ok (r, u') -> indices u' = indices u.
Proof. unfold find. destruct (find_from _ _ _); [|done..]. by intros [= _ <-]. Qed.

Lemma insert_known u a i u' : insert u a = (i, u') ->
  forall c, is_Some (indices u' !! c) <-> is_Some (indices u !! c) \/ c = a.
Proof.
  unfold insert. destruct (indices u !! a) as [k|] eqn:E; intros [= _ <-] c; simpl.
  - split; [by left|]. intros [?| ->]; [done|by exists k].
  - destruct (decide (a = c)) as [->|Hne]; [rewrite lookup_insert_eq|rewrite lookup_insert_ne by done]; naive_solver.
Qed.

Lemma union_known u a b u' : union u a b = Ok u' ->
  forall c, is_Some (indices u' !! c) <-> is_Some (indices u !! c) \/ c = a \/ c = b.
Proof.
  unfold union. destruct (insert u a) as [i u1] eqn:E1. destruct (insert u1 b) as [j u2] eqn:E2.
  destruct (find u2 i) as [[ri u3]|e|] eqn:E3; [|done..]. cbn [mbind res_bind fst snd].
  destruct (find u3 j) as [[rj u4]|e|] eqn:E4; [|done..]. cbn [mbind res_bind fst snd]. intros [= <-] c.
  pose proof (insert_known _ _ _ _ E1 c) as H1. pose proof (insert_known _ _ _ _ E2 c) as H2.
  apply find_indices in E3, E4. assert (indices (if (ri =? rj)%nat then u4 else mk (indices u4) (<[rj := ri]> (parent u4))) = indices u2) as ->
    by (destruct (_ =? _)%nat; simpl; congruence). rewrite H2, H1. tauto.
Qed.

(** The bit is one of a pair. *)
Definition occurs (pairs : list (atom * atom)) (c : atom) : Prop := exists p, p ∈ pairs /\ (c = p.1 \/ c = p.2).

Lemma union_all_known pairs : forall u u', union_all u pairs = Ok u' ->
  forall c, is_Some (indices u' !! c) <-> is_Some (indices u !! c) \/ occurs pairs c.
Proof.
  induction pairs as [|[a b] pairs IH]; intros u u'; cbn [union_all].
  { intros [= <-] c. split; [by left|]. intros [?|(p & ?%elem_of_nil & _)]; done. }
  destruct (union u a b) as [u1|e|] eqn:E; [|done..]. cbn [mbind res_bind]. intros Hall c.
  rewrite (IH _ _ Hall c), (union_known _ _ _ _ E c). split.
  - intros [[?|?]|(p & Hp & Hc)]; [by left|right; exists (a, b); split; [by left|done]|right; exists p; split; [by right|done]].
  - intros [?|(p & [->|Hp]%elem_of_cons & Hc)]; [by left; left|left; by right|right; by exists p].
Qed.

Lemma equivalent_indices u a b v u' : equivalent u a b = Ok (v, u') -> indices u' = indices u.
Proof.
  unfold equivalent. destruct (indices u !! a) as [i|]; [destruct (indices u !! b) as [j|]|]; [|by intros [= _ <-]..].
  destruct (find u i) as [[ri u1]|e|] eqn:E1; [|done..]. cbn [mbind res_bind fst snd].
  destruct (find u1 j) as [[rj u2]|e|] eqn:E2; [|done..]. cbn [mbind res_bind fst snd]. intros [= _ <-].
  apply find_indices in E1, E2. congruence.
Qed.

Lemma all_equivalent_spec E pairs : forall u, rep u E -> exists v u', all_equivalent u pairs = Ok (v, u') /\ rep u' E /\
  (v = true <-> forall a b, (a, b) ∈ pairs -> E a b /\ is_Some (indices u !! a) /\ is_Some (indices u !! b)).
Proof.
  induction pairs as [|[a b] pairs IH]; intros u Hu; cbn [all_equivalent].
  { eexists _, _. split; [done|]. split; [done|]. split; [|done]. intros _ a b Hin. by apply elem_of_nil in Hin. }
  destruct (bit_equivalent_spec u a b E Hu) as (v & u1 & Ev & H1 & Hv). rewrite Ev. cbn [mbind res_bind fst snd].
  apply equivalent_indices in Ev. destruct v.
  - destruct (IH u1 H1) as (v & u' & -> & Hu' & Hv'). eexists _, _. split; [done|]. split; [done|]. rewrite Hv', Ev. split.
    + intros Hall x y [[= -> ->]|Hin]%elem_of_cons; [by apply Hv|by apply Hall].
    + intros Hall x y Hin. apply Hall. by right.
  - eexists _, _. split; [done|]. split; [done|]. split; [done|]. intros Hall. apply Hv, Hall. by left.
Qed.
End BitUnionFindFacts.

(** ** The theorem *)

(** C37: both union-find structures compute equivalence closures.  From an empty structure,
    taking in any list of equalities ends, without a panic and within the fuel; a later
    pass over a list of pairs ends too, and finds one that the closure of the
    equalities relates exactly when there is one.  The structure over the bits of terms
    does not know the bits that occur in no equality, and does not call them equivalent
    even to themselves: it confirms a list of pairs exactly when the closure relates each
    pair and both its bits occur in the equalities. *)
Theorem union_find_computes_closure (equalities pairs : list (TermId * TermId))
    (bit_equalities bit_pairs : list (BitUnionFind.atom * BitUnionFind.atom)) :
  (exists m v, TermUnion.union_all ∅ equalities = Ok m /\ TermUnion.any_equivalent m pairs = Ok v /\
     (v = true <-> exists a b, (a, b) ∈ pairs /\ closure equalities a b)) /\
  (exists u v u', BitUnionFind.union_all BitUnionFind.default bit_equalities = Ok u /\
     BitUnionFind.all_equivalent u bit_pairs = Ok (v, u') /\
     (v = true <-> forall a b, (a, b) ∈ bit_pairs -> closure bit_equalities a b /\
        BitUnionFindFacts.occurs bit_equalities a /\ BitUnionFindFacts.occurs bit_equalities b)).
Proof.
  split.
  - destruct (TermUnionFacts.union_all_spec equalities ∅ [] TermUnionFacts.up_empty_represents) as (m & E & Hm).
    destruct (TermUnionFacts.any_equivalent_spec _ pairs _ m Hm) as (v & Ev & Hv). by exists m, v.
  - destruct (BitUnionFindFacts.bit_union_all_spec bit_equalities _ [] BitUnionFindFacts.default_rep) as (u & E & Hu).
    destruct (BitUnionFindFacts.all_equivalent_spec _ bit_pairs u Hu) as (v & u' & Ev & _ & Hv). exists u, v, u'.
    split_and!; [done..|]. rewrite Hv. pose proof (BitUnionFindFacts.union_all_known _ _ _ E) as Hk. simpl in Hk.
    assert (forall c, is_Some (BitUnionFind.indices u !! c) <-> BitUnionFindFacts.occurs bit_equalities c) as Hocc.
    { intros c. rewrite Hk, lookup_empty. split; [intros [[? [=]]|?]; done|by right]. }
    by setoid_rewrite Hocc.
Qed.
