(* ===== verification/PatternRecognisers.v ===== *)
(** * Contradiction recognisers ([solver/shortcuts])

    The recognisers that look for a pattern of asserted equalities and
    disequalities: the helpers of [common.rs], then a Module per source file.
    Recursion over a term is over operand ids, which decrease, so a term's id plus
    one is enough fuel. *)
From stdpp Require Import sorting.
From S2P Require Import Prelude Smt Bytes Ir Recognisers UnionFind.

#[local] Open Scope Z_scope.

(** [a? || b?] and [a? && b?] *)
Definition res_or (a b : res bool) : res bool := x ← a; if (x : bool) then Ok true else b.
Definition res_and (a b : res bool) : res bool := x ← a; if (x : bool) then b else Ok false.

(** [for x in l { if f(x)? { return Ok(true); } } Ok(false)] *)
Fixpoint any_of {A} (f : A -> res bool) (l : list A) : res bool :=
  match l with [] => Ok false | x :: l => res_or (f x) (any_of f l) end.

(** [for x in l { if let Some(y) = f(x)? { return Ok(Some(y)); } } Ok(None)] *)
Fixpoint first_some {A B} (f : A -> res (option B)) (l : list A) : res (option B) :=
  match l with
  | [] => Ok None
  | x :: l => y ← f x; match y with Some y => Ok (Some y) | None => first_some f l end
  end.

(** ** [common.rs] and the helpers shared between files *)

(** [if a == b { r } else { false }] *)
Definition same_then (a b : TermId) (r : res bool) : res bool := if (a =? b)%nat then r else Ok false.

(** The operands of a term of one kind. *)
Definition parts_by (pick : NodeKind -> option (TermId * TermId)) (q : Query) (term : TermId)
    : res (option (TermId * TermId)) :=
  n ← Arena.node (arena q) term; Ok (pick (kind n)).

Definition or_kind (k : NodeKind) := match k with BoolOr a b => Some (a, b) | _ => None end.
Definition and_kind (k : NodeKind) := match k with BoolAnd a b => Some (a, b) | _ => None end.
Definition eq_kind (k : NodeKind) := match k with BvEq a b => Some (a, b) | _ => None end.
Definition any_eq_kind (k : NodeKind) :=
  match k with BvEq a b | BoolEq a b => Some (a, b) | _ => None end.
Definition add_kind (k : NodeKind) := match k with BvAdd a b => Some (a, b) | _ => None end.
Definition mul_kind (k : NodeKind) := match k with BvMul a b => Some (a, b) | _ => None end.
Definition bvand_kind (k : NodeKind) := match k with BvAnd a b => Some (a, b) | _ => None end.
Definition bvor_kind (k : NodeKind) := match k with BvOr a b => Some (a, b) | _ => None end.
Definition bvxor_kind (k : NodeKind) := match k with BvXor a b => Some (a, b) | _ => None end.

Definition bv_eq_pair := parts_by eq_kind.
Definition bv_add_parts := parts_by add_kind.
Definition bv_and_parts := parts_by bvand_kind.
Definition bv_mul_parts := parts_by mul_kind.

(** The leaves under one binary connective, appended to [out]. *)
Fixpoint collect_leaves (pick : NodeKind -> option (TermId * TermId)) (q : Query) (fuel : nat)
    (term : TermId) (out : list TermId) : res (list TermId) :=
  match fuel with
  | O => Panic
  | S fuel =>
      n ← Arena.node (arena q) term;
      match pick (kind n) with
      | Some (a, b) =>
          out ← collect_leaves pick q fuel a out;
          collect_leaves pick q fuel b out
      | None => Ok (out ++ [term])
      end
  end.

Definition collect_bool_or_leaves (q : Query) (term : TermId) := collect_leaves or_kind q (S term) term.
Definition collect_bool_and_conjuncts (q : Query) (term : TermId) := collect_leaves and_kind q (S term) term.
Definition collect_bv_xor_terms (q : Query) (term : TermId) := collect_leaves bvxor_kind q (S term) term.

(** The pair of vectors [equalities] and [disequalities]. *)
Definition Pairs : Type := list (TermId * TermId) * list (TermId * TermId).

(** The walk of [collect_bv_equalities_and_disequalities] and of
    [collect_direct_equalities_and_disequalities]: they differ in the equalities
    they pick. *)
Fixpoint collect_pairs (pick : NodeKind -> option (TermId * TermId)) (q : Query) (fuel : nat)
    (term : TermId) (out : Pairs) : res Pairs :=
  match fuel with
  | O => Panic
  | S fuel =>
      n ← Arena.node (arena q) term;
      match pick (kind n), kind n with
      | Some p, _ => Ok (out.1 ++ [p], out.2)
      | None, BoolNot child =>
          c ← Arena.node (arena q) child;
          match pick (kind c) with
          | Some p => Ok (out.1, out.2 ++ [p])
          | None => Ok out
          end
      | None, BoolAnd a b =>
          out ← collect_pairs pick q fuel a out;
          collect_pairs pick q fuel b out
      | None, _ => Ok out
      end
  end.

Definition collect_bv_equalities_and_disequalities (q : Query) (term : TermId) :=
  collect_pairs eq_kind q (S term) term.

(** The loop over the assertions that opens most recognisers. *)
Definition bv_equalities_and_disequalities (q : Query) : res Pairs :=
  collect_all (collect_bv_equalities_and_disequalities q) (root <$> assertions q) ([], []).

Definition assertion_conjuncts (q : Query) : res (list TermId) :=
  collect_all (collect_bool_and_conjuncts q) (root <$> assertions q) [].

Definition same_unordered_pair (a b x y : TermId) : bool :=
  ((a =? x) && (b =? y) || (a =? y) && (b =? x))%nat.

(** Predicates on the bytes of a constant. *)
Definition const_test (q : Query) (term : TermId) (test : nat -> list Z -> bool) : res bool :=
  n ← Arena.node (arena q) term;
  Ok (match kind n with BvConst width bytes => test width bytes | _ => false end).

Definition all_indexed (p : nat -> Z -> bool) (bytes : list Z) : bool :=
  forallb (fun b : bool => b) (imap p bytes).

Definition is_zero_bv_const (q : Query) (term : TermId) : res bool :=
  const_test q term (fun _ bytes => forallb (fun byte => byte =? 0) bytes).

Definition is_power_of_two_const (q : Query) (term : TermId) (bit : nat) : res bool :=
  const_test q term (fun _ bytes =>
    all_indexed (fun index byte =>
      byte =? (if (index =? bit / 8)%nat then Z.shiftl 1 (Z.of_nat (bit mod 8)) else 0)) bytes).

Definition is_all_ones_bv_const (q : Query) (term : TermId) (width : nat) : res bool :=
  const_test q term (fun actual bytes =>
    (actual =? width)%nat &&
    let full_bytes := div_ceil width 8 in
    (length bytes =? full_bytes)%nat &&
    all_indexed (fun index byte =>
      let valid_bits := if (index + 1 =? full_bytes)%nat && negb (width mod 8 =? 0)%nat
                        then (width mod 8)%nat else 8%nat in
      byte =? (if (valid_bits =? 8)%nat then 0xff else Z.shiftl 1 (Z.of_nat valid_bits) - 1)) bytes).

Definition is_signed_min_bv_const (q : Query) (term : TermId) (width : nat) : res bool :=
  const_test q term (fun actual bytes =>
    (actual =? width)%nat &&
    (forallb (fun bit => negb (get_bit bytes bit)) (seq 0 (width - 1)) && get_bit bytes (width - 1))).

(** [simple_processor.rs] *)
Definition is_bv_const_u64 (q : Query) (term : TermId) (width : nat) (value : Z) : res bool :=
  const_test q term (fun actual_width bytes =>
    (actual_width =? width)%nat && (length bytes =? div_ceil width 8)%nat &&
    all_indexed (fun index byte =>
      byte =? (if (index <? 8)%nat then u8 (Z.land (Z.shiftr value (Z.of_nat (index * 8))) 0xff) else 0))
      bytes).

(** [log_slicing.rs] *)
Definition is_bv_not_of (q : Query) (candidate child : TermId) : res bool :=
  n ← Arena.node (arena q) candidate;
  Ok (match kind n with BvNot actual => (actual =? child)%nat | _ => false end).

Definition is_shift_left_one_of (q : Query) (term x : TermId) : res bool :=
  n ← Arena.node (arena q) term;
  match kind n with
  | BvShl value amount => same_then value x (is_one_bv_const q amount)
  | BvMul a b =>
      res_or (same_then a x (is_power_of_two_const q b 1)) (same_then b x (is_power_of_two_const q a 1))
  | _ => Ok false
  end.

Definition is_minus_one (q : Query) (candidate term : TermId) : res bool :=
  n ← Arena.node (arena q) candidate;
  match kind n with BvSub a b => same_then a term (is_one_bv_const q b) | _ => Ok false end.

Definition is_power_of_two_mask (q : Query) (mask term : TermId) : res bool :=
  n ← Arena.node (arena q) mask;
  match kind n with
  | BvAnd a b => res_or (same_then a term (is_minus_one q b term)) (same_then b term (is_minus_one q a term))
  | _ => Ok false
  end.

Definition is_power_of_two_test (q : Query) (a b term zero : TermId) : res bool :=
  res_or (res_and (or_false (is_zero_bv_const q b)) (or_false (is_power_of_two_mask q a term)))
    (res_or (res_and (or_false (is_zero_bv_const q a)) (or_false (is_power_of_two_mask q b term)))
       (res_or (same_then b zero (or_false (is_power_of_two_mask q a term)))
          (same_then a zero (or_false (is_power_of_two_mask q b term))))).

(** The zero [term] is asserted to differ from: the closure of [find_map]. *)
Definition asserted_zero (q : Query) (term : TermId) (p : TermId * TermId) : res (option TermId) :=
  left ← same_then p.1 term (or_false (is_zero_bv_const q p.2));
  if (left : bool) then Ok (Some p.2)
  else
    right ← same_then p.2 term (or_false (is_zero_bv_const q p.1));
    Ok (if (right : bool) then Some p.1 else None).

Definition is_asserted_nonzero_power_of_two (q : Query) (term : TermId)
    (equalities disequalities : list (TermId * TermId)) : res bool :=
  zero ← first_some (asserted_zero q term) disequalities;
  match zero with
  | None => Ok false
  | Some zero => any_of (fun p => is_power_of_two_test q p.1 p.2 term zero) equalities
  end.

(** ** [direct_eq.rs] *)

Definition collect_direct_equalities_and_disequalities (q : Query) (term : TermId) :=
  collect_pairs any_eq_kind q (S term) term.

Definition arena_larger (q : Query) (limit : Z) : bool := limit <? Z.of_nat (length (nodes (arena q))).

Definition has_direct_equality_disequality_contradiction (q : Query) : res bool :=
  if negb (no_assumptions q) || arena_larger q 500000 then Ok false
  else
    pairs ← collect_all (collect_direct_equalities_and_disequalities q) (root <$> assertions q) ([], []);
    if ((length pairs.1 =? 0)%nat || (length pairs.2 =? 0)%nat) || (100000 <? Z.of_nat (length pairs.1))
    then Ok false
    else
      parent ← TermUnion.union_all ∅ pairs.1;
      TermUnion.any_equivalent parent pairs.2.

(** ** [arithmetic.rs] *)

Definition is_disequal (x y : TermId) (disequalities : list (TermId * TermId)) : bool :=
  existsb (fun p => same_unordered_pair p.1 p.2 x y) disequalities.

Definition has_shift_one_add_contradiction (q : Query) : res bool :=
  pairs ← bv_equalities_and_disequalities q;
  any_of (fun e1 =>
    parts ← bv_add_parts q e1.2;
    match parts with
    | None => Ok false
    | Some (x, y) =>
        any_of (fun e2 =>
          res_and (same_then e1.1 e2.1 (is_shift_left_one_of q e2.2 x))
            (Ok (is_disequal x y pairs.2))) pairs.1
    end) pairs.1.

Definition has_distinct_power_of_two_sum_contradiction (q : Query) : res bool :=
  pairs ← bv_equalities_and_disequalities q;
  any_of (fun e =>
    parts ← bv_add_parts q e.2;
    match parts with
    | None => Ok false
    | Some (x, y) =>
        if negb (is_disequal x y pairs.2) then Ok false
        else
          res_and (is_asserted_nonzero_power_of_two q x pairs.1 pairs.2)
            (res_and (is_asserted_nonzero_power_of_two q y pairs.1 pairs.2)
               (is_asserted_nonzero_power_of_two q e.1 pairs.1 pairs.2))
    end) pairs.1.

(** ** [division_remainder.rs] *)

(** The neighbours of [current] not yet seen, in the order they are pushed. *)
Definition unseen_neighbours (seen : list TermId) (current : TermId)
    (equalities : list (TermId * TermId)) : list TermId :=
  omap (fun p : TermId * TermId =>
    if (p.1 =? current)%nat && negb (bool_decide (p.2 ∈ seen)) then Some p.2
    else if (p.2 =? current)%nat && negb (bool_decide (p.1 ∈ seen)) then Some p.1
    else None) equalities.

(** The search; the head of [stack] is the top, [seen] has the latest first. *)
Fixpoint search_equal (fuel : nat) (b : TermId) (equalities : list (TermId * TermId))
    (stack seen : list TermId) : res bool :=
  match fuel with
  | O => Panic
  | S fuel =>
      match stack with
      | [] => Ok false
      | current :: stack =>
          if (current =? b)%nat then Ok true
          else if bool_decide (current ∈ seen) then search_equal fuel b equalities stack seen
          else
            let seen := current :: seen in
            search_equal fuel b equalities
              (reverse (unseen_neighbours seen current equalities) ++ stack) seen
      end
  end.

(** Every round pops a term; a term seen for the first time, one of at most
    [2 n + 1], pushes at most [n]. *)
Definition search_fuel (equalities : list (TermId * TermId)) : nat :=
  let n := length equalities in 2 + (2 * n + 1) * (n + 1).

Definition equivalent_under_equalities (a b : TermId) (equalities : list (TermId * TermId)) : res bool :=
  if (a =? b)%nat then Ok true else search_equal (search_fuel equalities) b equalities [a] [].

(** [(numerator, divisor, remainder)] *)
Definition UremParts : Type := TermId * TermId * TermId.

Definition bv_urem_eq_side (q : Query) (term : TermId) : res (option UremParts) :=
  pair ← bv_eq_pair q term;
  match pair with
  | None => Ok None
  | Some (a, b) =>
      na ← Arena.node (arena q) a;
      match kind na with
      | BvURem numerator divisor => Ok (Some (numerator, divisor, b))
      | _ =>
          nb ← Arena.node (arena q) b;
          match kind nb with
          | BvURem numerator divisor => Ok (Some (numerator, divisor, a))
          | _ => Ok None
          end
      end
  end.

Definition is_bv_eq_pair (q : Query) (term x y : TermId) : res bool :=
  pair ← bv_eq_pair q term;
  Ok (match pair with Some (a, b) => same_unordered_pair a b x y | None => false end).

Definition urem_guard_clause (q : Query) (term : TermId) : res (option UremParts) :=
  leaves ← collect_bool_or_leaves q term [];
  if negb (length leaves =? 2)%nat then Ok None
  else
    urem ← first_some (bv_urem_eq_side q) leaves;
    match urem with
    | None => Ok None
    | Some (numerator, divisor, remainder) =>
        found ← any_of (fun leaf => is_bv_eq_pair q leaf remainder divisor) leaves;
        Ok (if (found : bool) then Some (numerator, divisor, remainder) else None)
    end.

(** The three vectors of [has_urem_remainder_fixed_point_contradiction]. *)
Record UremFacts := mkUremFacts {
  urem_equalities : list (TermId * TermId);
  positive_guards : list UremParts;
  negative_guards : list UremParts;
}.

Definition urem_leaf (q : Query) (facts : UremFacts) (leaf : TermId) : res UremFacts :=
  pair ← bv_eq_pair q leaf;
  positive ← urem_guard_clause q leaf;
  n ← Arena.node (arena q) leaf;
  negative ← match kind n with BoolNot child => urem_guard_clause q child | _ => Ok None end;
  Ok {| urem_equalities := urem_equalities facts ++ option_list pair;
        positive_guards := positive_guards facts ++ option_list positive;
        negative_guards := negative_guards facts ++ option_list negative |}.

Definition has_urem_remainder_fixed_point_contradiction (q : Query) : res bool :=
  if negb (no_assumptions q) || arena_larger q 100000 then Ok false
  else
    leaves ← assertion_conjuncts q;
    facts ← collect_all (fun leaf facts => urem_leaf q facts leaf) leaves (mkUremFacts [] [] []);
    let same a b := equivalent_under_equalities a b (urem_equalities facts) in
    any_of (fun positive : UremParts =>
      any_of (fun negative : UremParts =>
        let '(_, positive_divisor, positive_remainder) := positive in
        let '(negative_numerator, negative_divisor, negative_remainder) := negative in
        res_and (same positive_divisor negative_divisor)
          (res_and (same positive_remainder negative_remainder)
             (same negative_numerator positive_remainder)))
        (negative_guards facts)) (positive_guards facts).

(** ** [overflow_guards.rs] *)

Definition has_disequality_with_const (q : Query) (disequalities : list (TermId * TermId)) (term : TermId)
    (predicate : Query -> TermId -> res bool) : res bool :=
  any_of (fun p => res_or (same_then p.1 term (predicate q p.2)) (same_then p.2 term (predicate q p.1)))
    disequalities.

(** The first node that is the complement of [term]. *)
Fixpoint find_bvnot (term : TermId) (ns : list Node) (i : nat) : option TermId :=
  match ns with
  | [] => None
  | n :: ns =>
      match kind n with
      | BvNot child => if (child =? term)%nat then Some (u32 i) else find_bvnot term ns (S i)
      | _ => find_bvnot term ns (S i)
      end
  end.

Definition has_bvnot_disequality_to_zero (q : Query) (term : TermId)
    (disequalities : list (TermId * TermId)) : res bool :=
  match find_bvnot term (nodes (arena q)) 0 with
  | None => Ok false
  | Some not_term => has_disequality_with_const q disequalities not_term is_zero_bv_const
  end.

(** [(child, width of the child, extra)] *)
Definition extend_parts (pick : NodeKind -> option (TermId * nat)) (q : Query) (term : TermId)
    : res (option (TermId * nat * nat)) :=
  n ← Arena.node (arena q) term;
  match pick (kind n) with
  | Some (child, extra) =>
      s ← Arena.sort_of (arena q) child;
      Ok (match s with SBv width => Some (child, width, extra) | SBool => None end)
  | None => Ok None
  end.

Definition sign_extend_parts :=
  extend_parts (fun k => match k with BvSignExtend child extra => Some (child, extra) | _ => None end).
Definition zero_extend_parts :=
  extend_parts (fun k => match k with BvZeroExtend child extra => Some (child, extra) | _ => None end).

(** [(x, y, width)] *)
Definition signed_division_product_parts_from_operands (q : Query)
    (quotient_factor divisor_factor : TermId) (high low : nat) : res (option (TermId * TermId * nat)) :=
  qp ← sign_extend_parts q quotient_factor;
  match qp with
  | None => Ok None
  | Some (quotient, quotient_width, quotient_extra) =>
      dp ← sign_extend_parts q divisor_factor;
      match dp with
      | None => Ok None
      | Some (divisor, divisor_width, divisor_extra) =>
          if negb (quotient_width =? divisor_width)%nat || negb (quotient_extra =? quotient_width)%nat
             || negb (divisor_extra =? divisor_width)%nat || negb (low =? quotient_width - 1)%nat
             || negb (high + 1 =? quotient_width * 2)%nat
          then Ok None
          else
            n ← Arena.node (arena q) quotient;
            Ok (match kind n with
                | BvSDiv x y => if (y =? divisor)%nat then Some (x, y, quotient_width) else None
                | _ => None
                end)
      end
  end.

Definition signed_division_product_high_slice_parts (q : Query) (term : TermId)
    : res (option (TermId * TermId * nat)) :=
  n ← Arena.node (arena q) term;
  match kind n with
  | BvExtract child high low =>
      c ← Arena.node (arena q) child;
      match kind c with
      | BvMul a b =>
          parts ← signed_division_product_parts_from_operands q a b high low;
          match parts with
          | Some parts => Ok (Some parts)
          | None => signed_division_product_parts_from_operands q b a high low
          end
      | _ => Ok None
      end
  | _ => Ok None
  end.

(** [is_eq_to_all_ones] and [is_eq_to_signed_min] *)
Definition is_eq_to (test : Query -> TermId -> nat -> res bool) (q : Query) (term value : TermId)
    (width : nat) : res bool :=
  n ← Arena.node (arena q) term;
  match kind n with
  | BvEq a b => res_or (same_then a value (test q b width)) (same_then b value (test q a width))
  | _ => Ok false
  end.
Definition is_eq_to_all_ones := is_eq_to is_all_ones_bv_const.
Definition is_eq_to_signed_min := is_eq_to is_signed_min_bv_const.

Definition is_signed_division_overflow_conjunction (q : Query) (term x y : TermId) (width : nat)
    : res bool :=
  n ← Arena.node (arena q) term;
  match kind n with
  | BoolAnd a b =>
      res_or (res_and (is_eq_to_all_ones q a y width) (is_eq_to_signed_min q b x width))
        (res_and (is_eq_to_all_ones q b y width) (is_eq_to_signed_min q a x width))
  | _ => Ok false
  end.

Fixpoint contains_signed_division_overflow_guard (q : Query) (fuel : nat) (term x y : TermId)
    (width : nat) : res bool :=
  match fuel with
  | O => Panic
  | S fuel =>
      n ← Arena.node (arena q) term;
      match kind n with
      | BoolNot child => is_signed_division_overflow_conjunction q child x y width
      | BoolAnd a b | BoolOr a b =>
          res_or (contains_signed_division_overflow_guard q fuel a x y width)
            (contains_signed_division_overflow_guard q fuel b x y width)
      | _ => Ok false
      end
  end.

Definition has_signed_division_overflow_guard (q : Query) (x y : TermId) (width : nat) : res bool :=
  any_of (fun r => contains_signed_division_overflow_guard q (S r) r x y width) (root <$> assertions q).

Definition has_signed_division_multiply_overflow_guard_contradiction (q : Query) : res bool :=
  pairs ← bv_equalities_and_disequalities q;
  any_of (fun p =>
    left ← res_and (is_zero_bv_const q p.2) (has_bvnot_disequality_to_zero q p.1 pairs.2);
    high ← (if (left : bool) then Ok (Some p.1)
            else
              right ← res_and (is_zero_bv_const q p.1) (has_bvnot_disequality_to_zero q p.2 pairs.2);
              Ok (if (right : bool) then Some p.2 else None));
    match high with
    | None => Ok false
    | Some high =>
        parts ← signed_division_product_high_slice_parts q high;
        match parts with
        | None => Ok false
        | Some (x, y, width) =>
            res_and (has_disequality_with_const q pairs.2 y is_zero_bv_const)
              (has_signed_division_overflow_guard q x y width)
        end
    end) pairs.2.

Definition unsigned_high_multiplication_overflow_parts (q : Query) (term zero : TermId)
    : res (option (TermId * TermId * nat)) :=
  is_zero ← is_zero_bv_const q zero;
  if negb is_zero then Ok None
  else
    n ← Arena.node (arena q) term;
    match kind n with
    | BvExtract child high low =>
        c ← Arena.node (arena q) child;
        match kind c with
        | BvMul a b =>
            xp ← zero_extend_parts q a;
            match xp with
            | None => Ok None
            | Some (x, x_width, x_extra) =>
                yp ← zero_extend_parts q b;
                Ok (match yp with
                    | None => None
                    | Some (y, y_width, y_extra) =>
                        if negb (x_width =? y_width)%nat || negb (x_extra =? x_width)%nat
                           || negb (y_extra =? y_width)%nat then None
                        else if negb (low =? x_width)%nat || negb (high + 1 =? x_width * 2)%nat then None
                        else Some (x, y, x_width)
                    end)
            end
        | _ => Ok None
        end
    | _ => Ok None
    end.

Definition is_max_div_by (q : Query) (term divisor : TermId) (width : nat) : res bool :=
  n ← Arena.node (arena q) term;
  match kind n with
  | BvUDiv a b => same_then b divisor (is_all_ones_bv_const q a width)
  | _ => Ok false
  end.

(** The two collections are over the same assertions; each has its own vectors. *)
Definition unsigned_guard_facts (q : Query) : res (Pairs * list (TermId * TermId)) :=
  collect_all (fun r out =>
    pairs ← collect_bv_equalities_and_disequalities q r out.1;
    non_strict ← collect_unsigned_less_or_equal q r out.2;
    Ok (pairs, non_strict)) (root <$> assertions q) (([], []), []).

Definition has_unsigned_multiplication_overflow_guard_contradiction (q : Query) : res bool :=
  facts ← unsigned_guard_facts q;
  any_of (fun p =>
    left ← unsigned_high_multiplication_overflow_parts q p.1 p.2;
    right ← unsigned_high_multiplication_overflow_parts q p.2 p.1;
    match (match left with Some _ => left | None => right end) with
    | None => Ok false
    | Some (x, y, width) =>
        any_of (fun le =>
          res_or (same_then le.1 y (is_max_div_by q le.2 x width))
            (same_then le.1 x (is_max_div_by q le.2 y width))) facts.2
    end) facts.1.2.

(** ** [favaro_mba.rs] *)

Definition bv_binary_other_if_contains (q : Query) (term needle : TermId)
    (parts : NodeKind -> option (TermId * TermId)) : res (list TermId) :=
  p ← parts_by parts q term;
  Ok (match p with
      | None => []
      | Some (a, b) => (if (a =? needle)%nat then [b] else []) ++ (if (b =? needle)%nat then [a] else [])
      end).

Definition bv_binary_contains_pair (q : Query) (term x y : TermId)
    (parts : NodeKind -> option (TermId * TermId)) : res bool :=
  p ← parts_by parts q term;
  Ok (match p with Some (a, b) => same_unordered_pair a b x y | None => false end).

Definition favaro_product1_z (q : Query) (term y : TermId) : res (option TermId) :=
  parts ← bv_mul_parts q term;
  match parts with
  | None => Ok None
  | Some (lhs, rhs) =>
      first_some (fun p : TermId * TermId =>
        zs ← bv_binary_other_if_contains q p.1 y bvor_kind;
        first_some (fun z =>
          found ← bv_binary_contains_pair q p.2 z y bvand_kind;
          Ok (if (found : bool) then Some z else None)) zs) [(lhs, rhs); (rhs, lhs)]
  end.

Definition favaro_and_not_pair (q : Query) (term positive negated : TermId) : res bool :=
  parts ← bv_and_parts q term;
  match parts with
  | None => Ok false
  | Some (lhs, rhs) =>
      res_or (same_then lhs positive (is_bv_not_of q rhs negated))
        (same_then rhs positive (is_bv_not_of q lhs negated))
  end.

Definition favaro_product2_matches (q : Query) (term y z : TermId) : res bool :=
  parts ← bv_mul_parts q term;
  match parts with
  | None => Ok false
  | Some (lhs, rhs) =>
      res_or (res_and (favaro_and_not_pair q lhs z y) (favaro_and_not_pair q rhs y z))
        (res_and (favaro_and_not_pair q rhs z y) (favaro_and_not_pair q lhs y z))
  end.

Definition favaro_a1_matches (q : Query) (a1 x y : TermId) : res bool :=
  s ← Arena.sort_of (arena q) y;
  match s with
  | SBool => Ok false
  | SBv width =>
      n1 ← Arena.node (arena q) a1;
      match kind n1 with
      | BvSub prefix shl =>
          n2 ← Arena.node (arena q) prefix;
          match kind n2 with
          | BvSub prefix y_term =>
              if negb (y_term =? y)%nat then Ok false
              else
                n3 ← Arena.node (arena q) prefix;
                match kind n3 with
                | BvSub x_term two =>
                    ok ← same_then x_term x (is_bv_const_u64 q two width 2);
                    if negb ok then Ok false
                    else
                      n4 ← Arena.node (arena q) shl;
                      match kind n4 with
                      | BvShl or_term one =>
                          ok ← is_bv_const_u64 q one width 1;
                          if negb ok then Ok false
                          else
                            n5 ← Arena.node (arena q) or_term;
                            match kind n5 with
                            | BvOr lhs rhs =>
                                res_or (same_then lhs x (is_bv_not_of q rhs y))
                                  (same_then rhs x (is_bv_not_of q lhs y))
                            | _ => Ok false
                            end
                      | _ => Ok false
                      end
                | _ => Ok false
                end
          | _ => Ok false
          end
      | _ => Ok false
      end
  end.

Definition favaro_z_matches (q : Query) (z y : TermId) : res bool :=
  n ← Arena.node (arena q) z;
  match kind n with
  | BvXor a b => res_or (favaro_a1_matches q a b y) (favaro_a1_matches q b a y)
  | _ => Ok false
  end.

Definition favaro_mba_matches (q : Query) (expr square : TermId) : res bool :=
  parts ← bv_mul_parts q square;
  match parts with
  | None => Ok false
  | Some (y_left, y_right) =>
      if negb (y_left =? y_right)%nat then Ok false
      else
        let y := y_left in
        parts ← bv_add_parts q expr;
        match parts with
        | None => Ok false
        | Some (lhs, rhs) =>
            any_of (fun p : TermId * TermId =>
              z ← favaro_product1_z q p.1 y;
              match z with
              | None => Ok false
              | Some z => res_and (favaro_product2_matches q p.2 y z) (favaro_z_matches q z y)
              end) [(lhs, rhs); (rhs, lhs)]
        end
  end.

Definition has_favaro_mba_mul_contradiction (q : Query) : res bool :=
  if negb (no_assumptions q) || arena_larger q 10000 then Ok false
  else
    leaves ← assertion_conjuncts q;
    any_of (fun leaf =>
      n ← Arena.node (arena q) leaf;
      match kind n with
      | BoolNot eq =>
          pair ← bv_eq_pair q eq;
          match pair with
          | None => Ok false
          | Some (a, b) => res_or (favaro_mba_matches q a b) (favaro_mba_matches q b a)
          end
      | _ => Ok false
      end) leaves.

(** ** [extensional.rs] *)

Record ForbiddenExtractEquality := mkForbiddenExtractEquality {
  fe_child : TermId;
  left_high : nat;
  left_low : nat;
  right_low : nat;
}.

Definition extract_kind (k : NodeKind) : option (TermId * nat * nat) :=
  match k with BvExtract child high low => Some (child, high, low) | _ => None end.

Definition extract_equality (q : Query) (a b : TermId) : res (option ForbiddenExtractEquality) :=
  na ← Arena.node (arena q) a;
  match extract_kind (kind na) with
  | None => Ok None
  | Some (left_child, left_high, left_low) =>
      nb ← Arena.node (arena q) b;
      Ok (match extract_kind (kind nb) with
          | None => None
          | Some (right_child, right_high, right_low) =>
              if negb (left_child =? right_child)%nat
                 || negb (left_high - left_low =? right_high - right_low)%nat
              then None
              else Some {| fe_child := left_child; left_high := left_high;
                           left_low := left_low; right_low := right_low |}
          end)
  end.

Definition forbidden_extract_equality (q : Query) (term : TermId)
    : res (option ForbiddenExtractEquality) :=
  n ← Arena.node (arena q) term;
  match kind n with
  | BoolNot child =>
      c ← Arena.node (arena q) child;
      match kind c with BvEq a b => extract_equality q a b | _ => Ok None end
  | _ => Ok None
  end.

(** [None] is the early [return Ok(())]. *)
Fixpoint forbidden_set (q : Query) (leaves : list TermId) : res (option (list ForbiddenExtractEquality)) :=
  match leaves with
  | [] => Ok (Some [])
  | leaf :: leaves =>
      f ← forbidden_extract_equality q leaf;
      match f with
      | None => Ok None
      | Some f => set ← forbidden_set q leaves; Ok (option_map (cons f) set)
      end
  end.

Fixpoint collect_forbidden_extract_sets_from (q : Query) (fuel : nat) (term : TermId)
    (out : list (list ForbiddenExtractEquality)) : res (list (list ForbiddenExtractEquality)) :=
  match fuel with
  | O => Panic
  | S fuel =>
      n ← Arena.node (arena q) term;
      match kind n with
      | BoolAnd a b =>
          out ← collect_forbidden_extract_sets_from q fuel a out;
          collect_forbidden_extract_sets_from q fuel b out
      | _ =>
          leaves ← collect_bool_or_leaves q term [];
          set ← forbidden_set q leaves;
          Ok (match set with
              | Some ((_ :: _) as set) => out ++ [set]
              | _ => out
              end)
      end
  end.

Definition collect_forbidden_extract_sets (q : Query) (term : TermId) :=
  collect_forbidden_extract_sets_from q (S term) term.

(** [collect_bv_equalities_in_conjunction] *)
Fixpoint collect_equalities_from (q : Query) (fuel : nat) (term : TermId)
    (out : list (TermId * TermId)) : res (list (TermId * TermId)) :=
  match fuel with
  | O => Panic
  | S fuel =>
      n ← Arena.node (arena q) term;
      match kind n with
      | BvEq a b => Ok (out ++ [(a, b)])
      | BoolAnd a b =>
          out ← collect_equalities_from q fuel a out;
          collect_equalities_from q fuel b out
      | _ => Ok out
      end
  end.

Definition collect_bv_equalities_in_conjunction (q : Query) (term : TermId) :=
  collect_equalities_from q (S term) term.

Fixpoint bit_atoms_from (q : Query) (fuel : nat) (term : TermId) : res (option (list BitUnionFind.atom)) :=
  match fuel with
  | O => Panic
  | S fuel =>
      n ← Arena.node (arena q) term;
      match kind n with
      | BvVar width _ _ => Ok (Some ((fun bit => (term, bit)) <$> seq 0 width))
      | BvExtract child high low => Ok (Some ((fun bit => (child, bit)) <$> seq low (S high - low)))
      | BvConcat high low =>
          low_bits ← bit_atoms_from q fuel low;
          match low_bits with
          | None => Ok None
          | Some low_bits =>
              high_bits ← bit_atoms_from q fuel high;
              Ok (option_map (app low_bits) high_bits)
          end
      | _ => Ok None
      end
  end.

Definition bit_atoms (q : Query) (term : TermId) := bit_atoms_from q (S term) term.

(** The loop over the candidate's equalities; the flag is [useful]. *)
Fixpoint union_equalities (q : Query) (equalities : list (TermId * TermId)) (union : BitUnionFind.t)
    (useful : bool) : res (BitUnionFind.t * bool) :=
  match equalities with
  | [] => Ok (union, useful)
  | (a, b) :: equalities =>
      a_bits ← bit_atoms q a;
      match a_bits with
      | None => union_equalities q equalities union useful
      | Some a_bits =>
          b_bits ← bit_atoms q b;
          match b_bits with
          | None => union_equalities q equalities union useful
          | Some b_bits =>
              if negb (length a_bits =? length b_bits)%nat || (4096 <? Z.of_nat (length a_bits))
              then union_equalities q equalities union useful
              else
                union ← BitUnionFind.union_all union (zip a_bits b_bits);
                union_equalities q equalities union true
          end
      end
  end.

Definition forbidden_pairs (f : ForbiddenExtractEquality) : list (BitUnionFind.atom * BitUnionFind.atom) :=
  (fun offset => ((fe_child f, left_low f + offset), (fe_child f, right_low f + offset))%nat)
    <$> seq 0 (left_high f - left_low f + 1).

Definition forbidden_extract_equality_implied (u : BitUnionFind.t) (f : ForbiddenExtractEquality)
    : res (bool * BitUnionFind.t) :=
  BitUnionFind.all_equivalent u (forbidden_pairs f).

(** [set.iter().all(..)] *)
Fixpoint all_implied (u : BitUnionFind.t) (set : list ForbiddenExtractEquality)
    : res (bool * BitUnionFind.t) :=
  match set with
  | [] => Ok (true, u)
  | f :: set =>
      r ← forbidden_extract_equality_implied u f;
      if r.1 : bool then all_implied r.2 set else Ok (false, r.2)
  end.

Fixpoint any_set_implied (u : BitUnionFind.t) (sets : list (list ForbiddenExtractEquality)) : res bool :=
  match sets with
  | [] => Ok false
  | set :: sets =>
      r ← all_implied u set;
      if r.1 : bool then Ok true else any_set_implied r.2 sets
  end.

Definition candidate_contradicts_forbidden_extracts (q : Query) (candidate : TermId)
    (forbidden_sets : list (list ForbiddenExtractEquality)) : res bool :=
  equalities ← collect_bv_equalities_in_conjunction q candidate [];
  if (length equalities =? 0)%nat then Ok false
  else
    r ← union_equalities q equalities BitUnionFind.default false;
    if negb r.2 then Ok false else any_set_implied r.1 forbidden_sets.

(** [for leaf in leaves { if !f(leaf)? { return Ok(false); } }], then [last]. *)
Fixpoint all_of {A} (f : A -> res bool) (l : list A) (last : bool) : res bool :=
  match l with [] => Ok last | x :: l => res_and (f x) (all_of f l true) end.

Fixpoint has_contradictory_candidate_disjunction_from (q : Query) (fuel : nat) (term : TermId)
    (forbidden_sets : list (list ForbiddenExtractEquality)) : res bool :=
  match fuel with
  | O => Panic
  | S fuel =>
      n ← Arena.node (arena q) term;
      match kind n with
      | BoolAnd a b =>
          res_or (has_contradictory_candidate_disjunction_from q fuel a forbidden_sets)
            (has_contradictory_candidate_disjunction_from q fuel b forbidden_sets)
      | BoolOr _ _ =>
          leaves ← collect_bool_or_leaves q term [];
          if (length leaves <? 2)%nat then Ok false
          else
            all_of (fun leaf => candidate_contradicts_forbidden_extracts q leaf forbidden_sets) leaves false
      | _ => Ok false
      end
  end.

Definition has_contradictory_candidate_disjunction (q : Query) (term : TermId) :=
  has_contradictory_candidate_disjunction_from q (S term) term.

Definition has_extensional_candidate_contradiction (q : Query) : res bool :=
  forbidden_sets ← collect_all (collect_forbidden_extract_sets q) (root <$> assertions q) [];
  if (length forbidden_sets =? 0)%nat then Ok false
  else
    any_of (fun r => has_contradictory_candidate_disjunction q r forbidden_sets) (root <$> assertions q).

(** ** [lfsr.rs] *)

Record LfsrTransition := mkLfsrTransition {
  reset : TermId;
  from : TermId;
  to : TermId;
  signature : list nat;
}.

(** [sort_unstable] and [dedup] *)
Definition sort_dedup (l : list nat) : list nat := dedup_sorted (merge_sort le l).

(** The leaf's transformation for every leaf, or [None] if one has none. *)
Fixpoint all_some {A B} (f : A -> res (option B)) (l : list A) : res (option (list B)) :=
  match l with
  | [] => Ok (Some [])
  | x :: l =>
      y ← f x;
      match y with
      | None => Ok None
      | Some y => ys ← all_some f l; Ok (option_map (cons y) ys)
      end
  end.

Definition bv_eq_pairs_in_disjunction (q : Query) (term : TermId) : res (option (list (TermId * TermId))) :=
  leaves ← collect_bool_or_leaves q term [];
  pairs ← all_some (bv_eq_pair q) leaves;
  Ok (match pairs with Some ((_ :: _) as pairs) => Some pairs | _ => None end).

Definition reset_of (q : Query) (leaf : TermId) : res (option TermId) :=
  n ← Arena.node (arena q) leaf;
  match kind n with
  | BoolNot child =>
      s ← Arena.sort_of (arena q) child;
      Ok (match s with SBool => Some child | _ => None end)
  | _ => Ok None
  end.

Definition all_resets_false (q : Query) (term : TermId) : res (option (list TermId)) :=
  leaves ← collect_bool_and_conjuncts q term [];
  if (length leaves =? 0)%nat then Ok None
  else
    resets ← all_some (reset_of q) leaves;
    Ok (option_map sort_dedup resets).

(** One orientation of [lfsr_final_pattern]. *)
Definition lfsr_final_sides (q : Query) (a b : TermId)
    : res (option (list (TermId * TermId) * list TermId)) :=
  pairs ← bv_eq_pairs_in_disjunction q a;
  match pairs with
  | None => Ok None
  | Some pairs => resets ← all_resets_false q b; Ok (option_map (pair pairs) resets)
  end.

Definition lfsr_final_pattern (q : Query) (term : TermId)
    : res (option (list (TermId * TermId) * list TermId)) :=
  n ← Arena.node (arena q) term;
  match kind n with
  | BoolEq a b =>
      r ← lfsr_final_sides q a b;
      match r with Some r => Ok (Some r) | None => lfsr_final_sides q b a end
  | _ => Ok None
  end.

Definition bv_eq_zero_side (q : Query) (term : TermId) : res (option TermId) :=
  pair ← bv_eq_pair q term;
  match pair with
  | None => Ok None
  | Some (a, b) =>
      za ← is_zero_bv_const q a;
      if (za : bool) then Ok (Some b)
      else zb ← is_zero_bv_const q b; Ok (if (zb : bool) then Some a else None)
  end.

(** The tap of one term of the exclusive or. *)
Definition lfsr_tap (q : Query) (child : TermId) (width : nat) (xor_term : TermId) : res (option nat) :=
  n ← Arena.node (arena q) xor_term;
  Ok (match extract_kind (kind n) with
      | Some (tap_child, high, low) =>
          if negb (tap_child =? child)%nat || negb (high =? low)%nat || (width <=? high)%nat
          then None else Some high
      | None => None
      end).

Definition invertible_lfsr_step (q : Query) (term : TermId) : res (option (TermId * list nat)) :=
  s ← Arena.sort_of (arena q) term;
  match s with
  | SBool => Ok None
  | SBv width =>
      if (width <? 2)%nat then Ok None
      else
        n ← Arena.node (arena q) term;
        match kind n with
        | BvConcat high low =>
            h ← Arena.node (arena q) high;
            match extract_kind (kind h) with
            | None => Ok None
            | Some (child, high_bit, low_bit) =>
                if negb (high_bit =? width - 2)%nat || negb (low_bit =? 0)%nat then Ok None
                else
                  xor_terms ← collect_bv_xor_terms q low [];
                  if (length xor_terms <? 2)%nat then Ok None
                  else
                    taps ← all_some (lfsr_tap q child width) xor_terms;
                    Ok (match taps with
                        | None => None
                        | Some taps =>
                            let signature := sort_dedup taps in
                            if bool_decide (width - 1 ∈ signature)%nat then Some (child, signature) else None
                        end)
            end
        | _ => Ok None
        end
  end.

(** [(to, from, signature)] *)
Definition bv_eq_lfsr_step_side (q : Query) (term : TermId) : res (option (TermId * TermId * list nat)) :=
  pair ← bv_eq_pair q term;
  match pair with
  | None => Ok None
  | Some (a, b) =>
      sa ← invertible_lfsr_step q a;
      match sa with
      | Some (from, signature) => Ok (Some (b, from, signature))
      | None =>
          sb ← invertible_lfsr_step q b;
          Ok (match sb with Some (from, signature) => Some (a, from, signature) | None => None end)
      end
  end.

Definition lfsr_transition (q : Query) (term : TermId) : res (option LfsrTransition) :=
  n ← Arena.node (arena q) term;
  match kind n with
  | BoolIte cond then_value else_value =>
      reset_to ← bv_eq_zero_side q then_value;
      match reset_to with
      | None => Ok None
      | Some reset_to =>
          step ← bv_eq_lfsr_step_side q else_value;
          Ok (match step with
              | None => None
              | Some (to, from, signature) =>
                  if negb (reset_to =? to)%nat then None
                  else Some {| reset := cond; from := from; to := to; signature := signature |}
              end)
      end
  | _ => Ok None
  end.

Definition unique_lfsr_predecessor (to_term : TermId) (unused_resets : list TermId)
    (transitions : list LfsrTransition) : option LfsrTransition :=
  match filter (fun t => to t = to_term /\ reset t ∈ unused_resets) transitions with
  | [t] => Some t
  | _ => None
  end.

(** Every round removes a reset, so their number is enough fuel. *)
Fixpoint trace_lfsr_chains (fuel : nat) (current_a current_b : TermId) (unused : list TermId)
    (transitions : list LfsrTransition) : res (option (TermId * TermId)) :=
  match unused, fuel with
  | [], _ => Ok (Some (current_a, current_b))
  | _ :: _, O => Panic
  | _ :: _, S fuel =>
      match unique_lfsr_predecessor current_a unused transitions with
      | None => Ok None
      | Some ta =>
          match filter (fun t => to t = current_b /\ reset t = reset ta /\ signature t = signature ta)
                  transitions with
          | [] => Ok None
          | tb :: _ =>
              trace_lfsr_chains fuel (from ta) (from tb) (filter (fun r => r <> reset ta) unused) transitions
          end
      end
  end.

Definition trace_synchronized_lfsr_chains (final_a final_b : TermId) (resets : list TermId)
    (transitions : list LfsrTransition) : res (option (TermId * TermId)) :=
  trace_lfsr_chains (length resets) final_a final_b resets transitions.

(** The vectors [transitions] and [disequalities]. *)
Definition lfsr_leaf (q : Query) (leaf : TermId) (out : list LfsrTransition * list (TermId * TermId))
    : res (list LfsrTransition * list (TermId * TermId)) :=
  transition ← lfsr_transition q leaf;
  n ← Arena.node (arena q) leaf;
  disequality ← match kind n with BoolNot child => bv_eq_pair q child | _ => Ok None end;
  Ok (out.1 ++ option_list transition, out.2 ++ option_list disequality).

Definition has_synchronized_lfsr_contradiction (q : Query) : res bool :=
  if negb (no_assumptions q) || arena_larger q 100000 then Ok false
  else
    leaves ← assertion_conjuncts q;
    facts ← collect_all (lfsr_leaf q) leaves ([], []);
    if (length facts.1 =? 0)%nat || (length facts.2 =? 0)%nat then Ok false
    else
      any_of (fun leaf =>
        pattern ← lfsr_final_pattern q leaf;
        match pattern with
        | None => Ok false
        | Some (final_pairs, resets) =>
            if (length final_pairs =? 0)%nat || (length resets =? 0)%nat then Ok false
            else
              all_of (fun p =>
                initial ← trace_synchronized_lfsr_chains p.1 p.2 resets facts.1;
                Ok (match initial with
                    | None => false
                    | Some (initial_a, initial_b) => is_disequal initial_a initial_b facts.2
                    end)) final_pairs true
        end) leaves.
