(* ===== verification/RecogniserFacts.v ===== *)
(** * Soundness of the assignment witnesses

    Both recognisers answer [true] only after an evaluation of the query at an
    assignment of normalised bytes succeeded. *)
From S2P Require Import Prelude Bits Smt Bytes BytesFacts Ir Sem Evaluator EvaluatorFacts.
From S2P Require Import Recognisers.
From S2P Require Import SmtFacts.
From S2P Require Import Blast BlastFacts.

#[local] Open Scope Z_scope.

(** No panic, no timeout, and [P] of the value. *)
Definition gives {A} (P : A -> Prop) (r : res A) : Prop :=
  match r with Ok a => P a | Err e => e <> Timeout | Panic => False end.

(** What a recogniser promises: the claim when it says [true]. *)
Definition reports (claim : Prop) (r : res bool) : Prop :=
  match r with Ok b => b = true -> claim | Err e => e <> Timeout | Panic => False end.

Lemma tested_reports q a : well_formed q = true -> assignment_ok a (nodes (arena q)) = true ->
  reports (satisfiable q) (tested q a).
Proof.
  intros Hwf Ha. destruct (tested_facts q a Hwf Ha) as (Hp & He & Ht).
  destruct (tested q a) as [[]|e|]; simpl; [auto|done| |done].
  by destruct (He e eq_refl) as [-> _].
Qed.

Lemma any_seed_reports q seeds : well_formed q = true -> reports (satisfiable q) (any_seed q seeds).
Proof.
  intros Hwf. induction seeds as [|seed seeds IH]; [done|]. simpl.
  pose proof (tested_reports q (Seed seed) Hwf eq_refl) as H. unfold tested in H.
  unfold query_satisfied_by_seeded_assignment.
  destruct (evaluate q (Seed seed) ≫= _) as [[]| |]; simpl in *; auto.
Qed.

Lemma has_constant_assignment_witness_reports q : well_formed q = true ->
  reports (satisfiable q) (has_constant_assignment_witness q).
Proof.
  intros Hwf. unfold has_constant_assignment_witness. destruct (_ || _); [done|].
  pose proof (tested_reports q (Constant false) Hwf eq_refl) as H0.
  pose proof (tested_reports q (Constant true) Hwf eq_refl) as H1. unfold tested in H0, H1.
  unfold query_satisfied_by_constant_assignment.
  destruct (evaluate q (Constant false) ≫= _) as [[]| |]; simpl in *; [done| |done..].
  destruct (evaluate q (Constant true) ≫= _) as [[]| |]; simpl in *; [done| |done..].
  unfold small_enough_for_seeded_witness.
  destruct (variable_bits _ _); simpl; [|done]. destruct (_ <=? _); simpl; [|done].
  by apply (any_seed_reports q witness_seeds).
Qed.

(** ** The explicit search *)

Lemma is_byte_of_u64 value len : Forall is_byte ((fun index => u8 (Z.shiftr value (Z.of_nat (index * 8)))) <$> seq 0 len).
Proof. apply Forall_fmap, Forall_forall. intros i _. apply is_byte_u8. Qed.

Lemma bytes_from_u64_canonical width value bs : bytes_from_u64 width value = Ok bs ->
  canonical width bs = true.
Proof.
  unfold bytes_from_u64, bytes_for_width. destruct (validate_bv_width _ _); try done.
  intros [= <-]. apply canonical_spec.
  match goal with |- bv_repr _ ?x _ => assert (bv_repr width x (wrap width (bval ((fun index => u8 (Z.shiftr value (Z.of_nat (index * 8)))) <$> seq 0 (div_ceil width 8))))) as H end.
  { apply mask_repr; [by rewrite length_fmap, length_seq|apply is_byte_of_u64]. }
  by rewrite (repr_val _ _ _ H).
Qed.

Section search.
Context (q : Query).
Hypothesis Hwf : well_formed q = true.

Definition names_var (v : TermId) (width : nat) : Prop :=
  exists n name external, nodes (arena q) !! v = Some n /\ kind n = BvVar width name external.

(** Every entry is normalised bytes of the variable it is for. *)
Definition entries_ok (a : gmap TermId (list Z)) : Prop :=
  forall v bs, a !! v = Some bs -> exists width, names_var v width /\ canonical width bs = true.

Lemma entries_ok_assignment a : entries_ok a -> assignment_ok (Explicit a) (nodes (arena q)) = true.
Proof.
  intros Ha. apply forallb_forall. intros b Hb%list_elem_of_In.
  apply list_elem_of_lookup in Hb as [i Hi]. rewrite list_lookup_imap in Hi.
  destruct (nodes (arena q) !! i) as [n|] eqn:En; [|done]. injection Hi as <-.
  unfold explicit_ok, id. destruct (kind n) eqn:Ek; try done.
  destruct (a !! u32 i) as [bs|] eqn:Ea; [|done]. destruct (Ha _ _ Ea) as (w & (m & ? & ? & Hm & Hk) & Hc).
  rewrite u32_small in Hm.
  - by simplify_eq; rewrite Ek in Hk; simplify_eq.
  - apply andb_true_iff in Hwf as [_ [_ [_ Hl]%andb_true_iff]%andb_true_iff].
    apply lookup_lt_Some in En. lia.
Qed.

Lemma entries_ok_insert a v width value bs : names_var v width ->
  bytes_from_u64 width value = Ok bs -> entries_ok a -> entries_ok (<[v := bs]> a).
Proof.
  intros Hv Hb Ha u bs' Hu. destruct (decide (u = v)) as [->|Hne].
  - rewrite lookup_insert_eq in Hu. injection Hu as <-. exists width.
    split; [done|]. by eapply bytes_from_u64_canonical.
  - rewrite lookup_insert_ne in Hu by done. by apply Ha.
Qed.

Definition search_post (r : res (bool * gmap TermId (list Z))) : Prop :=
  match r with
  | Ok (b, a) => (b = true -> satisfiable q) /\ entries_ok a
  | Err e => e <> Timeout
  | Panic => False
  end.

Lemma bytes_from_u64_cases width value :
  match bytes_from_u64 width value with Ok _ => True | Err e => e <> Timeout | Panic => False end.
Proof. unfold bytes_from_u64, bytes_for_width, validate_bv_width. by destruct (_ && _). Qed.

Lemma explicit_assignment_search_ok rest : forall a,
  Forall (fun x => names_var x.1.1 x.1.2) rest -> entries_ok a ->
  search_post (explicit_assignment_search q rest a).
Proof.
  induction rest as [|[[v w] values] rest IH]; intros a Hrest Ha; cbn [explicit_assignment_search].
  - pose proof (tested_reports q (Explicit a) Hwf (entries_ok_assignment a Ha)) as H. unfold tested in H.
    unfold query_satisfied_by_bv_assignment.
    destruct (evaluate q (Explicit a) ≫= _) as [b| |]; simpl in *; [by split|done..].
  - apply Forall_cons in Hrest as [Hv Hrest]. simpl in Hv. revert a Ha.
    induction values as [|value values IHv]; intros a Ha.
    + split; [done|]. intros u bs Hu. apply lookup_delete_Some in Hu as [_ Hu]. by apply Ha.
    + pose proof (bytes_from_u64_cases w value) as Hc.
      destruct (bytes_from_u64 w value) as [bs|e|] eqn:Eb; simpl; [|done..].
      pose proof (IH (<[v := bs]> a) Hrest (entries_ok_insert _ _ _ _ _ Hv Eb Ha)) as H.
      destruct (explicit_assignment_search q rest _) as [[[] a']| |]; simpl in *; [done| |done..].
      destruct H as [_ H]. by apply IHv.
Qed.

Lemma explicit_vars_ok ns : forall i vars, drop i (nodes (arena q)) = ns -> explicit_vars ns i = Some vars ->
  Forall (fun x => names_var x.1 x.2) vars.
Proof.
  apply andb_true_iff in Hwf as [_ [_ [_ Hl]%andb_true_iff]%andb_true_iff].
  induction ns as [|n ns IH]; intros i vars Hd E; [by injection E as <-|].
  assert (nodes (arena q) !! i = Some n) as Hn by (rewrite <- (Nat.add_0_r i), <- lookup_drop; by rewrite Hd).
  assert (drop (S i) (nodes (arena q)) = ns) as Hd' by (rewrite (drop_S _ _ _ Hn) in Hd; by injection Hd).
  simpl in E. destruct (kind n) eqn:Ek; try done; try by apply (IH (S i)).
  destruct (_ <=? _)%nat; [|done]. destruct (explicit_vars ns (S i)) as [vs|] eqn:Ev; [|done].
  injection E as <-. constructor; [|by apply (IH (S i))].
  simpl. rewrite u32_small by (apply lookup_lt_Some in Hn; lia). by exists n, name, external.
Qed.
End search.

Lemma has_small_explicit_assignment_witness_reports q : well_formed q = true ->
  reports (satisfiable q) (has_small_explicit_assignment_witness q).
Proof.
  intros Hwf. unfold has_small_explicit_assignment_witness. destruct (_ || _); [done|].
  destruct (explicit_vars _ _) as [vars|] eqn:Ev; [|done]. destruct (_ || _); [done|].
  destruct (_ <? _); [done|].
  pose proof (explicit_vars_ok q Hwf _ 0 vars eq_refl Ev) as Hv.
  assert (Forall (fun x => names_var q x.1.1 x.1.2)
    (zip vars ((fun v => explicit_assignment_candidates v.2) <$> vars))) as Hz
    by (clear -Hv; induction Hv; simpl; constructor; done).
  pose proof (explicit_assignment_search_ok q Hwf _ ∅ Hz) as H.
  destruct (explicit_assignment_search q _ ∅) as [[b a]| |]; simpl in *; [|auto..]; try apply H;
    by intros ? ? ?%lookup_empty_Some.
Qed.

(** The two assignment recognisers are right: on a well-formed query neither
    panics, and each answers [true] only if the query is satisfiable. *)
Lemma assignment_witnesses_sound q : well_formed q = true ->
  reports (satisfiable q) (has_constant_assignment_witness q) /\
  reports (satisfiable q) (has_small_explicit_assignment_witness q).
Proof.
  split; [by apply has_constant_assignment_witness_reports|
    by apply has_small_explicit_assignment_witness_reports].
Qed.

(** ** The successor recognisers

    The contradiction is sound.  The wrap-around witness is sound when it is
    validated; without validation it is not, as a concrete query shows. *)

#[local] Open Scope Z_scope.

(** ** Collecting conjuncts *)

(** [p] was picked off a node that holds whenever [term] does. *)
Definition picked (pick : NodeKind -> option (TermId * TermId)) (ns : list Node) (term : TermId)
    (p : TermId * TermId) : Prop :=
  exists i n, ns !! i = Some n /\ pick (kind n) = Some p /\
    forall env, sem_bool (denote env ns) term = true -> sem_bool (denote env ns) i = true.

Lemma picked_conjunct pick ns term t p :
  (forall env, sem_bool (denote env ns) term = true -> sem_bool (denote env ns) t = true) ->
  picked pick ns t p -> picked pick ns term p.
Proof. intros H (i & n & Hi & Hp & He). exists i, n. split_and!; auto. Qed.

Section query.
Context (q : Query).
Hypothesis Hwf : well_formed q = true.
Let ns := nodes (arena q).
Let Hwt : well_typed ns = true := well_formed_typed q Hwf.

Lemma node_ok_lookup id : (id < length ns)%nat -> exists n, Arena.node (arena q) id = Ok n /\ ns !! id = Some n.
Proof. intros [n Hn]%lookup_lt_is_Some_2. exists n. unfold Arena.node. fold ns. by rewrite Hn. Qed.

Lemma node_no_timeout id : match Arena.node (arena q) id with
  | Ok n => ns !! id = Some n | Err e => e <> Timeout | Panic => False end.
Proof. unfold Arena.node. fold ns. by destruct (ns !! id). Qed.

Lemma collect_less_spec pick fuel : forall term out, (term < fuel)%nat -> (term < length ns)%nat ->
  exists out', collect_less pick q fuel term out = Ok out' /\
    forall p, p ∈ out' -> p ∈ out \/ picked pick ns term p.
Proof.
  induction fuel as [|fuel IH]; intros term out Hf Ht; [lia|]. cbn [collect_less].
  destruct (node_ok_lookup term Ht) as (n & -> & Hn). cbn [mbind res_bind].
  destruct (pick (kind n)) as [p|] eqn:Ep.
  { eexists. split; [done|]. intros p' [?| ->%list_elem_of_singleton]%elem_of_app; [by left|].
    right. by exists term, n. }
  assert (exists out', Ok (E := Error) out = Ok out' /\ forall p, p ∈ out' -> p ∈ out \/ picked pick ns term p) as Hskip
    by (eexists; split; [done|auto]).
  destruct n as [k s]. simpl in *. destruct k; try exact Hskip.
  pose proof (node_children_lt _ _ _ Hwt Hn) as Hlt. simpl in Hlt. rewrite !Forall_cons in Hlt.
  destruct Hlt as (Ha & Hb & _).
  destruct (IH a out) as (out1 & -> & H1); [lia|lia|]. cbn [mbind res_bind].
  destruct (IH b out1) as (out2 & -> & H2); [lia|lia|]. exists out2. split; [done|].
  intros p Hp. destruct (H2 p Hp) as [Hp1|Hp2]; [destruct (H1 p Hp1) as [?|Hp1']; [by left|]|]; right;
    eapply picked_conjunct; try eassumption; intros env;
    rewrite (denote_and env ns Hwt _ _ _ _ Hn); intros [? ?]%andb_true_iff; done.
Qed.

(** Every collected pair holds in the satisfying environments. *)
Definition asserted (pick : NodeKind -> option (TermId * TermId)) (p : TermId * TermId) : Prop :=
  exists i n, ns !! i = Some n /\ pick (kind n) = Some p /\
    forall env, satisfies env q = true -> sem_bool (denote env ns) i = true.

Lemma collect_all_spec pick roots : roots ⊆ (root <$> assertions q) -> forall out,
  exists out', collect_all (fun term => collect_less pick q (S term) term) roots out = Ok out' /\
    forall p, p ∈ out' -> p ∈ out \/ asserted pick p.
Proof.
  induction roots as [|r roots IH]; intros Hr out; cbn [collect_all]; [eexists; split; [done|auto]|].
  assert (r ∈ assertions_and_assumptions q) as Hin.
  { apply elem_of_app. left. apply Hr. by constructor. }
  destruct (collect_less_spec pick (S r) r out) as (out1 & -> & H1); [lia|by apply bool_at_lt, well_formed_roots|].
  cbn [mbind res_bind]. destruct (IH ltac:(intros x Hx; apply Hr; by constructor) out1) as (out2 & -> & H2).
  exists out2. split; [done|]. intros p Hp. destruct (H2 p Hp) as [Hp1|?]; [|by right].
  destruct (H1 p Hp1) as [?|(i & n & Hi & Hp' & He)]; [by left|right]. exists i, n. split_and!; [done..|].
  intros env Hs. apply He. unfold satisfies in Hs. rewrite forallb_forall in Hs.
  apply Hs. by apply list_elem_of_In.
Qed.

(** ** The successor term *)

Lemma is_one_bv_const_spec t : match is_one_bv_const q t with
  | Ok b => b = true -> forall env, sem_bv (denote env ns) t = 1
  | Err e => e <> Timeout
  | Panic => False
  end.
Proof.
  unfold is_one_bv_const. pose proof (node_no_timeout t) as Hn.
  destruct (Arena.node (arena q) t) as [[k s]|e|]; simpl; [|done..].
  destruct k; try done. intros Hb env. rewrite (denote_const env ns _ _ _ _ Hn).
  destruct bytes as [|byte rest]; [done|]. apply andb_true_iff in Hb as [->%Z.eqb_eq Hr].
  simpl. assert (bval rest = 0) as ->; [|done].
  clear -Hr. induction rest as [|x rest IH]; [done|]. simpl in *.
  apply andb_true_iff in Hr as [->%Z.eqb_eq Hr]. rewrite (IH Hr). lia.
Qed.

Definition successor_of (t base : TermId) : Prop :=
  exists w, width_at ns base = Some w /\
    forall env, sem_bv (denote env ns) t = bvadd w (sem_bv (denote env ns) base) 1.

Lemma add_widths t a b s : ns !! t = Some (mkNode (BvAdd a b) s) ->
  exists w, width_at ns a = Some w /\ width_at ns b = Some w /\ forall env, sem_w (denote env ns) a = w.
Proof.
  intros Hn. pose proof (well_typed_lookup _ _ _ Hwt Hn) as [Hs%bool_decide_eq_true _]%andb_true_iff.
  simpl in Hs. destruct (binary_width (take t ns) a b) as [w|] eqn:Ew; [|done].
  apply binary_width_Some in Ew as [Ha Hb]. exists w.
  assert (take t ns `prefix_of` ns) as Hp by (exists (drop t ns); symmetry; apply take_drop).
  assert (forall i, width_at (take t ns) i = Some w -> width_at ns i = Some w) as Hgrow.
  { unfold width_at. intros i. destruct (take t ns !! i) eqn:E; [|done].
    by rewrite (prefix_lookup_Some _ _ _ _ E Hp). }
  split_and!; auto. intros env. by apply (vals_ok_bv _ _ _ _ (denote_ok env ns Hwt) (Hgrow a Ha)).
Qed.

Lemma is_unsigned_successor_term_spec t base : match is_unsigned_successor_term q t base with
  | Ok b => b = true -> successor_of t base
  | Err e => e <> Timeout
  | Panic => False
  end.
Proof.
  unfold is_unsigned_successor_term. pose proof (node_no_timeout t) as Hn.
  destruct (Arena.node (arena q) t) as [[k s]|e|]; simpl; [|done..]. destruct k; try done.
  destruct (add_widths _ _ _ _ Hn) as (w & Ha & Hb & Hw).
  pose proof (fun env => denote_add env ns Hwt _ _ _ _ Hn) as Hadd.
  pose proof (is_one_bv_const_spec a) as Ca. pose proof (is_one_bv_const_spec b) as Cb.
  assert (match (if (b =? base)%nat then is_one_bv_const q a else Ok false) with
    | Ok b => b = true -> successor_of t base | Err e => e <> Timeout | Panic => False end) as Hright.
  { destruct (Nat.eqb_spec b base) as [->|]; [|done]. destruct (is_one_bv_const q a) as [o|e|]; [|done..].
    intros Ho. exists w. split; [done|]. intros env. rewrite Hadd, Hw, Ca by done. unfold bvadd. f_equal. lia. }
  destruct (Nat.eqb_spec a base) as [->|]; [|exact Hright].
  destruct (is_one_bv_const q b) as [[]|e|]; simpl; [|exact Hright|done..].
  intros _. exists w. split; [done|]. intros env. by rewrite Hadd, Hw, Cb.
Qed.
End query.

(** ** The contradiction *)

Section contradiction.
Context (q : Query).
Hypothesis Hwf : well_formed q = true.
Let ns := nodes (arena q).
Let Hwt : well_typed ns = true := well_formed_typed q Hwf.

(** [x < y] in every satisfying environment, at one width. *)
Lemma asserted_ult x y : asserted q ult_pair (x, y) -> exists w, width_at ns y = Some w /\
  forall env, satisfies env q = true ->
    sem_bv (denote env ns) x < sem_bv (denote env ns) y < pow2 w /\ 0 <= sem_bv (denote env ns) x.
Proof.
  intros (i & [k s] & Hi & Hp & He). destruct k; try done. simpl in Hp. injection Hp as -> ->.
  fold ns in Hi, He. pose proof (well_typed_lookup _ _ _ Hwt Hi) as [Hs%bool_decide_eq_true _]%andb_true_iff.
  simpl in Hs. destruct (binary_width (take i ns) x y) as [w|] eqn:Ew; [|done].
  apply binary_width_Some in Ew as [Hx Hy].
  assert (take i ns `prefix_of` ns) as Hp by (exists (drop i ns); symmetry; apply take_drop).
  assert (forall j, width_at (take i ns) j = Some w -> width_at ns j = Some w) as Hgrow.
  { unfold width_at. intros j. destruct (take i ns !! j) eqn:E; [|done].
    by rewrite (prefix_lookup_Some _ _ _ _ E Hp). }
  exists w. split; [auto|]. intros env Hs'. specialize (He env Hs').
  rewrite (denote_ult env ns Hwt _ _ _ _ Hi) in He.
  pose proof (vals_ok_bv _ _ _ _ (denote_ok env ns Hwt) (Hgrow x Hx)) as (_ & ? & _).
  pose proof (vals_ok_bv _ _ _ _ (denote_ok env ns Hwt) (Hgrow y Hy)) as (_ & ? & _). lia.
Qed.

Lemma successor_contradiction x y r : asserted q ult_pair (x, y) -> asserted q ult_pair (y, r) ->
  successor_of q r x -> ~ satisfiable q.
Proof.
  intros H1 H2 (w & Hw & Hr) (env & Hs).
  destruct (asserted_ult _ _ H1) as (wy & Hwy & Hlt1). destruct (asserted_ult _ _ H2) as (wr & Hwr & Hlt2).
  specialize (Hlt1 env Hs). specialize (Hlt2 env Hs). fold ns in Hr, Hw. rewrite Hr in Hlt2.
  unfold bvadd in Hlt2. pose proof (Z.mod_le (sem_bv (denote env ns) x + 1) (pow2 w)).
  pose proof (pow2_pos w). unfold wrap in Hlt2. lia.
Qed.

Lemma any_successor_reports x y pairs : asserted q ult_pair (x, y) ->
  (forall p, p ∈ pairs -> asserted q ult_pair p) ->
  reports (~ satisfiable q) (any_successor q x y pairs).
Proof.
  intros Hxy. induction pairs as [|[l r] pairs IH]; intros Hall; [done|]. simpl.
  assert (reports (~ satisfiable q) (any_successor q x y pairs)) as Hrest
    by (apply IH; intros p Hp; apply Hall; by constructor).
  destruct (Nat.eqb_spec l y) as [->|]; [|exact Hrest].
  pose proof (is_unsigned_successor_term_spec q Hwf r x) as Hs.
  destruct (is_unsigned_successor_term q r x) as [[]|e|]; simpl; [|exact Hrest..|done].
  intros _. apply (successor_contradiction x y r); [done| |by apply Hs].
  apply Hall. by constructor.
Qed.

Lemma any_contradiction_reports strict rest : (forall p, p ∈ strict -> asserted q ult_pair p) ->
  (forall p, p ∈ rest -> asserted q ult_pair p) ->
  reports (~ satisfiable q) (any_contradiction q strict rest).
Proof.
  intros Hs. induction rest as [|[x y] rest IH]; intros Hr; [done|]. simpl.
  pose proof (any_successor_reports x y strict (Hr _ ltac:(by constructor)) Hs) as Ha.
  destruct (any_successor q x y strict) as [[]|e|]; simpl in *; [done| |done..].
  apply IH. intros p Hp. apply Hr. by constructor.
Qed.

Lemma unsigned_successor_contradiction_reports :
  reports (~ satisfiable q) (has_unsigned_successor_contradiction q).
Proof.
  unfold has_unsigned_successor_contradiction.
  destruct (collect_all_spec q Hwf ult_pair (root <$> assertions q) ltac:(done) []) as (strict & E & Hs).
  unfold collect_unsigned_strict_less. rewrite E. cbn [mbind res_bind].
  assert (forall p, p ∈ strict -> asserted q ult_pair p) as Ha.
  { intros p Hp. by destruct (Hs p Hp) as [?%elem_of_nil|?]. }
  by apply any_contradiction_reports.
Qed.

(** ** The wrap-around witness *)

Lemma sort_no_timeout id : match Arena.sort_of (arena q) id with
  | Ok s => exists n, ns !! id = Some n /\ sort n = s | Err e => e <> Timeout | Panic => False end.
Proof.
  unfold Arena.sort_of. pose proof (node_no_timeout q id) as H.
  destruct (Arena.node (arena q) id) as [n|e|]; simpl; [by exists n|done..].
Qed.

Lemma var_of_sort id n w : ns !! id = Some n -> sort n = SBv w -> is_bv_var (kind n) = true ->
  names_var q id w.
Proof.
  intros Hn Hs Hk. pose proof (well_typed_lookup _ _ _ Hwt Hn) as [Ht%bool_decide_eq_true _]%andb_true_iff.
  destruct n as [k s]. simpl in *. subst s. destruct k; try done. simpl in Ht. injection Ht as ->.
  by exists (mkNode (BvVar w name external) (SBv w)), name, external.
Qed.

Lemma canonical_zero w : canonical w (replicate (div_ceil w 8) 0) = true.
Proof.
  apply canonical_spec. rewrite bval_replicate_0.
  split; [by rewrite length_replicate|by apply bytes_replicate, is_byte_0|apply bval_replicate_0|apply pow2_pos].
Qed.

Lemma canonical_masked w bs : length bs = div_ceil w 8 -> Forall is_byte bs ->
  canonical w (mask_unused_high_bits bs w) = true.
Proof.
  intros Hl Hb. apply canonical_spec. pose proof (mask_repr w bs Hl Hb) as H.
  by rewrite (repr_val _ _ _ H).
Qed.

Lemma validated_reports l r : reports (satisfiable q) (validate_unsigned_successor_wraparound_witness q l r).
Proof.
  unfold validate_unsigned_successor_wraparound_witness.
  pose proof (sort_no_timeout l) as Hl. destruct (Arena.sort_of (arena q) l) as [ls|e|]; simpl; [|done..].
  pose proof (sort_no_timeout r) as Hr. destruct (Arena.sort_of (arena q) r) as [rs|e|]; simpl; [|done..].
  destruct Hl as (nl & Hnl & Hsl), Hr as (nr & Hnr & Hsr). destruct ls as [|w], rs as [|w']; try done.
  destruct (Nat.eqb_spec w w') as [<-|]; simpl; [|done].
  unfold Arena.node. fold ns. rewrite Hnl, Hnr. simpl.
  destruct (is_bv_var (kind nl)) eqn:Kl; simpl; [|done]. destruct (is_bv_var (kind nr)) eqn:Kr; simpl; [|done].
  assert (legal w) as Hw.
  { apply (width_legal ns l w Hwt). unfold width_at. rewrite Hnl. simpl. by rewrite Hsl. }
  rewrite bytes_for_width_ok by done. simpl.
  set (a := <[r := mask_unused_high_bits (replicate (div_ceil w 8) 255) w]>
    (<[l := replicate (div_ceil w 8) 0]> ∅) : gmap TermId (list Z)).
  assert (entries_ok q a) as Ha.
  { intros v bs Hv. unfold a in Hv. exists w.
    destruct (decide (v = r)) as [->|Hne]; [rewrite lookup_insert_eq in Hv; injection Hv as <-|].
    - split; [by eapply var_of_sort|]. apply canonical_masked; [by rewrite length_replicate|].
      apply bytes_replicate. unfold is_byte. lia.
    - rewrite lookup_insert_ne in Hv by done.
      destruct (decide (v = l)) as [->|Hne']; [rewrite lookup_insert_eq in Hv; injection Hv as <-|].
      + split; [by eapply var_of_sort|apply canonical_zero].
      + by rewrite lookup_insert_ne, lookup_empty in Hv by done. }
  exact (tested_reports q (Explicit a) Hwf (entries_ok_assignment q Hwf a Ha)).
Qed.

(** What a true answer means in either mode. *)
Definition wraparound_claim (validate : bool) : Prop := if validate then satisfiable q else True.

Lemma wraparound_partner_reports validate l r pairs :
  match wraparound_partner q validate l r pairs with
  | Ok (Some b) => b = true -> wraparound_claim validate
  | Ok None => True
  | Err e => e <> Timeout
  | Panic => False
  end.
Proof.
  induction pairs as [|[ol or] pairs IH]; [done|]. simpl. destruct (_ && _ && _); [|exact IH].
  pose proof (is_unsigned_successor_term_spec q Hwf ol r) as Hs.
  destruct (is_unsigned_successor_term q ol r) as [[]|e|]; simpl; [|exact IH|done..].
  destruct validate; simpl; [|done]. pose proof (validated_reports l r) as Hv.
  by destruct (validate_unsigned_successor_wraparound_witness q l r).
Qed.

Lemma wraparound_pairs_reports validate all rest :
  reports (wraparound_claim validate) (wraparound_pairs q validate all rest).
Proof.
  induction rest as [|[l r] rest IH]; [done|]. simpl.
  pose proof (wraparound_partner_reports validate l r all) as H.
  destruct (wraparound_partner q validate l r all) as [[b|]|e|]; simpl; done.
Qed.

Lemma wraparound_reports validate :
  reports (wraparound_claim validate) (has_unsigned_successor_wraparound_witness q validate).
Proof.
  unfold has_unsigned_successor_wraparound_witness. destruct (_ || _); [done|].
  destruct (collect_all_spec q Hwf ule_pair (root <$> assertions q) ltac:(done) []) as (pairs & E & _).
  unfold collect_unsigned_less_or_equal. rewrite E. cbn [mbind res_bind].
  destruct (negb _); [done|]. apply wraparound_pairs_reports.
Qed.
End contradiction.

(** ** The theorems *)

(** [x < y] and [y < x + 1] over four bits. *)
Definition successor_query : Query :=
  {| arena := {| nodes := [mkNode (BvVar 4 "x" None) (SBv 4); mkNode (BvVar 4 "y" None) (SBv 4);
                           mkNode (BvConst 4 [1]) (SBv 4); mkNode (BvAdd 0 2) (SBv 4);
                           mkNode (BvUlt 0 1) SBool; mkNode (BvUlt 1 3) SBool;
                           mkNode (BoolAnd 4 5) SBool];
                 ids := ∅ |};
     assertions := [{| root := 6; name := None |}]; assumptions := []; command := Solve; target := None;
     signed := false; want_model := false; want_core := false; get_values := [] |}.

(** [x <= (z & 1)] and [(z & 1) + 1 <= x] over two bits: [z & 1] is never the
    largest value, so its successor does not wrap. *)
Definition masked_query : Query :=
  {| arena := {| nodes := [mkNode (BvVar 2 "x" None) (SBv 2); mkNode (BvVar 2 "z" None) (SBv 2);
                           mkNode (BvConst 2 [1]) (SBv 2); mkNode (BvAnd 1 2) (SBv 2);
                           mkNode (BvUle 0 3) SBool; mkNode (BvAdd 3 2) (SBv 2); mkNode (BvUle 5 0) SBool];
                 ids := ∅ |};
     assertions := [{| root := 4; name := None |}; {| root := 6; name := None |}]; assumptions := [];
     command := Solve; target := None; signed := false; want_model := false; want_core := false;
     get_values := [] |}.

Lemma masked_unsat : ~ satisfiable masked_query.
Proof.
  intros (env & Hs).
  unfold satisfies, denote in Hs. simpl in Hs. unfold denote_step in Hs. simpl in Hs.
  assert (forall z, Z.land z (1 + 256 * 0) = z mod 2) as Hland by (intros z; apply (Z.land_ones z 1); lia).
  unfold sem_bool, sem_bv, sem_w in Hs. simpl in Hs.
  rewrite !Hland in Hs. pose proof (Z.mod_pos_bound (wrap 2 (env_bv env 1)) 2 ltac:(lia)).
  apply andb_true_iff in Hs as [H1%Z.leb_le [H2%Z.leb_le _]%andb_true_iff].
  unfold bvadd, wrap at 1 in H2. rewrite Z.mod_small in H2 by (change (pow2 2) with 4; lia). lia.
Qed.

(** Both successor recognisers are right when witnesses are validated: on a
    well-formed query the contradiction recogniser answers [true] only if the
    query is unsatisfiable, and the validated wrap-around recogniser only if it is
    satisfiable; neither panics.  Without validation, which is the default, the
    wrap-around recogniser is wrong: it does not check that the bound can be the
    largest value, and it answers [true] for a well-formed query that no environment
    satisfies; with validation it rejects that query. *)
Lemma successor_recognisers_sound q : well_formed q = true ->
  (reports (~ satisfiable q) (has_unsigned_successor_contradiction q) /\
   reports (satisfiable q) (has_unsigned_successor_wraparound_witness q true)) /\
  well_formed masked_query = true /\
  has_unsigned_successor_wraparound_witness masked_query false = Ok true /\
  has_unsigned_successor_wraparound_witness masked_query true = Ok false /\
  ~ satisfiable masked_query.
Proof.
  intros Hwf. split; [split; [by apply unsigned_successor_contradiction_reports|apply (wraparound_reports q Hwf true)]|].
  split_and!; [vm_compute; reflexivity..|apply masked_unsat].
Qed.

(** ** The theorem *)

(** C38: the recognisers are right.  On a well-formed query neither successor recogniser
    panics; the contradiction recogniser answers [true] only if the query is
    unsatisfiable, and the wrap-around recogniser, when it validates its witness, only if
    it is satisfiable; the two assignment recognisers do not panic either, and answer
    [true] only if the query is satisfiable.  Without validation, which is the
    default, the wrap-around recogniser is wrong: it does not check that the bound can be
    the largest value, and it answers [true] for a well-formed query that no environment
    satisfies; with validation it rejects that query. *)
Theorem recognisers_sound q : well_formed q = true ->
  (reports (~ satisfiable q) (has_unsigned_successor_contradiction q) /\
   reports (satisfiable q) (has_unsigned_successor_wraparound_witness q true) /\
   reports (satisfiable q) (has_constant_assignment_witness q) /\
   reports (satisfiable q) (has_small_explicit_assignment_witness q)) /\
  well_formed masked_query = true /\
  has_unsigned_successor_wraparound_witness masked_query false = Ok true /\
  has_unsigned_successor_wraparound_witness masked_query true = Ok false /\
  ~ satisfiable masked_query.
Proof.
  intros Hwf. destruct (successor_recognisers_sound q Hwf) as [[H1 H2] H3].
  destruct (assignment_witnesses_sound q Hwf) as [H4 H5]. by split_and!; [..|apply H3|apply H3|apply H3|apply H3].
Qed.

Lemma recognisers_sound_witness : ~ satisfiable successor_query /\
  has_small_explicit_assignment_witness sample_query = Ok true /\ satisfiable sample_query.
Proof.
  destruct (recognisers_sound successor_query eq_refl) as [[H _] _].
  assert (has_unsigned_successor_contradiction successor_query = Ok true) as E by (vm_compute; reflexivity).
  rewrite E in H. split; [exact (H eq_refl)|].
  destruct (recognisers_sound sample_query eq_refl) as [(_ & _ & _ & H') _].
  assert (has_small_explicit_assignment_witness sample_query = Ok true) as E' by (vm_compute; reflexivity).
  rewrite E' in H'. split; [exact E'|exact (H' eq_refl)].
Defined.
