(* ===== verification/PatternFacts.v ===== *)
(** * Soundness of the contradiction recognisers

    Every recogniser of [PatternRecognisers] ends without a panic, and where the
    pattern it looks for is a contradiction, a [true] answer means that the query is
    unsatisfiable. *)
From stdpp Require Import sorting.
From S2P Require Import Prelude Bits Smt SmtFacts Bytes BytesFacts Ir Sem Evaluator EvaluatorFacts.
From S2P Require Import Blast BlastFacts Recognisers RecogniserFacts UnionFind PatternRecognisers.

#[local] Open Scope Z_scope.

(** ** Rules for [gives] and [reports] *)

Lemma gives_mono {A} (P Q : A -> Prop) r : gives P r -> (forall a, P a -> Q a) -> gives Q r.
Proof. destruct r; simpl; auto. Qed.

Lemma gives_bind {A B} (P : A -> Prop) (Q : B -> Prop) r f :
  gives P r -> (forall a, P a -> gives Q (f a)) -> gives Q (r ≫= f).
Proof. destruct r; simpl; auto. Qed.

Lemma reports_bind {A} (P : A -> Prop) C r (f : A -> res bool) :
  gives P r -> (forall a, P a -> reports C (f a)) -> reports C (r ≫= f).
Proof. destruct r; simpl; auto. Qed.

Lemma gives_ok {A} (P : A -> Prop) a : P a -> gives P (Ok a).
Proof. done. Qed.

Lemma reports_mono (C D : Prop) r : reports C r -> (C -> D) -> reports D r.
Proof. destruct r; simpl; auto. Qed.

Lemma reports_false C : reports C (Ok false).
Proof. done. Qed.

Lemma reports_or C a b : reports C a -> reports C b -> reports C (res_or a b).
Proof. destruct a as [[]| |]; simpl; auto. Qed.

Lemma reports_and C D a b : reports C a -> reports D b -> reports (C /\ D) (res_and a b).
Proof. destruct a as [[]| |], b; simpl; naive_solver. Qed.

Lemma reports_same C a b r : (a = b -> reports C r) -> reports C (same_then a b r).
Proof. unfold same_then. destruct (Nat.eqb_spec a b); [auto|done]. Qed.

Lemma reports_or_false C r : reports C r -> reports C (or_false r).
Proof. by destruct r. Qed.

Lemma any_of_reports {A} C (f : A -> res bool) l : (forall x, x ∈ l -> reports C (f x)) -> reports C (any_of f l).
Proof.
  induction l as [|x l IH]; intros H; [done|]. simpl. apply reports_or.
  - apply H. by constructor.
  - apply IH. intros y Hy. apply H. by constructor.
Qed.

Lemma all_of_reports {A} (C : A -> Prop) (f : A -> res bool) l : forall last,
  (forall x, x ∈ l -> reports (C x) (f x)) -> reports (forall x, x ∈ l -> C x) (all_of f l last).
Proof.
  induction l as [|x l IH]; intros last H; simpl.
  { intros _ y Hy. by apply elem_of_nil in Hy. }
  eapply reports_mono; [apply reports_and; [apply H; by constructor|apply IH; intros y Hy; apply H; by constructor]|].
  intros [Hx Hl] y [->|Hy]%elem_of_cons; auto.
Qed.

Lemma first_some_gives {A B} (P : B -> Prop) (f : A -> res (option B)) l :
  (forall x, x ∈ l -> gives (fun o => forall y, o = Some y -> P y) (f x)) ->
  gives (fun o => forall y, o = Some y -> P y) (first_some f l).
Proof.
  induction l as [|x l IH]; intros H; [done|]. simpl.
  eapply gives_bind; [apply H; by constructor|]. intros [y|] Hy; [apply gives_ok; auto|].
  apply IH. intros z Hz. apply H. by constructor.
Qed.

Lemma all_some_gives {A B} (P : A -> B -> Prop) (f : A -> res (option B)) l :
  (forall x, x ∈ l -> gives (fun o => forall y, o = Some y -> P x y) (f x)) ->
  gives (fun o => forall ys, o = Some ys -> Forall2 P l ys) (all_some f l).
Proof.
  induction l as [|x l IH]; intros H; simpl.
  { intros ys [= <-]. constructor. }
  eapply gives_bind; [apply H; by constructor|]. intros [y|] Hy; [|done].
  eapply gives_bind; [apply IH; intros z Hz; apply H; by constructor|].
  intros [ys|] Hys; [|done]. simpl. intros ? [= <-]. constructor; auto.
Qed.

Lemma collect_all_gives {S} (I : S -> Prop) (collect : TermId -> S -> res S) roots :
  (forall r out, r ∈ roots -> I out -> gives I (collect r out)) ->
  forall out, I out -> gives I (collect_all collect roots out).
Proof.
  induction roots as [|r roots IH]; intros H out Ho; [done|]. simpl.
  eapply gives_bind; [apply H; [by constructor|done]|]. intros out' Ho'.
  apply IH; [|done]. intros r' x Hr. apply H. by constructor.
Qed.

Lemma omap_shorter {A B} (f : A -> option B) (l : list A) : (length (omap f l) <= length l)%nat.
Proof. induction l as [|x l IH]; [done|]. csimpl. destruct (f x); csimpl; lia. Qed.

(** ** Leaves under a connective *)

Inductive leaves_of (ns : list Node) (pick : NodeKind -> option (TermId * TermId)) : TermId -> list TermId -> Prop :=
  | leaf_here t n : ns !! t = Some n -> pick (kind n) = None -> leaves_of ns pick t [t]
  | leaf_node t n a b la lb : ns !! t = Some n -> pick (kind n) = Some (a, b) ->
      leaves_of ns pick a la -> leaves_of ns pick b lb -> leaves_of ns pick t (la ++ lb).

(** [g] is met from [t] through conjunctions and disjunctions. *)
Inductive within (ns : list Node) : TermId -> TermId -> Prop :=
  | within_here t : within ns t t
  | within_step t n a b c g : ns !! t = Some n -> or_kind (kind n) = Some (a, b) \/ and_kind (kind n) = Some (a, b) ->
      c = a \/ c = b -> within ns c g -> within ns t g.

(** A shift by one bit that takes in the exclusive or of bits of the same term. *)
Definition step_shape (ns : list Node) (t child : TermId) (taps : list nat) : Prop :=
  exists high low high_bit s sh xs, ns !! t = Some (mkNode (BvConcat high low) s) /\
    ns !! high = Some (mkNode (BvExtract child high_bit 0) sh) /\ leaves_of ns bvxor_kind low xs /\
    Forall2 (fun x tap => exists s, ns !! x = Some (mkNode (BvExtract child tap tap) s)) xs taps.

(** The arenas on which two recognisers can be trusted.  The search for the guard
    of a signed division looks below disjunctions, where a guard is not asserted.
    The search for shift registers takes any exclusive or of distinct taps for an
    invertible step; it is when the step keeps the width and no tap occurs twice. *)
Record regular (ns : list Node) : Prop := {
  rg_guards : forall t a b s c g x s' a' b' s'', ns !! t = Some (mkNode (BoolOr a b) s) -> c = a \/ c = b ->
    within ns c g -> ns !! g = Some (mkNode (BoolNot x) s') -> ns !! x <> Some (mkNode (BoolAnd a' b') s'');
  rg_steps : forall t child taps, step_shape ns t child taps ->
    width_at ns child = width_at ns t /\ NoDup taps;
}.

(** [pick] reads off operands. *)
Definition picks_operands (pick : NodeKind -> option (TermId * TermId)) : Prop :=
  forall k a b, pick k = Some (a, b) -> a ∈ push_children k /\ b ∈ push_children k.

Ltac solve_picks := intros k a b; destruct k; simpl; try done; intros [= -> ->]; set_solver.

Lemma picks_or : picks_operands or_kind. Proof. solve_picks. Qed.
Lemma picks_and : picks_operands and_kind. Proof. solve_picks. Qed.
Lemma picks_xor : picks_operands bvxor_kind. Proof. solve_picks. Qed.

Section query.
Context (q : Query).
Hypothesis Hwf : well_formed q = true.
Let ns := nodes (arena q).
Let Hwt : well_typed ns = true := well_formed_typed q Hwf.

Lemma node_gives (P : Node -> Prop) t : (forall n, ns !! t = Some n -> P n) -> gives P (Arena.node (arena q) t).
Proof.
  intros H. pose proof (node_no_timeout q t) as Hn.
  destruct (Arena.node (arena q) t); simpl; [by apply H|done..].
Qed.

Lemma node_bind {A} (P : A -> Prop) t f : (forall n, ns !! t = Some n -> gives P (f n)) ->
  gives P (Arena.node (arena q) t ≫= f).
Proof. intros H. eapply gives_bind; [by apply (node_gives (fun n => ns !! t = Some n))|done]. Qed.

Lemma reports_node C t f : (forall n, ns !! t = Some n -> reports C (f n)) ->
  reports C (Arena.node (arena q) t ≫= f).
Proof. apply node_bind. Qed.

Lemma sort_gives (P : Sort -> Prop) t : (forall n, ns !! t = Some n -> P (sort n)) ->
  gives P (Arena.sort_of (arena q) t).
Proof.
  intros H. pose proof (sort_no_timeout q t) as Hs.
  destruct (Arena.sort_of (arena q) t); simpl; [|done..]. destruct Hs as (n & Hn & <-). by apply H.
Qed.

Lemma operand_lt t n x : ns !! t = Some n -> x ∈ push_children (kind n) -> (x < t)%nat.
Proof.
  intros Hn Hx. pose proof (node_children_lt _ _ _ Hwt Hn) as Hlt. rewrite Forall_forall in Hlt.
  by apply Hlt.
Qed.

Lemma query_node_typed t k s : ns !! t = Some (mkNode k s) -> sort_of_kind ns k = Some s.
Proof.
  intros Hn. pose proof (well_typed_lookup _ _ _ Hwt Hn) as [Hs%bool_decide_eq_true _]%andb_true_iff.
  eapply sort_of_kind_grow; [|exact Hs]. exists (drop t ns). symmetry. apply take_drop.
Qed.

Lemma collect_leaves_gives pick fuel : picks_operands pick -> forall t out, (t < fuel)%nat ->
  gives (fun out' => exists ls, out' = out ++ ls /\ leaves_of ns pick t ls) (collect_leaves pick q fuel t out).
Proof.
  intros Hp. induction fuel as [|fuel IH]; intros t out Hf; [lia|]. cbn [collect_leaves].
  apply node_bind. intros n Hn.
  destruct (pick (kind n)) as [[a b]|] eqn:Ep.
  - destruct (Hp _ _ _ Ep) as [Ha Hb].
    pose proof (operand_lt _ _ _ Hn Ha). pose proof (operand_lt _ _ _ Hn Hb).
    eapply gives_bind; [apply IH; lia|]. intros out1 (la & -> & Hla).
    eapply gives_mono; [apply IH; lia|]. intros out2 (lb & -> & Hlb). exists (la ++ lb).
    split; [by rewrite <- app_assoc|]. by eapply leaf_node.
  - apply gives_ok. exists [t]. split; [done|]. by eapply leaf_here.
Qed.

Lemma collect_bool_or_leaves_gives t : gives (leaves_of ns or_kind t) (collect_bool_or_leaves q t []).
Proof.
  eapply gives_mono; [apply collect_leaves_gives; [apply picks_or|lia]|]. by intros out (ls & -> & Hls).
Qed.

Lemma parts_by_gives pick t : gives (fun o => forall a b, o = Some (a, b) ->
  exists n, ns !! t = Some n /\ pick (kind n) = Some (a, b)) (parts_by pick q t).
Proof. unfold parts_by. apply node_bind. intros n Hn a b E. eauto. Qed.

(** ** Under an environment

    What a recogniser learns holds in the environments that satisfy the query. *)
Section environment.
Context (env : Env).
Let vals := denote env ns.
Let T t := sem_bool vals t.
Let V t := sem_bv vals t.
Let sat : Prop := satisfies env q = true.

Lemma value_of t k s : ns !! t = Some (mkNode k s) -> vals !! t = Some (sem_kind env t vals k).
Proof. intros Hn. exact (denote_kind env ns Hwt t _ Hn). Qed.

Lemma root_holds r : r ∈ root <$> assertions q -> sat -> T r = true.
Proof.
  intros Hr Hs. unfold sat, satisfies in Hs. rewrite forallb_forall in Hs. apply Hs.
  apply list_elem_of_In, elem_of_app. by left.
Qed.

Lemma or_leaves t ls : leaves_of ns or_kind t ls -> T t = existsb T ls.
Proof.
  induction 1 as [t n Hn Hk|t [k s] a b la lb Hn Hk _ IHa _ IHb]; [simpl; by rewrite orb_false_r|].
  destruct k; try done. injection Hk as -> ->. rewrite existsb_app, <- IHa, <- IHb.
  unfold T at 1, sem_bool. by rewrite (value_of _ _ _ Hn).
Qed.

Lemma and_leaves t ls : leaves_of ns and_kind t ls -> T t = forallb T ls.
Proof.
  induction 1 as [t n Hn Hk|t [k s] a b la lb Hn Hk _ IHa _ IHb]; [simpl; by rewrite andb_true_r|].
  destruct k; try done. injection Hk as -> ->. rewrite forallb_app, <- IHa, <- IHb.
  unfold T at 1, sem_bool. by rewrite (value_of _ _ _ Hn).
Qed.

Lemma assertion_conjuncts_gives :
  gives (fun ls => forall l, l ∈ ls -> sat -> T l = true) (assertion_conjuncts q).
Proof.
  apply collect_all_gives.
  - intros r out Hr Ho. eapply gives_mono; [apply collect_leaves_gives; [apply picks_and|lia]|].
    intros out' (ls & -> & Hls) l [?|Hl]%elem_of_app Hs; [auto|].
    pose proof (root_holds r Hr Hs) as Ht. rewrite (and_leaves _ _ Hls), forallb_forall in Ht.
    by apply Ht, list_elem_of_In.
  - intros l Hl. by apply elem_of_nil in Hl.
Qed.

(** ** Equalities and disequalities *)

(** [pick] picks the nodes that hold exactly when their operands are related by [E]. *)
Definition picks_relation (pick : NodeKind -> option (TermId * TermId)) (E : TermId -> TermId -> Prop) : Prop :=
  forall t n a b, ns !! t = Some n -> pick (kind n) = Some (a, b) -> T t = true <-> E a b.

Definition pairs_ok (E : TermId -> TermId -> Prop) (out : Pairs) : Prop :=
  (forall a b, (a, b) ∈ out.1 -> sat -> E a b) /\ (forall a b, (a, b) ∈ out.2 -> sat -> ~ E a b).

Lemma pairs_ok_nil E : pairs_ok E ([], []).
Proof. split; intros a b Hin; by apply elem_of_nil in Hin. Qed.

Lemma collect_pairs_gives pick E fuel : picks_relation pick E ->
  forall t out, (t < fuel)%nat -> (sat -> T t = true) -> pairs_ok E out ->
  gives (pairs_ok E) (collect_pairs pick q fuel t out).
Proof.
  intros Hp. induction fuel as [|fuel IH]; intros t out Hf Ht [He Hd]; [lia|]. cbn [collect_pairs].
  apply node_bind. intros n Hn.
  destruct (pick (kind n)) as [[a b]|] eqn:Ep.
  { apply gives_ok. split; [|done]. intros x y [?|Hx%list_elem_of_singleton]%elem_of_app Hs; [by apply He|].
    injection Hx as -> ->. apply (Hp _ _ _ _ Hn Ep). auto. }
  destruct n as [k s]. simpl in *. pose proof (operand_lt t (mkNode k s)) as Hlt. simpl in Hlt.
  destruct k; try by apply gives_ok.
  - apply node_bind. intros c Hc.
    destruct (pick (kind c)) as [[a b]|] eqn:Ec; [|by apply gives_ok].
    apply gives_ok. split; [done|]. intros u v [?|Hx%list_elem_of_singleton]%elem_of_app Hs; [by apply Hd|].
    injection Hx as -> ->. rewrite <- (Hp _ _ _ _ Hc Ec). specialize (Ht Hs).
    unfold T, sem_bool in Ht. rewrite (value_of _ _ _ Hn) in Ht. simpl in Ht.
    fold vals in Ht. fold (T x) in Ht. by destruct (T x).
  - assert (sat -> T a = true /\ T b = true) as Hab.
    { intros Hs. specialize (Ht Hs). unfold T, sem_bool in Ht. rewrite (value_of _ _ _ Hn) in Ht.
      by apply andb_true_iff in Ht. }
    assert (a < t /\ b < t)%nat as [Hta Htb] by (split; apply Hlt; simpl; set_solver).
    eapply gives_bind; [apply IH; [lia|by intros [??]%Hab|done]|]. intros out' Ho.
    apply IH; [lia|by intros [??]%Hab|done].
Qed.

Lemma bv_picks : picks_relation eq_kind (fun a b => V a = V b).
Proof.
  intros t [k s] a b Hn Hk. destruct k; try done. injection Hk as -> ->.
  unfold T, sem_bool. rewrite (value_of _ _ _ Hn). simpl. apply Z.eqb_eq.
Qed.

Lemma bv_pairs_gives : gives (pairs_ok (fun a b => V a = V b)) (bv_equalities_and_disequalities q).
Proof.
  apply collect_all_gives; [|apply pairs_ok_nil]. intros r out Hr Ho.
  apply collect_pairs_gives; [apply bv_picks|lia|by apply root_holds|done].
Qed.
(** ** Constants *)

Lemma const_test_gives t test : gives (fun b => b = true -> exists w bytes, V t = bval bytes /\
  legal w /\ bv_repr w bytes (bval bytes) /\ width_at ns t = Some w /\ test w bytes = true) (const_test q t test).
Proof.
  apply node_bind. intros [k s] Hn. apply gives_ok. simpl. destruct k; try done. intros Ht.
  pose proof (query_node_typed _ _ _ Hn) as [Hc <-]%when_Some. pose proof Hc as Hr%canonical_spec.
  assert (width_at ns t = Some width) as Hw by (unfold width_at; by rewrite Hn).
  exists width, bytes. split; [|split; [by eapply width_legal|done]].
  unfold V, sem_bv. by rewrite (value_of _ _ _ Hn).
Qed.

Lemma const_reports C t test : (forall w bytes, V t = bval bytes -> legal w -> bv_repr w bytes (bval bytes) ->
  width_at ns t = Some w -> test w bytes = true -> C) -> reports C (const_test q t test).
Proof.
  intros H. eapply gives_mono; [apply const_test_gives|]. intros b Hb E.
  destruct (Hb E) as (w & bytes & H1 & H2 & H3 & H4 & H5). by eapply H.
Qed.

Lemma bval_zeros bytes : forallb (fun byte => byte =? 0) bytes = true -> bval bytes = 0.
Proof.
  induction bytes as [|x l IH]; [done|]. simpl. intros [->%Z.eqb_eq H]%andb_true_iff. rewrite IH by done. lia.
Qed.

Lemma all_indexed_spec p bytes : all_indexed p bytes = true <->
  forall i b, bytes !! i = Some b -> p i b = true.
Proof.
  unfold all_indexed. rewrite forallb_forall. split.
  - intros H i b Hi. apply H. apply list_elem_of_In, list_elem_of_lookup. exists i.
    by rewrite list_lookup_imap, Hi.
  - intros H b Hb%list_elem_of_In. apply list_elem_of_lookup in Hb as [i Hi].
    rewrite list_lookup_imap in Hi. destruct (bytes !! i) as [x|] eqn:Ex; [|done]. simpl in Hi.
    injection Hi as <-. by apply H.
Qed.

(** A constant whose first byte is [v] and whose other bytes are zero. *)
Lemma bval_low bytes v : bytes <> [] -> (forall i b, bytes !! i = Some b -> b = if (i =? 0)%nat then v else 0) ->
  bval bytes = v.
Proof.
  destruct bytes as [|x l]; [done|]. intros _ H. simpl. rewrite (H 0%nat x eq_refl), (bval_zeros l); [simpl; lia|].
  apply forallb_forall. intros b Hb%list_elem_of_In. apply list_elem_of_lookup in Hb as [i Hi].
  apply Z.eqb_eq. exact (H (S i) b Hi).
Qed.

Lemma repr_nonempty w bytes z : legal w -> bv_repr w bytes z -> bytes <> [].
Proof.
  intros Hw [Hl _ _ _] ->. simpl in Hl. pose proof (div_ceil_8_pos w) as H. lia.
Qed.

Lemma is_zero_reports t : reports (V t = 0) (is_zero_bv_const q t).
Proof. apply const_reports. intros w bytes -> _ _ _ Ht. by apply bval_zeros. Qed.

Lemma is_one_reports t : reports (V t = 1) (is_one_bv_const q t).
Proof.
  pose proof (is_one_bv_const_spec q t) as H. destruct (is_one_bv_const q t) as [b| |]; simpl; [|done..].
  intros E. by apply H.
Qed.

Lemma is_two_reports t : reports (V t = 2) (is_power_of_two_const q t 1).
Proof.
  apply const_reports. intros w bytes -> Hw Hr _ Ht. rewrite all_indexed_spec in Ht.
  apply bval_low; [by eapply repr_nonempty|]. intros i b Hi. by apply Z.eqb_eq, Ht.
Qed.

(** A value below 256 of the given width. *)
Lemma is_small_reports t w v : 0 <= v < 256 -> reports (V t = v /\ width_at ns t = Some w) (is_bv_const_u64 q t w v).
Proof.
  intros Hv. apply const_reports. intros w' bytes -> Hw Hr Hwt' Ht.
  apply andb_true_iff in Ht as [[->%Nat.eqb_eq _]%andb_true_iff Ht]. split; [|done].
  rewrite all_indexed_spec in Ht. apply bval_low; [by eapply repr_nonempty|].
  intros i b Hi. specialize (Ht i b Hi). apply Z.eqb_eq in Ht as ->.
  destruct (Nat.eqb_spec i 0) as [->|Hne]; simpl.
  - change 255 with (Z.ones 8). rewrite Z.shiftr_0_r, Z.land_ones, Z.mod_small by lia.
    rewrite u8_mod. by apply Z.mod_small.
  - case_match; [|done]. rewrite Z.shiftr_div_pow2 by lia. rewrite Z.div_small; [done|].
    split; [lia|]. apply Z.lt_le_trans with (2 ^ 8); [lia|]. apply Z.pow_le_mono_r; lia.
Qed.

Lemma ones_bit k i : 0 <= i -> Z.testbit (Z.shiftl 1 (Z.of_nat k) - 1) i = (i <? Z.of_nat k).
Proof. intros Hi. change (Z.shiftl 1 (Z.of_nat k) - 1) with (Z.ones (Z.of_nat k)). apply Z.testbit_ones_nonneg; lia. Qed.

Lemma is_all_ones_reports t w : reports (V t = pow2 w - 1 /\ width_at ns t = Some w) (is_all_ones_bv_const q t w).
Proof.
  apply const_reports. intros w' bytes -> Hw Hr Hwt' Ht.
  apply andb_true_iff in Ht as [->%Nat.eqb_eq [_ Ht]%andb_true_iff]. split; [|done].
  rewrite all_indexed_spec in Ht. pose proof (repr_range _ _ _ Hr) as Hb.
  apply (Z_ext_w w); [done|pose proof (pow2_pos w); lia|]. intros n Hi.
  replace (pow2 w - 1) with (Z.ones (Z.of_nat w)) by (rewrite Z.ones_equiv; done).
  rewrite Z.testbit_ones_nonneg by lia. rewrite (proj2 (Z.ltb_lt _ _)) by lia.
  rewrite <- (repr_testbit _ _ _ _ Hr), get_bit_lookup. pose proof (div_ceil_8_bounds w) as Hd.
  destruct (lookup_lt_is_Some_2 bytes (n / 8)) as [b Eb].
  { destruct Hr as [-> _ _ _]. apply byte_pos. lia. }
  rewrite Eb. simpl. specialize (Ht _ _ Eb). apply Z.eqb_eq in Ht as ->.
  pose proof (Nat.div_mod n 8 ltac:(lia)). pose proof (Nat.mod_upper_bound n 8 ltac:(lia)).
  assert (forall k, (n mod 8 < k)%nat -> Z.testbit (if (k =? 8)%nat then 255 else Z.shiftl 1 (Z.of_nat k) - 1)
    (Z.of_nat (n mod 8)) = true) as Hbit.
  { intros k Hk. destruct (Nat.eqb_spec k 8) as [->|].
    - change 255 with (Z.shiftl 1 (Z.of_nat 8) - 1). rewrite ones_bit by lia. apply Z.ltb_lt. lia.
    - rewrite ones_bit by lia. apply Z.ltb_lt. lia. }
  apply Hbit. destruct (Nat.eqb_spec (n / 8 + 1) (div_ceil w 8)) as [E|]; [|simpl; lia].
  destruct (Nat.eqb_spec (w mod 8) 0); simpl; [lia|].
  pose proof (Nat.div_mod w 8 ltac:(lia)). nia.
Qed.

Lemma is_signed_min_reports t w : reports (V t = pow2 (w - 1)) (is_signed_min_bv_const q t w).
Proof.
  apply const_reports. intros w' bytes -> Hw Hr Hwt' Ht.
  apply andb_true_iff in Ht as [->%Nat.eqb_eq [H0 H1]%andb_true_iff].
  pose proof (repr_range _ _ _ Hr) as Hb.
  assert (pow2 w = 2 * pow2 (w - 1)) as Ew by (rewrite <- pow2_S; f_equal; lia).
  pose proof (pow2_pos (w - 1)). apply (Z_ext_w w); [done|lia|]. intros i Hi.
  rewrite Z.pow2_bits_eqb by lia.
  rewrite <- (repr_testbit _ _ _ _ Hr). rewrite forallb_forall in H0.
  destruct (Z.eqb_spec (Z.of_nat (w - 1)) (Z.of_nat i)) as [E|E].
  - replace i with (w - 1)%nat by lia. done.
  - specialize (H0 i). destruct (get_bit bytes i); [|done].
    discriminate H0. apply in_seq. lia.
Qed.

(** ** Operands *)

Lemma range t w : width_at ns t = Some w -> sem_w vals t = w /\ 0 <= V t < pow2 w.
Proof. intros Hw. destruct (vals_ok_bv _ _ _ _ (denote_ok env ns Hwt) Hw) as (? & ? & _). done. Qed.

(** A binary operation on bit-vectors: the value, the common width and the ranges. *)
Lemma binary_value op t k s a b : ns !! t = Some (mkNode k s) ->
  sort_of_kind ns k = SBv <$> binary_width ns a b ->
  sem_kind env t vals k = VBv (sem_w vals a) (op (sem_w vals a) (V a) (V b)) ->
  exists w, V t = op w (V a) (V b) /\ width_at ns t = Some w /\ width_at ns a = Some w /\ width_at ns b = Some w /\
    0 <= V a < pow2 w /\ 0 <= V b < pow2 w.
Proof.
  intros Hn Hk Hv. pose proof (query_node_typed _ _ _ Hn) as Ht. rewrite Hk in Ht.
  destruct (binary_width ns a b) as [w|] eqn:E; [|done]. injection Ht as <-.
  apply binary_width_Some in E as [Ha Hb]. destruct (range a w Ha) as [Ew ?], (range b w Hb) as [_ ?].
  exists w. split; [|unfold width_at; by rewrite Hn].
  unfold V at 1, sem_bv. by rewrite (value_of _ _ _ Hn), Hv, Ew.
Qed.

(** ** [arithmetic.rs] *)

Lemma is_disequal_elem x y l : is_disequal x y l = true -> (x, y) ∈ l \/ (y, x) ∈ l.
Proof.
  intros ([a b] & Hin%list_elem_of_In & H)%existsb_exists. unfold same_unordered_pair in H. simpl in H.
  apply orb_true_iff in H as [[->%Nat.eqb_eq ->%Nat.eqb_eq]%andb_true_iff|[->%Nat.eqb_eq ->%Nat.eqb_eq]%andb_true_iff]; auto.
Qed.

Lemma disequal x y out : pairs_ok (fun a b => V a = V b) out -> is_disequal x y out.2 = true -> sat -> V x <> V y.
Proof. intros [_ Hd] [Hin|Hin]%is_disequal_elem Hs E; by apply (Hd _ _ Hin Hs). Qed.

Lemma shift_left_one_reports t x : reports (exists w, width_at ns x = Some w /\ V t = wrap w (2 * V x))
  (is_shift_left_one_of q t x).
Proof.
  apply reports_node. intros [k s] Hn. simpl. destruct k; try done.
  - destruct (binary_value bvmul _ _ _ _ _ Hn eq_refl eq_refl) as (w & E & _ & Ha & Hb & _).
    apply reports_or; apply reports_same; intros ->; (eapply reports_mono; [apply is_two_reports|]); intros E2;
      exists w; (split; [done|]); rewrite E, E2; unfold bvmul; f_equal; lia.
  - destruct (binary_value bvshl _ _ _ _ _ Hn eq_refl eq_refl) as (w & E & _ & Ha & Hb & _).
    apply reports_same. intros ->. eapply reports_mono; [apply is_one_reports|]. intros E1.
    exists w. split; [done|]. rewrite E, E1, bvshl_mul by lia. f_equal. lia.
Qed.

Lemma shift_one_add_reports : reports (~ sat) (has_shift_one_add_contradiction q).
Proof.
  unfold has_shift_one_add_contradiction. eapply reports_bind; [apply bv_pairs_gives|]. intros pairs Hok.
  apply any_of_reports. intros [z1 sum] H1. eapply reports_bind; [apply parts_by_gives|].
  intros [[x y]|] Hp; [|done]. destruct (Hp x y eq_refl) as ([k s] & Hn & Hk). destruct k; try done.
  injection Hk as -> ->. apply any_of_reports. intros [z2 shifted] H2.
  eapply reports_mono; [apply reports_and; [apply reports_same|apply gives_ok; exact id]|].
  { intros E. eapply reports_mono; [apply shift_left_one_reports|]. intros Hs. exact (conj E Hs). }
  simpl. intros [[<- (w & Hw & Es)] Hd] Hsat. apply (disequal x y pairs Hok Hd Hsat).
  destruct Hok as [He _]. pose proof (He _ _ H1 Hsat) as E1. pose proof (He _ _ H2 Hsat) as E2. cbn in E1, E2.
  destruct (binary_value bvadd _ _ _ _ _ Hn eq_refl eq_refl) as (w' & E & _ & Hx & Hy & Rx & Ry).
  rewrite Hw in Hx. injection Hx as <-. simpl in E. rewrite <- E1, E2, Es in E. apply (eqm_range w); [done..|].
  assert (eqm w (V x + V y) (2 * V x)) as Em by (by rewrite <- eqm_bvadd, <- E, eqm_wrap).
  replace (V x) with (2 * V x - V x) at 1 by lia. rewrite <- Em. apply eqm_eq. lia.
Qed.

(** A positive number that has no bit in common with its predecessor is a power of two. *)
Definition power_of_two (x : Z) : Prop := exists k, 0 <= k /\ x = 2 ^ k.

Lemma land_pred x : 0 < x -> Z.land x (x - 1) = 0 -> power_of_two x.
Proof.
  intros Hx Hl. exists (Z.log2 x). pose proof (Z.log2_nonneg x) as Hk. split; [done|].
  destruct (Z.log2_spec x Hx) as [H1 H2]. destruct (Z.eq_dec x (2 ^ Z.log2 x)) as [|Hne]; [done|exfalso].
  assert (Z.log2 (x - 1) = Z.log2 x) as E by (apply Z.log2_unique; lia).
  assert (0 < 2 ^ Z.log2 x) as Hp by (apply Z.pow_pos_nonneg; lia).
  assert (Z.testbit (Z.land x (x - 1)) (Z.log2 x) = true) as Ht.
  { rewrite Z.land_spec, (Z.bit_log2 x Hx). rewrite <- E. by rewrite Z.bit_log2 by lia. }
  by rewrite Hl, Z.bits_0 in Ht.
Qed.

Lemma power_sum w x y : power_of_two x -> power_of_two y -> x <> y -> x < pow2 w -> y < pow2 w ->
  ~ power_of_two (bvadd w x y).
Proof.
  intros (i & Hi & ->) (j & Hj & ->) Hne Hx Hy (k & Hk & E). revert E.
  assert (forall i j, 0 <= i -> i < j -> 2 ^ j < pow2 w -> bvadd w (2 ^ i) (2 ^ j) <> 2 ^ k) as H.
  { clear -Hk. intros i j Hi Hlt Hj E.
    assert (2 ^ i < 2 ^ j) by (apply Z.pow_lt_mono_r; lia).
    assert (0 < 2 ^ i) by (apply Z.pow_pos_nonneg; lia).
    assert (2 ^ (j + 1) <= pow2 w) as Hle.
    { apply Z.pow_le_mono_r; [lia|]. apply Z.pow_lt_mono_r_iff in Hj; lia. }
    rewrite Z.pow_add_r in Hle by lia. unfold bvadd in E. rewrite wrap_small in E by lia.
    assert (j < k) as Hjk by (apply (Z.pow_lt_mono_r_iff 2); lia).
    assert (k < j + 1) as Hkj by (apply (Z.pow_lt_mono_r_iff 2); [lia..|]; rewrite Z.pow_add_r by lia; lia).
    lia. }
  destruct (Z.lt_total i j) as [Hlt|[->|Hlt]]; [by apply H|done|].
  rewrite bvadd_comm. by apply H.
Qed.

Lemma minus_one_reports c t : reports (exists w, width_at ns t = Some w /\ V c = bvsub w (V t) 1)
  (is_minus_one q c t).
Proof.
  apply reports_node. intros [k s] Hn. simpl. destruct k; try done.
  destruct (binary_value bvsub _ _ _ _ _ Hn eq_refl eq_refl) as (w & E & _ & Ha & Hb & _).
  apply reports_same. intros ->. eapply reports_mono; [apply is_one_reports|]. intros E1.
  exists w. split; [done|]. by rewrite E, E1.
Qed.

Lemma mask_reports m t : reports (exists w, width_at ns t = Some w /\ V m = Z.land (V t) (bvsub w (V t) 1))
  (is_power_of_two_mask q m t).
Proof.
  apply reports_node. intros [k s] Hn. simpl. destruct k; try done.
  destruct (binary_value (fun _ => Z.land) _ _ _ _ _ Hn eq_refl eq_refl) as (w & E & _ & Ha & Hb & _).
  apply reports_or; apply reports_same; intros ->; (eapply reports_mono; [apply minus_one_reports|]);
    intros (w' & Hw & Es); exists w'; (split; [done|]); rewrite E, Es; [done|apply Z.land_comm].
Qed.

Lemma power_of_two_test_reports a b t zero : V zero = 0 ->
  reports (V a = V b -> V t <> 0 -> power_of_two (V t)) (is_power_of_two_test q a b t zero).
Proof.
  intros Hz. assert (forall m z, reports (V m = V z -> V z = 0 -> V t <> 0 -> power_of_two (V t))
    (or_false (is_power_of_two_mask q m t))) as Hm.
  { intros m z. apply reports_or_false. eapply reports_mono; [apply mask_reports|].
    intros (w & Hw & Em) E Ez Ht. destruct (range t w Hw) as [_ Hr]. apply land_pred; [lia|].
    unfold bvsub in Em. rewrite wrap_small in Em by lia. congruence. }
  repeat apply reports_or.
  - eapply reports_mono; [apply reports_and; [apply reports_or_false, is_zero_reports|apply (Hm a b)]|]. naive_solver.
  - eapply reports_mono; [apply reports_and; [apply reports_or_false, is_zero_reports|apply (Hm b a)]|]. naive_solver.
  - apply reports_same. intros ->. eapply reports_mono; [apply (Hm a zero)|]. auto.
  - apply reports_same. intros ->. eapply reports_mono; [apply (Hm b zero)|]. auto.
Qed.

Lemma asserted_zero_gives t l : (forall a b, (a, b) ∈ l -> sat -> V a <> V b) ->
  gives (fun o => forall z, o = Some z -> V z = 0 /\ (sat -> V t <> 0)) (first_some (asserted_zero q t) l).
Proof.
  intros Hd. apply first_some_gives. intros [a b] Hin. unfold asserted_zero. simpl.
  assert (reports (a = t /\ V b = 0) (same_then a t (or_false (is_zero_bv_const q b)))) as Hl.
  { apply reports_same. intros ->. eapply reports_mono; [apply reports_or_false, is_zero_reports|done]. }
  assert (reports (b = t /\ V a = 0) (same_then b t (or_false (is_zero_bv_const q a)))) as Hr.
  { apply reports_same. intros ->. eapply reports_mono; [apply reports_or_false, is_zero_reports|done]. }
  specialize (Hd a b Hin). eapply gives_bind; [exact Hl|]. intros [] Hl'.
  { apply gives_ok. intros z [= <-]. destruct (Hl' eq_refl) as [-> E]. rewrite E in Hd. done. }
  eapply gives_bind; [exact Hr|]. intros [] Hr' z [= <-]. destruct (Hr' eq_refl) as [-> E].
  split; [done|]. intros Hs E'. apply (Hd Hs). congruence.
Qed.

Lemma nonzero_power_reports t out : pairs_ok (fun a b => V a = V b) out ->
  reports (sat -> power_of_two (V t)) (is_asserted_nonzero_power_of_two q t out.1 out.2).
Proof.
  intros [He Hd]. eapply reports_bind; [by apply asserted_zero_gives|]. intros [zero|] Hz; [|done].
  destruct (Hz zero eq_refl) as [E0 Hne]. apply any_of_reports. intros [a b] Hin. simpl.
  eapply reports_mono; [by apply power_of_two_test_reports|]. intros H Hs. apply H; auto.
Qed.

Lemma power_sum_reports : reports (~ sat) (has_distinct_power_of_two_sum_contradiction q).
Proof.
  unfold has_distinct_power_of_two_sum_contradiction.
  eapply reports_bind; [apply bv_pairs_gives|]. intros pairs Hok.
  apply any_of_reports. intros [z sum] H1. eapply reports_bind; [apply parts_by_gives|].
  intros [[x y]|] Hp; [|done]. destruct (Hp x y eq_refl) as ([k s] & Hn & Hk). destruct k; try done.
  injection Hk as -> ->. destruct (is_disequal x y pairs.2) eqn:Ed; simpl; [|done].
  eapply reports_mono; [repeat apply reports_and; by apply nonzero_power_reports|].
  intros (Px & Py & Pz) Hs.
  destruct (binary_value bvadd _ _ _ _ _ Hn eq_refl eq_refl) as (w & E & _ & _ & _ & Rx & Ry).
  apply (power_sum w (V x) (V y)); auto; [by eapply disequal|lia|lia|].
  simpl in E. rewrite <- E. destruct Hok as [He _]. rewrite <- (He _ _ H1 Hs). auto.
Qed.
(** ** [direct_eq.rs] *)

(** Terms of either sort with the same value. *)
Definition equal_terms (a b : TermId) : Prop := V a = V b /\ T a = T b.

#[local] Instance equal_terms_equivalence : Equivalence equal_terms.
Proof.
  split; [by intros a|intros a b [??]; by split|intros a b c [??] [??]; split; by etransitivity].
Qed.

Lemma bool_of_bv t w : width_at ns t = Some w -> T t = false.
Proof.
  intros Hw. destruct (vals_ok_bv _ _ _ _ (denote_ok env ns Hwt) Hw) as (_ & _ & E).
  unfold T, sem_bool. fold vals in E. by rewrite E.
Qed.

Lemma bv_of_bool t : bool_at ns t = true -> V t = 0.
Proof.
  intros Hb. pose proof (vals_ok_bool _ _ _ (denote_ok env ns Hwt) Hb) as E.
  unfold V, sem_bv. fold vals in E. by rewrite E.
Qed.

Lemma any_eq_picks : picks_relation any_eq_kind equal_terms.
Proof.
  intros t [k s] a b Hn Hk. pose proof (query_node_typed _ _ _ Hn) as Ht. pose proof (value_of _ _ _ Hn) as Hv.
  unfold T at 1, sem_bool. rewrite Hv. unfold equal_terms.
  destruct k; try done; simpl in Hk, Ht; injection Hk as -> ->; simpl.
  - apply when_Some in Ht as [[Ha Hb]%andb_true_iff _]. rewrite (bv_of_bool a), (bv_of_bool b) by done.
    rewrite eqb_true_iff. tauto.
  - destruct (binary_width ns a b) as [w|] eqn:E; [|done]. apply binary_width_Some in E as [Ha Hb].
    rewrite (bool_of_bv a w), (bool_of_bv b w) by done. rewrite Z.eqb_eq. tauto.
Qed.

Lemma direct_pairs_gives : gives (pairs_ok equal_terms)
  (collect_all (collect_direct_equalities_and_disequalities q) (root <$> assertions q) ([], [])).
Proof.
  apply collect_all_gives; [|apply pairs_ok_nil]. intros r out Hr Ho.
  apply collect_pairs_gives; [apply any_eq_picks|lia|by apply root_holds|done].
Qed.

Lemma direct_equality_reports : reports (~ sat) (has_direct_equality_disequality_contradiction q).
Proof.
  unfold has_direct_equality_disequality_contradiction. destruct (_ || _); [done|].
  eapply reports_bind; [apply direct_pairs_gives|]. intros [eqs neqs] [He Hd]. cbn [fst snd] in *.
  destruct (_ || _); [done|].
  destruct (TermUnionFacts.union_all_spec eqs ∅ [] TermUnionFacts.up_empty_represents) as (m & -> & Hm).
  cbn [mbind res_bind]. destruct (TermUnionFacts.any_equivalent_spec _ neqs _ m Hm) as (v & -> & Hv).
  intros Hv' Hs. apply Hv in Hv' as (a & b & Hin & Hab). apply (Hd _ _ Hin Hs).
  apply (closure_incl equal_terms eqs); [typeclasses eauto|by intros x y Hxy; apply He|done].
Qed.

(** ** [division_remainder.rs] *)

(** The search stays within what the equalities connect to its start. *)
Section search.
Context (equalities : list (TermId * TermId)) (a b : TermId).

Let points : list TermId := a :: (equalities.*1 ++ equalities.*2).

(** Rounds the search can still take. *)
Definition search_measure (stack seen : list TermId) : nat :=
  (length stack + length (filter (fun t => t ∉ seen) points) * S (length equalities))%nat.

Lemma unseen_neighbours_spec seen c t : t ∈ unseen_neighbours seen c equalities ->
  closure equalities c t /\ t ∈ points.
Proof.
  intros (p & Hp & E)%list_elem_of_omap. destruct p as [x y]. simpl in E.
  assert (x ∈ points /\ y ∈ points) as [Hx Hy].
  { unfold points. split; right; apply elem_of_app; [left|right]; apply list_elem_of_fmap; by exists (x, y). }
  destruct (Nat.eqb_spec x c) as [->|]; simpl in E; [destruct (negb _)|]; [injection E as ->; split; [by apply closure_elem|done]|..];
    (destruct (Nat.eqb_spec y c) as [->|]; simpl in E; [|done]); (destruct (negb _); [|done]); injection E as ->;
    (split; [by apply closure_sym, closure_elem|done]).
Qed.

Lemma unseen_shrinks c seen : c ∈ points -> c ∉ seen ->
  (length (filter (fun t => t ∉ c :: seen) points) < length (filter (fun t => t ∉ seen) points))%nat.
Proof.
  intros Hc Hs. assert (forall l : list TermId,
    (length (filter (fun t => t ∉ c :: seen) l) <= length (filter (fun t => t ∉ seen) l))%nat /\
    (c ∈ l -> (length (filter (fun t => t ∉ c :: seen) l) < length (filter (fun t => t ∉ seen) l))%nat)) as H;
    [|by apply H].
  induction l as [|x l [IH1 IH2]]; [split; [done|]; intros H; by apply elem_of_nil in H|].
  destruct (decide (x = c)) as [->|Hne].
  - rewrite filter_cons_False by (intros H; apply H; by constructor). rewrite filter_cons_True by done. simpl. lia.
  - destruct (decide (x ∈ seen)) as [Hin|Hin].
    + rewrite !filter_cons_False by (intros H; apply H; (done || by constructor)).
      split; [done|]. intros [->|?]%elem_of_cons; [done|auto].
    + rewrite !filter_cons_True by (try done; by intros [?|?]%elem_of_cons). simpl.
      split; [lia|]. intros [->|?]%elem_of_cons; [done|]. specialize (IH2 ltac:(done)). lia.
Qed.

Lemma search_equal_gives fuel : forall stack seen, (search_measure stack seen < fuel)%nat ->
  (forall t, t ∈ stack -> closure equalities a t /\ t ∈ points) ->
  reports (closure equalities a b) (search_equal fuel b equalities stack seen).
Proof.
  induction fuel as [|fuel IH]; intros stack seen Hf Hs; [lia|]. cbn [search_equal].
  destruct stack as [|c stack]; [done|]. destruct (Hs c ltac:(by constructor)) as [Hc Hcp].
  destruct (Nat.eqb_spec c b) as [->|]; [by intros _|]. unfold search_measure in Hf. cbn [length] in Hf.
  assert (forall t, t ∈ stack -> closure equalities a t /\ t ∈ points) as Hs' by (intros t Ht; apply Hs; by constructor).
  case_bool_decide as Hseen; [apply IH; [unfold search_measure; lia|done]|].
  apply IH.
  - unfold search_measure. rewrite length_app, length_reverse.
    assert (length (unseen_neighbours (c :: seen) c equalities) <= length equalities)%nat by apply omap_shorter.
    pose proof (unseen_shrinks c seen Hcp Hseen). nia.
  - intros t [Ht|Ht]%elem_of_app; [|by apply Hs']. rewrite elem_of_reverse in Ht.
    apply unseen_neighbours_spec in Ht as [??]. split; [by eapply closure_trans|done].
Qed.
End search.

Lemma equivalent_reports a b equalities : reports (closure equalities a b) (equivalent_under_equalities a b equalities).
Proof.
  unfold equivalent_under_equalities. destruct (Nat.eqb_spec a b) as [->|]; [intros _; apply closure_refl|].
  apply (search_equal_gives equalities a b).
  - unfold search_measure, search_fuel. cbn [length]. set (l := a :: _).
    assert (length (filter (fun t => t ∉ []) l) <= 2 * length equalities + 1)%nat.
    { etransitivity; [apply length_filter|]. unfold l. cbn [length]. rewrite length_app, !length_fmap. lia. }
    nia.
  - intros t ->%list_elem_of_singleton. split; [apply closure_refl|by constructor].
Qed.

(** What a guard clause says: the remainder is [r], or [r] is the divisor. *)
Definition guard (g : UremParts) : bool :=
  let '(n, d, r) := g in (bvurem (V n) (V d) =? V r) || (V r =? V d).

Lemma bv_eq_value t a b s : ns !! t = Some (mkNode (BvEq a b) s) -> T t = (V a =? V b).
Proof. intros Hn. unfold T, sem_bool. by rewrite (value_of _ _ _ Hn). Qed.

(** The leaf is an equality of [u] and [r], in either order. *)
Definition eq_leaf (leaf u r : TermId) : Prop :=
  exists s, ns !! leaf = Some (mkNode (BvEq u r) s) \/ ns !! leaf = Some (mkNode (BvEq r u) s).

Lemma eq_leaf_value leaf u r : eq_leaf leaf u r -> T leaf = (V u =? V r).
Proof. intros (s & [H|H]); rewrite (bv_eq_value _ _ _ _ H); [done|apply Z.eqb_sym]. Qed.

Lemma urem_side_gives leaf : gives (fun o => forall n d r, o = Some (n, d, r) ->
  exists u s, ns !! u = Some (mkNode (BvURem n d) s) /\ eq_leaf leaf u r) (bv_urem_eq_side q leaf).
Proof.
  unfold bv_urem_eq_side. eapply gives_bind; [apply parts_by_gives|]. intros [[a b]|] Hp; [|done].
  destruct (Hp a b eq_refl) as ([k s] & Hl & Hk). destruct k; try done. injection Hk as -> ->.
  apply node_bind. intros [ka sa] Ha. cbn [kind].
  assert (gives (fun o => forall n d r, o = Some (n, d, r) ->
    exists u s, ns !! u = Some (mkNode (BvURem n d) s) /\ eq_leaf leaf u r)
    (nb ← Arena.node (arena q) b;
     match kind nb with BvURem numerator divisor => Ok (Some (numerator, divisor, a)) | _ => Ok None end)) as Hb.
  { apply node_bind. intros [kb sb] Hb. cbn [kind]. destruct kb; try done. apply gives_ok.
    intros n d r [= <- <- <-]. exists b, sb. split; [done|]. exists s. by right. }
  destruct ka; try exact Hb. apply gives_ok. intros n d r [= <- <- <-]. exists a, sa. split; [done|].
  exists s. by left.
Qed.

Lemma is_bv_eq_pair_reports leaf x y : reports (eq_leaf leaf x y) (is_bv_eq_pair q leaf x y).
Proof.
  unfold is_bv_eq_pair. eapply reports_bind; [apply parts_by_gives|]. intros [[a b]|] Hp; [|done].
  destruct (Hp a b eq_refl) as ([k s] & Hl & Hk). destruct k; try done. injection Hk as -> ->.
  apply gives_ok. unfold same_unordered_pair. exists s.
  apply orb_true_iff in H as [[->%Nat.eqb_eq ->%Nat.eqb_eq]%andb_true_iff|[->%Nat.eqb_eq ->%Nat.eqb_eq]%andb_true_iff];
    auto.
Qed.

Lemma guard_clause_gives t : gives (fun o => forall g, o = Some g -> T t = guard g) (urem_guard_clause q t).
Proof.
  unfold urem_guard_clause. eapply gives_bind; [apply collect_bool_or_leaves_gives|]. intros ls Hls.
  destruct (Nat.eqb_spec (length ls) 2) as [H2|]; simpl; [|done].
  eapply gives_bind.
  { apply (first_some_gives (fun g => let '(n, d, r) := g in exists leaf u s, leaf ∈ ls /\
      ns !! u = Some (mkNode (BvURem n d) s) /\ eq_leaf leaf u r)).
    intros leaf Hin. eapply gives_mono; [apply urem_side_gives|]. intros o Ho [[n d] r] E.
    destruct (Ho _ _ _ E) as (u & s & ? & ?). by exists leaf, u, s. }
  intros [[[n d] r]|] Hu; [|done]. destruct (Hu _ eq_refl) as (l1 & u & s & Hin1 & Hn & Hl1).
  eapply gives_bind.
  { apply (any_of_reports (exists leaf, leaf ∈ ls /\ eq_leaf leaf r d)). intros leaf Hin.
    eapply reports_mono; [apply is_bv_eq_pair_reports|]. eauto. }
  intros [] Hf g; [|done]. intros [= <-]. destruct (Hf eq_refl) as (l2 & Hin2 & Hl2). cbn [guard].
  assert (V u = bvurem (V n) (V d)) as Eu by (unfold V at 1, sem_bv; by rewrite (value_of _ _ _ Hn)).
  rewrite <- Eu, <- (eq_leaf_value _ _ _ Hl1), <- (eq_leaf_value _ _ _ Hl2), (or_leaves _ _ Hls).
  assert (l1 <> l2) as Hne.
  { intros <-. assert (d < u)%nat as Hd by (apply (operand_lt u _ d Hn); simpl; set_solver).
    destruct Hl1 as (s1 & [H|H]), Hl2 as (s2 & [H'|H']); rewrite H in H'; simplify_eq; lia. }
  destruct ls as [|x [|y []]]; try done. simpl. rewrite orb_false_r.
  rewrite !elem_of_cons, !elem_of_nil in Hin1, Hin2.
  destruct Hin1 as [->|[->|[]]], Hin2 as [->|[->|[]]]; try done. apply orb_comm.
Qed.

Record urem_ok (f : UremFacts) : Prop := {
  uo_equalities : forall a b, (a, b) ∈ urem_equalities f -> sat -> V a = V b;
  uo_positive : forall g, g ∈ positive_guards f -> sat -> guard g = true;
  uo_negative : forall g, g ∈ negative_guards f -> sat -> guard g = false;
}.

Lemma elem_option_list {A} (x : A) o : x ∈ option_list o -> o = Some x.
Proof. destruct o; simpl; [by intros ->%list_elem_of_singleton|by intros ?%elem_of_nil]. Qed.

Lemma urem_leaf_gives f leaf : (sat -> T leaf = true) -> urem_ok f -> gives urem_ok (urem_leaf q f leaf).
Proof.
  intros Ht [He Hp Hn]. unfold urem_leaf. eapply gives_bind; [apply parts_by_gives|]. intros pair Hpair.
  eapply gives_bind; [apply guard_clause_gives|]. intros pos Hpos. apply node_bind. intros [k s] Hl. cbn [kind].
  eapply gives_bind with (P := fun o => forall g, o = Some g -> sat -> guard g = false).
  { destruct k; try done. eapply gives_mono; [apply guard_clause_gives|]. intros o Ho g E Hs.
    rewrite <- (Ho g E). specialize (Ht Hs). unfold T, sem_bool in Ht. rewrite (value_of _ _ _ Hl) in Ht.
    simpl in Ht. by apply negb_true_iff in Ht. }
  intros neg Hneg. apply gives_ok. split; cbn [urem_equalities positive_guards negative_guards].
  - intros a b [?|E%elem_option_list]%elem_of_app Hs; [auto|].
    destruct (Hpair a b E) as ([k' s'] & Hn' & Hk). rewrite Hl in Hn'. simplify_eq. destruct k'; try done.
    injection Hk as -> ->. apply Z.eqb_eq. rewrite <- (bv_eq_value _ _ _ _ Hl). auto.
  - intros g [?|E%elem_option_list]%elem_of_app Hs; [auto|]. rewrite <- (Hpos g E). auto.
  - intros g [?|E%elem_option_list]%elem_of_app Hs; auto.
Qed.

Lemma urem_fixed_point_reports : reports (~ sat) (has_urem_remainder_fixed_point_contradiction q).
Proof.
  unfold has_urem_remainder_fixed_point_contradiction. destruct (_ || _); [done|].
  eapply reports_bind; [apply assertion_conjuncts_gives|]. intros leaves Hl.
  eapply reports_bind; [apply (collect_all_gives urem_ok)|].
  - intros leaf f Hin Hf. apply urem_leaf_gives; auto.
  - split; intros *; by intros ?%elem_of_nil.
  - intros f [He Hp Hn]. cbv zeta. apply any_of_reports. intros [[n d] r] Hpos.
    apply any_of_reports. intros [[n' d'] r'] Hneg.
    eapply reports_mono; [repeat apply reports_and; apply equivalent_reports|]. intros (Ed & Er & En) Hs.
    assert (forall a b, closure (urem_equalities f) a b -> V a = V b) as Hv.
    { intros a b. apply (closure_incl (fun a b => V a = V b)); [|auto].
      split; [by intros x|by intros x y|intros x y z; congruence]. }
    apply Hv in Ed, Er, En. specialize (Hp _ Hpos Hs). specialize (Hn _ Hneg Hs). simpl in Hp, Hn.
    rewrite <- Ed, <- Er, En in Hn. apply orb_false_iff in Hn as [Hn1 Hn2]. rewrite Hn2, orb_false_r in Hp.
    apply Z.eqb_eq in Hp. apply Z.eqb_neq in Hn1. apply Hn1. clear Hn1 Hn2. unfold bvurem in *.
    destruct (Z.eqb_spec (V d) 0) as [|Hd]; [done|]. rewrite <- Hp. by apply Z.mod_mod.
Qed.

(** ** [overflow_guards.rs] *)

Lemma extend_parts_gives pick t : gives (fun o => forall c w extra, o = Some (c, w, extra) ->
  exists n, ns !! t = Some n /\ pick (kind n) = Some (c, extra) /\ width_at ns c = Some w) (extend_parts pick q t).
Proof.
  apply node_bind. intros n Hn. destruct (pick (kind n)) as [[child extra]|] eqn:Ep; [|done].
  eapply gives_bind; [apply (sort_gives (fun s => exists m, ns !! child = Some m /\ sort m = s)); eauto|].
  intros s (m & Hm & <-) c w e. destruct (sort m) eqn:Es; [done|]. intros [= <- <- <-].
  exists n. split_and!; [done|done|]. unfold width_at. rewrite Hm. simpl. by rewrite Es.
Qed.

Lemma zero_extend_gives t : gives (fun o => forall c w extra, o = Some (c, w, extra) ->
  width_at ns c = Some w /\ V t = V c /\ width_at ns t = Some (w + extra)%nat) (zero_extend_parts q t).
Proof.
  eapply gives_mono; [apply extend_parts_gives|]. intros o Ho c w extra E.
  destruct (Ho _ _ _ E) as ([k s] & Hn & Hk & Hw). destruct k; try done. injection Hk as -> ->.
  pose proof (query_node_typed _ _ _ Hn) as Ht. simpl in Ht. rewrite Hw in Ht. injection Ht as <-.
  split_and!; [done| |unfold width_at; by rewrite Hn]. unfold V at 1, sem_bv. by rewrite (value_of _ _ _ Hn).
Qed.

Lemma sign_extend_gives t : gives (fun o => forall c w extra, o = Some (c, w, extra) ->
  width_at ns c = Some w /\ V t = bvsext w extra (V c) /\ width_at ns t = Some (w + extra)%nat)
  (sign_extend_parts q t).
Proof.
  eapply gives_mono; [apply extend_parts_gives|]. intros o Ho c w extra E.
  destruct (Ho _ _ _ E) as ([k s] & Hn & Hk & Hw). destruct k; try done. injection Hk as -> ->.
  pose proof (query_node_typed _ _ _ Hn) as Ht. simpl in Ht. rewrite Hw in Ht. injection Ht as <-.
  split_and!; [done| |unfold width_at; by rewrite Hn]. unfold V at 1, sem_bv. rewrite (value_of _ _ _ Hn). simpl.
  by destruct (range c w Hw) as [-> _].
Qed.

Lemma extract_value t c high low s : ns !! t = Some (mkNode (BvExtract c high low) s) ->
  V t = bvextract high low (V c).
Proof. intros Hn. unfold V at 1, sem_bv. by rewrite (value_of _ _ _ Hn). Qed.

(** [x] and [y] have width [w] and [t] is the high half of their product. *)
Definition high_product (t : TermId) (p : TermId * TermId * nat) : Prop :=
  let '(x, y, w) := p in
  width_at ns x = Some w /\ width_at ns y = Some w /\ V t = V x * V y / pow2 w.

Lemma unsigned_parts_gives t zero : gives (fun o => forall p, o = Some p -> V zero = 0 /\ high_product t p)
  (unsigned_high_multiplication_overflow_parts q t zero).
Proof.
  unfold unsigned_high_multiplication_overflow_parts. eapply gives_bind; [apply is_zero_reports|].
  intros [] Hz; [|done]. specialize (Hz eq_refl). apply node_bind. intros [k s] Hn. simpl. destruct k; try done.
  apply node_bind. intros [kc sc] Hc. simpl. destruct kc; try done.
  eapply gives_bind; [apply zero_extend_gives|]. intros [[[x xw] xe]|] Hx; [|done].
  destruct (Hx _ _ _ eq_refl) as (Hxw & Ex & Hax). eapply gives_bind; [apply zero_extend_gives|].
  intros [[[y yw] ye]|] Hy; [|done]. destruct (Hy _ _ _ eq_refl) as (Hyw & Ey & Hby). apply gives_ok.
  intros p. destruct (Nat.eqb_spec xw yw) as [<-|]; simpl; [|done].
  destruct (Nat.eqb_spec xe xw) as [->|]; simpl; [|done]. destruct (Nat.eqb_spec ye xw) as [->|]; simpl; [|done].
  destruct (Nat.eqb_spec low xw) as [->|]; simpl; [|done].
  destruct (Nat.eqb_spec (high + 1) (xw * 2)) as [Eh|]; simpl; [|done]. intros [= <-]. split; [done|].
  split_and!; [done..|].
  destruct (binary_value bvmul _ _ _ _ _ Hc eq_refl eq_refl) as (w & Em & _ & Ha & _ & _).
  rewrite Hax in Ha. injection Ha as <-. destruct (range x xw Hxw) as [_ Rx], (range y xw Hyw) as [_ Ry].
  pose proof (width_legal _ _ _ Hwt Hxw).
  rewrite (extract_value _ _ _ _ _ Hn), Em, Ex, Ey, umul_full by (done || lia). unfold bvextract.
  rewrite Z.shiftr_div_pow2 by lia. replace (high - xw + 1)%nat with xw by lia.
  pose proof (pow2_pos xw). apply Z.mod_small. split; [apply Z.div_pos; nia|apply Z.div_lt_upper_bound; nia].
Qed.

Lemma max_div_reports t d w : reports (V t = bvudiv w (pow2 w - 1) (V d)) (is_max_div_by q t d w).
Proof.
  apply reports_node. intros [k s] Hn. simpl. destruct k; try done.
  destruct (binary_value bvudiv _ _ _ _ _ Hn eq_refl eq_refl) as (w' & E & _ & Ha & Hb & _).
  apply reports_same. intros ->. eapply reports_mono; [apply is_all_ones_reports|]. intros [E1 Hw].
  rewrite Ha in Hw. injection Hw as ->. by rewrite E, E1.
Qed.

Lemma ule_value t a b s : ns !! t = Some (mkNode (BvUle a b) s) -> T t = (V a <=? V b).
Proof. intros Hn. unfold T, sem_bool. by rewrite (value_of _ _ _ Hn). Qed.

Lemma guard_facts_gives : gives (fun f => pairs_ok (fun a b => V a = V b) f.1 /\
  forall a b, (a, b) ∈ f.2 -> sat -> V a <= V b) (unsigned_guard_facts q).
Proof.
  apply (collect_all_gives (fun f : Pairs * list (TermId * TermId) => pairs_ok (fun a b => V a = V b) f.1 /\
    forall a b, (a, b) ∈ f.2 -> sat -> V a <= V b)).
  2: { split; [apply pairs_ok_nil|]. intros a b ?%elem_of_nil. done. }
  intros r out Hr [Ho1 Ho2]. eapply gives_bind.
  { apply collect_pairs_gives; [apply bv_picks|lia|by apply root_holds|exact Ho1]. }
  intros pairs Hp. assert (r < length ns)%nat as Hlt.
  { eapply bool_at_lt, well_formed_roots; [done|]. apply elem_of_app. by left. }
  destruct (collect_less_spec q Hwf ule_pair (S r) r out.2 ltac:(lia) Hlt) as (l & El & Hl).
  unfold collect_unsigned_less_or_equal. rewrite El. simpl. split; [done|].
  intros a b Hin Hs. destruct (Hl _ Hin) as [?|(i & [k s] & Hi & Hk & Ht)]; [by apply Ho2|].
  destruct k; try done. simpl in Hk. injection Hk as -> ->. apply Z.leb_le.
  rewrite <- (ule_value _ _ _ _ Hi). apply Ht. by apply root_holds.
Qed.

Lemma product_fits w x y : 0 <= x < pow2 w -> 0 <= y -> y <= bvudiv w (pow2 w - 1) x -> x * y / pow2 w = 0.
Proof.
  intros Hx Hy. unfold bvudiv. destruct (Z.eqb_spec x 0) as [->|Hne]; [intros _; by rewrite Z.mul_0_l, Zdiv_0_l|].
  intros Hle. apply Z.div_small. pose proof (Z.mul_div_le (pow2 w - 1) x ltac:(lia)). nia.
Qed.

Lemma unsigned_guard_reports : reports (~ sat) (has_unsigned_multiplication_overflow_guard_contradiction q).
Proof.
  unfold has_unsigned_multiplication_overflow_guard_contradiction.
  eapply reports_bind; [apply guard_facts_gives|]. intros [[eqs neqs] les] [[_ Hd] Hle]. cbn [fst snd] in *.
  apply any_of_reports. intros [a b] Hin. cbn [fst snd].
  eapply reports_bind; [apply unsigned_parts_gives|]. intros left Hl.
  eapply reports_bind; [apply unsigned_parts_gives|]. intros right Hr.
  assert (forall p, (match left with Some _ => left | None => right end) = Some p -> sat ->
    let '(x, y, w) := p in width_at ns x = Some w /\ width_at ns y = Some w /\ V x * V y / pow2 w <> 0) as Hp.
  { intros [[x y] w] E Hs. specialize (Hd _ _ Hin Hs). destruct left as [p|].
    - destruct (Hl p eq_refl) as [Ez Hh]. injection E as ->. destruct Hh as (? & ? & Eh). split_and!; [done..|]. congruence.
    - destruct (Hr _ E) as [Ez (? & ? & Eh)]. split_and!; [done..|]. congruence. }
  destruct (match left with Some _ => left | None => right end) as [[[x y] w]|]; [|done].
  specialize (Hp _ eq_refl). apply any_of_reports. intros [l r] Hlr. cbn [fst snd].
  assert (forall u v, sat -> width_at ns u = Some w -> width_at ns v = Some w -> V v <= V r ->
    V r = bvudiv w (pow2 w - 1) (V u) -> V u * V v / pow2 w = 0) as Hfit.
  { intros u v _ Hu Hv Hlv Er. destruct (range u w Hu) as [_ ?], (range v w Hv) as [_ ?].
    apply product_fits; [done|lia|]. by rewrite <- Er. }
  apply reports_or; apply reports_same; intros ->; (eapply reports_mono; [apply max_div_reports|]); intros Er Hs;
    destruct (Hp Hs) as (Hx & Hy & Hne); apply Hne; specialize (Hle _ _ Hlr Hs).
  - by apply Hfit.
  - rewrite Z.mul_comm. by apply Hfit.
Qed.

(** *** The signed guard *)

Lemma signed_fits w z : (0 < w)%nat -> in_signed_range w z = true ->
  wrap (w + w) z / pow2 (w - 1) mod pow2 (w + 1) = 0 \/
  wrap (w + w) z / pow2 (w - 1) mod pow2 (w + 1) = pow2 (w + 1) - 1.
Proof.
  intros Hw Hz. unfold in_signed_range in Hz.
  assert (pow2 w = 2 * pow2 (w - 1)) as E1 by (rewrite <- pow2_S; do 2 f_equal; lia).
  assert (pow2 (w + 1) = 2 * pow2 w) as E2 by (rewrite <- pow2_S; do 2 f_equal; lia).
  assert (pow2 (w + w) = pow2 (w + 1) * pow2 (w - 1)) as E3 by (rewrite <- pow2_add; do 2 f_equal; lia).
  pose proof (pow2_pos (w - 1)). destruct (decide (0 <= z)).
  - left. unfold wrap. rewrite (Z.mod_small z) by nia. rewrite Z.div_small by lia. by apply Z.mod_small; lia.
  - right. unfold wrap. rewrite <- (Z.mod_unique z (pow2 (w + w)) (-1) (z + pow2 (w + w))) by nia.
    rewrite E3, Z.div_add by lia. assert (z / pow2 (w - 1) = -1) as ->.
    { symmetry. apply Z.div_unique with (z + pow2 (w - 1)); lia. }
    rewrite Z.mod_small by lia. lia.
Qed.

(** A quotient that does not overflow times the divisor is in range. *)
Lemma quotient_product w x y : (0 < w)%nat -> 0 <= x < pow2 w -> 0 <= y < pow2 w -> y <> 0 ->
  (x = pow2 (w - 1) -> y <> pow2 w - 1) -> bvsmulo w (bvsdiv w x y) y = false.
Proof.
  intros Hw Hx Hy Hy0 Hno. pose proof (bvsdivo_min w Hw x y Hx Hy) as Ho. unfold bvsdivo in Ho.
  assert (in_signed_range w (Z.quot (sval w x) (sval w y)) = true) as Hr.
  { destruct (Z.eqb_spec y 0); [done|]. simpl in Ho. apply negb_false_iff. rewrite Ho.
    apply andb_false_iff. destruct (Z.eqb_spec x (pow2 (w - 1))) as [->|]; [right|by left]. apply Z.eqb_neq. auto. }
  pose proof Hr as Hs. rewrite in_signed_range_sval in Hs. apply Z.eqb_eq in Hs.
  unfold bvsmulo, bvsdiv. destruct (Z.eqb_spec y 0); [done|]. rewrite Hs. apply negb_false_iff.
  pose proof (sval_range w x Hx). assert (sval w y <> 0) as Hy' by (unfold sval; case_match; lia).
  unfold in_signed_range. destruct (Z.le_ge_cases 0 (sval w x)) as [H0|H0].
  - pose proof (Z.mul_quot_le (sval w x) (sval w y) H0 Hy'). lia.
  - pose proof (Z.mul_quot_ge (sval w x) (sval w y) H0 Hy'). lia.
Qed.

(** The high slice is neither all zeros nor all ones exactly when the product of
    the quotient and the divisor overflows. *)
Definition overflow_slice (t : TermId) (p : TermId * TermId * nat) : Prop :=
  let '(x, y, w) := p in
  width_at ns x = Some w /\ width_at ns y = Some w /\ width_at ns t = Some (w + 1)%nat /\
  (bvsmulo w (bvsdiv w (V x) (V y)) (V y) = false -> V t = 0 \/ V t = pow2 (w + 1) - 1).

Lemma product_operands_gives a b high low :
  gives (fun o => forall x y w, o = Some (x, y, w) ->
    width_at ns x = Some w /\ width_at ns y = Some w /\ width_at ns a = Some (w + w)%nat /\
    V a = bvsext w w (bvsdiv w (V x) (V y)) /\ V b = bvsext w w (V y) /\
    low = (w - 1)%nat /\ (high + 1 = w * 2)%nat)
    (signed_division_product_parts_from_operands q a b high low).
Proof.
  unfold signed_division_product_parts_from_operands.
  eapply gives_bind; [apply sign_extend_gives|]. intros [[[u uw] ue]|] Hu; [|done].
  destruct (Hu _ _ _ eq_refl) as (Huw & Eu & Hau).
  eapply gives_bind; [apply sign_extend_gives|]. intros [[[d dw] de]|] Hd; [|done].
  destruct (Hd _ _ _ eq_refl) as (Hdw & Ed & Hbd).
  destruct (Nat.eqb_spec uw dw) as [<-|]; simpl; [|done].
  destruct (Nat.eqb_spec ue uw) as [->|]; simpl; [|done]. destruct (Nat.eqb_spec de uw) as [->|]; simpl; [|done].
  destruct (Nat.eqb_spec low (uw - 1)) as [->|]; simpl; [|done].
  destruct (Nat.eqb_spec (high + 1) (uw * 2)) as [Eh|]; simpl; [|done].
  apply node_bind. intros [k s] Hn. apply gives_ok. simpl. destruct k; try done.
  match goal with |- context [(?y =? d)%nat] => destruct (Nat.eqb_spec y d) as [->|]; [|done] end.
  intros x y w [= <- <- <-].
  destruct (binary_value bvsdiv _ _ _ _ _ Hn eq_refl eq_refl) as (w & E & Hu' & Hx & Hy & _).
  rewrite Huw in Hu'. injection Hu' as <-. rewrite Eu, Ed, E. split_and!; done.
Qed.

Lemma slice_value t c a b x y w high low s : ns !! t = Some (mkNode (BvExtract c high low) s) ->
  width_at ns x = Some w -> width_at ns y = Some w ->
  V c = bvmul (w + w) (V a) (V b) -> V a = bvsext w w (bvsdiv w (V x) (V y)) -> V b = bvsext w w (V y) ->
  low = (w - 1)%nat -> (high + 1 = w * 2)%nat -> overflow_slice t (x, y, w).
Proof.
  intros Hn Hx Hy Ec Ea Eb -> Eh. pose proof (width_legal _ _ _ Hwt Hx) as Hw.
  split_and!; [done..| |].
  - pose proof (query_node_typed _ _ _ Hn) as Ht. simpl in Ht.
    destruct (width_at ns c) as [wc|]; [|done]. simpl in Ht. apply when_Some in Ht as [_ <-].
    unfold width_at. rewrite Hn. simpl. do 2 f_equal. lia.
  - intros Hno. rewrite (extract_value _ _ _ _ _ Hn), Ec, Ea, Eb. unfold bvextract.
    rewrite Z.shiftr_div_pow2 by lia. replace (high - (w - 1) + 1)%nat with (w + 1)%nat by lia.
    assert (bvmul (w + w) (bvsext w w (bvsdiv w (V x) (V y))) (bvsext w w (V y))
      = wrap (w + w) (sval w (bvsdiv w (V x) (V y)) * sval w (V y))) as -> by apply wrap_mul.
    apply signed_fits; [lia|]. unfold bvsmulo in Hno. by apply negb_false_iff in Hno.
Qed.

Lemma slice_parts_gives t : gives (fun o => forall p, o = Some p -> overflow_slice t p)
  (signed_division_product_high_slice_parts q t).
Proof.
  apply node_bind. intros [k s] Hn. simpl. destruct k; try done.
  apply node_bind. intros [kc sc] Hc. simpl. destruct kc; try done.
  destruct (binary_value bvmul _ _ _ _ _ Hc eq_refl eq_refl) as (w & E & _ & Ha & Hb & _).
  eapply gives_bind; [apply product_operands_gives|]. intros [[[x y] w']|] Hp.
  - apply gives_ok. intros p [= <-]. destruct (Hp _ _ _ eq_refl) as (Hx & Hy & Hw & Ea & Eb & El & Eh).
    rewrite Ha in Hw. injection Hw as ->. by eapply slice_value.
  - eapply gives_mono; [apply product_operands_gives|]. intros o Ho [[x y] w'] Eo.
    destruct (Ho _ _ _ Eo) as (Hx & Hy & Hw & Ea & Eb & El & Eh). rewrite Hb in Hw. injection Hw as ->.
    eapply slice_value; [exact Hn|done|done| |exact Ea|exact Eb|done|done]. by rewrite E, bvmul_comm.
Qed.

Lemma disequality_const_reports l t (test : Query -> TermId -> res bool) z :
  (forall a b, (a, b) ∈ l -> sat -> V a <> V b) -> (forall c, reports (V c = z) (test q c)) ->
  reports (sat -> V t <> z) (has_disequality_with_const q l t test).
Proof.
  intros Hd Ht. apply any_of_reports. intros [a b] Hin. specialize (Hd a b Hin). cbn [fst snd].
  apply reports_or; apply reports_same; intros ->; (eapply reports_mono; [apply Ht|]); intros E Hs;
    specialize (Hd Hs); congruence.
Qed.

Lemma find_bvnot_spec t l : forall i c, find_bvnot t l i = Some c ->
  Z.of_nat (i + length l) <= 2 ^ 32 ->
  exists j s, c = (i + j)%nat /\ l !! j = Some (mkNode (BvNot t) s).
Proof.
  induction l as [|[k s] l IH]; intros i c; [done|]. simpl. intros H Hl.
  assert (forall c, find_bvnot t l (S i) = Some c -> exists j s', c = (i + j)%nat /\ (mkNode k s :: l) !! j = Some (mkNode (BvNot t) s')) as Hrest.
  { intros c' Hc. destruct (IH _ _ Hc) as (j & s' & -> & Hj); [lia|]. exists (S j), s'. split; [lia|done]. }
  destruct k; try (by apply Hrest). destruct (Nat.eqb_spec x t) as [->|]; [|by apply Hrest].
  injection H as <-. exists 0%nat, s. rewrite u32_small by lia. split; [lia|done].
Qed.

Lemma bvnot_reports t l : (forall a b, (a, b) ∈ l -> sat -> V a <> V b) ->
  reports (forall w, width_at ns t = Some w -> sat -> V t <> pow2 w - 1) (has_bvnot_disequality_to_zero q t l).
Proof.
  intros Hd. unfold has_bvnot_disequality_to_zero. destruct (find_bvnot t _ 0) as [c|] eqn:Ec; [|done].
  apply find_bvnot_spec in Ec as (j & s & -> & Hc).
  2: { pose proof (well_formed_length q Hwf). lia. }
  eapply reports_mono; [apply disequality_const_reports; [done|apply is_zero_reports]|].
  intros Hne w Hw Hs E. apply (Hne Hs). simpl. fold ns in Hc.
  unfold V, sem_bv. rewrite (value_of _ _ _ Hc). simpl. destruct (range t w Hw) as [-> _].
  fold (V t). rewrite E. unfold bvnot. lia.
Qed.
Lemma eq_to_reports test z t v w : (forall c, reports (V c = z) (test q c w)) ->
  reports (T t = (V v =? z)) (is_eq_to test q t v w).
Proof.
  intros Ht. apply reports_node. intros [k s] Hn. simpl. destruct k; try done.
  apply reports_or; apply reports_same; intros ->; (eapply reports_mono; [apply Ht|]); intros <-;
    rewrite (bv_eq_value _ _ _ _ Hn); [done|apply Z.eqb_sym].
Qed.

(** The operands at which a signed division overflows. *)
Definition overflowing (x y : TermId) (w : nat) : bool := (V y =? pow2 w - 1) && (V x =? pow2 (w - 1)).

Lemma conjunction_reports t x y w : reports ((exists a b s, ns !! t = Some (mkNode (BoolAnd a b) s)) /\
  T t = overflowing x y w) (is_signed_division_overflow_conjunction q t x y w).
Proof.
  apply reports_node. intros [k s] Hn. simpl. destruct k; try done.
  assert (forall c, reports (V c = pow2 w - 1) (is_all_ones_bv_const q c w)) as Ho.
  { intros c. eapply reports_mono; [apply is_all_ones_reports|]. by intros [? _]. }
  assert (forall c, reports (V c = pow2 (w - 1)) (is_signed_min_bv_const q c w)) as Hm
    by (intros c; apply is_signed_min_reports).
  assert (T t = T a && T b) as Et by (unfold T at 1, sem_bool; by rewrite (value_of _ _ _ Hn)).
  apply reports_or; (eapply reports_mono;
    [apply reports_and; [apply (eq_to_reports _ _ _ _ _ Ho)|apply (eq_to_reports _ _ _ _ _ Hm)]|]);
    intros [E1 E2]; (split; [by eexists _, _, _|]); rewrite Et, E1, E2; [done|apply andb_comm].
Qed.

(** A hit of the walk is the negation of a conjunction, met through conjunctions
    and disjunctions. *)
Lemma guard_met fuel : forall t x y w, (t < fuel)%nat ->
  reports (exists g c a b s s', within ns t g /\ ns !! g = Some (mkNode (BoolNot c) s) /\
    ns !! c = Some (mkNode (BoolAnd a b) s')) (contains_signed_division_overflow_guard q fuel t x y w).
Proof.
  induction fuel as [|fuel IH]; intros t x y w Hf; [lia|]. cbn [contains_signed_division_overflow_guard].
  apply reports_node. intros [k s] Hn. cbn [kind]. pose proof (fun x => operand_lt t _ x Hn) as Hlt. simpl in Hlt.
  assert (forall a b, or_kind k = Some (a, b) \/ and_kind k = Some (a, b) ->
    reports (exists g c a b s s', within ns t g /\ ns !! g = Some (mkNode (BoolNot c) s) /\
      ns !! c = Some (mkNode (BoolAnd a b) s'))
      (res_or (contains_signed_division_overflow_guard q fuel a x y w)
         (contains_signed_division_overflow_guard q fuel b x y w))) as Hab.
  { intros a b Hk. assert (a < t /\ b < t)%nat as [Ha Hb].
    { split; apply Hlt; destruct Hk as [Hk|Hk]; destruct k; try done; injection Hk as -> ->; simpl; set_solver. }
    apply reports_or; (eapply reports_mono; [apply IH; lia|]); intros (g & c & a' & b' & s1 & s2 & Hw & ? & ?);
      exists g, c, a', b', s1, s2; (split; [|done]); (eapply within_step; [exact Hn|exact Hk| |exact Hw]); auto. }
  destruct k; try done; [|by apply Hab; right|by apply Hab; left].
  eapply reports_mono; [apply conjunction_reports|]. intros [(a & b & s' & Hc) _].
  exists t, x0, a, b, s, s'. split; [constructor|done].
Qed.

Lemma guard_holds fuel : forall t x y w, (t < fuel)%nat ->
  reports (regular ns -> T t = true -> overflowing x y w = false) (contains_signed_division_overflow_guard q fuel t x y w).
Proof.
  induction fuel as [|fuel IH]; intros t x y w Hf; [lia|]. cbn [contains_signed_division_overflow_guard].
  apply reports_node. intros [k s] Hn. cbn [kind]. pose proof (fun x => operand_lt t _ x Hn) as Hlt. simpl in Hlt.
  assert (forall z, sem_kind env t vals k = VBool z -> T t = z) as Ht.
  { intros z Hz. unfold T, sem_bool. by rewrite (value_of _ _ _ Hn), Hz. }
  destruct k; try done.
  - eapply reports_mono; [apply conjunction_reports|]. intros [_ E] _. rewrite (Ht _ eq_refl). fold (T x0). rewrite E.
    apply negb_true_iff.
  - assert (a < t /\ b < t)%nat as [Ha Hb] by (split; apply Hlt; set_solver).
    rewrite (Ht _ eq_refl). fold (T a) (T b).
    apply reports_or; (eapply reports_mono; [apply IH; lia|]); intros H Hrg [??]%andb_true_iff; auto.
  - assert (a < t /\ b < t)%nat as [Ha Hb] by (split; apply Hlt; set_solver).
    apply reports_or; (eapply reports_mono; [apply guard_met; lia|]);
      intros (g & c & a' & b' & s1 & s2 & Hw & Hg & Hc) Hrg _; exfalso;
      (eapply (rg_guards _ Hrg); [exact Hn| |exact Hw|exact Hg|exact Hc]); auto.
Qed.

Lemma signed_guard_reports :
  reports (regular ns -> ~ sat) (has_signed_division_multiply_overflow_guard_contradiction q).
Proof.
  unfold has_signed_division_multiply_overflow_guard_contradiction.
  eapply reports_bind; [apply bv_pairs_gives|]. intros [eqs neqs] [_ Hd]. cbn [fst snd] in *.
  apply any_of_reports. intros [a b] Hin. cbn [fst snd].
  set (hit := fun h => forall w, width_at ns h = Some w -> sat -> V h <> 0 /\ V h <> pow2 w - 1).
  assert (forall h z, (sat -> V h <> V z) -> reports (hit h)
    (res_and (is_zero_bv_const q z) (has_bvnot_disequality_to_zero q h neqs))) as Hhit.
  { intros h z Hne. eapply reports_mono; [apply reports_and; [apply is_zero_reports|by apply bvnot_reports]|].
    intros [Ez Hn] w Hw Hs. split; [rewrite <- Ez; auto|by apply Hn]. }
  eapply reports_bind; [apply Hhit; by apply (Hd a b)|]. intros l Hl.
  eapply reports_bind with (P := fun o => forall h, o = Some h -> hit h).
  { destruct l; [apply gives_ok; intros h [= <-]; auto|].
    eapply gives_bind; [apply (Hhit b a)|]. { intros Hs E. by apply (Hd a b Hin Hs). }
    intros r Hr h. destruct r; [intros [= <-]; auto|done]. }
  intros [h|] Hh; [|done]. specialize (Hh h eq_refl).
  eapply reports_bind; [apply slice_parts_gives|]. intros [[[x y] w]|] Hp; [|done].
  destruct (Hp _ eq_refl) as (Hx & Hy & Hw & Hslice).
  eapply reports_mono.
  { apply reports_and; [apply disequality_const_reports; [done|apply is_zero_reports]|].
    apply (any_of_reports (regular ns -> sat -> overflowing x y w = false)). intros r Hr.
    eapply reports_mono; [apply guard_holds; lia|]. intros H Hrg Hs. apply (H Hrg). by apply root_holds. }
  intros [Hy0 Hov] Hrg Hs. destruct (Hh _ Hw Hs) as [H0 H1].
  destruct (range x w Hx) as [_ Rx], (range y w Hy) as [_ Ry]. pose proof (width_legal _ _ _ Hwt Hx).
  destruct Hslice as [E|E]; [|done..]. apply quotient_product; [lia|done|done|auto|].
  intros Ex Ey. specialize (Hov Hrg Hs). unfold overflowing in Hov. rewrite Ex, Ey, !Z.eqb_refl in Hov. done.
Qed.

(** ** [favaro_mba.rs] *)

Lemma lxor_split x y : Z.lxor x y = x - y + 2 * Z.ldiff y x.
Proof.
  assert (forall a b, Z.land a b + Z.ldiff a b = a) as Hs.
  { intros a b. rewrite Z.add_nocarry_lxor.
    - apply Z.bits_inj'. intros i Hi. rewrite Z.lxor_spec, Z.land_spec, Z.ldiff_spec.
      by destruct (Z.testbit a i), (Z.testbit b i).
    - apply Z.bits_inj'. intros i Hi. rewrite !Z.land_spec, Z.ldiff_spec, Z.bits_0.
      by destruct (Z.testbit a i), (Z.testbit b i). }
  assert (Z.ldiff x y + Z.ldiff y x = Z.lxor x y) as <-.
  { rewrite Z.add_nocarry_lxor.
    - apply Z.bits_inj'. intros i Hi. rewrite !Z.lxor_spec, !Z.ldiff_spec.
      by destruct (Z.testbit x i), (Z.testbit y i).
    - apply Z.bits_inj'. intros i Hi. rewrite Z.land_spec, !Z.ldiff_spec, Z.bits_0.
      by destruct (Z.testbit x i), (Z.testbit y i). }
  pose proof (Hs x y). pose proof (Hs y x) as H2. rewrite Z.land_comm in H2. lia.
Qed.

Lemma bvnot_bits w y i : 0 <= y < pow2 w -> 0 <= i -> Z.testbit (bvnot w y) i = (i <? Z.of_nat w) && negb (Z.testbit y i).
Proof.
  intros Hy Hi. unfold bvnot. replace (pow2 w - 1 - y) with (Z.ldiff (Z.ones (Z.of_nat w)) y).
  - rewrite Z.ldiff_spec, Z.testbit_ones_nonneg by lia. done.
  - rewrite Z.sub_nocarry_ldiff; [by rewrite Z.ones_equiv|].
    apply Z.bits_inj'. intros j Hj. rewrite Z.ldiff_spec, Z.bits_0.
    destruct (Z.ltb_spec j (Z.of_nat w)).
    + replace (pow2 w - 1) with (Z.ones (Z.of_nat w)) by (by rewrite Z.ones_equiv).
      rewrite Z.testbit_ones_nonneg by lia. rewrite (proj2 (Z.ltb_lt _ _)) by lia. by rewrite andb_false_r.
    + by rewrite (testbit_high w y j).
Qed.

Lemma or_not_value w x y : 0 <= x < pow2 w -> 0 <= y < pow2 w ->
  Z.lor x (bvnot w y) = pow2 w - 1 - Z.ldiff y x.
Proof.
  intros Hx Hy. apply (Z.add_cancel_r _ _ (Z.ldiff y x)). rewrite Z.sub_add.
  rewrite Z.add_nocarry_lxor.
  - replace (pow2 w - 1) with (Z.ones (Z.of_nat w)) by (by rewrite Z.ones_equiv).
    apply Z.bits_inj'. intros i Hi. rewrite Z.lxor_spec, Z.lor_spec, Z.ldiff_spec, bvnot_bits by done.
    rewrite Z.testbit_ones_nonneg by lia. destruct (Z.ltb_spec i (Z.of_nat w)).
    + by destruct (Z.testbit x i), (Z.testbit y i).
    + by rewrite (testbit_high w y i), (testbit_high w x i).
  - apply Z.bits_inj'. intros i Hi. rewrite Z.land_spec, Z.lor_spec, Z.ldiff_spec, bvnot_bits, Z.bits_0 by done.
    destruct (_ <? _), (Z.testbit x i), (Z.testbit y i); done.
Qed.

Lemma and_not_self w y : 0 <= y < pow2 w -> Z.land y (bvnot w y) = 0.
Proof.
  intros Hy. apply Z.bits_inj'. intros i Hi. rewrite Z.land_spec, bvnot_bits, Z.bits_0 by done.
  destruct (_ <? _), (Z.testbit y i); done.
Qed.

Lemma is_bv_not_reports c t : reports (exists w, width_at ns t = Some w /\ V c = bvnot w (V t)) (is_bv_not_of q c t).
Proof.
  apply reports_node. intros [k s] Hn. apply gives_ok. simpl. destruct k; try done.
  intros ->%Nat.eqb_eq. pose proof (query_node_typed _ _ _ Hn) as Ht. simpl in Ht.
  destruct (width_at ns t) as [w|] eqn:Hw; [|done]. exists w. split; [done|].
  unfold V at 1, sem_bv. rewrite (value_of _ _ _ Hn). simpl. by destruct (range t w Hw) as [-> _].
Qed.

Lemma a1_reports a1 x y : reports (V a1 = Z.lxor (V x) (V y)) (favaro_a1_matches q a1 x y).
Proof.
  unfold favaro_a1_matches.
  eapply reports_bind; [apply (sort_gives (fun s => exists n, ns !! y = Some n /\ sort n = s)); eauto|].
  intros [|w] (ny & Hy & Es); [done|].
  assert (width_at ns y = Some w) as Hwy by (unfold width_at; rewrite Hy; simpl; by rewrite Es).
  apply reports_node. intros [k1 s1] H1. simpl. destruct k1; try done. rename a into pre, b into shl.
  apply reports_node. intros [k2 s2] H2. simpl. destruct k2; try done. rename a into pre2, b into y'.
  destruct (Nat.eqb_spec y' y) as [->|]; simpl; [|done].
  apply reports_node. intros [k3 s3] H3. simpl. destruct k3; try done. rename a into x', b into two.
  destruct (binary_value bvsub _ _ _ _ _ H1 eq_refl eq_refl) as (w1 & E1 & _ & W1 & W1' & _).
  destruct (binary_value bvsub _ _ _ _ _ H2 eq_refl eq_refl) as (w2 & E2 & W2 & W2' & W2'' & _).
  destruct (binary_value bvsub _ _ _ _ _ H3 eq_refl eq_refl) as (w3 & E3 & W3 & W3' & _).
  assert (w2 = w) as -> by congruence. assert (w1 = w) as -> by congruence. assert (w3 = w) as -> by congruence.
  eapply reports_bind.
  { apply (reports_same (x' = x /\ V two = 2)). intros ->. eapply reports_mono; [apply is_small_reports; lia|].
    by intros [? _]. }
  intros [] Hx2; simpl; [|done]. destruct (Hx2 eq_refl) as [-> Etwo].
  apply reports_node. intros [k4 s4] H4. simpl. destruct k4; try done. rename a into or_term, b into one.
  destruct (binary_value bvshl _ _ _ _ _ H4 eq_refl eq_refl) as (w4 & E4 & W4 & W4' & _).
  assert (w4 = w) as -> by congruence.
  eapply reports_bind; [apply (is_small_reports one w 1); lia|]. intros [] Hone; simpl; [|done].
  destruct (Hone eq_refl) as [Eone _].
  apply reports_node. intros [k5 s5] H5. simpl. destruct k5; try done. rename a into lhs, b into rhs.
  destruct (binary_value (fun _ => Z.lor) _ _ _ _ _ H5 eq_refl eq_refl) as (w5 & E5 & _).
  destruct (range x w W3') as [_ Rx], (range y w Hwy) as [_ Ry].
  assert (V or_term = Z.lor (V x) (bvnot w (V y)) -> V a1 = Z.lxor (V x) (V y)) as Hfinal.
  { intros Eor. rewrite E1, E2, E3, E4, Eor, Etwo, Eone, or_not_value, lxor_split by done.
    apply (eqm_range w); [apply bvsub_bound| |].
    { rewrite <- lxor_split. by apply lxor_bound. }
    rewrite !eqm_bvsub, eqm_bvshl by lia. rewrite eqm_pow2. apply eqm_eq. lia. }
  apply reports_or; apply reports_same; intros ->; (eapply reports_mono; [apply is_bv_not_reports|]);
    intros (w6 & W6 & E6); rewrite Hwy in W6; injection W6 as <-; apply Hfinal; rewrite E5, E6; [done|apply Z.lor_comm].
Qed.

Lemma favaro_z_reports z y : reports (V z = V y) (favaro_z_matches q z y).
Proof.
  apply reports_node. intros [k s] Hn. simpl. destruct k; try done.
  destruct (binary_value (fun _ => Z.lxor) _ _ _ _ _ Hn eq_refl eq_refl) as (w & E & _).
  apply reports_or; (eapply reports_mono; [apply a1_reports|]); intros Ea; rewrite E, Ea.
  - by rewrite (Z.lxor_comm (V b)), Z.lxor_assoc, Z.lxor_nilpotent, Z.lxor_0_r.
  - by rewrite <- Z.lxor_assoc, Z.lxor_nilpotent, Z.lxor_0_l.
Qed.

(** Products that agree with the square, and with zero, once [z] is known to be [y]. *)
Lemma contains_gives t y : gives (fun l => forall z, z ∈ l -> exists a b s, ns !! t = Some (mkNode (BvOr a b) s) /\
  (a = y /\ b = z \/ a = z /\ b = y)) (bv_binary_other_if_contains q t y bvor_kind).
Proof.
  eapply gives_bind; [apply parts_by_gives|]. intros [[a b]|] Hp; [|by intros z ?%elem_of_nil].
  destruct (Hp a b eq_refl) as ([k s] & Hn & Hk). destruct k; try done. injection Hk as -> ->.
  apply gives_ok. intros z Hz. exists a, b, s. split; [done|].
  destruct (Nat.eqb_spec a y), (Nat.eqb_spec b y); set_solver.
Qed.

Lemma contains_pair_reports t x y : reports (exists a b s, ns !! t = Some (mkNode (BvAnd a b) s) /\
  (a = x /\ b = y \/ a = y /\ b = x)) (bv_binary_contains_pair q t x y bvand_kind).
Proof.
  eapply reports_bind; [apply parts_by_gives|]. intros [[a b]|] Hp; [|done].
  destruct (Hp a b eq_refl) as ([k s] & Hn & Hk). destruct k; try done. injection Hk as -> ->.
  apply gives_ok. unfold same_unordered_pair. intros H. exists a, b, s. split; [done|].
  apply orb_true_iff in H as [[->%Nat.eqb_eq ->%Nat.eqb_eq]%andb_true_iff|[->%Nat.eqb_eq ->%Nat.eqb_eq]%andb_true_iff]; auto.
Qed.

Lemma product1_gives t y : gives (fun o => forall z, o = Some z ->
  exists w, width_at ns y = Some w /\ (V z = V y -> V t = bvmul w (V y) (V y))) (favaro_product1_z q t y).
Proof.
  eapply gives_bind; [apply parts_by_gives|]. intros [[l r]|] Hp; [|done].
  destruct (Hp l r eq_refl) as ([k s] & Hn & Hk). destruct k; try done. injection Hk as -> ->.
  destruct (binary_value bvmul _ _ _ _ _ Hn eq_refl eq_refl) as (w & E & _ & Wl & Wr & _).
  apply first_some_gives. intros [ot at_] Hin.
  assert (width_at ns ot = Some w /\ V t = bvmul w (V ot) (V at_)) as [Wo Et].
  { rewrite !elem_of_cons, elem_of_nil in Hin. destruct Hin as [[= -> ->]|[[= -> ->]|[]]]; [done|].
    by rewrite bvmul_comm. }
  cbn [fst snd]. eapply gives_bind; [apply contains_gives|]. intros zs Hzs.
  apply first_some_gives. intros z (a & b & so & Ho & Hab)%Hzs.
  eapply gives_bind; [apply contains_pair_reports|]. intros [] Hf z'; [|done]. intros [= <-].
  destruct (Hf eq_refl) as (c & d & sa & Ha & Hcd).
  destruct (binary_value (fun _ => Z.lor) _ _ _ _ _ Ho eq_refl eq_refl) as (w1 & Eo & W1 & Wa & Wb & _).
  destruct (binary_value (fun _ => Z.land) _ _ _ _ _ Ha eq_refl eq_refl) as (w2 & Ea & _).
  rewrite Wo in W1. injection W1 as <-. exists w. split; [by destruct Hab as [[-> ->]|[-> ->]]|].
  intros Ez. rewrite Et, Eo, Ea.
  destruct Hab as [[-> ->]|[-> ->]], Hcd as [[-> ->]|[-> ->]]; by rewrite Ez, Z.lor_diag, Z.land_diag.
Qed.

Lemma and_not_reports t p n : reports (V p = V n -> V t = 0) (favaro_and_not_pair q t p n).
Proof.
  eapply reports_bind; [apply parts_by_gives|]. intros [[l r]|] Hp; [|done].
  destruct (Hp l r eq_refl) as ([k s] & Hn & Hk). destruct k; try done. injection Hk as -> ->.
  destruct (binary_value (fun _ => Z.land) _ _ _ _ _ Hn eq_refl eq_refl) as (w & E & _ & Wl & Wr & Rl & Rr).
  apply reports_or; apply reports_same; intros ->; (eapply reports_mono; [apply is_bv_not_reports|]);
    intros (w' & Wn & Ec) Epn; rewrite E, Ec; destruct (range n w' Wn) as [_ Rn]; rewrite Epn.
  - by apply and_not_self.
  - rewrite Z.land_comm. by apply and_not_self.
Qed.

Lemma product2_reports t y z : reports (V z = V y -> V t = 0) (favaro_product2_matches q t y z).
Proof.
  eapply reports_bind; [apply parts_by_gives|]. intros [[l r]|] Hp; [|done].
  destruct (Hp l r eq_refl) as ([k s] & Hn & Hk). destruct k; try done. injection Hk as -> ->.
  destruct (binary_value bvmul _ _ _ _ _ Hn eq_refl eq_refl) as (w & E & _).
  apply reports_or; (eapply reports_mono; [apply reports_and; apply and_not_reports|]); intros [H1 H2] Ez; rewrite E.
  - rewrite H1 by done. apply bvmul_0.
  - rewrite (H2 ltac:(done)). apply bvmul_0.
Qed.

Lemma mba_reports e sq : reports (V e = V sq) (favaro_mba_matches q e sq).
Proof.
  eapply reports_bind; [apply parts_by_gives|]. intros [[y y']|] Hp; [|done].
  destruct (Hp y y' eq_refl) as ([k s] & Hn & Hk). destruct k; try done. injection Hk as -> ->.
  destruct (Nat.eqb_spec y y') as [<-|]; cbn [negb]; [|done].
  destruct (binary_value bvmul _ _ _ _ _ Hn eq_refl eq_refl) as (w & E & _ & Wy & _ & Ry & _).
  eapply reports_bind; [apply parts_by_gives|]. intros [[l r]|] Hp'; [|done].
  destruct (Hp' l r eq_refl) as ([k' s'] & Hn' & Hk'). destruct k'; try done. injection Hk' as -> ->.
  destruct (binary_value bvadd _ _ _ _ _ Hn' eq_refl eq_refl) as (w' & E' & _ & Wl & Wr & Rl & Rr).
  apply any_of_reports. intros [p1 p2] Hin. cbn [fst snd].
  assert (V e = bvadd w' (V p1) (V p2) /\ 0 <= V p1 < pow2 w') as [Ee R1].
  { rewrite !elem_of_cons, elem_of_nil in Hin. destruct Hin as [[= -> ->]|[[= -> ->]|[]]]; [done|].
    by rewrite bvadd_comm. }
  eapply reports_bind; [apply product1_gives|]. intros [z|] Hz; [|done].
  destruct (Hz z eq_refl) as (wz & Wz & H1). rewrite Wy in Wz. injection Wz as <-.
  eapply reports_mono; [apply reports_and; [apply product2_reports|apply favaro_z_reports]|].
  intros [H2 Ez]. rewrite Ee, H2, bvadd_comm, bvadd_0, H1, E by done. done.
Qed.

Lemma favaro_reports : reports (~ sat) (has_favaro_mba_mul_contradiction q).
Proof.
  unfold has_favaro_mba_mul_contradiction. destruct (_ || _); [done|].
  eapply reports_bind; [apply assertion_conjuncts_gives|]. intros leaves Hl.
  apply any_of_reports. intros leaf Hin. apply reports_node. intros [k s] Hn. simpl. destruct k; try done.
  eapply reports_bind; [apply parts_by_gives|]. intros [[a b]|] Hp; [|done].
  destruct (Hp a b eq_refl) as ([k' s'] & He & Hk). destruct k'; try done. injection Hk as -> ->.
  assert (sat -> V a <> V b) as Hne.
  { intros Hs. specialize (Hl _ Hin Hs). unfold T, sem_bool in Hl. rewrite (value_of _ _ _ Hn) in Hl.
    simpl in Hl. fold (T x) in Hl. rewrite (bv_eq_value _ _ _ _ He) in Hl.
    by apply negb_true_iff, Z.eqb_neq in Hl. }
  apply reports_or; (eapply reports_mono; [apply mba_reports|]); intros E Hs; by apply (Hne Hs).
Qed.
(** ** [extensional.rs] *)

(** The bit of a term that an atom names. *)
Definition bit (a : BitUnionFind.atom) : bool := Z.testbit (V a.1) (Z.of_nat a.2).

Lemma extract_testbit high low v i : (i < high - low + 1)%nat ->
  Z.testbit (bvextract high low v) (Z.of_nat i) = Z.testbit v (Z.of_nat (low + i)).
Proof. intros Hi. rewrite testbit_extract. by rewrite (proj2 (Nat.ltb_lt _ _)). Qed.

Definition names_bits (t : TermId) (l : list BitUnionFind.atom) : Prop :=
  width_at ns t = Some (length l) /\ forall i a, l !! i = Some a -> Z.testbit (V t) (Z.of_nat i) = bit a.

Lemma bit_atoms_gives fuel : forall t, (t < fuel)%nat ->
  gives (fun o => forall l, o = Some l -> names_bits t l) (bit_atoms_from q fuel t).
Proof.
  induction fuel as [|fuel IH]; intros t Hf; [lia|]. cbn [bit_atoms_from].
  apply node_bind. intros [k s] Hn. cbn [kind]. pose proof (fun x => operand_lt t _ x Hn) as Hlt. simpl in Hlt.
  pose proof (query_node_typed _ _ _ Hn) as Hs. destruct k; try done.
  - apply gives_ok. intros l [= <-]. injection Hs as <-. split.
    + unfold width_at. rewrite Hn. simpl. by rewrite length_fmap, length_seq.
    + intros i a. rewrite list_lookup_fmap. intros (j & Hj & ->)%fmap_Some. apply lookup_seq in Hj as [-> _]. done.
  - apply gives_ok. intros l [= <-]. simpl in Hs. destruct (width_at ns child) as [w|] eqn:Hw; [|done].
    simpl in Hs. apply when_Some in Hs as [[Hlo%Nat.leb_le Hhi%Nat.ltb_lt]%andb_true_iff <-]. split.
    + unfold width_at. rewrite Hn. simpl. rewrite length_fmap, length_seq. f_equal. lia.
    + intros i a. rewrite list_lookup_fmap. intros (j & Hj & ->)%fmap_Some. apply lookup_seq in Hj as [-> Hi].
      rewrite (extract_value _ _ _ _ _ Hn), extract_testbit by lia. done.
  - assert (high < t /\ low < t)%nat as [Hh Hl] by (split; apply Hlt; set_solver).
    eapply gives_bind; [apply IH; lia|]. intros [ll|] Hll; [|done]. destruct (Hll _ eq_refl) as [Wl Bl].
    eapply gives_bind; [apply IH; lia|]. intros [lh|] Hlh; [|done]. destruct (Hlh _ eq_refl) as [Wh Bh].
    apply gives_ok. intros l [= <-]. simpl in Hs. rewrite Wh in Hs. simpl in Hs. rewrite Wl in Hs. simpl in Hs.
    injection Hs as <-. destruct (range low _ Wl) as [El Rl]. split.
    + unfold width_at. rewrite Hn. simpl. rewrite length_app. f_equal. lia.
    + intros i a Ha. unfold V at 1, sem_bv. rewrite (value_of _ _ _ Hn). cbn [sem_kind]. rewrite El.
      fold (V high) (V low). rewrite testbit_concat by done. destruct (Nat.ltb_spec i (length ll)) as [Hi|Hi].
      * apply Bl. by rewrite lookup_app_l in Ha.
      * apply Bh. by rewrite lookup_app_r in Ha.
Qed.

(** The extracted bits agree. *)
Definition extracts_agree (f : ForbiddenExtractEquality) : Prop :=
  forall a b, (a, b) ∈ forbidden_pairs f -> bit a = bit b.

Lemma extract_equality_gives a b : gives (fun o => forall f, o = Some f -> extracts_agree f -> V a = V b)
  (extract_equality q a b).
Proof.
  apply node_bind. intros [ka sa] Ha. cbn [kind]. destruct ka; try done. cbn [extract_kind].
  apply node_bind. intros [kb sb] Hb. apply gives_ok. cbn [kind]. destruct kb; try done. cbn [extract_kind].
  intros f. destruct (Nat.eqb_spec child child0) as [<-|]; simpl; [|done].
  destruct (Nat.eqb_spec (high - low) (high0 - low0)) as [E|]; simpl; [|done]. intros [= <-] Hag.
  rewrite (extract_value _ _ _ _ _ Ha), (extract_value _ _ _ _ _ Hb).
  apply (Z_ext_w (high - low + 1)).
  - apply Z.mod_pos_bound, pow2_pos.
  - rewrite E. apply Z.mod_pos_bound, pow2_pos.
  - intros i Hi. rewrite !extract_testbit by lia.
    apply (Hag (child, low + i)%nat (child, low0 + i)%nat). unfold forbidden_pairs. cbn [fe_child left_low right_low left_high].
    apply list_elem_of_fmap. exists i. split; [done|]. apply elem_of_seq. lia.
Qed.

Lemma forbidden_gives t : gives (fun o => forall f, o = Some f -> T t = true -> ~ extracts_agree f)
  (forbidden_extract_equality q t).
Proof.
  apply node_bind. intros [k s] Hn. cbn [kind]. destruct k; try done.
  apply node_bind. intros [kc sc] Hc. cbn [kind]. destruct kc; try done.
  eapply gives_mono; [apply extract_equality_gives|]. intros o Ho f E Ht Hag. specialize (Ho f E Hag).
  unfold T, sem_bool in Ht. rewrite (value_of _ _ _ Hn) in Ht. simpl in Ht. fold (T x) in Ht.
  rewrite (bv_eq_value _ _ _ _ Hc), Ho, Z.eqb_refl in Ht. done.
Qed.

Lemma forbidden_set_gives ls : gives (fun o => forall set, o = Some set -> existsb T ls = true ->
  exists f, f ∈ set /\ ~ extracts_agree f) (forbidden_set q ls).
Proof.
  induction ls as [|l ls IH]; simpl; [done|].
  eapply gives_bind; [apply forbidden_gives|]. intros [f|] Hf; [|done].
  eapply gives_bind; [apply IH|]. intros [set|] Hset; [|done]. simpl. intros ? [= <-].
  intros [Hl|Hls]%orb_true_iff.
  - exists f. split; [by constructor|]. by apply Hf.
  - destruct (Hset _ eq_refl Hls) as (g & Hg & ?). exists g. split; [by constructor|done].
Qed.

Definition sets_ok (sets : list (list ForbiddenExtractEquality)) : Prop :=
  forall set, set ∈ sets -> sat -> exists f, f ∈ set /\ ~ extracts_agree f.

Lemma collect_sets_gives fuel : forall t out, (t < fuel)%nat -> (sat -> T t = true) -> sets_ok out ->
  gives sets_ok (collect_forbidden_extract_sets_from q fuel t out).
Proof.
  induction fuel as [|fuel IH]; intros t out Hf Ht Ho; [lia|]. cbn [collect_forbidden_extract_sets_from].
  apply node_bind. intros [k s] Hn. cbn [kind]. pose proof (fun x => operand_lt t _ x Hn) as Hlt. simpl in Hlt.
  assert (gives sets_ok (leaves ← collect_bool_or_leaves q t [];
    set ← forbidden_set q leaves;
    Ok (match set with Some ((_ :: _) as set) => out ++ [set] | _ => out end))) as Hleaf.
  { eapply gives_bind; [apply collect_bool_or_leaves_gives|]. intros ls Hls.
    eapply gives_bind; [apply forbidden_set_gives|]. intros [[|f set]|] Hset; [done| |done].
    apply gives_ok. intros s' [?| ->%list_elem_of_singleton]%elem_of_app Hs; [by apply Ho|].
    apply Hset; [done|]. rewrite <- (or_leaves _ _ Hls). auto. }
  destruct k; try exact Hleaf.
  assert (a < t /\ b < t)%nat as [Ha Hb] by (split; apply Hlt; set_solver).
  assert (sat -> T a = true /\ T b = true) as Hab.
  { intros Hs. specialize (Ht Hs). unfold T, sem_bool in Ht. rewrite (value_of _ _ _ Hn) in Ht.
    by apply andb_true_iff in Ht. }
  eapply gives_bind; [apply IH; [lia|by intros [??]%Hab|done]|]. intros out' Ho'.
  apply IH; [lia|by intros [??]%Hab|done].
Qed.

Lemma collect_equalities_gives fuel : forall (c t : TermId) out, (t < fuel)%nat -> (T c = true -> T t = true) ->
  (forall a b, (a, b) ∈ out -> T c = true -> V a = V b) ->
  gives (fun out => forall a b, (a, b) ∈ out -> T c = true -> V a = V b) (collect_equalities_from q fuel t out).
Proof.
  induction fuel as [|fuel IH]; intros c t out Hf Ht Ho; [lia|]. cbn [collect_equalities_from].
  apply node_bind. intros [k s] Hn. cbn [kind]. pose proof (fun x => operand_lt t _ x Hn) as Hlt. simpl in Hlt.
  destruct k; try done.
  - assert (a < t /\ b < t)%nat as [Ha Hb] by (split; apply Hlt; set_solver).
    assert (T c = true -> T a = true /\ T b = true) as Hab.
    { intros Hs. specialize (Ht Hs). unfold T at 1, sem_bool in Ht. rewrite (value_of _ _ _ Hn) in Ht.
      by apply andb_true_iff in Ht. }
    eapply gives_bind; [apply (IH c a); [lia|by intros [??]%Hab|done]|]. intros out' Ho'.
    apply IH; [lia|by intros [??]%Hab|done].
  - apply gives_ok. intros x y [?|E%list_elem_of_singleton]%elem_of_app Hc; [by apply Ho|].
    injection E as -> ->. apply Z.eqb_eq. rewrite <- (bv_eq_value _ _ _ _ Hn). auto.
Qed.

(** *** One candidate *)

Section candidate.
Context (c : TermId).

(** What holds of two atoms when the candidate holds. *)
Definition bits_equal : relation BitUnionFind.atom := fun a b => T c = true -> bit a = bit b.

#[local] Instance bits_equal_equivalence : Equivalence bits_equal.
Proof.
  split; unfold bits_equal; [by intros a|intros a b H Hc; symmetry; auto|].
  intros x y z H1 H2 Hc. etransitivity; auto.
Qed.

(** The structure represents equalities that the candidate implies. *)
Definition implied (u : BitUnionFind.t) : Prop :=
  exists pairs, BitUnionFindFacts.rep u (closure pairs) /\ forall a b, (a, b) ∈ pairs -> bits_equal a b.

Lemma union_equalities_gives equalities : forall u useful,
  (forall a b, (a, b) ∈ equalities -> T c = true -> V a = V b) -> implied u ->
  gives (fun r => implied r.1) (union_equalities q equalities u useful).
Proof.
  induction equalities as [|[a b] equalities IH]; intros u useful He Hu; simpl; [done|].
  assert (forall x y, (x, y) ∈ equalities -> T c = true -> V x = V y) as He' by (intros x y H; apply He; by constructor).
  eapply gives_bind; [apply bit_atoms_gives; lia|]. intros [la|] Hla; [|by apply IH].
  eapply gives_bind; [apply bit_atoms_gives; lia|]. intros [lb|] Hlb; [|by apply IH].
  destruct (_ || _); [by apply IH|]. destruct (Hla _ eq_refl) as [_ Ba], (Hlb _ eq_refl) as [_ Bb].
  destruct Hu as (pairs & Hr & Hp).
  destruct (BitUnionFindFacts.bit_union_all_spec (zip la lb) u pairs Hr) as (u' & -> & Hr').
  cbn [mbind res_bind]. apply IH; [done|]. eexists. split; [exact Hr'|].
  intros x y [?|Hin]%elem_of_app; [by apply Hp|]. intros Hc.
  apply list_elem_of_lookup in Hin as [i Hi]. apply lookup_zip_Some in Hi as [Hx Hy].
  rewrite <- (Ba _ _ Hx), <- (Bb _ _ Hy). f_equal. apply He; [by constructor|done].
Qed.

Lemma implied_agree u f : implied u -> gives (fun r => implied r.2 /\ (r.1 = true -> T c = true -> extracts_agree f))
  (forbidden_extract_equality_implied u f).
Proof.
  intros (pairs & Hr & Hp). unfold forbidden_extract_equality_implied.
  destruct (BitUnionFindFacts.all_equivalent_spec _ (forbidden_pairs f) u Hr) as (v & u' & -> & Hr' & Hv).
  split; [by exists pairs|]. intros Ev Hc a b Hin.
  by apply (closure_incl bits_equal pairs _ _ _ Hp (proj1 (proj1 Hv Ev _ _ Hin))).
Qed.

Lemma all_implied_gives set : forall u, implied u ->
  gives (fun r => implied r.2 /\ (r.1 = true -> T c = true -> forall f, f ∈ set -> extracts_agree f)) (all_implied u set).
Proof.
  induction set as [|f set IH]; intros u Hu; simpl.
  { split; [done|]. intros _ _ f Hf. by apply elem_of_nil in Hf. }
  eapply gives_bind; [by apply implied_agree|]. intros [[] u'] [Hu' Hf]; [|done].
  eapply gives_mono; [by apply IH|]. intros [v u''] [Hu'' Hv]. split; [done|].
  intros E Hc g [->|Hg]%elem_of_cons; [by apply Hf|by apply Hv].
Qed.

Lemma any_set_implied_reports sets : forall u, implied u ->
  reports (exists set, set ∈ sets /\ (T c = true -> forall f, f ∈ set -> extracts_agree f)) (any_set_implied u sets).
Proof.
  induction sets as [|set sets IH]; intros u Hu; simpl; [done|].
  eapply reports_bind; [by apply all_implied_gives|]. intros [[] u'] [Hu' Hf].
  - apply gives_ok. intros _. exists set. split; [by constructor|]. by apply Hf.
  - eapply reports_mono; [by apply IH|]. intros (set' & Hin & H). exists set'. split; [by constructor|done].
Qed.

Lemma candidate_reports sets : sets_ok sets ->
  reports (sat -> T c = false) (candidate_contradicts_forbidden_extracts q c sets).
Proof.
  intros Hok. unfold candidate_contradicts_forbidden_extracts.
  eapply reports_bind.
  { apply (collect_equalities_gives (S c) c c); [lia|done|]. intros a b ?%elem_of_nil. done. }
  intros equalities He. destruct (_ =? _)%nat; [done|].
  eapply reports_bind; [apply union_equalities_gives; [exact He|]|].
  { exists []. split; [apply BitUnionFindFacts.default_rep|]. intros a b ?%elem_of_nil. done. }
  intros [u useful] Hu. cbn [fst snd]. destruct useful; simpl; [|done].
  eapply reports_mono; [by apply any_set_implied_reports|]. intros (set & Hin & Hag) Hs.
  destruct (Hok _ Hin Hs) as (f & Hf & Hn). destruct (T c); [|done]. by destruct Hn; apply Hag.
Qed.
End candidate.

Lemma disjunction_reports sets fuel : sets_ok sets -> forall t, (t < fuel)%nat ->
  reports (sat -> T t = false) (has_contradictory_candidate_disjunction_from q fuel t sets).
Proof.
  intros Hok. induction fuel as [|fuel IH]; intros t Hf; [lia|].
  cbn [has_contradictory_candidate_disjunction_from]. apply reports_node. intros [k s] Hn. cbn [kind].
  pose proof (fun x => operand_lt t _ x Hn) as Hlt. simpl in Hlt. destruct k; try done.
  - assert (a < t /\ b < t)%nat as [Ha Hb] by (split; apply Hlt; set_solver).
    assert (T t = T a && T b) as Et by (unfold T at 1, sem_bool; by rewrite (value_of _ _ _ Hn)).
    apply reports_or; (eapply reports_mono; [apply IH; lia|]); intros H Hs; rewrite Et, H by done; [done|apply andb_false_r].
  - eapply reports_bind; [apply collect_bool_or_leaves_gives|]. intros ls Hls. destruct (_ <? _)%nat; [done|].
    eapply reports_mono; [apply (all_of_reports (fun l => sat -> T l = false)); intros l Hl; by apply candidate_reports|].
    intros H Hs. rewrite (or_leaves _ _ Hls). apply not_true_is_false. intros (l & Hl%list_elem_of_In & El)%existsb_exists.
    by rewrite (H l Hl Hs) in El.
Qed.

Lemma extensional_reports : reports (~ sat) (has_extensional_candidate_contradiction q).
Proof.
  unfold has_extensional_candidate_contradiction.
  eapply reports_bind; [apply (collect_all_gives sets_ok)|].
  - intros r out Hr Ho. apply collect_sets_gives; [lia|by apply root_holds|done].
  - intros set ?%elem_of_nil. done.
  - intros sets Hok. destruct (_ =? _)%nat; [done|]. apply any_of_reports. intros r Hr.
    eapply reports_mono; [apply disjunction_reports; [done|lia]|]. intros H Hs.
    specialize (H Hs). by rewrite (root_holds r Hr Hs) in H.
Qed.

(** ** [lfsr.rs] *)

Lemma elem_dedup (l : list nat) x : x ∈ dedup_sorted l <-> x ∈ l.
Proof.
  induction l as [|a [|b l] IH]; [done|done|]. cbn [dedup_sorted] in *. case_decide as E.
  - subst b. rewrite IH. set_solver.
  - rewrite !elem_of_cons in *. rewrite IH. done.
Qed.

Lemma dedup_nodup (l : list nat) : NoDup l -> dedup_sorted l = l.
Proof.
  induction l as [|a [|b l] IH]; [done|done|]. intros [Ha Hl]%NoDup_cons. cbn [dedup_sorted] in *.
  rewrite decide_False by (intros ->; apply Ha; by constructor). by rewrite IH.
Qed.

Lemma elem_sort_dedup l x : x ∈ sort_dedup l <-> x ∈ l.
Proof. unfold sort_dedup. rewrite elem_dedup. by rewrite (merge_sort_Permutation le l). Qed.

Lemma sort_dedup_perm l : NoDup l -> sort_dedup l ≡ₚ l.
Proof.
  intros H. unfold sort_dedup. rewrite dedup_nodup; [apply merge_sort_Permutation|].
  by rewrite (merge_sort_Permutation le l).
Qed.

(** *** One step of a register *)

Definition xor_taps (v : Z) (taps : list nat) : bool :=
  foldr (fun tap => xorb (Z.testbit v (Z.of_nat tap))) false taps.

#[local] Instance xor_taps_perm v : Proper ((≡ₚ) ==> eq) (xor_taps v).
Proof.
  intros l k H. unfold xor_taps. induction H as [|x l k _ IH|x y l|l k m _ IH1 _ IH2]; simpl; [done| | |congruence].
  - by rewrite IH.
  - by destruct (Z.testbit v (Z.of_nat x)), (Z.testbit v (Z.of_nat y)), (foldr _ _ _).
Qed.

(** [v'] is [v] shifted by one, with the exclusive or of the taps shifted in. *)
Record stepped (w : nat) (taps : list nat) (v v' : Z) : Prop := {
  st_in : Z.testbit v' 0 = xor_taps v taps;
  st_shift : forall i, (S i < w)%nat -> Z.testbit v' (Z.of_nat (S i)) = Z.testbit v (Z.of_nat i);
}.

Lemma stepped_functional w taps v x y : 0 <= x < pow2 w -> 0 <= y < pow2 w ->
  stepped w taps v x -> stepped w taps v y -> x = y.
Proof.
  intros Hx Hy [H1 H2] [H3 H4]. apply (Z_ext_w w); [done|done|]. intros [|i] Hi.
  - change (Z.of_nat 0) with 0. congruence.
  - by rewrite H2, H4.
Qed.

(** The step can be undone when the last bit is tapped exactly once. *)
Lemma stepped_injective w taps u v x : 0 <= u < pow2 w -> 0 <= v < pow2 w ->
  NoDup taps -> (w - 1)%nat ∈ taps -> Forall (fun tap => tap < w)%nat taps ->
  stepped w taps u x -> stepped w taps v x -> u = v.
Proof.
  intros Hu Hv Hnd Hin Hlt [H1 H2] [H3 H4].
  assert (forall i, (S i < w)%nat -> Z.testbit u (Z.of_nat i) = Z.testbit v (Z.of_nat i)) as Hlow.
  { intros i Hi. by rewrite <- H2, H4. }
  apply (Z_ext_w w); [done|done|]. intros i Hi. destruct (decide (S i < w)%nat) as [|Hge]; [by apply Hlow|].
  replace i with (w - 1)%nat by lia. rewrite H1 in H3.
  apply elem_of_Permutation in Hin as [rest Hr]. rewrite Hr in H3, Hnd, Hlt. apply NoDup_cons in Hnd as [Hni _].
  apply Forall_cons in Hlt as [_ Hlt]. unfold xor_taps in H3. simpl in H3.
  assert (forall l : list nat, Forall (fun tap => tap < w)%nat l -> (w - 1)%nat ∉ l ->
    xor_taps u l = xor_taps v l) as Hrest.
  { unfold xor_taps. induction 1 as [|a l Ha _ IH]; [done|]. intros Hl. apply not_elem_of_cons in Hl as [Hne Hl]. simpl.
    rewrite Hlow by lia. by rewrite IH. }
  specialize (Hrest rest Hlt Hni). unfold xor_taps in Hrest. rewrite Hrest in H3. revert H3.
  generalize (foldr (fun tap => xorb (Z.testbit v (Z.of_nat tap))) false rest). intros z.
  by destruct z, (Z.testbit u _), (Z.testbit v _).
Qed.

Lemma xor_leaves t ls : leaves_of ns bvxor_kind t ls ->
  Z.testbit (V t) 0 = foldr (fun l => xorb (Z.testbit (V l) 0)) false ls.
Proof.
  induction 1 as [t n Hn Hk|t [k s] a b la lb Hn Hk _ IHa _ IHb]; [simpl; by rewrite xorb_false_r|].
  destruct k; try done. injection Hk as -> ->.
  destruct (binary_value (fun _ => Z.lxor) _ _ _ _ _ Hn eq_refl eq_refl) as (w & E & _).
  rewrite E, Z.lxor_spec, IHa, IHb, foldr_app. clear. set (z := foldr _ false lb). clearbody z.
  induction la as [|x la IH]; simpl; [by destruct z|]. rewrite <- IH. by destruct (Z.testbit (V x) 0), z, (foldr _ _ _).
Qed.

(** What the recogniser knows of a step it found. *)
Record step_found (t child : TermId) (sig : list nat) : Prop := {
  sf_width : exists w, width_at ns t = Some w /\ (2 <= w)%nat /\ (w - 1)%nat ∈ sig /\
    Forall (fun tap => tap < w)%nat sig;
  sf_shape : exists taps, step_shape ns t child taps /\ sig = sort_dedup taps;
  sf_high : forall high low s, ns !! t = Some (mkNode (BvConcat high low) s) -> exists w sh,
    width_at ns t = Some w /\ ns !! high = Some (mkNode (BvExtract child (w - 2) 0) sh);
}.

Lemma tap_gives child w x : gives (fun o => forall tap, o = Some tap -> (tap < w)%nat /\
  exists s, ns !! x = Some (mkNode (BvExtract child tap tap) s)) (lfsr_tap q child w x).
Proof.
  apply node_bind. intros [k s] Hn. apply gives_ok. cbn [kind]. intros tap.
  destruct k; try done. cbn [extract_kind]. destruct (Nat.eqb_spec child0 child) as [->|]; simpl; [|done].
  destruct (Nat.eqb_spec high low) as [->|]; simpl; [|done]. destruct (Nat.leb_spec w low); [done|].
  intros [= <-]. split; [done|by exists s].
Qed.

Lemma invertible_step_gives t : gives (fun o => forall child sig, o = Some (child, sig) -> step_found t child sig)
  (invertible_lfsr_step q t).
Proof.
  unfold invertible_lfsr_step.
  eapply gives_bind; [apply (sort_gives (fun s => exists n, ns !! t = Some n /\ sort n = s)); eauto|].
  intros [|w] (nt & Ht & Es); [done|].
  assert (width_at ns t = Some w) as Hw by (unfold width_at; rewrite Ht; simpl; by rewrite Es).
  destruct (Nat.ltb_spec w 2) as [|H2]; [done|]. apply node_bind. intros [k s] Hn. cbn [kind]. destruct k; try done.
  apply node_bind. intros [kh sh] Hh. cbn [kind]. destruct kh; try done. cbn [extract_kind].
  destruct (Nat.eqb_spec high0 (w - 2)) as [->|]; simpl; [|done]. destruct (Nat.eqb_spec low0 0) as [->|]; simpl; [|done].
  eapply gives_bind; [apply collect_leaves_gives; [apply picks_xor|lia]|]. intros xs (ls & -> & Hls). simpl.
  destruct (_ <? _)%nat; [done|]. eapply gives_bind; [apply all_some_gives; intros x _; apply tap_gives|].
  intros [taps|] Htaps; [|done]. specialize (Htaps _ eq_refl). apply gives_ok. intros c sig.
  case_bool_decide as Hin; [|done]. intros [= <- <-]. split.
  - exists w. split_and!; [done..|]. apply Forall_forall. intros tap Htap. rewrite elem_sort_dedup in Htap.
    apply list_elem_of_lookup in Htap as [i Hi]. destruct (Forall2_lookup_r _ _ _ _ _ Htaps Hi) as (x & _ & Hx & _). done.
  - exists taps. split; [|done]. exists high, low, (w - 2)%nat, s, sh, ls. split_and!; [done..|].
    eapply Forall2_impl; [exact Htaps|]. by intros x tap [_ ?].
  - intros h l s' Hn'. rewrite Hn in Hn'. injection Hn' as <- <- <-. by exists w, sh.
Qed.

Lemma step_value (Hrg : regular ns) t child sig : step_found t child sig -> exists w,
  width_at ns t = Some w /\ width_at ns child = Some w /\ NoDup sig /\ (w - 1)%nat ∈ sig /\
  Forall (fun tap => tap < w)%nat sig /\ stepped w sig (V child) (V t).
Proof.
  intros [(w & Hw & H2 & Hin & Hlt) (taps & Hshape & ->) Hhigh].
  destruct (rg_steps _ Hrg _ _ _ Hshape) as [Hc Hnd]. rewrite Hw in Hc.
  pose proof (sort_dedup_perm _ Hnd) as Hperm.
  exists w. split_and!; [done|done|by rewrite Hperm|done|done|].
  destruct Hshape as (high & low & hb & s & sh & xs & Hn & Hh & Hls & Htaps).
  destruct (Hhigh _ _ _ Hn) as (w' & sh' & Hw' & Hh'). rewrite Hw in Hw'. injection Hw' as <-.
  rewrite Hh in Hh'. injection Hh' as -> <-.
  pose proof (query_node_typed _ _ _ Hn) as Hs. simpl in Hs.
  destruct (width_at ns high) as [wh|] eqn:Ewh; [|done]. destruct (width_at ns low) as [wl|] eqn:Ewl; [|done].
  simpl in Hs. injection Hs as <-. unfold width_at in Hw. rewrite Hn in Hw. simpl in Hw. injection Hw as Ew.
  assert (wh = (w - 2 - 0 + 1)%nat) as ->.
  { pose proof (query_node_typed _ _ _ Hh) as Hs. simpl in Hs. rewrite Hc in Hs. simpl in Hs.
    apply when_Some in Hs as [_ <-]. unfold width_at in Ewh. rewrite Hh in Ewh. simpl in Ewh. congruence. }
  assert (wl = 1%nat) as -> by lia. destruct (range low _ Ewl) as [El Rl].
  assert (V t = bvconcat 1 (V high) (V low)) as Ev.
  { unfold V at 1, sem_bv. rewrite (value_of _ _ _ Hn). simpl. by rewrite El. }
  split.
  - rewrite Ev, (testbit_concat 1 _ _ 0 Rl : Z.testbit (bvconcat 1 (V high) (V low)) 0 = Z.testbit (V low) 0).
    rewrite (xor_leaves _ _ Hls), Hperm. unfold xor_taps.
    clear -Htaps Hwt. induction Htaps as [|x tap xs taps (s & Hx) _ IH]; [done|].
    simpl. rewrite IH. f_equal. rewrite (extract_value _ _ _ _ _ Hx).
    rewrite (extract_testbit tap tap _ 0 ltac:(lia) : Z.testbit (bvextract tap tap (V child)) 0 = _).
    by rewrite Nat.add_0_r.
  - intros i Hi. rewrite Ev, testbit_concat by done. simpl. rewrite Nat.sub_0_r, (extract_value _ _ _ _ _ Hh).
    by rewrite extract_testbit by lia.
Qed.

(** *** Transitions *)

(** The steps of a regular arena in an environment of the query. *)
Definition regular_sat : Prop := regular ns /\ sat.

(** What an asserted transition says. *)
Record transition_ok (tr : LfsrTransition) : Prop := {
  tr_width : regular_sat -> exists w, width_at ns (to tr) = Some w /\ width_at ns (from tr) = Some w /\ NoDup (signature tr) /\
    (w - 1)%nat ∈ signature tr /\ Forall (fun tap => tap < w)%nat (signature tr) /\
    (if T (reset tr) then V (to tr) = 0 else stepped w (signature tr) (V (from tr)) (V (to tr)));
}.

Lemma zero_side_gives t : gives (fun o => forall x, o = Some x -> T t = (V x =? 0)) (bv_eq_zero_side q t).
Proof.
  eapply gives_bind; [apply parts_by_gives|]. intros [[a b]|] Hp; [|done].
  destruct (Hp a b eq_refl) as ([k s] & Hn & Hk). destruct k; try done. injection Hk as -> ->.
  eapply gives_bind; [apply is_zero_reports|]. intros [] Ha.
  - apply gives_ok. intros x [= <-]. rewrite (bv_eq_value _ _ _ _ Hn), Ha by done. apply Z.eqb_sym.
  - eapply gives_bind; [apply is_zero_reports|]. intros [] Hb x; [|done]. intros [= <-].
    by rewrite (bv_eq_value _ _ _ _ Hn), Hb.
Qed.

Lemma step_side_gives t : gives (fun o => forall x child sig, o = Some (x, child, sig) -> exists u,
  step_found u child sig /\ width_at ns x = width_at ns u /\ T t = (V x =? V u)) (bv_eq_lfsr_step_side q t).
Proof.
  eapply gives_bind; [apply parts_by_gives|]. intros [[a b]|] Hp; [|done].
  destruct (Hp a b eq_refl) as ([k s] & Hn & Hk). destruct k; try done. injection Hk as -> ->.
  pose proof (query_node_typed _ _ _ Hn) as Hs. simpl in Hs.
  destruct (binary_width ns a b) as [w|] eqn:E; [|done]. apply binary_width_Some in E as [Wa Wb].
  eapply gives_bind; [apply invertible_step_gives|]. intros [[child sig]|] Ha.
  - apply gives_ok. intros x c sg [= <- <- <-]. exists a. split_and!; [by apply Ha|congruence|].
    rewrite (bv_eq_value _ _ _ _ Hn). apply Z.eqb_sym.
  - eapply gives_bind; [apply invertible_step_gives|]. intros [[child sig]|] Hb; [|done].
    apply gives_ok. intros x c sg [= <- <- <-]. exists b. split_and!; [by apply Hb|congruence|].
    by rewrite (bv_eq_value _ _ _ _ Hn).
Qed.

Lemma transition_gives leaf : (sat -> T leaf = true) ->
  gives (fun o => forall tr, o = Some tr -> transition_ok tr) (lfsr_transition q leaf).
Proof.
  intros Ht. apply node_bind. intros [k s] Hn. cbn [kind]. destruct k; try done.
  eapply gives_bind; [apply zero_side_gives|]. intros [z|] Hz; [|done]. specialize (Hz _ eq_refl).
  eapply gives_bind; [apply step_side_gives|]. intros [[[x child] sig]|] Hx; [|done]. apply gives_ok.
  intros tr. destruct (Nat.eqb_spec z x) as [->|]; simpl; [|done]. intros [= <-].
  destruct (Hx _ _ _ eq_refl) as (u & Hu & Hwu & Eu).
  split. intros [Hrg Hs]. destruct (step_value Hrg _ _ _ Hu) as (w & Wu & Wc & Hnd & Hin & Hlt & Hst).
  exists w. cbn [reset from to signature]. split_and!; [congruence|done..|]. specialize (Ht Hs). unfold T at 1, sem_bool in Ht. rewrite (value_of _ _ _ Hn) in Ht. simpl in Ht.
  fold (T cond) (T then_value) (T else_value) in Ht. destruct (T cond).
  - rewrite Hz in Ht. by apply Z.eqb_eq.
  - rewrite Eu in Ht. apply Z.eqb_eq in Ht. by rewrite Ht.
Qed.

Definition lfsr_facts_ok (f : list LfsrTransition * list (TermId * TermId)) : Prop :=
  (forall tr, tr ∈ f.1 -> transition_ok tr) /\ (forall a b, (a, b) ∈ f.2 -> sat -> V a <> V b).

Lemma lfsr_leaf_gives leaf f : (sat -> T leaf = true) -> lfsr_facts_ok f -> gives lfsr_facts_ok (lfsr_leaf q leaf f).
Proof.
  intros Ht [Htr Hd]. unfold lfsr_leaf. eapply gives_bind; [by apply transition_gives|]. intros tr Htr'.
  apply node_bind. intros [k s] Hn. cbn [kind].
  eapply gives_bind with (P := fun o => forall a b, o = Some (a, b) -> sat -> V a <> V b).
  { destruct k; try done. eapply gives_mono; [apply parts_by_gives|]. intros o Ho a b E Hs Eab.
    destruct (Ho _ _ E) as ([kx sx] & Hx & Hk). destruct kx; try done. injection Hk as -> ->.
    specialize (Ht Hs). unfold T, sem_bool in Ht. rewrite (value_of _ _ _ Hn) in Ht. simpl in Ht. fold (T x) in Ht.
    by rewrite (bv_eq_value _ _ _ _ Hx), Eab, Z.eqb_refl in Ht. }
  intros dis Hdis. apply gives_ok. split; cbn [fst snd].
  - intros t [?|E%elem_option_list]%elem_of_app; [by apply Htr|by apply Htr'].
  - intros a b [?|E%elem_option_list]%elem_of_app Hs; [by apply (Hd a b)|by apply (Hdis a b)].
Qed.

(** *** Chains *)

(** Two chains through the same resets: with no reset equal ends have equal
    beginnings; with a reset the ends are equal. *)
Definition chains_ok (resets : list TermId) (p i : TermId * TermId) : Prop :=
  regular_sat -> ((forall r, r ∈ resets -> T r = false) -> V p.1 = V p.2 -> V i.1 = V i.2) /\
    ((exists r, r ∈ resets /\ T r = true) -> V p.1 = V p.2).

Lemma trace_gives trs : (forall tr, tr ∈ trs -> transition_ok tr) -> forall fuel a b unused,
  (length unused <= fuel)%nat ->
  gives (fun o => forall i, o = Some i -> chains_ok unused (a, b) i) (trace_lfsr_chains fuel a b unused trs).
Proof.
  intros Htr. induction fuel as [|fuel IH]; intros a b [|r0 unused] Hl; try (simpl in Hl; lia); cbn [trace_lfsr_chains];
    try (apply gives_ok; intros i [= <-] Hs; split; [done|intros (r & ?%elem_of_nil & _); done]).
  set (all := r0 :: unused) in *. unfold unique_lfsr_predecessor.
  destruct (filter (fun t => to t = a /\ reset t ∈ all) trs) as [|ta []] eqn:Ea; [done| |done].
  assert (ta ∈ filter (fun t => to t = a /\ reset t ∈ all) trs) as [[Ta Ra] Hta]%list_elem_of_filter
    by (rewrite Ea; by constructor).
  destruct (filter (fun t => to t = b /\ reset t = reset ta /\ signature t = signature ta) trs) as [|tb rest] eqn:Eb; [done|].
  assert (tb ∈ filter (fun t => to t = b /\ reset t = reset ta /\ signature t = signature ta) trs)
    as [(Tb & Rb & Sb) Htb]%list_elem_of_filter by (rewrite Eb; by constructor).
  assert (length (filter (fun r => r <> reset ta) all) <= fuel)%nat as Hlen.
  { clearbody all. apply elem_of_Permutation in Ra as [k Hk]. rewrite Hk in Hl |- *.
    rewrite filter_cons_False by (intros H; by apply H).
    pose proof (length_filter (fun r => r <> reset ta) k). simpl in Hl. lia. }
  eapply gives_mono; [by apply IH|]. intros o Ho i Ei Hs. destruct (Ho i Ei Hs) as [Hinj Heq]. cbn [fst snd] in *.
  destruct (tr_width _ (Htr _ Hta) Hs) as (w & Wa & Wa' & Nd & Top & Lt & Sa).
  destruct (tr_width _ (Htr _ Htb) Hs) as (w' & Wb & Wb' & _ & Top' & Lt' & Sb').
  rewrite Sb in Top', Lt', Sb'. rewrite Rb in Sb'. subst a b.
  assert (w = w') as <-.
  { rewrite Forall_forall in Lt, Lt'. pose proof (Lt _ Top'). pose proof (Lt' _ Top).
    pose proof (width_legal _ _ _ Hwt Wa). pose proof (width_legal _ _ _ Hwt Wb). lia. }
  destruct (range _ _ Wa) as [_ R1], (range _ _ Wa') as [_ R2], (range _ _ Wb) as [_ R3], (range _ _ Wb') as [_ R4].
  destruct (T (reset ta)) eqn:Er.
  - split; [|congruence]. intros Hall. by rewrite (Hall _ Ra) in Er.
  - split.
    + intros Hall Eab. apply Hinj; [intros r Hr; apply Hall; by apply list_elem_of_filter in Hr as [_ ?]|].
      rewrite Eab in Sa. by eapply stepped_injective.
    + intros (r & Hr & Tr). assert (V (from ta) = V (from tb)) as Ef.
      { apply Heq. exists r. split; [|done]. apply list_elem_of_filter. split; [|done]. intros ->. congruence. }
      rewrite Ef in Sa. by eapply stepped_functional.
Qed.

Lemma pairs_gives t : gives (fun o => forall ps, o = Some ps -> T t = existsb (fun p => V p.1 =? V p.2) ps)
  (bv_eq_pairs_in_disjunction q t).
Proof.
  eapply gives_bind; [apply collect_bool_or_leaves_gives|]. intros ls Hls.
  eapply gives_bind.
  { apply (all_some_gives (fun l p => T l = (V p.1 =? V p.2))). intros l _.
    eapply gives_mono; [apply parts_by_gives|]. intros o Ho [a b] E.
    destruct (Ho a b E) as ([k s] & Hn & Hk). destruct k; try done. injection Hk as -> ->.
    by apply (bv_eq_value _ _ _ _ Hn). }
  intros o Hps. apply gives_ok.
  assert (forall ps, o = Some ps -> T t = existsb (fun p => V p.1 =? V p.2) ps) as H.
  { intros ps E. rewrite (or_leaves _ _ Hls). specialize (Hps _ E). clear -Hps.
    induction Hps as [|l p ls ps Hl _ IH]; [done|]. simpl. by rewrite Hl, IH. }
  destruct o as [[|]|]; [done|exact H|done].
Qed.

Lemma resets_gives t : gives (fun o => forall rs, o = Some rs -> T t = forallb (fun r => negb (T r)) rs)
  (all_resets_false q t).
Proof.
  unfold all_resets_false. eapply gives_bind; [apply collect_leaves_gives; [apply picks_and|lia]|].
  intros l (ls & -> & Hls). simpl. destruct (_ =? _)%nat; [done|].
  eapply gives_bind.
  { apply (all_some_gives (fun l r => T l = negb (T r))). intros x _. apply node_bind. intros [k s] Hn. cbn [kind].
    destruct k; try done. eapply gives_bind; [apply (sort_gives (fun _ => True)); done|].
    intros [] _ y E; [|done]. injection E as <-. unfold T at 1, sem_bool. by rewrite (value_of _ _ _ Hn). }
  intros [rs|] Hrs; [|done]. specialize (Hrs _ eq_refl). intros rs' [= <-].
  assert (T t = forallb (fun r => negb (T r)) rs) as ->.
  { rewrite (and_leaves _ _ Hls). clear -Hrs. induction Hrs as [|l r ls rs E _ IH]; [done|]. simpl. by rewrite E, IH. }
  apply eq_true_iff_eq. rewrite !forallb_forall. setoid_rewrite <- list_elem_of_In. by setoid_rewrite elem_sort_dedup.
Qed.

Lemma final_sides_gives a b : gives (fun o => forall ps rs, o = Some (ps, rs) ->
  T a = existsb (fun p => V p.1 =? V p.2) ps /\ T b = forallb (fun r => negb (T r)) rs) (lfsr_final_sides q a b).
Proof.
  eapply gives_bind; [apply pairs_gives|]. intros [ps|] Hps; [|done].
  eapply gives_bind; [apply resets_gives|]. intros [rs|] Hrs; [|done]. apply gives_ok. intros ? ? [= <- <-]. auto.
Qed.

Lemma final_pattern_gives leaf : gives (fun o => forall ps rs, o = Some (ps, rs) ->
  T leaf = eqb (existsb (fun p => V p.1 =? V p.2) ps) (forallb (fun r => negb (T r)) rs)) (lfsr_final_pattern q leaf).
Proof.
  apply node_bind. intros [k s] Hn. cbn [kind]. destruct k; try done.
  assert (T leaf = eqb (T a) (T b)) as Et by (unfold T at 1, sem_bool; by rewrite (value_of _ _ _ Hn)).
  eapply gives_bind; [apply final_sides_gives|]. intros [[ps rs]|] Ho.
  - apply gives_ok. intros ? ? [= <- <-]. destruct (Ho _ _ eq_refl) as [<- <-]. done.
  - eapply gives_mono; [apply final_sides_gives|]. intros o H ps rs E. destruct (H _ _ E) as [<- <-].
    rewrite Et. by destruct (T a), (T b).
Qed.

Lemma lfsr_reports : reports (regular ns -> ~ sat) (has_synchronized_lfsr_contradiction q).
Proof.
  unfold has_synchronized_lfsr_contradiction. destruct (_ || _); [done|].
  eapply reports_bind; [apply assertion_conjuncts_gives|]. intros leaves Hl.
  eapply reports_bind; [apply (collect_all_gives lfsr_facts_ok)|].
  { intros leaf f Hin Hf. apply lfsr_leaf_gives; auto. }
  { split; intros *; by intros ?%elem_of_nil. }
  intros [trs neqs] [Htr Hd]. cbn [fst snd] in *. destruct (_ || _); [done|].
  apply any_of_reports. intros leaf Hin. eapply reports_bind; [apply final_pattern_gives|].
  intros [[pairs resets]|] Hp; [|done]. specialize (Hp _ _ eq_refl).
  destruct (Nat.eqb_spec (length pairs) 0) as [|Hne]; simpl; [done|]. destruct (_ =? _)%nat; [done|].
  eapply reports_mono.
  { apply (all_of_reports (fun p => exists i, chains_ok resets p i /\ (sat -> V i.1 <> V i.2))). intros [x y] Hxy.
    eapply reports_bind; [by apply trace_gives|]. intros [[ia ib]|] Hi; [|done]. apply gives_ok.
    intros [H|H]%is_disequal_elem; exists (ia, ib); (split; [by apply Hi|]); intros Hs E; by apply (Hd _ _ H Hs). }
  intros Hall Hrg Hs. specialize (Hl _ Hin Hs). rewrite Hp in Hl. apply eqb_prop in Hl.
  destruct (forallb (fun r => negb (T r)) resets) eqn:Er.
  - apply existsb_exists in Hl as (p & Hpin%list_elem_of_In & Ep%Z.eqb_eq).
    destruct (Hall _ Hpin) as (i & Hc & Hne'). destruct (Hc (conj Hrg Hs)) as [Hinj _]. apply (Hne' Hs), Hinj; [|done].
    intros r Hr. rewrite forallb_forall in Er. apply negb_true_iff, Er. by apply list_elem_of_In.
  - destruct pairs as [|p pairs]; [done|]. destruct (Hall p ltac:(by constructor)) as (i & Hc & _).
    destruct (Hc (conj Hrg Hs)) as [_ Heq]. assert (V p.1 = V p.2) as E.
    { apply Heq. apply not_true_iff_false in Er. rewrite forallb_forall in Er.
      destruct (decide (Exists (fun r => T r = true) resets)) as [(r & Hr & Tr)%Exists_exists|Hn]; [by exists r|].
      destruct Er. intros r Hr%list_elem_of_In. rewrite <- Forall_Exists_neg, Forall_forall in Hn.
      specialize (Hn r Hr). by destruct (T r). }
    simpl in Hl. by rewrite E, Z.eqb_refl in Hl.
Qed.
End environment.
End query.

(** ** Arenas that grow *)

(** Neither a disjunction nor a concatenation. *)
Definition plain_kind (k : NodeKind) : bool :=
  match k with BoolOr _ _ | BvConcat _ _ => false | _ => true end.

Section grow.
Context (ns ns' : list Node).
Hypothesis Hp : ns `prefix_of` ns'.
Hypothesis Hwt : well_typed ns' = true.

Lemma grow_back t n : (t < length ns)%nat -> ns' !! t = Some n -> ns !! t = Some n.
Proof. intros Ht Hn. destruct Hp as [l E]. rewrite E in Hn. by rewrite lookup_app_l in Hn. Qed.

Lemma grow_child t n x : (t < length ns)%nat -> ns' !! t = Some n -> x ∈ push_children (kind n) -> (x < length ns)%nat.
Proof.
  intros Ht Hn Hx. pose proof (node_children_lt _ _ _ Hwt Hn) as Hlt. rewrite Forall_forall in Hlt.
  specialize (Hlt x Hx). lia.
Qed.

Lemma grow_leaves pick t ls : picks_operands pick -> (t < length ns)%nat -> leaves_of ns' pick t ls ->
  leaves_of ns pick t ls /\ Forall (fun l => l < length ns)%nat ls.
Proof.
  intros Hpick Ht H. revert Ht. induction H as [t n Hn Hk|t n a b la lb Hn Hk _ IHa _ IHb]; intros Ht.
  - split; [eapply leaf_here; [by apply grow_back|done]|by repeat constructor].
  - destruct (Hpick _ _ _ Hk) as [Ha Hb].
    destruct IHa as [La Fa]; [by eapply grow_child|]. destruct IHb as [Lb Fb]; [by eapply grow_child|].
    split; [eapply leaf_node; [by apply grow_back|done..]|by apply Forall_app].
Qed.

Lemma grow_within t g : (t < length ns)%nat -> within ns' t g -> within ns t g /\ (g < length ns)%nat.
Proof.
  intros Ht H. revert Ht. induction H as [t|t n a b c g Hn Hk Hc _ IH]; intros Ht; [by split; [constructor|]|].
  assert (c ∈ push_children (kind n)) as Hx.
  { assert (a ∈ push_children (kind n) /\ b ∈ push_children (kind n)) as [? ?]
      by (destruct Hk as [Hk|Hk]; [by apply picks_or|by apply picks_and]). by destruct Hc as [->| ->]. }
  destruct IH as [Hw Hg]; [by eapply grow_child|]. split; [|done].
  eapply within_step; [by apply grow_back|done..].
Qed.

Lemma grow_regular : (forall t n, ns' !! t = Some n -> ns !! t = Some n \/ plain_kind (kind n) = true) ->
  regular ns -> regular ns'.
Proof.
  intros Hnew [Hg Hs]. split.
  - intros t a b s c g x s' a' b' s'' Ht Hc Hw Hgn Hx.
    destruct (Hnew _ _ Ht) as [Ht0|]; [|done]. pose proof (lookup_lt_Some _ _ _ Ht0) as Hlt.
    assert (c < length ns)%nat as Hcl.
    { eapply grow_child; [exact Hlt|exact Ht|]. simpl. destruct Hc as [->| ->]; set_solver. }
    destruct (grow_within _ _ Hcl Hw) as [Hw0 Hgl].
    eapply (Hg _ _ _ _ _ _ _ _ _ _ _ Ht0 Hc Hw0); [by apply grow_back|]. apply grow_back; [|exact Hx].
    eapply grow_child; [exact Hgl|exact Hgn|]. simpl. set_solver.
  - intros t child taps (high & low & hb & s & sh & xs & Ht & Hh & Hl & Htaps).
    destruct (Hnew _ _ Ht) as [Ht0|]; [|done]. pose proof (lookup_lt_Some _ _ _ Ht0) as Hlt.
    assert (high < length ns)%nat as Hhl by (eapply grow_child; [exact Hlt|exact Ht|simpl; set_solver]).
    assert (low < length ns)%nat as Hll by (eapply grow_child; [exact Hlt|exact Ht|simpl; set_solver]).
    assert (child < length ns)%nat as Hcl by (eapply grow_child; [exact Hhl|exact Hh|simpl; set_solver]).
    destruct (grow_leaves _ _ _ picks_xor Hll Hl) as [Hl0 Hf].
    destruct (Hs t child taps) as [Hw Hnd].
    { exists high, low, hb, s, sh, xs. split_and!; [done|by apply grow_back|done|].
      apply Forall2_same_length_lookup. pose proof (Forall2_length _ _ _ Htaps) as Hlen. split; [done|].
      intros i x tap Hx Htap. destruct (Forall2_lookup_lr _ _ _ _ _ _ Htaps Hx Htap) as [sx Hsx]. exists sx.
      apply grow_back; [|done]. rewrite Forall_lookup in Hf. by eapply Hf. }
    split; [|done]. unfold width_at in *. destruct Hp as [l ->]. by rewrite !lookup_app_l.
Qed.
End grow.

(** Without disjunctions and concatenations there is nothing to exclude. *)
Lemma plain_regular ns : forallb (fun n => plain_kind (kind n)) ns = true -> regular ns.
Proof.
  rewrite forallb_forall. intros H. split.
  - intros t a b s c g x s' a' b' s'' Ht%list_elem_of_lookup_2%list_elem_of_In. by apply H in Ht.
  - intros t child taps (high & low & hb & s & sh & xs & Ht & _).
    apply list_elem_of_lookup_2, list_elem_of_In, H in Ht. done.
Qed.

(** ** What holds of a query *)

Lemma unsat_reports_when (P : Prop) q r : (forall env, reports (P -> ~ (satisfies env q = true)) r) -> reports (P -> ~ satisfiable q) r.
Proof.
  intros H. destruct r as [b|e|]; simpl in *.
  - intros E HP (env & Hs). by apply (H env).
  - apply (H (mkEnv (fun _ => 0) (fun _ => false))).
  - apply (H (mkEnv (fun _ => 0) (fun _ => false))).
Qed.

Lemma unsat_reports q r : (forall env, reports (~ (satisfies env q = true)) r) -> reports (~ satisfiable q) r.
Proof.
  intros H. destruct r as [b|e|]; simpl in *.
  - intros E (env & Hs). by apply (H env).
  - apply (H (mkEnv (fun _ => 0) (fun _ => false))).
  - apply (H (mkEnv (fun _ => 0) (fun _ => false))).
Qed.

(** The recognisers that need nothing of the arena. *)
Definition pattern_recognisers : list (Query -> res bool) :=
  [has_direct_equality_disequality_contradiction; has_shift_one_add_contradiction;
   has_distinct_power_of_two_sum_contradiction; has_urem_remainder_fixed_point_contradiction;
   has_unsigned_multiplication_overflow_guard_contradiction; has_favaro_mba_mul_contradiction;
   has_extensional_candidate_contradiction].

(** Those that need a regular one. *)
Definition regular_recognisers : list (Query -> res bool) :=
  [has_signed_division_multiply_overflow_guard_contradiction; has_synchronized_lfsr_contradiction].

Lemma pattern_contradictions q : well_formed q = true ->
  Forall (fun run => reports (~ satisfiable q) (run q)) pattern_recognisers.
Proof.
  intros Hwf. repeat apply Forall_cons_2; [..|apply Forall_nil_2]; apply unsat_reports; intros env.
  - by apply direct_equality_reports.
  - by apply shift_one_add_reports.
  - by apply power_sum_reports.
  - by apply urem_fixed_point_reports.
  - by apply unsigned_guard_reports.
  - by apply favaro_reports.
  - by apply extensional_reports.
Qed.

Lemma regular_contradictions q : well_formed q = true ->
  Forall (fun run => reports (regular (nodes (arena q)) -> ~ satisfiable q) (run q)) regular_recognisers.
Proof.
  intros Hwf. repeat apply Forall_cons_2; [..|apply Forall_nil_2]; apply unsat_reports_when; intros env.
  - by apply signed_guard_reports.
  - by apply lfsr_reports.
Qed.

(** ** Queries that are not contradictions *)

Definition asserted (ns : list Node) (roots : list TermId) : Query :=
  {| arena := {| nodes := ns; ids := ∅ |};
     assertions := (fun t => {| root := t; name := None |}) <$> roots; assumptions := [];
     command := Solve; target := None; signed := false; want_model := false; want_core := false;
     get_values := [] |}.

(** The guard of the division is not asserted: it is one side of a disjunction. *)
Definition guard_query : Query :=
  asserted
    [mkNode (BvVar 2 "x" None) (SBv 2); mkNode (BvVar 2 "y" None) (SBv 2); mkNode (BvSDiv 0 1) (SBv 2);
     mkNode (BvSignExtend 2 2) (SBv 4); mkNode (BvSignExtend 1 2) (SBv 4); mkNode (BvMul 3 4) (SBv 4);
     mkNode (BvExtract 5 3 1) (SBv 3); mkNode (BvConst 3 [0]) (SBv 3); mkNode (BvEq 6 7) SBool;
     mkNode (BoolNot 8) SBool; mkNode (BvNot 6) (SBv 3); mkNode (BvEq 10 7) SBool; mkNode (BoolNot 11) SBool;
     mkNode (BvConst 2 [0]) (SBv 2); mkNode (BvEq 1 13) SBool; mkNode (BoolNot 14) SBool;
     mkNode (BvConst 2 [3]) (SBv 2); mkNode (BvEq 1 16) SBool; mkNode (BvConst 2 [2]) (SBv 2);
     mkNode (BvEq 0 18) SBool; mkNode (BoolAnd 17 19) SBool; mkNode (BoolNot 20) SBool;
     mkNode (BoolVar "p" None) SBool; mkNode (BoolOr 22 21) SBool]
    [9; 12; 15; 23]%nat.

Lemma guard_satisfiable : satisfiable guard_query.
Proof.
  exists (mkEnv (fun t => match t with 0%nat => 2 | _ => 3 end) (fun _ => true)). vm_compute. reflexivity.
Qed.

(** The step takes two bits of a register of three. *)
Definition lfsr_query : Query :=
  asserted
    [mkNode (BvVar 3 "a" None) (SBv 3); mkNode (BvVar 3 "b" None) (SBv 3); mkNode (BvVar 2 "ta" None) (SBv 2);
     mkNode (BvVar 2 "tb" None) (SBv 2); mkNode (BoolVar "r" None) SBool;
     mkNode (BvExtract 0 0 0) (SBv 1); mkNode (BvExtract 0 1 1) (SBv 1); mkNode (BvXor 6 5) (SBv 1);
     mkNode (BvConcat 5 7) (SBv 2);
     mkNode (BvExtract 1 0 0) (SBv 1); mkNode (BvExtract 1 1 1) (SBv 1); mkNode (BvXor 10 9) (SBv 1);
     mkNode (BvConcat 9 11) (SBv 2); mkNode (BvConst 2 [0]) (SBv 2);
     mkNode (BvEq 2 13) SBool; mkNode (BvEq 2 8) SBool; mkNode (BoolIte 4 14 15) SBool;
     mkNode (BvEq 3 13) SBool; mkNode (BvEq 3 12) SBool; mkNode (BoolIte 4 17 18) SBool;
     mkNode (BvEq 2 3) SBool; mkNode (BoolNot 4) SBool; mkNode (BoolEq 20 21) SBool;
     mkNode (BvEq 0 1) SBool; mkNode (BoolNot 23) SBool]
    [16; 19; 22; 24]%nat.

Lemma lfsr_satisfiable : satisfiable lfsr_query.
Proof.
  exists (mkEnv (fun t => match t with 1%nat => 4 | _ => 0 end) (fun _ => false)). vm_compute. reflexivity.
Qed.

(** ** The theorem *)

(** C36: nine recognisers of contradictions.  On every well-formed query each of them ends
    without a panic and without a timeout.
    Seven of them answer [true] only if no environment satisfies the query.  So do the
    recogniser of signed-division overflow guards and the recogniser of shift registers on
    [regular] arenas, those without a guard under a
    disjunction and whose steps keep the
    width and tap no bit twice; without this condition both are wrong: each answers
    [true] for a well-formed query that an environment satisfies. *)
Theorem pattern_recognisers_sound q : well_formed q = true ->
  Forall (fun run => reports (~ satisfiable q) (run q)) pattern_recognisers /\
  Forall (fun run => reports (regular (nodes (arena q)) -> ~ satisfiable q) (run q)) regular_recognisers /\
  (well_formed guard_query = true /\ satisfiable guard_query /\
   has_signed_division_multiply_overflow_guard_contradiction guard_query = Ok true) /\
  (well_formed lfsr_query = true /\ satisfiable lfsr_query /\
   has_synchronized_lfsr_contradiction lfsr_query = Ok true).
Proof.
  intros Hwf. split_and!; [by apply pattern_contradictions|by apply regular_contradictions| | | | | |];
    first [apply guard_satisfiable|apply lfsr_satisfiable|vm_compute; reflexivity].
Qed.

(** [x = y] and [x <> y]; and the guard asserted by itself. *)
Definition apart_query : Query :=
  asserted
    [mkNode (BvVar 8 "x" None) (SBv 8); mkNode (BvVar 8 "y" None) (SBv 8); mkNode (BvEq 0 1) SBool;
     mkNode (BoolNot 2) SBool]
    [2; 3]%nat.

Definition guarded_query : Query := asserted (take 22 (nodes (arena guard_query))) [9; 12; 15; 21]%nat.

Lemma pattern_recognisers_sound_witness :
  (has_direct_equality_disequality_contradiction apart_query = Ok true /\ ~ satisfiable apart_query) /\
  (has_signed_division_multiply_overflow_guard_contradiction guarded_query = Ok true /\ ~ satisfiable guarded_query).
Proof.
  destruct (pattern_recognisers_sound apart_query eq_refl) as [H _].
  destruct (pattern_recognisers_sound guarded_query ltac:(vm_compute; reflexivity)) as (_ & Hg & _).
  apply Forall_cons in H as [H _].
  assert (regular (nodes (arena guarded_query))) as Hr by (apply plain_regular; vm_compute; reflexivity).
  apply Forall_cons in Hg as [Hg _].
  assert (has_direct_equality_disequality_contradiction apart_query = Ok true) as E by (vm_compute; reflexivity).
  assert (has_signed_division_multiply_overflow_guard_contradiction guarded_query = Ok true) as E'
    by (vm_compute; reflexivity).
  rewrite E in H. rewrite E' in Hg. split; split; [exact E|exact (H eq_refl)|exact E'|exact (Hg eq_refl Hr)].
Defined.
