(* ===== verification/Shortcuts.v ===== *)
(** * The shortcut engine ([solver/shortcuts/engine.rs])

    Ordered lists of recognisers that may answer before the query is
    bit-blasted.  The engine is a client of the recognisers: it sees those that
    are not defined in this library through the interface [Recognisers], and its
    theorems say what follows from what each recogniser promises. *)
From S2P Require Import Prelude Ir Config Evaluator Model Recognisers PatternRecognisers.

Record ShortcutHit := mkShortcutHit { pass_name : string; hit_result : SolveResult }.

Record ShortcutContext := mkShortcutContext {
  sc_want_model : bool;
  sc_want_core : bool;
  varisat_budgeted : bool;
  validate_sat_witnesses : bool;
}.

Record UnsatPass := mkUnsatPass { up_name : string; up_run : Query -> res bool }.
Record SatPass := mkSatPass { sp_name : string; sp_run : Query -> ShortcutContext -> res bool }.

Class Recognisers := {
  has_polynomial_definition_contradiction : Query -> res bool;
  has_structural_definition_contradiction : Query -> res bool;
  has_simple_processor_equivalence_contradiction : Query -> res bool;
  has_log_slicing_shift_contradiction : Query -> res bool;
  has_log_slicing_comparison_contradiction : Query -> res bool;
  has_log_slicing_adder_contradiction : Query -> res bool;
  has_yurichev_popcount_contradiction : Query -> res bool;
  has_brummayer_popcount_contradiction : Query -> res bool;
  has_linear_slice_sat_witness : Query -> res bool;
  has_affine_byte_sat_witness : Query -> res bool;
}.

Section engine.
Context `{Recognisers}.

Definition UNSAT_PASSES : list UnsatPass :=
  [mkUnsatPass "direct_equality_disequality" has_direct_equality_disequality_contradiction;
   mkUnsatPass "polynomial_definition" has_polynomial_definition_contradiction;
   mkUnsatPass "structural_definition" has_structural_definition_contradiction;
   mkUnsatPass "unsigned_successor" has_unsigned_successor_contradiction;
   mkUnsatPass "shift_one_add" has_shift_one_add_contradiction;
   mkUnsatPass "distinct_power_of_two_sum" has_distinct_power_of_two_sum_contradiction;
   mkUnsatPass "unsigned_multiplication_overflow_guard"
     has_unsigned_multiplication_overflow_guard_contradiction;
   mkUnsatPass "signed_division_multiply_overflow_guard"
     has_signed_division_multiply_overflow_guard_contradiction;
   mkUnsatPass "simple_processor_equivalence" has_simple_processor_equivalence_contradiction;
   mkUnsatPass "extensional_candidate" has_extensional_candidate_contradiction;
   mkUnsatPass "synchronized_lfsr" has_synchronized_lfsr_contradiction;
   mkUnsatPass "log_slicing_shift" has_log_slicing_shift_contradiction;
   mkUnsatPass "log_slicing_comparison" has_log_slicing_comparison_contradiction;
   mkUnsatPass "log_slicing_adder" has_log_slicing_adder_contradiction;
   mkUnsatPass "urem_remainder_fixed_point" has_urem_remainder_fixed_point_contradiction;
   mkUnsatPass "favaro_mba_mul" has_favaro_mba_mul_contradiction;
   mkUnsatPass "yurichev_popcount" has_yurichev_popcount_contradiction;
   mkUnsatPass "brummayer_popcount" has_brummayer_popcount_contradiction].

Definition unsigned_successor_wraparound_sat_pass (q : Query) (c : ShortcutContext) : res bool :=
  if sc_want_model c then Ok false
  else has_unsigned_successor_wraparound_witness q (validate_sat_witnesses c).

(** The guard the other four witness passes share. *)
Definition witness_pass (run : Query -> res bool) (q : Query) (c : ShortcutContext) : res bool :=
  if sc_want_model c || sc_want_core c || varisat_budgeted c then Ok false else run q.

Definition linear_slice_sat_pass := witness_pass has_linear_slice_sat_witness.
Definition affine_byte_sat_pass := witness_pass has_affine_byte_sat_witness.
Definition small_explicit_assignment_sat_pass := witness_pass has_small_explicit_assignment_witness.
Definition constant_assignment_sat_pass := witness_pass has_constant_assignment_witness.

Definition SAT_PASSES : list SatPass :=
  [mkSatPass "unsigned_successor_wraparound" unsigned_successor_wraparound_sat_pass;
   mkSatPass "linear_slice" linear_slice_sat_pass;
   mkSatPass "affine_byte" affine_byte_sat_pass;
   mkSatPass "small_explicit_assignment" small_explicit_assignment_sat_pass;
   mkSatPass "constant_assignment" constant_assignment_sat_pass].

(** The loops over the two tables; [inl] is the early return. *)
Fixpoint run_unsat_passes (q : Query) (lim : Limits) (i : nat) (passes : list UnsatPass)
    : res (option (option ShortcutHit)) :=
  match passes with
  | [] => Ok None
  | pass :: passes =>
      if is_cancelled lim [i] then Ok (Some None)
      else
        hit ← up_run pass q;
        if (hit : bool) then
          Ok (Some (Some {| pass_name := up_name pass; hit_result := SolveResult.unsat |}))
        else run_unsat_passes q lim (S i) passes
  end.

Fixpoint run_sat_passes (q : Query) (c : ShortcutContext) (lim : Limits) (i : nat)
    (passes : list SatPass) : res (option ShortcutHit) :=
  match passes with
  | [] => Ok None
  | pass :: passes =>
      if is_cancelled lim [i] then Ok None
      else
        hit ← sp_run pass q c;
        if (hit : bool) then
          Ok (Some {| pass_name := sp_name pass; hit_result := SolveResult.sat None |})
        else run_sat_passes q c lim (S i) passes
  end.

Definition context_of (q : Query) (want_model : bool) (config : Config) : ShortcutContext :=
  {| sc_want_model := want_model;
     sc_want_core := want_core q;
     varisat_budgeted := bool_decide (sat_backend config = Varisat)
                         && match budget config with Some _ => true | None => false end;
     validate_sat_witnesses := bool_decide (shortcut_mode config = ValidateSatWitnesses) |}.

Definition try_solve (q : Query) (want_model : bool) (config : Config) (lim : Limits)
    : res (option ShortcutHit) :=
  if decide (shortcut_mode config = Disabled) then Ok None
  else
    early ← run_unsat_passes q (under 0 lim) 0 UNSAT_PASSES;
    match early with
    | Some hit => Ok hit
    | None => run_sat_passes q (context_of q want_model config) (under 1 lim) 0 SAT_PASSES
    end.
End engine.
