(* ===== verification/ShortcutsFacts.v ===== *)
(** * What the shortcut engine guarantees

    [SoundRecognisers] is the contract of the recognisers that are not modelled; what
    the others need is that the arena is [regular].  A hit of the engine is then
    right, except that with models off and validation off the
    unsigned-successor recogniser is asked for an unvalidated witness, for which
    the contract promises nothing. *)
From S2P Require Import Prelude Ir Sem Config Evaluator EvaluatorFacts Model Recognisers.
From S2P Require Import RecogniserFacts PatternRecognisers PatternFacts Shortcuts.

Section recognisers.
Context `{Recognisers}.

(** The contradiction recognisers of the interface. *)
Definition contradictions : list (Query -> res bool) :=
  [has_polynomial_definition_contradiction; has_structural_definition_contradiction;
   has_simple_processor_equivalence_contradiction; has_log_slicing_shift_contradiction;
   has_log_slicing_comparison_contradiction; has_log_slicing_adder_contradiction;
   has_yurichev_popcount_contradiction; has_brummayer_popcount_contradiction].

Class SoundRecognisers : Prop := {
  contradictions_sound : forall run q, run ∈ contradictions -> well_formed q = true ->
    reports (~ satisfiable q) (run q);
  linear_slice_sound : forall q, well_formed q = true ->
    reports (satisfiable q) (has_linear_slice_sat_witness q);
  affine_byte_sound : forall q, well_formed q = true ->
    reports (satisfiable q) (has_affine_byte_sat_witness q);
}.
End recognisers.

(** The claim of a hit: its status is right and it carries no model. *)
Definition hit_sound (q : Query) (hit : ShortcutHit) : Prop :=
  (hit_result hit = SolveResult.unsat /\ ~ satisfiable q) \/
  (hit_result hit = SolveResult.sat None /\ satisfiable q).

(** The configurations under which no unvalidated witness is asked for. *)
Definition validated (config : Config) (want_model : bool) : Prop :=
  want_model = true \/ shortcut_mode config = ValidateSatWitnesses.

(** A [Sat] hit has no model, so none is given when one is wanted. *)
Definition hit_post (q : Query) (config : Config) (want_model : bool) (hit : ShortcutHit) : Prop :=
  (hit_result hit = SolveResult.unsat /\ ~ satisfiable q) \/
  (hit_result hit = SolveResult.sat None /\ want_model = false /\
   (validated config want_model -> satisfiable q)).

Section engine.
Context `{SoundRecognisers}.

(** Every pass answers [Unsat] rightly: the recognisers of the interface by their
    contract, the others by what is proved of them. *)
Lemma unsat_passes_sound q : well_formed q = true -> regular (nodes (arena q)) ->
  Forall (fun pass => reports (~ satisfiable q) (up_run pass q)) UNSAT_PASSES.
Proof.
  intros Hwf Hrg. pose proof (unsigned_successor_contradiction_reports q Hwf) as Hu.
  pose proof (pattern_contradictions q Hwf) as Hp.
  assert (Forall (fun run => reports (~ satisfiable q) (run q)) regular_recognisers) as Hr.
  { eapply Forall_impl; [exact (regular_contradictions q Hwf)|]. intros run Hrun. eapply reports_mono; [exact Hrun|]. exact (fun H => H Hrg). }
  assert (Forall (fun run => reports (~ satisfiable q) (run q)) contradictions) as Hc
    by (apply Forall_forall; intros run Hin; by apply contradictions_sound).
  unfold pattern_recognisers, regular_recognisers, contradictions in *.
  repeat rewrite Forall_cons in Hp. repeat rewrite Forall_cons in Hr. repeat rewrite Forall_cons in Hc.
  destruct Hp as (Hdir & Hshift & Hpow & Hurem & Humul & Hmba & Hext & _). destruct Hr as (Hsdiv & Hlfsr & _).
  destruct Hc as (Hpoly & Hstruct & Hproc & Hlshift & Hlcmp & Hladd & Hyur & Hbru & _).
  repeat apply Forall_cons_2; [exact Hdir|exact Hpoly|exact Hstruct|exact Hu|exact Hshift|exact Hpow|exact Humul
    |exact Hsdiv|exact Hproc|exact Hext|exact Hlfsr|exact Hlshift|exact Hlcmp|exact Hladd|exact Hurem|exact Hmba
    |exact Hyur|exact Hbru|apply Forall_nil_2].
Qed.

Lemma run_unsat_passes_sound q lim passes :
  Forall (fun pass => reports (~ satisfiable q) (up_run pass q)) passes ->
  forall i, gives (fun r => forall hit, r = Some (Some hit) ->
    hit_result hit = SolveResult.unsat /\ ~ satisfiable q) (run_unsat_passes q lim i passes).
Proof.
  induction 1 as [|pass passes Hp Hps IH]; intros i; simpl; [done|].
  destruct (is_cancelled lim [i]); [done|].
  destruct (up_run pass q) as [[]|e|]; simpl in *; [|apply IH|done|done].
  intros hit [= <-]. split; [done|]. by apply Hp.
Qed.

(** The contract of a witness pass in context [c]. *)
Definition sat_pass_ok (q : Query) (c : ShortcutContext) (pass : SatPass) : Prop :=
  reports (sc_want_model c = false /\ (validate_sat_witnesses c = true -> satisfiable q))
    (sp_run pass q c).

Lemma witness_pass_ok name run q c : reports (satisfiable q) (run q) ->
  sat_pass_ok q c (mkSatPass name (witness_pass run)).
Proof.
  intros Hr. unfold sat_pass_ok, witness_pass. simpl.
  destruct (sc_want_model c); [done|]. destruct (sc_want_core c); [done|].
  destruct (varisat_budgeted c); [done|]. simpl. destruct (run q) as [[]| |]; simpl in *; auto.
Qed.

Lemma sat_passes_ok q c : well_formed q = true -> Forall (sat_pass_ok q c) SAT_PASSES.
Proof.
  intros Hwf. repeat apply Forall_cons_2; [|apply witness_pass_ok..|done].
  - unfold sat_pass_ok, unsigned_successor_wraparound_sat_pass. simpl.
    destruct (sc_want_model c); [done|].
    pose proof (wraparound_reports q Hwf (validate_sat_witnesses c)) as Hw.
    destruct (has_unsigned_successor_wraparound_witness q _) as [[]| |]; simpl in *; [|done..].
    intros _. split; [done|]. intros E. rewrite E in Hw. by apply Hw.
  - by apply linear_slice_sound.
  - by apply affine_byte_sound.
  - by apply has_small_explicit_assignment_witness_reports.
  - by apply has_constant_assignment_witness_reports.
Qed.

Lemma run_sat_passes_sound q c lim passes : Forall (sat_pass_ok q c) passes ->
  forall i, gives (fun r => forall hit, r = Some hit ->
    hit_result hit = SolveResult.sat None /\ sc_want_model c = false /\
    (validate_sat_witnesses c = true -> satisfiable q)) (run_sat_passes q c lim i passes).
Proof.
  induction 1 as [|pass passes Hp Hps IH]; intros i; simpl; [done|].
  destruct (is_cancelled lim [i]); [done|]. unfold sat_pass_ok in Hp.
  destruct (sp_run pass q c) as [[]|e|]; simpl in *; [|apply IH|done|done].
  intros hit [= <-]. split; [done|]. by apply Hp.
Qed.

(** The engine. *)
Lemma try_solve_spec q want_model config lim : well_formed q = true -> regular (nodes (arena q)) ->
  gives (fun found => forall hit, found = Some hit -> hit_post q config want_model hit)
    (try_solve q want_model config lim).
Proof.
  intros Hwf Hrg. unfold try_solve. destruct (decide _); [done|].
  pose proof (run_unsat_passes_sound q (under 0 lim) UNSAT_PASSES (unsat_passes_sound q Hwf Hrg) 0) as Hu.
  destruct (run_unsat_passes q (under 0 lim) 0 UNSAT_PASSES) as [[found|]|e|];
    cbn [mbind res_bind gives] in *; [| |done..].
  - intros hit ->. left. by apply Hu.
  - set (c := context_of q want_model config).
    pose proof (run_sat_passes_sound q c (under 1 lim) SAT_PASSES (sat_passes_ok q c Hwf) 0) as Hs.
    destruct (run_sat_passes q c (under 1 lim) 0 SAT_PASSES) as [found|e|];
      cbn [gives] in *; [|done..].
    intros hit ->. destruct (Hs hit eq_refl) as (E & Hm & Hv). right. split_and!; [done..|].
    change (want_model = false) in Hm. intros [Hw|Hw]; [congruence|]. apply Hv. by apply bool_decide_eq_true.
Qed.
End engine.

(** With shortcuts disabled no recogniser runs. *)
Lemma try_solve_disabled `{Recognisers} q want_model config lim :
  shortcut_mode config = Disabled -> try_solve q want_model config lim = Ok None.
Proof. intros H'. unfold try_solve. by rewrite decide_True. Qed.

(** Whatever the recognisers answer, a hit claims [Unsat] or [Sat] without a model. *)
Definition plain_hit (hit : ShortcutHit) : Prop :=
  hit_result hit = SolveResult.unsat \/ hit_result hit = SolveResult.sat None.

Lemma run_unsat_passes_plain q lim passes hit : forall i,
  run_unsat_passes q lim i passes = Ok (Some (Some hit)) -> plain_hit hit.
Proof.
  induction passes as [|pass passes IH]; intros i; simpl; [done|].
  destruct (is_cancelled lim [i]); [done|].
  destruct (up_run pass q) as [[]|e|]; simpl; [|apply IH|done..]. intros [= <-]. by left.
Qed.

Lemma run_sat_passes_plain q c lim passes hit : forall i,
  run_sat_passes q c lim i passes = Ok (Some hit) -> plain_hit hit.
Proof.
  induction passes as [|pass passes IH]; intros i; simpl; [done|].
  destruct (is_cancelled lim [i]); [done|].
  destruct (sp_run pass q c) as [[]|e|]; simpl; [|apply IH|done..]. intros [= <-]. by right.
Qed.

Lemma try_solve_plain `{Recognisers} q want_model config lim hit :
  try_solve q want_model config lim = Ok (Some hit) -> plain_hit hit.
Proof.
  unfold try_solve. destruct (decide _); [done|].
  destruct (run_unsat_passes q _ 0 UNSAT_PASSES) as [[[hit'|]|]|e|] eqn:E;
    cbn [mbind res_bind]; try done.
  - intros [= ->]. by eapply run_unsat_passes_plain.
  - apply run_sat_passes_plain.
Qed.

(** ** Where the engine stops *)

(** A pass of the two tables in one: where it is polled, and what it answers and claims. *)
Record TablePass := mkTablePass {
  tp_poll : list nat;
  tp_answer : res bool;
  tp_hit : ShortcutHit;
}.

Fixpoint number_passes {A} (f : nat -> A -> TablePass) (i : nat) (l : list A) : list TablePass :=
  match l with [] => [] | x :: l => f i x :: number_passes f (S i) l end.

Section table.
Context `{Recognisers}.

Definition unsat_entry (q : Query) (i : nat) (pass : UnsatPass) : TablePass :=
  mkTablePass [0; i] (up_run pass q) (mkShortcutHit (up_name pass) SolveResult.unsat).

Definition sat_entry (q : Query) (c : ShortcutContext) (i : nat) (pass : SatPass) : TablePass :=
  mkTablePass [1; i] (sp_run pass q c) (mkShortcutHit (sp_name pass) (SolveResult.sat None)).

(** The contradictions, then the witnesses. *)
Definition pass_table (q : Query) (want_model : bool) (config : Config) : list TablePass :=
  number_passes (unsat_entry q) 0 UNSAT_PASSES ++
  number_passes (sat_entry q (context_of q want_model config)) 0 SAT_PASSES.

(** The outcome of a run that stops at pass [k]. *)
Definition stops_at (lim : Limits) (table : list TablePass) (k : nat) (outcome : res (option ShortcutHit)) : Prop :=
  (forall j pass, (j < k)%nat -> table !! j = Some pass ->
     is_cancelled lim (tp_poll pass) = false /\ tp_answer pass = Ok false) /\
  match table !! k with
  | None => outcome = Ok None
  | Some pass =>
      if is_cancelled lim (tp_poll pass) then outcome = Ok None
      else match tp_answer pass with
           | Ok true => outcome = Ok (Some (tp_hit pass))
           | Ok false => False
           | Err e => outcome = Err e
           | Panic => outcome = Panic
           end
  end.

Fixpoint scan (lim : Limits) (table : list TablePass) : res (option ShortcutHit) :=
  match table with
  | [] => Ok None
  | pass :: table =>
      if is_cancelled lim (tp_poll pass) then Ok None
      else hit ← tp_answer pass; if hit : bool then Ok (Some (tp_hit pass)) else scan lim table
  end.

Lemma scan_stops lim table : exists k, (k <= length table)%nat /\ stops_at lim table k (scan lim table).
Proof.
  induction table as [|pass table (k & Hk & Hbefore & Hat)]; [by exists 0%nat|]. cbn [scan].
  assert (forall o, match (pass :: table) !! 0%nat with Some pass =>
      if is_cancelled lim (tp_poll pass) then o = Ok None
      else match tp_answer pass with Ok true => o = Ok (Some (tp_hit pass)) | Ok false => False
           | Err e => o = Err e | Panic => o = Panic end | None => o = Ok None end ->
    exists k, (k <= length (pass :: table))%nat /\ stops_at lim (pass :: table) k o) as Hhere.
  { intros o Ho. exists 0%nat. split; [lia|]. split; [lia|exact Ho]. }
  simpl in Hhere. destruct (is_cancelled lim (tp_poll pass)) eqn:Ec; [by apply Hhere|].
  destruct (tp_answer pass) as [[]|e|] eqn:Ea; cbn [mbind res_bind]; [by apply Hhere| |by apply Hhere..].
  exists (S k). split; [simpl; lia|]. split; [|exact Hat].
  intros [|j] p Hj; simpl; [intros [= <-]; done|]. apply Hbefore. lia.
Qed.

Lemma scan_unsat q lim rest passes : forall i,
  scan lim (number_passes (unsat_entry q) i passes ++ rest) =
  (early ← run_unsat_passes q (under 0 lim) i passes;
   match early with Some hit => Ok hit | None => scan lim rest end).
Proof.
  induction passes as [|pass passes IH]; intros i; simpl; [done|].
  destruct (is_cancelled lim [0; i]%nat); [done|]. destruct (up_run pass q) as [[]|e|]; simpl; [done|apply IH|done..].
Qed.

Lemma scan_sat q c lim passes : forall i,
  scan lim (number_passes (sat_entry q c) i passes) = run_sat_passes q c (under 1 lim) i passes.
Proof.
  induction passes as [|pass passes IH]; intros i; simpl; [done|].
  destruct (is_cancelled lim [1; i]%nat); [done|]. destruct (sp_run pass q c) as [[]|e|]; simpl; [done|apply IH|done..].
Qed.

Lemma try_solve_scan q want_model config lim : shortcut_mode config <> Disabled ->
  try_solve q want_model config lim = scan lim (pass_table q want_model config).
Proof.
  intros Hd. unfold try_solve, pass_table. rewrite decide_False by done. rewrite scan_unsat.
  destruct (run_unsat_passes q (under 0 lim) 0 UNSAT_PASSES) as [[hit|]|e|]; cbn [mbind res_bind]; [reflexivity| |reflexivity..].
  symmetry. apply scan_sat.
Qed.
End table.

(** ** The theorem *)

(** C39: the shortcut engine runs its passes in order and stops at the first hit.  Unless
    shortcuts are disabled, when nothing runs, there is a pass of the table (the
    contradictions, then the witnesses) at which it stops, or its end: every pass
    before was polled without seeing a cancellation and answered [false], and the result
    is that of this pass -- none when its poll sees a cancellation, its hit when it answers [true],
    its own error or panic --, and none at the end of the table.
    When the recognisers that are not modelled are sound, and the arena is one on
    which those that are can be trusted, it never panics, an [Unsat] hit is right, a
    [Sat] hit is given only when no model is wanted and is right when witnesses
    are validated, and no error is a timeout. *)
Theorem try_solve_sound `{Recognisers} q want_model config lim :
  (shortcut_mode config = Disabled -> try_solve q want_model config lim = Ok None) /\
  (shortcut_mode config <> Disabled -> exists k, (k <= length (pass_table q want_model config))%nat /\
     stops_at lim (pass_table q want_model config) k (try_solve q want_model config lim)) /\
  (SoundRecognisers -> well_formed q = true -> regular (nodes (arena q)) ->
   match try_solve q want_model config lim with
   | Ok (Some hit) => hit_post q config want_model hit
   | Ok None => True
   | Err e => e <> Timeout
   | Panic => False
   end).
Proof.
  split_and!; [by apply try_solve_disabled| |].
  - intros Hd. rewrite try_solve_scan by done. apply scan_stops.
  - intros Hs Hwf Hrg. pose proof (try_solve_spec q want_model config lim Hwf Hrg) as H'.
    destruct (try_solve q want_model config lim) as [[hit|]| |]; simpl in H'; [by apply H'|done..].
Qed.

(** Every recogniser of the interface answers [false]. *)
Definition no_recognisers : Recognisers :=
  let no (_ : Query) : res bool := Ok false in
  Build_Recognisers no no no no no no no no no no.

#[export] Instance no_recognisers_sound : SoundRecognisers (H := no_recognisers).
Proof.
  split; [|done..]. intros run q Hin _.
  by repeat (apply elem_of_cons in Hin as [->|Hin]; [done|]); apply elem_of_nil in Hin.
Qed.

(** The unsigned-successor contradiction is found whatever the other recognisers. *)
Lemma try_solve_sound_witness :
  exists hit, try_solve (H := no_recognisers) successor_query false Config.default unlimited = Ok (Some hit) /\
    hit_post successor_query Config.default false hit.
Proof.
  destruct (try_solve_sound (H := no_recognisers) successor_query false Config.default unlimited) as (_ & _ & H).
  specialize (H no_recognisers_sound eq_refl (plain_regular (nodes (arena successor_query)) eq_refl)).
  assert (exists hit, try_solve (H := no_recognisers) successor_query false Config.default unlimited
    = Ok (Some hit)) as [hit E] by (eexists; vm_compute; reflexivity).
  rewrite E in H. exists hit. split; [exact E|exact H].
Defined.
