(* ===== verification/Solver.v ===== *)
(** * The solver ([solver.rs])

    The pipeline bit-blast, encode, solve; the shortcut engine in front of it;
    optimisation by fixing the target's bits from the top; deletion-based
    unsatisfiable cores.  [limits_of] turns the configuration into the limits the
    polls consult; the world supplies what they see.  Computing the deadline panics when
    [Instant::now() + budget] is not an [Instant]. *)
From S2P Require Import Prelude Bytes Ir Config Blast Cnf Sat Model Shortcuts.

(** Adds the assertion that bit [bit] of the target is [value]: three nodes. *)
Definition assert_target_bit (q : Query) (target_term : TermId) (bit : nat) (value : bool) : res Query :=
  let steps :=
    extracted ← Arena.add (BvExtract target_term bit bit) (SBv 1);
    constant ← Arena.add (BvConst 1 [if value then 1 else 0]%Z) (SBv 1);
    Arena.add (BvEq extracted constant) SBool in
  match steps (arena q) with
  | (Ok eq, a) =>
      Ok {| arena := a; assertions := assertions q ++ [{| root := eq; name := None |}];
            assumptions := assumptions q; command := command q; target := target q;
            signed := signed q; want_model := want_model q; want_core := want_core q;
            get_values := get_values q |}
  | (Err e, _) => Err e
  | (Panic, _) => Panic
  end.

(** [bytes[bit / 8] |= 1 << (bit % 8)], out of range a panic. *)
Definition set_optimum_bit (bytes : list Z) (bit : nat) : res (list Z) :=
  byte ← index bytes (bit / 8);
  set_index bytes (bit / 8) (Z.lor byte (u8 (Z.shiftl 1 (Z.of_nat (bit mod 8))))).

(** [assertions.iter().enumerate().filter(..)]: keeps the unnamed and the active. *)
Fixpoint named_subset_from (i : nat) (l : list Assertion) (active : list nat) : list Assertion :=
  match l with
  | [] => []
  | a :: l =>
      if match name a with None => true | Some _ => false end || bool_decide (i ∈ active)
      then a :: named_subset_from (S i) l active
      else named_subset_from (S i) l active
  end.

Definition query_with_named_subset (q : Query) (active : list nat) : Query :=
  {| arena := arena q; assertions := named_subset_from 0 (assertions q) active;
     assumptions := assumptions q; command := command q; target := target q; signed := signed q;
     want_model := false; want_core := false; get_values := get_values q |}.

(** The base query of an optimisation. *)
Definition fixed_query (q : Query) : Query :=
  {| arena := arena q; assertions := assertions q; assumptions := assumptions q; command := Solve;
     target := None; signed := signed q; want_model := false; want_core := false;
     get_values := get_values q |}.

Definition prefer_one (signed minimize top : bool) : bool :=
  match signed, minimize, top with
  | false, true, _ => false
  | false, false, _ => true
  | true, true, true => true
  | true, true, false => false
  | true, false, true => false
  | true, false, false => true
  end.

Definition limit_unknown (lim : Limits) (p : list nat) : SolveResult :=
  if is_cancelled lim p then SolveResult.unknown "cancelled"
  else SolveResult.unknown "budget exhausted".

Section solver.
Context `{Backends} `{Recognisers}.
Context (config : Config).

Definition solve_core_once_with_deadline (q : Query) (want_model : bool) (lim : Limits)
    : res SolveResult :=
  if is_cancelled lim [0] then Ok (SolveResult.unknown "cancelled")
  else if deadline_passed lim [0] then Ok (SolveResult.unknown "budget exhausted")
  else
    match blast_query_with_limits q (under 1 lim) with
    | Err Timeout => Ok (limit_unknown lim [2])
    | Err err => Err err
    | Panic => Panic
    | Ok blasted =>
        match encode_with_limits (br_gates blasted) (br_assertion blasted) (under 3 lim) with
        | Err Timeout => Ok (limit_unknown lim [4])
        | Err err => Err err
        | Panic => Panic
        | Ok cnf =>
            sat ← solve_cnf_with_cancellation (sat_backend config) (num_vars cnf) (clauses cnf) []
                    (under 5 lim);
            match sat with
            | SatResult.Sat assignment =>
                m ← (if want_model
                     then m ← build_model (br_variables blasted) assignment; Ok (Some m)
                     else Ok None);
                Ok (SolveResult.sat m)
            | SatResult.Unsat => Ok SolveResult.unsat
            | SatResult.Unknown text => Ok (SolveResult.unknown text)
            end
        end
    end.

Definition audit_disagreement (hit : ShortcutHit) (core : SolveResult) : string :=
  "shortcut audit disagreement in " +:+ pass_name hit +:+ ": shortcut="
  +:+ SolveStatus.debug (status (hit_result hit)) +:+ ", core=" +:+ SolveStatus.debug (status core).

Definition solve_once_with_deadline (q : Query) (want_model : bool) (lim : Limits)
    : res SolveResult :=
  if is_cancelled lim [0] then Ok (SolveResult.unknown "cancelled")
  else
    match command q with
    | Simplify => Ok SolveResult.simplified
    | Minimize | Maximize => Err (Internal "solve_once called with optimization command")
    | Solve =>
        if deadline_passed lim [0] then Ok (SolveResult.unknown "budget exhausted")
        else
          found ← try_solve q want_model config (under 1 lim);
          match found with
          | Some hit =>
              if is_cancelled lim [2] then Ok (SolveResult.unknown "cancelled")
              else if decide (shortcut_mode config = Audit) then
                core ← solve_core_once_with_deadline q want_model (under 3 lim);
                if negb (bool_decide (status core = SolveStatus.Unknown))
                   && negb (bool_decide (status core = status (hit_result hit)))
                then Ok (SolveResult.unknown (audit_disagreement hit core))
                else Ok (hit_result hit)
              else Ok (hit_result hit)
          | None => solve_core_once_with_deadline q want_model (under 4 lim)
          end
    end.

(** The bit loop of [optimize]: [inl] is an early return. *)
Fixpoint optimize_bits (signed minimize : bool) (target_term width : nat) (lim : Limits)
    (bits : list nat) (fixed : Query) (optimum : list Z) : res (SolveResult + Query * list Z) :=
  match bits with
  | [] => Ok (inr (fixed, optimum))
  | bit :: bits =>
      let one := prefer_one signed minimize (bit =? width - 1)%nat in
      trial ← assert_target_bit fixed target_term bit one;
      r ← solve_once_with_deadline trial false (under bit lim);
      match status r with
      | SolveStatus.Sat =>
          optimum ← (if one then set_optimum_bit optimum bit else Ok optimum);
          optimize_bits signed minimize target_term width lim bits trial optimum
      | SolveStatus.Unsat =>
          fixed ← assert_target_bit fixed target_term bit (negb one);
          optimum ← (if negb one then set_optimum_bit optimum bit else Ok optimum);
          optimize_bits signed minimize target_term width lim bits fixed optimum
      | SolveStatus.Unknown => Ok (inl (SolveResult.unknown "optimization bit query unknown"))
      | SolveStatus.Simplified =>
          Ok (inl (SolveResult.unknown "optimization bit query returned SIMPLIFIED"))
      end
  end.

(** The model of the final query, when one is wanted. *)
Definition optimize_model (q fixed : Query) (lim : Limits) : res (SolveResult + option Model) :=
  if want_model q then
    r ← solve_once_with_deadline fixed true lim;
    match status r with
    | SolveStatus.Sat => Ok (inr (model r))
    | other => Ok (inl (SolveResult.unknown
                          ("optimization final model query returned " +:+ SolveStatus.debug other)))
    end
  else Ok (inr None).

Definition optimize (q : Query) (lim : Limits) : res SolveResult :=
  target_term ← (match target q with Some t => Ok t | None => Err (Invalid "optimization") end);
  s ← Arena.sort_of (arena q) target_term;
  width ← (match s with SBv width => Ok width | SBool => Err (Invalid "optimization") end);
  let minimize := bool_decide (command q = Minimize) in
  let fixed := fixed_query q in
  base ← solve_once_with_deadline fixed false (under 0 lim);
  match status base with
  | SolveStatus.Unsat => Ok SolveResult.unsat
  | SolveStatus.Unknown => Ok (SolveResult.unknown "optimization base query unknown")
  | SolveStatus.Simplified => Ok (SolveResult.unknown "optimization base query returned SIMPLIFIED")
  | SolveStatus.Sat =>
      r ← optimize_bits (signed q) minimize target_term width (under 1 lim) (reverse (seq 0 width))
            fixed (replicate (div_ceil width 8) 0%Z);
      match r with
      | inl early => Ok early
      | inr (fixed, optimum) =>
          m ← optimize_model q fixed (under 2 lim);
          match m with
          | inl early => Ok early
          | inr m => Ok (SolveResult.sat_optimization (ScalarBv width optimum) m)
          end
      end
  end.

(** The indices of the named assertions. *)
Fixpoint named_indices (i : nat) (l : list Assertion) : list nat :=
  match l with
  | [] => []
  | a :: l => match name a with Some _ => i :: named_indices (S i) l | None => named_indices (S i) l end
  end.

(** [while pos < active.len()]: every iteration decreases
    [active.len() - pos], so the fuel, whose end is a [Panic] here, is never used up. *)
Fixpoint core_loop (q : Query) (fuel : nat) (lim : Limits) (active : list nat) (pos : nat)
    : res (list nat) :=
  match fuel with
  | O => Panic
  | S fuel =>
      match active !! pos with
      | None => Ok active
      | Some candidate =>
          _ ← check_limits lim [fuel; 0];
          let trial_active := filter (fun i => i <> candidate) active in
          r ← solve_once_with_deadline (query_with_named_subset q trial_active) false
                (under fuel (under 1 lim));
          match status r with
          | SolveStatus.Unsat => core_loop q fuel lim trial_active pos
          | _ => core_loop q fuel lim active (S pos)
          end
      end
  end.

Fixpoint core_names (q : Query) (active : list nat) : res (list string) :=
  match active with
  | [] => Ok []
  | i :: active =>
      a ← index (assertions q) i;
      names ← core_names q active;
      Ok (match name a with Some n => n :: names | None => names end)
  end.

Definition extract_named_core (q : Query) (lim : Limits) : res (list string) :=
  let named := named_indices 0 (assertions q) in
  active ← core_loop q (S (length named)) lim named 0;
  core_names q active.

Definition solve (q : Query) (world : Limits) : res SolveResult :=
  let lim := limits_of config world in
  if negb (deadline_representable config world) then Panic
  else if is_cancelled lim [0] then Ok (SolveResult.unknown "cancelled")
  else
    match command q with
    | Minimize | Maximize => optimize q (under 1 lim)
    | _ =>
        result ← solve_once_with_deadline q (want_model q) (under 2 lim);
        if bool_decide (status result = SolveStatus.Unsat) && want_core q then
          match extract_named_core q (under 3 lim) with
          | Ok names => Ok (SolveResult.with_core result (Some names))
          | Err Timeout => Ok (limit_unknown lim [4])
          | Err err => Err err
          | Panic => Panic
          end
        else Ok result
    end.
End solver.

Definition solve_without_shortcuts `{Backends} `{Recognisers} (config : Config) (q : Query)
    (world : Limits) : res SolveResult :=
  solve (Config.with_shortcut_mode config Disabled) q world.

Definition solve_query `{Backends} `{Recognisers} (q : Query) (config : Config) (world : Limits)
    : res SolveResult :=
  solve config q world.

Definition unsupported_to_unknown (r : res SolveResult) : res SolveResult :=
  match r with
  | Err (Unsupported text) => Ok (SolveResult.unknown text)
  | other => other
  end.
