(* ===== verification/SolverFacts.v ===== *)
(** * Correctness of the solving pipeline

    [result_sound]: what a result claims about its query is true.  The pipeline
    is proved to give sound results from the contracts of its stages, for any
    query whose circuit has fewer than [2^31] gates ([fits]), the range in which
    the CNF's variables are [i32]s. *)
From S2P Require Import Prelude Bits Smt SmtFacts Bytes BytesFacts Ir Sem EvaluatorFacts Config.
From S2P Require Import Gates GatesFacts Blast BlastFacts BlastQuery Cnf CnfFacts Sat SatFacts.
From S2P Require Import Model ModelFacts PatternFacts Shortcuts ShortcutsFacts Solver.

(** ** Limits interrupt a run, they do not change it *)

Lemma reach_loop_unlimited a lim fuel : forall steps stack reach r,
  reach_loop a lim fuel steps stack reach = Ok r -> reach_loop a unlimited fuel steps stack reach = Ok r.
Proof.
  induction fuel as [|fuel IH]; intros steps stack reach r; [done|].
  cbn [reach_loop]. destruct stack as [|id stack]; [done|].
  assert (forall c : bool, (if c then check_limits unlimited [steps] else Ok tt) = Ok tt) as ->
    by (by intros []).
  destruct (if _ : bool then check_limits lim [steps] else Ok tt) as [[]|e|]; [|done..].
  cbn [mbind res_bind]. destruct (reach !! id) as [[]|]; [by apply IH| |done].
  destruct (Arena.node a id); [|done..]. by apply IH.
Qed.

Lemma blast_nodes_unlimited q lim reach rest : forall i ctx u ctx',
  blast_nodes q lim reach rest i ctx = (Ok u, ctx') ->
  blast_nodes q unlimited reach rest i ctx = (Ok u, ctx').
Proof.
  induction rest as [|n rest IH]; intros i ctx u ctx'; [done|].
  cbn [blast_nodes]. unfold mbind, M_bind, lift.
  assert (forall c : bool, (if c then check_limits unlimited [i] else Ok tt) = Ok tt) as ->
    by (by intros []).
  destruct (if _ : bool then check_limits lim [i] else Ok tt) as [[]|e|]; [|done..].
  destruct (included q reach i (kind n)) as [[]|e|]; [| |done..].
  - destruct (blast_kind q (u32 i) (kind n) ctx) as [[v|e|] ctx1]; [|done..].
    destruct (set_value i v ctx1) as [[[]|e|] ctx2]; [|done..]. apply IH.
  - apply IH.
Qed.

Lemma blast_unlimited q lim r :
  blast_query_with_limits q lim = Ok r -> blast_query_with_limits q unlimited = Ok r.
Proof.
  unfold blast_query_with_limits, blast_steps, mbind, M_bind, lift.
  destruct (reachable_terms q (under 0 lim)) as [reach|e|] eqn:Er; [|done..].
  rewrite (reach_loop_unlimited _ _ _ _ _ _ _ Er : reachable_terms q (under 0 unlimited) = Ok reach).
  destruct (blast_nodes q (under 1 lim) _ _ _ _) as [[u|e|] ctx] eqn:Eb; [|done..].
  by rewrite (blast_nodes_unlimited _ _ _ _ _ _ _ _ Eb
    : blast_nodes q (under 1 unlimited) reach (nodes (arena q)) 0 _ = _).
Qed.

(** The query's circuit is within the range of the CNF's [i32] variables. *)
Definition fits (q : Query) : bool :=
  match blast_query_with_limits q unlimited with
  | Ok r => (Z.of_nat (length (gates (br_gates r))) <? 2 ^ 31)%Z
  | _ => true
  end.

Lemma fits_numbered q lim r : fits q = true -> blast_query_with_limits q lim = Ok r ->
  numbered (length (gates (br_gates r))).
Proof. unfold fits, numbered. intros H E%blast_unlimited. rewrite E in H. by apply Z.ltb_lt. Qed.

(** ** Sound results *)

(** The entry is of a variable of the query: its name, its external id and a
    canonical value of its sort. *)
Definition entry_of (q : Query) (e : ModelEntry) : Prop :=
  exists n, nodes (arena q) !! me_term e = Some n /\
    match kind n with
    | BvVar w name ext => me_name e = name /\ me_external e = ext /\ value_sorted (SBv w) (me_value e)
    | BoolVar name ext => me_name e = name /\ me_external e = ext /\ value_sorted SBool (me_value e)
    | _ => False
    end.

(** Every environment a model describes satisfies the query, and there is one; its
    entries are of distinct variables of the query. *)
Record model_sound (q : Query) (m : Model) : Prop := {
  ms_described : exists env, describes m env;
  ms_satisfies : forall env, describes m env -> satisfies env q = true;
  ms_entries : Forall (entry_of q) (entries m);
  ms_distinct : NoDup (me_term <$> entries m);
}.

Lemma blasted_entries q r values es : blast_post q r -> Forall2 (entry_post values) (br_variables r) es ->
  Forall (entry_of q) es /\ NoDup (me_term <$> es).
Proof.
  intros Hr He. split.
  - pose proof (bp_node _ _ Hr) as Hn. induction He as [|v e vars es Hv _ IH]; [constructor|].
    apply Forall_cons in Hn as [(n & Hn & Hd) Hns]. constructor; [|by apply IH].
    exists n. rewrite (ep_term _ _ _ Hv). split; [done|].
    pose proof (ep_value _ _ _ Hv) as Hval. rewrite (ep_name _ _ _ Hv), (ep_external _ _ _ Hv).
    destruct (kind n); try done; destruct Hd as (-> & -> & Es); by rewrite Es in Hval.
  - assert (me_term <$> es = bv_term <$> br_variables r) as ->; [|apply Hr].
    induction He as [|v e vars es Hv _ IH]; [done|]. rewrite !fmap_cons. f_equal; [apply Hv|].
    exact IH.
Qed.

Record result_sound (q : Query) (r : SolveResult) : Prop := {
  rs_sat : status r = SolveStatus.Sat -> satisfiable q;
  rs_unsat : status r = SolveStatus.Unsat -> ~ satisfiable q;
  rs_model : forall m, model r = Some m -> model_sound q m;
}.

Lemma unknown_sound q text : result_sound q (SolveResult.unknown text).
Proof. done. Qed.

Lemma limit_unknown_sound q lim p : result_sound q (limit_unknown lim p).
Proof. unfold limit_unknown. by destruct (is_cancelled lim p). Qed.

Lemma unsat_sound q : ~ satisfiable q -> result_sound q SolveResult.unsat.
Proof. done. Qed.

(** What holds of a result when its [Sat] is relied on only under [claimed]. *)
Record result_claims (claimed : Prop) (q : Query) (r : SolveResult) : Prop := {
  rc_sat : status r = SolveStatus.Sat -> claimed -> satisfiable q;
  rc_unsat : status r = SolveStatus.Unsat -> ~ satisfiable q;
  rc_model : forall m, model r = Some m -> model_sound q m;
}.

Lemma sound_claims claimed q r : result_sound q r -> result_claims claimed q r.
Proof. intros [Hs Hu Hm]. split; auto. Qed.

Lemma claims_sound (claimed : Prop) q r : claimed -> result_claims claimed q r -> result_sound q r.
Proof. intros Hc [Hs Hu Hm]. split; auto. Qed.

(** ** From the circuit to the query *)

Section pipeline.
Context (q : Query) (r : BlastResult) (c : Cnf).
Hypothesis Hr : blast_post q r.
Hypothesis Hn : numbered (length (gates (br_gates r))).
Hypothesis Hc : cnf_post (br_gates r) (br_assertion r) c.

Let Hb : bounded (br_gates r) := numbered_bounded _ Hn.

Lemma cnf_model_env ν : cnf_holds ν (clauses c) = true ->
  exists ι, Forall (fun v => Forall (fun x => ν (S x) = gval ι (br_gates r) x) (bv_bits v)) (br_variables r) /\
    (exists env, Forall (agrees ι (br_gates r) env) (br_variables r)) /\
    forall env, Forall (agrees ι (br_gates r) env) (br_variables r) -> satisfies env q = true.
Proof.
  intros [Ha Hg]%(cp_model _ _ _ Hc). set (ι := input_of_valuation (br_gates r) ν) in *.
  exists ι. split_and!.
  - eapply Forall_impl; [exact (bp_vars _ _ Hr)|]. intros v Hv.
    eapply Forall_impl; [exact (var_range _ _ _ Hv)|]. intros x Hx. by rewrite Hg.
  - eexists. apply (bp_env _ _ Hr).
  - intros env He. by rewrite <- (bp_sem _ _ Hr Hb ι env He).
Qed.

Lemma env_cnf_model env : satisfies env q = true -> exists ν, cnf_holds ν (clauses c) = true.
Proof.
  intros Hs. pose proof (bp_input _ _ Hr Hb env) as Ha.
  eexists. apply (cp_run _ _ _ Hc (input_of_env env (br_variables r))).
  by rewrite (bp_sem _ _ Hr Hb _ env Ha).
Qed.

Lemma unsat_query : unsat (clauses c) [] -> ~ satisfiable q.
Proof. intros Hu (env & Hs). destruct (env_cnf_model env Hs) as [ν Hν]. by rewrite Hu in Hν. Qed.
End pipeline.

(** Recorded variables have legal sorts. *)
Lemma blasted_sorts q r : well_formed q = true -> blast_post q r ->
  Forall (fun v => valid_sort (bv_sort v) = true) (br_variables r).
Proof.
  intros [Hwt _]%andb_true_iff Hr. eapply Forall_impl; [exact (bp_node _ _ Hr)|].
  intros v (n & Hn & Hd).
  pose proof (well_typed_lookup _ _ _ Hwt Hn) as [Hs%bool_decide_eq_true Hv]%andb_true_iff.
  destruct (kind n); try done; simpl in Hd, Hs; destruct Hd as (_ & _ & ->); by simplify_eq; rewrite ?Hs in *.
Qed.

(** ** The core path *)

(** When no shortcut is asked for an unvalidated witness: a [Sat] without a model is then
    as good as one with a model. *)
Definition sat_claimed (config : Config) (want_model : bool) : Prop :=
  shortcut_mode config = Disabled \/ validated config want_model.

(** The answer of one solve of a query. *)
Record answer (config : Config) (q : Query) (want_model : bool) (lim : Limits) (r : SolveResult) : Prop := {
  an_sound : result_claims (sat_claimed config want_model) q r;
  an_model : want_model = true -> status r = SolveStatus.Sat -> is_Some (model r);
  an_unknown : status r = SolveStatus.Unknown -> sat_claimed config want_model -> sat_backend config = Dpll -> ~ never lim;
  an_not_simplified : status r <> SolveStatus.Simplified;
}.

Lemma answer_weaken config q wm lim lim' r : (never lim' -> never lim) ->
  answer config q wm lim r -> answer config q wm lim' r.
Proof. intros Hn [? ? Hu ?]. split; try done. intros H1 H2 H3 H4. by apply Hu, Hn. Qed.

(** What the core answers does not rely on the shortcuts. *)
Definition core_answer (config : Config) : Query -> bool -> Limits -> SolveResult -> Prop :=
  answer (Config.with_shortcut_mode config Disabled).

Lemma core_sound config q wm lim r : core_answer config q wm lim r -> result_sound q r.
Proof. intros [Hs _ _ _]. eapply claims_sound; [|exact Hs]. by left. Qed.

Lemma core_answers config q wm lim r : core_answer config q wm lim r -> answer config q wm lim r.
Proof.
  intros Ha. pose proof (core_sound _ _ _ _ _ Ha) as Hs. destruct Ha as [_ Hm Hu Hn].
  split; [by apply sound_claims|done| |done]. intros H1 _ H3. apply Hu; [done|by left|done].
Qed.

Lemma unknown_answer config q wm lim text : ~ never lim -> answer config q wm lim (SolveResult.unknown text).
Proof. intros Hn. split; [apply sound_claims, unknown_sound|done..]. Qed.

Lemma limit_unknown_answer config q wm lim lim' p : ~ never lim ->
  answer config q wm lim (limit_unknown lim' p).
Proof. intros Hn. unfold limit_unknown. destruct (is_cancelled lim' p); by apply unknown_answer. Qed.

Lemma cancelled_not_never lim p : is_cancelled lim p = true -> ~ never lim.
Proof. intros H Hn. destruct (Hn p). congruence. Qed.

Lemma expired_not_never lim p : deadline_passed lim p = true -> ~ never lim.
Proof. intros H Hn. destruct (Hn p). congruence. Qed.

Lemma under_not_never n lim : ~ never (under n lim) -> ~ never lim.
Proof. intros H Hn. by apply H, never_under. Qed.

Section core.
Context `{Backends}.

(** A satisfying assignment of the clauses makes a sound [Sat] result. *)
Lemma sat_assignment_answer config q want_model lim r c values :
  well_formed q = true -> blast_post q r -> numbered (length (gates (br_gates r))) ->
  cnf_post (br_gates r) (br_assertion r) c ->
  length values = num_vars c -> cnf_holds (valuation values) (clauses c) = true ->
  exists m, (if want_model : bool then m ← build_model (br_variables r) values; Ok (Some m) else Ok None) = Ok m /\
    core_answer config q want_model lim (SolveResult.sat m).
Proof.
  intros Hwf Hr Hn Hc Hlen Hν.
  destruct (cnf_model_env q r c Hr Hn Hc _ Hν) as (ι & Hg & Hex & Hsat).
  assert (satisfiable q) as Hs by (destruct Hex as [env He]; exists env; by apply Hsat).
  rewrite (cp_vars _ _ _ Hc) in Hlen. destruct want_model.
  - destruct (build_model_ok values _ _ _ (bp_vars _ _ Hr) Hlen (blasted_sorts _ _ Hwf Hr)) as (m & -> & Hm).
    simpl. eexists. split; [done|]. split; [apply sound_claims|by intros; eexists|done..].
    assert (forall env, describes m env <-> Forall (agrees ι (br_gates r) env) (br_variables r)) as Hd.
    { intros env. apply (describes_agrees _ _ values); [done|].
      eapply Forall_impl; [exact Hg|]. intros v Hv. eapply Forall_impl; [exact Hv|].
      intros x Hx. rewrite <- Hx. unfold valuation. do 2 f_equal. lia. }
    split; [done|done|]. intros m' [= <-]. destruct (blasted_entries q r values (entries m) Hr Hm) as [Hent Hdis].
    split; [| |done|done].
    + destruct Hex as [env He]. exists env. by apply Hd.
    + intros env He. by apply Hsat, Hd.
  - eexists. split; [done|]. split; [by split|done..].
Qed.

(** The core path. *)
Lemma solve_core_spec config q want_model lim :
  well_formed q = true -> fits q = true -> trusted (sat_backend config) ->
  exists r, solve_core_once_with_deadline config q want_model lim = Ok r /\
    core_answer config q want_model lim r.
Proof.
  intros Hwf Hfits Htr. unfold solve_core_once_with_deadline.
  destruct (is_cancelled lim [0]) eqn:Ec.
  { eexists. split; [done|]. by eapply unknown_answer, cancelled_not_never. }
  destruct (deadline_passed lim [0]) eqn:Ed.
  { eexists. split; [done|]. by eapply unknown_answer, expired_not_never. }
  pose proof (blast_query_spec q (under 1 lim) Hwf) as Hr.
  destruct (blast_query_with_limits q (under 1 lim)) as [r|e|] eqn:Eb; simpl in Hr; [| |done].
  2:{ destruct Hr as [-> Hn]. eexists. split; [done|]. by eapply limit_unknown_answer, under_not_never. }
  pose proof (fits_numbered _ _ _ Hfits Eb) as Hnum.
  pose proof (encode_spec (br_gates r) (br_assertion r) (under 3 lim) (bp_wf _ _ Hr) Hnum (bp_assertion _ _ Hr)) as Hc.
  destruct (encode_with_limits _ _ _) as [c|e|]; simpl in Hc; [| |done].
  2:{ destruct Hc as [-> Hn]. eexists. split; [done|]. by eapply limit_unknown_answer, under_not_never. }
  destruct (solve_cnf_spec (sat_backend config) (num_vars c) (clauses c) [] (under 5 lim) Htr (cp_ok _ _ _ Hc))
    as (s & -> & Hs); [constructor|]. simpl. destruct s as [values| |text].
  - destruct Hs as (Hlen & _ & Hν).
    destruct (sat_assignment_answer config q want_model lim r c values) as (m & -> & Hm); try done.
    simpl. by eexists.
  - eexists. split; [done|]. split; [|done..]. apply sound_claims, unsat_sound. by eapply unsat_query.
  - eexists. split; [done|]. split; [apply sound_claims, unknown_sound|done| |done].
    intros _ _ Hd Hn. apply Hs; [done|]. by apply never_under.
Qed.
End core.

(** ** Shortcuts in front of the core *)

(** When the shortcuts may be relied on for a solve. *)
Definition trusted_shortcuts `{Recognisers} (config : Config) (q : Query) : Prop :=
  shortcut_mode config = Disabled \/ (SoundRecognisers /\ regular (nodes (arena q))).

(** The outcome of a solve: an answer, or an error that only a recogniser can raise. *)
Definition solved (config : Config) (q : Query) (want_model : bool) (lim : Limits) (r : res SolveResult) : Prop :=
  match r with
  | Ok r => answer config q want_model lim r
  | Err e => e <> Timeout /\ shortcut_mode config <> Disabled
  | Panic => False
  end.

Lemma solved_weaken config q wm lim lim' r : (never lim' -> never lim) ->
  solved config q wm lim r -> solved config q wm lim' r.
Proof. destruct r; simpl; [|done..]. intros Hn. by apply answer_weaken. Qed.

Lemma hit_answer config q want_model lim hit : shortcut_mode config <> Disabled ->
  hit_post q config want_model hit -> answer config q want_model lim (hit_result hit).
Proof.
  intros Hd [[-> Hu]|(-> & -> & Hs)]; (split; [|done..]); [by apply sound_claims, unsat_sound|].
  split; [|done..]. intros _ [?|Hv]; [done|by apply Hs].
Qed.

(** Two sound results that decide the query agree. *)
Lemma sound_agree q r r' : result_sound q r -> result_sound q r' ->
  status r <> SolveStatus.Unknown -> status r <> SolveStatus.Simplified ->
  status r' <> SolveStatus.Unknown -> status r' <> SolveStatus.Simplified -> status r = status r'.
Proof.
  intros [Hs Hu _] [Hs' Hu' _].
  destruct (status r) eqn:E, (status r') eqn:E'; try done; intros _ _ _ _; exfalso.
  - by apply Hu', Hs.
  - by apply Hu, Hs'.
Qed.

Section once.
Context `{Backends} `{R : Recognisers}.
Context (config : Config).
Hypothesis Htr : trusted (sat_backend config).

Lemma core_solved q want_model lim : well_formed q = true -> fits q = true ->
  solved config q want_model lim (solve_core_once_with_deadline config q want_model lim).
Proof.
  intros Hwf Hf. destruct (solve_core_spec config q want_model lim Hwf Hf Htr) as (r & -> & Hr). by apply core_answers.
Qed.

(** The answer after a hit, whether or not it is audited. *)
Lemma hit_solved q want_model lim hit : well_formed q = true -> fits q = true ->
  shortcut_mode config <> Disabled -> hit_post q config want_model hit ->
  solved config q want_model lim
    (if decide (shortcut_mode config = Audit) then
       core ← solve_core_once_with_deadline config q want_model (under 3 lim);
       if negb (bool_decide (status core = SolveStatus.Unknown))
          && negb (bool_decide (status core = status (hit_result hit)))
       then Ok (SolveResult.unknown (audit_disagreement hit core))
       else Ok (hit_result hit)
     else Ok (hit_result hit)).
Proof.
  intros Hwf Hf Hd Hh. pose proof (hit_answer config q want_model lim hit Hd Hh) as Ha.
  destruct (decide _); [|done].
  destruct (solve_core_spec config q want_model (under 3 lim) Hwf Hf Htr) as (core & -> & Hc). simpl.
  repeat case_bool_decide; simpl; try done. split; [apply sound_claims, unknown_sound|done| |done].
  intros _ Hcl. exfalso.
  match goal with H : status core <> status (hit_result hit) |- _ => apply H end.
  apply (sound_agree q); [by eapply core_sound|by eapply claims_sound, Ha|done|apply Hc|..];
    by destruct Hh as [[-> _]|[-> _]].
Qed.

Lemma solve_once_solved q want_model lim : well_formed q = true -> fits q = true ->
  command q = Solve -> trusted_shortcuts config q ->
  solved config q want_model lim (solve_once_with_deadline config q want_model lim).
Proof.
  intros Hwf Hf Hcmd Hsc. unfold solve_once_with_deadline.
  destruct (is_cancelled lim [0]) eqn:Ec; [by eapply unknown_answer, cancelled_not_never|].
  rewrite Hcmd. destruct (deadline_passed lim [0]) eqn:Ed; [by eapply unknown_answer, expired_not_never|].
  destruct (decide (shortcut_mode config = Disabled)) as [Hd|Hd].
  { rewrite try_solve_disabled by done. simpl.
    apply (solved_weaken _ _ _ (under 4 lim)); [apply never_under|by apply core_solved]. }
  destruct Hsc as [?|[Hs Hrg]]; [done|].
  pose proof (try_solve_spec q want_model config (under 1 lim) Hwf Hrg) as Hh.
  destruct (try_solve q want_model config (under 1 lim)) as [[hit|]|e|] eqn:Et; simpl in *; [| | |done].
  - destruct (is_cancelled lim [2]) eqn:Ec2; [by eapply unknown_answer, cancelled_not_never|].
    by apply hit_solved, Hh.
  - apply (solved_weaken _ _ _ (under 4 lim)); [apply never_under|by apply core_solved].
  - done.
Qed.
End once.

(** ** Theorems *)

(** Limits only interrupt bit-blasting.  A run that is not interrupted gives
    the result an unlimited run gives, whatever its polls saw. *)
Theorem blast_limits_only_interrupt q lim :
  match blast_query_with_limits q lim with
  | Ok r => blast_query_with_limits q unlimited = Ok r
  | _ => True
  end.
Proof. destruct (blast_query_with_limits q lim) eqn:E; [by eapply blast_unlimited|done..]. Qed.

(** [Audit] mode contains a wrong recogniser.  Whatever the recognisers
    answer, with the bundled SAT solver and no limit observed, the status and the
    model of every result are right: a hit that the core path contradicts is
    turned into [Unknown]. *)
Lemma audit_mode_sound `{Backends} `{Recognisers} config q want_model lim r :
  shortcut_mode config = Audit -> sat_backend config = Dpll -> never lim ->
  well_formed q = true -> fits q = true ->
  solve_once_with_deadline config q want_model lim = Ok r -> result_sound q r.
Proof.
  intros Ha Hd Hn Hwf Hf. unfold solve_once_with_deadline.
  destruct (is_cancelled lim [0]); [by intros [= <-]|].
  destruct (command q); [|by intros [= <-]|done..].
  destruct (deadline_passed lim [0]); [by intros [= <-]|].
  assert (trusted (sat_backend config)) as Htr by (by rewrite Hd).
  destruct (try_solve q want_model config (under 1 lim)) as [[hit|]|e|] eqn:Et; cbn [mbind res_bind]; try done.
  - destruct (is_cancelled lim [2]); [by intros [= <-]|]. rewrite decide_True by done.
    destruct (solve_core_spec config q want_model (under 3 lim) Hwf Hf Htr) as (core & -> & Hca).
    destruct (core_sound _ _ _ _ _ Hca) as [Hs Hu _]. pose proof (fun E => an_unknown _ _ _ _ _ Hca E (or_introl eq_refl) Hd) as Hk.
    cbn [mbind res_bind].
    assert (never (under 3 lim)) as Hn3 by by apply never_under.
    rewrite bool_decide_eq_false_2 by (intros E; by apply (Hk E)). simpl.
    destruct (bool_decide_reflect (status core = status (hit_result hit))) as [E|E]; simpl; intros [= <-]; [|done].
    apply try_solve_plain in Et as [Eh|Eh]; rewrite Eh in *; split; try done; intros _; auto.
  - destruct (solve_core_spec config q want_model (under 4 lim) Hwf Hf Htr) as (core & -> & Hca).
    intros [= <-]. by eapply core_sound.
Qed.

(** A recogniser that calls every query unsatisfiable. *)
Definition wrong_recogniser : Recognisers :=
  let no (_ : Query) : res bool := Ok false in
  Build_Recognisers (fun _ => Ok true) no no no no no no no no no.

