(* ===== verification/OptimizeFacts.v ===== *)
(** * Optimisation

    [optimize] fixes the target's bits from the most significant down, preferring
    at each the better one.  The constraint it adds says exactly that a bit of the
    target has a value; the value it assembles is attained by a satisfying
    environment and no satisfying environment does better. *)
From S2P Require Import Prelude Bits Smt SmtFacts Bytes BytesFacts Ir Sem EvaluatorFacts Config Sat.
From S2P Require Import SatFacts BlastFacts Model ModelFacts RecogniserFacts PatternFacts Shortcuts.
From S2P Require Import ShortcutsFacts Solver SolverFacts.

#[local] Open Scope Z_scope.

(** ** Adding nodes *)

(** A one-bit extract compared with a constant bit. *)
Lemma extract_bit v bit (x : bool) :
  (bvextract bit bit v =? bval [if x then 1 else 0]) = eqb (Z.testbit v (Z.of_nat bit)) x.
Proof.
  assert (bvextract bit bit v = Z.b2z (Z.testbit v (Z.of_nat bit))) as ->.
  { unfold bvextract. replace (bit - bit + 1)%nat with 1%nat by lia.
    change (pow2 1) with 2. rewrite Zmod_odd, <- Z.bit0_odd, Z.shiftr_spec by lia.
    rewrite Z.add_0_l. by destruct (Z.testbit v _). }
  by destruct (Z.testbit v _), x.
Qed.

(** ** The constraint [assert_target_bit] adds *)

Definition agrees_bits (v : Z) (l : list (nat * bool)) : bool :=
  forallb (fun c => eqb (Z.testbit v (Z.of_nat c.1)) c.2) l.

Definition target_value (env : Env) (q : Query) (t : TermId) : Z := sem_bv (denote env (nodes (arena q))) t.

(** The kinds of the nodes the constraints add. *)
Definition constraint_kind (k : NodeKind) : bool :=
  match k with BvExtract _ _ _ | BvConst _ _ | BvEq _ _ => true | _ => false end.

Lemma constraint_not_var k : constraint_kind k = true -> var_kind k = false.
Proof. by destruct k. Qed.

Lemma constraint_plain k : constraint_kind k = true -> plain_kind k = true.
Proof. by destruct k. Qed.

(** [fixed] is [q] with the target's bits constrained as [l] says. *)
Record fixes (q : Query) (t : TermId) (l : list (nat * bool)) (fixed : Query) : Prop := {
  fx_arena : wf_arena (arena fixed);
  fx_prefix : nodes (arena q) `prefix_of` nodes (arena fixed);
  fx_length : (length (nodes (arena fixed)) <= length (nodes (arena q)) + 3 * length l)%nat;
  fx_form : well_formed fixed = true;
  fx_command : command fixed = command q;
  fx_new : forall i n, nodes (arena fixed) !! i = Some n -> nodes (arena q) !! i = Some n \/ constraint_kind (kind n) = true;
  fx_sem : forall env, satisfies env fixed = satisfies env q && agrees_bits (target_value env q t) l;
}.

Lemma satisfies_grow env q ns : well_formed q = true -> nodes (arena q) `prefix_of` ns ->
  forallb (sem_bool (denote env ns)) (assertions_and_assumptions q) = satisfies env q.
Proof.
  intros Hwf Hp. apply forallb_ext_in. intros t Ht. apply sem_bool_prefix; [done|].
  by apply bool_at_lt, well_formed_roots.
Qed.

(** The constraints do not disturb what the shortcuts rely on. *)
Lemma fixes_trusted `{Recognisers} config q t l fixed : fixes q t l fixed ->
  trusted_shortcuts config q -> trusted_shortcuts config fixed.
Proof.
  intros Hf [?|[? Hrg]]; [by left|right]. split; [done|].
  apply (grow_regular (nodes (arena q))); [apply Hf|apply wf_typed, Hf| |done].
  intros i n [?|?%constraint_plain]%(fx_new _ _ _ _ Hf); auto.
Qed.

(** The three nodes of the constraint and what they mean. *)
Lemma constraint_nodes a t w bit (x : bool) : wf_arena a -> width_at (nodes a) t = Some w -> (bit < w)%nat ->
  Z.of_nat (length (nodes a)) + 3 <= 2 ^ 32 ->
  exists eq a', (extracted ← Arena.add (BvExtract t bit bit) (SBv 1);
     constant ← Arena.add (BvConst 1 [if x then 1 else 0]) (SBv 1);
     Arena.add (BvEq extracted constant) SBool) a = (Ok eq, a') /\
    wf_arena a' /\ nodes a `prefix_of` nodes a' /\ (length (nodes a') <= length (nodes a) + 3)%nat /\
    bool_at (nodes a') eq = true /\
    (forall i n, nodes a' !! i = Some n -> nodes a !! i = Some n \/ constraint_kind (kind n) = true) /\
    forall env, sem_bool (denote env (nodes a')) eq =
      eqb (Z.testbit (sem_bv (denote env (nodes a)) t) (Z.of_nat bit)) x.
Proof.
  intros Hwf Hw Hbit Hl.
  destruct (add_added a (BvExtract t bit bit) (SBv 1)) as (e & a1 & E1 & [Hwf1 Hn1 Hp1 Hl1 Hv1]); [done| |lia|].
  { unfold node_ok. simpl. rewrite Hw. simpl. rewrite leb_t, ltb_t by lia. simpl.
    by replace (bit - bit + 1)%nat with 1%nat by lia. }
  destruct (add_added a1 (BvConst 1 [if x then 1 else 0]) (SBv 1)) as (c & a2 & E2 & [Hwf2 Hn2 Hp2 Hl2 Hv2]);
    [done|by destruct x|lia|].
  assert (nodes a2 !! e = Some (mkNode (BvExtract t bit bit) (SBv 1))) as He2 by (by eapply prefix_lookup_Some).
  destruct (add_added a2 (BvEq e c) SBool) as (eq & a3 & E3 & [Hwf3 Hn3 Hp3 Hl3 Hv3]); [done| |lia|].
  { unfold node_ok. simpl. unfold binary_width, width_at. by rewrite He2, Hn2. }
  exists eq, a3. split_and!.
  - unfold mbind, M_bind. by rewrite E1, E2, E3.
  - done.
  - by do 2 (etransitivity; [eassumption|]).
  - lia.
  - unfold bool_at. by rewrite Hn3.
  - intros i n H. apply Hv3 in H as [H| ->]; [|by right]. apply Hv2 in H as [H| ->]; [|by right].
    apply Hv1 in H as [H| ->]; [by left|by right].
  - intros env. pose proof (wf_typed _ Hwf3) as Hwt.
    rewrite (denote_eq env (nodes a3) Hwt _ e c _ Hn3).
    rewrite (denote_extract env (nodes a3) Hwt e t bit bit (SBv 1)) by (by eapply prefix_lookup_Some).
    rewrite (denote_const env (nodes a3) c 1 [if x then 1 else 0] (SBv 1)) by (by eapply prefix_lookup_Some).
    rewrite extract_bit. do 2 f_equal. apply sem_bv_prefix.
    + by do 2 (etransitivity; [eassumption|]).
    + unfold width_at in Hw. destruct (nodes a !! t) eqn:Et; [|done]. by eapply lookup_lt_Some.
Qed.

Lemma assert_target_bit_spec q t w l fixed bit x : fixes q t l fixed ->
  width_at (nodes (arena q)) t = Some w -> (bit < w)%nat ->
  Z.of_nat (length (nodes (arena q)) + 3 * S (length l)) <= 2 ^ 32 ->
  exists fixed', assert_target_bit fixed t bit x = Ok fixed' /\ fixes q t (l ++ [(bit, x)]) fixed'.
Proof.
  intros [Ha Hp Hl Hform Hcmd Hvars Hsem] Hw Hbit Hmax.
  destruct (constraint_nodes (arena fixed) t w bit x Ha) as (eq & a' & E & Ha' & Hp' & Hl' & Hb & Hv' & Heq);
    [by eapply width_at_grow|done|lia|].
  unfold assert_target_bit. rewrite E. eexists. split; [done|].
  assert (forall env, target_value env fixed t = target_value env q t) as Htv.
  { intros env. apply sem_bv_prefix; [done|]. unfold width_at in Hw.
    destruct (nodes (arena q) !! t) eqn:Et; [|done]. by eapply lookup_lt_Some. }
  split; simpl; try done.
  - by etransitivity.
  - rewrite length_app. simpl. lia.
  - pose proof Hform as [_ [_ [Ht _]%andb_true_iff]%andb_true_iff]%andb_true_iff.
    unfold well_formed. simpl. rewrite !andb_true_iff. split_and!; [apply Ha'| | |].
    + unfold assertions_and_assumptions. simpl. rewrite fmap_app, !forallb_app. simpl.
      rewrite Hb, andb_true_r, <- forallb_app. apply forallb_forall. intros u Hu%list_elem_of_In.
      by eapply bool_at_grow, well_formed_roots.
    + destruct (target fixed); [|done]. apply Nat.ltb_lt. apply Nat.ltb_lt in Ht.
      apply prefix_length in Hp'. lia.
    + apply Z.leb_le. lia.
  - intros i n Hn. apply Hv' in Hn as [Hn|Hk]; [by apply Hvars|by right].
  - intros env. unfold satisfies, assertions_and_assumptions. simpl.
    rewrite fmap_app, !forallb_app. simpl. rewrite (Heq env), !andb_true_r.
    pose proof (satisfies_grow env fixed (nodes a') Hform Hp') as Hg.
    unfold assertions_and_assumptions in Hg. rewrite forallb_app, Hsem in Hg.
    unfold agrees_bits in *. rewrite forallb_app. simpl. rewrite andb_true_r.
    change (sem_bv (denote env (nodes (arena fixed))) t) with (target_value env fixed t). rewrite Htv.
    unfold satisfies, assertions_and_assumptions in Hg. rewrite forallb_app in Hg.
    rewrite <- andb_assoc, (andb_comm (eqb _ _)), !andb_assoc. by rewrite Hg.
Qed.

(** ** Comparing bit by bit *)

(** [v] is no better than the chosen bits [l]: it agrees with them, or at the
    first disagreement the chosen bit is the preferred one. *)
Fixpoint lex_le (pref : nat -> bool) (v : Z) (l : list (nat * bool)) : bool :=
  match l with
  | [] => true
  | (b, x) :: l => if eqb (Z.testbit v (Z.of_nat b)) x then lex_le pref v l else eqb x (pref b)
  end.

Lemma lex_le_snoc pref v l b x : lex_le pref v l = true ->
  (agrees_bits v l = true -> Z.testbit v (Z.of_nat b) = x \/ x = pref b) ->
  lex_le pref v (l ++ [(b, x)]) = true.
Proof.
  induction l as [|[c y] l IH]; simpl; intros Hl Hx.
  - destruct (eqb _ x) eqn:E; [done|]. destruct (Hx eq_refl) as [<-| ->]; [|by apply eqb_true_iff].
    by rewrite eqb_reflx in E.
  - destruct (eqb (Z.testbit v (Z.of_nat c)) y) eqn:E; [|done]. by apply IH.
Qed.

(** The [k] low bits of [z], from the top. *)
Definition low_bits (z : Z) (k : nat) : list (nat * bool) :=
  (fun b => (b, Z.testbit z (Z.of_nat b))) <$> reverse (seq 0 k).

Lemma low_bits_S z k : low_bits z (S k) = (k, Z.testbit z (Z.of_nat k)) :: low_bits z k.
Proof. unfold low_bits. by rewrite seq_S, reverse_snoc. Qed.

(** With one preference for all bits this is the order of the integers. *)
Lemma lex_le_order pref v z k c : (forall b, (b < k)%nat -> pref b = c) ->
  lex_le pref v (low_bits z k) = true ->
  if c : bool then v mod pow2 k <= z mod pow2 k else z mod pow2 k <= v mod pow2 k.
Proof.
  induction k as [|k IH]; intros Hp H.
  { change (pow2 0) with 1. rewrite !Z.mod_1_r. by destruct c. }
  rewrite low_bits_S in H. simpl in H. rewrite !mod_pow2_S.
  pose proof (Z.mod_pos_bound v (pow2 k) (pow2_pos k)). pose proof (Z.mod_pos_bound z (pow2 k) (pow2_pos k)).
  destruct (eqb (Z.testbit v (Z.of_nat k)) (Z.testbit z (Z.of_nat k))) eqn:E.
  - apply eqb_prop in E. rewrite E. specialize (IH ltac:(intros; apply Hp; lia) H). destruct c; lia.
  - apply eqb_prop in H. rewrite (Hp k) in H by lia. rewrite H in *.
    destruct (Z.testbit v (Z.of_nat k)), c; simpl in *; try done; lia.
Qed.

(** ** The order each command asks for *)

(** [v] is at least as good as [u]. *)
Definition no_better (sgnd minimize : bool) (w : nat) (u v : Z) : Prop :=
  let value x := if sgnd then sval w x else x in
  if minimize then value v <= value u else value u <= value v.

Lemma sval_split w v : 0 <= v < pow2 (S w) ->
  sval (S w) v = v mod pow2 w - Z.b2z (Z.testbit v (Z.of_nat w)) * pow2 w.
Proof.
  intros Hv. pose proof (mod_pow2_S v w) as H. rewrite Z.mod_small in H by done.
  unfold sval. rewrite pow2_S in *. pose proof (Z.mod_pos_bound v (pow2 w) (pow2_pos w)).
  destruct (Z.testbit v (Z.of_nat w)); simpl in *; destruct (Z.leb_spec (2 * pow2 w) (2 * v)); lia.
Qed.

Lemma lex_le_no_better sgnd minimize w u v : (0 < w)%nat -> 0 <= u < pow2 w -> 0 <= v < pow2 w ->
  lex_le (fun b => prefer_one sgnd minimize (b =? w - 1)%nat) u (low_bits v w) = true ->
  no_better sgnd minimize w u v.
Proof.
  intros Hw Hu Hv H. unfold no_better. destruct sgnd.
  - destruct w as [|w]; [lia|]. rewrite !sval_split by done.
    rewrite low_bits_S in H. simpl in H. rewrite Nat.sub_0_r, Nat.eqb_refl in H.
    pose proof (Z.mod_pos_bound u (pow2 w) (pow2_pos w)). pose proof (Z.mod_pos_bound v (pow2 w) (pow2_pos w)).
    destruct (eqb (Z.testbit u (Z.of_nat w)) (Z.testbit v (Z.of_nat w))) eqn:E.
    + apply eqb_prop in E. rewrite E.
      apply (lex_le_order _ _ _ _ (negb minimize)) in H; [destruct minimize; simpl in H; lia|].
      intros b Hb. rewrite (proj2 (Nat.eqb_neq b w)) by lia. by destruct minimize.
    + apply eqb_prop in H. destruct (Z.testbit u (Z.of_nat w)), (Z.testbit v (Z.of_nat w)), minimize;
        simpl in *; try done; lia.
  - apply (lex_le_order _ _ _ _ (negb minimize)) in H.
    + rewrite !Z.mod_small in H by done. by destruct minimize.
    + intros b _. by destruct minimize, (b =? w - 1)%nat.
Qed.

(** ** The optimum under construction *)

(** The bits of [opt] from [w - 1] down to [k], in the order they were chosen. *)
Definition chosen (k w : nat) (opt : list Z) : list (nat * bool) :=
  (fun b => (b, get_bit opt b)) <$> reverse (seq k (w - k)).

Record building (k w : nat) (opt : list Z) : Prop := {
  bu_length : length opt = div_ceil w 8;
  bu_bytes : Forall is_byte opt;
  bu_low : forall b, (b < k)%nat -> get_bit opt b = false;
  bu_high : forall b, (w <= b)%nat -> get_bit opt b = false;
}.

Lemma building_initial w : building w w (replicate (div_ceil w 8) 0).
Proof.
  split; [by rewrite length_replicate|by apply bytes_replicate, is_byte_0|..]; intros; apply get_bit_zero.
Qed.

Lemma chosen_length k w opt : length (chosen k w opt) = (w - k)%nat.
Proof. unfold chosen. by rewrite length_fmap, length_reverse, length_seq. Qed.

(** Choosing the next bit down. *)
Lemma building_step k w opt (x : bool) : (S k <= w)%nat -> building (S k) w opt ->
  exists opt', (if x then set_optimum_bit opt k else Ok opt) = Ok opt' /\ building k w opt' /\
    chosen k w opt' = chosen (S k) w opt ++ [(k, x)].
Proof.
  intros Hk [Hl Hb Hlow Hhigh]. pose proof (div_ceil_8_bounds w) as Hd.
  set (opt' := if x then set_bit opt k else opt).
  assert (forall b, get_bit opt' b = get_bit opt b || (x && (b =? k)%nat)) as Hbit.
  { intros b. unfold opt'. destruct x; [|by rewrite orb_false_r]. rewrite get_set_bit, andb_true_l.
    destruct (Nat.eqb_spec b k) as [->|]; [|done]. rewrite (ltb_t k) by lia. done. }
  exists opt'. split; [|split].
  - unfold opt'. destruct x; [|done]. apply fill_step. lia.
  - split.
    + unfold opt'. destruct x; [by rewrite length_set_bit|done].
    + unfold opt'. destruct x; [by apply bytes_set_bit|done].
    + intros b Hb'. rewrite Hbit, Hlow by lia. rewrite (proj2 (Nat.eqb_neq b k)) by lia. apply andb_false_r.
    + intros b Hb'. rewrite Hbit, Hhigh by lia. rewrite (proj2 (Nat.eqb_neq b k)) by lia. apply andb_false_r.
  - unfold chosen. replace (w - k)%nat with (S (w - S k)) by lia.
    cbn [seq]. rewrite reverse_cons, fmap_app. simpl. f_equal.
    + apply list_fmap_ext. intros i b Hi. apply list_elem_of_lookup_2, elem_of_reverse, elem_of_seq in Hi.
      rewrite Hbit, (proj2 (Nat.eqb_neq b k)) by lia. by rewrite andb_false_r, orb_false_r.
    + rewrite Hbit, Hlow, Nat.eqb_refl by lia. by rewrite andb_true_r.
Qed.

(** The finished optimum. *)
Lemma building_repr w opt : building 0 w opt -> bv_repr w opt (bval opt).
Proof.
  intros [Hl Hb _ Hhigh]. assert (0 <= bz (get_bit opt <$> seq 0 w) < pow2 w) as Hz.
  { pose proof (bz_bound (get_bit opt <$> seq 0 w)) as H. by rewrite length_fmap, length_seq in H. }
  assert (bv_repr w opt (bz (get_bit opt <$> seq 0 w))) as H.
  { apply repr_intro; [done..|]. intros i _. rewrite testbit_bz, list_lookup_fmap.
    destruct (decide (i < w)%nat); [by rewrite lookup_seq_lt by done|].
    rewrite lookup_ge_None_2 by (rewrite length_seq; lia). apply Hhigh. lia. }
  by rewrite (repr_val _ _ _ H).
Qed.

Lemma chosen_low_bits w opt : building 0 w opt -> chosen 0 w opt = low_bits (bval opt) w.
Proof.
  intros H. unfold chosen, low_bits. rewrite Nat.sub_0_r. apply list_fmap_ext. intros i b _.
  by rewrite (repr_testbit _ _ _ b (building_repr _ _ H)).
Qed.

Lemma agrees_low_bits u v w : 0 <= u < pow2 w -> 0 <= v < pow2 w ->
  agrees_bits u (low_bits v w) = true <-> u = v.
Proof.
  intros Hu Hv. unfold agrees_bits. rewrite forallb_forall. split.
  - intros H. apply (Z_ext_w w); [done..|]. intros i Hi.
    specialize (H (i, Z.testbit v (Z.of_nat i))). simpl in H. apply eqb_prop, H.
    apply list_elem_of_In. unfold low_bits. apply list_elem_of_fmap. exists i. split; [done|].
    apply elem_of_reverse, elem_of_seq. lia.
  - intros -> [b x] Hin%list_elem_of_In. unfold low_bits in Hin.
    apply list_elem_of_fmap in Hin as (i & [= -> ->] & _). apply eqb_reflx.
Qed.

(** ** The loop *)

Fixpoint fix_bits (q : Query) (t : TermId) (l : list (nat * bool)) : res Query :=
  match l with
  | [] => Ok q
  | (bit, x) :: l => q ← assert_target_bit q t bit x; fix_bits q t l
  end.

Lemma fix_bits_snoc q t l bit x : fix_bits q t (l ++ [(bit, x)]) =
  (q ← fix_bits q t l; assert_target_bit q t bit x).
Proof.
  revert q. induction l as [|[b y] l IH]; intros q; simpl.
  - by destruct (assert_target_bit q t bit x).
  - destruct (assert_target_bit q t b y); simpl; [apply IH|done..].
Qed.

(** The queries the loop solves: the top bits of the target fixed one way or another. *)
Definition trials_fit (q : Query) (t : TermId) (w : nat) : Prop :=
  forall l fixed, l.*1 `prefix_of` reverse (seq 0 w) -> fix_bits (fixed_query q) t l = Ok fixed -> fits fixed = true.

Section loop.
Context `{Backends} `{Recognisers}.
Context (config : Config) (q : Query) (t : TermId) (w : nat) (minimize : bool).
Hypothesis Htr : trusted (sat_backend config).
Hypothesis Hsc : trusted_shortcuts config q.
Hypothesis Hw : width_at (nodes (arena q)) t = Some w.
Hypothesis Hmax : Z.of_nat (length (nodes (arena q)) + 3 * w) <= 2 ^ 32.
Hypothesis Hfit : trials_fit q t w.

Let base := fixed_query q.
Let pref (b : nat) : bool := prefer_one (signed q) minimize (b =? w - 1)%nat.

(** The state after the bits from [k] up are decided. *)
Record state (k : nat) (fixed : Query) (opt : list Z) : Prop := {
  st_fixes : fixes base t (chosen k w opt) fixed;
  st_query : fix_bits base t (chosen k w opt) = Ok fixed;
  st_building : building k w opt;
  st_sat : sat_claimed config false -> satisfiable fixed;
  st_best : forall env, satisfies env q = true -> lex_le pref (target_value env q t) (chosen k w opt) = true;
}.

Lemma chosen_prefix k opt : (k <= w)%nat -> (chosen k w opt).*1 `prefix_of` reverse (seq 0 w).
Proof.
  intros Hk. unfold chosen. rewrite <- list_fmap_compose, list_fmap_id. exists (reverse (seq 0 k)).
  rewrite <- reverse_app. f_equal. rewrite <- (Nat.sub_add k w) at 1 by done.
  by rewrite Nat.add_comm, seq_app.
Qed.

Lemma trial_solved l fixed want_model lim : fixes base t l fixed -> fix_bits base t l = Ok fixed ->
  l.*1 `prefix_of` reverse (seq 0 w) ->
  solved config fixed want_model lim (solve_once_with_deadline config fixed want_model lim).
Proof.
  intros Hf He Hp. apply solve_once_solved; [done|apply Hf|by eapply Hfit|apply Hf|by apply (fixes_trusted config base t l fixed Hf)].
Qed.

(** Fixing the next bit to [x] keeps the state. *)
Lemma state_step k fixed opt (x : bool) fixed' : (S k <= w)%nat -> state (S k) fixed opt ->
  assert_target_bit fixed t k x = Ok fixed' -> fixes base t (chosen (S k) w opt ++ [(k, x)]) fixed' ->
  (sat_claimed config false -> satisfiable fixed') ->
  (forall env, satisfies env q = true -> agrees_bits (target_value env q t) (chosen (S k) w opt) = true ->
     Z.testbit (target_value env q t) (Z.of_nat k) = x \/ x = pref k) ->
  exists opt', (if x then set_optimum_bit opt k else Ok opt) = Ok opt' /\ state k fixed' opt'.
Proof.
  intros Hk [Hf Hq Hb Hs Hbest] E Hf' Hs' Hx.
  destruct (building_step k w opt x Hk Hb) as (opt' & Eo & Hb' & Hc). exists opt'. split; [done|].
  split; rewrite ?Hc; try done.
  - by rewrite fix_bits_snoc, Hq.
  - intros env He. apply lex_le_snoc; [by apply Hbest|]. by apply Hx.
Qed.

Definition early_ok (lim : Limits) (r : SolveResult) : Prop :=
  (exists text, r = SolveResult.unknown text) /\ (sat_claimed config false -> sat_backend config = Dpll -> ~ never lim).

Definition loop_post (lim : Limits) (r : res (SolveResult + Query * list Z)) : Prop :=
  match r with
  | Ok (inl r) => early_ok lim r
  | Ok (inr (fixed, opt)) => state 0 fixed opt
  | Err _ => shortcut_mode config <> Disabled
  | Panic => False
  end.

Lemma optimize_bits_spec lim k : forall fixed opt, (k <= w)%nat -> state k fixed opt ->
  loop_post lim (optimize_bits config (signed q) minimize t w lim (reverse (seq 0 k)) fixed opt).
Proof.
  induction k as [|k IH]; intros fixed opt Hk Hst; [done|].
  rewrite seq_S, reverse_snoc. cbn [optimize_bits]. rewrite Nat.add_0_l. fold (pref k).
  pose proof Hst as [Hf Hq Hb Hs Hbest].
  assert (forall x, exists fixed', assert_target_bit fixed t k x = Ok fixed' /\
    fixes base t (chosen (S k) w opt ++ [(k, x)]) fixed') as Hstep.
  { intros x. eapply assert_target_bit_spec; [done|exact Hw|lia|].
    rewrite chosen_length. simpl. lia. }
  destruct (Hstep (pref k)) as (trial & Et & Hft). rewrite Et. cbn [mbind res_bind].
  destruct (building_step k w opt (pref k) Hk Hb) as (optp & _ & _ & Hcp).
  assert (solved config trial false (under k lim)
    (solve_once_with_deadline config trial false (under k lim))) as Hsol.
  { apply (trial_solved _ trial false (under k lim) Hft); [by rewrite fix_bits_snoc, Hq|].
    rewrite <- Hcp. apply chosen_prefix. lia. }
  destruct (solve_once_with_deadline config trial false (under k lim)) as [r|e|]; simpl in Hsol; [|by destruct Hsol|done].
  cbn [mbind res_bind]. destruct Hsol as [[Hrs Hru _] _ Hunk Hsimp]. destruct (status r) eqn:Es.
  - destruct (state_step k fixed opt (pref k) trial Hk Hst Et Hft (Hrs eq_refl)) as (opt' & -> & Hst').
    { intros env _ _. by right. }
    cbn [mbind res_bind]. apply IH; [lia|done].
  - destruct (Hstep (negb (pref k))) as (other & Eo & Hfo). rewrite Eo. cbn [mbind res_bind].
    assert (forall env, satisfies env q = true -> agrees_bits (target_value env q t) (chosen (S k) w opt) = true ->
      Z.testbit (target_value env q t) (Z.of_nat k) = negb (pref k)) as Hforced.
    { intros env He Hag. destruct (decide (Z.testbit (target_value env q t) (Z.of_nat k) = pref k)) as [E|E].
      - exfalso. apply Hru; [done|]. exists env. rewrite (fx_sem _ _ _ _ Hft).
        unfold agrees_bits in *. rewrite forallb_app. simpl.
        change (satisfies env base) with (satisfies env q). change (target_value env base t) with (target_value env q t).
        by rewrite He, Hag, E, eqb_reflx.
      - by destruct (Z.testbit _ _), (pref k). }
    assert (sat_claimed config false -> satisfiable other) as Hso.
    { intros Hcl. destruct (Hs Hcl) as (env & He). exists env. rewrite (fx_sem _ _ _ _ Hfo).
      rewrite (fx_sem _ _ _ _ Hf) in He. apply andb_true_iff in He as [He Hag].
      unfold agrees_bits in *. rewrite forallb_app, He, Hag. simpl.
      change (target_value env base t) with (target_value env q t).
      rewrite Hforced by done. by rewrite eqb_reflx. }
    destruct (state_step k fixed opt (negb (pref k)) other Hk Hst Eo Hfo Hso) as (opt' & -> & Hst').
    { intros env He Hag. left. by apply Hforced. }
    cbn [mbind res_bind]. apply IH; [lia|done].
  - split; [by eexists|]. intros Hcl Hd Hn. apply Hunk; [done..|]. by apply never_under.
  - done.
Qed.
End loop.

(** ** The contract of [optimize] *)

(** A satisfying environment gives the target the value. *)
Definition attained (q : Query) (t : TermId) (z : Z) : Prop :=
  exists env, satisfies env q = true /\ target_value env q t = z.

(** No satisfying environment gives it a better one. *)
Definition unbeaten (q : Query) (t : TermId) (w : nat) (minimize : bool) (z : Z) : Prop :=
  forall env, satisfies env q = true -> no_better (signed q) minimize w (target_value env q t) z.

Definition optimize_post (config : Config) (lim : Limits) (q : Query) (t : TermId) (w : nat)
    (minimize : bool) (r : SolveResult) : Prop :=
  match status r with
  | SolveStatus.Sat => exists bytes z,
      optimum r = Some (ScalarBv w bytes) /\ bv_repr w bytes z /\ unbeaten q t w minimize z /\
      (sat_claimed config false \/ want_model q = true -> attained q t z) /\
      (want_model q = true -> is_Some (model r)) /\
      forall m, model r = Some m -> model_sound q m /\ forall env, describes m env -> target_value env q t = z
  | SolveStatus.Unsat => ~ satisfiable q
  | SolveStatus.Unknown => sat_claimed config false -> sat_backend config = Dpll -> ~ never lim
  | SolveStatus.Simplified => False
  end.

Lemma well_formed_fixed q : well_formed q = true -> well_formed (fixed_query q) = true.
Proof. unfold well_formed. simpl. rewrite !andb_true_iff. tauto. Qed.

Lemma target_value_bound env q t w : well_formed q = true -> width_at (nodes (arena q)) t = Some w ->
  0 <= target_value env q t < pow2 w.
Proof.
  intros [Hwt _]%andb_true_iff Hw.
  by apply (vals_ok_bv _ _ _ _ (denote_ok env _ Hwt) Hw).
Qed.

Lemma base_fixes q t : wf_arena (arena q) -> well_formed q = true ->
  fixes (fixed_query q) t [] (fixed_query q).
Proof.
  intros Ha Hwf. split; [done|done|simpl; lia|by apply well_formed_fixed|done|by left|].
  intros env. by rewrite andb_true_r.
Qed.

(** An entry of a model of [fixed] is of a variable of [q]. *)
Lemma entries_fixed q t l fixed es : fixes (fixed_query q) t l fixed ->
  Forall (entry_of fixed) es -> Forall (entry_of q) es.
Proof.
  intros Hf H. refine (Forall_impl _ _ _ H _). intros e (n & Hn & Hk). exists n. split; [|done].
  destruct (fx_new _ _ _ _ Hf _ _ Hn) as [?|Hc%constraint_not_var]; [done|]. by destruct (kind n).
Qed.

(** What the finished loop knows. *)
Lemma state_optimal config q t w minimize fixed opt : well_formed q = true ->
  width_at (nodes (arena q)) t = Some w -> state config q t w minimize 0 fixed opt ->
  (sat_claimed config false -> attained q t (bval opt)) /\ unbeaten q t w minimize (bval opt) /\
  forall env, satisfies env fixed = true <-> satisfies env q = true /\ target_value env q t = bval opt.
Proof.
  intros Hwf Hw [Hf _ Hb Hs Hbest]. pose proof (building_repr _ _ Hb) as Hr.
  pose proof (repr_range _ _ _ Hr) as Hz. rewrite (chosen_low_bits _ _ Hb) in *.
  assert (0 < w)%nat as Hpos.
  { pose proof Hwf as [Hwt _]%andb_true_iff. by apply (width_legal _ _ _ Hwt Hw). }
  assert (forall env, satisfies env fixed = true <->
    satisfies env q = true /\ target_value env q t = bval opt) as Hiff.
  { intros env. rewrite (fx_sem _ _ _ _ Hf), andb_true_iff.
    change (satisfies env (fixed_query q)) with (satisfies env q).
    change (target_value env (fixed_query q) t) with (target_value env q t).
    by rewrite agrees_low_bits by (done || by eapply target_value_bound). }
  split_and!; [| |done].
  - intros Hcl. destruct (Hs Hcl) as (env & He). exists env. by apply Hiff.
  - intros env He. apply lex_le_no_better; [done|by eapply target_value_bound|done|].
    by apply Hbest.
Qed.

Definition optimized (config : Config) (lim : Limits) (q : Query) (t : TermId) (w : nat)
    (minimize : bool) (r : res SolveResult) : Prop :=
  match r with
  | Ok r => optimize_post config lim q t w minimize r
  | Err _ => shortcut_mode config <> Disabled
  | Panic => False
  end.

(** The last solve, for the model. *)
Lemma optimize_model_spec `{Backends} `{Recognisers} config q t w minimize fixed opt lim lim' :
  trusted (sat_backend config) -> trusted_shortcuts config q ->
  well_formed q = true -> width_at (nodes (arena q)) t = Some w -> trials_fit q t w ->
  state config q t w minimize 0 fixed opt -> (never lim' -> never lim) ->
  optimized config lim' q t w minimize
    (m ← optimize_model config q fixed lim;
     match m with
     | inl early => Ok early
     | inr m => Ok (SolveResult.sat_optimization (ScalarBv w opt) m)
     end).
Proof.
  intros Htr Hsc Hwf Hw Hfit Hst Hn. destruct (state_optimal _ _ _ _ _ _ _ Hwf Hw Hst) as (Hatt & Hbest & Hiff).
  pose proof (building_repr _ _ (st_building _ _ _ _ _ _ _ _ Hst)) as Hr.
  unfold optimize_model. destruct (want_model q) eqn:Ewm.
  2:{ exists opt, (bval opt). split_and!; [done..|by intros [?|?]; [auto|congruence]|congruence|done]. }
  assert (solved config fixed true lim (solve_once_with_deadline config fixed true lim)) as Hs.
  { apply (trial_solved config q t w Htr Hsc Hfit (chosen 0 w opt)); [apply Hst..|].
    apply chosen_prefix. lia. }
  destruct (solve_once_with_deadline config fixed true lim) as [r|e|]; simpl in Hs; [|by destruct Hs|done].
  cbn [mbind res_bind]. destruct Hs as [[_ Hu Hm] Hmod Hunk Hsimp].
  destruct (status r) eqn:Es; [| | |done].
  - destruct (Hmod eq_refl eq_refl) as [m Em]. destruct (Hm m Em) as [[env0 Hex] Hall Hent Hdis].
    exists opt, (bval opt). split_and!; [done..| |by intros _; exists m|].
    + intros _. exists env0. by apply Hiff, Hall.
    + intros m' Em'. assert (m' = m) as -> by (cbn in Em'; congruence). split.
      * split; [by exists env0| |by eapply entries_fixed, Hent; apply Hst|done]. intros env He. by apply Hiff, Hall.
      * intros env He. by apply Hiff, Hall.
  - intros Hcl. exfalso. apply Hu; [done|]. by apply (st_sat _ _ _ _ _ _ _ _ Hst).
  - intros Hcl Hd Hn'. apply Hunk; [done|by right; left|done|auto].
Qed.

Lemma optimize_spec `{Backends} `{Recognisers} config q t w (minimize : bool) lim :
  trusted (sat_backend config) -> trusted_shortcuts config q ->
  wf_arena (arena q) -> well_formed q = true ->
  command q = (if minimize then Minimize else Maximize) -> target q = Some t ->
  width_at (nodes (arena q)) t = Some w ->
  Z.of_nat (length (nodes (arena q)) + 3 * w) <= 2 ^ 32 -> trials_fit q t w ->
  optimized config lim q t w minimize (optimize config q lim).
Proof.
  intros Htr Hsc Ha Hwf Hcmd Ht Hw Hmax Hfit. unfold optimize. rewrite Ht. cbn [mbind res_bind].
  assert (Arena.sort_of (arena q) t = Ok (SBv w)) as ->.
  { unfold Arena.sort_of, Arena.node, width_at in *. destruct (nodes (arena q) !! t) as [n|]; [|done].
    simpl in *. destruct (sort n); simpl in *; by simplify_eq. }
  cbn [mbind res_bind].
  assert (bool_decide (command q = Minimize) = minimize) as -> by (rewrite Hcmd; by destruct minimize).
  pose proof (base_fixes q t Ha Hwf) as Hbase.
  assert (solved config (fixed_query q) false (under 0 lim)
    (solve_once_with_deadline config (fixed_query q) false (under 0 lim))) as Hs.
  { apply (trial_solved config q t w Htr Hsc Hfit []); [done|done|apply prefix_nil]. }
  destruct (solve_once_with_deadline config (fixed_query q) false (under 0 lim)) as [r|e|]; simpl in Hs; [|by destruct Hs|done].
  cbn [mbind res_bind]. destruct Hs as [[Hrs Hru _] _ Hunk Hsimp]. destruct (status r) eqn:Es; [|exact (Hru eq_refl)| |done].
  2:{ intros Hcl Hd Hn. apply Hunk; [done..|]. by apply never_under. }
  assert (chosen w w (replicate (div_ceil w 8) 0) = []) as Hnil.
  { unfold chosen. by rewrite Nat.sub_diag. }
  pose proof (optimize_bits_spec config q t w minimize Htr Hsc Hw Hmax Hfit (under 1 lim) w
    (fixed_query q) (replicate (div_ceil w 8) 0) (Nat.le_refl w)) as Hl.
  destruct (optimize_bits config (signed q) minimize t w (under 1 lim) (reverse (seq 0 w)) (fixed_query q) _)
    as [[early|[fixed opt]]|e|]; cbn [mbind res_bind loop_post] in *.
  - destruct Hl as [(text & ->) Hd]; [split; rewrite ?Hnil; try done; [apply building_initial|by apply Hrs]|].
    intros Hcl Hdp Hn. apply Hd; [done..|]. by apply never_under.
  - eapply optimize_model_spec; try done; [|apply never_under].
    apply Hl. split; rewrite ?Hnil; try done; [apply building_initial|by apply Hrs].
  - apply Hl. split; rewrite ?Hnil; try done; [apply building_initial|by apply Hrs].
  - apply Hl. split; rewrite ?Hnil; try done; [apply building_initial|by apply Hrs].
Qed.

(** C4: optimisation is right, when the recognisers can be trusted on the query or are
    switched off ([trusted_shortcuts]).  For a query with a bit-vector target, [Sat] comes
    with a value that no satisfying environment beats in the order the command and the
    signedness ask for; when a model is wanted, or when no shortcut may answer with an
    unvalidated witness, some satisfying environment gives the target that value, and
    the model attains it.  [Unsat] means there is none, and with the bundled solver and
    no such shortcut only a limit makes the answer [Unknown]. *)
Theorem optimize_correct `{Backends} `{Recognisers} config q t w (minimize : bool) lim :
  trusted (sat_backend config) -> trusted_shortcuts config q ->
  wf_arena (arena q) -> well_formed q = true ->
  command q = (if minimize then Minimize else Maximize) -> target q = Some t ->
  width_at (nodes (arena q)) t = Some w ->
  Z.of_nat (length (nodes (arena q)) + 3 * w) <= 2 ^ 32 -> trials_fit q t w ->
  optimized config lim q t w minimize (optimize config q lim).
Proof. apply optimize_spec. Qed.

(** ** A concrete instance *)

(** Every way to fix the given bits. *)
Fixpoint fixings (bits : list nat) : list (list (nat * bool)) :=
  match bits with
  | [] => [[]]
  | b :: bits => (cons (b, true) <$> fixings bits) ++ (cons (b, false) <$> fixings bits)
  end.

Lemma fixings_complete l : l ∈ fixings l.*1.
Proof.
  induction l as [|[b []] l IH]; simpl; [by left|apply elem_of_app; left|apply elem_of_app; right];
    apply list_elem_of_fmap; by eexists.
Qed.

(** [trials_fit] is decidable. *)
Lemma trials_fit_check q t w :
  forallb (fun n => forallb (fun l => match fix_bits (fixed_query q) t l with Ok f => fits f | _ => true end)
    (fixings (take n (reverse (seq 0 w))))) (seq 0 (S w)) = true -> trials_fit q t w.
Proof.
  rewrite forallb_forall. intros H l fixed [rest Hp] Hf.
  assert (length l <= w)%nat as Hl.
  { assert (length (reverse (seq 0 w)) = length (l.*1 ++ rest)) as E by (by rewrite Hp).
    rewrite length_reverse, length_seq, length_app, length_fmap in E. lia. }
  specialize (H (length l)). rewrite forallb_forall in H.
  specialize (H ltac:(apply in_seq; lia) l). rewrite Hf in H. apply H, list_elem_of_In.
  rewrite Hp, take_app_length' by (by rewrite length_fmap). apply fixings_complete.
Qed.

(** The largest [x] below three, over two bits. *)
Definition sample_build : M Arena TermId :=
  x ← Arena.add (BvVar 2 "x" None) (SBv 2);
  three ← Arena.add (BvConst 2 [3]) (SBv 2);
  Arena.add (BvUlt x three) SBool.

Definition largest_query : Query :=
  {| arena := (sample_build Arena.new).2; assertions := [{| root := 2%nat; name := None |}];
     assumptions := []; command := Maximize; target := Some 0%nat; signed := false;
     want_model := true; want_core := false; get_values := [] |}.

Lemma largest_wf : wf_arena (arena largest_query).
Proof.
  assert (forall k s a, wf_arena a -> node_ok (nodes a) (mkNode k s) = true ->
    Z.of_nat (length (nodes a)) < 2 ^ 32 -> wf_arena (Arena.add k s a).2) as H.
  { intros k s a Hwf Hok Hl. destruct (add_added a k s Hwf Hok Hl) as (id & a' & -> & Ha). apply Ha. }
  assert (arena largest_query = (Arena.add (BvUlt 0%nat 1%nat) SBool (Arena.add (BvConst 2 [3]) (SBv 2)
    (Arena.add (BvVar 2 "x" None) (SBv 2) Arena.new).2).2).2) as -> by (vm_compute; reflexivity).
  repeat apply H; try (vm_compute; reflexivity). apply arena_new_wf.
Qed.

Lemma optimize_correct_witness :
  let config := mkConfig Dpll None Disabled None in
  optimized config unlimited largest_query 0%nat 2 false
    (optimize (H := silent_backends) (H0 := no_recognisers) config largest_query unlimited) /\
  exists m, optimize (H := silent_backends) (H0 := no_recognisers) config largest_query unlimited
    = Ok (SolveResult.sat_optimization (ScalarBv 2 [2]) m).
Proof.
  cbv zeta. split; [|eexists; vm_compute; reflexivity].
  apply (optimize_correct (H := silent_backends) (H0 := no_recognisers)).
  - exact I.
  - left. reflexivity.
  - exact largest_wf.
  - vm_compute. reflexivity.
  - reflexivity.
  - reflexivity.
  - vm_compute. reflexivity.
  - vm_compute. discriminate.
  - apply trials_fit_check. vm_compute. reflexivity.
Defined.
