(* ===== verification/SolveFacts.v ===== *)
(** * What the solver answers

    Unsatisfiable cores, the top level, runs with and without limits, and a builder
    session in front of it.
    [extract_named_core] deletes named assertions one at a time while the rest
    stays unsatisfiable.  The result is a core, and when every trial is decided it
    is minimal: dropping any one of its assertions makes the query satisfiable. *)
From stdpp Require Import sorting.
From S2P Require Import Prelude Ir Sem Config Sat SatFacts Model RecogniserFacts Shortcuts.
From S2P Require Import ShortcutsFacts Solver SolverFacts.
From S2P Require Import Bits Smt Blast Cnf ModelFacts.
From S2P Require Import Recognisers.
From S2P Require Import Bytes EvaluatorFacts.
From S2P Require Import Builder BuilderSpec BuilderState BuilderApi BuilderSession.

(** The query without its inactive named assertions. *)
Abbreviation sub q active := (query_with_named_subset q active).

(** ** Subqueries *)

Lemma named_subset_elem l active : forall i a,
  a ∈ named_subset_from i l active <->
  exists j, l !! j = Some a /\ (name a = None \/ i + j ∈ active).
Proof.
  induction l as [|b l IH]; intros i a; simpl.
  { split; [by intros ?%elem_of_nil|]. by intros (j & [=] & _). }
  assert ((exists j, (b :: l) !! j = Some a /\ (name a = None \/ i + j ∈ active)) <->
    (a = b /\ (name b = None \/ i ∈ active)) \/ a ∈ named_subset_from (S i) l active) as ->.
  { rewrite IH. split.
    - intros ([|j] & Hj & Ha); [injection Hj as ->; left; by rewrite Nat.add_0_r in Ha|].
      right. exists j. by rewrite Nat.add_succ_r in Ha.
    - intros [[-> Ha]|(j & Hj & Ha)]; [exists 0; by rewrite Nat.add_0_r|].
      exists (S j). by rewrite Nat.add_succ_r. }
  destruct (match name b with None => true | Some _ => false end || bool_decide (i ∈ active)) eqn:E.
  - rewrite elem_of_cons. apply orb_true_iff in E. rewrite bool_decide_eq_true in E.
    assert (name b = None \/ i ∈ active) by (destruct E as [E|E]; [left; by destruct (name b)|by right]).
    tauto.
  - apply orb_false_iff in E as [E1 E2%bool_decide_eq_false]. destruct (name b); [|done].
    split; [by right|]. by intros [[_ [?|?]]|?].
Qed.

(** What an environment satisfying a subquery satisfies. *)
Lemma satisfies_sub env q active : satisfies env (sub q active) = true <->
  (forall i a, assertions q !! i = Some a -> name a = None \/ i ∈ active ->
     sem_bool (denote env (nodes (arena q))) (root a) = true) /\
  forallb (sem_bool (denote env (nodes (arena q)))) (assumptions q) = true.
Proof.
  unfold satisfies, assertions_and_assumptions. rewrite forallb_app, andb_true_iff. simpl.
  apply and_iff_compat_r. rewrite forallb_forall. split.
  - intros H i a Hi Ha. apply H, list_elem_of_In, list_elem_of_fmap. exists a. split; [done|].
    apply named_subset_elem. exists i. by rewrite Nat.add_0_l.
  - intros H t Ht%list_elem_of_In. apply list_elem_of_fmap in Ht as (a & -> & Ha).
    apply named_subset_elem in Ha as (j & Hj & Ha). by apply (H j).
Qed.

Lemma satisfiable_sub_mono q a b : a ⊆ b -> satisfiable (sub q b) -> satisfiable (sub q a).
Proof.
  intros Hab (env & Hs). exists env. apply satisfies_sub. apply satisfies_sub in Hs as [Ha Hs].
  split; [|done]. intros i x Hi [Hn|Hx]; apply (Ha i); auto.
Qed.

Lemma named_indices_elem l : forall i k, k ∈ named_indices i l <->
  exists j a, k = i + j /\ l !! j = Some a /\ name a <> None.
Proof.
  induction l as [|b l IH]; intros i k; simpl.
  { split; [by intros ?%elem_of_nil|]. by intros (j & a & _ & [=] & _). }
  assert ((exists j a, k = i + j /\ (b :: l) !! j = Some a /\ name a <> None) <->
    (k = i /\ name b <> None) \/ k ∈ named_indices (S i) l) as ->.
  { rewrite IH. split.
    - intros ([|j] & a & -> & Hj & Ha); [injection Hj as ->; left; split; [lia|done]|].
      right. exists j, a. split; [lia|done].
    - intros [[-> Ha]|(j & a & -> & Hj & Ha)]; [exists 0, b; split; [lia|done]|].
      exists (S j), a. split; [lia|done]. }
  destruct (name b); [rewrite elem_of_cons|]; intuition congruence.
Qed.

Lemma satisfiable_all_named q : satisfiable (sub q (named_indices 0 (assertions q))) <-> satisfiable q.
Proof.
  unfold satisfiable. split; intros (env & Hs); exists env.
  - apply satisfies_sub in Hs as [Ha Hs]. unfold satisfies, assertions_and_assumptions.
    rewrite forallb_app. apply andb_true_iff. split; [|done].
    apply forallb_forall. intros t Ht%list_elem_of_In. apply list_elem_of_fmap in Ht as (a & -> & Hin).
    apply list_elem_of_lookup in Hin as [i Hi]. apply (Ha i a Hi).
    destruct (name a) eqn:En; [right|by left]. apply named_indices_elem.
    exists i, a. split_and!; [lia|done|congruence].
  - apply satisfies_sub. unfold satisfies, assertions_and_assumptions in Hs.
    rewrite forallb_app in Hs. apply andb_true_iff in Hs as [Ha Hs]. split; [|done].
    intros i a Hi _. rewrite forallb_forall in Ha. apply Ha, list_elem_of_In, list_elem_of_fmap.
    exists a. split; [done|]. by eapply list_elem_of_lookup_2.
Qed.

Lemma well_formed_sub q active : well_formed q = true -> well_formed (sub q active) = true.
Proof.
  unfold well_formed. rewrite !andb_true_iff. intros (Hwt & Hr & Ht & Hl). split_and!; [done| |done..].
  unfold assertions_and_assumptions in *. rewrite forallb_app in *. apply andb_true_iff in Hr as [Hr Hs].
  apply andb_true_iff. split; [|done]. rewrite forallb_forall in *. intros t Ht'%list_elem_of_In.
  apply Hr. apply list_elem_of_In. apply list_elem_of_fmap in Ht' as (a & -> & Ha).
  apply named_subset_elem in Ha as (j & Hj & _). apply list_elem_of_fmap. exists a. split; [done|].
  by eapply list_elem_of_lookup_2.
Qed.

(** ** The deletion loop *)

(** Every trial is decided: the bundled solver, no limit observed, and no shortcut that
    answers with an unvalidated witness. *)
Definition decided (config : Config) (lim : Limits) : Prop :=
  sat_backend config = Dpll /\ never lim /\ sat_claimed config false.

Record core_post (config : Config) (q : Query) (lim : Limits) (active : list nat) : Prop := {
  co_unsat : ~ satisfiable (sub q active);
  co_named : active ⊆ named_indices 0 (assertions q);
  co_minimal : decided config lim -> forall i, i ∈ active ->
    satisfiable (sub q (filter (fun k => k <> i) active));
}.

(** Errors of the extraction: a limit, or a recogniser. *)
Definition extraction (config : Config) (lim : Limits) {A} (r : res A) (P : A -> Prop) : Prop :=
  match r with
  | Ok a => P a
  | Err e => (e = Timeout /\ ~ never lim) \/ (e <> Timeout /\ shortcut_mode config <> Disabled)
  | Panic => False
  end.

Lemma filter_ne_mid (l1 l2 : list nat) c : c ∉ l1 -> c ∉ l2 ->
  filter (fun k => k <> c) (l1 ++ c :: l2) = l1 ++ l2.
Proof.
  assert (forall l : list nat, c ∉ l -> filter (fun k => k <> c) l = l) as H.
  { intros l Hl. induction l as [|x l IH]; [done|]. apply not_elem_of_cons in Hl as [? ?].
    rewrite filter_cons_True by done. by rewrite IH. }
  intros H1 H2. rewrite filter_app, filter_cons_False by auto. by rewrite !H.
Qed.

Lemma filter_ne_subset (l1 l2 : list nat) c i :
  filter (fun k => k <> i) (l1 ++ l2) ⊆ filter (fun k => k <> i) (l1 ++ c :: l2).
Proof.
  intros x. rewrite !list_elem_of_filter, !elem_of_app, elem_of_cons. tauto.
Qed.

Section core.
Context `{Backends} `{Recognisers}.
Context (config : Config) (q : Query).
Hypothesis Hsolve : forall active lim, solved config (sub q active) false lim
  (solve_once_with_deadline config (sub q active) false lim).

Lemma core_loop_spec lim fuel : forall kept todo,
  length todo < fuel -> NoDup (kept ++ todo) -> kept ++ todo ⊆ named_indices 0 (assertions q) ->
  ~ satisfiable (sub q (kept ++ todo)) ->
  (decided config lim -> forall i, i ∈ kept -> satisfiable (sub q (filter (fun k => k <> i) (kept ++ todo)))) ->
  extraction config lim (core_loop config q fuel lim (kept ++ todo) (length kept)) (core_post config q lim).
Proof.
  induction fuel as [|fuel IH]; intros kept todo Hf Hnd Hsub Hun Hmin; [lia|].
  cbn [core_loop]. destruct todo as [|c todo].
  { rewrite app_nil_r in *. rewrite lookup_ge_None_2 by lia. by split. }
  rewrite list_lookup_middle by done.
  destruct (check_limits_cases lim [fuel; 0]) as [->|[-> Hn]]; [|by left].
  cbn [mbind res_bind].
  pose proof Hnd as [Hk [Hkc [Hc Ht]%NoDup_cons]]%NoDup_app.
  assert (c ∉ kept) as Hck by (intros Hin; apply (Hkc c Hin); by constructor).
  rewrite filter_ne_mid by done. simpl in Hf.
  pose proof (Hsolve (kept ++ todo) (under fuel (under 1 lim))) as Hs.
  destruct (solve_once_with_deadline config (sub q (kept ++ todo)) false _) as [r|e|]; simpl in Hs; [|by right|done].
  cbn [mbind res_bind]. destruct Hs as [[Hsat Hunsat _] _ Hunk Hsimp].
  assert (status r <> SolveStatus.Unsat -> (decided config lim -> satisfiable (sub q (kept ++ todo))) ->
    extraction config lim (core_loop config q fuel lim (kept ++ c :: todo) (S (length kept))) (core_post config q lim)) as Hkeep.
  { intros _ Hd. specialize (IH (kept ++ [c]) todo).
    rewrite length_app, Nat.add_1_r in IH. rewrite <- app_assoc in IH. simpl in IH.
    apply IH; [lia|done..|]. intros Hdec i [Hi| ->%list_elem_of_singleton]%elem_of_app; [by apply Hmin|].
    rewrite filter_ne_mid by done. by apply Hd. }
  destruct (status r) eqn:Es; [apply Hkeep; [done|intros (_ & _ & Hcl); by apply Hsat]| |apply Hkeep; [done|]|done].
  - apply IH; [lia| | |by apply Hunsat|].
    + apply NoDup_app. split_and!; [done| |done]. intros x Hx Hx'. apply (Hkc x Hx). by constructor.
    + intros x Hx. apply Hsub. rewrite elem_of_app, elem_of_cons in *. tauto.
    + intros Hdec i Hi. eapply satisfiable_sub_mono; [apply filter_ne_subset|by apply Hmin].
  - intros (Hd & Hn & Hcl). exfalso. apply Hunk; [done..|]. by apply never_under, never_under.
Qed.

Lemma named_indices_nodup l : forall i, NoDup (named_indices i l).
Proof.
  induction l as [|a l IH]; intros i; simpl; [constructor|].
  destruct (name a); [|done]. constructor; [|done].
  intros (j & b & E & _)%named_indices_elem. lia.
Qed.

(** The names of an active set. *)
Definition names_of (active : list nat) : list string :=
  omap (fun i => a ← assertions q !! i; name a) active.

Lemma core_names_ok active : active ⊆ named_indices 0 (assertions q) ->
  core_names q active = Ok (names_of active).
Proof.
  induction active as [|i active IH]; intros Hsub; [done|].
  assert (i ∈ named_indices 0 (assertions q)) as (j & a & -> & Hj & Ha)%named_indices_elem
    by (apply Hsub; by constructor).
  cbn [core_names]. rewrite (index_Some _ _ _ Hj : index (assertions q) (0 + j) = _). simpl. rewrite IH by (intros x Hx; apply Hsub; by constructor).
  rewrite Hj. simpl. by destruct (name a).
Qed.

(** Core extraction, for a client that solves every subquery. *)
Lemma extract_named_core_spec lim : ~ satisfiable q ->
  extraction config lim (extract_named_core config q lim) (fun names =>
    exists active, names = names_of active /\ core_post config q lim active).
Proof.
  intros Hun. unfold extract_named_core. cbv zeta. set (named := named_indices 0 (assertions q)).
  assert (extraction config lim (core_loop config q (S (length named)) lim named 0) (core_post config q lim)) as Hl.
  { apply (core_loop_spec lim _ [] named); [lia|apply named_indices_nodup|done| |].
    - intros Hs. by apply Hun, satisfiable_all_named.
    - by intros _ i ?%elem_of_nil. }
  destruct (core_loop config q _ lim _ 0) as [active|e|]; [|done..].
  cbn [mbind res_bind]. cbn [extraction] in Hl. rewrite core_names_ok by apply Hl. by exists active.
Qed.
End core.

(** ** The top level: [Solver::solve]

    What a caller can rely on.  [solve_spec] is for any configuration whose
    shortcuts can be trusted; the theorems instantiate it for
    [solve_without_shortcuts], which relies on no recogniser, and for the bundled
    SAT solver without limits, which relies on nothing outside the program. *)

(** The answer to a [Solve] query. *)
Record solve_post (config : Config) (lim : Limits) (q : Query) (r : SolveResult) : Prop := {
  so_answer : answer config q (want_model q) lim r;
  so_core : want_core q = true -> status r = SolveStatus.Unsat ->
    exists active, core r = Some (names_of q active) /\ core_post config q lim active;
}.

(** The query and its subqueries are within range. *)
Definition all_fit (q : Query) : Prop := fits q = true /\ forall active, fits (sub q active) = true.

Lemma answer_core config q wm lim r c : answer config q wm lim r ->
  answer config q wm lim (SolveResult.with_core r c).
Proof. intros [[? ? ?] ? ? ?]. split; [by split|done..]. Qed.

Section solve.
Context `{Backends} `{Recognisers}.
Context (config : Config) (q : Query).
Hypothesis Htr : trusted (sat_backend config).
Hypothesis Hsc : trusted_shortcuts config q.
Hypothesis Hwf : well_formed q = true.
Hypothesis Hcmd : command q = Solve.
Hypothesis Hfit : all_fit q.

Lemma subs_solved active lim : solved config (sub q active) false lim
  (solve_once_with_deadline config (sub q active) false lim).
Proof. apply solve_once_solved; [done|by apply well_formed_sub|apply Hfit|done..]. Qed.

(** The core of an unsatisfiable query, or the answer a limit leaves. *)
Lemma core_spec lim lim' r : (never lim' -> never lim) ->
  answer config q (want_model q) lim' r -> status r = SolveStatus.Unsat ->
  match extract_named_core config q lim with
  | Ok names => solve_post config lim' q (SolveResult.with_core r (Some names))
  | Err e => e = Timeout /\ ~ never lim' \/ e <> Timeout /\ shortcut_mode config <> Disabled
  | Panic => False
  end.
Proof.
  intros Hn Ha Hs.
  pose proof (extract_named_core_spec config q subs_solved lim (rc_unsat _ _ _ (an_sound _ _ _ _ _ Ha) Hs)) as Hc.
  destruct (extract_named_core config q lim) as [names|e|]; simpl in Hc; [|destruct Hc as [[-> ?]|?]; [left; split; auto|by right]|done].
  destruct Hc as (active & -> & [Hu Hnm Hm]). split; [by apply answer_core|].
  intros _ _. exists active. split; [done|]. split; [done..|].
  intros (Hd & Hnev & Hcl). apply Hm. split_and!; [done| |done]. by apply Hn.
Qed.

Lemma solve_spec world :
  match solve config q world with
  | Ok r => solve_post config (limits_of config world) q r
  | Err _ => shortcut_mode config <> Disabled
  | Panic => deadline_representable config world = false
  end.
Proof.
  unfold solve. set (lim := limits_of config world). cbv zeta.
  destruct (deadline_representable config world); [cbn [negb]|done].
  destruct (is_cancelled lim [0]) eqn:Ec.
  { split; [|done]. by eapply unknown_answer, cancelled_not_never. }
  rewrite Hcmd.
  pose proof (solve_once_solved config Htr q (want_model q) (under 2 lim) Hwf (proj1 Hfit) Hcmd Hsc) as Hs.
  destruct (solve_once_with_deadline config q (want_model q) (under 2 lim)) as [r|e|]; simpl in Hs; [|destruct e; by destruct Hs|done].
  cbn [mbind res_bind]. apply (answer_weaken _ _ _ _ lim) in Hs; [|apply never_under].
  case_bool_decide as Hu; [|by split]. destruct (want_core q) eqn:Ew; cbn [andb]; [|split; congruence].
  pose proof (core_spec (under 3 lim) lim r (never_under 3 lim) Hs Hu) as Hc.
  destruct (extract_named_core config q (under 3 lim)) as [names|e|]; [done| |done].
  destruct Hc as [[-> Hn]|[He Hd]]; [|by destruct e].
  split; [by apply limit_unknown_answer|]. unfold limit_unknown. by destruct (is_cancelled lim [4]).
Qed.
End solve.

Lemma unrepresentable_panics `{Backends} `{Recognisers} config q world :
  deadline_representable config world = false -> solve config q world = Panic.
Proof. intros Hrep. unfold solve. by rewrite Hrep. Qed.

(** ** The theorems *)

(** The answer a client without limits gets: the query is decided, with a model
    or a minimal core when one was asked for. *)
Record decided_answer (q : Query) (r : SolveResult) : Prop := {
  da_status : status r = SolveStatus.Sat /\ satisfiable q \/ status r = SolveStatus.Unsat /\ ~ satisfiable q;
  da_model : want_model q = true -> status r = SolveStatus.Sat ->
    exists m, model r = Some m /\ model_sound q m;
  da_core : want_core q = true -> status r = SolveStatus.Unsat ->
    exists active, core r = Some (names_of q active) /\ ~ satisfiable (sub q active) /\
      forall i, i ∈ active -> satisfiable (sub q (filter (fun k => k <> i) active));
}.

Lemma never_limits_of config world : budget config = None -> cancellation_token config = None ->
  never (limits_of config world).
Proof. intros Hb Hc p. unfold limits_of, deadline_passed. simpl. by rewrite Hb, Hc. Qed.

Lemma solve_post_decided config lim q r : shortcut_mode config = Disabled -> sat_backend config = Dpll -> never lim ->
  solve_post config lim q r -> decided_answer q r.
Proof.
  intros Hoff Hd Hn [[[Hs Hu Hm] Hmod Hunk Hsimp] Hc]. assert (forall b, sat_claimed config b) as Hcl by by left. split.
  - destruct (status r) eqn:E; [left; auto|right; auto|exfalso; by apply Hunk|done].
  - intros Hw Hst. destruct (Hmod Hw Hst) as [m Em]. exists m. split; [done|]. by apply Hm.
  - intros Hw Hst. destruct (Hc Hw Hst) as (active & E & [Hun _ Hmin]). exists active.
    split_and!; [done..|]. by apply Hmin.
Qed.

Lemma disabled_spec `{Backends} `{Recognisers} config q world :
  trusted (sat_backend config) -> well_formed q = true -> command q = Solve -> all_fit q ->
  deadline_representable config world = true ->
  let config' := Config.with_shortcut_mode config Disabled in
  exists r, solve_without_shortcuts config q world = Ok r /\
    solve_post config' (limits_of config' world) q r.
Proof.
  intros Htr Hwf Hcmd Hfit Hrep config'.
  pose proof (solve_spec config' q Htr (or_introl eq_refl) Hwf Hcmd Hfit world) as Hs.
  unfold solve_without_shortcuts. fold config'.
  destruct (solve config' q world) as [r|e|]; [by exists r|by destruct Hs|].
  change (deadline_representable config world = false) in Hs. congruence.
Qed.

Lemma decided_spec `{Backends} `{Recognisers} config q world :
  sat_backend config = Dpll -> budget config = None -> cancellation_token config = None ->
  well_formed q = true -> command q = Solve -> all_fit q ->
  exists r, solve_without_shortcuts config q world = Ok r /\ decided_answer q r.
Proof.
  intros Hd Hb Hc Hwf Hcmd Hfit.
  destruct (disabled_spec config q world) as (r & E & Hr); [by rewrite Hd|done..| |].
  { unfold deadline_representable. by rewrite Hb. }
  exists r. split; [done|].
  eapply (solve_post_decided (Config.with_shortcut_mode config Disabled)); [done|exact Hd| |exact Hr].
  by apply never_limits_of.
Qed.

(** C1: [solve_without_shortcuts] decides.  With the bundled SAT solver (the [Dpll]
    backend), no budget and no cancellation token, on a well-formed query whose command
    is [Solve] and whose CNF, like that of its subqueries, has variables below 2^31
    ([all_fit]), it returns an answer: [Sat] exactly when some
    environment satisfies the query and [Unsat] exactly when none does; a
    requested model describes environments that all satisfy the query, and a
    requested core is unsatisfiable and minimal.  [solve] with its shortcuts on is not
    covered: some of the recognisers are wrong. *)
Theorem solve_decides `{Backends} `{Recognisers} config q world :
  sat_backend config = Dpll -> budget config = None -> cancellation_token config = None ->
  well_formed q = true -> command q = Solve -> all_fit q ->
  exists r, solve_without_shortcuts config q world = Ok r /\ decided_answer q r.
Proof. apply decided_spec. Qed.

(** C27: the solver is sound on a well-formed [Solve] query within range ([all_fit]: the
    CNF variables of the query and of its subqueries are below 2^31), under any
    configuration, budget, cancellation and timing, with any SAT backend that
    does not panic outside a [catch_unwind] and whose [Unsat] answers are right
    ([trusted]).  A budget past the end of the clock panics: [Instant::now() + budget]
    is not an [Instant], and neither the query nor the token is looked at.  That is
    the only panic: with recognisers that can be trusted on the query
    ([trusted_shortcuts]), [solve] otherwise answers or fails through a
    recogniser; its [Unsat] answers, models and cores are right, its [Sat] answers are when no
    shortcut may answer with an unvalidated witness, and with the bundled solver and no such shortcut it answers
    [Unknown] only when a poll saw a limit.  [solve_without_shortcuts] needs no
    recogniser to be right and, when the deadline exists, always answers.  [Audit] mode
    contains a wrong recogniser: whatever the recognisers answer, with the bundled solver
    and no limit observed, the status and the model of every result of one solve are right. *)
Theorem solve_sound `{Backends} `{Recognisers} config q world :
  trusted (sat_backend config) -> well_formed q = true -> command q = Solve -> all_fit q ->
  (deadline_representable config world = false ->
   solve config q world = Panic /\ solve_without_shortcuts config q world = Panic) /\
  (trusted_shortcuts config q ->
   match solve config q world with
   | Ok r => solve_post config (limits_of config world) q r
   | Err _ => shortcut_mode config <> Disabled
   | Panic => deadline_representable config world = false
   end) /\
  (deadline_representable config world = true ->
   let config' := Config.with_shortcut_mode config Disabled in
   exists r, solve_without_shortcuts config q world = Ok r /\ solve_post config' (limits_of config' world) q r) /\
  (forall want_model lim r, shortcut_mode config = Audit -> sat_backend config = Dpll -> never lim ->
   solve_once_with_deadline config q want_model lim = Ok r -> result_sound q r).
Proof.
  intros Htr Hwf Hcmd Hfit.
  split_and!; [intros Hrep; split; by apply unrepresentable_panics|intros Hsc; by apply solve_spec|by apply disabled_spec|].
  intros wm lim r Ha Hd Hn. apply audit_mode_sound; try done. apply Hfit.
Qed.

(** C30: core extraction is right, when the recognisers can be trusted on the query or
    are switched off.  For an unsatisfiable query it never panics and
    fails only when a poll sees a limit or a recogniser fails; the names it returns
    are those of a set of named assertions that is unsatisfiable together with the
    unnamed ones and the assumptions, and that is minimal when every trial is
    decided: without any one of its assertions the query is satisfiable. *)
Theorem extract_named_core_correct `{Backends} `{Recognisers} config q lim :
  trusted (sat_backend config) -> trusted_shortcuts config q ->
  well_formed q = true -> command q = Solve -> all_fit q -> ~ satisfiable q ->
  match extract_named_core config q lim with
  | Ok names => exists active, names = names_of q active /\ core_post config q lim active
  | Err e => (e = Timeout /\ ~ never lim) \/ (e <> Timeout /\ shortcut_mode config <> Disabled)
  | Panic => False
  end.
Proof.
  intros Htr Hsc Hwf Hcmd Hfit. apply extract_named_core_spec. intros active l.
  by apply subs_solved.
Qed.

(** ** Witnesses *)

Definition dpll_config : Config :=
  {| sat_backend := Dpll; budget := None; shortcut_mode := Enabled; cancellation_token := None |}.

(** A subquery depends on which indices are active, not on their order. *)
Lemma sub_restrict q active :
  sub q active = sub q (filter (fun i => i ∈ active) (seq 0 (length (assertions q)))).
Proof.
  unfold query_with_named_subset. f_equal.
  assert (forall l i, (forall j, i <= j < i + length l -> j < length (assertions q)) ->
    named_subset_from i l active =
    named_subset_from i l (filter (fun k => k ∈ active) (seq 0 (length (assertions q))))) as H.
  { induction l as [|a l IH]; intros i Hi; [done|]. simpl.
    rewrite <- IH by (intros j Hj; apply Hi; simpl; lia).
    assert (bool_decide (i ∈ active) = bool_decide (i ∈ filter (fun k => k ∈ active)
      (seq 0 (length (assertions q))))) as ->; [|done].
    apply bool_decide_ext. rewrite list_elem_of_filter, elem_of_seq.
    pose proof (Hi i ltac:(simpl; lia)). split; [split; [done|lia]|tauto]. }
  apply H. lia.
Qed.

Fixpoint sublists {A} (l : list A) : list (list A) :=
  match l with
  | [] => [[]]
  | a :: l => (cons a <$> sublists l) ++ sublists l
  end.

Lemma filter_sublists {A} (P : A -> Prop) `{forall a, Decision (P a)} l : filter P l ∈ sublists l.
Proof.
  induction l as [|a l IH]; [by left|]. simpl. destruct (decide (P a)).
  - rewrite filter_cons_True by done. apply elem_of_app. left. apply list_elem_of_fmap. by eexists.
  - rewrite filter_cons_False by done. apply elem_of_app. by right.
Qed.

(** [all_fit] is decidable. *)
Lemma all_fit_check q :
  fits q && forallb (fun l => fits (sub q l)) (sublists (seq 0 (length (assertions q)))) = true ->
  all_fit q.
Proof.
  intros [Hq Hs]%andb_true_iff. split; [done|]. intros active. rewrite sub_restrict.
  rewrite forallb_forall in Hs. apply Hs, list_elem_of_In, filter_sublists.
Qed.

Lemma sample_fits : all_fit sample_query.
Proof. apply all_fit_check. vm_compute. reflexivity. Qed.

(** [p], [q] and [not p], all named. *)
Definition contradictory_query : Query :=
  {| arena := {| nodes := [mkNode (BoolVar "p" None) SBool; mkNode (BoolVar "q" None) SBool;
                           mkNode (BoolNot 0) SBool];
                 ids := ∅ |};
     assertions := [{| root := 0; name := Some "a" |}; {| root := 1; name := Some "b" |};
                    {| root := 2; name := Some "c" |}]; assumptions := [];
     command := Solve; target := None; signed := false; want_model := false; want_core := true;
     get_values := [] |}.

Lemma contradictory_fits : all_fit contradictory_query.
Proof. apply all_fit_check. vm_compute. reflexivity. Qed.

Lemma contradictory_unsat : ~ satisfiable contradictory_query.
Proof.
  intros (env & H). unfold satisfies, denote, denote_step in H. simpl in H.
  unfold sem_bool in H. simpl in H. by destruct (env_bool env 0), (env_bool env 1).
Qed.

(** The query is unsatisfiable because of [a] and [c]. *)
Lemma extract_named_core_correct_witness :
  let config := mkConfig Dpll None Disabled None in
  extract_named_core (H := silent_backends) (H0 := no_recognisers) config contradictory_query unlimited
    = Ok ["a"; "c"] /\
  exists active, ["a"; "c"] = names_of contradictory_query active /\
    core_post config contradictory_query unlimited active.
Proof.
  cbv zeta.
  assert (extract_named_core (H := silent_backends) (H0 := no_recognisers)
    (mkConfig Dpll None Disabled None) contradictory_query unlimited = Ok ["a"; "c"]) as E
    by (vm_compute; reflexivity).
  split; [exact E|].
  pose proof (extract_named_core_correct (H := silent_backends) (H0 := no_recognisers)
    (mkConfig Dpll None Disabled None) contradictory_query unlimited I (or_introl eq_refl) eq_refl eq_refl
    contradictory_fits contradictory_unsat) as H.
  rewrite E in H. exact H.
Defined.

Lemma solve_decides_witness :
  exists r, solve_without_shortcuts (H := silent_backends) (H0 := no_recognisers)
    dpll_config sample_query unlimited = Ok r /\ decided_answer sample_query r.
Proof. apply solve_decides; first [reflexivity | apply sample_fits]. Defined.

Lemma solve_sound_witness :
  (exists r, solve_without_shortcuts (H := silent_backends) (H0 := no_recognisers) Config.default sample_query unlimited = Ok r) /\
  exists r, solve_once_with_deadline (H := silent_backends) (H0 := wrong_recogniser)
    (mkConfig Dpll None Audit None) sample_query true unlimited = Ok r /\ result_sound sample_query r.
Proof.
  split.
  - destruct (solve_sound (H := silent_backends) (H0 := no_recognisers) Config.default sample_query unlimited)
      as (_ & _ & Hrun & _); [intros ? ? []|reflexivity|reflexivity|apply sample_fits|].
    destruct (Hrun eq_refl) as (r & E & _). by exists r.
  - assert (exists r, solve_once_with_deadline (H := silent_backends) (H0 := wrong_recogniser)
      (mkConfig Dpll None Audit None) sample_query true unlimited = Ok r) as [r E] by (eexists; vm_compute; reflexivity).
    exists r. split; [exact E|].
    refine (proj2 (proj2 (proj2 (solve_sound (H := silent_backends) (H0 := wrong_recogniser) (mkConfig Dpll None Audit None)
      sample_query unlimited I eq_refl eq_refl sample_fits))) true unlimited r eq_refl eq_refl _ E).
    intros p; split; reflexivity.
Defined.

(** ** Limits only interrupt

    A run that a limit stops ends in [Err Timeout], or in an [Unknown] made of it; every
    other run is the one without limits. *)

(** What the first run returns, the second does too. *)
Definition survives {A} (m m' : res A) : Prop := forall a, m = Ok a -> m' = Ok a.

Lemma survives_refl {A} (m : res A) : survives m m.
Proof. by intros a. Qed.

Lemma survives_bind {A B} (m m' : res A) (k k' : A -> res B) :
  survives m m' -> (forall a, survives (k a) (k' a)) -> survives (m ≫= k) (m' ≫= k').
Proof. intros Hm Hk b. destruct m as [a|e|]; [|done..]. rewrite (Hm a eq_refl). apply Hk. Qed.

Lemma survives_same {A B} (m : res A) (k k' : A -> res B) :
  (forall a, survives (k a) (k' a)) -> survives (m ≫= k) (m ≫= k').
Proof. apply survives_bind, survives_refl. Qed.

Lemma survives_check lim p : survives (check_limits lim p) (check_limits unlimited p).
Proof. by intros [] _. Qed.

Lemma under_unlimited n : under n unlimited = unlimited.
Proof. done. Qed.

Lemma encode_gates_survives lim gs : forall index cs,
  survives (encode_gates lim gs index cs) (encode_gates unlimited gs index cs).
Proof.
  induction gs as [|g gs IH]; intros index cs; cbn [encode_gates]; [apply survives_refl|].
  apply survives_bind; [|intros []; apply IH]. destruct (_ =? 0)%nat; [apply survives_check|apply survives_refl].
Qed.

Lemma encode_survives g x lim : survives (encode_with_limits g x lim) (encode_with_limits g x unlimited).
Proof. apply survives_bind; [apply encode_gates_survives|]. intros cs. apply survives_refl. Qed.

Lemma propagate_survives self lim fuel : forall round a,
  survives (DpllSolver.unit_propagate self fuel lim round a) (DpllSolver.unit_propagate self fuel unlimited round a).
Proof.
  induction fuel as [|fuel IH]; intros round a; cbn [DpllSolver.unit_propagate]; [done|].
  apply survives_bind; [apply survives_check|]. intros []. apply survives_same. intros [[a' []]|]; [apply IH|apply survives_refl..].
Qed.

Lemma search_survives self fuel : forall lim a,
  survives (DpllSolver.search self fuel lim a) (DpllSolver.search self fuel unlimited a).
Proof.
  induction fuel as [|fuel IH]; intros lim a; cbn [DpllSolver.search]; [done|]. rewrite !under_unlimited.
  apply survives_bind; [apply survives_check|]. intros [].
  apply survives_bind; [apply propagate_survives|]. intros [a'|]; [|apply survives_refl].
  apply survives_same. intros []; [apply survives_refl|]. apply survives_same. intros [var|]; [|apply survives_refl].
  apply survives_same. intros tb. apply survives_bind; [apply IH|]. intros [m|]; [apply survives_refl|].
  apply survives_same. intros fb. apply IH.
Qed.

(** The same for results, unless they are [Unknown]. *)
Definition conclusive_sat (r : SatResult.t) : Prop := match r with SatResult.Unknown _ => False | _ => True end.

Definition settles {A} (conclusive : A -> Prop) (m m' : res A) : Prop := forall a, m = Ok a -> conclusive a -> m' = Ok a.

Lemma settles_bind {A B} (C : B -> Prop) (m m' : res A) (k k' : A -> res B) :
  survives m m' -> (forall a, settles C (k a) (k' a)) -> settles C (m ≫= k) (m' ≫= k').
Proof. intros Hm Hk b. destruct m as [a|e|]; [|done..]. rewrite (Hm a eq_refl). apply Hk. Qed.

Lemma settles_refl {A} (C : A -> Prop) m : settles C m m.
Proof. by intros a. Qed.

(** An outcome that is not conclusive. *)
Lemma settles_not {A} (C : A -> Prop) a m : ~ C a -> settles C (Ok a) m.
Proof. by intros Hn b [= <-]. Qed.

Lemma settles_then {A B} (C : A -> Prop) (C' : B -> Prop) (m m' : res A) (k k' : A -> res B) :
  settles C m m' -> (forall a, C a -> settles C' (k a) (k' a)) ->
  (forall a b, m = Ok a -> k a = Ok b -> C' b -> C a) -> settles C' (m ≫= k) (m' ≫= k').
Proof.
  intros Hm Hk Hc b. destruct m as [a|e|]; [|done..]. cbn [mbind res_bind]. intros E Hb.
  assert (C a) as Ha by by eapply Hc. rewrite (Hm a eq_refl Ha). by apply Hk.
Qed.

Ltac unsettled := apply settles_not; by intros [].

Lemma dpll_settles self lim assumptions :
  settles conclusive_sat (DpllSolver.solve self lim assumptions) (DpllSolver.solve self unlimited assumptions).
Proof.
  apply settles_bind; [apply survives_refl|]. intros [a|]; [|apply settles_refl]. rewrite under_unlimited.
  pose proof (search_survives self (S (DpllSolver.unassigned a)) (under 0 lim) a) as Hs.
  destruct (DpllSolver.search self _ (under 0 lim) a) as [r|e|]; [rewrite (Hs r eq_refl); apply settles_refl| |done].
  destruct e; try unsettled. case_match; unsettled.
Qed.

Section interrupt.
Context `{Backends} `{Recognisers} (config free : Config).
Hypothesis Hsat : sat_backend config <> Splr.
Hypothesis Hsame : sat_backend free = sat_backend config.

Lemma cnf_settles n cs assumptions lim :
  settles conclusive_sat (solve_cnf_with_cancellation (sat_backend config) n cs assumptions lim)
    (solve_cnf_with_cancellation (sat_backend config) n cs assumptions unlimited).
Proof.
  unfold solve_cnf_with_cancellation. destruct (is_cancelled lim [0]); [unsettled|].
  destruct (deadline_passed lim [0]); [unsettled|]. change (is_cancelled unlimited [0]) with false.
  change (deadline_passed unlimited [0]) with false. cbv iota. rewrite under_unlimited.
  apply (settles_then conclusive_sat).
  - unfold run_backend. destruct (sat_backend config) eqn:E; [by destruct Hsat| |].
    + unfold solve_with_varisat. change (has_deadline unlimited) with false. cbv iota.
      destruct (has_deadline (under 1 lim)); [unsettled|apply settles_refl].
    + apply settles_bind; [apply survives_refl|]. intros solver. apply dpll_settles.
  - intros a _. apply settles_refl.
  - intros [values| |text] b _; simpl; [done..|]. by intros [= <-].
Qed.

Definition conclusive (r : SolveResult) : Prop := status r <> SolveStatus.Unknown.

Lemma limit_unknown_inconclusive lim p : ~ conclusive (limit_unknown lim p).
Proof. unfold conclusive, limit_unknown. destruct (is_cancelled lim p); simpl; tauto. Qed.

Lemma core_settles q wm lim : settles conclusive (solve_core_once_with_deadline config q wm lim)
  (solve_core_once_with_deadline free q wm unlimited).
Proof.
  unfold solve_core_once_with_deadline. destruct (is_cancelled lim [0]); [unsettled|].
  destruct (deadline_passed lim [0]); [unsettled|]. change (is_cancelled unlimited [0]) with false.
  change (deadline_passed unlimited [0]) with false. cbv iota. rewrite !under_unlimited.
  destruct (blast_query_with_limits q (under 1 lim)) as [b|e|] eqn:Eb; [|destruct e; first [done|apply settles_not, limit_unknown_inconclusive]|done].
  rewrite (blast_unlimited _ _ _ Eb).
  pose proof (encode_survives (br_gates b) (br_assertion b) (under 3 lim)) as He.
  destruct (encode_with_limits _ _ (under 3 lim)) as [c|e|]; [|destruct e; first [done|apply settles_not, limit_unknown_inconclusive]|done].
  rewrite (He c eq_refl), Hsame. apply (settles_then conclusive_sat); [apply cnf_settles|intros a _; apply settles_refl|].
  intros [values| |text] r _; simpl; [done..|]. by intros [= <-] [].
Qed.

Hypothesis Hoff : shortcut_mode config = Disabled.
Hypothesis Hoff' : shortcut_mode free = Disabled.

Lemma once_settles q wm lim : settles conclusive (solve_once_with_deadline config q wm lim)
  (solve_once_with_deadline free q wm unlimited).
Proof.
  unfold solve_once_with_deadline. destruct (is_cancelled lim [0]); [unsettled|].
  change (is_cancelled unlimited [0]) with false. cbv iota.
  destruct (command q); [|apply settles_refl..]. destruct (deadline_passed lim [0]); [unsettled|].
  change (deadline_passed unlimited [0]) with false. cbv iota. rewrite !try_solve_disabled by done.
  cbn [mbind res_bind]. rewrite under_unlimited. apply core_settles.
Qed.

(** The loop returns early only with [Unknown]. *)
Definition continues {A} (x : SolveResult + A) : Prop := match x with inl _ => False | inr _ => True end.

Lemma optimize_bits_early sgnd minimize t w lim bits : forall fixed opt early,
  optimize_bits config sgnd minimize t w lim bits fixed opt = Ok (inl early) -> status early = SolveStatus.Unknown.
Proof.
  induction bits as [|bit bits IH]; intros fixed opt early; cbn [optimize_bits]; [done|]. cbv zeta.
  intros (trial & _ & (r & _ & E)%bind_ok)%bind_ok. destruct (status r); [| |by injection E as <-..].
  - apply bind_ok in E as (opt' & _ & E). by apply IH in E.
  - apply bind_ok in E as (fixed' & _ & (opt' & _ & E)%bind_ok). by apply IH in E.
Qed.

Lemma optimize_model_early q fixed lim early :
  optimize_model config q fixed lim = Ok (inl early) -> status early = SolveStatus.Unknown.
Proof.
  unfold optimize_model. destruct (want_model q); [|done]. intros (r & _ & E)%bind_ok.
  destruct (status r); [done|by injection E as <-..].
Qed.

Lemma optimize_bits_settles sgnd minimize t w lim bits : forall fixed opt,
  settles continues (optimize_bits config sgnd minimize t w lim bits fixed opt)
    (optimize_bits free sgnd minimize t w unlimited bits fixed opt).
Proof.
  induction bits as [|bit bits IH]; intros fixed opt; cbn [optimize_bits]; [apply settles_refl|]. cbv zeta.
  apply settles_bind; [apply survives_refl|]. intros trial. rewrite under_unlimited.
  apply (settles_then conclusive); [apply once_settles| |].
  - intros r _. destruct (status r); [|..|apply settles_refl|apply settles_refl].
    + apply settles_bind; [apply survives_refl|]. intros opt'. apply IH.
    + do 2 (apply settles_bind; [apply survives_refl|]; intros ?). apply IH.
  - intros r x _. unfold conclusive. destruct (status r); [done..| |done]. by intros [= <-] [].
Qed.

Lemma optimize_model_settles q fixed lim : settles continues (optimize_model config q fixed lim)
  (optimize_model free q fixed unlimited).
Proof.
  unfold optimize_model. destruct (want_model q); [|apply settles_refl].
  apply (settles_then conclusive); [apply once_settles|intros r _; apply settles_refl|].
  intros r x _. unfold conclusive. destruct (status r); [done..| |done]. by intros [= <-] [].
Qed.

Lemma optimize_settles q lim : settles conclusive (optimize config q lim) (optimize free q unlimited).
Proof.
  unfold optimize. do 3 (apply settles_bind; [apply survives_refl|]; intros ?). cbv zeta. rewrite !under_unlimited.
  assert (forall text, ~ conclusive (SolveResult.unknown text)) as Hu by by intros text [].
  apply (settles_then conclusive); [apply once_settles| |].
  - intros base _. destruct (status base); [|apply settles_refl..].
    apply (settles_then continues); [apply optimize_bits_settles| |].
    + intros [early|[fixed opt]]; [done|]. intros _.
      apply (settles_then continues); [apply optimize_model_settles|intros [] _; apply settles_refl|].
      intros [early|m] r E; [|done]. intros [= <-] Hr. apply Hr. by eapply optimize_model_early.
    + intros [early|[fixed opt]] r E; [|done]. intros [= <-] Hr. apply Hr. by eapply optimize_bits_early.
  - intros base r _. unfold conclusive. destruct (status base); [done..| |done]. by intros [= <-] [].
Qed.

End interrupt.

(** C40: limits only interrupt.  Run [solve_without_shortcuts] on any query, to solve,
    simplify, minimise or maximise, with the bundled SAT solver ([Dpll]) or with Varisat
    (a fixed function of the CNF), under any budget and token, whenever they fire: if it
    returns a result whose status is not [Unknown], then with no budget and no token it
    returns this very result, its model, optimum and message included.  A limit
    never turns [Sat] into [Unsat] or spoils a model or an optimum.  Extracted cores
    are not covered: when the status is [Unsat] no core may be wanted.  Nor is Splr,
    which has a timer of its own. *)
Theorem limits_only_interrupt `{Backends} `{Recognisers} config q world r :
  sat_backend config <> Splr ->
  solve_without_shortcuts config q world = Ok r -> status r <> SolveStatus.Unknown ->
  (want_core q = true -> status r <> SolveStatus.Unsat) ->
  solve_without_shortcuts (Config.with_budget (Config.with_cancellation_token config None) None) q unlimited = Ok r.
Proof.
  intros Hs E Hr Hcore. revert E. unfold solve_without_shortcuts, solve.
  destruct (deadline_representable _ world); [|done]. change (deadline_representable _ unlimited) with true.
  cbv zeta. cbn [negb]. set (lim := limits_of _ world). change (limits_of _ unlimited) with unlimited.
  destruct (is_cancelled lim [0]); [by intros [= <-]|]. change (is_cancelled unlimited [0]) with false. cbv iota.
  rewrite !under_unlimited.
  set (c := Config.with_shortcut_mode config Disabled).
  set (free := Config.with_shortcut_mode (Config.with_budget _ _) Disabled).
  assert (forall lim', settles conclusive (optimize c q lim') (optimize free q unlimited)) as Ho
    by by intros lim'; apply optimize_settles.
  assert (forall wm lim', settles conclusive (solve_once_with_deadline c q wm lim')
    (solve_once_with_deadline free q wm unlimited)) as H1 by by intros wm lim'; apply once_settles.
  destruct (command q); [| |exact (fun E => Ho _ _ E Hr)|exact (fun E => Ho _ _ E Hr)].
  all: intros (result & E1 & E)%bind_ok; destruct (bool_decide _ && want_core q) eqn:Eg;
    [|injection E as ->; rewrite (H1 _ _ _ E1 Hr); cbn [mbind res_bind]; by rewrite Eg].
  all: apply andb_true_iff in Eg as [Hu%bool_decide_eq_true Hw]; exfalso;
    destruct (extract_named_core _ q _) as [names|[]|]; try done; injection E as <-;
    first [by apply Hcore|by apply (limit_unknown_inconclusive lim [4])].
Qed.

(** ** Witness: a byte solved under a budget that no poll sees run out, and a token *)

Definition limited_config : Config :=
  Config.with_cancellation_token (Config.with_budget dpll_config (Some 5%Z)) (Some {| token_id := 0 |}).

Definition late_world : Limits :=
  {| has_deadline := false; expired p := bool_decide (p = [9; 9]); is_cancelled _ := false; representable _ _ := true |}.

Definition limited_run : res SolveResult :=
  solve_without_shortcuts (H := silent_backends) (H0 := no_recognisers) limited_config sample_query late_world.

Lemma limits_only_interrupt_witness :
  limited_run = solve_without_shortcuts (H := silent_backends) (H0 := no_recognisers)
    (Config.with_budget (Config.with_cancellation_token limited_config None) None) sample_query unlimited /\
  match limited_run with Ok r => status r = SolveStatus.Sat | _ => False end.
Proof.
  assert (match limited_run with Ok r => status r = SolveStatus.Sat | _ => False end) as E
    by (vm_compute; reflexivity).
  split; [|exact E]. destruct limited_run as [r| |] eqn:Er; [|destruct E..]. symmetry.
  apply (limits_only_interrupt (H := silent_backends) (H0 := no_recognisers) limited_config sample_query late_world);
    [discriminate|exact Er|rewrite E; discriminate|intros _; rewrite E; discriminate].
Defined.

(** ** From the builder to the answer

    The components composed: what a session with the builder asserts is what the
    solver decides. *)

(** The session's constraints hold in [env]: every assertion of every open frame
    and every assumption. *)
Definition constraints_hold (b : Builder) (env : Env) : Prop :=
  Forall (Forall (fun a => truth (b_arena b) (root a) env = true)) (frames b) /\
  Forall (fun t => truth (b_arena b) t env = true) (b_assumptions b).

Lemma Forall_mjoin {X} (P : X -> Prop) (l : list (list X)) : Forall P (mjoin l) <-> Forall (Forall P) l.
Proof.
  induction l as [|x l IH]; simpl; [done|]. by rewrite Forall_app, Forall_cons, IH.
Qed.

Lemma Forall_forallb_true {X} (f : X -> bool) l : forallb f l = true <-> Forall (fun x => f x = true) l.
Proof.
  rewrite forallb_forall, Forall_forall. split; intros H x Hx; apply H; by apply list_elem_of_In.
Qed.

Lemma finish_satisfies b q env : TermBuilder.finish b = Ok q ->
  satisfies env q = true <-> constraints_hold b env.
Proof.
  unfold TermBuilder.finish. destruct (_ && _); [done|]. intros [= <-].
  unfold satisfies, constraints_hold, assertions_and_assumptions. simpl.
  rewrite <- Forall_mjoin. unfold frames. rewrite frames_join.
  rewrite Forall_forallb_true, Forall_app, Forall_fmap. done.
Qed.

(** C7: from the builder to the answer: whatever terms a session constructs, through
    all the rewriting of the builder, and whatever it pushes, pops and asserts, the
    finished query holds exactly in the environments that satisfy every assertion of the
    open scopes and every assumption; and when its command is [Solve] and it is within
    range ([all_fit]: CNF variables below 2^31, its subqueries' too),
    [solve_without_shortcuts] with the bundled SAT solver ([Dpll]), no budget and no
    token answers [Sat] exactly when such an environment exists
    and [Unsat] exactly when none does, with a right model or a minimal
    core when one is wanted.  [solve] with its shortcuts on is not covered. *)
Theorem sessions_decided `{Backends} `{Recognisers} b q config world :
  session b -> TermBuilder.finish b = Ok q -> b_command b = Solve ->
  sat_backend config = Dpll -> budget config = None -> cancellation_token config = None -> all_fit q ->
  (forall env, satisfies env q = true <-> constraints_hold b env) /\
  exists r, solve_without_shortcuts config q world = Ok r /\ decided_answer q r.
Proof.
  intros Hs Hq Hc Hd Hb Ht Hfit. split; [intros env; by apply finish_satisfies|].
  apply decided_spec; [done..| | |done].
  - pose proof (finish_ok b (session_ok b Hs)) as H0'. rewrite Hq in H0'. apply H0'.
  - unfold TermBuilder.finish in Hq. destruct (_ && _); [done|]. by injection Hq as <-.
Qed.

(** ** Witness: [x + y < x] over bytes, pushed and asserted equal *)

Definition sample_built : Query :=
  match TermBuilder.finish sample_builder with Ok q => q | _ => sample_query end.

Lemma sample_built_fits : all_fit sample_built.
Proof. apply all_fit_check. vm_compute. reflexivity. Qed.

Lemma sessions_decided_witness :
  exists r, solve_without_shortcuts (H := silent_backends) (H0 := no_recognisers)
    dpll_config sample_built unlimited = Ok r /\ decided_answer sample_built r.
Proof.
  assert (TermBuilder.finish sample_builder = Ok sample_built) as E.
  { unfold sample_built, TermBuilder.finish. reflexivity. }
  apply (sessions_decided (H := silent_backends) (H0 := no_recognisers) sample_builder sample_built
    dpll_config unlimited sample_session E); first [reflexivity|exact sample_built_fits].
Defined.
