(* ===== verification/WireBase.v ===== *)
(** * The wire format: integers, slices, references, strings
    ([smt-wire]: [error.rs], [le.rs], [types.rs])

    Bytes are integers in [0, 256), a slice is the list of its bytes, and every
    fixed-width integer of the format ([u8] to [u64], [usize]) is a [Z]. *)
From S2P Require Import Prelude Bytes BytesFacts Evaluator.

#[local] Open Scope Z_scope.

#[global] Arguments to_le_bytes : simpl never.

(** ** Errors ([error.rs])

    The message of [InvalidValue] is not modelled. *)
Inductive WireError :=
  | UnexpectedEof (context : string) (needed actual : Z)
  | LengthMismatch (context : string) (expected actual : Z)
  | BadMagic (context : string) (expected actual : list Z)
  | UnsupportedVersion (version : Z)
  | IntegerOverflow (context : string)
  | InvalidValue (context : string)
  | InvalidUtf8 (context : string) (offset len : Z).

#[export] Instance WireError_eq_dec : EqDecision WireError.
Proof. solve_decision. Defined.

Abbreviation wres := (outcome WireError).

(** [if guard { return Err(e) }] *)
Definition refuse_if (guard : bool) (e : WireError) : wres unit := if guard then Err e else Ok tt.

(** ** Slices and integers ([le.rs]) *)

Definition zlen {A} (l : list A) : Z := Z.of_nat (length l).

(** [&bytes[offset..offset + len]] in range. *)
Definition subslice (bytes : list Z) (offset len : Z) : list Z :=
  take (Z.to_nat len) (drop (Z.to_nat offset) bytes).

Definition checked_add (a b : Z) (context : string) : wres Z :=
  if a + b <=? usize_max then Ok (a + b) else Err (IntegerOverflow context).

Definition checked_mul (a b : Z) (context : string) : wres Z :=
  if a * b <=? usize_max then Ok (a * b) else Err (IntegerOverflow context).

Definition ensure (bytes : list Z) (offset len : Z) (context : string) : wres (list Z) :=
  stop ← checked_add offset len context;
  refuse_if (zlen bytes <? stop) (UnexpectedEof context stop (zlen bytes)) ;;
  Ok (subslice bytes offset len).

Definition exact_slice : list Z -> Z -> Z -> string -> wres (list Z) := ensure.

(** [uN::from_le_bytes] is [bval], [uN::to_le_bytes] is [to_le_bytes (N / 8)]. *)
Definition read_uint (n : nat) (bytes : list Z) (offset : Z) (context : string) : wres Z :=
  s ← ensure bytes offset (Z.of_nat n) context; Ok (bval s).

Definition read_u8 : list Z -> Z -> string -> wres Z := read_uint 1.
Definition read_u16 : list Z -> Z -> string -> wres Z := read_uint 2.
Definition read_u32 : list Z -> Z -> string -> wres Z := read_uint 4.
Definition read_u64 : list Z -> Z -> string -> wres Z := read_uint 8.

Definition write_u8 (dst : list Z) (value : Z) : list Z := dst ++ to_le_bytes 1 value.
Definition write_u16 (dst : list Z) (value : Z) : list Z := dst ++ to_le_bytes 2 value.
Definition write_u32 (dst : list Z) (value : Z) : list Z := dst ++ to_le_bytes 4 value.
Definition write_u64 (dst : list Z) (value : Z) : list Z := dst ++ to_le_bytes 8 value.

Definition u16_max : Z := 2 ^ 16 - 1.
Definition u32_max : Z := 2 ^ 32 - 1.

(** [u32::try_from(len)] and [u16::try_from(len)] on a length. *)
Definition try_u32 (len : Z) (context : string) : wres Z :=
  if len <=? u32_max then Ok len else Err (InvalidValue context).
Definition try_u16 (len : Z) (context : string) : wres Z :=
  if len <=? u16_max then Ok len else Err (InvalidValue context).

Definition encode_transport_frame (payload : list Z) : wres (list Z) :=
  len ← try_u32 (zlen payload) "transport frame";
  Ok (write_u32 [] len ++ payload).

Definition decode_transport_frame (frame : list Z) : wres (list Z) :=
  len ← read_u32 frame 0 "transport frame length";
  expected ← checked_add 4 len "transport frame length";
  refuse_if (negb (zlen frame =? expected)) (LengthMismatch "transport frame" expected (zlen frame)) ;;
  exact_slice frame 4 len "transport frame payload".

(** ** Node and blob references ([types.rs]) *)

Inductive Sort := Bv | Bool.

#[export] Instance wire_Sort_eq_dec : EqDecision Sort.
Proof. solve_decision. Defined.

Module NodeRef.
Definition SORT_BIT : Z := 2147483648.
Definition INDEX_MASK : Z := 2147483647.

Definition sort_bit (s : Sort) : Z := match s with Bv => 0 | Bool => SORT_BIT end.

Definition new (s : Sort) (index : Z) : wres Z :=
  if INDEX_MASK <? index then Err (InvalidValue "node reference")
  else Ok (Z.lor (sort_bit s) index).

Definition bv (index : Z) : wres Z := new Bv index.
Definition bool (index : Z) : wres Z := new Bool index.
Definition index (r : Z) : Z := Z.land r INDEX_MASK.
Definition sort (r : Z) : Sort := if Z.land r SORT_BIT =? 0 then Bv else Bool.
Definition is_bv (r : Z) : Datatypes.bool := bool_decide (sort r = Bv).
Definition is_bool (r : Z) : Datatypes.bool := bool_decide (sort r = Bool).
End NodeRef.

(** [NodeRef(u32)] is its raw integer. *)
Abbreviation NodeRef := Z (only parsing).

Record BlobRef := mkBlobRef { blob_offset : Z; blob_len : Z }.

#[export] Instance BlobRef_eq_dec : EqDecision BlobRef.
Proof. solve_decision. Defined.

Module BlobRef.
Definition from_payload (payload : Z) : BlobRef :=
  mkBlobRef (Z.shiftr payload 32) (payload mod 2 ^ 32).
Definition to_payload (r : BlobRef) : Z := Z.lor (Z.shiftl (blob_offset r) 32) (blob_len r).
End BlobRef.

(** ** Strings

    A Rust string is its UTF-8 bytes, so [str::from_utf8] checks them. *)

Definition continuation (b : Z) : bool := (128 <=? b) && (b <=? 191).
Definition within (lo hi b : Z) : bool := (lo <=? b) && (b <=? hi).

Fixpoint utf8_valid (l : list Z) : bool :=
  match l with
  | [] => true
  | b0 :: l =>
      if b0 <=? 127 then utf8_valid l
      else
        match l with
        | [] => false
        | b1 :: l =>
            if within 194 223 b0 then continuation b1 && utf8_valid l
            else
              match l with
              | [] => false
              | b2 :: l =>
                  if within 224 239 b0 then
                    (if b0 =? 224 then within 160 191 b1
                     else if b0 =? 237 then within 128 159 b1 else continuation b1)
                    && (continuation b2 && utf8_valid l)
                  else
                    match l with
                    | [] => false
                    | b3 :: l =>
                        (if b0 =? 240 then within 144 191 b1
                         else if b0 =? 244 then within 128 143 b1
                         else within 241 243 b0 && continuation b1)
                        && (continuation b2 && (continuation b3 && utf8_valid l))
                    end
              end
        end
  end.

Definition byte_of_ascii (a : Ascii.ascii) : Z := Z.of_N (Ascii.N_of_ascii a).
Definition ascii_of_byte (b : Z) : Ascii.ascii := Ascii.ascii_of_N (Z.to_N b).

(** [s.as_bytes()] and its inverse on valid bytes. *)
Definition as_bytes (s : string) : list Z := byte_of_ascii <$> String.list_ascii_of_string s.
Definition string_of_bytes (l : list Z) : string := String.string_of_list_ascii (ascii_of_byte <$> l).

Definition from_utf8 (l : list Z) : option string :=
  if utf8_valid l then Some (string_of_bytes l) else None.

(** ** Loops over a slice *)

(** [for _ in 0..n { out.push(decode at the running offset) }] *)
Fixpoint decode_many {A} (decode : list Z -> Z -> wres (A * Z)) (n : nat) (bytes : list Z) (offset : Z)
    : wres (list A * Z) :=
  match n with
  | O => Ok ([], offset)
  | S n =>
      '(x, offset) ← decode bytes offset;
      '(l, offset) ← decode_many decode n bytes offset;
      Ok (x :: l, offset)
  end.

(** [for x in l { check(x)? }] *)
Fixpoint check_each {A} (check : A -> wres unit) (l : list A) : wres unit :=
  match l with [] => Ok tt | x :: l => check x ;; check_each check l end.

(** A [u32] read at an offset that then advances. *)
Definition next_u32 (context : string) (bytes : list Z) (offset : Z) : wres (Z * Z) :=
  v ← read_u32 bytes offset context; Ok (v, offset + 4).
