(* ===== verification/WireBaseFacts.v ===== *)
(** * Reading what was written

    [rest_at bytes off rest]: the bytes from [off] on are [rest].  Reads are
    characterised both ways: a slice that continues with an encoding decodes to
    the encoded value, and a read that succeeds found exactly the encoding of its
    result.  [Codec] packages the two laws for a type, so the blocks of the format
    compose. *)
From S2P Require Import Prelude Bits Bytes BytesFacts Evaluator EvaluatorFacts WireBase.

#[local] Open Scope Z_scope.
#[local] Opaque to_le_bytes.

(** ** No panics *)

Definition total {E A} (m : outcome E A) : Prop := m <> Panic.

Lemma total_ok {E A} (a : A) : total (Ok a : outcome E A).
Proof. done. Qed.
Lemma total_err {E A} (e : E) : total (Err e : outcome E A).
Proof. done. Qed.
Lemma total_bind {E A B} (m : outcome E A) (k : A -> outcome E B) :
  total m -> (forall a, m = Ok a -> total (k a)) -> total (m ≫= k).
Proof. unfold total. destruct m; simpl; auto. Qed.
Lemma total_map_err {E F A} (f : E -> F) (m : outcome E A) : total m -> total (map_err f m).
Proof. unfold total. by destruct m. Qed.
Lemma total_refuse b e : total (refuse_if b e).
Proof. by destruct b. Qed.
Lemma total_checked_add a b c : total (checked_add a b c).
Proof. unfold checked_add. by destruct (_ <=? _). Qed.
Lemma total_checked_mul a b c : total (checked_mul a b c).
Proof. unfold checked_mul. by destruct (_ <=? _). Qed.
Lemma total_try_u32 l c : total (try_u32 l c).
Proof. unfold try_u32. by destruct (_ <=? _). Qed.
Lemma total_try_u16 l c : total (try_u16 l c).
Proof. unfold try_u16. by destruct (_ <=? _). Qed.

Create HintDb total.
#[export] Hint Resolve total_ok total_err total_map_err total_refuse total_checked_add total_checked_mul
  total_try_u32 total_try_u16 : total.

(** A chain of binds whose links are total. *)
Ltac totals :=
  repeat match goal with
  | |- total (_ ≫= _) => apply total_bind; [|intros ? ?]
  | |- total (if _ then _ else _) => case_match
  | |- total (match _ with _ => _ end) => case_match
  | |- total _ => solve [auto with total]
  end.

Lemma total_ensure bytes off len c : total (ensure bytes off len c).
Proof. unfold ensure. totals. Qed.
#[export] Hint Resolve total_ensure : total.

Lemma total_read n bytes off c : total (read_uint n bytes off c).
Proof. unfold read_uint. totals. Qed.
#[export] Hint Resolve total_read : total.

(** ** Lengths *)

Lemma zlen_app {A} (l k : list A) : zlen (l ++ k) = zlen l + zlen k.
Proof. unfold zlen. rewrite length_app. lia. Qed.
Lemma zlen_nil {A} : zlen (@nil A) = 0.
Proof. done. Qed.
Lemma zlen_cons {A} (x : A) l : zlen (x :: l) = 1 + zlen l.
Proof. unfold zlen. simpl. lia. Qed.
Lemma zlen_nonneg {A} (l : list A) : 0 <= zlen l.
Proof. unfold zlen. lia. Qed.
Lemma zlen_le_bytes n v : zlen (to_le_bytes n v) = Z.of_nat n.
Proof. unfold zlen. by rewrite (proj1 (to_le_bytes_shape n v)). Qed.

(** What every Rust slice satisfies: its elements are bytes and its length is at
    most [isize::MAX]. *)
Definition slice_ok (bytes : list Z) : Prop := Forall is_byte bytes /\ zlen bytes < 2 ^ 63.

Lemma slice_ok_app l k : slice_ok (l ++ k) -> slice_ok l /\ slice_ok k.
Proof.
  intros [[Hl Hk]%Forall_app Hs]. rewrite zlen_app in Hs.
  pose proof (zlen_nonneg l). pose proof (zlen_nonneg k). split; split; try done; lia.
Qed.

(** ** Integers *)

Lemma le_bytes_bval s : Forall is_byte s -> to_le_bytes (length s) (bval s) = s.
Proof.
  intros H. apply bval_inj; [apply to_le_bytes_shape|by apply to_le_bytes_shape|done|].
  rewrite bval_to_le, Z.mod_small; [done|]. split; [by apply bval_nonneg|by apply bval_bound].
Qed.

Lemma bval_le_bytes n v : 0 <= v < 2 ^ (8 * Z.of_nat n) -> bval (to_le_bytes n v) = v.
Proof. intros H. rewrite bval_to_le. apply Z.mod_small. by rewrite Nat2Z.inj_mul. Qed.

(** ** Positions in a slice *)

Definition rest_at (bytes : list Z) (offset : Z) (rest : list Z) : Prop :=
  0 <= offset /\ offset + zlen rest = zlen bytes /\ drop (Z.to_nat offset) bytes = rest.

Lemma rest_start bytes : rest_at bytes 0 bytes.
Proof. split_and!; [lia|lia|done]. Qed.

Lemma rest_after pre post : rest_at (pre ++ post) (zlen pre) post.
Proof.
  split; [apply zlen_nonneg|]. split; [by rewrite zlen_app|].
  unfold zlen. rewrite Nat2Z.id. apply drop_app_length.
Qed.

Lemma rest_next bytes off mid rest : rest_at bytes off (mid ++ rest) -> rest_at bytes (off + zlen mid) rest.
Proof.
  intros (Ho & Hl & Hd). rewrite zlen_app in Hl. pose proof (zlen_nonneg mid). split_and!; [lia|lia|].
  replace (Z.to_nat (off + zlen mid)) with (Z.to_nat off + length mid)%nat by (unfold zlen in *; lia).
  rewrite Nat.add_comm, <- skipn_skipn, Hd. apply drop_app_length.
Qed.

Lemma rest_next_at bytes off mid rest off' : rest_at bytes off (mid ++ rest) -> off' = off + zlen mid ->
  rest_at bytes off' rest.
Proof. intros H ->. by apply rest_next. Qed.

Lemma rest_end bytes off : rest_at bytes off [] <-> off = zlen bytes.
Proof.
  unfold rest_at. assert (zlen (@nil Z) = 0) as E by done. split; [intros (_ & H & _); lia|]. intros ->.
  pose proof (zlen_nonneg bytes). split_and!; [lia|lia|]. unfold zlen. rewrite Nat2Z.id. apply drop_all.
Qed.

Lemma rest_unique bytes off r r' : rest_at bytes off r -> rest_at bytes off r' -> r = r'.
Proof. intros (_ & _ & <-) (_ & _ & <-). done. Qed.

Lemma rest_whole bytes rest : rest_at bytes 0 rest -> bytes = rest.
Proof. intros (_ & _ & <-). done. Qed.

Lemma rest_bytes bytes off rest : slice_ok bytes -> rest_at bytes off rest -> slice_ok rest.
Proof.
  intros [Hb Hs] (Ho & Hl & <-). split; [by apply Forall_drop|].
  pose proof (zlen_nonneg bytes). lia.
Qed.

(** ** Reads *)

Lemma ensure_at bytes off mid rest len c : slice_ok bytes -> rest_at bytes off (mid ++ rest) ->
  zlen mid = len -> ensure bytes off len c = Ok mid.
Proof.
  intros [_ Hs] (Ho & Hl & Hd) <-. rewrite zlen_app in Hl. pose proof (zlen_nonneg rest).
  unfold ensure, checked_add. rewrite (proj2 (Z.leb_le _ _)) by (unfold usize_max; lia).
  cbn [mbind res_bind]. rewrite (proj2 (Z.ltb_ge _ _)) by lia. simpl. f_equal.
  unfold subslice. rewrite Hd. unfold zlen. rewrite Nat2Z.id. apply take_app_length.
Qed.

Lemma ensure_inv bytes off len c s : 0 <= off -> 0 <= len -> ensure bytes off len c = Ok s ->
  zlen s = len /\ exists rest, rest_at bytes off (s ++ rest).
Proof.
  intros Ho Hl. unfold ensure, checked_add. destruct (_ <=? _); [|done]. cbn [mbind res_bind].
  destruct (Z.ltb_spec (zlen bytes) (off + len)); [done|]. simpl. intros [= <-].
  assert (Z.to_nat off + Z.to_nat len <= length bytes)%nat by (unfold zlen in *; lia).
  split; [unfold zlen, subslice; rewrite length_take, length_drop; lia|].
  exists (drop (Z.to_nat len) (drop (Z.to_nat off) bytes)). unfold subslice.
  split_and!; [done| |by rewrite take_drop].
  rewrite take_drop. unfold zlen. rewrite length_drop. lia.
Qed.

Lemma ensure_short bytes off len c : zlen bytes < off + len -> 0 <= off ->  0 <= len -> exists e, ensure bytes off len c = Err e.
Proof.
  intros H Ho Hl. unfold ensure, checked_add. destruct (_ <=? _); [|by eexists]. cbn [mbind res_bind].
  rewrite (proj2 (Z.ltb_lt _ _)) by done. by eexists.
Qed.

Lemma read_at n bytes off v rest c : slice_ok bytes -> 0 <= v < 2 ^ (8 * Z.of_nat n) ->
  rest_at bytes off (to_le_bytes n v ++ rest) -> read_uint n bytes off c = Ok v.
Proof.
  intros Hs Hv Hr. unfold read_uint. rewrite (ensure_at _ _ _ _ _ c Hs Hr (zlen_le_bytes _ _)).
  cbn [mbind res_bind]. by rewrite bval_le_bytes.
Qed.

Lemma read_inv n bytes off c v : slice_ok bytes -> 0 <= off -> read_uint n bytes off c = Ok v ->
  0 <= v < 2 ^ (8 * Z.of_nat n) /\ exists rest, rest_at bytes off (to_le_bytes n v ++ rest).
Proof.
  intros Hs Ho. unfold read_uint. destruct (ensure _ _ _ _) as [s|e|] eqn:E; [|done..].
  cbn [mbind res_bind]. intros [= <-].
  destruct (ensure_inv _ _ _ _ _ Ho (Nat2Z.is_nonneg _) E) as (Hl & rest & Hr).
  assert (length s = n) as <- by (unfold zlen in Hl; lia).
  assert (Forall is_byte s) as Hb by (apply (slice_ok_app s rest), (rest_bytes bytes off); done).
  split; [|exists rest; by rewrite le_bytes_bval].
  split; [by apply bval_nonneg|]. pose proof (bval_bound s Hb) as H.
  by rewrite Nat2Z.inj_mul in H.
Qed.

(** ** Codecs

    [encode] is what is written, [decode] reads at an offset and returns the next
    one.  [decodes] and [encodes] are the two directions of the round trip. *)
Class Codec (A : Type) (valid : A -> Prop) (encode : A -> list Z)
    (decode : list Z -> Z -> wres (A * Z)) : Prop := {
  codec_bytes a : valid a -> Forall is_byte (encode a);
  decodes bytes off a rest : slice_ok bytes -> valid a -> rest_at bytes off (encode a ++ rest) ->
    decode bytes off = Ok (a, off + zlen (encode a));
  encodes bytes off a off' : slice_ok bytes -> 0 <= off -> decode bytes off = Ok (a, off') ->
    valid a /\ off' = off + zlen (encode a) /\ exists rest, rest_at bytes off (encode a ++ rest);
  decode_total bytes off : slice_ok bytes -> 0 <= off -> total (decode bytes off);
}.

Definition is_u8 (v : Z) : Prop := 0 <= v < 2 ^ 8.
Definition is_u16 (v : Z) : Prop := 0 <= v < 2 ^ 16.
Definition is_u32 (v : Z) : Prop := 0 <= v < 2 ^ 32.
Definition is_u64 (v : Z) : Prop := 0 <= v < 2 ^ 64.

#[export] Instance u32_codec c : Codec Z is_u32 (to_le_bytes 4) (next_u32 c).
Proof.
  split.
  - intros a _. apply to_le_bytes_shape.
  - intros bytes off a rest Hs Ha Hr. unfold next_u32, read_u32.
    by rewrite (read_at 4 _ _ a rest).
  - intros bytes off a off' Hs Ho H. unfold next_u32, read_u32 in H.
    destruct (read_uint _ _ _ _) as [v|e|] eqn:E; [|done..].
    cbn [mbind res_bind] in H. injection H as <- <-. destruct (read_inv _ _ _ _ _ Hs Ho E) as [Hv Hr]. done.
  - intros bytes off _ _. unfold next_u32, read_u32. totals.
Qed.

Section many.
Context {A : Type} (valid : A -> Prop) (encode : A -> list Z) (decode : list Z -> Z -> wres (A * Z)).
Context `{!Codec A valid encode decode}.

Lemma many_bytes l : Forall valid l -> Forall is_byte (flat_map encode l).
Proof.
  intros H. induction H as [|a l Ha _ IH]; [constructor|]. simpl. apply Forall_app. split; [|done].
  by apply codec_bytes.
Qed.

Lemma many_decodes bytes off l rest : slice_ok bytes -> Forall valid l ->
  rest_at bytes off (flat_map encode l ++ rest) ->
  decode_many decode (length l) bytes off = Ok (l, off + zlen (flat_map encode l)).
Proof.
  intros Hs Hl. revert off. induction Hl as [|a l Ha _ IH]; intros off Hr; simpl.
  - by rewrite Z.add_0_r.
  - simpl in Hr. rewrite <- app_assoc in Hr. rewrite (decodes _ _ _ _ Hs Ha Hr). cbn [mbind res_bind].
    rewrite (IH _ (rest_next _ _ _ _ Hr)). cbn [mbind res_bind]. rewrite zlen_app. by rewrite Z.add_assoc.
Qed.

Lemma many_encodes n bytes off l off' : slice_ok bytes -> 0 <= off <= zlen bytes ->
  decode_many decode n bytes off = Ok (l, off') ->
  length l = n /\ Forall valid l /\ off' = off + zlen (flat_map encode l) /\
  exists rest, rest_at bytes off (flat_map encode l ++ rest).
Proof.
  intros Hs. revert off l off'. induction n as [|n IH]; intros off l off' Ho; simpl.
  - intros [= <- <-]. simpl. split_and!; [done|constructor|by rewrite Z.add_0_r|].
    exists (drop (Z.to_nat off) bytes). split_and!; [lia| |done].
    unfold zlen in *. rewrite length_drop. lia.
  - destruct (decode bytes off) as [[x o1]|e|] eqn:E; [|done..]. cbn [mbind res_bind].
    destruct (encodes _ _ _ _ Hs (proj1 Ho) E) as (Hx & -> & rest & Hr).
    destruct (decode_many _ _ _ _) as [[l1 o2]|e|] eqn:E2; [|done..]. cbn [mbind res_bind].
    intros [= <- <-]. pose proof (rest_next _ _ _ _ Hr) as Hr2.
    assert (0 <= off + zlen (encode x) <= zlen bytes) as Ho2.
    { destruct Hr2 as (? & H2 & _). pose proof (zlen_nonneg rest). lia. }
    destruct (IH _ _ _ Ho2 E2) as (Hl & Hv & -> & rest2 & Hr3). simpl.
    split_and!; [by rewrite Hl|by constructor|rewrite zlen_app; lia|].
    exists rest2. rewrite <- app_assoc. by rewrite <- (rest_unique _ _ _ _ Hr2 Hr3).
Qed.

Lemma many_total n bytes off : slice_ok bytes -> 0 <= off -> total (decode_many decode n bytes off).
Proof.
  intros Hs. revert off. induction n as [|n IH]; intros off Ho; simpl; [done|].
  apply total_bind; [by apply decode_total|]. intros [x o1] E.
  destruct (encodes _ _ _ _ Hs Ho E) as (_ & -> & _). pose proof (zlen_nonneg (encode x)).
  apply total_bind; [apply IH; lia|]. intros [l o2] _. done.
Qed.
End many.

(** A write loop appends the encodings in order. *)
Lemma foldl_appends {A} (write : list Z -> A -> list Z) (encode : A -> list Z) dst l :
  (forall dst x, write dst x = dst ++ encode x) -> foldl write dst l = dst ++ flat_map encode l.
Proof.
  intros H. revert dst. induction l as [|x l IH]; intros dst; simpl; [by rewrite app_nil_r|].
  by rewrite IH, H, <- app_assoc.
Qed.

Lemma zlen_many_u32 l : zlen (flat_map (to_le_bytes 4) l) = 4 * zlen l.
Proof.
  induction l as [|x l IH]; [done|].
  change (flat_map (to_le_bytes 4) (x :: l)) with (to_le_bytes 4 x ++ flat_map (to_le_bytes 4) l).
  rewrite zlen_app, zlen_le_bytes, IH, zlen_cons. lia.
Qed.

(** ** References *)

(** The raw reference of a node. *)
Definition raw_ref (so : Sort) (j : nat) : Z := Z.lor (NodeRef.sort_bit so) (Z.of_nat j).

Lemma noderef_new so (i : nat) : Z.of_nat i <= NodeRef.INDEX_MASK -> NodeRef.new so (Z.of_nat i) = Ok (raw_ref so i).
Proof. intros H. unfold NodeRef.new. by rewrite (proj2 (Z.ltb_ge _ _)). Qed.

Lemma raw_ref_ok so j : Z.of_nat j <= NodeRef.INDEX_MASK ->
  NodeRef.index (raw_ref so j) = Z.of_nat j /\ NodeRef.sort (raw_ref so j) = so /\ is_u32 (raw_ref so j).
Proof.
  intros Hj. assert (Z.of_nat j < 2 ^ 31) as Hlt by (unfold NodeRef.INDEX_MASK in Hj; lia). clear Hj.
  unfold raw_ref, NodeRef.index, NodeRef.sort. change NodeRef.INDEX_MASK with (Z.ones 31).
  rewrite Z.land_lor_distr_l, !Z.land_ones by lia.
  assert (Z.of_nat j mod 2 ^ 31 = Z.of_nat j) as E by (apply Z.mod_small; lia).
  rewrite E. assert (Z.land (Z.of_nat j) NodeRef.SORT_BIT = 0) as Eb.
  { rewrite <- E, <- Z.land_ones, <- Z.land_assoc by lia. apply Z.land_0_r. }
  rewrite Z.land_lor_distr_l, Eb. split_and!.
  - by destruct so.
  - by destruct so.
  - unfold is_u32. destruct so; simpl; [rewrite Z.lor_0_l; lia|].
    assert (Z.lor NodeRef.SORT_BIT (Z.of_nat j) = NodeRef.SORT_BIT + Z.of_nat j) as ->.
    { symmetry. rewrite <- Z.add_lor_land, Z.land_comm, Eb. lia. }
    change NodeRef.SORT_BIT with (2 ^ 31). lia.
Qed.

(** ** Transport frames *)

Lemma frame_decodes payload frame : slice_ok (to_le_bytes 4 0 ++ payload) ->
  encode_transport_frame payload = Ok frame -> decode_transport_frame frame = Ok payload.
Proof.
  intros [[_ Hb]%Forall_app Hl]. rewrite zlen_app, zlen_le_bytes in Hl. unfold encode_transport_frame, try_u32.
  pose proof (zlen_nonneg payload).
  destruct (Z.leb_spec (zlen payload) u32_max) as [Hm|]; [|done]. cbn [mbind res_bind].
  unfold write_u32. intros [= <-]. set (frame := to_le_bytes 4 (zlen payload) ++ payload).
  assert (slice_ok frame) as Hf.
  { split; [apply Forall_app; split; [apply to_le_bytes_shape|done]|].
    unfold frame. rewrite zlen_app, zlen_le_bytes. lia. }
  unfold decode_transport_frame, read_u32. rewrite (read_at 4 _ _ (zlen payload) payload);
    [|done|unfold u32_max in Hm; lia|apply rest_start].
  cbn [mbind res_bind]. unfold checked_add. rewrite (proj2 (Z.leb_le _ _)) by (unfold usize_max, u32_max in *; lia).
  cbn [mbind res_bind]. assert (zlen frame = 4 + zlen payload) as -> by (unfold frame; by rewrite zlen_app, zlen_le_bytes).
  rewrite Z.eqb_refl. simpl.
  unfold exact_slice. apply (ensure_at _ _ payload []); [done| |done]. rewrite app_nil_r.
  apply (rest_next_at _ 0 (to_le_bytes 4 (zlen payload))); [apply rest_start|by rewrite zlen_le_bytes].
Qed.

Lemma frame_encodes frame payload : slice_ok frame -> decode_transport_frame frame = Ok payload ->
  encode_transport_frame payload = Ok frame.
Proof.
  intros Hs. unfold decode_transport_frame, read_u32.
  destruct (read_uint 4 frame 0 _) as [len|e|] eqn:E; [|done..]. cbn [mbind res_bind].
  destruct (read_inv _ _ _ _ _ Hs (Z.le_refl 0) E) as (Hlen & rest & Hr).
  unfold checked_add. rewrite (proj2 (Z.leb_le _ _)) by (unfold usize_max; lia). cbn [mbind res_bind].
  destruct (Z.eqb_spec (zlen frame) (4 + len)) as [Hf|]; [|done]. simpl. intros Hp.
  apply rest_whole in Hr. subst frame. rewrite zlen_app, zlen_le_bytes in Hf.
  assert (payload = rest) as ->.
  { unfold exact_slice in Hp. rewrite (ensure_at _ 4 rest [] len) in Hp; [congruence|done| |lia].
    rewrite app_nil_r. apply (rest_next_at _ 0 (to_le_bytes 4 len)); [apply rest_start|by rewrite zlen_le_bytes]. }
  unfold encode_transport_frame, try_u32. assert (zlen rest = len) as -> by lia.
  rewrite (proj2 (Z.leb_le _ _)) by (unfold u32_max; lia). done.
Qed.
