(* ===== verification/WireExpr.v ===== *)
(** * Expression buffers ([smt-wire]: [constants.rs], [expr.rs])

    The binary encoding of a term DAG: a header, fixed-size node records, child
    references and a blob of names and wide constants; and the validation that
    makes a buffer a well-sorted DAG. *)
From S2P Require Import Prelude Bytes BytesFacts Evaluator WireBase.

#[local] Open Scope Z_scope.

(** ** Constants ([constants.rs]) *)

(** [*b"SMT\0"], [*b"SMTQ"], [*b"SMTR"]. *)
Definition EXPR_MAGIC : list Z := [83; 77; 84; 0].
Definition REQUEST_MAGIC : list Z := [83; 77; 84; 81].
Definition RESPONSE_MAGIC : list Z := [83; 77; 84; 82].
Definition VERSION : Z := 1.
Definition EXPR_HEADER_LEN : Z := 32.
Definition NODE_RECORD_LEN : Z := 24.
Definition REQUEST_ENVELOPE_LEN : Z := 32.
Definition RESPONSE_ENVELOPE_LEN : Z := 16.

Inductive Tag :=
  | TBvVar | TBvConst | TBvNot | TBvNeg | TBvAnd | TBvOr | TBvXor | TBvAdd | TBvSub | TBvMul
  | TBvUdiv | TBvUrem | TBvSdiv | TBvSrem | TBvSmod | TBvShl | TBvLshr | TBvAshr
  | TBvExtract | TBvConcat | TBvZext | TBvSext | TBvIte | TBvSelect | TBoolTrue | TBoolFalse
  | TBoolVar | TBoolNot | TBoolAnd | TBoolOr | TBoolImplies | TBvEq | TBvUlt | TBvUle
  | TBvSlt | TBvSle | TUaddOvf | TSaddOvf | TUsubOvf | TSsubOvf | TUmulOvf | TSmulOvf
  | TNegOvf | TSdivOvf.

#[export] Instance Tag_eq_dec : EqDecision Tag.
Proof. solve_decision. Defined.

Module Tag.
(** The tags in the order of their numbers. *)
Definition all : list Tag :=
  [TBvVar; TBvConst; TBvNot; TBvNeg; TBvAnd; TBvOr; TBvXor; TBvAdd; TBvSub; TBvMul; TBvUdiv;
   TBvUrem; TBvSdiv; TBvSrem; TBvSmod; TBvShl; TBvLshr; TBvAshr; TBvExtract; TBvConcat;
   TBvZext; TBvSext; TBvIte; TBvSelect; TBoolTrue; TBoolFalse; TBoolVar; TBoolNot;
   TBoolAnd; TBoolOr; TBoolImplies; TBvEq; TBvUlt; TBvUle; TBvSlt; TBvSle; TUaddOvf;
   TSaddOvf; TUsubOvf; TSsubOvf; TUmulOvf; TSmulOvf; TNegOvf; TSdivOvf].

(** [Tag::try_from(u8)] and [u8::from(tag)]. *)
Definition try_from (value : Z) : option Tag := if value <? 0 then None else all !! Z.to_nat value.
Definition to_u8 (t : Tag) : Z :=
  match t with
  | TBvVar => 0 | TBvConst => 1 | TBvNot => 2 | TBvNeg => 3 | TBvAnd => 4 | TBvOr => 5
  | TBvXor => 6 | TBvAdd => 7 | TBvSub => 8 | TBvMul => 9 | TBvUdiv => 10 | TBvUrem => 11
  | TBvSdiv => 12 | TBvSrem => 13 | TBvSmod => 14 | TBvShl => 15 | TBvLshr => 16
  | TBvAshr => 17 | TBvExtract => 18 | TBvConcat => 19 | TBvZext => 20 | TBvSext => 21
  | TBvIte => 22 | TBvSelect => 23 | TBoolTrue => 24 | TBoolFalse => 25 | TBoolVar => 26
  | TBoolNot => 27 | TBoolAnd => 28 | TBoolOr => 29 | TBoolImplies => 30 | TBvEq => 31
  | TBvUlt => 32 | TBvUle => 33 | TBvSlt => 34 | TBvSle => 35 | TUaddOvf => 36
  | TSaddOvf => 37 | TUsubOvf => 38 | TSsubOvf => 39 | TUmulOvf => 40 | TSmulOvf => 41
  | TNegOvf => 42 | TSdivOvf => 43
  end.

Definition name (t : Tag) : string :=
  match t with
  | TBvVar => "BV_VAR" | TBvConst => "BV_CONST" | TBvNot => "BV_NOT" | TBvNeg => "BV_NEG"
  | TBvAnd => "BV_AND" | TBvOr => "BV_OR" | TBvXor => "BV_XOR" | TBvAdd => "BV_ADD" | TBvSub => "BV_SUB"
  | TBvMul => "BV_MUL" | TBvUdiv => "BV_UDIV" | TBvUrem => "BV_UREM" | TBvSdiv => "BV_SDIV"
  | TBvSrem => "BV_SREM" | TBvSmod => "BV_SMOD" | TBvShl => "BV_SHL" | TBvLshr => "BV_LSHR"
  | TBvAshr => "BV_ASHR" | TBvExtract => "BV_EXTRACT" | TBvConcat => "BV_CONCAT" | TBvZext => "BV_ZEXT"
  | TBvSext => "BV_SEXT" | TBvIte => "BV_ITE" | TBvSelect => "BV_SELECT" | TBoolTrue => "BOOL_TRUE"
  | TBoolFalse => "BOOL_FALSE" | TBoolVar => "BOOL_VAR" | TBoolNot => "BOOL_NOT" | TBoolAnd => "BOOL_AND"
  | TBoolOr => "BOOL_OR" | TBoolImplies => "BOOL_IMPLIES" | TBvEq => "BV_EQ" | TBvUlt => "BV_ULT"
  | TBvUle => "BV_ULE" | TBvSlt => "BV_SLT" | TBvSle => "BV_SLE" | TUaddOvf => "UADD_OVF"
  | TSaddOvf => "SADD_OVF" | TUsubOvf => "USUB_OVF" | TSsubOvf => "SSUB_OVF" | TUmulOvf => "UMUL_OVF"
  | TSmulOvf => "SMUL_OVF" | TNegOvf => "NEG_OVF" | TSdivOvf => "SDIV_OVF"
  end.

Definition result_sort (t : Tag) : Sort :=
  match t with
  | TBvVar | TBvConst | TBvNot | TBvNeg | TBvAnd | TBvOr | TBvXor | TBvAdd | TBvSub | TBvMul
  | TBvUdiv | TBvUrem | TBvSdiv | TBvSrem | TBvSmod | TBvShl | TBvLshr | TBvAshr
  | TBvExtract | TBvConcat | TBvZext | TBvSext | TBvIte | TBvSelect => Bv
  | _ => Bool
  end.

Definition fixed_arity (t : Tag) : option Z :=
  match t with
  | TBvVar | TBvConst | TBoolTrue | TBoolFalse | TBoolVar => Some 0
  | TBvNot | TBvNeg | TBvExtract | TBvZext | TBvSext | TBoolNot | TNegOvf => Some 1
  | TBvAnd | TBvOr | TBvXor | TBvAdd | TBvSub | TBvMul | TBvUdiv | TBvUrem | TBvSdiv | TBvSrem
  | TBvSmod | TBvShl | TBvLshr | TBvAshr | TBvConcat | TBoolAnd | TBoolOr | TBoolImplies | TBvEq
  | TBvUlt | TBvUle | TBvSlt | TBvSle | TUaddOvf | TSaddOvf | TUsubOvf | TSsubOvf | TUmulOvf
  | TSmulOvf | TSdivOvf => Some 2
  | TBvIte => Some 3
  | TBvSelect => None
  end.
End Tag.

Inductive WireCommand := CmdSolve | CmdSimplify | CmdMinimize | CmdMaximize.

#[export] Instance WireCommand_eq_dec : EqDecision WireCommand.
Proof. solve_decision. Defined.

Module WireCommand.
Definition try_from (value : Z) : option WireCommand :=
  if value =? 0 then Some CmdSolve else if value =? 1 then Some CmdSimplify
  else if value =? 2 then Some CmdMinimize else if value =? 3 then Some CmdMaximize else None.
Definition to_u8 (c : WireCommand) : Z :=
  match c with CmdSolve => 0 | CmdSimplify => 1 | CmdMinimize => 2 | CmdMaximize => 3 end.
End WireCommand.

Inductive Status := StSimplified | StSat | StUnsat | StUnknown | StError.

#[export] Instance Status_eq_dec : EqDecision Status.
Proof. solve_decision. Defined.

Module Status.
Definition try_from (value : Z) : option Status :=
  if value =? 0 then Some StSimplified else if value =? 1 then Some StSat
  else if value =? 2 then Some StUnsat else if value =? 3 then Some StUnknown
  else if value =? 4 then Some StError else None.
Definition to_u8 (s : Status) : Z :=
  match s with StSimplified => 0 | StSat => 1 | StUnsat => 2 | StUnknown => 3 | StError => 4 end.
End Status.

Module RequestFlags.
Definition WANT_MODEL : Z := 1.
Definition WANT_CORE : Z := 2.
Definition SIGNED : Z := 4.
Definition ALL : Z := 7.
End RequestFlags.

Module ResponseFlags.
Definition HAS_MODEL : Z := 1.
Definition HAS_CORE : Z := 2.
Definition HAS_EXPR : Z := 4.
Definition HAS_VALUE : Z := 8.
Definition HAS_MESSAGE : Z := 16.
Definition ALL : Z := 31.
End ResponseFlags.

(** ** Node records ([expr.rs]) *)

Definition MAX_NODE_COUNT : Z := 2 ^ 31.

Record ExprHeader := mkExprHeader { node_count : Z; child_count : Z; expr_blob_len : Z }.

Record RawNode := mkRawNode {
  tag : Z; arity : Z; aux_hi : Z; node_width : Z; aux_lo : Z; children : Z; payload : Z;
}.

Module RawNode.
Definition decode (bytes : list Z) (offset : Z) : wres RawNode :=
  tag ← read_u8 bytes offset "node tag";
  arity ← read_u8 bytes (offset + 1) "node arity";
  aux_hi ← read_u16 bytes (offset + 2) "node aux_hi";
  width ← read_u32 bytes (offset + 4) "node width";
  aux_lo ← read_u32 bytes (offset + 8) "node aux_lo";
  children ← read_u32 bytes (offset + 12) "node children";
  payload ← read_u64 bytes (offset + 16) "node payload";
  Ok (mkRawNode tag arity aux_hi width aux_lo children payload).

Definition encode (self : RawNode) (dst : list Z) : list Z :=
  let dst := write_u8 dst (tag self) in
  let dst := write_u8 dst (arity self) in
  let dst := write_u16 dst (aux_hi self) in
  let dst := write_u32 dst (node_width self) in
  let dst := write_u32 dst (aux_lo self) in
  let dst := write_u32 dst (children self) in
  write_u64 dst (payload self).

Definition blob_ref (self : RawNode) : BlobRef := BlobRef.from_payload (payload self).
End RawNode.

Definition expression_len (node_count child_count blob_len : Z) : wres Z :=
  node_bytes ← checked_mul node_count NODE_RECORD_LEN "expression node array length";
  after_nodes ← checked_add EXPR_HEADER_LEN node_bytes "expression length";
  child_bytes ← checked_mul child_count 4 "expression child array length";
  after_children ← checked_add after_nodes child_bytes "expression length";
  checked_add after_children blob_len "expression length".

(** [ExpressionBuffer] is the vector of its bytes. *)
Definition from_parts (nodes : list RawNode) (children : list NodeRef) (blob : list Z)
    : wres (list Z) :=
  node_count ← try_u32 (zlen nodes) "expression buffer";
  refuse_if (MAX_NODE_COUNT <? node_count) (InvalidValue "expression buffer") ;;
  child_count ← try_u32 (zlen children) "expression buffer";
  blob_len ← try_u32 (zlen blob) "expression buffer";
  expression_len node_count child_count blob_len ;;
  let out := EXPR_MAGIC in
  let out := write_u8 out VERSION in
  let out := out ++ [0; 0; 0] in
  let out := write_u32 out node_count in
  let out := write_u32 out child_count in
  let out := write_u32 out blob_len in
  let out := out ++ replicate 12 0 in
  let out := foldl (fun out node => RawNode.encode node out) out nodes in
  let out := foldl write_u32 out children in
  Ok (out ++ blob).

(** ** Views *)

Record ExprView := mkExprView {
  view_bytes : list Z; header : ExprHeader;
  node_offset : Z; child_offset : Z; view_blob_offset : Z;
}.

Module ExprView.
Definition parse (bytes : list Z) : wres ExprView :=
  refuse_if (zlen bytes <? EXPR_HEADER_LEN)
    (UnexpectedEof "expression header" EXPR_HEADER_LEN (zlen bytes)) ;;
  magic ← exact_slice bytes 0 4 "expression magic";
  refuse_if (negb (bool_decide (magic = EXPR_MAGIC))) (BadMagic "expression buffer" EXPR_MAGIC magic) ;;
  version ← read_u8 bytes 4 "expression version";
  refuse_if (negb (version =? VERSION)) (UnsupportedVersion version) ;;
  node_count ← read_u32 bytes 8 "expression node_count";
  child_count ← read_u32 bytes 12 "expression child_count";
  blob_len ← read_u32 bytes 16 "expression blob_len";
  let header := mkExprHeader node_count child_count blob_len in
  refuse_if (MAX_NODE_COUNT <? node_count) (InvalidValue "expression node_count") ;;
  expected ← expression_len node_count child_count blob_len;
  refuse_if (negb (zlen bytes =? expected))
    (LengthMismatch "expression buffer" expected (zlen bytes)) ;;
  let node_offset := EXPR_HEADER_LEN in
  node_bytes ← checked_mul node_count NODE_RECORD_LEN "expression node array length";
  child_offset ← checked_add node_offset node_bytes "expression child offset";
  child_bytes ← checked_mul child_count 4 "expression child array length";
  blob_offset ← checked_add child_offset child_bytes "expression blob offset";
  Ok (mkExprView bytes header node_offset child_offset blob_offset).

Definition node (self : ExprView) (index : Z) : wres RawNode :=
  refuse_if (node_count (header self) <=? index) (InvalidValue "node index") ;;
  index_bytes ← checked_mul index NODE_RECORD_LEN "node offset";
  offset ← checked_add (node_offset self) index_bytes "node offset";
  RawNode.decode (view_bytes self) offset.

Definition child_ref (self : ExprView) (index : Z) : wres NodeRef :=
  refuse_if (child_count (header self) <=? index) (InvalidValue "child index") ;;
  index_bytes ← checked_mul index 4 "child offset";
  offset ← checked_add (child_offset self) index_bytes "child offset";
  read_u32 (view_bytes self) offset "child reference".

Definition blob (self : ExprView) : list Z := drop (Z.to_nat (view_blob_offset self)) (view_bytes self).

Definition blob_ref (self : ExprView) (reference : BlobRef) : wres (list Z) :=
  let start := blob_offset reference in
  stop ← checked_add start (blob_len reference) "blob reference";
  refuse_if (zlen (blob self) <? stop) (InvalidValue "blob reference") ;;
  Ok (subslice (blob self) start (blob_len reference)).

Definition blob_str (self : ExprView) (reference : BlobRef) (context : string) : wres string :=
  bytes ← blob_ref self reference;
  match from_utf8 bytes with
  | Some name => Ok name
  | None => Err (InvalidUtf8 context (blob_offset reference) (blob_len reference))
  end.
End ExprView.

(** ** Validation *)

Record NodeInfo := mkNodeInfo { info_tag : Tag; info_sort : Sort; info_width : Z }.

Definition parse_tag (raw : Z) : wres Tag :=
  match Tag.try_from raw with Some t => Ok t | None => Err (InvalidValue "node tag") end.

Definition validate_select_arity (arity : Z) : wres unit :=
  refuse_if ((arity =? 0) || Z.even arity) (InvalidValue "BV_SELECT arity").

Definition validate_arity (t : Tag) (arity : Z) : wres unit :=
  match Tag.fixed_arity t with
  | Some expected => refuse_if (negb (arity =? expected)) (InvalidValue "node arity")
  | None => validate_select_arity arity
  end.

Definition validate_select_shape (node : RawNode) : wres unit :=
  validate_select_arity (arity node) ;;
  refuse_if (negb (aux_hi node =? (arity node - 1) / 2)) (InvalidValue "BV_SELECT aux_hi").

Definition validate_bv_width_value (width : Z) (context : string) : wres unit :=
  refuse_if (negb ((1 <=? width) && (width <=? MAX_BV_WIDTH))) (InvalidValue context).

Definition validate_node_width (t : Tag) (width : Z) : wres unit :=
  match Tag.result_sort t with
  | Bool => refuse_if (negb (width =? 0)) (InvalidValue "Bool node width")
  | Bv => map_err (fun _ => InvalidValue "BV node width") (validate_bv_width_value width "BV node width")
  end.

Definition wire_bytes_for_width (width : Z) : wres Z :=
  validate_bv_width_value width "scalar width" ;; Ok ((width + 7) / 8).

(** [u32::checked_add] *)
Definition checked_add_u32 (a b : Z) (context : string) : wres Z :=
  if a + b <=? u32_max then Ok (a + b) else Err (IntegerOverflow context).

Definition validate_children_range (child_count : Z) (node : RawNode) : wres unit :=
  if arity node =? 0 then Ok tt
  else
    stop ← checked_add_u32 (children node) (arity node) "node child range";
    refuse_if (child_count <? stop) (InvalidValue "node child range").

Definition validate_ref (meta : list NodeInfo) (reference : NodeRef) (expected_sort : Sort)
    (parent_index : option Z) (context : string) : wres NodeInfo :=
  let index := NodeRef.index reference in
  match meta !! Z.to_nat index with
  | None => Err (InvalidValue context)
  | Some info =>
      refuse_if (negb (bool_decide (NodeRef.sort reference = expected_sort))) (InvalidValue context) ;;
      refuse_if (negb (bool_decide (info_sort info = NodeRef.sort reference))) (InvalidValue context) ;;
      refuse_if (match parent_index with Some parent => parent <=? index | None => false end)
        (InvalidValue context) ;;
      Ok info
  end.

Definition expect_width (actual expected : Z) (context : string) : wres unit :=
  refuse_if (negb (actual =? expected)) (InvalidValue context).

Definition expect_same_child_width (lhs rhs : Z) : wres unit :=
  refuse_if (negb (lhs =? rhs)) (InvalidValue "child widths").

Definition is_var (t : Tag) : bool := match t with TBvVar | TBoolVar => true | _ => false end.

(** The first pass: tags, arities, widths, one signature per symbol, wide
    constants.  It returns [meta]. *)
Definition validate_node (self : ExprView) (index : Z) (symbols : gmap string NodeInfo)
    : wres (gmap string NodeInfo * NodeInfo) :=
  node ← ExprView.node self index;
  t ← parse_tag (tag node);
  validate_arity t (arity node) ;;
  validate_node_width t (node_width node) ;;
  let signature := mkNodeInfo t (Tag.result_sort t) (node_width node) in
  symbols ←
    (if is_var t then
       name ← ExprView.blob_str self (RawNode.blob_ref node) "symbol name";
       match symbols !! name with
       | Some existing =>
           refuse_if (negb (bool_decide (info_sort existing = info_sort signature)
                            && (info_width existing =? info_width signature)))
             (InvalidValue "symbol declaration")
       | None => Ok tt
       end ;;
       Ok (<[name := signature]> symbols)
     else Ok symbols);
  (if bool_decide (t = TBvConst) && (64 <? node_width node) then
     let reference := RawNode.blob_ref node in
     expected_len ← wire_bytes_for_width (node_width node);
     refuse_if (negb (blob_len reference =? expected_len)) (InvalidValue "wide BV_CONST") ;;
     ExprView.blob_ref self reference ;;
     Ok tt
   else Ok tt) ;;
  Ok (symbols, signature).

Fixpoint validate_nodes (self : ExprView) (n : nat) (index : Z) (symbols : gmap string NodeInfo)
    (meta : list NodeInfo) : wres (list NodeInfo) :=
  match n with
  | O => Ok meta
  | S n =>
      '(symbols, info) ← validate_node self index symbols;
      validate_nodes self n (index + 1) symbols (meta ++ [info])
  end.

Definition expect_child (self : ExprView) (meta : list NodeInfo) (parent_index : Z) (parent : RawNode)
    (offset : Z) (expected_sort : Sort) : wres NodeInfo :=
  i ← checked_add_u32 (children parent) offset "child array index";
  reference ← ExprView.child_ref self i;
  validate_ref meta reference expected_sort (Some parent_index) "child reference".

(** The pairs of a [BV_SELECT]. *)
Fixpoint validate_pairs (child : Z -> Sort -> wres NodeInfo) (default : NodeInfo) (n : nat) (pair : Z)
    : wres unit :=
  match n with
  | O => Ok tt
  | S n =>
      child (pair * 2) Bool ;;
      value ← child (pair * 2 + 1) Bv;
      expect_same_child_width (info_width value) (info_width default) ;;
      validate_pairs child default n (pair + 1)
  end.

(** The second pass: children exist, are earlier, and have the sorts and widths
    the tag asks for. *)
Definition validate_children (self : ExprView) (meta : list NodeInfo) (index : Z) : wres unit :=
  node ← ExprView.node self index;
  info ← match meta !! Z.to_nat index with Some info => Ok info | None => Panic end;
  validate_children_range (child_count (header self)) node ;;
  let child := expect_child self meta index node in
  let two_same (k : NodeInfo -> wres unit) : wres unit :=
    lhs ← child 0 Bv;
    rhs ← child 1 Bv;
    expect_same_child_width (info_width lhs) (info_width rhs) ;;
    k lhs in
  match info_tag info with
  | TBvVar | TBvConst | TBoolTrue | TBoolFalse | TBoolVar => Ok tt
  | TBvNot | TBvNeg =>
      c ← child 0 Bv; expect_width (node_width node) (info_width c) "unary BV result"
  | TBvAnd | TBvOr | TBvXor | TBvAdd | TBvSub | TBvMul | TBvUdiv | TBvUrem | TBvSdiv | TBvSrem
  | TBvSmod | TBvShl | TBvLshr | TBvAshr =>
      two_same (fun lhs => expect_width (node_width node) (info_width lhs) "binary BV result")
  | TBvExtract =>
      c ← child 0 Bv;
      let lo := aux_lo node in
      let hi := aux_hi node in
      refuse_if ((hi <? lo) || (info_width c <=? hi)) (InvalidValue "BV_EXTRACT bounds") ;;
      expect_width (node_width node) (hi - lo + 1) "extract result"
  | TBvConcat =>
      hi ← child 0 Bv;
      lo ← child 1 Bv;
      expected ← checked_add_u32 (info_width hi) (info_width lo) "BV_CONCAT width";
      validate_bv_width_value expected "BV_CONCAT result" ;;
      expect_width (node_width node) expected "concat result"
  | TBvZext | TBvSext =>
      c ← child 0 Bv;
      expected ← checked_add_u32 (info_width c) (aux_hi node) "BV_EXT width";
      validate_bv_width_value expected "BV_EXT result" ;;
      expect_width (node_width node) expected "extension result"
  | TBvIte =>
      child 0 Bool ;;
      then_child ← child 1 Bv;
      else_child ← child 2 Bv;
      expect_same_child_width (info_width then_child) (info_width else_child) ;;
      expect_width (node_width node) (info_width then_child) "BV_ITE result"
  | TBvSelect =>
      validate_select_shape node ;;
      let pairs := aux_hi node in
      default ← child (pairs * 2) Bv;
      validate_pairs child default (Z.to_nat pairs) 0 ;;
      expect_width (node_width node) (info_width default) "BV_SELECT result"
  | TBoolNot => child 0 Bool ;; Ok tt
  | TBoolAnd | TBoolOr | TBoolImplies => child 0 Bool ;; child 1 Bool ;; Ok tt
  | TBvEq | TBvUlt | TBvUle | TBvSlt | TBvSle
  | TUaddOvf | TSaddOvf | TUsubOvf | TSsubOvf | TUmulOvf | TSmulOvf | TSdivOvf =>
      two_same (fun _ => Ok tt)
  | TNegOvf => child 0 Bv ;; Ok tt
  end.

Fixpoint validate_all_children (self : ExprView) (meta : list NodeInfo) (n : nat) (index : Z) : wres unit :=
  match n with
  | O => Ok tt
  | S n => validate_children self meta index ;; validate_all_children self meta n (index + 1)
  end.

(** [ExprView::validate] *)
Definition validate (self : ExprView) : wres unit :=
  let n := Z.to_nat (node_count (header self)) in
  meta ← validate_nodes self n 0 ∅ [];
  validate_all_children self meta n 0.

Definition parse_and_validate (bytes : list Z) : wres ExprView :=
  view ← ExprView.parse bytes; validate view ;; Ok view.

(** [ExpressionBuffer::from_bytes] *)
Definition from_bytes (bytes : list Z) : wres (list Z) := ExprView.parse bytes ;; Ok bytes.

Definition validate_node_ref (view : ExprView) (reference : NodeRef) (expected_sort : Sort)
    (context : string) : wres RawNode :=
  let index := NodeRef.index reference in
  refuse_if (node_count (header view) <=? index) (InvalidValue context) ;;
  refuse_if (negb (bool_decide (NodeRef.sort reference = expected_sort))) (InvalidValue context) ;;
  node ← ExprView.node view index;
  t ← parse_tag (tag node);
  refuse_if (negb (bool_decide (Tag.result_sort t = NodeRef.sort reference))) (InvalidValue context) ;;
  Ok node.

Definition is_variable_node (node : RawNode) : bool := (tag node =? 0) || (tag node =? 26).
