(* ===== verification/WireExprFacts.v ===== *)
(** * The layout of an expression buffer

    [layout] is the concatenation a buffer is; parsing accepts exactly the layouts,
    and the view it returns reads the very nodes, child references and blob the
    buffer was laid out from ([view_of]). *)
From S2P Require Import Prelude Bits Bytes BytesFacts Evaluator EvaluatorFacts.
From S2P Require Import WireBase WireBaseFacts WireExpr.

#[local] Open Scope Z_scope.
#[local] Opaque to_le_bytes.

(** ** Chains of reads *)

(** The read at the head of the goal finds the field at this position. *)
Ltac read_field Hs Hr :=
  lazymatch type of Hr with
  | rest_at ?bytes ?off (to_le_bytes ?n ?v ++ ?rest) =>
      lazymatch goal with
      | |- context [read_uint n bytes ?o ?c ≫= _] =>
          replace (read_uint n bytes o c) with (Ok v : wres Z)
            by (symmetry; replace o with off by lia;
                apply (read_at n bytes off v rest c Hs); [assumption|exact Hr])
      end;
      cbn [mbind res_bind];
      apply rest_next in Hr; rewrite zlen_le_bytes in Hr
  end.

(** A read that succeeded: its bytes are the next ones. *)
Ltac unread Hs v Hv Hr :=
  match goal with
  | |- read_uint ?n ?bytes ?off ?c ≫= _ = Ok _ -> _ =>
      let E := fresh "E" in
      destruct (read_uint n bytes off c) as [v|?e|] eqn:E; [|done..]; cbn [mbind res_bind];
      let rest := fresh "rest" in
      destruct (read_inv n bytes off c v Hs ltac:(lia) E) as [Hv [rest Hr]]; clear E;
      first [change (is_u8 v) in Hv|change (is_u16 v) in Hv|change (is_u32 v) in Hv|change (is_u64 v) in Hv]
  end.

Lemma rest_join bytes off a r off' r' : rest_at bytes off (a ++ r) -> rest_at bytes off' r' ->
  off' = off + zlen a -> rest_at bytes off (a ++ r').
Proof. intros H H' ->. by rewrite <- (rest_unique _ _ _ _ (rest_next _ _ _ _ H) H'). Qed.

(** Two adjacent fields. *)
Ltac join R R' := apply (rest_join _ _ _ _ _ _ R) in R'; [|by rewrite zlen_le_bytes; lia].

(** ** Node records *)

Definition node_valid (n : RawNode) : Prop :=
  is_u8 (tag n) /\ is_u8 (arity n) /\ is_u16 (aux_hi n) /\ is_u32 (node_width n) /\
  is_u32 (aux_lo n) /\ is_u32 (children n) /\ is_u64 (payload n).

Definition node_bytes (n : RawNode) : list Z :=
  to_le_bytes 1 (tag n) ++ to_le_bytes 1 (arity n) ++ to_le_bytes 2 (aux_hi n) ++
  to_le_bytes 4 (node_width n) ++ to_le_bytes 4 (aux_lo n) ++ to_le_bytes 4 (children n) ++
  to_le_bytes 8 (payload n).

Lemma zlen_node_bytes n : zlen (node_bytes n) = 24.
Proof. unfold node_bytes. by rewrite !zlen_app, !zlen_le_bytes. Qed.

Lemma encode_node n dst : RawNode.encode n dst = dst ++ node_bytes n.
Proof.
  unfold RawNode.encode, write_u8, write_u16, write_u32, write_u64, node_bytes. by rewrite <- !app_assoc.
Qed.

Lemma node_at bytes off n rest : slice_ok bytes -> node_valid n -> rest_at bytes off (node_bytes n ++ rest) ->
  RawNode.decode bytes off = Ok n.
Proof.
  intros Hs (H1 & H2 & H3 & H4 & H5 & H6 & H7) Hr. unfold node_bytes in Hr. rewrite <- !app_assoc in Hr.
  unfold RawNode.decode, read_u8, read_u16, read_u32, read_u64.
  read_field Hs Hr. read_field Hs Hr. read_field Hs Hr.
  read_field Hs Hr. read_field Hs Hr. read_field Hs Hr.
  read_field Hs Hr. by destruct n.
Qed.

Lemma node_inv bytes off n : slice_ok bytes -> 0 <= off -> RawNode.decode bytes off = Ok n ->
  node_valid n /\ exists rest, rest_at bytes off (node_bytes n ++ rest).
Proof.
  intros Hs Ho. unfold RawNode.decode, read_u8, read_u16, read_u32, read_u64.
  unread Hs v1 H1 R1. unread Hs v2 H2 R2. unread Hs v3 H3 R3. unread Hs v4 H4 R4.
  unread Hs v5 H5 R5. unread Hs v6 H6 R6. unread Hs v7 H7 R7. intros [= <-]. split; [done|].
  unfold node_bytes. simpl. exists rest5. rewrite <- !app_assoc.
  join R6 R7. join R5 R7. join R4 R7. join R3 R7. join R2 R7. join R1 R7. exact R7.
Qed.

Lemma node_decode_total bytes off : total (RawNode.decode bytes off).
Proof. unfold RawNode.decode, read_u8, read_u16, read_u32, read_u64. totals. Qed.

(** Nodes in a row. *)
#[export] Instance node_codec : Codec RawNode node_valid node_bytes
  (fun bytes off => n ← RawNode.decode bytes off; Ok (n, off + 24)).
Proof.
  split.
  - intros n _. unfold node_bytes. rewrite !Forall_app. split_and!; apply to_le_bytes_shape.
  - intros bytes off n rest Hs Hn Hr. by rewrite (node_at _ _ _ _ Hs Hn Hr).
  - intros bytes off n off' Hs Ho H. destruct (RawNode.decode bytes off) as [m|e|] eqn:E; [|done..].
    cbn [mbind res_bind] in H. injection H as <- <-. destruct (node_inv _ _ _ Hs Ho E) as [Hm Hr].
    by rewrite zlen_node_bytes.
  - intros bytes off _ Ho. pose proof (node_decode_total bytes off) as H. unfold total in H. by destruct (RawNode.decode bytes off).
Qed.

Lemma read_ok n bytes off c : slice_ok bytes -> 0 <= off -> off + Z.of_nat n <= zlen bytes ->
  exists v, read_uint n bytes off c = Ok v.
Proof.
  intros [_ Hs] Ho Hl. unfold read_uint, ensure, checked_add.
  rewrite (proj2 (Z.leb_le _ _)) by (unfold usize_max; lia). cbn [mbind res_bind].
  rewrite (proj2 (Z.ltb_ge _ _)) by lia. by eexists.
Qed.

Lemma node_decode_ok bytes off : slice_ok bytes -> 0 <= off -> off + 24 <= zlen bytes ->
  exists n, RawNode.decode bytes off = Ok n.
Proof.
  intros Hs Ho Hl. unfold RawNode.decode, read_u8, read_u16, read_u32, read_u64.
  repeat match goal with
  | |- exists _, read_uint ?n ?b ?o ?c ≫= _ = _ =>
      let v := fresh "v" in let E := fresh "E" in
      destruct (read_ok n b o c Hs) as [v E]; [lia|lia|]; rewrite E; cbn [mbind res_bind]; clear E
  end.
  by eexists.
Qed.

(** Bytes that have the length of [n] nodes are [n] nodes; the same for [u32]s. *)
Lemma nodes_of_bytes n l : slice_ok l -> zlen l = 24 * Z.of_nat n ->
  exists nodes, length nodes = n /\ Forall node_valid nodes /\ l = flat_map node_bytes nodes.
Proof.
  revert l. induction n as [|n IH]; intros l Hs Hl.
  - exists []. destruct l; [|rewrite zlen_cons in Hl; pose proof (zlen_nonneg l); lia].
    split_and!; [done|constructor|done].
  - destruct (node_decode_ok l 0 Hs) as [x Ex]; [lia|lia|].
    destruct (node_inv _ _ _ Hs (Z.le_refl 0) Ex) as (Hx & rest & ->%rest_whole).
    rewrite zlen_app, zlen_node_bytes in Hl.
    destruct (IH rest) as (nodes & Hn & Hv & ->); [by eapply slice_ok_app|lia|].
    exists (x :: nodes). split_and!; [simpl; by rewrite Hn|by constructor|done].
Qed.

Lemma u32s_of_bytes n l : slice_ok l -> zlen l = 4 * Z.of_nat n ->
  exists vs, length vs = n /\ Forall is_u32 vs /\ l = flat_map (to_le_bytes 4) vs.
Proof.
  revert l. induction n as [|n IH]; intros l Hs Hl.
  - exists []. destruct l; [|rewrite zlen_cons in Hl; pose proof (zlen_nonneg l); lia].
    split_and!; [done|constructor|done].
  - destruct (read_ok 4 l 0 "" Hs) as [x Ex]; [lia|lia|].
    destruct (read_inv _ _ _ _ _ Hs (Z.le_refl 0) Ex) as (Hx & rest & ->%rest_whole).
    rewrite zlen_app, zlen_le_bytes in Hl.
    destruct (IH rest) as (vs & Hn & Hv & ->); [by eapply slice_ok_app|lia|].
    exists (x :: vs). split_and!; [simpl; by rewrite Hn|by constructor|done].
Qed.

Lemma zlen_nodes nodes : zlen (flat_map node_bytes nodes) = 24 * zlen nodes.
Proof.
  induction nodes as [|n nodes IH]; [done|]. simpl. rewrite zlen_app, zlen_node_bytes, IH, zlen_cons. lia.
Qed.

(** ** The layout *)

Definition head_bytes (pad : list Z) (n c b : Z) (pad' : list Z) : list Z :=
  EXPR_MAGIC ++ to_le_bytes 1 VERSION ++ pad ++ to_le_bytes 4 n ++ to_le_bytes 4 c ++ to_le_bytes 4 b ++ pad'.

Definition layout (pad pad' : list Z) (nodes : list RawNode) (kids : list NodeRef) (blob : list Z) : list Z :=
  head_bytes pad (zlen nodes) (zlen kids) (zlen blob) pad' ++
  flat_map node_bytes nodes ++ flat_map (to_le_bytes 4) kids ++ blob.

(** What a buffer is made of. *)
Record parts_ok (nodes : list RawNode) (kids : list NodeRef) (blob : list Z) : Prop := {
  parts_nodes : Forall node_valid nodes;
  parts_kids : Forall is_u32 kids;
  parts_node_count : zlen nodes <= MAX_NODE_COUNT;
  parts_child_count : zlen kids <= u32_max;
  parts_blob_len : zlen blob <= u32_max;
}.

(** A view reads these parts. *)
Record view_of (v : ExprView) (nodes : list RawNode) (kids : list NodeRef) (blob : list Z) : Prop := {
  view_parts : parts_ok nodes kids blob;
  view_node_count : node_count (header v) = zlen nodes;
  view_child_count : child_count (header v) = zlen kids;
  view_blob_len : expr_blob_len (header v) = zlen blob;
  view_blob : ExprView.blob v = blob;
  view_blob_bytes : Forall is_byte blob;
  view_node i n : nodes !! i = Some n -> ExprView.node v (Z.of_nat i) = Ok n;
  view_child i r : kids !! i = Some r -> ExprView.child_ref v (Z.of_nat i) = Ok r;
}.

Lemma zlen_head pad n c b pad' : zlen pad = 3 -> zlen pad' = 12 -> zlen (head_bytes pad n c b pad') = 32.
Proof. intros H H'. unfold head_bytes. rewrite !zlen_app, !zlen_le_bytes, H, H'. done. Qed.

Lemma expression_len_ok n c b : 0 <= n <= MAX_NODE_COUNT -> 0 <= c <= u32_max -> 0 <= b <= u32_max ->
  expression_len n c b = Ok (32 + n * 24 + c * 4 + b).
Proof.
  unfold MAX_NODE_COUNT, u32_max. intros Hn Hc Hb.
  unfold expression_len, checked_mul, checked_add, EXPR_HEADER_LEN, NODE_RECORD_LEN, usize_max.
  repeat (rewrite (proj2 (Z.leb_le _ _)) by lia; cbn [mbind res_bind]). done.
Qed.

(** The [i]-th of a row of records of one size. *)
Lemma rest_nth {A} (enc : A -> list Z) (k : Z) bytes off l rest i x : (forall x, zlen (enc x) = k) ->
  rest_at bytes off (flat_map enc l ++ rest) -> l !! i = Some x ->
  exists rest', rest_at bytes (off + Z.of_nat i * k) (enc x ++ rest').
Proof.
  intros Hk. revert off i. induction l as [|y l IH]; intros off i Hr Hi; [done|].
  simpl in Hr. rewrite <- app_assoc in Hr. destruct i as [|i]; simpl in Hi.
  - injection Hi as ->. exists (flat_map enc l ++ rest). by rewrite Z.add_0_r.
  - apply rest_next in Hr. rewrite Hk in Hr. destruct (IH _ _ Hr Hi) as [rest' Hr'].
    exists rest'. by replace (off + Z.of_nat (S i) * k) with (off + k + Z.of_nat i * k) by lia.
Qed.

Lemma checked_mul_ok a b c : a * b <= usize_max -> checked_mul a b c = Ok (a * b).
Proof. intros H. unfold checked_mul. by rewrite (proj2 (Z.leb_le _ _)). Qed.
Lemma checked_add_ok a b c : a + b <= usize_max -> checked_add a b c = Ok (a + b).
Proof. intros H. unfold checked_add. by rewrite (proj2 (Z.leb_le _ _)). Qed.
Lemma refuse_no b e : b = false -> refuse_if b e = Ok tt.
Proof. by intros ->. Qed.

Section layout.
Context (pad pad' : list Z) (nodes : list RawNode) (kids : list NodeRef) (blob : list Z).
Context (Hpad : zlen pad = 3) (Hpad' : zlen pad' = 12) (Hp : parts_ok nodes kids blob).
Let bytes := layout pad pad' nodes kids blob.
Context (Hs : slice_ok bytes).

Let v : ExprView := mkExprView bytes (mkExprHeader (zlen nodes) (zlen kids) (zlen blob))
  32 (32 + zlen nodes * 24) (32 + zlen nodes * 24 + zlen kids * 4).

Lemma counts : 0 <= zlen nodes <= 2 ^ 31 /\ 0 <= zlen kids < 2 ^ 32 /\ 0 <= zlen blob < 2 ^ 32.
Proof.
  destruct Hp as [_ _ H1 H2 H3]. unfold MAX_NODE_COUNT, u32_max in *.
  pose proof (zlen_nonneg nodes). pose proof (zlen_nonneg kids). pose proof (zlen_nonneg blob). lia.
Qed.

Lemma zlen_layout : zlen bytes = 32 + zlen nodes * 24 + zlen kids * 4 + zlen blob.
Proof.
  unfold bytes, layout. rewrite !zlen_app, zlen_head, zlen_nodes by done. rewrite zlen_many_u32. lia.
Qed.

Lemma body_at : rest_at bytes 32 (flat_map node_bytes nodes ++ flat_map (to_le_bytes 4) kids ++ blob).
Proof.
  apply (rest_next_at _ 0 (head_bytes pad (zlen nodes) (zlen kids) (zlen blob) pad'));
    [apply rest_start|by rewrite zlen_head].
Qed.

Lemma layout_parse : ExprView.parse bytes = Ok v.
Proof.
  pose proof counts as (Hn & Hc & Hb). pose proof zlen_layout as Hl.
  assert (is_u32 (zlen nodes) /\ is_u32 (zlen kids) /\ is_u32 (zlen blob)) as (? & ? & ?)
    by (unfold is_u32; lia).
  pose proof (rest_start bytes) as Hr. unfold bytes at 2, layout, head_bytes in Hr. rewrite <- !app_assoc in Hr.
  unfold v. clear v. clearbody bytes. unfold ExprView.parse. rewrite refuse_no by (apply Z.ltb_ge; unfold EXPR_HEADER_LEN; lia).
  cbn [mbind res_bind]. unfold exact_slice. rewrite (ensure_at _ _ _ _ _ _ Hs Hr) by done. cbn [mbind res_bind].
  rewrite refuse_no by (by rewrite bool_decide_true). cbn [mbind res_bind].
  apply rest_next in Hr. change (0 + zlen EXPR_MAGIC) with 4 in Hr.
  assert (is_u8 VERSION) by (unfold is_u8, VERSION; lia).
  unfold read_u8, read_u32. read_field Hs Hr. rewrite Z.eqb_refl. simpl negb. cbn [refuse_if mbind res_bind].
  apply (rest_next_at _ _ _ _ 8) in Hr; [|lia].
  read_field Hs Hr. read_field Hs Hr. read_field Hs Hr.
  rewrite refuse_no by (apply Z.ltb_ge; unfold MAX_NODE_COUNT; lia). cbn [mbind res_bind].
  rewrite expression_len_ok by (unfold MAX_NODE_COUNT, u32_max; lia). cbn [mbind res_bind].
  rewrite refuse_no by (by rewrite Hl, Z.eqb_refl). cbn [mbind res_bind].
  unfold NODE_RECORD_LEN, EXPR_HEADER_LEN.
  rewrite !checked_mul_ok by (unfold usize_max; lia). cbn [mbind res_bind].
  rewrite checked_add_ok by (unfold usize_max; lia). cbn [mbind res_bind].
  rewrite checked_add_ok by (unfold usize_max; lia). done.
Qed.

Lemma layout_view : view_of v nodes kids blob.
Proof.
  pose proof counts as (Hn & Hc & Hb). pose proof body_at as Hr.
  assert (rest_at bytes (32 + zlen nodes * 24) (flat_map (to_le_bytes 4) kids ++ blob)) as Hr2
    by (apply (rest_next_at _ _ _ _ _ Hr); rewrite zlen_nodes; lia).
  assert (rest_at bytes (32 + zlen nodes * 24 + zlen kids * 4) blob) as Hr3
    by (apply (rest_next_at _ _ _ _ _ Hr2); rewrite zlen_many_u32; lia).
  unfold v. clear v. clearbody bytes. split; try done.
  - by destruct Hr3 as (_ & _ & <-).
  - by apply (rest_bytes _ _ _ Hs Hr3).
  - intros i n Hi. pose proof (lookup_lt_Some _ _ _ Hi) as Hlt.
    unfold ExprView.node. simpl. rewrite refuse_no by (apply Z.leb_gt; unfold zlen; lia). cbn [mbind res_bind].
    unfold NODE_RECORD_LEN. rewrite checked_mul_ok by (unfold usize_max, zlen in *; lia). cbn [mbind res_bind].
    rewrite checked_add_ok by (unfold usize_max, zlen in *; lia). cbn [mbind res_bind].
    destruct (rest_nth node_bytes 24 _ _ _ _ _ _ zlen_node_bytes Hr Hi) as [rest' Hr'].
    apply (node_at _ _ _ rest' Hs); [|exact Hr']. by apply (Forall_lookup_1 _ _ _ _ (parts_nodes _ _ _ Hp) Hi).
  - intros i r Hi. pose proof (lookup_lt_Some _ _ _ Hi) as Hlt.
    unfold ExprView.child_ref. simpl. rewrite refuse_no by (apply Z.leb_gt; unfold zlen; lia). cbn [mbind res_bind].
    rewrite checked_mul_ok by (unfold usize_max, zlen in *; lia). cbn [mbind res_bind].
    rewrite checked_add_ok by (unfold usize_max, zlen in *; lia). cbn [mbind res_bind].
    destruct (rest_nth (to_le_bytes 4) 4 _ _ _ _ _ _ (zlen_le_bytes 4) Hr2 Hi) as [rest' Hr'].
    apply (read_at 4 _ _ r rest' _ Hs); [|exact Hr']. by apply (Forall_lookup_1 _ _ _ _ (parts_kids _ _ _ Hp) Hi).
Qed.
End layout.

(** ** Parsing accepts layouts only *)

Ltac unrefuse :=
  match goal with
  | |- refuse_if ?b ?e ≫= _ = Ok _ -> _ =>
      let E := fresh "Eb" in destruct b eqn:E; [done|]; cbn [refuse_if mbind res_bind]
  end.

(** The bytes from [off] to [off'], and what follows. *)
Lemma rest_split bytes off rest k : rest_at bytes off rest -> 0 <= k <= zlen rest ->
  exists mid rest', rest = mid ++ rest' /\ zlen mid = k /\ rest_at bytes (off + k) rest'.
Proof.
  intros Hr Hk. exists (take (Z.to_nat k) rest), (drop (Z.to_nat k) rest).
  assert (zlen (take (Z.to_nat k) rest) = k) as Hl by (unfold zlen in *; rewrite length_take; lia).
  split; [by rewrite take_drop|]. split; [done|].
  rewrite <- Hl at 1. apply rest_next. by rewrite take_drop.
Qed.

Lemma parse_inv bytes v : slice_ok bytes -> ExprView.parse bytes = Ok v ->
  exists pad pad' nodes kids blob, zlen pad = 3 /\ zlen pad' = 12 /\ parts_ok nodes kids blob /\
    bytes = layout pad pad' nodes kids blob.
Proof.
  intros Hs. unfold ExprView.parse, exact_slice, read_u8, read_u32. unrefuse.
  destruct (ensure bytes 0 4 _) as [magic|e|] eqn:Em; [|done..]. cbn [mbind res_bind].
  destruct (ensure_inv bytes 0 4 _ _ (Z.le_refl 0) ltac:(lia) Em) as (Hm & r0 & R0). clear Em.
  unrefuse. apply negb_false_iff, bool_decide_eq_true in Eb0 as ->.
  unread Hs ver H1 R1. unrefuse. apply negb_false_iff, Z.eqb_eq in Eb0 as ->.
  unread Hs n H2 R2. unread Hs c H3 R3. unread Hs b H4 R4. unrefuse. apply Z.ltb_ge in Eb0.
  unfold is_u32 in *. rewrite expression_len_ok by (unfold MAX_NODE_COUNT, u32_max in *; lia).
  cbn [mbind res_bind]. unrefuse. apply negb_false_iff, Z.eqb_eq in Eb1. intros _.
  apply rest_next in R1 as R6; rewrite zlen_le_bytes in R6. apply rest_next in R4 as R5; rewrite zlen_le_bytes in R5.
  assert (zlen rest = 3 + (zlen bytes - 8)) as Hrest by (destruct R6 as (_ & H & _); lia).
  destruct (rest_split _ _ _ 3 R6) as (pad & rest' & -> & Hpad & R7); [lia|].
  assert (zlen rest2 = 12 + (n * 24 + c * 4 + b)) as Hrest2 by (destruct R5 as (_ & H & _); lia).
  destruct (rest_split _ _ _ 12 R5) as (pad' & body & -> & Hpad' & Rb); [lia|].
  rewrite zlen_app in Hrest2.
  destruct (rest_split _ _ _ (n * 24) Rb) as (ns & body2 & -> & Hns & Rb2); [lia|].
  rewrite zlen_app in Hrest2.
  destruct (rest_split _ _ _ (c * 4) Rb2) as (ks & blob & -> & Hks & Rb3); [lia|].
  rewrite zlen_app in Hrest2.
  destruct (slice_ok_app _ _ (rest_bytes _ _ _ Hs Rb)) as [Sns Sks%slice_ok_app].
  destruct (nodes_of_bytes (Z.to_nat n) ns Sns) as (nodes & Hnl & Hnv & ->); [lia|].
  destruct (u32s_of_bytes (Z.to_nat c) ks (proj1 Sks)) as (kids & Hkl & Hkv & ->); [lia|].
  assert (zlen nodes = n /\ zlen kids = c /\ zlen blob = b) as (Hzn & Hzk & Hzb) by (unfold zlen in *; lia).
  exists pad, pad', nodes, kids, blob. split_and!; [done..| |].
  { split; [done|done|unfold u32_max in *; lia..]. }
  assert (rest_at bytes 5 (pad ++ rest')) as R6' by (by replace 5 with (4 + Z.of_nat 1) by lia).
  unfold layout, head_bytes. rewrite Hzn, Hzk, Hzb, <- !app_assoc. apply rest_whole.
  join R3 R4. join R2 R4.
  apply (rest_join _ _ _ _ _ _ R6') in R4; [|lia]. join R1 R4.
  apply (rest_join _ _ _ _ _ _ R0) in R4; [exact R4|lia].
Qed.

Lemma parse_view bytes v : slice_ok bytes -> ExprView.parse bytes = Ok v ->
  exists nodes kids blob, view_of v nodes kids blob.
Proof.
  intros Hs E. destruct (parse_inv _ _ Hs E) as (pad & pad' & nodes & kids & blob & Hp & Hp' & Hok & ->).
  exists nodes, kids, blob. rewrite layout_parse in E by done. injection E as <-. by apply layout_view.
Qed.

Lemma parse_total bytes : total (ExprView.parse bytes).
Proof. unfold ExprView.parse, exact_slice, read_u8, read_u32, expression_len. totals. Qed.

(** ** Writing *)

Definition zero_pad : list Z := [0; 0; 0].

Lemma from_parts_ok nodes kids blob : parts_ok nodes kids blob ->
  from_parts nodes kids blob = Ok (layout zero_pad (replicate 12 0) nodes kids blob).
Proof.
  intros [_ _ Hn Hc Hb]. pose proof (zlen_nonneg nodes). pose proof (zlen_nonneg kids). pose proof (zlen_nonneg blob).
  unfold from_parts, try_u32.
  rewrite (proj2 (Z.leb_le (zlen nodes) u32_max)) by (unfold MAX_NODE_COUNT, u32_max in *; lia).
  cbn [mbind res_bind]. rewrite refuse_no by (by apply Z.ltb_ge). cbn [mbind res_bind].
  rewrite !(proj2 (Z.leb_le _ _)) by done. cbn [mbind res_bind].
  rewrite expression_len_ok by lia. cbn [mbind res_bind]. f_equal.
  rewrite (foldl_appends (fun out node => RawNode.encode node out) node_bytes) by (intros; apply encode_node).
  rewrite (foldl_appends write_u32 (to_le_bytes 4)) by done.
  unfold layout, head_bytes, zero_pad, write_u8, write_u32. by rewrite <- !app_assoc.
Qed.

(** It fails on nothing else. *)
Lemma from_parts_parts nodes kids blob bytes : Forall node_valid nodes -> Forall is_u32 kids ->
  from_parts nodes kids blob = Ok bytes -> parts_ok nodes kids blob.
Proof.
  intros Hn Hk. unfold from_parts, try_u32. destruct (Z.leb_spec (zlen nodes) u32_max); [|done].
  cbn [mbind res_bind]. destruct (Z.ltb_spec MAX_NODE_COUNT (zlen nodes)); [done|]. cbn [refuse_if mbind res_bind].
  destruct (Z.leb_spec (zlen kids) u32_max); [|done]. cbn [mbind res_bind].
  destruct (Z.leb_spec (zlen blob) u32_max); [|done]. intros _. by split.
Qed.

Lemma layout_slice pad pad' nodes kids blob : zlen pad = 3 -> zlen pad' = 12 ->
  Forall is_byte pad -> Forall is_byte pad' -> parts_ok nodes kids blob -> Forall is_byte blob ->
  slice_ok (layout pad pad' nodes kids blob).
Proof.
  intros Hp Hp' Hb Hb' Hok Hbl. split.
  - unfold layout, head_bytes. rewrite !Forall_app. split_and!; try done; try apply to_le_bytes_shape.
    + by repeat constructor.
    + apply (many_bytes node_valid node_bytes (fun bytes off => n ← RawNode.decode bytes off; Ok (n, off + 24))), Hok.
    + apply (many_bytes is_u32 (to_le_bytes 4) (next_u32 "")), Hok.
  - unfold layout. rewrite !zlen_app, zlen_head, zlen_nodes, zlen_many_u32 by done.
    destruct Hok as [_ _ H1 H2 H3]. unfold MAX_NODE_COUNT, u32_max in *. lia.
Qed.

(** C29: expression buffers round-trip.  What [from_parts] writes, [parse] reads
    back: the same counts, the same node at every index, the same child reference
    at every position and the same blob, with no assumption but that the fields
    have the ranges of their types.  Conversely every slice that [parse] accepts is
    the encoding of some nodes, references and blob, up to the padding bytes, which
    it ignores; and [parse] never panics. *)
Theorem expression_round_trip nodes kids blob bytes : Forall node_valid nodes -> Forall is_u32 kids ->
  Forall is_byte blob ->
  (from_parts nodes kids blob = Ok bytes ->
   exists v, ExprView.parse bytes = Ok v /\ view_bytes v = bytes /\ view_of v nodes kids blob) /\
  (slice_ok bytes -> total (ExprView.parse bytes) /\
   forall v, ExprView.parse bytes = Ok v ->
   exists pad pad' nodes kids blob, bytes = layout pad pad' nodes kids blob /\ view_of v nodes kids blob /\
     from_parts nodes kids blob = Ok (layout zero_pad (replicate 12 0) nodes kids blob)).
Proof.
  intros Hn Hk Hb. split.
  - intros E. pose proof (from_parts_parts _ _ _ _ Hn Hk E) as Hp. rewrite from_parts_ok in E by done.
    injection E as <-. assert (slice_ok (layout zero_pad (replicate 12 0) nodes kids blob)) as Hs.
    { apply layout_slice; [done|done| |apply Forall_replicate; done|done|done]. by repeat constructor. }
    eexists. split; [by apply layout_parse|]. split; [done|]. by apply layout_view.
  - intros Hs. split; [apply parse_total|]. intros v E.
    destruct (parse_inv _ _ Hs E) as (pad & pad' & ns & ks & bl & Hp & Hp' & Hok & ->).
    exists pad, pad', ns, ks, bl. split; [done|]. rewrite layout_parse in E by done. injection E as <-.
    split; [by apply layout_view|by apply from_parts_ok].
Qed.

(** ** Witness: [x = 5] *)

Definition sample_nodes : list RawNode :=
  [mkRawNode 0 0 0 8 0 0 1; mkRawNode 1 0 0 8 0 0 5; mkRawNode 31 2 0 0 0 0 0].
Definition sample_kids : list Z := [0; 1].
Definition sample_blob : list Z := [120].
Definition sample_expression : list Z := layout zero_pad (replicate 12 0) sample_nodes sample_kids sample_blob.

Lemma sample_nodes_valid : Forall node_valid sample_nodes.
Proof. by repeat constructor. Qed.
Lemma sample_kids_valid : Forall is_u32 sample_kids.
Proof. by repeat constructor. Qed.
Lemma sample_blob_bytes : Forall is_byte sample_blob.
Proof. by repeat constructor. Qed.

Lemma expression_round_trip_witness : exists v, ExprView.parse sample_expression = Ok v /\
  view_bytes v = sample_expression /\ view_of v sample_nodes sample_kids sample_blob.
Proof.
  apply (expression_round_trip sample_nodes sample_kids sample_blob sample_expression
    sample_nodes_valid sample_kids_valid sample_blob_bytes). vm_compute. reflexivity.
Defined.
