(* ===== verification/WireDag.v ===== *)
(** * What validation promises

    [dag_ok]: the nodes of a buffer form a well-sorted DAG.  The relation says what
    the protocol says of a node (its arity, its width, its children's sorts and
    widths, children before parents, one signature per symbol) without the order of
    the checks; [validate_ok] shows that [ExprView::validate] accepts exactly these
    buffers. *)
From S2P Require Import Prelude Bits Bytes BytesFacts Evaluator EvaluatorFacts.
From S2P Require Import WireBase WireBaseFacts WireExpr WireExprFacts.

#[local] Open Scope Z_scope.

(** ** Blob references *)

Definition blob_at (blob : list Z) (r : BlobRef) : option (list Z) :=
  if blob_offset r + blob_len r <=? zlen blob
  then Some (subslice blob (blob_offset r) (blob_len r)) else None.

Definition blob_name (blob : list Z) (r : BlobRef) : option string := l ← blob_at blob r; from_utf8 l.

Definition ref_valid (r : BlobRef) : Prop := is_u32 (blob_offset r) /\ is_u32 (blob_len r).

Lemma payload_ref_valid p : is_u64 p -> ref_valid (BlobRef.from_payload p).
Proof.
  unfold is_u64. intros H. split; unfold is_u32; simpl; [|apply Z.mod_pos_bound; lia].
  rewrite Z.shiftr_div_pow2 by lia. split; [apply Z.div_pos; lia|]. apply Z.div_lt_upper_bound; lia.
Qed.

(** ** The sorts and widths of a DAG *)

Definition info_of (n : RawNode) : option NodeInfo :=
  t ← Tag.try_from (tag n); Some (mkNodeInfo t (Tag.result_sort t) (node_width n)).

Definition arity_ok (t : Tag) (a : Z) : Prop :=
  match Tag.fixed_arity t with Some k => a = k | None => a <> 0 /\ Z.even a = false end.

Definition width_ok (s : Sort) (w : Z) : Prop :=
  match s with Bv => 1 <= w <= MAX_BV_WIDTH | Bool => w = 0 end.

(** What a node must satisfy by itself. *)
Definition shape_ok (blob : list Z) (n : RawNode) (info : NodeInfo) : Prop :=
  arity_ok (info_tag info) (arity n) /\
  width_ok (info_sort info) (node_width n) /\
  (is_var (info_tag info) = true -> is_Some (blob_name blob (RawNode.blob_ref n))) /\
  (info_tag info = TBvConst -> 64 < node_width n ->
   blob_len (RawNode.blob_ref n) = (node_width n + 7) / 8 /\ is_Some (blob_at blob (RawNode.blob_ref n))).

Section dag.
Context (nodes : list RawNode) (kids : list Z) (blob : list Z) (meta : list NodeInfo).

(** The [k]-th child of the node [n] at index [i]: an earlier node of this sort. *)
Definition child_info (i : nat) (n : RawNode) (k : Z) (s : Sort) (info : NodeInfo) : Prop :=
  exists r, kids !! Z.to_nat (children n + k) = Some r /\ NodeRef.sort r = s /\
    NodeRef.index r < Z.of_nat i /\ meta !! Z.to_nat (NodeRef.index r) = Some info /\ info_sort info = s.

Definition child_bv (i : nat) (n : RawNode) (k w : Z) : Prop :=
  exists info, child_info i n k Bv info /\ info_width info = w.
Definition child_bool (i : nat) (n : RawNode) (k : Z) : Prop := exists info, child_info i n k Bool info.

Definition children_ok (i : nat) (n : RawNode) (t : Tag) : Prop :=
  match t with
  | TBvVar | TBvConst | TBoolTrue | TBoolFalse | TBoolVar => True
  | TBvNot | TBvNeg => child_bv i n 0 (node_width n)
  | TBvAnd | TBvOr | TBvXor | TBvAdd | TBvSub | TBvMul | TBvUdiv | TBvUrem | TBvSdiv | TBvSrem
  | TBvSmod | TBvShl | TBvLshr | TBvAshr =>
      child_bv i n 0 (node_width n) /\ child_bv i n 1 (node_width n)
  | TBvExtract => exists w, child_bv i n 0 w /\ aux_lo n <= aux_hi n < w /\
      node_width n = aux_hi n - aux_lo n + 1
  | TBvConcat => exists wh wl, child_bv i n 0 wh /\ child_bv i n 1 wl /\ node_width n = wh + wl
  | TBvZext | TBvSext => exists w, child_bv i n 0 w /\ node_width n = w + aux_hi n
  | TBvIte => child_bool i n 0 /\ child_bv i n 1 (node_width n) /\ child_bv i n 2 (node_width n)
  | TBvSelect => aux_hi n = (arity n - 1) / 2 /\ child_bv i n (aux_hi n * 2) (node_width n) /\
      forall p, 0 <= p < aux_hi n ->
        child_bool i n (p * 2) /\ child_bv i n (p * 2 + 1) (node_width n)
  | TBoolNot => child_bool i n 0
  | TBoolAnd | TBoolOr | TBoolImplies => child_bool i n 0 /\ child_bool i n 1
  | TBvEq | TBvUlt | TBvUle | TBvSlt | TBvSle
  | TUaddOvf | TSaddOvf | TUsubOvf | TSsubOvf | TUmulOvf | TSmulOvf | TSdivOvf =>
      exists w, child_bv i n 0 w /\ child_bv i n 1 w
  | TNegOvf => exists w, child_bv i n 0 w
  end.

(** The two nodes declare the same symbol. *)
Definition same_symbol (n m : RawNode) (ni mi : NodeInfo) : Prop :=
  is_var (info_tag ni) = true /\ is_var (info_tag mi) = true /\
  blob_name blob (RawNode.blob_ref n) = blob_name blob (RawNode.blob_ref m).

Record dag_ok : Prop := {
  dag_meta : mapM info_of nodes = Some meta;
  dag_shape i n info : nodes !! i = Some n -> meta !! i = Some info -> shape_ok blob n info;
  dag_symbols i j n m ni mi : nodes !! i = Some n -> nodes !! j = Some m ->
    meta !! i = Some ni -> meta !! j = Some mi -> same_symbol n m ni mi ->
    info_sort ni = info_sort mi /\ info_width ni = info_width mi;
  dag_range i n : nodes !! i = Some n -> arity n <> 0 -> children n + arity n <= zlen kids;
  dag_children i n info : nodes !! i = Some n -> meta !! i = Some info -> children_ok i n (info_tag info);
}.
End dag.

(** ** The checks, one by one *)

Lemma refuse_ok b e u : refuse_if b e = Ok u <-> b = false.
Proof. destruct b, u; naive_solver. Qed.

Lemma NodeRef_index_nonneg r : 0 <= NodeRef.index r.
Proof. unfold NodeRef.index. apply Z.land_nonneg. right. done. Qed.

Lemma parse_tag_ok raw t : parse_tag raw = Ok t <-> Tag.try_from raw = Some t.
Proof. unfold parse_tag. destruct (Tag.try_from raw); naive_solver. Qed.

Lemma validate_arity_ok t a u : validate_arity t a = Ok u <-> arity_ok t a.
Proof.
  unfold validate_arity, arity_ok, validate_select_arity. destruct (Tag.fixed_arity t) as [k|]; rewrite refuse_ok.
  - by rewrite negb_false_iff, Z.eqb_eq.
  - by rewrite orb_false_iff, Z.eqb_neq.
Qed.

Lemma validate_width_value_ok w c u : validate_bv_width_value w c = Ok u <-> 1 <= w <= MAX_BV_WIDTH.
Proof. unfold validate_bv_width_value. rewrite refuse_ok, negb_false_iff, andb_true_iff, !Z.leb_le. done. Qed.

Lemma validate_node_width_ok t w u : validate_node_width t w = Ok u <-> width_ok (Tag.result_sort t) w.
Proof.
  unfold validate_node_width, width_ok. destruct (Tag.result_sort t).
  - rewrite <- (validate_width_value_ok w "BV node width" u).
    by destruct (validate_bv_width_value w "BV node width") as [[]|e|].
  - by rewrite refuse_ok, negb_false_iff, Z.eqb_eq.
Qed.

Lemma wire_bytes_ok w n : wire_bytes_for_width w = Ok n <-> 1 <= w <= MAX_BV_WIDTH /\ n = (w + 7) / 8.
Proof.
  unfold wire_bytes_for_width. rewrite bind_ok. split.
  - intros (u & H%validate_width_value_ok & [= <-]). done.
  - intros [H ->]. exists tt. split; [by apply validate_width_value_ok|done].
Qed.

Lemma checked_u32_ok a b c x : checked_add_u32 a b c = Ok x <-> a + b <= u32_max /\ x = a + b.
Proof. unfold checked_add_u32. destruct (Z.leb_spec (a + b) u32_max); naive_solver lia. Qed.

Lemma expect_width_ok a b c u : expect_width a b c = Ok u <-> a = b.
Proof. unfold expect_width. by rewrite refuse_ok, negb_false_iff, Z.eqb_eq. Qed.

Lemma expect_same_ok a b u : expect_same_child_width a b = Ok u <-> a = b.
Proof. unfold expect_same_child_width. by rewrite refuse_ok, negb_false_iff, Z.eqb_eq. Qed.

Lemma map_err_ok {E F A} (f : E -> F) (m : outcome E A) a : map_err f m = Ok a <-> m = Ok a.
Proof. destruct m; naive_solver. Qed.

Lemma total_checked_u32 a b c : total (checked_add_u32 a b c).
Proof. unfold checked_add_u32. by destruct (_ <=? _). Qed.
Lemma total_expect_width a b c : total (expect_width a b c).
Proof. unfold expect_width. totals. Qed.
Lemma total_expect_same a b : total (expect_same_child_width a b).
Proof. unfold expect_same_child_width. totals. Qed.
Lemma total_width_value w c : total (validate_bv_width_value w c).
Proof. unfold validate_bv_width_value. totals. Qed.
Lemma total_select_shape n : total (validate_select_shape n).
Proof. unfold validate_select_shape, validate_select_arity. totals. Qed.
Lemma total_parse_tag raw : total (parse_tag raw).
Proof. unfold parse_tag. totals. Qed.
Lemma total_arity t a : total (validate_arity t a).
Proof. unfold validate_arity, validate_select_arity. totals. Qed.
Lemma total_node_width t w : total (validate_node_width t w).
Proof. unfold validate_node_width. destruct (Tag.result_sort t); auto using total_map_err, total_width_value with total. Qed.

#[export] Hint Resolve total_checked_u32 total_expect_width total_expect_same total_width_value total_select_shape
  total_parse_tag total_arity total_node_width : total.

(** ** Reads through a view *)

Section view.
Context (v : ExprView) (nodes : list RawNode) (kids : list Z) (blob : list Z).
Context (Hv : view_of v nodes kids blob).

Lemma blob_ref_ok r l : ref_valid r -> ExprView.blob_ref v r = Ok l <-> blob_at blob r = Some l.
Proof.
  intros [H1 H2]. unfold ExprView.blob_ref, blob_at. rewrite (view_blob _ _ _ _ Hv).
  unfold is_u32 in *. rewrite checked_add_ok by (unfold usize_max; lia). cbn [mbind res_bind].
  destruct (Z.leb_spec (blob_offset r + blob_len r) (zlen blob)) as [H|H].
  - rewrite refuse_no by (apply Z.ltb_ge; lia). cbn [mbind res_bind]. naive_solver.
  - rewrite (proj2 (Z.ltb_lt _ _)) by done. done.
Qed.

Lemma blob_str_ok r c s : ref_valid r -> ExprView.blob_str v r c = Ok s <-> blob_name blob r = Some s.
Proof.
  intros Hr. unfold ExprView.blob_str, blob_name. rewrite bind_ok. setoid_rewrite (blob_ref_ok r _ Hr).
  rewrite bind_Some. split; intros (l & Hl & H); exists l; split; try done.
  - by destruct (from_utf8 l); naive_solver.
  - by rewrite H.
Qed.

Lemma kids_bound : zlen kids <= u32_max.
Proof. apply (parts_child_count _ _ _ (view_parts _ _ _ _ Hv)). Qed.

Lemma node_is_valid i n : nodes !! i = Some n -> node_valid n.
Proof. intros H. by apply (Forall_lookup_1 _ _ _ _ (parts_nodes _ _ _ (view_parts _ _ _ _ Hv)) H). Qed.

Lemma child_ref_ok i r : 0 <= i -> ExprView.child_ref v i = Ok r <-> kids !! Z.to_nat i = Some r.
Proof.
  intros Hi. destruct (kids !! Z.to_nat i) as [x|] eqn:E.
  - pose proof (view_child _ _ _ _ Hv _ _ E) as H. rewrite Z2Nat.id in H by done. rewrite H. naive_solver.
  - split; [|done]. apply lookup_ge_None in E. unfold ExprView.child_ref.
    rewrite (view_child_count _ _ _ _ Hv). rewrite (proj2 (Z.leb_le _ _)); [done|]. unfold zlen. lia.
Qed.

Lemma expect_child_ok meta i n k s info : is_u32 (children n) -> 0 <= k ->
  expect_child v meta (Z.of_nat i) n k s = Ok info <-> child_info kids meta i n k s info.
Proof.
  unfold is_u32. intros Hn Hk. unfold expect_child, child_info. rewrite bind_ok.
  assert (forall r, validate_ref meta r s (Some (Z.of_nat i)) "child reference" = Ok info <->
    NodeRef.sort r = s /\ NodeRef.index r < Z.of_nat i /\
    meta !! Z.to_nat (NodeRef.index r) = Some info /\ info_sort info = s) as Href.
  { intros r. unfold validate_ref. destruct (meta !! _) as [x|] eqn:E; [|naive_solver].
    rewrite bind_ok. setoid_rewrite bind_ok. setoid_rewrite bind_ok. setoid_rewrite refuse_ok.
    setoid_rewrite negb_false_iff. setoid_rewrite bool_decide_eq_true. setoid_rewrite Z.leb_gt. split.
    - intros (_ & ? & _ & Hs & _ & ? & [= ->]). split_and!; [done..|congruence].
    - intros (? & ? & [= ->] & ?). exists tt. split; [done|]. exists tt. split; [congruence|]. by exists tt. }
  split.
  - intros (x & [Hx ->]%checked_u32_ok & H). apply bind_ok in H as (r & Hr & H).
    apply child_ref_ok in Hr; [|lia]. exists r. by rewrite Href in H.
  - intros (r & Hr & H). exists (children n + k). rewrite checked_u32_ok. split.
    + split; [|done]. apply lookup_lt_Some in Hr. pose proof kids_bound. unfold zlen, u32_max in *. lia.
    + apply bind_ok. exists r. split; [apply child_ref_ok; [lia|done]|by apply Href].
Qed.

(** ** The first pass *)

(** What the map [symbols] records: the signature of every symbol so far. *)
Definition signature_eq (a b : NodeInfo) : Prop := info_sort a = info_sort b /\ info_width a = info_width b.

Definition declares (p : RawNode * NodeInfo) (name : string) : Prop :=
  is_var (info_tag p.2) = true /\ blob_name blob (RawNode.blob_ref p.1) = Some name.

Record symbols_ok (done : list (RawNode * NodeInfo)) (symbols : gmap string NodeInfo) : Prop := {
  symbols_known p name : p ∈ done -> declares p name ->
    exists ex, symbols !! name = Some ex /\ signature_eq ex p.2;
  symbols_only name ex : symbols !! name = Some ex -> exists p, p ∈ done /\ declares p name /\ signature_eq ex p.2;
}.

Definition consistent (l : list (RawNode * NodeInfo)) : Prop :=
  forall p q name, p ∈ l -> q ∈ l -> declares p name -> declares q name -> signature_eq p.2 q.2.

Definition node_fits (n : RawNode) (info : NodeInfo) : Prop := info_of n = Some info /\ shape_ok blob n info.

(** The signature does not clash with the ones recorded. *)
Definition fresh_sig (symbols : gmap string NodeInfo) (n : RawNode) (info : NodeInfo) : Prop :=
  forall name ex, declares (n, info) name -> symbols !! name = Some ex -> signature_eq ex info.

Definition record_sig (symbols : gmap string NodeInfo) (n : RawNode) (info : NodeInfo) : gmap string NodeInfo :=
  if is_var (info_tag info) then
    match blob_name blob (RawNode.blob_ref n) with Some name => <[name := info]> symbols | None => symbols end
  else symbols.

#[local] Opaque ExprView.blob_ref ExprView.blob_str.

Lemma wide_const_ok n : node_valid n -> 1 <= node_width n <= MAX_BV_WIDTH ->
  (exists u, (let reference := RawNode.blob_ref n in
     expected_len ← wire_bytes_for_width (node_width n);
     refuse_if (negb (blob_len reference =? expected_len)) (InvalidValue "wide BV_CONST") ;;
     ExprView.blob_ref v reference ;; Ok tt) = Ok u) <->
  blob_len (RawNode.blob_ref n) = (node_width n + 7) / 8 /\ is_Some (blob_at blob (RawNode.blob_ref n)).
Proof.
  intros Hn Hw. assert (ref_valid (RawNode.blob_ref n)) as Hr by (apply payload_ref_valid, Hn).
  unfold is_Some. setoid_rewrite <- (blob_ref_ok (RawNode.blob_ref n) _ Hr). cbv zeta.
  setoid_rewrite bind_ok. setoid_rewrite wire_bytes_ok. setoid_rewrite bind_ok. setoid_rewrite bind_ok.
  setoid_rewrite refuse_ok. setoid_rewrite negb_false_iff. setoid_rewrite Z.eqb_eq. split.
  - intros (_ & ? & [_ ->] & _ & -> & l & H & _). split; [done|by exists l].
  - intros [H [l Hl]]. exists tt, ((node_width n + 7) / 8). split; [done|]. exists tt. split; [done|]. by exists l.
Qed.

Lemma validate_node_ok i n symbols symbols' info : nodes !! i = Some n ->
  validate_node v (Z.of_nat i) symbols = Ok (symbols', info) <->
  node_fits n info /\ fresh_sig symbols n info /\ symbols' = record_sig symbols n info.
Proof.
  intros Hi. pose proof (node_is_valid _ _ Hi) as Hn.
  assert (ref_valid (RawNode.blob_ref n)) as Hr by (apply payload_ref_valid, Hn).
  unfold validate_node. rewrite (view_node _ _ _ _ Hv _ _ Hi). cbn [mbind res_bind].
  unfold node_fits, info_of. destruct (Tag.try_from (tag n)) as [t|] eqn:Et; unfold parse_tag; rewrite Et; [|naive_solver].
  cbn [mbind res_bind option_bind]. set (sig := mkNodeInfo t (Tag.result_sort t) (node_width n)).
  set (sym := if is_var t then _ else _). set (wide := if bool_decide _ && _ then _ else _).
  assert (forall m, sym = Ok m <-> (is_var t = true -> is_Some (blob_name blob (RawNode.blob_ref n))) /\
    fresh_sig symbols n sig /\ m = record_sig symbols n sig) as Hsym.
  { intros m. unfold sym, fresh_sig, record_sig, declares, sig. cbn [info_tag info_sort info_width fst snd].
    destruct (is_var t) eqn:Ev;
      [|split; [intros [= <-]; split_and!; [done|by intros ?? [? _]|done]|by intros (_ & _ & ->)]].
    rewrite bind_ok. setoid_rewrite (blob_str_ok _ "symbol name" _ Hr). setoid_rewrite bind_ok. split.
    - intros (name & Hname & u & Hu & [= <-]). rewrite Hname. split_and!; [by intros _|  |done].
      intros name' ex [_ [= <-]] Hex. rewrite Hex, refuse_ok, negb_false_iff, andb_true_iff, bool_decide_eq_true, Z.eqb_eq in Hu.
      done.
    - intros (H & Hf & ->). destruct (H eq_refl) as [name Hname]. exists name. split; [done|]. exists tt.
      rewrite Hname. split; [|done]. destruct (symbols !! name) as [ex|] eqn:Hex; [|done].
      rewrite refuse_ok, negb_false_iff, andb_true_iff, bool_decide_eq_true, Z.eqb_eq. by apply (Hf name). }
  assert (1 <= node_width n <= MAX_BV_WIDTH \/ Tag.result_sort t = Bool \/ ~ width_ok (Tag.result_sort t) (node_width n)) as Hw.
  { unfold width_ok. destruct (Tag.result_sort t); [|by auto].
    destruct (decide (1 <= node_width n <= MAX_BV_WIDTH)); auto. }
  assert (width_ok (Tag.result_sort t) (node_width n) -> (exists u, wide = Ok u) <-> (t = TBvConst -> 64 < node_width n ->
    blob_len (RawNode.blob_ref n) = (node_width n + 7) / 8 /\ is_Some (blob_at blob (RawNode.blob_ref n)))) as Hwide.
  { intros Hwo. unfold wide. destruct (bool_decide_reflect (t = TBvConst)) as [->|Hne]; simpl; [|naive_solver].
    destruct (Z.ltb_spec 64 (node_width n)); [|split; [intros _ _; lia|by exists tt]].
    rewrite <- (wide_const_ok n Hn) by done. naive_solver. }
  clearbody sym wide. rewrite bind_ok. setoid_rewrite bind_ok. setoid_rewrite bind_ok. setoid_rewrite bind_ok.
  setoid_rewrite validate_arity_ok. setoid_rewrite validate_node_width_ok. setoid_rewrite Hsym.
  unfold shape_ok. split.
  - intros (_ & Ha & _ & Hwo & m & (Hname & Hf & ->) & u & Hu & [= <- <-]). simpl.
    split_and!; try done. apply Hwide; [done|by exists u].
  - intros ([[= <-] (Ha & Hwo & Hname & Hwd)] & Hf & ->). exists tt. split; [done|]. exists tt. split; [done|].
    exists (record_sig symbols n sig). split; [done|]. apply (Hwide Hwo) in Hwd as [u Hu]. by exists u.
Qed.

Lemma declares_inj p name name' : declares p name -> declares p name' -> name = name'.
Proof. unfold declares. naive_solver. Qed.

Lemma symbols_step past symbols n info : symbols_ok past symbols -> fresh_sig symbols n info ->
  symbols_ok (past ++ [(n, info)]) (record_sig symbols n info).
Proof.
  intros [H1 H2] Hf. unfold record_sig.
  destruct (is_var (info_tag info)) eqn:Ev; [destruct (blob_name blob (RawNode.blob_ref n)) as [nm|] eqn:En|].
  - assert (declares (n, info) nm) as Hd by done. split.
    + intros p name [Hp| ->%list_elem_of_singleton]%elem_of_app Hpn.
      * destruct (H1 _ _ Hp Hpn) as (ex & Hex & Hs). destruct (decide (name = nm)) as [->|Hne].
        -- exists info. split; [apply lookup_insert_eq|]. pose proof (Hf _ _ Hd Hex) as Hq.
           unfold signature_eq in *. simpl in *. by destruct Hs as [<- <-], Hq as [<- <-].
        -- exists ex. by rewrite lookup_insert_ne by done.
      * rewrite (declares_inj _ _ _ Hpn Hd). exists info. by rewrite lookup_insert_eq.
    + intros name ex. destruct (decide (name = nm)) as [->|Hne].
      * rewrite lookup_insert_eq. intros [= <-]. exists (n, info). split; [set_solver|done].
      * rewrite lookup_insert_ne by done. intros (p & Hp & H)%H2. exists p. split; [set_solver|done].
  - split; [|intros name ex (p & Hp & H)%H2; exists p; split; [set_solver|done]].
    intros p name [Hp| ->%list_elem_of_singleton]%elem_of_app [Hv' Hpn]; [by apply (H1 p)|simpl in *; congruence].
  - split; [|intros name ex (p & Hp & H)%H2; exists p; split; [set_solver|done]].
    intros p name [Hp| ->%list_elem_of_singleton]%elem_of_app [Hv' Hpn]; [by apply (H1 p)|simpl in *; congruence].
Qed.

Lemma fresh_iff past symbols n info : symbols_ok past symbols -> consistent past ->
  fresh_sig symbols n info <-> consistent (past ++ [(n, info)]).
Proof.
  intros [H1 H2] Hc. assert (forall a b, signature_eq a b -> signature_eq b a) as Hsym by (unfold signature_eq; naive_solver). split.
  - intros Hf. assert (forall p name, p ∈ past -> declares p name -> declares (n, info) name -> signature_eq p.2 info) as Hk.
    { intros p name Hp Hd Hd'. destruct (H1 _ _ Hp Hd) as (ex & Hex & Hs). pose proof (Hf _ _ Hd' Hex) as Hq.
      unfold signature_eq in *. by destruct Hs as [<- <-]. }
    intros p q name [Hp| ->%list_elem_of_singleton]%elem_of_app [Hq| ->%list_elem_of_singleton]%elem_of_app Hd Hd'.
    + by apply (Hc p q name).
    + by apply (Hk p name).
    + apply Hsym. by apply (Hk q name).
    + done.
  - intros Hc' name ex Hd (p & Hp & Hd' & Hs)%H2.
    assert (signature_eq p.2 (n, info).2) as Hq by (apply (Hc' _ _ name); [set_solver|set_solver|done..]).
    unfold signature_eq in *. simpl in *. by destruct Hs as [-> ->].
Qed.

(** The loop, from the [length past]-th node on. *)
Lemma validate_nodes_ok rest past symbols meta :
  nodes = past.*1 ++ rest -> symbols_ok past symbols -> consistent past ->
  validate_nodes v (length rest) (Z.of_nat (length past)) symbols past.*2 = Ok meta <->
  exists infos, Forall2 node_fits rest infos /\ meta = past.*2 ++ infos /\ consistent (past ++ zip rest infos).
Proof.
  revert past symbols. induction rest as [|n rest IH]; intros past symbols Hn Hs Hc; simpl.
  - split; [intros [= <-]|intros (infos & ->%Forall2_nil_inv_l & -> & _)]; [|by rewrite app_nil_r].
    exists []. rewrite !app_nil_r. done.
  - assert (nodes !! length past = Some n) as Hi.
    { rewrite Hn, lookup_app_r; rewrite length_fmap; [by rewrite Nat.sub_diag|done]. }
    rewrite bind_ok.
    assert (forall symbols' info, validate_node v (Z.of_nat (length past)) symbols = Ok (symbols', info) ->
      validate_nodes v (length rest) (Z.of_nat (length past) + 1) symbols' (past.*2 ++ [info]) = Ok meta <->
      exists infos, Forall2 node_fits rest infos /\ meta = past.*2 ++ info :: infos /\
        consistent (past ++ (n, info) :: zip rest infos)) as Hstep.
    { intros symbols' info (Hfit & Hf & ->)%(validate_node_ok _ n); [|done].
      specialize (IH (past ++ [(n, info)]) (record_sig symbols n info)).
      rewrite !fmap_app, length_app in IH. cbn [fmap list_fmap fst snd length] in IH. rewrite <- !app_assoc in IH.
      replace (Z.of_nat (length past) + 1) with (Z.of_nat (length past + 1)) by lia.
      rewrite IH; [|done|by apply symbols_step|by apply (fresh_iff past symbols)].
      by setoid_rewrite <- app_assoc. }
    split.
    + intros ([symbols' info] & E & H). apply (Hstep _ _ E) in H as (infos & Hfits & -> & Hcons).
      apply (validate_node_ok _ n) in E as (Hfit & _); [|done]. exists (info :: infos). by split_and!; [constructor|..].
    + intros (infos' & (info & infos & Hfit & Hfits & ->)%Forall2_cons_inv_l & -> & Hcons).
      assert (fresh_sig symbols n info) as Hf.
      { apply (fresh_iff past); [done..|]. intros p q name Hp Hq. apply Hcons; simpl; set_solver. }
      exists (record_sig symbols n info, info). assert (validate_node v (Z.of_nat (length past)) symbols =
        Ok (record_sig symbols n info, info)) as E by (by apply (validate_node_ok _ n)).
      split; [done|]. apply (Hstep _ _ E). by exists infos.
Qed.

(** ** The second pass *)

Lemma child_pair_ok i n k s meta (cont : NodeInfo -> wres unit) : is_u32 (children n) -> 0 <= k ->
  (exists u, (expect_child v meta (Z.of_nat i) n k s ≫= cont) = Ok u) <->
  exists info, child_info kids meta i n k s info /\ exists u, cont info = Ok u.
Proof.
  intros Hn Hk. setoid_rewrite bind_ok. setoid_rewrite (expect_child_ok meta i n k s _ Hn Hk). naive_solver.
Qed.

Lemma then_ok (m : wres unit) (cont : wres unit) :
  (exists u, (m ;; cont) = Ok u) <-> (exists u, m = Ok u) /\ exists u, cont = Ok u.
Proof. setoid_rewrite bind_ok. naive_solver. Qed.

Lemma done_ok : (exists u, (Ok tt : wres unit) = Ok u) <-> True.
Proof. naive_solver. Qed.

Lemma ex_refuse b e : (exists u, refuse_if b e = Ok u) <-> b = false.
Proof. setoid_rewrite refuse_ok. naive_solver. Qed.

Lemma ex_width a b c : (exists u, expect_width a b c = Ok u) <-> a = b.
Proof. setoid_rewrite expect_width_ok. naive_solver. Qed.

Lemma ex_same a b : (exists u, expect_same_child_width a b = Ok u) <-> a = b.
Proof. setoid_rewrite expect_same_ok. naive_solver. Qed.

Lemma ex_checked_u32 a b c (cont : Z -> wres unit) :
  (exists u, (checked_add_u32 a b c ≫= cont) = Ok u) <-> a + b <= u32_max /\ exists u, cont (a + b) = Ok u.
Proof. setoid_rewrite bind_ok. setoid_rewrite checked_u32_ok. naive_solver. Qed.

Lemma ex_width_value w c : (exists u, validate_bv_width_value w c = Ok u) <-> 1 <= w <= MAX_BV_WIDTH.
Proof. setoid_rewrite validate_width_value_ok. naive_solver. Qed.

Lemma children_range_ok n : is_u8 (arity n) -> is_u32 (children n) ->
  (exists u, validate_children_range (zlen kids) n = Ok u) <->
  (arity n <> 0 -> children n + arity n <= zlen kids).
Proof.
  intros _ _. unfold validate_children_range. destruct (Z.eqb_spec (arity n) 0); [rewrite done_ok; naive_solver|].
  rewrite ex_checked_u32, ex_refuse, Z.ltb_ge. pose proof kids_bound. split; [by intros [_ H']|intros H']. split; [|by apply H'].
  specialize (H' ltac:(done)). lia.
Qed.

Lemma pairs_ok i n meta default m p : is_u32 (children n) -> 0 <= p ->
  (exists u, validate_pairs (expect_child v meta (Z.of_nat i) n) default m p = Ok u) <->
  forall q, p <= q < p + Z.of_nat m ->
    child_bool kids meta i n (q * 2) /\ child_bv kids meta i n (q * 2 + 1) (info_width default).
Proof.
  intros Hn. revert p. induction m as [|m IH]; intros p Hp; simpl.
  - rewrite done_ok. split; [lia|done].
  - rewrite child_pair_ok by (done || lia). setoid_rewrite (child_pair_ok i n (p * 2 + 1)); [|done|lia].
    setoid_rewrite then_ok. setoid_rewrite ex_same. setoid_rewrite IH; [|lia].
    unfold child_bool, child_bv. split.
    + intros (c & Hc & w & Hw & Hwd & H) q Hq. destruct (decide (q = p)) as [->|]; [naive_solver|]. apply H. lia.
    + intros H. destruct (H p ltac:(lia)) as [[c Hc] [w [Hw Hwd]]]. exists c. split; [done|]. exists w.
      split_and!; [done|done|]. intros q Hq. apply H. lia.
Qed.

Lemma same_widths {A} (P Q : A -> Prop) (f : A -> Z) w :
  (exists a, P a /\ exists b, Q b /\ f a = f b /\ w = f a) <-> (exists a, P a /\ f a = w) /\ exists b, Q b /\ f b = w.
Proof.
  split.
  - intros (a & Ha & b & Hb & E & ->). split; eauto.
  - intros [(a & Ha & <-) (b & Hb & E)]. eauto 10.
Qed.

Lemma extension_ok (P : NodeInfo -> Prop) w k c c' c'' : 0 <= k -> 1 <= w <= MAX_BV_WIDTH ->
  (exists a, P a /\ exists u, (x ← checked_add_u32 (info_width a) k c;
     validate_bv_width_value x c' ;; expect_width w x c'') = Ok u) <->
  exists x, (exists a, P a /\ info_width a = x) /\ w = x + k.
Proof.
  intros Hk Hw. setoid_rewrite ex_checked_u32. setoid_rewrite then_ok.
  setoid_rewrite ex_width_value. setoid_rewrite ex_width. split.
  - intros (a & Ha & _ & _ & ->). eauto.
  - intros (? & (a & Ha & <-) & ->). exists a. unfold MAX_BV_WIDTH, u32_max in *. split_and!; [done|lia..].
Qed.

Lemma validate_children_ok i n meta info : nodes !! i = Some n -> meta !! i = Some info -> node_fits n info ->
  (exists u, validate_children v meta (Z.of_nat i) = Ok u) <->
  (arity n <> 0 -> children n + arity n <= zlen kids) /\ children_ok kids meta i n (info_tag info).
Proof.
  intros Hi Hm Hfit. pose proof (node_is_valid _ _ Hi) as (_ & Ha & Hh & _ & Hl & Hc & _).
  assert (width_ok (Tag.result_sort (info_tag info)) (node_width n)) as Hw.
  { destruct Hfit as [(t & Ht & [= <-])%bind_Some (_ & Hw & _)]. exact Hw. }
  assert (arity_ok (info_tag info) (arity n)) as Har by apply Hfit.
  unfold validate_children. rewrite (view_node _ _ _ _ Hv _ _ Hi). cbn [mbind res_bind]. rewrite Nat2Z.id, Hm.
  cbn [mbind res_bind]. rewrite then_ok, (view_child_count _ _ _ _ Hv), children_range_ok by done. cbv zeta.
  apply and_iff_compat_l. unfold is_u16 in Hh. clear Hfit Ha.
  destruct (info_tag info); simpl children_ok; simpl in Hw, Har;
    repeat first [rewrite child_pair_ok by (done || lia) | rewrite then_ok | rewrite ex_checked_u32 | rewrite done_ok
      | rewrite ex_same | rewrite ex_width | rewrite ex_width_value | rewrite ex_refuse | rewrite pairs_ok by (done || lia)
      | setoid_rewrite child_pair_ok; [|done|lia] | setoid_rewrite then_ok | setoid_rewrite done_ok | setoid_rewrite ex_same
      | setoid_rewrite ex_width];
    unfold child_bv, child_bool.
  all: try done.
  all: try (rewrite same_widths; done).
  all: try (clear; naive_solver).
  - setoid_rewrite ex_refuse. setoid_rewrite orb_false_iff. setoid_rewrite Z.ltb_ge. setoid_rewrite Z.leb_gt.
    clear. naive_solver.
  - setoid_rewrite ex_checked_u32. setoid_rewrite then_ok. setoid_rewrite ex_width_value. setoid_rewrite ex_width. split.
    + intros (c & H & c' & H' & _ & _ & E). exists (info_width c), (info_width c'). split_and!; [by exists c|by exists c'|done].
    + intros (? & ? & (c & H & <-) & (c' & H' & <-) & E). exists c. split; [done|]. exists c'. split; [done|].
      unfold MAX_BV_WIDTH, u32_max in *. split_and!; lia.
  - apply extension_ok; [lia|exact Hw].
  - apply extension_ok; [lia|exact Hw].
  - split.
    + intros (c & Hb & t & Ht & e & He & E & ->). eauto 10.
    + intros ([c Hb] & (t & Ht & <-) & (e & He & E)). eauto 10.
  - rewrite negb_false_iff, Z.eqb_eq. split.
    + intros [[_ E] (c & Hd & Hp & Hwd)]. split; [done|]. rewrite pairs_ok in Hp by (done || lia).
      split; [by exists c|]. intros q Hq. rewrite Hwd. apply Hp. lia.
    + intros (E & (c & Hd & Hwd) & Hp). split.
      { split; [|done]. exists tt. by apply (validate_arity_ok TBvSelect). }
      exists c. split; [done|]. split; [|done]. rewrite pairs_ok by (done || lia). intros q Hq. rewrite Hwd. apply Hp. lia.
Qed.

Lemma all_children_ok meta m i :
  (exists u, validate_all_children v meta m (Z.of_nat i) = Ok u) <->
  forall j, (i <= j < i + m)%nat -> exists u, validate_children v meta (Z.of_nat j) = Ok u.
Proof.
  revert i. induction m as [|m IH]; intros i; simpl; [rewrite done_ok; split; [lia|done]|].
  rewrite then_ok. replace (Z.of_nat i + 1) with (Z.of_nat (S i)) by lia. rewrite IH. split.
  - intros [Hi H] j Hj. destruct (decide (j = i)) as [->|]; [done|]. apply H. lia.
  - intros H. split; [apply H; lia|]. intros j Hj. apply H. lia.
Qed.

Lemma infos_iff meta : mapM info_of nodes = Some meta <-> Forall2 (fun n info => info_of n = Some info) nodes meta.
Proof. apply mapM_Some. Qed.

(** The first pass accepts what [dag_ok] says of the nodes by themselves. *)
Lemma first_pass_ok meta : validate_nodes v (length nodes) 0 ∅ [] = Ok meta <->
  Forall2 node_fits nodes meta /\ consistent (zip nodes meta).
Proof.
  assert (symbols_ok [] ∅) as Hs by (split; [intros p name Hp; inversion Hp|intros name ex; by rewrite lookup_empty]).
  assert (consistent []) as Hc by (intros p q name Hp; inversion Hp).
  rewrite (validate_nodes_ok nodes [] ∅ meta eq_refl Hs Hc). simpl. naive_solver.
Qed.

Lemma zip_lookup (meta : list NodeInfo) p : p ∈ zip nodes meta <-> exists i, nodes !! i = Some p.1 /\ meta !! i = Some p.2.
Proof.
  rewrite list_elem_of_lookup. destruct p as [n info]. simpl. split; intros [i H]; exists i; revert H; rewrite lookup_zip_with;
    destruct (nodes !! i), (meta !! i); naive_solver.
Qed.

Lemma accepts_dags : (exists u, validate v = Ok u) <-> exists meta, dag_ok nodes kids blob meta.
Proof.
  unfold validate. cbv zeta. rewrite (view_node_count _ _ _ _ Hv). unfold zlen. rewrite Nat2Z.id.
  setoid_rewrite bind_ok.
  assert (forall meta, Forall2 node_fits nodes meta -> (exists u, validate_all_children v meta (length nodes) 0 = Ok u) <->
    forall i n info, nodes !! i = Some n -> meta !! i = Some info ->
      (arity n <> 0 -> children n + arity n <= zlen kids) /\ children_ok kids meta i n (info_tag info)) as Hsecond.
  { intros meta Hm. rewrite (all_children_ok meta _ 0%nat). split.
    - intros H i n info Hi Hinfo. apply validate_children_ok; [done|done|by eapply Forall2_lookup_lr|].
      apply H. apply lookup_lt_Some in Hi. lia.
    - intros H i Hi. destruct (lookup_lt_is_Some_2 nodes i) as [n Hn]; [lia|].
      destruct (Forall2_lookup_l _ _ _ _ _ Hm Hn) as (info & Hinfo & Hf).
      by apply (validate_children_ok i n meta info), (H i). }
  split.
  - intros (u & meta & [Hm Hc]%first_pass_ok & H2). exists meta.
    pose proof (proj1 (Hsecond _ Hm) (ex_intro _ u H2)) as H. split.
    + apply infos_iff. eapply Forall2_impl; [exact Hm|]. by intros n info [? _].
    + intros i n info Hn Hi. by apply (Forall2_lookup_lr _ _ _ _ _ _ Hm Hn Hi).
    + intros i j n m ni mi Hn Hm' Hi Hj (Hv1 & Hv2 & Hname).
      destruct (Forall2_lookup_lr _ _ _ _ _ _ Hm Hn Hi) as [_ (_ & _ & Hnm & _)].
      destruct (Hnm Hv1) as [name En].
      apply (Hc (n, ni) (m, mi) name); [apply zip_lookup; by exists i|apply zip_lookup; by exists j|done|].
      split; [done|]. simpl. congruence.
    + intros i n Hn. destruct (Forall2_lookup_l _ _ _ _ _ Hm Hn) as (info & Hinfo & _). by apply (H i n info).
    + intros i n info Hn Hi. by apply (H i n info).
  - intros (meta & [Hinfo Hshape Hsym Hrange Hkids]).
    assert (Forall2 node_fits nodes meta) as Hm.
    { apply infos_iff in Hinfo. apply Forall2_same_length_lookup_2; [by eapply Forall2_length|].
      intros i n info Hn Hi. split; [|by apply (Hshape i)]. by apply (Forall2_lookup_lr _ _ _ _ _ _ Hinfo Hn Hi). }
    destruct (proj2 (Hsecond _ Hm)) as [u Hu].
    { intros i n info Hn Hi. split; [by apply (Hrange i)|by apply Hkids]. }
    exists u, meta. split; [|done]. apply first_pass_ok. split; [done|].
    intros [n ni] [m mi] name (i & Hn & Hi)%zip_lookup (j & Hm' & Hj)%zip_lookup [Hv1 En] [Hv2 Em]. simpl in *.
    apply (Hsym i j n m ni mi); try done. split_and!; [done..|congruence].
Qed.

(** Validation returns: it never reaches the lookup of a missing entry. *)
Lemma children_total (meta : list NodeInfo) i : is_Some (nodes !! i) -> is_Some (meta !! i) ->
  total (validate_children v meta (Z.of_nat i)).
Proof.
  intros [n Hn] [info Hi]. unfold validate_children. rewrite (view_node _ _ _ _ Hv _ _ Hn). cbn [mbind res_bind].
  rewrite Nat2Z.id, Hi. cbn [mbind res_bind].
  assert (forall k s, total (expect_child v meta (Z.of_nat i) n k s)) as Hchild.
  { intros k s. unfold expect_child, ExprView.child_ref, validate_ref, read_u32. totals. }
  assert (forall default m p, total (validate_pairs (expect_child v meta (Z.of_nat i) n) default m p)) as Hpairs.
  { intros default m. induction m as [|m IH]; intros p; simpl; [done|].
    totals. }
  unfold validate_children_range.
  apply total_bind; [totals|intros _ _]. destruct (info_tag info); totals.
Qed.

Lemma node_total i symbols : total (validate_node v i symbols).
Proof.
  Local Transparent ExprView.blob_ref ExprView.blob_str.
  unfold validate_node, ExprView.node, ExprView.blob_str, ExprView.blob_ref, wire_bytes_for_width.
  pose proof node_decode_total. totals.
Qed.

Lemma nodes_total n i symbols meta : total (validate_nodes v n i symbols meta).
Proof.
  revert i symbols meta. induction n as [|n IH]; intros i symbols meta; simpl; [done|].
  apply total_bind; [apply node_total|]. intros [symbols' info] _. apply IH.
Qed.

Lemma nodes_length n i symbols meta meta' : validate_nodes v n i symbols meta = Ok meta' ->
  length meta' = (length meta + n)%nat.
Proof.
  revert i symbols meta. induction n as [|n IH]; intros i symbols meta; simpl; [intros [= <-]; lia|].
  destruct (validate_node v i symbols) as [[symbols' info]|e|]; [|done..]. cbn [mbind res_bind].
  intros ->%IH. rewrite length_app. simpl. lia.
Qed.

Lemma children_loop_total (meta : list NodeInfo) m i : length meta = length nodes -> (i + m <= length nodes)%nat ->
  total (validate_all_children v meta m (Z.of_nat i)).
Proof.
  revert i. induction m as [|m IH]; intros i Hl Hm; simpl; [done|].
  apply total_bind; [apply children_total; apply lookup_lt_is_Some; lia|]. intros _ _.
  replace (Z.of_nat i + 1) with (Z.of_nat (S i)) by lia. apply IH; lia.
Qed.

Lemma validate_total : total (validate v).
Proof.
  unfold validate. cbv zeta. rewrite (view_node_count _ _ _ _ Hv). unfold zlen. rewrite Nat2Z.id.
  apply total_bind; [apply nodes_total|]. intros meta E. apply (children_loop_total meta _ 0%nat); [|lia].
  apply nodes_length in E. done.
Qed.

End view.

Lemma validated_dag bytes v : slice_ok bytes -> parse_and_validate bytes = Ok v ->
  exists nodes kids blob meta, view_of v nodes kids blob /\ dag_ok nodes kids blob meta.
Proof.
  intros Hs (w & E & (u & Hu & [= ->])%bind_ok)%bind_ok.
  destruct (parse_view _ _ Hs E) as (nodes & kids & blob & Hv).
  destruct (proj1 (accepts_dags v nodes kids blob Hv)) as [meta Hd]; [by exists u|].
  by exists nodes, kids, blob, meta.
Qed.

Lemma total_parse_validate bytes : slice_ok bytes -> total (parse_and_validate bytes).
Proof.
  intros Hs. unfold parse_and_validate. apply total_bind; [apply parse_total|]. intros v E.
  destruct (parse_view _ _ Hs E) as (nodes & kids & blob & Hv).
  apply total_bind; [by apply (validate_total v nodes kids blob)|done].
Qed.

(** C17: [ExprView::parse_and_validate] accepts exactly the encodings of well-sorted
    DAGs.  It returns on every slice; an accepted slice lays out nodes that satisfy
    [dag_ok] (known tags with their arities, widths in range, children that are
    earlier nodes of the sort and width the operator asks for, UTF-8 names with one
    signature each, wide constants of the right length); and conversely every such
    layout is accepted, so validation refuses nothing that is well sorted. *)
Theorem parse_and_validate_correct bytes : slice_ok bytes ->
  total (parse_and_validate bytes) /\
  (forall v, parse_and_validate bytes = Ok v ->
   exists nodes kids blob meta, view_of v nodes kids blob /\ dag_ok nodes kids blob meta) /\
  (forall v nodes kids blob, ExprView.parse bytes = Ok v -> view_of v nodes kids blob ->
   parse_and_validate bytes = Ok v <-> exists meta, dag_ok nodes kids blob meta).
Proof.
  intros Hs. split_and!; [by apply total_parse_validate|intros v; by apply validated_dag|]. unfold parse_and_validate.
  intros v nodes kids blob E Hv. rewrite E. cbn [mbind res_bind]. rewrite <- (accepts_dags v nodes kids blob Hv), bind_ok.
  split; [intros (u & Hu & _); by exists u|intros [u Hu]; by exists u].
Qed.

Lemma sample_slice : slice_ok sample_expression.
Proof. split; [|done]. apply Forall_forall. intros b Hb. vm_compute in Hb.
  repeat (apply elem_of_cons in Hb as [->|Hb]; [done|]). by inversion Hb. Qed.

(** [x = 5] is a DAG: validation says so. *)
Lemma parse_and_validate_correct_witness : exists v nodes kids blob meta,
  parse_and_validate sample_expression = Ok v /\ view_of v nodes kids blob /\ dag_ok nodes kids blob meta.
Proof.
  destruct (parse_and_validate_correct sample_expression sample_slice) as (_ & H & _).
  destruct (parse_and_validate sample_expression) as [v|e|] eqn:E; [|vm_compute in E; discriminate E..].
  destruct (H v eq_refl) as (nodes & kids & blob & meta & Hv & Hd). by exists v, nodes, kids, blob, meta.
Defined.
