(* ===== verification/WireRequest.v ===== *)
(** * Requests ([smt-wire]: [request.rs])

    The request frame: an envelope, an expression buffer, assertion roots, names of
    assertions and assumption roots. *)
From S2P Require Import Prelude Bytes BytesFacts Evaluator WireBase WireExpr.

#[local] Open Scope Z_scope.

(** [&bytes[start..stop]]: panics out of range. *)
Definition index_range (bytes : list Z) (start stop : Z) : wres (list Z) :=
  if (start <=? stop) && (stop <=? zlen bytes) then Ok (subslice bytes start (stop - start)) else Panic.

Definition validate_request_flags (flags : Z) : wres unit :=
  refuse_if (negb (Z.ldiff flags RequestFlags.ALL =? 0)) (InvalidValue "request flags").

(** A flag bit is set. *)
Definition has_flag (flags bit : Z) : bool := negb (Z.land flags bit =? 0).

Definition validate_command_flags (command : WireCommand) (flags : Z) : wres unit :=
  match command with
  | CmdSolve => refuse_if (has_flag flags RequestFlags.SIGNED) (InvalidValue "request flags")
  | CmdSimplify => refuse_if (negb (flags =? 0)) (InvalidValue "request flags")
  | CmdMinimize | CmdMaximize => refuse_if (has_flag flags RequestFlags.WANT_CORE) (InvalidValue "request flags")
  end.

Definition request_len (expr_len assertion_count named_count assumption_count : Z) : wres Z :=
  total ← checked_add REQUEST_ENVELOPE_LEN expr_len "request length";
  assertions ← checked_mul assertion_count 4 "request assertion roots length";
  total ← checked_add total assertions "request length";
  named ← checked_mul named_count 8 "request named refs length";
  total ← checked_add total named "request length";
  assumptions ← checked_mul assumption_count 4 "request assumption roots length";
  checked_add total assumptions "request length".

Definition is_binary_request_payload (payload : list Z) : bool :=
  (4 <=? zlen payload) && bool_decide (subslice payload 0 4 = REQUEST_MAGIC).

(** [le::read_u32] at a slice's offset, twice: a [BlobRef] of the request. *)
Definition next_blob_ref (bytes : list Z) (offset : Z) : wres (BlobRef * Z) :=
  blob_offset ← read_u32 bytes offset "named assertion offset";
  blob_len ← read_u32 bytes (offset + 4) "named assertion length";
  Ok (mkBlobRef blob_offset blob_len, offset + 8).

Definition write_blob_ref (dst : list Z) (name : BlobRef) : list Z :=
  write_u32 (write_u32 dst (blob_offset name)) (blob_len name).

Module RequestEnvelope.
Record t := mk {
  request_id : Z; command : WireCommand; flags : Z; budget_ms : Z; expr_len : Z;
  assertion_count : Z; named_count : Z; assumption_count : Z; target_node : Z;
}.

Definition encode (self : t) (dst : list Z) : wres (list Z) :=
  validate_request_flags (flags self) ;;
  let dst := dst ++ REQUEST_MAGIC in
  let dst := write_u32 dst (request_id self) in
  let dst := write_u8 dst (WireCommand.to_u8 (command self)) in
  let dst := write_u8 dst (flags self) in
  let dst := write_u32 dst (budget_ms self) in
  let dst := write_u32 dst (expr_len self) in
  let dst := write_u16 dst (assertion_count self) in
  let dst := write_u16 dst (named_count self) in
  let dst := write_u16 dst (assumption_count self) in
  let dst := write_u32 dst (target_node self) in
  Ok (write_u32 dst 0).

Definition parse (bytes : list Z) : wres t :=
  refuse_if (zlen bytes <? REQUEST_ENVELOPE_LEN)
    (UnexpectedEof "request envelope" REQUEST_ENVELOPE_LEN (zlen bytes)) ;;
  magic ← exact_slice bytes 0 4 "request magic";
  refuse_if (negb (bool_decide (magic = REQUEST_MAGIC))) (BadMagic "request envelope" REQUEST_MAGIC magic) ;;
  command_raw ← read_u8 bytes 8 "request command";
  command ← match WireCommand.try_from command_raw with
            | Some c => Ok c | None => Err (InvalidValue "request command") end;
  flags ← read_u8 bytes 9 "request flags";
  validate_request_flags flags ;;
  validate_command_flags command flags ;;
  reserved ← read_u32 bytes 28 "request reserved";
  refuse_if (negb (reserved =? 0)) (InvalidValue "request reserved") ;;
  request_id ← read_u32 bytes 4 "request id";
  budget_ms ← read_u32 bytes 10 "request budget";
  expr_len ← read_u32 bytes 14 "request expr_len";
  assertion_count ← read_u16 bytes 18 "request assertion_count";
  named_count ← read_u16 bytes 20 "request named_count";
  assumption_count ← read_u16 bytes 22 "request assumption_count";
  target_node ← read_u32 bytes 24 "request target_node";
  Ok (mk request_id command flags budget_ms expr_len assertion_count named_count assumption_count target_node).

Definition encoded_len (self : t) : wres Z :=
  request_len (expr_len self) (assertion_count self) (named_count self) (assumption_count self).
End RequestEnvelope.

Module BinaryRequest.
Record t := mk {
  envelope : RequestEnvelope.t;
  expression : list Z;
  assertion_roots : list NodeRef;
  named_assertion_refs : list BlobRef;
  assumption_roots : list NodeRef;
}.

(** [names.insert(name)] over the named assertions, refusing a name seen before. *)
Fixpoint distinct_names (expr : ExprView) (names : gset string) (l : list BlobRef) : wres unit :=
  match l with
  | [] => Ok tt
  | r :: l =>
      name ← ExprView.blob_str expr r "named assertion";
      refuse_if (bool_decide (name ∈ names)) (InvalidValue "named assertions") ;;
      distinct_names expr ({[name]} ∪ names) l
  end.

Definition check_root (expr : ExprView) (context : string) (root : NodeRef) : wres unit :=
  validate_node_ref expr root Bool context ;; Ok tt.

Definition validate (self : t) : wres unit :=
  let env := envelope self in
  refuse_if (negb (RequestEnvelope.expr_len env =? zlen (expression self)))
    (LengthMismatch "request expression length" (RequestEnvelope.expr_len env) (zlen (expression self))) ;;
  refuse_if (negb (RequestEnvelope.assertion_count env =? zlen (assertion_roots self)))
    (LengthMismatch "request assertion_count" (RequestEnvelope.assertion_count env) (zlen (assertion_roots self))) ;;
  refuse_if (negb (RequestEnvelope.named_count env =? zlen (named_assertion_refs self)))
    (LengthMismatch "request named_count" (RequestEnvelope.named_count env) (zlen (named_assertion_refs self))) ;;
  refuse_if (negb (RequestEnvelope.assumption_count env =? zlen (assumption_roots self)))
    (LengthMismatch "request assumption_count" (RequestEnvelope.assumption_count env) (zlen (assumption_roots self))) ;;
  refuse_if (zlen (assertion_roots self) <? zlen (named_assertion_refs self))
    (InvalidValue "request named assertions") ;;
  expr ← parse_and_validate (expression self);
  check_each (check_root expr "assertion root") (assertion_roots self) ;;
  check_each (check_root expr "assumption root") (assumption_roots self) ;;
  check_each (fun name => ExprView.blob_str expr name "named assertion" ;; Ok tt) (named_assertion_refs self) ;;
  (if has_flag (RequestEnvelope.flags env) RequestFlags.WANT_CORE
   then distinct_names expr ∅ (named_assertion_refs self) else Ok tt) ;;
  validate_command_flags (RequestEnvelope.command env) (RequestEnvelope.flags env) ;;
  let target := RequestEnvelope.target_node env in
  match RequestEnvelope.command env with
  | CmdSimplify =>
      refuse_if (negb ((zlen (assertion_roots self) =? 0) && (zlen (named_assertion_refs self) =? 0)
                       && (zlen (assumption_roots self) =? 0))) (InvalidValue "simplify request") ;;
      validate_node_ref expr target (NodeRef.sort target) "target_node" ;; Ok tt
  | CmdMinimize | CmdMaximize => validate_node_ref expr target Bv "target_node" ;; Ok tt
  | CmdSolve => refuse_if (negb (target =? 0)) (InvalidValue "request target_node")
  end.

Definition new (request_id : Z) (command : WireCommand) (flags budget_ms : Z) (expression : list Z)
    (assertion_roots : list NodeRef) (named_assertion_refs : list BlobRef) (assumption_roots : list NodeRef)
    (target_node : option NodeRef) : wres t :=
  validate_request_flags flags ;;
  refuse_if (zlen assertion_roots <? zlen named_assertion_refs) (InvalidValue "request named assertions") ;;
  expr_len ← try_u32 (zlen expression) "request expression";
  assertion_count ← try_u16 (zlen assertion_roots) "request assertions";
  named_count ← try_u16 (zlen named_assertion_refs) "request named assertions";
  assumption_count ← try_u16 (zlen assumption_roots) "request assumptions";
  refuse_if (match command with CmdSimplify | CmdMinimize | CmdMaximize => true | CmdSolve => false end
             && match target_node with None => true | Some _ => false end) (InvalidValue "request target_node") ;;
  let request := mk
    (RequestEnvelope.mk request_id command flags budget_ms expr_len assertion_count named_count
       assumption_count (default 0 target_node))
    expression assertion_roots named_assertion_refs assumption_roots in
  validate request ;;
  Ok request.

Definition parse (frame_payload : list Z) : wres t :=
  envelope ← RequestEnvelope.parse frame_payload;
  refuse_if (RequestEnvelope.assertion_count envelope <? RequestEnvelope.named_count envelope)
    (InvalidValue "request named_count") ;;
  expected_len ← RequestEnvelope.encoded_len envelope;
  refuse_if (negb (zlen frame_payload =? expected_len))
    (LengthMismatch "request frame payload" expected_len (zlen frame_payload)) ;;
  let expr_start := REQUEST_ENVELOPE_LEN in
  let expr_end := expr_start + RequestEnvelope.expr_len envelope in
  expression ← index_range frame_payload expr_start expr_end;
  '(assertion_roots, offset) ← decode_many (next_u32 "assertion root")
     (Z.to_nat (RequestEnvelope.assertion_count envelope)) frame_payload expr_end;
  '(named_assertion_refs, offset) ← decode_many next_blob_ref
     (Z.to_nat (RequestEnvelope.named_count envelope)) frame_payload offset;
  '(assumption_roots, offset) ← decode_many (next_u32 "assumption root")
     (Z.to_nat (RequestEnvelope.assumption_count envelope)) frame_payload offset;
  (** [debug_assert_eq!(offset, expected_len)] *)
  (if offset =? expected_len then Ok tt else Panic) ;;
  let request := mk envelope expression assertion_roots named_assertion_refs assumption_roots in
  validate request ;;
  Ok request.

Definition encode (self : t) : wres (list Z) :=
  validate self ;;
  RequestEnvelope.encoded_len (envelope self) ;;
  out ← RequestEnvelope.encode (envelope self) [];
  let out := out ++ expression self in
  let out := foldl write_u32 out (assertion_roots self) in
  let out := foldl write_blob_ref out (named_assertion_refs self) in
  Ok (foldl write_u32 out (assumption_roots self)).

Definition expression_view (self : t) : wres ExprView := parse_and_validate (expression self).

Definition target_ref (self : t) : option NodeRef :=
  match RequestEnvelope.command (envelope self) with
  | CmdSimplify | CmdMinimize | CmdMaximize => Some (RequestEnvelope.target_node (envelope self))
  | CmdSolve => None
  end.
End BinaryRequest.
