(* ===== verification/WireRequestFacts.v ===== *)
(** * Requests on the wire

    A request is encoded and parsed back; a frame that parses is the encoding of its
    request; and what [validate] accepts refers to nodes of a well-sorted DAG. *)
From S2P Require Import Prelude Bits Bytes BytesFacts Evaluator EvaluatorFacts.
From S2P Require Import WireBase WireBaseFacts WireExpr WireExprFacts WireDag WireRequest.

#[local] Open Scope Z_scope.
#[local] Opaque to_le_bytes.

(** ** Reads at fixed positions *)

(** The field at the position of a known one, or after it. *)
Lemma rest_skip bytes off n v rest off' : rest_at bytes off (to_le_bytes n v ++ rest) -> off' = off + Z.of_nat n ->
  rest_at bytes off' rest.
Proof. intros H ->. apply rest_next in H. by rewrite zlen_le_bytes in H. Qed.

(** The next read finds a field whose position is known. *)
Ltac read_known Hs :=
  match goal with
  | H : rest_at ?bytes ?off (to_le_bytes ?n ?v ++ _) |- (read_uint ?n ?bytes ?off ?c ≫= _) = _ =>
      rewrite (read_at n bytes off v _ c Hs ltac:(assumption) H); cbn [mbind res_bind]
  end.

Lemma index_range_at bytes off mid rest stop : rest_at bytes off (mid ++ rest) -> stop = off + zlen mid ->
  index_range bytes off stop = Ok mid.
Proof.
  intros (Ho & Hl & Hd) ->. rewrite zlen_app in Hl. pose proof (zlen_nonneg mid). pose proof (zlen_nonneg rest).
  unfold index_range. rewrite !(proj2 (Z.leb_le _ _)) by lia. simpl. f_equal. unfold subslice. rewrite Hd.
  replace (off + zlen mid - off) with (zlen mid) by lia. unfold zlen. rewrite Nat2Z.id. apply take_app_length.
Qed.

Lemma index_range_inv bytes off stop mid : 0 <= off -> index_range bytes off stop = Ok mid ->
  stop = off + zlen mid /\ exists rest, rest_at bytes off (mid ++ rest).
Proof.
  intros Ho. unfold index_range. destruct (Z.leb_spec off stop); [|done]. destruct (Z.leb_spec stop (zlen bytes)); [|done].
  simpl. intros [= <-]. assert (zlen (subslice bytes off (stop - off)) = stop - off) as Hl.
  { unfold zlen, subslice in *. rewrite length_take, length_drop. lia. }
  split; [lia|]. exists (drop (Z.to_nat (stop - off)) (drop (Z.to_nat off) bytes)). unfold subslice.
  split_and!; [done| |by rewrite take_drop]. rewrite take_drop. unfold zlen in *. rewrite length_drop. lia.
Qed.

Lemma index_range_total bytes off stop : off <= stop <= zlen bytes -> total (index_range bytes off stop).
Proof. intros H. unfold index_range. by rewrite !(proj2 (Z.leb_le _ _)) by lia. Qed.

(** ** Blob references in a row *)

Definition ref_bytes (r : BlobRef) : list Z := to_le_bytes 4 (blob_offset r) ++ to_le_bytes 4 (blob_len r).

#[export] Instance blob_ref_codec : Codec BlobRef ref_valid ref_bytes next_blob_ref.
Proof.
  assert (forall r, zlen (ref_bytes r) = 8) as Hz by (intros r; unfold ref_bytes; by rewrite zlen_app, !zlen_le_bytes).
  split.
  - intros r _. unfold ref_bytes. apply Forall_app. split; apply to_le_bytes_shape.
  - intros bytes off r rest Hs [H1 H2] Hr. unfold ref_bytes in Hr. rewrite <- app_assoc in Hr.
    assert (rest_at bytes (off + 4) (to_le_bytes 4 (blob_len r) ++ rest)) by (by eapply rest_skip; [exact Hr|lia]).
    unfold next_blob_ref, read_u32. read_known Hs. read_known Hs. rewrite Hz. by destruct r.
  - intros bytes off r off' Hs Ho. unfold next_blob_ref, read_u32. unread Hs o H1 R1. unread Hs l H2 R2.
    intros [= <- <-]. rewrite Hz. split; [done|]. split; [done|]. exists rest0. unfold ref_bytes. rewrite <- app_assoc.
    join R1 R2. exact R2.
  - intros bytes off _ _. unfold next_blob_ref, read_u32. totals.
Qed.

(** ** The envelope *)

Definition envelope_valid (e : RequestEnvelope.t) : Prop :=
  is_u32 (RequestEnvelope.request_id e) /\ is_u8 (RequestEnvelope.flags e) /\ is_u32 (RequestEnvelope.budget_ms e) /\
  is_u32 (RequestEnvelope.expr_len e) /\ is_u16 (RequestEnvelope.assertion_count e) /\
  is_u16 (RequestEnvelope.named_count e) /\ is_u16 (RequestEnvelope.assumption_count e) /\
  is_u32 (RequestEnvelope.target_node e).

Definition envelope_bytes (e : RequestEnvelope.t) : list Z :=
  REQUEST_MAGIC ++ to_le_bytes 4 (RequestEnvelope.request_id e) ++
  to_le_bytes 1 (WireCommand.to_u8 (RequestEnvelope.command e)) ++ to_le_bytes 1 (RequestEnvelope.flags e) ++
  to_le_bytes 4 (RequestEnvelope.budget_ms e) ++ to_le_bytes 4 (RequestEnvelope.expr_len e) ++
  to_le_bytes 2 (RequestEnvelope.assertion_count e) ++ to_le_bytes 2 (RequestEnvelope.named_count e) ++
  to_le_bytes 2 (RequestEnvelope.assumption_count e) ++ to_le_bytes 4 (RequestEnvelope.target_node e) ++
  to_le_bytes 4 0.

(** What both directions check of the flags. *)
Definition flags_ok (e : RequestEnvelope.t) : Prop :=
  Z.ldiff (RequestEnvelope.flags e) RequestFlags.ALL = 0 /\
  validate_command_flags (RequestEnvelope.command e) (RequestEnvelope.flags e) = Ok tt.

Lemma zlen_envelope e : zlen (envelope_bytes e) = 32.
Proof. unfold envelope_bytes. by rewrite !zlen_app, !zlen_le_bytes. Qed.

Lemma request_flags_ok f u : validate_request_flags f = Ok u <-> Z.ldiff f RequestFlags.ALL = 0.
Proof. unfold validate_request_flags. by rewrite refuse_ok, negb_false_iff, Z.eqb_eq. Qed.

Lemma encode_envelope_ok e dst out : RequestEnvelope.encode e dst = Ok out <->
  Z.ldiff (RequestEnvelope.flags e) RequestFlags.ALL = 0 /\ out = dst ++ envelope_bytes e.
Proof.
  unfold RequestEnvelope.encode. rewrite bind_ok. setoid_rewrite request_flags_ok.
  unfold write_u8, write_u16, write_u32, envelope_bytes. rewrite <- !app_assoc. naive_solver.
Qed.

Lemma command_round_trip c : WireCommand.try_from (WireCommand.to_u8 c) = Some c.
Proof. by destruct c. Qed.

Lemma command_inv v c : WireCommand.try_from v = Some c -> v = WireCommand.to_u8 c.
Proof.
  unfold WireCommand.try_from. repeat (case_match; [intros [= <-]; by apply Z.eqb_eq|]). done.
Qed.

Lemma command_u8 c : is_u8 (WireCommand.to_u8 c).
Proof. by destruct c. Qed.

Lemma envelope_parses bytes e rest : slice_ok bytes -> envelope_valid e -> flags_ok e ->
  bytes = envelope_bytes e ++ rest -> RequestEnvelope.parse bytes = Ok e.
Proof.
  intros Hs (H1 & H2 & H3 & H4 & H5 & H6 & H7 & H8) [Hf Hc] E.
  assert (zlen bytes >= 32) as Hl by (rewrite E, zlen_app, zlen_envelope; pose proof (zlen_nonneg rest); lia).
  pose proof (rest_start bytes) as Hr. rewrite E in Hr at 2. unfold envelope_bytes in Hr. rewrite <- !app_assoc in Hr.
  clear E. unfold RequestEnvelope.parse.
  rewrite refuse_no by (apply Z.ltb_ge; unfold REQUEST_ENVELOPE_LEN; lia).
  cbn [mbind res_bind]. unfold exact_slice. rewrite (ensure_at _ _ _ _ _ _ Hs Hr) by done. cbn [mbind res_bind].
  rewrite refuse_no by (by rewrite bool_decide_true). cbn [mbind res_bind].
  apply rest_next in Hr. change (0 + zlen REQUEST_MAGIC) with 4 in Hr.
  apply (rest_skip _ _ _ _ _ 8) in Hr as R8; [|done]. apply (rest_skip _ _ _ _ _ 9) in R8 as R9; [|done].
  apply (rest_skip _ _ _ _ _ 10) in R9 as R10; [|done]. apply (rest_skip _ _ _ _ _ 14) in R10 as R14; [|done].
  apply (rest_skip _ _ _ _ _ 18) in R14 as R18; [|done]. apply (rest_skip _ _ _ _ _ 20) in R18 as R20; [|done].
  apply (rest_skip _ _ _ _ _ 22) in R20 as R22; [|done]. apply (rest_skip _ _ _ _ _ 24) in R22 as R24; [|done].
  apply (rest_skip _ _ _ _ _ 28) in R24 as R28; [|done].
  assert (is_u32 0) by done. pose proof (command_u8 (RequestEnvelope.command e)).
  unfold read_u8, read_u16, read_u32. read_known Hs. rewrite command_round_trip. cbn [mbind res_bind].
  read_known Hs. rewrite (proj2 (request_flags_ok _ tt) Hf). cbn [mbind res_bind].
  rewrite Hc. cbn [mbind res_bind]. read_known Hs. rewrite Z.eqb_refl. simpl negb.
  cbn [refuse_if mbind res_bind]. do 7 read_known Hs. by destruct e.
Qed.

Lemma envelope_inv bytes e : slice_ok bytes -> RequestEnvelope.parse bytes = Ok e ->
  envelope_valid e /\ flags_ok e /\ exists rest, bytes = envelope_bytes e ++ rest.
Proof.
  intros Hs. unfold RequestEnvelope.parse, exact_slice, read_u8, read_u16, read_u32. unrefuse.
  destruct (ensure bytes 0 4 _) as [magic|x|] eqn:Em; [|done..]. cbn [mbind res_bind].
  destruct (ensure_inv bytes 0 4 _ _ (Z.le_refl 0) ltac:(lia) Em) as (Hm & r0 & R0). clear Em.
  unrefuse. apply negb_false_iff, bool_decide_eq_true in Eb0 as ->.
  unread Hs c H1 R1. destruct (WireCommand.try_from c) as [command|] eqn:Ec; [|done].
  apply command_inv in Ec as ->. cbn [mbind res_bind]. unread Hs f H2 R2.
  destruct (validate_request_flags f) as [[]|x|] eqn:Ef; [|done..]. apply request_flags_ok in Ef. cbn [mbind res_bind].
  destruct (validate_command_flags command f) as [[]|x|] eqn:Ecf; [|done..]. cbn [mbind res_bind].
  unread Hs z H3 R3. unrefuse. apply negb_false_iff, Z.eqb_eq in Eb0 as ->.
  unread Hs rid H4 R4. unread Hs bu H5 R5. unread Hs el H6 R6. unread Hs ac H7 R7. unread Hs nc H8 R8.
  unread Hs asc H9 R9. unread Hs tg H10 R10. intros [= <-].
  split; [done|]. split; [done|]. exists rest1. unfold envelope_bytes. simpl RequestEnvelope.request_id.
  cbn [RequestEnvelope.command RequestEnvelope.flags RequestEnvelope.budget_ms RequestEnvelope.expr_len
    RequestEnvelope.assertion_count RequestEnvelope.named_count RequestEnvelope.assumption_count RequestEnvelope.target_node].
  rewrite <- !app_assoc. apply rest_whole.
  join R10 R3. join R9 R3. join R8 R3. join R7 R3. join R6 R3. join R5 R3. join R2 R3. join R1 R3. join R4 R3.
  apply (rest_join _ _ _ _ _ _ R0) in R3; [exact R3|lia].
Qed.

Lemma envelope_total bytes : total (RequestEnvelope.parse bytes).
Proof.
  unfold RequestEnvelope.parse, exact_slice, read_u8, read_u16, read_u32, validate_request_flags, validate_command_flags.
  totals.
Qed.

(** ** Requests *)

Record request_valid (r : BinaryRequest.t) : Prop := {
  rv_envelope : envelope_valid (BinaryRequest.envelope r);
  rv_expression : Forall is_byte (BinaryRequest.expression r);
  rv_assertions : Forall is_u32 (BinaryRequest.assertion_roots r);
  rv_named : Forall ref_valid (BinaryRequest.named_assertion_refs r);
  rv_assumptions : Forall is_u32 (BinaryRequest.assumption_roots r);
}.

(** The counts of the envelope are the lengths of the parts. *)
Record counts_ok (r : BinaryRequest.t) : Prop := {
  co_expr : RequestEnvelope.expr_len (BinaryRequest.envelope r) = zlen (BinaryRequest.expression r);
  co_assertions : RequestEnvelope.assertion_count (BinaryRequest.envelope r) = zlen (BinaryRequest.assertion_roots r);
  co_named : RequestEnvelope.named_count (BinaryRequest.envelope r) = zlen (BinaryRequest.named_assertion_refs r);
  co_assumptions : RequestEnvelope.assumption_count (BinaryRequest.envelope r) = zlen (BinaryRequest.assumption_roots r);
  co_le : zlen (BinaryRequest.named_assertion_refs r) <= zlen (BinaryRequest.assertion_roots r);
  co_flags : validate_command_flags (RequestEnvelope.command (BinaryRequest.envelope r))
    (RequestEnvelope.flags (BinaryRequest.envelope r)) = Ok tt;
}.

Definition request_bytes (r : BinaryRequest.t) : list Z :=
  envelope_bytes (BinaryRequest.envelope r) ++ BinaryRequest.expression r ++
  flat_map (to_le_bytes 4) (BinaryRequest.assertion_roots r) ++
  flat_map ref_bytes (BinaryRequest.named_assertion_refs r) ++
  flat_map (to_le_bytes 4) (BinaryRequest.assumption_roots r).

Lemma validate_counts r u : BinaryRequest.validate r = Ok u -> counts_ok r.
Proof.
  unfold BinaryRequest.validate. cbv zeta.
  destruct (Z.eqb_spec (RequestEnvelope.expr_len (BinaryRequest.envelope r)) (zlen (BinaryRequest.expression r))); [|done].
  destruct (Z.eqb_spec (RequestEnvelope.assertion_count (BinaryRequest.envelope r)) (zlen (BinaryRequest.assertion_roots r))); [|done].
  destruct (Z.eqb_spec (RequestEnvelope.named_count (BinaryRequest.envelope r)) (zlen (BinaryRequest.named_assertion_refs r))); [|done].
  destruct (Z.eqb_spec (RequestEnvelope.assumption_count (BinaryRequest.envelope r)) (zlen (BinaryRequest.assumption_roots r))); [|done].
  cbn [negb refuse_if mbind res_bind].
  destruct (Z.ltb_spec (zlen (BinaryRequest.assertion_roots r)) (zlen (BinaryRequest.named_assertion_refs r))); [done|].
  cbn [refuse_if mbind res_bind].
  intros (v & _ & (u1 & _ & (u2 & _ & (u3 & _ & (u4 & _ & ([] & H' & _)%bind_ok)%bind_ok)%bind_ok)%bind_ok)%bind_ok)%bind_ok.
  by split.
Qed.

Lemma zlen_refs l : zlen (flat_map ref_bytes l) = 8 * zlen l.
Proof.
  induction l as [|r l IH]; [done|]. simpl. rewrite zlen_app, IH, zlen_cons. unfold ref_bytes.
  rewrite zlen_app, !zlen_le_bytes. lia.
Qed.

Lemma zlen_request r : zlen (request_bytes r) =
  32 + zlen (BinaryRequest.expression r) + zlen (BinaryRequest.assertion_roots r) * 4 +
  zlen (BinaryRequest.named_assertion_refs r) * 8 + zlen (BinaryRequest.assumption_roots r) * 4.
Proof. unfold request_bytes. rewrite !zlen_app, zlen_envelope, zlen_refs, !zlen_many_u32. lia. Qed.

Lemma encoded_len_ok e : envelope_valid e -> RequestEnvelope.encoded_len e = Ok
  (32 + RequestEnvelope.expr_len e + RequestEnvelope.assertion_count e * 4 + RequestEnvelope.named_count e * 8 +
   RequestEnvelope.assumption_count e * 4).
Proof.
  intros (_ & _ & _ & H1 & H2 & H3 & H4 & _). unfold is_u32, is_u16 in *.
  unfold RequestEnvelope.encoded_len, request_len, checked_add, checked_mul, REQUEST_ENVELOPE_LEN, usize_max.
  repeat (rewrite (proj2 (Z.leb_le _ _)) by lia; cbn [mbind res_bind]). done.
Qed.

Lemma encode_request_ok r bytes : request_valid r -> BinaryRequest.encode r = Ok bytes <->
  BinaryRequest.validate r = Ok tt /\ Z.ldiff (RequestEnvelope.flags (BinaryRequest.envelope r)) RequestFlags.ALL = 0 /\
  bytes = request_bytes r.
Proof.
  intros Hv. unfold BinaryRequest.encode. rewrite (encoded_len_ok _ (rv_envelope _ Hv)).
  rewrite bind_ok. cbn [mbind res_bind]. setoid_rewrite bind_ok. setoid_rewrite encode_envelope_ok.
  assert (forall out, foldl write_u32 (foldl write_blob_ref (foldl write_u32 (out ++ BinaryRequest.expression r)
    (BinaryRequest.assertion_roots r)) (BinaryRequest.named_assertion_refs r)) (BinaryRequest.assumption_roots r) =
    out ++ BinaryRequest.expression r ++ flat_map (to_le_bytes 4) (BinaryRequest.assertion_roots r) ++
    flat_map ref_bytes (BinaryRequest.named_assertion_refs r) ++
    flat_map (to_le_bytes 4) (BinaryRequest.assumption_roots r)) as Hfold.
  { intros out. rewrite (foldl_appends write_u32 (to_le_bytes 4)) by done.
    rewrite (foldl_appends write_blob_ref ref_bytes) by (intros; unfold write_blob_ref, write_u32, ref_bytes; by rewrite <- app_assoc).
    rewrite (foldl_appends write_u32 (to_le_bytes 4)) by done. by rewrite <- !app_assoc. }
  setoid_rewrite Hfold. unfold request_bytes. split.
  - intros ([] & E & out & [Hf ->] & [= <-]). done.
  - intros (E & Hf & ->). exists tt. split; [done|]. by eexists.
Qed.

Lemma request_slice r : request_valid r -> counts_ok r -> slice_ok (request_bytes r).
Proof.
  intros [(H1 & H2 & H3 & H4 & H5 & H6 & H7 & H8) He Ha Hn Hs] [C1 C2 C3 C4 _ _]. split.
  - unfold request_bytes, envelope_bytes. rewrite !Forall_app. split_and!; try done; try apply to_le_bytes_shape.
    + by repeat constructor.
    + by apply (many_bytes is_u32 (to_le_bytes 4) (next_u32 "")).
    + by apply (many_bytes ref_valid ref_bytes next_blob_ref).
    + by apply (many_bytes is_u32 (to_le_bytes 4) (next_u32 "")).
  - rewrite zlen_request. unfold is_u32, is_u16 in *. lia.
Qed.

Lemma to_nat_zlen {A} (l : list A) : Z.to_nat (zlen l) = length l.
Proof. unfold zlen. apply Nat2Z.id. Qed.

Lemma parse_request r : request_valid r -> counts_ok r ->
  Z.ldiff (RequestEnvelope.flags (BinaryRequest.envelope r)) RequestFlags.ALL = 0 ->
  BinaryRequest.validate r = Ok tt -> BinaryRequest.parse (request_bytes r) = Ok r.
Proof.
  intros Hv Hc Hf Hval. pose proof (request_slice _ Hv Hc) as Hs. destruct Hv as [He Hx Ha Hn Hm].
  pose proof Hc as [C1 C2 C3 C4 C5 C6]. unfold BinaryRequest.parse.
  rewrite (envelope_parses _ (BinaryRequest.envelope r) _ Hs He (conj Hf C6) eq_refl). cbn [mbind res_bind].
  rewrite refuse_no by (apply Z.ltb_ge; lia). cbn [mbind res_bind].
  rewrite encoded_len_ok by done. cbn [mbind res_bind]. rewrite C1, C2, C3, C4, <- zlen_request.
  rewrite refuse_no by (by rewrite Z.eqb_refl). cbn [mbind res_bind].
  pose proof (rest_start (request_bytes r)) as R. unfold request_bytes at 2 in R.
  apply (rest_next_at _ _ _ _ 32) in R; [|by rewrite zlen_envelope]. pose proof (zlen_request r) as Hl.
  set (bytes := request_bytes r) in *. clearbody bytes.
  unfold REQUEST_ENVELOPE_LEN. rewrite (index_range_at _ _ _ _ (32 + zlen (BinaryRequest.expression r)) R) by done. cbn [mbind res_bind].
  apply rest_next in R. rewrite !to_nat_zlen.
  rewrite (many_decodes is_u32 (to_le_bytes 4) (next_u32 "assertion root") _ _ _ _ Hs Ha R). cbn [mbind res_bind].
  apply rest_next in R.
  rewrite (many_decodes ref_valid ref_bytes next_blob_ref _ _ _ _ Hs Hn R). cbn [mbind res_bind].
  apply rest_next in R. rewrite <- (app_nil_r (flat_map _ (BinaryRequest.assumption_roots r))) in R.
  rewrite (many_decodes is_u32 (to_le_bytes 4) (next_u32 "assumption root") _ _ _ _ Hs Hm R). cbn [mbind res_bind].
  apply rest_next in R. apply (proj1 (rest_end _ _)) in R. rewrite R, Z.eqb_refl. cbn [mbind res_bind].
  destruct r as [e x a n s]. simpl in *. by rewrite Hval.
Qed.

Lemma parse_request_inv bytes r : slice_ok bytes -> BinaryRequest.parse bytes = Ok r ->
  request_valid r /\ BinaryRequest.validate r = Ok tt /\
  Z.ldiff (RequestEnvelope.flags (BinaryRequest.envelope r)) RequestFlags.ALL = 0 /\ bytes = request_bytes r.
Proof.
  intros Hs. unfold BinaryRequest.parse.
  destruct (RequestEnvelope.parse bytes) as [e|x|] eqn:Ee; [|done..]. cbn [mbind res_bind]. unrefuse.
  destruct (envelope_inv _ _ Hs Ee) as (He & [Hf _] & rest & E). rewrite encoded_len_ok by done. cbn [mbind res_bind]. unrefuse.
  destruct (index_range bytes REQUEST_ENVELOPE_LEN _) as [x|y|] eqn:Ex; [|done..]. cbn [mbind res_bind].
  destruct (index_range_inv bytes REQUEST_ENVELOPE_LEN _ _ ltac:(done) Ex) as (Hx & r1 & R1).
  pose proof (rest_next _ _ _ _ R1) as R1'. rewrite <- Hx in R1'.
  assert (forall off rest, rest_at bytes off rest -> 0 <= off <= zlen bytes) as Hbound.
  { intros off k (H1 & H2 & _). pose proof (zlen_nonneg k). lia. }
  destruct (decode_many (next_u32 "assertion root") _ _ _) as [[a o1]|y|] eqn:Ea; [|done..]. cbn [mbind res_bind].
  destruct (many_encodes is_u32 (to_le_bytes 4) _ _ _ _ _ _ Hs (Hbound _ _ R1') Ea) as (_ & Ha & -> & r2 & R2).
  pose proof (rest_next _ _ _ _ R2) as R2'.
  destruct (decode_many next_blob_ref _ _ _) as [[n o2]|y|] eqn:En; [|done..]. cbn [mbind res_bind].
  destruct (many_encodes ref_valid ref_bytes _ _ _ _ _ _ Hs (Hbound _ _ R2') En) as (_ & Hn & -> & r3 & R3).
  pose proof (rest_next _ _ _ _ R3) as R3'.
  destruct (decode_many (next_u32 "assumption root") _ _ _) as [[m o3]|y|] eqn:Em; [|done..]. cbn [mbind res_bind].
  destruct (many_encodes is_u32 (to_le_bytes 4) _ _ _ _ _ _ Hs (Hbound _ _ R3') Em) as (_ & Hm & -> & r4 & R4).
  match goal with |- context [if ?b then Ok tt else Panic] => destruct b eqn:Eo; [|done] end.
  cbn [mbind res_bind]. destruct (BinaryRequest.validate _) as [[]|y|] eqn:Ev; [|done..]. intros [= <-].
  apply Z.eqb_eq in Eo. apply negb_false_iff, Z.eqb_eq in Eb0. pose proof (rest_next _ _ _ _ R4) as R4'.
  assert (r4 = []) as ->.
  { apply (rest_unique _ _ _ _ R4'). apply rest_end. lia. }
  rewrite app_nil_r in R4. split.
  { split; try done. apply (slice_ok_app x r1), (rest_bytes bytes REQUEST_ENVELOPE_LEN); done. }
  split; [done|]. split; [done|].
  assert (rest_at bytes 0 (envelope_bytes e ++ rest)) as R0 by (rewrite <- E; apply rest_start).
  unfold request_bytes. apply rest_whole. cbn [BinaryRequest.envelope BinaryRequest.expression
    BinaryRequest.assertion_roots BinaryRequest.named_assertion_refs BinaryRequest.assumption_roots].
  apply (rest_join _ _ _ _ _ _ R3) in R4; [|done]. apply (rest_join _ _ _ _ _ _ R2) in R4; [|done].
  apply (rest_join _ _ _ _ _ _ R1) in R4; [|done].
  apply (rest_join _ _ _ _ _ _ R0) in R4; [exact R4|by rewrite zlen_envelope].
Qed.

(** ** Nothing panics *)

Lemma total_check_each {A} (f : A -> wres unit) l : (forall x, total (f x)) -> total (check_each f l).
Proof. intros Hf. induction l as [|x l IH]; simpl; [done|]. apply total_bind; auto. Qed.

Lemma total_node v i : total (ExprView.node v i).
Proof. unfold ExprView.node. pose proof node_decode_total. totals. Qed.

Lemma total_node_ref v r s c : total (validate_node_ref v r s c).
Proof. unfold validate_node_ref. pose proof total_node. totals. Qed.

Lemma total_blob_str v r c : total (ExprView.blob_str v r c).
Proof. unfold ExprView.blob_str, ExprView.blob_ref. totals. Qed.

#[export] Hint Resolve total_node total_node_ref total_blob_str : total.

Lemma total_distinct v names l : total (BinaryRequest.distinct_names v names l).
Proof. revert names. induction l as [|r l IH]; intros names; simpl; totals. Qed.

Lemma validate_request_total r : slice_ok (BinaryRequest.expression r) -> total (BinaryRequest.validate r).
Proof.
  intros Hs. unfold BinaryRequest.validate. cbv zeta. pose proof (total_parse_validate _ Hs). pose proof total_distinct.
  unfold BinaryRequest.check_root, validate_command_flags. totals; apply total_check_each; intros x; totals.
Qed.

Lemma parse_request_total bytes : slice_ok bytes -> total (BinaryRequest.parse bytes).
Proof.
  intros Hs. unfold BinaryRequest.parse. apply total_bind; [apply envelope_total|]. intros e Ee.
  destruct (envelope_inv _ _ Hs Ee) as (He & _ & rest & E). pose proof He as (_ & _ & _ & H1 & H2 & H3 & H4 & _).
  unfold is_u32, is_u16 in *.
  apply total_bind; [totals|]. intros _ _. rewrite encoded_len_ok by done. cbn [mbind res_bind].
  apply total_bind; [totals|]. intros u Hl. apply refuse_ok, negb_false_iff, Z.eqb_eq in Hl.
  unfold REQUEST_ENVELOPE_LEN. apply total_bind; [apply index_range_total; lia|]. intros x Hx.
  destruct (index_range_inv bytes 32 _ _ ltac:(done) Hx) as (Hxl & r1 & R1).
  pose proof (rest_next _ _ _ _ R1) as R1'. rewrite <- Hxl in R1'.
  apply total_bind; [eapply (many_total is_u32 (to_le_bytes 4)); [apply _|done|lia]|]. intros [a o1] Ea.
  assert (forall off rest, rest_at bytes off rest -> 0 <= off <= zlen bytes) as Hbound.
  { intros off k (? & ? & _). pose proof (zlen_nonneg k). lia. }
  destruct (many_encodes is_u32 (to_le_bytes 4) _ _ _ _ _ _ Hs (Hbound _ _ R1') Ea) as (La & _ & -> & r2 & R2).
  pose proof (rest_next _ _ _ _ R2) as R2'. pose proof (Hbound _ _ R2').
  apply total_bind; [eapply (many_total ref_valid ref_bytes); [apply _|done|lia]|]. intros [n o2] En.
  destruct (many_encodes ref_valid ref_bytes _ _ _ _ _ _ Hs (Hbound _ _ R2') En) as (Ln & _ & -> & r3 & R3).
  pose proof (rest_next _ _ _ _ R3) as R3'. pose proof (Hbound _ _ R3').
  apply total_bind; [eapply (many_total is_u32 (to_le_bytes 4)); [apply _|done|lia]|]. intros [m o3] Em.
  destruct (many_encodes is_u32 (to_le_bytes 4) _ _ _ _ _ _ Hs (Hbound _ _ R3') Em) as (Lm & _ & -> & _).
  rewrite (proj2 (Z.eqb_eq _ _)).
  2:{ rewrite zlen_refs, !zlen_many_u32. unfold zlen in *. lia. }
  cbn [mbind res_bind]. apply total_bind; [|done]. apply validate_request_total.
  apply (slice_ok_app x r1), (rest_bytes bytes 32); done.
Qed.

(** ** What a validated request refers to *)

(** The reference is to a node of the DAG, of this sort. *)
Definition refers (meta : list NodeInfo) (s : Sort) (r : NodeRef) : Prop :=
  NodeRef.sort r = s /\ exists info, meta !! Z.to_nat (NodeRef.index r) = Some info /\ info_sort info = s.

Record request_ok (r : BinaryRequest.t) (v : ExprView) (nodes : list RawNode) (kids blob : list Z)
    (meta : list NodeInfo) : Prop := {
  ro_view : parse_and_validate (BinaryRequest.expression r) = Ok v;
  ro_reads : view_of v nodes kids blob;
  ro_dag : dag_ok nodes kids blob meta;
  ro_counts : counts_ok r;
  ro_assertions : Forall (refers meta Bool) (BinaryRequest.assertion_roots r);
  ro_assumptions : Forall (refers meta Bool) (BinaryRequest.assumption_roots r);
  ro_names : Forall (fun n => is_Some (blob_name blob n)) (BinaryRequest.named_assertion_refs r);
  ro_target : match RequestEnvelope.command (BinaryRequest.envelope r) with
    | CmdMinimize | CmdMaximize => refers meta Bv (RequestEnvelope.target_node (BinaryRequest.envelope r))
    | CmdSimplify => BinaryRequest.assertion_roots r = [] /\ BinaryRequest.named_assertion_refs r = [] /\
        BinaryRequest.assumption_roots r = [] /\
        exists s, refers meta s (RequestEnvelope.target_node (BinaryRequest.envelope r))
    | CmdSolve => RequestEnvelope.target_node (BinaryRequest.envelope r) = 0
    end;
}.

Lemma check_each_ok {A} (f : A -> wres unit) l u : check_each f l = Ok u -> Forall (fun x => f x = Ok tt) l.
Proof.
  revert u. induction l as [|x l IH]; intros u; simpl; [constructor|].
  intros ([] & Hx & H)%bind_ok. constructor; [done|by eapply IH].
Qed.

Lemma node_ref_ok v nodes kids blob meta r s c n : view_of v nodes kids blob -> dag_ok nodes kids blob meta ->
  validate_node_ref v r s c = Ok n -> refers meta s r /\ nodes !! Z.to_nat (NodeRef.index r) = Some n.
Proof.
  intros Hv [Hm _ _ _ _]. unfold validate_node_ref. rewrite (view_node_count _ _ _ _ Hv).
  intros (u1 & H1 & (u2 & H2 & (m & H3 & (t & H4 & (u3 & H5 & [= ->])%bind_ok)%bind_ok)%bind_ok)%bind_ok)%bind_ok.
  apply refuse_ok, Z.leb_gt in H1. apply refuse_ok, negb_false_iff, bool_decide_eq_true in H2.
  apply refuse_ok, negb_false_iff, bool_decide_eq_true in H5. apply parse_tag_ok in H4.
  pose proof (NodeRef_index_nonneg r) as Hr.
  destruct (lookup_lt_is_Some_2 nodes (Z.to_nat (NodeRef.index r))) as [n' Hn]; [unfold zlen in H1; lia|].
  pose proof (view_node _ _ _ _ Hv _ _ Hn) as H6. rewrite Z2Nat.id in H6 by done. rewrite H6 in H3. injection H3 as ->.
  split; [|done]. split; [done|]. apply mapM_Some in Hm.
  destruct (Forall2_lookup_l _ _ _ _ _ Hm Hn) as (info & Hi & Hf). exists info. split; [done|].
  unfold info_of in Hf. rewrite H4 in Hf. cbn in Hf. injection Hf as <-. simpl. congruence.
Qed.

Lemma zlen_0_nil {A} (l : list A) : zlen l = 0 -> l = [].
Proof. destruct l; [done|]. rewrite zlen_cons. pose proof (zlen_nonneg l). lia. Qed.

Lemma validate_request_ok r u : request_valid r -> BinaryRequest.validate r = Ok u ->
  exists v nodes kids blob meta, request_ok r v nodes kids blob meta.
Proof.
  intros Hr E. pose proof (validate_counts _ _ E) as Hc. destruct u.
  assert (slice_ok (BinaryRequest.expression r)) as Hs.
  { split; [apply Hr|]. rewrite <- (co_expr _ Hc). destruct (rv_envelope _ Hr) as (_ & _ & _ & H & _). unfold is_u32 in H. lia. }
  unfold BinaryRequest.validate in E. cbv zeta in E.
  do 5 (apply bind_ok in E as (? & _ & E)). apply bind_ok in E as (v & Ev & E).
  destruct (validated_dag _ v Hs Ev) as (nodes & kids & blob & meta & Hv & Hd).
  apply bind_ok in E as (? & Ha & E). apply bind_ok in E as (? & Hm & E). apply bind_ok in E as (? & Hn & E).
  apply bind_ok in E as (? & _ & E). apply bind_ok in E as (? & _ & E).
  exists v, nodes, kids, blob, meta.
  assert (forall c l, Forall (fun x => BinaryRequest.check_root v c x = Ok tt) l -> Forall (refers meta Bool) l) as Hroots.
  { intros c l H. eapply Forall_impl; [exact H|]. intros y (n & Hx & _)%bind_ok. by eapply node_ref_ok. }
  split; [done|done|done|done| | | |].
  - by eapply Hroots, check_each_ok.
  - by eapply Hroots, check_each_ok.
  - pose proof (rv_named _ Hr) as Hvn. apply check_each_ok in Hn. apply Forall_forall. intros y Hx.
    rewrite Forall_forall in Hn, Hvn. destruct (proj1 (bind_ok _ _ _) (Hn y Hx)) as (s & Hs' & _).
    apply (blob_str_ok v nodes kids blob Hv) in Hs'; [by exists s|by apply Hvn].
  - destruct (RequestEnvelope.command (BinaryRequest.envelope r)).
    + by apply refuse_ok, negb_false_iff, Z.eqb_eq in E.
    + apply bind_ok in E as (? & H & E). apply refuse_ok, negb_false_iff in H.
      rewrite !andb_true_iff, !Z.eqb_eq in H. destruct H as [[H1 H2] H3].
      split_and!; [by apply zlen_0_nil..|]. apply bind_ok in E as (n & E & _).
      eexists. by eapply node_ref_ok.
    + apply bind_ok in E as (n & E & _). by eapply node_ref_ok.
    + apply bind_ok in E as (n & E & _). by eapply node_ref_ok.
Qed.

(** ** Validation accepts what is well formed *)

Lemma check_each_all {A} (f : A -> wres unit) l : Forall (fun x => f x = Ok tt) l -> check_each f l = Ok tt.
Proof. induction 1 as [|x l Hx _ IH]; simpl; [done|]. by rewrite Hx. Qed.

Lemma refers_accepted v nodes kids blob meta r s c : view_of v nodes kids blob -> dag_ok nodes kids blob meta ->
  refers meta s r -> exists n, validate_node_ref v r s c = Ok n.
Proof.
  intros Hv Hd (Hs & info & Hi & Es). apply dag_meta in Hd. apply mapM_Some in Hd.
  destruct (Forall2_lookup_r _ _ _ _ _ Hd Hi) as (n & Hn & Hf). exists n. unfold validate_node_ref.
  pose proof (NodeRef_index_nonneg r) as Hr. pose proof (lookup_lt_Some _ _ _ Hn) as Hlt.
  rewrite (view_node_count _ _ _ _ Hv), (proj2 (Z.leb_gt _ _)) by (unfold zlen; lia). cbn [refuse_if mbind res_bind].
  rewrite bool_decide_true by done. cbn [negb refuse_if mbind res_bind]. cbn [mbind res_bind].
  pose proof (view_node _ _ _ _ Hv _ _ Hn) as En. rewrite Z2Nat.id in En by done. rewrite En. cbn [mbind res_bind].
  unfold info_of in Hf. apply bind_Some in Hf as (t & Et & [= <-]). rewrite (proj2 (parse_tag_ok _ _) Et). cbn [mbind res_bind].
  simpl in Es. by rewrite bool_decide_true by congruence.
Qed.

(** The names a list of references spells. *)
Definition spelled_names (blob : list Z) (l : list BlobRef) : list string := omap (blob_name blob) l.

Lemma distinct_names_ok v nodes kids blob l seen : view_of v nodes kids blob -> Forall ref_valid l ->
  Forall (fun n => is_Some (blob_name blob n)) l ->
  BinaryRequest.distinct_names v seen l = Ok tt <-> NoDup (spelled_names blob l) /\ forall x, x ∈ spelled_names blob l -> x ∉ seen.
Proof.
  intros Hv Hl. revert seen. induction Hl as [|r l Hr _ IH]; intros seen Hs; cbn [BinaryRequest.distinct_names].
  - split; [|done]. intros _. split; [constructor|]. by intros x ?%elem_of_nil.
  - apply Forall_cons in Hs as [[s Es] Hs]. rewrite (proj2 (blob_str_ok v nodes kids blob Hv r _ s Hr) Es). cbn [mbind res_bind].
    unfold spelled_names in *. cbn [omap list_omap]. rewrite Es, NoDup_cons. setoid_rewrite elem_of_cons. rewrite bind_ok.
    setoid_rewrite refuse_ok. setoid_rewrite bool_decide_eq_false. setoid_rewrite (IH _ Hs). split.
    + intros (_ & Hns & Hnd & Hd). split_and!; [|done|].
      * intros Hin. specialize (Hd s Hin). set_solver.
      * intros x [->|Hx]; [done|]. specialize (Hd x Hx). set_solver.
    + intros ([Hns Hnd] & Hd). exists tt. split; [by apply Hd; left|]. split; [done|].
      intros x Hx. specialize (Hd x (or_intror Hx)). set_solver.
Qed.

(** Names are distinct when a core is wanted. *)
Definition core_named (r : BinaryRequest.t) (blob : list Z) : Prop :=
  has_flag (RequestEnvelope.flags (BinaryRequest.envelope r)) RequestFlags.WANT_CORE = true ->
  NoDup (spelled_names blob (BinaryRequest.named_assertion_refs r)).

Lemma well_formed_accepted r v nodes kids blob meta : request_valid r -> request_ok r v nodes kids blob meta ->
  core_named r blob -> BinaryRequest.validate r = Ok tt.
Proof.
  intros Hr [Ev Hv Hd [H1 H2 H3 H4 H5 H6] Ha Hm Hn Ht] Hc. unfold BinaryRequest.validate. cbv zeta.
  rewrite H1, H2, H3, H4, !Z.eqb_refl. cbn [negb refuse_if mbind res_bind].
  rewrite (proj2 (Z.ltb_ge _ _)) by done. cbn [refuse_if mbind res_bind]. rewrite Ev. cbn [mbind res_bind].
  assert (forall c l, Forall (refers meta Bool) l -> check_each (BinaryRequest.check_root v c) l = Ok tt) as Hroots.
  { intros c l H. apply check_each_all. eapply Forall_impl; [exact H|]. intros x Hx.
    destruct (refers_accepted v nodes kids blob meta x Bool c Hv Hd Hx) as [n E].
    unfold BinaryRequest.check_root. by rewrite E. }
  rewrite !Hroots by done. cbn [mbind res_bind]. rewrite check_each_all.
  2:{ pose proof (rv_named _ Hr) as Hval. rewrite Forall_forall in Hn, Hval |- *. intros x Hx. destruct (Hn x Hx) as [s E].
      by rewrite (proj2 (blob_str_ok v nodes kids blob Hv x _ s (Hval x Hx)) E). }
  cbn [mbind res_bind]. rewrite H6.
  assert ((if has_flag (RequestEnvelope.flags (BinaryRequest.envelope r)) RequestFlags.WANT_CORE
    then BinaryRequest.distinct_names v ∅ (BinaryRequest.named_assertion_refs r) else Ok tt) = Ok tt) as ->.
  { destruct (has_flag _ _) eqn:E; [|done]. apply (distinct_names_ok v nodes kids blob); [done|apply (rv_named _ Hr)|done|].
    split; [by apply Hc|set_solver]. }
  cbn [mbind res_bind]. destruct (RequestEnvelope.command _).
  - by rewrite Ht.
  - destruct Ht as (-> & -> & -> & s & Ht). pose proof (proj1 Ht) as Es. rewrite Es.
    destruct (refers_accepted v nodes kids blob meta _ s "target_node" Hv Hd Ht) as [n E]. cbn. by rewrite E.
  - destruct (refers_accepted v nodes kids blob meta _ Bv "target_node" Hv Hd Ht) as [n E]. by rewrite E.
  - destruct (refers_accepted v nodes kids blob meta _ Bv "target_node" Hv Hd Ht) as [n E]. by rewrite E.
Qed.

Lemma validated_names r v nodes kids blob meta : request_valid r -> request_ok r v nodes kids blob meta ->
  BinaryRequest.validate r = Ok tt -> core_named r blob.
Proof.
  intros Hr Hok E Hf. unfold BinaryRequest.validate in E. cbv zeta in E.
  do 5 (apply bind_ok in E as (? & _ & E)). rewrite (ro_view _ _ _ _ _ _ Hok) in E. cbn [mbind res_bind] in E.
  do 3 (apply bind_ok in E as (? & _ & E)). apply bind_ok in E as ([] & H & _). rewrite Hf in H.
  apply (distinct_names_ok v nodes kids blob _ _ (ro_reads _ _ _ _ _ _ Hok) (rv_named _ Hr) (ro_names _ _ _ _ _ _ Hok)) in H.
  apply H.
Qed.

(** ** Theorems *)

(** C18: requests are checked and round-trip.  [encode] accepts exactly the well-formed
    requests: those whose expression is a well-sorted DAG, whose counts are the lengths
    of their lists, whose assertions and assumptions are Bool nodes of the DAG, with no
    more names than assertions, each UTF-8 text of the blob and all distinct when a
    core is wanted, flags that suit the command, and a target that is a bit-vector node
    for an optimisation, a node for a simplification (which then has no roots) and
    absent for a solve.  What it wrote is parsed back to the request; a frame that
    [parse] accepts is, byte for byte, what [encode] writes for the request it returned,
    which is well formed; and [parse] returns on every frame, its slicing and its
    final offset assertion never panicking. *)
Theorem request_round_trip r frame : request_valid r -> slice_ok frame ->
  ((exists bytes, BinaryRequest.encode r = Ok bytes) <->
   Z.ldiff (RequestEnvelope.flags (BinaryRequest.envelope r)) RequestFlags.ALL = 0 /\
   exists v nodes kids blob meta, request_ok r v nodes kids blob meta /\ core_named r blob) /\
  (forall bytes, BinaryRequest.encode r = Ok bytes -> BinaryRequest.parse bytes = Ok r) /\
  (forall r', BinaryRequest.parse frame = Ok r' -> request_valid r' /\ BinaryRequest.encode r' = Ok frame /\
   exists v nodes kids blob meta, request_ok r' v nodes kids blob meta /\ core_named r' blob) /\
  total (BinaryRequest.parse frame).
Proof.
  intros Hr Hs.
  assert (forall r, request_valid r -> BinaryRequest.validate r = Ok tt ->
    exists v nodes kids blob meta, request_ok r v nodes kids blob meta /\ core_named r blob) as Hok.
  { intros r' Hr' Hv. destruct (validate_request_ok r' tt Hr' Hv) as (v & nodes & kids & blob & meta & H).
    exists v, nodes, kids, blob, meta. split; [done|by eapply validated_names]. }
  split_and!.
  - split.
    + intros (bytes & (Hv & Hf & _)%encode_request_ok); [|done]. split; [done|by apply Hok].
    + intros (Hf & v & nodes & kids & blob & meta & H & Hc). exists (request_bytes r). apply encode_request_ok; [done|].
      split; [by eapply well_formed_accepted|done].
  - intros bytes (Hv & Hf & ->)%encode_request_ok; [|done]. by apply parse_request; [|eapply validate_counts| |].
  - intros r' (Hr' & Hv & Hf & ->)%parse_request_inv; [|done].
    split; [done|]. split; [by apply encode_request_ok|by apply Hok].
  - by apply parse_request_total.
Qed.

(** ** Witnesses: solve [x = 5] with a model *)

Definition sample_request : BinaryRequest.t := BinaryRequest.mk
  (RequestEnvelope.mk 7 CmdSolve 1 0 (zlen sample_expression) 1 0 0 0) sample_expression [2147483650] [] [].

Definition sample_frame : list Z := match BinaryRequest.encode sample_request with Ok b => b | _ => [] end.

Lemma sample_request_valid : request_valid sample_request.
Proof. split; [by vm_compute|apply sample_slice|by repeat constructor..]. Qed.

Lemma sample_encoded : BinaryRequest.encode sample_request = Ok sample_frame.
Proof. vm_compute. reflexivity. Qed.

Lemma sample_frame_slice : slice_ok sample_frame.
Proof.
  pose proof sample_encoded as (Hv & _ & ->)%encode_request_ok; [|apply sample_request_valid].
  apply request_slice; [apply sample_request_valid|by eapply validate_counts].
Qed.

Lemma request_round_trip_witness : BinaryRequest.parse sample_frame = Ok sample_request /\
  exists v nodes kids blob meta, request_ok sample_request v nodes kids blob meta.
Proof.
  destruct (request_round_trip sample_request sample_frame sample_request_valid sample_frame_slice) as (_ & H & H' & _).
  pose proof (H sample_frame sample_encoded) as E. split; [exact E|].
  destruct (H' sample_request E) as (_ & _ & v & nodes & kids & blob & meta & Hok & _). by exists v, nodes, kids, blob, meta.
Defined.
