(* ===== verification/WireResponse.v ===== *)
(** * Responses ([smt-wire]: [response.rs])

    The response frame: an envelope and the block its status and flags announce. *)
From S2P Require Import Prelude Bytes BytesFacts Evaluator WireBase WireExpr WireRequest.

#[local] Open Scope Z_scope.

Definition validate_response_flags (flags : Z) : wres unit :=
  refuse_if (negb (Z.ldiff flags ResponseFlags.ALL =? 0)) (InvalidValue "response flags").

Definition ensure_unused_high_bits_zero (width : Z) (bytes : list Z) (context : string) : wres unit :=
  let valid_bits := width mod 8 in
  if (valid_bits =? 0) || (zlen bytes =? 0) then Ok tt
  else
    let mask := Z.shiftl 1 valid_bits - 1 in
    match bytes !! Z.to_nat (zlen bytes - 1) with
    | None => Panic
    | Some last => refuse_if (negb (Z.ldiff last mask =? 0)) (InvalidValue context)
    end.

(** ** Scalars *)

Module WireScalar.
(** [ScalarValue] *)
Record t := mk { width : Z; bytes : list Z }.

#[global] Instance scalar_eq_dec : EqDecision t.
Proof. solve_decision. Defined.

Definition validate (self : t) : wres unit :=
  if width self =? 0 then
    match bytes self with
    | [b] => refuse_if (negb ((b =? 0) || (b =? 1))) (InvalidValue "Bool scalar value")
    | _ => Err (InvalidValue "Bool scalar value")
    end
  else
    expected ← wire_bytes_for_width (width self);
    refuse_if (negb (zlen (bytes self) =? expected)) (InvalidValue "BV scalar value") ;;
    ensure_unused_high_bits_zero (width self) (bytes self) "BV scalar value".

Definition bool (value : Datatypes.bool) : t := mk 0 [Z.b2z value].

Definition bv (width : Z) (bytes : list Z) : wres t :=
  expected ← wire_bytes_for_width width;
  refuse_if (negb (zlen bytes =? expected)) (InvalidValue "scalar BV value") ;;
  ensure_unused_high_bits_zero width bytes "scalar BV value" ;;
  Ok (mk width bytes).

(** [self.bytes[0]] *)
Definition first_byte (self : t) : wres Z := match bytes self with b :: _ => Ok b | [] => Panic end.

Definition as_bool (self : t) : wres Datatypes.bool :=
  validate self ;;
  refuse_if (negb (width self =? 0)) (InvalidValue "scalar value") ;;
  b ← first_byte self;
  Ok (negb (b =? 0)).

Definition as_u128 (self : t) : wres Z :=
  validate self ;;
  if width self =? 0 then b ← first_byte self; Ok (Z.b2z (negb (b =? 0)))
  else
    refuse_if (16 <? zlen (bytes self)) (InvalidValue "scalar value") ;;
    Ok (bval (bytes self ++ replicate (16 - length (bytes self)) 0)).

Definition encode (self : t) (dst : list Z) : wres (list Z) :=
  validate self ;;
  let dst := write_u32 dst (width self) in
  len ← try_u32 (zlen (bytes self)) "scalar value";
  Ok (write_u32 dst len ++ bytes self).

Definition decode (src : list Z) (offset : Z) : wres (t * Z) :=
  width ← read_u32 src offset "scalar width";
  value_len ← read_u32 src (offset + 4) "scalar value_len";
  offset ← checked_add offset 8 "scalar offset";
  value ← exact_slice src offset value_len "scalar value bytes";
  offset ← checked_add offset value_len "scalar offset";
  let scalar := mk width value in
  validate scalar ;;
  Ok (scalar, offset).
End WireScalar.

(** ** Models *)

Record WireModelEntry := mkWireModelEntry { node_ref : NodeRef; entry_value : WireScalar.t }.

Module ModelBlock.
(** [ModelBlock] is its [entries]. *)
Definition t : Type := list WireModelEntry.

Definition encode_entry (out : list Z) (entry : WireModelEntry) : wres (list Z) :=
  WireScalar.encode (entry_value entry) (write_u32 out (node_ref entry)).

Fixpoint encode_entries (out : list Z) (entries : list WireModelEntry) : wres (list Z) :=
  match entries with
  | [] => Ok out
  | entry :: entries => out ← encode_entry out entry; encode_entries out entries
  end.

Definition encode (self : t) : wres (list Z) :=
  count ← try_u32 (zlen self) "model block";
  encode_entries (write_u32 [] count) self.

Definition decode_entry (bytes : list Z) (offset : Z) : wres (WireModelEntry * Z) :=
  node_ref ← read_u32 bytes offset "model node_ref";
  offset ← checked_add offset 4 "model offset";
  '(value, offset) ← WireScalar.decode bytes offset;
  Ok (mkWireModelEntry node_ref value, offset).

Definition decode_from (bytes : list Z) (offset : Z) : wres (t * Z) :=
  entry_count ← read_u32 bytes offset "model entry_count";
  offset ← checked_add offset 4 "model offset";
  refuse_if (zlen bytes <? offset) (InvalidValue "model block") ;;
  let remaining := zlen bytes - offset in
  refuse_if (remaining / 12 <? entry_count) (InvalidValue "model block") ;;
  decode_many decode_entry (Z.to_nat entry_count) bytes offset.

Definition decode (payload : list Z) : wres t :=
  '(block, offset) ← decode_from payload 0;
  refuse_if (negb (offset =? zlen payload)) (LengthMismatch "model block" offset (zlen payload)) ;;
  Ok block.

(** The entries' nodes are distinct variables of the entry's sort and width, and
    entries of one symbol agree. *)
Fixpoint validate_entries (expr : ExprView) (seen : gset Z) (symbol_values : gmap (string * (bool * Z)) WireScalar.t)
    (entries : list WireModelEntry) : wres unit :=
  match entries with
  | [] => Ok tt
  | entry :: entries =>
      let r := node_ref entry in
      refuse_if (bool_decide (r ∈ seen)) (InvalidValue "model node_ref") ;;
      let expected_sort := if NodeRef.is_bool r then Bool else Bv in
      node ← validate_node_ref expr r expected_sort "model node_ref";
      refuse_if (negb (is_variable_node node)) (InvalidValue "model node_ref") ;;
      '(symbol_sort, symbol_width, context) ←
        match NodeRef.sort r with
        | Bool =>
            refuse_if (negb (WireScalar.width (entry_value entry) =? 0)) (InvalidValue "model value") ;;
            Ok (true, 0, "Bool variable")
        | Bv =>
            refuse_if (negb (WireScalar.width (entry_value entry) =? node_width node)) (InvalidValue "model value") ;;
            Ok (false, node_width node, "BV variable")
        end;
      name ← ExprView.blob_str expr (RawNode.blob_ref node) context;
      let key := (name, (symbol_sort, symbol_width)) in
      match symbol_values !! key with
      | Some existing =>
          refuse_if (negb (bool_decide (existing = entry_value entry))) (InvalidValue "model value")
      | None => Ok tt
      end ;;
      validate_entries expr ({[r]} ∪ seen) (<[key := entry_value entry]> symbol_values) entries
  end.

Definition validate_against_expr (self : t) (expr : ExprView) : wres unit := validate_entries expr ∅ ∅ self.
End ModelBlock.

(** ** Unsat cores *)

Module UnsatCoreBlock.
(** [UnsatCoreBlock] is its [names]. *)
Definition t : Type := list string.

Fixpoint encode_names (out : list Z) (names : list string) : wres (list Z) :=
  match names with
  | [] => Ok out
  | name :: names =>
      len ← try_u32 (zlen (as_bytes name)) "unsat core block";
      encode_names (write_u32 out len ++ as_bytes name) names
  end.

Definition encode (self : t) : wres (list Z) :=
  count ← try_u32 (zlen self) "unsat core block";
  encode_names (write_u32 [] count) self.

Definition decode_name (payload : list Z) (offset : Z) : wres (string * Z) :=
  len ← read_u32 payload offset "unsat core name_len";
  let offset := offset + 4 in
  bytes ← exact_slice payload offset len "unsat core name";
  match from_utf8 bytes with
  | Some name => Ok (name, offset + len)
  | None => Err (InvalidValue "unsat core block")
  end.

Definition decode (payload : list Z) : wres t :=
  name_count ← read_u32 payload 0 "unsat core name_count";
  let offset := 4 in
  refuse_if (zlen payload <? offset) (InvalidValue "unsat core block") ;;
  let remaining := zlen payload - offset in
  refuse_if (remaining / 4 <? name_count) (InvalidValue "unsat core block") ;;
  '(names, offset) ← decode_many decode_name (Z.to_nat name_count) payload offset;
  refuse_if (negb (offset =? zlen payload)) (LengthMismatch "unsat core block" offset (zlen payload)) ;;
  Ok names.
End UnsatCoreBlock.

(** ** Simplified expressions *)

Module SimplifyBlock.
Record t := mk { expression : list Z; target_node : NodeRef }.

Definition validate (self : t) : wres unit :=
  expr ← parse_and_validate (expression self);
  validate_node_ref expr (target_node self) (NodeRef.sort (target_node self)) "simplify target_node" ;;
  Ok tt.

Definition encode (self : t) : wres (list Z) :=
  validate self ;;
  expr_len ← try_u32 (zlen (expression self)) "simplify block";
  let out := write_u32 [] expr_len in
  let out := write_u32 out (target_node self) in
  Ok (out ++ expression self).

Definition decode (payload : list Z) : wres t :=
  refuse_if (zlen payload <? 8) (UnexpectedEof "simplify block header" 8 (zlen payload)) ;;
  expr_len ← read_u32 payload 0 "simplify expr_len";
  target_node ← read_u32 payload 4 "simplify target_node";
  expected ← checked_add 8 expr_len "simplify block length";
  refuse_if (negb (zlen payload =? expected)) (LengthMismatch "simplify block" expected (zlen payload)) ;;
  expression ← index_range payload 8 (8 + expr_len);
  let block := mk expression target_node in
  validate block ;;
  Ok block.

Definition expression_buffer (self : t) : wres (list Z) := from_bytes (expression self).
End SimplifyBlock.

(** ** Optima *)

Module OptimizationValueBlock.
Record t := mk { optimum : WireScalar.t; model : option ModelBlock.t }.

Definition encode (self : t) : wres (list Z) :=
  out ← WireScalar.encode (optimum self) [];
  match model self with
  | Some model => block ← ModelBlock.encode model; Ok (out ++ block)
  | None => Ok out
  end.

Definition decode (payload : list Z) (has_model : bool) : wres t :=
  '(optimum, offset) ← WireScalar.decode payload 0;
  '(model, offset) ←
    (if has_model then '(model, offset) ← ModelBlock.decode_from payload offset; Ok (Some model, offset)
     else Ok (None, offset));
  refuse_if (negb (offset =? zlen payload)) (LengthMismatch "optimization value block" offset (zlen payload)) ;;
  Ok (mk optimum model).
End OptimizationValueBlock.

(** ** The envelope and the response *)

Module ResponseEnvelope.
Record t := mk { request_id : Z; status : Status; flags : Z; payload_len : Z }.

Definition encode (self : t) (dst : list Z) : wres (list Z) :=
  validate_response_flags (flags self) ;;
  let dst := dst ++ RESPONSE_MAGIC in
  let dst := write_u32 dst (request_id self) in
  let dst := write_u8 dst (Status.to_u8 (status self)) in
  let dst := write_u8 dst (flags self) in
  let dst := write_u32 dst (payload_len self) in
  Ok (write_u16 dst 0).

Definition parse (bytes : list Z) : wres t :=
  refuse_if (zlen bytes <? RESPONSE_ENVELOPE_LEN)
    (UnexpectedEof "response envelope" RESPONSE_ENVELOPE_LEN (zlen bytes)) ;;
  magic ← exact_slice bytes 0 4 "response magic";
  refuse_if (negb (bool_decide (magic = RESPONSE_MAGIC))) (BadMagic "response envelope" RESPONSE_MAGIC magic) ;;
  status_raw ← read_u8 bytes 8 "response status";
  status ← match Status.try_from status_raw with
           | Some s => Ok s | None => Err (InvalidValue "response status") end;
  flags ← read_u8 bytes 9 "response flags";
  validate_response_flags flags ;;
  reserved ← read_u16 bytes 14 "response reserved";
  refuse_if (negb (reserved =? 0)) (InvalidValue "response reserved") ;;
  request_id ← read_u32 bytes 4 "response request_id";
  payload_len ← read_u32 bytes 10 "response payload_len";
  Ok (mk request_id status flags payload_len).

Definition encoded_len (self : t) : wres Z :=
  checked_add RESPONSE_ENVELOPE_LEN (payload_len self) "response length".
End ResponseEnvelope.

Module BinaryResponse.
Record t := mk { envelope : ResponseEnvelope.t; payload : list Z }.

(** [core::str::from_utf8(payload)] *)
Definition check_utf8 (payload : list Z) (context : string) : wres unit :=
  refuse_if (negb (utf8_valid payload)) (InvalidValue context).

Definition validate (self : t) : wres unit :=
  let flags := ResponseEnvelope.flags (envelope self) in
  let payload := payload self in
  let no_payload (context : string) : wres unit := refuse_if (negb (zlen payload =? 0)) (InvalidValue context) in
  refuse_if (negb (ResponseEnvelope.payload_len (envelope self) =? zlen payload))
    (LengthMismatch "response payload length" (ResponseEnvelope.payload_len (envelope self)) (zlen payload)) ;;
  match ResponseEnvelope.status (envelope self) with
  | StError =>
      refuse_if (negb (flags =? ResponseFlags.HAS_MESSAGE)) (InvalidValue "error response") ;;
      check_utf8 payload "error response"
  | StUnknown =>
      if flags =? 0 then no_payload "unknown response"
      else if flags =? ResponseFlags.HAS_MESSAGE then check_utf8 payload "unknown response"
      else Err (InvalidValue "unknown response")
  | StSat =>
      let allowed := Z.lor ResponseFlags.HAS_MODEL ResponseFlags.HAS_VALUE in
      refuse_if (negb (Z.ldiff flags allowed =? 0)) (InvalidValue "sat response") ;;
      match has_flag flags ResponseFlags.HAS_VALUE, has_flag flags ResponseFlags.HAS_MODEL with
      | false, false => no_payload "sat response"
      | false, true => ModelBlock.decode payload ;; Ok tt
      | true, has_model => OptimizationValueBlock.decode payload has_model ;; Ok tt
      end
  | StUnsat =>
      if flags =? 0 then no_payload "unsat response"
      else if flags =? ResponseFlags.HAS_CORE then UnsatCoreBlock.decode payload ;; Ok tt
      else Err (InvalidValue "unsat response")
  | StSimplified =>
      refuse_if (negb (flags =? ResponseFlags.HAS_EXPR)) (InvalidValue "simplified response") ;;
      SimplifyBlock.decode payload ;;
      Ok tt
  end.

Definition new (request_id : Z) (status : Status) (flags : Z) (payload : list Z) : wres t :=
  validate_response_flags flags ;;
  payload_len ← try_u32 (zlen payload) "response payload";
  let response := mk (ResponseEnvelope.mk request_id status flags payload_len) payload in
  validate response ;;
  Ok response.

Definition simplified (request_id : Z) (payload : list Z) (flags : Z) : wres t :=
  new request_id StSimplified flags payload.

Definition error (request_id : Z) (message : string) : wres t :=
  new request_id StError ResponseFlags.HAS_MESSAGE (as_bytes message).

Definition parse (frame_payload : list Z) : wres t :=
  envelope ← ResponseEnvelope.parse frame_payload;
  expected ← ResponseEnvelope.encoded_len envelope;
  refuse_if (negb (zlen frame_payload =? expected))
    (LengthMismatch "response frame payload" expected (zlen frame_payload)) ;;
  payload ← index_range frame_payload RESPONSE_ENVELOPE_LEN (zlen frame_payload);
  let response := mk envelope payload in
  validate response ;;
  Ok response.

Definition encode (self : t) : wres (list Z) :=
  validate self ;;
  ResponseEnvelope.encoded_len (envelope self) ;;
  out ← ResponseEnvelope.encode (envelope self) [];
  Ok (out ++ payload self).
End BinaryResponse.
