(* ===== verification/Backend.v ===== *)
(** * Backends of the server
    ([smt-server]: [backend.rs], [command_router.rs], [pool.rs], [racing.rs])

    A backend answers a request with a [QueryResult].  What a call can observe of
    the outside (clocks, cancellation, which threads can be started, the order in
    which racing threads send their results) is in its [World]; a theorem for every world covers every timing. *)
From S2P Require Import Prelude Bytes BytesFacts Evaluator Config.
From S2P Require Import WireBase WireExpr WireRequest WireResponse.

#[local] Open Scope Z_scope.

(** The text an error is displayed with.  The model's errors do not keep the
    message of [InvalidValue], so the text is not defined from them. *)
Class ErrorTexts := {
  wire_error_text : WireError -> string;
  solver_error_text : Error -> string;
}.

(** ** Results ([backend.rs]) *)

Module QueryStatus.
Inductive t := Sat | Unsat | Unknown | Simplified.
End QueryStatus.

#[export] Instance QueryStatus_eq_dec : EqDecision QueryStatus.t.
Proof. solve_decision. Defined.

Record QueryResult := mkQueryResult {
  qr_status : QueryStatus.t;
  qr_model : option ModelBlock.t;
  qr_core : option UnsatCoreBlock.t;
  qr_simplify : option SimplifyBlock.t;
  qr_optimization : option OptimizationValueBlock.t;
  qr_message : option string;
}.

(** The flag is set in the request. *)
Definition wants (request : BinaryRequest.t) (flag : Z) : bool :=
  has_flag (RequestEnvelope.flags (BinaryRequest.envelope request)) flag.

(** [for name_ref in refs { allowed.insert(expr.blob_str(name_ref)?) }] *)
Fixpoint allowed_names (expr : ExprView) (allowed : gset string) (refs : list BlobRef) : wres (gset string) :=
  match refs with
  | [] => Ok allowed
  | name_ref :: refs =>
      name ← ExprView.blob_str expr name_ref "named assertion";
      allowed_names expr ({[name]} ∪ allowed) refs
  end.

Fixpoint check_core_names (allowed seen : gset string) (names : list string) : wres unit :=
  match names with
  | [] => Ok tt
  | name :: names =>
      refuse_if (negb (bool_decide (name ∈ allowed))) (InvalidValue "unsat core") ;;
      refuse_if (bool_decide (name ∈ seen)) (InvalidValue "unsat core") ;;
      check_core_names allowed ({[name]} ∪ seen) names
  end.

Definition validate_model (request : BinaryRequest.t) (model : ModelBlock.t) : wres unit :=
  expr ← BinaryRequest.expression_view request;
  ModelBlock.validate_against_expr model expr.

Definition validate_unsat_core (request : BinaryRequest.t) (core : UnsatCoreBlock.t) : wres unit :=
  expr ← BinaryRequest.expression_view request;
  allowed ← allowed_names expr ∅ (BinaryRequest.named_assertion_refs request);
  check_core_names allowed ∅ core.

Definition validate_simplify_result (request : BinaryRequest.t) (simplify : SimplifyBlock.t) : wres unit :=
  SimplifyBlock.validate simplify ;;
  request_target ← (match BinaryRequest.target_ref request with
                    | Some t => Ok t | None => Err (InvalidValue "simplify result") end);
  request_expr ← BinaryRequest.expression_view request;
  request_node ← validate_node_ref request_expr request_target (NodeRef.sort request_target) "simplify request target";
  response_buffer ← SimplifyBlock.expression_buffer simplify;
  response_expr ← ExprView.parse response_buffer;
  response_node ← validate_node_ref response_expr (SimplifyBlock.target_node simplify)
                    (NodeRef.sort request_target) "simplify response target";
  refuse_if (negb (node_width response_node =? node_width request_node)) (InvalidValue "simplify response target").

Definition validate_optimization (request : BinaryRequest.t) (optimization : OptimizationValueBlock.t) : wres unit :=
  WireScalar.validate (OptimizationValueBlock.optimum optimization) ;;
  expr ← BinaryRequest.expression_view request;
  target ← (match BinaryRequest.target_ref request with
            | Some t => Ok t | None => Err (InvalidValue "optimization response") end);
  target_node ← validate_node_ref expr target Bv "optimization target";
  refuse_if (negb (WireScalar.width (OptimizationValueBlock.optimum optimization) =? node_width target_node))
    (InvalidValue "optimization optimum") ;;
  if wants request RequestFlags.WANT_MODEL then
    match OptimizationValueBlock.model optimization with
    | Some model => ModelBlock.validate_against_expr model expr
    | None => Ok tt
    end
  else Ok tt.

Module QueryResult.
Definition of_status (s : QueryStatus.t) : QueryResult := mkQueryResult s None None None None None.

Definition sat (model : option ModelBlock.t) : QueryResult :=
  mkQueryResult QueryStatus.Sat model None None None None.
Definition unsat (core : option UnsatCoreBlock.t) : QueryResult :=
  mkQueryResult QueryStatus.Unsat None core None None None.
Definition unknown (message : string) : QueryResult :=
  mkQueryResult QueryStatus.Unknown None None None None (Some message).
Definition simplified (simplify : SimplifyBlock.t) : QueryResult :=
  mkQueryResult QueryStatus.Simplified None None (Some simplify) None None.
Definition sat_optimization (optimization : OptimizationValueBlock.t) : QueryResult :=
  mkQueryResult QueryStatus.Sat (OptimizationValueBlock.model optimization) None None (Some optimization) None.

Definition is_conclusive (self : QueryResult) : bool :=
  match qr_status self with
  | QueryStatus.Sat | QueryStatus.Unsat | QueryStatus.Simplified => true
  | QueryStatus.Unknown => false
  end.

Definition validate_solve_artifacts (self : QueryResult) (request : BinaryRequest.t) : wres unit :=
  match qr_status self with
  | QueryStatus.Sat =>
      if wants request RequestFlags.WANT_MODEL then
        match qr_model self with
        | Some model => validate_model request model
        | None => Err (InvalidValue "solve result")
        end
      else Ok tt
  | QueryStatus.Unsat =>
      if wants request RequestFlags.WANT_CORE then
        match qr_core self with
        | Some core => validate_unsat_core request core
        | None => Err (InvalidValue "solve result")
        end
      else Ok tt
  | QueryStatus.Unknown => Ok tt
  | QueryStatus.Simplified => Err (InvalidValue "solve result")
  end.

Definition validate_simplify_artifacts (self : QueryResult) (request : BinaryRequest.t) : wres unit :=
  match qr_status self with
  | QueryStatus.Simplified =>
      match qr_simplify self with
      | Some simplify => validate_simplify_result request simplify
      | None => Err (InvalidValue "simplify result")
      end
  | QueryStatus.Unknown => Ok tt
  | QueryStatus.Sat | QueryStatus.Unsat => Err (InvalidValue "simplify result")
  end.

Definition validate_optimization_artifacts (self : QueryResult) (request : BinaryRequest.t) : wres unit :=
  match qr_status self with
  | QueryStatus.Sat =>
      match qr_optimization self with
      | None => Err (InvalidValue "optimization result")
      | Some optimization =>
          refuse_if (wants request RequestFlags.WANT_MODEL
                     && match OptimizationValueBlock.model optimization with None => true | Some _ => false end)
            (InvalidValue "optimization result") ;;
          validate_optimization request optimization
      end
  | QueryStatus.Unsat | QueryStatus.Unknown => Ok tt
  | QueryStatus.Simplified => Err (InvalidValue "optimization result")
  end.

Definition validate_artifacts_for (self : QueryResult) (request : BinaryRequest.t) : wres unit :=
  match RequestEnvelope.command (BinaryRequest.envelope request) with
  | CmdSolve => validate_solve_artifacts self request
  | CmdSimplify => validate_simplify_artifacts self request
  | CmdMinimize | CmdMaximize => validate_optimization_artifacts self request
  end.

(** [result.is_ok()] *)
Definition is_ok {A} (r : wres A) : wres bool :=
  match r with Ok _ => Ok true | Err _ => Ok false | Panic => Panic end.

Definition is_conclusive_for (self : QueryResult) (request : BinaryRequest.t) : wres bool :=
  let status_matches_command :=
    match RequestEnvelope.command (BinaryRequest.envelope request) with
    | CmdSolve | CmdMinimize | CmdMaximize =>
        bool_decide (qr_status self = QueryStatus.Sat) || bool_decide (qr_status self = QueryStatus.Unsat)
    | CmdSimplify => bool_decide (qr_status self = QueryStatus.Simplified)
    end in
  if status_matches_command : bool then is_ok (validate_artifacts_for self request) else Ok false.
End QueryResult.

(** ** What a call can observe *)

(** [polls] are what the clock and the cancellation flag show, [spawns] whether a
    thread can be started ([thread::spawn] panics when not), and [arrivals] the indices of
    the racing backends in the order their results are received, up to the deadline.  Like the polls, they
    are indexed by the path of the call in the run. *)
Record World := mkWorld {
  polls : Limits;
  spawns : list nat -> bool;
  arrivals : list nat -> list nat;
}.

Definition within (n : nat) (w : World) : World :=
  mkWorld (under n (polls w)) (fun p => spawns w (n :: p)) (fun p => arrivals w (n :: p)).

(** The trait [Backend]; [handle_with_context]'s context is a cancellation token. *)
Record Backend := mkBackend {
  supports_qfbvsmtrs_text_fallback : bool;
  handle : World -> BinaryRequest.t -> wres QueryResult;
  handle_with_context : World -> BinaryRequest.t -> wres QueryResult;
}.

(** The trait's own [handle_with_context]. *)
Definition default_handle_with_context (handle : World -> BinaryRequest.t -> wres QueryResult) (w : World)
    (request : BinaryRequest.t) : wres QueryResult :=
  if is_cancelled (polls w) [0%nat] then Ok (QueryResult.unknown "backend request cancelled before start")
  else handle (within 1 w) request.

(** ** Routing by command ([command_router.rs]) *)

Definition CommandRouterBackend (simplifier solver : Backend) : Backend :=
  {| supports_qfbvsmtrs_text_fallback := supports_qfbvsmtrs_text_fallback solver;
     handle w request :=
       match RequestEnvelope.command (BinaryRequest.envelope request) with
       | CmdSimplify => handle simplifier w request
       | CmdSolve | CmdMinimize | CmdMaximize => handle solver w request
       end;
     handle_with_context w request :=
       match RequestEnvelope.command (BinaryRequest.envelope request) with
       | CmdSimplify => handle_with_context simplifier w request
       | CmdSolve | CmdMinimize | CmdMaximize => handle_with_context solver w request
       end |}.

(** ** A pool ([pool.rs])

    What is hashed of a request; the algorithm of [DefaultHasher] is not specified, so
    the hash is a parameter. *)
Record RouteKey := mkRouteKey {
  rk_command : WireCommand; rk_flags : Z; rk_budget_ms : Z; rk_target_node : Z; rk_expression : list Z;
  rk_assertions : list NodeRef; rk_named : list BlobRef; rk_assumptions : list NodeRef;
}.

Class RouteHash := route_hash : RouteKey -> Z.

Definition route_key (request : BinaryRequest.t) : RouteKey :=
  let env := BinaryRequest.envelope request in
  mkRouteKey (RequestEnvelope.command env) (RequestEnvelope.flags env) (RequestEnvelope.budget_ms env)
    (RequestEnvelope.target_node env) (BinaryRequest.expression request) (BinaryRequest.assertion_roots request)
    (BinaryRequest.named_assertion_refs request) (BinaryRequest.assumption_roots request).

Definition route_index `{RouteHash} (backends : list Backend) (request : BinaryRequest.t) : option nat :=
  match backends with
  | [] => None
  | _ => Some (Z.to_nat (route_hash (route_key request) mod zlen backends))
  end.

(** [self.backends[index]] panics out of range. *)
Definition pooled_handle `{RouteHash} (backends : list Backend) (w : World) (request : BinaryRequest.t)
    : wres QueryResult :=
  match route_index backends request with
  | None => Ok (QueryResult.unknown "backend pool is empty")
  | Some i => match backends !! i with Some b => handle b w request | None => Panic end
  end.

Definition PooledBackend `{RouteHash} (backends : list Backend) : Backend :=
  {| supports_qfbvsmtrs_text_fallback := false;
     handle := pooled_handle backends;
     handle_with_context := default_handle_with_context (pooled_handle backends) |}.

(** ** Racing ([racing.rs]) *)

Definition effective_budget (default_budget_ms : option Z) (request : BinaryRequest.t) : Z :=
  let budget_ms := RequestEnvelope.budget_ms (BinaryRequest.envelope request) in
  if budget_ms =? 0 then default 0 default_budget_ms else budget_ms.

(** [with_default_budget_ms] *)
Definition nonzero_budget (budget_ms : Z) : option Z := if budget_ms =? 0 then None else Some budget_ms.

(** The clone of the request a backend gets: with the effective budget. *)
Definition with_budget_ms (request : BinaryRequest.t) (budget_ms : Z) : BinaryRequest.t :=
  let env := BinaryRequest.envelope request in
  if RequestEnvelope.budget_ms env =? 0 then
    BinaryRequest.mk
      (RequestEnvelope.mk (RequestEnvelope.request_id env) (RequestEnvelope.command env) (RequestEnvelope.flags env)
         budget_ms (RequestEnvelope.expr_len env) (RequestEnvelope.assertion_count env)
         (RequestEnvelope.named_count env) (RequestEnvelope.assumption_count env) (RequestEnvelope.target_node env))
      (BinaryRequest.expression request) (BinaryRequest.assertion_roots request)
      (BinaryRequest.named_assertion_refs request) (BinaryRequest.assumption_roots request)
  else request.

(** [first_unknown.get_or_insert(result)] *)
Definition get_or_insert (first : option QueryResult) (result : QueryResult) : option QueryResult :=
  match first with Some _ => first | None => Some result end.

Section racing.
Context `{ErrorTexts}.

(** The loop that receives results.  A thread that panicked sends nothing.  A conclusive
    result is returned once the thread that drains the channel is started: [drain]. *)
Fixpoint race (request : BinaryRequest.t) (results : nat -> wres QueryResult) (drain : bool) (received : list nat)
    (first_unknown : option QueryResult) : wres (QueryResult + option QueryResult) :=
  match received with
  | [] => Ok (inr first_unknown)
  | i :: received =>
      match results i with
      | Panic => race request results drain received first_unknown
      | Err err =>
          race request results drain received (get_or_insert first_unknown (QueryResult.unknown (wire_error_text err)))
      | Ok result =>
          conclusive ← QueryResult.is_conclusive_for result request;
          if conclusive : bool then (if drain then Ok (inl result) else Panic)
          else if QueryResult.is_conclusive result then
            race request results drain received (get_or_insert first_unknown
              (QueryResult.unknown "backend returned conclusive result without requested artifact"))
          else race request results drain received (get_or_insert first_unknown result)
      end
  end.

(** [racing_deadline]: [Instant::now() + Duration::from_millis(..)], for a budget. *)
Definition racing_deadline_exists (budget_ms : Z) (w : World) : bool :=
  (budget_ms =? 0) || representable (polls w) [] (budget_ms * 1000000).

(** [thread::spawn] of each of [n] workers, and of the thread that drains the channel.
    The paths below [n] are those of what the workers run. *)
Definition workers_start (n : nat) (w : World) : bool := forallb (fun i => spawns w [(n + i)%nat]) (seq 0 n).
Definition drain_starts (n : nat) (w : World) : bool := spawns w [(n + n)%nat].

Definition racing_handle (backends : list Backend) (default_budget_ms : option Z) (w : World)
    (request : BinaryRequest.t) : wres QueryResult :=
  match backends with
  | [] => Ok (QueryResult.unknown "no backends configured")
  | [backend] => handle backend w request
  | _ =>
      let effective_budget_ms := effective_budget default_budget_ms request in
      let results i :=
        match backends !! i with
        | Some backend => handle_with_context backend (within i w) (with_budget_ms request effective_budget_ms)
        | None => Panic
        end in
      if negb (workers_start (length backends) w) then Panic
      else if negb (racing_deadline_exists effective_budget_ms w) then Panic
      else
        r ← race request results (drain_starts (length backends) w) (arrivals w []) None;
        match r with
        | inl result => Ok result
        | inr first_unknown =>
            Ok (default (QueryResult.unknown (if effective_budget_ms =? 0 then "all backends returned no result"
                                              else "racing backend deadline elapsed")) first_unknown)
        end
  end.

Definition RacingBackend (backends : list Backend) (default_budget_ms : option Z) : Backend :=
  {| supports_qfbvsmtrs_text_fallback := existsb supports_qfbvsmtrs_text_fallback backends;
     handle := racing_handle backends default_budget_ms;
     handle_with_context := default_handle_with_context (racing_handle backends default_budget_ms) |}.
End racing.
