(* ===== verification/WireQuery.v ===== *)
(** * From a request to a query ([qfbvsmtrs]: [wire.rs], [simplify.rs])

    [query_from_wire] replays the nodes of a request's expression on a term builder;
    [model_to_wire] turns a model back into a block for the response. *)
From S2P Require Import Prelude Bytes BytesFacts Evaluator Ir Builder BuilderState.
From S2P Require Import Gates Blast Model.
From S2P Require Import WireBase WireExpr WireRequest WireResponse.

#[local] Open Scope Z_scope.

(** [r.map_err(|err| Error::invalid(context, err.to_string()))] *)
Definition wire_err {A} (context : string) (r : wres A) : res A := map_err (fun _ => Invalid context) r.

(** ** References to terms already built *)

(** [terms.get(reference.index()).copied().flatten()] *)
Definition term_for_ref (terms : list (option TermId)) (reference : NodeRef) : res TermId :=
  match mjoin (terms !! Z.to_nat (NodeRef.index reference)) with
  | Some t => Ok t
  | None => Err (Invalid "node reference")
  end.

(** [node.children + offset]: an overflow panics when overflow checks are on. *)
Definition child_index (node : RawNode) (offset : Z) : res Z :=
  if children node + offset <=? u32_max then Ok (children node + offset) else Panic.

Definition child (expr : ExprView) (terms : list (option TermId)) (node : RawNode) (offset : Z) : res TermId :=
  i ← child_index node offset;
  reference ← wire_err "child reference" (ExprView.child_ref expr i);
  term_for_ref terms reference.

Definition child2 (expr : ExprView) (terms : list (option TermId)) (node : RawNode) : res (TermId * TermId) :=
  a ← child expr terms node 0;
  b ← child expr terms node 1;
  Ok (a, b).

Definition wire_const_bytes (expr : ExprView) (width : Z) (payload : Z) : res (list Z) :=
  let len := (width + 7) / 8 in
  if width <=? 64 then Ok (take (Z.to_nat len) (to_le_bytes 8 payload))
  else wire_err "wide BV const" (ExprView.blob_ref expr (BlobRef.from_payload payload)).

(** The pairs of a [BV_SELECT]. *)
Fixpoint select_cases (expr : ExprView) (terms : list (option TermId)) (node : RawNode) (n : nat) (pair : Z)
    : res (list (TermId * TermId)) :=
  match n with
  | O => Ok []
  | S n =>
      selector ← child expr terms node (pair * 2);
      value ← child expr terms node (pair * 2 + 1);
      cases ← select_cases expr terms node n (pair + 1);
      Ok ((selector, value) :: cases)
  end.

(** ** One node

    The arms of the [match] on the tag, but for the variables. *)
Definition wire_term (expr : ExprView) (terms : list (option TermId)) (node : RawNode) (t : Tag) : M Arena TermId :=
  let unary (f : TermId -> M Arena TermId) : M Arena TermId :=
    x ← lift (child expr terms node 0); f x in
  let binary (f : TermId -> TermId -> M Arena TermId) : M Arena TermId :=
    '(a, b) ← lift (child2 expr terms node); f a b in
  match t with
  | TBvVar | TBoolVar => fail (Unsupported "smt-wire tag")
  | TBvConst =>
      bytes ← lift (wire_const_bytes expr (node_width node) (payload node));
      bv_const_bytes bytes (Z.to_nat (node_width node))
  | TBoolTrue => bool_true
  | TBoolFalse => bool_false
  | TBvNot => unary bv_not
  | TBvNeg => unary bv_neg
  | TBvAnd => binary bv_and
  | TBvOr => binary bv_or
  | TBvXor => binary bv_xor
  | TBvAdd => binary bv_add
  | TBvSub => binary bv_sub
  | TBvMul => binary bv_mul
  | TBvUdiv => binary bv_udiv
  | TBvUrem => binary bv_urem
  | TBvSdiv => binary bv_sdiv
  | TBvSrem => binary bv_srem
  | TBvSmod => binary bv_smod
  | TBvShl => binary bv_shl
  | TBvLshr => binary bv_lshr
  | TBvAshr => binary bv_ashr
  | TBvExtract => unary (fun x => bv_extract x (Z.to_nat (aux_hi node)) (Z.to_nat (aux_lo node)))
  | TBvConcat => binary bv_concat
  | TBvZext => unary (fun x => bv_zext x (Z.to_nat (aux_hi node)))
  | TBvSext => unary (fun x => bv_sext x (Z.to_nat (aux_hi node)))
  | TBvIte =>
      c ← lift (child expr terms node 0);
      t ← lift (child expr terms node 1);
      e ← lift (child expr terms node 2);
      bv_ite c t e
  | TBvSelect =>
      let pairs := aux_hi node in
      cases ← lift (select_cases expr terms node (Z.to_nat pairs) 0);
      default ← lift (child expr terms node (pairs * 2));
      bv_select cases default
  | TBoolNot => unary bool_not
  | TBoolAnd => binary bool_and
  | TBoolOr => binary bool_or
  | TBoolImplies => binary bool_implies
  | TBvEq => binary bv_eq
  | TBvUlt => binary bv_ult
  | TBvUle => binary bv_ule
  | TBvSlt => binary bv_slt
  | TBvSle => binary bv_sle
  | TUaddOvf => binary uadd_ovf
  | TSaddOvf => binary sadd_ovf
  | TUsubOvf => binary usub_ovf
  | TSsubOvf => binary ssub_ovf
  | TUmulOvf => binary umul_ovf
  | TSmulOvf => binary smul_ovf
  | TNegOvf => unary neg_ovf
  | TSdivOvf => binary sdiv_ovf
  end.

(** ** The node loop *)

Record Translation := mkTranslation {
  tr_terms : list (option TermId);
  bv_vars : gmap (string * Z) TermId;
  bool_vars : gmap string TermId;
}.

Definition external_ref (reference : wres NodeRef) : res (option nat) :=
  raw ← wire_err "node ref" reference; Ok (Some (Z.to_nat raw)).

Definition wire_bv_var (expr : ExprView) (index : Z) (node : RawNode) (tr : Translation)
    : M Arena (TermId * Translation) :=
  name ← lift (wire_err "smt-wire BV variable"
    (ExprView.blob_str expr (BlobRef.from_payload (payload node)) "BV variable"));
  match bv_vars tr !! (name, node_width node) with
  | Some term => mret (term, tr)
  | None =>
      external ← lift (external_ref (NodeRef.bv index));
      term ← bv_var_external name (Z.to_nat (node_width node)) external;
      mret (term, mkTranslation (tr_terms tr) (<[(name, node_width node) := term]> (bv_vars tr)) (bool_vars tr))
  end.

Definition wire_bool_var (expr : ExprView) (index : Z) (node : RawNode) (tr : Translation)
    : M Arena (TermId * Translation) :=
  name ← lift (wire_err "smt-wire Bool variable"
    (ExprView.blob_str expr (BlobRef.from_payload (payload node)) "Bool variable"));
  match bool_vars tr !! name with
  | Some term => mret (term, tr)
  | None =>
      external ← lift (external_ref (NodeRef.bool index));
      term ← bool_var_external name external;
      mret (term, mkTranslation (tr_terms tr) (bv_vars tr) (<[name := term]> (bool_vars tr)))
  end.

Definition translate_node (expr : ExprView) (index : Z) (tr : Translation) : M Arena Translation :=
  node ← lift (wire_err "smt-wire node" (ExprView.node expr index));
  '(term, tr) ←
    match Tag.try_from (tag node) with
    | Some TBvVar => wire_bv_var expr index node tr
    | Some TBoolVar => wire_bool_var expr index node tr
    | Some t => term ← wire_term expr (tr_terms tr) node t; mret (term, tr)
    | None => fail (Unsupported "smt-wire tag")
    end;
  terms ← lift (set_index (tr_terms tr) (Z.to_nat index) (Some term));
  mret (mkTranslation terms (bv_vars tr) (bool_vars tr)).

Fixpoint translate_nodes (expr : ExprView) (n : nat) (index : Z) (tr : Translation) : M Arena Translation :=
  match n with
  | O => mret tr
  | S n => tr ← translate_node expr index tr; translate_nodes expr n (index + 1) tr
  end.

(** ** Roots, target, options *)

Fixpoint assert_roots (expr : ExprView) (names : list BlobRef) (terms : list (option TermId)) (roots : list NodeRef)
    (index : nat) : M Builder unit :=
  match roots with
  | [] => mret tt
  | root :: roots =>
      term ← lift (term_for_ref terms root);
      match names !! index with
      | Some r =>
          name ← lift (wire_err "named assertion" (ExprView.blob_str expr r "named assertion"));
          TermBuilder.assert_named name term
      | None => TermBuilder.assert term
      end ;;
      assert_roots expr names terms roots (S index)
  end.

Fixpoint assume_roots (terms : list (option TermId)) (roots : list NodeRef) : M Builder unit :=
  match roots with
  | [] => mret tt
  | root :: roots =>
      term ← lift (term_for_ref terms root);
      TermBuilder.assume term ;;
      assume_roots terms roots
  end.

Definition wire_goal (request : BinaryRequest.t) (terms : list (option TermId)) : M Builder unit :=
  let flags := RequestEnvelope.flags (BinaryRequest.envelope request) in
  let optimization (command : Command) : M Builder unit :=
    target_ref ← match BinaryRequest.target_ref request with
                 | Some r => mret r | None => fail (Invalid "wire target") end;
    target ← lift (term_for_ref terms target_ref);
    TermBuilder.set_optimization command target (has_flag flags RequestFlags.SIGNED) in
  match RequestEnvelope.command (BinaryRequest.envelope request) with
  | CmdSolve => TermBuilder.set_command Solve
  | CmdSimplify => TermBuilder.set_command Simplify
  | CmdMinimize => optimization Minimize
  | CmdMaximize => optimization Maximize
  end.

(** [builder.finish()] *)
Definition finish_query : M Builder Query := fun b => (TermBuilder.finish b, b).

Definition wire_query (expr : ExprView) (request : BinaryRequest.t) : M Builder Query :=
  let flags := RequestEnvelope.flags (BinaryRequest.envelope request) in
  let n := Z.to_nat (node_count (header expr)) in
  tr ← TermBuilder.on_arena (translate_nodes expr n 0 (mkTranslation (replicate n None) ∅ ∅));
  TermBuilder.set_want_model (has_flag flags RequestFlags.WANT_MODEL) ;;
  TermBuilder.set_want_core (has_flag flags RequestFlags.WANT_CORE) ;;
  wire_goal request (tr_terms tr) ;;
  assert_roots expr (BinaryRequest.named_assertion_refs request) (tr_terms tr) (BinaryRequest.assertion_roots request) 0 ;;
  assume_roots (tr_terms tr) (BinaryRequest.assumption_roots request) ;;
  finish_query.

Definition query_from_wire (request : BinaryRequest.t) : res Query :=
  expr ← wire_err "smt-wire expression" (BinaryRequest.expression_view request);
  (wire_query expr request TermBuilder.new).1.

(** [simplify]: the identity; the rewriting is done by the builder. *)
Definition simplify (query : Query) : Query := query.

(** ** Models *)

Definition wire_value (value : ScalarValue) : res WireScalar.t :=
  match value with
  | ScalarBool b => Ok (WireScalar.bool b)
  | ScalarBv width bytes => wire_err "wire model value" (WireScalar.bv (Z.of_nat width) bytes)
  end.

Fixpoint wire_entries (l : list ModelEntry) : res (list WireModelEntry) :=
  match l with
  | [] => Ok []
  | entry :: l =>
      match me_external entry with
      | None => wire_entries l
      | Some raw =>
          value ← wire_value (me_value entry);
          rest ← wire_entries l;
          Ok (mkWireModelEntry (Z.of_nat raw) value :: rest)
      end
  end.

Definition model_to_wire (model : Model) : res ModelBlock.t := wire_entries (entries model).
