(* ===== verification/SolverBackend.v ===== *)
(** * The server's own solver as a backend ([qfbvsmtrs_backend.rs])

    A request is translated, solved on a worker thread and the result translated back.
    The worker's panics are answers, not failures, of the call.  The polls of the solver
    are below number 1 of the call's world. *)
From stdpp Require Import sorting.
From S2P Require Import Prelude Bytes Ir Config Model Sat Shortcuts Solver.
From S2P Require Import WireBase WireExpr WireRequest WireResponse WireQuery Backend.

#[local] Open Scope Z_scope.

Module Qfbvsmtrs.
Definition scalar_to_wire (value : ScalarValue) : wres WireScalar.t :=
  match value with
  | ScalarBool value => Ok (WireScalar.bool value)
  | ScalarBv width bytes => WireScalar.bv (Z.of_nat width) bytes
  end.

Definition value_sort (value : WireScalar.t) : WireBase.Sort :=
  if WireScalar.width value =? 0 then Bool else Bv.

(** The key [(name, sort, width)] of a variable's value. *)
Definition value_key (name : string) (sort : WireBase.Sort) (width : Z) : string * (bool * Z) :=
  (name, (match sort with Bool => true | Bv => false end, width)).

(** [for entry in &model.entries { .. }] *)
Fixpoint collect_values (values : gmap (string * (bool * Z)) WireScalar.t) (l : list ModelEntry)
    : wres (gmap (string * (bool * Z)) WireScalar.t) :=
  match l with
  | [] => Ok values
  | entry :: l =>
      value ← scalar_to_wire (me_value entry);
      let key := value_key (me_name entry) (value_sort value) (WireScalar.width value) in
      match values !! key with
      | Some existing => refuse_if (negb (bool_decide (existing = value))) (InvalidValue "qfbvsmtrs model")
      | None => Ok tt
      end ;;
      collect_values (<[key := value]> values) l
  end.

(** The sort, width and name of a variable node. *)
Definition variable_of (expr : ExprView) (node : RawNode) : wres (option (WireBase.Sort * Z * string)) :=
  if tag node =? 0 then
    name ← ExprView.blob_str expr (RawNode.blob_ref node) "BV variable";
    Ok (Some (Bv, node_width node, name))
  else if tag node =? 26 then
    name ← ExprView.blob_str expr (RawNode.blob_ref node) "Bool variable";
    Ok (Some (Bool, 0, name))
  else Ok None.

(** [for index in 0..expr.node_count() { .. }], from [index] and [n] nodes on. *)
Fixpoint node_entries (expr : ExprView) (values : gmap (string * (bool * Z)) WireScalar.t) (n : nat) (index : Z)
    : wres (list WireModelEntry) :=
  match n with
  | O => Ok []
  | S n =>
      node ← ExprView.node expr index;
      variable ← variable_of expr node;
      match variable with
      | None => node_entries expr values n (index + 1)
      | Some (sort, width, name) =>
          match values !! value_key name sort width with
          | None => node_entries expr values n (index + 1)
          | Some value =>
              node_ref ← NodeRef.new sort index;
              entries ← node_entries expr values n (index + 1);
              Ok (mkWireModelEntry node_ref value :: entries)
          end
      end
  end.

Definition model_to_wire_for_request (model : Model) (request : BinaryRequest.t) : wres ModelBlock.t :=
  values ← collect_values ∅ (entries model);
  expr ← BinaryRequest.expression_view request;
  node_entries expr values (Z.to_nat (node_count (header expr))) 0.

(** [Duration::from_millis], in nanoseconds. *)
Definition request_budget (request : BinaryRequest.t) : option Z :=
  let budget_ms := RequestEnvelope.budget_ms (BinaryRequest.envelope request) in
  if budget_ms =? 0 then None else Some (budget_ms * 1000000).

(** A request with a budget or a token is solved by the solver that polls them. *)
Definition worker_config (request : BinaryRequest.t) (cancellation : option CancellationToken) : Config :=
  let budget := request_budget request in
  let config := Config.with_cancellation_token (Config.with_budget Config.default budget) cancellation in
  match budget, cancellation with
  | None, None => config
  | _, _ => Config.with_sat_backend config Dpll
  end.

Section worker.
Context `{Backends} `{Recognisers} `{ErrorTexts}.

(** The result of the solver as a result of the backend. *)
Definition query_result (request : BinaryRequest.t) (result : SolveResult) : wres QueryResult :=
  match status result with
  | SolveStatus.Sat =>
      let answer model :=
        match optimum result with
        | Some optimum =>
            optimum ← scalar_to_wire optimum;
            Ok (QueryResult.sat_optimization (OptimizationValueBlock.mk optimum model))
        | None => Ok (QueryResult.sat model)
        end in
      match model result with
      | Some model =>
          match model_to_wire_for_request model request with
          | Ok model => answer (Some model)
          | Err err => Ok (QueryResult.unknown ("qfbvsmtrs model: " +:+ wire_error_text err))
          | Panic => Panic
          end
      | None => answer None
      end
  | SolveStatus.Unsat => Ok (QueryResult.unsat (core result))
  | SolveStatus.Unknown => Ok (QueryResult.unknown (default "qfbvsmtrs returned unknown" (message result)))
  | SolveStatus.Simplified => Ok (QueryResult.unknown "qfbvsmtrs returned SIMPLIFIED for a solve request")
  end.

Definition solve_on_worker (request : BinaryRequest.t) (cancellation : option CancellationToken) (polls : Limits)
    : wres QueryResult :=
  match query_from_wire request with
  | Err err => Ok (QueryResult.unknown ("qfbvsmtrs: " +:+ solver_error_text err))
  | Panic => Panic
  | Ok query =>
      match Solver.solve (worker_config request cancellation) query polls with
      | Err err => Ok (QueryResult.unknown ("qfbvsmtrs: " +:+ solver_error_text err))
      | Panic => Panic
      | Ok result => query_result request result
      end
  end.

(** A worker that panicked is joined with an error. *)
Definition join_worker (worker : wres QueryResult) : wres QueryResult :=
  match worker with
  | Panic => Ok (QueryResult.unknown "qfbvsmtrs worker panicked")
  | result => result
  end.

(** The worker runs [solve_on_worker] if a thread can be started. *)
Definition spawn_worker (w : World) (request : BinaryRequest.t) (cancellation : option CancellationToken)
    : wres (wres QueryResult) :=
  if spawns w [] then Ok (solve_on_worker request cancellation (polls (within 1 w)))
  else Err (InvalidValue "qfbvsmtrs worker").

Definition solve (w : World) (request : BinaryRequest.t) : wres QueryResult :=
  worker ← spawn_worker w request None;
  join_worker worker.

(** The worker's token is cancelled some time after the context is: what the solver's
    polls of it see is part of the world. *)
Definition solve_with_context (w : World) (request : BinaryRequest.t) : wres QueryResult :=
  worker ← spawn_worker w request (Some (mkToken 0));
  join_worker worker.

Definition handle_request (w : World) (request : BinaryRequest.t) : wres QueryResult :=
  match RequestEnvelope.command (BinaryRequest.envelope request) with
  | CmdSimplify =>
      target_node ← (match BinaryRequest.target_ref request with
                     | Some t => Ok t | None => Err (InvalidValue "simplify request") end);
      Ok (QueryResult.simplified (SimplifyBlock.mk (BinaryRequest.expression request) target_node))
  | CmdSolve | CmdMinimize | CmdMaximize => solve w request
  end.

Definition handle_cancellable (w : World) (request : BinaryRequest.t) : wres QueryResult :=
  if is_cancelled (polls w) [0%nat] then Ok (QueryResult.unknown "qfbvsmtrs request cancelled before start")
  else
    match RequestEnvelope.command (BinaryRequest.envelope request) with
    | CmdSimplify => handle_request w request
    | CmdSolve | CmdMinimize | CmdMaximize => solve_with_context w request
    end.
End worker.
End Qfbvsmtrs.

Definition QfbvsmtrsBackend `{Backends} `{Recognisers} `{ErrorTexts} : Backend :=
  {| supports_qfbvsmtrs_text_fallback := true;
     handle := Qfbvsmtrs.handle_request;
     handle_with_context := Qfbvsmtrs.handle_cancellable |}.
