(* ===== verification/Server.v ===== *)
(** * The server ([smt-server]: [protocol.rs], [cache.rs], [server.rs])

    From a frame payload to the response payload: parsing, the backend, the checks on
    what the backend returned, the response cache, and the loop of a connection. *)
From stdpp Require Import pretty.
From S2P Require Import Prelude Bytes BytesFacts Evaluator Config.
From S2P Require Import WireBase WireBaseFacts WireExpr WireRequest WireResponse Backend.

#[local] Open Scope Z_scope.

(** ** Responses to requests ([protocol.rs]) *)

Module Protocol.
(** [validate_model] and [validate_unsat_core] are those of [backend.rs], line by line;
    the other two differ in their contexts and in when a model is checked. *)
Definition validate_model : BinaryRequest.t -> ModelBlock.t -> wres unit := Backend.validate_model.
Definition validate_unsat_core : BinaryRequest.t -> UnsatCoreBlock.t -> wres unit := Backend.validate_unsat_core.

Definition validate_simplify (request : BinaryRequest.t) (simplify : SimplifyBlock.t) : wres unit :=
  SimplifyBlock.validate simplify ;;
  request_target ← (match BinaryRequest.target_ref request with
                    | Some t => Ok t | None => Err (InvalidValue "simplify response") end);
  request_expr ← BinaryRequest.expression_view request;
  request_node ← validate_node_ref request_expr request_target (NodeRef.sort request_target) "simplify request target";
  response_buffer ← SimplifyBlock.expression_buffer simplify;
  response_expr ← ExprView.parse response_buffer;
  response_node ← validate_node_ref response_expr (SimplifyBlock.target_node simplify)
                    (NodeRef.sort request_target) "simplify response target";
  refuse_if (negb (node_width response_node =? node_width request_node)) (InvalidValue "simplify response target").

Definition validate_optimization (request : BinaryRequest.t) (optimization : OptimizationValueBlock.t) : wres unit :=
  WireScalar.validate (OptimizationValueBlock.optimum optimization) ;;
  expr ← BinaryRequest.expression_view request;
  target ← (match BinaryRequest.target_ref request with
            | Some t => Ok t | None => Err (InvalidValue "optimization response") end);
  target_node ← validate_node_ref expr target Bv "optimization target";
  refuse_if (negb (WireScalar.width (OptimizationValueBlock.optimum optimization) =? node_width target_node))
    (InvalidValue "optimization optimum") ;;
  match OptimizationValueBlock.model optimization with
  | Some model => ModelBlock.validate_against_expr model expr
  | None => Ok tt
  end.

(** [if let Err(err) = check { return BinaryResponse::error(..) } rest] *)
Definition or_error `{ErrorTexts} (check : wres unit) (request_id : Z) (prefix : string)
    (rest : wres BinaryResponse.t) : wres BinaryResponse.t :=
  match check with
  | Ok _ => rest
  | Err err => BinaryResponse.error request_id (prefix +:+ wire_error_text err)
  | Panic => Panic
  end.

Definition unknown_response (request_id : Z) (message : option string) : wres BinaryResponse.t :=
  match message with
  | Some message =>
      if String.eqb message "" then BinaryResponse.new request_id StUnknown 0 []
      else BinaryResponse.new request_id StUnknown ResponseFlags.HAS_MESSAGE (as_bytes message)
  | None => BinaryResponse.new request_id StUnknown 0 []
  end.

Section protocol.
Context `{ErrorTexts}.

Definition solve_response (request : BinaryRequest.t) (result : QueryResult) : wres BinaryResponse.t :=
  let request_id := RequestEnvelope.request_id (BinaryRequest.envelope request) in
  match qr_status result with
  | QueryStatus.Sat =>
      if wants request RequestFlags.WANT_MODEL then
        match qr_model result with
        | Some model =>
            or_error (validate_model request model) request_id "invalid backend model: "
              (payload ← ModelBlock.encode model;
               BinaryResponse.new request_id StSat ResponseFlags.HAS_MODEL payload)
        | None => BinaryResponse.error request_id "SAT backend omitted requested model"
        end
      else BinaryResponse.new request_id StSat 0 []
  | QueryStatus.Unsat =>
      if wants request RequestFlags.WANT_CORE then
        match qr_core result with
        | Some core =>
            or_error (validate_unsat_core request core) request_id "invalid backend unsat core: "
              (payload ← UnsatCoreBlock.encode core;
               BinaryResponse.new request_id StUnsat ResponseFlags.HAS_CORE payload)
        | None => BinaryResponse.error request_id "UNSAT backend omitted requested core"
        end
      else BinaryResponse.new request_id StUnsat 0 []
  | QueryStatus.Unknown => unknown_response request_id (qr_message result)
  | QueryStatus.Simplified => BinaryResponse.error request_id "SOLVE backend returned SIMPLIFIED"
  end.

Definition simplify_response (request : BinaryRequest.t) (result : QueryResult) : wres BinaryResponse.t :=
  let request_id := RequestEnvelope.request_id (BinaryRequest.envelope request) in
  match qr_status result with
  | QueryStatus.Simplified =>
      match qr_simplify result with
      | None => Err (InvalidValue "simplify response")
      | Some simplify =>
          or_error (validate_simplify request simplify) request_id "invalid backend simplify block: "
            (payload ← SimplifyBlock.encode simplify;
             BinaryResponse.new request_id StSimplified ResponseFlags.HAS_EXPR payload)
      end
  | QueryStatus.Unknown => unknown_response request_id (qr_message result)
  | QueryStatus.Sat | QueryStatus.Unsat => BinaryResponse.error request_id "SIMPLIFY backend returned SAT/UNSAT"
  end.

Definition optimize_response (request : BinaryRequest.t) (result : QueryResult) : wres BinaryResponse.t :=
  let request_id := RequestEnvelope.request_id (BinaryRequest.envelope request) in
  match qr_status result with
  | QueryStatus.Sat =>
      match qr_optimization result with
      | None => Err (InvalidValue "optimization response")
      | Some optimization =>
          let want_model := wants request RequestFlags.WANT_MODEL in
          if want_model && match OptimizationValueBlock.model optimization with None => true | Some _ => false end
          then BinaryResponse.error request_id "optimization backend omitted requested model"
          else
            let optimization :=
              if want_model then optimization
              else OptimizationValueBlock.mk (OptimizationValueBlock.optimum optimization) None in
            or_error (validate_optimization request optimization) request_id "invalid backend optimization block: "
              (let flags := match OptimizationValueBlock.model optimization with
                            | Some _ => Z.lor ResponseFlags.HAS_VALUE ResponseFlags.HAS_MODEL
                            | None => ResponseFlags.HAS_VALUE end in
               payload ← OptimizationValueBlock.encode optimization;
               BinaryResponse.new request_id StSat flags payload)
      end
  | QueryStatus.Unsat => BinaryResponse.new request_id StUnsat 0 []
  | QueryStatus.Unknown => unknown_response request_id (qr_message result)
  | QueryStatus.Simplified => BinaryResponse.error request_id "optimization backend returned SIMPLIFIED"
  end.

Definition response_from_query_result (request : BinaryRequest.t) (result : QueryResult) : wres BinaryResponse.t :=
  match RequestEnvelope.command (BinaryRequest.envelope request) with
  | CmdSolve => solve_response request result
  | CmdSimplify => simplify_response request result
  | CmdMinimize | CmdMaximize => optimize_response request result
  end.

Definition handle_binary_request (w : World) (request : BinaryRequest.t) (backend : Backend) : wres BinaryResponse.t :=
  match handle backend w request with
  | Ok result => response_from_query_result request result
  | Err err => BinaryResponse.error (RequestEnvelope.request_id (BinaryRequest.envelope request)) (wire_error_text err)
  | Panic => Panic
  end.

Definition handle_binary_frame (w : World) (frame_payload : list Z) (backend : Backend) : wres BinaryResponse.t :=
  if negb (is_binary_request_payload frame_payload) then
    BinaryResponse.error 0 "frame payload is not a binary SMTQ request"
  else
    match BinaryRequest.parse frame_payload with
    | Ok request => handle_binary_request w request backend
    | Err err => BinaryResponse.error 0 (wire_error_text err)
    | Panic => Panic
    end.
End protocol.
End Protocol.

(** ** The cache ([cache.rs])

    The two mutexes are only held by the methods below, none of which can panic, so
    they are never poisoned.  A counter is a [u64]. *)

Record CacheStats := mkCacheStats { hits : Z; misses : Z; inserts : Z }.

Record ResponseCache := mkResponseCache {
  cache_entries : gmap (list Z) (list Z);
  cache_stats : CacheStats;
  max_entries : Z;
  max_key_bytes : Z;
  max_response_bytes : Z;
}.

Module ResponseCache.
Definition with_limits (max_entries max_key_bytes max_response_bytes : Z) : ResponseCache :=
  mkResponseCache ∅ (mkCacheStats 0 0 0) max_entries max_key_bytes max_response_bytes.

Definition default : ResponseCache := with_limits 4096 (1024 * 1024) (16 * 1024 * 1024).

Definition len (self : ResponseCache) : Z := Z.of_nat (size (cache_entries self)).

Definition accepts_payload (self : ResponseCache) (payload : list Z) : bool :=
  negb (max_entries self =? 0) && (zlen payload <=? max_key_bytes self).

Definition get (self : ResponseCache) (key : list Z) : option (list Z) := cache_entries self !! key.

Definition with_stats (self : ResponseCache) (s : CacheStats) : ResponseCache :=
  mkResponseCache (cache_entries self) s (max_entries self) (max_key_bytes self) (max_response_bytes self).

Definition lookup (self : ResponseCache) (key : list Z) : option (list Z) * ResponseCache :=
  let found := cache_entries self !! key in
  let s := cache_stats self in
  (found, with_stats self (match found with
                           | Some _ => mkCacheStats (hits s + 1) (misses s) (inserts s)
                           | None => mkCacheStats (hits s) (misses s + 1) (inserts s) end)).

Definition insert (self : ResponseCache) (key response : list Z) : ResponseCache :=
  if (max_entries self =? 0) || (max_key_bytes self <? zlen key) || (max_response_bytes self <? zlen response)
  then self
  else
    let entries := if max_entries self <=? len self then ∅ else cache_entries self in
    let s := cache_stats self in
    mkResponseCache (<[key := response]> entries) (mkCacheStats (hits s) (misses s) (inserts s + 1))
      (max_entries self) (max_key_bytes self) (max_response_bytes self).
End ResponseCache.

(** [bytes[4..8].copy_from_slice(id)] on at least eight bytes. *)
Definition put_request_id (bytes : list Z) (id : list Z) : list Z := take 4 bytes ++ id ++ drop 8 bytes.

Definition cache_key_for_payload (payload : list Z) : list Z :=
  if is_binary_request_payload payload && (8 <=? zlen payload) then put_request_id payload [0; 0; 0; 0] else payload.

Definition binary_request_id (payload : list Z) : option Z :=
  if is_binary_request_payload payload && (8 <=? zlen payload) then Some (bval (subslice payload 4 4)) else None.

Definition rebind_cached_response (response : list Z) (request_id : option Z) : list Z :=
  match request_id with
  | Some request_id =>
      if (8 <=? zlen response) && bool_decide (subslice response 0 4 = RESPONSE_MAGIC)
      then put_request_id response (to_le_bytes 4 request_id) else response
  | None => response
  end.

(** ** Dispatch ([server.rs])

    The text protocol ([smtlib.rs]) is not modelled: what it answers to a payload that is
    not a binary request is a parameter.  Recording the exchange has no effect on it. *)

Class TextProtocol := text_response : World -> list Z -> wres (list Z).

(** [r.or_else(f)] *)
Definition or_else {A} (r alternative : wres A) : wres A :=
  match r with Ok a => Ok a | Err _ => alternative | Panic => Panic end.

Definition encoded (r : wres BinaryResponse.t) : wres (list Z) := response ← r; BinaryResponse.encode response.

(** [b"SMTR\0\0\0\0\x03\0\0\0\0\0\0\0"] *)
Definition fallback_response : list Z := RESPONSE_MAGIC ++ [0; 0; 0; 0; 3; 0; 0; 0; 0; 0; 0; 0].

Definition binary_error_response (message : string) : wres (list Z) :=
  or_else (or_else (encoded (BinaryResponse.error 0 message)) (encoded (BinaryResponse.new 0 StUnknown 0 [])))
    (Ok fallback_response).

Definition is_cacheable_binary_response (response : list Z) : wres bool :=
  match BinaryResponse.parse response with
  | Ok response =>
      Ok (match ResponseEnvelope.status (BinaryResponse.envelope response) with
          | StSat | StUnsat | StSimplified => true | StUnknown | StError => false end)
  | Err _ => Ok false
  | Panic => Panic
  end.

Section dispatch.
Context `{ErrorTexts} `{TextProtocol}.

Definition dispatch_payload (w : World) (payload : list Z) (backend : Backend) : wres (list Z) :=
  if is_binary_request_payload payload then
    match encoded (Protocol.handle_binary_frame w payload backend) with
    | Ok bytes => Ok bytes
    | Err err => binary_error_response (wire_error_text err)
    | Panic => Panic
    end
  else text_response w payload.

(** Whether a payload goes through the cache. *)
Definition uses_cache (payload : list Z) (cache : option ResponseCache) : option ResponseCache :=
  match cache with
  | Some c => if is_binary_request_payload payload && ResponseCache.accepts_payload c payload then Some c else None
  | None => None
  end.

(** [if is_cacheable_binary_response(&response) { cache.insert(key, response.clone()) }] *)
Definition store_response (cache : ResponseCache) (key response : list Z) : wres ResponseCache :=
  cacheable ← is_cacheable_binary_response response;
  Ok (if cacheable : bool then ResponseCache.insert cache key response else cache).

Definition dispatch_payload_with_cache (w : World) (payload : list Z) (backend : Backend)
    (cache : option ResponseCache) : wres (list Z) * option ResponseCache :=
  match uses_cache payload cache with
  | Some c =>
      let key := cache_key_for_payload payload in
      let request_id := binary_request_id payload in
      match ResponseCache.lookup c key with
      | (Some response, c) => (Ok (rebind_cached_response response request_id), Some c)
      | (None, c) =>
          match dispatch_payload w payload backend with
          | Ok response =>
              match store_response c key response with
              | Ok c => (Ok response, Some c)
              | Err err => (Err err, Some c)
              | Panic => (Panic, Some c)
              end
          | Err err => (Err err, Some c)
          | Panic => (Panic, Some c)
          end
      end
  | None => (dispatch_payload w payload backend, cache)
  end.

(** ** A connection

    The bytes the peer sends until it closes its side, and the bytes the server sends
    back.  Failures of the socket are not modelled. *)

Record ServerConfig := mkServerConfig {
  sc_backend : Backend;
  max_frame_bytes : Z;
  sc_max_response_bytes : Z;
  max_connections : Z;
}.

Inductive ConnectionEnd := Closed | FrameTooLong | Truncated | Unframeable | Panicked.

Definition frame_limit_text (frame_len limit : Z) : string :=
  "frame payload length " +:+ pretty frame_len +:+ " exceeds configured maximum " +:+ pretty limit.
Definition response_limit_text (response_len limit : Z) : string :=
  "response payload length " +:+ pretty response_len +:+ " exceeds configured maximum " +:+ pretty limit.

(** [write_error_frame]; an error is of a payload that cannot be framed. *)
Definition error_frame (message : string) : wres (list Z) :=
  payload ← binary_error_response message; encode_transport_frame payload.

Definition limit_response (config : ServerConfig) (response : list Z) : wres (list Z) :=
  if sc_max_response_bytes config <? zlen response
  then binary_error_response (response_limit_text (zlen response) (sc_max_response_bytes config))
  else Ok response.

(** One turn of the loop for a whole frame: the bytes written, and the cache after. *)
Definition serve_frame (config : ServerConfig) (w : World) (payload : list Z) (cache : option ResponseCache)
    : wres (list Z) * option ResponseCache :=
  let '(response, cache) := dispatch_payload_with_cache w payload (sc_backend config) cache in
  (response ← response; response ← limit_response config response; encode_transport_frame response, cache).

(** Every turn reads at least four bytes, so the length of the input is enough fuel;
    using it up would be a [Panicked]. *)
Fixpoint connection_loop (config : ServerConfig) (fuel : nat) (w : World) (input : list Z)
    (cache : option ResponseCache) : list Z * ConnectionEnd * option ResponseCache :=
  match fuel with
  | O => ([], Panicked, cache)
  | S fuel =>
      if zlen input <? 4 then ([], Closed, cache)
      else
        let frame_len := bval (take 4 input) in
        let rest := drop 4 input in
        if max_frame_bytes config <? frame_len then
          match error_frame (frame_limit_text frame_len (max_frame_bytes config)) with
          | Ok frame => (frame, FrameTooLong, cache)
          | Err _ => ([], Unframeable, cache)
          | Panic => ([], Panicked, cache)
          end
        else if zlen rest <? frame_len then ([], Truncated, cache)
        else
          match serve_frame config (within fuel w) (take (Z.to_nat frame_len) rest) cache with
          | (Ok frame, cache) =>
              let '(output, ending, cache) :=
                connection_loop config fuel w (drop (Z.to_nat frame_len) rest) cache in
              (frame ++ output, ending, cache)
          | (Err _, cache) => ([], Unframeable, cache)
          | (Panic, cache) => ([], Panicked, cache)
          end
  end.

Definition handle_connection (config : ServerConfig) (w : World) (input : list Z) (cache : option ResponseCache)
    : list Z * ConnectionEnd * option ResponseCache :=
  connection_loop config (S (length input)) w input cache.
End dispatch.

(** ** Connection permits

    [fetch_update] is atomic, so an interleaving of threads is a sequence of the steps
    below; [permits] are the connections whose [ConnectionPermit] is alive. *)

Definition try_acquire_connection (active max_connections : Z) : bool * Z :=
  if max_connections =? 0 then (false, active)
  else if active <? max_connections then (true, active + 1) else (false, active).

Record Connections := mkConnections { active_connections : Z; permits : gset nat }.

Inductive connection_step (max_connections : Z) : Connections -> Connections -> Prop :=
  | accept_connection c s a : c ∉ permits s ->
      try_acquire_connection (active_connections s) max_connections = (true, a) ->
      connection_step max_connections s (mkConnections a ({[c]} ∪ permits s))
  | refuse_connection s a :
      try_acquire_connection (active_connections s) max_connections = (false, a) ->
      connection_step max_connections s (mkConnections a (permits s))
  | drop_permit c s : c ∈ permits s ->
      connection_step max_connections s (mkConnections (active_connections s - 1) (permits s ∖ {[c]})).

(** ** Sharing the cache

    Connections run in parallel and each of the cache's methods is atomic.  A request
    that goes through the cache is one step when it hits, and two when it misses: the
    lookup, and later the answer of the backend, which may be stored.  The label is the
    payload answered and its response. *)

Record Service := mkService { sv_cache : ResponseCache; in_flight : gmap nat (list Z) }.

Inductive service_step `{ErrorTexts} `{TextProtocol} (backend : Backend)
    : Service -> option (list Z * list Z) -> Service -> Prop :=
  | cache_hit s payload c c' response :
      slice_ok payload -> uses_cache payload (Some (sv_cache s)) = Some c ->
      ResponseCache.lookup c (cache_key_for_payload payload) = (Some response, c') ->
      service_step backend s (Some (payload, rebind_cached_response response (binary_request_id payload)))
        (mkService c' (in_flight s))
  | cache_miss s conn payload c c' :
      slice_ok payload -> uses_cache payload (Some (sv_cache s)) = Some c -> in_flight s !! conn = None ->
      ResponseCache.lookup c (cache_key_for_payload payload) = (None, c') ->
      service_step backend s None (mkService c' (<[conn := payload]> (in_flight s)))
  | miss_answered s conn payload w response c :
      in_flight s !! conn = Some payload -> dispatch_payload w payload backend = Ok response ->
      store_response (sv_cache s) (cache_key_for_payload payload) response = Ok c ->
      service_step backend s (Some (payload, response)) (mkService c (delete conn (in_flight s)))
  | cache_bypassed s payload w response :
      slice_ok payload -> uses_cache payload (Some (sv_cache s)) = None -> dispatch_payload w payload backend = Ok response ->
      service_step backend s (Some (payload, response)) s.

(** The answers given in a run, the last one first. *)
Inductive service_run `{ErrorTexts} `{TextProtocol} (backend : Backend) (start : Service)
    : list (list Z * list Z) -> Service -> Prop :=
  | service_start : service_run backend start [] start
  | service_next answers s label s' :
      service_run backend start answers s -> service_step backend s label s' ->
      service_run backend start (match label with Some a => a :: answers | None => answers end) s'.
