(* ===== verification/WireResponseFacts.v ===== *)
(** * Responses on the wire

    The round trips of the blocks of a response and of the response frame. *)
From S2P Require Import Prelude Bits Bytes BytesFacts Evaluator EvaluatorFacts.
From S2P Require Import WireBase WireBaseFacts WireExpr WireExprFacts WireDag.
From S2P Require Import WireRequest WireRequestFacts WireResponse.

#[local] Open Scope Z_scope.
#[local] Opaque to_le_bytes.

(** ** Scalars *)

(** A Bool is one byte, 0 or 1; a bit-vector is the canonical representation of a
    number of its width. *)
Definition scalar_value (s : WireScalar.t) : Prop :=
  if WireScalar.width s =? 0 then WireScalar.bytes s = [0] \/ WireScalar.bytes s = [1]
  else 1 <= WireScalar.width s <= MAX_BV_WIDTH /\
       bv_repr (Z.to_nat (WireScalar.width s)) (WireScalar.bytes s) (bval (WireScalar.bytes s)).

Record scalar_valid (s : WireScalar.t) : Prop := {
  sv_width : is_u32 (WireScalar.width s);
  sv_bytes : Forall is_byte (WireScalar.bytes s);
  sv_len : zlen (WireScalar.bytes s) <= u32_max;
  sv_value : scalar_value s;
}.

Lemma bval_snoc l b : bval (l ++ [b]) = bval l + pow2 (8 * length l) * b.
Proof.
  induction l as [|x l IH]; simpl.
  - rewrite Nat.mul_0_r. change (pow2 0) with 1. lia.
  - rewrite IH. replace (8 * S (length l))%nat with (8 + 8 * length l)%nat by lia.
    rewrite pow2_add. change (pow2 8) with 256. lia.
Qed.

(** The last byte has no bit above the width exactly when the number fits it. *)
Lemma high_bits_iff w bytes c : 1 <= w -> Forall is_byte bytes -> zlen bytes = (w + 7) / 8 ->
  ensure_unused_high_bits_zero w bytes c = Ok tt <-> bval bytes < pow2 (Z.to_nat w).
Proof.
  intros Hw Hb Hl. pose proof (Z.div_mod w 8 ltac:(lia)) as Hdm. pose proof (Z.mod_pos_bound w 8 ltac:(lia)) as Hm.
  unfold ensure_unused_high_bits_zero. cbv zeta.
  destruct (Z.eqb_spec (w mod 8) 0) as [E|E]; simpl.
  - split; [intros _|done]. assert (zlen bytes = w / 8) as Hl'.
    { rewrite Hl. symmetry. apply (Z.div_unique_pos _ _ _ 7); lia. }
    pose proof (bval_bound bytes Hb) as H. unfold zlen in Hl'. by replace (Z.to_nat w) with (8 * length bytes)%nat by lia.
  - assert (zlen bytes = w / 8 + 1) as Hl'.
    { rewrite Hl. symmetry. apply (Z.div_unique_pos _ _ _ (w mod 8 - 1)); lia. }
    assert (0 <= w / 8) by (apply Z.div_pos; lia).
    destruct bytes as [|b l _] using rev_ind; [unfold zlen in Hl'; simpl in Hl'; lia|].
    rewrite (proj2 (Z.eqb_neq _ _)) by lia. unfold zlen in *. rewrite length_app in *. simpl in *.
    replace (Z.to_nat (Z.of_nat (length l + 1) - 1)) with (length l) by lia.
    rewrite list_lookup_middle by done. apply Forall_app in Hb as [Hb [Hx _]%Forall_cons]. unfold is_byte in Hx.
    rewrite refuse_ok, negb_false_iff, Z.eqb_eq, bval_snoc.
    replace (Z.shiftl 1 (w mod 8) - 1) with (Z.ones (w mod 8)) by (unfold Z.ones; lia).
    rewrite Z.ldiff_ones_r by lia. rewrite Z.shiftl_mul_pow2, Z.shiftr_div_pow2 by lia.
    pose proof (bval_bound l Hb) as Hlow. pose proof (bval_nonneg l Hb) as Hlow0.
    assert (pow2 (Z.to_nat w) = pow2 (8 * length l) * 2 ^ (w mod 8)) as ->.
    { rewrite <- Z.pow_add_r by lia. f_equal. lia. }
    assert (0 < 2 ^ (w mod 8)) as Hp by (apply Z.pow_pos_nonneg; lia).
    split.
    + intros H0. assert (b / 2 ^ (w mod 8) = 0) as Hd by nia. apply Z.div_small_iff in Hd; [|lia]. nia.
    + intros Hlt. assert (b < 2 ^ (w mod 8)) by nia. rewrite Z.div_small; [lia|]. split; [lia|done].
Qed.

(** [validate] accepts exactly the values. *)
Lemma validate_scalar_iff s : is_u32 (WireScalar.width s) -> Forall is_byte (WireScalar.bytes s) ->
  WireScalar.validate s = Ok tt <-> scalar_value s.
Proof.
  intros Hu Hb. unfold is_u32 in Hu. unfold WireScalar.validate, scalar_value.
  destruct (Z.eqb_spec (WireScalar.width s) 0) as [E|E].
  - destruct (WireScalar.bytes s) as [|b [|b' l]]; [by split; [|intros [?|?]]| |by split; [|intros [?|?]]].
    rewrite refuse_ok, negb_false_iff, orb_true_iff, !Z.eqb_eq.
    split; [intros [-> | ->]; auto|intros [[= ->]|[= ->]]; auto].
  - rewrite bind_ok. setoid_rewrite wire_bytes_ok. setoid_rewrite bind_ok. setoid_rewrite refuse_ok.
    setoid_rewrite negb_false_iff. setoid_rewrite Z.eqb_eq. split.
    + intros (n & [Hw ->] & [] & Hl & H). apply high_bits_iff in H; [|lia|done..]. split; [done|].
      split; [|done..]. apply Nat2Z.inj. unfold div_ceil. rewrite Nat2Z.inj_div. unfold zlen in Hl. rewrite Hl. f_equal. lia.
    + intros [Hw [Hl _ _ Hv]]. exists ((WireScalar.width s + 7) / 8). split; [done|]. exists tt.
      assert (zlen (WireScalar.bytes s) = (WireScalar.width s + 7) / 8) as Hz.
      { unfold zlen. rewrite Hl. unfold div_ceil. rewrite Nat2Z.inj_div. f_equal. lia. }
      split; [done|]. apply high_bits_iff; [lia|done..].
Qed.

Lemma sv_checked s : scalar_valid s -> WireScalar.validate s = Ok tt.
Proof. intros [H1 H2 _ H3]. by apply validate_scalar_iff. Qed.

Definition scalar_bytes (s : WireScalar.t) : list Z :=
  to_le_bytes 4 (WireScalar.width s) ++ to_le_bytes 4 (zlen (WireScalar.bytes s)) ++ WireScalar.bytes s.

Lemma zlen_scalar s : zlen (scalar_bytes s) = 8 + zlen (WireScalar.bytes s).
Proof. unfold scalar_bytes. rewrite !zlen_app, !zlen_le_bytes. lia. Qed.

Lemma encode_scalar s dst : scalar_valid s -> WireScalar.encode s dst = Ok (dst ++ scalar_bytes s).
Proof.
  intros Hs. unfold WireScalar.encode. rewrite (sv_checked s Hs). destruct Hs as [_ _ Hl _]. cbn [mbind res_bind]. unfold try_u32.
  rewrite (proj2 (Z.leb_le _ _)) by done. cbn [mbind res_bind]. unfold write_u32, scalar_bytes. by rewrite <- !app_assoc.
Qed.

(** It is refused otherwise. *)
Lemma encode_scalar_inv s dst out : is_u32 (WireScalar.width s) -> Forall is_byte (WireScalar.bytes s) ->
  WireScalar.encode s dst = Ok out -> scalar_valid s /\ out = dst ++ scalar_bytes s.
Proof.
  intros Hw Hb E. assert (scalar_valid s) as Hs.
  { unfold WireScalar.encode in E; apply bind_ok in E as ([] & Hv & E). split; [done..| |by apply validate_scalar_iff].
    apply bind_ok in E as (len & Hl & _). unfold try_u32 in Hl. destruct (Z.leb_spec (zlen (WireScalar.bytes s)) u32_max); done. }
  split; [done|]. rewrite encode_scalar in E by done. by injection E as <-.
Qed.

Lemma total_high_bits w bytes c : total (ensure_unused_high_bits_zero w bytes c).
Proof.
  unfold ensure_unused_high_bits_zero. destruct (Z.eqb_spec (zlen bytes) 0); [by rewrite orb_true_r|].
  cbv zeta. case_match; [done|]. destruct (lookup_lt_is_Some_2 bytes (Z.to_nat (zlen bytes - 1))) as [b Hb].
  { unfold zlen in *. lia. } rewrite Hb. totals.
Qed.

Lemma total_scalar_validate s : total (WireScalar.validate s).
Proof. unfold WireScalar.validate, wire_bytes_for_width. pose proof total_high_bits. totals. Qed.
#[export] Hint Resolve total_high_bits total_scalar_validate : total.

#[export] Instance scalar_codec : Codec WireScalar.t scalar_valid scalar_bytes WireScalar.decode.
Proof.
  split.
  - intros s [_ Hb _ _]. unfold scalar_bytes. rewrite !Forall_app. split_and!; [apply to_le_bytes_shape..|done].
  - intros bytes off s rest Hs Hsv Hr. pose proof (sv_checked s Hsv) as Hv. destruct Hsv as [Hw Hb Hl _]. pose proof (zlen_nonneg (WireScalar.bytes s)).
    unfold scalar_bytes in Hr. rewrite <- !app_assoc in Hr.
    apply (rest_skip _ _ _ _ _ (off + 4)) in Hr as R4; [|lia]. apply (rest_skip _ _ _ _ _ (off + 8)) in R4 as R8; [|lia].
    assert (off + 8 + zlen (WireScalar.bytes s) <= zlen bytes) as Hle.
    { destruct R8 as (_ & H1 & _). rewrite zlen_app in H1. pose proof (zlen_nonneg rest). lia. }
    assert (is_u32 (zlen (WireScalar.bytes s))) by (unfold is_u32, u32_max in *; lia). destruct Hs as [Hs1 Hs2].
    assert (slice_ok bytes) as Hs by done.
    unfold WireScalar.decode, read_u32. read_known Hs. read_known Hs.
    rewrite checked_add_ok by (unfold usize_max; lia). cbn [mbind res_bind]. unfold exact_slice.
    rewrite (ensure_at _ _ _ _ _ _ Hs R8) by done. cbn [mbind res_bind].
    rewrite checked_add_ok by (unfold usize_max; lia). cbn [mbind res_bind].
    destruct s as [w b]. simpl in *. rewrite Hv. cbn [mbind res_bind]. rewrite zlen_scalar. do 2 f_equal. simpl. lia.
  - intros bytes off s off' Hs Ho. unfold WireScalar.decode, read_u32, exact_slice. unread Hs w H1 R1. unread Hs l H2 R2.
    destruct (checked_add off 8 _) as [o|e|] eqn:Eo; [|done..]. cbn [mbind res_bind].
    unfold checked_add in Eo. destruct (_ <=? _); [injection Eo as <-|done].
    destruct (ensure bytes (off + 8) l _) as [b|e|] eqn:Eb; [|done..]. cbn [mbind res_bind]. unfold is_u32 in H2.
    destruct (ensure_inv bytes (off + 8) l _ b ltac:(lia) ltac:(lia) Eb) as (Hl & r3 & R3).
    destruct (checked_add (off + 8) l _) as [o|e|] eqn:Eo; [|done..]. cbn [mbind res_bind].
    unfold checked_add in Eo. destruct (_ <=? _); [injection Eo as <-|done].
    destruct (WireScalar.validate _) as [[]|e|] eqn:Ev; [|done..]. intros [= <- <-].
    assert (Forall is_byte b) by (apply (slice_ok_app b r3), (rest_bytes bytes (off + 8)); done).
    split; [split; simpl; [done|done|unfold u32_max; lia|by apply (validate_scalar_iff (WireScalar.mk w b))]|].
    rewrite zlen_scalar. simpl. split; [lia|].
    exists r3. unfold scalar_bytes. simpl. rewrite Hl, <- !app_assoc.
    apply (rest_join _ _ _ _ _ _ R2) in R3; [|rewrite zlen_le_bytes; lia]. join R1 R3. exact R3.
  - intros bytes off _ _. unfold WireScalar.decode, read_u32, exact_slice. totals.
Qed.

(** ** Model entries *)

Definition entry_valid (e : WireModelEntry) : Prop := is_u32 (node_ref e) /\ scalar_valid (entry_value e).
Definition entry_bytes (e : WireModelEntry) : list Z := to_le_bytes 4 (node_ref e) ++ scalar_bytes (entry_value e).

#[export] Instance entry_codec : Codec WireModelEntry entry_valid entry_bytes ModelBlock.decode_entry.
Proof.
  split.
  - intros e [_ Hs]. unfold entry_bytes. apply Forall_app. split; [apply to_le_bytes_shape|by apply codec_bytes].
  - intros bytes off e rest Hs [Hn Hv] Hr. unfold entry_bytes in Hr. rewrite <- app_assoc in Hr.
    apply (rest_skip _ _ _ _ _ (off + 4)) in Hr as R4; [|lia].
    unfold ModelBlock.decode_entry, read_u32. read_known Hs. destruct Hs as [Hs1 Hs2].
    rewrite checked_add_ok. 2:{ destruct R4 as (_ & H & _). unfold usize_max.
      pose proof (zlen_nonneg (scalar_bytes (entry_value e) ++ rest)). lia. }
    cbn [mbind res_bind]. rewrite (decodes _ _ _ _ (conj Hs1 Hs2) Hv R4). cbn [mbind res_bind].
    unfold entry_bytes. rewrite zlen_app, zlen_le_bytes. destruct e. do 2 f_equal. simpl. lia.
  - intros bytes off e off' Hs Ho. unfold ModelBlock.decode_entry, read_u32. unread Hs n H1 R1.
    destruct (checked_add off 4 _) as [o|x|] eqn:Eo; [|done..]. cbn [mbind res_bind].
    unfold checked_add in Eo. destruct (_ <=? _); [injection Eo as <-|done].
    destruct (WireScalar.decode bytes (off + 4)) as [[s o]|x|] eqn:Es; [|done..]. cbn [mbind res_bind]. intros [= <- <-].
    destruct (encodes bytes (off + 4) s o Hs ltac:(lia) Es) as (Hv & -> & r & Hr).
    split; [done|]. unfold entry_bytes. simpl. rewrite zlen_app, zlen_le_bytes. split; [lia|].
    exists r. rewrite <- app_assoc. join R1 Hr. exact Hr.
  - intros bytes off Hs Ho. unfold ModelBlock.decode_entry, read_u32. apply total_bind; [totals|]. intros n _.
    apply total_bind; [totals|]. intros o Eo. unfold checked_add in Eo. destruct (_ <=? _); [injection Eo as <-|done].
    apply total_bind; [apply decode_total; [done|lia]|]. intros [s o] _. done.
Qed.

(** ** Model blocks *)

Definition block_valid (b : list WireModelEntry) : Prop := Forall entry_valid b /\ zlen b <= u32_max.
Definition block_bytes (b : list WireModelEntry) : list Z := to_le_bytes 4 (zlen b) ++ flat_map entry_bytes b.

Lemma entry_bytes_len e : entry_valid e -> 12 <= zlen (entry_bytes e).
Proof.
  intros _. unfold entry_bytes. rewrite zlen_app, zlen_le_bytes, zlen_scalar.
  pose proof (zlen_nonneg (WireScalar.bytes (entry_value e))). lia.
Qed.

Lemma entries_len l : Forall entry_valid l -> 12 * zlen l <= zlen (flat_map entry_bytes l).
Proof.
  intros H. induction H as [|e l He _ IH]; [done|]. simpl. rewrite zlen_app, zlen_cons.
  pose proof (entry_bytes_len e He). lia.
Qed.

Lemma encode_entries_ok l out : Forall entry_valid l ->
  ModelBlock.encode_entries out l = Ok (out ++ flat_map entry_bytes l).
Proof.
  intros H. revert out. induction H as [|e l [_ He] _ IH]; intros out; simpl; [by rewrite app_nil_r|].
  unfold ModelBlock.encode_entry. rewrite encode_scalar by done. cbn [mbind res_bind]. rewrite IH.
  unfold write_u32, entry_bytes. by rewrite <- !app_assoc.
Qed.

Lemma encode_block b : block_valid b -> ModelBlock.encode b = Ok (block_bytes b).
Proof.
  intros [Hb Hl]. unfold ModelBlock.encode, try_u32. rewrite (proj2 (Z.leb_le _ _)) by done. cbn [mbind res_bind].
  by rewrite encode_entries_ok.
Qed.

#[export] Instance block_codec : Codec (list WireModelEntry) block_valid block_bytes ModelBlock.decode_from.
Proof.
  split.
  - intros b [Hb _]. unfold block_bytes. apply Forall_app. split; [apply to_le_bytes_shape|].
    by apply (many_bytes entry_valid entry_bytes ModelBlock.decode_entry).
  - intros bytes off b rest Hs [Hb Hl] Hr. unfold block_bytes in Hr. rewrite <- app_assoc in Hr.
    apply (rest_skip _ _ _ _ _ (off + 4)) in Hr as R4; [|lia]. pose proof (zlen_nonneg b).
    assert (is_u32 (zlen b)) by (unfold is_u32, u32_max in *; lia).
    assert (off + 4 + 12 * zlen b <= zlen bytes) as Hle.
    { destruct R4 as (_ & H1 & _). rewrite zlen_app in H1. pose proof (zlen_nonneg rest). pose proof (entries_len _ Hb). lia. }
    unfold ModelBlock.decode_from, read_u32. read_known Hs.
    rewrite checked_add_ok by (destruct Hs; unfold usize_max; lia). cbn [mbind res_bind].
    rewrite (refuse_no (zlen bytes <? off + 4)) by (apply Z.ltb_ge; lia). cbn [mbind res_bind].
    rewrite refuse_no by (apply Z.ltb_ge, Z.div_le_lower_bound; lia). cbn [mbind res_bind]. rewrite to_nat_zlen.
    rewrite (many_decodes entry_valid entry_bytes ModelBlock.decode_entry _ _ _ _ Hs Hb R4).
    unfold block_bytes. rewrite zlen_app, zlen_le_bytes. do 2 f_equal. lia.
  - intros bytes off b off' Hs Ho. unfold ModelBlock.decode_from, read_u32. unread Hs n H1 R1. unfold is_u32 in H1.
    destruct (checked_add off 4 _) as [o|x|] eqn:Eo; [|done..]. cbn [mbind res_bind].
    unfold checked_add in Eo. destruct (_ <=? _); [injection Eo as <-|done]. unrefuse. unrefuse. apply Z.ltb_ge in Eb.
    intros E. apply (many_encodes entry_valid entry_bytes) in E as (Hl & Hv & -> & r & Hr); [|apply _|done|lia].
    assert (zlen b = n) as Hn by (unfold zlen; lia).
    split; [split; [done|unfold u32_max; lia]|]. unfold block_bytes. rewrite Hn, zlen_app, zlen_le_bytes. split; [lia|].
    exists r. rewrite <- app_assoc. join R1 Hr. exact Hr.
  - intros bytes off Hs Ho. unfold ModelBlock.decode_from, read_u32. apply total_bind; [totals|]. intros n _.
    apply total_bind; [totals|]. intros o Eo. unfold checked_add in Eo. destruct (_ <=? _); [injection Eo as <-|done].
    apply total_bind; [totals|intros _ _]. apply total_bind; [totals|intros _ _].
    eapply (many_total entry_valid entry_bytes); [apply _|done|lia].
Qed.

(** A decoder that must end at the end of the payload. *)
Lemma whole_decodes {A} (valid : A -> Prop) enc (dec : list Z -> Z -> wres (A * Z)) `{!Codec A valid enc dec} a c :
  slice_ok (enc a) -> valid a ->
  ('(x, offset) ← dec (enc a) 0; refuse_if (negb (offset =? zlen (enc a))) (LengthMismatch c offset (zlen (enc a))) ;; Ok x)
  = Ok a.
Proof.
  intros Hs Ha. rewrite (decodes (enc a) 0 a []); [|done|done|rewrite app_nil_r; apply rest_start].
  cbn [mbind res_bind]. by rewrite Z.add_0_l, Z.eqb_refl.
Qed.

Lemma whole_encodes {A} (valid : A -> Prop) enc (dec : list Z -> Z -> wres (A * Z)) `{!Codec A valid enc dec} a c bytes :
  slice_ok bytes ->
  ('(x, offset) ← dec bytes 0; refuse_if (negb (offset =? zlen bytes)) (LengthMismatch c offset (zlen bytes)) ;; Ok x) = Ok a ->
  valid a /\ bytes = enc a.
Proof.
  intros Hs. destruct (dec bytes 0) as [[x o]|e|] eqn:E; [|done..]. cbn [mbind res_bind].
  destruct (Z.eqb_spec o (zlen bytes)) as [->|]; [|done]. intros [= ->].
  destruct (encodes _ _ _ _ Hs (Z.le_refl 0) E) as (Hv & Hl & rest & Hr). split; [done|].
  apply rest_next_at with (off' := zlen bytes) in Hr as Hr'; [|done].
  assert (rest = []) as -> by (apply (rest_unique _ _ _ _ Hr'); by apply rest_end).
  rewrite app_nil_r in Hr. by apply rest_whole.
Qed.

Lemma decode_model b : slice_ok (block_bytes b) -> block_valid b -> ModelBlock.decode (block_bytes b) = Ok b.
Proof. intros Hs Hb. exact (whole_decodes block_valid block_bytes ModelBlock.decode_from b "model block" Hs Hb). Qed.

Lemma decode_model_inv bytes b : slice_ok bytes -> ModelBlock.decode bytes = Ok b ->
  block_valid b /\ bytes = block_bytes b.
Proof. intros Hs. exact (whole_encodes block_valid block_bytes ModelBlock.decode_from b "model block" bytes Hs). Qed.

Lemma total_model bytes : slice_ok bytes -> total (ModelBlock.decode bytes).
Proof.
  intros Hs. unfold ModelBlock.decode. apply total_bind; [by apply decode_total|]. intros [b o] _. totals.
Qed.

(** ** Names *)

Lemma ascii_round_trip a : ascii_of_byte (byte_of_ascii a) = a.
Proof. unfold ascii_of_byte, byte_of_ascii. rewrite N2Z.id. apply Ascii.ascii_N_embedding. Qed.

Lemma byte_round_trip b : is_byte b -> byte_of_ascii (ascii_of_byte b) = b.
Proof.
  unfold is_byte, ascii_of_byte, byte_of_ascii. intros H. rewrite Ascii.N_ascii_embedding; [by rewrite Z2N.id by lia|].
  apply N2Z.inj_lt. rewrite Z2N.id by lia. simpl. lia.
Qed.

Lemma string_round_trip s : string_of_bytes (as_bytes s) = s.
Proof.
  unfold string_of_bytes, as_bytes. rewrite <- list_fmap_compose.
  rewrite (list_fmap_ext _ id) by (intros; apply ascii_round_trip). rewrite list_fmap_id.
  apply String.string_of_list_ascii_of_string.
Qed.

Lemma bytes_round_trip l : Forall is_byte l -> as_bytes (string_of_bytes l) = l.
Proof.
  intros H. unfold string_of_bytes, as_bytes. rewrite String.list_ascii_of_string_of_list_ascii.
  induction H as [|b l Hb _ IH]; [done|]. cbn [fmap list_fmap]. rewrite byte_round_trip by done. f_equal. exact IH.
Qed.

Lemma as_bytes_bytes s : Forall is_byte (as_bytes s).
Proof.
  unfold as_bytes. apply Forall_fmap, Forall_forall. intros a _. unfold is_byte, byte_of_ascii. simpl.
  pose proof (Ascii.N_ascii_bounded a). lia.
Qed.

(** A Rust string: its bytes are UTF-8. *)
Definition name_valid (s : string) : Prop := utf8_valid (as_bytes s) = true /\ zlen (as_bytes s) <= u32_max.
Definition name_bytes (s : string) : list Z := to_le_bytes 4 (zlen (as_bytes s)) ++ as_bytes s.

#[export] Instance name_codec : Codec string name_valid name_bytes UnsatCoreBlock.decode_name.
Proof.
  split.
  - intros s _. unfold name_bytes. apply Forall_app. split; [apply to_le_bytes_shape|apply as_bytes_bytes].
  - intros bytes off s rest Hs [Hu Hl] Hr. unfold name_bytes in Hr. rewrite <- app_assoc in Hr.
    apply (rest_skip _ _ _ _ _ (off + 4)) in Hr as R4; [|lia]. pose proof (zlen_nonneg (as_bytes s)).
    assert (is_u32 (zlen (as_bytes s))) by (unfold is_u32, u32_max in *; lia).
    unfold UnsatCoreBlock.decode_name, read_u32. read_known Hs. unfold exact_slice.
    rewrite (ensure_at _ _ _ _ _ _ Hs R4) by done. cbn [mbind res_bind]. unfold from_utf8. rewrite Hu, string_round_trip.
    unfold name_bytes. rewrite zlen_app, zlen_le_bytes. do 2 f_equal. lia.
  - intros bytes off s off' Hs Ho. unfold UnsatCoreBlock.decode_name, read_u32, exact_slice. unread Hs l H1 R1.
    unfold is_u32 in H1.
    destruct (ensure bytes (off + 4) l _) as [b|e|] eqn:Eb; [|done..]. cbn [mbind res_bind].
    destruct (ensure_inv bytes (off + 4) l _ b ltac:(lia) ltac:(lia) Eb) as (Hl & r & R).
    unfold from_utf8. destruct (utf8_valid b) eqn:Eu; [|done]. intros [= <- <-].
    assert (Forall is_byte b) as Hb by (apply (slice_ok_app b r), (rest_bytes bytes (off + 4)); done).
    unfold name_valid, name_bytes. rewrite bytes_round_trip, zlen_app, zlen_le_bytes by done.
    split; [split; [done|unfold u32_max; lia]|]. split; [lia|]. exists r. rewrite Hl, <- app_assoc. join R1 R. exact R.
  - intros bytes off _ _. unfold UnsatCoreBlock.decode_name, read_u32, exact_slice. totals.
Qed.

Definition core_valid (names : list string) : Prop := Forall name_valid names /\ zlen names <= u32_max.
Definition core_bytes (names : list string) : list Z := to_le_bytes 4 (zlen names) ++ flat_map name_bytes names.

Lemma names_len l : 4 * zlen l <= zlen (flat_map name_bytes l).
Proof.
  induction l as [|s l IH]; [done|]. simpl. rewrite zlen_app, zlen_cons. unfold name_bytes at 1.
  rewrite zlen_app, zlen_le_bytes. pose proof (zlen_nonneg (as_bytes s)). lia.
Qed.

Lemma encode_core names : core_valid names -> UnsatCoreBlock.encode names = Ok (core_bytes names).
Proof.
  intros [Hv Hl]. unfold UnsatCoreBlock.encode, try_u32. rewrite (proj2 (Z.leb_le _ _)) by done. cbn [mbind res_bind].
  unfold core_bytes, write_u32. rewrite app_nil_l. generalize (to_le_bytes 4 (zlen names)). clear Hl.
  induction Hv as [|s names [_ Hs] _ IH]; intros out; simpl; [by rewrite app_nil_r|].
  unfold try_u32. rewrite (proj2 (Z.leb_le _ _)) by done. cbn [mbind res_bind]. rewrite IH. unfold write_u32, name_bytes.
  by rewrite <- !app_assoc.
Qed.

Lemma decode_core names : slice_ok (core_bytes names) -> core_valid names ->
  UnsatCoreBlock.decode (core_bytes names) = Ok names.
Proof.
  intros Hs [Hv Hl]. pose proof (rest_start (core_bytes names)) as R. unfold core_bytes at 2 in R.
  assert (zlen (core_bytes names) = 4 + zlen (flat_map name_bytes names)) as Hz
    by (unfold core_bytes; by rewrite zlen_app, zlen_le_bytes).
  set (bytes := core_bytes names) in *. clearbody bytes. pose proof (names_len names). pose proof (zlen_nonneg names).
  assert (is_u32 (zlen names)) by (unfold is_u32, u32_max in *; lia).
  apply (rest_skip _ _ _ _ _ 4) in R as R4; [|done].
  unfold UnsatCoreBlock.decode, read_u32. read_known Hs. cbv zeta.
  rewrite (refuse_no (zlen bytes <? 4)) by (apply Z.ltb_ge; lia). cbn [mbind res_bind].
  rewrite (refuse_no ((zlen bytes - 4) / 4 <? zlen names)) by (apply Z.ltb_ge, Z.div_le_lower_bound; lia).
  cbn [mbind res_bind]. rewrite to_nat_zlen. rewrite <- (app_nil_r (flat_map _ _)) in R4.
  rewrite (many_decodes name_valid name_bytes UnsatCoreBlock.decode_name _ _ _ _ Hs Hv R4). cbn [mbind res_bind].
  by rewrite Hz, Z.eqb_refl.
Qed.

Lemma decode_core_inv bytes names : slice_ok bytes -> UnsatCoreBlock.decode bytes = Ok names ->
  core_valid names /\ bytes = core_bytes names.
Proof.
  intros Hs. unfold UnsatCoreBlock.decode, read_u32. unread Hs n H1 R1. unfold is_u32 in H1. cbv zeta. unrefuse. unrefuse.
  apply Z.ltb_ge in Eb. destruct (decode_many _ _ _ _) as [[l o]|e|] eqn:E; [|done..]. cbn [mbind res_bind].
  apply (many_encodes name_valid name_bytes) in E as (Hl & Hv & -> & r & Hr); [|apply _|done|lia].
  unrefuse. apply negb_false_iff, Z.eqb_eq in Eb1. intros [= ->].
  assert (zlen names = n) as Hn by (unfold zlen; lia). split; [split; [done|unfold u32_max; lia]|].
  apply rest_next_at with (off' := zlen bytes) in Hr as Hr'; [|lia].
  assert (r = []) as -> by (apply (rest_unique _ _ _ _ Hr'); by apply rest_end). rewrite app_nil_r in Hr.
  unfold core_bytes. rewrite Hn. apply rest_whole. join R1 Hr. exact Hr.
Qed.

Lemma total_core bytes : slice_ok bytes -> total (UnsatCoreBlock.decode bytes).
Proof.
  intros Hs. unfold UnsatCoreBlock.decode, read_u32. apply total_bind; [totals|]. intros n _. cbv zeta.
  do 2 (apply total_bind; [totals|intros _ _]). apply total_bind; [|intros [l o] _; totals].
  eapply (many_total name_valid name_bytes); [apply _|done|lia].
Qed.

(** ** Simplified expressions and optima *)

Record simplify_valid (b : SimplifyBlock.t) : Prop := {
  sb_target : is_u32 (SimplifyBlock.target_node b);
  sb_expression : Forall is_byte (SimplifyBlock.expression b);
  sb_len : zlen (SimplifyBlock.expression b) <= u32_max;
  sb_checked : SimplifyBlock.validate b = Ok tt;
}.

Definition simplify_bytes (b : SimplifyBlock.t) : list Z :=
  to_le_bytes 4 (zlen (SimplifyBlock.expression b)) ++ to_le_bytes 4 (SimplifyBlock.target_node b) ++
  SimplifyBlock.expression b.

Lemma zlen_simplify b : zlen (simplify_bytes b) = 8 + zlen (SimplifyBlock.expression b).
Proof. unfold simplify_bytes. rewrite !zlen_app, !zlen_le_bytes. lia. Qed.

Lemma encode_simplify b : simplify_valid b -> SimplifyBlock.encode b = Ok (simplify_bytes b).
Proof.
  intros [_ _ Hl Hv]. unfold SimplifyBlock.encode. rewrite Hv. cbn [mbind res_bind]. unfold try_u32.
  rewrite (proj2 (Z.leb_le _ _)) by done. cbn [mbind res_bind]. unfold write_u32, simplify_bytes. by rewrite <- !app_assoc.
Qed.

Lemma decode_simplify b : slice_ok (simplify_bytes b) -> simplify_valid b ->
  SimplifyBlock.decode (simplify_bytes b) = Ok b.
Proof.
  intros Hs [Ht Hb Hl Hv]. pose proof (rest_start (simplify_bytes b)) as R. unfold simplify_bytes at 2 in R.
  pose proof (zlen_simplify b) as Hz. set (bytes := simplify_bytes b) in *. clearbody bytes.
  pose proof (zlen_nonneg (SimplifyBlock.expression b)).
  assert (is_u32 (zlen (SimplifyBlock.expression b))) by (unfold is_u32, u32_max in *; lia).
  apply (rest_skip _ _ _ _ _ 4) in R as R4; [|done]. apply (rest_skip _ _ _ _ _ 8) in R4 as R8; [|done].
  rewrite <- (app_nil_r (SimplifyBlock.expression b)) in R8. unfold SimplifyBlock.decode, read_u32.
  rewrite (refuse_no (zlen bytes <? 8)) by (apply Z.ltb_ge; lia). cbn [mbind res_bind].
  read_known Hs. read_known Hs. rewrite checked_add_ok by (unfold usize_max, u32_max in *; lia). cbn [mbind res_bind].
  rewrite <- Hz, Z.eqb_refl. cbn [negb refuse_if mbind res_bind]. rewrite Hz.
  rewrite (index_range_at _ _ _ _ _ R8) by done. cbn [mbind res_bind]. destruct b. simpl in *. by rewrite Hv.
Qed.

Lemma decode_simplify_inv bytes b : slice_ok bytes -> SimplifyBlock.decode bytes = Ok b ->
  simplify_valid b /\ bytes = simplify_bytes b.
Proof.
  intros Hs. unfold SimplifyBlock.decode, read_u32. unrefuse. unread Hs l H1 R1. unread Hs t H2 R2.
  destruct (checked_add 8 l _) as [o|e|] eqn:Eo; [|done..]. cbn [mbind res_bind].
  unfold checked_add in Eo. destruct (_ <=? _); [injection Eo as <-|done]. unrefuse. apply negb_false_iff, Z.eqb_eq in Eb0.
  destruct (index_range bytes 8 _) as [x|e|] eqn:Ex; [|done..]. cbn [mbind res_bind].
  destruct (index_range_inv bytes 8 _ _ ltac:(done) Ex) as (Hx & r & R).
  destruct (SimplifyBlock.validate _) as [[]|e|] eqn:Ev; [|done..]. intros [= <-].
  apply rest_next in R as R'. assert (r = []) as -> by (apply (rest_unique _ _ _ _ R'); apply rest_end; lia).
  rewrite app_nil_r in R. assert (zlen x = l) as <- by lia. unfold is_u32 in H1. split.
  - split; [done| |unfold u32_max; simpl; lia|done]. apply (rest_bytes bytes 8); done.
  - unfold simplify_bytes. apply rest_whole. join R2 R. join R1 R. exact R.
Qed.

Lemma total_simplify bytes : slice_ok bytes -> total (SimplifyBlock.decode bytes).
Proof.
  intros Hs. unfold SimplifyBlock.decode, read_u32. apply total_bind; [totals|intros _ _]. apply total_bind; [totals|].
  intros l El. destruct (read_inv _ _ _ _ _ Hs (Z.le_refl 0) El) as [Hl _].
  apply total_bind; [totals|]. intros t _. apply total_bind; [totals|]. intros o Eo.
  unfold checked_add in Eo. destruct (_ <=? _); [injection Eo as <-|done]. apply total_bind; [totals|]. intros u Hz.
  apply refuse_ok, negb_false_iff, Z.eqb_eq in Hz. apply total_bind; [apply index_range_total; lia|]. intros x Ex.
  destruct (index_range_inv bytes 8 _ _ ltac:(done) Ex) as (_ & r & R). apply total_bind; [|done].
  assert (slice_ok x) as Hx by (apply (slice_ok_app x r), (rest_bytes bytes 8); done).
  unfold SimplifyBlock.validate. pose proof (total_parse_validate x Hx). totals.
Qed.

Definition optimum_valid (b : OptimizationValueBlock.t) : Prop :=
  scalar_valid (OptimizationValueBlock.optimum b) /\
  forall m, OptimizationValueBlock.model b = Some m -> block_valid m.

Definition optimum_bytes (b : OptimizationValueBlock.t) : list Z :=
  scalar_bytes (OptimizationValueBlock.optimum b) ++
  match OptimizationValueBlock.model b with Some m => block_bytes m | None => [] end.

Definition has_model (b : OptimizationValueBlock.t) : bool :=
  match OptimizationValueBlock.model b with Some _ => true | None => false end.

Lemma encode_optimum b : optimum_valid b -> OptimizationValueBlock.encode b = Ok (optimum_bytes b).
Proof.
  intros [Hs Hm]. unfold OptimizationValueBlock.encode, optimum_bytes. rewrite encode_scalar by done.
  cbn [mbind res_bind]. destruct (OptimizationValueBlock.model b) as [m|]; [|by rewrite app_nil_r].
  by rewrite encode_block by auto.
Qed.

(** The decoder of an optimum, up to the offset it ends at. *)
Definition optimum_at (want : bool) (payload : list Z) (offset : Z) : wres (OptimizationValueBlock.t * Z) :=
  '(optimum, offset) ← WireScalar.decode payload offset;
  '(model, offset) ←
    (if want then '(model, offset) ← ModelBlock.decode_from payload offset; Ok (Some model, offset)
     else Ok (None, offset));
  Ok (OptimizationValueBlock.mk optimum model, offset).

#[local] Instance optimum_codec want :
  Codec OptimizationValueBlock.t (fun b => optimum_valid b /\ has_model b = want) optimum_bytes (optimum_at want).
Proof.
  split.
  - intros b [[Hs Hm] _]. unfold optimum_bytes. apply Forall_app. split; [by apply codec_bytes|].
    destruct (OptimizationValueBlock.model b); [apply codec_bytes; auto|done].
  - intros bytes off [o m] rest Hs [[Ho Hm] <-] Hr. unfold optimum_bytes in *. simpl in *. rewrite <- app_assoc in Hr.
    unfold optimum_at. rewrite (decodes _ _ _ _ Hs Ho Hr). cbn [mbind res_bind]. apply rest_next in Hr. unfold has_model. simpl.
    destruct m as [m|]; cbn [mbind res_bind]; [|by rewrite app_nil_r].
    rewrite (decodes _ _ _ _ Hs (Hm m eq_refl) Hr). cbn [mbind res_bind]. by rewrite zlen_app, Z.add_assoc.
  - intros bytes off b off' Hs Ho. unfold optimum_at.
    destruct (WireScalar.decode bytes off) as [[s o1]|e|] eqn:Es; [|done..]. cbn [mbind res_bind].
    destruct (encodes _ _ _ _ Hs Ho Es) as (Hv & -> & r & Hr). pose proof (zlen_nonneg (scalar_bytes s)).
    destruct want; cbn [mbind res_bind].
    + destruct (ModelBlock.decode_from bytes _) as [[m o2]|e|] eqn:Em; [|done..]. cbn [mbind res_bind]. intros [= <- <-].
      destruct (encodes bytes (off + zlen (scalar_bytes s)) m o2 Hs ltac:(lia) Em) as (Hm & -> & r2 & Hr2).
      split; [split; [split; [done|by intros ? [= <-]]|done]|]. unfold optimum_bytes. simpl. rewrite zlen_app.
      split; [lia|]. exists r2. rewrite <- app_assoc. by apply (rest_join _ _ _ _ _ _ Hr Hr2).
    + intros [= <- <-]. split; [done|]. unfold optimum_bytes. simpl. rewrite app_nil_r. by split; [|exists r].
  - intros bytes off Hs Ho. unfold optimum_at. apply total_bind; [by apply decode_total|]. intros [s o1] Es.
    destruct (encodes _ _ _ _ Hs Ho Es) as (_ & -> & _). pose proof (zlen_nonneg (scalar_bytes s)).
    destruct want; [|done]. apply total_bind; [|by intros [m o2]].
    apply total_bind; [apply decode_total; [done|lia]|by intros [m o2]].
Qed.

Lemma optimum_decode_at bytes want : OptimizationValueBlock.decode bytes want =
  '(x, offset) ← optimum_at want bytes 0;
  refuse_if (negb (offset =? zlen bytes)) (LengthMismatch "optimization value block" offset (zlen bytes)) ;; Ok x.
Proof.
  unfold OptimizationValueBlock.decode, optimum_at. destruct (WireScalar.decode bytes 0) as [[s o]|e|]; [|done..].
  cbn [mbind res_bind]. destruct want; [|done]. by destruct (ModelBlock.decode_from bytes o) as [[m o2]|e|].
Qed.

Lemma decode_optimum b : slice_ok (optimum_bytes b) -> optimum_valid b ->
  OptimizationValueBlock.decode (optimum_bytes b) (has_model b) = Ok b.
Proof.
  intros Hs Hb. rewrite optimum_decode_at.
  exact (whole_decodes _ optimum_bytes (optimum_at (has_model b)) b "optimization value block" Hs (conj Hb eq_refl)).
Qed.

Lemma decode_optimum_inv bytes want b : slice_ok bytes -> OptimizationValueBlock.decode bytes want = Ok b ->
  (optimum_valid b /\ has_model b = want) /\ bytes = optimum_bytes b.
Proof.
  intros Hs. rewrite optimum_decode_at. exact (whole_encodes (fun b => optimum_valid b /\ has_model b = want) optimum_bytes (optimum_at want)
    b "optimization value block" bytes Hs).
Qed.

Lemma total_optimum bytes want : slice_ok bytes -> total (OptimizationValueBlock.decode bytes want).
Proof.
  intros Hs. rewrite optimum_decode_at. apply total_bind; [by apply decode_total|]. intros [b o] _. totals.
Qed.

(** ** The response frame *)

Definition renvelope_valid (e : ResponseEnvelope.t) : Prop :=
  is_u32 (ResponseEnvelope.request_id e) /\ is_u8 (ResponseEnvelope.flags e) /\ is_u32 (ResponseEnvelope.payload_len e).

Definition renvelope_bytes (e : ResponseEnvelope.t) : list Z :=
  RESPONSE_MAGIC ++ to_le_bytes 4 (ResponseEnvelope.request_id e) ++
  to_le_bytes 1 (Status.to_u8 (ResponseEnvelope.status e)) ++ to_le_bytes 1 (ResponseEnvelope.flags e) ++
  to_le_bytes 4 (ResponseEnvelope.payload_len e) ++ to_le_bytes 2 0.

Definition rflags_ok (e : ResponseEnvelope.t) : Prop := Z.ldiff (ResponseEnvelope.flags e) ResponseFlags.ALL = 0.

Lemma zlen_renvelope e : zlen (renvelope_bytes e) = 16.
Proof. unfold renvelope_bytes. by rewrite !zlen_app, !zlen_le_bytes. Qed.

Lemma response_flags_ok f u : validate_response_flags f = Ok u <-> Z.ldiff f ResponseFlags.ALL = 0.
Proof. unfold validate_response_flags. by rewrite refuse_ok, negb_false_iff, Z.eqb_eq. Qed.

Lemma status_round_trip s : Status.try_from (Status.to_u8 s) = Some s.
Proof. by destruct s. Qed.

Lemma status_inv v s : Status.try_from v = Some s -> v = Status.to_u8 s.
Proof. unfold Status.try_from. repeat (case_match; [intros [= <-]; by apply Z.eqb_eq|]). done. Qed.

Lemma status_u8 s : is_u8 (Status.to_u8 s).
Proof. by destruct s. Qed.

Lemma encode_renvelope_ok e dst out : ResponseEnvelope.encode e dst = Ok out <->
  rflags_ok e /\ out = dst ++ renvelope_bytes e.
Proof.
  unfold ResponseEnvelope.encode, rflags_ok. rewrite bind_ok. setoid_rewrite response_flags_ok.
  unfold write_u8, write_u16, write_u32, renvelope_bytes. rewrite <- !app_assoc. naive_solver.
Qed.

Lemma renvelope_parses bytes e rest : slice_ok bytes -> renvelope_valid e -> rflags_ok e ->
  bytes = renvelope_bytes e ++ rest -> ResponseEnvelope.parse bytes = Ok e.
Proof.
  intros Hs (H1 & H2 & H3) Hf E.
  assert (zlen bytes >= 16) as Hl by (rewrite E, zlen_app, zlen_renvelope; pose proof (zlen_nonneg rest); lia).
  pose proof (rest_start bytes) as Hr. rewrite E in Hr at 2. unfold renvelope_bytes in Hr. rewrite <- !app_assoc in Hr.
  clear E. unfold ResponseEnvelope.parse.
  rewrite refuse_no by (apply Z.ltb_ge; unfold RESPONSE_ENVELOPE_LEN; lia). cbn [mbind res_bind].
  unfold exact_slice. rewrite (ensure_at _ _ _ _ _ _ Hs Hr) by done. cbn [mbind res_bind].
  rewrite refuse_no by (by rewrite bool_decide_true). cbn [mbind res_bind].
  apply rest_next in Hr. change (0 + zlen RESPONSE_MAGIC) with 4 in Hr.
  apply (rest_skip _ _ _ _ _ 8) in Hr as R8; [|done]. apply (rest_skip _ _ _ _ _ 9) in R8 as R9; [|done].
  apply (rest_skip _ _ _ _ _ 10) in R9 as R10; [|done]. apply (rest_skip _ _ _ _ _ 14) in R10 as R14; [|done].
  assert (is_u16 0) by done. pose proof (status_u8 (ResponseEnvelope.status e)).
  unfold read_u8, read_u16, read_u32. read_known Hs. rewrite status_round_trip. cbn [mbind res_bind].
  read_known Hs. rewrite (proj2 (response_flags_ok _ tt) Hf). cbn [mbind res_bind]. read_known Hs.
  rewrite Z.eqb_refl. cbn [negb refuse_if mbind res_bind]. do 2 read_known Hs. by destruct e.
Qed.

Lemma renvelope_inv bytes e : slice_ok bytes -> ResponseEnvelope.parse bytes = Ok e ->
  renvelope_valid e /\ rflags_ok e /\ exists rest, bytes = renvelope_bytes e ++ rest.
Proof.
  intros Hs. unfold ResponseEnvelope.parse, exact_slice, read_u8, read_u16, read_u32. unrefuse.
  destruct (ensure bytes 0 4 _) as [magic|x|] eqn:Em; [|done..]. cbn [mbind res_bind].
  destruct (ensure_inv bytes 0 4 _ _ (Z.le_refl 0) ltac:(lia) Em) as (Hm & r0 & R0). clear Em.
  unrefuse. apply negb_false_iff, bool_decide_eq_true in Eb0 as ->.
  unread Hs c H1 R1. destruct (Status.try_from c) as [status|] eqn:Ec; [|done].
  apply status_inv in Ec as ->. cbn [mbind res_bind]. unread Hs f H2 R2.
  destruct (validate_response_flags f) as [[]|x|] eqn:Ef; [|done..]. apply response_flags_ok in Ef. cbn [mbind res_bind].
  unread Hs z H3 R3. unrefuse. apply negb_false_iff, Z.eqb_eq in Eb0 as ->.
  unread Hs rid H4 R4. unread Hs len H5 R5. intros [= <-].
  split; [done|]. split; [done|]. exists rest1. unfold renvelope_bytes.
  cbn [ResponseEnvelope.request_id ResponseEnvelope.status ResponseEnvelope.flags ResponseEnvelope.payload_len].
  rewrite <- !app_assoc. apply rest_whole. join R5 R3. join R2 R3. join R1 R3. join R4 R3.
  apply (rest_join _ _ _ _ _ _ R0) in R3; [exact R3|lia].
Qed.

Lemma renvelope_total bytes : total (ResponseEnvelope.parse bytes).
Proof. unfold ResponseEnvelope.parse, exact_slice, read_u8, read_u16, read_u32, validate_response_flags. totals. Qed.

Definition response_valid (r : BinaryResponse.t) : Prop :=
  renvelope_valid (BinaryResponse.envelope r) /\ Forall is_byte (BinaryResponse.payload r).

Definition response_bytes (r : BinaryResponse.t) : list Z :=
  renvelope_bytes (BinaryResponse.envelope r) ++ BinaryResponse.payload r.

Lemma validate_payload_len r u : BinaryResponse.validate r = Ok u ->
  ResponseEnvelope.payload_len (BinaryResponse.envelope r) = zlen (BinaryResponse.payload r).
Proof.
  unfold BinaryResponse.validate. cbv zeta. intros (u1 & H & _)%bind_ok. by apply refuse_ok, negb_false_iff, Z.eqb_eq in H.
Qed.

Lemma validate_response_total r : slice_ok (BinaryResponse.payload r) -> total (BinaryResponse.validate r).
Proof.
  intros Hs. unfold BinaryResponse.validate, BinaryResponse.check_utf8. cbv zeta.
  pose proof (total_model _ Hs). pose proof (total_core _ Hs). pose proof (total_simplify _ Hs).
  pose proof (fun want => total_optimum _ want Hs). totals.
Qed.

Lemma rencoded_len_ok e : renvelope_valid e ->
  ResponseEnvelope.encoded_len e = Ok (16 + ResponseEnvelope.payload_len e).
Proof.
  intros (_ & _ & H). unfold is_u32 in H. unfold ResponseEnvelope.encoded_len, RESPONSE_ENVELOPE_LEN.
  by rewrite checked_add_ok by (unfold usize_max; lia).
Qed.

Lemma encode_response_ok r bytes : response_valid r -> BinaryResponse.encode r = Ok bytes <->
  BinaryResponse.validate r = Ok tt /\ rflags_ok (BinaryResponse.envelope r) /\ bytes = response_bytes r.
Proof.
  intros [He _]. unfold BinaryResponse.encode. rewrite rencoded_len_ok by done. rewrite bind_ok. cbn [mbind res_bind].
  setoid_rewrite bind_ok. setoid_rewrite encode_renvelope_ok. unfold response_bytes. split.
  - intros ([] & E & out & [Hf ->] & [= <-]). done.
  - intros (E & Hf & ->). exists tt. split; [done|]. by eexists.
Qed.

Lemma response_slice r : response_valid r ->
  ResponseEnvelope.payload_len (BinaryResponse.envelope r) = zlen (BinaryResponse.payload r) -> slice_ok (response_bytes r).
Proof.
  intros [(H1 & H2 & H3) Hb] Hl. split.
  - unfold response_bytes, renvelope_bytes. rewrite !Forall_app. split_and!; try done; try apply to_le_bytes_shape.
    by repeat constructor.
  - unfold response_bytes. rewrite zlen_app, zlen_renvelope. unfold is_u32 in H3. lia.
Qed.

Lemma parse_response r : response_valid r -> rflags_ok (BinaryResponse.envelope r) ->
  BinaryResponse.validate r = Ok tt -> BinaryResponse.parse (response_bytes r) = Ok r.
Proof.
  intros Hr Hf Hv. pose proof (validate_payload_len _ _ Hv) as Hl. pose proof (response_slice _ Hr Hl) as Hs.
  destruct Hr as [He Hb]. unfold BinaryResponse.parse.
  rewrite (renvelope_parses _ (BinaryResponse.envelope r) _ Hs He Hf eq_refl). cbn [mbind res_bind].
  rewrite rencoded_len_ok by done. cbn [mbind res_bind].
  assert (zlen (response_bytes r) = 16 + zlen (BinaryResponse.payload r)) as Hz
    by (unfold response_bytes; by rewrite zlen_app, zlen_renvelope).
  rewrite Hl, <- Hz, Z.eqb_refl. cbn [negb refuse_if mbind res_bind].
  rewrite (index_range_at _ _ (BinaryResponse.payload r) []).
  - cbn [mbind res_bind]. destruct r. simpl in *. by rewrite Hv.
  - rewrite app_nil_r. apply (rest_next_at _ 0 (renvelope_bytes (BinaryResponse.envelope r)));
      [apply rest_start|by rewrite zlen_renvelope].
  - rewrite Hz. done.
Qed.

Lemma parse_response_inv bytes r : slice_ok bytes -> BinaryResponse.parse bytes = Ok r ->
  response_valid r /\ rflags_ok (BinaryResponse.envelope r) /\ BinaryResponse.validate r = Ok tt /\
  bytes = response_bytes r.
Proof.
  intros Hs. unfold BinaryResponse.parse.
  destruct (ResponseEnvelope.parse bytes) as [e|x|] eqn:Ee; [|done..]. cbn [mbind res_bind].
  destruct (renvelope_inv _ _ Hs Ee) as (He & Hf & rest & ->). rewrite rencoded_len_ok by done. cbn [mbind res_bind].
  unrefuse. destruct (index_range _ _ _) as [p|x|] eqn:Ep; [|done..]. cbn [mbind res_bind].
  destruct (BinaryResponse.validate _) as [[]|x|] eqn:Ev; [|done..]. intros [= <-].
  assert (rest_at (renvelope_bytes e ++ rest) 16 rest) as R
    by (apply (rest_next_at _ 0 (renvelope_bytes e)); [apply rest_start|by rewrite zlen_renvelope]).
  assert (p = rest) as ->.
  { unfold RESPONSE_ENVELOPE_LEN in Ep. rewrite (index_range_at _ 16 rest []) in Ep; [by injection Ep|by rewrite app_nil_r|].
    by rewrite zlen_app, zlen_renvelope. }
  split; [|done]. split; [done|]. apply (rest_bytes _ _ _ Hs R).
Qed.

Lemma parse_response_total bytes : slice_ok bytes -> total (BinaryResponse.parse bytes).
Proof.
  intros Hs. unfold BinaryResponse.parse. apply total_bind; [apply renvelope_total|]. intros e Ee.
  destruct (renvelope_inv _ _ Hs Ee) as (He & Hf & rest & ->). rewrite rencoded_len_ok by done. cbn [mbind res_bind].
  apply total_bind; [totals|]. intros u _.
  assert (16 <= zlen (renvelope_bytes e ++ rest)) by (rewrite zlen_app, zlen_renvelope; pose proof (zlen_nonneg rest); lia).
  apply total_bind; [apply index_range_total; unfold RESPONSE_ENVELOPE_LEN; lia|]. intros p Ep.
  destruct (index_range_inv _ RESPONSE_ENVELOPE_LEN _ _ ltac:(done) Ep) as (_ & r & R).
  apply total_bind; [|done]. apply validate_response_total. apply (slice_ok_app p r), (rest_bytes _ _ _ Hs R).
Qed.

(** ** Theorems *)

(** The blocks of a response round-trip.  Models, unsat cores, simplified
    expressions and optimisation values with valid fields are encoded and decoded
    back; a payload that decodes is exactly the encoding of the block it decodes to,
    whose scalars are normalised (the right number of bytes, no stray high bits) and
    whose names are UTF-8; and decoding returns on every payload, however its counts
    and lengths lie. *)
Lemma response_blocks_round_trip payload : slice_ok payload ->
  (forall b, block_valid b -> slice_ok (block_bytes b) ->
    ModelBlock.encode b = Ok (block_bytes b) /\ ModelBlock.decode (block_bytes b) = Ok b) /\
  (forall l, core_valid l -> slice_ok (core_bytes l) ->
    UnsatCoreBlock.encode l = Ok (core_bytes l) /\ UnsatCoreBlock.decode (core_bytes l) = Ok l) /\
  (forall b, simplify_valid b -> slice_ok (simplify_bytes b) ->
    SimplifyBlock.encode b = Ok (simplify_bytes b) /\ SimplifyBlock.decode (simplify_bytes b) = Ok b) /\
  (forall b, optimum_valid b -> slice_ok (optimum_bytes b) ->
    OptimizationValueBlock.encode b = Ok (optimum_bytes b) /\
    OptimizationValueBlock.decode (optimum_bytes b) (has_model b) = Ok b) /\
  (forall b, ModelBlock.decode payload = Ok b -> block_valid b /\ ModelBlock.encode b = Ok payload) /\
  (forall l, UnsatCoreBlock.decode payload = Ok l -> core_valid l /\ UnsatCoreBlock.encode l = Ok payload) /\
  (forall b, SimplifyBlock.decode payload = Ok b -> simplify_valid b /\ SimplifyBlock.encode b = Ok payload) /\
  (forall b want, OptimizationValueBlock.decode payload want = Ok b ->
    optimum_valid b /\ has_model b = want /\ OptimizationValueBlock.encode b = Ok payload) /\
  (forall want, total (ModelBlock.decode payload) /\ total (UnsatCoreBlock.decode payload) /\
    total (SimplifyBlock.decode payload) /\ total (OptimizationValueBlock.decode payload want)).
Proof.
  intros Hs. split_and!.
  - intros b Hb Hsl. split; [by apply encode_block|by apply decode_model].
  - intros l Hl Hsl. split; [by apply encode_core|by apply decode_core].
  - intros b Hb Hsl. split; [by apply encode_simplify|by apply decode_simplify].
  - intros b Hb Hsl. split; [by apply encode_optimum|by apply decode_optimum].
  - intros b [Hb ->]%decode_model_inv; [|done]. split; [done|by apply encode_block].
  - intros l [Hl ->]%decode_core_inv; [|done]. split; [done|by apply encode_core].
  - intros b [Hb ->]%decode_simplify_inv; [|done]. split; [done|by apply encode_simplify].
  - intros b want [[Hb Hw] ->]%decode_optimum_inv; [|done]. split_and!; [done|done|by apply encode_optimum].
  - intros want. split_and!; [by apply total_model|by apply total_core|by apply total_simplify|by apply total_optimum].
Qed.

(** Response frames round-trip.  A response that [encode] accepts is parsed back
    from its bytes, a frame that [parse] accepts is byte for byte the encoding of
    the response returned, whose payload decodes as the status and flags announce,
    and parsing returns on every frame. *)
Lemma response_round_trip r frame : response_valid r -> slice_ok frame ->
  (forall bytes, BinaryResponse.encode r = Ok bytes -> BinaryResponse.parse bytes = Ok r) /\
  (forall r', BinaryResponse.parse frame = Ok r' ->
    response_valid r' /\ BinaryResponse.validate r' = Ok tt /\ BinaryResponse.encode r' = Ok frame) /\
  total (BinaryResponse.parse frame).
Proof.
  intros Hr Hs. split_and!.
  - intros bytes (Hv & Hf & ->)%encode_response_ok; [|done]. by apply parse_response.
  - intros r' (Hr' & Hf & Hv & ->)%parse_response_inv; [|done]. split_and!; [done|done|]. by apply encode_response_ok.
  - by apply parse_response_total.
Qed.

(** ** Witnesses: the model [x = 5] *)

Definition sample_block : list WireModelEntry := [mkWireModelEntry 0 (WireScalar.mk 8 [5])].

Lemma sample_block_valid : block_valid sample_block.
Proof. split; [|done]. repeat constructor; done. Qed.

Lemma sample_block_slice : slice_ok (block_bytes sample_block).
Proof. split; [|done]. apply (codec_bytes (Codec := block_codec)), sample_block_valid. Qed.

Definition sample_response : BinaryResponse.t :=
  BinaryResponse.mk (ResponseEnvelope.mk 7 StSat 1 17) (block_bytes sample_block).

Lemma sample_response_valid : response_valid sample_response.
Proof. split; [done|apply sample_block_slice]. Qed.

(** C28: responses round-trip.  A response that [encode] accepts is parsed back from its
    bytes, a frame that [parse] accepts is byte for byte the encoding of the response
    returned, whose payload decodes as the status and flags announce, and parsing returns
    on every frame.  The blocks of a payload do too: models, unsat cores, simplified
    expressions and optimisation values with valid fields are encoded and decoded back; a
    payload that decodes is exactly the encoding of the block it decodes to, whose scalars are
    normalised (the right number of bytes, no stray high bits) and whose names are UTF-8;
    and decoding returns on every payload, however its counts and lengths lie. *)
Theorem responses_round_trip r frame payload : response_valid r -> slice_ok frame -> slice_ok payload ->
  ((forall bytes, BinaryResponse.encode r = Ok bytes -> BinaryResponse.parse bytes = Ok r) /\
   (forall r', BinaryResponse.parse frame = Ok r' ->
     response_valid r' /\ BinaryResponse.validate r' = Ok tt /\ BinaryResponse.encode r' = Ok frame) /\
   total (BinaryResponse.parse frame)) /\
  (forall b, block_valid b -> slice_ok (block_bytes b) ->
    ModelBlock.encode b = Ok (block_bytes b) /\ ModelBlock.decode (block_bytes b) = Ok b) /\
  (forall l, core_valid l -> slice_ok (core_bytes l) ->
    UnsatCoreBlock.encode l = Ok (core_bytes l) /\ UnsatCoreBlock.decode (core_bytes l) = Ok l) /\
  (forall b, simplify_valid b -> slice_ok (simplify_bytes b) ->
    SimplifyBlock.encode b = Ok (simplify_bytes b) /\ SimplifyBlock.decode (simplify_bytes b) = Ok b) /\
  (forall b, optimum_valid b -> slice_ok (optimum_bytes b) ->
    OptimizationValueBlock.encode b = Ok (optimum_bytes b) /\
    OptimizationValueBlock.decode (optimum_bytes b) (has_model b) = Ok b) /\
  (forall b, ModelBlock.decode payload = Ok b -> block_valid b /\ ModelBlock.encode b = Ok payload) /\
  (forall l, UnsatCoreBlock.decode payload = Ok l -> core_valid l /\ UnsatCoreBlock.encode l = Ok payload) /\
  (forall b, SimplifyBlock.decode payload = Ok b -> simplify_valid b /\ SimplifyBlock.encode b = Ok payload) /\
  (forall b want, OptimizationValueBlock.decode payload want = Ok b ->
    optimum_valid b /\ has_model b = want /\ OptimizationValueBlock.encode b = Ok payload) /\
  (forall want, total (ModelBlock.decode payload) /\ total (UnsatCoreBlock.decode payload) /\
    total (SimplifyBlock.decode payload) /\ total (OptimizationValueBlock.decode payload want)).
Proof. intros Hr Hf Hp. split; [by apply response_round_trip|by apply response_blocks_round_trip]. Qed.

Lemma responses_round_trip_witness : BinaryResponse.parse (response_bytes sample_response) = Ok sample_response /\
  ModelBlock.decode (block_bytes sample_block) = Ok sample_block.
Proof.
  destruct (responses_round_trip sample_response (response_bytes sample_response) (block_bytes sample_block)
    sample_response_valid) as ((H & _) & H' & _).
  - apply response_slice; [apply sample_response_valid|done].
  - exact sample_block_slice.
  - split; [apply H; vm_compute; reflexivity|]. exact (proj2 (H' _ sample_block_valid sample_block_slice)).
Defined.
