(* ===== verification/ServerFacts.v ===== *)
(** * What the server answers

    [handle_binary_request] answers every request with a valid response that carries the
    request's id, and a conclusive response carries what the backend returned, checked
    against the request. *)
From S2P Require Import Prelude Bytes BytesFacts Evaluator EvaluatorFacts Config.
From S2P Require Import WireBase WireBaseFacts WireExpr WireExprFacts WireDag WireRequest WireRequestFacts.
From S2P Require Import WireResponse WireResponseFacts Backend Server.

#[local] Open Scope Z_scope.

(** ** Values of their types

    What the type system gives: machine integers, bytes, UTF-8 strings, vectors of at
    most [isize::MAX] bytes. *)

Definition scalar_typed (s : WireScalar.t) : Prop := is_u32 (WireScalar.width s) /\ Forall is_byte (WireScalar.bytes s).
Definition entry_typed (e : WireModelEntry) : Prop := is_u32 (node_ref e) /\ scalar_typed (entry_value e).
Definition string_typed (s : string) : Prop := utf8_valid (as_bytes s) = true.

Record result_typed (result : QueryResult) : Prop := {
  rt_model m : qr_model result = Some m -> Forall entry_typed m;
  rt_core c : qr_core result = Some c -> Forall string_typed c;
  rt_simplify b : qr_simplify result = Some b -> is_u32 (SimplifyBlock.target_node b) /\ slice_ok (SimplifyBlock.expression b);
  rt_optimization o : qr_optimization result = Some o ->
    scalar_typed (OptimizationValueBlock.optimum o) /\
    forall m, OptimizationValueBlock.model o = Some m -> Forall entry_typed m;
}.

(** A request that was parsed. *)
Record checked (r : BinaryRequest.t) : Prop := {
  ck_valid : request_valid r;
  ck_validated : BinaryRequest.validate r = Ok tt;
}.

Lemma parsed_checked bytes r : slice_ok bytes -> BinaryRequest.parse bytes = Ok r -> checked r.
Proof. intros Hs (Hv & Hc & _)%parse_request_inv; [|done]. by split. Qed.

Lemma checked_expression r : checked r -> slice_ok (BinaryRequest.expression r).
Proof.
  intros [Hr Hv]. pose proof (validate_counts _ _ Hv) as Hc. split; [apply Hr|]. rewrite <- (co_expr _ Hc).
  destruct (rv_envelope _ Hr) as (_ & _ & _ & H & _). unfold is_u32 in H. lia.
Qed.

(** ** What is encoded *)

Lemma encode_entries_inv l out p : Forall entry_typed l -> ModelBlock.encode_entries out l = Ok p -> Forall entry_valid l.
Proof.
  intros H. revert out. induction H as [|e l [Hn [Hw Hb]] _ IH]; intros out; simpl; [constructor|].
  intros (o & E & H)%bind_ok. constructor; [|by eapply IH]. unfold ModelBlock.encode_entry in E.
  apply encode_scalar_inv in E as [E _]; done.
Qed.

Lemma encode_block_inv b p : Forall entry_typed b -> ModelBlock.encode b = Ok p -> block_valid b /\ p = block_bytes b.
Proof.
  intros Hb E. assert (block_valid b) as Hv.
  { unfold ModelBlock.encode in E. apply bind_ok in E as (n & E & H). split; [by eapply encode_entries_inv|].
    unfold try_u32 in E. by destruct (Z.leb_spec (zlen b) u32_max). }
  split; [done|]. rewrite encode_block in E by done. by injection E.
Qed.

Lemma encode_names_inv l out p : UnsatCoreBlock.encode_names out l = Ok p -> Forall (fun s => zlen (as_bytes s) <= u32_max) l.
Proof.
  revert out. induction l as [|s l IH]; intros out; simpl; [constructor|]. intros (n & E & H)%bind_ok.
  constructor; [|by eapply IH]. unfold try_u32 in E. by destruct (Z.leb_spec (zlen (as_bytes s)) u32_max).
Qed.

Lemma encode_core_inv c p : Forall string_typed c -> UnsatCoreBlock.encode c = Ok p -> core_valid c /\ p = core_bytes c.
Proof.
  intros Hc E. assert (core_valid c) as Hv.
  { unfold UnsatCoreBlock.encode in E. apply bind_ok in E as (n & E & H%encode_names_inv). split.
    - by apply Forall_and.
    - unfold try_u32 in E. by destruct (Z.leb_spec (zlen c) u32_max). }
  split; [done|]. rewrite encode_core in E by done. by injection E.
Qed.

Lemma encode_simplify_inv b p : is_u32 (SimplifyBlock.target_node b) -> slice_ok (SimplifyBlock.expression b) ->
  SimplifyBlock.encode b = Ok p -> simplify_valid b /\ p = simplify_bytes b.
Proof.
  intros Ht [Hb _] E. assert (simplify_valid b) as Hv.
  { unfold SimplifyBlock.encode in E. apply bind_ok in E as ([] & Hv & E). apply bind_ok in E as (n & E & _).
    split; [done..| |done]. unfold try_u32 in E. by destruct (Z.leb_spec (zlen (SimplifyBlock.expression b)) u32_max). }
  split; [done|]. rewrite encode_simplify in E by done. by injection E.
Qed.

Lemma encode_optimum_inv o p : scalar_typed (OptimizationValueBlock.optimum o) ->
  (forall m, OptimizationValueBlock.model o = Some m -> Forall entry_typed m) ->
  OptimizationValueBlock.encode o = Ok p -> optimum_valid o /\ p = optimum_bytes o.
Proof.
  intros [Hw Hb] Hm E. assert (optimum_valid o) as Hv.
  { unfold OptimizationValueBlock.encode in E. apply bind_ok in E as (out & E & H).
    apply encode_scalar_inv in E as [Hs _]; [|done..]. split; [done|]. intros m Em. rewrite Em in H.
    apply bind_ok in H as (k & H & _). by apply (encode_block_inv m k (Hm m Em)) in H as [H _]. }
  split; [done|]. rewrite encode_optimum in E by done. by injection E.
Qed.

(** A response that was made by [BinaryResponse::new]. *)
Record sent (id : Z) (r : BinaryResponse.t) : Prop := {
  se_valid : response_valid r;
  se_validated : BinaryResponse.validate r = Ok tt;
  se_flags : rflags_ok (BinaryResponse.envelope r);
  se_id : ResponseEnvelope.request_id (BinaryResponse.envelope r) = id;
}.

Lemma new_sent id status flags payload r : is_u32 id -> is_u8 flags -> Forall is_byte payload ->
  BinaryResponse.new id status flags payload = Ok r ->
  sent id r /\ ResponseEnvelope.status (BinaryResponse.envelope r) = status /\
  ResponseEnvelope.flags (BinaryResponse.envelope r) = flags /\ BinaryResponse.payload r = payload.
Proof.
  intros Hi Hf Hp. unfold BinaryResponse.new.
  intros ([] & H1%response_flags_ok & (n & H2 & ([] & H3 & [= <-])%bind_ok)%bind_ok)%bind_ok. split; [|done].
  split; simpl; [|done..]. split; [|done]. split; [done|]. split; [done|]. simpl. unfold try_u32 in H2.
  destruct (Z.leb_spec (zlen payload) u32_max); [|done]. injection H2 as <-. unfold is_u32, u32_max in *.
  pose proof (zlen_nonneg payload). lia.
Qed.

Lemma sent_bytes id r : sent id r -> BinaryResponse.encode r = Ok (response_bytes r) /\
  BinaryResponse.parse (response_bytes r) = Ok r.
Proof. intros [H1 H2 H3 _]. split; [by apply encode_response_ok|by apply parse_response]. Qed.

Lemma error_sent id message r : is_u32 id -> BinaryResponse.error id message = Ok r ->
  sent id r /\ ResponseEnvelope.status (BinaryResponse.envelope r) = StError.
Proof. intros Hi E. apply new_sent in E as (H & Es & _); [done|done|done|apply as_bytes_bytes]. Qed.

(** ** The checks return *)

Lemma total_validate_entries expr l seen values : total (ModelBlock.validate_entries expr seen values l).
Proof.
  revert seen values. induction l as [|e l IH]; intros seen values; cbn [ModelBlock.validate_entries]; [done|]. cbv zeta.
  apply total_bind; [totals|intros _ _]. apply total_bind; [totals|intros n _]. apply total_bind; [totals|intros _ _].
  apply total_bind; [totals|intros [[s w] c] _]. apply total_bind; [totals|intros name _].
  apply total_bind; [totals|intros _ _]. apply IH.
Qed.

Lemma total_block_check b expr : total (ModelBlock.validate_against_expr b expr).
Proof. apply total_validate_entries. Qed.

Lemma total_view r : checked r -> total (BinaryRequest.expression_view r).
Proof. intros Hr. by apply total_parse_validate, checked_expression. Qed.

Lemma total_allowed expr refs allowed : total (allowed_names expr allowed refs).
Proof.
  revert allowed. induction refs as [|r refs IH]; intros allowed; simpl; [done|].
  apply total_bind; [totals|intros name _]. apply IH.
Qed.

Lemma total_core_names allowed seen names : total (check_core_names allowed seen names).
Proof.
  revert seen. induction names as [|n names IH]; intros seen; simpl; [done|].
  do 2 (apply total_bind; [totals|intros _ _]). apply IH.
Qed.

Lemma total_expr_parse bytes : total (ExprView.parse bytes).
Proof. unfold ExprView.parse, expression_len, exact_slice, read_u8, read_u32. totals. Qed.

#[export] Hint Resolve total_block_check total_allowed total_core_names total_expr_parse : total.

Lemma total_validate_model r m : checked r -> total (validate_model r m).
Proof. intros Hr. unfold validate_model. pose proof (total_view r Hr). totals. Qed.

Lemma total_validate_core r c : checked r -> total (validate_unsat_core r c).
Proof. intros Hr. unfold validate_unsat_core. pose proof (total_view r Hr). totals. Qed.

Lemma total_simplify_check b : slice_ok (SimplifyBlock.expression b) -> total (SimplifyBlock.validate b).
Proof. intros Hb. unfold SimplifyBlock.validate. pose proof (total_parse_validate _ Hb). totals. Qed.

Lemma total_validate_simplify r b : checked r -> slice_ok (SimplifyBlock.expression b) ->
  total (Backend.validate_simplify_result r b) /\ total (Protocol.validate_simplify r b).
Proof.
  intros Hr Hb. unfold validate_simplify_result, Protocol.validate_simplify, SimplifyBlock.expression_buffer, from_bytes.
  pose proof (total_view r Hr). pose proof (total_simplify_check b Hb). split; totals.
Qed.

Lemma total_validate_optimization r o : checked r ->
  total (Backend.validate_optimization r o) /\ total (Protocol.validate_optimization r o).
Proof.
  intros Hr. unfold validate_optimization, Protocol.validate_optimization. pose proof (total_view r Hr). split; totals.
Qed.

Lemma total_scalar_encode s dst : total (WireScalar.encode s dst).
Proof. unfold WireScalar.encode. totals. Qed.
#[export] Hint Resolve total_scalar_encode : total.

Lemma total_encode_entries l out : total (ModelBlock.encode_entries out l).
Proof.
  revert out. induction l as [|e l IH]; intros out; simpl; [done|]. unfold ModelBlock.encode_entry.
  apply total_bind; [totals|intros o _]. apply IH.
Qed.

Lemma total_encode_block b : total (ModelBlock.encode b).
Proof. unfold ModelBlock.encode. apply total_bind; [totals|intros n _]. apply total_encode_entries. Qed.

Lemma total_encode_names l out : total (UnsatCoreBlock.encode_names out l).
Proof. revert out. induction l as [|s l IH]; intros out; simpl; [done|]. apply total_bind; [totals|intros n _]. apply IH. Qed.

Lemma total_encode_core c : total (UnsatCoreBlock.encode c).
Proof. unfold UnsatCoreBlock.encode. apply total_bind; [totals|intros n _]. apply total_encode_names. Qed.

Lemma total_encode_simplify b : slice_ok (SimplifyBlock.expression b) -> total (SimplifyBlock.encode b).
Proof. intros Hb. unfold SimplifyBlock.encode. pose proof (total_simplify_check b Hb). totals. Qed.

Lemma total_encode_optimum o : total (OptimizationValueBlock.encode o).
Proof. unfold OptimizationValueBlock.encode. pose proof total_encode_block. totals. Qed.

(** A payload that is refused for its length is never looked at. *)
Lemma total_new id status flags payload : Forall is_byte payload -> total (BinaryResponse.new id status flags payload).
Proof.
  intros Hp. unfold BinaryResponse.new, validate_response_flags. apply total_bind; [totals|intros _ _].
  apply total_bind; [totals|intros n Hn]. apply total_bind; [|by intros []].
  apply validate_response_total. split; [done|]. simpl. unfold try_u32 in Hn.
  destruct (Z.leb_spec (zlen payload) u32_max); [|done]. unfold u32_max in *. lia.
Qed.

Lemma total_error id message : total (BinaryResponse.error id message).
Proof. apply total_new, as_bytes_bytes. Qed.
#[export] Hint Resolve total_encode_block total_encode_core total_encode_optimum total_error : total.

(** ** The response to a result *)

Section responses.
Context `{ErrorTexts}.

(** A conclusive response carries what the backend returned, checked. *)
Definition conclusive_response (r : BinaryRequest.t) (result : QueryResult) (resp : BinaryResponse.t) : Prop :=
  let want_model := wants r RequestFlags.WANT_MODEL in
  let command := RequestEnvelope.command (BinaryRequest.envelope r) in
  let payload := BinaryResponse.payload resp in
  match ResponseEnvelope.status (BinaryResponse.envelope resp) with
  | StSat => qr_status result = QueryStatus.Sat /\ command <> CmdSimplify /\
      (command = CmdSolve -> want_model = true -> exists m, qr_model result = Some m /\
         validate_model r m = Ok tt /\ ModelBlock.decode payload = Ok m) /\
      (command <> CmdSolve -> exists o o', qr_optimization result = Some o /\
         OptimizationValueBlock.decode payload want_model = Ok o' /\
         OptimizationValueBlock.optimum o' = OptimizationValueBlock.optimum o /\
         (want_model = true -> o' = o /\ is_Some (OptimizationValueBlock.model o)) /\
         Protocol.validate_optimization r o' = Ok tt)
  | StUnsat => qr_status result = QueryStatus.Unsat /\ command <> CmdSimplify /\
      (command = CmdSolve -> wants r RequestFlags.WANT_CORE = true -> exists c, qr_core result = Some c /\
         validate_unsat_core r c = Ok tt /\ UnsatCoreBlock.decode payload = Ok c)
  | StSimplified => qr_status result = QueryStatus.Simplified /\ command = CmdSimplify /\
      exists b, qr_simplify result = Some b /\ Protocol.validate_simplify r b = Ok tt /\ SimplifyBlock.decode payload = Ok b
  | StUnknown => qr_status result = QueryStatus.Unknown
  | StError => True
  end.

(** The outcome of making a response. *)
Definition responds (id : Z) (m : wres BinaryResponse.t) (Q : BinaryResponse.t -> Prop) : Prop :=
  match m with Ok resp => sent id resp /\ Q resp | Err _ => True | Panic => False end.

Lemma responds_new id status flags payload Q : is_u32 id -> is_u8 flags -> Forall is_byte payload ->
  (forall resp, sent id resp -> ResponseEnvelope.status (BinaryResponse.envelope resp) = status ->
     BinaryResponse.payload resp = payload -> Q resp) ->
  responds id (BinaryResponse.new id status flags payload) Q.
Proof.
  intros Hi Hf Hp HQ. unfold responds. pose proof (total_new id status flags payload Hp) as Ht.
  destruct (BinaryResponse.new id status flags payload) as [resp|e|] eqn:E; [|done..].
  apply new_sent in E as (Hs & Es & _ & Ep); [|done..]. split; [done|]. by apply HQ.
Qed.

Lemma responds_error id message Q : is_u32 id ->
  (forall resp, ResponseEnvelope.status (BinaryResponse.envelope resp) = StError -> Q resp) ->
  responds id (BinaryResponse.error id message) Q.
Proof. intros Hi HQ. apply responds_new; [done|done|apply as_bytes_bytes|auto]. Qed.

Lemma responds_or_error id check prefix rest Q : is_u32 id -> total check ->
  (forall resp, ResponseEnvelope.status (BinaryResponse.envelope resp) = StError -> Q resp) ->
  (check = Ok tt -> responds id rest Q) -> responds id (Protocol.or_error check id prefix rest) Q.
Proof.
  intros Hi Ht He Hr. unfold Protocol.or_error. destruct check as [[]|e|]; [by apply Hr|by apply responds_error|done].
Qed.

Lemma responds_bind {A} id (m : wres A) k Q : total m -> (forall a, m = Ok a -> responds id (k a) Q) ->
  responds id (m ≫= k) Q.
Proof. intros Ht Hk. destruct m as [a|e|]; [by apply Hk|done..]. Qed.
End responses.

(** The payload of a response that was sent is a slice. *)
Lemma sent_slice id resp : sent id resp -> slice_ok (BinaryResponse.payload resp).
Proof.
  intros [[(_ & _ & Hl) Hy] Hv _ _]. split; [done|]. apply validate_payload_len in Hv. rewrite Hv in Hl.
  unfold is_u32 in Hl. lia.
Qed.

Section responses_to.
Context `{ErrorTexts}.
Context (r : BinaryRequest.t) (result : QueryResult) (Hr : checked r) (Hres : result_typed result).

Let id : Z := RequestEnvelope.request_id (BinaryRequest.envelope r).
Let Hid : is_u32 id := proj1 (rv_envelope _ (ck_valid _ Hr)).

Lemma says_error resp : ResponseEnvelope.status (BinaryResponse.envelope resp) = StError -> conclusive_response r result resp.
Proof. intros E. unfold conclusive_response. by rewrite E. Qed.

Lemma unknown_responds : qr_status result = QueryStatus.Unknown ->
  responds id (Protocol.unknown_response id (qr_message result)) (conclusive_response r result).
Proof.
  intros Hs. unfold Protocol.unknown_response.
  assert (forall resp, ResponseEnvelope.status (BinaryResponse.envelope resp) = StUnknown ->
    conclusive_response r result resp) as HQ by (intros resp E; unfold conclusive_response; by rewrite E).
  destruct (qr_message result) as [m|]; [case_match|]; (apply responds_new; [exact Hid|done| |auto]);
    [constructor|apply as_bytes_bytes|constructor].
Qed.

Lemma solve_responds : RequestEnvelope.command (BinaryRequest.envelope r) = CmdSolve ->
  responds id (Protocol.solve_response r result) (conclusive_response r result).
Proof.
  intros Hc. unfold Protocol.solve_response. fold id. destruct (qr_status result) eqn:Es.
  - destruct (wants r RequestFlags.WANT_MODEL) eqn:Ew.
    + destruct (qr_model result) as [m|] eqn:Em; [|by apply responds_error, says_error].
      apply responds_or_error; [exact Hid|by apply total_validate_model|apply says_error|]. intros Hm.
      apply responds_bind; [totals|]. intros p Hp. apply encode_block_inv in Hp as [Hb ->]; [|by apply (rt_model _ Hres)].
      apply responds_new; [exact Hid|done|by apply (codec_bytes (Codec := block_codec))|].
      intros resp Hsent Est Hp. unfold conclusive_response. rewrite Est, Hp, Hc, Ew, Em. split_and!; try done.
      intros _ _. exists m. split_and!; [done..|]. apply decode_model; [|done]. rewrite <- Hp. by eapply sent_slice.
    + apply responds_new; [exact Hid|done|constructor|]. intros resp _ Est _. unfold conclusive_response.
      by rewrite Est, Hc, Ew.
  - destruct (wants r RequestFlags.WANT_CORE) eqn:Ew.
    + destruct (qr_core result) as [c|] eqn:Em; [|by apply responds_error, says_error].
      apply responds_or_error; [exact Hid|by apply total_validate_core|apply says_error|]. intros Hm.
      apply responds_bind; [totals|]. intros p Hp. apply encode_core_inv in Hp as [Hb ->]; [|by apply (rt_core _ Hres)].
      apply responds_new; [exact Hid|done| |].
      { unfold core_bytes. apply Forall_app. split; [apply to_le_bytes_shape|].
        by apply (many_bytes name_valid name_bytes UnsatCoreBlock.decode_name), Hb. }
      intros resp Hsent Est Hp. unfold conclusive_response. rewrite Est, Hp, Hc, Ew, Em. split_and!; try done.
      intros _ _. exists c. split_and!; [done..|]. apply decode_core; [|done]. rewrite <- Hp. by eapply sent_slice.
    + apply responds_new; [exact Hid|done|constructor|]. intros resp _ Est _. unfold conclusive_response.
      by rewrite Est, Hc, Ew.
  - by apply unknown_responds.
  - by apply responds_error, says_error.
Qed.

Lemma simplify_responds : RequestEnvelope.command (BinaryRequest.envelope r) = CmdSimplify ->
  responds id (Protocol.simplify_response r result) (conclusive_response r result).
Proof.
  intros Hc. unfold Protocol.simplify_response. fold id. destruct (qr_status result) eqn:Es;
    [by apply responds_error, says_error|by apply responds_error, says_error|by apply unknown_responds|].
  destruct (qr_simplify result) as [b|] eqn:Eb; [|done]. destruct (rt_simplify _ Hres b Eb) as [Ht Hb].
  apply responds_or_error; [exact Hid|by apply total_validate_simplify|apply says_error|]. intros Hv.
  apply responds_bind; [by apply total_encode_simplify|]. intros p Hp. apply encode_simplify_inv in Hp as [Hsv ->]; [|done..].
  apply responds_new; [exact Hid|done| |].
  { unfold simplify_bytes. rewrite !Forall_app. split_and!; [apply to_le_bytes_shape..|apply Hb]. }
  intros resp Hsent Est Hp. unfold conclusive_response. rewrite Est, Hp, Hc, Eb. split_and!; try done.
  exists b. split_and!; [done..|]. apply decode_simplify; [|done]. rewrite <- Hp. by eapply sent_slice.
Qed.

Lemma optimize_responds : RequestEnvelope.command (BinaryRequest.envelope r) = CmdMinimize \/
    RequestEnvelope.command (BinaryRequest.envelope r) = CmdMaximize ->
  responds id (Protocol.optimize_response r result) (conclusive_response r result).
Proof.
  intros Hc. unfold Protocol.optimize_response. fold id. cbv zeta.
  assert (RequestEnvelope.command (BinaryRequest.envelope r) <> CmdSimplify /\
    RequestEnvelope.command (BinaryRequest.envelope r) <> CmdSolve) as [Hc1 Hc2] by (by destruct Hc as [-> | ->]).
  destruct (qr_status result) eqn:Es; [|apply responds_new; [exact Hid|done|constructor|]|by apply unknown_responds|
    by apply responds_error, says_error].
  2:{ intros resp _ Est _. unfold conclusive_response. rewrite Est. split_and!; [done..|]. by intros E. }
  destruct (qr_optimization result) as [o|] eqn:Eo; [|done]. destruct (rt_optimization _ Hres o Eo) as [Ho Hm].
  destruct (wants r RequestFlags.WANT_MODEL) eqn:Ew; cbn [andb].
  - destruct (OptimizationValueBlock.model o) as [m|] eqn:Em; [|by apply responds_error, says_error].
    apply responds_or_error; [exact Hid|by apply total_validate_optimization|apply says_error|]. intros Hv.
    apply responds_bind; [totals|]. intros p Hp. apply encode_optimum_inv in Hp as [Hov ->]; [|done|by rewrite Em].
    apply responds_new; [exact Hid|done| |].
    { unfold optimum_bytes. rewrite Forall_app, Em. split; [by apply (codec_bytes (Codec := scalar_codec)), Hov|].
      apply (codec_bytes (Codec := block_codec)). by apply Hov. }
    intros resp Hsent Est Hp. unfold conclusive_response. rewrite Est, Hp, Eo, Ew. split_and!; try done.
    intros _. exists o, o. split_and!; try done.
    assert (has_model o = true) as <- by (unfold has_model; by rewrite Em).
    apply decode_optimum; [|done]. rewrite <- Hp. by eapply sent_slice.
  - set (o' := OptimizationValueBlock.mk (OptimizationValueBlock.optimum o) None).
    apply responds_or_error; [exact Hid|by apply total_validate_optimization|apply says_error|]. intros Hv.
    apply responds_bind; [totals|]. intros p Hp. apply encode_optimum_inv in Hp as [Hov ->]; [|done|done].
    apply responds_new; [exact Hid|done| |].
    { unfold optimum_bytes. rewrite Forall_app. split; [by apply (codec_bytes (Codec := scalar_codec)), Hov|constructor]. }
    intros resp Hsent Est Hp. unfold conclusive_response. rewrite Est, Hp, Eo, Ew. split_and!; try done.
    intros _. exists o, o'. split_and!; try done.
    apply (decode_optimum o'); [|done]. rewrite <- Hp. by eapply sent_slice.
Qed.

Lemma result_responds : responds id (Protocol.response_from_query_result r result) (conclusive_response r result).
Proof.
  unfold Protocol.response_from_query_result. destruct (RequestEnvelope.command (BinaryRequest.envelope r)) eqn:Ec;
    [by apply solve_responds|by apply simplify_responds|apply optimize_responds; auto..].
Qed.
End responses_to.
