(* ===== verification/BackendFacts.v ===== *)
(** * What backends promise

    [Keeps right b]: whatever a call of [b] observes on a parsed request, the results it
    returns are values of their types and are [right] for the request; it may also fail or
    panic.  The combinators (router, pool, race) keep what their members keep, so a server
    theorem proved against [Keeps] holds of every arrangement of backends. *)
From S2P Require Import Prelude Bytes BytesFacts Evaluator EvaluatorFacts Config.
From S2P Require Import WireBase WireBaseFacts WireExpr WireExprFacts WireDag WireRequest WireRequestFacts.
From S2P Require Import WireResponse WireResponseFacts Backend Server ServerFacts.

#[local] Open Scope Z_scope.

(** The outcome of a call for request [r]. *)
Definition delivers (right : BinaryRequest.t -> QueryResult -> Prop) (r : BinaryRequest.t) (m : wres QueryResult) : Prop :=
  match m with Ok result => result_typed result /\ right r result | Err _ | Panic => True end.

Class Keeps (right : BinaryRequest.t -> QueryResult -> Prop) (b : Backend) : Prop := {
  keeps_handle w r : checked r -> delivers right r (handle b w r);
  keeps_context w r : checked r -> delivers right r (handle_with_context b w r);
}.

(** What a promise has to satisfy to survive a race: it holds of results without
    content, and it does not depend on the budget. *)
Class Contract (right : BinaryRequest.t -> QueryResult -> Prop) : Prop := {
  right_unknown r message : right r (QueryResult.unknown message);
  right_budget r budget result : right (with_budget_ms r budget) result -> right r result;
}.

Lemma unknown_typed message : result_typed (QueryResult.unknown message).
Proof. by split. Qed.

Lemma delivers_unknown right `{!Contract right} r message : delivers right r (Ok (QueryResult.unknown message)).
Proof. split; [apply unknown_typed|apply right_unknown]. Qed.

Lemma delivers_default right `{!Contract right} handle w r :
  (forall w, delivers right r (handle w r)) -> delivers right r (default_handle_with_context handle w r).
Proof.
  intros H. unfold default_handle_with_context. destruct (is_cancelled _ _); [by apply delivers_unknown|apply H].
Qed.

(** ** The router and the pool *)

#[export] Instance router_keeps right simplifier solver : Keeps right simplifier -> Keeps right solver ->
  Keeps right (CommandRouterBackend simplifier solver).
Proof.
  intros H1 H2. split; intros w r Hr; simpl; destruct (RequestEnvelope.command _);
    first [by apply keeps_handle|by apply keeps_context].
Qed.

Lemma route_index_lt `{RouteHash} backends r i : route_index backends r = Some i -> (i < length backends)%nat.
Proof.
  unfold route_index. destruct backends as [|b l]; [done|]. intros [= <-].
  pose proof (Z.mod_pos_bound (route_hash (route_key r)) (zlen (b :: l))) as Hm. unfold zlen in *. simpl length in *. lia.
Qed.

Lemma pooled_handle_keeps `{RouteHash} right `{!Contract right} backends w r : Forall (Keeps right) backends ->
  checked r -> delivers right r (pooled_handle backends w r).
Proof.
  intros Hb Hr. unfold pooled_handle. destruct (route_index backends r) as [i|] eqn:E; [|by apply delivers_unknown].
  apply route_index_lt in E. destruct (lookup_lt_is_Some_2 _ _ E) as [b Eb]. rewrite Eb.
  destruct (Forall_lookup_1 _ _ _ _ Hb Eb). auto.
Qed.

#[export] Instance pool_keeps `{RouteHash} right `{!Contract right} backends :
  Forall (Keeps right) backends -> Keeps right (PooledBackend backends).
Proof.
  intros Hb. split; intros w r Hr; simpl; [by apply pooled_handle_keeps|].
  apply delivers_default; [done|]. intros w'. by apply pooled_handle_keeps.
Qed.

(** Two requests that differ in their ids only are routed alike. *)
Definition with_request_id (r : BinaryRequest.t) (id : Z) : BinaryRequest.t :=
  let env := BinaryRequest.envelope r in
  BinaryRequest.mk
    (RequestEnvelope.mk id (RequestEnvelope.command env) (RequestEnvelope.flags env) (RequestEnvelope.budget_ms env)
       (RequestEnvelope.expr_len env) (RequestEnvelope.assertion_count env) (RequestEnvelope.named_count env)
       (RequestEnvelope.assumption_count env) (RequestEnvelope.target_node env))
    (BinaryRequest.expression r) (BinaryRequest.assertion_roots r) (BinaryRequest.named_assertion_refs r)
    (BinaryRequest.assumption_roots r).

(** ** Races *)

Lemma with_budget_checked r budget : checked r -> is_u32 budget -> checked (with_budget_ms r budget).
Proof.
  intros [Hv Hc] Hb. unfold with_budget_ms. destruct (_ =? 0); [|done]. split.
  - destruct Hv as [(? & ? & ? & ? & ? & ? & ? & ?) ? ? ? ?]. split; [|done..]. by split_and!.
  - exact Hc.
Qed.

(** The checks of artifacts do not look at the budget. *)
Lemma conclusive_budget r budget result :
  QueryResult.is_conclusive_for result (with_budget_ms r budget) = QueryResult.is_conclusive_for result r.
Proof. unfold with_budget_ms. by destruct (_ =? 0). Qed.

Lemma total_conclusive r result : checked r -> result_typed result -> total (QueryResult.is_conclusive_for result r).
Proof.
  intros Hr Ht. unfold QueryResult.is_conclusive_for. cbv zeta. case_match; [|done].
  assert (total (QueryResult.validate_artifacts_for result r)) as H'.
  { unfold QueryResult.validate_artifacts_for, QueryResult.validate_solve_artifacts,
      QueryResult.validate_simplify_artifacts, QueryResult.validate_optimization_artifacts.
    pose proof (fun m => total_validate_model r m Hr). pose proof (fun c => total_validate_core r c Hr).
    pose proof (fun o => proj1 (total_validate_optimization r o Hr)).
    pose proof (fun b Hb => proj1 (total_validate_simplify r b Hr Hb)).
    pose proof (fun b Hb => proj2 (rt_simplify _ Ht b Hb)). destruct (RequestEnvelope.command _); totals; auto. }
  unfold QueryResult.is_ok. by destruct (QueryResult.validate_artifacts_for result r).
Qed.

(** The result of the thread of backend [i] is conclusive for the request. *)
Definition conclusive_at (results : nat -> wres QueryResult) (r : BinaryRequest.t) (i : nat) : Prop :=
  exists result, results i = Ok result /\ QueryResult.is_conclusive_for result r = Ok true.

Section racing.
Context `{ErrorTexts}.
Context (right : BinaryRequest.t -> QueryResult -> Prop) `{!Contract right}.
Context (r : BinaryRequest.t) (Hr : checked r) (results : nat -> wres QueryResult) (drain : bool).

(** What arrives of backend [i] is a result kept to the contract, an error, or nothing. *)
Definition arrives_ok (i : nat) : Prop :=
  forall result, results i = Ok result -> result_typed result /\ right r result.

Definition held_ok (held : option QueryResult) : Prop := forall result, held = Some result ->
  qr_status result = QueryStatus.Unknown /\ result_typed result /\ right r result.

Lemma held_insert held result : held_ok held -> qr_status result = QueryStatus.Unknown ->
  result_typed result -> right r result -> held_ok (get_or_insert held result).
Proof. intros Hh Hs Ht Hw x. destruct held; simpl; [apply Hh|by intros [= <-]]. Qed.

Lemma inconclusive_unknown result : QueryResult.is_conclusive result = false -> qr_status result = QueryStatus.Unknown.
Proof. unfold QueryResult.is_conclusive. by destruct (qr_status result). Qed.

Lemma race_spec received : Forall arrives_ok received -> forall held, held_ok held ->
  match race r results drain received held with
  | Ok (inl result) => drain = true /\ exists before i after, received = before ++ i :: after /\ results i = Ok result /\
      QueryResult.is_conclusive_for result r = Ok true /\ Forall (fun j => ~ conclusive_at results r j) before
  | Ok (inr held) => held_ok held /\ Forall (fun j => ~ conclusive_at results r j) received
  | Err _ => False
  | Panic => drain = false /\ Exists (conclusive_at results r) received
  end.
Proof.
  induction 1 as [|i received Hi _ IH]; intros held Hh; cbn [race]; [done|].
  assert (forall held, held_ok held -> ~ conclusive_at results r i ->
    match race r results drain received held with
    | Ok (inl result) => drain = true /\ exists before j after, i :: received = before ++ j :: after /\ results j = Ok result /\
        QueryResult.is_conclusive_for result r = Ok true /\ Forall (fun j => ~ conclusive_at results r j) before
    | Ok (inr held) => held_ok held /\ Forall (fun j => ~ conclusive_at results r j) (i :: received)
    | Err _ => False
    | Panic => drain = false /\ Exists (conclusive_at results r) (i :: received)
    end) as Hskip.
  { intros h Hh' Hn. specialize (IH h Hh'). destruct (race r results drain received h) as [[result|h']|e|]; [| |done|].
    - destruct IH as (Hd & before & j & after & -> & E & Hc & Hb). split; [done|].
      exists (i :: before), j, after. by split_and!; [..|constructor].
    - destruct IH as [Hh2 Hb]. split; [done|by constructor].
    - destruct IH as [Hd Hex]. split; [done|by apply Exists_cons_tl]. }
  destruct (results i) as [result|e|] eqn:E.
  - destruct (Hi result E) as [Ht Hw]. pose proof (total_conclusive r result Hr Ht) as Hc.
    destruct (QueryResult.is_conclusive_for result r) as [[]|e|] eqn:Ec; [| | |done]; cbn [mbind res_bind].
    + destruct drain; [split; [done|exists [], i, received; by split_and!]|].
      split; [done|]. apply Exists_cons_hd. by exists result.
    + assert (~ conclusive_at results r i) as Hn by (intros (x & Ex & Ec'); congruence).
      destruct (QueryResult.is_conclusive result) eqn:Ei; (apply Hskip; [|done]); apply held_insert; try done.
      * apply right_unknown.
      * by apply inconclusive_unknown.
    + exfalso. unfold QueryResult.is_conclusive_for, QueryResult.is_ok in Ec. cbv zeta in Ec.
      destruct (RequestEnvelope.command _); simpl in Ec; repeat case_match; congruence.
  - apply Hskip; [|intros (x & Ex & _); congruence]. apply held_insert; [done..|apply right_unknown].
  - apply Hskip; [done|]. intros (x & Ex & _); congruence.
Qed.
End racing.

Section racing_backend.
Context `{ErrorTexts}.
Context (right : BinaryRequest.t -> QueryResult -> Prop) `{!Contract right}.
Context (backends : list Backend) (default_budget_ms : option Z).
Context (Hb : Forall (Keeps right) backends) (Hd : is_u32 (default 0 default_budget_ms)).

(** What a race answers, from what the threads send. *)
Definition sends (w : World) (r : BinaryRequest.t) (i : nat) : wres QueryResult :=
  match backends !! i with
  | Some backend => handle_with_context backend (within i w) (with_budget_ms r (effective_budget default_budget_ms r))
  | None => Panic
  end.

Lemma effective_u32 r : checked r -> is_u32 (effective_budget default_budget_ms r).
Proof.
  intros [[(_ & _ & H1 & _) _ _ _ _] _]. unfold effective_budget. by destruct (_ =? 0).
Qed.

Lemma sends_ok w r i : checked r -> arrives_ok right r (sends w r) i.
Proof.
  intros Hr result. unfold sends. destruct (backends !! i) as [b|] eqn:E; [|done]. intros Er.
  pose proof (Forall_lookup_1 _ _ _ _ Hb E) as Hk.
  pose proof (keeps_context (within i w) _ (with_budget_checked r _ Hr (effective_u32 r Hr))) as Hdel.
  rewrite Er in Hdel. destruct Hdel as [Ht Hw]. split; [done|]. by eapply right_budget.
Qed.

(** Every worker can be started and the deadline is an [Instant]. *)
Definition race_starts (w : World) (r : BinaryRequest.t) : bool :=
  workers_start (length backends) w && racing_deadline_exists (effective_budget default_budget_ms r) w.

Lemma racing_many w r : (2 <= length backends)%nat -> racing_handle backends default_budget_ms w r =
  if race_starts w r then
    x ← race r (sends w r) (drain_starts (length backends) w) (arrivals w []) None;
    match x with
    | inl result => Ok result
    | inr held => Ok (default (QueryResult.unknown (if effective_budget default_budget_ms r =? 0
        then "all backends returned no result" else "racing backend deadline elapsed")) held)
    end
  else Panic.
Proof using.
  clear. intros Hl. unfold racing_handle, sends, race_starts. destruct backends as [|b1 [|b2 l]]; [simpl in Hl; lia..|].
  by destruct (workers_start _ w), (racing_deadline_exists _ w).
Qed.

Lemma racing_keeps_handle w r : checked r -> delivers right r (racing_handle backends default_budget_ms w r).
Proof.
  intros Hr. destruct (decide (2 <= length backends)%nat) as [Hl|Hl].
  2:{ unfold racing_handle. destruct backends as [|b1 [|b2 l]]; [by apply delivers_unknown| |simpl in Hl; lia].
    apply Forall_cons in Hb as [Hk _]. by apply keeps_handle. }
  rewrite racing_many by done.
  destruct (race_starts w r); [|done].
  pose proof (race_spec right r Hr (sends w r) (drain_starts (length backends) w) (arrivals w [])
    (Forall_true _ _ (fun i => sends_ok w r i Hr)) None ltac:(done)) as Hs.
  destruct (race r (sends w r) _ (arrivals w []) None) as [[result|held]|e|]; [| |done..]; cbn [mbind res_bind].
  - destruct Hs as (_ & _ & i & _ & _ & E & _). by apply (sends_ok w r i Hr).
  - destruct Hs as [Hh _]. destruct held as [x|]; simpl; [by apply Hh|]. split; [apply unknown_typed|apply right_unknown].
Qed.

#[export] Instance racing_keeps : Keeps right (RacingBackend backends default_budget_ms).
Proof.
  split; intros w r Hr; simpl; [by apply racing_keeps_handle|].
  apply delivers_default; [done|]. intros w'. by apply racing_keeps_handle.
Qed.
End racing_backend.
