(* ===== verification/DispatchFacts.v ===== *)
(** * Dispatch, the cache and a connection

    A binary payload gets a response that parses unless the backend panics; a response from the cache is one
    the backend gave to an equivalent request, so it is one it could give to this one; and
    a connection answers its frames one by one and in order. *)
From stdpp Require Import pretty.
From S2P Require Import Prelude Bits Bytes BytesFacts Evaluator EvaluatorFacts Config.
From S2P Require Import WireBase WireBaseFacts WireExpr WireExprFacts WireDag WireRequest WireRequestFacts.
From S2P Require Import WireResponse WireResponseFacts Backend Server ServerFacts BackendFacts.

#[local] Open Scope Z_scope.

(** ** Error responses *)

Lemma encoded_sent id r : sent id r -> encoded (Ok r) = Ok (response_bytes r).
Proof. intros Hs. apply (sent_bytes id r Hs). Qed.

(** Whatever the message, an error response parses and is not conclusive. *)
Definition inconclusive (resp : BinaryResponse.t) : Prop :=
  ResponseEnvelope.status (BinaryResponse.envelope resp) = StUnknown \/
  ResponseEnvelope.status (BinaryResponse.envelope resp) = StError.

Lemma binary_error_parses message : exists bytes resp, binary_error_response message = Ok bytes /\ slice_ok bytes /\
  BinaryResponse.parse bytes = Ok resp /\ inconclusive resp.
Proof.
  unfold binary_error_response. pose proof (total_error 0 message) as Ht.
  destruct (BinaryResponse.error 0 message) as [r|e|] eqn:E; [| |done].
  - apply error_sent in E as [Hs Es]; [|done]. destruct (sent_bytes _ _ Hs) as [H1 H2].
    exists (response_bytes r), r. unfold encoded. cbn [mbind res_bind]. rewrite H1. split; [done|].
    split; [apply response_slice; [apply Hs|by eapply validate_payload_len, Hs]|]. split; [done|by right].
  - eexists _, _. split; [vm_compute; reflexivity|]. split; [|split; [vm_compute; reflexivity|by left]].
    split; [|done]. by repeat (constructor; [done|]).
Qed.

(** ** A binary payload *)

Section dispatch.
Context `{ErrorTexts} `{TextProtocol}.

(** The response is valid and its id, and what it says, are of the request. *)
Definition replies (w : World) (payload : list Z) (backend : Backend) (resp : BinaryResponse.t) : Prop :=
  inconclusive resp \/
  exists r result, BinaryRequest.parse payload = Ok r /\ handle backend w r = Ok result /\
    ResponseEnvelope.request_id (BinaryResponse.envelope resp) = RequestEnvelope.request_id (BinaryRequest.envelope r) /\
    conclusive_response r result resp.

(** The backend panics on the request of the payload. *)
Definition backend_panics (w : World) (backend : Backend) (payload : list Z) : Prop :=
  exists r, BinaryRequest.parse payload = Ok r /\ handle backend w r = Panic.

Context (right : BinaryRequest.t -> QueryResult -> Prop) (backend : Backend) `{!Keeps right backend}.

(** What [handle_binary_frame] gives. *)
Lemma frame_outcome w payload : slice_ok payload -> is_binary_request_payload payload = true ->
  match Protocol.handle_binary_frame w payload backend with
  | Ok resp => exists id, sent id resp /\ replies w payload backend resp
  | Err _ => True
  | Panic => backend_panics w backend payload
  end.
Proof.
  intros Hs Hb. unfold Protocol.handle_binary_frame. rewrite Hb. cbn [negb].
  assert (forall id m, is_u32 id -> match BinaryResponse.error id m with
    | Ok resp => exists id, sent id resp /\ replies w payload backend resp
    | Err _ => True | Panic => backend_panics w backend payload end) as He.
  { intros id m Hi. pose proof (total_error id m) as Ht. destruct (BinaryResponse.error id m) as [resp|e|] eqn:E; [|done..].
    apply error_sent in E as [H' E']; [|done]. eexists. split; [exact H'|]. left. by right. }
  pose proof (parse_request_total payload Hs) as Ht.
  destruct (BinaryRequest.parse payload) as [r|e|] eqn:E; [|by apply He|done].
  pose proof (parsed_checked _ _ Hs E) as Hr. unfold Protocol.handle_binary_request.
  pose proof (keeps_handle w r Hr) as Hk. destruct (handle backend w r) as [result|e|] eqn:Eh; [|apply He, Hr|by exists r].
  destruct Hk as [Hty _]. pose proof (result_responds r result Hr Hty) as Hd. unfold responds in Hd.
  destruct (Protocol.response_from_query_result r result) as [resp|e|]; [|done..].
  destruct Hd as [Hs' Hc]. eexists. split; [exact Hs'|]. right. exists r, result. split_and!; [done..|apply Hs'|done].
Qed.

(** A binary payload is answered, or the backend panics on its request. *)
Lemma dispatch_outcome w payload : slice_ok payload -> is_binary_request_payload payload = true ->
  match dispatch_payload w payload backend with
  | Ok bytes => slice_ok bytes /\ exists resp, BinaryResponse.parse bytes = Ok resp /\ replies w payload backend resp
  | Err _ => False
  | Panic => backend_panics w backend payload
  end.
Proof.
  intros Hs Hb. unfold dispatch_payload. rewrite Hb. pose proof (frame_outcome w payload Hs Hb) as Hf.
  destruct (Protocol.handle_binary_frame w payload backend) as [resp|e|]; unfold encoded; cbn [mbind res_bind]; [| |done].
  - destruct Hf as (id & Hsent & Hr). destruct (sent_bytes _ _ Hsent) as [H1 H2]. rewrite H1.
    split; [apply response_slice; [apply Hsent|by eapply validate_payload_len, Hsent]|]. by exists resp.
  - destruct (binary_error_parses (wire_error_text e)) as (bytes & resp & -> & Hsl & Ep & Hi).
    split; [done|]. exists resp. split; [done|by left].
Qed.

Lemma dispatch_replies w payload bytes : slice_ok payload -> is_binary_request_payload payload = true ->
  dispatch_payload w payload backend = Ok bytes ->
  slice_ok bytes /\ exists resp, BinaryResponse.parse bytes = Ok resp /\ replies w payload backend resp.
Proof. intros Hs Hb E. pose proof (dispatch_outcome w payload Hs Hb) as Ho. by rewrite E in Ho. Qed.

(** A panic of the backend is one of the dispatcher: nothing catches it. *)
Lemma dispatch_panics w payload : is_binary_request_payload payload = true -> backend_panics w backend payload ->
  dispatch_payload w payload backend = Panic.
Proof.
  intros Hb (r & E & Eh). unfold dispatch_payload, Protocol.handle_binary_frame, Protocol.handle_binary_request.
  by rewrite Hb, E, Eh.
Qed.
End dispatch.

(** ** Request ids *)

(** Results do not depend on the id of the request. *)
Class IdBlind (b : Backend) : Prop := {
  blind_handle w r id : handle b w (with_request_id r id) = handle b w r;
  blind_context w r id : handle_with_context b w (with_request_id r id) = handle_with_context b w r;
}.

#[export] Instance router_blind simplifier solver : IdBlind simplifier -> IdBlind solver ->
  IdBlind (CommandRouterBackend simplifier solver).
Proof.
  intros H1 H2. split; intros w r id; simpl; destruct (RequestEnvelope.command _);
    first [apply blind_handle|apply blind_context].
Qed.

Lemma pooled_blind `{RouteHash} backends w r id : Forall IdBlind backends ->
  pooled_handle backends w (with_request_id r id) = pooled_handle backends w r.
Proof.
  intros Hb. unfold pooled_handle. change (route_index backends (with_request_id r id)) with (route_index backends r).
  destruct (route_index backends r) as [i|]; [|done]. destruct (backends !! i) as [b|] eqn:E; [|done].
  destruct (Forall_lookup_1 _ _ _ _ Hb E). auto.
Qed.

#[export] Instance pool_blind `{RouteHash} backends : Forall IdBlind backends -> IdBlind (PooledBackend backends).
Proof.
  intros Hb. split; intros w r id; simpl; [by apply pooled_blind|]. unfold default_handle_with_context.
  by rewrite pooled_blind.
Qed.

Lemma with_budget_id r id budget : with_budget_ms (with_request_id r id) budget = with_request_id (with_budget_ms r budget) id.
Proof. unfold with_budget_ms. cbn. by destruct (_ =? 0). Qed.

Lemma race_ext `{ErrorTexts} r r' results results' drain received held : (forall i, results i = results' i) ->
  (forall result, QueryResult.is_conclusive_for result r = QueryResult.is_conclusive_for result r') ->
  race r results drain received held = race r' results' drain received held.
Proof.
  intros Hres Hc. revert held. induction received as [|i l IH]; intros held; cbn [race]; [done|]. rewrite Hres.
  destruct (results' i) as [x|e|]; [|apply IH..]. rewrite Hc. destruct (QueryResult.is_conclusive_for x r') as [[]|e|];
    cbn [mbind res_bind]; [done| |done..]. destruct (QueryResult.is_conclusive x); apply IH.
Qed.

Lemma racing_blind_handle `{ErrorTexts} backends d w r id : Forall IdBlind backends ->
  racing_handle backends d w (with_request_id r id) = racing_handle backends d w r.
Proof.
  intros Hb. destruct (decide (2 <= length backends)%nat) as [Hl|Hl].
  2:{ unfold racing_handle. destruct backends as [|b1 [|b2 l]]; [done| |simpl in Hl; lia].
    apply Forall_cons in Hb as [Hk _]. apply blind_handle. }
  rewrite !racing_many by done. change (effective_budget d (with_request_id r id)) with (effective_budget d r).
  change (race_starts backends d w (with_request_id r id)) with (race_starts backends d w r).
  destruct (race_starts backends d w r); [|done].
  erewrite race_ext; [done| |done]. intros i. unfold sends. change (effective_budget d (with_request_id r id)) with (effective_budget d r).
  rewrite with_budget_id. destruct (backends !! i) as [b|] eqn:E; [|done].
  destruct (Forall_lookup_1 _ _ _ _ Hb E). auto.
Qed.

#[export] Instance racing_blind `{ErrorTexts} backends d : Forall IdBlind backends -> IdBlind (RacingBackend backends d).
Proof.
  intros Hb. split; intros w r id; simpl; [by apply racing_blind_handle|]. unfold default_handle_with_context.
  by rewrite racing_blind_handle.
Qed.

(** ** Patching an id *)

Definition with_response_id (r : BinaryResponse.t) (id : Z) : BinaryResponse.t :=
  let env := BinaryResponse.envelope r in
  BinaryResponse.mk (ResponseEnvelope.mk id (ResponseEnvelope.status env) (ResponseEnvelope.flags env)
    (ResponseEnvelope.payload_len env)) (BinaryResponse.payload r).

Lemma put_id_at magic old rest id : length magic = 4%nat -> length old = 4%nat ->
  put_request_id (magic ++ old ++ rest) id = magic ++ id ++ rest.
Proof.
  intros Hm Ho. unfold put_request_id. rewrite (take_app_length' magic) by done.
  by rewrite (app_assoc magic old rest), (drop_app_length' (magic ++ old)) by (rewrite length_app; lia).
Qed.

Lemma with_id_bytes r id : put_request_id (request_bytes r) (to_le_bytes 4 id) = request_bytes (with_request_id r id).
Proof.
  unfold request_bytes, envelope_bytes. rewrite <- !app_assoc. apply put_id_at; [done|apply to_le_bytes_shape].
Qed.

Lemma with_response_id_bytes r id :
  put_request_id (response_bytes r) (to_le_bytes 4 id) = response_bytes (with_response_id r id).
Proof.
  unfold response_bytes, renvelope_bytes. rewrite <- !app_assoc. apply put_id_at; [done|apply to_le_bytes_shape].
Qed.

Lemma parse_with_id payload r id : slice_ok payload -> is_u32 id -> BinaryRequest.parse payload = Ok r ->
  BinaryRequest.parse (put_request_id payload (to_le_bytes 4 id)) = Ok (with_request_id r id).
Proof.
  intros Hs Hi (Hv & Hval & Hf & ->)%parse_request_inv; [|done]. rewrite with_id_bytes. apply parse_request.
  - destruct Hv as [(? & ? & ? & ? & ? & ? & ? & ?) ? ? ? ?]. split; [|done..]. by split_and!.
  - exact (validate_counts (with_request_id r id) tt Hval).
  - exact Hf.
  - exact Hval.
Qed.

Lemma new_with_id id id' status flags payload :
  BinaryResponse.new id' status flags payload = (fun r => with_response_id r id') <$> BinaryResponse.new id status flags payload.
Proof.
  unfold BinaryResponse.new. destruct (validate_response_flags flags) as [[]|e|]; [|done..]. cbn [mbind res_bind].
  destruct (try_u32 (zlen payload) "response payload") as [n|e|]; [|done..]. cbn [mbind res_bind].
  change (BinaryResponse.validate (BinaryResponse.mk (ResponseEnvelope.mk id' status flags n) payload))
    with (BinaryResponse.validate (BinaryResponse.mk (ResponseEnvelope.mk id status flags n) payload)).
  by destruct (BinaryResponse.validate _).
Qed.

Lemma fmap_bind_new {A} (m : wres A) id id' status flags (f : A -> list Z) :
  (p ← m; BinaryResponse.new id' status flags (f p)) =
  (fun r => with_response_id r id') <$> (p ← m; BinaryResponse.new id status flags (f p)).
Proof. destruct m; [apply new_with_id|done..]. Qed.

Section blind.
Context `{ErrorTexts}.

Lemma or_error_with_id check id id' prefix rest rest' :
  rest' = (fun r => with_response_id r id') <$> rest ->
  Protocol.or_error check id' prefix rest' = (fun r => with_response_id r id') <$> Protocol.or_error check id prefix rest.
Proof. intros ->. destruct check; [done|apply new_with_id|done]. Qed.

(** A response only depends on the request's id in its own. *)
Lemma response_with_id r id result :
  Protocol.response_from_query_result (with_request_id r id) result =
  (fun resp => with_response_id resp id) <$> Protocol.response_from_query_result r result.
Proof.
  unfold Protocol.response_from_query_result, Protocol.solve_response, Protocol.simplify_response,
    Protocol.optimize_response, Protocol.unknown_response, BinaryResponse.error. cbv zeta.
  change (wants (with_request_id r id)) with (wants r).
  change (RequestEnvelope.command (BinaryRequest.envelope (with_request_id r id)))
    with (RequestEnvelope.command (BinaryRequest.envelope r)).
  change (RequestEnvelope.request_id (BinaryRequest.envelope (with_request_id r id))) with id.
  change (Protocol.validate_model (with_request_id r id)) with (Protocol.validate_model r).
  change (Protocol.validate_unsat_core (with_request_id r id)) with (Protocol.validate_unsat_core r).
  change (Protocol.validate_simplify (with_request_id r id)) with (Protocol.validate_simplify r).
  change (Protocol.validate_optimization (with_request_id r id)) with (Protocol.validate_optimization r).
  destruct (RequestEnvelope.command _), (qr_status result); repeat case_match;
    first [done|apply new_with_id|apply or_error_with_id, (fmap_bind_new _ _ _ _ _ (fun p => p))].
Qed.
End blind.

(** ** Answers from the cache *)

Lemma error_not_cacheable message bytes : binary_error_response message = Ok bytes ->
  is_cacheable_binary_response bytes = Ok false.
Proof.
  intros E. destruct (binary_error_parses message) as (bytes' & resp & E' & _ & Ep & Hi).
  assert (bytes' = bytes) as -> by congruence. unfold is_cacheable_binary_response. rewrite Ep.
  by destruct Hi as [-> | ->].
Qed.

Lemma sent_cacheable id resp : sent id resp -> is_cacheable_binary_response (response_bytes resp) = Ok true ->
  ~ inconclusive resp.
Proof.
  intros Hs. unfold is_cacheable_binary_response. rewrite (proj2 (sent_bytes _ _ Hs)). by intros [=] [E|E]; rewrite E in *.
Qed.

Lemma sent_with_id id resp id' : is_u32 id' -> sent id resp -> sent id' (with_response_id resp id').
Proof. intros Hi [[(_ & Hf & Hl) Hp] Hv Hfl _]. split; [split; [by split_and!|exact Hp]|exact Hv|exact Hfl|done]. Qed.

Section cache.
Context `{ErrorTexts} `{TextProtocol}.
Context (right : BinaryRequest.t -> QueryResult -> Prop) (backend : Backend) `{!Keeps right backend, !IdBlind backend}.

(** A payload whose response is worth keeping is a request, and the backend's result
    makes the response. *)
Lemma dispatch_conclusive w payload bytes : slice_ok payload -> is_binary_request_payload payload = true ->
  dispatch_payload w payload backend = Ok bytes -> is_cacheable_binary_response bytes = Ok true ->
  exists r result resp, BinaryRequest.parse payload = Ok r /\ handle backend w r = Ok result /\
    Protocol.response_from_query_result r result = Ok resp /\
    sent (RequestEnvelope.request_id (BinaryRequest.envelope r)) resp /\ bytes = response_bytes resp.
Proof.
  intros Hs Hb. unfold dispatch_payload. rewrite Hb. unfold Protocol.handle_binary_frame. rewrite Hb. cbn [negb].
  assert (forall id m, is_u32 id -> encoded (BinaryResponse.error id m) = Ok bytes ->
    is_cacheable_binary_response bytes = Ok true -> False) as Hno.
  { intros id m Hi E Hc. unfold encoded in E. apply bind_ok in E as (resp & E & En). apply error_sent in E as [Hse Est]; [|done].
    rewrite (proj1 (sent_bytes _ _ Hse)) in En. injection En as <-. apply (sent_cacheable _ _ Hse Hc). by right. }
  assert (forall id m (X : wres (list Z)), is_u32 id -> X = encoded (BinaryResponse.error id m) ->
    match X with Ok bytes => Ok bytes | Err err => binary_error_response (wire_error_text err) | Panic => Panic end = Ok bytes ->
    is_cacheable_binary_response bytes = Ok true -> False) as Hno'.
  { intros id m X Hi -> E Hc. destruct (encoded (BinaryResponse.error id m)) as [x|e|] eqn:Ex; [|apply error_not_cacheable in E; congruence|done].
    injection E as ->. by eapply Hno. }
  destruct (BinaryRequest.parse payload) as [r|e|] eqn:E; [|intros E1 E2; exfalso; by eapply (Hno' 0)|done].
  pose proof (parsed_checked _ _ Hs E) as Hr. pose proof (proj1 (rv_envelope _ (ck_valid _ Hr))) as Hid.
  unfold Protocol.handle_binary_request. pose proof (keeps_handle w r Hr) as Hk.
  destruct (handle backend w r) as [result|e|] eqn:Eh; [|intros E1 E2; exfalso; by eapply Hno'|done].
  destruct Hk as [Hty _]. pose proof (result_responds r result Hr Hty) as Hd. unfold responds in Hd.
  destruct (Protocol.response_from_query_result r result) as [resp|e|] eqn:Er; [| |done].
  - destruct Hd as [Hse _]. unfold encoded. cbn [mbind res_bind]. rewrite (proj1 (sent_bytes _ _ Hse)). intros [= <-] Hc.
    by exists r, result, resp.
  - unfold encoded. cbn [mbind res_bind]. intros E1%error_not_cacheable E2. congruence.
Qed.

(** The same response, rebound, is the response to the payload with another id. *)
Lemma dispatch_rebound w payload bytes id : slice_ok payload -> is_binary_request_payload payload = true -> is_u32 id ->
  dispatch_payload w payload backend = Ok bytes -> is_cacheable_binary_response bytes = Ok true ->
  dispatch_payload w (put_request_id payload (to_le_bytes 4 id)) backend = Ok (rebind_cached_response bytes (Some id)).
Proof.
  intros Hs Hb Hi E Hc. destruct (dispatch_conclusive w payload bytes Hs Hb E Hc) as (r & result & resp & Ep & Eh & Er & Hse & ->).
  pose proof (parse_with_id payload r id Hs Hi Ep) as Ep'.
  assert (is_binary_request_payload (put_request_id payload (to_le_bytes 4 id)) = true) as Hb'.
  { apply parse_request_inv in Ep as (_ & _ & _ & ->); [|done]. rewrite with_id_bytes.
    unfold is_binary_request_payload. rewrite zlen_request. apply andb_true_iff. split; [apply Z.leb_le|by apply bool_decide_eq_true].
    pose proof (zlen_nonneg (BinaryRequest.expression (with_request_id r id))).
    pose proof (zlen_nonneg (BinaryRequest.assertion_roots (with_request_id r id))).
    pose proof (zlen_nonneg (BinaryRequest.named_assertion_refs (with_request_id r id))).
    pose proof (zlen_nonneg (BinaryRequest.assumption_roots (with_request_id r id))). lia. }
  unfold dispatch_payload, Protocol.handle_binary_frame. rewrite Hb', Ep'. cbn [negb].
  unfold Protocol.handle_binary_request. rewrite blind_handle, Eh, response_with_id, Er. unfold encoded. cbn [fmap res_fmap mbind res_bind].
  pose proof (sent_with_id _ _ id Hi Hse) as Hse'. rewrite (proj1 (sent_bytes _ _ Hse')).
  unfold rebind_cached_response. rewrite (proj2 (andb_true_iff _ _)); [by rewrite with_response_id_bytes|].
  split; [apply Z.leb_le|by apply bool_decide_eq_true]. unfold response_bytes. rewrite zlen_app, zlen_renvelope.
  pose proof (zlen_nonneg (BinaryResponse.payload resp)). lia.
Qed.
End cache.

(** ** Runs of the service *)

Section service.
Context `{ErrorTexts} `{TextProtocol}.
Context (right : BinaryRequest.t -> QueryResult -> Prop) (backend : Backend) `{!Keeps right backend, !IdBlind backend}.

(** The response is one the backend can give to the payload. *)
Definition genuine (payload response : list Z) : Prop := exists w, dispatch_payload w payload backend = Ok response.

(** An entry is a conclusive response to a request with its key. *)
Definition entry_genuine (key response : list Z) : Prop := exists payload, slice_ok payload /\
  is_binary_request_payload payload = true /\ key = cache_key_for_payload payload /\
  genuine payload response /\ is_cacheable_binary_response response = Ok true.

Record cache_ok (n k m : Z) (c : ResponseCache) : Prop := {
  co_limits : max_entries c = n /\ max_key_bytes c = k /\ max_response_bytes c = m;
  co_genuine key response : cache_entries c !! key = Some response -> entry_genuine key response;
  co_sizes key response : cache_entries c !! key = Some response -> zlen key <= k /\ zlen response <= m;
  co_entries : ResponseCache.len c <= n;
}.

Record service_ok (n k m : Z) (s : Service) : Prop := {
  so_cache : cache_ok n k m (sv_cache s);
  so_flight conn payload : in_flight s !! conn = Some payload -> slice_ok payload /\ is_binary_request_payload payload = true;
}.

Lemma uses_cache_inv payload c c' : uses_cache payload (Some c) = Some c' -> c' = c /\
  is_binary_request_payload payload = true /\ ResponseCache.accepts_payload c payload = true.
Proof. unfold uses_cache. destruct (_ && _) eqn:E; [|done]. intros [= <-]. by apply andb_true_iff in E. Qed.

Lemma lookup_ok n k m c key found c' : cache_ok n k m c -> ResponseCache.lookup c key = (found, c') ->
  found = cache_entries c !! key /\ cache_ok n k m c'.
Proof. intros [? ? ? ?] [= <- <-]. by split. Qed.

Lemma insert_ok n k m c key response : 0 <= n -> cache_ok n k m c -> entry_genuine key response ->
  cache_ok n k m (ResponseCache.insert c key response).
Proof.
  intros Hn [(E1 & E2 & E3) Hg Hs Hl] He. unfold ResponseCache.insert. rewrite E1, E2, E3.
  destruct ((n =? 0) || (k <? zlen key) || (m <? zlen response)) eqn:Eg; [by split|].
  rewrite !orb_false_iff, Z.eqb_neq, !Z.ltb_ge in Eg. destruct Eg as [[En Ek] Em]. cbv zeta.
  assert (forall entries : gmap (list Z) (list Z), entries ⊆ cache_entries c -> Z.of_nat (size entries) < n ->
    forall s, cache_ok n k m (mkResponseCache (<[key := response]> entries) s n k m)) as Hins.
  { intros entries Hsub Hlt s. split; simpl; [done|..].
    - intros key' r' [[<- <-]|[_ Hx]]%lookup_insert_Some; [done|]. apply Hg. by eapply lookup_weaken.
    - intros key' r' [[<- <-]|[_ Hx]]%lookup_insert_Some; [done|]. apply (Hs key'). by eapply lookup_weaken.
    - unfold ResponseCache.len. simpl. rewrite map_size_insert. case_match; simpl; lia. }
  destruct (Z.leb_spec n (ResponseCache.len c)) as [Hle|Hlt]; apply Hins; try done.
  - apply map_empty_subseteq.
  - rewrite map_size_empty. lia.
Qed.

Lemma store_ok n k m c payload w response c' : 0 <= n -> cache_ok n k m c -> slice_ok payload ->
  is_binary_request_payload payload = true -> dispatch_payload w payload backend = Ok response ->
  store_response c (cache_key_for_payload payload) response = Ok c' -> cache_ok n k m c'.
Proof.
  intros Hn Hc Hs Hb Ed. unfold store_response. destruct (is_cacheable_binary_response response) as [b|e|] eqn:Ec; [|done..].
  cbn [mbind res_bind]. destruct b; intros [= <-]; [|done]. apply insert_ok; [done..|]. exists payload. split_and!; try done.
  by exists w.
Qed.

(** Payloads with one key differ in their ids only. *)
Lemma same_key p p' : is_binary_request_payload p = true -> is_binary_request_payload p' = true ->
  cache_key_for_payload p = cache_key_for_payload p' ->
  p = p' \/ 8 <= zlen p /\ 8 <= zlen p' /\ p = put_request_id p' (subslice p 4 4).
Proof.
  intros Hb Hb'. unfold cache_key_for_payload. rewrite Hb, Hb'. cbn [andb].
  assert (forall l z, 8 <= zlen l -> length z = 4%nat -> zlen (put_request_id l z) = zlen l) as Hlen.
  { intros l z Hl Hz. unfold put_request_id, zlen in *. rewrite !length_app, length_take, length_drop, Hz. lia. }
  destruct (Z.leb_spec 8 (zlen p)) as [H1|H1], (Z.leb_spec 8 (zlen p')) as [H2|H2]; intros E.
  - right. split_and!; [done..|]. unfold put_request_id in *.
    assert (length (take 4 p) = length (take 4 p')) as Ht by (unfold zlen in *; rewrite !length_take; lia).
    apply app_inj_1 in E as [E1 E2]; [|done]. injection E2 as E2. rewrite <- E1, <- E2. unfold subslice.
    change (Z.to_nat 4) with 4%nat. rewrite <- (take_drop 4 p) at 1. f_equal. rewrite <- (take_drop 4 (drop 4 p)) at 1.
    by rewrite drop_drop.
  - exfalso. pose proof (Hlen p [0; 0; 0; 0] H1 eq_refl). rewrite E in *. lia.
  - exfalso. pose proof (Hlen p' [0; 0; 0; 0] H2 eq_refl). rewrite <- E in *. lia.
  - by left.
Qed.

(** A cached response, rebound, is genuine for every payload with its key. *)
Lemma hit_genuine key response payload : entry_genuine key response -> slice_ok payload ->
  is_binary_request_payload payload = true -> key = cache_key_for_payload payload ->
  genuine payload (rebind_cached_response response (binary_request_id payload)).
Proof.
  intros (p & Hs & Hb & -> & (w & Ed) & Hc) Hs' Hb' Ek. exists w.
  assert (forall r, binary_request_id payload = Some r -> r = bval (subslice payload 4 4) /\ 8 <= zlen payload) as Hid.
  { intros r. unfold binary_request_id. rewrite Hb'. cbn [andb]. destruct (Z.leb_spec 8 (zlen payload)); [|done]. by intros [= <-]. }
  assert (8 <= zlen payload -> is_u32 (bval (subslice payload 4 4)) /\
    to_le_bytes 4 (bval (subslice payload 4 4)) = subslice payload 4 4) as Hbytes.
  { intros Hl. assert (Forall is_byte (subslice payload 4 4)) as Hy by (apply Forall_take, Forall_drop, Hs').
    assert (length (subslice payload 4 4) = 4%nat) as Hn
      by (unfold subslice, zlen in *; rewrite length_take, length_drop; lia).
    pose proof (le_bytes_bval _ Hy) as Hle. pose proof (bval_bound _ Hy) as Hbd. pose proof (bval_nonneg _ Hy).
    rewrite Hn in Hle, Hbd. split; [|done]. unfold is_u32. change (2 ^ 32) with (pow2 (8 * 4)). lia. }
  destruct (same_key _ _ Hb' Hb (eq_sym Ek)) as [->|(H1 & H2 & E)].
  - destruct (binary_request_id p) as [id|] eqn:Eid; [|done]. destruct (Hid id eq_refl) as [-> Hl].
    destruct (Hbytes Hl) as [Hu Hle]. pose proof (dispatch_rebound right backend w p response _ Hs Hb Hu Ed Hc) as Hr.
    rewrite Hle in Hr. assert (put_request_id p (subslice p 4 4) = p) as Hp; [|by rewrite Hp in Hr].
    unfold put_request_id, subslice. change (Z.to_nat 4) with 4%nat.
    rewrite <- (take_drop 4 p) at 4. f_equal. rewrite <- (take_drop 4 (drop 4 p)) at 2. by rewrite drop_drop.
  - assert (binary_request_id payload = Some (bval (subslice payload 4 4))) as ->.
    { unfold binary_request_id. rewrite Hb'. cbn [andb]. by rewrite (proj2 (Z.leb_le _ _)). }
    destruct (Hbytes H1) as [Hu Hle]. pose proof (dispatch_rebound right backend w p response _ Hs Hb Hu Ed Hc) as Hr.
    by rewrite Hle, <- E in Hr.
Qed.

Lemma step_ok n k m s label s' : 0 <= n -> service_ok n k m s -> service_step backend s label s' ->
  service_ok n k m s' /\ forall p r, label = Some (p, r) -> genuine p r.
Proof.
  intros Hn [Hc Hf] Hstep. destruct Hstep as [s payload c c' response Hs Hu Hl|s conn payload c c' Hs Hu Hx Hl
    |s conn payload w response c Hx Hd Hst|s payload w response Hs Hu Hd].
  - destruct (uses_cache_inv _ _ _ Hu) as (-> & Hb & _). apply (lookup_ok n k m) in Hl as [El Hc']; [|done]. split; [by split|].
    intros p r [= <- <-]. eapply hit_genuine; [by eapply (co_genuine _ _ _ _ Hc)|done..].
  - destruct (uses_cache_inv _ _ _ Hu) as (-> & Hb & _). apply (lookup_ok n k m) in Hl as [El Hc']; [|done].
    split; [|done]. split; [done|]. simpl. intros conn' p' [[_ <-]|[_ Hp]]%lookup_insert_Some; [done|by eapply Hf].
  - destruct (Hf _ _ Hx) as [Hs Hb]. split.
    + split; simpl; [by eapply (store_ok n k m)|]. intros conn' p' [_ Hp]%lookup_delete_Some. by eapply Hf.
    + intros p r [= <- <-]. by exists w.
  - split; [by split|]. intros p r [= <- <-]. by exists w.
Qed.

Lemma fresh_ok n k m : 0 <= n -> service_ok n k m (mkService (ResponseCache.with_limits n k m) ∅).
Proof. intros Hn. split; [|done]. by split. Qed.

Lemma run_ok n k m start answers s : 0 <= n -> service_ok n k m start -> service_run backend start answers s ->
  service_ok n k m s /\ forall p r, (p, r) ∈ answers -> genuine p r.
Proof.
  intros Hn H0'. induction 1 as [|answers s label s' _ [Hs Ha] Hstep]; [split; [done|by intros p r ?%elem_of_nil]|].
  destruct (step_ok n k m _ _ _ Hn Hs Hstep) as [Hs' Hl]. split; [done|]. intros p r.
  destruct label as [[p' r']|]; [|apply Ha]. intros [[= <- <-]|Hin]%elem_of_cons; [by apply Hl|by apply Ha].
Qed.

Lemma run_one s p r s' : service_step backend s (Some (p, r)) s' -> service_run backend s [(p, r)] s'.
Proof. intros Hstep. exact (service_next backend s [] s (Some (p, r)) s' (service_start backend s) Hstep). Qed.

Lemma run_two s s1 p r s' : service_step backend s None s1 -> service_step backend s1 (Some (p, r)) s' ->
  service_run backend s [(p, r)] s'.
Proof.
  intros H1 H2. apply (service_next backend s [] s1 (Some (p, r)) s'); [|done].
  exact (service_next backend s [] s None s1 (service_start backend s) H1).
Qed.

(** [dispatch_payload_with_cache] is such a run: one connection, uninterrupted. *)
Lemma cached_dispatch_run w payload c response c' conn flight : slice_ok payload -> flight !! conn = None ->
  dispatch_payload_with_cache w payload backend (Some c) = (Ok response, Some c') ->
  service_run backend (mkService c flight) [(payload, response)] (mkService c' flight).
Proof.
  intros Hs Hf. unfold dispatch_payload_with_cache. destruct (uses_cache payload (Some c)) as [c1|] eqn:Eu.
  - pose proof (uses_cache_inv _ _ _ Eu) as (-> & _). cbv zeta.
    destruct (ResponseCache.lookup c (cache_key_for_payload payload)) as [[x|] c2] eqn:El.
    + intros [= <- <-]. apply run_one. by apply (cache_hit backend (mkService c flight) payload c c2 x).
    + destruct (dispatch_payload w payload backend) as [x|e|] eqn:Ed; [|done..].
      destruct (store_response c2 _ x) as [c3|e|] eqn:Est; [|done..]. intros [= <- <-].
      apply (run_two _ (mkService c2 (<[conn := payload]> flight))).
      * by apply (cache_miss backend (mkService c flight) conn payload c c2).
      * rewrite <- (delete_insert_id flight conn payload Hf) at 2.
        exact (miss_answered backend (mkService c2 (<[conn := payload]> flight)) conn payload w x c3
          (lookup_insert_eq _ _ _) Ed Est).
  - intros [= Ed <-]. apply run_one. by apply (cache_bypassed backend (mkService c flight) payload w).
Qed.
End service.

(** ** Lengths of error texts *)

Lemma size_div10 x : (0 < x)%N -> (N.size (x / 10) < N.size x)%N.
Proof.
  intros Hx. destruct (decide (x / 10 = 0)%N) as [->|Hne].
  { rewrite (N.size_log2 x) by lia. change (N.size 0) with 0%N. lia. }
  rewrite !N.size_log2 by lia. apply (proj1 (N.succ_lt_mono _ _)), N.log2_lt_pow2; [by apply N.neq_0_lt_0|].
  assert (x < 2 ^ N.succ (N.log2 x))%N as Hl by (apply N.log2_spec; lia).
  rewrite N.pow_succ_r' in Hl. apply N.Div0.div_lt_upper_bound. lia.
Qed.

Lemma pretty_go_length x : forall s, (String.length (pretty_N_go x s) <= N.to_nat (N.size x) + String.length s)%nat.
Proof.
  induction (N.lt_wf_0 x) as [x _ IH]. intros s. destruct (decide (0 < x)%N) as [Hx|Hx].
  - rewrite pretty_N_go_step by done. pose proof (size_div10 x Hx) as Hs.
    specialize (IH (x / 10)%N (N.div_lt x 10 Hx ltac:(lia)) (String (pretty_N_char (x `mod` 10)) s)). simpl in IH. lia.
  - assert (x = 0%N) as -> by lia. rewrite pretty_N_go_0. lia.
Qed.

Lemma pretty_length z : 0 <= z < 2 ^ 63 -> (String.length (pretty z) <= 64)%nat.
Proof.
  intros Hz. destruct z as [|p|p]; [simpl; lia| |lia].
  change (String.length (pretty (Z.pos p))) with (String.length (pretty (N.pos p))). unfold pretty, pretty_N.
  rewrite decide_False by done. pose proof (pretty_go_length (N.pos p) "") as Hp. simpl String.length in Hp at 2.
  rewrite N.size_log2 in Hp by done. assert (N.log2 (N.pos p) < 63)%N as Hl by (apply N.log2_lt_pow2; lia). lia.
Qed.

Lemma zlen_as_bytes s : zlen (as_bytes s) = Z.of_nat (String.length s).
Proof. unfold zlen, as_bytes. rewrite length_fmap. f_equal. induction s as [|a s IH]; [done|]. simpl. by rewrite IH. Qed.

Lemma length_cat s t : String.length (s +:+ t) = (String.length s + String.length t)%nat.
Proof. induction s as [|a s IH]; [done|]. change (String a s +:+ t) with (String a (s +:+ t)). simpl. by rewrite IH. Qed.

(** The response to an overlong response fits the transport. *)
Lemma limit_text_short a b : 0 <= a < 2 ^ 63 -> 0 <= b < 2 ^ 63 ->
  zlen (as_bytes (response_limit_text a b)) <= 1000 /\ zlen (as_bytes (frame_limit_text a b)) <= 1000.
Proof.
  intros Ha Hb. unfold response_limit_text, frame_limit_text. rewrite !zlen_as_bytes, !length_cat.
  pose proof (pretty_length a Ha). pose proof (pretty_length b Hb). cbn [String.length]. lia.
Qed.

Lemma binary_error_length message bytes : binary_error_response message = Ok bytes ->
  zlen bytes <= 16 + zlen (as_bytes message).
Proof.
  unfold binary_error_response. pose proof (total_error 0 message) as Ht. pose proof (zlen_nonneg (as_bytes message)).
  destruct (BinaryResponse.error 0 message) as [r|e|] eqn:E; [| |done].
  - pose proof E as (Hs & _ & _ & Ep)%new_sent; [|done|done|apply as_bytes_bytes]. rewrite (encoded_sent _ _ Hs).
    intros [= <-]. unfold response_bytes. rewrite zlen_app, zlen_renvelope, Ep. lia.
  - intros E'. assert (bytes = response_bytes (BinaryResponse.mk (ResponseEnvelope.mk 0 StUnknown 0 0) [])) as ->
      by (vm_compute in E'; injection E' as <-; vm_compute; reflexivity).
    change (zlen (response_bytes _)) with 16. lia.
Qed.

(** ** A connection answers its frames *)

(** The transport frame of a payload. *)
Definition framed (payload : list Z) : list Z := to_le_bytes 4 (zlen payload) ++ payload.

Lemma encode_framed p : zlen p <= u32_max -> encode_transport_frame p = Ok (framed p).
Proof. intros Hl. unfold encode_transport_frame, try_u32. by rewrite (proj2 (Z.leb_le _ _)). Qed.

Section connection.
Context `{ErrorTexts} `{TextProtocol}.
Context (right : BinaryRequest.t -> QueryResult -> Prop) (config : ServerConfig).
Context `{!Keeps right (sc_backend config), !IdBlind (sc_backend config)}.
Context (Hmax : 0 <= sc_max_response_bytes config <= u32_max).

(** What the reply to a payload says: it parses, and unless it reports that it could not
    be sent it is one the backend can give. *)
Definition reply_ok (payload response : list Z) : Prop :=
  zlen response <= u32_max /\ exists resp, BinaryResponse.parse response = Ok resp /\
    (inconclusive resp \/ genuine (sc_backend config) payload response).

Definition cache_fine (cache : option ResponseCache) : Prop := forall c, cache = Some c ->
  0 <= max_entries c /\ cache_ok (sc_backend config) (max_entries c) (max_key_bytes c) (max_response_bytes c) c.

Lemma genuine_parses payload response : slice_ok payload -> is_binary_request_payload payload = true ->
  genuine (sc_backend config) payload response ->
  slice_ok response /\ exists resp, BinaryResponse.parse response = Ok resp.
Proof.
  intros Hs Hb (w & E). destruct (dispatch_replies right (sc_backend config) w payload response Hs Hb E) as (Hx & resp & Hp & _).
  split; [done|by exists resp].
Qed.

Lemma cached_dispatch w payload cache : slice_ok payload -> is_binary_request_payload payload = true -> cache_fine cache ->
  match dispatch_payload_with_cache w payload (sc_backend config) cache with
  | (Ok response, cache') => genuine (sc_backend config) payload response /\ cache_fine cache'
  | (Err _, _) => False
  | (Panic, _) => backend_panics w (sc_backend config) payload
  end.
Proof.
  intros Hs Hb Hc. unfold dispatch_payload_with_cache.
  pose proof (dispatch_outcome right (sc_backend config) w payload Hs Hb) as Hd.
  destruct (uses_cache payload cache) as [c|] eqn:Eu.
  2:{ destruct (dispatch_payload w payload (sc_backend config)) as [x|e|] eqn:E; [split; [by exists w|done]|done..]. }
  destruct cache as [c0|]; [|done]. pose proof (uses_cache_inv _ _ _ Eu) as (-> & _). destruct (Hc c0 eq_refl) as [Hn Hok].
  cbv zeta. destruct (ResponseCache.lookup c0 (cache_key_for_payload payload)) as [found c1] eqn:El.
  destruct (lookup_ok _ _ _ _ _ _ _ _ Hok El) as [Ef Hok1]. pose proof (co_limits _ _ _ _ _ Hok1) as (E1 & E2 & E3).
  assert (forall c, cache_ok (sc_backend config) (max_entries c0) (max_key_bytes c0) (max_response_bytes c0) c ->
    cache_fine (Some c)) as Hfine.
  { intros c Hcc ? [= <-]. destruct (co_limits _ _ _ _ _ Hcc) as (-> & -> & ->). done. }
  destruct found as [y|].
  { split; [|by apply Hfine]. exact (hit_genuine right _ _ _ _ (co_genuine _ _ _ _ _ Hok _ _ (eq_sym Ef)) Hs Hb eq_refl). }
  destruct (dispatch_payload w payload (sc_backend config)) as [x|e|] eqn:E; [|done..].
  destruct Hd as (_ & resp & Hp & _).
  destruct (store_response c1 (cache_key_for_payload payload) x) as [c2|e|] eqn:Es.
  - split; [by exists w|]. apply Hfine. by eapply (store_ok (sc_backend config) _ _ _ c1 payload w x).
  - unfold store_response, is_cacheable_binary_response in Es. by rewrite Hp in Es.
  - unfold store_response, is_cacheable_binary_response in Es. by rewrite Hp in Es.
Qed.

Lemma serve_frame_ok w payload cache : slice_ok payload -> is_binary_request_payload payload = true -> cache_fine cache ->
  match serve_frame config w payload cache with
  | (Ok frame, cache') => exists response, frame = framed response /\ reply_ok payload response /\ cache_fine cache'
  | (Err _, _) => False
  | (Panic, _) => backend_panics w (sc_backend config) payload
  end.
Proof.
  intros Hs Hb Hc. unfold serve_frame. pose proof (cached_dispatch w payload cache Hs Hb Hc) as Hd.
  destruct (dispatch_payload_with_cache w payload (sc_backend config) cache) as [[x|e|] cache']; [|done..].
  destruct Hd as [Hg Hc']. destruct (genuine_parses payload x Hs Hb Hg) as [Hx (resp & Hp)].
  cbn [mbind res_bind]. unfold limit_response.
  destruct (Z.ltb_spec (sc_max_response_bytes config) (zlen x)) as [Hl|Hl].
  - destruct (binary_error_parses (response_limit_text (zlen x) (sc_max_response_bytes config))) as (y & resp' & Ey & _ & Hp' & Hi).
    pose proof (binary_error_length _ _ Ey) as Hly. destruct Hx as [_ Hx]. unfold u32_max in *.
    destruct (limit_text_short (zlen x) (sc_max_response_bytes config)) as [Hle _]; [lia..|].
    rewrite Ey. cbn [mbind res_bind]. rewrite encode_framed by (unfold u32_max; lia). exists y. split_and!; try done.
    split; [unfold u32_max; lia|]. exists resp'. split; [done|by left].
  - cbn [mbind res_bind]. rewrite encode_framed by lia. exists x. split_and!; try done.
    split; [lia|]. exists resp. split; [done|by right].
Qed.

(** One turn of the loop on a whole frame. *)
Lemma loop_frame fuel w p rest cache : zlen p <= max_frame_bytes config -> zlen p <= u32_max ->
  connection_loop config (S fuel) w (framed p ++ rest) cache =
  match serve_frame config (within fuel w) p cache with
  | (Ok frame, cache) =>
      let '(output, ending, cache) := connection_loop config fuel w rest cache in (frame ++ output, ending, cache)
  | (Err _, cache) => ([], Unframeable, cache)
  | (Panic, cache) => ([], Panicked, cache)
  end.
Proof.
  intros Hl1 Hl2. pose proof (zlen_nonneg p) as Hp. pose proof (zlen_nonneg rest) as Hr.
  assert (length (to_le_bytes 4 (zlen p)) = 4%nat) as Hlen by apply to_le_bytes_shape.
  unfold framed. rewrite <- app_assoc. set (header := to_le_bytes 4 (zlen p)) in *. cbn [connection_loop].
  assert ((zlen (header ++ p ++ rest) <? 4) = false) as ->.
  { apply Z.ltb_ge. rewrite !zlen_app. unfold zlen at 1. lia. }
  rewrite (take_app_length' header), (drop_app_length' header) by done.
  assert (bval header = zlen p) as ->.
  { unfold header. rewrite bval_to_le. apply Z.mod_small. unfold u32_max in Hl2. change (pow2 (8 * 4)) with (2 ^ 32). lia. }
  cbv zeta. rewrite (proj2 (Z.ltb_ge _ _) Hl1).
  assert ((zlen (p ++ rest) <? zlen p) = false) as -> by (apply Z.ltb_ge; rewrite zlen_app; lia).
  by rewrite to_nat_zlen, (take_app_length' p), (drop_app_length' p).
Qed.

(** A run that ends with a panic of the backend, on the first payload it does not answer. *)
Definition panics_midway (payloads : list (list Z)) (run : list Z * ConnectionEnd * option ResponseCache) : Prop :=
  exists before p after responses, payloads = before ++ p :: after /\ Forall2 reply_ok before responses /\
    (exists w, backend_panics w (sc_backend config) p) /\ run.1.1 = flat_map framed responses /\ run.1.2 = Panicked.

(** The frames ahead are answered, and the loop is where it would be with the rest of
    the input; or those before one of them are, and on that one the backend panics. *)
Lemma loop_frames w payloads tail : forall fuel cache,
  Forall (fun p => slice_ok p /\ is_binary_request_payload p = true /\ zlen p <= max_frame_bytes config /\ zlen p <= u32_max) payloads ->
  (length payloads <= fuel)%nat -> cache_fine cache ->
  (exists responses cache', Forall2 reply_ok payloads responses /\ cache_fine cache' /\
    connection_loop config fuel w (flat_map framed payloads ++ tail) cache =
    (let '(output, ending, cache'') := connection_loop config (fuel - length payloads) w tail cache' in
     (flat_map framed responses ++ output, ending, cache''))) \/
  panics_midway payloads (connection_loop config fuel w (flat_map framed payloads ++ tail) cache).
Proof.
  induction payloads as [|p payloads IH]; intros fuel cache Hp Hf Hc.
  { left. exists [], cache. split_and!; [constructor|done|]. simpl. rewrite Nat.sub_0_r.
    by destruct (connection_loop config fuel w tail cache) as [[? ?] ?]. }
  apply Forall_cons in Hp as [(Hs & Hb & Hl1 & Hl2) Hp]. simpl in Hf. destruct fuel as [|fuel]; [lia|].
  cbn [flat_map length Nat.sub]. rewrite <- app_assoc, (loop_frame fuel w p) by done.
  pose proof (serve_frame_ok (within fuel w) p cache Hs Hb Hc) as Hserve.
  destruct (serve_frame config (within fuel w) p cache) as [[frame|e|] cache1]; [|done|].
  2:{ right. exists [], p, payloads, []. split_and!; [done|constructor|by exists (within fuel w)|done..]. }
  destruct Hserve as (x & -> & Hx & Hc1).
  destruct (IH fuel cache1 Hp ltac:(lia) Hc1) as [(xs & cache2 & Hxs & Hc2 & E2)|Hpanic].
  - left. exists (x :: xs), cache2. split_and!; [by constructor|done|]. rewrite E2.
    destruct (connection_loop config (fuel - length payloads) w tail cache2) as [[? ?] ?]. cbn [flat_map]. by rewrite <- app_assoc.
  - right. destruct (connection_loop config fuel w _ cache1) as [[output ending] cache2].
    destruct Hpanic as (before & p' & after & responses & -> & Hr & Hw & Eo & Ee). simpl in Eo, Ee. subst output ending.
    exists (p :: before), p', after, (x :: responses). by split_and!; [|constructor|..].
Qed.
End connection.
