(* ===== verification/WireMeaning.v ===== *)
(** * The meaning of a request

    [wire_denote σ ...] gives every node of a buffer its SMT-LIB value under a
    valuation of the symbols, by name; [wire_holds] says that a valuation satisfies a
    request.  This is the specification [query_from_wire] is proved against. *)
From S2P Require Import Prelude Bits Smt SmtFacts Bytes BytesFacts Ir Sem Evaluator EvaluatorFacts.
From S2P Require Import Builder BuilderSpec BuilderApi.
From S2P Require Import WireBase WireBaseFacts WireExpr WireExprFacts WireDag WireRequest.

#[local] Open Scope Z_scope.

(** Symbols are identified by name and sort. *)
Record Valuation := mkValuation { v_bv : string -> Z -> Z; v_bool : string -> bool }.

Definition truth_of (v : value) : bool := match v with VBool b => b | VBv _ _ => false end.

(** The value of the first case whose selector holds. *)
Fixpoint select_meaning (bv : Z -> Z) (bo : Z -> bool) (n : nat) (pair default : Z) : Z :=
  match n with
  | O => default
  | S n => if bo (pair * 2) then bv (pair * 2 + 1) else select_meaning bv bo n (pair + 1) default
  end.

Section meaning.
Context (blob : list Z) (σ : Valuation).

(** Up to 64 bits a constant is in the payload, wider ones are in the blob. *)
Definition const_meaning (n : RawNode) : Z :=
  let w := Z.to_nat (node_width n) in
  if node_width n <=? 64 then wrap w (payload n)
  else match blob_at blob (RawNode.blob_ref n) with Some l => wrap w (bval l) | None => 0 end.

Definition symbol (n : RawNode) : string := default ""%string (blob_name blob (RawNode.blob_ref n)).

(** One node, from the values [bv k], [bo k] and the widths [wd k] of its children. *)
Definition node_meaning (n : RawNode) (t : Tag) (bv : Z -> Z) (wd : Z -> nat) (bo : Z -> bool) : value :=
  let w := Z.to_nat (node_width n) in
  let binary (op : BvBinary) := VBv w (binary_meaning op w (bv 0) (bv 1)) in
  let predicate (op : BvPredicate) := VBool (predicate_meaning op (wd 0) (bv 0) (bv 1)) in
  let boolean (op : BoolBinary) := VBool (bool_meaning op (bo 0) (bo 1)) in
  match t with
  | TBvVar => VBv w (wrap w (v_bv σ (symbol n) (node_width n)))
  | TBvConst => VBv w (const_meaning n)
  | TBvNot => VBv w (bvnot w (bv 0))
  | TBvNeg => VBv w (bvneg w (bv 0))
  | TBvAnd => binary CAnd | TBvOr => binary COr | TBvXor => binary CXor
  | TBvAdd => binary CAdd | TBvSub => binary CSub | TBvMul => binary CMul
  | TBvUdiv => binary CUdiv | TBvUrem => binary CUrem | TBvSdiv => binary CSdiv
  | TBvSrem => binary CSrem | TBvSmod => binary CSmod
  | TBvShl => binary CShl | TBvLshr => binary CLshr | TBvAshr => binary CAshr
  | TBvExtract => VBv w (bvextract (Z.to_nat (aux_hi n)) (Z.to_nat (aux_lo n)) (bv 0))
  | TBvConcat => VBv w (bvconcat (wd 1) (bv 0) (bv 1))
  | TBvZext => VBv w (bv 0)
  | TBvSext => VBv w (bvsext (wd 0) (Z.to_nat (aux_hi n)) (bv 0))
  | TBvIte => VBv w (if bo 0 then bv 1 else bv 2)
  | TBvSelect => VBv w (select_meaning bv bo (Z.to_nat (aux_hi n)) 0 (bv (aux_hi n * 2)))
  | TBoolTrue => VBool true
  | TBoolFalse => VBool false
  | TBoolVar => VBool (v_bool σ (symbol n))
  | TBoolNot => VBool (negb (bo 0))
  | TBoolAnd => boolean CBoolAnd | TBoolOr => boolean CBoolOr | TBoolImplies => boolean CBoolImplies
  | TBvEq => predicate CEq | TBvUlt => predicate CUlt | TBvUle => predicate CUle
  | TBvSlt => predicate CSlt | TBvSle => predicate CSle
  | TUaddOvf => predicate CUaddo | TSaddOvf => predicate CSaddo | TUsubOvf => predicate CUsubo
  | TSsubOvf => predicate CSsubo | TUmulOvf => predicate CUmulo | TSmulOvf => predicate CSmulo
  | TNegOvf => VBool (bvnego (wd 0) (bv 0))
  | TSdivOvf => predicate CSdivo
  end.

Context (kids : list Z).

(** The index of the [k]-th child. *)
Definition arg (n : RawNode) (k : Z) : nat :=
  match kids !! Z.to_nat (children n + k) with Some r => Z.to_nat (NodeRef.index r) | None => O end.

Definition wire_step (vals : list value) (n : RawNode) : list value :=
  vals ++ [match Tag.try_from (tag n) with
    | Some t => node_meaning n t (fun k => sem_bv vals (arg n k)) (fun k => sem_w vals (arg n k))
                  (fun k => sem_bool vals (arg n k))
    | None => VBool false
    end].

Definition wire_denote (nodes : list RawNode) : list value := foldl wire_step [] nodes.
End meaning.

(** The valuation satisfies the request's assertions and assumptions. *)
Definition root_holds (σ : Valuation) (nodes : list RawNode) (kids blob : list Z) (r : NodeRef) : Prop :=
  sem_bool (wire_denote blob σ kids nodes) (Z.to_nat (NodeRef.index r)) = true.

Definition wire_holds (σ : Valuation) (request : BinaryRequest.t) (nodes : list RawNode) (kids blob : list Z) : Prop :=
  Forall (root_holds σ nodes kids blob) (BinaryRequest.assertion_roots request) /\
  Forall (root_holds σ nodes kids blob) (BinaryRequest.assumption_roots request).

(** ** Nodes depend on their children only *)

Section ext.
Context (blob : list Z) (σ : Valuation) (nodes : list RawNode) (kids : list Z) (meta : list NodeInfo).

Lemma select_meaning_ext bv bv' bo bo' n p d d' :
  (forall q, p <= q < p + Z.of_nat n -> bo (q * 2) = bo' (q * 2) /\ bv (q * 2 + 1) = bv' (q * 2 + 1)) -> d = d' ->
  select_meaning bv bo n p d = select_meaning bv' bo' n p d'.
Proof.
  intros H ->. revert p H. induction n as [|n IH]; intros p H; simpl; [done|].
  destruct (H p ltac:(lia)) as [-> ->]. rewrite (IH (p + 1)) by (intros q Hq; apply H; lia). done.
Qed.

Lemma node_meaning_ext i n t bv bv' wd wd' bo bo' : is_u16 (aux_hi n) -> children_ok kids meta i n t ->
  (forall k w, child_bv kids meta i n k w -> bv k = bv' k /\ wd k = wd' k) ->
  (forall k, child_bool kids meta i n k -> bo k = bo' k) ->
  node_meaning blob σ n t bv wd bo = node_meaning blob σ n t bv' wd' bo'.
Proof.
  intros Hu Hc Hbv Hbo. destruct t; simpl in Hc |- *; try done;
    repeat match goal with
    | H : exists _, _ |- _ => destruct H as [? H]
    | H : _ /\ _ |- _ => destruct H
    | H : child_bv _ _ _ _ _ _ |- _ => apply Hbv in H as [? ?]
    | H : child_bool _ _ _ _ _ |- _ => apply Hbo in H
    | E : bv ?k = _ |- _ => rewrite ?E; clear E
    | E : wd ?k = _ |- _ => rewrite ?E; clear E
    | E : bo ?k = _ |- _ => rewrite ?E; clear E
    end; try done.
  f_equal. apply select_meaning_ext; [|done]. intros q Hq. unfold is_u16 in Hu.
  match goal with H : context [_ < aux_hi n] |- _ => destruct (H q ltac:(lia)) as [H1' H2'] end.
  apply Hbo in H1'. apply Hbv in H2' as [H2' _]. done.
Qed.

Lemma wire_denote_snoc l n : wire_denote blob σ kids (l ++ [n]) = wire_step blob σ kids (wire_denote blob σ kids l) n.
Proof. unfold wire_denote. by rewrite foldl_snoc. Qed.

Lemma length_wire_denote l : length (wire_denote blob σ kids l) = length l.
Proof.
  induction l as [|n l IH] using rev_ind; [done|]. rewrite wire_denote_snoc. unfold wire_step.
  rewrite !length_app, IH. done.
Qed.

Lemma wire_denote_prefix l l' j : (j < length l)%nat ->
  wire_denote blob σ kids (l ++ l') !! j = wire_denote blob σ kids l !! j.
Proof.
  intros Hj. induction l' as [|n l' IH] using rev_ind; [by rewrite app_nil_r|].
  rewrite app_assoc, wire_denote_snoc. unfold wire_step. rewrite lookup_app_l; [done|].
  rewrite length_wire_denote, length_app. lia.
Qed.

(** Children are earlier nodes, so a node's value is its meaning in the final values. *)
Lemma wire_denote_take i j : (j < i)%nat -> (i <= length nodes)%nat ->
  wire_denote blob σ kids (take i nodes) !! j = wire_denote blob σ kids nodes !! j.
Proof.
  intros Hj Hi. rewrite <- (take_drop i nodes) at 2. symmetry. apply wire_denote_prefix. rewrite length_take. lia.
Qed.
End ext.

(** ** Growing and copying DAGs

    Appending to the tables of a DAG keeps it a DAG and keeps the values of its nodes;
    a node copied to another DAG, with children of the same values, has the same
    value.  Validation, translation and the client's builder share these lemmas. *)

#[local] Open Scope Z_scope.

(** ** The value of a node *)

Section value.
Context (nodes : list RawNode) (kids blob : list Z) (meta : list NodeInfo).
Context (Hn : Forall node_valid nodes) (Hd : dag_ok nodes kids blob meta).

Lemma dag_length : length meta = length nodes.
Proof. symmetry. apply (Forall2_length _ _ _ (proj1 (mapM_Some _ _ _) (dag_meta _ _ _ _ Hd))). Qed.

Lemma dag_info i n : nodes !! i = Some n -> exists t, Tag.try_from (tag n) = Some t /\
  meta !! i = Some (mkNodeInfo t (Tag.result_sort t) (node_width n)).
Proof.
  intros Hi. pose proof (proj1 (mapM_Some _ _ _) (dag_meta _ _ _ _ Hd)) as Hall.
  destruct (Forall2_lookup_l _ _ _ _ _ Hall Hi) as (info & Em & H). unfold info_of in H.
  apply bind_Some in H as (t & Ht & [= <-]). by exists t.
Qed.

Lemma dag_node i info : meta !! i = Some info -> exists n, nodes !! i = Some n /\
  Tag.try_from (tag n) = Some (info_tag info) /\ info_sort info = Tag.result_sort (info_tag info) /\
  info_width info = node_width n.
Proof.
  intros Hi. destruct (lookup_lt_is_Some_2 nodes i) as [n En]; [rewrite <- dag_length; by eapply lookup_lt_Some|].
  exists n. split; [done|]. destruct (dag_info i n En) as (t & Ht & Em). by rewrite Em in Hi; injection Hi as <-.
Qed.

Lemma child_arg i n k s info : child_info kids meta i n k s info -> (arg kids n k < i)%nat /\ meta !! arg kids n k = Some info.
Proof.
  intros (r & Hr & _ & Hlt & Hm & _). unfold arg. rewrite Hr. pose proof (NodeRef_index_nonneg r). split; [lia|done].
Qed.

(** The value of a node, from the values of its children. *)
Lemma wire_denote_lookup σ i n t : nodes !! i = Some n -> Tag.try_from (tag n) = Some t ->
  let D := wire_denote blob σ kids nodes in
  D !! i = Some (node_meaning blob σ n t (fun k => sem_bv D (arg kids n k)) (fun k => sem_w D (arg kids n k))
    (fun k => sem_bool D (arg kids n k))).
Proof.
  intros Hi Ht D. pose proof (lookup_lt_Some _ _ _ Hi) as Hlt.
  unfold D at 1. rewrite <- (wire_denote_take blob σ nodes kids (S i) i) by lia. rewrite (take_S_r _ _ _ Hi), wire_denote_snoc.
  unfold wire_step. rewrite Ht. rewrite lookup_app_r; rewrite length_wire_denote, length_take; [|lia].
  replace (i - i `min` length nodes)%nat with 0%nat by lia. simpl. f_equal.
  destruct (dag_info i n Hi) as (t' & Ht' & Em). assert (t' = t) as -> by congruence.
  assert (forall j, (j < i)%nat -> wire_denote blob σ kids (take i nodes) !! j = D !! j) as Hj
    by (intros j Hj; apply wire_denote_take; lia).
  apply (node_meaning_ext blob σ kids meta i n t).
  - by apply (Forall_lookup_1 _ _ _ _ Hn Hi).
  - apply (dag_children _ _ _ _ Hd i n _ Hi Em).
  - intros k w (info & [Hk _]%child_arg & _). unfold sem_bv, sem_w. by rewrite (Hj _ Hk).
  - intros k (info & [Hk _]%child_arg). unfold sem_bool. by rewrite (Hj _ Hk).
Qed.

Lemma denote_width σ j info : meta !! j = Some info -> info_sort info = Bv ->
  sem_w (wire_denote blob σ kids nodes) j = Z.to_nat (info_width info).
Proof.
  intros Em Es. destruct (dag_node j info Em) as (n & En & Ht & Hs & ->). rewrite Es in Hs.
  unfold sem_w. rewrite (wire_denote_lookup σ j n _ En Ht). by destruct (info_tag info).
Qed.
End value.

(** ** Copies *)

(** The two records differ in the position of their children only. *)
Definition same_op (n n' : RawNode) : Prop :=
  tag n' = tag n /\ arity n' = arity n /\ aux_hi n' = aux_hi n /\ node_width n' = node_width n /\
  aux_lo n' = aux_lo n /\ payload n' = payload n.

(** What is in one blob is in the other, at the same place. *)
Definition blob_within (blob blob' : list Z) : Prop :=
  forall r l, ref_valid r -> blob_at blob r = Some l -> blob_at blob' r = Some l.

Lemma blob_within_refl blob : blob_within blob blob.
Proof. by intros r l. Qed.

Lemma blob_within_app blob l : blob_within blob (blob ++ l).
Proof.
  intros r x [H1 H2]. unfold is_u32 in *. unfold blob_at. rewrite zlen_app. pose proof (zlen_nonneg l).
  destruct (Z.leb_spec (blob_offset r + blob_len r) (zlen blob)); [|done].
  rewrite (proj2 (Z.leb_le _ _)) by lia. intros [= <-]. f_equal. unfold subslice, zlen in *.
  rewrite drop_app_le by lia. rewrite take_app_le; [done|]. rewrite length_drop. lia.
Qed.

Lemma blob_name_within blob blob' r s : blob_within blob blob' -> ref_valid r -> blob_name blob r = Some s ->
  blob_name blob' r = Some s.
Proof. intros Hw Hr. unfold blob_name. intros (l & Hl & <-)%bind_Some. by rewrite (Hw r l Hr Hl). Qed.

Lemma node_ref_valid n : node_valid n -> ref_valid (RawNode.blob_ref n).
Proof. intros H. apply payload_ref_valid, H. Qed.

Lemma same_blob_ref n n' : same_op n n' -> RawNode.blob_ref n' = RawNode.blob_ref n.
Proof. intros (_ & _ & _ & _ & _ & E). unfold RawNode.blob_ref. by rewrite E. Qed.

Lemma same_info n n' : same_op n n' -> info_of n' = info_of n.
Proof. intros (E1 & _ & _ & E2 & _). unfold info_of. by rewrite E1, E2. Qed.

Lemma shape_ok_copy blob blob' n n' info : blob_within blob blob' -> node_valid n -> same_op n n' ->
  shape_ok blob n info -> shape_ok blob' n' info.
Proof.
  intros Hw Hn Hs (H1 & H2 & H3 & H4). pose proof (node_ref_valid n Hn) as Hr.
  unfold shape_ok. rewrite (same_blob_ref _ _ Hs). destruct Hs as (_ & -> & _ & -> & _). split_and!; [done|done| |].
  - intros Hv. destruct (H3 Hv) as [s E]. exists s. by eapply blob_name_within.
  - intros Hc Hwd. destruct (H4 Hc Hwd) as (E & l & Hl). split; [done|]. exists l. by apply Hw.
Qed.

Lemma node_meaning_copy n t blob blob' σ n' bv wd bo : node_valid n -> blob_within blob blob' -> same_op n n' ->
  shape_ok blob n (mkNodeInfo t (Tag.result_sort t) (node_width n)) ->
  node_meaning blob' σ n' t bv wd bo = node_meaning blob σ n t bv wd bo.
Proof.
  intros Hu Hw Hs (_ & _ & Hv & Hk). pose proof (node_ref_valid n Hu) as Hr. pose proof (same_blob_ref _ _ Hs) as Er.
  destruct Hs as (_ & Ea & Eh & Ew & El & Ep). simpl in Hv, Hk.
  assert (is_var t = true -> symbol blob' n' = symbol blob n) as Hsym.
  { intros H. destruct (Hv H) as [s E]. unfold symbol. by rewrite Er, E, (blob_name_within _ _ _ _ Hw Hr E). }
  assert (t = TBvConst -> const_meaning blob' n' = const_meaning blob n) as Hcst.
  { intros H. unfold const_meaning. rewrite Er, Ew, Ep. destruct (Z.leb_spec (node_width n) 64); [done|].
    destruct (Hk H) as (_ & l & E); [done|]. by rewrite E, (Hw _ _ Hr E). }
  destruct t; unfold node_meaning; cbv zeta; rewrite ?Ew, ?Eh, ?El; try done.
  - by rewrite Hsym.
  - by rewrite Hcst.
  - by rewrite Hsym.
Qed.

Section copy.
Context (kids : list Z) (meta : list NodeInfo) (i : nat) (n : RawNode) (t : Tag).
Context (Hu : node_valid n) (Ha : arity_ok t (arity n)) (Hc : children_ok kids meta i n t).

Lemma select_arity a : a <> 0 -> Z.even a = false -> a = 2 * ((a - 1) / 2) + 1.
Proof.
  intros _ He. rewrite <- Z.negb_odd, negb_false_iff in He. apply Z.odd_spec in He as [m ->].
  replace (2 * m + 1 - 1) with (m * 2) by lia. rewrite Z.div_mul by done. done.
Qed.

(** Everything [children_ok] says is of children below the arity. *)
Ltac arity_facts :=
  unfold arity_ok in Ha;
  assert (0 <= aux_hi n) by (destruct Hu as (_ & _ & H & _); unfold is_u16 in H; lia).

Lemma children_ok_copy kids' meta' i' n' : same_op n n' ->
  (forall k s info, 0 <= k < arity n -> child_info kids meta i n k s info ->
   exists info', child_info kids' meta' i' n' k s info' /\ info_width info' = info_width info) ->
  children_ok kids' meta' i' n' t.
Proof.
  intros Hs Hk. pose proof Hs as (_ & Ea & Eh & Ew & El & _).
  assert (forall k w, 0 <= k < arity n -> child_bv kids meta i n k w -> child_bv kids' meta' i' n' k w) as Hb.
  { intros k w Hr (info & Hi & <-). destruct (Hk k Bv info Hr Hi) as (info' & ? & ?). by exists info'. }
  assert (forall k, 0 <= k < arity n -> child_bool kids meta i n k -> child_bool kids' meta' i' n' k) as Ho.
  { intros k Hr (info & Hi). destruct (Hk k Bool info Hr Hi) as (info' & ? & ?). by exists info'. }
  clear Hk. arity_facts. unfold children_ok in Hc |- *. rewrite ?Ea, ?Eh, ?Ew, ?El.
  destruct t; cbn [Tag.fixed_arity] in Ha; try done;
    repeat match goal with
    | H : exists _, _ |- _ => destruct H as [? H]
    | H : _ /\ _ |- _ => destruct H
    | |- exists _, _ => eexists
    | |- _ /\ _ => split
    | H : child_bv _ _ _ _ ?k _ |- child_bv _ _ _ _ ?k _ => apply Hb; [lia|exact H]
    | H : child_bool _ _ _ _ ?k |- child_bool _ _ _ _ ?k => apply Ho; [lia|exact H]
    end; try done.
  - pose proof (select_arity (arity n) ltac:(done) ltac:(done)). apply Hb; [lia|done].
  - pose proof (select_arity (arity n) ltac:(done) ltac:(done)). intros p Hp.
    match goal with H : forall p, _ |- _ => destruct (H p Hp) end. split; [apply Ho|apply Hb]; [lia|done|lia|done].
Qed.

(** The node means the same whatever its children's values are read from. *)
Lemma node_meaning_children blob σ bv bv' wd wd' bo bo' :
  (forall k w, 0 <= k < arity n -> child_bv kids meta i n k w -> bv' k = bv k /\ wd' k = wd k) ->
  (forall k, 0 <= k < arity n -> child_bool kids meta i n k -> bo' k = bo k) ->
  node_meaning blob σ n t bv' wd' bo' = node_meaning blob σ n t bv wd bo.
Proof.
  intros Hbv Hbo. arity_facts. unfold children_ok in Hc.
  destruct t; cbn [Tag.fixed_arity] in Ha; try done; unfold node_meaning;
    repeat match goal with
    | H : exists _, _ |- _ => destruct H as [? H]
    | H : _ /\ _ |- _ => destruct H
    | H : child_bv _ _ _ _ ?k _ |- _ => apply (Hbv k _ ltac:(lia)) in H
    | H : child_bool _ _ _ _ ?k |- _ => apply (Hbo k ltac:(lia)) in H
    | E : bv' ?k = _ |- _ => rewrite ?E; clear E
    | E : wd' ?k = _ |- _ => rewrite ?E; clear E
    | E : bo' ?k = _ |- _ => rewrite ?E; clear E
    end; try done.
  pose proof (select_arity (arity n) ltac:(done) ltac:(done)). f_equal. apply select_meaning_ext.
  - intros q Hq. match goal with H : forall p, _ -> _ /\ child_bv _ _ _ _ _ _ |- _ => destruct (H q ltac:(lia)) as [H1' H2'] end.
    rewrite (Hbo (q * 2)) by (done || lia). split; [done|]. by apply (Hbv (q * 2 + 1) _ ltac:(lia) H2').
  - match goal with H : child_bv _ _ _ _ ?k _ |- _ => by apply (Hbv k _ ltac:(lia) H) end.
Qed.

End copy.

(** ** Larger tables *)

Lemma children_ok_grow kids meta i n t kids' meta' : kids `prefix_of` kids' -> meta `prefix_of` meta' ->
  node_valid n -> arity_ok t (arity n) -> children_ok kids meta i n t -> children_ok kids' meta' i n t.
Proof.
  intros [k ->] [m ->] Hn Ha Hc. apply (children_ok_copy kids meta i n t Hn Ha Hc); [by split_and!|].
  intros j s info _ (r & Hr & ? & ? & Hm & ?). exists info. split; [|done]. exists r.
  split_and!; [by apply lookup_app_l_Some|done..|by apply lookup_app_l_Some|done].
Qed.

Section grow.
Context (nodes : list RawNode) (kids blob : list Z) (meta : list NodeInfo).
Context (Hn : Forall node_valid nodes) (Hd : dag_ok nodes kids blob meta).

Lemma dag_shape_at i n t : nodes !! i = Some n -> Tag.try_from (tag n) = Some t ->
  shape_ok blob n (mkNodeInfo t (Tag.result_sort t) (node_width n)).
Proof.
  intros Hi Ht. destruct (dag_info _ _ _ _ Hd i n Hi) as (t' & Ht' & Em). assert (t' = t) as -> by congruence.
  by apply (dag_shape _ _ _ _ Hd i n).
Qed.

Lemma dag_grow kids' blob' : kids `prefix_of` kids' -> blob_within blob blob' -> dag_ok nodes kids' blob' meta.
Proof.
  intros Hk Hw. pose proof Hd as [Hm Hs Hy Hr Hc]. split.
  - done.
  - intros i n info Hi Hinfo. apply (shape_ok_copy blob blob' n n); [done| |by split_and!|by eapply Hs].
    by apply (Forall_lookup_1 _ _ _ _ Hn Hi).
  - intros i j n m ni mi Hi Hj Hni Hmi (Hv1 & Hv2 & Hname). apply (Hy i j n m ni mi); try done. split_and!; [done..|].
    destruct (Hs i n ni Hi Hni) as (_ & _ & Hv & _). destruct (Hs j m mi Hj Hmi) as (_ & _ & Hv' & _).
    destruct (Hv Hv1) as [s E], (Hv' Hv2) as [s' E']. rewrite E, E'.
    pose proof (node_ref_valid _ (Forall_lookup_1 _ _ _ _ Hn Hi)) as Hri. pose proof (node_ref_valid _ (Forall_lookup_1 _ _ _ _ Hn Hj)) as Hrj.
    rewrite (blob_name_within _ _ _ _ Hw Hri E), (blob_name_within _ _ _ _ Hw Hrj E') in Hname. done.
  - intros i n Hi Ha. pose proof (Hr i n Hi Ha). destruct Hk as [k ->]. rewrite zlen_app. pose proof (zlen_nonneg k). lia.
  - intros i n info Hi Hinfo. destruct (Hs i n info Hi Hinfo) as (Ha & _).
    apply (children_ok_grow kids meta); [done|done|by apply (Forall_lookup_1 _ _ _ _ Hn Hi)|done|by eapply Hc].
Qed.

Lemma denote_grow σ kids' blob' : kids `prefix_of` kids' -> blob_within blob blob' ->
  wire_denote blob' σ kids' nodes = wire_denote blob σ kids nodes.
Proof.
  intros Hk Hw. apply list_eq. intros i. induction (lt_wf i) as [i _ IH].
  destruct (nodes !! i) as [n|] eqn:Hi.
  2:{ rewrite !(lookup_ge_None_2 (wire_denote _ _ _ _)); [done|rewrite length_wire_denote; by apply lookup_ge_None..]. }
  destruct (dag_info _ _ _ _ Hd i n Hi) as (t & Ht & Em).
  rewrite (wire_denote_lookup _ _ _ _ Hn (dag_grow kids' blob' Hk Hw) σ i n t Hi Ht), (wire_denote_lookup _ _ _ _ Hn Hd σ i n t Hi Ht).
  f_equal. pose proof (Forall_lookup_1 _ _ _ _ Hn Hi) as Hv. pose proof (dag_shape_at i n t Hi Ht) as Hsh.
  assert (children_ok kids meta i n t) as Hc by apply (dag_children _ _ _ _ Hd i n _ Hi Em).
  rewrite (node_meaning_copy n t blob blob' σ n _ _ _ Hv Hw ltac:(by split_and!) Hsh).
  assert (forall k s info, child_info kids meta i n k s info -> arg kids' n k = arg kids n k /\ (arg kids n k < i)%nat) as Harg.
  { intros k s info Hci. pose proof (child_arg _ _ _ _ _ _ _ Hci) as [Hlt _]. split; [|done].
    destruct Hci as (r & Hr & _). unfold arg. destruct Hk as [x ->]. by rewrite Hr, (lookup_app_l_Some _ _ _ _ Hr). }
  apply (node_meaning_children kids meta i n t Hv (proj1 Hsh) Hc).
  - intros k w _ (info & Hci & _). destruct (Harg _ _ _ Hci) as [-> Hlt]. unfold sem_bv, sem_w. by rewrite (IH _ Hlt).
  - intros k _ (info & Hci). destruct (Harg _ _ _ Hci) as [-> Hlt]. unfold sem_bool. by rewrite (IH _ Hlt).
Qed.

(** One more node, whose children are in place. *)
Lemma dag_snoc n info : node_valid n -> info_of n = Some info -> shape_ok blob n info ->
  (forall i m mi, nodes !! i = Some m -> meta !! i = Some mi -> same_symbol blob m n mi info ->
   info_sort mi = info_sort info /\ info_width mi = info_width info) ->
  (arity n <> 0 -> children n + arity n <= zlen kids) ->
  children_ok kids meta (length nodes) n (info_tag info) ->
  dag_ok (nodes ++ [n]) kids blob (meta ++ [info]).
Proof.
  intros Hv Hi Hs Hy Hr Hc. pose proof Hd as [Dm Ds Dy Dr Dc]. pose proof (dag_length _ _ _ _ Hd) as Hl.
  assert (forall i m mi, (nodes ++ [n]) !! i = Some m -> (meta ++ [info]) !! i = Some mi ->
    (nodes !! i = Some m /\ meta !! i = Some mi) \/ (i = length nodes /\ m = n /\ mi = info)) as Hcase.
  { intros i m mi Hm Hmi. apply lookup_app_Some in Hm as [Hm|[Hge Hm]].
    - left. split; [done|]. apply lookup_lt_Some in Hm. by rewrite lookup_app_l in Hmi by lia.
    - right. apply list_lookup_singleton_Some in Hm as [E ->]. assert (i = length nodes) as -> by lia.
      rewrite lookup_app_r, Hl, Nat.sub_diag in Hmi by lia. by injection Hmi as ->. }
  split.
  - apply mapM_Some. apply Forall2_app; [by apply mapM_Some|by repeat constructor].
  - intros i m mi Hm Hmi. destruct (Hcase i m mi Hm Hmi) as [[? ?]|(_ & -> & ->)]; [by eapply Ds|done].
  - intros i j m m' mi mi' H1 H2 H3 H4 Hsame.
    destruct (Hcase _ _ _ H1 H3) as [[? ?]|(_ & -> & ->)], (Hcase _ _ _ H2 H4) as [[? ?]|(_ & -> & ->)].
    + by eapply (Dy i j m m').
    + by apply (Hy i m mi).
    + destruct (Hy j m' mi') as [-> ->]; try done. by destruct Hsame as (? & ? & ?).
    + done.
  - intros i m Hm Ha. apply lookup_app_Some in Hm as [Hm|[_ Hm]]; [by eapply Dr|].
    apply list_lookup_singleton_Some in Hm as [_ <-]. by apply Hr.
  - intros i m mi Hm Hmi. destruct (Hcase i m mi Hm Hmi) as [[? ?]|(-> & -> & ->)].
    + apply (children_ok_grow kids meta); [done|by eexists|by eapply Forall_lookup_1| |by eapply Dc].
      destruct (Ds i m mi) as [Ha _]; done.
    + apply (children_ok_grow kids meta); [done|by eexists|done| |done]. apply Hs.
Qed.
End grow.

(** ** Values are in range *)

Definition in_range (v : Z) (z : Z) : Prop := 0 <= z < pow2 (Z.to_nat v).

Lemma select_meaning_range bv bo m p d v : in_range v d ->
  (forall q, p <= q < p + Z.of_nat m -> in_range v (bv (q * 2 + 1))) -> in_range v (select_meaning bv bo m p d).
Proof.
  intros Hd. revert p. induction m as [|m IH]; intros p H; simpl; [done|]. destruct (bo (p * 2)).
  - apply H. lia.
  - apply IH. intros q Hq. apply H. lia.
Qed.

Lemma binary_meaning_range op w x y : (0 < w)%nat -> 0 <= x < pow2 w -> 0 <= y < pow2 w ->
  0 <= binary_meaning op w x y < pow2 w.
Proof.
  intros Hw Hx Hy. destruct op; simpl; auto using land_bound, lor_bound, lxor_bound, bvadd_bound, bvsub_bound,
    bvmul_bound, bvurem_bound, bvsdiv_bound, bvsrem_bound, bvsmod_bound, bvshl_bound, bvashr_bound.
  - apply bvudiv_bound; [done|lia].
  - apply bvlshr_bound; [done|lia].
Qed.

Lemma node_meaning_range kids meta i n t blob σ bv wd bo : node_valid n -> width_ok (Tag.result_sort t) (node_width n) ->
  Tag.result_sort t = Bv -> children_ok kids meta i n t ->
  (forall k v, child_bv kids meta i n k v -> 0 <= v /\ in_range v (bv k) /\ wd k = Z.to_nat v) ->
  exists z, node_meaning blob σ n t bv wd bo = VBv (Z.to_nat (node_width n)) z /\ in_range (node_width n) z.
Proof.
  intros Hn Hw Hs Hc Hk. assert (0 <= aux_hi n) by (destruct Hn as (_ & _ & H & _); unfold is_u16 in H; lia).
  rewrite Hs in Hw. simpl in Hw. unfold in_range in *.
  assert (0 < Z.to_nat (node_width n))%nat by lia. unfold children_ok in Hc.
  destruct t; try done; cbn [node_meaning]; eexists; (split; [reflexivity|]);
    repeat match goal with
    | H : exists _, _ |- _ => destruct H as [? H]
    | H : _ /\ _ |- _ => destruct H
    | H : child_bv _ _ _ _ _ _ |- _ => apply Hk in H as (? & ? & ?)
    end; try (apply binary_meaning_range; done); try apply wrap_bound; auto using bvnot_bound, bvneg_bound.
  - unfold const_meaning. case_match; [apply wrap_bound|]. case_match; [apply wrap_bound|].
    pose proof (pow2_pos (Z.to_nat (node_width n))). lia.
  - match goal with E : node_width n = _ |- _ => rewrite E end.
    assert (0 <= aux_lo n) by (destruct Hn as (_ & _ & _ & _ & Hl & _); unfold is_u32 in Hl; lia).
    replace (Z.to_nat (aux_hi n - aux_lo n + 1)) with (Z.to_nat (aux_hi n) - Z.to_nat (aux_lo n) + 1)%nat by lia.
    apply bvextract_bound.
  - match goal with E : node_width n = _ |- _ => rewrite E end.
    rewrite Z2Nat.inj_add by lia. match goal with E : wd 1 = _ |- _ => rewrite E end. by apply bvconcat_bound.
  - match goal with E : node_width n = _ |- _ => rewrite E end.
    match goal with |- context [pow2 (Z.to_nat (?v + _))] => pose proof (pow2_le (Z.to_nat v) (Z.to_nat (v + aux_hi n)) ltac:(lia)) end.
    lia.
  - match goal with E : node_width n = _ |- _ => rewrite E end.
    rewrite Z2Nat.inj_add by lia. match goal with E : wd 0 = _ |- _ => rewrite E end. apply bvsext_bound.
  - by destruct (bo 0).
  - apply (select_meaning_range bv bo _ _ _ (node_width n)); [done|]. intros q Hq.
    match goal with H : forall p, _ -> _ /\ child_bv _ _ _ _ _ _ |- _ => destruct (H q ltac:(lia)) as [_ H2'] end.
    apply (Hk _ _ H2').
Qed.

Section range.
Context (nodes : list RawNode) (kids blob : list Z) (meta : list NodeInfo).
Context (Hn : Forall node_valid nodes) (Hd : dag_ok nodes kids blob meta).

(** A bit-vector node's value fits its width. *)
Lemma denote_range σ j info : meta !! j = Some info -> info_sort info = Bv ->
  in_range (info_width info) (sem_bv (wire_denote blob σ kids nodes) j).
Proof.
  revert info. induction (lt_wf j) as [j _ IH]. intros info Em Es.
  destruct (dag_node _ _ _ _ Hd j info Em) as (n & En & Ht & Hs & ->). rewrite Es in Hs.
  pose proof (dag_shape_at _ _ _ _ Hd j n _ En Ht) as (_ & Hw & _). simpl in Hw.
  destruct (node_meaning_range kids meta j n (info_tag info) blob σ (fun k => sem_bv (wire_denote blob σ kids nodes) (arg kids n k))
    (fun k => sem_w (wire_denote blob σ kids nodes) (arg kids n k)) (fun k => sem_bool (wire_denote blob σ kids nodes) (arg kids n k)))
    as (z & E & Hz); [by apply (Forall_lookup_1 _ _ _ _ Hn En)|done|done|by apply (dag_children _ _ _ _ Hd j n info)| |].
  - intros k v (ci & Hci & <-). pose proof (child_arg _ _ _ _ _ _ _ Hci) as [Hlt Hm].
    destruct Hci as (_ & _ & _ & _ & _ & Hcs). split_and!.
    + destruct (dag_node _ _ _ _ Hd _ ci Hm) as (m & Hm' & Htm & Hsm & ->). rewrite Hcs in Hsm.
      pose proof (dag_shape_at _ _ _ _ Hd _ m _ Hm' Htm) as (_ & Hwm & _). simpl in Hwm. rewrite <- Hsm in Hwm. simpl in Hwm. lia.
    + by apply IH.
    + by apply (denote_width _ _ _ _ Hn Hd).
  - unfold sem_bv. rewrite (wire_denote_lookup _ _ _ _ Hn Hd σ j n _ En Ht), E. done.
Qed.
End range.
