(* ===== verification/WireQueryFacts.v ===== *)
(** * Requests become the queries they mean

    The node loop of [query_from_wire] keeps one term per node that has the node's
    sort and, under every environment, the node's value; the query it finishes has
    the models of the request. *)
From stdpp Require Import sorting.
From S2P Require Import Prelude Bits Smt SmtFacts Bytes BytesFacts Ir Sem Evaluator EvaluatorFacts.
From S2P Require Import BlastFacts Builder BuilderSpec BuilderReads BuilderFacts BuilderArith.
From S2P Require Import BuilderStruct BuilderCompare BuilderState BuilderApi BuilderSession.
From S2P Require Import WireBase WireBaseFacts WireExpr WireExprFacts WireDag.
From S2P Require Import WireRequest WireRequestFacts WireMeaning WireQuery.

#[local] Open Scope Z_scope.

Section translate.
Context (v : ExprView) (nodes : list RawNode) (kids blob : list Z) (meta : list NodeInfo).
Context (Hv : view_of v nodes kids blob) (Hd : dag_ok nodes kids blob meta).

(** ** Terms of the nodes so far *)

Definition typed (s : Arena) (t : TermId) (info : NodeInfo) : Prop :=
  match info_sort info with
  | Bv => width_at (Ir.nodes s) t = Some (Z.to_nat (info_width info))
  | Bool => bool_at (Ir.nodes s) t = true
  end.

Definition terms_typed (s : Arena) (terms : list (option TermId)) (i : nat) : Prop :=
  forall j info, (j < i)%nat -> meta !! j = Some info -> exists t, terms !! j = Some (Some t) /\ typed s t info.

(** The term [t] has the value [m env] of a node. *)
Definition has_value (s : Arena) (t : TermId) (info : NodeInfo) (m : Env -> value) : Prop :=
  match info_sort info with
  | Bv => isbv s t (Z.to_nat (info_width info)) (fun env => number (m env))
  | Bool => isbool s t (fun env => truth_of (m env))
  end.

Lemma typed_grow s s' t info : grows s s' -> typed s t info -> typed s' t info.
Proof.
  unfold typed. intros Hg. destruct (info_sort info); [by apply width_at_grow|by apply bool_at_grow].
Qed.

Lemma has_value_typed s t info m : has_value s t info m -> typed s t info.
Proof. unfold has_value, typed. destruct (info_sort info); by intros [? _]. Qed.

(** The term of the [k]-th child. *)
Definition targ (terms : list (option TermId)) (n : RawNode) (k : Z) : TermId :=
  default 0%nat (mjoin (terms !! arg kids n k)).

Section node.
Context (s : Arena) (terms : list (option TermId)) (i : nat) (n : RawNode).
Context (Hi : inv s) (Ht : terms_typed s terms i) (Hn : nodes !! i = Some n).

Lemma child_info_term k so info : child_info kids meta i n k so info -> 0 <= k ->
  exists t, child v terms n k = Ok t /\ targ terms n k = t /\ typed s t info.
Proof.
  intros (r & Hr & Hs & Hlt & Hm & _) Hk. pose proof (NodeRef_index_nonneg r).
  pose proof (node_is_valid v nodes kids blob Hv _ _ Hn) as (_ & _ & _ & _ & _ & Hc & _). unfold is_u32 in Hc.
  destruct (Ht (Z.to_nat (NodeRef.index r)) info ltac:(lia) Hm) as (t & E & Hty). exists t.
  split; [|split; [|done]].
  - unfold child, child_index. pose proof (kids_bound v nodes kids blob Hv) as Hkb. apply lookup_lt_Some in Hr as Hl.
    rewrite (proj2 (Z.leb_le _ _)) by (unfold zlen, u32_max in *; lia). cbn [mbind res_bind].
    rewrite (proj2 (child_ref_ok v nodes kids blob Hv (children n + k) r ltac:(lia)) Hr). unfold wire_err.
    cbn [map_err mbind res_bind]. unfold term_for_ref. by rewrite E.
  - unfold targ, arg. by rewrite Hr, E.
Qed.

Lemma child_bv_term k w : child_bv kids meta i n k w -> 0 <= k ->
  exists t, child v terms n k = Ok t /\ targ terms n k = t /\ isbv s t (Z.to_nat w) (val s t).
Proof.
  intros (info & Hc & <-) Hk. pose proof Hc as (_ & _ & _ & _ & _ & Es).
  destruct (child_info_term _ _ _ Hc Hk) as (t & E & Et & Hty). exists t. split; [done|]. split; [done|].
  unfold typed in Hty. rewrite Es in Hty. by apply isbv_val.
Qed.

Lemma child_bool_term k : child_bool kids meta i n k -> 0 <= k ->
  exists t, child v terms n k = Ok t /\ targ terms n k = t /\ isbool s t (truth s t).
Proof.
  intros (info & Hc) Hk. pose proof Hc as (_ & _ & _ & _ & _ & Es).
  destruct (child_info_term _ _ _ Hc Hk) as (t & E & Et & Hty). exists t. split; [done|]. split; [done|].
  unfold typed in Hty. by rewrite Es in Hty.
Qed.

(** The node's meaning, read off the terms of its children. *)
Definition term_meaning (σ : Valuation) (t : Tag) (env : Env) : value :=
  node_meaning blob σ n t (fun k => val s (targ terms n k) env) (fun k => sem_w (denote env (Ir.nodes s)) (targ terms n k))
    (fun k => truth s (targ terms n k) env).

Lemma wire_const_ok info : info_tag info = TBvConst -> meta !! i = Some info ->
  exists bytes, wire_const_bytes v (node_width n) (payload n) = Ok bytes /\
    length bytes = div_ceil (Z.to_nat (node_width n)) 8 /\ Forall is_byte bytes /\
    wrap (Z.to_nat (node_width n)) (bval bytes) = const_meaning blob n.
Proof.
  intros Et Em. pose proof (dag_shape _ _ _ _ Hd i n info Hn Em) as (_ & Hw & _ & Hwide).
  pose proof (node_is_valid v nodes kids blob Hv _ _ Hn) as (_ & _ & _ & _ & _ & _ & Hp).
  pose proof (proj1 (mapM_Some _ _ _) (dag_meta _ _ _ _ Hd)) as Hall.
  pose proof (Forall2_lookup_lr _ _ _ _ _ _ Hall Hn Em) as Hinfo. unfold info_of in Hinfo.
  apply bind_Some in Hinfo as (t & Htag & Hinfo). injection Hinfo as Hinfo. rewrite <- Hinfo in Et, Hw. simpl in Et. subst t.
  simpl in Hw. unfold MAX_BV_WIDTH in Hw. unfold wire_const_bytes, const_meaning.
  assert (Z.to_nat ((node_width n + 7) / 8) = div_ceil (Z.to_nat (node_width n)) 8) as Hceil.
  { unfold div_ceil. apply Nat2Z.inj. rewrite Nat2Z.inj_div, Nat2Z.inj_add, !Z2Nat.id; [done|lia|]. apply Z.div_pos; lia. }
  destruct (Z.leb_spec (node_width n) 64).
  - exists (take (Z.to_nat ((node_width n + 7) / 8)) (to_le_bytes 8 (payload n))). split; [done|].
    rewrite Hceil. set (k := div_ceil _ 8). assert (k <= 8)%nat.
    { unfold k, div_ceil. apply Nat.lt_succ_r, Nat.Div0.div_lt_upper_bound. lia. }
    rewrite (take_to_le k 8) by done. destruct (to_le_bytes_shape k (payload n)) as [Hl Hb]. split; [done|]. split; [done|].
    rewrite bval_to_le. apply wrap_mod_wider. unfold k. pose proof (div_ceil_8_bounds (Z.to_nat (node_width n))). lia.
  - destruct Hwide as (Hl & l & Hlk); [by rewrite <- Hinfo|done|]. exists l.
    assert (ref_valid (RawNode.blob_ref n)) as Hr by (by apply payload_ref_valid).
    change (BlobRef.from_payload (payload n)) with (RawNode.blob_ref n).
    rewrite (proj2 (blob_ref_ok v nodes kids blob Hv _ l Hr) Hlk). split; [done|]. rewrite Hlk.
    set (r := RawNode.blob_ref n) in *. clearbody r.
    unfold blob_at in Hlk. destruct (Z.leb_spec (blob_offset r + blob_len r) (zlen blob)) as [Hle|]; [|done].
    injection Hlk as <-. destruct Hr as [Hr1 Hr2]. unfold is_u32 in *. rewrite <- Hceil, <- Hl. split_and!; [|..|done].
    + unfold subslice, zlen in *. rewrite length_take, length_drop. lia.
    + unfold subslice. apply Forall_take, Forall_drop, (view_blob_bytes _ _ _ _ Hv).
Qed.
Lemma node_info info : meta !! i = Some info -> exists t, Tag.try_from (tag n) = Some t /\
  info = mkNodeInfo t (Tag.result_sort t) (node_width n).
Proof.
  intros Em. pose proof (proj1 (mapM_Some _ _ _) (dag_meta _ _ _ _ Hd)) as Hall.
  pose proof (Forall2_lookup_lr _ _ _ _ _ _ Hall Hn Em) as H. unfold info_of in H.
  apply bind_Some in H as (t & Ht' & H). injection H as <-. by exists t.
Qed.

(** Calls whose operands are the node's children. *)
Lemma bv_call w m (c : M Arena TermId) (F : Env -> Z) :
  aspec s c (fun r s' => isbv s' r w F) -> (forall env, F env = number (m env)) ->
  aspec s c (fun r s' => isbv s' r w (fun env => number (m env))).
Proof. intros H E. eapply aspec_mono; [exact H|]. intros r s' _ _. by apply isbv_ext. Qed.

Lemma bool_call m (c : M Arena TermId) (F : Env -> bool) :
  aspec s c (fun r s' => isbool s' r F) -> (forall env, F env = truth_of (m env)) ->
  aspec s c (fun r s' => isbool s' r (fun env => truth_of (m env))).
Proof. intros H E. eapply aspec_mono; [exact H|]. intros r s' _ _. by apply isbool_ext. Qed.

Lemma child2_ok a b : child v terms n 0 = Ok a -> child v terms n 1 = Ok b -> child2 v terms n = Ok (a, b).
Proof. intros Ea Eb. unfold child2. rewrite Ea. cbn [mbind res_bind]. by rewrite Eb. Qed.

Context (σ : Valuation) (t : Tag).
Let inf : NodeInfo := mkNodeInfo t (Tag.result_sort t) (node_width n).
Context (Em : meta !! i = Some inf).

Lemma shape_width : width_ok (Tag.result_sort t) (node_width n).
Proof. apply (dag_shape _ _ _ _ Hd i n inf Hn Em). Qed.

Lemma legal_width : Tag.result_sort t = Bv -> legal (Z.to_nat (node_width n)).
Proof.
  pose proof shape_width as H. intros E. rewrite E in H. simpl in H. unfold MAX_BV_WIDTH in *. lia.
Qed.

Definition term_ok (c : M Arena TermId) : Prop :=
  aspec s c (fun r s' => has_value s' r inf (term_meaning σ t)).

Lemma binary_ok op : child_bv kids meta i n 0 (node_width n) -> child_bv kids meta i n 1 (node_width n) ->
  Tag.result_sort t = Bv ->
  (forall env, term_meaning σ t env = VBv (Z.to_nat (node_width n))
    (binary_meaning op (Z.to_nat (node_width n)) (val s (targ terms n 0) env) (val s (targ terms n 1) env))) ->
  term_ok ('(a, b) ← lift (child2 v terms n); run_binary op a b).
Proof.
  intros Ca Cb Es Em'. destruct (child_bv_term _ _ Ca ltac:(lia)) as (a & Ea & Ta & Ha).
  destruct (child_bv_term _ _ Cb ltac:(lia)) as (b & Eb & Tb & Hb).
  unfold term_ok, has_value. simpl. rewrite Es. eapply aspec_lift; [by apply child2_ok|].
  eapply bv_call; [apply (run_binary_spec op s a b _ _ _ Hi Ha Hb)|]. intros env. by rewrite Em', Ta, Tb.
Qed.

Lemma predicate_ok op : (exists w, child_bv kids meta i n 0 w /\ child_bv kids meta i n 1 w) ->
  Tag.result_sort t = Bool ->
  (forall env, term_meaning σ t env = VBool (predicate_meaning op (sem_w (denote env (Ir.nodes s)) (targ terms n 0))
    (val s (targ terms n 0) env) (val s (targ terms n 1) env))) ->
  term_ok ('(a, b) ← lift (child2 v terms n); run_predicate op a b).
Proof.
  intros (w & Ca & Cb) Es Em'. destruct (child_bv_term _ _ Ca ltac:(lia)) as (a & Ea & Ta & Ha).
  destruct (child_bv_term _ _ Cb ltac:(lia)) as (b & Eb & Tb & Hb).
  unfold term_ok, has_value. simpl. rewrite Es. eapply aspec_lift; [by apply child2_ok|].
  eapply bool_call; [apply (run_predicate_spec op s a b _ _ _ Hi Ha Hb)|]. intros env.
  rewrite Em', Ta, Tb. by rewrite (proj1 (isbv_sem _ _ _ _ env Hi Ha)).
Qed.

Lemma boolean_ok op : child_bool kids meta i n 0 /\ child_bool kids meta i n 1 -> Tag.result_sort t = Bool ->
  (forall env, term_meaning σ t env = VBool (bool_meaning op (truth s (targ terms n 0) env) (truth s (targ terms n 1) env))) ->
  term_ok ('(a, b) ← lift (child2 v terms n); run_bool op a b).
Proof.
  intros [Ca Cb] Es Em'. destruct (child_bool_term _ Ca ltac:(lia)) as (a & Ea & Ta & Ha).
  destruct (child_bool_term _ Cb ltac:(lia)) as (b & Eb & Tb & Hb).
  unfold term_ok, has_value. simpl. rewrite Es. eapply aspec_lift; [by apply child2_ok|].
  eapply bool_call; [apply (run_bool_spec op s a b _ _ Hi Ha Hb)|]. intros env. by rewrite Em', Ta, Tb.
Qed.

(** One operand. *)
Lemma unary_bv_ok (f : TermId -> M Arena TermId) w (F : Z -> Z) : child_bv kids meta i n 0 w ->
  Tag.result_sort t = Bv ->
  (forall a, isbv s a (Z.to_nat w) (val s a) ->
    aspec s (f a) (fun r s' => isbv s' r (Z.to_nat (node_width n)) (fun env => F (val s a env)))) ->
  (forall a env, isbv s a (Z.to_nat w) (val s a) -> targ terms n 0 = a ->
    term_meaning σ t env = VBv (Z.to_nat (node_width n)) (F (val s a env))) ->
  term_ok (a ← lift (child v terms n 0); f a).
Proof.
  intros Ca Es Hf Em'. destruct (child_bv_term _ _ Ca ltac:(lia)) as (a & Ea & Ta & Ha).
  unfold term_ok, has_value. simpl. rewrite Es. eapply aspec_lift; [exact Ea|].
  eapply bv_call; [by apply Hf|]. intros env. by rewrite (Em' a env Ha Ta).
Qed.

(** The pairs of a select. *)
Lemma select_cases_ok m p : 0 <= p ->
  (forall q, p <= q < p + Z.of_nat m -> child_bool kids meta i n (q * 2) /\ child_bv kids meta i n (q * 2 + 1) (node_width n)) ->
  exists cases, select_cases v terms n m p = Ok cases /\ cases_ok s (Z.to_nat (node_width n)) cases /\
    forall env d z, sem_bv (denote env (Ir.nodes s)) d = z -> sem_select (denote env (Ir.nodes s)) cases d =
      select_meaning (fun k => val s (targ terms n k) env) (fun k => truth s (targ terms n k) env) m p z.
Proof.
  revert p. induction m as [|m IH]; intros p Hp H; simpl.
  - exists []. split; [done|]. split; [constructor|]. by intros env d z <-.
  - destruct (H p ltac:(lia)) as [Cs Cv].
    destruct (child_bool_term _ Cs ltac:(lia)) as (c & Ec & Tc & Hc).
    destruct (child_bv_term _ _ Cv ltac:(lia)) as (x & Ex & Tx & Hx).
    destruct (IH (p + 1) ltac:(lia)) as (cases & E & Hcases & Hsem); [intros q Hq; apply H; lia|].
    rewrite Ec. cbn [mbind res_bind]. rewrite Ex. cbn [mbind res_bind]. rewrite E. cbn [mbind res_bind].
    exists ((c, x) :: cases). split; [done|]. split; [by constructor|].
    intros env d z Hz. simpl. rewrite (Hsem env d z Hz), Tc, Tx. done.
Qed.
(** The widths of bit-vector children are in range. *)
Lemma child_width k w : child_bv kids meta i n k w -> 1 <= w <= MAX_BV_WIDTH.
Proof.
  intros (info & (r & _ & _ & _ & Hm & Es) & <-). clear Hi Ht.
  pose proof (proj1 (mapM_Some _ _ _) (dag_meta _ _ _ _ Hd)) as Hall.
  destruct (lookup_lt_is_Some_2 nodes (Z.to_nat (NodeRef.index r))) as [m Hm'].
  { rewrite (Forall2_length _ _ _ Hall). by apply lookup_lt_Some in Hm. }
  pose proof (dag_shape _ _ _ _ Hd _ _ _ Hm' Hm) as (_ & Hw & _). rewrite Es in Hw. simpl in Hw.
  pose proof (Forall2_lookup_lr _ _ _ _ _ _ Hall Hm' Hm) as Hf.
  unfold info_of in Hf. apply bind_Some in Hf as (t' & _ & [= <-]). done.
Qed.
End node.

(** The arms with more to them than a call. *)
Lemma const_term_ok s terms i n σ : inv s -> nodes !! i = Some n ->
  meta !! i = Some (mkNodeInfo TBvConst Bv (node_width n)) -> term_ok s terms n σ TBvConst (wire_term v terms n TBvConst).
Proof.
  intros Hi Hn Em. destruct (wire_const_ok i n Hn (mkNodeInfo TBvConst Bv (node_width n)) eq_refl Em) as (bytes & E & Hlen & Hb & Hval).
  pose proof (legal_width i n Hn TBvConst Em eq_refl) as Hl.
  unfold term_ok, has_value. cbn [info_sort info_width Tag.result_sort]. eapply aspec_lift; [exact E|].
  eapply aspec_mono; [by apply const_bytes_masked|]. intros r s' _ Hi' Hr.
  eapply isbv_ext; [|exact (isconst_isbv _ _ _ _ Hi' Hr)]. intros env. simpl. by rewrite Hval.
Qed.

Lemma concat_term_ok s terms i n σ wh wl : inv s -> terms_typed s terms i -> nodes !! i = Some n ->
  child_bv kids meta i n 0 wh -> child_bv kids meta i n 1 wl -> node_width n = wh + wl ->
  legal (Z.to_nat (node_width n)) -> term_ok s terms n σ TBvConcat (wire_term v terms n TBvConcat).
Proof.
  intros Hi Ht Hn Ca Cb Ew Hl. pose proof (child_width _ _ _ _ Ca). pose proof (child_width _ _ _ _ Cb).
  destruct (child_bv_term s terms i n Ht Hn _ _ Ca ltac:(lia)) as (a & Ea & Ta & Ha).
  destruct (child_bv_term s terms i n Ht Hn _ _ Cb ltac:(lia)) as (b & Eb & Tb & Hb).
  unfold term_ok, has_value, wire_term. cbn [info_sort info_width Tag.result_sort]. eapply aspec_lift; [by apply child2_ok|].
  replace (Z.to_nat (node_width n)) with (Z.to_nat wh + Z.to_nat wl)%nat in * by lia.
  eapply bv_call; [by apply (bv_concat_spec s a b _ _ _ _ Hi Ha Hb)|]. intros env. unfold term_meaning, node_meaning.
  rewrite Ta, Tb. simpl. by rewrite (proj1 (isbv_sem _ _ _ _ env Hi Hb)).
Qed.

Lemma ite_term_ok s terms i n σ : inv s -> terms_typed s terms i -> nodes !! i = Some n ->
  children_ok kids meta i n TBvIte -> term_ok s terms n σ TBvIte (wire_term v terms n TBvIte).
Proof.
  intros Hi Ht Hn (Cc & Ct & Ce).
  destruct (child_bool_term s terms i n Ht Hn _ Cc ltac:(lia)) as (c & Ec & Tc & Hc).
  destruct (child_bv_term s terms i n Ht Hn _ _ Ct ltac:(lia)) as (a & Ea & Ta & Ha).
  destruct (child_bv_term s terms i n Ht Hn _ _ Ce ltac:(lia)) as (b & Eb & Tb & Hb).
  unfold term_ok, has_value, wire_term. cbn [info_sort info_width Tag.result_sort]. eapply aspec_lift; [exact Ec|].
  eapply aspec_lift; [exact Ea|]. eapply aspec_lift; [exact Eb|].
  eapply bv_call; [by apply (bv_ite_spec s c a b _ _ _ _ Hi Hc Ha Hb)|]. intros env. unfold term_meaning, node_meaning.
  by rewrite Tc, Ta, Tb.
Qed.

Lemma select_term_ok s terms i n σ : inv s -> terms_typed s terms i -> nodes !! i = Some n ->
  children_ok kids meta i n TBvSelect -> term_ok s terms n σ TBvSelect (wire_term v terms n TBvSelect).
Proof.
  intros Hi Ht Hn (Hpairs & Cd & Cp). pose proof (node_is_valid v nodes kids blob Hv _ _ Hn) as (_ & _ & Hhi & _).
  unfold is_u16 in Hhi.
  destruct (child_bv_term s terms i n Ht Hn _ _ Cd ltac:(lia)) as (d & Ed & Td & Hd').
  destruct (select_cases_ok s terms i n Ht Hn (Z.to_nat (aux_hi n)) 0 ltac:(lia)) as (cases & Ec & Hcases & Hsem).
  { intros q Hq. apply Cp. lia. }
  unfold term_ok, has_value, wire_term. cbn [info_sort info_width Tag.result_sort]. eapply aspec_lift; [exact Ec|]. eapply aspec_lift; [exact Ed|].
  eapply bv_call; [by apply (bv_select_spec s cases d _ _ Hi Hcases Hd')|]. intros env. unfold term_meaning, node_meaning.
  simpl. rewrite Td. by apply Hsem.
Qed.

Lemma wire_term_ok s terms i n σ t : inv s -> terms_typed s terms i -> nodes !! i = Some n ->
  meta !! i = Some (mkNodeInfo t (Tag.result_sort t) (node_width n)) -> is_var t = false ->
  term_ok s terms n σ t (wire_term v terms n t).
Proof.
  intros Hi Ht Hn Em Hvar. pose proof (dag_children _ _ _ _ Hd i n _ Hn Em) as Hc. simpl in Hc.
  pose proof (node_is_valid v nodes kids blob Hv _ _ Hn) as (_ & _ & Hhi & _ & Hlo & _ & _).
  unfold is_u16, is_u32 in Hhi, Hlo. pose proof (legal_width i n Hn t Em) as Hl.
  pose proof (shape_width i n Hn t Em) as Hw. pose proof (child_width i n) as Hcw. unfold MAX_BV_WIDTH in Hcw.
  destruct t; try discriminate Hvar; simpl in Hc, Hw; unfold wire_term; cbv zeta.
  - by apply const_term_ok with (i := i).
  - apply (unary_bv_ok s terms i n Ht Hn σ TBvNot bv_not _ (bvnot (Z.to_nat (node_width n))) Hc eq_refl).
    + intros a Ha. by apply bv_not_spec.
    + intros a env Ha <-. done.
  - apply (unary_bv_ok s terms i n Ht Hn σ TBvNeg bv_neg _ (bvneg (Z.to_nat (node_width n))) Hc eq_refl).
    + intros a Ha. by apply bv_neg_spec.
    + intros a env Ha <-. done.
  - destruct Hc as [Ca Cb]. by apply (binary_ok s terms i n Hi Ht Hn σ _ CAnd).
  - destruct Hc as [Ca Cb]. by apply (binary_ok s terms i n Hi Ht Hn σ _ COr).
  - destruct Hc as [Ca Cb]. by apply (binary_ok s terms i n Hi Ht Hn σ _ CXor).
  - destruct Hc as [Ca Cb]. by apply (binary_ok s terms i n Hi Ht Hn σ _ CAdd).
  - destruct Hc as [Ca Cb]. by apply (binary_ok s terms i n Hi Ht Hn σ _ CSub).
  - destruct Hc as [Ca Cb]. by apply (binary_ok s terms i n Hi Ht Hn σ _ CMul).
  - destruct Hc as [Ca Cb]. by apply (binary_ok s terms i n Hi Ht Hn σ _ CUdiv).
  - destruct Hc as [Ca Cb]. by apply (binary_ok s terms i n Hi Ht Hn σ _ CUrem).
  - destruct Hc as [Ca Cb]. by apply (binary_ok s terms i n Hi Ht Hn σ _ CSdiv).
  - destruct Hc as [Ca Cb]. by apply (binary_ok s terms i n Hi Ht Hn σ _ CSrem).
  - destruct Hc as [Ca Cb]. by apply (binary_ok s terms i n Hi Ht Hn σ _ CSmod).
  - destruct Hc as [Ca Cb]. by apply (binary_ok s terms i n Hi Ht Hn σ _ CShl).
  - destruct Hc as [Ca Cb]. by apply (binary_ok s terms i n Hi Ht Hn σ _ CLshr).
  - destruct Hc as [Ca Cb]. by apply (binary_ok s terms i n Hi Ht Hn σ _ CAshr).
  - destruct Hc as (w & Ca & Hr & Ew). pose proof (Hcw _ _ Ca).
    apply (unary_bv_ok s terms i n Ht Hn σ TBvExtract _ w (bvextract (Z.to_nat (aux_hi n)) (Z.to_nat (aux_lo n))) Ca eq_refl).
    + intros a Ha. replace (Z.to_nat (node_width n)) with (Z.to_nat (aux_hi n) - Z.to_nat (aux_lo n) + 1)%nat by lia.
      apply (bv_extract_spec s a _ _ _ _ Hi Ha). lia.
    + intros a env Ha <-. done.
  - destruct Hc as (wh & wl & Ca & Cb & Ew). apply (concat_term_ok s terms i n σ wh wl); auto.
  - destruct Hc as (w & Ca & Ew). pose proof (Hcw _ _ Ca).
    apply (unary_bv_ok s terms i n Ht Hn σ TBvZext _ w (fun x => x) Ca eq_refl).
    + intros a Ha. replace (Z.to_nat (node_width n)) with (Z.to_nat w + Z.to_nat (aux_hi n))%nat in * by lia.
      apply (bv_zext_spec s a _ _ _ Hi Ha). by apply Hl.
    + intros a env Ha <-. done.
  - destruct Hc as (w & Ca & Ew). pose proof (Hcw _ _ Ca).
    apply (unary_bv_ok s terms i n Ht Hn σ TBvSext _ w (bvsext (Z.to_nat w) (Z.to_nat (aux_hi n))) Ca eq_refl).
    + intros a Ha. replace (Z.to_nat (node_width n)) with (Z.to_nat w + Z.to_nat (aux_hi n))%nat in * by lia.
      apply (bv_sext_spec s a _ _ _ Hi Ha). by apply Hl.
    + intros a env Ha <-. unfold term_meaning, node_meaning. by rewrite (proj1 (isbv_sem _ _ _ _ env Hi Ha)).
  - by apply (ite_term_ok s terms i n σ).
  - by apply (select_term_ok s terms i n σ).
  - unfold term_ok, has_value. cbn [info_sort info_width Tag.result_sort]. by apply bool_true_spec.
  - unfold term_ok, has_value. cbn [info_sort info_width Tag.result_sort]. by apply bool_false_spec.
  - destruct (child_bool_term s terms i n Ht Hn _ Hc ltac:(lia)) as (a & Ea & Ta & Ha).
    unfold term_ok, has_value. cbn [info_sort info_width Tag.result_sort]. eapply aspec_lift; [exact Ea|].
    eapply bool_call; [by apply bool_not_spec|]. intros env. unfold term_meaning, node_meaning. by rewrite Ta.
  - by apply (boolean_ok s terms i n Hi Ht Hn σ _ CBoolAnd).
  - by apply (boolean_ok s terms i n Hi Ht Hn σ _ CBoolOr).
  - by apply (boolean_ok s terms i n Hi Ht Hn σ _ CBoolImplies).
  - by apply (predicate_ok s terms i n Hi Ht Hn σ _ CEq).
  - by apply (predicate_ok s terms i n Hi Ht Hn σ _ CUlt).
  - by apply (predicate_ok s terms i n Hi Ht Hn σ _ CUle).
  - by apply (predicate_ok s terms i n Hi Ht Hn σ _ CSlt).
  - by apply (predicate_ok s terms i n Hi Ht Hn σ _ CSle).
  - by apply (predicate_ok s terms i n Hi Ht Hn σ _ CUaddo).
  - by apply (predicate_ok s terms i n Hi Ht Hn σ _ CSaddo).
  - by apply (predicate_ok s terms i n Hi Ht Hn σ _ CUsubo).
  - by apply (predicate_ok s terms i n Hi Ht Hn σ _ CSsubo).
  - by apply (predicate_ok s terms i n Hi Ht Hn σ _ CUmulo).
  - by apply (predicate_ok s terms i n Hi Ht Hn σ _ CSmulo).
  - destruct Hc as (w & Ca). destruct (child_bv_term s terms i n Ht Hn _ _ Ca ltac:(lia)) as (a & Ea & Ta & Ha).
    unfold term_ok, has_value. cbn [info_sort info_width Tag.result_sort]. eapply aspec_lift; [exact Ea|].
    eapply bool_call; [by eapply neg_ovf_spec|]. intros env. unfold term_meaning, node_meaning.
    rewrite Ta. simpl. by rewrite (proj1 (isbv_sem _ _ _ _ env Hi Ha)).
  - by apply (predicate_ok s terms i n Hi Ht Hn σ _ CSdivo).
Qed.
End translate.

(** ** The node loop of the translation

    [tr_ok] is the invariant of the loop of [query_from_wire]; [translate_nodes_ok]
    shows that every pass keeps it, so at the end every node has a term of its value
    under every environment that agrees with a valuation of the symbols. *)

#[local] Open Scope Z_scope.

Section loop.
Context (v : ExprView) (nodes : list RawNode) (kids blob : list Z) (meta : list NodeInfo).
Context (Hv : view_of v nodes kids blob) (Hd : dag_ok nodes kids blob meta).

Let D (σ : Valuation) : list value := wire_denote blob σ kids nodes.

Lemma nodes_are_valid : Forall node_valid nodes.
Proof. apply (parts_nodes _ _ _ (view_parts _ _ _ _ Hv)). Qed.

Lemma D_lookup σ i n t : nodes !! i = Some n -> Tag.try_from (tag n) = Some t ->
  D σ !! i = Some (node_meaning blob σ n t (fun k => sem_bv (D σ) (arg kids n k)) (fun k => sem_w (D σ) (arg kids n k))
    (fun k => sem_bool (D σ) (arg kids n k))).
Proof. apply (wire_denote_lookup nodes kids blob meta nodes_are_valid Hd). Qed.

Lemma D_width σ j info : meta !! j = Some info -> info_sort info = Bv -> sem_w (D σ) j = Z.to_nat (info_width info).
Proof. apply (denote_width nodes kids blob meta nodes_are_valid Hd). Qed.

(** ** The invariant *)

(** The environment gives the variables the valuation's values. *)
Record agrees (s : Arena) (tr : Translation) (σ : Valuation) (env : Env) : Prop := {
  ag_bv name w t : bv_vars tr !! (name, w) = Some t -> val s t env = wrap (Z.to_nat w) (v_bv σ name w);
  ag_bool name t : bool_vars tr !! name = Some t -> truth s t env = v_bool σ name;
}.

Definition value_is (s : Arena) (t : TermId) (env : Env) (σ : Valuation) (j : nat) (so : Sort) : Prop :=
  match so with Bv => val s t env = sem_bv (D σ) j | Bool => truth s t env = sem_bool (D σ) j end.

Record tr_ok (s : Arena) (tr : Translation) (i : nat) : Prop := {
  tk_length : length (tr_terms tr) = length nodes;
  tk_typed : terms_typed meta s (tr_terms tr) i;
  tk_bv name w t : bv_vars tr !! (name, w) = Some t -> 1 <= w <= MAX_BV_WIDTH /\
    exists ext, Ir.nodes s !! t = Some (mkNode (BvVar (Z.to_nat w) name ext) (SBv (Z.to_nat w)));
  tk_bool name t : bool_vars tr !! name = Some t -> exists ext, Ir.nodes s !! t = Some (mkNode (BoolVar name ext) SBool);
  tk_value σ env : agrees s tr σ env -> forall j info t, (j < i)%nat -> meta !! j = Some info ->
    tr_terms tr !! j = Some (Some t) -> value_is s t env σ j (info_sort info);
}.

Lemma val_kept s s' t w env : grows s s' -> width_at (Ir.nodes s) t = Some w -> val s' t env = val s t env.
Proof. intros Hg Hw. apply (proj2 (isbv_grow s s' t w _ Hg (isbv_val _ _ _ Hw))). Qed.

Lemma truth_kept s s' t env : grows s s' -> bool_at (Ir.nodes s) t = true -> truth s' t env = truth s t env.
Proof.
  intros Hg Hb. assert (isbool s t (truth s t)) as H by done. apply (proj2 (isbool_grow s s' t _ Hg H)).
Qed.

Lemma node_width_at s t w k : Ir.nodes s !! t = Some (mkNode k (SBv w)) -> width_at (Ir.nodes s) t = Some w.
Proof. intros H. unfold width_at. by rewrite H. Qed.
Lemma node_bool_at s t k : Ir.nodes s !! t = Some (mkNode k SBool) -> bool_at (Ir.nodes s) t = true.
Proof. intros H. unfold bool_at. by rewrite H. Qed.

(** Agreement on more variables, in a larger arena, is agreement on these. *)
Lemma agrees_shrink s s' tr tr' σ env i : tr_ok s tr i -> grows s s' ->
  bv_vars tr ⊆ bv_vars tr' -> bool_vars tr ⊆ bool_vars tr' -> agrees s' tr' σ env -> agrees s tr σ env.
Proof.
  intros Hok Hg Hb Ho [H1 H2]. split.
  - intros name w t H. destruct (tk_bv _ _ _ Hok _ _ _ H) as (_ & ext & Hn).
    rewrite <- (val_kept s s' t _ env Hg (node_width_at _ _ _ _ Hn)). apply H1. by eapply lookup_weaken.
  - intros name t H. destruct (tk_bool _ _ _ Hok _ _ H) as (ext & Hn).
    rewrite <- (truth_kept s s' t env Hg (node_bool_at _ _ _ Hn)). apply H2. by eapply lookup_weaken.
Qed.

Lemma value_is_grow s s' t env σ j info : grows s s' -> typed s t info -> value_is s t env σ j (info_sort info) ->
  value_is s' t env σ j (info_sort info).
Proof.
  unfold typed, value_is. intros Hg. destruct (info_sort info).
  - intros Hw <-. by eapply val_kept.
  - intros Hw <-. by apply truth_kept.
Qed.

(** The term of node [i] joins the others. *)
Lemma tr_ok_step s s' tr bvm boolm i info r : tr_ok s tr i -> grows s s' -> (i < length nodes)%nat ->
  meta !! i = Some info -> typed s' r info -> bv_vars tr ⊆ bvm -> bool_vars tr ⊆ boolm ->
  (forall name w t, bvm !! (name, w) = Some t -> 1 <= w <= MAX_BV_WIDTH /\
    exists ext, Ir.nodes s' !! t = Some (mkNode (BvVar (Z.to_nat w) name ext) (SBv (Z.to_nat w)))) ->
  (forall name t, boolm !! name = Some t -> exists ext, Ir.nodes s' !! t = Some (mkNode (BoolVar name ext) SBool)) ->
  (forall σ env, agrees s' (mkTranslation (tr_terms tr) bvm boolm) σ env -> value_is s' r env σ i (info_sort info)) ->
  tr_ok s' (mkTranslation (<[i := Some r]> (tr_terms tr)) bvm boolm) (S i).
Proof.
  intros Hok Hg Hi Em Hr Hb Ho Hb' Ho' Hval. pose proof (tk_length _ _ _ Hok) as Hlen. split; simpl.
  - by rewrite length_insert.
  - intros j info' Hj Em'. destruct (decide (j = i)) as [->|Hne].
    + exists r. rewrite list_lookup_insert_eq by lia. split; [done|]. congruence.
    + destruct (tk_typed _ _ _ Hok j info') as (t & Ht & Hty); [lia|done|]. exists t.
      rewrite list_lookup_insert_ne by done. split; [done|]. by eapply typed_grow.
  - exact Hb'.
  - exact Ho'.
  - intros σ env Ha j info' t Hj Em' Ht. destruct (decide (j = i)) as [->|Hne].
    + rewrite list_lookup_insert_eq in Ht by lia. injection Ht as <-. rewrite Em in Em'. injection Em' as <-.
      apply Hval. destruct Ha as [H1 H2]. by split.
    + rewrite list_lookup_insert_ne in Ht by done. assert (j < i)%nat as Hj' by lia.
      destruct (tk_typed _ _ _ Hok j info' Hj' Em') as (t' & Ht' & Hty). assert (t' = t) as -> by congruence.
      eapply value_is_grow; [exact Hg|exact Hty|]. apply (tk_value _ _ _ Hok σ env); [|done..].
      exact (agrees_shrink s s' tr (mkTranslation _ bvm boolm) σ env i Hok Hg Hb Ho Ha).
Qed.

(** The meaning read off the terms is the node's value. *)
Lemma term_meaning_value s tr i n t σ env : inv s -> tr_ok s tr i -> nodes !! i = Some n ->
  meta !! i = Some (mkNodeInfo t (Tag.result_sort t) (node_width n)) -> Tag.try_from (tag n) = Some t ->
  agrees s tr σ env -> D σ !! i = Some (term_meaning kids blob s (tr_terms tr) n σ t env).
Proof.
  intros Hi Hok Hn Em Ht Ha. rewrite (D_lookup σ i n t Hn Ht). f_equal. unfold term_meaning. symmetry.
  apply (node_meaning_ext blob σ kids meta i n t).
  - by apply (node_is_valid v nodes kids blob Hv i n).
  - apply (dag_children _ _ _ _ Hd i n _ Hn Em).
  - intros k w (info & Hc & <-). pose proof Hc as (_ & _ & _ & _ & _ & Es). apply child_arg in Hc as [Hk Hm].
    destruct (tk_typed _ _ _ Hok _ _ Hk Hm) as (x & Hx & Hty). unfold targ. rewrite Hx. simpl.
    pose proof (tk_value _ _ _ Hok σ env Ha _ _ _ Hk Hm Hx) as Hval. unfold value_is, typed in *. rewrite Es in *.
    split; [done|]. rewrite (D_width σ _ _ Hm Es).
    by rewrite (proj1 (isbv_sem _ _ _ _ env Hi (isbv_val _ _ _ Hty))).
  - intros k (info & Hc). pose proof Hc as (_ & _ & _ & _ & _ & Es). apply child_arg in Hc as [Hk Hm].
    destruct (tk_typed _ _ _ Hok _ _ Hk Hm) as (x & Hx & Hty). unfold targ. rewrite Hx. simpl.
    pose proof (tk_value _ _ _ Hok σ env Ha _ _ _ Hk Hm Hx) as Hval. unfold value_is in *. by rewrite Es in *.
Qed.
(** ** One pass of the loop *)

Lemma aspec_all {X A} (a0 : A) s (m : M Arena X) (Q : A -> X -> Arena -> Prop) :
  (forall a, aspec s m (Q a)) -> aspec s m (fun r s' => forall a, Q a r s').
Proof.
  intros H. pose proof (H a0) as H0. unfold aspec in *. destruct (m s) as [[r|e|] s']; [|done..].
  destruct H0 as (? & ? & _). split_and!; [done..|]. intros a. apply (H a).
Qed.

(** What the arm of the node's tag returns: its term and the extended tables. *)
Record arm_ok (s : Arena) (tr : Translation) (i : nat) (info : NodeInfo) (x : TermId * Translation) (s' : Arena) : Prop := {
  arm_terms : tr_terms x.2 = tr_terms tr;
  arm_typed : typed s' x.1 info;
  arm_bv_more : bv_vars tr ⊆ bv_vars x.2;
  arm_bool_more : bool_vars tr ⊆ bool_vars x.2;
  arm_bv name w t : bv_vars x.2 !! (name, w) = Some t -> 1 <= w <= MAX_BV_WIDTH /\
    exists ext, Ir.nodes s' !! t = Some (mkNode (BvVar (Z.to_nat w) name ext) (SBv (Z.to_nat w)));
  arm_bool name t : bool_vars x.2 !! name = Some t -> exists ext, Ir.nodes s' !! t = Some (mkNode (BoolVar name ext) SBool);
  arm_value σ env : agrees s' x.2 σ env -> value_is s' x.1 env σ i (info_sort info);
}.

(** Tables that did not change. *)
Lemma arm_same s s' tr i info r : inv s -> tr_ok s tr i -> grows s s' -> typed s' r info ->
  (forall σ env, agrees s tr σ env -> value_is s' r env σ i (info_sort info)) -> arm_ok s tr i info (r, tr) s'.
Proof.
  intros Hi Hok Hg Hr Hval. split; simpl; try done.
  - intros name w t H. destruct (tk_bv _ _ _ Hok _ _ _ H) as (Hw & ext & Hn). split; [done|]. exists ext.
    by eapply grows_lookup.
  - intros name t H. destruct (tk_bool _ _ _ Hok _ _ H) as (ext & Hn). exists ext. by eapply grows_lookup.
  - intros σ env Ha. apply Hval. by eapply agrees_shrink.
Qed.

Section arm.
Context (s : Arena) (tr : Translation) (i : nat) (n : RawNode) (t : Tag).
Context (Hi : inv s) (Hok : tr_ok s tr i) (Hn : nodes !! i = Some n) (Ht : Tag.try_from (tag n) = Some t).
Context (Em : meta !! i = Some (mkNodeInfo t (Tag.result_sort t) (node_width n))).
Let inf : NodeInfo := mkNodeInfo t (Tag.result_sort t) (node_width n).

Lemma term_arm_ok : is_var t = false ->
  aspec s (term ← wire_term v (tr_terms tr) n t; mret (term, tr)) (arm_ok s tr i inf).
Proof.
  intros Hvar. eapply aspec_bind.
  { apply (aspec_all (mkValuation (fun _ _ => 0) (fun _ => false))). intros σ.
    apply (wire_term_ok v nodes kids blob meta Hv Hd s (tr_terms tr) i n σ t Hi (tk_typed _ _ _ Hok) Hn Em Hvar). }
  intros r s' Hg Hi' Hr. apply aspec_ret; [done|]. simpl. apply arm_same; [done..| |].
  - eapply has_value_typed, (Hr (mkValuation (fun _ _ => 0) (fun _ => false))).
  - intros σ env Ha. specialize (Hr σ). pose proof (term_meaning_value s tr i n t σ env Hi Hok Hn Em Ht Ha) as HD.
    unfold value_is, has_value, sem_bv, sem_bool in *. simpl in *. rewrite HD.
    destruct (Tag.result_sort t); destruct Hr as [_ ->]; by destruct (term_meaning _ _ _ _ _ _ _ _).
Qed.

Lemma index_small : Z.of_nat i <= NodeRef.INDEX_MASK.
Proof.
  pose proof (parts_node_count _ _ _ (view_parts _ _ _ _ Hv)) as H. apply lookup_lt_Some in Hn.
  unfold zlen, MAX_NODE_COUNT, NodeRef.INDEX_MASK in *. lia.
Qed.

Lemma external_ok so : exists ext, external_ref (NodeRef.new so (Z.of_nat i)) = Ok ext.
Proof.
  unfold external_ref, NodeRef.new. rewrite (proj2 (Z.ltb_ge _ _)) by apply index_small. by eexists.
Qed.

Lemma name_known : is_var t = true -> exists name, blob_name blob (RawNode.blob_ref n) = Some name /\
  (forall c, ExprView.blob_str v (BlobRef.from_payload (payload n)) c = Ok name).
Proof.
  intros Hvar. pose proof (dag_shape _ _ _ _ Hd i n _ Hn Em) as (_ & _ & H & _). destruct (H Hvar) as [name E].
  exists name. split; [done|]. intros c. apply (blob_str_ok v nodes kids blob Hv); [|exact E].
  apply payload_ref_valid. by apply (node_is_valid v nodes kids blob Hv i n).
Qed.

Lemma bv_var_node_spec name w ext : legal w ->
  aspec s (bv_var_external name w ext) (fun r s' => Ir.nodes s' !! r = Some (mkNode (BvVar w name ext) (SBv w))).
Proof.
  intros Hw. unfold bv_var_external.
  eapply aspec_lift; [unfold validate_bv_width; destruct Hw; rewrite (proj2 (andb_true_iff _ _)); [done|lia]|].
  apply aspec_add; [done| |done]. apply andb_true_iff. split; [by apply bool_decide_eq_true|by apply valid_sort_bv].
Qed.

Lemma bool_var_node_spec name ext :
  aspec s (bool_var_external name ext) (fun r s' => Ir.nodes s' !! r = Some (mkNode (BoolVar name ext) SBool)).
Proof. by apply aspec_add. Qed.

Lemma bv_var_arm_ok : t = TBvVar -> aspec s (wire_bv_var v (Z.of_nat i) n tr) (arm_ok s tr i inf).
Proof.
  intros E. assert (1 <= node_width n <= MAX_BV_WIDTH) as Hw.
  { pose proof (dag_shape _ _ _ _ Hd i n _ Hn Em) as (_ & H & _). by rewrite E in H. }
  destruct (name_known ltac:(by rewrite E)) as (name & Hname & Hstr). unfold wire_bv_var, wire_err.
  eapply aspec_lift; [by rewrite Hstr|].
  assert (forall σ, sem_bv (D σ) i = wrap (Z.to_nat (node_width n)) (v_bv σ name (node_width n))) as HD.
  { intros σ. unfold sem_bv. rewrite (D_lookup σ i n t Hn Ht), E. simpl. unfold symbol. by rewrite Hname. }
  destruct (bv_vars tr !! (name, node_width n)) as [x|] eqn:Ex.
  - apply aspec_ret; [done|]. apply arm_same; [done|done|reflexivity| |].
    + unfold typed, inf. rewrite E. simpl. destruct (tk_bv _ _ _ Hok _ _ _ Ex) as (_ & ext & Hx). eapply node_width_at, Hx.
    + intros σ env Ha. unfold inf, value_is. rewrite E. simpl. rewrite HD. by apply (ag_bv _ _ _ _ Ha).
  - destruct (external_ok Bv) as [ext Eext]. eapply aspec_lift; [exact Eext|].
    eapply aspec_bind; [apply bv_var_node_spec; unfold MAX_BV_WIDTH in *; lia|]. intros r s' Hg Hi' Hr.
    apply aspec_ret; [done|]. split; simpl.
    + done.
    + unfold typed, inf. rewrite E. simpl. eapply node_width_at, Hr.
    + by apply insert_subseteq.
    + done.
    + intros name' w' y Hy. destruct (decide ((name', w') = (name, node_width n))) as [[= -> ->]|Hne].
      * rewrite lookup_insert_eq in Hy. injection Hy as <-. split; [done|]. by exists ext.
      * rewrite lookup_insert_ne in Hy by done. destruct (tk_bv _ _ _ Hok _ _ _ Hy) as (Hw' & ext' & Hy').
        split; [done|]. exists ext'. by eapply grows_lookup.
    + intros name' y Hy. destruct (tk_bool _ _ _ Hok _ _ Hy) as (ext' & Hy'). exists ext'. by eapply grows_lookup.
    + intros σ env Ha. unfold inf, value_is. rewrite E. simpl. rewrite HD. apply (ag_bv _ _ _ _ Ha). simpl. apply lookup_insert_eq.
Qed.

Lemma bool_var_arm_ok : t = TBoolVar -> aspec s (wire_bool_var v (Z.of_nat i) n tr) (arm_ok s tr i inf).
Proof.
  intros E. destruct (name_known ltac:(by rewrite E)) as (name & Hname & Hstr). unfold wire_bool_var, wire_err.
  eapply aspec_lift; [by rewrite Hstr|].
  assert (forall σ, sem_bool (D σ) i = v_bool σ name) as HD.
  { intros σ. unfold sem_bool. rewrite (D_lookup σ i n t Hn Ht), E. simpl. unfold symbol. by rewrite Hname. }
  destruct (bool_vars tr !! name) as [x|] eqn:Ex.
  - apply aspec_ret; [done|]. apply arm_same; [done|done|reflexivity| |].
    + unfold typed, inf. rewrite E. simpl. destruct (tk_bool _ _ _ Hok _ _ Ex) as (ext & Hx). eapply node_bool_at, Hx.
    + intros σ env Ha. unfold inf, value_is. rewrite E. simpl. rewrite HD. by apply (ag_bool _ _ _ _ Ha).
  - destruct (external_ok Bool) as [ext Eext]. eapply aspec_lift; [exact Eext|].
    eapply aspec_bind; [apply bool_var_node_spec|]. intros r s' Hg Hi' Hr.
    apply aspec_ret; [done|]. split; simpl.
    + done.
    + unfold typed, inf. rewrite E. simpl. eapply node_bool_at, Hr.
    + done.
    + by apply insert_subseteq.
    + intros name' w' y Hy. destruct (tk_bv _ _ _ Hok _ _ _ Hy) as (Hw' & ext' & Hy').
      split; [done|]. exists ext'. by eapply grows_lookup.
    + intros name' y Hy. destruct (decide (name' = name)) as [->|Hne].
      * rewrite lookup_insert_eq in Hy. injection Hy as <-. by exists ext.
      * rewrite lookup_insert_ne in Hy by done. destruct (tk_bool _ _ _ Hok _ _ Hy) as (ext' & Hy'). exists ext'.
        by eapply grows_lookup.
    + intros σ env Ha. unfold inf, value_is. rewrite E. simpl. rewrite HD. apply (ag_bool _ _ _ _ Ha). simpl. apply lookup_insert_eq.
Qed.
End arm.

Lemma translate_node_ok s tr i n : inv s -> tr_ok s tr i -> nodes !! i = Some n ->
  aspec s (translate_node v (Z.of_nat i) tr) (fun tr' s' => tr_ok s' tr' (S i)).
Proof.
  intros Hi Hok Hn. destruct (dag_info nodes kids blob meta Hd i n Hn) as (t & Ht & Em). unfold translate_node, wire_err.
  eapply aspec_lift; [by rewrite (view_node _ _ _ _ Hv _ _ Hn)|]. rewrite Ht.
  eapply (aspec_bind s _ _ (arm_ok s tr i (mkNodeInfo t (Tag.result_sort t) (node_width n)))).
  { destruct (is_var t) eqn:Evar.
    - destruct t; try discriminate Evar.
      + exact (bv_var_arm_ok s tr i n TBvVar Hi Hok Hn Ht Em eq_refl).
      + exact (bool_var_arm_ok s tr i n TBoolVar Hi Hok Hn Ht Em eq_refl).
    - pose proof (term_arm_ok s tr i n t Hi Hok Hn Ht Em Evar) as H.
      destruct t; try discriminate Evar; exact H. }
  intros [r tr'] s' Hg Hi' Ha. pose proof (lookup_lt_Some _ _ _ Hn) as Hlt.
  pose proof (arm_terms _ _ _ _ _ _ Ha) as Et. simpl in Et.
  eapply aspec_lift.
  { unfold set_index. rewrite Nat2Z.id, Et, (tk_length _ _ _ Hok). by rewrite ltb_t. }
  apply aspec_ret; [done|]. destruct tr' as [terms bvm boolm]. simpl in Et. subst terms. simpl.
  destruct Ha as [_ H1 H2 H3 H4 H5 H6]. simpl in *. by eapply tr_ok_step.
Qed.

Lemma translate_nodes_ok m s tr i : inv s -> tr_ok s tr i -> (i + m <= length nodes)%nat ->
  aspec s (translate_nodes v m (Z.of_nat i) tr) (fun tr' s' => tr_ok s' tr' (i + m)).
Proof.
  revert s tr i. induction m as [|m IH]; intros s tr i Hi Hok Hm; simpl.
  - apply aspec_ret; [done|]. by rewrite Nat.add_0_r.
  - destruct (lookup_lt_is_Some_2 nodes i) as [n Hn]; [lia|].
    eapply aspec_bind; [by eapply translate_node_ok|]. intros tr' s' Hg Hi' Hok'.
    replace (Z.of_nat i + 1) with (Z.of_nat (S i)) by lia. replace (i + S m)%nat with (S i + m)%nat by lia.
    apply IH; [done|done|lia].
Qed.

Lemma tr_ok_start s : tr_ok s (mkTranslation (replicate (length nodes) None) ∅ ∅) 0.
Proof.
  split; simpl.
  - by rewrite length_replicate.
  - intros j info Hj. lia.
  - intros name w t H. by rewrite lookup_empty in H.
  - intros name t H. by rewrite lookup_empty in H.
  - intros σ env _ j info t Hj. lia.
Qed.

(** ** Environments and valuations *)

Lemma agrees_valuation s tr i env : inv s -> tr_ok s tr i -> exists σ, agrees s tr σ env.
Proof.
  intros Hi Hok.
  exists (mkValuation (fun name w => match bv_vars tr !! (name, w) with Some t => val s t env | None => 0 end)
    (fun name => match bool_vars tr !! name with Some t => truth s t env | None => false end)). split; simpl.
  - intros name w t E. rewrite E. destruct (tk_bv _ _ _ Hok _ _ _ E) as (_ & ext & Hn). symmetry. apply wrap_small.
    by apply (isbv_range s t _ _ env Hi (isbv_val _ _ _ (node_width_at _ _ _ _ Hn))).
  - intros name t E. by rewrite E.
Qed.

Lemma agrees_env s tr i σ : inv s -> tr_ok s tr i -> exists env, agrees s tr σ env.
Proof.
  intros Hi Hok.
  exists (mkEnv (fun t => match Ir.nodes s !! t with Some (mkNode (BvVar w name _) _) => v_bv σ name (Z.of_nat w) | _ => 0 end)
    (fun t => match Ir.nodes s !! t with Some (mkNode (BoolVar name _) _) => v_bool σ name | _ => false end)). split.
  - intros name w t E. destruct (tk_bv _ _ _ Hok _ _ _ E) as (Hw & ext & Hn).
    unfold val, sem_bv. rewrite (node_value _ _ _ _ (inv_typed _ Hi) Hn). simpl. rewrite Hn. by rewrite Z2Nat.id by lia.
  - intros name t E. destruct (tk_bool _ _ _ Hok _ _ E) as (ext & Hn).
    unfold truth, sem_bool. rewrite (node_value _ _ _ _ (inv_typed _ Hi) Hn). simpl. by rewrite Hn.
Qed.
End loop.
