(* ===== verification/WireQueryTheorems.v ===== *)
(** * Requests and their answers

    [query_from_wire] on a validated request: the query it builds means what the
    request means, and the solver's answer to it is the answer to the request. *)
From stdpp Require Import sorting.
From S2P Require Import Prelude Bits Smt SmtFacts Bytes BytesFacts Ir Sem Evaluator EvaluatorFacts.
From S2P Require Import Config Builder BuilderSpec BuilderReads BuilderState BuilderApi BuilderSession SolveFacts.
From S2P Require Import Sat SatFacts Model Shortcuts ShortcutsFacts Solver SolverFacts.
From S2P Require Import WireBase WireBaseFacts WireExpr WireExprFacts WireDag WireRequest WireRequestFacts.
From S2P Require Import WireMeaning WireQuery WireQueryFacts.

#[local] Open Scope Z_scope.

(** The flags of a request as the query's options. *)
Definition request_flag (r : BinaryRequest.t) (bit : Z) : bool :=
  has_flag (RequestEnvelope.flags (BinaryRequest.envelope r)) bit.

Definition query_command (c : WireCommand) : Command :=
  match c with CmdSolve => Solve | CmdSimplify => Simplify | CmdMinimize => Minimize | CmdMaximize => Maximize end.

Definition optimizes (c : WireCommand) : bool := match c with CmdMinimize | CmdMaximize => true | _ => false end.

(** The name of the [i]-th assertion: the first [named_count] ones have one. *)
Definition assertion_name (blob : list Z) (names : list BlobRef) (i : nat) : option string :=
  names !! i ≫= blob_name blob.

(** ** Roots *)

Section roots.
Context (v : ExprView) (nodes : list RawNode) (kids blob : list Z) (meta : list NodeInfo).
Context (Hv : view_of v nodes kids blob) (Hd : dag_ok nodes kids blob meta).
Context (s : Arena) (tr : Translation) (Hi : inv s) (Hok : tr_ok nodes kids blob meta s tr (length nodes)).

Definition term_of (r : NodeRef) : TermId := default 0%nat (mjoin (tr_terms tr !! Z.to_nat (NodeRef.index r))).

Lemma root_term so r : refers meta so r -> term_for_ref (tr_terms tr) r = Ok (term_of r) /\
  match so with Bool => bool_at (Ir.nodes s) (term_of r) = true
              | Bv => exists w, width_at (Ir.nodes s) (term_of r) = Some w end /\
  forall σ env, agrees s tr σ env -> value_is nodes kids blob s (term_of r) env σ (Z.to_nat (NodeRef.index r)) so.
Proof.
  intros (_ & info & Hm & Es). set (j := Z.to_nat (NodeRef.index r)) in *.
  assert (j < length nodes)%nat as Hj.
  { rewrite (Forall2_length _ _ _ (proj1 (mapM_Some _ _ _) (dag_meta _ _ _ _ Hd))). by eapply lookup_lt_Some. }
  destruct (tk_typed _ _ _ _ _ _ _ Hok j info Hj Hm) as (t & Ht & Hty).
  unfold term_for_ref, term_of. fold j. rewrite Ht. simpl. split; [done|]. split.
  - unfold typed in Hty. rewrite Es in Hty. destruct so; [by eexists|done].
  - intros σ env Ha. rewrite <- Es. by apply (tk_value _ _ _ _ _ _ _ Hok σ env Ha).
Qed.

Definition assertion_of (names : list BlobRef) (i : nat) (r : NodeRef) : Assertion :=
  mkAssertion (term_of r) (assertion_name blob names i).

Lemma assert_run name t b : bool_at (Ir.nodes (b_arena b)) t = true ->
  match name with Some n => TermBuilder.assert_named n t | None => TermBuilder.assert t end b =
    (Ok tt, TermBuilder.with_assertions (b_assertions b ++ [mkAssertion t name]) b).
Proof.
  intros Ht. assert (isbool (b_arena b) t (truth (b_arena b) t)) as H by done.
  destruct name; unfold TermBuilder.assert_named, TermBuilder.assert, expect_bool; rewrite checked_step.
  - by rewrite (expect_bool_read _ _ _ _ H).
  - by rewrite (expect_bool_read _ _ _ _ H).
Qed.

Lemma bind_run {S X Y} (m : M S X) (k : X -> M S Y) b x b' : m b = (Ok x, b') -> (m ≫= k) b = k x b'.
Proof. intros E. unfold mbind, M_bind. by rewrite E. Qed.

Lemma lift_run {A S X} (x : A) (k : A -> M S X) b : (lift (Ok x) ≫= k) b = k x b.
Proof. done. Qed.

Lemma assert_roots_run names roots index b : b_arena b = s -> Forall (refers meta Bool) roots ->
  Forall ref_valid names -> Forall (fun n => is_Some (blob_name blob n)) names ->
  assert_roots v names (tr_terms tr) roots index b =
    (Ok tt, TermBuilder.with_assertions (b_assertions b ++ imap (fun i => assertion_of names (index + i)) roots) b).
Proof.
  intros Hb Hr Hval Hn. revert index b Hb. induction Hr as [|r roots Hr _ IH]; intros index b Hb; simpl.
  - rewrite app_nil_r. by destruct b.
  - destruct (root_term Bool r Hr) as (-> & Ht & _). rewrite lift_run.
    assert (forall k : unit -> M Builder unit,
      ((match names !! index with
        | Some r0 => name ← lift (wire_err "named assertion" (ExprView.blob_str v r0 "named assertion"));
                     TermBuilder.assert_named name (term_of r)
        | None => TermBuilder.assert (term_of r) end) ≫= k) b =
      k tt (TermBuilder.with_assertions (b_assertions b ++ [assertion_of names index r]) b)) as Hone.
    { intros k. apply bind_run. unfold assertion_of, assertion_name.
      destruct (names !! index) as [n|] eqn:En; simpl.
      - rewrite Forall_forall in Hn, Hval. apply list_elem_of_lookup_2 in En.
        destruct (Hn n En) as [name E]. rewrite E.
        pose proof (proj2 (blob_str_ok v nodes kids blob Hv n "named assertion" name (Hval n En)) E) as ->.
        unfold wire_err. cbn [map_err]. rewrite lift_run.
        by rewrite (assert_run (Some name)) by (by rewrite Hb).
      - by rewrite (assert_run None) by (by rewrite Hb). }
    rewrite Hone, IH by done. simpl. f_equal. unfold TermBuilder.with_assertions. simpl. f_equal.
    rewrite <- app_assoc. simpl. rewrite Nat.add_0_r. do 2 f_equal.
    apply imap_ext. intros i x _. simpl. by rewrite Nat.add_succ_r.
Qed.

Lemma assume_roots_run roots b : b_arena b = s -> Forall (refers meta Bool) roots ->
  assume_roots (tr_terms tr) roots b =
    (Ok tt, TermBuilder.with_assumptions (b_assumptions b ++ (term_of <$> roots)) b).
Proof.
  intros Hb Hr. revert b Hb. induction Hr as [|r roots Hr _ IH]; intros b Hb; simpl.
  - rewrite app_nil_r. by destruct b.
  - destruct (root_term Bool r Hr) as (-> & Ht & _). rewrite lift_run.
    assert (isbool (b_arena b) (term_of r) (truth s (term_of r))) as H by (by rewrite Hb).
    rewrite (bind_run _ _ b tt (TermBuilder.with_assumptions (b_assumptions b ++ [term_of r]) b)).
    2:{ unfold TermBuilder.assume, expect_bool. rewrite checked_step. by rewrite (expect_bool_read _ _ _ _ H). }
    rewrite IH by done. simpl. f_equal.
    unfold TermBuilder.with_assumptions. simpl. by rewrite <- app_assoc.
Qed.

(** The goal the command asks for. *)
Definition goal_target (r : BinaryRequest.t) : option TermId :=
  let env := BinaryRequest.envelope r in
  if optimizes (RequestEnvelope.command env) then Some (term_of (RequestEnvelope.target_node env)) else None.

Definition goal_signed (r : BinaryRequest.t) : bool :=
  optimizes (RequestEnvelope.command (BinaryRequest.envelope r)) && request_flag r RequestFlags.SIGNED.

Lemma wire_goal_run r b : b_arena b = s -> b_target b = None -> b_signed b = false -> request_ok r v nodes kids blob meta ->
  wire_goal r (tr_terms tr) b =
    (Ok tt, TermBuilder.with_goal (query_command (RequestEnvelope.command (BinaryRequest.envelope r)))
              (goal_target r) (goal_signed r) b).
Proof.
  intros Hb Ht Hs Hr. pose proof (ro_target _ _ _ _ _ _ Hr) as Htg. unfold wire_goal, goal_target, goal_signed.
  assert (RequestEnvelope.command (BinaryRequest.envelope r) = CmdMinimize \/
          RequestEnvelope.command (BinaryRequest.envelope r) = CmdMaximize ->
    BinaryRequest.target_ref r = Some (RequestEnvelope.target_node (BinaryRequest.envelope r))) as Href.
  { unfold BinaryRequest.target_ref. by intros [-> | ->]. }
  destruct (RequestEnvelope.command (BinaryRequest.envelope r)) eqn:Ec; simpl.
  1,2: by rewrite <- Ht, <- Hs; destruct b.
  all: rewrite Href by auto; destruct (root_term Bv _ Htg) as (E & [w Hw] & _).
  all: change (mret ?x ≫= ?k) with (k x); cbv beta; rewrite E, lift_run.
  all: unfold TermBuilder.set_optimization, expect_bv; cbn [bool_decide negb orb]; simpl; rewrite checked_step.
  all: rewrite Hb, (expect_bv_read _ _ _ _ _ (isbv_val _ _ _ Hw)); done.
Qed.
End roots.

(** ** What the query means *)

(** An environment of the query and a valuation of the request's symbols say the
    same: about every assertion and assumption, and about the target's value. *)
Record same_meaning (r : BinaryRequest.t) (nodes : list RawNode) (kids blob : list Z) (q : Query)
    (env : Env) (σ : Valuation) : Prop := {
  sm_assertion i a x : assertions q !! i = Some a -> BinaryRequest.assertion_roots r !! i = Some x ->
    sem_bool (denote env (Ir.nodes (arena q))) (root a) = true <-> root_holds σ nodes kids blob x;
  sm_assumption i t x : assumptions q !! i = Some t -> BinaryRequest.assumption_roots r !! i = Some x ->
    sem_bool (denote env (Ir.nodes (arena q))) t = true <-> root_holds σ nodes kids blob x;
  sm_target t : target q = Some t ->
    sem_bv (denote env (Ir.nodes (arena q))) t =
    sem_bv (wire_denote blob σ kids nodes)
      (Z.to_nat (NodeRef.index (RequestEnvelope.target_node (BinaryRequest.envelope r))));
}.

Record query_means (r : BinaryRequest.t) (nodes : list RawNode) (kids blob : list Z) (q : Query) : Prop := {
  qm_formed : well_formed q = true;
  qm_command : command q = query_command (RequestEnvelope.command (BinaryRequest.envelope r));
  qm_target : is_Some (target q) <-> optimizes (RequestEnvelope.command (BinaryRequest.envelope r)) = true;
  qm_options : signed q = optimizes (RequestEnvelope.command (BinaryRequest.envelope r)) &&
                          request_flag r RequestFlags.SIGNED /\
    want_model q = request_flag r RequestFlags.WANT_MODEL /\ want_core q = request_flag r RequestFlags.WANT_CORE;
  qm_names : name <$> assertions q = imap (fun i _ => assertion_name blob (BinaryRequest.named_assertion_refs r) i)
                                          (BinaryRequest.assertion_roots r);
  qm_assumptions : length (assumptions q) = length (BinaryRequest.assumption_roots r);
  qm_valuation env : exists σ, same_meaning r nodes kids blob q env σ;
  qm_env σ : exists env, same_meaning r nodes kids blob q env σ;
}.

(** The constraints of the request but for the named assertions not in [active]. *)
Definition core_holds (σ : Valuation) (r : BinaryRequest.t) (nodes : list RawNode) (kids blob : list Z)
    (active : list nat) : Prop :=
  (forall i x, BinaryRequest.assertion_roots r !! i = Some x ->
     assertion_name blob (BinaryRequest.named_assertion_refs r) i = None \/ i ∈ active ->
     root_holds σ nodes kids blob x) /\
  Forall (root_holds σ nodes kids blob) (BinaryRequest.assumption_roots r).

Section means.
Context (r : BinaryRequest.t) (nodes : list RawNode) (kids blob : list Z) (q : Query).
Context (Hq : query_means r nodes kids blob q).

Lemma means_assertion_name i a x : assertions q !! i = Some a -> BinaryRequest.assertion_roots r !! i = Some x ->
  name a = assertion_name blob (BinaryRequest.named_assertion_refs r) i.
Proof.
  intros Ha Hx. pose proof (f_equal (fun l => l !! i) (qm_names _ _ _ _ _ Hq)) as H. simpl in H.
  rewrite list_lookup_fmap, list_lookup_imap, Ha, Hx in H. simpl in H. congruence.
Qed.

Lemma means_lengths : length (assertions q) = length (BinaryRequest.assertion_roots r).
Proof.
  pose proof (f_equal length (qm_names _ _ _ _ _ Hq)) as H. by rewrite length_fmap, length_imap in H.
Qed.

Lemma paired {A B} (l : list A) (l' : list B) : length l = length l' ->
  (forall i a, l !! i = Some a -> exists b, l' !! i = Some b) /\ (forall i b, l' !! i = Some b -> exists a, l !! i = Some a).
Proof.
  intros E. split; intros i x Hx; apply lookup_lt_Some in Hx; apply lookup_lt_is_Some_2; lia.
Qed.

Lemma means_assumptions env σ : same_meaning r nodes kids blob q env σ ->
  forallb (sem_bool (denote env (Ir.nodes (arena q)))) (assumptions q) = true <->
  Forall (root_holds σ nodes kids blob) (BinaryRequest.assumption_roots r).
Proof.
  intros Hs. destruct (paired _ _ (qm_assumptions _ _ _ _ _ Hq)) as [H1 H2].
  rewrite Forall_forallb_true, !Forall_lookup. split.
  - intros H i x Hx. destruct (H2 i x Hx) as [t Ht]. apply (sm_assumption _ _ _ _ _ _ _ Hs i t x Ht Hx). by eapply H.
  - intros H i t Ht. destruct (H1 i t Ht) as [x Hx]. apply (sm_assumption _ _ _ _ _ _ _ Hs i t x Ht Hx). by eapply H.
Qed.

Lemma means_core env σ active : same_meaning r nodes kids blob q env σ ->
  satisfies env (sub q active) = true <-> core_holds σ r nodes kids blob active.
Proof.
  intros Hs. destruct (paired _ _ means_lengths) as [H1 H2].
  rewrite satisfies_sub, (means_assumptions env σ Hs). unfold core_holds. apply and_iff_compat_r. split.
  - intros H i x Hx Hn. destruct (H2 i x Hx) as [a Ha]. apply (sm_assertion _ _ _ _ _ _ _ Hs i a x Ha Hx).
    apply (H i a Ha). by rewrite (means_assertion_name i a x Ha Hx).
  - intros H i a Ha Hn. destruct (H1 i a Ha) as [x Hx]. apply (sm_assertion _ _ _ _ _ _ _ Hs i a x Ha Hx).
    apply (H i x Hx). by rewrite <- (means_assertion_name i a x Ha Hx).
Qed.

Lemma means_holds env σ : same_meaning r nodes kids blob q env σ ->
  satisfies env q = true <-> wire_holds σ r nodes kids blob.
Proof.
  intros Hs. destruct (paired _ _ means_lengths) as [H1 H2].
  unfold satisfies, assertions_and_assumptions, wire_holds. rewrite forallb_app, andb_true_iff, (means_assumptions env σ Hs).
  apply and_iff_compat_r. rewrite Forall_forallb_true, Forall_fmap, !Forall_lookup. split.
  - intros H i x Hx. destruct (H2 i x Hx) as [a Ha]. apply (sm_assertion _ _ _ _ _ _ _ Hs i a x Ha Hx). by apply (H i a).
  - intros H i a Ha. destruct (H1 i a Ha) as [x Hx]. apply (sm_assertion _ _ _ _ _ _ _ Hs i a x Ha Hx). by apply (H i x).
Qed.

Lemma means_ex (P : Env -> Prop) (Q : Valuation -> Prop) :
  (forall env σ, same_meaning r nodes kids blob q env σ -> P env <-> Q σ) -> (exists env, P env) <-> exists σ, Q σ.
Proof.
  intros H. split.
  - intros [env He]. destruct (qm_valuation _ _ _ _ _ Hq env) as [σ Hσ]. exists σ. by apply (H env).
  - intros [σ Hσ]. destruct (qm_env _ _ _ _ _ Hq σ) as [env He]. exists env. by apply (H env σ).
Qed.

Lemma means_satisfiable : satisfiable q <-> exists σ, wire_holds σ r nodes kids blob.
Proof. apply means_ex, means_holds. Qed.

Lemma means_core_satisfiable active : satisfiable (sub q active) <-> exists σ, core_holds σ r nodes kids blob active.
Proof. apply means_ex. intros env σ. apply means_core. Qed.

(** The names of a core are the request's. *)
Lemma means_names active : zlen (BinaryRequest.named_assertion_refs r) <= zlen (BinaryRequest.assertion_roots r) ->
  names_of q active = omap (assertion_name blob (BinaryRequest.named_assertion_refs r)) active.
Proof.
  intros Hl. induction active as [|i active IH]; [done|]. simpl. rewrite IH.
  destruct (paired _ _ means_lengths) as [H1 H2].
  destruct (assertions q !! i) as [a|] eqn:Ea; simpl.
  - destruct (H1 i a Ea) as [x Hx]. by rewrite (means_assertion_name i a x Ea Hx).
  - unfold assertion_name. rewrite (lookup_ge_None_2 (BinaryRequest.named_assertion_refs r)); [done|].
    apply lookup_ge_None in Ea. rewrite means_lengths in Ea. unfold zlen in Hl. lia.
Qed.
End means.

(** ** The whole translation *)

Section query.
Context (r : BinaryRequest.t) (v : ExprView) (nodes : list RawNode) (kids blob : list Z) (meta : list NodeInfo).
Context (Hval : request_valid r) (Hr : request_ok r v nodes kids blob meta).

(** The builder when the nodes are translated and the roots are asserted. *)
Definition final_builder (s : Arena) (tr : Translation) : Builder :=
  {| b_arena := s;
     b_assertions := imap (assertion_of blob tr (BinaryRequest.named_assertion_refs r)) (BinaryRequest.assertion_roots r);
     b_assumptions := term_of tr <$> BinaryRequest.assumption_roots r;
     b_command := query_command (RequestEnvelope.command (BinaryRequest.envelope r));
     b_target := goal_target tr r; b_signed := goal_signed r;
     b_want_model := request_flag r RequestFlags.WANT_MODEL; b_want_core := request_flag r RequestFlags.WANT_CORE;
     b_get_values := []; b_scopes := [] |}.

Lemma wire_query_run : exists res s,
  translate_nodes v (length nodes) 0 (mkTranslation (replicate (length nodes) None) ∅ ∅) Arena.new = (res, s) /\
  match res with
  | Ok tr => inv s /\ tr_ok nodes kids blob meta s tr (length nodes) /\
      (wire_query v r TermBuilder.new).1 = TermBuilder.finish (final_builder s tr)
  | Err e => e = Invalid "arena" /\ exhausted s /\ wire_query v r TermBuilder.new = (Err e, with_arena s TermBuilder.new)
  | Panic => False
  end.
Proof.
  pose proof (ro_reads _ _ _ _ _ _ Hr) as Hv. pose proof (ro_dag _ _ _ _ _ _ Hr) as Hd.
  set (tr0 := mkTranslation (replicate (length nodes) None) ∅ ∅).
  pose proof (translate_nodes_ok v nodes kids blob meta Hv Hd (length nodes) Arena.new tr0 0 inv_new
    (tr_ok_start nodes kids blob meta Arena.new) (le_n _)) as H.
  change (Z.of_nat 0) with 0 in H. unfold aspec in H. change (0 + length nodes)%nat with (length nodes) in H.
  unfold wire_query. rewrite (view_node_count _ _ _ _ Hv). unfold zlen. rewrite Nat2Z.id. fold tr0.
  destruct (translate_nodes v (length nodes) 0 tr0 Arena.new) as [res s] eqn:E. exists res, s. split; [done|].
  assert (TermBuilder.on_arena (translate_nodes v (length nodes) 0 tr0) TermBuilder.new =
    (res, with_arena s TermBuilder.new)) as Ea by (rewrite on_arena_run; simpl; by rewrite E).
  destruct res as [tr|e|]; [|destruct H as (_ & _ & He & Hx)|done].
  2:{ split_and!; [done..|]. unfold mbind at 1, M_bind. by rewrite Ea. }
  destruct H as (_ & Hi & Hok). split_and!; [done..|]. rewrite (bind_run _ _ _ _ _ Ea).
  rewrite (bind_run (TermBuilder.set_want_model _) _ _ _ _ eq_refl).
  rewrite (bind_run (TermBuilder.set_want_core _) _ _ _ _ eq_refl).
  erewrite (bind_run (wire_goal _ _)); [|by apply (wire_goal_run v nodes kids blob meta Hd s tr Hok)].
  erewrite (bind_run (assert_roots _ _ _ _ _)); [|apply (assert_roots_run v nodes kids blob meta Hv Hd s tr Hok);
    [done|apply Hr|apply Hval|apply Hr]].
  erewrite (bind_run (assume_roots _ _)); [|apply (assume_roots_run nodes kids blob meta Hd s tr Hok);
    [done|apply Hr]].
  done.
Qed.

Context (s : Arena) (tr : Translation) (Hi : inv s) (Hok : tr_ok nodes kids blob meta s tr (length nodes)).

Lemma target_refers : optimizes (RequestEnvelope.command (BinaryRequest.envelope r)) = true ->
  refers meta Bv (RequestEnvelope.target_node (BinaryRequest.envelope r)).
Proof. pose proof (ro_target _ _ _ _ _ _ Hr) as H. by destruct (RequestEnvelope.command _). Qed.

Let Hroot so x := root_term nodes kids blob meta (ro_dag _ _ _ _ _ _ Hr) s tr Hok so x.

Lemma Forall_imap {A B} (P : B -> Prop) (f : nat -> A -> B) l : (forall i x, l !! i = Some x -> P (f i x)) -> Forall P (imap f l).
Proof.
  intros H. apply Forall_lookup_2. intros i y. rewrite list_lookup_imap, fmap_Some. intros (x & Hx & ->). by apply H.
Qed.

Lemma final_builder_ok : builder_ok (final_builder s tr).
Proof.
  split; simpl; [done|..|lia].
  - apply Forall_imap. intros i x Hx. apply (Hroot Bool), (Forall_lookup_1 _ _ _ _ (ro_assertions _ _ _ _ _ _ Hr) Hx).
  - apply Forall_fmap. eapply Forall_impl; [apply (ro_assumptions _ _ _ _ _ _ Hr)|]. intros x Hx. by apply (Hroot Bool).
  - unfold goal_target. cbv zeta. intros t. destruct (optimizes _) eqn:Eo; [|done]. intros [= <-].
    apply (Hroot Bv), target_refers, Eo.
Qed.

Lemma final_meaning q σ env : TermBuilder.finish (final_builder s tr) = Ok q -> agrees s tr σ env ->
  same_meaning r nodes kids blob q env σ.
Proof.
  intros Hq Ha. unfold TermBuilder.finish in Hq. destruct (_ && _) in Hq; [done|]. injection Hq as <-.
  split; simpl.
  - intros i a x Hla Hx. rewrite list_lookup_imap, Hx in Hla. injection Hla as <-.
    destruct (Hroot Bool x (Forall_lookup_1 _ _ _ _ (ro_assertions _ _ _ _ _ _ Hr) Hx)) as (_ & _ & H).
    specialize (H σ env Ha). unfold value_is in H. unfold root_holds. simpl. by rewrite <- H.
  - intros i t x Hlt Hx. rewrite list_lookup_fmap, Hx in Hlt. injection Hlt as <-.
    destruct (Hroot Bool x (Forall_lookup_1 _ _ _ _ (ro_assumptions _ _ _ _ _ _ Hr) Hx)) as (_ & _ & H).
    specialize (H σ env Ha). unfold value_is in H. unfold root_holds. by rewrite <- H.
  - unfold goal_target. cbv zeta. intros t. destruct (optimizes _) eqn:Eo; [|done]. intros [= <-].
    destruct (Hroot Bv _ (target_refers Eo)) as (_ & _ & H). apply (H σ env Ha).
Qed.

Lemma final_query : exists q, TermBuilder.finish (final_builder s tr) = Ok q /\ query_means r nodes kids blob q.
Proof.
  pose proof (finish_ok _ final_builder_ok) as Hf.
  destruct (TermBuilder.finish (final_builder s tr)) as [q|e|] eqn:E; [|exfalso|done].
  - exists q. split; [done|]. destruct Hf as (Hwf & Har & Has & Hau & Hc & _).
    unfold TermBuilder.finish in E. destruct (_ && _) in E; [done|]. injection E as E.
    assert (TermBuilder.finish (final_builder s tr) = Ok q) as Hq.
    { unfold TermBuilder.finish. destruct (_ && _) eqn:Eb; [|by f_equal]. exfalso.
      revert Eb. simpl. unfold goal_target. cbv zeta. by destruct (RequestEnvelope.command _). }
    split; [done|by rewrite <- E|..].
    + rewrite <- E. simpl. unfold goal_target. cbv zeta.
      destruct (optimizes _); split; [done|by eexists|by intros []|done].
    + by rewrite <- E.
    + rewrite <- E. simpl. rewrite fmap_imap. by apply imap_ext.
    + rewrite <- E. simpl. by rewrite length_fmap.
    + intros env. destruct (agrees_valuation nodes kids blob meta s tr _ env Hi Hok) as [σ Hσ]. exists σ.
      by apply final_meaning.
    + intros σ. destruct (agrees_env nodes kids blob meta s tr _ σ Hi Hok) as [env He]. exists env.
      by apply final_meaning.
  - destruct Hf as (_ & Ht & Hc). revert Ht Hc. simpl. unfold goal_target. cbv zeta.
    destruct (RequestEnvelope.command _); simpl; intros Ht [H|H]; done.
Qed.
End query.

Lemma query_from_wire_means r v nodes kids blob meta : request_valid r -> request_ok r v nodes kids blob meta ->
  match query_from_wire r with
  | Ok q => query_means r nodes kids blob q
  | Err e => e = Invalid "arena" /\ exhausted (b_arena (wire_query v r TermBuilder.new).2)
  | Panic => False
  end.
Proof.
  intros Hval Hr. unfold query_from_wire, BinaryRequest.expression_view. rewrite (ro_view _ _ _ _ _ _ Hr).
  cbn [wire_err map_err mbind res_bind].
  destruct (wire_query_run r v nodes kids blob meta Hval Hr) as ([tr|e|] & s & _ & H); [|by destruct H as (-> & ? & ->)|done].
  destruct H as (Hi & Hok & ->).
  destruct (final_query r v nodes kids blob meta Hr s tr Hi Hok) as (q & -> & Hq). exact Hq.
Qed.

(** ** Theorems *)

(** C11: the translation of a request is right.  For a request that was parsed and
    validated, [query_from_wire] never panics and fails only when the 2^32 term ids
    ran out; the query it returns is well formed, has the command, target, signedness
    and outputs the request asks for, and names its assertions as the request does;
    every environment of the query corresponds to a valuation of the request's symbols
    and every valuation to an environment, under which each assertion and assumption
    of the query holds exactly when the root of the request it came from does, and the
    target has the value of the request's target. *)
Theorem query_from_wire_correct r v nodes kids blob meta : request_valid r -> request_ok r v nodes kids blob meta ->
  match query_from_wire r with
  | Ok q => query_means r nodes kids blob q
  | Err e => e = Invalid "arena" /\ exhausted (b_arena (wire_query v r TermBuilder.new).2)
  | Panic => False
  end.
Proof. apply query_from_wire_means. Qed.

(** ** Witnesses: the sample request asks for [x = 5] over a byte *)

Definition sample_query_of_request : Query := match query_from_wire sample_request with Ok q => q | _ => sample_query end.

Lemma query_from_wire_correct_witness : exists nodes kids blob,
  query_means sample_request nodes kids blob sample_query_of_request.
Proof.
  destruct (validate_request_ok sample_request tt sample_request_valid) as (v & nodes & kids & blob & meta & Hr).
  { vm_compute. reflexivity. }
  exists nodes, kids, blob.
  pose proof (query_from_wire_correct sample_request v nodes kids blob meta sample_request_valid Hr) as H.
  assert (query_from_wire sample_request = Ok sample_query_of_request) as E by (vm_compute; reflexivity).
  rewrite E in H. exact H.
Defined.
