(* ===== verification/WireModel.v ===== *)
(** * Answers to requests

    The variables of a translated query are the symbols of the request, so a model of
    the query is a block the request's expression accepts, and every valuation that
    agrees with the block satisfies the request. *)
From stdpp Require Import sorting.
From S2P Require Import Prelude Bits Smt SmtFacts Bytes BytesFacts Ir Sem Evaluator EvaluatorFacts.
From S2P Require Import Builder BuilderSpec BuilderReads BuilderFacts BuilderVars BuilderState BuilderApi BuilderSession.
From S2P Require Import Model ModelFacts Config Sat SatFacts Shortcuts ShortcutsFacts Solver SolverFacts SolveFacts.
From S2P Require Import WireBase WireBaseFacts WireExpr WireExprFacts WireDag WireRequest WireRequestFacts.
From S2P Require Import WireResponse WireResponseFacts.
From S2P Require Import WireMeaning.
From S2P Require Import WireQuery WireQueryFacts WireQueryTheorems.

#[local] Open Scope Z_scope.

(** ** Terms make no variables *)

Lemma keeps_wire_term v terms n t : keeps_vars (wire_term v terms n t).
Proof.
  unfold wire_term. cbv zeta. destruct t; keeps.
Qed.

Lemma run_bind_inv {S X Y} (m : M S X) (k : X -> M S Y) s y s' : (m ≫= k) s = (Ok y, s') ->
  exists x s1, m s = (Ok x, s1) /\ k x s1 = (Ok y, s').
Proof. unfold mbind, M_bind. destruct (m s) as [[x|e|] s1]; [by exists x, s1|done..]. Qed.

(** What adding a node does to the lookups. *)
Lemma add_lookup k so s r s' : Arena.add k so s = (r, s') -> forall t n, nodes s' !! t = Some n ->
  nodes s !! t = Some n \/ r = Ok t /\ n = mkNode k so.
Proof.
  unfold Arena.add, mbind, M_bind, lift, get. destruct (validate_sort so) as [u|e|]; [|by intros [= <- <-]; left..].
  destruct (ids s !! (k, so)); [by intros [= <- <-]; left|]. simpl. destruct (_ <? _); [|by intros [= <- <-]; left].
  simpl. intros [= <- <-] t n. simpl. intros [[Hlt H]|[-> <-]]%lookup_snoc_Some; [by left|by right].
Qed.

(** ** Where variables come from *)

(** Node [j] is the variable of this sort, name and width. *)
Definition is_symbol (nodes : list RawNode) (blob : list Z) (so : WireBase.Sort) (j : nat) (name : string) (w : Z) : Prop :=
  exists n, nodes !! j = Some n /\ Tag.try_from (tag n) = Some (match so with Bv => TBvVar | Bool => TBoolVar end) /\
    blob_name blob (RawNode.blob_ref n) = Some name /\ (so = Bv -> node_width n = w).

Section vars.
Context (v : ExprView) (nodes : list RawNode) (kids blob : list Z) (meta : list NodeInfo).
Context (Hv : view_of v nodes kids blob) (Hd : dag_ok nodes kids blob meta).

(** Every variable of the arena is a symbol of the request and is in the tables. *)
Record vars_ok (s : Arena) (tr : Translation) : Prop := {
  vo_bv t w name ext so : Ir.nodes s !! t = Some (mkNode (BvVar w name ext) so) ->
    bv_vars tr !! (name, Z.of_nat w) = Some t /\
    exists j, is_symbol nodes blob Bv j name (Z.of_nat w) /\ ext = Some (Z.to_nat (raw_ref Bv j));
  vo_bool t name ext so : Ir.nodes s !! t = Some (mkNode (BoolVar name ext) so) ->
    bool_vars tr !! name = Some t /\
    exists j, is_symbol nodes blob Bool j name 0 /\ ext = Some (Z.to_nat (raw_ref Bool j));
}.

Lemma vars_ok_kept s s' tr tr' : vars_ok s tr -> bv_vars tr' = bv_vars tr -> bool_vars tr' = bool_vars tr ->
  (forall t n, Ir.nodes s' !! t = Some n -> var_kind (kind n) = true -> Ir.nodes s !! t = Some n) -> vars_ok s' tr'.
Proof.
  intros [H1 H2] E1 E2 Hk. split; rewrite ?E1, ?E2.
  - intros t w name ext so Hn. by apply (H1 t w name ext so), Hk.
  - intros t name ext so Hn. by apply (H2 t name ext so), Hk.
Qed.

Lemma node_index_small i n : nodes !! i = Some n -> Z.of_nat i <= NodeRef.INDEX_MASK.
Proof. apply (index_small v nodes kids blob Hv). Qed.

Lemma new_ref so i n : nodes !! i = Some n -> external_ref (NodeRef.new so (Z.of_nat i)) = Ok (Some (Z.to_nat (raw_ref so i))).
Proof.
  intros Hn. unfold external_ref, NodeRef.new. pose proof (node_index_small i n Hn).
  by rewrite (proj2 (Z.ltb_ge _ _)).
Qed.

Lemma bv_var_vars s tr i n x tr' s' : inv s -> vars_ok s tr -> nodes !! i = Some n ->
  Tag.try_from (tag n) = Some TBvVar -> wire_bv_var v (Z.of_nat i) n tr s = (Ok (x, tr'), s') -> vars_ok s' tr'.
Proof.
  intros Hi Hok Hn Ht. destruct (dag_info nodes kids blob meta Hd i n Hn) as (t & Ht' & Em). assert (t = TBvVar) as -> by congruence.
  destruct (name_known v nodes kids blob meta Hv Hd i n TBvVar Hn Em eq_refl) as (name & Hname & Hstr).
  assert (1 <= node_width n) as Hw.
  { pose proof (dag_shape _ _ _ _ Hd i n _ Hn Em) as (_ & H & _). simpl in H. unfold MAX_BV_WIDTH in H. lia. }
  unfold wire_bv_var, wire_err. rewrite Hstr. cbn [map_err]. rewrite lift_run.
  destruct (bv_vars tr !! (name, node_width n)) as [y|] eqn:Ey; [by intros [= <- <- <-]|].
  unfold NodeRef.bv. rewrite (new_ref Bv i n Hn), lift_run. intros (y & s1 & Ea & E)%run_bind_inv. injection E as <- <- <-.
  unfold bv_var_external in Ea. apply run_bind_inv in Ea as ([] & s2 & E & Ea).
  assert (s2 = s) as -> by (unfold lift in E; congruence). clear E.
  pose proof (add_lookup _ _ _ _ _ Ea) as Hl. split; simpl.
  - intros t w name' ext so Hs. destruct (Hl _ _ Hs) as [Ho|[[= <-] [= -> -> -> ->]]].
    + destruct (vo_bv _ _ Hok _ _ _ _ _ Ho) as [Hb He]. split; [|done].
      rewrite lookup_insert_ne; [done|]. intros [= -> E]. congruence.
    + rewrite Z2Nat.id by lia. split; [apply lookup_insert_eq|]. exists i. split; [|done]. by exists n.
  - intros t name' ext so Hs. destruct (Hl _ _ Hs) as [Ho|[_ [=]]]. by apply (vo_bool _ _ Hok _ _ _ _ Ho).
Qed.

Lemma bool_var_vars s tr i n x tr' s' : inv s -> vars_ok s tr -> nodes !! i = Some n ->
  Tag.try_from (tag n) = Some TBoolVar -> wire_bool_var v (Z.of_nat i) n tr s = (Ok (x, tr'), s') -> vars_ok s' tr'.
Proof.
  intros Hi Hok Hn Ht. destruct (dag_info nodes kids blob meta Hd i n Hn) as (t & Ht' & Em). assert (t = TBoolVar) as -> by congruence.
  destruct (name_known v nodes kids blob meta Hv Hd i n TBoolVar Hn Em eq_refl) as (name & Hname & Hstr).
  unfold wire_bool_var, wire_err. rewrite Hstr. cbn [map_err]. rewrite lift_run.
  destruct (bool_vars tr !! name) as [y|] eqn:Ey; [by intros [= <- <- <-]|].
  unfold NodeRef.bool. rewrite (new_ref Bool i n Hn), lift_run. intros (y & s1 & Ea & E)%run_bind_inv. injection E as <- <- <-. unfold bool_var_external in Ea.
  pose proof (add_lookup _ _ _ _ _ Ea) as Hl. split; simpl.
  - intros t w name' ext so Hs. destruct (Hl _ _ Hs) as [Ho|[_ [=]]]. by apply (vo_bv _ _ Hok _ _ _ _ _ Ho).
  - intros t name' ext so Hs. destruct (Hl _ _ Hs) as [Ho|[[= <-] [= -> -> ->]]].
    + destruct (vo_bool _ _ Hok _ _ _ _ Ho) as [Hb He]. split; [|done].
      rewrite lookup_insert_ne; [done|]. intros [= ->]. congruence.
    + split; [apply lookup_insert_eq|]. exists i. split; [|done]. by exists n.
Qed.

Lemma translate_node_vars s tr i n tr' s' : inv s -> vars_ok s tr -> nodes !! i = Some n ->
  translate_node v (Z.of_nat i) tr s = (Ok tr', s') -> vars_ok s' tr'.
Proof.
  intros Hi Hok Hn. destruct (dag_info nodes kids blob meta Hd i n Hn) as (t & Ht & Em). unfold translate_node, wire_err.
  rewrite (view_node _ _ _ _ Hv _ _ Hn). cbn [map_err]. rewrite lift_run, Ht.
  assert (forall (m : M Arena (TermId * Translation)),
    (forall x tr1 s1, m s = (Ok (x, tr1), s1) -> vars_ok s1 tr1) ->
    ('(term, tr) ← m; terms ← lift (set_index (tr_terms tr) (Z.to_nat (Z.of_nat i)) (Some term));
      mret (mkTranslation terms (bv_vars tr) (bool_vars tr))) s = (Ok tr', s') -> vars_ok s' tr') as Hfin.
  { intros m Hm. unfold mbind at 1, M_bind. destruct (m s) as [[[x tr1]|e|] s1] eqn:E; [|done..].
    destruct (set_index _ _ _) as [l|e|]; [|done..]. intros [= <- <-]. specialize (Hm _ _ _ eq_refl).
    by apply (vars_ok_kept s1 s1 tr1). }
  assert (forall t', (forall x tr1 s1, (term ← wire_term v (tr_terms tr) n t'; mret (term, tr)) s = (Ok (x, tr1), s1) -> vars_ok s1 tr1)) as Hterm.
  { intros t' x tr1 s1. unfold mbind, M_bind. pose proof (keeps_wire_term v (tr_terms tr) n t' s) as Hk.
    destruct (wire_term v (tr_terms tr) n t' s) as [[y|e|] s2]; [|done..]. intros [= <- <- <-].
    by apply (vars_ok_kept s s2 tr tr). }
  destruct t; apply Hfin; intros x tr1 s1 E1; try (by eapply Hterm).
  - eapply (bv_var_vars s tr i n); done.
  - eapply (bool_var_vars s tr i n); done.
Qed.

Lemma translate_nodes_vars m s tr i tr' s' : inv s -> tr_ok nodes kids blob meta s tr i -> vars_ok s tr ->
  (i + m <= length nodes)%nat -> translate_nodes v m (Z.of_nat i) tr s = (Ok tr', s') -> vars_ok s' tr'.
Proof.
  revert s tr i. induction m as [|m IH]; intros s tr i Hi Hok Hvars Hm; simpl.
  - by intros [= <- <-].
  - destruct (lookup_lt_is_Some_2 nodes i) as [n Hn]; [lia|].
    pose proof (translate_node_ok v nodes kids blob meta Hv Hd s tr i n Hi Hok Hn) as Ha. unfold aspec in Ha.
    unfold mbind, M_bind. destruct (translate_node v (Z.of_nat i) tr s) as [[tr1|e|] s1] eqn:E; [|done..].
    destruct Ha as (_ & Hi1 & Hok1). replace (Z.of_nat i + 1) with (Z.of_nat (S i)) by lia.
    apply IH; [done|done| |lia]. by eapply (translate_node_vars s tr i n).
Qed.

Lemma vars_ok_start : vars_ok Arena.new (mkTranslation (replicate (length nodes) None) ∅ ∅).
Proof. split; simpl; intros t *; by rewrite lookup_nil. Qed.
End vars.

(** ** Entries *)

(** The valuation gives the entry's symbol the entry's value. *)
Definition entry_agrees (nodes : list RawNode) (blob : list Z) (σ : Valuation) (e : WireModelEntry) : Prop :=
  exists n, nodes !! Z.to_nat (NodeRef.index (node_ref e)) = Some n /\
    match NodeRef.sort (node_ref e) with
    | Bv => wrap (Z.to_nat (node_width n)) (v_bv σ (symbol blob n) (node_width n)) = bval (WireScalar.bytes (entry_value e))
    | Bool => WireScalar.bytes (entry_value e) = [Z.b2z (v_bool σ (symbol blob n))]
    end.

Section entries.
Context (v : ExprView) (nodes : list RawNode) (kids blob : list Z) (meta : list NodeInfo).
Context (Hv : view_of v nodes kids blob) (Hd : dag_ok nodes kids blob meta).
Context (s : Arena) (tr : Translation) (Hi : inv s) (Hvars : vars_ok nodes blob s tr).

(** The entry [we] of the response is of the symbol the entry [e] of the model is of. *)
Record entry_for (e : ModelEntry) (we : WireModelEntry) : Prop := {
  we_name n : nodes !! Z.to_nat (NodeRef.index (node_ref we)) = Some n -> me_name e = symbol blob n;
  we_value : wire_value (me_value e) = Ok (entry_value we);
  we_scalar : scalar_valid (entry_value we);
  we_node : exists n, nodes !! Z.to_nat (NodeRef.index (node_ref we)) = Some n /\
    is_Some (blob_name blob (RawNode.blob_ref n)) /\
    match NodeRef.sort (node_ref we) with
    | Bv => Tag.try_from (tag n) = Some TBvVar /\ WireScalar.width (entry_value we) = node_width n /\
            bv_vars tr !! (symbol blob n, node_width n) = Some (me_term e)
    | Bool => Tag.try_from (tag n) = Some TBoolVar /\ WireScalar.width (entry_value we) = 0 /\
              bool_vars tr !! symbol blob n = Some (me_term e)
    end;
  we_holds σ env : agrees s tr σ env -> entry_holds env e <-> entry_agrees nodes blob σ we;
}.

(** It is of the node the variable was first made for, too. *)
Record wire_entry_of (e : ModelEntry) (we : WireModelEntry) : Prop := {
  we_ref : me_external e = Some (Z.to_nat (node_ref we)) /\ is_u32 (node_ref we);
  we_for :> entry_for e we;
}.

Lemma wire_value_bv w bytes : legal w -> bv_repr w bytes (bval bytes) ->
  let sc := WireScalar.mk (Z.of_nat w) bytes in
  wire_value (ScalarBv w bytes) = Ok sc /\ scalar_valid sc.
Proof.
  intros [Hw1 Hw2] Hr. cbv zeta. pose proof Hr as [Hl Hb _ Hlt].
  assert (zlen bytes = (Z.of_nat w + 7) / 8) as Hz.
  { unfold zlen. rewrite Hl. unfold div_ceil. rewrite Nat2Z.inj_div. f_equal. lia. }
  assert (scalar_value (WireScalar.mk (Z.of_nat w) bytes)) as Hval.
  { unfold scalar_value. simpl. rewrite (proj2 (Z.eqb_neq _ _)) by lia.
    split; [unfold MAX_BV_WIDTH in *; lia|]. by rewrite Nat2Z.id. }
  split.
  - simpl. unfold WireScalar.bv. rewrite (proj2 (wire_bytes_ok (Z.of_nat w) _)) by (unfold MAX_BV_WIDTH in *; split; [lia|done]).
    cbn [mbind res_bind]. rewrite Hz, Z.eqb_refl. cbn [negb refuse_if mbind res_bind].
    rewrite (proj2 (high_bits_iff (Z.of_nat w) bytes _ ltac:(lia) Hb Hz)); [done|]. by rewrite Nat2Z.id.
  - split; simpl; [unfold is_u32, MAX_BV_WIDTH in *; lia|done| |done]. rewrite Hz. unfold u32_max.
    apply Z.lt_le_incl, Z.div_lt_upper_bound; unfold MAX_BV_WIDTH in *; lia.
Qed.

Lemma wire_value_bool b : wire_value (ScalarBool b) = Ok (WireScalar.bool b) /\ scalar_valid (WireScalar.bool b).
Proof.
  split; [done|]. split; simpl; [done| |done|].
  - constructor; [|constructor]. unfold is_byte. by destruct b.
  - unfold scalar_value. simpl. destruct b; auto.
Qed.

Lemma bv_var_legal t w name ext so : Ir.nodes s !! t = Some (mkNode (BvVar w name ext) so) -> legal w.
Proof.
  intros Hn. pose proof (well_typed_lookup _ _ _ (inv_typed _ Hi) Hn) as H. unfold node_ok in H. simpl in H.
  apply andb_true_iff in H as [E%bool_decide_eq_true Hs]. injection E as <-. by apply valid_sort_bv.
Qed.

Lemma entry_of_wire q e : arena q = s -> entry_of q e -> exists we, wire_entry_of e we.
Proof.
  intros Ha (n & Hn & Hk). rewrite Ha in Hn. destruct n as [k so]. destruct k; try done; simpl in Hk.
  - destruct Hk as (E1 & E2 & Hval). destruct (me_value e) as [b|w' bytes] eqn:Em; [done|]. destruct Hval as [-> Hr].
    destruct (vo_bv _ _ _ _ Hvars _ _ _ _ _ Hn) as (Htab & j & (m & Hm & Htag & Hname & Hw) & Hext). specialize (Hw eq_refl).
    destruct (raw_ref_ok Bv j (node_index_small v nodes kids blob Hv j m Hm)) as (Hidx & Hso & Hu).
    pose proof (bv_var_legal _ _ _ _ _ Hn) as Hleg.
    destruct (wire_value_bv width bytes Hleg Hr) as [Hwv Hsc].
    exists (mkWireModelEntry (raw_ref Bv j) (WireScalar.mk (Z.of_nat width) bytes)).
    assert (symbol blob m = name) as Esym by (unfold symbol; by rewrite Hname).
    split; [by split; [rewrite E2, Hext|exact Hu]|].
    split; cbn [node_ref entry_value WireScalar.width WireScalar.bytes].
    + intros m'. rewrite Hidx, Nat2Z.id. intros Hm'. assert (m' = m) as -> by congruence. by rewrite Esym.
    + rewrite Em. exact Hwv.
    + exact Hsc.
    + exists m. rewrite Hidx, Nat2Z.id, Hso, Esym, Hw. by rewrite Hname.
    + intros σ env Hag. unfold entry_holds, entry_agrees. rewrite Em. cbn [node_ref entry_value WireScalar.width WireScalar.bytes WireScalar.bool]. rewrite Hidx, Nat2Z.id, Hso.
      pose proof (ag_bv _ _ _ _ Hag _ _ _ Htab) as Hval. rewrite Nat2Z.id in Hval.
      unfold val, sem_bv in Hval. rewrite (node_value _ _ _ _ (inv_typed _ Hi) Hn) in Hval. simpl in Hval.
      rewrite Hval. split.
      * intros H. exists m. split; [done|]. rewrite Hw, Esym, Nat2Z.id. by rewrite <- (repr_val _ _ _ H).
      * intros (m' & Hm' & H). assert (m' = m) as -> by congruence. rewrite Hw, Esym, Nat2Z.id in H. by rewrite H.
  - destruct Hk as (E1 & E2 & Hval). destruct (me_value e) as [b|w' bytes] eqn:Em; [|done].
    destruct (vo_bool _ _ _ _ Hvars _ _ _ _ Hn) as (Htab & j & (m & Hm & Htag & Hname & _) & Hext).
    destruct (raw_ref_ok Bool j (node_index_small v nodes kids blob Hv j m Hm)) as (Hidx & Hso & Hu).
    destruct (wire_value_bool b) as [Hwv Hsc].
    exists (mkWireModelEntry (raw_ref Bool j) (WireScalar.bool b)).
    assert (symbol blob m = name) as Esym by (unfold symbol; by rewrite Hname).
    split; [by split; [rewrite E2, Hext|exact Hu]|].
    split; cbn [node_ref entry_value WireScalar.width WireScalar.bytes].
    + intros m'. rewrite Hidx, Nat2Z.id. intros Hm'. assert (m' = m) as -> by congruence. by rewrite Esym.
    + rewrite Em. exact Hwv.
    + exact Hsc.
    + exists m. rewrite Hidx, Nat2Z.id, Hso, Esym. by rewrite Hname.
    + intros σ env Hag. unfold entry_holds, entry_agrees. rewrite Em. cbn [node_ref entry_value WireScalar.width WireScalar.bytes WireScalar.bool]. rewrite Hidx, Nat2Z.id, Hso.
      pose proof (ag_bool _ _ _ _ Hag _ _ Htab) as Hval'.
      unfold truth, sem_bool in Hval'. rewrite (node_value _ _ _ _ (inv_typed _ Hi) Hn) in Hval'. simpl in Hval'.
      rewrite Hval'. split.
      * intros <-. exists m. by rewrite Esym.
      * intros (m' & Hm' & H). assert (m' = m) as -> by congruence. rewrite Esym in H. injection H as H.
        by destruct b, (v_bool σ name).
Qed.
Lemma wire_entries_ok q l : arena q = s -> Forall (entry_of q) l ->
  exists wl, wire_entries l = Ok wl /\ Forall2 wire_entry_of l wl.
Proof.
  intros Ha. induction 1 as [|e l He _ IH]; [by exists []|].
  destruct (entry_of_wire q e Ha He) as [we Hwe]. destruct IH as (wl & E & Hwl).
  exists (we :: wl). split; [|by constructor]. cbn [wire_entries]. rewrite (proj1 (we_ref _ _ Hwe)), (we_value _ _ Hwe).
  cbn [mbind res_bind]. rewrite E. cbn [mbind res_bind]. rewrite Z2Nat.id by apply (proj2 (we_ref _ _ Hwe)).
  by destruct we.
Qed.

(** The symbol of an entry; entries of one symbol are of one term. *)
Definition entry_key (we : WireModelEntry) : string * (bool * Z) :=
  match nodes !! Z.to_nat (NodeRef.index (node_ref we)) with
  | Some n => (symbol blob n, if NodeRef.is_bool (node_ref we) then (true, 0) else (false, node_width n))
  | None => (""%string, (false, 0))
  end.

Lemma is_bool_sort r : NodeRef.is_bool r = match NodeRef.sort r with Bool => true | Bv => false end.
Proof. unfold NodeRef.is_bool. by destruct (NodeRef.sort r). Qed.

Lemma entry_key_term e e' we we' : entry_for e we -> entry_for e' we' -> entry_key we = entry_key we' ->
  me_term e = me_term e'.
Proof.
  intros H H'. destruct (we_node _ _ H) as (n & Hn & _ & Hk). destruct (we_node _ _ H') as (n' & Hn' & _ & Hk').
  unfold entry_key. rewrite Hn, Hn', !is_bool_sort. intros E.
  destruct (NodeRef.sort (node_ref we)), (NodeRef.sort (node_ref we')); try done.
  - injection E as Es Ew. destruct Hk as (_ & _ & Hk), Hk' as (_ & _ & Hk'). rewrite Es, Ew in Hk. congruence.
  - injection E as Es. destruct Hk as (_ & _ & Hk), Hk' as (_ & _ & Hk'). rewrite Es in Hk. congruence.
Qed.

Lemma entry_keys_distinct l wl : Forall2 wire_entry_of l wl -> NoDup (me_term <$> l) -> NoDup (entry_key <$> wl).
Proof.
  induction 1 as [|e we l wl He Hl IH]; simpl; [constructor|]. intros [Hnin Hnd]%NoDup_cons. apply NoDup_cons.
  split; [|by apply IH]. intros (we' & Ek & Hin)%list_elem_of_fmap. apply Hnin.
  apply list_elem_of_lookup in Hin as [i Hlk]. destruct (Forall2_lookup_r _ _ _ _ _ Hl Hlk) as (e' & He' & Hwe').
  rewrite (entry_key_term e e' we we' He Hwe' Ek). apply list_elem_of_fmap. exists e'. split; [done|].
  by eapply list_elem_of_lookup_2.
Qed.

Lemma var_tag x t : Tag.try_from x = Some t -> is_var t = true -> (x =? 0) || (x =? 26) = true.
Proof.
  unfold Tag.try_from. destruct (Z.ltb_spec x 0); [done|]. intros Ht Hvar. rewrite orb_true_iff, !Z.eqb_eq.
  assert (Z.to_nat x = 0%nat \/ Z.to_nat x = 26%nat) as [?|?]; [|lia..].
  revert Ht. generalize (Z.to_nat x). intros k. do 44 (destruct k as [|k]; [intros [= <-]; simpl in Hvar; auto; done|]). done.
Qed.

(** The checks on one entry pass. *)
Lemma entry_node_ok e we c : entry_for e we -> exists n,
  nodes !! Z.to_nat (NodeRef.index (node_ref we)) = Some n /\ is_variable_node n = true /\
  validate_node_ref v (node_ref we) (if NodeRef.is_bool (node_ref we) then Bool else Bv) c = Ok n /\
  (forall c', ExprView.blob_str v (RawNode.blob_ref n) c' = Ok (symbol blob n)).
Proof.
  intros H. destruct (we_node _ _ H) as (n & Hn & [name Hname] & Hk). exists n. split; [done|].
  assert (exists t, Tag.try_from (tag n) = Some t /\ is_var t = true /\ Tag.result_sort t = NodeRef.sort (node_ref we)) as (t & Ht & Hvar & Hsort).
  { destruct (NodeRef.sort (node_ref we)); destruct Hk as (? & _); by eexists. }
  split; [|split].
  - unfold is_variable_node. by eapply var_tag.
  - unfold validate_node_ref. rewrite (view_node_count _ _ _ _ Hv). pose proof (NodeRef_index_nonneg (node_ref we)) as Hpos.
    rewrite (proj2 (Z.leb_gt _ _)) by (apply lookup_lt_Some in Hn; unfold zlen; lia). cbn [refuse_if mbind res_bind].
    rewrite is_bool_sort. rewrite bool_decide_eq_true_2 by (by destruct (NodeRef.sort _)).
    cbn [negb refuse_if mbind res_bind]. pose proof (view_node _ _ _ _ Hv _ _ Hn) as E. rewrite Z2Nat.id in E by done.
    rewrite E. cbn [mbind res_bind]. unfold parse_tag. rewrite Ht. cbn [mbind res_bind].
    by rewrite bool_decide_eq_true_2 by done.
  - intros c'. unfold symbol. rewrite Hname. apply (blob_str_ok v nodes kids blob Hv); [|done].
    apply payload_ref_valid. by apply (node_is_valid v nodes kids blob Hv _ n Hn).
Qed.

(** Entries of one node are one entry, and entries of one symbol have one value. *)
Lemma validate_entries_pass wl seen values : Forall (fun we => exists e, entry_for e we) wl ->
  NoDup (node_ref <$> wl) -> (forall we, we ∈ wl -> node_ref we ∉ seen) ->
  (forall we we', we ∈ wl -> we' ∈ wl -> entry_key we = entry_key we' -> entry_value we = entry_value we') ->
  (forall we x, we ∈ wl -> values !! entry_key we = Some x -> x = entry_value we) ->
  ModelBlock.validate_entries v seen values wl = Ok tt.
Proof.
  intros Hl. revert seen values. induction Hl as [|we wl [e He] Hl IH]; intros seen values Hnd Hseen Hone Hnew; [done|].
  rewrite fmap_cons in Hnd. apply NoDup_cons in Hnd as [Hnin Hnd]. cbn [ModelBlock.validate_entries]. cbv zeta.
  rewrite bool_decide_eq_false_2 by (apply Hseen; by left).
  cbn [refuse_if mbind res_bind]. destruct (entry_node_ok e we "model node_ref" He) as (n & Hn & Hvar & -> & Hname).
  cbn [mbind res_bind]. rewrite Hvar. cbn [negb refuse_if mbind res_bind].
  assert (exists c : string, match NodeRef.sort (node_ref we) with
    | Bool => refuse_if (negb (WireScalar.width (entry_value we) =? 0)) (InvalidValue "model value") ;; Ok (true, 0, "Bool variable"%string)
    | Bv => refuse_if (negb (WireScalar.width (entry_value we) =? node_width n)) (InvalidValue "model value") ;;
            Ok (false, node_width n, "BV variable"%string) end = Ok ((entry_key we).2, c)) as [c Hc].
  { destruct (we_node _ _ He) as (n' & Hn' & _ & Hk). assert (n' = n) as -> by congruence.
    unfold entry_key. rewrite Hn, is_bool_sort.
    destruct (NodeRef.sort (node_ref we)); destruct Hk as (_ & -> & _); rewrite ?Z.eqb_refl; by eexists. }
  rewrite Hc. clear Hc. cbn [mbind res_bind].
  assert (entry_key we = (symbol blob n, (entry_key we).2)) as Ek by (unfold entry_key; by rewrite Hn).
  destruct (entry_key we).2 as [so w] eqn:E2. cbn [mbind res_bind]. rewrite Hname. cbn [mbind res_bind].
  rewrite <- Ek. assert (match values !! entry_key we with
    | Some existing => refuse_if (negb (bool_decide (existing = entry_value we))) (InvalidValue "model value")
    | None => Ok tt end = Ok tt) as ->.
  { destruct (values !! entry_key we) as [x|] eqn:Ex; [|done]. rewrite (Hnew we x) by (done || by left).
    by rewrite bool_decide_eq_true_2. }
  cbn [mbind res_bind]. apply IH; [done|..].
  - intros we' Hin [Hr%elem_of_singleton|Hr]%elem_of_union; [|by apply (Hseen we'); [right|]].
    apply Hnin. rewrite <- Hr. by apply list_elem_of_fmap_2.
  - intros we1 we2 H1 H2. apply Hone; by right.
  - intros we' x Hin Hx. destruct (decide (entry_key we' = entry_key we)) as [E|E].
    + rewrite E, lookup_insert_eq in Hx. injection Hx as <-. by apply Hone; [left|right|].
    + rewrite lookup_insert_ne in Hx by done. apply Hnew; [by right|done].
Qed.

Lemma distinct_refs wl : NoDup (entry_key <$> wl) -> NoDup (node_ref <$> wl).
Proof.
  induction wl as [|we wl IH]; [constructor|]. rewrite !fmap_cons, !NoDup_cons. intros [Hn Hnd]. split; [|by apply IH].
  intros (we' & E & Hin)%list_elem_of_fmap. apply Hn.
  assert (entry_key we = entry_key we') as -> by (unfold entry_key; by rewrite E). by apply list_elem_of_fmap_2.
Qed.

Lemma distinct_one (wl : list WireModelEntry) we we' : NoDup (entry_key <$> wl) -> we ∈ wl -> we' ∈ wl ->
  entry_key we = entry_key we' -> we = we'.
Proof.
  intros Hnd [i Hi']%list_elem_of_lookup [j Hj]%list_elem_of_lookup E.
  assert (i = j) as ->; [|congruence].
  apply (NoDup_lookup (entry_key <$> wl) i j (entry_key we)); [done|..]; rewrite list_lookup_fmap.
  - by rewrite Hi'.
  - by rewrite Hj, E.
Qed.
End entries.

(** ** The block of a model *)

Section block.
Context (r : BinaryRequest.t) (v : ExprView) (nodes : list RawNode) (kids blob : list Z) (meta : list NodeInfo).
Context (Hval : request_valid r) (Hr : request_ok r v nodes kids blob meta).

Lemma query_from_wire_built q : query_from_wire r = Ok q -> exists tr,
  inv (arena q) /\ tr_ok nodes kids blob meta (arena q) tr (length nodes) /\ vars_ok nodes blob (arena q) tr /\
  TermBuilder.finish (final_builder r blob (arena q) tr) = Ok q.
Proof.
  pose proof (ro_reads _ _ _ _ _ _ Hr) as Hv. pose proof (ro_dag _ _ _ _ _ _ Hr) as Hd.
  unfold query_from_wire, BinaryRequest.expression_view. rewrite (ro_view _ _ _ _ _ _ Hr).
  cbn [wire_err map_err mbind res_bind].
  destruct (wire_query_run r v nodes kids blob meta Hval Hr) as ([tr|e|] & s & E & H); [|by destruct H as (_ & _ & ->)|done].
  destruct H as (Hi & Hok & ->). intros Hf. exists tr.
  assert (arena q = s) as ->.
  { unfold TermBuilder.finish in Hf. destruct (_ && _) in Hf; [done|]. by injection Hf as <-. }
  split_and!; [done|done| |done].
  apply (translate_nodes_vars v nodes kids blob meta Hv Hd (length nodes) Arena.new
    (mkTranslation (replicate (length nodes) None) ∅ ∅) 0 tr s inv_new (tr_ok_start nodes kids blob meta Arena.new)
    (vars_ok_start nodes blob) (le_n _) E).
Qed.

Lemma block_length l wl s tr : Forall2 (wire_entry_of nodes blob s tr) l wl -> NoDup (me_term <$> l) ->
  (length nodes <= Z.to_nat MAX_NODE_COUNT)%nat -> zlen wl <= u32_max.
Proof.
  intros Hl Hnd Hn. pose proof (entry_keys_distinct nodes blob s tr l wl Hl Hnd) as Hk.
  assert (NoDup ((fun we => Z.to_nat (NodeRef.index (node_ref we))) <$> wl)) as Hidx.
  { clear Hnd Hn. induction Hl as [|e we l wl He Hl IH]; simpl; [constructor|]. simpl in Hk. apply NoDup_cons in Hk as [Hnin Hk].
    apply NoDup_cons. split; [|by apply IH]. intros (we' & E & Hin)%list_elem_of_fmap. apply Hnin.
    apply list_elem_of_lookup in Hin as Hlk. destruct Hlk as [i Hi].
    destruct (Forall2_lookup_r _ _ _ _ _ Hl Hi) as (e' & _ & He').
    assert (entry_key nodes blob we = entry_key nodes blob we') as ->; [|by apply list_elem_of_fmap_2].
    destruct (we_node _ _ _ _ _ _ He) as (n & Hn & _ & Hs), (we_node _ _ _ _ _ _ He') as (n' & Hn' & _ & Hs').
    unfold entry_key. rewrite E in *. rewrite Hn' in Hn. injection Hn as <-. rewrite Hn', !is_bool_sort.
    destruct (NodeRef.sort (node_ref we)), (NodeRef.sort (node_ref we')); destruct Hs as [Hs _], Hs' as [Hs' _]; congruence. }
  assert (((fun we => Z.to_nat (NodeRef.index (node_ref we))) <$> wl) ⊆ seq 0 (length nodes)) as Hsub.
  { intros j (we & -> & Hin)%list_elem_of_fmap. apply list_elem_of_lookup in Hin as [i Hi].
    destruct (Forall2_lookup_r _ _ _ _ _ Hl Hi) as (e' & _ & He'). destruct (we_node _ _ _ _ _ _ He') as (n & Hn' & _).
    apply elem_of_seq. apply lookup_lt_Some in Hn'. lia. }
  apply (NoDup_submseteq _ _ Hidx), submseteq_length in Hsub. rewrite length_fmap, length_seq in Hsub.
  unfold zlen, u32_max, MAX_NODE_COUNT in *. lia.
Qed.

Lemma model_block q m : query_from_wire r = Ok q -> model_sound q m -> exists block,
  model_to_wire m = Ok block /\ block_valid block /\ ModelBlock.validate_against_expr block v = Ok tt /\
  (exists σ, Forall (entry_agrees nodes blob σ) block) /\
  forall σ, Forall (entry_agrees nodes blob σ) block -> wire_holds σ r nodes kids blob.
Proof.
  intros Eq [[env0 Henv0] Hsat Hent Hdis]. destruct (query_from_wire_built q Eq) as (tr & Hi & Hok & Hvars & Hf).
  pose proof (ro_reads _ _ _ _ _ _ Hr) as Hv. pose proof (query_from_wire_means r v nodes kids blob meta Hval Hr) as Hq.
  rewrite Eq in Hq.
  destruct (wire_entries_ok v nodes kids blob Hv (arena q) tr Hi Hvars q (entries m) eq_refl Hent) as (wl & E & Hwl).
  assert (forall σ env, agrees (arena q) tr σ env -> describes m env <-> Forall (entry_agrees nodes blob σ) wl) as Hdesc.
  { intros σ env Ha. unfold describes. clear E Hdis Henv0 Hsat Hent. revert Hwl. generalize (entries m). intros l Hwl.
    induction Hwl as [|e we l wl He Hl IH]; [by rewrite !Forall_nil|].
    by rewrite !Forall_cons, (we_holds _ _ _ _ _ _ He σ env Ha), IH. }
  exists wl. split_and!.
  - exact E.
  - split.
    + apply Forall_lookup_2. intros i we Hlk. destruct (Forall2_lookup_r _ _ _ _ _ Hwl Hlk) as (e & _ & He).
      split; [apply (we_ref _ _ _ _ _ _ He)|apply (we_scalar _ _ _ _ _ _ He)].
    + eapply block_length; [exact Hwl|done|].
      pose proof (parts_node_count _ _ _ (view_parts _ _ _ _ Hv)). unfold zlen in *. lia.
  - pose proof (entry_keys_distinct nodes blob (arena q) tr (entries m) wl Hwl Hdis) as Hk.
    apply (validate_entries_pass v nodes kids blob Hv (arena q) tr); [|by eapply distinct_refs|set_solver| |done].
    + apply Forall_lookup_2. intros i we Hlk. destruct (Forall2_lookup_r _ _ _ _ _ Hwl Hlk) as (e & _ & He). exists e. apply He.
    + intros we we' H1 H2 E'. f_equal. by eapply (distinct_one nodes blob wl).
  - destruct (agrees_valuation nodes kids blob meta (arena q) tr _ env0 Hi Hok) as [σ Hσ]. exists σ.
    by apply (Hdesc σ env0).
  - intros σ Hσ. destruct (agrees_env nodes kids blob meta (arena q) tr _ σ Hi Hok) as [env Ha].
    apply (means_holds r nodes kids blob q Hq env σ); [|by apply Hsat, (Hdesc σ env)].
    by apply (final_meaning r v nodes kids blob meta Hr (arena q) tr Hok q σ env Hf).
Qed.
End block.

(** The answer is the answer to the request. *)
Definition answers (answer : SolveResult) (r : BinaryRequest.t) (v : ExprView) (nodes : list RawNode) (kids blob : list Z) : Prop :=
  (status answer = SolveStatus.Sat /\ (exists σ, wire_holds σ r nodes kids blob) \/
   status answer = SolveStatus.Unsat /\ ~ (exists σ, wire_holds σ r nodes kids blob)) /\
  (request_flag r RequestFlags.WANT_MODEL = true -> status answer = SolveStatus.Sat ->
   exists m block, model answer = Some m /\ model_to_wire m = Ok block /\ block_valid block /\
     ModelBlock.validate_against_expr block v = Ok tt /\
     (exists σ, Forall (entry_agrees nodes blob σ) block) /\
     forall σ, Forall (entry_agrees nodes blob σ) block -> wire_holds σ r nodes kids blob) /\
  (request_flag r RequestFlags.WANT_CORE = true -> status answer = SolveStatus.Unsat ->
   exists active,
     core answer = Some (omap (assertion_name blob (BinaryRequest.named_assertion_refs r)) active) /\
     ~ (exists σ, core_holds σ r nodes kids blob active) /\
     forall i, i ∈ active -> exists σ, core_holds σ r nodes kids blob (filter (fun k => k <> i) active)).

Lemma request_decided `{Backends} `{Recognisers} r v nodes kids blob meta q config world :
  request_valid r -> request_ok r v nodes kids blob meta ->
  RequestEnvelope.command (BinaryRequest.envelope r) = CmdSolve -> query_from_wire r = Ok q ->
  sat_backend config = Dpll -> budget config = None -> cancellation_token config = None -> all_fit q ->
  exists answer, solve_without_shortcuts config q world = Ok answer /\ answers answer r v nodes kids blob.
Proof.
  intros Hval Hr Hc Eq Hd Hb Ht Hfit.
  pose proof (query_from_wire_means r v nodes kids blob meta Hval Hr) as Hq. rewrite Eq in Hq.
  destruct (decided_spec config q world) as (answer & Ea & Ha); [done..|by apply (qm_formed _ _ _ _ _ Hq)| |done|].
  { rewrite (qm_command _ _ _ _ _ Hq). by rewrite Hc. }
  exists answer. split; [done|]. unfold answers.
  pose proof (means_satisfiable r nodes kids blob q Hq) as Hsat.
  destruct (qm_options _ _ _ _ _ Hq) as (_ & Hwm & Hwc). split_and!.
  - destruct (da_status _ _ Ha) as [[? ?]|[? ?]]; [left|right]; split; try done; by rewrite <- Hsat.
  - intros Hw Hst. destruct (da_model _ _ Ha) as (m & Em & Hm); [congruence|done|].
    destruct (model_block r v nodes kids blob meta Hval Hr q m Eq Hm) as (block & Hblock). by exists m, block.
  - intros Hw Hst. destruct (da_core _ _ Ha) as (active & Hcore & Hun & Hmin); [congruence|done|]. exists active. split_and!.
    + rewrite Hcore. f_equal. apply (means_names r nodes kids blob q Hq), (co_le _ (ro_counts _ _ _ _ _ _ Hr)).
    + by rewrite <- (means_core_satisfiable r nodes kids blob q Hq).
    + intros i Hi. apply (means_core_satisfiable r nodes kids blob q Hq). by apply Hmin.
Qed.

(** ** The theorem *)

(** C9: from the frame to the answer, on the path without shortcuts.  When a solve request
    was parsed from a frame and translated to a query within range ([all_fit]: the CNF
    variables of the query and its subqueries are below 2^31), then
    [solve_without_shortcuts], with the bundled SAT solver ([Dpll]), no budget and no
    token, answers
    [Sat] exactly when some valuation of the request's symbols makes every assertion
    and assumption true, and [Unsat] exactly when none does.  A model, when
    wanted, is translated by [model_to_wire] to a block whose entries are of distinct
    variables of the request's expression and pass the client's check against it, and
    every valuation that gives the symbols the values of the block satisfies the
    request.  An unsat core, when wanted, lists the names of assertions that are unsatisfiable together with the
    unnamed ones and the assumptions, and is minimal: without any one of them some
    valuation satisfies the rest. *)
Theorem frame_decided `{Backends} `{Recognisers} frame r q config world :
  slice_ok frame -> BinaryRequest.parse frame = Ok r ->
  RequestEnvelope.command (BinaryRequest.envelope r) = CmdSolve -> query_from_wire r = Ok q ->
  sat_backend config = Dpll -> budget config = None -> cancellation_token config = None -> all_fit q ->
  exists v nodes kids blob meta answer, request_ok r v nodes kids blob meta /\
    solve_without_shortcuts config q world = Ok answer /\
    (status answer = SolveStatus.Sat /\ (exists σ, wire_holds σ r nodes kids blob) \/
     status answer = SolveStatus.Unsat /\ ~ (exists σ, wire_holds σ r nodes kids blob)) /\
    (request_flag r RequestFlags.WANT_MODEL = true -> status answer = SolveStatus.Sat ->
     exists m block, model answer = Some m /\ model_to_wire m = Ok block /\ block_valid block /\
       ModelBlock.validate_against_expr block v = Ok tt /\
       (exists σ, Forall (entry_agrees nodes blob σ) block) /\
       forall σ, Forall (entry_agrees nodes blob σ) block -> wire_holds σ r nodes kids blob) /\
    (request_flag r RequestFlags.WANT_CORE = true -> status answer = SolveStatus.Unsat ->
     exists active,
       core answer = Some (omap (assertion_name blob (BinaryRequest.named_assertion_refs r)) active) /\
       ~ (exists σ, core_holds σ r nodes kids blob active) /\
       forall i, i ∈ active -> exists σ, core_holds σ r nodes kids blob (filter (fun k => k <> i) active)).
Proof.
  intros Hs E Hc Eq Hd Hb Ht Hfit. apply parse_request_inv in E as (Hval & Hv & _); [|done].
  destruct (validate_request_ok r tt Hval Hv) as (v & nodes & kids & blob & meta & Hr).
  destruct (request_decided r v nodes kids blob meta q config world) as (answer & Ea & Ha); [done..|].
  exists v, nodes, kids, blob, meta, answer. by split_and!; [..|apply Ha|apply Ha|apply Ha].
Qed.

(** ** Witness *)

Lemma sample_request_fits : all_fit sample_query_of_request.
Proof. apply all_fit_check. vm_compute. reflexivity. Qed.

Lemma frame_decided_witness : exists answer nodes kids blob,
  solve_without_shortcuts (H := silent_backends) (H0 := no_recognisers) dpll_config sample_query_of_request unlimited = Ok answer /\
  (status answer = SolveStatus.Sat /\ (exists σ, wire_holds σ sample_request nodes kids blob) \/
   status answer = SolveStatus.Unsat /\ ~ (exists σ, wire_holds σ sample_request nodes kids blob)).
Proof.
  destruct (frame_decided (H := silent_backends) (H0 := no_recognisers) sample_frame sample_request sample_query_of_request
    dpll_config unlimited sample_frame_slice) as (v & nodes & kids & blob & meta & answer & _ & E & Ha & _).
  - vm_compute. reflexivity.
  - reflexivity.
  - vm_compute. reflexivity.
  - reflexivity.
  - reflexivity.
  - reflexivity.
  - exact sample_request_fits.
  - exists answer, nodes, kids, blob. split; [exact E|exact Ha].
Defined.
