(* ===== verification/WireBuilder.v ===== *)
(** * The client's builder ([smt-wire]: [builder.rs])

    [ExprBuilder] appends typed nodes to the three tables of an expression buffer and
    keeps assertions, assumptions and scopes; [build_request] compacts what the roots
    reach and encodes a request.  Methods that change the builder are programs of the
    state monad [BM], the others are functions of it. *)
From S2P Require Import Prelude Bytes BytesFacts Evaluator WireBase WireExpr WireRequest.

#[local] Open Scope Z_scope.

Record NodeMeta := mkNodeMeta { meta_sort : Sort; meta_width : Z }.

#[export] Instance NodeMeta_eq_dec : EqDecision NodeMeta.
Proof. solve_decision. Defined.

Record WireAssertion := mkWireAssertion { wa_root : NodeRef; wa_name : option BlobRef }.

Record ExprBuilder := mkExprBuilder {
  eb_nodes : list RawNode;
  eb_children : list NodeRef;
  eb_blob : list Z;
  eb_meta : list NodeMeta;
  eb_assertions : list WireAssertion;
  eb_assumptions : list NodeRef;
  eb_scopes : list nat;
  eb_bv_vars : gmap (string * Z) NodeRef;
  eb_bool_vars : gmap string NodeRef;
  eb_symbols : gmap string NodeMeta;
}.

(** ** Programs over the builder *)

Definition BM (A : Type) : Type := ExprBuilder -> wres A * ExprBuilder.

#[export] Instance BM_ret : MRet BM := fun A a b => (Ok a, b).
#[export] Instance BM_bind : MBind BM := fun A B f m b =>
  match m b with
  | (Ok a, b) => f a b
  | (Err e, b) => (Err e, b)
  | (Panic, b) => (Panic, b)
  end.

(** A check or a read, and an update. *)
Definition on {A} (f : ExprBuilder -> wres A) : BM A := fun b => (f b, b).
Definition set (f : ExprBuilder -> ExprBuilder) : BM unit := fun b => (Ok tt, f b).

Definition with_tables (nodes : list RawNode) (children : list NodeRef) (blob : list Z) (meta : list NodeMeta)
    (b : ExprBuilder) : ExprBuilder :=
  mkExprBuilder nodes children blob meta (eb_assertions b) (eb_assumptions b) (eb_scopes b)
    (eb_bv_vars b) (eb_bool_vars b) (eb_symbols b).
Definition with_roots (assertions : list WireAssertion) (assumptions : list NodeRef) (scopes : list nat)
    (b : ExprBuilder) : ExprBuilder :=
  mkExprBuilder (eb_nodes b) (eb_children b) (eb_blob b) (eb_meta b) assertions assumptions scopes
    (eb_bv_vars b) (eb_bool_vars b) (eb_symbols b).
Definition with_symbols (bv_vars : gmap (string * Z) NodeRef) (bool_vars : gmap string NodeRef)
    (symbols : gmap string NodeMeta) (b : ExprBuilder) : ExprBuilder :=
  mkExprBuilder (eb_nodes b) (eb_children b) (eb_blob b) (eb_meta b) (eb_assertions b) (eb_assumptions b) (eb_scopes b)
    bv_vars bool_vars symbols.

(** The result of a compaction: the bytes of the buffer, and the two renumberings. *)
Record CompactedExpression := mkCompactedExpression {
  ce_bytes : list Z; ce_old_to_new : list (option NodeRef); ce_new_to_old : gmap NodeRef NodeRef;
}.

Module CompactedExpression.
Definition remap_ref (self : CompactedExpression) (old : NodeRef) : wres NodeRef :=
  match ce_old_to_new self !! Z.to_nat (NodeRef.index old) with
  | Some (Some mapped) =>
      refuse_if (negb (bool_decide (NodeRef.sort mapped = NodeRef.sort old))) (InvalidValue "compacted node reference") ;;
      Ok mapped
  | _ => Err (InvalidValue "compacted node reference")
  end.

Definition original_ref (self : CompactedExpression) (new : NodeRef) : wres NodeRef :=
  match ce_new_to_old self !! new with
  | Some old => Ok old
  | None => Err (InvalidValue "compacted node reference")
  end.
End CompactedExpression.

(** [v[i]]: panics out of range. *)
Definition at_index {A} (l : list A) (i : Z) : wres A :=
  match l !! Z.to_nat i with Some x => Ok x | None => Panic end.

Module ExprBuilder.
Definition new : ExprBuilder := mkExprBuilder [] [] [] [] [] [] [] ∅ ∅ ∅.
Definition reset : BM unit := set (fun _ => new).

Definition to_expression_buffer (self : ExprBuilder) : wres (list Z) :=
  from_parts (eb_nodes self) (eb_children self) (eb_blob self).

(** ** Checks *)

Definition meta_for (self : ExprBuilder) (reference : NodeRef) : wres NodeMeta :=
  match eb_meta self !! Z.to_nat (NodeRef.index reference) with
  | None => Err (InvalidValue "node reference")
  | Some meta =>
      refuse_if (negb (bool_decide (meta_sort meta = NodeRef.sort reference))) (InvalidValue "node reference") ;;
      Ok meta
  end.

Definition expect_bv (self : ExprBuilder) (reference : NodeRef) : wres Z :=
  meta ← meta_for self reference;
  refuse_if (negb (bool_decide (meta_sort meta = Bv))) (InvalidValue "sort") ;;
  Ok (meta_width meta).

Definition expect_bool (self : ExprBuilder) (reference : NodeRef) : wres unit :=
  meta ← meta_for self reference;
  refuse_if (negb (bool_decide (meta_sort meta = Bool))) (InvalidValue "sort").

Definition expect_same_bv_width (self : ExprBuilder) (a b : NodeRef) (context : string) : wres Z :=
  lhs ← expect_bv self a;
  rhs ← expect_bv self b;
  refuse_if (negb (lhs =? rhs)) (InvalidValue context) ;;
  Ok lhs.

Definition expect_symbol_signature (name : string) (signature : NodeMeta) : BM unit := fun b =>
  match eb_symbols b !! name with
  | Some existing => (refuse_if (negb (bool_decide (existing = signature))) (InvalidValue "symbol declaration"), b)
  | None => (Ok tt, with_symbols (eb_bv_vars b) (eb_bool_vars b) (<[name := signature]> (eb_symbols b)) b)
  end.

(** ** Appending *)

Definition push_blob (bytes : list Z) : BM BlobRef :=
  offset ← on (fun b => try_u32 (zlen (eb_blob b)) "blob table");
  len ← on (fun _ => try_u32 (zlen bytes) "blob table");
  stop ← on (fun _ => checked_add_u32 offset len "blob table append");
  on (fun _ => refuse_if (u32_max <? stop) (InvalidValue "blob table")) ;;
  set (fun b => with_tables (eb_nodes b) (eb_children b) (eb_blob b ++ bytes) (eb_meta b) b) ;;
  mret (mkBlobRef offset len).

Definition push_node (t : Tag) (width : Z) (children : list NodeRef) (aux_hi aux_lo payload : Z) : BM NodeRef :=
  arity ← on (fun _ => if zlen children <=? 255 then Ok (zlen children) else Err (InvalidValue "node arity"));
  on (fun b => check_each (fun child => meta_for b child ;; Ok tt) children) ;;
  child_start ← on (fun b => try_u32 (zlen (eb_children b)) "child array");
  set (fun b => with_tables (eb_nodes b) (eb_children b ++ children) (eb_blob b) (eb_meta b) b) ;;
  index ← on (fun b => try_u32 (zlen (eb_nodes b)) "node array");
  id ← on (fun _ => NodeRef.new (Tag.result_sort t) index);
  let node := mkRawNode (Tag.to_u8 t) arity aux_hi width aux_lo (if arity =? 0 then 0 else child_start) payload in
  set (fun b => with_tables (eb_nodes b ++ [node]) (eb_children b) (eb_blob b)
                  (eb_meta b ++ [mkNodeMeta (Tag.result_sort t) width]) b) ;;
  mret id.

(** ** Masks *)

Definition mask_u64 (value width : Z) : Z := if 64 <=? width then value else Z.land value (Z.shiftl 1 width - 1).

Definition wire_mask_unused_high_bits (bytes : list Z) (width : Z) : list Z :=
  let valid_bits := width mod 8 in
  if (valid_bits =? 0) || (zlen bytes =? 0) then bytes
  else alter (fun last => Z.land last (Z.shiftl 1 valid_bits - 1)) (length bytes - 1)%nat bytes.

(** [bytes[..8].copy_from_slice(..)] panics on a shorter vector. *)
Definition overwrite_prefix (bytes prefix : list Z) : wres (list Z) :=
  if zlen prefix <=? zlen bytes then Ok (prefix ++ drop (length prefix) bytes) else Panic.

(** ** Leaves *)

Definition bv_var (name : string) (width : Z) : BM NodeRef :=
  on (fun _ => validate_bv_width_value width "BV variable width") ;;
  expect_symbol_signature name (mkNodeMeta Bv width) ;;
  found ← on (fun b => Ok (eb_bv_vars b !! (name, width)));
  match found with
  | Some reference => mret reference
  | None =>
      r ← push_blob (as_bytes name);
      reference ← push_node TBvVar width [] 0 0 (BlobRef.to_payload r);
      set (fun b => with_symbols (<[(name, width) := reference]> (eb_bv_vars b)) (eb_bool_vars b) (eb_symbols b) b) ;;
      mret reference
  end.

Definition bool_var (name : string) : BM NodeRef :=
  expect_symbol_signature name (mkNodeMeta Bool 0) ;;
  found ← on (fun b => Ok (eb_bool_vars b !! name));
  match found with
  | Some reference => mret reference
  | None =>
      r ← push_blob (as_bytes name);
      reference ← push_node TBoolVar 0 [] 0 0 (BlobRef.to_payload r);
      set (fun b => with_symbols (eb_bv_vars b) (<[name := reference]> (eb_bool_vars b)) (eb_symbols b) b) ;;
      mret reference
  end.

Definition bv_const (value width : Z) : BM NodeRef :=
  on (fun _ => validate_bv_width_value width "BV constant width") ;;
  if width <=? 64 then push_node TBvConst width [] 0 0 (mask_u64 value width)
  else
    len ← on (fun _ => wire_bytes_for_width width);
    bytes ← on (fun _ => overwrite_prefix (replicate (Z.to_nat len) 0) (to_le_bytes 8 value));
    r ← push_blob (wire_mask_unused_high_bits bytes width);
    push_node TBvConst width [] 0 0 (BlobRef.to_payload r).

Definition bv_const_wide (bytes : list Z) (width : Z) : BM NodeRef :=
  on (fun _ => validate_bv_width_value width "wide BV constant width") ;;
  expected ← on (fun _ => wire_bytes_for_width width);
  on (fun _ => refuse_if (negb (zlen bytes =? expected)) (InvalidValue "wide BV constant")) ;;
  let normalized := wire_mask_unused_high_bits bytes width in
  if width <=? 64 then
    arr ← on (fun _ => overwrite_prefix (replicate 8 0) normalized);
    bv_const (bval arr) width
  else
    r ← push_blob normalized;
    push_node TBvConst width [] 0 0 (BlobRef.to_payload r).

Definition bool_true : BM NodeRef := push_node TBoolTrue 0 [] 0 0 0.
Definition bool_false : BM NodeRef := push_node TBoolFalse 0 [] 0 0 0.

(** ** Operations *)

Definition bv_unary (t : Tag) (x : NodeRef) : BM NodeRef :=
  width ← on (fun b => expect_bv b x); push_node t width [x] 0 0 0.

Definition bv_binary (t : Tag) (x y : NodeRef) : BM NodeRef :=
  width ← on (fun b => expect_same_bv_width b x y (Tag.name t)); push_node t width [x; y] 0 0 0.

Definition bv_extend (t : Tag) (x : NodeRef) (amount : Z) : BM NodeRef :=
  width ← on (fun b => expect_bv b x);
  width ← on (fun _ => checked_add_u32 width amount "BV extension width");
  on (fun _ => validate_bv_width_value width "BV extension width") ;;
  push_node t width [x] amount 0 0.

Definition bool_binary (t : Tag) (x y : NodeRef) : BM NodeRef :=
  on (fun b => expect_bool b x) ;;
  on (fun b => expect_bool b y) ;;
  push_node t 0 [x; y] 0 0 0.

(** [bv_comparison] and [overflow_binary]. *)
Definition bv_comparison (t : Tag) (x y : NodeRef) : BM NodeRef :=
  on (fun b => expect_same_bv_width b x y (Tag.name t)) ;; push_node t 0 [x; y] 0 0 0.

Definition overflow_binary (t : Tag) (x y : NodeRef) : BM NodeRef :=
  on (fun b => expect_same_bv_width b x y (Tag.name t)) ;; push_node t 0 [x; y] 0 0 0.

Definition bv_not : NodeRef -> BM NodeRef := bv_unary TBvNot.
Definition bv_neg : NodeRef -> BM NodeRef := bv_unary TBvNeg.
Definition bv_and : NodeRef -> NodeRef -> BM NodeRef := bv_binary TBvAnd.
Definition bv_or : NodeRef -> NodeRef -> BM NodeRef := bv_binary TBvOr.
Definition bv_xor : NodeRef -> NodeRef -> BM NodeRef := bv_binary TBvXor.
Definition bv_add : NodeRef -> NodeRef -> BM NodeRef := bv_binary TBvAdd.
Definition bv_sub : NodeRef -> NodeRef -> BM NodeRef := bv_binary TBvSub.
Definition bv_mul : NodeRef -> NodeRef -> BM NodeRef := bv_binary TBvMul.
Definition bv_udiv : NodeRef -> NodeRef -> BM NodeRef := bv_binary TBvUdiv.
Definition bv_urem : NodeRef -> NodeRef -> BM NodeRef := bv_binary TBvUrem.
Definition bv_sdiv : NodeRef -> NodeRef -> BM NodeRef := bv_binary TBvSdiv.
Definition bv_srem : NodeRef -> NodeRef -> BM NodeRef := bv_binary TBvSrem.
Definition bv_smod : NodeRef -> NodeRef -> BM NodeRef := bv_binary TBvSmod.
Definition bv_shl : NodeRef -> NodeRef -> BM NodeRef := bv_binary TBvShl.
Definition bv_lshr : NodeRef -> NodeRef -> BM NodeRef := bv_binary TBvLshr.
Definition bv_ashr : NodeRef -> NodeRef -> BM NodeRef := bv_binary TBvAshr.

Definition bv_extract (x : NodeRef) (hi lo : Z) : BM NodeRef :=
  width ← on (fun b => expect_bv b x);
  on (fun _ => refuse_if (u16_max <? hi) (InvalidValue "BV_EXTRACT")) ;;
  on (fun _ => refuse_if ((hi <? lo) || (width <=? hi)) (InvalidValue "BV_EXTRACT")) ;;
  push_node TBvExtract (hi - lo + 1) [x] hi lo 0.

Definition bv_concat (high low : NodeRef) : BM NodeRef :=
  high_width ← on (fun b => expect_bv b high);
  low_width ← on (fun b => expect_bv b low);
  width ← on (fun _ => checked_add_u32 high_width low_width "BV_CONCAT width");
  on (fun _ => validate_bv_width_value width "BV_CONCAT width") ;;
  push_node TBvConcat width [high; low] 0 0 0.

Definition bv_zext : NodeRef -> Z -> BM NodeRef := bv_extend TBvZext.
Definition bv_sext : NodeRef -> Z -> BM NodeRef := bv_extend TBvSext.

Definition bv_ite (cond then_value else_value : NodeRef) : BM NodeRef :=
  on (fun b => expect_bool b cond) ;;
  width ← on (fun b => expect_same_bv_width b then_value else_value "BV_ITE");
  push_node TBvIte width [cond; then_value; else_value] 0 0 0.

(** The children of a select: selector and value of every pair. *)
Fixpoint select_children (self : ExprBuilder) (width : Z) (pairs : list (NodeRef * NodeRef)) : wres (list NodeRef) :=
  match pairs with
  | [] => Ok []
  | (selector, value) :: pairs =>
      expect_bool self selector ;;
      value_width ← expect_bv self value;
      refuse_if (negb (value_width =? width)) (InvalidValue "BV_SELECT") ;;
      rest ← select_children self width pairs;
      Ok (selector :: value :: rest)
  end.

Definition bv_select (selectors values : list NodeRef) (default : NodeRef) : BM NodeRef :=
  on (fun _ => refuse_if (negb (zlen selectors =? zlen values)) (InvalidValue "BV_SELECT")) ;;
  on (fun _ => refuse_if (127 <? zlen selectors) (InvalidValue "BV_SELECT")) ;;
  width ← on (fun b => expect_bv b default);
  children ← on (fun b => select_children b width (zip selectors values));
  push_node TBvSelect width (children ++ [default]) (zlen selectors) 0 0.

Definition bool_not (x : NodeRef) : BM NodeRef :=
  on (fun b => expect_bool b x) ;; push_node TBoolNot 0 [x] 0 0 0.
Definition bool_and : NodeRef -> NodeRef -> BM NodeRef := bool_binary TBoolAnd.
Definition bool_or : NodeRef -> NodeRef -> BM NodeRef := bool_binary TBoolOr.
Definition bool_implies : NodeRef -> NodeRef -> BM NodeRef := bool_binary TBoolImplies.

Definition bv_eq : NodeRef -> NodeRef -> BM NodeRef := bv_comparison TBvEq.
Definition bv_ult : NodeRef -> NodeRef -> BM NodeRef := bv_comparison TBvUlt.
Definition bv_ule : NodeRef -> NodeRef -> BM NodeRef := bv_comparison TBvUle.
Definition bv_slt : NodeRef -> NodeRef -> BM NodeRef := bv_comparison TBvSlt.
Definition bv_sle : NodeRef -> NodeRef -> BM NodeRef := bv_comparison TBvSle.
Definition uadd_ovf : NodeRef -> NodeRef -> BM NodeRef := overflow_binary TUaddOvf.
Definition sadd_ovf : NodeRef -> NodeRef -> BM NodeRef := overflow_binary TSaddOvf.
Definition usub_ovf : NodeRef -> NodeRef -> BM NodeRef := overflow_binary TUsubOvf.
Definition ssub_ovf : NodeRef -> NodeRef -> BM NodeRef := overflow_binary TSsubOvf.
Definition umul_ovf : NodeRef -> NodeRef -> BM NodeRef := overflow_binary TUmulOvf.
Definition smul_ovf : NodeRef -> NodeRef -> BM NodeRef := overflow_binary TSmulOvf.
Definition sdiv_ovf : NodeRef -> NodeRef -> BM NodeRef := overflow_binary TSdivOvf.
Definition neg_ovf (x : NodeRef) : BM NodeRef := on (fun b => expect_bv b x) ;; push_node TNegOvf 0 [x] 0 0 0.

(** ** Derived operations *)

Definition bv_ne (a b : NodeRef) : BM NodeRef := eq ← bv_eq a b; bool_not eq.
Definition bv_ugt (a b : NodeRef) : BM NodeRef := bv_ult b a.
Definition bv_uge (a b : NodeRef) : BM NodeRef := bv_ule b a.
Definition bv_sgt (a b : NodeRef) : BM NodeRef := bv_slt b a.
Definition bv_sge (a b : NodeRef) : BM NodeRef := bv_sle b a.

Definition bool_eq (x y : NodeRef) : BM NodeRef :=
  on (fun b => expect_bool b x) ;;
  on (fun b => expect_bool b y) ;;
  not_y ← bool_not y;
  left ← bool_or x not_y;
  not_x ← bool_not x;
  right ← bool_or not_x y;
  bool_and left right.

Definition bool_xor (x y : NodeRef) : BM NodeRef := eq ← bool_eq x y; bool_not eq.

Definition bool_ite (cond then_value else_value : NodeRef) : BM NodeRef :=
  on (fun b => expect_bool b cond) ;;
  on (fun b => expect_bool b then_value) ;;
  on (fun b => expect_bool b else_value) ;;
  cond_then ← bool_and cond then_value;
  not_cond ← bool_not cond;
  else_branch ← bool_and not_cond else_value;
  bool_or cond_then else_branch.

(** [amount % width]: a zero width panics. *)
Definition rem_u64 (a b : Z) : wres Z := if b =? 0 then Panic else Ok (a mod b).

Definition bv_rotate_left (x : NodeRef) (amount : Z) : BM NodeRef :=
  width ← on (fun b => expect_bv b x);
  amount ← on (fun _ => rem_u64 amount width);
  if amount =? 0 then mret x
  else
    left_amount ← bv_const amount width;
    right_amount ← bv_const (width - amount) width;
    left ← bv_shl x left_amount;
    right ← bv_lshr x right_amount;
    bv_or left right.

Definition bv_rotate_right (x : NodeRef) (amount : Z) : BM NodeRef :=
  width ← on (fun b => expect_bv b x);
  amount ← on (fun _ => rem_u64 amount width);
  if amount =? 0 then mret x
  else
    right_amount ← bv_const amount width;
    left_amount ← bv_const (width - amount) width;
    right ← bv_lshr x right_amount;
    left ← bv_shl x left_amount;
    bv_or right left.

(** ** Assertions and scopes *)

Definition push : BM unit :=
  set (fun b => with_roots (eb_assertions b) (eb_assumptions b) (eb_scopes b ++ [length (eb_assertions b)]) b).

Definition pop : BM unit := fun b =>
  match last (eb_scopes b) with
  | None => (Err (InvalidValue "scope"), b)
  | Some len => (Ok tt, with_roots (take len (eb_assertions b)) (eb_assumptions b) (removelast (eb_scopes b)) b)
  end.

Definition assert (root : NodeRef) : BM unit :=
  on (fun b => expect_bool b root) ;;
  set (fun b => with_roots (eb_assertions b ++ [mkWireAssertion root None]) (eb_assumptions b) (eb_scopes b) b).

Definition assert_named (name : string) (root : NodeRef) : BM unit :=
  on (fun b => expect_bool b root) ;;
  name_ref ← push_blob (as_bytes name);
  set (fun b => with_roots (eb_assertions b ++ [mkWireAssertion root (Some name_ref)]) (eb_assumptions b) (eb_scopes b) b).

Definition assume (root : NodeRef) : BM unit :=
  on (fun b => expect_bool b root) ;;
  set (fun b => with_roots (eb_assertions b) (eb_assumptions b ++ [root]) (eb_scopes b) b).

Definition clear_assumptions : BM unit := set (fun b => with_roots (eb_assertions b) [] (eb_scopes b) b).

(** The two loops of [assert_mutex]: every pair in order. *)
Fixpoint mutex_with (x : NodeRef) (rest : list NodeRef) : BM unit :=
  match rest with
  | [] => mret tt
  | y :: rest =>
      both ← bool_and x y;
      not_both ← bool_not both;
      assert not_both ;;
      mutex_with x rest
  end.

Fixpoint mutex_pairs (selectors : list NodeRef) : BM unit :=
  match selectors with
  | [] => mret tt
  | x :: rest => mutex_with x rest ;; mutex_pairs rest
  end.

Definition assert_mutex (selectors : list NodeRef) : BM unit :=
  on (fun b => check_each (expect_bool b) selectors) ;; mutex_pairs selectors.

(** ** Compaction *)

(** [for child_offset in 0..node.arity { .. self.children[node.children + child_offset] .. }] *)
Fixpoint each_child {A} (f : NodeRef -> A -> wres A) (self : ExprBuilder) (node : RawNode) (n : nat)
    (child_offset : Z) (acc : A) : wres A :=
  match n with
  | O => Ok acc
  | S n =>
      child ← at_index (eb_children self) (children node + child_offset);
      acc ← f child acc;
      each_child f self node n (child_offset + 1) acc
  end.

(** The recursion descends to earlier nodes: a fuel of one more than the index is
    enough, and running out of it is a panic. *)
Fixpoint mark_ref (fuel : nat) (self : ExprBuilder) (reference : NodeRef) (marked : list bool) : wres (list bool) :=
  match fuel with
  | O => Panic
  | S fuel =>
      meta_for self reference ;;
      let index := NodeRef.index reference in
      is_marked ← at_index marked index;
      if is_marked : bool then Ok marked
      else
        node ← at_index (eb_nodes self) index;
        each_child (mark_ref fuel self) self node (Z.to_nat (arity node)) 0 (<[Z.to_nat index := true]> marked)
  end.

Fixpoint mark_roots (self : ExprBuilder) (roots : list NodeRef) (marked : list bool) : wres (list bool) :=
  match roots with
  | [] => Ok marked
  | root :: roots =>
      marked ← mark_ref (S (Z.to_nat (NodeRef.index root))) self root marked;
      mark_roots self roots marked
  end.

Record Renumbering := mkRenumbering {
  old_to_new : list (option NodeRef); new_to_old : gmap NodeRef NodeRef; next_index : Z;
}.

(** [usize as u32] *)
Definition as_u32 (i : Z) : Z := i mod 2 ^ 32.

Fixpoint renumber (self : ExprBuilder) (marked : list bool) (old_index : Z) (r : Renumbering) : wres Renumbering :=
  match marked with
  | [] => Ok r
  | is_live :: marked =>
      r ← (if is_live : bool then
             meta ← at_index (eb_meta self) old_index;
             new_ref ← NodeRef.new (meta_sort meta) (next_index r);
             old_ref ← NodeRef.new (meta_sort meta) (as_u32 old_index);
             next ← checked_add_u32 (next_index r) 1 "compacted node index";
             Ok (mkRenumbering (<[Z.to_nat old_index := Some new_ref]> (old_to_new r))
                   (<[new_ref := old_ref]> (new_to_old r)) next)
           else Ok r);
      renumber self marked (old_index + 1) r
  end.

(** The new reference of a live node. *)
Definition new_child (old_to_new : list (option NodeRef)) (old_child : NodeRef) (new_children : list NodeRef)
    : wres (list NodeRef) :=
  match old_to_new !! Z.to_nat (NodeRef.index old_child) with
  | Some (Some r) => Ok (new_children ++ [r])
  | _ => Err (InvalidValue "compaction")
  end.

Fixpoint copy_live (self : ExprBuilder) (old_to_new : list (option NodeRef)) (marked : list bool) (old_index : Z)
    (new_nodes : list RawNode) (new_children : list NodeRef) : wres (list RawNode * list NodeRef) :=
  match marked with
  | [] => Ok (new_nodes, new_children)
  | false :: marked => copy_live self old_to_new marked (old_index + 1) new_nodes new_children
  | true :: marked =>
      old_node ← at_index (eb_nodes self) old_index;
      let child_start := zlen new_children in
      new_children ← each_child (new_child old_to_new) self old_node (Z.to_nat (arity old_node)) 0 new_children;
      start ← (if arity old_node =? 0 then Ok 0 else try_u32 child_start "compaction");
      let new_node := mkRawNode (tag old_node) (arity old_node) (aux_hi old_node) (node_width old_node)
                        (aux_lo old_node) start (payload old_node) in
      copy_live self old_to_new marked (old_index + 1) (new_nodes ++ [new_node]) new_children
  end.

Definition compact (self : ExprBuilder) (roots : list NodeRef) : wres CompactedExpression :=
  marked ← mark_roots self roots (replicate (length (eb_nodes self)) false);
  r ← renumber self marked 0 (mkRenumbering (replicate (length (eb_nodes self)) None) ∅ 0);
  '(new_nodes, new_children) ← copy_live self (old_to_new r) marked 0 [] [];
  bytes ← from_parts new_nodes new_children (eb_blob self);
  Ok (mkCompactedExpression bytes (old_to_new r) (new_to_old r)).

(** ** Requests *)

(** [iter.map(f).collect::<Result<Vec<_>>>()] *)
Fixpoint collect {A B} (f : A -> wres B) (l : list A) : wres (list B) :=
  match l with
  | [] => Ok []
  | x :: l => y ← f x; l ← collect f l; Ok (y :: l)
  end.

Definition build_request (self : ExprBuilder) (request_id : Z) (command : WireCommand) (flags budget_ms : Z)
    (target : option NodeRef) : wres (list Z) :=
  let named := filter (fun a => is_Some (wa_name a)) (eb_assertions self) in
  let unnamed := filter (fun a => wa_name a = None) (eb_assertions self) in
  let '(ordered_assertions, named_refs, source_assumptions) :=
    if bool_decide (command = CmdSimplify) then ([], [], [])
    else (named ++ unnamed, omap wa_name named, eb_assumptions self) in
  let live_roots := (wa_root <$> ordered_assertions) ++ source_assumptions ++ option_list target in
  compacted ← compact self live_roots;
  assertion_roots ← collect (fun a => CompactedExpression.remap_ref compacted (wa_root a)) ordered_assertions;
  assumption_roots ← collect (CompactedExpression.remap_ref compacted) source_assumptions;
  target ← match target with
           | None => Ok None
           | Some root => r ← CompactedExpression.remap_ref compacted root; Ok (Some r)
           end;
  request ← BinaryRequest.new request_id command flags budget_ms (ce_bytes compacted) assertion_roots named_refs
              assumption_roots target;
  BinaryRequest.encode request.

(** [flags |= bit] when the option is set. *)
Definition flag_if (want : bool) (bit flags : Z) : Z := if want then Z.lor flags bit else flags.

Definition build_solve_request (self : ExprBuilder) (request_id budget_ms : Z) (want_model want_core : bool)
    : wres (list Z) :=
  build_request self request_id CmdSolve
    (flag_if want_core RequestFlags.WANT_CORE (flag_if want_model RequestFlags.WANT_MODEL 0)) budget_ms None.

Definition build_simplify_request (self : ExprBuilder) (request_id : Z) (target : NodeRef) : wres (list Z) :=
  meta_for self target ;; build_request self request_id CmdSimplify 0 0 (Some target).

Definition build_minimize_request (self : ExprBuilder) (request_id : Z) (target : NodeRef) (signed : bool)
    (budget_ms : Z) (want_model : bool) : wres (list Z) :=
  expect_bv self target ;;
  build_request self request_id CmdMinimize
    (flag_if want_model RequestFlags.WANT_MODEL (flag_if signed RequestFlags.SIGNED 0)) budget_ms (Some target).

Definition build_maximize_request (self : ExprBuilder) (request_id : Z) (target : NodeRef) (signed : bool)
    (budget_ms : Z) (want_model : bool) : wres (list Z) :=
  expect_bv self target ;;
  build_request self request_id CmdMaximize
    (flag_if want_model RequestFlags.WANT_MODEL (flag_if signed RequestFlags.SIGNED 0)) budget_ms (Some target).
End ExprBuilder.
