(* ===== verification/WireBuilderFacts.v ===== *)
(** * The client's builder is safe and says what it means

    [built] is the invariant of [ExprBuilder]: its tables are a well-sorted DAG whose
    sorts and widths are in [meta], its symbol tables find the variables, its roots are
    Bool nodes.  [runs] is the contract of a builder method: it does not panic, keeps
    the invariant, only appends to the tables, and fails for its declared reason or
    because a table is full. *)
From S2P Require Import Prelude Bits Smt SmtFacts Bytes BytesFacts Ir Sem Evaluator EvaluatorFacts.
From S2P Require Import Builder BuilderApi.
From S2P Require Import WireBase WireBaseFacts WireExpr WireExprFacts WireDag WireRequest WireRequestFacts.
From S2P Require Import WireResponseFacts WireMeaning WireBuilder.

#[local] Open Scope Z_scope.
Import ExprBuilder.

(** ** The invariant *)

Definition infos (b : ExprBuilder) : list NodeInfo := omap info_of (eb_nodes b).

Definition meta_of (info : NodeInfo) : NodeMeta := mkNodeMeta (info_sort info) (info_width info).

(** The reference is to a node of this sort and width. *)
Definition typed_ref (b : ExprBuilder) (r : NodeRef) (so : Sort) (w : Z) : Prop :=
  is_u32 r /\ NodeRef.sort r = so /\
  exists info, infos b !! Z.to_nat (NodeRef.index r) = Some info /\ info_sort info = so /\ info_width info = w.

(** The reference is to the variable of this tag, name and width. *)
Definition var_ref (b : ExprBuilder) (t : Tag) (name : string) (w : Z) (r : NodeRef) : Prop :=
  typed_ref b r (Tag.result_sort t) w /\
  exists n, eb_nodes b !! Z.to_nat (NodeRef.index r) = Some n /\ Tag.try_from (tag n) = Some t /\
    blob_name (eb_blob b) (RawNode.blob_ref n) = Some name.

Definition name_ref_ok (b : ExprBuilder) (r : BlobRef) : Prop := ref_valid r /\ is_Some (blob_name (eb_blob b) r).

Record built (b : ExprBuilder) : Prop := {
  bt_nodes : Forall node_valid (eb_nodes b);
  bt_kids : Forall is_u32 (eb_children b);
  bt_blob : Forall is_byte (eb_blob b);
  bt_count : zlen (eb_nodes b) <= MAX_NODE_COUNT;
  bt_blob_len : zlen (eb_blob b) <= u32_max;
  bt_order i j n m : (i < j)%nat -> eb_nodes b !! i = Some n -> eb_nodes b !! j = Some m ->
    arity n <> 0 -> arity m <> 0 -> children n + arity n <= children m;
  bt_dag : dag_ok (eb_nodes b) (eb_children b) (eb_blob b) (infos b);
  bt_meta : eb_meta b = meta_of <$> infos b;
  bt_declared i n info name : eb_nodes b !! i = Some n -> infos b !! i = Some info ->
    is_var (info_tag info) = true -> blob_name (eb_blob b) (RawNode.blob_ref n) = Some name ->
    eb_symbols b !! name = Some (meta_of info);
  bt_bv_vars name w r : eb_bv_vars b !! (name, w) = Some r -> var_ref b TBvVar name w r;
  bt_bool_vars name r : eb_bool_vars b !! name = Some r -> var_ref b TBoolVar name 0 r;
  bt_assertions : Forall (fun a => typed_ref b (wa_root a) Bool 0 /\
    forall r, wa_name a = Some r -> name_ref_ok b r) (eb_assertions b);
  bt_assumptions : Forall (fun r => typed_ref b r Bool 0) (eb_assumptions b);
}.

(** The tables only grow: by at most [n] nodes, [255 n] references and [c] bytes. *)
Record grown (n c : Z) (b b' : ExprBuilder) : Prop := {
  gr_nodes : eb_nodes b `prefix_of` eb_nodes b' /\ zlen (eb_nodes b') <= zlen (eb_nodes b) + n;
  gr_kids : eb_children b `prefix_of` eb_children b' /\ zlen (eb_children b') <= zlen (eb_children b) + 255 * n;
  gr_blob : eb_blob b `prefix_of` eb_blob b' /\ zlen (eb_blob b') <= zlen (eb_blob b) + c;
}.

(** There may be no room for [n] nodes and [c] bytes. *)
Definition crowded (n c : Z) (b : ExprBuilder) : Prop :=
  2 ^ 31 < zlen (eb_nodes b) + n \/ u32_max < zlen (eb_children b) + 255 * n \/ u32_max < zlen (eb_blob b) + c.

(** The contract of a method that is to return a result in [Q], or to fail when [E]. *)
Definition runs {A} (n c : Z) (m : BM A) (b : ExprBuilder) (Q : A -> ExprBuilder -> Prop) (E : Prop) : Prop :=
  let '(r, b') := m b in
  built b' /\ grown n c b b' /\
  match r with Ok a => Q a b' | Err _ => E \/ crowded n c b | Panic => False end.

(** ** Values *)

Definition values (b : ExprBuilder) (σ : Valuation) : list value :=
  wire_denote (eb_blob b) σ (eb_children b) (eb_nodes b).

Definition bv_of (b : ExprBuilder) (σ : Valuation) (r : NodeRef) : Z := sem_bv (values b σ) (Z.to_nat (NodeRef.index r)).
Definition bool_of (b : ExprBuilder) (σ : Valuation) (r : NodeRef) : bool :=
  sem_bool (values b σ) (Z.to_nat (NodeRef.index r)).

(** ** Growing *)

Lemma grown_refl n c b : 0 <= n -> 0 <= c -> grown n c b b.
Proof. intros. split; split; (done || lia). Qed.

(** Changing what is not a table. *)
Lemma grown_symbols b bvv bov sy : grown 0 0 b (with_symbols bvv bov sy b).
Proof. split; split; simpl; (done || lia). Qed.
Lemma grown_roots b l l' s : grown 0 0 b (with_roots l l' s b).
Proof. split; split; simpl; (done || lia). Qed.

Lemma grown_trans n c n' c' b b' b'' : grown n c b b' -> grown n' c' b' b'' -> grown (n + n') (c + c') b b''.
Proof.
  intros [[P1 L1] [P2 L2] [P3 L3]] [[P1' L1'] [P2' L2'] [P3' L3']].
  split; (split; [by etrans|lia]).
Qed.

Lemma grown_le n c n' c' b b' : grown n c b b' -> n <= n' -> c <= c' -> grown n' c' b b'.
Proof. intros [[? ?] [? ?] [? ?]] Hn Hc. split; (split; [done|lia]). Qed.

Lemma crowded_grown n c n' c' b b' : grown n c b b' -> crowded n' c' b' -> crowded (n + n') (c + c') b.
Proof. intros [[_ L1] [_ L2] [_ L3]] [H|[H|H]]; [left|right; left|right; right]; lia. Qed.

Lemma crowded_le n c n' c' b : crowded n c b -> n <= n' -> c <= c' -> crowded n' c' b.
Proof. intros [H|[H|H]] Hn Hc; [left|right; left|right; right]; lia. Qed.

Lemma prefix_within (l l' : list Z) : l `prefix_of` l' -> blob_within l l'.
Proof. intros [k ->]. apply blob_within_app. Qed.

Lemma infos_grown n c b b' : grown n c b b' -> infos b `prefix_of` infos b'.
Proof. intros [[[k E] _] _ _]. unfold infos. rewrite E, omap_app. by eexists. Qed.

Lemma prefix_lookup {A} (l l' : list A) i x : l `prefix_of` l' -> l !! i = Some x -> l' !! i = Some x.
Proof. intros [k ->]. apply lookup_app_l_Some. Qed.

Lemma typed_ref_grown n c b b' r so w : grown n c b b' -> typed_ref b r so w -> typed_ref b' r so w.
Proof.
  intros Hg (? & ? & info & Hi & ?). split; [done|]. split; [done|]. exists info. split; [|done].
  eapply prefix_lookup; [by eapply infos_grown|done].
Qed.

Lemma infos_length b : built b -> length (infos b) = length (eb_nodes b).
Proof. intros Hb. apply (dag_length _ _ _ _ (bt_dag b Hb)). Qed.

(** Typed nodes keep their values. *)
Lemma values_grown n c b b' σ i : built b -> built b' -> grown n c b b' -> (i < length (eb_nodes b))%nat ->
  values b' σ !! i = values b σ !! i.
Proof.
  intros Hb Hb' [[[k En] _] [Hk _] [Hbl _]] Hi. unfold values.
  rewrite En, wire_denote_prefix by done.
  by rewrite (denote_grow _ _ _ _ (bt_nodes b Hb) (bt_dag b Hb) σ _ _ Hk (prefix_within _ _ Hbl)).
Qed.

Lemma typed_index b r so w : built b -> typed_ref b r so w -> (Z.to_nat (NodeRef.index r) < length (eb_nodes b))%nat.
Proof. intros Hb (_ & _ & info & Hi & _). rewrite <- infos_length by done. by eapply lookup_lt_Some. Qed.

Lemma bv_of_grown n c b b' σ r w : built b -> built b' -> grown n c b b' -> typed_ref b r Bv w ->
  bv_of b' σ r = bv_of b σ r.
Proof. intros Hb Hb' Hg Ht. unfold bv_of, sem_bv. by rewrite (values_grown n c b) by eauto using typed_index. Qed.

Lemma bool_of_grown n c b b' σ r w : built b -> built b' -> grown n c b b' -> typed_ref b r Bool w ->
  bool_of b' σ r = bool_of b σ r.
Proof. intros Hb Hb' Hg Ht. unfold bool_of, sem_bool. by rewrite (values_grown n c b) by eauto using typed_index. Qed.

(** ** Composing *)

Lemma runs_ret {A} n c (a : A) b (Q : A -> ExprBuilder -> Prop) E : 0 <= n -> 0 <= c -> built b -> Q a b ->
  runs n c (mret a) b Q E.
Proof. intros Hn Hc Hb HQ. unfold runs. simpl. split; [done|]. split; [by apply grown_refl|done]. Qed.

Lemma runs_bind {A B} n c n' c' (m : BM A) (k : A -> BM B) b Q R E : 0 <= n' -> 0 <= c' -> runs n c m b Q E ->
  (forall a b', built b' -> grown n c b b' -> Q a b' -> runs n' c' (k a) b' R E) -> runs (n + n') (c + c') (m ≫= k) b R E.
Proof.
  intros Hn Hc Hm Hk. unfold runs, mbind, BM_bind in *. destruct (m b) as [[a|e|] b']; destruct Hm as (Hb & Hg & H).
  - specialize (Hk a b' Hb Hg H). unfold runs in Hk. destruct (k a b') as [r b'']. destruct Hk as (Hb' & Hg' & H').
    split; [done|]. split; [by eapply grown_trans|]. destruct r; [done| |done].
    destruct H' as [?|?]; [by left|right; by eapply crowded_grown].
  - split; [done|]. split; [eapply grown_le; [done|lia..]|]. destruct H; [by left|right]. eapply crowded_le; [done|lia..].
  - done.
Qed.

Lemma runs_on {A B} n c (f : ExprBuilder -> wres A) (k : A -> BM B) b R (E : Prop) : 0 <= n -> 0 <= c -> built b ->
  total (f b) -> (forall e, f b = Err e -> E \/ crowded n c b) -> (forall a, f b = Ok a -> runs n c (k a) b R E) ->
  runs n c (on f ≫= k) b R E.
Proof.
  intros Hn Hc Hb Ht He Hk. unfold runs, mbind, BM_bind, on in *. destruct (f b) as [a|e|] eqn:Ef.
  - by apply Hk.
  - split; [done|]. split; [by apply grown_refl|]. by eapply He.
  - done.
Qed.

Lemma runs_weaken {A} n c n' c' (m : BM A) b (Q Q' : A -> ExprBuilder -> Prop) (E E' : Prop) : runs n c m b Q E ->
  n <= n' -> c <= c' -> (forall a b', built b' -> grown n c b b' -> Q a b' -> Q' a b') -> (E -> E') -> runs n' c' m b Q' E'.
Proof.
  unfold runs. destruct (m b) as [r b']. intros (Hb & Hg & H) Hn Hc HQ HE. split; [done|].
  split; [by eapply grown_le|]. destruct r; [by apply HQ| |done].
  destruct H; [left; by apply HE|right; by eapply crowded_le].
Qed.

Lemma bind_assoc {A B C} (m : BM A) (f : A -> BM B) (g : B -> BM C) b : ((m ≫= f) ≫= g) b = (m ≫= fun a => f a ≫= g) b.
Proof. unfold mbind, BM_bind. by destruct (m b) as [[a|e|] b']. Qed.

Lemma on_run {A B} (f : ExprBuilder -> wres A) (k : A -> BM B) b a : f b = Ok a -> (on f ≫= k) b = k a b.
Proof. intros E. unfold mbind, BM_bind, on. by rewrite E. Qed.

Lemma on_err {A B} (f : ExprBuilder -> wres A) (k : A -> BM B) b e : f b = Err e -> (on f ≫= k) b = (Err e, b).
Proof. intros E. unfold mbind, BM_bind, on. by rewrite E. Qed.

Lemma set_run {B} f (k : unit -> BM B) b : (set f ≫= k) b = k tt (f b).
Proof. done. Qed.

(** ** Checks *)

Section checks.
Context (b : ExprBuilder) (Hb : built b).

Lemma meta_for_ok r m : is_u32 r -> meta_for b r = Ok m <-> typed_ref b r (meta_sort m) (meta_width m).
Proof.
  intros Hr. unfold meta_for, typed_ref. rewrite (bt_meta b Hb), list_lookup_fmap.
  destruct (infos b !! _) as [info|]; simpl; [|naive_solver].
  rewrite bind_ok. setoid_rewrite refuse_ok. setoid_rewrite negb_false_iff. setoid_rewrite bool_decide_eq_true. split.
  - intros (_ & Hs & [= <-]). simpl. split_and!; [done..|]. by exists info.
  - intros (_ & Hs & i & [= <-] & H1 & H2). exists tt. split; [congruence|]. f_equal.
    destruct m. simpl in *. unfold meta_of. congruence.
Qed.

Lemma expect_bv_ok r w : is_u32 r -> expect_bv b r = Ok w <-> typed_ref b r Bv w.
Proof.
  intros Hr. unfold expect_bv. rewrite bind_ok. setoid_rewrite (meta_for_ok r _ Hr). setoid_rewrite bind_ok.
  setoid_rewrite refuse_ok. setoid_rewrite negb_false_iff. setoid_rewrite bool_decide_eq_true. split.
  - intros ([s w'] & Ht & _ & Hs & [= <-]). simpl in *. by subst.
  - intros Ht. exists (mkNodeMeta Bv w). split; [done|]. by exists tt.
Qed.

(** A Bool node has width 0. *)
Lemma typed_bool_width r w : typed_ref b r Bool w -> w = 0.
Proof.
  intros (_ & _ & info & Hi & Hs & <-). pose proof (bt_dag b Hb) as Hd.
  destruct (dag_node _ _ _ _ Hd _ _ Hi) as (n & Hn & _ & _ & ->).
  destruct (dag_shape _ _ _ _ Hd _ _ _ Hn Hi) as (_ & Hw & _). by rewrite Hs in Hw.
Qed.

Lemma typed_bv_width r w : typed_ref b r Bv w -> 1 <= w <= MAX_BV_WIDTH.
Proof.
  intros (_ & _ & info & Hi & Hs & <-). pose proof (bt_dag b Hb) as Hd.
  destruct (dag_node _ _ _ _ Hd _ _ Hi) as (n & Hn & _ & _ & ->).
  destruct (dag_shape _ _ _ _ Hd _ _ _ Hn Hi) as (_ & Hw & _). by rewrite Hs in Hw.
Qed.

Lemma expect_bool_ok r u : is_u32 r -> expect_bool b r = Ok u <-> typed_ref b r Bool 0.
Proof.
  intros Hr. unfold expect_bool. rewrite bind_ok. setoid_rewrite (meta_for_ok r _ Hr).
  setoid_rewrite refuse_ok. setoid_rewrite negb_false_iff. setoid_rewrite bool_decide_eq_true. split.
  - intros ([s w] & Ht & Hs). simpl in *. subst. by rewrite (typed_bool_width _ _ Ht) in Ht.
  - intros Ht. by exists (mkNodeMeta Bool 0).
Qed.

Lemma expect_same_width_ok x y c w : is_u32 x -> is_u32 y ->
  expect_same_bv_width b x y c = Ok w <-> typed_ref b x Bv w /\ typed_ref b y Bv w.
Proof.
  intros Hx Hy. unfold expect_same_bv_width. split.
  - intros (l & Hl%(expect_bv_ok _ _ Hx) & (r & Hr%(expect_bv_ok _ _ Hy) & (u & E & [= ->])%bind_ok)%bind_ok)%bind_ok.
    apply refuse_ok, negb_false_iff, Z.eqb_eq in E as <-. done.
  - intros [H1%(expect_bv_ok _ _ Hx) H2%(expect_bv_ok _ _ Hy)]. rewrite H1. cbn [mbind res_bind]. rewrite H2.
    cbn [mbind res_bind]. by rewrite Z.eqb_refl.
Qed.

Lemma total_meta_for r : total (meta_for b r).
Proof. unfold meta_for. totals. Qed.
Lemma total_expect_bv r : total (expect_bv b r).
Proof. pose proof total_meta_for. unfold expect_bv. totals. Qed.
Lemma total_expect_bool r : total (expect_bool b r).
Proof. pose proof total_meta_for. unfold expect_bool. totals. Qed.
Lemma total_expect_same_width x y c : total (expect_same_bv_width b x y c).
Proof. pose proof total_expect_bv. unfold expect_same_bv_width. totals. Qed.

(** A width is unique. *)
Lemma typed_unique r so w so' w' : typed_ref b r so w -> typed_ref b r so' w' -> so = so' /\ w = w'.
Proof. intros (_ & <- & i & Hi & _ & <-) (_ & <- & i' & Hi' & _ & <-). split; congruence. Qed.
End checks.

(** ** Appending *)

Lemma payload_round_trip r : ref_valid r -> BlobRef.from_payload (BlobRef.to_payload r) = r /\ is_u64 (BlobRef.to_payload r).
Proof.
  destruct r as [o l]. unfold ref_valid, is_u32, is_u64, BlobRef.to_payload, BlobRef.from_payload. simpl. intros [Ho Hl].
  assert (Z.lor (Z.shiftl o 32) l = o * 2 ^ 32 + l) as ->.
  { rewrite <- (Z.mod_small l (2 ^ 32)) at 1 by done. rewrite <- Z.land_ones by lia.
    assert (Z.land (Z.shiftl o 32) (Z.land l (Z.ones 32)) = 0) as E.
    { rewrite (Z.land_comm l), Z.land_assoc, Z.land_ones, Z.shiftl_mul_pow2, Z.mod_mul by lia. done. }
    pose proof (Z.add_lor_land (Z.shiftl o 32) (Z.land l (Z.ones 32))) as H. rewrite E in H.
    rewrite Z.shiftl_mul_pow2, Z.land_ones, Z.mod_small in H by lia.
    rewrite Z.shiftl_mul_pow2, Z.land_ones, Z.mod_small by lia. lia. }
  split; [|lia]. rewrite Z.shiftr_div_pow2 by lia. f_equal.
  - rewrite Z.div_add_l, Z.div_small by lia. lia.
  - rewrite Z.add_comm, Z.mod_add, Z.mod_small by lia. done.
Qed.

Lemma name_ref_grown n c b b' r : grown n c b b' -> name_ref_ok b r -> name_ref_ok b' r.
Proof.
  intros [_ _ [Hp _]] [Hr [s Hs]]. split; [done|]. exists s. eapply blob_name_within; [by apply prefix_within|done..].
Qed.

Lemma var_ref_grown n c b b' t name w r : built b -> grown n c b b' -> var_ref b t name w r -> var_ref b' t name w r.
Proof.
  intros Hb Hg [Ht (m & Hm & Htag & Hname)]. split; [by eapply typed_ref_grown|]. exists m.
  pose proof Hg as [[Hn _] _ [Hp _]]. split_and!; [by eapply prefix_lookup|done|].
  eapply blob_name_within; [by apply prefix_within| |done]. apply node_ref_valid.
  apply (Forall_lookup_1 _ _ _ _ (bt_nodes b Hb) Hm).
Qed.

(** Everything but the tables themselves is kept when they grow. *)
Lemma built_grown n c b nodes kids blob meta : built b -> let b' := with_tables nodes kids blob meta b in
  grown n c b b' -> Forall node_valid nodes -> Forall is_u32 kids -> Forall is_byte blob ->
  zlen nodes <= MAX_NODE_COUNT -> zlen blob <= u32_max ->
  (forall i j n m, (i < j)%nat -> nodes !! i = Some n -> nodes !! j = Some m -> arity n <> 0 -> arity m <> 0 ->
    children n + arity n <= children m) ->
  dag_ok nodes kids blob (infos b') -> meta = meta_of <$> infos b' ->
  (forall i m info name, nodes !! i = Some m -> infos b' !! i = Some info -> is_var (info_tag info) = true ->
    blob_name blob (RawNode.blob_ref m) = Some name -> eb_symbols b !! name = Some (meta_of info)) -> built b'.
Proof.
  intros Hb b' Hg Hn Hk Hbl Hc Hbn Ho Hd Hm Hs. split; try done.
  - intros name w r H. eapply var_ref_grown; [done|done|by apply (bt_bv_vars b Hb)].
  - intros name r H. eapply var_ref_grown; [done|done|by apply (bt_bool_vars b Hb)].
  - eapply Forall_impl; [apply (bt_assertions b Hb)|]. intros a [H1 H2].
    split; [by eapply typed_ref_grown|]. intros r Hr. eapply name_ref_grown; [done|by apply H2].
  - eapply Forall_impl; [apply (bt_assumptions b Hb)|]. intros a H. by eapply typed_ref_grown.
Qed.

Lemma built_append n b cs l : built b -> Forall is_u32 cs -> Forall is_byte l -> 0 <= n -> zlen cs <= 255 * n ->
  zlen (eb_blob b) + zlen l <= u32_max ->
  let b' := with_tables (eb_nodes b) (eb_children b ++ cs) (eb_blob b ++ l) (eb_meta b) b in
  built b' /\ grown n (zlen l) b b'.
Proof.
  intros Hb Hcs Hl Hn Hlen Hroom b'. assert (grown n (zlen l) b b') as Hg.
  { split; (split; [|simpl; rewrite ?zlen_app; lia]); simpl; [done|by eexists..]. }
  split; [|done]. apply (built_grown _ _ b _ _ _ _ Hb Hg).
  - apply Hb.
  - apply Forall_app. split; [apply Hb|done].
  - apply Forall_app. split; [apply Hb|done].
  - apply Hb.
  - by rewrite zlen_app.
  - apply Hb.
  - apply (dag_grow _ (eb_children b) (eb_blob b)); [apply Hb|apply Hb|by eexists|apply blob_within_app].
  - apply Hb.
  - intros i m info name Hm Hi Hv Hnm. eapply (bt_declared b Hb i m info name Hm Hi Hv).
    destruct (dag_shape _ _ _ _ (bt_dag b Hb) i m info Hm Hi) as (_ & _ & Hname & _). destruct (Hname Hv) as [s Es].
    rewrite Es. pose proof (node_ref_valid m (Forall_lookup_1 _ _ _ _ (bt_nodes b Hb) Hm)) as Hr.
    rewrite (blob_name_within _ _ _ _ (blob_within_app (eb_blob b) l) Hr Es) in Hnm. done.
Qed.

Lemma blob_at_pushed blob bytes : zlen blob + zlen bytes <= u32_max ->
  blob_at (blob ++ bytes) (mkBlobRef (zlen blob) (zlen bytes)) = Some bytes.
Proof.
  intros H. unfold blob_at. simpl. rewrite zlen_app, Z.leb_refl. f_equal. unfold subslice, zlen.
  rewrite !Nat2Z.id, drop_app_length. by apply firstn_all.
Qed.

Lemma try_u32_ok n c : try_u32 n c = if n <=? u32_max then Ok n else Err (InvalidValue c).
Proof. done. Qed.

Lemma push_blob_runs bytes b E : built b -> Forall is_byte bytes ->
  runs 0 (zlen bytes) (push_blob bytes) b
    (fun r b' => ref_valid r /\ blob_at (eb_blob b') r = Some bytes /\ eb_symbols b' = eb_symbols b /\
      eb_bv_vars b' = eb_bv_vars b /\ eb_bool_vars b' = eb_bool_vars b) E.
Proof.
  intros Hb Hbytes. pose proof (zlen_nonneg bytes). pose proof (zlen_nonneg (eb_blob b)).
  unfold push_blob. apply runs_on; [done|done|done|totals| |].
  { intros e He. right. right. right. unfold try_u32 in He. destruct (Z.leb_spec (zlen (eb_blob b)) u32_max); [done|lia]. }
  intros o Ho. apply runs_on; [done|done|done|totals| |].
  { intros e He. right. right. right. unfold try_u32 in He. destruct (Z.leb_spec (zlen bytes) u32_max); [done|lia]. }
  intros l Hl. unfold try_u32 in Ho, Hl. destruct (Z.leb_spec (zlen (eb_blob b)) u32_max), (Z.leb_spec (zlen bytes) u32_max); try done.
  injection Ho as <-. injection Hl as <-. apply runs_on; [done|done|done|auto with total| |].
  { intros e He. right. right. right. unfold checked_add_u32 in He. destruct (Z.leb_spec (zlen (eb_blob b) + zlen bytes) u32_max); [done|lia]. }
  intros stop [Hs ->]%checked_u32_ok. apply runs_on; [done|done|done|totals| |].
  { intros e He. rewrite refuse_no in He by (by apply Z.ltb_ge). done. }
  intros u _. destruct (built_append 0 b [] bytes Hb) as [Hb' Hg']; [constructor|done..|]. rewrite app_nil_r in Hb', Hg'.
  unfold runs. cbn [mbind BM_bind set]. split; [done|]. split; [done|]. split_and!; try done.
  - split; unfold is_u32, u32_max in *; simpl; lia.
  - by apply blob_at_pushed.
Qed.
