(* ===== verification/WireBuilderOps.v ===== *)
(** * The operations of the client's builder

    [push_node_runs] is what appending a node does; the contract of every operation
    follows from it and from the checks the operation makes. *)
From S2P Require Import Prelude Bits Smt SmtFacts Bytes BytesFacts Ir Sem Evaluator EvaluatorFacts.
From S2P Require Import Builder BuilderApi.
From S2P Require Import WireBase WireBaseFacts WireExpr WireExprFacts WireDag WireRequest.
From S2P Require Import WireRequestFacts.
From S2P Require Import WireResponseFacts WireMeaning WireBuilder WireBuilderFacts.
From S2P Require Import BuilderFacts.

#[local] Open Scope Z_scope.
Import ExprBuilder.

(** ** Appending a node *)

Definition pushed (t : Tag) (w : Z) (cs : list NodeRef) (hi lo p start : Z) : RawNode :=
  mkRawNode (Tag.to_u8 t) (zlen cs) hi w lo start p.

(** The children are in the array from [start] on. *)
Definition placed (cs kids : list Z) (start : Z) : Prop :=
  forall k r, cs !! k = Some r -> kids !! Z.to_nat (start + Z.of_nat k) = Some r.

(** The [k]-th child, and its width. *)
Definition kid (cs : list NodeRef) (k : Z) : NodeRef := nth (Z.to_nat k) cs 0.
Definition width_of (b : ExprBuilder) (σ : Valuation) (r : NodeRef) : nat :=
  sem_w (values b σ) (Z.to_nat (NodeRef.index r)).

Record pushable (b : ExprBuilder) (t : Tag) (w : Z) (cs : list NodeRef) (hi lo p : Z) : Prop := {
  pu_refs : Forall (fun r => exists so w', typed_ref b r so w') cs;
  pu_hi : is_u16 hi;
  pu_lo : is_u32 lo;
  pu_payload : is_u64 p;
  pu_len : zlen cs <= 255;
  pu_arity : arity_ok t (zlen cs);
  pu_width : width_ok (Tag.result_sort t) w;
  pu_name : is_var t = true -> exists name, blob_name (eb_blob b) (BlobRef.from_payload p) = Some name /\
    eb_symbols b !! name = Some (mkNodeMeta (Tag.result_sort t) w);
  pu_wide : t = TBvConst -> 64 < w -> blob_len (BlobRef.from_payload p) = (w + 7) / 8 /\
    is_Some (blob_at (eb_blob b) (BlobRef.from_payload p));
  pu_children start kids : 0 <= start -> placed cs kids start ->
    children_ok kids (infos b) (length (eb_nodes b)) (pushed t w cs hi lo p start) t;
}.

(** The contract of a method that is to make a node of this sort, width and value. *)
Definition makes (n c : Z) (m : BM NodeRef) (b : ExprBuilder) (so : Sort) (w : Z) (meaning : Valuation -> value)
    (E : Prop) : Prop :=
  runs n c m b (fun r b' => typed_ref b' r so w /\
    forall σ, values b' σ !! Z.to_nat (NodeRef.index r) = Some (meaning σ)) E.

Lemma try_from_to_u8 t : Tag.try_from (Tag.to_u8 t) = Some t.
Proof. by destruct t. Qed.

Lemma info_of_pushed t w cs hi lo p start :
  info_of (pushed t w cs hi lo p start) = Some (mkNodeInfo t (Tag.result_sort t) w).
Proof. unfold info_of, pushed. simpl. by rewrite try_from_to_u8. Qed.

Lemma width_ok_u32 so w : width_ok so w -> is_u32 w.
Proof. unfold width_ok, is_u32, MAX_BV_WIDTH. destruct so; lia. Qed.

Lemma push_check b t w cs hi lo p : built b -> pushable b t w cs hi lo p ->
  check_each (fun child => meta_for b child ;; Ok tt) cs = Ok tt.
Proof.
  intros Hb Hp. apply check_each_all. eapply Forall_impl; [apply (pu_refs _ _ _ _ _ _ _ Hp)|]. intros x (so & w' & Hx).
  pose proof Hx as (Hu & _). by rewrite (proj2 (meta_for_ok b Hb x (mkNodeMeta so w') Hu) Hx).
Qed.

Section push.
Context (b : ExprBuilder) (t : Tag) (w : Z) (cs : list NodeRef) (hi lo p : Z).
Context (Hb : built b) (Hp : pushable b t w cs hi lo p).

Let start : Z := if zlen cs =? 0 then 0 else zlen (eb_children b).
Let n : RawNode := pushed t w cs hi lo p start.
Let b1 : ExprBuilder := with_tables (eb_nodes b) (eb_children b ++ cs) (eb_blob b) (eb_meta b) b.
Let b2 : ExprBuilder :=
  with_tables (eb_nodes b ++ [n]) (eb_children b ++ cs) (eb_blob b) (eb_meta b ++ [mkNodeMeta (Tag.result_sort t) w]) b.

Lemma push_refs_u32 : Forall is_u32 cs.
Proof. eapply Forall_impl; [apply (pu_refs _ _ _ _ _ _ _ Hp)|]. by intros r (so & w' & H & _). Qed.

Lemma push_first : built b1 /\ grown 1 0 b b1.
Proof.
  pose proof (built_append 1 b cs [] Hb push_refs_u32 (Forall_nil_2 _) ltac:(lia)) as H.
  rewrite app_nil_r in H. pose proof (bt_blob_len b Hb). change (zlen (@nil Z)) with 0 in H.
  apply H; pose proof (pu_len _ _ _ _ _ _ _ Hp); lia.
Qed.

Lemma push_placed : placed cs (eb_children b ++ cs) start.
Proof.
  intros k r Hk. assert (start = zlen (eb_children b)) as ->.
  { unfold start. destruct (Z.eqb_spec (zlen cs) 0) as [E|]; [|done]. apply zlen_0_nil in E. by rewrite E in Hk. }
  rewrite lookup_app_r by (unfold zlen; lia). rewrite <- Hk. f_equal. unfold zlen. lia.
Qed.

Context (Hroom : zlen (eb_children b) <= u32_max) (Hidx : zlen (eb_nodes b) <= NodeRef.INDEX_MASK).

Lemma push_node_valid : node_valid n.
Proof.
  pose proof Hp as [_ Hh Hl Hpl Hlen Ha Hw _ _ _]. pose proof (zlen_nonneg cs). pose proof (zlen_nonneg (eb_children b)).
  unfold node_valid, n, pushed. simpl. split_and!; try done.
  - unfold is_u8. destruct t; simpl; lia.
  - unfold is_u8. lia.
  - by eapply width_ok_u32.
  - unfold is_u32, start, u32_max in *. case_match; lia.
Qed.

Lemma push_infos : infos b2 = infos b ++ [mkNodeInfo t (Tag.result_sort t) w].
Proof. unfold infos, b2. simpl. rewrite omap_app. simpl. unfold n. by rewrite info_of_pushed. Qed.

Lemma push_grown : grown 1 0 b b2.
Proof.
  destruct push_first as [_ [_ H2 H3]]. split; [|done|done]. unfold b2. simpl. rewrite zlen_app. split; [by eexists|].
  unfold zlen. simpl. lia.
Qed.

Lemma push_built : built b2.
Proof.
  destruct push_first as [Hb1 _]. pose proof push_node_valid as Hn. pose proof push_infos as Ei.
  pose proof Hp as [Hr Hh Hl Hpl Hlen Ha Hw Hnm Hwd Hc].
  apply (built_grown 1 0 b (eb_nodes b ++ [n]) (eb_children b ++ cs) (eb_blob b) _ Hb push_grown).
  - apply Forall_app. split; [apply Hb|by constructor].
  - apply (bt_kids b1 Hb1).
  - apply Hb.
  - rewrite zlen_app. unfold zlen, NodeRef.INDEX_MASK, MAX_NODE_COUNT in *. simpl. lia.
  - apply Hb.
  - intros i j m m' Hij Hm Hm' Han Ham. apply lookup_app_Some in Hm as [Hm|[Hge Hm]].
    2:{ apply list_lookup_singleton_Some in Hm as [Ez _]. apply lookup_lt_Some in Hm'. rewrite length_app in Hm'. simpl in Hm'. lia. }
    apply lookup_app_Some in Hm' as [Hm'|[_ Hm']]; [by apply (bt_order b Hb i j)|].
    apply list_lookup_singleton_Some in Hm' as [_ <-]. pose proof (dag_range _ _ _ _ (bt_dag b Hb) i m Hm Han).
    unfold n, pushed, start in Ham |- *. simpl in Ham |- *. destruct (Z.eqb_spec (zlen cs) 0); [done|lia].
  - fold b2. rewrite Ei. apply (dag_snoc (eb_nodes b)); [apply Hb|apply (bt_dag b1 Hb1)|done|apply info_of_pushed| | | |].
    + unfold n, pushed, shape_ok. simpl. split_and!; [done|done| |done]. intros Hv. destruct (Hnm Hv) as (name & E & _). by exists name.
    + intros i m mi Hm Hmi (Hv1 & Hv2 & Hname). simpl in Hv2. destruct (Hnm Hv2) as (name & E & Hs).
      unfold RawNode.blob_ref at 2, n, pushed in Hname. simpl in Hname. rewrite E in Hname.
      pose proof (bt_declared b Hb i m mi name Hm Hmi Hv1 Hname) as Hs'. rewrite Hs in Hs'. by injection Hs' as <- <-.
    + unfold n, pushed. simpl. intros Hne. rewrite zlen_app. unfold start.
      destruct (Z.eqb_spec (zlen cs) 0); [done|lia].
    + simpl. apply Hc; [|apply push_placed]. unfold start. case_match; [done|apply zlen_nonneg].
  - fold b2. rewrite Ei, (bt_meta b Hb), fmap_app. done.
  - fold b2. rewrite Ei. intros i m mi name Hm Hmi Hv Hname. apply lookup_app_Some in Hm as [Hm|[Hge Hm]].
    + apply (bt_declared b Hb i m mi name Hm); [|done..]. rewrite lookup_app_l in Hmi; [done|].
      rewrite (infos_length b Hb). by eapply lookup_lt_Some.
    + apply list_lookup_singleton_Some in Hm as [Ez <-].
      rewrite lookup_app_r, (infos_length b Hb), Ez in Hmi by (rewrite (infos_length b Hb); lia). injection Hmi as <-.
      simpl in Hv. destruct (Hnm Hv) as (name' & E & Hs). unfold RawNode.blob_ref, n, pushed in Hname. simpl in Hname.
      rewrite E in Hname. by injection Hname as <-.
Qed.

Let r : NodeRef := raw_ref (Tag.result_sort t) (length (eb_nodes b)).

Lemma push_ref : NodeRef.index r = Z.of_nat (length (eb_nodes b)) /\ NodeRef.sort r = Tag.result_sort t /\ is_u32 r.
Proof. by apply raw_ref_ok. Qed.

Lemma push_typed : typed_ref b2 r (Tag.result_sort t) w.
Proof.
  destruct push_ref as (Ei & Es & Hu). split; [done|]. split; [done|]. rewrite Ei, Nat2Z.id, push_infos.
  eexists. rewrite lookup_app_r by (rewrite (infos_length b Hb); lia). rewrite (infos_length b Hb), Nat.sub_diag. done.
Qed.

(** The new node's value, from the values its children had. *)
Lemma push_value σ : values b2 σ !! Z.to_nat (NodeRef.index r) = Some (node_meaning (eb_blob b) σ (pushed t w cs hi lo p 0) t
  (fun k => bv_of b σ (kid cs k)) (fun k => width_of b σ (kid cs k)) (fun k => bool_of b σ (kid cs k))).
Proof.
  destruct push_ref as (-> & _). rewrite Nat2Z.id. pose proof push_built as Hb2. pose proof push_node_valid as Hn.
  assert (eb_nodes b2 !! length (eb_nodes b) = Some n) as Hi.
  { unfold b2. simpl. rewrite lookup_app_r, Nat.sub_diag by done. done. }
  assert (Tag.try_from (tag n) = Some t) as Ht by apply try_from_to_u8.
  unfold values. rewrite (wire_denote_lookup _ _ _ _ (bt_nodes b2 Hb2) (bt_dag b2 Hb2) σ _ n t Hi Ht). f_equal.
  pose proof (dag_shape_at _ _ _ _ (bt_dag b2 Hb2) _ n t Hi Ht) as Hsh.
  assert (0 <= start) as Hst by (unfold start; case_match; [done|apply zlen_nonneg]).
  pose proof (pu_children _ _ _ _ _ _ _ Hp start _ Hst push_placed) as Hc. fold n in Hc.
  rewrite <- (node_meaning_copy n t (eb_blob b) (eb_blob b) σ (pushed t w cs hi lo p 0)) by (done || apply blob_within_refl || by split_and!).
  assert (forall k so info, 0 <= k < zlen cs -> child_info (eb_children b2) (infos b) (length (eb_nodes b)) n k so info ->
    arg (eb_children b2) n k = Z.to_nat (NodeRef.index (kid cs k)) /\ (arg (eb_children b2) n k < length (eb_nodes b))%nat) as Harg.
  { intros k so info Hk (x & Hx & _ & Hlt & _ & _). unfold arg. rewrite Hx. unfold kid.
    destruct (lookup_lt_is_Some_2 cs (Z.to_nat k)) as [y Hy]; [unfold zlen in Hk; lia|].
    pose proof (push_placed _ _ Hy) as Hpl. rewrite Z2Nat.id in Hpl by lia. change (children n) with start in Hx.
    change (eb_children b2) with (eb_children b ++ cs) in Hx. assert (x = y) as -> by congruence.
    rewrite (nth_lookup_Some _ _ _ _ Hy). pose proof (NodeRef_index_nonneg y). split; [done|lia]. }
  assert (forall j, (j < length (eb_nodes b))%nat -> values b2 σ !! j = values b σ !! j) as Hj.
  { intros j Hj. by apply (values_grown 1 0 b b2 σ j Hb Hb2 push_grown). }
  apply (node_meaning_children (eb_children b2) (infos b) (length (eb_nodes b)) n t Hn (proj1 Hsh) Hc).
  - intros k v Hk (info & Hci & _). destruct (Harg _ _ _ Hk Hci) as [Ea Hlt]. rewrite Ea in *.
    unfold bv_of, width_of, sem_bv, sem_w. fold (values b2 σ). by rewrite (Hj _ Hlt).
  - intros k Hk (info & Hci). destruct (Harg _ _ _ Hk Hci) as [Ea Hlt]. rewrite Ea in *.
    unfold bool_of, sem_bool. fold (values b2 σ). by rewrite (Hj _ Hlt).
Qed.

Lemma push_node_result : push_node t w cs hi lo p b = (Ok r, b2).
Proof.
  unfold push_node.
  rewrite (on_run _ _ b (zlen cs)) by (by rewrite (proj2 (Z.leb_le _ _) (pu_len _ _ _ _ _ _ _ Hp))).
  rewrite (on_run _ _ b tt) by exact (push_check b t w cs hi lo p Hb Hp).
  rewrite (on_run _ _ b (zlen (eb_children b))) by (unfold try_u32; by rewrite (proj2 (Z.leb_le _ _) Hroom)).
  rewrite set_run. rewrite (on_run _ _ _ (zlen (eb_nodes b))).
  2:{ unfold try_u32. simpl. by rewrite (proj2 (Z.leb_le _ _)) by (unfold NodeRef.INDEX_MASK, u32_max in *; lia). }
  rewrite (on_run _ _ _ r) by (unfold NodeRef.new; by rewrite (proj2 (Z.ltb_ge _ _))). done.
Qed.
End push.

(** It fails when there is no room. *)
Lemma push_node_runs b t w cs hi lo p E : built b -> pushable b t w cs hi lo p ->
  runs 1 0 (push_node t w cs hi lo p) b (fun r b' =>
    (typed_ref b' r (Tag.result_sort t) w /\
     forall σ, values b' σ !! Z.to_nat (NodeRef.index r) = Some (node_meaning (eb_blob b) σ (pushed t w cs hi lo p 0) t
       (fun k => bv_of b σ (kid cs k)) (fun k => width_of b σ (kid cs k)) (fun k => bool_of b σ (kid cs k)))) /\
    (exists n, eb_nodes b' !! Z.to_nat (NodeRef.index r) = Some n /\ Tag.try_from (tag n) = Some t /\
       RawNode.blob_ref n = BlobRef.from_payload p) /\
    eb_blob b' = eb_blob b /\ eb_symbols b' = eb_symbols b /\ eb_bv_vars b' = eb_bv_vars b /\
    eb_bool_vars b' = eb_bool_vars b) E.
Proof.
  intros Hb Hp. destruct (Z.le_gt_cases (zlen (eb_children b)) u32_max) as [Hroom|Hfull];
    [destruct (Z.le_gt_cases (zlen (eb_nodes b)) NodeRef.INDEX_MASK) as [Hidx|Hfull]|].
  1:{ unfold runs. rewrite (push_node_result b t w cs hi lo p Hb Hp Hroom Hidx).
      split; [by apply push_built|]. split; [by apply push_grown|]. split_and!; try done.
      - by apply push_typed.
      - intros σ. by apply push_value.
      - destruct (push_ref b t Hidx) as (-> & _). rewrite Nat2Z.id. eexists. split_and!.
        + simpl. rewrite lookup_app_r, Nat.sub_diag by done. done.
        + apply try_from_to_u8.
        + done. }
  all: unfold runs, push_node; rewrite (on_run _ _ b (zlen cs)) by (by rewrite (proj2 (Z.leb_le _ _) (pu_len _ _ _ _ _ _ _ Hp))).
  all: rewrite (on_run _ _ b tt) by exact (push_check b t w cs hi lo p Hb Hp).
  - destruct (push_first b t w cs hi lo p Hb Hp) as [Hb1 Hg1]. pose proof (bt_count b Hb).
    rewrite (on_run _ _ b (zlen (eb_children b))) by (unfold try_u32; by rewrite (proj2 (Z.leb_le _ _) Hroom)).
    rewrite set_run. rewrite (on_run _ _ _ (zlen (eb_nodes b))).
    2:{ unfold try_u32. simpl. by rewrite (proj2 (Z.leb_le _ _)) by (unfold MAX_NODE_COUNT, u32_max in *; lia). }
    erewrite on_err by (unfold NodeRef.new; by rewrite (proj2 (Z.ltb_lt _ _))). split; [done|]. split; [done|].
    right. left. unfold NodeRef.INDEX_MASK in Hfull. lia.
  - erewrite on_err by (unfold try_u32; by rewrite (proj2 (Z.leb_gt _ _))).
    split; [done|]. split; [by apply grown_refl|]. right. right. left. lia.
Qed.

(** ** Operations on typed operands *)

(** The result is a node of this sort, width and value. *)
Definition gives (so : Sort) (w : Z) (meaning : Valuation -> value) (r : NodeRef) (b' : ExprBuilder) : Prop :=
  typed_ref b' r so w /\ forall σ, values b' σ !! Z.to_nat (NodeRef.index r) = Some (meaning σ).

Lemma gives_bv w m r b' σ : gives Bv w (fun σ => VBv (Z.to_nat w) (m σ)) r b' -> bv_of b' σ r = m σ.
Proof. intros [_ H]. unfold bv_of, sem_bv. by rewrite H. Qed.
Lemma gives_bool m r b' σ : gives Bool 0 (fun σ => VBool (m σ)) r b' -> bool_of b' σ r = m σ.
Proof. intros [_ H]. unfold bool_of, sem_bool. by rewrite H. Qed.

Lemma gives_grown n c so w m r b' b'' : built b' -> built b'' -> grown n c b' b'' -> gives so w m r b' -> gives so w m r b''.
Proof.
  intros Hb Hb' Hg [Ht Hv]. split; [by eapply typed_ref_grown|]. intros σ.
  rewrite (values_grown n c b' b'') by eauto using typed_index. apply Hv.
Qed.

Lemma gives_ext so w m m' r b' : (forall σ, m σ = m' σ) -> gives so w m r b' -> gives so w m' r b'.
Proof. intros E [Ht Hv]. split; [done|]. intros σ. by rewrite Hv, E. Qed.

Section operands.
Context (b : ExprBuilder) (Hb : built b).

Lemma typed_lookup r so w i : typed_ref b r so w -> i = Z.to_nat (NodeRef.index r) -> exists info,
  infos b !! i = Some info /\ info_sort info = so /\ info_width info = w /\ (i < length (eb_nodes b))%nat.
Proof.
  intros Ht ->. pose proof (typed_index _ _ _ _ Hb Ht). destruct Ht as (_ & _ & info & ? & ? & ?). by exists info.
Qed.

Lemma width_of_typed r w σ : typed_ref b r Bv w -> width_of b σ r = Z.to_nat w.
Proof.
  intros (_ & _ & info & Hi & Hs & <-). unfold width_of.
  by apply (denote_width _ _ _ _ (bt_nodes b Hb) (bt_dag b Hb)).
Qed.

Lemma typed_width_unique r w w' : typed_ref b r Bv w -> typed_ref b r Bv w' -> w' = w.
Proof. intros H H'. apply (typed_unique b r Bv w' Bv w H' H). Qed.

Section placed_kids.
Context (t : Tag) (w : Z) (cs : list NodeRef) (hi lo p start : Z) (kids : list Z).
Context (Hp : placed cs kids start).

Lemma kid_info (k : nat) r so v : cs !! k = Some r -> typed_ref b r so v -> exists info,
  child_info kids (infos b) (length (eb_nodes b)) (pushed t w cs hi lo p start) (Z.of_nat k) so info /\ info_width info = v.
Proof.
  intros Hk Ht. destruct (typed_lookup r so v _ Ht eq_refl) as (info & Hi & Es & Ew & Hlt).
  pose proof Ht as (_ & Hso & _). exists info. split; [|done]. exists r. split; [by apply Hp|].
  pose proof (NodeRef_index_nonneg r). split_and!; (done || lia).
Qed.

Lemma kid_bv (k : nat) r v : cs !! k = Some r -> typed_ref b r Bv v ->
  child_bv kids (infos b) (length (eb_nodes b)) (pushed t w cs hi lo p start) (Z.of_nat k) v.
Proof. intros Hk Ht. destruct (kid_info k r Bv v Hk Ht) as (info & ? & ?). by exists info. Qed.

Lemma kid_bool (k : nat) r : cs !! k = Some r -> typed_ref b r Bool 0 ->
  child_bool kids (infos b) (length (eb_nodes b)) (pushed t w cs hi lo p start) (Z.of_nat k).
Proof. intros Hk Ht. destruct (kid_info k r Bool 0 Hk Ht) as (info & ? & ?). by exists info. Qed.
End placed_kids.
End operands.

(** A node pushed on typed operands: [children_ok] is left to show. *)
Lemma push_op b t w cs hi lo so meaning E : built b ->
  Forall (fun r => exists so w', typed_ref b r so w') cs -> is_u16 hi -> is_u32 lo -> zlen cs <= 255 ->
  arity_ok t (zlen cs) -> is_var t = false -> t <> TBvConst ->
  so = Tag.result_sort t -> width_ok so w ->
  (forall start kids, 0 <= start -> placed cs kids start ->
   children_ok kids (infos b) (length (eb_nodes b)) (pushed t w cs hi lo 0 start) t) ->
  (forall σ, node_meaning (eb_blob b) σ (pushed t w cs hi lo 0 0) t
     (fun k => bv_of b σ (kid cs k)) (fun k => width_of b σ (kid cs k)) (fun k => bool_of b σ (kid cs k)) = meaning σ) ->
  runs 1 0 (push_node t w cs hi lo 0) b (gives so w meaning) E.
Proof.
  intros Hb Hr Hh Hl Hlen Ha Hv Hc -> Hw Hk Hm.
  eapply runs_weaken; [apply push_node_runs; [done|]|lia|lia| |done].
  - split; try done. by rewrite Hv.
  - intros r b' _ _ [[Ht Hval] _]. split; [done|]. intros σ. by rewrite Hval, Hm.
Qed.

Ltac operands := repeat (apply Forall_cons; split; [eexists _, _; eassumption|]); apply Forall_nil_2.

(** Pushes a node of tag [t] and closes what evaluates. *)
Ltac push_node_of t w cs hi lo so :=
  eapply runs_weaken; [eapply (push_op _ t w cs hi lo so)|lia|lia| |done];
    [assumption|operands|try done|try done|try done|try done|done|done|done|try done| |intros ?σ; reflexivity|].

(** ** One node each *)

Section one.
Context (b : ExprBuilder) (Hb : built b) (x y : NodeRef) (Hx : is_u32 x) (Hy : is_u32 y).

Definition unary_meaning (t : Tag) (w : nat) : Z -> Z := match t with TBvNot => bvnot w | _ => bvneg w end.

Lemma bv_unary_runs t : t = TBvNot \/ t = TBvNeg ->
  runs 1 0 (bv_unary t x) b (fun r b' => exists w, typed_ref b x Bv w /\
    gives Bv w (fun σ => VBv (Z.to_nat w) (unary_meaning t (Z.to_nat w) (bv_of b σ x))) r b')
    (~ exists w, typed_ref b x Bv w).
Proof.
  intros Ht. unfold bv_unary. apply runs_on; [done|done|done|apply total_expect_bv| |].
  { intros e He. left. intros [w Hw]. apply (expect_bv_ok b Hb x w Hx) in Hw. congruence. }
  intros w Hw%(expect_bv_ok b Hb x w Hx). pose proof (typed_bv_width b Hb x w Hw) as Hrange.
  destruct Ht as [-> | ->];
    [push_node_of TBvNot w [x] 0 0 Bv|push_node_of TBvNeg w [x] 0 0 Bv];
    try (by intros r b' _ _ H; exists w); intros start kids Hs Hp; by apply (kid_bv b Hb _ w [x] 0 0 0 start kids Hp 0 x).
Qed.

Definition binary_of (t : Tag) : option BvBinary :=
  match t with
  | TBvAnd => Some CAnd | TBvOr => Some COr | TBvXor => Some CXor | TBvAdd => Some CAdd | TBvSub => Some CSub
  | TBvMul => Some CMul | TBvUdiv => Some CUdiv | TBvUrem => Some CUrem | TBvSdiv => Some CSdiv
  | TBvSrem => Some CSrem | TBvSmod => Some CSmod | TBvShl => Some CShl | TBvLshr => Some CLshr
  | TBvAshr => Some CAshr | _ => None
  end.

Lemma bv_binary_runs t op : binary_of t = Some op ->
  runs 1 0 (bv_binary t x y) b (fun r b' => exists w, (typed_ref b x Bv w /\ typed_ref b y Bv w) /\
    gives Bv w (fun σ => VBv (Z.to_nat w) (binary_meaning op (Z.to_nat w) (bv_of b σ x) (bv_of b σ y))) r b')
    (~ exists w, typed_ref b x Bv w /\ typed_ref b y Bv w).
Proof.
  intros Ht. unfold bv_binary. apply runs_on; [done|done|done|apply total_expect_same_width| |].
  { intros e He. left. intros [w Hw]. apply (expect_same_width_ok b Hb x y (Tag.name t) w Hx Hy) in Hw. congruence. }
  intros w [H1 H2]%(expect_same_width_ok b Hb x y (Tag.name t) w Hx Hy). pose proof (typed_bv_width b Hb x w H1) as Hrange.
  assert (forall t start kids, 0 <= start -> placed [x; y] kids start ->
    child_bv kids (infos b) (length (eb_nodes b)) (pushed t w [x; y] 0 0 0 start) 0 w /\
    child_bv kids (infos b) (length (eb_nodes b)) (pushed t w [x; y] 0 0 0 start) 1 w) as Hk.
  { intros t' start kids Hs Hp. split; [by apply (kid_bv b Hb t' w [x; y] 0 0 0 start kids Hp 0 x)|
      by apply (kid_bv b Hb t' w [x; y] 0 0 0 start kids Hp 1 y)]. }
  destruct t; try discriminate Ht; injection Ht as <-;
    (match goal with |- runs _ _ (push_node ?t _ _ _ _ _) _ _ _ => push_node_of t w [x; y] 0 0 Bv end);
    first [by intros start kids Hs Hp; apply Hk|by intros r b' _ _ H; exists w].
Qed.

Definition predicate_of (t : Tag) : option BvPredicate :=
  match t with
  | TBvEq => Some CEq | TBvUlt => Some CUlt | TBvUle => Some CUle | TBvSlt => Some CSlt | TBvSle => Some CSle
  | TUaddOvf => Some CUaddo | TSaddOvf => Some CSaddo | TUsubOvf => Some CUsubo | TSsubOvf => Some CSsubo
  | TUmulOvf => Some CUmulo | TSmulOvf => Some CSmulo | TSdivOvf => Some CSdivo | _ => None
  end.

Lemma bv_comparison_runs t op : predicate_of t = Some op ->
  runs 1 0 (bv_comparison t x y) b (fun r b' => exists w, (typed_ref b x Bv w /\ typed_ref b y Bv w) /\
    gives Bool 0 (fun σ => VBool (predicate_meaning op (Z.to_nat w) (bv_of b σ x) (bv_of b σ y))) r b')
    (~ exists w, typed_ref b x Bv w /\ typed_ref b y Bv w).
Proof.
  intros Ht. unfold bv_comparison. apply runs_on; [done|done|done|apply total_expect_same_width| |].
  { intros e He. left. intros [w Hw]. apply (expect_same_width_ok b Hb x y (Tag.name t) w Hx Hy) in Hw. congruence. }
  intros w [H1 H2]%(expect_same_width_ok b Hb x y (Tag.name t) w Hx Hy).
  assert (forall t start kids, 0 <= start -> placed [x; y] kids start -> exists w,
    child_bv kids (infos b) (length (eb_nodes b)) (pushed t 0 [x; y] 0 0 0 start) 0 w /\
    child_bv kids (infos b) (length (eb_nodes b)) (pushed t 0 [x; y] 0 0 0 start) 1 w) as Hk.
  { intros t' start kids Hs Hp. exists w. split; [by apply (kid_bv b Hb t' 0 [x; y] 0 0 0 start kids Hp 0 x)|
      by apply (kid_bv b Hb t' 0 [x; y] 0 0 0 start kids Hp 1 y)]. }
  destruct t; try discriminate Ht; injection Ht as <-;
    (match goal with |- runs _ _ (push_node ?t _ _ _ _ _) _ _ _ => push_node_of t 0 [x; y] 0 0 Bool end);
    try (by intros start kids Hs Hp; apply Hk);
    intros r b' _ _ H; exists w; (split; [done|]); (eapply gives_ext; [|exact H]);
    intros σ; cbv beta; rewrite <- (width_of_typed b Hb x w σ H1); reflexivity.
Qed.

Definition connective_of (t : Tag) : option BoolBinary :=
  match t with TBoolAnd => Some CBoolAnd | TBoolOr => Some CBoolOr | TBoolImplies => Some CBoolImplies | _ => None end.

Lemma bool_binary_runs t op : connective_of t = Some op ->
  runs 1 0 (bool_binary t x y) b (fun r b' => (typed_ref b x Bool 0 /\ typed_ref b y Bool 0) /\
    gives Bool 0 (fun σ => VBool (bool_meaning op (bool_of b σ x) (bool_of b σ y))) r b')
    (~ (typed_ref b x Bool 0 /\ typed_ref b y Bool 0)).
Proof.
  intros Ht. unfold bool_binary. apply runs_on; [done|done|done|apply total_expect_bool| |].
  { intros e He. left. intros [H _]. apply (expect_bool_ok b Hb x tt Hx) in H. congruence. }
  intros u H1%(expect_bool_ok b Hb x u Hx). apply runs_on; [done|done|done|apply total_expect_bool| |].
  { intros e He. left. intros [_ H]. apply (expect_bool_ok b Hb y tt Hy) in H. congruence. }
  intros u' H2%(expect_bool_ok b Hb y u' Hy).
  destruct t; try discriminate Ht; injection Ht as <-;
    (match goal with |- runs _ _ (push_node ?t _ _ _ _ _) _ _ _ => push_node_of t 0 [x; y] 0 0 Bool end);
    try (intros start kids Hs Hp; split; [by apply (kid_bool b Hb _ 0 [x; y] 0 0 0 start kids Hp 0 x)|
      by apply (kid_bool b Hb _ 0 [x; y] 0 0 0 start kids Hp 1 y)]);
    by intros r b' _ _ H.
Qed.

Lemma bool_not_runs : runs 1 0 (bool_not x) b (fun r b' => typed_ref b x Bool 0 /\
    gives Bool 0 (fun σ => VBool (negb (bool_of b σ x))) r b') (~ typed_ref b x Bool 0).
Proof.
  unfold bool_not. apply runs_on; [done|done|done|apply total_expect_bool| |].
  { intros e He. left. intros H. apply (expect_bool_ok b Hb x tt Hx) in H. congruence. }
  intros u H1%(expect_bool_ok b Hb x u Hx). push_node_of TBoolNot 0 [x] 0 0 Bool; [|by intros r b' _ _ H].
  intros start kids Hs Hp. by apply (kid_bool b Hb TBoolNot 0 [x] 0 0 0 start kids Hp 0 x).
Qed.

Lemma neg_ovf_runs : runs 1 0 (neg_ovf x) b (fun r b' => exists w, typed_ref b x Bv w /\
    gives Bool 0 (fun σ => VBool (bvnego (Z.to_nat w) (bv_of b σ x))) r b') (~ exists w, typed_ref b x Bv w).
Proof.
  unfold neg_ovf. apply runs_on; [done|done|done|apply total_expect_bv| |].
  { intros e He. left. intros [w Hw]. apply (expect_bv_ok b Hb x w Hx) in Hw. congruence. }
  intros w Hw%(expect_bv_ok b Hb x w Hx). push_node_of TNegOvf 0 [x] 0 0 Bool.
  - intros start kids Hs Hp. exists w. by apply (kid_bv b Hb _ 0 [x] 0 0 0 start kids Hp 0 x).
  - intros r b' _ _ H. exists w. split; [done|]. eapply gives_ext; [|exact H].
    intros σ. cbv beta. by rewrite <- (width_of_typed b Hb x w σ Hw).
Qed.
End one.

(** ** Widths and choices *)

Section shapes.
Context (b : ExprBuilder) (Hb : built b).

Lemma bv_extract_runs x hi lo : is_u32 x -> is_u32 hi -> is_u32 lo ->
  runs 1 0 (bv_extract x hi lo) b (fun r b' => (exists w, typed_ref b x Bv w /\ lo <= hi < w) /\
    gives Bv (hi - lo + 1) (fun σ => VBv (Z.to_nat (hi - lo + 1)) (bvextract (Z.to_nat hi) (Z.to_nat lo) (bv_of b σ x))) r b')
    (~ exists w, typed_ref b x Bv w /\ lo <= hi < w).
Proof.
  intros Hx Hhi Hlo. unfold is_u32 in Hhi, Hlo. unfold bv_extract. apply runs_on; [done|done|done|apply total_expect_bv| |].
  { intros e He. left. intros (w & Hw & _). apply (expect_bv_ok b Hb x w Hx) in Hw. congruence. }
  intros w Hw%(expect_bv_ok b Hb x w Hx). pose proof (typed_bv_width b Hb x w Hw) as Hrange. unfold MAX_BV_WIDTH in Hrange.
  assert (forall w', typed_ref b x Bv w' -> w' = w) as Huniq by (intros w' Hw'; by eapply typed_width_unique).
  apply runs_on; [done|done|done|totals| |].
  { intros e He. left. intros (w' & ->%Huniq & Hr). unfold refuse_if, u16_max in He. destruct (Z.ltb_spec (2 ^ 16 - 1) hi); [lia|done]. }
  intros u Hu%refuse_ok%Z.ltb_ge. apply runs_on; [done|done|done|totals| |].
  { intros e He. left. intros (w' & ->%Huniq & Hr). unfold refuse_if in He.
    rewrite (proj2 (Z.ltb_ge _ _)), (proj2 (Z.leb_gt _ _)) in He by lia. done. }
  intros u' [H1%Z.ltb_ge H2%Z.leb_gt]%refuse_ok%orb_false_iff.
  push_node_of TBvExtract (hi - lo + 1) [x] hi lo Bv.
  - unfold is_u16, u16_max in *. lia.
  - simpl. unfold MAX_BV_WIDTH. lia.
  - intros start kids Hs Hp. exists w. split; [by apply (kid_bv b Hb TBvExtract _ [x] hi lo 0 start kids Hp 0 x)|done].
  - intros r b' _ _ Hg. split; [by exists w|exact Hg].
Qed.

Lemma bv_concat_runs x y : is_u32 x -> is_u32 y ->
  runs 1 0 (bv_concat x y) b (fun r b' => exists wx wy, typed_ref b x Bv wx /\ typed_ref b y Bv wy /\
    gives Bv (wx + wy) (fun σ => VBv (Z.to_nat (wx + wy)) (bvconcat (Z.to_nat wy) (bv_of b σ x) (bv_of b σ y))) r b')
    (~ exists wx wy, typed_ref b x Bv wx /\ typed_ref b y Bv wy /\ wx + wy <= MAX_BV_WIDTH).
Proof.
  intros Hx Hy. unfold bv_concat. apply runs_on; [done|done|done|apply total_expect_bv| |].
  { intros e He. left. intros (w & _ & Hw & _). apply (expect_bv_ok b Hb x w Hx) in Hw. congruence. }
  intros wx H1%(expect_bv_ok b Hb x wx Hx). apply runs_on; [done|done|done|apply total_expect_bv| |].
  { intros e He. left. intros (_ & w & _ & Hw & _). apply (expect_bv_ok b Hb y w Hy) in Hw. congruence. }
  intros wy H2%(expect_bv_ok b Hb y wy Hy).
  pose proof (typed_bv_width b Hb x wx H1). pose proof (typed_bv_width b Hb y wy H2). unfold MAX_BV_WIDTH in *.
  assert (forall w', typed_ref b x Bv w' -> w' = wx) as Hux by (intros w' Hw'; by eapply typed_width_unique).
  assert (forall w', typed_ref b y Bv w' -> w' = wy) as Huy by (intros w' Hw'; by eapply typed_width_unique).
  apply runs_on; [done|done|done|auto with total| |].
  { intros e He. unfold checked_add_u32, u32_max in He. rewrite (proj2 (Z.leb_le _ _)) in He by lia. done. }
  intros w [_ ->]%checked_u32_ok. apply runs_on; [done|done|done|apply total_width_value| |].
  { intros e He. left. intros (a & c & ->%Hux & ->%Huy & Hle).
    assert (validate_bv_width_value (wx + wy) "BV_CONCAT width" = Ok tt) as E by (apply validate_width_value_ok; unfold MAX_BV_WIDTH; lia).
    congruence. }
  intros u Hw%validate_width_value_ok. push_node_of TBvConcat (wx + wy) [x; y] 0 0 Bv.
  - intros start kids Hs Hp. exists wx, wy. split_and!; [|by apply (kid_bv b Hb TBvConcat _ [x; y] 0 0 0 start kids Hp 1 y)|done].
    by apply (kid_bv b Hb TBvConcat _ [x; y] 0 0 0 start kids Hp 0 x).
  - intros r b' _ _ Hg. exists wx, wy. split; [done|]. split; [done|]. eapply gives_ext; [|exact Hg].
    intros σ. cbv beta. by rewrite <- (width_of_typed b Hb y wy σ H2).
Qed.

Definition extend_meaning (t : Tag) (w k : Z) : Z -> Z :=
  match t with TBvSext => bvsext (Z.to_nat w) (Z.to_nat k) | _ => fun v => v end.

Lemma bv_extend_runs t x k : t = TBvZext \/ t = TBvSext -> is_u32 x -> is_u16 k ->
  runs 1 0 (bv_extend t x k) b (fun r b' => exists w, typed_ref b x Bv w /\
    gives Bv (w + k) (fun σ => VBv (Z.to_nat (w + k)) (extend_meaning t w k (bv_of b σ x))) r b')
    (~ exists w, typed_ref b x Bv w /\ w + k <= MAX_BV_WIDTH).
Proof.
  intros Ht Hx Hk. unfold is_u16 in Hk. unfold bv_extend. apply runs_on; [done|done|done|apply total_expect_bv| |].
  { intros e He. left. intros (w & Hw & _). apply (expect_bv_ok b Hb x w Hx) in Hw. congruence. }
  intros w H1%(expect_bv_ok b Hb x w Hx). pose proof (typed_bv_width b Hb x w H1). unfold MAX_BV_WIDTH in *.
  assert (forall w', typed_ref b x Bv w' -> w' = w) as Hux by (intros w' Hw'; by eapply typed_width_unique).
  apply runs_on; [done|done|done|auto with total| |].
  { intros e He. unfold checked_add_u32, u32_max in He. rewrite (proj2 (Z.leb_le _ _)) in He by lia. done. }
  intros v [_ ->]%checked_u32_ok. apply runs_on; [done|done|done|apply total_width_value| |].
  { intros e He. left. intros (a & ->%Hux & Hle).
    assert (validate_bv_width_value (w + k) "BV extension width" = Ok tt) as E by (apply validate_width_value_ok; unfold MAX_BV_WIDTH; lia).
    congruence. }
  intros u Hw%validate_width_value_ok.
  destruct Ht as [-> | ->]; [push_node_of TBvZext (w + k) [x] k 0 Bv|push_node_of TBvSext (w + k) [x] k 0 Bv].
  - intros start kids Hs Hp. exists w. split; [by apply (kid_bv b Hb TBvZext _ [x] k 0 0 start kids Hp 0 x)|done].
  - intros r b' _ _ Hg. by exists w.
  - intros start kids Hs Hp. exists w. split; [by apply (kid_bv b Hb TBvSext _ [x] k 0 0 start kids Hp 0 x)|done].
  - intros r b' _ _ Hg. exists w. split; [done|]. eapply gives_ext; [|exact Hg].
    intros σ. cbv beta. unfold extend_meaning. by rewrite <- (width_of_typed b Hb x w σ H1).
Qed.

Lemma bv_ite_runs c x y : is_u32 c -> is_u32 x -> is_u32 y ->
  runs 1 0 (bv_ite c x y) b (fun r b' => exists w, (typed_ref b c Bool 0 /\ typed_ref b x Bv w /\ typed_ref b y Bv w) /\
    gives Bv w (fun σ => VBv (Z.to_nat w) (if bool_of b σ c then bv_of b σ x else bv_of b σ y)) r b')
    (~ exists w, typed_ref b c Bool 0 /\ typed_ref b x Bv w /\ typed_ref b y Bv w).
Proof.
  intros Hc Hx Hy. unfold bv_ite. apply runs_on; [done|done|done|apply total_expect_bool| |].
  { intros e He. left. intros (w & H & _). apply (expect_bool_ok b Hb c tt Hc) in H. congruence. }
  intros u H0%(expect_bool_ok b Hb c u Hc). apply runs_on; [done|done|done|apply total_expect_same_width| |].
  { intros e He. left. intros (w & _ & Hw). apply (expect_same_width_ok b Hb x y "BV_ITE" w Hx Hy) in Hw. congruence. }
  intros w [H1 H2]%(expect_same_width_ok b Hb x y "BV_ITE" w Hx Hy). pose proof (typed_bv_width b Hb x w H1).
  push_node_of TBvIte w [c; x; y] 0 0 Bv.
  - intros start kids Hs Hp. split_and!.
    + by apply (kid_bool b Hb TBvIte w [c; x; y] 0 0 0 start kids Hp 0 c).
    + by apply (kid_bv b Hb TBvIte w [c; x; y] 0 0 0 start kids Hp 1 x).
    + by apply (kid_bv b Hb TBvIte w [c; x; y] 0 0 0 start kids Hp 2 y).
  - intros r b' _ _ H'. exists w. split; [done|exact H'].
Qed.
End shapes.

(** ** Selects *)

Definition interleave (pairs : list (NodeRef * NodeRef)) : list NodeRef := flat_map (fun p => [p.1; p.2]) pairs.

(** The value of the first pair whose selector is true. *)
Fixpoint first_selected (pairs : list (bool * Z)) (default : Z) : Z :=
  match pairs with
  | [] => default
  | (selector, value) :: pairs => if selector then value else first_selected pairs default
  end.

Lemma interleave_lookup pairs (i : nat) s v : pairs !! i = Some (s, v) ->
  interleave pairs !! (2 * i)%nat = Some s /\ interleave pairs !! (2 * i + 1)%nat = Some v.
Proof.
  revert i. induction pairs as [|[s' v'] pairs IH]; intros [|i]; try done; simpl.
  - by intros [= -> ->].
  - intros H. destruct (IH i H) as [H1 H2].
    replace (i + 1 * S i)%nat with (S (2 * i)) by lia. replace (S (2 * i) + 1)%nat with (S (2 * i + 1)) by lia. done.
Qed.

Lemma zlen_interleave pairs : zlen (interleave pairs) = 2 * zlen pairs.
Proof. induction pairs as [|[s v] pairs IH]; [done|]. simpl. rewrite !zlen_cons. fold (interleave pairs). lia. Qed.

Lemma select_meaning_pairs (bv : Z -> Z) (bo : Z -> bool) (pairs : list (bool * Z)) p d :
  (forall (i : nat) s v, pairs !! i = Some (s, v) -> bo ((p + Z.of_nat i) * 2) = s /\ bv ((p + Z.of_nat i) * 2 + 1) = v) ->
  select_meaning bv bo (length pairs) p d = first_selected pairs d.
Proof.
  revert p. induction pairs as [|[s v] pairs IH]; intros p H; simpl; [done|].
  destruct (H 0%nat s v eq_refl) as [H1 H2]. rewrite Z.add_0_r in H1, H2. rewrite H1, H2. destruct s; [done|].
  apply IH. intros i s' v' Hi. specialize (H (S i) s' v' Hi).
  by replace (p + 1 + Z.of_nat i) with (p + Z.of_nat (S i)) by lia.
Qed.

Section select.
Context (b : ExprBuilder) (Hb : built b).

Definition pair_typed (w : Z) (p : NodeRef * NodeRef) : Prop := typed_ref b p.1 Bool 0 /\ typed_ref b p.2 Bv w.

Lemma select_children_ok w pairs cs : Forall (fun p => is_u32 p.1 /\ is_u32 p.2) pairs ->
  select_children b w pairs = Ok cs <-> Forall (pair_typed w) pairs /\ cs = interleave pairs.
Proof.
  intros Hu. revert cs. induction Hu as [|[s v] pairs [Hs Hv] _ IH]; intros cs; simpl in *; [naive_solver|]. split.
  - intros (u & H1 & (w' & H2 & (u' & H3 & (rest & H4 & [= <-])%bind_ok)%bind_ok)%bind_ok)%bind_ok.
    apply (expect_bool_ok b Hb s u Hs) in H1. apply (expect_bv_ok b Hb v w' Hv) in H2.
    apply refuse_ok, negb_false_iff, Z.eqb_eq in H3 as ->. apply IH in H4 as [? ->]. split; [by constructor|done].
  - intros [[[H1 H2] H3]%Forall_cons ->]. simpl in *. rewrite (proj2 (expect_bool_ok b Hb s tt Hs) H1). cbn [mbind res_bind].
    rewrite (proj2 (expect_bv_ok b Hb v w Hv) H2). cbn [mbind res_bind]. rewrite Z.eqb_refl. cbn [negb refuse_if mbind res_bind].
    rewrite (proj2 (IH (interleave pairs)) (conj H3 eq_refl)). done.
Qed.

Lemma total_select_children w pairs : total (select_children b w pairs).
Proof.
  induction pairs as [|[s v] pairs IH]; simpl; [done|]. pose proof (total_expect_bool b). pose proof (total_expect_bv b). totals.
Qed.

(** The children of the pushed node, by position. *)
Lemma select_kids (pairs : list (NodeRef * NodeRef)) default (i : nat) s v : pairs !! i = Some (s, v) ->
  (interleave pairs ++ [default]) !! (2 * i)%nat = Some s /\ (interleave pairs ++ [default]) !! (2 * i + 1)%nat = Some v.
Proof. intros [H1 H2]%interleave_lookup. split; by apply lookup_app_l_Some. Qed.

Lemma select_default (pairs : list (NodeRef * NodeRef)) default :
  (interleave pairs ++ [default]) !! (2 * length pairs)%nat = Some default.
Proof.
  pose proof (zlen_interleave pairs) as H. unfold zlen in H. rewrite lookup_app_r by lia.
  by replace (2 * length pairs - length (interleave pairs))%nat with 0%nat by lia.
Qed.

Definition select_value (σ : Valuation) (pairs : list (NodeRef * NodeRef)) (default : NodeRef) : Z :=
  first_selected ((fun p => (bool_of b σ p.1, bv_of b σ p.2)) <$> pairs) (bv_of b σ default).

Lemma select_runs pairs default w E : typed_ref b default Bv w -> Forall (pair_typed w) pairs -> zlen pairs <= 127 ->
  runs 1 0 (push_node TBvSelect w (interleave pairs ++ [default]) (zlen pairs) 0 0) b
    (gives Bv w (fun σ => VBv (Z.to_nat w) (select_value σ pairs default))) E.
Proof.
  intros Hd Hp Hlen. set (cs := interleave pairs ++ [default]). pose proof (zlen_nonneg pairs).
  pose proof (typed_bv_width b Hb default w Hd) as Hrange.
  assert (zlen cs = 2 * zlen pairs + 1) as Hcs by (unfold cs; rewrite zlen_app, zlen_interleave; done).
  assert ((zlen cs - 1) / 2 = zlen pairs) as Hhalf.
  { rewrite Hcs. replace (2 * zlen pairs + 1 - 1) with (zlen pairs * 2) by lia. by apply Z.div_mul. }
  apply push_op; try done.
  - apply Forall_app. split; [|by repeat constructor; eexists _, _].
    unfold interleave. apply Forall_flat_map. eapply Forall_impl; [exact Hp|]. intros [s v] [H1 H2].
    repeat constructor; by eexists _, _.
  - unfold is_u16. lia.
  - lia.
  - simpl. rewrite Hcs. split; [lia|]. rewrite Z.add_1_r, Z.even_succ, Z.odd_mul. done.
  - intros start kids Hs Hpl. unfold children_ok. cbn [aux_hi arity node_width pushed].
    split; [by rewrite Hhalf|].
    split.
    + replace (zlen pairs * 2) with (Z.of_nat (2 * length pairs)) by (unfold zlen; lia).
      by apply (kid_bv b Hb TBvSelect w cs (zlen pairs) 0 0 start kids Hpl _ default); [apply select_default|].
    + intros p Hr. destruct (lookup_lt_is_Some_2 pairs (Z.to_nat p)) as [[s v] Hi]; [unfold zlen in Hr; lia|].
      destruct (select_kids pairs default _ s v Hi) as [H1 H2].
      destruct (Forall_lookup_1 _ _ _ _ Hp Hi) as [T1 T2]. simpl in T1, T2. split.
      * replace (p * 2) with (Z.of_nat (2 * Z.to_nat p)) by lia.
        by apply (kid_bool b Hb TBvSelect w cs (zlen pairs) 0 0 start kids Hpl _ s).
      * replace (p * 2 + 1) with (Z.of_nat (2 * Z.to_nat p + 1)) by lia.
        by apply (kid_bv b Hb TBvSelect w cs (zlen pairs) 0 0 start kids Hpl _ v).
  - intros σ. unfold node_meaning. cbn [aux_hi node_width pushed]. f_equal. unfold select_value.
    rewrite to_nat_zlen. replace (length pairs) with (length ((fun p => (bool_of b σ p.1, bv_of b σ p.2)) <$> pairs)) at 1
      by apply length_fmap.
    assert (kid cs (zlen pairs * 2) = default) as ->.
    { unfold kid. replace (Z.to_nat (zlen pairs * 2)) with (2 * length pairs)%nat by (unfold zlen; lia).
      apply nth_lookup_Some. apply select_default. }
    apply select_meaning_pairs. intros i s v Hi. apply list_lookup_fmap_Some in Hi as ([rs rv] & [= -> ->] & Hi).
    destruct (select_kids pairs default _ rs rv Hi) as [H1 H2]. simpl. unfold kid.
    replace (Z.to_nat ((0 + Z.of_nat i) * 2)) with (2 * i)%nat by lia.
    replace (Z.to_nat ((0 + Z.of_nat i) * 2 + 1)) with (2 * i + 1)%nat by lia. fold cs in H1, H2.
    by rewrite (nth_lookup_Some _ _ _ _ H1), (nth_lookup_Some _ _ _ _ H2).
Qed.

Lemma bv_select_runs selectors vals default : Forall is_u32 selectors -> Forall is_u32 vals -> is_u32 default ->
  runs 1 0 (bv_select selectors vals default) b (fun r b' => exists w,
    (length selectors = length vals /\ (length selectors <= 127)%nat /\ typed_ref b default Bv w /\
     Forall (pair_typed w) (zip selectors vals)) /\
    gives Bv w (fun σ => VBv (Z.to_nat w) (select_value σ (zip selectors vals) default)) r b')
    (~ exists w, length selectors = length vals /\ (length selectors <= 127)%nat /\ typed_ref b default Bv w /\
       Forall (pair_typed w) (zip selectors vals)).
Proof.
  intros Hs Hv Hd. unfold bv_select. apply runs_on; [done|done|done|totals| |].
  { intros e He. left. intros (w & El & _). unfold refuse_if, zlen in He. by rewrite El, Z.eqb_refl in He. }
  intros u El%refuse_ok%negb_false_iff%Z.eqb_eq. apply runs_on; [done|done|done|totals| |].
  { intros e He. left. intros (w & _ & Hl & _). unfold refuse_if, zlen in He. by rewrite (proj2 (Z.ltb_ge _ _)) in He by lia. }
  intros u' Hl%refuse_ok%Z.ltb_ge. assert (length selectors = length vals) as El' by (unfold zlen in El; lia).
  apply runs_on; [done|done|done|apply total_expect_bv| |].
  { intros e He. left. intros (w & _ & _ & H & _). apply (expect_bv_ok b Hb default w Hd) in H. congruence. }
  intros w H1%(expect_bv_ok b Hb default w Hd).
  assert (Forall (fun p => is_u32 p.1 /\ is_u32 p.2) (zip selectors vals)) as Hu.
  { apply Forall_lookup. intros i [s v] (Hi1 & Hi2)%lookup_zip_Some. simpl.
    split; [by apply (Forall_lookup_1 _ _ _ _ Hs Hi1)|by apply (Forall_lookup_1 _ _ _ _ Hv Hi2)]. }
  apply runs_on; [done|done|done|apply total_select_children| |].
  { intros e He. left. intros (w' & _ & _ & Hw & Hp). rewrite (typed_width_unique b default w w' H1 Hw) in Hp.
    rewrite (proj2 (select_children_ok w _ _ Hu) (conj Hp eq_refl)) in He. done. }
  intros cs [Hp ->]%(select_children_ok w _ _ Hu).
  assert (zlen (zip selectors vals) = zlen selectors) as Ez by (unfold zlen; rewrite length_zip; lia).
  rewrite <- Ez. eapply runs_weaken; [by apply (select_runs _ _ w); [| |lia]|lia|lia| |by intros H; exact H].
  intros r b' _ _ H. exists w. split; [|done]. split_and!; [done|unfold zlen in Hl; lia|done..].
Qed.
End select.

(** ** Constants, variables and assertions of the client's builder *)

#[local] Open Scope Z_scope.
Import ExprBuilder.

(** ** Constants *)

Lemma mask_u64_wrap value w : is_u64 value -> 1 <= w -> mask_u64 value w = wrap (Z.to_nat w) value \/ 64 < w.
Proof.
  unfold is_u64, mask_u64. intros Hv Hw. destruct (Z.leb_spec 64 w) as [H|H].
  - destruct (Z.eq_dec w 64) as [->|]; [left|right; lia]. symmetry. by apply wrap_small.
  - left. rewrite Z.shiftl_1_l, Z.sub_1_r, <- Z.ones_equiv, Z.land_ones by lia.
    unfold wrap. by rewrite Z2Nat.id by lia.
Qed.

Lemma wire_mask_eq l (w : nat) : wire_mask_unused_high_bits l (Z.of_nat w) = mask_unused_high_bits l w.
Proof.
  unfold wire_mask_unused_high_bits, mask_unused_high_bits. pose proof (Nat.mod_upper_bound w 8 ltac:(lia)) as Hm.
  replace (Z.of_nat w mod 8) with (Z.of_nat (w mod 8)) by (rewrite Nat2Z.inj_mod; done).
  replace (Z.of_nat (w mod 8) =? 0) with ((w mod 8) =? 0)%nat
    by (destruct (Nat.eqb_spec (w mod 8) 0), (Z.eqb_spec (Z.of_nat (w mod 8)) 0); (done || lia)).
  replace (zlen l =? 0) with (length l =? 0)%nat
    by (unfold zlen; destruct (Nat.eqb_spec (length l) 0), (Z.eqb_spec (Z.of_nat (length l)) 0); (done || lia)).
  destruct (_ || _); [done|].
  rewrite mask_shift_ones by done. by rewrite Z.shiftl_1_l, Z.sub_1_r, <- Z.ones_equiv.
Qed.

Lemma byte_count w : 1 <= w -> (w + 7) / 8 = Z.of_nat (div_ceil (Z.to_nat w) 8).
Proof.
  intros Hw. unfold div_ceil. rewrite Nat2Z.inj_div, Nat2Z.inj_add, Z2Nat.id by lia. done.
Qed.

(** Masked bytes of the right number spell the wrapped value. *)
Lemma masked_bytes w l : 1 <= w -> zlen l = (w + 7) / 8 -> Forall is_byte l ->
  let m := wire_mask_unused_high_bits l w in
  Forall is_byte m /\ zlen m = (w + 7) / 8 /\ bval m = wrap (Z.to_nat w) (bval l).
Proof.
  intros Hw Hl Hb. cbv zeta. rewrite byte_count in Hl |- * by done.
  assert (wire_mask_unused_high_bits l w = mask_unused_high_bits l (Z.to_nat w)) as ->
    by (by rewrite <- wire_mask_eq, Z2Nat.id by lia). unfold zlen in *.
  split; [by apply bytes_mask|]. split; [by rewrite length_mask|].
  apply (mask_repr (Z.to_nat w) l); [lia|done].
Qed.

Lemma push_const_runs b w p v E : built b -> 1 <= w <= MAX_BV_WIDTH -> is_u64 p ->
  (64 < w -> blob_len (BlobRef.from_payload p) = (w + 7) / 8 /\ is_Some (blob_at (eb_blob b) (BlobRef.from_payload p))) ->
  const_meaning (eb_blob b) (pushed TBvConst w [] 0 0 p 0) = v ->
  runs 1 0 (push_node TBvConst w [] 0 0 p) b (gives Bv w (fun _ => VBv (Z.to_nat w) v)) E.
Proof.
  intros Hb Hw Hp Hwide Hm. eapply runs_weaken; [apply push_node_runs; [done|]|lia|lia| |done].
  - by split.
  - intros r b' _ _ [[Ht Hval] _]. split; [done|]. intros σ. rewrite Hval. cbn [node_meaning]. by rewrite Hm.
Qed.

Lemma Ok_inj {E A} (a a' : A) : (Ok a : outcome E A) = Ok a' -> a = a'.
Proof. by intros [=]. Qed.

Lemma const_width_ok w c : total (validate_bv_width_value w c) /\
  (forall e, validate_bv_width_value w c = Err e -> ~ 1 <= w <= MAX_BV_WIDTH).
Proof.
  split; [apply total_width_value|]. intros e He Hw. apply (validate_width_value_ok w c tt) in Hw. congruence.
Qed.

(** A wide constant: its bytes go to the blob. *)
Lemma push_wide_runs b w bytes E : built b -> 64 < w <= MAX_BV_WIDTH -> Forall is_byte bytes -> zlen bytes = (w + 7) / 8 ->
  runs 1 ((w + 7) / 8) (r ← push_blob (wire_mask_unused_high_bits bytes w); push_node TBvConst w [] 0 0 (BlobRef.to_payload r)) b
    (gives Bv w (fun _ => VBv (Z.to_nat w) (wrap (Z.to_nat w) (bval bytes)))) E.
Proof.
  intros Hb Hw Hby Hl. destruct (masked_bytes w bytes ltac:(lia) Hl Hby) as (M1 & M2 & M3).
  replace 1 with (0 + 1) at 1 by lia. rewrite <- (Z.add_0_r ((w + 7) / 8)). rewrite <- M2.
  eapply runs_bind; [done|done|by apply push_blob_runs|]. intros r b' Hb' Hg (Hr & Hat & _).
  destruct (payload_round_trip r Hr) as [Er Hp].
  assert (blob_len r = (w + 7) / 8) as Elen.
  { pose proof Hr as [Ho Hlr]. unfold is_u32 in Ho, Hlr. unfold blob_at in Hat. destruct (Z.leb_spec (blob_offset r + blob_len r) (zlen (eb_blob b'))); [|done].
    injection Hat as Hat. rewrite <- M2, <- Hat. unfold zlen, subslice in *. rewrite length_take, length_drop. lia. }
  apply push_const_runs; [done|lia|done| |].
  - intros _. rewrite Er. split; [done|]. by eexists.
  - unfold const_meaning. cbn [node_width pushed]. rewrite (proj2 (Z.leb_gt _ _)) by lia.
    unfold RawNode.blob_ref. cbn [payload pushed]. rewrite Er, Hat, M3. apply wrap_wrap.
Qed.

Lemma bv_const_runs b value w : built b -> is_u64 value -> is_u32 w ->
  runs 1 ((w + 7) / 8) (bv_const value w) b
    (fun r b' => 1 <= w <= MAX_BV_WIDTH /\ gives Bv w (fun _ => VBv (Z.to_nat w) (wrap (Z.to_nat w) value)) r b')
    (~ 1 <= w <= MAX_BV_WIDTH).
Proof.
  intros Hb Hv Hwu. unfold is_u32, is_u64 in *. assert (0 <= (w + 7) / 8) as Hc by (apply Z.div_pos; lia).
  unfold bv_const. destruct (const_width_ok w "BV constant width") as [Ht He].
  apply runs_on; [done|done|done|done|intros e E; left; by eapply He|]. intros u Hw%validate_width_value_ok.
  destruct (Z.leb_spec w 64) as [Hs|Hs].
  - destruct (mask_u64_wrap value w Hv ltac:(lia)) as [Em|]; [|lia].
    eapply runs_weaken; [eapply (push_const_runs b w _ (wrap (Z.to_nat w) value)); [done|done| | |]|lia|lia|by intros r b' _ _ Hg|done].
    + rewrite Em. pose proof (wrap_bound (Z.to_nat w) value) as Hr. rewrite Z2Nat.id in Hr by lia.
      pose proof (Z.pow_le_mono_r 2 w 64 ltac:(lia) ltac:(lia)). unfold is_u64. lia.
    + lia.
    + unfold const_meaning. cbn [node_width pushed payload]. rewrite (proj2 (Z.leb_le _ _)) by done. rewrite Em. apply wrap_wrap.
  - apply runs_on; [done|done|done| |intros e E; exfalso|].
    { pose proof (total_width_value w "scalar width"). unfold wire_bytes_for_width. totals. }
    { pose proof (proj2 (wire_bytes_ok w _) (conj Hw eq_refl)). congruence. }
    intros len [_ ->]%wire_bytes_ok.
    assert (9 <= (w + 7) / 8) as H9 by (apply Z.div_le_lower_bound; lia).
    unfold overwrite_prefix. rewrite zlen_le_bytes. unfold zlen at 1. rewrite length_replicate, Z2Nat.id by lia.
    rewrite (proj2 (Z.leb_le _ _)) by lia.
    rewrite (proj1 (to_le_bytes_shape 8 value)), drop_replicate. apply runs_on; [done|done|done|done|done|].
    intros bytes E%Ok_inj. subst bytes.
    eapply runs_weaken; [apply push_wide_runs; [done|lia| |]|lia|lia| |by intros HE; exact HE].
    + apply Forall_app. split; [apply to_le_bytes_shape|by apply Forall_replicate].
    + rewrite zlen_app, zlen_le_bytes. unfold zlen. rewrite length_replicate. lia.
    + intros r b' _ _ Hg. split; [done|]. rewrite bval_app_zeros, bval_le_bytes in Hg by done. exact Hg.
Qed.

Lemma bv_const_wide_runs b bytes w : built b -> Forall is_byte bytes -> is_u32 w ->
  runs 1 ((w + 7) / 8) (bv_const_wide bytes w) b
    (fun r b' => (1 <= w <= MAX_BV_WIDTH /\ zlen bytes = (w + 7) / 8) /\
      gives Bv w (fun _ => VBv (Z.to_nat w) (wrap (Z.to_nat w) (bval bytes))) r b')
    (~ (1 <= w <= MAX_BV_WIDTH /\ zlen bytes = (w + 7) / 8)).
Proof.
  intros Hb Hby Hwu. unfold is_u32 in *. assert (0 <= (w + 7) / 8) as Hc by (apply Z.div_pos; lia).
  unfold bv_const_wide. destruct (const_width_ok w "wide BV constant width") as [Ht He].
  apply runs_on; [done|done|done|done|intros e E; left; intros [Hw _]; by apply (He e)|]. intros u Hw%validate_width_value_ok.
  apply runs_on; [done|done|done| |intros e E; exfalso|].
  { pose proof (total_width_value w "scalar width"). unfold wire_bytes_for_width. totals. }
  { pose proof (proj2 (wire_bytes_ok w _) (conj Hw eq_refl)). congruence. }
  intros len [_ ->]%wire_bytes_ok. apply runs_on; [done|done|done|totals| |].
  { intros e E. left. intros [_ Hl]. by rewrite Hl, Z.eqb_refl in E. }
  intros u' Hl%refuse_ok%negb_false_iff%Z.eqb_eq. cbv zeta.
  destruct (masked_bytes w bytes ltac:(lia) Hl Hby) as (M1 & M2 & M3).
  destruct (Z.leb_spec w 64) as [Hs|Hs].
  - assert ((w + 7) / 8 <= 8) as H8 by (pose proof (Z.div_lt_upper_bound (w + 7) 8 9 ltac:(lia) ltac:(lia)); lia).
    set (m := wire_mask_unused_high_bits bytes w) in *.
    unfold overwrite_prefix. rewrite M2. change (zlen (replicate 8 0)) with 8. rewrite (proj2 (Z.leb_le _ _)) by done.
    apply runs_on; [done|done|done|done|done|]. intros arr E%Ok_inj. subst arr.
    assert (bval (m ++ drop (length m) (replicate 8 0)) = wrap (Z.to_nat w) (bval bytes)) as Ev.
    { by rewrite drop_replicate, bval_app_zeros, M3. }
    rewrite Ev. eapply runs_weaken; [apply bv_const_runs; [done| |done]|lia|lia| |by intros H [? _]].
    + pose proof (wrap_bound (Z.to_nat w) (bval bytes)) as Hr. rewrite Z2Nat.id in Hr by lia.
      pose proof (Z.pow_le_mono_r 2 w 64 ltac:(lia) ltac:(lia)). unfold is_u64. lia.
    + intros r b' _ _ [_ Hg]. split; [done|]. by rewrite wrap_wrap in Hg.
  - eapply runs_weaken; [apply push_wide_runs; [done|lia|done|done]|lia|lia| |by intros HE; exact HE].
    intros r b' _ _ Hg. done.
Qed.

Lemma bool_const_runs b t E : built b -> t = TBoolTrue \/ t = TBoolFalse ->
  runs 1 0 (push_node t 0 [] 0 0 0) b (gives Bool 0 (fun _ => VBool (bool_decide (t = TBoolTrue)))) E.
Proof. intros Hb [-> | ->]; by apply push_op. Qed.

(** ** Variables *)

Lemma runs_assoc {A B C} n c (m : BM A) (f : A -> BM B) (g : B -> BM C) b Q E :
  runs n c ((m ≫= f) ≫= g) b Q E -> runs n c (m ≫= fun a => f a ≫= g) b Q E.
Proof. unfold runs. by rewrite bind_assoc. Qed.

Lemma built_with_symbols b bvv bov sy : built b ->
  (forall name m, eb_symbols b !! name = Some m -> sy !! name = Some m) ->
  (forall name w r, bvv !! (name, w) = Some r -> var_ref b TBvVar name w r) ->
  (forall name r, bov !! name = Some r -> var_ref b TBoolVar name 0 r) -> built (with_symbols bvv bov sy b).
Proof.
  intros Hb Hs Hv Ho. pose proof Hb as []. split; try done. intros i n info name Hi Hinfo Hvar Hname. by eapply Hs, bt_declared.
Qed.

(** The name is declared with another signature. *)
Definition declared_otherwise (b : ExprBuilder) (name : string) (m : NodeMeta) : Prop :=
  exists m', eb_symbols b !! name = Some m' /\ m' <> m.

Lemma expect_symbol_runs b name m : built b ->
  runs 0 0 (expect_symbol_signature name m) b (fun _ b' => eb_symbols b' !! name = Some m /\
    eb_bv_vars b' = eb_bv_vars b /\ eb_bool_vars b' = eb_bool_vars b) (declared_otherwise b name m).
Proof.
  intros Hb. unfold runs, expect_symbol_signature. destruct (eb_symbols b !! name) as [m'|] eqn:E.
  - split; [done|]. split; [by apply grown_refl|]. destruct (decide (m' = m)) as [->|Hne].
    + by rewrite bool_decide_true.
    + rewrite bool_decide_false by done. left. by exists m'.
  - split; [|split; [apply grown_symbols|]].
    + apply built_with_symbols; [done| |apply Hb|apply Hb]. intros name' m' H.
      by rewrite lookup_insert_ne by congruence.
    + simpl. by rewrite lookup_insert_eq.
Qed.

Lemma blob_name_pushed blob r name : blob_at blob r = Some (as_bytes name) -> utf8_valid (as_bytes name) = true ->
  blob_name blob r = Some name.
Proof. intros H Hu. unfold blob_name. rewrite H. simpl. unfold from_utf8. by rewrite Hu, string_round_trip. Qed.

Lemma push_var_runs b t name w E : built b -> t = TBvVar \/ t = TBoolVar -> width_ok (Tag.result_sort t) w ->
  utf8_valid (as_bytes name) = true -> eb_symbols b !! name = Some (mkNodeMeta (Tag.result_sort t) w) ->
  runs 1 (zlen (as_bytes name)) (r ← push_blob (as_bytes name); push_node t w [] 0 0 (BlobRef.to_payload r)) b
    (fun r b' => var_ref b' t name w r /\ eb_symbols b' = eb_symbols b /\ eb_bv_vars b' = eb_bv_vars b /\
      eb_bool_vars b' = eb_bool_vars b) E.
Proof.
  intros Hb Ht Hw Hu Hs. replace 1 with (0 + 1) by lia. rewrite <- (Z.add_0_r (zlen _)).
  eapply runs_bind; [done|done|by apply push_blob_runs, as_bytes_bytes|].
  intros r b' Hb' Hg (Hr & Hat & E1 & E2 & E3). destruct (payload_round_trip r Hr) as [Er Hp].
  pose proof (blob_name_pushed _ _ _ Hat Hu) as Hn.
  eapply runs_weaken; [apply push_node_runs; [done|]|lia|lia| |done].
  - split; try done.
    + by destruct Ht as [-> | ->].
    + intros _. exists name. rewrite Er. split; [done|]. congruence.
    + by destruct Ht as [-> | ->].
    + by destruct Ht as [-> | ->].
  - intros r' b'' _ _ ((Hty & _) & (n & Hi & Htag & Hbr) & F1 & F2 & F3 & F4). split_and!; [|congruence..].
    split; [done|]. exists n. split; [done|]. split; [done|]. by rewrite F1, Hbr, Er.
Qed.

Lemma var_ref_gives b t name w r : built b -> var_ref b t name w r ->
  (t = TBvVar -> gives Bv w (fun σ => VBv (Z.to_nat w) (wrap (Z.to_nat w) (v_bv σ name w))) r b) /\
  (t = TBoolVar -> gives Bool w (fun σ => VBool (v_bool σ name)) r b).
Proof.
  intros Hb [Ht (n & Hi & Htag & Hn)].
  assert (node_width n = w) as Hw.
  { destruct Ht as (_ & _ & info & Hm & _ & <-). destruct (dag_info _ _ _ _ (bt_dag b Hb) _ _ Hi) as (t' & _ & Hm').
    rewrite Hm in Hm'. by injection Hm' as ->. }
  pose proof (fun σ => wire_denote_lookup _ _ _ _ (bt_nodes b Hb) (bt_dag b Hb) σ _ n t Hi Htag) as Hval. cbv zeta in Hval.
  split; intros ->; (split; [done|]); intros σ; unfold values; rewrite Hval; cbn [node_meaning]; unfold symbol; by rewrite Hn, ?Hw.
Qed.

Lemma bv_var_runs b name w : built b -> is_u32 w -> utf8_valid (as_bytes name) = true ->
  runs 1 (zlen (as_bytes name)) (bv_var name w) b
    (fun r b' => 1 <= w <= MAX_BV_WIDTH /\ gives Bv w (fun σ => VBv (Z.to_nat w) (wrap (Z.to_nat w) (v_bv σ name w))) r b')
    (~ 1 <= w <= MAX_BV_WIDTH \/ declared_otherwise b name (mkNodeMeta Bv w)).
Proof.
  intros Hb Hwu Hu. pose proof (zlen_nonneg (as_bytes name)). unfold bv_var.
  destruct (const_width_ok w "BV variable width") as [Ht He].
  apply runs_on; [done|done|done|done|intros e E; left; left; by eapply He|]. intros u Hw%validate_width_value_ok.
  rewrite <- (Z.add_0_l 1), <- (Z.add_0_l (zlen _)). eapply runs_bind; [done|done| |].
  { eapply runs_weaken; [by apply expect_symbol_runs|done|done| |by right]. by intros a b' _ _ HQ. }
  intros u' b1 Hb1 _ (Hs & Ev & Eo). apply runs_on; [done|done|done|done|done|]. intros found [= <-].
  destruct (eb_bv_vars b1 !! (name, w)) as [r|] eqn:Ef.
  { apply runs_ret; [done|done|done|]. split; [done|].
    by apply (proj1 (var_ref_gives b1 TBvVar name w r Hb1 (bt_bv_vars b1 Hb1 name w r Ef))). }
  apply runs_assoc. rewrite <- (Z.add_0_r 1), <- (Z.add_0_r (zlen _)). eapply runs_bind; [done|done| |].
  { apply (push_var_runs b1 TBvVar name w); [done|by left|done|done|done]. }
  intros r b2 Hb2 Hg2 (Hr & _ & Fv & Fo). unfold runs. rewrite set_run. simpl.
  assert (built (with_symbols (<[(name, w):=r]> (eb_bv_vars b2)) (eb_bool_vars b2) (eb_symbols b2) b2)) as Hb3.
  { apply built_with_symbols; [done|done| |apply Hb2]. intros name' w' r'.
    rewrite lookup_insert_Some. intros [[[= <- <-] <-]|[_ H']]; [done|by apply (bt_bv_vars b2 Hb2)]. }
  split; [done|]. split; [apply grown_symbols|]. split; [done|].
  by apply (proj1 (var_ref_gives _ TBvVar name w r Hb3 Hr)).
Qed.

Lemma bool_var_runs b name : built b -> utf8_valid (as_bytes name) = true ->
  runs 1 (zlen (as_bytes name)) (bool_var name) b
    (fun r b' => gives Bool 0 (fun σ => VBool (v_bool σ name)) r b') (declared_otherwise b name (mkNodeMeta Bool 0)).
Proof.
  intros Hb Hu. pose proof (zlen_nonneg (as_bytes name)). unfold bool_var.
  rewrite <- (Z.add_0_l 1), <- (Z.add_0_l (zlen _)). eapply runs_bind; [done|done|by apply expect_symbol_runs|].
  intros u' b1 Hb1 _ (Hs & Ev & Eo). apply runs_on; [done|done|done|done|done|]. intros found [= <-].
  destruct (eb_bool_vars b1 !! name) as [r|] eqn:Ef.
  { apply runs_ret; [done|done|done|].
    by apply (proj2 (var_ref_gives b1 TBoolVar name 0 r Hb1 (bt_bool_vars b1 Hb1 name r Ef))). }
  apply runs_assoc. rewrite <- (Z.add_0_r 1), <- (Z.add_0_r (zlen _)). eapply runs_bind; [done|done| |].
  { apply (push_var_runs b1 TBoolVar name 0); [done|by right|done|done|done]. }
  intros r b2 Hb2 Hg2 (Hr & _ & Fv & Fo). unfold runs. rewrite set_run. simpl.
  assert (built (with_symbols (eb_bv_vars b2) (<[name:=r]> (eb_bool_vars b2)) (eb_symbols b2) b2)) as Hb3.
  { apply built_with_symbols; [done|done|apply Hb2|]. intros name' r'.
    rewrite lookup_insert_Some. intros [[<- <-]|[_ H']]; [done|by apply (bt_bool_vars b2 Hb2)]. }
  split; [done|]. split; [apply grown_symbols|].
  by apply (proj2 (var_ref_gives _ TBoolVar name 0 r Hb3 Hr)).
Qed.

(** ** Derived operations and assertions of the client's builder

    Operations made of others: comparisons turned around, Boolean equality and choice,
    rotations, and the pairwise assertions of [assert_mutex]. *)

#[local] Open Scope Z_scope.
Import ExprBuilder.

(** ** Operands by their meaning *)

Abbreviation bv_node w m := (gives Bv w (fun σ => VBv (Z.to_nat w) (m σ))).
Abbreviation bool_node p := (gives Bool 0 (fun σ => VBool (p σ))).

Section operands.
Context (b : ExprBuilder) (Hb : built b).

Lemma typed_node r so w : typed_ref b r so w -> exists n t, eb_nodes b !! Z.to_nat (NodeRef.index r) = Some n /\
  Tag.try_from (tag n) = Some t /\ Tag.result_sort t = so /\ node_width n = w.
Proof.
  intros (_ & _ & info & Hi & <- & <-). destruct (dag_node _ _ _ _ (bt_dag b Hb) _ info Hi) as (n & Hn & Ht & -> & ->).
  by exists n, (info_tag info).
Qed.

Lemma typed_bv_node r w : typed_ref b r Bv w -> bv_node w (fun σ => bv_of b σ r) r b.
Proof.
  intros Ht. split; [done|]. intros σ. destruct (typed_node r Bv w Ht) as (n & t & Hn & Htag & Hs & <-).
  unfold bv_of, sem_bv. unfold values. rewrite (wire_denote_lookup _ _ _ _ (bt_nodes b Hb) (bt_dag b Hb) σ _ n t Hn Htag).
  by destruct t.
Qed.

Lemma typed_bool_node r : typed_ref b r Bool 0 -> bool_node (fun σ => bool_of b σ r) r b.
Proof.
  intros Ht. split; [done|]. intros σ. destruct (typed_node r Bool 0 Ht) as (n & t & Hn & Htag & Hs & _).
  unfold bool_of, sem_bool. unfold values. rewrite (wire_denote_lookup _ _ _ _ (bt_nodes b Hb) (bt_dag b Hb) σ _ n t Hn Htag).
  by destruct t.
Qed.

(** A bit-vector node's value is in range. *)
Lemma bv_node_range w m r σ : bv_node w m r b -> in_range w (m σ).
Proof.
  intros Hg. pose proof (gives_bv w m r b σ Hg) as <-. destruct Hg as [(_ & _ & info & Hi & Hs & <-) _].
  by apply (denote_range _ _ _ _ (bt_nodes b Hb) (bt_dag b Hb)).
Qed.

Context (E : Prop).

Lemma not_node p x : bool_node p x b -> runs 1 0 (bool_not x) b (bool_node (fun σ => negb (p σ))) E.
Proof.
  intros Hx. pose proof (proj1 Hx) as Ht. pose proof Ht as [Hu _].
  eapply runs_weaken; [by apply bool_not_runs|done|done| |by intros []]. intros r b' _ _ [_ Hg].
  eapply gives_ext; [|exact Hg]. intros σ. simpl. by rewrite (gives_bool p x b σ Hx).
Qed.

Lemma connective_node t op p q x y : connective_of t = Some op -> bool_node p x b -> bool_node q y b ->
  runs 1 0 (bool_binary t x y) b (bool_node (fun σ => bool_meaning op (p σ) (q σ))) E.
Proof.
  intros Ht Hx Hy. pose proof (proj1 (proj1 Hx)). pose proof (proj1 (proj1 Hy)).
  eapply runs_weaken; [by apply (bool_binary_runs b Hb x y); [..|exact Ht]|done|done| |].
  - intros r b' _ _ [_ Hg]. eapply gives_ext; [|exact Hg]. intros σ. simpl.
    by rewrite (gives_bool p x b σ Hx), (gives_bool q y b σ Hy).
  - intros []. split; [apply Hx|apply Hy].
Qed.

Lemma binary_node t op w m k x y : binary_of t = Some op -> bv_node w m x b -> bv_node w k y b ->
  runs 1 0 (bv_binary t x y) b (bv_node w (fun σ => binary_meaning op (Z.to_nat w) (m σ) (k σ))) E.
Proof.
  intros Ht Hx Hy. pose proof (proj1 (proj1 Hx)). pose proof (proj1 (proj1 Hy)).
  eapply runs_weaken; [by apply (bv_binary_runs b Hb x y); [..|exact Ht]|done|done| |].
  - intros r b' _ _ (w' & [Hx' _] & Hg). rewrite (typed_width_unique b x w w' (proj1 Hx) Hx') in Hg.
    eapply gives_ext; [|exact Hg]. intros σ. simpl. by rewrite (gives_bv w m x b σ Hx), (gives_bv w k y b σ Hy).
  - intros []. exists w. split; [apply Hx|apply Hy].
Qed.

Lemma const_node value w : is_u64 value -> 1 <= w <= MAX_BV_WIDTH -> value < w ->
  runs 1 ((w + 7) / 8) (bv_const value w) b (bv_node w (fun _ => value)) E.
Proof.
  intros Hv Hw Hlt. unfold is_u64 in Hv. eapply runs_weaken; [apply bv_const_runs; [done..|]|done|done| |by intros []].
  { unfold is_u32. unfold MAX_BV_WIDTH in Hw. lia. }
  intros r b' _ _ [_ Hg]. eapply gives_ext; [|exact Hg]. intros σ. simpl. f_equal. apply wrap_small.
  rewrite Z2Nat.id by lia. pose proof (Z.pow_gt_lin_r 2 w ltac:(lia) ltac:(lia)). lia.
Qed.
End operands.

(** ** Comparisons *)

Lemma bv_ne_runs b x y : built b -> is_u32 x -> is_u32 y ->
  runs 2 0 (bv_ne x y) b (fun r b' => (exists w, typed_ref b x Bv w /\ typed_ref b y Bv w) /\
    bool_node (fun σ => negb (bv_of b σ x =? bv_of b σ y)) r b') (~ exists w, typed_ref b x Bv w /\ typed_ref b y Bv w).
Proof.
  intros Hb Hx Hy. unfold bv_ne. replace 2 with (1 + 1) by lia. rewrite <- (Z.add_0_r 0).
  eapply runs_bind; [done|done|by apply (bv_comparison_runs b Hb x y Hx Hy TBvEq CEq)|].
  intros r b' Hb' Hg (w & Ht & Hr).
  eapply runs_weaken; [by apply (not_node b' Hb' _ (fun σ => bv_of b σ x =? bv_of b σ y))|done|done| |by intros HE; exact HE].
  intros r' b'' _ _ H. split; [by exists w|done].
Qed.

(** ** Boolean operations *)

(** Facts about nodes of [b] hold in [b']. *)
Ltac carry Hg := repeat match goal with
  | H : gives ?so ?w ?m ?r ?b, Hb : built ?b, Hb' : built ?b' |- _ =>
      lazymatch type of Hg with grown _ _ b b' => apply (gives_grown _ _ so w m r b b' Hb Hb' Hg) in H end
  end.

Lemma bool_eq_node b p q x y E : built b -> bool_node p x b -> bool_node q y b ->
  runs 5 0 (bool_eq x y) b (bool_node (fun σ => eqb (p σ) (q σ))) E.
Proof.
  intros Hb Hx Hy. pose proof (proj1 (proj1 Hx)) as Hux. pose proof (proj1 (proj1 Hy)) as Huy. unfold bool_eq.
  apply runs_on; [done|done|done|apply total_expect_bool| |].
  { intros e He. rewrite (proj2 (expect_bool_ok b Hb x tt Hux) (proj1 Hx)) in He. done. }
  intros _ _. apply runs_on; [done|done|done|apply total_expect_bool| |].
  { intros e He. rewrite (proj2 (expect_bool_ok b Hb y tt Huy) (proj1 Hy)) in He. done. }
  intros _ _. replace 5 with (1 + (1 + (1 + (1 + 1)))) by lia.
  apply (runs_bind 1 0 _ 0 _ _ _ (bool_node (fun σ => negb (q σ)))); [done|done|by apply not_node|].
  intros ny b1 Hb1 Hg1 Hny. carry Hg1.
  apply (runs_bind 1 0 _ 0 _ _ _ (bool_node (fun σ => p σ || negb (q σ)))); [done|done| |].
  { by apply (connective_node b1 Hb1 _ TBoolOr CBoolOr p (fun σ => negb (q σ))). }
  intros l b2 Hb2 Hg2 Hl. carry Hg2.
  apply (runs_bind 1 0 _ 0 _ _ _ (bool_node (fun σ => negb (p σ)))); [done|done|by apply not_node|].
  intros nx b3 Hb3 Hg3 Hnx. carry Hg3.
  apply (runs_bind 1 0 _ 0 _ _ _ (bool_node (fun σ => negb (p σ) || q σ))); [done|done| |].
  { by apply (connective_node b3 Hb3 _ TBoolOr CBoolOr (fun σ => negb (p σ)) q). }
  intros r b4 Hb4 Hg4 Hr. carry Hg4.
  eapply runs_weaken; [by apply (connective_node b4 Hb4 E TBoolAnd CBoolAnd _ _ l r eq_refl Hl Hr)|done|done| |done].
  intros a b5 _ _ Ha. eapply gives_ext; [|exact Ha]. intros σ. simpl. by destruct (p σ), (q σ).
Qed.

(** Operands that are not Bool nodes are refused. *)
Lemma bool_eq_runs b x y : built b -> is_u32 x -> is_u32 y ->
  runs 5 0 (bool_eq x y) b (fun r b' => (typed_ref b x Bool 0 /\ typed_ref b y Bool 0) /\
    bool_node (fun σ => eqb (bool_of b σ x) (bool_of b σ y)) r b') (~ (typed_ref b x Bool 0 /\ typed_ref b y Bool 0)).
Proof.
  intros Hb Hx Hy. destruct (expect_bool b x) as [u|e|] eqn:Ex; [|unfold bool_eq, runs; rewrite (on_err _ _ _ _ Ex)|].
  2:{ split; [done|]. split; [by apply grown_refl|]. left. intros [H _]. apply (expect_bool_ok b Hb x tt Hx) in H. congruence. }
  2:{ by destruct (total_expect_bool b x). }
  destruct (expect_bool b y) as [u'|e|] eqn:Ey; [|unfold bool_eq, runs; rewrite (on_run _ _ _ _ Ex), (on_err _ _ _ _ Ey)|].
  2:{ split; [done|]. split; [by apply grown_refl|]. left. intros [_ H]. apply (expect_bool_ok b Hb y tt Hy) in H. congruence. }
  2:{ by destruct (total_expect_bool b y). }
  apply (expect_bool_ok b Hb x u Hx) in Ex. apply (expect_bool_ok b Hb y u' Hy) in Ey.
  eapply runs_weaken; [apply bool_eq_node; [done|by apply typed_bool_node..]|done|done| |by intros HE; exact HE].
  intros r b' _ _ H. done.
Qed.

Lemma bool_xor_runs b x y : built b -> is_u32 x -> is_u32 y ->
  runs 6 0 (bool_xor x y) b (fun r b' => (typed_ref b x Bool 0 /\ typed_ref b y Bool 0) /\
    bool_node (fun σ => xorb (bool_of b σ x) (bool_of b σ y)) r b') (~ (typed_ref b x Bool 0 /\ typed_ref b y Bool 0)).
Proof.
  intros Hb Hx Hy. unfold bool_xor. replace 6 with (5 + 1) by lia. rewrite <- (Z.add_0_r 0).
  eapply runs_bind; [done|done|by apply bool_eq_runs|]. intros e b' Hb' Hg [Ht He].
  eapply runs_weaken; [by apply (not_node b' Hb' _ _ e He)|done|done| |by intros HE; exact HE].
  intros r b'' _ _ H. split; [done|]. eapply gives_ext; [|exact H]. intros σ. simpl.
  by destruct (bool_of b σ x), (bool_of b σ y).
Qed.

Lemma bool_ite_runs b c x y : built b -> is_u32 c -> is_u32 x -> is_u32 y ->
  runs 4 0 (bool_ite c x y) b (fun r b' => (typed_ref b c Bool 0 /\ typed_ref b x Bool 0 /\ typed_ref b y Bool 0) /\
    bool_node (fun σ => if bool_of b σ c then bool_of b σ x else bool_of b σ y) r b')
    (~ (typed_ref b c Bool 0 /\ typed_ref b x Bool 0 /\ typed_ref b y Bool 0)).
Proof.
  intros Hb Hc Hx Hy. unfold bool_ite.
  apply runs_on; [done|done|done|apply total_expect_bool| |].
  { intros e He. left. intros (H & _). apply (expect_bool_ok b Hb c tt Hc) in H. congruence. }
  intros u0 Tc%(expect_bool_ok b Hb c u0 Hc). apply runs_on; [done|done|done|apply total_expect_bool| |].
  { intros e He. left. intros (_ & H & _). apply (expect_bool_ok b Hb x tt Hx) in H. congruence. }
  intros u1 Tx%(expect_bool_ok b Hb x u1 Hx). apply runs_on; [done|done|done|apply total_expect_bool| |].
  { intros e He. left. intros (_ & _ & H). apply (expect_bool_ok b Hb y tt Hy) in H. congruence. }
  intros u2 Ty%(expect_bool_ok b Hb y u2 Hy).
  assert (typed_ref b c Bool 0 /\ typed_ref b x Bool 0 /\ typed_ref b y Bool 0) as HT by done.
  pose proof (typed_bool_node b Hb c Tc) as Nc. pose proof (typed_bool_node b Hb x Tx) as Nx.
  pose proof (typed_bool_node b Hb y Ty) as Ny. clear Tc Tx Ty.
  set (p := fun σ => bool_of b σ c) in *. set (q := fun σ => bool_of b σ x) in *. set (s := fun σ => bool_of b σ y) in *.
  replace 4 with (1 + (1 + (1 + 1))) by lia.
  apply (runs_bind 1 0 _ 0 _ _ _ (bool_node (fun σ => p σ && q σ))); [done|done| |].
  { by apply (connective_node b Hb _ TBoolAnd CBoolAnd p q). }
  intros ct b1 Hb1 Hg1 Hct. change (gives Bool 0 (fun σ => VBool (p σ)) c b) in Nc. carry Hg1.
  apply (runs_bind 1 0 _ 0 _ _ _ (bool_node (fun σ => negb (p σ)))); [done|done|by apply not_node|].
  intros nc b2 Hb2 Hg2 Hnc. carry Hg2.
  apply (runs_bind 1 0 _ 0 _ _ _ (bool_node (fun σ => negb (p σ) && s σ))); [done|done| |].
  { by apply (connective_node b2 Hb2 _ TBoolAnd CBoolAnd (fun σ => negb (p σ)) s). }
  intros eb b3 Hb3 Hg3 Heb. carry Hg3.
  eapply runs_weaken; [by apply (connective_node b3 Hb3 _ TBoolOr CBoolOr _ _ ct eb eq_refl Hct Heb)|done|done| |by intros HE; exact HE].
  intros r b4 _ _ H. split; [done|]. eapply gives_ext; [|exact H]. intros σ. simpl.
  fold (p σ) (q σ) (s σ). by destruct (p σ), (q σ), (s σ).
Qed.

(** ** Rotations *)

(** Shifting by [k] and by [w - k] and joining is rotating. *)
Lemma rotl_shifts w k x : 0 < k < w -> in_range w x ->
  Z.lor (bvshl (Z.to_nat w) x k) (bvlshr (Z.to_nat w) x (w - k)) = bvrotl (Z.to_nat w) (Z.to_nat k) x.
Proof.
  intros Hk Hx. rewrite bvrotl_eq_lor by done. unfold bvshl, bvlshr. rewrite !Z2Nat.id by lia.
  rewrite !(proj2 (Z.ltb_lt _ _)) by lia. rewrite Nat.mod_small by lia. do 2 f_equal; [f_equal|]; lia.
Qed.

Lemma rotr_shifts w k x : 0 < k < w -> in_range w x ->
  Z.lor (bvlshr (Z.to_nat w) x k) (bvshl (Z.to_nat w) x (w - k)) = bvrotr (Z.to_nat w) (Z.to_nat k) x.
Proof.
  intros Hk Hx. unfold bvrotr. rewrite Nat.mod_small by lia.
  replace (Z.to_nat w - Z.to_nat k)%nat with (Z.to_nat (w - k)) by lia.
  rewrite <- rotl_shifts by (done || lia). rewrite Z.lor_comm. by replace (w - (w - k)) with k by lia.
Qed.

(** The rotation of both directions: two constants, two shifts, and the join. *)
Lemma rotate_nodes b w k m x t1 op1 t2 op2 E : built b -> bv_node w m x b -> 0 < k < w -> 1 <= w <= MAX_BV_WIDTH ->
  binary_of t1 = Some op1 -> binary_of t2 = Some op2 ->
  runs 5 (2 * ((w + 7) / 8)) (
    first ← bv_const k w;
    second ← bv_const (w - k) w;
    a ← bv_binary t1 x first;
    c ← bv_binary t2 x second;
    bv_or a c) b
  (bv_node w (fun σ => Z.lor (binary_meaning op1 (Z.to_nat w) (m σ) k) (binary_meaning op2 (Z.to_nat w) (m σ) (w - k)))) E.
Proof.
  intros Hb Hx Hk Hw H1 H2. assert (0 <= (w + 7) / 8) as Hc by (apply Z.div_pos; lia).
  assert (is_u64 k /\ is_u64 (w - k)) as [Hk1 Hk2] by (unfold is_u64, MAX_BV_WIDTH in *; lia).
  replace 5 with (1 + (1 + (1 + (1 + 1)))) by lia. replace (2 * ((w + 7) / 8)) with ((w + 7) / 8 + ((w + 7) / 8 + (0 + (0 + 0)))) by lia.
  eapply runs_bind; [lia|lia|by apply (const_node b Hb _ k w); [..|lia]|]. intros c1 b1 Hb1 Hg1 Hc1. carry Hg1.
  eapply runs_bind; [lia|lia|by apply (const_node b1 Hb1 _ (w - k) w); [..|lia]|]. intros c2 b2 Hb2 Hg2 Hc2. carry Hg2.
  eapply runs_bind; [lia|lia|by apply (binary_node b2 Hb2 _ t1 op1 w m (fun _ => k))|]. intros a b3 Hb3 Hg3 Ha. carry Hg3.
  eapply runs_bind; [lia|lia|by apply (binary_node b3 Hb3 _ t2 op2 w m (fun _ => w - k))|]. intros c b4 Hb4 Hg4 Hc4. carry Hg4.
  by apply (binary_node b4 Hb4 E TBvOr COr).
Qed.

Section rotate.
Context (b : ExprBuilder) (Hb : built b) (x : NodeRef) (k : Z) (Hx : is_u32 x) (Hk : 0 <= k).

Let bytes (w : Z) : Z := 2 * ((w + 7) / 8).

(** The amount is reduced first; a whole number of turns returns the operand. *)
Lemma rotate_reduced (m : Z -> NodeRef -> BM NodeRef) (meaning : nat -> nat -> Z -> Z) :
  (forall w j n E, bv_node w n x b -> 0 < j < w -> 1 <= w <= MAX_BV_WIDTH ->
    runs 5 (bytes w) (m w j) b (bv_node w (fun σ => meaning (Z.to_nat w) (Z.to_nat j) (n σ))) E) ->
  (forall w v, 1 <= w -> in_range w v -> meaning (Z.to_nat w) 0%nat v = v) ->
  runs 5 (bytes MAX_BV_WIDTH)
    (width ← on (fun b => expect_bv b x); amount ← on (fun _ => rem_u64 k width);
     if amount =? 0 then mret x else m width amount) b
    (fun r b' => exists w, typed_ref b x Bv w /\
      bv_node w (fun σ => meaning (Z.to_nat w) (Z.to_nat (k mod w)) (bv_of b σ x)) r b')
    (~ exists w, typed_ref b x Bv w).
Proof.
  intros Hm H0. apply runs_on; [done|done|done|apply total_expect_bv| |].
  { intros e He. left. intros [w Hw]. apply (expect_bv_ok b Hb x w Hx) in Hw. congruence. }
  intros w Hw%(expect_bv_ok b Hb x w Hx). pose proof (typed_bv_width b Hb x w Hw) as Hr.
  assert (rem_u64 k w = Ok (k mod w)) as Er by (unfold rem_u64; by rewrite (proj2 (Z.eqb_neq _ _)) by lia).
  apply runs_on; [done|done|done|by rewrite Er|intros e; by rewrite Er|]. rewrite Er. intros j Ej%Ok_inj. subst j.
  pose proof (typed_bv_node b Hb x w Hw) as Hn. pose proof (Z.mod_pos_bound k w ltac:(lia)) as Hj.
  destruct (Z.eqb_spec (k mod w) 0) as [Ez|Hne].
  - apply runs_ret; [done|done|done|]. exists w. split; [done|]. eapply gives_ext; [|exact Hn]. intros σ.
    cbv beta. rewrite Ez, H0; [done|lia|]. apply (bv_node_range b Hb w _ x σ Hn).
  - eapply runs_weaken; [by apply (Hm w (k mod w) _ (~ exists w, typed_ref b x Bv w) Hn); [lia|]|done| | |by intros HE; exact HE].
    + unfold bytes. apply Z.mul_le_mono_nonneg_l; [done|]. apply Z.div_le_mono; lia.
    + intros r b' _ _ H. by exists w.
Qed.

Lemma bv_rotate_left_runs : runs 5 (bytes MAX_BV_WIDTH) (bv_rotate_left x k) b
  (fun r b' => exists w, typed_ref b x Bv w /\
    bv_node w (fun σ => bvrotl (Z.to_nat w) (Z.to_nat (k mod w)) (bv_of b σ x)) r b') (~ exists w, typed_ref b x Bv w).
Proof.
  apply (rotate_reduced (fun width amount =>
    left_amount ← bv_const amount width; right_amount ← bv_const (width - amount) width;
    left ← bv_shl x left_amount; right ← bv_lshr x right_amount; bv_or left right) bvrotl).
  - intros w j n E Hn Hj Hw. eapply runs_weaken; [by apply (rotate_nodes b w j n x TBvShl CShl TBvLshr CLshr E)|done|done| |done].
    intros r b' _ _ H. eapply gives_ext; [|exact H]. intros σ. simpl. f_equal.
    apply rotl_shifts; [done|]. by apply (bv_node_range b Hb w n x σ).
  - intros w v Hw Hv. apply BuilderStruct.rotl_0; [lia|done].
Qed.

Lemma bv_rotate_right_runs : runs 5 (bytes MAX_BV_WIDTH) (bv_rotate_right x k) b
  (fun r b' => exists w, typed_ref b x Bv w /\
    bv_node w (fun σ => bvrotr (Z.to_nat w) (Z.to_nat (k mod w)) (bv_of b σ x)) r b') (~ exists w, typed_ref b x Bv w).
Proof.
  apply (rotate_reduced (fun width amount =>
    right_amount ← bv_const amount width; left_amount ← bv_const (width - amount) width;
    right ← bv_lshr x right_amount; left ← bv_shl x left_amount; bv_or right left) bvrotr).
  - intros w j n E Hn Hj Hw. eapply runs_weaken; [by apply (rotate_nodes b w j n x TBvLshr CLshr TBvShl CShl E)|done|done| |done].
    intros r b' _ _ H. eapply gives_ext; [|exact H]. intros σ. simpl. f_equal.
    apply rotr_shifts; [done|]. by apply (bv_node_range b Hb w n x σ).
  - intros w v Hw Hv. apply BuilderStruct.rotr_0; [lia|done].
Qed.
End rotate.

(** ** Assertions *)

(** The roots of the builder are these. *)
Definition roots (b : ExprBuilder) : list WireAssertion * list NodeRef * list nat :=
  (eb_assertions b, eb_assumptions b, eb_scopes b).

Definition valid_assertion (b : ExprBuilder) (a : WireAssertion) : Prop :=
  typed_ref b (wa_root a) Bool 0 /\ forall r, wa_name a = Some r -> name_ref_ok b r.

Lemma built_with_roots b l l' s : built b -> Forall (valid_assertion b) l -> Forall (fun r => typed_ref b r Bool 0) l' ->
  built (with_roots l l' s b).
Proof. intros Hb H1 H2. destruct Hb. by split. Qed.

Lemma assert_runs b root : built b -> is_u32 root ->
  runs 0 0 (assert root) b (fun _ b' => typed_ref b root Bool 0 /\
    b' = with_roots (eb_assertions b ++ [mkWireAssertion root None]) (eb_assumptions b) (eb_scopes b) b) (~ typed_ref b root Bool 0).
Proof.
  intros Hb Hr. unfold assert. apply runs_on; [done|done|done|apply total_expect_bool| |].
  { intros e He. left. intros H. apply (expect_bool_ok b Hb root tt Hr) in H. congruence. }
  intros u Ht%(expect_bool_ok b Hb root u Hr). unfold runs, set. simpl. split; [|split; [apply grown_roots|done]].
  apply built_with_roots; [done| |apply Hb]. apply Forall_app. split; [apply Hb|]. by constructor.
Qed.

Lemma assume_runs b root : built b -> is_u32 root ->
  runs 0 0 (assume root) b (fun _ b' => typed_ref b root Bool 0 /\
    b' = with_roots (eb_assertions b) (eb_assumptions b ++ [root]) (eb_scopes b) b) (~ typed_ref b root Bool 0).
Proof.
  intros Hb Hr. unfold assume. apply runs_on; [done|done|done|apply total_expect_bool| |].
  { intros e He. left. intros H. apply (expect_bool_ok b Hb root tt Hr) in H. congruence. }
  intros u Ht%(expect_bool_ok b Hb root u Hr). unfold runs, set. simpl. split; [|split; [apply grown_roots|done]].
  apply built_with_roots; [done|apply Hb|]. apply Forall_app. split; [apply Hb|]. by constructor.
Qed.

Lemma assert_named_runs b name root : built b -> is_u32 root -> utf8_valid (as_bytes name) = true ->
  runs 0 (zlen (as_bytes name)) (assert_named name root) b (fun _ b' => typed_ref b root Bool 0 /\ exists r,
    eb_assertions b' = eb_assertions b ++ [mkWireAssertion root (Some r)] /\ blob_name (eb_blob b') r = Some name /\
    eb_assumptions b' = eb_assumptions b /\ eb_scopes b' = eb_scopes b) (~ typed_ref b root Bool 0).
Proof.
  intros Hb Hr Hu. pose proof (zlen_nonneg (as_bytes name)). unfold assert_named.
  apply runs_on; [done|done|done|apply total_expect_bool| |].
  { intros e He. left. intros H'. apply (expect_bool_ok b Hb root tt Hr) in H'. congruence. }
  intros u Ht%(expect_bool_ok b Hb root u Hr).
  assert (forall r b1, push_blob (as_bytes name) b = (Ok r, b1) -> roots b1 = roots b) as Hroots.
  { intros r b1. unfold push_blob, mbind, BM_bind, on, set. repeat case_match; try done; simplify_eq. by intros [= <- <-]. }
  pose proof (push_blob_runs (as_bytes name) b (~ typed_ref b root Bool 0) Hb (as_bytes_bytes name)) as Hp.
  unfold runs, mbind, BM_bind in *. destruct (push_blob (as_bytes name) b) as [[r|e|] b1] eqn:Ep; [|done..].
  destruct Hp as (Hb1 & Hg1 & Hv & Hat & _). specialize (Hroots r b1 eq_refl). unfold roots in Hroots. injection Hroots as E1 E2 E3.
  pose proof (blob_name_pushed _ _ _ Hat Hu) as Hn. unfold set. split_and!.
  - apply built_with_roots; [done| |apply Hb1]. apply Forall_app. split; [apply Hb1|]. constructor; [|constructor].
    split; [by eapply typed_ref_grown|]. intros r' [= <-]. split; [done|by eexists].
  - rewrite <- (Z.add_0_r 0), <- (Z.add_0_r (zlen _)). eapply grown_trans; [exact Hg1|apply grown_roots].
  - done.
  - exists r. simpl. rewrite E1, E2, E3. done.
Qed.

(** [push] and [pop]: the assertions of the last scope go. *)
Lemma push_runs b : built b -> runs 0 0 push b (fun _ b' =>
  b' = with_roots (eb_assertions b) (eb_assumptions b) (eb_scopes b ++ [length (eb_assertions b)]) b) False.
Proof.
  intros Hb. unfold runs, push, set. split; [|split; [apply grown_roots|done]]. apply built_with_roots; apply Hb || done.
Qed.

Lemma pop_runs b : built b -> runs 0 0 pop b (fun _ b' => exists scopes len, eb_scopes b = scopes ++ [len] /\
  b' = with_roots (take len (eb_assertions b)) (eb_assumptions b) scopes b) (eb_scopes b = []).
Proof.
  intros Hb. unfold runs, pop. destruct (eb_scopes b) as [|len scopes _] eqn:E using rev_ind; simpl.
  - split; [done|]. split; [by apply grown_refl|by left].
  - rewrite last_snoc. split; [|split; [apply grown_roots|]].
    + apply built_with_roots; [done|by apply Forall_take, Hb|apply Hb].
    + exists scopes, len. by rewrite removelast_last.
Qed.

(** ** Operations leave the roots alone *)

Definition quiet {A} (m : BM A) : Prop := forall b, roots (m b).2 = roots b.

Lemma quiet_ret {A} (a : A) : quiet (mret a).
Proof. done. Qed.
Lemma quiet_on {A} (f : ExprBuilder -> wres A) : quiet (on f).
Proof. done. Qed.
Lemma quiet_bind {A B} (m : BM A) (k : A -> BM B) : quiet m -> (forall a, quiet (k a)) -> quiet (m ≫= k).
Proof.
  intros Hm Hk b. specialize (Hm b). unfold mbind, BM_bind. destruct (m b) as [[a|e|] b']; simpl in Hm; [|done..].
  rewrite <- Hm. apply Hk.
Qed.

Create HintDb quiet.
#[export] Hint Resolve quiet_ret quiet_on : quiet.

Ltac quietly := repeat first
  [ progress intros | apply quiet_bind | solve [auto with quiet] | (intros ?; reflexivity) | case_match ].

Lemma quiet_push_blob bytes : quiet (push_blob bytes).
Proof. unfold push_blob. quietly. Qed.
Lemma quiet_push_node t w cs hi lo p : quiet (push_node t w cs hi lo p).
Proof. unfold push_node. quietly. Qed.
#[export] Hint Resolve quiet_push_blob quiet_push_node : quiet.

Lemma quiet_signature name m : quiet (expect_symbol_signature name m).
Proof. intros b. unfold expect_symbol_signature. by case_match. Qed.
#[export] Hint Resolve quiet_signature : quiet.

Lemma quiet_unary t x : quiet (bv_unary t x).
Proof. unfold bv_unary. quietly. Qed.
Lemma quiet_binary t x y : quiet (bv_binary t x y).
Proof. unfold bv_binary. quietly. Qed.
Lemma quiet_comparison t x y : quiet (bv_comparison t x y).
Proof. unfold bv_comparison. quietly. Qed.
Lemma quiet_connective t x y : quiet (bool_binary t x y).
Proof. unfold bool_binary. quietly. Qed.
Lemma quiet_not x : quiet (bool_not x).
Proof. unfold bool_not. quietly. Qed.
Lemma quiet_const v w : quiet (bv_const v w).
Proof. unfold bv_const. quietly. Qed.
#[export] Hint Resolve quiet_unary quiet_binary quiet_comparison quiet_connective quiet_not quiet_const : quiet.

Lemma quiet_leaves : (forall name w, quiet (bv_var name w)) /\ (forall name, quiet (bool_var name)) /\
  (forall bytes w, quiet (bv_const_wide bytes w)) /\ quiet bool_true /\ quiet bool_false.
Proof. unfold bv_var, bool_var, bv_const_wide, bool_true, bool_false. split_and!; quietly. Qed.

Lemma quiet_shapes : (forall x hi lo, quiet (bv_extract x hi lo)) /\ (forall x y, quiet (bv_concat x y)) /\
  (forall t x k, quiet (bv_extend t x k)) /\ (forall c x y, quiet (bv_ite c x y)) /\
  (forall s v d, quiet (bv_select s v d)) /\ (forall x, quiet (neg_ovf x)).
Proof. unfold bv_extract, bv_concat, bv_extend, bv_ite, bv_select, neg_ovf. split_and!; quietly. Qed.

Lemma quiet_derived : (forall x y, quiet (bv_ne x y)) /\ (forall x y, quiet (bool_eq x y)) /\
  (forall x y, quiet (bool_xor x y)) /\ (forall c x y, quiet (bool_ite c x y)) /\
  (forall x k, quiet (bv_rotate_left x k)) /\ (forall x k, quiet (bv_rotate_right x k)).
Proof.
  unfold bv_ne, bool_xor, bool_eq, bool_ite, bv_rotate_left, bv_rotate_right, bv_eq, bool_or, bool_and, bv_shl, bv_lshr, bv_or.
  split_and!; quietly.
Qed.

(** A result of a quiet method is found with the same roots. *)
Lemma runs_quiet {A} n c (m : BM A) b Q E : quiet m -> runs n c m b Q E ->
  runs n c m b (fun a b' => Q a b' /\ roots b' = roots b) E.
Proof. intros Hq. specialize (Hq b). unfold runs. destruct (m b) as [[a|e|] b']; by intros (? & ? & ?). Qed.

(** ** At most one *)

Section mutex.
Context (p : NodeRef -> Valuation -> bool).

(** The unnamed assertions added are all true exactly when [Q] holds. *)
Definition asserted (Q : Valuation -> Prop) (b b' : ExprBuilder) : Prop := exists rs,
  roots b' = (eb_assertions b ++ ((fun r => mkWireAssertion r None) <$> rs), eb_assumptions b, eb_scopes b) /\
  Forall (fun r => typed_ref b' r Bool 0) rs /\
  forall σ, Forall (fun r => bool_of b' σ r = true) rs <-> Q σ.

Lemma asserted_trans n c b b' b'' Q R : built b' -> built b'' -> grown n c b' b'' ->
  asserted Q b b' -> asserted R b' b'' -> asserted (fun σ => Q σ /\ R σ) b b''.
Proof.
  intros Hb' Hb'' Hg (rs & E1 & T1 & H1) (rs' & E2 & T2 & H2). unfold roots in E1, E2. injection E1 as A1 A2 A3. injection E2 as B1 B2 B3.
  exists (rs ++ rs'). split_and!.
  - unfold roots. rewrite B1, A1, B2, A2, B3, A3, fmap_app, <- app_assoc. done.
  - apply Forall_app. split; [|done]. eapply Forall_impl; [exact T1|]. intros r Hr. by eapply typed_ref_grown.
  - intros σ. rewrite Forall_app, H2, <- H1. apply and_iff_compat_r. rewrite !Forall_forall. rewrite Forall_forall in T1.
    split; intros H r Hr; specialize (H r Hr); [rewrite <- (bool_of_grown n c b' b'' σ r 0)|
      rewrite (bool_of_grown n c b' b'' σ r 0)]; eauto.
Qed.

Lemma asserted_none b Q : (forall σ, Q σ) -> asserted Q b b.
Proof. intros HQ. exists []. unfold roots. rewrite fmap_nil, app_nil_r. split_and!; [done|by constructor|]. intros σ. split; [done|by constructor]. Qed.

Lemma mutex_with_runs x rest b E : built b -> bool_node (p x) x b -> Forall (fun s => bool_node (p s) s b) rest ->
  runs (2 * zlen rest) 0 (mutex_with x rest) b
    (fun _ b' => asserted (fun σ => Forall (fun s => ~ (p x σ = true /\ p s σ = true)) rest) b b') E.
Proof.
  intros Hb Hx Hr. revert b Hb Hx Hr. induction rest as [|y rest IH]; intros b Hb Hx Hr; simpl.
  - apply runs_ret; [done|done|done|]. by apply asserted_none.
  - apply Forall_cons in Hr as [Hy Hr]. rewrite zlen_cons. pose proof (zlen_nonneg rest).
    replace (2 * (1 + zlen rest)) with (1 + (1 + (0 + 2 * zlen rest))) by lia.
    eapply (runs_bind 1 0 _ 0); [lia|lia| |].
    { apply runs_quiet; [apply quiet_connective|]. by apply (connective_node b Hb _ TBoolAnd CBoolAnd (p x) (p y) x y). }
    intros both b1 Hb1 Hg1 [Hboth R1]. carry Hg1.
    eapply (runs_bind 1 0 _ 0); [lia|lia|apply runs_quiet; [apply quiet_not|by apply (not_node b1 Hb1 E (fun σ => p x σ && p y σ))]|].
    intros nb b2 Hb2 Hg2 [Hnb R2]. carry Hg2.
    pose proof (grown_trans _ _ _ _ _ _ _ Hg1 Hg2) as Hg.
    assert (Forall (fun s => bool_node (p s) s b2) rest) as Hr2.
    { eapply Forall_impl; [exact Hr|]. intros s Hs. by eapply (gives_grown _ _ _ _ _ _ b b2 Hb Hb2 Hg). }
    eapply (runs_bind 0 0 _ 0); [lia|lia| |].
    { eapply runs_weaken; [by apply assert_runs; [|apply Hnb]|done|done|by intros a b' _ _ HQ|]. intros []. apply Hnb. }
    intros u b3 Hb3 Hg3 [_ E3].
    assert (roots b2 = roots b) as R by congruence. unfold roots in R. injection R as A1 A2 A3.
    assert (asserted (fun σ => ~ (p x σ = true /\ p y σ = true)) b b3) as H1.
    { exists [nb]. split_and!.
      - unfold roots. rewrite E3. simpl. by rewrite A1, A2, A3.
      - constructor; [|constructor]. eapply typed_ref_grown; [exact Hg3|apply Hnb].
      - intros σ. rewrite Forall_singleton.
        rewrite (bool_of_grown _ _ b2 b3 σ nb 0 Hb2 Hb3 Hg3 (proj1 Hnb)), (gives_bool _ nb b2 σ Hnb). simpl.
        destruct (p x σ), (p y σ); simpl; naive_solver. }
    carry Hg3.
    eapply runs_weaken; [apply IH; [done|done|]|lia|lia| |done].
    + eapply Forall_impl; [exact Hr2|]. intros s Hs. by eapply (gives_grown _ _ _ _ _ _ b2 b3 Hb2 Hb3 Hg3).
    + intros [] b4 Hb4 Hg4 H4. pose proof (asserted_trans _ _ b b3 b4 _ _ Hb3 Hb4 Hg4 H1 H4) as (rs & ? & ? & Hiff).
      exists rs. split_and!; [done..|]. intros σ. rewrite Hiff, Forall_cons. done.
Qed.

(** No two of the selectors are true together. *)
Definition at_most_one (v : NodeRef -> bool) : list NodeRef -> Prop :=
  ForallOrdPairs (fun s t => ~ (v s = true /\ v t = true)).

Lemma mutex_pairs_runs selectors b E : built b -> Forall (fun s => bool_node (p s) s b) selectors ->
  runs (zlen selectors * (zlen selectors - 1)) 0 (mutex_pairs selectors) b
    (fun _ b' => asserted (fun σ => at_most_one (fun s => p s σ) selectors) b b') E.
Proof.
  intros Hb Hs. revert b Hb Hs. induction selectors as [|x rest IH]; intros b Hb Hs; simpl.
  - apply runs_ret; [done|done|done|]. apply asserted_none. intros σ. constructor.
  - apply Forall_cons in Hs as [Hx Hr]. rewrite zlen_cons. pose proof (zlen_nonneg rest).
    replace ((1 + zlen rest) * (1 + zlen rest - 1)) with (2 * zlen rest + zlen rest * (zlen rest - 1)) by lia.
    rewrite <- (Z.add_0_r 0). eapply runs_bind; [nia|lia|by apply mutex_with_runs|].
    intros u b1 Hb1 Hg1 H1. eapply runs_weaken; [apply IH; [done|]|lia|lia| |done].
    + eapply Forall_impl; [exact Hr|]. intros s Hs. by eapply (gives_grown _ _ _ _ _ _ b b1 Hb Hb1 Hg1).
    + intros [] b2 Hb2 Hg2 H2. pose proof (asserted_trans _ _ b b1 b2 _ _ Hb1 Hb2 Hg2 H1 H2) as (rs & ? & ? & Hiff).
      exists rs. split_and!; [done..|]. intros σ. rewrite Hiff. split.
      * intros [Ha Hb']. by constructor.
      * intros Hc. by inversion Hc.
Qed.
End mutex.

Lemma assert_mutex_runs selectors b : built b -> Forall is_u32 selectors ->
  runs (zlen selectors * (zlen selectors - 1)) 0 (assert_mutex selectors) b
    (fun _ b' => Forall (fun s => typed_ref b s Bool 0) selectors /\
       asserted (fun σ => at_most_one (bool_of b σ) selectors) b b') (~ Forall (fun s => typed_ref b s Bool 0) selectors).
Proof.
  intros Hb Hu. unfold assert_mutex.
  assert (0 <= zlen selectors * (zlen selectors - 1)) as Hn.
  { pose proof (zlen_nonneg selectors). destruct (Z.eq_dec (zlen selectors) 0) as [->|]; [done|]. nia. }
  assert (forall u, check_each (expect_bool b) selectors = Ok u <-> Forall (fun s => typed_ref b s Bool 0) selectors) as Hc.
  { intros []. split.
    - intros H%check_each_ok. rewrite Forall_forall in H, Hu |- *. intros s Hs. apply (expect_bool_ok b Hb s tt); auto.
    - intros H. apply check_each_all. rewrite Forall_forall in H, Hu |- *. intros s Hs. apply (expect_bool_ok b Hb s tt); auto. }
  apply runs_on; [done|done|done|apply total_check_each; intros; apply total_expect_bool| |].
  { intros e He. left. intros H. apply (Hc tt) in H. congruence. }
  intros u Ht%Hc. eapply runs_weaken; [apply (mutex_pairs_runs (fun s σ => bool_of b σ s)); [done|]|done|done| |by intros HE; exact HE].
  - eapply Forall_impl; [exact Ht|]. intros s Hs. by apply typed_bool_node.
  - intros [] b' _ _ H. done.
Qed.
