(* ===== verification/WireCompact.v ===== *)
(** * Compaction keeps what the roots mean

    [compact] marks what the roots reach, renumbers the marked nodes in order and
    copies them.  The copy is a well-sorted DAG whose nodes have the values of the
    originals. *)
From S2P Require Import Prelude Bits Smt SmtFacts Bytes BytesFacts Ir Sem Evaluator EvaluatorFacts.
From S2P Require Import WireBase WireBaseFacts WireExpr WireExprFacts WireDag WireRequest WireRequestFacts.
From S2P Require Import WireResponseFacts WireMeaning WireBuilder WireBuilderFacts WireBuilderOps.

#[local] Open Scope Z_scope.
Import ExprBuilder.

(** ** Children *)

Lemma child_bv_any kids meta i n k w : child_bv kids meta i n k w -> exists so info, child_info kids meta i n k so info.
Proof. intros (info & H & _). by exists Bv, info. Qed.
Lemma child_bool_any kids meta i n k : child_bool kids meta i n k -> exists so info, child_info kids meta i n k so info.
Proof. intros (info & H). by exists Bool, info. Qed.

(** Every reference below the arity is to an earlier node. *)
Lemma children_all kids meta i n t k : node_valid n -> arity_ok t (arity n) -> children_ok kids meta i n t ->
  0 <= k < arity n -> exists so info, child_info kids meta i n k so info.
Proof.
  intros Hn Ha Hc Hk. unfold arity_ok in Ha. unfold children_ok in Hc.
  destruct t; cbn [Tag.fixed_arity] in Ha; try lia;
    repeat match goal with
    | H : exists _, _ |- _ => destruct H as [? H]
    | H : _ /\ _ |- _ => destruct H
    end;
    try (assert (k = 0 \/ k = 1 \/ k = 2) as [-> | [-> | ->]] by lia;
         first [lia|eapply child_bv_any; eassumption|eapply child_bool_any; eassumption]).
  pose proof (select_arity (arity n) ltac:(done) ltac:(done)) as Hs.
  match goal with H : aux_hi n = _ |- _ => rewrite <- H in Hs end.
  destruct (Z.eq_dec k (aux_hi n * 2)) as [->|Hne]; [by eapply child_bv_any|].
  pose proof (Z.div_mod k 2 ltac:(done)) as Hd. pose proof (Z.mod_pos_bound k 2 ltac:(done)) as Hm.
  match goal with H : forall p, _ -> child_bool _ _ _ _ _ /\ _ |- _ =>
    destruct (H (k / 2) ltac:(lia)) as [He Ho] end.
  destruct (Z.eq_dec (k mod 2) 0) as [E|E].
  - replace k with (k / 2 * 2) by lia. by eapply child_bool_any.
  - replace k with (k / 2 * 2 + 1) by lia. by eapply child_bv_any.
Qed.

Lemma at_index_ok {A} (l : list A) i x : l !! Z.to_nat i = Some x -> at_index l i = Ok x.
Proof. unfold at_index. by intros ->. Qed.

Section compact.
Context (b : ExprBuilder) (Hb : built b).

(** The child at an offset of node [i], as [compact] reads it. *)
Lemma built_child i n k : eb_nodes b !! i = Some n -> 0 <= k < arity n -> exists r so w,
  eb_children b !! Z.to_nat (children n + k) = Some r /\ typed_ref b r so w /\ NodeRef.index r < Z.of_nat i.
Proof.
  intros Hi Hk. destruct (dag_info _ _ _ _ (bt_dag b Hb) i n Hi) as (t & Ht & Em).
  pose proof (Forall_lookup_1 _ _ _ _ (bt_nodes b Hb) Hi) as Hn.
  destruct (dag_shape _ _ _ _ (bt_dag b Hb) i n _ Hi Em) as (Ha & _).
  destruct (children_all _ _ i n t k Hn Ha (dag_children _ _ _ _ (bt_dag b Hb) i n _ Hi Em) Hk)
    as (so & info & r & Hr & Hs & Hlt & Hm & Hso).
  exists r, so, (info_width info). split; [done|]. split; [|done].
  split; [by apply (Forall_lookup_1 _ _ _ _ (bt_kids b Hb) Hr)|]. split; [done|]. by exists info.
Qed.

Definition child_of (i j : nat) : Prop := exists n k r, eb_nodes b !! i = Some n /\ 0 <= k < arity n /\
  eb_children b !! Z.to_nat (children n + k) = Some r /\ j = Z.to_nat (NodeRef.index r).

(** The loop over a node's children, by an invariant. *)
Lemma each_child_runs {A} (f : NodeRef -> A -> wres A) i n (P : Z -> A -> Prop) (m : nat) k acc :
  eb_nodes b !! i = Some n -> 0 <= k -> k + Z.of_nat m = arity n -> P k acc ->
  (forall k r acc, 0 <= k < arity n -> eb_children b !! Z.to_nat (children n + k) = Some r -> P k acc ->
     exists acc', f r acc = Ok acc' /\ P (k + 1) acc') ->
  exists acc', each_child f b n m k acc = Ok acc' /\ P (arity n) acc'.
Proof.
  intros Hi Hk Hm HP Hf. revert k acc Hk Hm HP. induction m as [|m IH]; intros k acc Hk Hm HP; simpl.
  - exists acc. split; [done|]. by replace (arity n) with k by lia.
  - destruct (built_child i n k Hi) as (r & so & w & Hr & _); [lia|]. rewrite (at_index_ok _ _ r Hr). cbn [mbind res_bind].
    destruct (Hf k r acc ltac:(lia) Hr HP) as (acc' & E & HP'). rewrite E. cbn [mbind res_bind].
    apply IH; [lia|lia|done].
Qed.

(** ** Marking *)

(** [m'] marks more than [m]: nodes in [R], with everything below them. *)
Record marks (R : nat -> Prop) (m m' : list bool) : Prop := {
  mk_length : length m' = length m;
  mk_keeps i : m !! i = Some true -> m' !! i = Some true;
  mk_reached i : m' !! i = Some true -> m !! i = Some true \/ R i;
  mk_closed i j : m' !! i = Some true -> m !! i <> Some true -> child_of i j -> m' !! j = Some true;
}.

Lemma marks_refl R m : marks R m m.
Proof. split; try done. by left. Qed.

Lemma marks_trans R R' m m' m'' : marks R m m' -> marks R' m' m'' -> marks (fun i => R i \/ R' i) m m''.
Proof.
  intros [L1 K1 R1 C1] [L2 K2 R2 C2]. split.
  - congruence.
  - auto.
  - intros i H. destruct (R2 i H) as [H'|?]; [|by right; right]. destruct (R1 i H') as [?|?]; [by left|by right; left].
  - intros i j H Hn Hc. destruct (decide (m' !! i = Some true)) as [E|E]; [by apply K2, (C1 i)|by apply (C2 i)].
Qed.

Lemma marks_weaken (R R' : nat -> Prop) m m' : (forall i, R i -> R' i) -> marks R m m' -> marks R' m m'.
Proof. intros H [L K Re C]. split; try done. intros i Hi. destruct (Re i Hi); auto. Qed.

Lemma mark_ref_runs fuel r so w m : typed_ref b r so w -> length m = length (eb_nodes b) ->
  (Z.to_nat (NodeRef.index r) < fuel)%nat ->
  exists m', mark_ref fuel b r m = Ok m' /\ m' !! Z.to_nat (NodeRef.index r) = Some true /\
    marks (rtc child_of (Z.to_nat (NodeRef.index r))) m m'.
Proof.
  revert r so w m. induction fuel as [|fuel IH]; intros r so w m Ht Hl Hf; [lia|].
  set (i := Z.to_nat (NodeRef.index r)) in *. pose proof Ht as (Hu & _). pose proof (typed_index b r so w Hb Ht) as Hi. fold i in Hi.
  simpl. rewrite (proj2 (meta_for_ok b Hb r (mkNodeMeta so w) Hu) Ht). cbn [mbind res_bind].
  destruct (lookup_lt_is_Some_2 m i) as [live El]; [lia|]. rewrite (at_index_ok m _ live El). cbn [mbind res_bind].
  destruct live; [by exists m; split_and!; [| |apply marks_refl]|].
  destruct (lookup_lt_is_Some_2 (eb_nodes b) i Hi) as [n Hn]. rewrite (at_index_ok _ _ n Hn). cbn [mbind res_bind].
  pose proof (Forall_lookup_1 _ _ _ _ (bt_nodes b Hb) Hn) as Hnv.
  assert (0 <= arity n) as Ha by (destruct Hnv as (_ & H & _); unfold is_u8 in H; lia).
  destruct (each_child_runs (mark_ref fuel b) i n (fun k m' =>
      marks (rtc child_of i) (<[i := true]> m) m' /\
      forall k' x, 0 <= k' < k -> eb_children b !! Z.to_nat (children n + k') = Some x -> m' !! Z.to_nat (NodeRef.index x) = Some true)
    (Z.to_nat (arity n)) 0 (<[i := true]> m)) as (m' & E & Hm' & Hkids); [done|done|lia| | |].
  - split; [apply marks_refl|]. lia.
  - intros k x acc Hk Hx [Hacc Hdone]. destruct (built_child i n k Hn Hk) as (x' & so' & w' & Hx' & Tx & Hlt).
    assert (x' = x) as -> by congruence. pose proof (NodeRef_index_nonneg x).
    destruct (IH x so' w' acc Tx) as (acc' & E & Hmk & Hacc').
    { rewrite (mk_length _ _ _ Hacc), length_insert. lia. }
    { lia. }
    exists acc'. split; [done|]. split.
    + eapply marks_weaken; [|by eapply marks_trans]. intros j [?|Hj]; [done|]. eapply rtc_l; [|exact Hj]. by exists n, k, x.
    + intros k' y Hk' Hy. destruct (Z.eq_dec k' k) as [->|Hne]; [by simplify_eq|].
      apply (mk_keeps _ _ _ Hacc'), (Hdone k' y); [lia|done].
  - exists m'. split; [done|]. assert (m' !! i = Some true) as Hmi.
    { apply (mk_keeps _ _ _ Hm'). apply list_lookup_insert_eq. lia. }
    split; [done|]. split.
    + rewrite (mk_length _ _ _ Hm'). by rewrite length_insert.
    + intros j Hj. apply (mk_keeps _ _ _ Hm'). destruct (decide (j = i)) as [->|Hne]; [congruence|by rewrite list_lookup_insert_ne].
    + intros j Hj. destruct (mk_reached _ _ _ Hm' j Hj) as [H|H]; [|by right].
      destruct (decide (j = i)) as [->|Hne]; [by right|left; by rewrite list_lookup_insert_ne in H].
    + intros j j' Hj Hn' Hc. destruct (decide (j = i)) as [->|Hne].
      * destruct Hc as (n' & k & x & Hn'' & Hk & Hx & ->). assert (n' = n) as -> by congruence. by apply (Hkids k x).
      * apply (mk_closed _ _ _ Hm' j); [done| |done]. by rewrite list_lookup_insert_ne.
Qed.

(** What the roots mark: the nodes they reach. *)
Record live_set (roots : list NodeRef) (marked : list bool) : Prop := {
  ls_length : length marked = length (eb_nodes b);
  ls_roots r : r ∈ roots -> marked !! Z.to_nat (NodeRef.index r) = Some true;
  ls_closed i j : marked !! i = Some true -> child_of i j -> marked !! j = Some true;
  ls_reached i : marked !! i = Some true -> exists r, r ∈ roots /\ rtc child_of (Z.to_nat (NodeRef.index r)) i;
}.

Lemma mark_roots_runs roots m : Forall (fun r => exists so w, typed_ref b r so w) roots -> length m = length (eb_nodes b) ->
  exists m', mark_roots b roots m = Ok m' /\ (forall r, r ∈ roots -> m' !! Z.to_nat (NodeRef.index r) = Some true) /\
    marks (fun i => exists r, r ∈ roots /\ rtc child_of (Z.to_nat (NodeRef.index r)) i) m m'.
Proof.
  intros Hr. revert m. induction Hr as [|r roots (so & w & Ht) _ IH]; intros m Hl; simpl.
  - exists m. split; [done|]. split; [by intros r ?%elem_of_nil|apply marks_refl].
  - destruct (mark_ref_runs (S (Z.to_nat (NodeRef.index r))) r so w m Ht Hl ltac:(lia)) as (m1 & E & Hm & Hmk).
    change (mark_ref (S (Z.to_nat (NodeRef.index r))) b r m) with (mark_ref (S (Z.to_nat (NodeRef.index r))) b r m) in E.
    cbn [mark_ref] in E |- *. rewrite E. cbn [mbind res_bind].
    destruct (IH m1) as (m2 & E2 & Hr2 & Hmk2); [by rewrite (mk_length _ _ _ Hmk)|]. exists m2. split; [done|]. split.
    + intros x [->|Hx]%elem_of_cons; [by apply (mk_keeps _ _ _ Hmk2)|by apply Hr2].
    + eapply marks_weaken; [|by eapply marks_trans]. intros i [H|(x & Hx & H)].
      * exists r. split; [by apply elem_of_cons; left|done].
      * exists x. split; [by apply elem_of_cons; right|done].
Qed.

Lemma mark_all roots : Forall (fun r => exists so w, typed_ref b r so w) roots ->
  exists m, mark_roots b roots (replicate (length (eb_nodes b)) false) = Ok m /\ live_set roots m.
Proof.
  intros Hr. destruct (mark_roots_runs roots (replicate (length (eb_nodes b)) false) Hr) as (m & E & Hm & [L K R C]);
    [apply length_replicate|]. exists m. split; [done|].
  assert (forall i, replicate (length (eb_nodes b)) false !! i <> Some true) as Hno by (by intros i [? _]%lookup_replicate).
  split; [by rewrite L, length_replicate|done| |].
  - intros i j Hi Hc. by apply (C i).
  - intros i Hi. destruct (R i Hi) as [H|H]; [by apply Hno in H|done].
Qed.
End compact.

(** ** Renumbering *)

(** The number of marked nodes before [i]: the new index of node [i]. *)
Definition rank (m : list bool) (i : nat) : nat := length (filter (fun x => x = true) (take i m)).

Lemma rank_S (m : list bool) i (x : bool) : m !! i = Some x -> rank m (S i) = if x then S (rank m i) else rank m i.
Proof.
  intros H. unfold rank. rewrite (take_S_r _ _ _ H), filter_app, length_app. destruct x; simpl; lia.
Qed.

Lemma rank_step m i : (rank m (S i) <= S (rank m i) /\ rank m i <= rank m (S i))%nat.
Proof.
  destruct (m !! i) as [x|] eqn:E; [rewrite (rank_S _ _ _ E); destruct x; lia|].
  apply lookup_ge_None in E. unfold rank. rewrite !take_ge by lia. lia.
Qed.

Lemma rank_le m i : (rank m i <= i)%nat.
Proof. induction i as [|i IH]; [done|]. pose proof (rank_step m i). lia. Qed.

Lemma rank_mono m i j : (i <= j)%nat -> (rank m i <= rank m j)%nat.
Proof. induction 1 as [|j _ IH]; [done|]. pose proof (rank_step m j). lia. Qed.

(** Marked nodes have different ranks, in order. *)
Lemma rank_lt (m : list bool) i j : (i < j)%nat -> m !! i = Some true -> (rank m i < rank m j)%nat.
Proof. intros Hij Hi. pose proof (rank_mono m (S i) j Hij). rewrite (rank_S _ _ _ Hi) in H. lia. Qed.

Lemma rank_inj (m : list bool) i j : m !! i = Some true -> m !! j = Some true -> rank m i = rank m j -> i = j.
Proof.
  intros Hi Hj E. destruct (Nat.lt_total i j) as [H|[H|H]]; [|done|].
  - pose proof (rank_lt m i j H Hi). lia.
  - pose proof (rank_lt m j i H Hj). lia.
Qed.

Lemma as_u32_index b i n : built b -> eb_nodes b !! i = Some n -> as_u32 (Z.of_nat i) = Z.of_nat i /\ Z.of_nat i <= NodeRef.INDEX_MASK.
Proof.
  intros Hb Hi. apply lookup_lt_Some in Hi. pose proof (bt_count b Hb). unfold zlen, MAX_NODE_COUNT, as_u32, NodeRef.INDEX_MASK in *.
  split; [apply Z.mod_small|]; lia.
Qed.

Section renumber.
Context (b : ExprBuilder) (Hb : built b) (marked : list bool) (Hm : length marked = length (eb_nodes b)).

(** The sort of a node. *)
Definition node_sort (i : nat) : Sort := match infos b !! i with Some info => info_sort info | None => Bv end.

(** The new and the old reference of a node. *)
Definition new_ref (i : nat) : NodeRef := raw_ref (node_sort i) (rank marked i).
Definition old_ref (i : nat) : NodeRef := raw_ref (node_sort i) i.

(** What the renumbering of the nodes before [i] records. *)
Record renumbered (i : nat) (r : Renumbering) : Prop := {
  rn_length : length (old_to_new r) = length (eb_nodes b);
  rn_old j : (j < length (eb_nodes b))%nat -> old_to_new r !! j =
    Some (if bool_decide (j < i)%nat then match marked !! j with Some true => Some (new_ref j) | _ => None end else None);
  rn_new x y : new_to_old r !! x = Some y <-> exists j, (j < i)%nat /\ marked !! j = Some true /\ x = new_ref j /\ y = old_ref j;
  rn_next : next_index r = Z.of_nat (rank marked i);
}.

Lemma ref_bounds i n : eb_nodes b !! i = Some n -> Z.of_nat (rank marked i) <= NodeRef.INDEX_MASK /\ Z.of_nat i <= NodeRef.INDEX_MASK.
Proof. intros Hi. pose proof (as_u32_index b i n Hb Hi) as [_ H]. pose proof (rank_le marked i). lia. Qed.

Lemma new_ref_ok i n : eb_nodes b !! i = Some n ->
  NodeRef.index (new_ref i) = Z.of_nat (rank marked i) /\ NodeRef.sort (new_ref i) = node_sort i /\ is_u32 (new_ref i).
Proof. intros Hi. apply raw_ref_ok. by apply (ref_bounds i n). Qed.

Lemma new_ref_inj i j : is_Some (eb_nodes b !! i) -> is_Some (eb_nodes b !! j) -> marked !! i = Some true ->
  marked !! j = Some true -> new_ref i = new_ref j -> i = j.
Proof.
  intros [n Hn] [m Hm'] Hi Hj E. apply (rank_inj marked); [done|done|].
  pose proof (new_ref_ok i n Hn) as [H1 _]. pose proof (new_ref_ok j m Hm') as [H2 _]. rewrite E in H1. lia.
Qed.

Lemma renumber_runs i rest r : drop i marked = rest -> (i <= length marked)%nat -> renumbered i r ->
  exists r', renumber b rest (Z.of_nat i) r = Ok r' /\ renumbered (length marked) r'.
Proof.
  revert i r. induction rest as [|x rest IH]; intros i r Hd Hi Hr; simpl.
  - exists r. split; [done|]. assert (i = length marked) as <-; [|done].
    apply (f_equal length) in Hd. rewrite length_drop in Hd. simpl in Hd. lia.
  - assert (marked !! i = Some x) as Hx.
    { pose proof (f_equal (fun l => l !! 0%nat) Hd) as H. simpl in H. by rewrite lookup_drop, Nat.add_0_r in H. }
    pose proof (lookup_lt_Some _ _ _ Hx) as Hlt. destruct (lookup_lt_is_Some_2 (eb_nodes b) i) as [n Hn]; [lia|].
    destruct (dag_info _ _ _ _ (bt_dag b Hb) i n Hn) as (t & _ & Em). pose proof (ref_bounds i n Hn) as [Hb1 Hb2].
    assert (drop (S i) marked = rest) as Hd'.
    { pose proof (drop_S _ _ _ Hx) as H. rewrite Hd in H. by injection H. }
    assert (exists r1, (if x then
        meta ← at_index (eb_meta b) (Z.of_nat i);
        new_ref ← NodeRef.new (meta_sort meta) (next_index r);
        old_ref ← NodeRef.new (meta_sort meta) (as_u32 (Z.of_nat i));
        next ← checked_add_u32 (next_index r) 1 "compacted node index";
        Ok (mkRenumbering (<[Z.to_nat (Z.of_nat i) := Some new_ref]> (old_to_new r)) (<[new_ref := old_ref]> (new_to_old r)) next)
      else Ok r) = Ok r1 /\ renumbered (S i) r1) as (r1 & E1 & Hr1).
    2:{ rewrite E1. cbn [mbind res_bind]. replace (Z.of_nat i + 1) with (Z.of_nat (S i)) by lia. apply IH; [done|lia|done]. }
    destruct Hr as [Hrl Hro Hrn Hnx]. destruct x.
    + rewrite (at_index_ok _ _ (meta_of (mkNodeInfo t (Tag.result_sort t) (node_width n)))).
      2:{ rewrite Nat2Z.id, (bt_meta b Hb), list_lookup_fmap, Em. done. }
      cbn [mbind res_bind meta_of meta_sort info_sort]. assert (Tag.result_sort t = node_sort i) as Es by (unfold node_sort; by rewrite Em).
      rewrite Es, Hnx, noderef_new by done. cbn [mbind res_bind].
      rewrite (proj1 (as_u32_index b i n Hb Hn)), noderef_new by done. cbn [mbind res_bind].
      unfold checked_add_u32. rewrite (proj2 (Z.leb_le _ _)) by (unfold NodeRef.INDEX_MASK, u32_max in *; lia). cbn [mbind res_bind].
      eexists. split; [reflexivity|]. fold (new_ref i) (old_ref i) (raw_ref (node_sort i) (rank marked i)) (raw_ref (node_sort i) i).
      split; simpl.
      * by rewrite length_insert.
      * intros j Hj. rewrite Nat2Z.id. destruct (decide (j = i)) as [->|Hne].
        -- rewrite list_lookup_insert_eq by lia. rewrite bool_decide_true by lia. by rewrite Hx.
        -- rewrite list_lookup_insert_ne, Hro by done. do 2 f_equal.
           destruct (bool_decide_reflect (j < i)%nat), (bool_decide_reflect (j < S i)%nat); (done || lia).
      * intros y z. rewrite lookup_insert_Some. split.
        -- intros [[<- <-]|[Hne H]]; [by exists i; split_and!; [lia|..]|].
           apply Hrn in H as (j & ? & ? & ? & ?). exists j. split_and!; [lia|done..].
        -- intros (j & Hj & Hmj & -> & ->). destruct (decide (j = i)) as [->|Hne]; [by left|]. right.
           split; [|apply Hrn; exists j; split_and!; [lia|done..]].
           intros E. apply Hne. symmetry. by apply new_ref_inj; [exists n|apply lookup_lt_is_Some; lia|..].
      * rewrite (rank_S _ _ _ Hx). lia.
    + exists r. split; [done|]. split; [done| | |].
      * intros j Hj. rewrite Hro by done. do 2 f_equal. destruct (decide (j = i)) as [->|Hne].
        -- rewrite bool_decide_false, bool_decide_true by lia. by rewrite Hx.
        -- destruct (bool_decide_reflect (j < i)%nat), (bool_decide_reflect (j < S i)%nat); (done || lia).
      * intros y z. rewrite Hrn. split; intros (j & Hj & Hmj & ?); exists j; (split; [|done]).
        -- lia.
        -- destruct (decide (j = i)) as [->|Hne]; [congruence|lia].
      * by rewrite Hnx, (rank_S _ _ _ Hx).
Qed.

Lemma renumber_all : exists r, renumber b marked 0 (mkRenumbering (replicate (length (eb_nodes b)) None) ∅ 0) = Ok r /\
  renumbered (length marked) r.
Proof.
  apply (renumber_runs 0%nat marked); [done|lia|]. split; simpl; [by rewrite length_replicate| | |done].
  - intros j Hj. by apply lookup_replicate.
  - intros x y. rewrite lookup_empty. split; [done|]. intros (j & Hj & _). lia.
Qed.
End renumber.

(** ** Copying *)

Section copy_loop.
Context (b : ExprBuilder) (Hb : built b) (marked : list bool) (Hm : length marked = length (eb_nodes b)).
Context (Hclosed : forall i j, marked !! i = Some true -> child_of b i j -> marked !! j = Some true).
Context (o2n : list (option NodeRef)).
Context (Ho2n : forall j, (j < length (eb_nodes b))%nat -> o2n !! j =
  Some (match marked !! j with Some true => Some (new_ref b marked j) | _ => None end)).

Let nref : nat -> NodeRef := new_ref b marked.

(** Node [n'] copies node [n]: its children are the renumbered children of [n]. *)
Definition copy_of (kids' : list Z) (n n' : RawNode) : Prop :=
  same_op n n' /\ is_u32 (children n') /\ (arity n <> 0 -> children n' + arity n <= zlen kids') /\
  forall k r, 0 <= k < arity n -> eb_children b !! Z.to_nat (children n + k) = Some r ->
    kids' !! Z.to_nat (children n' + k) = Some (nref (Z.to_nat (NodeRef.index r))).

(** The copies of the marked nodes before [i]. *)
Record copied (i : nat) (nodes' : list RawNode) (kids' : list Z) : Prop := {
  cp_length : length nodes' = rank marked i;
  cp_kids : Forall is_u32 kids';
  cp_bound : zlen kids' <= zlen (eb_children b);
  cp_later j n : (i <= j)%nat -> eb_nodes b !! j = Some n -> arity n <> 0 -> zlen kids' <= children n;
  cp_node j n : (j < i)%nat -> marked !! j = Some true -> eb_nodes b !! j = Some n ->
    exists n', nodes' !! rank marked j = Some n' /\ copy_of kids' n n';
  cp_from p n' : nodes' !! p = Some n' -> exists j n, (j < i)%nat /\ marked !! j = Some true /\ rank marked j = p /\
    eb_nodes b !! j = Some n /\ same_op n n';
}.

Lemma copy_of_grow kids' l n n' : copy_of kids' n n' -> copy_of (kids' ++ l) n n'.
Proof.
  intros (H1 & H2 & H3 & H4). split_and!; [done|done| |].
  - intros Ha. rewrite zlen_app. pose proof (zlen_nonneg l). specialize (H3 Ha). lia.
  - intros k r Hk Hr. by apply lookup_app_l_Some, H4.
Qed.

(** The children of a marked node, renumbered. *)
Lemma copy_children i n kids' : marked !! i = Some true -> eb_nodes b !! i = Some n -> exists l,
  each_child (new_child o2n) b n (Z.to_nat (arity n)) 0 kids' = Ok (kids' ++ l) /\ zlen l = arity n /\ Forall is_u32 l /\
  forall k r, 0 <= k < arity n -> eb_children b !! Z.to_nat (children n + k) = Some r ->
    l !! Z.to_nat k = Some (nref (Z.to_nat (NodeRef.index r))).
Proof.
  intros Hi Hn. pose proof (Forall_lookup_1 _ _ _ _ (bt_nodes b Hb) Hn) as Hnv.
  assert (0 <= arity n) as Ha by (destruct Hnv as (_ & H & _); unfold is_u8 in H; lia).
  destruct (each_child_runs b Hb (new_child o2n) i n (fun k acc => exists l, acc = kids' ++ l /\ zlen l = k /\ Forall is_u32 l /\
      forall k' r, 0 <= k' < k -> eb_children b !! Z.to_nat (children n + k') = Some r ->
        l !! Z.to_nat k' = Some (nref (Z.to_nat (NodeRef.index r)))) (Z.to_nat (arity n)) 0 kids')
    as (acc' & E & l & -> & Hl); [done|done|lia| | |by exists l].
  - exists []. rewrite app_nil_r. split_and!; [done|done|by constructor|lia].
  - intros k r acc Hk Hr (l & -> & Hl & Hu & Hlook). destruct (built_child b Hb i n k Hn Hk) as (r' & so & w & Hr' & Tr & Hlt).
    assert (r' = r) as -> by congruence. set (j := Z.to_nat (NodeRef.index r)).
    pose proof (typed_index b r so w Hb Tr) as Hj. fold j in Hj.
    assert (marked !! j = Some true) as Hmj by (apply (Hclosed i); [done|by exists n, k, r]).
    destruct (lookup_lt_is_Some_2 (eb_nodes b) j Hj) as [m Hmn].
    unfold new_child. fold j. rewrite (Ho2n j Hj), Hmj. eexists. split; [reflexivity|].
    exists (l ++ [nref j]). rewrite app_assoc. split_and!; [done| | |].
    + rewrite zlen_app, Hl. done.
    + apply Forall_app. split; [done|]. constructor; [|constructor]. by apply (new_ref_ok b Hb marked Hm j m).
    + intros k' y Hk' Hy. destruct (Z.eq_dec k' k) as [->|Hne].
      * assert (y = r) as -> by congruence. rewrite lookup_app_r by (unfold zlen in Hl; lia).
        replace (Z.to_nat k - length l)%nat with 0%nat by (unfold zlen in Hl; lia). done.
      * apply lookup_app_l_Some, Hlook; [lia|done].
Qed.

Lemma copied_step i n nodes' kids' l n' : copied i nodes' kids' -> marked !! i = Some true -> eb_nodes b !! i = Some n ->
  zlen l = arity n -> Forall is_u32 l -> copy_of (kids' ++ l) n n' -> copied (S i) (nodes' ++ [n']) (kids' ++ l).
Proof.
  intros [Hl Hk Hbd Hlt Hnode Hfrom] Hi Hn Hll Hul Hcp. pose proof (rank_S _ _ _ Hi) as Hr.
  assert (arity n <> 0 -> zlen kids' + arity n <= zlen (eb_children b)) as Hend.
  { intros Ha. pose proof (Hlt i n ltac:(lia) Hn Ha). pose proof (dag_range _ _ _ _ (bt_dag b Hb) i n Hn Ha). lia. }
  split.
  - rewrite length_app, Hl, Hr. simpl. lia.
  - by apply Forall_app.
  - rewrite zlen_app. destruct (Z.eq_dec (arity n) 0) as [E|Ha]; [lia|]. specialize (Hend Ha). lia.
  - intros j m Hj Hmj Ha. rewrite zlen_app, Hll. destruct (Z.eq_dec (arity n) 0) as [->|Hne].
    + pose proof (Hlt j m ltac:(lia) Hmj Ha). lia.
    + pose proof (Hlt i n ltac:(lia) Hn Hne). pose proof (bt_order b Hb i j n m ltac:(lia) Hn Hmj Hne Ha). lia.
  - intros j m Hj Hmj Hjn. destruct (decide (j = i)) as [->|Hne].
    + assert (m = n) as -> by congruence. exists n'. split; [|done]. rewrite lookup_app_r, Hl, Nat.sub_diag by lia. done.
    + destruct (Hnode j m ltac:(lia) Hmj Hjn) as (m' & Hm' & Hc). exists m'. split; [by apply lookup_app_l_Some|by apply copy_of_grow].
  - intros p m' Hp. apply lookup_app_Some in Hp as [Hp|[Hge Hp]].
    + destruct (Hfrom p m' Hp) as (j & m & ? & ?). exists j, m. split; [lia|done].
    + apply list_lookup_singleton_Some in Hp as [Ez <-]. exists i, n. split_and!; [lia|done|lia|done|apply Hcp].
Qed.

Lemma copied_skip i nodes' kids' : copied i nodes' kids' -> marked !! i = Some false -> copied (S i) nodes' kids'.
Proof.
  intros [Hl Hk Hbd Hlt Hnode Hfrom] Hi. split.
  - by rewrite (rank_S _ _ _ Hi).
  - done.
  - done.
  - intros j n Hj. apply Hlt. lia.
  - intros j n Hj Hmj. apply Hnode; [|done]. destruct (decide (j = i)) as [->|Hne]; [congruence|lia].
  - intros p n' Hp. destruct (Hfrom p n' Hp) as (j & n & ? & ?). exists j, n. split; [lia|done].
Qed.

Lemma copy_live_runs i rest nodes' kids' : drop i marked = rest -> (i <= length marked)%nat -> copied i nodes' kids' ->
  exists nodes'' kids'', copy_live b o2n rest (Z.of_nat i) nodes' kids' = Ok (nodes'', kids'') /\
    copied (length marked) nodes'' kids''.
Proof.
  revert i nodes' kids'. induction rest as [|x rest IH]; intros i nodes' kids' Hd Hi Hc; cbn [copy_live].
  - exists nodes', kids'. split; [done|]. assert (i = length marked) as <-; [|done].
    apply (f_equal length) in Hd. rewrite length_drop in Hd. simpl in Hd. lia.
  - assert (marked !! i = Some x) as Hx.
    { pose proof (f_equal (fun l => l !! 0%nat) Hd) as H. simpl in H. by rewrite lookup_drop, Nat.add_0_r in H. }
    pose proof (lookup_lt_Some _ _ _ Hx) as Hlt. destruct (lookup_lt_is_Some_2 (eb_nodes b) i) as [n Hn]; [lia|].
    assert (drop (S i) marked = rest) as Hd' by (pose proof (drop_S _ _ _ Hx) as H; rewrite Hd in H; by injection H).
    assert (Z.of_nat i + 1 = Z.of_nat (S i)) as Ei by lia. destruct x.
    2:{ rewrite Ei. apply IH; [done|lia|by apply copied_skip]. }
    pose proof (Forall_lookup_1 _ _ _ _ (bt_nodes b Hb) Hn) as Hnv.
    assert (is_u32 (children n)) as Hcu by apply Hnv. unfold is_u32 in Hcu.
    rewrite (at_index_ok _ _ n) by (by rewrite Nat2Z.id). cbn [mbind res_bind].
    destruct (copy_children i n kids' Hx Hn) as (l & E & Hl & Hul & Hlook). rewrite E. cbn [mbind res_bind].
    set (start := if arity n =? 0 then 0 else zlen kids').
    assert ((if arity n =? 0 then Ok 0 else try_u32 (zlen kids') "compaction") = Ok start /\ is_u32 start) as [Est Hst].
    { unfold start. pose proof (zlen_nonneg kids'). destruct (Z.eqb_spec (arity n) 0) as [Ea|Ea]; [done|].
      pose proof (cp_later _ _ _ Hc i n ltac:(lia) Hn Ea). unfold try_u32.
      rewrite (proj2 (Z.leb_le _ _)) by (unfold u32_max; lia). split; [done|]. unfold is_u32. lia. }
    rewrite Est. cbn [mbind res_bind]. rewrite Ei. apply IH; [done|lia|].
    apply (copied_step i n); [done..|]. split; [by split_and!|]. split; [done|]. cbn [children]. split.
    + intros Ha. rewrite zlen_app, Hl. unfold start. destruct (Z.eqb_spec (arity n) 0); [done|lia].
    + intros k r Hk Hr. unfold start. destruct (Z.eqb_spec (arity n) 0); [lia|].
      pose proof (zlen_nonneg kids'). rewrite lookup_app_r by (unfold zlen; lia). rewrite <- (Hlook k r Hk Hr). f_equal. unfold zlen. lia.
Qed.

Lemma copy_all : exists nodes' kids', copy_live b o2n marked 0 [] [] = Ok (nodes', kids') /\ copied (length marked) nodes' kids'.
Proof.
  apply (copy_live_runs 0%nat marked); [done|lia|]. split; try done.
  - apply zlen_nonneg.
  - intros j n _ Hj _. pose proof (Forall_lookup_1 _ _ _ _ (bt_nodes b Hb) Hj) as Hnv.
    assert (is_u32 (children n)) as Hcu by apply Hnv. unfold is_u32 in Hcu. change (zlen (@nil Z)) with 0. lia.
  - intros j n Hj. lia.
Qed.
End copy_loop.

(** ** The copy is a DAG with the same values *)

Lemma same_symbol_copy blob n m n' m' ni mi : same_op n n' -> same_op m m' -> same_symbol blob n' m' ni mi ->
  same_symbol blob n m ni mi.
Proof.
  intros Hn Hm (H1 & H2 & H3). split_and!; [done|done|].
  by rewrite <- (same_blob_ref _ _ Hn), <- (same_blob_ref _ _ Hm).
Qed.

Section copy_values.
Context (b : ExprBuilder) (Hb : built b) (marked : list bool) (Hm : length marked = length (eb_nodes b)).
Context (Hclosed : forall i j, marked !! i = Some true -> child_of b i j -> marked !! j = Some true).
Context (nodes' : list RawNode) (kids' : list Z) (Hc : copied b marked (length marked) nodes' kids').

Lemma copied_node p n' : nodes' !! p = Some n' -> exists j n, marked !! j = Some true /\ rank marked j = p /\
  eb_nodes b !! j = Some n /\ copy_of b marked kids' n n'.
Proof.
  intros Hp. destruct (cp_from _ _ _ _ _ Hc p n' Hp) as (j & n & Hj & Hmj & Hr & Hn & _).
  destruct (cp_node _ _ _ _ _ Hc j n Hj Hmj Hn) as (n'' & Hn'' & Hcp). rewrite Hr, Hp in Hn''. injection Hn'' as <-.
  by exists j, n.
Qed.

Lemma node_copied j : marked !! j = Some true -> exists n n' info, eb_nodes b !! j = Some n /\ nodes' !! rank marked j = Some n' /\
  copy_of b marked kids' n n' /\ infos b !! j = Some info /\ info_of n' = Some info.
Proof.
  intros Hj. pose proof (lookup_lt_Some _ _ _ Hj) as Hlt. destruct (lookup_lt_is_Some_2 (eb_nodes b) j) as [n Hn]; [lia|].
  destruct (cp_node _ _ _ _ _ Hc j n Hlt Hj Hn) as (n' & Hn' & Hcp).
  destruct (dag_info _ _ _ _ (bt_dag b Hb) j n Hn) as (t & Ht & Hi). eexists n, n', _. split_and!; [done|done|done|done|].
  rewrite (same_info n n') by apply Hcp. unfold info_of. by rewrite Ht.
Qed.

Lemma copied_valid : Forall node_valid nodes'.
Proof.
  apply Forall_lookup. intros p n' Hp. destruct (copied_node p n' Hp) as (j & n & _ & _ & Hn & (Hs & Hu & _)).
  pose proof (Forall_lookup_1 _ _ _ _ (bt_nodes b Hb) Hn) as (V1 & V2 & V3 & V4 & V5 & _ & V7).
  destruct Hs as (E1 & E2 & E3 & E4 & E5 & E6). unfold node_valid. rewrite E1, E2, E3, E4, E5, E6. done.
Qed.

Definition copied_infos : list NodeInfo := omap info_of nodes'.

Lemma copied_infos_ok : mapM info_of nodes' = Some copied_infos.
Proof.
  assert (forall l, Forall (fun n => is_Some (info_of n)) l -> mapM info_of l = Some (omap info_of l)) as H.
  { induction 1 as [|n l [info E] _ IH]; [done|]. simpl. rewrite E. simpl. by rewrite IH. }
  apply H. apply Forall_lookup. intros p n' Hp. destruct (copied_node p n' Hp) as (j & n & Hj & Hr & Hn & Hcp).
  destruct (node_copied j Hj) as (m & m' & info & _ & Hm' & _ & _ & Hi). rewrite Hr, Hp in Hm'. injection Hm' as <-. by exists info.
Qed.

Lemma copied_info j : marked !! j = Some true -> copied_infos !! rank marked j = infos b !! j.
Proof.
  intros Hj. destruct (node_copied j Hj) as (n & n' & info & _ & Hn' & _ & -> & Hi).
  pose proof (proj1 (mapM_Some _ _ _) copied_infos_ok) as Hall. destruct (Forall2_lookup_l _ _ _ _ _ Hall Hn') as (x & Hx & E). congruence.
Qed.

(** A child of a node is a child of the copy. *)
Lemma copied_child j n n' k so info : marked !! j = Some true -> eb_nodes b !! j = Some n ->
  copy_of b marked kids' n n' -> 0 <= k < arity n ->
  child_info (eb_children b) (infos b) j n k so info ->
  child_info kids' copied_infos (rank marked j) n' k so info /\
  arg kids' n' k = rank marked (arg (eb_children b) n k) /\ marked !! arg (eb_children b) n k = Some true.
Proof.
  intros Hj Hn (_ & _ & _ & Hcp) Hk (r & Hr & Hs & Hlt & Hi & Hso). set (i := Z.to_nat (NodeRef.index r)).
  assert (marked !! i = Some true) as Hmi by (apply (Hclosed j); [done|by exists n, k, r]).
  pose proof (NodeRef_index_nonneg r). pose proof (rank_lt marked i j ltac:(lia) Hmi) as Hrk.
  destruct (lookup_lt_is_Some_2 (eb_nodes b) i) as [m Hmn]; [apply lookup_lt_Some in Hmi; lia|].
  destruct (new_ref_ok b Hb marked Hm i m Hmn) as (Ei & Es & _). specialize (Hcp k r Hk Hr). fold i in Hcp.
  unfold arg. rewrite Hr, Hcp, Ei. fold i. rewrite Nat2Z.id. split; [|done].
  exists (new_ref b marked i). split; [done|]. rewrite Ei, Es, Nat2Z.id. split_and!; [|lia| |done].
  - unfold node_sort. fold i in Hi. by rewrite Hi.
  - rewrite copied_info by done. done.
Qed.

Lemma copied_dag : dag_ok nodes' kids' (eb_blob b) copied_infos.
Proof.
  pose proof (proj1 (mapM_Some _ _ _) copied_infos_ok) as Hall. pose proof (bt_dag b Hb) as Hd.
  assert (forall p n' info, nodes' !! p = Some n' -> copied_infos !! p = Some info -> exists j n, marked !! j = Some true /\
    rank marked j = p /\ eb_nodes b !! j = Some n /\ infos b !! j = Some info /\ copy_of b marked kids' n n') as Hinv.
  { intros p n' info Hp Hi. destruct (copied_node p n' Hp) as (j & n & Hj & Hr & Hn & Hcp). exists j, n.
    split_and!; [done|done|done| |done]. rewrite <- (copied_info j Hj), Hr. done. }
  split.
  - apply copied_infos_ok.
  - intros p n' info Hp Hi. destruct (Hinv p n' info Hp Hi) as (j & n & _ & _ & Hn & Hi' & Hcp).
    apply (shape_ok_copy (eb_blob b) (eb_blob b) n n'); [apply blob_within_refl|by apply (Forall_lookup_1 _ _ _ _ (bt_nodes b Hb) Hn)|apply Hcp|].
    by apply (dag_shape _ _ _ _ Hd j).
  - intros p q n' m' ni mi Hp Hq Hni Hmi Hsame. destruct (Hinv p n' ni Hp Hni) as (j & n & _ & _ & Hn & Hi & Hcp).
    destruct (Hinv q m' mi Hq Hmi) as (j' & m & _ & _ & Hm' & Hi' & Hcp'). apply (dag_symbols _ _ _ _ Hd j j' n m); [done..|].
    by apply (same_symbol_copy _ n m n' m'); [apply Hcp|apply Hcp'|].
  - intros p n' Hp Ha. destruct (copied_node p n' Hp) as (j & n & _ & _ & _ & ((_ & Ea & _) & _ & Hrange & _)).
    rewrite Ea in Ha |- *. by apply Hrange.
  - intros p n' info Hp Hi. destruct (Hinv p n' info Hp Hi) as (j & n & Hj & <- & Hn & Hi' & Hcp).
    apply (children_ok_copy (eb_children b) (infos b) j n).
    + by apply (Forall_lookup_1 _ _ _ _ (bt_nodes b Hb) Hn).
    + destruct (dag_shape _ _ _ _ Hd j n info Hn Hi') as (Ha & _). done.
    + by apply (dag_children _ _ _ _ Hd j n).
    + apply Hcp.
    + intros k so ci Hk Hci. exists ci. split; [|done]. by apply (copied_child j n n' k so ci).
Qed.

(** Live nodes keep their values. *)
Lemma copied_value σ j : marked !! j = Some true ->
  wire_denote (eb_blob b) σ kids' nodes' !! rank marked j = values b σ !! j.
Proof.
  induction (lt_wf j) as [j _ IH]. intros Hj. destruct (node_copied j Hj) as (n & n' & info & Hn & Hn' & Hcp & Hi & Hi').
  destruct (dag_info _ _ _ _ (bt_dag b Hb) j n Hn) as (t & Ht & Em).
  assert (Tag.try_from (tag n') = Some t) as Ht' by (destruct Hcp as ((-> & _) & _); done).
  unfold values. rewrite (wire_denote_lookup _ _ _ _ (bt_nodes b Hb) (bt_dag b Hb) σ j n t Hn Ht).
  rewrite (wire_denote_lookup _ _ _ _ copied_valid copied_dag σ _ n' t Hn' Ht'). f_equal.
  pose proof (Forall_lookup_1 _ _ _ _ (bt_nodes b Hb) Hn) as Hnv. pose proof (dag_shape_at _ _ _ _ (bt_dag b Hb) j n t Hn Ht) as Hsh.
  pose proof (dag_children _ _ _ _ (bt_dag b Hb) j n _ Hn Em) as Hch. simpl in Hch.
  rewrite (node_meaning_copy n t (eb_blob b) (eb_blob b) σ n' _ _ _ Hnv (blob_within_refl _) (proj1 Hcp) Hsh).
  apply (node_meaning_children (eb_children b) (infos b) j n t Hnv (proj1 Hsh) Hch).
  - intros k w Hk (ci & Hci & _). destruct (copied_child j n n' k Bv ci Hj Hn Hcp Hk Hci) as (_ & Ea & Hma).
    pose proof (child_arg _ _ _ _ _ _ _ Hci) as [Hlt _]. rewrite Ea. unfold sem_bv, sem_w. by rewrite (IH _ Hlt Hma).
  - intros k Hk (ci & Hci). destruct (copied_child j n n' k Bool ci Hj Hn Hcp Hk Hci) as (_ & Ea & Hma).
    pose proof (child_arg _ _ _ _ _ _ _ Hci) as [Hlt _]. rewrite Ea. unfold sem_bool. by rewrite (IH _ Hlt Hma).
Qed.
End copy_values.

(** ** The whole compaction *)

Record compaction (b : ExprBuilder) (roots : list NodeRef) (marked : list bool) (nodes' : list RawNode) (kids' : list Z)
    (meta' : list NodeInfo) (r : Renumbering) : Prop := {
  cc_live : live_set b roots marked;
  cc_renumbered : renumbered b marked (length marked) r;
  cc_nodes : Forall node_valid nodes' /\ length nodes' = rank marked (length marked);
  cc_kids : Forall is_u32 kids' /\ zlen kids' <= zlen (eb_children b);
  cc_dag : dag_ok nodes' kids' (eb_blob b) meta';
  cc_info j : marked !! j = Some true -> meta' !! rank marked j = infos b !! j;
  cc_value σ j : marked !! j = Some true -> wire_denote (eb_blob b) σ kids' nodes' !! rank marked j = values b σ !! j;
}.

Lemma compact_runs b roots : built b -> Forall (fun r => exists so w, typed_ref b r so w) roots ->
  exists marked nodes' kids' meta' r, compaction b roots marked nodes' kids' meta' r /\
    compact b roots = (bytes ← from_parts nodes' kids' (eb_blob b); Ok (mkCompactedExpression bytes (old_to_new r) (new_to_old r))).
Proof.
  intros Hb Hr. destruct (mark_all b Hb roots Hr) as (marked & E1 & Hlive). pose proof (ls_length _ _ _ Hlive) as Hl.
  destruct (renumber_all b Hb marked Hl) as (r & E2 & Hrn).
  assert (forall j, (j < length (eb_nodes b))%nat -> old_to_new r !! j =
    Some (match marked !! j with Some true => Some (new_ref b marked j) | _ => None end)) as Ho.
  { intros j Hj. rewrite (rn_old _ _ _ _ Hrn j Hj), bool_decide_true by lia. done. }
  destruct (copy_all b Hb marked Hl (ls_closed _ _ _ Hlive) (old_to_new r) Ho) as (nodes' & kids' & E3 & Hc).
  exists marked, nodes', kids', (copied_infos nodes'), r. split.
  - split; try done.
    + split; [by apply (copied_valid b Hb marked nodes' kids')|apply Hc].
    + split; apply Hc.
    + apply (copied_dag b Hb marked Hl (ls_closed _ _ _ Hlive) nodes' kids' Hc).
    + apply (copied_info b Hb marked Hl nodes' kids' Hc).
    + intros σ j. apply (copied_value b Hb marked Hl (ls_closed _ _ _ Hlive) nodes' kids' Hc).
  - unfold compact. rewrite E1. cbn [mbind res_bind]. rewrite E2. cbn [mbind res_bind]. by rewrite E3.
Qed.
