(* ===== verification/WireClientApi.v ===== *)
(** * Everything a client can do with the builder

    The public methods of [ExprBuilder] as calls: [run_node] makes nodes, [run_root]
    changes assertions, assumptions and scopes.  Every call keeps the invariant
    [built], and a node call returns a reference to a node with the SMT-LIB value of
    the operation. *)
From S2P Require Import Prelude Bits Smt SmtFacts Bytes BytesFacts Ir Sem Evaluator EvaluatorFacts.
From S2P Require Import Builder BuilderApi.
From S2P Require Import WireBase WireBaseFacts WireExpr WireExprFacts WireDag WireRequest WireRequestFacts.
From S2P Require Import WireResponseFacts WireMeaning.
From S2P Require Import WireBuilder WireBuilderFacts WireBuilderOps.

#[local] Open Scope Z_scope.
Import ExprBuilder.

(** ** Calls that make a node *)

Inductive NodeCall :=
  | NBvVar (name : string) (width : Z) | NBoolVar (name : string)
  | NBvConst (value width : Z) | NBvConstWide (bytes : list Z) (width : Z) | NBoolConst (value : bool)
  | NNot (x : NodeRef) | NNeg (x : NodeRef) | NBinary (op : BvBinary) (x y : NodeRef)
  | NPredicate (op : BvPredicate) (x y : NodeRef) | NNegOvf (x : NodeRef)
  | NExtract (x : NodeRef) (hi lo : Z) | NConcat (high low : NodeRef) | NZext (x : NodeRef) (amount : Z)
  | NSext (x : NodeRef) (amount : Z) | NRotateLeft (x : NodeRef) (amount : Z) | NRotateRight (x : NodeRef) (amount : Z)
  | NBvIte (c x y : NodeRef) | NSelect (selectors values : list NodeRef) (default : NodeRef)
  | NBoolNot (x : NodeRef) | NBoolBinary (op : BoolBinary) (x y : NodeRef) | NBoolIte (c x y : NodeRef).

Definition run_bv_binary (op : BvBinary) : NodeRef -> NodeRef -> BM NodeRef :=
  match op with
  | CAnd => bv_and | COr => bv_or | CXor => bv_xor | CAdd => bv_add | CSub => bv_sub | CMul => bv_mul
  | CUdiv => bv_udiv | CUrem => bv_urem | CSdiv => bv_sdiv | CSrem => bv_srem | CSmod => bv_smod
  | CShl => bv_shl | CLshr => bv_lshr | CAshr => bv_ashr
  end.

Definition run_predicate (op : BvPredicate) : NodeRef -> NodeRef -> BM NodeRef :=
  match op with
  | CEq => bv_eq | CNe => bv_ne | CUlt => bv_ult | CUle => bv_ule | CUgt => bv_ugt | CUge => bv_uge
  | CSlt => bv_slt | CSle => bv_sle | CSgt => bv_sgt | CSge => bv_sge
  | CUaddo => uadd_ovf | CSaddo => sadd_ovf | CUsubo => usub_ovf | CSsubo => ssub_ovf
  | CUmulo => umul_ovf | CSmulo => smul_ovf | CSdivo => sdiv_ovf
  end.

Definition run_bool_binary (op : BoolBinary) : NodeRef -> NodeRef -> BM NodeRef :=
  match op with
  | CBoolAnd => bool_and | CBoolOr => bool_or | CBoolImplies => bool_implies | CBoolEq => bool_eq | CBoolXor => bool_xor
  end.

Definition run_node (call : NodeCall) : BM NodeRef :=
  match call with
  | NBvVar name width => bv_var name width | NBoolVar name => bool_var name
  | NBvConst value width => bv_const value width | NBvConstWide bytes width => bv_const_wide bytes width
  | NBoolConst value => if value then bool_true else bool_false
  | NNot x => bv_not x | NNeg x => bv_neg x | NBinary op x y => run_bv_binary op x y
  | NPredicate op x y => run_predicate op x y | NNegOvf x => neg_ovf x
  | NExtract x hi lo => bv_extract x hi lo | NConcat high low => bv_concat high low
  | NZext x amount => bv_zext x amount | NSext x amount => bv_sext x amount
  | NRotateLeft x amount => bv_rotate_left x amount | NRotateRight x amount => bv_rotate_right x amount
  | NBvIte c x y => bv_ite c x y | NSelect selectors values default => bv_select selectors values default
  | NBoolNot x => bool_not x | NBoolBinary op x y => run_bool_binary op x y | NBoolIte c x y => bool_ite c x y
  end.

(** The arguments have their Rust types. *)
Definition node_args (call : NodeCall) : Prop :=
  match call with
  | NBvVar name width => utf8_valid (as_bytes name) = true /\ is_u32 width
  | NBoolVar name => utf8_valid (as_bytes name) = true
  | NBvConst value width => is_u64 value /\ is_u32 width
  | NBvConstWide bytes width => Forall is_byte bytes /\ is_u32 width
  | NBoolConst _ => True
  | NNot x | NNeg x | NNegOvf x | NBoolNot x => is_u32 x
  | NBinary _ x y | NPredicate _ x y | NConcat x y | NBoolBinary _ x y => is_u32 x /\ is_u32 y
  | NExtract x hi lo => is_u32 x /\ is_u32 hi /\ is_u32 lo
  | NZext x amount | NSext x amount => is_u32 x /\ is_u16 amount
  | NRotateLeft x amount | NRotateRight x amount => is_u32 x /\ is_u64 amount
  | NBvIte c x y | NBoolIte c x y => is_u32 c /\ is_u32 x /\ is_u32 y
  | NSelect selectors values default => Forall is_u32 selectors /\ Forall is_u32 values /\ is_u32 default
  end.

(** At most so many nodes and bytes are appended. *)
Definition node_cost (call : NodeCall) : Z :=
  match call with
  | NPredicate CNe _ _ => 2 | NBoolBinary CBoolEq _ _ => 5 | NBoolBinary CBoolXor _ _ => 6 | NBoolIte _ _ _ => 4
  | NRotateLeft _ _ | NRotateRight _ _ => 5 | _ => 1
  end.

Definition byte_cost (call : NodeCall) : Z :=
  match call with
  | NBvVar name _ | NBoolVar name => zlen (as_bytes name)
  | NBvConst _ width | NBvConstWide _ width => (width + 7) / 8
  | NRotateLeft _ _ | NRotateRight _ _ => 2 * ((MAX_BV_WIDTH + 7) / 8)
  | _ => 0
  end.

Definition node_call_sort (call : NodeCall) : Sort :=
  match call with
  | NBoolVar _ | NBoolConst _ | NPredicate _ _ _ | NNegOvf _ | NBoolNot _ | NBoolBinary _ _ _ | NBoolIte _ _ _ => Bool
  | _ => Bv
  end.

(** The call is well sorted, with a result of width [w]. *)
Definition node_typed (b : ExprBuilder) (call : NodeCall) (w : Z) : Prop :=
  match call with
  | NBvVar name width => 1 <= width <= MAX_BV_WIDTH /\ ~ declared_otherwise b name (mkNodeMeta Bv width) /\ w = width
  | NBoolVar name => ~ declared_otherwise b name (mkNodeMeta Bool 0) /\ w = 0
  | NBvConst _ width => 1 <= width <= MAX_BV_WIDTH /\ w = width
  | NBvConstWide bytes width => 1 <= width <= MAX_BV_WIDTH /\ zlen bytes = (width + 7) / 8 /\ w = width
  | NBoolConst _ => w = 0
  | NNot x | NNeg x | NRotateLeft x _ | NRotateRight x _ => typed_ref b x Bv w
  | NBinary _ x y => typed_ref b x Bv w /\ typed_ref b y Bv w
  | NPredicate _ x y => (exists n, typed_ref b x Bv n /\ typed_ref b y Bv n) /\ w = 0
  | NNegOvf x => (exists n, typed_ref b x Bv n) /\ w = 0
  | NExtract x hi lo => (exists n, typed_ref b x Bv n /\ lo <= hi < n) /\ w = hi - lo + 1
  | NConcat x y => exists n m, typed_ref b x Bv n /\ typed_ref b y Bv m /\ n + m <= MAX_BV_WIDTH /\ w = n + m
  | NZext x amount | NSext x amount => exists n, typed_ref b x Bv n /\ n + amount <= MAX_BV_WIDTH /\ w = n + amount
  | NBvIte c x y => typed_ref b c Bool 0 /\ typed_ref b x Bv w /\ typed_ref b y Bv w
  | NSelect selectors values default => length selectors = length values /\ (length selectors <= 127)%nat /\
      typed_ref b default Bv w /\ Forall (pair_typed b w) (zip selectors values)
  | NBoolNot x => typed_ref b x Bool 0 /\ w = 0
  | NBoolBinary _ x y => typed_ref b x Bool 0 /\ typed_ref b y Bool 0 /\ w = 0
  | NBoolIte c x y => typed_ref b c Bool 0 /\ typed_ref b x Bool 0 /\ typed_ref b y Bool 0 /\ w = 0
  end.

(** SMT-LIB's value of the call, from those of its operands. *)
Definition node_call_meaning (b : ExprBuilder) (σ : Valuation) (call : NodeCall) (w : Z) : value :=
  let n := Z.to_nat w in
  let bv r := bv_of b σ r in let bo r := bool_of b σ r in let wd r := width_of b σ r in
  match call with
  | NBvVar name width => VBv n (wrap n (v_bv σ name width)) | NBoolVar name => VBool (v_bool σ name)
  | NBvConst value _ => VBv n (wrap n value) | NBvConstWide bytes _ => VBv n (wrap n (bval bytes))
  | NBoolConst value => VBool value
  | NNot x => VBv n (bvnot n (bv x)) | NNeg x => VBv n (bvneg n (bv x))
  | NBinary op x y => VBv n (binary_meaning op n (bv x) (bv y))
  | NPredicate op x y => VBool (predicate_meaning op (wd x) (bv x) (bv y)) | NNegOvf x => VBool (bvnego (wd x) (bv x))
  | NExtract x hi lo => VBv n (bvextract (Z.to_nat hi) (Z.to_nat lo) (bv x))
  | NConcat x y => VBv n (bvconcat (wd y) (bv x) (bv y))
  | NZext x _ => VBv n (bv x) | NSext x amount => VBv n (bvsext (wd x) (Z.to_nat amount) (bv x))
  | NRotateLeft x amount => VBv n (bvrotl n (Z.to_nat (amount mod w)) (bv x))
  | NRotateRight x amount => VBv n (bvrotr n (Z.to_nat (amount mod w)) (bv x))
  | NBvIte c x y => VBv n (if bo c then bv x else bv y)
  | NSelect selectors values default => VBv n (select_value b σ (zip selectors values) default)
  | NBoolNot x => VBool (negb (bo x)) | NBoolBinary op x y => VBool (bool_meaning op (bo x) (bo y))
  | NBoolIte c x y => VBool (if bo c then bo x else bo y)
  end.

(** A name declared otherwise is refused. *)
Lemma signature_refused {B} b name m (k : unit -> BM B) : declared_otherwise b name m -> exists e,
  (expect_symbol_signature name m ≫= k) b = (Err e, b).
Proof.
  intros (m' & E & Hne). unfold mbind, BM_bind, expect_symbol_signature. rewrite E, bool_decide_false by done.
  by eexists.
Qed.

Lemma declared_cases b name m : declared_otherwise b name m \/ ~ declared_otherwise b name m.
Proof.
  unfold declared_otherwise. destruct (eb_symbols b !! name) as [m'|] eqn:E.
  - destruct (decide (m' = m)) as [->|Hne]; [right|left; by exists m']. by intros (m' & [= <-] & H).
  - right. by intros (m' & [=] & _).
Qed.

Lemma runs_refused {A} n c (m : BM A) b e Q (E : Prop) : 0 <= n -> 0 <= c -> built b -> m b = (Err e, b) -> E ->
  runs n c m b Q E.
Proof. intros Hn Hc Hb Em HE. unfold runs. rewrite Em. split; [done|]. split; [by apply grown_refl|by left]. Qed.

Section calls.
Context (b : ExprBuilder) (Hb : built b).

(** A call that makes what its well-sorted arguments ask for. *)
Definition call_runs (call : NodeCall) : Prop :=
  runs (node_cost call) (byte_cost call) (run_node call) b
    (fun r b' => exists w, node_typed b call w /\
       gives (node_call_sort call) w (fun σ => node_call_meaning b σ call w) r b')
    (~ exists w, node_typed b call w).

Lemma bv_var_call name width : utf8_valid (as_bytes name) = true -> is_u32 width -> call_runs (NBvVar name width).
Proof.
  intros Hu Hw. unfold call_runs. simpl. destruct (declared_cases b name (mkNodeMeta Bv width)) as [Hd|Hd].
  - assert (exists e, bv_var name width b = (Err e, b)) as [e E].
    { unfold bv_var. pose proof (total_width_value width "BV variable width") as Ht.
      destruct (validate_bv_width_value width "BV variable width") as [u|e|] eqn:Ev; [|exists e; by apply on_err|done].
      rewrite (on_run (fun _ => Ok u) _ b u eq_refl). by apply signature_refused. }
    eapply runs_refused; [done|apply zlen_nonneg|done|exact E|]. by intros (w & _ & ? & _).
  - eapply runs_weaken; [by apply bv_var_runs|done|done| |].
    + intros r b' _ _ [Hr H]. by exists width.
    + intros [Hn|Hn] (w & ? & ? & _); done.
Qed.

Lemma bool_var_call name : utf8_valid (as_bytes name) = true -> call_runs (NBoolVar name).
Proof.
  intros Hu. unfold call_runs. simpl. destruct (declared_cases b name (mkNodeMeta Bool 0)) as [Hd|Hd].
  - assert (exists e, bool_var name b = (Err e, b)) as [e' E] by (unfold bool_var; by apply signature_refused).
    eapply runs_refused; [done|apply zlen_nonneg|done|exact E|]. by intros (w & ? & _).
  - eapply runs_weaken; [by apply bool_var_runs|done|done| |].
    + intros r b' _ _ H. by exists 0.
    + intros Hn (w & ? & _). done.
Qed.

Lemma const_calls :
  (forall value width, is_u64 value -> is_u32 width -> call_runs (NBvConst value width)) /\
  (forall bytes width, Forall is_byte bytes -> is_u32 width -> call_runs (NBvConstWide bytes width)) /\
  (forall value, call_runs (NBoolConst value)).
Proof.
  unfold call_runs. simpl. split_and!.
  - intros value width Hv Hw. eapply runs_weaken; [by apply bv_const_runs|done|done| |].
    + intros r b' _ _ [Hr H]. by exists width.
    + by intros Hn (w & ? & _).
  - intros bytes width Hv Hw. eapply runs_weaken; [by apply bv_const_wide_runs|done|done| |].
    + intros r b' _ _ [[Hr Hl] H]. by exists width.
    + intros Hn (w & ? & ? & _). by apply Hn.
  - intros value. assert (forall t, t = TBoolTrue \/ t = TBoolFalse -> bool_decide (t = TBoolTrue) = value ->
      runs 1 0 (push_node t 0 [] 0 0 0) b (fun r b' => exists w, w = 0 /\ gives Bool w (fun _ => VBool value) r b')
        (~ exists w, w = 0)) as H.
    { intros t Ht <-. eapply runs_weaken; [by apply bool_const_runs|done|done| |by intros HE; exact HE]. intros r b' _ _ H. by exists 0. }
    destruct value; [apply (H TBoolTrue)|apply (H TBoolFalse)]; auto.
Qed.

Lemma unary_calls x : is_u32 x -> call_runs (NNot x) /\ call_runs (NNeg x) /\ call_runs (NNegOvf x) /\ call_runs (NBoolNot x).
Proof.
  intros Hx. unfold call_runs. simpl. split_and!.
  - eapply runs_weaken; [apply (bv_unary_runs b Hb x Hx TBvNot); by left|done|done| |done].
    intros r b' _ _ (w & Hw & H). by exists w.
  - eapply runs_weaken; [apply (bv_unary_runs b Hb x Hx TBvNeg); by right|done|done| |done].
    intros r b' _ _ (w & Hw & H). by exists w.
  - eapply runs_weaken; [by apply (neg_ovf_runs b Hb x Hx)|done|done| |].
    + intros r b' _ _ (w & Hw & H). exists 0. split; [by split; [exists w|]|].
      eapply gives_ext; [|exact H]. intros σ. simpl. by rewrite (width_of_typed b Hb x w σ).
    + intros Hn (w & Hw & _). done.
  - eapply runs_weaken; [by apply (bool_not_runs b Hb x Hx)|done|done| |].
    + intros r b' _ _ (Hw & H). by exists 0.
    + intros Hn (w & Hw & _). done.
Qed.

Lemma binary_call op x y : is_u32 x -> is_u32 y -> call_runs (NBinary op x y).
Proof.
  intros Hx Hy. unfold call_runs. simpl. assert (exists t, run_bv_binary op = bv_binary t /\ binary_of t = Some op) as (t & -> & Ht).
  { destruct op; by eexists. }
  eapply runs_weaken; [by apply (bv_binary_runs b Hb x y Hx Hy t op)|done|done| |done].
  intros r b' _ _ (w & Hw & H). by exists w.
Qed.

(** Comparisons that are the node they are named after, or the one of the swapped
    operands. *)
Lemma comparison_call t op p x y : predicate_of t = Some op -> is_u32 x -> is_u32 y ->
  (forall w u v, predicate_meaning op w u v = predicate_meaning p w u v) ->
  runs 1 0 (bv_comparison t x y) b (fun r b' => exists w, ((exists n, typed_ref b x Bv n /\ typed_ref b y Bv n) /\ w = 0) /\
    gives Bool w (fun σ => VBool (predicate_meaning p (width_of b σ x) (bv_of b σ x) (bv_of b σ y))) r b')
    (~ exists w, (exists n, typed_ref b x Bv n /\ typed_ref b y Bv n) /\ w = 0).
Proof.
  intros Ht Hx Hy Hp.
  eapply runs_weaken; [by apply (bv_comparison_runs b Hb x y Hx Hy t op)|done|done| |].
  - intros r b' _ _ (w & Hw & H). exists 0. split; [by split; [exists w|]|].
    eapply gives_ext; [|exact H]. intros σ. simpl. rewrite (width_of_typed b Hb x w σ) by (done || apply Hw). by rewrite Hp.
  - intros Hn (w & Hw & _). done.
Qed.

Lemma swapped_call t op p x y : predicate_of t = Some op -> is_u32 x -> is_u32 y ->
  (forall w u v, predicate_meaning op w u v = predicate_meaning p w v u) ->
  runs 1 0 (bv_comparison t y x) b (fun r b' => exists w, ((exists n, typed_ref b x Bv n /\ typed_ref b y Bv n) /\ w = 0) /\
    gives Bool w (fun σ => VBool (predicate_meaning p (width_of b σ x) (bv_of b σ x) (bv_of b σ y))) r b')
    (~ exists w, (exists n, typed_ref b x Bv n /\ typed_ref b y Bv n) /\ w = 0).
Proof.
  intros Ht Hx Hy Hp.
  eapply runs_weaken; [by apply (bv_comparison_runs b Hb y x Hy Hx t op)|done|done| |].
  - intros r b' _ _ (w & [Hwy Hwx] & H). exists 0. split; [by split; [exists w|]|].
    eapply gives_ext; [|exact H]. intros σ. simpl. rewrite (width_of_typed b Hb x w σ) by done. by rewrite Hp.
  - intros Hn (w & (n & ? & ?) & _). apply Hn. by exists n.
Qed.

Lemma ne_call x y : is_u32 x -> is_u32 y -> call_runs (NPredicate CNe x y).
Proof.
  intros Hx Hy. eapply runs_weaken; [by apply bv_ne_runs|done|done| |].
  - intros r b' _ _ (Hw & H). by exists 0.
  - intros Hn (w & Hw & _). done.
Qed.

Lemma predicate_call op x y : is_u32 x -> is_u32 y -> call_runs (NPredicate op x y).
Proof.
  intros Hx Hy. destruct op; [|by apply ne_call|..]; unfold call_runs;
    cbn [node_cost byte_cost run_node run_predicate node_typed node_call_sort node_call_meaning];
    unfold bv_eq, bv_ugt, bv_uge, bv_sgt, bv_sge, bv_ult, bv_ule, bv_slt, bv_sle, uadd_ovf, sadd_ovf, usub_ovf, ssub_ovf,
      umul_ovf, smul_ovf, sdiv_ovf, overflow_binary;
    fold bv_comparison;
    first [by eapply comparison_call|by eapply swapped_call].
Qed.

Lemma extract_call x hi lo : is_u32 x -> is_u32 hi -> is_u32 lo -> call_runs (NExtract x hi lo).
Proof.
  intros Hx Hhi Hlo. eapply runs_weaken; [by apply (bv_extract_runs b Hb x hi lo)|done|done| |].
  - intros r b' _ _ (Hw & H). by exists (hi - lo + 1).
  - intros Hn (w & Hw & _). done.
Qed.

Lemma concat_call x y : is_u32 x -> is_u32 y -> call_runs (NConcat x y).
Proof.
  intros Hx Hy. eapply runs_weaken; [by apply (bv_concat_runs b Hb x y)|done|done| |].
  - intros r b' Hb' _ (wx & wy & Hwx & Hwy & H). exists (wx + wy).
    pose proof (typed_bv_width b' Hb' r (wx + wy) (proj1 H)). split; [exists wx, wy; by split_and!; try lia|].
    eapply gives_ext; [|exact H]. intros σ. simpl. by rewrite (width_of_typed b Hb y wy σ).
  - intros Hn (w & n & m & ? & ? & ? & _). apply Hn. by exists n, m.
Qed.

Lemma extend_calls x k : is_u32 x -> is_u16 k -> call_runs (NZext x k) /\ call_runs (NSext x k).
Proof.
  intros Hx Hk. split; (eapply runs_weaken;
    [apply (bv_extend_runs b Hb); [first [by left|by right]|done|done]|done|done| |
     by intros Hn (w & n & ? & ? & _); apply Hn; exists n]);
    intros r b' Hb' _ (n & Hn & H); exists (n + k);
    pose proof (typed_bv_width b' Hb' r (n + k) (proj1 H));
    (split; [exists n; by split_and!; try lia|]); (eapply gives_ext; [|exact H]); intros σ; simpl; [done|].
  by rewrite (width_of_typed b Hb x n σ).
Qed.

Lemma rotate_calls x k : is_u32 x -> is_u64 k -> call_runs (NRotateLeft x k) /\ call_runs (NRotateRight x k).
Proof.
  intros Hx Hk. split.
  - eapply runs_weaken; [by apply (bv_rotate_left_runs b Hb x k)|done|done| |done].
    intros r b' _ _ (w & Hw & H). by exists w.
  - eapply runs_weaken; [by apply (bv_rotate_right_runs b Hb x k)|done|done| |done].
    intros r b' _ _ (w & Hw & H). by exists w.
Qed.

Lemma ite_calls c x y : is_u32 c -> is_u32 x -> is_u32 y -> call_runs (NBvIte c x y) /\ call_runs (NBoolIte c x y).
Proof.
  intros Hc Hx Hy. split.
  - eapply runs_weaken; [by apply (bv_ite_runs b Hb c x y)|done|done| |done].
    intros r b' _ _ (w & Hw & H). by exists w.
  - eapply runs_weaken; [by apply (bool_ite_runs b c x y)|done|done| |].
    + intros r b' _ _ ((T1 & T2 & T3) & Hg). by exists 0.
    + intros Hn (w & ? & ? & ? & _). by apply Hn.
Qed.

Lemma select_call selectors vals default : Forall is_u32 selectors -> Forall is_u32 vals -> is_u32 default ->
  call_runs (NSelect selectors vals default).
Proof.
  intros Hs Hv Hd. eapply runs_weaken; [by apply (bv_select_runs b Hb selectors vals default)|done|done| |done].
  intros r b' _ _ (w & Hw & H). by exists w.
Qed.

Lemma bool_binary_call op x y : is_u32 x -> is_u32 y -> call_runs (NBoolBinary op x y).
Proof.
  intros Hx Hy.
  assert (forall t op', connective_of t = Some op' -> runs 1 0 (bool_binary t x y) b
    (fun r b' => exists w, (typed_ref b x Bool 0 /\ typed_ref b y Bool 0 /\ w = 0) /\
       gives Bool w (fun σ => VBool (bool_meaning op' (bool_of b σ x) (bool_of b σ y))) r b')
    (~ exists w, typed_ref b x Bool 0 /\ typed_ref b y Bool 0 /\ w = 0)) as Hc.
  { intros t op' Ht. eapply runs_weaken; [by apply (bool_binary_runs b Hb x y Hx Hy t op')|done|done| |].
    - intros r b' _ _ ([T1 T2] & Hg). by exists 0.
    - intros Hn (w & ? & ? & _). by apply Hn. }
  destruct op; [by apply (Hc TBoolAnd)|by apply (Hc TBoolOr)|by apply (Hc TBoolImplies)| |].
  - eapply runs_weaken; [by apply bool_eq_runs|done|done| |].
    + intros r b' _ _ ([T1 T2] & Hg). by exists 0.
    + intros Hn (w & ? & ? & _). by apply Hn.
  - eapply runs_weaken; [by apply bool_xor_runs|done|done| |].
    + intros r b' _ _ ([T1 T2] & Hg). by exists 0.
    + intros Hn (w & ? & ? & _). by apply Hn.
Qed.

Lemma node_call_runs call : node_args call -> call_runs call.
Proof.
  intros Ha. destruct call as [name width|name|value width|bytes width|value|x|x|op x y|op x y|x|x hi lo|x y|x k|x k|x k|x k|c x y|
    selectors vals default|x|op x y|c x y]; cbn [node_args] in Ha.
  - destruct Ha. by apply bv_var_call.
  - by apply bool_var_call.
  - destruct Ha. by apply (proj1 const_calls).
  - destruct Ha. by apply (proj1 (proj2 const_calls)).
  - apply (proj2 (proj2 const_calls)).
  - apply (unary_calls x Ha).
  - exact (proj1 (proj2 (unary_calls x Ha))).
  - destruct Ha. by apply binary_call.
  - destruct Ha. by apply predicate_call.
  - exact (proj1 (proj2 (proj2 (unary_calls x Ha)))).
  - destruct Ha as (? & ? & ?). by apply extract_call.
  - destruct Ha. by apply concat_call.
  - exact (proj1 (extend_calls x k (proj1 Ha) (proj2 Ha))).
  - exact (proj2 (extend_calls x k (proj1 Ha) (proj2 Ha))).
  - exact (proj1 (rotate_calls x k (proj1 Ha) (proj2 Ha))).
  - exact (proj2 (rotate_calls x k (proj1 Ha) (proj2 Ha))).
  - destruct Ha as (Hc & Hx & Hy). exact (proj1 (ite_calls c x y Hc Hx Hy)).
  - destruct Ha as (Hs & Hv & Hd). exact (select_call selectors vals default Hs Hv Hd).
  - exact (proj2 (proj2 (proj2 (unary_calls x Ha)))).
  - destruct Ha. by apply bool_binary_call.
  - destruct Ha as (Hc & Hx & Hy). exact (proj2 (ite_calls c x y Hc Hx Hy)).
Qed.
End calls.

(** ** Calls that change the roots *)

Inductive RootCall :=
  | RAssert (root : NodeRef) | RAssertNamed (name : string) (root : NodeRef) | RAssume (root : NodeRef)
  | RClearAssumptions | RPush | RPop | RAssertMutex (selectors : list NodeRef).

Definition run_root (call : RootCall) : BM unit :=
  match call with
  | RAssert root => assert root | RAssertNamed name root => assert_named name root | RAssume root => assume root
  | RClearAssumptions => clear_assumptions | RPush => push | RPop => pop | RAssertMutex selectors => assert_mutex selectors
  end.

Definition root_args (call : RootCall) : Prop :=
  match call with
  | RAssert root | RAssume root => is_u32 root
  | RAssertNamed name root => utf8_valid (as_bytes name) = true /\ is_u32 root
  | RAssertMutex selectors => Forall is_u32 selectors
  | _ => True
  end.

Definition root_cost (call : RootCall) : Z :=
  match call with RAssertMutex selectors => zlen selectors * (zlen selectors - 1) | _ => 0 end.

Definition root_byte_cost (call : RootCall) : Z :=
  match call with RAssertNamed name _ => zlen (as_bytes name) | _ => 0 end.

(** The call is allowed. *)
Definition root_allowed (b : ExprBuilder) (call : RootCall) : Prop :=
  match call with
  | RAssert root | RAssertNamed _ root | RAssume root => typed_ref b root Bool 0
  | RAssertMutex selectors => Forall (fun s => typed_ref b s Bool 0) selectors
  | RPop => eb_scopes b <> []
  | _ => True
  end.

(** The assertions, assumptions and scope marks after the call.  Selectors of which
    two are true falsify the assertions that [assert_mutex] adds. *)
Definition root_effect (b : ExprBuilder) (call : RootCall) (b' : ExprBuilder) : Prop :=
  match call with
  | RAssert root => roots b' = (eb_assertions b ++ [mkWireAssertion root None], eb_assumptions b, eb_scopes b)
  | RAssertNamed name root => exists r, blob_name (eb_blob b') r = Some name /\
      roots b' = (eb_assertions b ++ [mkWireAssertion root (Some r)], eb_assumptions b, eb_scopes b)
  | RAssume root => roots b' = (eb_assertions b, eb_assumptions b ++ [root], eb_scopes b)
  | RClearAssumptions => roots b' = (eb_assertions b, [], eb_scopes b)
  | RPush => roots b' = (eb_assertions b, eb_assumptions b, eb_scopes b ++ [length (eb_assertions b)])
  | RPop => exists scopes len, eb_scopes b = scopes ++ [len] /\
      roots b' = (take len (eb_assertions b), eb_assumptions b, scopes)
  | RAssertMutex selectors => asserted (fun σ => at_most_one (bool_of b σ) selectors) b b'
  end.

Lemma root_call_runs b call : built b -> root_args call ->
  runs (root_cost call) (root_byte_cost call) (run_root call) b (fun _ b' => root_allowed b call /\ root_effect b call b')
    (~ root_allowed b call).
Proof.
  intros Hb Ha. destruct call; cbn [root_args] in Ha.
  - eapply runs_weaken; [by apply assert_runs|done|done| |done]. by intros [] b' _ _ [Ht ->].
  - destruct Ha. eapply runs_weaken; [by apply assert_named_runs|done|done| |done].
    intros [] b' _ _ (Ht & r & E1 & E2 & E3 & E4). split; [done|]. exists r. split; [done|]. unfold roots. congruence.
  - eapply runs_weaken; [by apply assume_runs|done|done| |done]. by intros [] b' _ _ [Ht ->].
  - unfold runs, run_root, clear_assumptions, set. split; [|split; [apply grown_roots|done]].
    apply built_with_roots; [done|apply Hb|constructor].
  - eapply runs_weaken; [by apply push_runs|done|done| |done]. by intros [] b' _ _ ->.
  - eapply runs_weaken; [by apply pop_runs|done|done| |by intros H H'].
    intros [] b' _ _ (scopes & len & E & ->). split; [simpl; rewrite E; by destruct scopes|]. by exists scopes, len.
  - eapply runs_weaken; [by apply assert_mutex_runs|done|done| |done]. by intros [] b' _ _ [H1 H2].
Qed.

(** ** Reachable builders *)

Inductive client_step : ExprBuilder -> ExprBuilder -> Prop :=
  | step_node b call : node_args call -> client_step b (run_node call b).2
  | step_root b call : root_args call -> client_step b (run_root call b).2
  | step_reset b : client_step b new.

Lemma new_built : built new.
Proof.
  split; try done; try constructor; done.
Qed.

Lemma step_built b b' : client_step b b' -> built b -> built b'.
Proof.
  intros [b0 call Ha|b0 call Ha|b0] Hb.
  - pose proof (node_call_runs b0 Hb call Ha) as H. unfold call_runs, runs in H.
    destruct (run_node call b0) as [r b1]. apply H.
  - pose proof (root_call_runs b0 call Hb Ha) as H. unfold runs in H. destruct (run_root call b0) as [r b1]. apply H.
  - apply new_built.
Qed.

Lemma reachable_built b : rtc client_step new b -> built b.
Proof.
  intros H. pose proof new_built as H0. induction H as [|a b c Hab _ IH]; [done|]. by apply IH, (step_built a).
Qed.

(** ** Earlier references *)

Lemma quiet_node call : quiet (run_node call).
Proof.
  destruct quiet_leaves as (Q1 & Q2 & Q3 & Q4 & Q5). destruct quiet_shapes as (Q6 & Q7 & Q8 & Q9 & Q10 & Q11).
  destruct quiet_derived as (Q12 & Q13 & Q14 & Q15 & Q16 & Q17).
  destruct call as [name width|name|value width|bytes width|value|x|x|op x y|op x y|x|x hi lo|x y|x k|x k|x k|x k|c x y|
    selectors vals default|x|op x y|c x y]; cbn [run_node]; [..|apply Q15].
  - apply Q1.
  - apply Q2.
  - apply quiet_const.
  - apply Q3.
  - destruct value; done.
  - apply quiet_unary.
  - apply quiet_unary.
  - destruct op; apply quiet_binary.
  - destruct op; first [apply Q12|apply quiet_comparison].
  - apply Q11.
  - apply Q6.
  - apply Q7.
  - apply Q8.
  - apply Q8.
  - apply Q16.
  - apply Q17.
  - apply Q9.
  - apply Q10.
  - apply quiet_not.
  - destruct op; first [apply Q13|apply Q14|apply quiet_connective].
Qed.

(** References keep their sorts and values. *)
Definition keeps (b b' : ExprBuilder) : Prop := forall r so w, typed_ref b r so w ->
  typed_ref b' r so w /\ forall σ, values b' σ !! Z.to_nat (NodeRef.index r) = values b σ !! Z.to_nat (NodeRef.index r).

Lemma grown_keeps n c b b' : built b -> built b' -> grown n c b b' -> keeps b b'.
Proof.
  intros Hb Hb' Hg r so w Ht. split; [by eapply typed_ref_grown|]. intros σ.
  apply (values_grown n c); try done. by eapply typed_index.
Qed.

Lemma runs_keeps {A} n c (m : BM A) b Q E : built b -> runs n c m b Q E -> runs n c m b (fun a b' => Q a b' /\ keeps b b') E.
Proof.
  intros Hb H. eapply runs_weaken; [exact H|done|done| |done]. intros a b' Hb' Hg HQ. split; [done|by eapply grown_keeps].
Qed.

(** ** The theorem *)

(** C16: the operations of the client's builder are right.  In every state a client
    can reach by any calls whatsoever, failed ones included: a call never panics; it
    fails only when its operands are ill sorted (a dangling reference, a wrong sort or
    width, a range outside the operand, a name declared with another signature, too
    many cases, no open scope), or when a table has no room for the nodes and bytes it
    adds; a call that makes a node returns a reference of the declared sort and width
    whose value is SMT-LIB's, under every valuation of the symbols; it leaves the
    assertions, assumptions and scopes alone, and every earlier reference keeps its
    sort and its value; the calls on roots have exactly the effect they are named
    after, [pop] restores the assertions of the matching [push], and [assert_mutex]
    adds assertions that hold exactly when at most one selector does. *)
Theorem client_operations_correct b : rtc client_step new b ->
  (forall call, node_args call -> runs (node_cost call) (byte_cost call) (run_node call) b
     (fun r b' => ((exists w, node_typed b call w /\
        gives (node_call_sort call) w (fun σ => node_call_meaning b σ call w) r b') /\ roots b' = roots b) /\ keeps b b')
     (~ exists w, node_typed b call w)) /\
  (forall call, root_args call -> runs (root_cost call) (root_byte_cost call) (run_root call) b
     (fun _ b' => (root_allowed b call /\ root_effect b call b') /\ keeps b b') (~ root_allowed b call)).
Proof.
  intros Hr. pose proof (reachable_built b Hr) as Hb. split; intros call Ha; (apply runs_keeps; [done|]).
  - apply runs_quiet; [apply quiet_node|by apply node_call_runs].
  - by apply root_call_runs.
Qed.

(** ** Witness: [x + 5], and an assertion about it *)

Definition sample_client : ExprBuilder :=
  (run_node (NPredicate CEq 2 1) (run_node (NBinary CAdd 0 1) (run_node (NBvConst 5 8) (run_node (NBvVar "x" 8) new).2).2).2).2.

Lemma sample_client_reachable : rtc client_step new sample_client.
Proof.
  unfold sample_client. eapply rtc_r; [eapply rtc_r; [eapply rtc_r; [eapply rtc_r; [apply rtc_refl|]|]|]|];
    apply step_node; by vm_compute.
Qed.

Lemma client_operations_correct_witness : exists r b', run_root (RAssertMutex [2147483651; 2147483651]) sample_client = (Ok r, b') /\
  root_effect sample_client (RAssertMutex [2147483651; 2147483651]) b'.
Proof.
  destruct (client_operations_correct sample_client sample_client_reachable) as [_ H].
  specialize (H (RAssertMutex [2147483651; 2147483651]) ltac:(by repeat constructor)). unfold runs in H.
  destruct (run_root _ _) as [[r|e|] b'] eqn:E; [|vm_compute in E; discriminate E..].
  exists r, b'. split; [reflexivity|]. apply H.
Defined.
