(* ===== verification/WireClient.v ===== *)
(** * The client's requests

    [build_request] sends what the builder holds: the frame it returns is parsed by the
    server into a validated request whose roots have, under every valuation of the
    symbols, the values of the builder's assertions, assumptions and target. *)
From stdpp Require Import sorting.
From S2P Require Import Prelude Bits Smt SmtFacts Bytes BytesFacts Ir Sem Evaluator EvaluatorFacts.
From S2P Require Import WireBase WireBaseFacts WireExpr WireExprFacts WireDag WireRequest.
From S2P Require Import WireRequestFacts.
From S2P Require Import WireResponseFacts WireMeaning WireQueryFacts WireQueryTheorems.
From S2P Require Import Config Builder BuilderSpec BuilderReads BuilderState BuilderApi.
From S2P Require Import BuilderSession SolveFacts.
From S2P Require Import Sat SatFacts Model ModelFacts Shortcuts ShortcutsFacts Solver.
From S2P Require Import SolverFacts.
From S2P Require Import WireResponse WireQuery.
From S2P Require Import WireModel.
From S2P Require Import WireBuilder WireBuilderFacts WireBuilderOps WireCompact WireClientApi.

#[local] Open Scope Z_scope.
Import ExprBuilder.

(** ** Renumbered roots *)

Lemma collect_all {A B} (f : A -> wres B) l l' : Forall2 (fun x y => f x = Ok y) l l' -> collect f l = Ok l'.
Proof.
  induction 1 as [|x y l l' Hx _ IH]; simpl; [done|]. rewrite Hx. cbn [mbind res_bind]. rewrite IH. done.
Qed.

(** A reference of the copy and the one of the builder it stands for. *)
Record stands_for (b : ExprBuilder) (kids' : list Z) (nodes' : list RawNode) (meta' : list NodeInfo)
    (r' r : NodeRef) (so : Sort) : Prop := {
  sf_u32 : is_u32 r';
  sf_refers : refers meta' so r';
  sf_value σ : wire_denote (eb_blob b) σ kids' nodes' !! Z.to_nat (NodeRef.index r') = values b σ !! Z.to_nat (NodeRef.index r);
}.

Section compacted.
Context (b : ExprBuilder) (Hb : built b) (roots : list NodeRef) (marked : list bool) (nodes' : list RawNode)
  (kids' : list Z) (meta' : list NodeInfo) (rr : Renumbering) (bytes : list Z).
Context (Hc : compaction b roots marked nodes' kids' meta' rr).
Let compacted : CompactedExpression := mkCompactedExpression bytes (old_to_new rr) (new_to_old rr).

Lemma remap_root root so w : root ∈ roots -> typed_ref b root so w -> exists r',
  CompactedExpression.remap_ref compacted root = Ok r' /\ stands_for b kids' nodes' meta' r' root so.
Proof.
  intros Hin Ht. set (i := Z.to_nat (NodeRef.index root)).
  pose proof (ls_roots _ _ _ (cc_live _ _ _ _ _ _ _ Hc) _ Hin) as Hm. fold i in Hm.
  pose proof (typed_index b root so w Hb Ht) as Hi. fold i in Hi. destruct (lookup_lt_is_Some_2 _ _ Hi) as [n Hn].
  destruct (new_ref_ok b Hb marked (ls_length _ _ _ (cc_live _ _ _ _ _ _ _ Hc)) i n Hn) as (Ei & Es & Hu). destruct Ht as (_ & Hs & info & Hinfo & Hso & _). fold i in Hinfo.
  assert (node_sort b i = so) as Ens by (unfold node_sort; by rewrite Hinfo).
  exists (new_ref b marked i). unfold CompactedExpression.remap_ref, compacted. cbn [ce_old_to_new]. fold i.
  rewrite (rn_old _ _ _ _ (cc_renumbered _ _ _ _ _ _ _ Hc) i Hi).
  rewrite (ls_length _ _ _ (cc_live _ _ _ _ _ _ _ Hc)), bool_decide_true, Hm by done.
  rewrite Es, Ens, Hs, bool_decide_true by done. split; [done|]. split; [done| |].
  - split; [congruence|]. exists info. rewrite Ei, Nat2Z.id, (cc_info _ _ _ _ _ _ _ Hc i Hm). done.
  - intros σ. rewrite Ei, Nat2Z.id. apply (cc_value _ _ _ _ _ _ _ Hc σ i Hm).
Qed.

Lemma remap_all {A} (f : A -> NodeRef) so w l : (forall a, a ∈ l -> f a ∈ roots /\ typed_ref b (f a) so w) ->
  exists l', collect (fun a => CompactedExpression.remap_ref compacted (f a)) l = Ok l' /\
    Forall2 (fun r' a => stands_for b kids' nodes' meta' r' (f a) so) l' l.
Proof.
  intros H. induction l as [|a l IH]; [exists []; by split|].
  destruct (H a) as [Hin Ht]; [by left|]. destruct (remap_root (f a) so w Hin Ht) as (r' & E & Hr').
  destruct IH as (l' & E' & Hl'); [intros x Hx; apply H; by right|]. exists (r' :: l'). simpl. rewrite E. cbn [mbind res_bind].
  rewrite E'. split; [done|by constructor].
Qed.
End compacted.

(** ** What is sent *)

(** Named assertions go first. *)
Definition ordered (b : ExprBuilder) : list WireAssertion :=
  filter (fun a => is_Some (wa_name a)) (eb_assertions b) ++ filter (fun a => wa_name a = None) (eb_assertions b).

Definition wa_spelling (b : ExprBuilder) (a : WireAssertion) : option string := wa_name a ≫= blob_name (eb_blob b).

Definition sent_assertions (b : ExprBuilder) (command : WireCommand) : list WireAssertion :=
  if bool_decide (command = CmdSimplify) then [] else ordered b.
Definition sent_assumptions (b : ExprBuilder) (command : WireCommand) : list NodeRef :=
  if bool_decide (command = CmdSimplify) then [] else eb_assumptions b.

Definition sent_names (b : ExprBuilder) (command : WireCommand) : list BlobRef :=
  if bool_decide (command = CmdSimplify) then []
  else omap wa_name (filter (fun a => is_Some (wa_name a)) (eb_assertions b)).
Definition sent_roots (b : ExprBuilder) (command : WireCommand) (target : option NodeRef) : list NodeRef :=
  (wa_root <$> sent_assertions b command) ++ sent_assumptions b command ++ option_list target.

(** The target suits the command. *)
Definition target_ok (b : ExprBuilder) (command : WireCommand) (target : option NodeRef) : Prop :=
  match command, target with
  | CmdSolve, None => True
  | CmdSimplify, Some t => exists so w, typed_ref b t so w
  | CmdMinimize, Some t | CmdMaximize, Some t => exists w, typed_ref b t Bv w
  | _, _ => False
  end.

(** The request [r], over the nodes, references and information of the copy, is the
    builder's. *)
Record carries (b : ExprBuilder) (command : WireCommand) (target : option NodeRef) (r : BinaryRequest.t)
    (nodes : list RawNode) (kids : list Z) (meta : list NodeInfo) : Prop := {
  ca_assertions : Forall2 (fun r' a => stands_for b kids nodes meta r' (wa_root a) Bool)
    (BinaryRequest.assertion_roots r) (sent_assertions b command);
  ca_names i a : sent_assertions b command !! i = Some a ->
    assertion_name (eb_blob b) (BinaryRequest.named_assertion_refs r) i = wa_spelling b a;
  ca_assumptions : Forall2 (fun r' a => stands_for b kids nodes meta r' a Bool)
    (BinaryRequest.assumption_roots r) (sent_assumptions b command);
  ca_target t : target = Some t -> stands_for b kids nodes meta
    (RequestEnvelope.target_node (BinaryRequest.envelope r)) t (NodeRef.sort t);
}.

(** It does not fit a frame. *)
Definition oversized (b : ExprBuilder) : Prop :=
  u32_max < 32 + 24 * zlen (eb_nodes b) + 4 * zlen (eb_children b) + zlen (eb_blob b) \/
  u16_max < zlen (eb_assertions b) \/ u16_max < zlen (eb_assumptions b).

(** A core is wanted of assertions with a repeated name. *)
Definition ambiguous (b : ExprBuilder) (flags : Z) : Prop :=
  has_flag flags RequestFlags.WANT_CORE = true /\ ~ NoDup (omap (wa_spelling b) (eb_assertions b)).

Lemma ordered_in b a : a ∈ ordered b <-> a ∈ eb_assertions b.
Proof.
  unfold ordered. rewrite elem_of_app, !list_elem_of_filter. split; [intuition|].
  intros H. destruct (wa_name a) eqn:E; [left|right]; split; try done; by eexists.
Qed.

Lemma ordered_length b : length (ordered b) = length (eb_assertions b).
Proof.
  unfold ordered. induction (eb_assertions b) as [|a l IH]; [done|]. rewrite !filter_cons.
  destruct (wa_name a) as [n|] eqn:E; rewrite length_app in IH |- *.
  - rewrite decide_True by done. rewrite decide_False by done. simpl. lia.
  - rewrite decide_False by (by intros [? ?]). rewrite decide_True by done. simpl. lia.
Qed.

Lemma named_first (l l' : list WireAssertion) i a : Forall (fun a => is_Some (wa_name a)) l -> Forall (fun a => wa_name a = None) l' ->
  (l ++ l') !! i = Some a -> omap wa_name l !! i = wa_name a.
Proof.
  intros Hl Hl'. revert i. induction Hl as [|x l [n Hx] _ IH]; intros i H; simpl in *.
  - by rewrite (Forall_lookup_1 _ _ _ _ Hl' H).
  - rewrite Hx. destruct i as [|i]; simpl in *; [|by apply IH]. injection H as ->. by rewrite Hx.
Qed.

Lemma spelled_refs b : spelled_names (eb_blob b) (omap wa_name (filter (fun a => is_Some (wa_name a)) (eb_assertions b))) =
  omap (wa_spelling b) (eb_assertions b).
Proof.
  unfold spelled_names. induction (eb_assertions b) as [|a l IH]; [done|]. rewrite filter_cons. simpl. unfold wa_spelling at 1.
  destruct (wa_name a) as [n|] eqn:E; simpl.
  - rewrite E. simpl. destruct (blob_name (eb_blob b) n); [f_equal|]; exact IH.
  - exact IH.
Qed.

Lemma named_count b : zlen (omap wa_name (filter (fun a => is_Some (wa_name a)) (eb_assertions b))) <= zlen (ordered b).
Proof.
  unfold ordered. rewrite zlen_app. pose proof (zlen_nonneg (filter (fun a => wa_name a = None) (eb_assertions b))).
  enough (forall l, zlen (omap wa_name l) <= zlen l) as H' by (specialize (H' (filter (fun a => is_Some (wa_name a)) (eb_assertions b))); lia).
  clear. intros l. induction l as [|a l IH]; [done|]. simpl. destruct (wa_name a); rewrite ?zlen_cons; fold (omap wa_name l); lia.
Qed.

(** The frame is parsed into a validated request that is the builder's. *)
Definition delivers (b : ExprBuilder) (id : Z) (command : WireCommand) (flags budget_ms : Z) (target : option NodeRef)
    (frame : list Z) : Prop :=
  slice_ok frame /\ exists r v nodes kids meta, BinaryRequest.parse frame = Ok r /\
    request_ok r v nodes kids (eb_blob b) meta /\ carries b command target r nodes kids meta /\
    RequestEnvelope.request_id (BinaryRequest.envelope r) = id /\
    RequestEnvelope.command (BinaryRequest.envelope r) = command /\
    RequestEnvelope.flags (BinaryRequest.envelope r) = flags /\
    RequestEnvelope.budget_ms (BinaryRequest.envelope r) = budget_ms.

(** ** Building *)

(** The lengths [BinaryRequest::new] accepts. *)
Lemma new_bounded id command flags budget_ms bytes l names l' target :
  zlen bytes <= u32_max /\ zlen l <= u16_max /\ zlen l' <= u16_max \/
  (u32_max < zlen bytes \/ u16_max < zlen l \/ u16_max < zlen l') /\
  exists e, BinaryRequest.new id command flags budget_ms bytes l names l' target = Err e.
Proof.
  destruct (Z.le_gt_cases (zlen bytes) u32_max) as [H1|H1], (Z.le_gt_cases (zlen l) u16_max) as [H2|H2],
    (Z.le_gt_cases (zlen l') u16_max) as [H3|H3]; [by left|right; split; [lia|]..].
  all: unfold BinaryRequest.new, validate_request_flags, try_u32, try_u16.
  all: destruct (negb _); [by eexists|]; cbn [refuse_if mbind res_bind].
  all: destruct (_ <? _); [by eexists|]; cbn [refuse_if mbind res_bind].
  all: repeat match goal with |- context [zlen ?x <=? ?m] =>
    destruct (Z.leb_spec (zlen x) m); [cbn [mbind res_bind]|by eexists] end; lia.
Qed.

Lemma from_parts_total nodes kids blob : total (from_parts nodes kids blob).
Proof. unfold from_parts, try_u32, expression_len, checked_mul, checked_add. totals. Qed.

Section request.
Context (b : ExprBuilder) (Hb : built b) (id : Z) (command : WireCommand) (flags budget_ms : Z) (target : option NodeRef).
Context (Hid : is_u32 id) (Hflags : is_u8 flags) (Hbudget : is_u32 budget_ms).
Context (Hall : Z.ldiff flags RequestFlags.ALL = 0) (Hcommand : validate_command_flags command flags = Ok tt).
Context (Htarget : target_ok b command target).

Lemma build_request_unfold : build_request b id command flags budget_ms target =
  (compacted ← compact b (sent_roots b command target);
   assertion_roots ← collect (fun a => CompactedExpression.remap_ref compacted (wa_root a)) (sent_assertions b command);
   assumption_roots ← collect (CompactedExpression.remap_ref compacted) (sent_assumptions b command);
   target ← match target with
            | None => Ok None
            | Some root => r ← CompactedExpression.remap_ref compacted root; Ok (Some r)
            end;
   request ← BinaryRequest.new id command flags budget_ms (ce_bytes compacted) assertion_roots (sent_names b command) assumption_roots target;
   BinaryRequest.encode request).
Proof.
  unfold build_request, sent_roots, sent_names, sent_assertions, sent_assumptions, ordered.
  by destruct (bool_decide (command = CmdSimplify)).
Qed.

Lemma sent_typed a : a ∈ sent_assertions b command -> wa_root a ∈ sent_roots b command target /\ typed_ref b (wa_root a) Bool 0.
Proof.
  intros Ha. split; [apply elem_of_app; left; by apply list_elem_of_fmap_2|].
  unfold sent_assertions in Ha. case_bool_decide; [by apply elem_of_nil in Ha|]. apply ordered_in in Ha.
  pose proof (bt_assertions b Hb) as H'. rewrite Forall_forall in H'. by apply H'.
Qed.

Lemma sent_assumption_typed a : a ∈ sent_assumptions b command -> a ∈ sent_roots b command target /\ typed_ref b a Bool 0.
Proof.
  intros Ha. split; [apply elem_of_app; right; by apply elem_of_app; left|].
  unfold sent_assumptions in Ha. case_bool_decide; [by apply elem_of_nil in Ha|].
  pose proof (bt_assumptions b Hb) as H'. rewrite Forall_forall in H'. by apply H'.
Qed.

Lemma target_typed t : target = Some t -> t ∈ sent_roots b command target /\ exists w, typed_ref b t (NodeRef.sort t) w.
Proof.
  intros Et. split; [unfold sent_roots; rewrite Et; apply elem_of_app; right; apply elem_of_app; right; by left|].
  unfold target_ok in Htarget. rewrite Et in Htarget. destruct command; [done|..];
    repeat match goal with H : exists _, _ |- _ => destruct H as [? H] end;
    match goal with H : typed_ref b t _ _ |- _ => pose proof (proj1 (proj2 H)) as Es; rewrite Es; by eexists end.
Qed.

Lemma roots_typed : Forall (fun r => exists so w, typed_ref b r so w) (sent_roots b command target).
Proof.
  pose proof target_typed as Ht. unfold sent_roots. rewrite !Forall_app. split_and!; apply Forall_forall.
  - intros r (a & -> & Ha)%list_elem_of_fmap. exists Bool, 0. by apply sent_typed.
  - intros r Hr. exists Bool, 0. by apply sent_assumption_typed.
  - intros r Hr. destruct target as [t|]; [|by apply elem_of_nil in Hr]. apply list_elem_of_singleton in Hr as ->.
    destruct (Ht t) as [_ [w Hw]]; [done|]. by eexists _, w.
Qed.

(** The request over a copy. *)
Section copy.
Context (marked : list bool) (nodes' : list RawNode) (kids' : list Z) (meta' : list NodeInfo) (rr : Renumbering).
Context (Hc : compaction b (sent_roots b command target) marked nodes' kids' meta' rr) (Hp : parts_ok nodes' kids' (eb_blob b)).
Context (assertions' assumptions' : list NodeRef) (target' : option NodeRef).
Context (Ha : Forall2 (fun r' a => stands_for b kids' nodes' meta' r' (wa_root a) Bool) assertions' (sent_assertions b command)).
Context (Hm : Forall2 (fun r' a => stands_for b kids' nodes' meta' r' a Bool) assumptions' (sent_assumptions b command)).
Context (Ht : match target, target' with
  | Some t, Some t' => stands_for b kids' nodes' meta' t' t (NodeRef.sort t) | None, None => True | _, _ => False end).
Let bytes : list Z := layout zero_pad (replicate 12 0) nodes' kids' (eb_blob b).
Context (He : zlen bytes <= u32_max) (Hna : zlen assertions' <= u16_max) (Hns : zlen assumptions' <= u16_max).

Let req : BinaryRequest.t := BinaryRequest.mk
  (RequestEnvelope.mk id command flags budget_ms (zlen bytes) (zlen assertions') (zlen (sent_names b command)) (zlen assumptions') (default 0 target'))
  bytes assertions' (sent_names b command) assumptions'.

Lemma bytes_slice : slice_ok bytes.
Proof.
  apply layout_slice; [done|done|by repeat constructor|by apply Forall_replicate|done|apply (bt_blob b Hb)].
Qed.

Lemma named_le : zlen (sent_names b command) <= zlen assertions'.
Proof.
  unfold zlen at 2. rewrite (Forall2_length _ _ _ Ha). unfold sent_names, sent_assertions.
  case_bool_decide; [done|apply named_count].
Qed.

Lemma named_ok : Forall (name_ref_ok b) (sent_names b command).
Proof.
  unfold sent_names. case_bool_decide; [constructor|]. apply Forall_forall. intros r (a & Ha' & Er)%list_elem_of_omap.
  apply list_elem_of_filter in Ha' as [_ Ha']. pose proof (bt_assertions b Hb) as H'. rewrite Forall_forall in H'.
  by apply (H' a Ha').
Qed.

Lemma target_stands t : target = Some t -> exists t', target' = Some t' /\ stands_for b kids' nodes' meta' t' t (NodeRef.sort t).
Proof. intros E. rewrite E in Ht. destruct target' as [t'|]; [by exists t'|done]. Qed.

Lemma copied_valid_request : request_valid req.
Proof.
  pose proof named_le as Hl. unfold u16_max, u32_max in *.
  assert (is_u32 (zlen bytes) /\ is_u16 (zlen assertions') /\ is_u16 (zlen (sent_names b command)) /\ is_u16 (zlen assumptions')) as (H1 & H2 & H3 & H4).
  { pose proof (zlen_nonneg bytes). pose proof (zlen_nonneg assertions'). pose proof (zlen_nonneg (sent_names b command)).
    pose proof (zlen_nonneg assumptions'). unfold is_u32, is_u16. lia. }
  split; unfold req; cbn [BinaryRequest.envelope BinaryRequest.expression BinaryRequest.assertion_roots
    BinaryRequest.named_assertion_refs BinaryRequest.assumption_roots].
  - split_and!; try done. simpl. destruct target' as [t'|]; [|done]. destruct target as [t|]; [apply Ht|done].
  - apply bytes_slice.
  - eapply Forall2_Forall_l; [exact Ha|]. apply Forall_true. intros a r' H. apply H.
  - eapply Forall_impl; [apply named_ok|]. by intros r [? ?].
  - eapply Forall2_Forall_l; [exact Hm|]. apply Forall_true. intros a r' H. apply H.
Qed.
Lemma refers_all {A} (f : A -> NodeRef) l' l :
  Forall2 (fun r' a => stands_for b kids' nodes' meta' r' (f a) Bool) l' l -> Forall (refers meta' Bool) l'.
Proof. intros H. eapply Forall2_Forall_l; [exact H|]. apply Forall_true. intros a r' Hr. apply Hr. Qed.

Lemma simplify_empty : command = CmdSimplify -> assertions' = [] /\ sent_names b command = [] /\ assumptions' = [].
Proof.
  intros Ec. unfold sent_names. rewrite bool_decide_true by done.
  pose proof (Forall2_length _ _ _ Ha) as L1. pose proof (Forall2_length _ _ _ Hm) as L2.
  unfold sent_assertions in L1. unfold sent_assumptions in L2. rewrite bool_decide_true in L1, L2 by done.
  by destruct assertions', assumptions'.
Qed.

Lemma copied_request_ok : exists v, request_ok req v nodes' kids' (eb_blob b) meta'.
Proof.
  pose proof bytes_slice as Hs. eexists. pose proof (layout_view zero_pad (replicate 12 0) nodes' kids' (eb_blob b) eq_refl eq_refl Hp Hs) as Hv.
  split; unfold req; cbn [BinaryRequest.envelope BinaryRequest.expression BinaryRequest.assertion_roots
    BinaryRequest.named_assertion_refs BinaryRequest.assumption_roots RequestEnvelope.command RequestEnvelope.target_node].
  - unfold parse_and_validate, bytes. rewrite (layout_parse zero_pad (replicate 12 0) nodes' kids' (eb_blob b) eq_refl eq_refl Hp Hs).
    cbn [mbind res_bind]. destruct (proj2 (accepts_dags _ _ _ _ Hv)) as [u Hu]; [exists meta'; apply (cc_dag _ _ _ _ _ _ _ Hc)|].
    by rewrite Hu.
  - exact Hv.
  - apply (cc_dag _ _ _ _ _ _ _ Hc).
  - split; try done. apply named_le.
  - by apply (refers_all wa_root _ _ Ha).
  - by apply (refers_all (fun a => a) _ _ Hm).
  - eapply Forall_impl; [apply named_ok|]. by intros r [? ?].
  - pose proof simplify_empty as Hsim. pose proof target_stands as Hst. pose proof target_typed as Htt. unfold target_ok in Htarget.
    destruct command, target as [t|]; try done.
    + by destruct target'.
    + destruct Hsim as (-> & -> & ->); [done|]. destruct (Hst t eq_refl) as (t' & -> & Hsf). split_and!; [done..|].
      exists (NodeRef.sort t). apply Hsf.
    + destruct (Hst t eq_refl) as (t' & -> & Hsf). destruct Htarget as (w & _ & Es & _). rewrite Es in Hsf. apply Hsf.
    + destruct (Hst t eq_refl) as (t' & -> & Hsf). destruct Htarget as (w & _ & Es & _). rewrite Es in Hsf. apply Hsf.
Qed.

Lemma copied_carries : carries b command target req nodes' kids' meta'.
Proof.
  split; [exact Ha| |exact Hm|].
  - intros i a Hi. unfold assertion_name, wa_spelling, req, sent_names. cbn [BinaryRequest.named_assertion_refs].
    unfold sent_assertions in Hi. case_bool_decide; [done|]. unfold ordered in Hi.
    erewrite (named_first _ _ i a); [done|..|exact Hi]; apply Forall_forall; by intros x [? _]%list_elem_of_filter.
  - intros t Et. destruct (target_stands t Et) as (t' & E & Hsf). unfold req. cbn [BinaryRequest.envelope RequestEnvelope.target_node].
    by rewrite E.
Qed.

Lemma copied_named : core_named req (eb_blob b) \/ ambiguous b flags.
Proof.
  unfold core_named, req. cbn [BinaryRequest.envelope RequestEnvelope.flags BinaryRequest.named_assertion_refs].
  destruct (decide (NoDup (omap (wa_spelling b) (eb_assertions b)))) as [Hnd|Hnd]; [left; intros _|].
  - unfold sent_names. case_bool_decide; [constructor|]. by rewrite spelled_refs.
  - unfold ambiguous. destruct (has_flag flags RequestFlags.WANT_CORE); [by right|by left].
Qed.
(** The last two steps of [build_request]. *)
Lemma copy_sent : match (request ← BinaryRequest.new id command flags budget_ms bytes assertions' (sent_names b command) assumptions' target';
    BinaryRequest.encode request) with
  | Ok frame => delivers b id command flags budget_ms target frame
  | Err _ => ambiguous b flags
  | Panic => False
  end.
Proof.
  pose proof copied_valid_request as Hval. destruct copied_request_ok as [v Hok]. pose proof named_le as Hl.
  assert (BinaryRequest.new id command flags budget_ms bytes assertions' (sent_names b command) assumptions' target' =
    (BinaryRequest.validate req ;; Ok req)) as ->.
  { unfold BinaryRequest.new. rewrite (proj2 (request_flags_ok flags tt) Hall). cbn [mbind res_bind].
    rewrite (proj2 (Z.ltb_ge _ _)) by done. cbn [refuse_if mbind res_bind]. unfold try_u32, try_u16.
    rewrite !(proj2 (Z.leb_le _ _)) by lia. cbn [mbind res_bind].
    assert ((match command with CmdSimplify | CmdMinimize | CmdMaximize => true | CmdSolve => false end
             && match target' with None => true | Some _ => false end) = false) as ->; [|done].
    pose proof target_stands as Hst. unfold target_ok in Htarget.
    destruct command, target as [t|]; try done; by destruct (Hst t eq_refl) as (t' & -> & _). }
  pose proof (validate_request_total req bytes_slice) as Htot. destruct (BinaryRequest.validate req) as [[]|e|] eqn:Ev; [|..|done].
  - cbn [mbind res_bind].
    rewrite (proj2 (encode_request_ok req (request_bytes req) Hval)) by done.
    pose proof (validate_counts _ _ Ev) as Hcounts. split; [by apply request_slice|].
    exists req, v, nodes', kids', meta'. split; [by apply parse_request|]. split; [done|]. split; [apply copied_carries|done].
  - cbn [mbind res_bind]. destruct copied_named as [H|H]; [|done].
    rewrite (well_formed_accepted req v nodes' kids' (eb_blob b) meta' Hval Hok H) in Ev. done.
Qed.
End copy.

Lemma build_request_sends : match build_request b id command flags budget_ms target with
  | Ok frame => delivers b id command flags budget_ms target frame
  | Err _ => oversized b \/ ambiguous b flags
  | Panic => False
  end.
Proof.
  rewrite build_request_unfold.
  destruct (compact_runs b _ Hb roots_typed) as (marked & nodes' & kids' & meta' & rr & Hc & ->).
  destruct (cc_nodes _ _ _ _ _ _ _ Hc) as [Hnv Hnl]. destruct (cc_kids _ _ _ _ _ _ _ Hc) as [Hkv Hkl].
  assert (zlen nodes' <= zlen (eb_nodes b)) as Hnl'.
  { unfold zlen. rewrite Hnl. pose proof (rank_le marked (length marked)). rewrite (ls_length _ _ _ (cc_live _ _ _ _ _ _ _ Hc)) in *. lia. }
  pose proof (bt_count b Hb). pose proof (bt_blob_len b Hb). pose proof (zlen_nonneg (eb_nodes b)). pose proof (zlen_nonneg (eb_blob b)).
  destruct (Z.le_gt_cases (zlen kids') u32_max) as [Hk|Hk].
  2:{ pose proof (from_parts_total nodes' kids' (eb_blob b)) as Htot.
      destruct (from_parts nodes' kids' (eb_blob b)) as [bytes|e|] eqn:Ef; [|left; left; lia|done].
      apply from_parts_parts in Ef; [|done..]. destruct Ef. lia. }
  assert (parts_ok nodes' kids' (eb_blob b)) as Hp by (split; (done || lia)).
  rewrite (from_parts_ok _ _ _ Hp). cbn [mbind res_bind ce_bytes].
  set (bytes := layout zero_pad (replicate 12 0) nodes' kids' (eb_blob b)).
  destruct (remap_all b Hb _ _ _ _ _ _ bytes Hc wa_root Bool 0 _ sent_typed) as (assertions' & -> & Ha). cbn [mbind res_bind].
  destruct (remap_all b Hb _ _ _ _ _ _ bytes Hc (fun a => a) Bool 0 _ sent_assumption_typed) as (assumptions' & E & Hm).
  change (fun a => CompactedExpression.remap_ref ?c a) with (CompactedExpression.remap_ref c) in E. rewrite E. cbn [mbind res_bind].
  assert (exists target', (match target with
    | None => Ok None
    | Some root => r ← CompactedExpression.remap_ref (mkCompactedExpression bytes (old_to_new rr) (new_to_old rr)) root; Ok (Some r)
    end : wres (option NodeRef)) = Ok target' /\
    match target, target' with Some t, Some t' => stands_for b kids' nodes' meta' t' t (NodeRef.sort t)
    | None, None => True | _, _ => False end) as (target' & -> & Ht).
  { pose proof target_typed as Htt. destruct target as [t|]; [|by exists None].
    destruct (Htt t eq_refl) as [Hin [w Hw]].
    destruct (remap_root b Hb _ _ _ _ _ _ bytes Hc t (NodeRef.sort t) w Hin Hw) as (t' & -> & Hsf). by exists (Some t'). }
  cbn [mbind res_bind].
  assert (zlen assertions' <= zlen (eb_assertions b) /\ zlen assumptions' <= zlen (eb_assumptions b)) as [La Lm].
  { unfold zlen. rewrite (Forall2_length _ _ _ Ha), (Forall2_length _ _ _ Hm). unfold sent_assertions, sent_assumptions.
    case_bool_decide; simpl; [lia|]. rewrite ordered_length. lia. }
  assert (zlen bytes <= 32 + 24 * zlen (eb_nodes b) + 4 * zlen (eb_children b) + zlen (eb_blob b)) as Lb.
  { unfold bytes. rewrite zlen_layout by done. lia. }
  destruct (new_bounded id command flags budget_ms bytes assertions' (sent_names b command) assumptions' target')
    as [(B1 & B2 & B3)|[Hbig [e ->]]].
  - pose proof (copy_sent marked nodes' kids' meta' rr Hc Hp assertions' assumptions' target' Ha Hm Ht B1 B2 B3) as Hsent.
    fold bytes in Hsent. destruct (_ ≫= _); [done|by right|done].
  - cbn [mbind res_bind]. left. unfold oversized. lia.
Qed.
End request.

(** ** What the request asks *)

(** The valuation satisfies the client's assertions and assumptions. *)
Definition client_holds (b : ExprBuilder) (σ : Valuation) : Prop :=
  Forall (fun a => bool_of b σ (wa_root a) = true) (eb_assertions b) /\
  Forall (fun r => bool_of b σ r = true) (eb_assumptions b).

Section carried.
Context (b : ExprBuilder) (command : WireCommand) (target : option NodeRef) (r : BinaryRequest.t)
  (nodes : list RawNode) (kids : list Z) (meta : list NodeInfo).
Context (Hc : carries b command target r nodes kids meta).

Lemma stands_holds σ r' x : stands_for b kids nodes meta r' x Bool ->
  root_holds σ nodes kids (eb_blob b) r' <-> bool_of b σ x = true.
Proof. intros H. unfold root_holds, bool_of, sem_bool. by rewrite (sf_value _ _ _ _ _ _ _ H). Qed.

Lemma stand_all {A} σ (f : A -> NodeRef) l' l : Forall2 (fun r' a => stands_for b kids nodes meta r' (f a) Bool) l' l ->
  Forall (root_holds σ nodes kids (eb_blob b)) l' <-> Forall (fun a => bool_of b σ (f a) = true) l.
Proof.
  induction 1 as [|r' a l' l Hr _ IH]; [done|]. by rewrite !Forall_cons, IH, (stands_holds σ r' (f a) Hr).
Qed.

Lemma carried_holds σ : command <> CmdSimplify -> wire_holds σ r nodes kids (eb_blob b) <-> client_holds b σ.
Proof.
  intros Hne. unfold wire_holds, client_holds.
  rewrite (stand_all σ wa_root _ _ (ca_assertions _ _ _ _ _ _ _ Hc)).
  rewrite (stand_all σ (fun a => a) _ _ (ca_assumptions _ _ _ _ _ _ _ Hc)).
  unfold sent_assertions, sent_assumptions. rewrite bool_decide_false by done.
  rewrite !Forall_forall. setoid_rewrite ordered_in. done.
Qed.
End carried.

(** ** The methods that build requests *)

Inductive SendCall :=
  | SSolve (budget_ms : Z) (want_model want_core : bool) | SSimplify (target : NodeRef)
  | SMinimize (target : NodeRef) (signed : bool) (budget_ms : Z) (want_model : bool)
  | SMaximize (target : NodeRef) (signed : bool) (budget_ms : Z) (want_model : bool).

Definition run_send (b : ExprBuilder) (id : Z) (call : SendCall) : wres (list Z) :=
  match call with
  | SSolve budget_ms want_model want_core => build_solve_request b id budget_ms want_model want_core
  | SSimplify target => build_simplify_request b id target
  | SMinimize target signed budget_ms want_model => build_minimize_request b id target signed budget_ms want_model
  | SMaximize target signed budget_ms want_model => build_maximize_request b id target signed budget_ms want_model
  end.

Definition send_command (call : SendCall) : WireCommand :=
  match call with SSolve _ _ _ => CmdSolve | SSimplify _ => CmdSimplify | SMinimize _ _ _ _ => CmdMinimize | SMaximize _ _ _ _ => CmdMaximize end.
Definition send_target (call : SendCall) : option NodeRef :=
  match call with SSolve _ _ _ => None | SSimplify t | SMinimize t _ _ _ | SMaximize t _ _ _ => Some t end.
Definition send_budget (call : SendCall) : Z :=
  match call with SSolve n _ _ | SMinimize _ _ n _ | SMaximize _ _ n _ => n | SSimplify _ => 0 end.

(** Model, core and signedness, as asked for. *)
Definition send_options (call : SendCall) : bool * bool * bool :=
  match call with
  | SSolve _ m c => (m, c, false) | SSimplify _ => (false, false, false)
  | SMinimize _ s _ m | SMaximize _ s _ m => (m, false, s)
  end.

Definition request_options (r : BinaryRequest.t) : bool * bool * bool :=
  (request_flag r RequestFlags.WANT_MODEL, request_flag r RequestFlags.WANT_CORE, request_flag r RequestFlags.SIGNED).

Definition send_args (id : Z) (call : SendCall) : Prop :=
  is_u32 id /\ is_u32 (send_budget call) /\ forall t, send_target call = Some t -> is_u32 t.

(** A frame whose request asks what the call asks of the builder's constraints. *)
Definition sends (b : ExprBuilder) (id : Z) (call : SendCall) (frame : list Z) : Prop :=
  slice_ok frame /\ exists r v nodes kids meta, BinaryRequest.parse frame = Ok r /\
    request_ok r v nodes kids (eb_blob b) meta /\ carries b (send_command call) (send_target call) r nodes kids meta /\
    RequestEnvelope.request_id (BinaryRequest.envelope r) = id /\
    RequestEnvelope.command (BinaryRequest.envelope r) = send_command call /\
    RequestEnvelope.budget_ms (BinaryRequest.envelope r) = send_budget call /\
    request_options r = send_options call /\
    (send_command call <> CmdSimplify -> forall σ, wire_holds σ r nodes kids (eb_blob b) <-> client_holds b σ).

(** Two assertions have one name and a core is wanted. *)
Definition ambiguous_core (b : ExprBuilder) (call : SendCall) : Prop :=
  (send_options call).1.2 = true /\ ~ NoDup (omap (wa_spelling b) (eb_assertions b)).

Lemma flags_sent b id call flags : built b -> send_args id call -> target_ok b (send_command call) (send_target call) ->
  is_u8 flags -> Z.ldiff flags RequestFlags.ALL = 0 -> validate_command_flags (send_command call) flags = Ok tt ->
  (has_flag flags RequestFlags.WANT_MODEL, has_flag flags RequestFlags.WANT_CORE, has_flag flags RequestFlags.SIGNED) =
    send_options call ->
  match build_request b id (send_command call) flags (send_budget call) (send_target call) with
  | Ok frame => sends b id call frame
  | Err _ => oversized b \/ ambiguous_core b call
  | Panic => False
  end.
Proof.
  intros Hb (Hid & Hbud & _) Ht Hu Hall Hcf Ho.
  pose proof (build_request_sends b Hb id (send_command call) flags (send_budget call) (send_target call) Hid Hu Hbud Hall Hcf Ht) as H.
  destruct (build_request _ _ _ _ _ _) as [frame|e|]; [|..|done].
  - destruct H as (Hs & r & v & nodes & kids & meta & Hp & Hok & Hc & E1 & E2 & E3 & E4). split; [done|].
    exists r, v, nodes, kids, meta. split_and!; try done.
    + unfold request_options, request_flag. by rewrite E3.
    + intros Hne σ. by apply (carried_holds b (send_command call) (send_target call) r nodes kids meta Hc).
  - destruct H as [H|[H1 H2]]; [by left|right]. split; [|done]. by rewrite <- Ho.
Qed.

Lemma send_runs b id call : built b -> send_args id call ->
  match run_send b id call with
  | Ok frame => sends b id call frame
  | Err _ => ~ target_ok b (send_command call) (send_target call) \/ oversized b \/ ambiguous_core b call
  | Panic => False
  end.
Proof.
  intros Hb Ha. pose proof (fun flags => flags_sent b id call flags Hb Ha) as H. destruct Ha as (_ & _ & Htu).
  destruct call as [n m c|t|t s n m|t s n m]; cbn [run_send send_command send_target send_budget send_options] in *.
  - unfold build_solve_request. specialize (H (flag_if c RequestFlags.WANT_CORE (flag_if m RequestFlags.WANT_MODEL 0)) I).
    destruct (build_request _ _ _ _ _ _); [apply H|right; apply H|apply H]; by destruct c, m.
  - unfold build_simplify_request. pose proof (total_meta_for b t) as Ht. specialize (Htu t eq_refl).
    destruct (meta_for b t) as [[so w]|e|] eqn:E; [|left|done]; cbn [mbind res_bind].
    + apply (meta_for_ok b Hb t _ Htu) in E. specialize (H 0 (ex_intro _ so (ex_intro _ w E))).
      destruct (build_request _ _ _ _ _ _); [apply H|right; apply H|apply H]; done.
    + intros (so & w & Hw). apply (meta_for_ok b Hb t (mkNodeMeta so w) Htu) in Hw. congruence.
  - unfold build_minimize_request. pose proof (total_expect_bv b t) as Ht. specialize (Htu t eq_refl).
    destruct (expect_bv b t) as [w|e|] eqn:E; [|left|done]; cbn [mbind res_bind].
    + apply (expect_bv_ok b Hb t _ Htu) in E.
      specialize (H (flag_if m RequestFlags.WANT_MODEL (flag_if s RequestFlags.SIGNED 0)) (ex_intro _ w E)).
      destruct (build_request _ _ _ _ _ _); [apply H|right; apply H|apply H]; by destruct m, s.
    + intros (w & Hw). apply (expect_bv_ok b Hb t w Htu) in Hw. congruence.
  - unfold build_maximize_request. pose proof (total_expect_bv b t) as Ht. specialize (Htu t eq_refl).
    destruct (expect_bv b t) as [w|e|] eqn:E; [|left|done]; cbn [mbind res_bind].
    + apply (expect_bv_ok b Hb t _ Htu) in E.
      specialize (H (flag_if m RequestFlags.WANT_MODEL (flag_if s RequestFlags.SIGNED 0)) (ex_intro _ w E)).
      destruct (build_request _ _ _ _ _ _); [apply H|right; apply H|apply H]; by destruct m, s.
    + intros (w & Hw). apply (expect_bv_ok b Hb t w Htu) in Hw. congruence.
Qed.

(** ** The theorem *)

(** C15: the requests of a client are right.  For every state of the builder that a
    client can reach and every request it makes, [build_*_request] never panics, and
    fails only when the target is ill sorted, the builder does not fit a frame, or a
    core is wanted of assertions of which two have one name.  The frame it returns is
    parsed by the server into a well-formed request with the id, command, budget and
    options the client gave.  The request has, in order, the named assertions with
    their names and then the others, and the assumptions, for a simplification none of
    these; each root, and the target, is a reference into the compacted expression
    that has the sort and, under every valuation of the symbols, the value of the
    client's reference.  So the valuations that satisfy the request are exactly those
    that satisfy the client's assertions and assumptions. *)
Theorem client_requests_correct b id call : rtc client_step new b -> send_args id call ->
  match run_send b id call with
  | Ok frame => sends b id call frame
  | Err _ => ~ target_ok b (send_command call) (send_target call) \/ oversized b \/ ambiguous_core b call
  | Panic => False
  end.
Proof. intros Hr. apply send_runs. by apply reachable_built. Qed.

(** ** Witness: the client asserts [x + 5 = 5], named, and asks for a model *)

Definition asserting_client : ExprBuilder := (run_root (RAssertNamed "sum" 2147483651) sample_client).2.

Lemma asserting_client_reachable : rtc client_step new asserting_client.
Proof. eapply rtc_r; [apply sample_client_reachable|]. apply step_root. by vm_compute. Qed.

Definition client_frame : list Z :=
  match run_send asserting_client 9 (SSolve 100 true true) with Ok frame => frame | _ => [] end.

Lemma client_frame_sent : run_send asserting_client 9 (SSolve 100 true true) = Ok client_frame.
Proof. vm_compute. reflexivity. Qed.

Lemma client_requests_correct_witness : sends asserting_client 9 (SSolve 100 true true) client_frame.
Proof.
  pose proof (client_requests_correct asserting_client 9 (SSolve 100 true true) asserting_client_reachable) as H.
  rewrite client_frame_sent in H. apply H. split; [done|]. split; [done|]. by intros t [=].
Defined.

(** ** From the client's builder to the answer

    The chain of the whole system: the client builds terms and asserts them, sends a
    request, the server parses the frame, translates it to a query and solves it. *)

#[local] Open Scope Z_scope.

(** The client's constraints but for the named assertions not in [active], numbered as
    they are sent. *)
Definition client_core_holds (b : ExprBuilder) (σ : Valuation) (active : list nat) : Prop :=
  (forall i a, ordered b !! i = Some a -> wa_name a = None \/ i ∈ active -> bool_of b σ (wa_root a) = true) /\
  Forall (fun r => bool_of b σ r = true) (eb_assumptions b).

(** The name of the [i]-th assertion sent. *)
Definition sent_name (b : ExprBuilder) (i : nat) : option string := ordered b !! i ≫= wa_spelling b.

Section carried.
Context (b : ExprBuilder) (Hb : built b) (r : BinaryRequest.t) (v : ExprView) (nodes : list RawNode) (kids : list Z)
  (meta : list NodeInfo).
Context (Hok : request_ok r v nodes kids (eb_blob b) meta) (Hc : carries b CmdSolve None r nodes kids meta).

Lemma sent_is_ordered : sent_assertions b CmdSolve = ordered b.
Proof. done. Qed.

Lemma carried_names (active : list nat) :
  omap (assertion_name (eb_blob b) (BinaryRequest.named_assertion_refs r)) active = omap (sent_name b) active.
Proof.
  enough (forall i, assertion_name (eb_blob b) (BinaryRequest.named_assertion_refs r) i = sent_name b i) as Heq.
  { induction active as [|i l IH]; simpl; [done|]. rewrite Heq. destruct (sent_name b i); [f_equal|]; exact IH. }
  intros i. unfold sent_name.
  destruct (ordered b !! i) as [a|] eqn:E; simpl; [by apply (ca_names _ _ _ _ _ _ _ Hc)|].
  pose proof (co_le _ (ro_counts _ _ _ _ _ _ Hok)) as Hle. apply lookup_ge_None in E.
  pose proof (Forall2_length _ _ _ (ca_assertions _ _ _ _ _ _ _ Hc)) as Hl. rewrite sent_is_ordered in Hl.
  unfold assertion_name. rewrite (proj2 (lookup_ge_None _ _)); [done|]. unfold zlen in Hle. lia.
Qed.

Lemma unnamed_spelling i a : ordered b !! i = Some a -> wa_spelling b a = None <-> wa_name a = None.
Proof.
  intros Hi. apply list_elem_of_lookup_2, ordered_in in Hi. pose proof (bt_assertions b Hb) as H'.
  rewrite Forall_forall in H'. destruct (H' a Hi) as [_ Hn]. unfold wa_spelling.
  destruct (wa_name a) as [n|]; [|done]. destruct (Hn n eq_refl) as [_ [s Es]]. simpl. by rewrite Es.
Qed.

Lemma carried_core σ active : core_holds σ r nodes kids (eb_blob b) active <-> client_core_holds b σ active.
Proof.
  unfold core_holds, client_core_holds.
  rewrite (stand_all b nodes kids meta σ (fun a => a) _ _ (ca_assumptions _ _ _ _ _ _ _ Hc)).
  pose proof (ca_assertions _ _ _ _ _ _ _ Hc) as Ha. rewrite sent_is_ordered in Ha.
  split; intros [H Hm]; (split; [|exact Hm]).
  - intros i a Hi Hin. destruct (Forall2_lookup_r _ _ _ _ _ Ha Hi) as (x & Hx & Hs).
    apply (stands_holds b nodes kids meta σ x (wa_root a) Hs), (H i x Hx).
    by rewrite (ca_names _ _ _ _ _ _ _ Hc i a Hi), (unnamed_spelling i a Hi).
  - intros i x Hx Hin. destruct (Forall2_lookup_l _ _ _ _ _ Ha Hx) as (a & Hi & Hs).
    apply (stands_holds b nodes kids meta σ x (wa_root a) Hs), (H i a Hi).
    by rewrite (ca_names _ _ _ _ _ _ _ Hc i a Hi), (unnamed_spelling i a Hi) in Hin.
Qed.
End carried.

(** From the client's builder to a decided answer.  Whatever a client built, when its
    solve request is parsed and translated to a query within range ([all_fit]) and
    [solve_without_shortcuts] is run on that with the [Dpll] backend, no budget and no
    token, the answer is [Sat] exactly when some
    valuation of the symbols satisfies the client's assertions and assumptions, and
    [Unsat] exactly when none does.  A model the client asked for is translated by [model_to_wire] to a block
    that passes the client's check against the expression it sent, and every valuation
    that agrees with the block satisfies the client's constraints.  A core the client
    asked for lists names the client gave; the assertions of these names are, with the
    unnamed ones and the assumptions, unsatisfiable, and satisfiable without any one of
    them. *)
Theorem client_answered `{Backends} `{Recognisers} b id budget_ms want_model want_core frame r q config world :
  rtc client_step ExprBuilder.new b -> is_u32 id -> is_u32 budget_ms ->
  ExprBuilder.build_solve_request b id budget_ms want_model want_core = Ok frame ->
  BinaryRequest.parse frame = Ok r -> query_from_wire r = Ok q ->
  sat_backend config = Dpll -> budget config = None -> cancellation_token config = None -> all_fit q ->
  exists answer v nodes kids meta, solve_without_shortcuts config q world = Ok answer /\
    request_ok r v nodes kids (eb_blob b) meta /\
    (status answer = SolveStatus.Sat /\ (exists σ, client_holds b σ) \/
     status answer = SolveStatus.Unsat /\ ~ (exists σ, client_holds b σ)) /\
    (want_model = true -> status answer = SolveStatus.Sat ->
     exists m block, model answer = Some m /\ model_to_wire m = Ok block /\
       ModelBlock.validate_against_expr block v = Ok tt /\
       (exists σ, Forall (entry_agrees nodes (eb_blob b) σ) block) /\
       forall σ, Forall (entry_agrees nodes (eb_blob b) σ) block -> client_holds b σ) /\
    (want_core = true -> status answer = SolveStatus.Unsat ->
     exists active, core answer = Some (omap (sent_name b) active) /\
       ~ (exists σ, client_core_holds b σ active) /\
       forall i, i ∈ active -> exists σ, client_core_holds b σ (filter (fun k => k <> i) active)).
Proof.
  intros Hreach Hid Hbud Esend Eparse Eq Hd Hnb Hnt Hfit. pose proof (reachable_built b Hreach) as Hb.
  pose proof (send_runs b id (SSolve budget_ms want_model want_core) Hb) as Hs. cbn [run_send] in Hs. rewrite Esend in Hs.
  destruct Hs as (Hslice & r' & v & nodes & kids & meta & Er & Hok & Hc & _ & Ecmd & _ & Eopt & Hholds); [by split_and!|].
  rewrite Eparse in Er. injection Er as <-. cbn [send_command send_target send_options] in *. injection Eopt as Em Ec Es.
  destruct (parse_request_inv frame r Hslice Eparse) as (Hval & _).
  destruct (request_decided r v nodes kids (eb_blob b) meta q config world) as (answer & Ea & Hst & Hmodel & Hcore); [done..|].
  specialize (Hholds ltac:(done)). setoid_rewrite Hholds in Hst. exists answer, v, nodes, kids, meta. split_and!; [done|done|exact Hst| |].
  - intros Hm Hsat. rewrite <- Em in Hm. destruct (Hmodel Hm Hsat) as (m & block & E1 & E2 & _ & E3 & E4 & E5).
    exists m, block. split_and!; [done..|]. intros σ Hσ. by apply Hholds, E5.
  - intros Hw Hun. rewrite <- Ec in Hw. destruct (Hcore Hw Hun) as (active & E1 & E2 & E3). exists active.
    setoid_rewrite (carried_core b Hb r nodes kids meta Hc) in E2.
    setoid_rewrite (carried_core b Hb r nodes kids meta Hc) in E3.
    split_and!; [|exact E2|exact E3]. rewrite E1. by rewrite (carried_names b r v nodes kids meta Hok Hc).
Qed.

(** ** Witness: the client's [x + 5 = 5] *)

Definition client_request : BinaryRequest.t := match BinaryRequest.parse client_frame with Ok r => r | _ => sample_request end.
Definition client_query : Query := match query_from_wire client_request with Ok q => q | _ => sample_query end.

Lemma client_query_fits : all_fit client_query.
Proof. apply all_fit_check. vm_compute. reflexivity. Qed.

Lemma client_answered_witness : exists answer,
  solve_without_shortcuts (H := silent_backends) (H0 := no_recognisers) dpll_config client_query unlimited = Ok answer /\
  (status answer = SolveStatus.Sat /\ (exists σ, client_holds asserting_client σ) \/
   status answer = SolveStatus.Unsat /\ ~ (exists σ, client_holds asserting_client σ)).
Proof.
  destruct (client_answered (H := silent_backends) (H0 := no_recognisers) asserting_client 9 100 true true client_frame
    client_request client_query dpll_config unlimited asserting_client_reachable)
    as (answer & v & nodes & kids & meta & E & _ & Ha & _).
  - done.
  - done.
  - vm_compute. reflexivity.
  - vm_compute. reflexivity.
  - vm_compute. reflexivity.
  - reflexivity.
  - reflexivity.
  - reflexivity.
  - exact client_query_fits.
  - exists answer. split; [exact E|exact Ha].
Defined.
