(* ===== verification/ServiceFacts.v ===== *)
(** * The server's own solver keeps its promises

    Whatever the clock, the cancellation flag and the thread scheduler do, the result of
    the backend is one of the solver for the request's query; its artifacts are values of
    their types, and what it claims of the request's symbols is true; routers, pools and
    races of it inherit that. *)
From stdpp Require Import sorting.
From S2P Require Import Prelude Bits Smt SmtFacts Bytes BytesFacts Ir Sem Evaluator EvaluatorFacts.
From S2P Require Import Builder BuilderSpec BuilderReads BuilderFacts BuilderVars BuilderState.
From S2P Require Import BuilderApi BuilderSession.
From S2P Require Import Model ModelFacts Config Sat SatFacts PatternFacts Shortcuts ShortcutsFacts Solver.
From S2P Require Import SolverFacts OptimizeFacts SolveFacts.
From S2P Require Import WireBase WireBaseFacts WireExpr WireExprFacts WireDag WireRequest.
From S2P Require Import WireRequestFacts.
From S2P Require Import WireResponse WireResponseFacts Backend Server ServerFacts BackendFacts.
From S2P Require Import DispatchFacts.
From S2P Require Import WireMeaning WireQuery WireQueryFacts WireQueryTheorems WireModel.
From S2P Require Import SolverBackend.

#[local] Open Scope Z_scope.

(** ** Results of the solver are values of their types *)

Definition yields {A} (P : A -> Prop) (r : res A) : Prop := forall a, r = Ok a -> P a.

Lemma yields_bind {A B} (P : A -> Prop) (Q : B -> Prop) (m : res A) k :
  yields P m -> (forall a, P a -> yields Q (k a)) -> yields Q (m ≫= k).
Proof. intros Hm Hk b. destruct m as [a|e|]; [|done..]. by apply Hk, Hm. Qed.

Lemma yields_ok {A} (P : A -> Prop) a : P a -> yields P (Ok a).
Proof. by intros H b [= <-]. Qed.

Lemma yields_any {A} (m : res A) : yields (fun _ => True) m.
Proof. done. Qed.

Lemma yields_or {B} (P : list Z -> Prop) (Q : B -> Prop) (x : bool) (m : res (list Z)) bytes k :
  yields P m -> P bytes -> (forall a, P a -> yields Q (k a)) -> yields Q ((if x then m else Ok bytes) ≫= k).
Proof. intros Hm Hb Hk. apply (yields_bind P); [|done]. destruct x; [done|by apply yields_ok]. Qed.

Definition value_typed (value : ScalarValue) : Prop :=
  match value with ScalarBool _ => True | ScalarBv _ bytes => Forall is_byte bytes end.

Definition model_typed (m : Model) : Prop := Forall (fun e => value_typed (me_value e)) (entries m).

(** The bit of a byte set, or a panic. *)
Lemma set_bit_typed bytes bit : Forall is_byte bytes ->
  yields (Forall is_byte) (byte ← index bytes (bit / 8);
    set_index bytes (bit / 8) (Z.lor byte (u8 (Z.shiftl 1 (Z.of_nat (bit mod 8)))))).
Proof.
  intros Hb l E. destruct (decide (bit < 8 * length bytes)%nat) as [Hl|Hl].
  - rewrite fill_step in E by done. injection E as <-. by apply bytes_set_bit.
  - unfold index in E. rewrite lookup_ge_None_2 in E; [done|]. apply Nat.div_le_lower_bound; lia.
Qed.

Lemma fill_bytes_typed assignment gates bit bytes : Forall is_byte bytes ->
  yields (Forall is_byte) (fill_bytes assignment gates bit bytes).
Proof.
  revert bit bytes. induction gates as [|g gates IH]; intros bit bytes Hb; cbn [fill_bytes]; [by apply yields_ok|].
  eapply yields_bind; [apply yields_any|]. intros v _.
  apply (yields_or (Forall is_byte)); [by apply set_bit_typed|done|]. intros l Hl. by apply IH.
Qed.

Lemma variable_value_typed assignment v : yields value_typed (variable_value assignment v).
Proof.
  unfold variable_value. destruct (Blast.bv_sort v) as [|width]; (eapply yields_bind; [apply yields_any|]; intros x _).
  - eapply yields_bind; [apply yields_any|]. intros b _. by apply yields_ok.
  - eapply yields_bind; [apply fill_bytes_typed, bytes_replicate, is_byte_0|]. intros bytes Hb.
    apply yields_ok. by apply bytes_mask.
Qed.

Lemma build_model_typed vars assignment : yields model_typed (build_model vars assignment).
Proof.
  eapply (yields_bind (Forall (fun e => value_typed (me_value e)))); [|intros l Hl; by apply yields_ok].
  intros l E. revert l E. induction vars as [|v vars IH]; intros l; cbn [mapM].
  { intros [= <-]. constructor. }
  intros (e & E & (l' & E' & [= <-])%bind_ok)%bind_ok. constructor; [|by apply IH]. unfold build_entry in E.
  apply bind_ok in E as (x & E & [= <-]). exact (variable_value_typed assignment v x E).
Qed.

(** The artifacts of a result: typed values, and names of the query's assertions. *)
Record artifacts_typed (q : Query) (r : SolveResult) : Prop := {
  at_model m : model r = Some m -> model_typed m;
  at_optimum o : optimum r = Some o -> value_typed o;
  at_core names : core r = Some names -> Forall (fun n => exists a, a ∈ assertions q /\ name a = Some n) names;
}.

Lemma bare_typed q s text : artifacts_typed q (mkSolveResult s None None None text).
Proof. done. Qed.

Lemma limit_unknown_typed q lim p : artifacts_typed q (limit_unknown lim p).
Proof. unfold limit_unknown. by destruct (is_cancelled lim p). Qed.

Section typed.
Context `{Backends} `{Recognisers} (config : Config).

Lemma solve_core_typed q wm lim q' : yields (artifacts_typed q') (solve_core_once_with_deadline config q wm lim).
Proof.
  unfold solve_core_once_with_deadline. destruct (is_cancelled lim [0%nat]); [by apply yields_ok|].
  destruct (deadline_passed lim [0%nat]); [by apply yields_ok|].
  destruct (Blast.blast_query_with_limits q (under 1 lim)) as [b|[]|]; try done; [|apply yields_ok, limit_unknown_typed].
  destruct (Cnf.encode_with_limits _ _ _) as [cnf|[]|]; try done; [|apply yields_ok, limit_unknown_typed].
  eapply yields_bind; [apply yields_any|]. intros [assignment| |text] _; [|by apply yields_ok..].
  apply (yields_bind (fun m => forall x, m = Some x -> model_typed x)).
  - destruct wm; [|by apply yields_ok]. eapply yields_bind; [apply build_model_typed|]. intros m Hm.
    apply yields_ok. by intros x [= <-].
  - intros m Hm. apply yields_ok. by split.
Qed.

Lemma run_unsat_typed q lim passes i : yields (fun early => forall hit, early = Some (Some hit) -> hit_result hit = SolveResult.unsat)
  (run_unsat_passes q lim i passes).
Proof.
  revert i. induction passes as [|pass passes IH]; intros i; cbn [run_unsat_passes]; [by apply yields_ok|].
  destruct (is_cancelled lim [i]); [by apply yields_ok|]. eapply yields_bind; [apply yields_any|]. intros [] _; [|apply IH].
  apply yields_ok. by intros hit [= <-].
Qed.

Lemma run_sat_typed q c lim passes i : yields (fun found => forall hit, found = Some hit -> hit_result hit = SolveResult.sat None)
  (run_sat_passes q c lim i passes).
Proof.
  revert i. induction passes as [|pass passes IH]; intros i; cbn [run_sat_passes]; [by apply yields_ok|].
  destruct (is_cancelled lim [i]); [by apply yields_ok|]. eapply yields_bind; [apply yields_any|]. intros [] _; [|apply IH].
  apply yields_ok. by intros hit [= <-].
Qed.

Lemma try_solve_typed q wm lim q' : yields (fun found => forall hit, found = Some hit -> artifacts_typed q' (hit_result hit))
  (try_solve q wm config lim).
Proof.
  unfold try_solve. destruct (decide _); [by apply yields_ok|]. eapply yields_bind; [apply run_unsat_typed|].
  intros [hit|] Hh.
  - apply yields_ok. intros x ->. by rewrite (Hh x eq_refl).
  - intros found E x ->. by rewrite (run_sat_typed _ _ _ _ _ _ E x eq_refl).
Qed.

Lemma solve_once_typed q wm lim q' : yields (artifacts_typed q') (solve_once_with_deadline config q wm lim).
Proof.
  unfold solve_once_with_deadline. destruct (is_cancelled lim [0%nat]); [by apply yields_ok|].
  destruct (command q); try done; [|by apply yields_ok].
  destruct (deadline_passed lim [0%nat]); [by apply yields_ok|]. eapply yields_bind; [apply (try_solve_typed q wm _ q')|].
  intros [hit|] Hh; [|apply solve_core_typed]. specialize (Hh hit eq_refl).
  destruct (is_cancelled lim [2%nat]); [by apply yields_ok|]. destruct (decide _); [|by apply yields_ok].
  eapply yields_bind; [apply yields_any|]. intros core _. destruct (_ && _); by apply yields_ok.
Qed.

Lemma optimize_bits_typed sgnd minimize t w lim q' bits : forall fixed opt, Forall is_byte opt ->
  yields (fun x => match x with inl early => artifacts_typed q' early | inr (_, opt) => Forall is_byte opt end)
    (optimize_bits config sgnd minimize t w lim bits fixed opt).
Proof.
  induction bits as [|bit bits IH]; intros fixed opt Ho; cbn [optimize_bits]; [by apply yields_ok|]. cbv zeta.
  eapply yields_bind; [apply yields_any|]. intros trial _. eapply yields_bind; [apply yields_any|]. intros r _.
  assert (forall (x : bool) fixed, yields (fun x => match x with inl early => artifacts_typed q' early | inr (_, opt) => Forall is_byte opt end)
    (opt ← (if x then set_optimum_bit opt bit else Ok opt); optimize_bits config sgnd minimize t w lim bits fixed opt)) as Hnext.
  { intros x f. apply (yields_or (Forall is_byte)); [by apply set_bit_typed|done|]. intros l Hl. by apply IH. }
  destruct (status r); [apply Hnext| |by apply yields_ok..]. eapply yields_bind; [apply yields_any|]. intros other _. apply Hnext.
Qed.

Lemma optimize_typed q lim q' : yields (artifacts_typed q') (optimize config q lim).
Proof.
  unfold optimize. do 3 (eapply yields_bind; [apply yields_any|]; intros ? _). cbv zeta.
  eapply yields_bind; [apply yields_any|]. intros base _. destruct (status base); [|by apply yields_ok..].
  eapply yields_bind; [by apply (optimize_bits_typed _ _ _ _ _ q'), bytes_replicate, is_byte_0|].
  intros [early|[fixed opt]] Hx; [by apply yields_ok|].
  apply (yields_bind (fun m => match m with inl early => artifacts_typed q' early | inr m => forall x, m = Some x -> model_typed x end)).
  - unfold optimize_model. destruct (want_model q); [|by apply yields_ok].
    eapply yields_bind; [apply (solve_once_typed _ _ _ q')|]. intros r Hr. destruct (status r); apply yields_ok; try done. apply Hr.
  - intros [early|m] Hm; apply yields_ok; [done|]. split; [done| |done]. by intros o [= <-].
Qed.

Lemma core_names_typed q active : yields (Forall (fun n => exists a, a ∈ assertions q /\ name a = Some n)) (core_names q active).
Proof.
  induction active as [|i active IH]; cbn [core_names]; [apply yields_ok; constructor|].
  apply (yields_bind (fun a => a ∈ assertions q)).
  { intros a. unfold index. destruct (assertions q !! i) eqn:E; [|done]. intros [= <-]. by eapply list_elem_of_lookup_2. }
  intros a Ha. eapply yields_bind; [exact IH|]. intros names Hn. apply yields_ok. destruct (name a) eqn:E; [|done].
  constructor; [by exists a|done].
Qed.

Lemma solve_typed q world : yields (artifacts_typed q) (solve config q world).
Proof.
  unfold solve. cbv zeta. destruct (negb _); [done|]. destruct (is_cancelled _ [0%nat]); [by apply yields_ok|].
  assert (yields (artifacts_typed q) (r ← solve_once_with_deadline config q (want_model q) (under 2 (limits_of config world));
    if bool_decide (status r = SolveStatus.Unsat) && want_core q then
      match extract_named_core config q (under 3 (limits_of config world)) with
      | Ok names => Ok (SolveResult.with_core r (Some names))
      | Err Timeout => Ok (limit_unknown (limits_of config world) [4%nat])
      | Err err => Err err
      | Panic => Panic
      end
    else Ok r)) as Hs.
  { eapply yields_bind; [apply (solve_once_typed _ _ _ q)|]. intros r [Hm Ho Hc]. destruct (_ && _); [|by apply yields_ok].
    unfold extract_named_core. cbv zeta. destruct (core_loop _ _ _ _ _ _) as [active|e|]; cbn [mbind res_bind]; [|destruct e; try done|done].
    - pose proof (core_names_typed q active) as Hn. destruct (core_names q active) as [names|e|]; [|destruct e; try done|done].
      + apply yields_ok. split; [done..|]. intros x [= <-]. by apply Hn.
      + apply yields_ok, limit_unknown_typed.
    - apply yields_ok, limit_unknown_typed. }
  destruct (command q); [exact Hs|exact Hs|apply optimize_typed..].
Qed.
End typed.

(** ** The model of a request *)

Lemma tag_var x : Tag.try_from x = Some TBvVar -> x = 0.
Proof.
  unfold Tag.try_from. destruct (Z.ltb_spec x 0); [done|]. intros E.
  assert (Z.to_nat x = 0%nat); [|lia]. revert E. generalize (Z.to_nat x). intros k.
  do 44 (destruct k as [|k]; [first [done|intros [=]]|]). done.
Qed.

Lemma tag_bool_var x : Tag.try_from x = Some TBoolVar -> x = 26.
Proof.
  unfold Tag.try_from. destruct (Z.ltb_spec x 0); [done|]. intros E.
  assert (Z.to_nat x = 26%nat); [|lia]. revert E. generalize (Z.to_nat x). intros k.
  do 44 (destruct k as [|k]; [first [done|intros [=]]|]). done.
Qed.

Section model.
Context (v : ExprView) (nodes : list RawNode) (kids blob : list Z) (meta : list NodeInfo).
Context (Hv : view_of v nodes kids blob) (Hd : dag_ok nodes kids blob meta).
Context (s : Arena) (tr : Translation) (Hi : inv s) (Hvars : vars_ok nodes blob s tr).

Definition var_tag_of (so : WireBase.Sort) : Tag := match so with Bv => TBvVar | Bool => TBoolVar end.
Definition var_width (so : WireBase.Sort) (n : RawNode) : Z := match so with Bv => node_width n | Bool => 0 end.

Definition symbol_key (so : WireBase.Sort) (n : RawNode) : string * (bool * Z) :=
  Qfbvsmtrs.value_key (symbol blob n) so (var_width so n).

Lemma ref_parts so i n : nodes !! i = Some n ->
  Z.to_nat (NodeRef.index (raw_ref so i)) = i /\ NodeRef.sort (raw_ref so i) = so /\ is_u32 (raw_ref so i) /\
  NodeRef.new so (Z.of_nat i) = Ok (raw_ref so i).
Proof.
  intros Hn. pose proof (node_index_small v nodes kids blob Hv i n Hn) as Hs.
  destruct (raw_ref_ok so i Hs) as (E1 & E2 & E3). rewrite E1, Nat2Z.id. split_and!; [done..|by apply noderef_new].
Qed.

Lemma entry_key_at so i n x : nodes !! i = Some n ->
  entry_key nodes blob (mkWireModelEntry (raw_ref so i) x) = symbol_key so n.
Proof.
  intros Hn. destruct (ref_parts so i n Hn) as (E1 & E2 & _). unfold entry_key. cbn [node_ref].
  rewrite E1, Hn, is_bool_sort, E2. by destruct so.
Qed.

(** The entry of a node stands for every node of its symbol. *)
Lemma entry_for_same e we so i n : entry_for nodes blob s tr e we -> nodes !! i = Some n ->
  Tag.try_from (tag n) = Some (var_tag_of so) -> is_Some (blob_name blob (RawNode.blob_ref n)) ->
  entry_key nodes blob we = symbol_key so n ->
  entry_for nodes blob s tr e (mkWireModelEntry (raw_ref so i) (entry_value we)).
Proof.
  intros [H1 H2 H3 (m & Hm & Hs & H4) H5] Hn Ht Hname Hk. destruct (ref_parts so i n Hn) as (E1 & E2 & _).
  specialize (H1 m Hm). unfold entry_key in Hk. rewrite Hm, is_bool_sort in Hk. unfold symbol_key, Qfbvsmtrs.value_key in Hk.
  split; cbn [node_ref entry_value]; rewrite ?E1, ?E2; try done.
  - intros n' Hn'. assert (n' = n) as -> by congruence. rewrite H1. destruct (NodeRef.sort (node_ref we)), so; congruence.
  - exists n. split; [done|]. split; [done|]. destruct (NodeRef.sort (node_ref we)), so; simpl in Hk; try congruence;
      injection Hk as ?; destruct H4 as (_ & Hw & Hl); (split; [exact Ht|]); split; congruence.
  - intros σ env Ha. rewrite (H5 σ env Ha). unfold entry_agrees. cbn [node_ref entry_value]. rewrite E1, E2, Hm, Hn.
    destruct (NodeRef.sort (node_ref we)), so; simpl in Hk; try congruence; injection Hk as ?;
      (split; intros (x & Ex & Hx); injection Ex as <-; eexists; (split; [done|])); congruence.
Qed.

Lemma key_of_entry e we : entry_for nodes blob s tr e we -> Qfbvsmtrs.scalar_to_wire (me_value e) = Ok (entry_value we) /\
  Qfbvsmtrs.value_key (me_name e) (Qfbvsmtrs.value_sort (entry_value we)) (WireScalar.width (entry_value we)) =
  entry_key nodes blob we.
Proof.
  intros [H1 H2 H3 (m & Hm & Hs & H4) H5]. split.
  - destruct (me_value e) as [b|w bytes]; [by injection H2 as <-|]. unfold wire_value, wire_err in H2.
    cbn [Qfbvsmtrs.scalar_to_wire]. by destruct (WireScalar.bv _ _); simpl in H2; simplify_eq.
  - rewrite (H1 m Hm). unfold entry_key. rewrite Hm, is_bool_sort. unfold Qfbvsmtrs.value_key, Qfbvsmtrs.value_sort.
    destruct (NodeRef.sort (node_ref we)).
    + destruct H4 as (Ht & -> & _). destruct (dag_info nodes kids blob meta Hd _ m Hm) as (t & Ht' & Em).
      assert (t = TBvVar) as -> by congruence. pose proof (dag_shape _ _ _ _ Hd _ m _ Hm Em) as (_ & Hw & _). simpl in Hw.
      by rewrite (proj2 (Z.eqb_neq _ _)) by lia.
    + by destruct H4 as (_ & -> & _).
Qed.

(** The table the loop over the model's entries builds. *)
Definition valued (l : list WireModelEntry) (values : gmap (string * (bool * Z)) WireScalar.t) : Prop :=
  forall key x, values !! key = Some x <-> exists we, we ∈ l /\ entry_key nodes blob we = key /\ entry_value we = x.

Lemma collect_values_ok l wl : Forall2 (entry_for nodes blob s tr) l wl -> forall done_ values,
  NoDup (entry_key nodes blob <$> done_ ++ wl) -> valued done_ values ->
  exists values', Qfbvsmtrs.collect_values values l = Ok values' /\ valued (done_ ++ wl) values'.
Proof.
  induction 1 as [|e we l wl He _ IH]; intros done_ values Hnd Hval; cbn [Qfbvsmtrs.collect_values].
  { exists values. by rewrite app_nil_r. }
  destruct (key_of_entry e we He) as [-> Ek]. cbn [mbind res_bind]. cbv zeta. rewrite Ek.
  assert (values !! entry_key nodes blob we = None) as Hnew.
  { destruct (values !! entry_key nodes blob we) as [x|] eqn:Ex; [|done]. exfalso.
    apply Hval in Ex as (we' & Hin & E & _). rewrite fmap_app in Hnd. apply NoDup_app in Hnd as (_ & Hnd & _).
    apply (Hnd (entry_key nodes blob we)); [rewrite <- E; by apply list_elem_of_fmap_2|]. rewrite fmap_cons. by left. }
  rewrite Hnew. cbn [mbind res_bind].
  destruct (IH (done_ ++ [we]) (<[entry_key nodes blob we := entry_value we]> values)) as (values' & E & Hv').
  - by rewrite <- app_assoc.
  - intros key x. destruct (decide (key = entry_key nodes blob we)) as [->|Hne].
    + rewrite lookup_insert_eq. split.
      * intros [= <-]. exists we. split; [|done]. apply elem_of_app. right. by left.
      * intros (we' & [Hin|Hin%list_elem_of_singleton]%elem_of_app & Ekey & <-); [|by subst].
        exfalso. assert (is_Some (values !! entry_key nodes blob we)) as [y Hy]; [|congruence].
        exists (entry_value we'). apply Hval. by exists we'.
    + rewrite lookup_insert_ne by done. rewrite (Hval key x). split; intros (we' & Hin & Ekey & Ev); exists we'; (split; [|done]).
      * apply elem_of_app. by left.
      * apply elem_of_app in Hin as [Hin|Hin%list_elem_of_singleton]; [done|]. subst. congruence.
  - exists values'. by rewrite E, <- app_assoc in *.
Qed.

(** The entry a node gets. *)
Definition node_entry (values : gmap (string * (bool * Z)) WireScalar.t) (i : nat) : option WireModelEntry :=
  n ← nodes !! i;
  t ← Tag.try_from (tag n);
  so ← (match t with TBvVar => Some Bv | TBoolVar => Some Bool | _ => None end);
  x ← values !! symbol_key so n;
  Some (mkWireModelEntry (raw_ref so i) x).

Lemma variable_of_node i n t : nodes !! i = Some n -> Tag.try_from (tag n) = Some t ->
  Qfbvsmtrs.variable_of v n = Ok (so ← (match t with TBvVar => Some Bv | TBoolVar => Some Bool | _ => None end);
    Some (so, var_width so n, symbol blob n)).
Proof.
  intros Hn Ht. destruct (dag_info nodes kids blob meta Hd i n Hn) as (t' & Ht' & Em). assert (t' = t) as -> by congruence.
  unfold Qfbvsmtrs.variable_of. destruct (decide (is_var t = true)) as [Hvar|Hvar].
  - destruct (name_known v nodes kids blob meta Hv Hd i n t Hn Em Hvar) as (name & Hname & Hstr).
    assert (symbol blob n = name) as -> by (unfold symbol; by rewrite Hname). unfold RawNode.blob_ref.
    destruct t; try done; [apply tag_var in Ht as ->|apply tag_bool_var in Ht as ->]; cbn [Z.eqb Pos.eqb]; by rewrite Hstr.
  - destruct (Z.eqb_spec (tag n) 0) as [E|_]; [rewrite E in Ht; injection Ht as <-; done|].
    destruct (Z.eqb_spec (tag n) 26) as [E|_]; [rewrite E in Ht; injection Ht as <-; done|]. by destruct t.
Qed.

Lemma node_entries_ok values m : forall i, (i + m = length nodes)%nat ->
  Qfbvsmtrs.node_entries v values m (Z.of_nat i) = Ok (omap (node_entry values) (seq i m)).
Proof.
  induction m as [|m IH]; intros i Hm; [done|]. cbn [Qfbvsmtrs.node_entries seq omap list_omap].
  destruct (lookup_lt_is_Some_2 nodes i) as [n Hn]; [lia|]. rewrite (view_node _ _ _ _ Hv _ _ Hn). cbn [mbind res_bind].
  destruct (dag_info nodes kids blob meta Hd i n Hn) as (t & Ht & _). rewrite (variable_of_node i n t Hn Ht).
  replace (Z.of_nat i + 1) with (Z.of_nat (S i)) by lia. rewrite IH by lia.
  assert (node_entry values i = (so ← (match t with TBvVar => Some Bv | TBoolVar => Some Bool | _ => None end);
    x ← values !! symbol_key so n; Some (mkWireModelEntry (raw_ref so i) x))) as ->.
  { unfold node_entry. rewrite Hn. cbn [mbind option_bind]. by rewrite Ht. }
  destruct (match t with TBvVar => Some Bv | TBoolVar => Some Bool | _ => None end) as [so|]; [|done].
  cbn [mbind option_bind res_bind]. change (Qfbvsmtrs.value_key (symbol blob n) so (var_width so n)) with (symbol_key so n).
  destruct (values !! symbol_key so n) as [x|]; [|done]. cbn [mbind option_bind res_bind].
  destruct (ref_parts so i n Hn) as (_ & _ & _ & ->). done.
Qed.
End model.

(** *** Its entries are values of their types *)

Lemma scalar_to_wire_typed value x : value_typed value -> Qfbvsmtrs.scalar_to_wire value = Ok x -> scalar_typed x.
Proof.
  destruct value as [b|w bytes]; simpl.
  - intros _ [= <-]. split; [done|]. constructor; [|constructor]. by destruct b.
  - intros Hb (n & [Hw _]%wire_bytes_ok & ([] & _ & ([] & _ & [= <-])%bind_ok)%bind_ok)%bind_ok. split; [|done].
    unfold is_u32, MAX_BV_WIDTH in *. simpl. lia.
Qed.

Lemma collect_values_typed l : Forall (fun e => value_typed (me_value e)) l -> forall values values',
  map_Forall (fun _ => scalar_typed) values -> Qfbvsmtrs.collect_values values l = Ok values' ->
  map_Forall (fun _ => scalar_typed) values'.
Proof.
  induction 1 as [|e l He _ IH]; intros values values' Hv; cbn [Qfbvsmtrs.collect_values]; [by intros [= <-]|].
  intros (x & Ex & ([] & _ & E)%bind_ok)%bind_ok. eapply IH, E. apply map_Forall_insert_2; [|done].
  by eapply scalar_to_wire_typed.
Qed.

Lemma node_entries_typed v values n : map_Forall (fun _ => scalar_typed) values -> forall i block, 0 <= i ->
  Qfbvsmtrs.node_entries v values n i = Ok block -> Forall entry_typed block.
Proof.
  intros Hv. induction n as [|n IH]; intros i block Hi; cbn [Qfbvsmtrs.node_entries]; [intros [= <-]; constructor|].
  intros (node & _ & (var & _ & E)%bind_ok)%bind_ok. destruct var as [[[so w] name]|]; [|by eapply IH in E; [|lia]].
  destruct (values !! _) as [x|] eqn:Ex; [|by eapply IH in E; [|lia]].
  apply bind_ok in E as (ref & Er & (rest & E & [= <-])%bind_ok). constructor; [|by eapply IH in E; [|lia]].
  split; [|by eapply Hv]. simpl. unfold NodeRef.new in Er. destruct (Z.ltb_spec NodeRef.INDEX_MASK i); [done|].
  injection Er as <-. rewrite <- (Z2Nat.id i) by done. apply raw_ref_ok. lia.
Qed.

Lemma model_to_wire_typed m r block : model_typed m -> Qfbvsmtrs.model_to_wire_for_request m r = Ok block ->
  Forall entry_typed block.
Proof.
  intros Hm (values & Ev & (expr & _ & E)%bind_ok)%bind_ok. eapply node_entries_typed, E; [|done].
  by eapply collect_values_typed, Ev; [|apply map_Forall_empty].
Qed.

(** *** It is a model of the request *)

Section block.
Context (r : BinaryRequest.t) (v : ExprView) (nodes : list RawNode) (kids blob : list Z) (meta : list NodeInfo).
Context (Hval : request_valid r) (Hr : request_ok r v nodes kids blob meta).

Let Hv := ro_reads _ _ _ _ _ _ Hr.
Let Hd := ro_dag _ _ _ _ _ _ Hr.

Definition block_for (values : gmap (string * (bool * Z)) WireScalar.t) : ModelBlock.t :=
  omap (node_entry nodes blob values) (seq 0 (length nodes)).

Lemma node_entry_inv values i be : node_entry nodes blob values i = Some be -> exists n so,
  nodes !! i = Some n /\ Tag.try_from (tag n) = Some (var_tag_of so) /\
  values !! symbol_key blob so n = Some (entry_value be) /\ node_ref be = raw_ref so i.
Proof.
  unfold node_entry. intros (n & Hn & (t & Ht & (so & Hs & (x & Hx & [= <-])%bind_Some)%bind_Some)%bind_Some)%bind_Some.
  exists n, so. split_and!; try done. by destruct t; simplify_eq.
Qed.

Lemma block_elem values be : be ∈ block_for values <-> exists i, node_entry nodes blob values i = Some be.
Proof.
  unfold block_for. rewrite list_elem_of_omap. split; [intros (i & _ & E); by exists i|]. intros [i E]. exists i.
  split; [|done]. apply node_entry_inv in E as (n & _ & Hn & _). apply lookup_lt_Some in Hn. apply elem_of_seq. lia.
Qed.

Lemma block_refs values : NoDup (node_ref <$> block_for values).
Proof.
  unfold block_for. generalize (length nodes). intros m. generalize 0%nat. induction m as [|m IH]; intros i; [constructor|].
  cbn [seq omap list_omap]. specialize (IH (S i)). destruct (node_entry nodes blob values i) as [be|] eqn:E; [|exact IH].
  rewrite fmap_cons. apply NoDup_cons. split; [|exact IH]. intros (be' & Eq & (j & Hj & Ej)%list_elem_of_omap)%list_elem_of_fmap.
  apply elem_of_seq in Hj. apply node_entry_inv in E as (n & so & Hn & _ & _ & E).
  apply node_entry_inv in Ej as (n' & so' & Hn' & _ & _ & Ej). rewrite E, Ej in Eq.
  apply (f_equal (fun x => Z.to_nat (NodeRef.index x))) in Eq.
  rewrite (proj1 (ref_parts v nodes kids blob Hv so i n Hn)), (proj1 (ref_parts v nodes kids blob Hv so' j n' Hn')) in Eq. lia.
Qed.

Section arena.
Context (s : Arena) (tr : Translation) (Hi : inv s) (Hvars : vars_ok nodes blob s tr).
Context (l : list ModelEntry) (wl : list WireModelEntry) (Hl : Forall2 (entry_for nodes blob s tr) l wl).
Context (values : gmap (string * (bool * Z)) WireScalar.t) (Hvals : valued nodes blob wl values).

Lemma block_entry be : be ∈ block_for values -> exists e, e ∈ l /\ entry_for nodes blob s tr e be.
Proof.
  intros [i E]%block_elem. apply node_entry_inv in E as (n & so & Hn & Ht & Hx & Eref).
  apply Hvals in Hx as (we & Hin & Ekey & Ev). apply list_elem_of_lookup in Hin as [k Hk].
  destruct (Forall2_lookup_r _ _ _ _ _ Hl Hk) as (e & He & Hf). exists e. split; [by eapply list_elem_of_lookup_2|].
  destruct be as [ref x]. cbn [node_ref entry_value] in *. subst ref x.
  eapply (entry_for_same v nodes kids blob Hv); try done.
  destruct (dag_info nodes kids blob meta Hd i n Hn) as (t & Ht' & Em). assert (t = var_tag_of so) as -> by congruence.
  destruct (name_known v nodes kids blob meta Hv Hd i n _ Hn Em) as (name & Hname & _); [by destruct so|by exists name].
Qed.

Lemma entry_block e : e ∈ l -> exists be, be ∈ block_for values /\ entry_for nodes blob s tr e be.
Proof.
  intros [k Hk]%list_elem_of_lookup. destruct (Forall2_lookup_l _ _ _ _ _ Hl Hk) as (we & Hwe & Hf).
  pose proof (we_node _ _ _ _ _ _ Hf) as (n & Hn & Hname & Hs). set (i := Z.to_nat (NodeRef.index (node_ref we))) in *.
  set (so := NodeRef.sort (node_ref we)).
  assert (Tag.try_from (tag n) = Some (var_tag_of so)) as Ht by (unfold so; by destruct (NodeRef.sort _); destruct Hs as [? _]).
  assert (entry_key nodes blob we = symbol_key blob so n) as Ekey.
  { unfold entry_key. fold i. rewrite Hn, is_bool_sort. unfold symbol_key, Qfbvsmtrs.value_key, so. by destruct (NodeRef.sort _). }
  exists (mkWireModelEntry (raw_ref so i) (entry_value we)). split.
  - apply block_elem. exists i. unfold node_entry. rewrite Hn. cbn [mbind option_bind]. rewrite Ht. cbn [mbind option_bind].
    assert (values !! symbol_key blob so n = Some (entry_value we)) as Hx.
    { apply Hvals. exists we. split_and!; [by eapply list_elem_of_lookup_2|done..]. }
    destruct so; cbn [var_tag_of mbind option_bind]; by rewrite Hx.
  - by eapply (entry_for_same v nodes kids blob Hv).
Qed.

Lemma block_describes σ env : agrees s tr σ env ->
  Forall (entry_holds env) l <-> Forall (entry_agrees nodes blob σ) (block_for values).
Proof.
  intros Ha. rewrite !Forall_forall. split.
  - intros H be (e & He & Hf)%block_entry. apply (we_holds _ _ _ _ _ _ Hf σ env Ha). by apply H.
  - intros H e (be & Hb & Hf)%entry_block. apply (we_holds _ _ _ _ _ _ Hf σ env Ha). by apply H.
Qed.

Lemma block_passes : ModelBlock.validate_against_expr (block_for values) v = Ok tt.
Proof.
  apply (validate_entries_pass v nodes kids blob Hv s tr); [|apply block_refs|set_solver| |done].
  - apply Forall_forall. intros be (e & _ & Hf)%block_entry. by exists e.
  - intros be be' [i E]%block_elem [j E']%block_elem. apply node_entry_inv in E as (n & so & Hn & _ & Hx & Er).
    apply node_entry_inv in E' as (n' & so' & Hn' & _ & Hx' & Er'). destruct be as [ref x], be' as [ref' x'].
    cbn [node_ref entry_value] in *. subst ref ref'.
    rewrite (entry_key_at v nodes kids blob Hv so i n x Hn), (entry_key_at v nodes kids blob Hv so' j n' x' Hn'). congruence.
Qed.
End arena.

(** The block passes the server's check, some valuation agrees with it, and one that does
    means what an environment the model describes means. *)
Lemma request_model q m : query_from_wire r = Ok q -> model_sound q m -> exists block,
  Qfbvsmtrs.model_to_wire_for_request m r = Ok block /\ validate_model r block = Ok tt /\
  (exists σ, Forall (entry_agrees nodes blob σ) block) /\
  forall σ, Forall (entry_agrees nodes blob σ) block -> exists env, same_meaning r nodes kids blob q env σ /\ describes m env.
Proof.
  intros Eq [[env0 Henv0] Hsat Hent Hdis].
  destruct (query_from_wire_built r v nodes kids blob meta Hval Hr q Eq) as (tr & Hi & Hok & Hvars & Hf).
  destruct (wire_entries_ok v nodes kids blob Hv (arena q) tr Hi Hvars q (entries m) eq_refl Hent) as (wl & _ & Hwl).
  pose proof (entry_keys_distinct nodes blob (arena q) tr (entries m) wl Hwl Hdis) as Hk.
  assert (Forall2 (entry_for nodes blob (arena q) tr) (entries m) wl) as Hl.
  { eapply Forall2_impl; [exact Hwl|]. intros e we He. apply He. }
  destruct (collect_values_ok nodes kids blob meta Hd (arena q) tr (entries m) wl Hl [] ∅) as (values & E & Hvals).
  { exact Hk. }
  { intros key x. rewrite lookup_empty. split; [done|]. by intros (we & ?%elem_of_nil & _). }
  pose proof (block_describes (arena q) tr (entries m) wl Hl values Hvals) as Hdesc.
  exists (block_for values). split_and!.
  - unfold Qfbvsmtrs.model_to_wire_for_request. rewrite E. cbn [mbind res_bind]. unfold BinaryRequest.expression_view.
    rewrite (ro_view _ _ _ _ _ _ Hr). cbn [mbind res_bind]. rewrite (view_node_count _ _ _ _ Hv). unfold zlen. rewrite Nat2Z.id.
    change 0 with (Z.of_nat 0). by apply (node_entries_ok v nodes kids blob meta Hv Hd).
  - unfold validate_model, BinaryRequest.expression_view. rewrite (ro_view _ _ _ _ _ _ Hr). cbn [mbind res_bind].
    by apply (block_passes (arena q) tr Hi Hvars (entries m) wl Hl).
  - destruct (agrees_valuation nodes kids blob meta (arena q) tr _ env0 Hi Hok) as [σ Hσ]. exists σ.
    by apply (Hdesc σ env0 Hσ).
  - intros σ Hσ. destruct (agrees_env nodes kids blob meta (arena q) tr _ σ Hi Hok) as [env Ha]. exists env. split.
    + by apply (final_meaning r v nodes kids blob meta Hr (arena q) tr Hok q σ env Hf).
    + by apply (Hdesc σ env Ha).
Qed.
End block.

(** ** What the service tells a client about its formulas

    [truthful] is the promise of a backend about the symbols of the request: what a
    result claims is true of every valuation of them.  The server's own solver keeps it
    on requests within its range, and so does every arrangement of backends that do. *)

#[local] Open Scope Z_scope.

(** ** The promise *)

(** The query of the request, and the queries the solver makes of it, number their
    variables below [2^31] and their terms below [2^32], and its shortcuts can be
    trusted on it. *)
Definition in_range (r : BinaryRequest.t) : Prop := forall q, query_from_wire r = Ok q ->
  regular (Ir.nodes (arena q)) /\
  (command q = Solve -> all_fit q) /\
  forall t w, target q = Some t -> width_at (Ir.nodes (arena q)) t = Some w ->
    Z.of_nat (length (Ir.nodes (arena q)) + 3 * w) <= 2 ^ 32 /\ trials_fit q t w.

Definition target_index (r : BinaryRequest.t) : nat :=
  Z.to_nat (NodeRef.index (RequestEnvelope.target_node (BinaryRequest.envelope r))).

Section promise.
Context (r : BinaryRequest.t) (nodes : list RawNode) (kids blob : list Z).

Let env := BinaryRequest.envelope r.

(** The value of the request's target. *)
Definition request_value (σ : Valuation) : Z := sem_bv (wire_denote blob σ kids nodes) (target_index r).

(** Some valuation agrees with the block, and those that do satisfy [P]. *)
Definition block_implies (block : ModelBlock.t) (P : Valuation -> Prop) : Prop :=
  (exists σ, Forall (entry_agrees nodes blob σ) block) /\
  forall σ, Forall (entry_agrees nodes blob σ) block -> P σ.

Record claims (result : QueryResult) : Prop := {
  cl_unsat : qr_status result = QueryStatus.Unsat -> ~ exists σ, wire_holds σ r nodes kids blob;
  cl_model : RequestEnvelope.command env = CmdSolve -> wants r RequestFlags.WANT_MODEL = true ->
    qr_status result = QueryStatus.Sat -> exists block, qr_model result = Some block /\
    block_implies block (fun σ => wire_holds σ r nodes kids blob);
  cl_core : RequestEnvelope.command env = CmdSolve -> wants r RequestFlags.WANT_CORE = true ->
    qr_status result = QueryStatus.Unsat -> exists active,
    qr_core result = Some (omap (assertion_name blob (BinaryRequest.named_assertion_refs r)) active) /\
    ~ exists σ, core_holds σ r nodes kids blob active;
  cl_optimum : optimizes (RequestEnvelope.command env) = true -> qr_status result = QueryStatus.Sat ->
    exists o, qr_optimization result = Some o /\
    let z := bval (WireScalar.bytes (OptimizationValueBlock.optimum o)) in
    (forall σ, wire_holds σ r nodes kids blob ->
       no_better (wants r RequestFlags.SIGNED) (bool_decide (RequestEnvelope.command env = CmdMinimize))
         (Z.to_nat (WireScalar.width (OptimizationValueBlock.optimum o))) (request_value σ) z) /\
    (wants r RequestFlags.WANT_MODEL = true -> exists block, OptimizationValueBlock.model o = Some block /\
       block_implies block (fun σ => wire_holds σ r nodes kids blob /\ request_value σ = z));
  cl_simplified : qr_status result = QueryStatus.Simplified -> exists b v' nodes' kids' blob' meta',
    qr_simplify result = Some b /\ parse_and_validate (SimplifyBlock.expression b) = Ok v' /\
    view_of v' nodes' kids' blob' /\ dag_ok nodes' kids' blob' meta' /\
    forall σ, wire_denote blob' σ kids' nodes' !! Z.to_nat (NodeRef.index (SimplifyBlock.target_node b)) =
              wire_denote blob σ kids nodes !! target_index r;
}.

Lemma claims_nothing message : claims (QueryResult.unknown message).
Proof. done. Qed.
End promise.

Definition truthful (r : BinaryRequest.t) (result : QueryResult) : Prop := in_range r ->
  forall v nodes kids blob meta, request_ok r v nodes kids blob meta -> claims r nodes kids blob result.

(** Nothing of it depends on the budget. *)
Lemma request_ok_budget r budget v nodes kids blob meta :
  request_ok r v nodes kids blob meta -> request_ok (with_budget_ms r budget) v nodes kids blob meta.
Proof.
  unfold with_budget_ms. destruct (_ =? 0); [|done]. intros [H1 H2 H3 [C1 C2 C3 C4] H5 H6 H7 H8]. by split.
Qed.

Lemma budget_query r budget : query_from_wire (with_budget_ms r budget) = query_from_wire r.
Proof. unfold with_budget_ms. by destruct (_ =? 0). Qed.

#[export] Instance truthful_contract : Contract truthful.
Proof.
  split; [by intros r message _ v nodes kids blob meta _|].
  intros r budget result H Hin v nodes kids blob meta Hr.
  assert (in_range (with_budget_ms r budget)) as Hin'.
  { intros q. rewrite budget_query. apply Hin. }
  specialize (H Hin' v nodes kids blob meta (request_ok_budget _ _ _ _ _ _ _ Hr)). revert H.
  unfold with_budget_ms. destruct (_ =? 0); [|done]. intros [H1 H2 H3 H4 H5]. by split.
Qed.

(** ** The server's own solver *)

(** The names of a query's assertions are strings. *)
Lemma names_typed r q : checked r -> query_from_wire r = Ok q ->
  forall a n, a ∈ assertions q -> name a = Some n -> string_typed n.
Proof.
  intros [Hval Hv] Eq a n [i Ha]%list_elem_of_lookup Hn.
  destruct (validate_request_ok r tt Hval Hv) as (v & nodes & kids & blob & meta & Hr).
  pose proof (query_from_wire_means r v nodes kids blob meta Hval Hr) as Hq. rewrite Eq in Hq.
  pose proof (f_equal (fun l => l !! i) (qm_names _ _ _ _ _ Hq)) as E. simpl in E.
  rewrite list_lookup_fmap, Ha in E. simpl in E. rewrite Hn, list_lookup_imap in E.
  destruct (BinaryRequest.assertion_roots r !! i); [|done]. simpl in E. injection E as E. symmetry in E.
  unfold assertion_name in E. apply bind_Some in E as (b & _ & (l & Hl & Hu)%bind_Some). unfold from_utf8 in Hu.
  destruct (utf8_valid l) eqn:Eu; [|done]. injection Hu as <-. unfold string_typed. rewrite bytes_round_trip; [done|].
  unfold blob_at in Hl. destruct (_ <=? _); [|done]. injection Hl as <-.
  apply Forall_take, Forall_drop, (view_blob_bytes _ _ _ _ (ro_reads _ _ _ _ _ _ Hr)).
Qed.

Section backend.
Context `{Backends} `{Recognisers} `{ErrorTexts}.

Lemma query_result_typed r q result x : checked r -> query_from_wire r = Ok q -> artifacts_typed q result ->
  Qfbvsmtrs.query_result r result = Ok x -> result_typed x.
Proof.
  intros Hr Eq [Hm Ho Hc]. unfold Qfbvsmtrs.query_result. destruct (status result).
  - assert (forall block, (forall b, block = Some b -> Forall entry_typed b) ->
      match optimum result with
      | Some o => o ← Qfbvsmtrs.scalar_to_wire o;
                  Ok (QueryResult.sat_optimization (OptimizationValueBlock.mk o block))
      | None => Ok (QueryResult.sat block)
      end = Ok x -> result_typed x) as Hk.
    { intros block Hb. destruct (optimum result) as [o|] eqn:Eo.
      - intros (y & Ey & [= <-])%bind_ok. split; [exact Hb|done|done|]. simpl. intros o' [= <-]. split; [|exact Hb].
        eapply scalar_to_wire_typed, Ey. by apply Ho.
      - intros [= <-]. by split. }
    destruct (model result) as [m|] eqn:Em; [|by apply Hk].
    destruct (Qfbvsmtrs.model_to_wire_for_request m r) as [block|e|] eqn:Eb; [|by intros [= <-]|done].
    apply Hk. intros b [= <-]. by eapply model_to_wire_typed, Eb; apply Hm.
  - intros [= <-]. split; try done. simpl. intros c Ec. eapply Forall_impl; [by apply Hc|].
    intros n (a & Ha & Hn). by eapply names_typed.
  - by intros [= <-].
  - by intros [= <-].
Qed.

(** The target of a query that optimises. *)
Lemma query_target r v nodes kids blob meta q : request_valid r -> request_ok r v nodes kids blob meta ->
  query_from_wire r = Ok q -> wf_arena (arena q) /\
  (optimizes (RequestEnvelope.command (BinaryRequest.envelope r)) = true ->
   exists t w, target q = Some t /\ width_at (Ir.nodes (arena q)) t = Some w).
Proof.
  intros Hval Hr Eq. destruct (query_from_wire_built r v nodes kids blob meta Hval Hr q Eq) as (tr & Hi & Hok & _ & Hf).
  split; [by apply inv_wf|]. intros Ho. unfold TermBuilder.finish in Hf. destruct (_ && _) in Hf; [done|].
  injection Hf as Hf. assert (target q = goal_target tr r) as -> by (by rewrite <- Hf).
  unfold goal_target. cbv zeta. rewrite Ho.
  assert (refers meta Bv (RequestEnvelope.target_node (BinaryRequest.envelope r))) as Href.
  { pose proof (ro_target _ _ _ _ _ _ Hr) as Htg. by destruct (RequestEnvelope.command _). }
  destruct (root_term nodes kids blob meta (ro_dag _ _ _ _ _ _ Hr) (arena q) tr Hok Bv _ Href) as (_ & [w Hw] & _).
  by eexists _, w.
Qed.

Context (Hsplr : trusted Splr) `{!SoundRecognisers}.

Lemma worker_trusted r token q : regular (Ir.nodes (arena q)) ->
  trusted (sat_backend (Qfbvsmtrs.worker_config r token)) /\ trusted_shortcuts (Qfbvsmtrs.worker_config r token) q.
Proof.
  intros Hrg. split; [|by right]. unfold Qfbvsmtrs.worker_config. cbv zeta. by destruct (Qfbvsmtrs.request_budget r), token.
Qed.

Section truthful.
Context (r : BinaryRequest.t) (v : ExprView) (nodes : list RawNode) (kids blob : list Z) (meta : list NodeInfo).
Context (Hval : request_valid r) (Hr : request_ok r v nodes kids blob meta) (Hin : in_range r).
Context (q : Query) (Eq : query_from_wire r = Ok q).

Lemma query_means_q : query_means r nodes kids blob q.
Proof. pose proof (query_from_wire_means r v nodes kids blob meta Hval Hr) as Hq. by rewrite Eq in Hq. Qed.

(** What the solver's result says, on the wire. *)
Lemma solve_claims config lim result x : RequestEnvelope.command (BinaryRequest.envelope r) = CmdSolve ->
  solve_post config lim q result -> Qfbvsmtrs.query_result r result = Ok x -> claims r nodes kids blob x.
Proof.
  intros Hc [[[_ Hu Hm] Hmod _ _] Hcore] Ex. pose proof query_means_q as Hq.
  destruct (qm_options _ _ _ _ _ Hq) as (_ & Hwm & Hwc).
  pose proof (means_satisfiable r nodes kids blob q Hq) as Hsat. unfold Qfbvsmtrs.query_result in Ex.
  destruct (status result) eqn:Es.
  - destruct (model result) as [m|] eqn:Em.
    + destruct (request_model r v nodes kids blob meta Hval Hr q m Eq (Hm m eq_refl)) as (block & Eb & _ & Hex & Hall).
      rewrite Eb in Ex. assert (qr_status x = QueryStatus.Sat /\ qr_model x = Some block) as [E1 E2].
      { destruct (optimum result) as [o|]; [by apply bind_ok in Ex as (y & _ & [= <-])|by injection Ex as <-]. }
      split; rewrite ?E1, ?Hc; try done. intros _ _ _. exists block. split; [done|]. split; [done|].
      intros σ Hσ. destruct (Hall σ Hσ) as (env & Hs & Hd). apply (means_holds r nodes kids blob q Hq env σ Hs).
      by apply (ms_satisfies _ _ (Hm m eq_refl)).
    + assert (qr_status x = QueryStatus.Sat) as E1.
      { destruct (optimum result) as [o|]; [by apply bind_ok in Ex as (y & _ & [= <-])|by injection Ex as <-]. }
      split; rewrite ?E1, ?Hc; try done. intros _ Hw _. destruct Hmod as [m ?]; [|done|done]. by rewrite Hwm.
  - injection Ex as <-. split; rewrite ?Hc; try done; simpl.
    + intros _. rewrite <- Hsat. by apply Hu.
    + intros _ Hw _. destruct Hcore as (active & Ecore & [Hun _ _]); [by rewrite Hwc|done|]. exists active.
      rewrite Ecore. split; [|by rewrite <- (means_core_satisfiable r nodes kids blob q Hq)].
      f_equal. apply (means_names r nodes kids blob q Hq), (co_le _ (ro_counts _ _ _ _ _ _ Hr)).
  - injection Ex as <-. apply claims_nothing.
  - injection Ex as <-. apply claims_nothing.
Qed.

Lemma optimize_claims config lim result x t w minimize : optimizes (RequestEnvelope.command (BinaryRequest.envelope r)) = true ->
  bool_decide (RequestEnvelope.command (BinaryRequest.envelope r) = CmdMinimize) = minimize -> target q = Some t ->
  optimize_post config lim q t w minimize result -> Qfbvsmtrs.query_result r result = Ok x -> claims r nodes kids blob x.
Proof.
  intros Ho Hmin Ht Hpost Ex. pose proof query_means_q as Hq.
  destruct (qm_options _ _ _ _ _ Hq) as (Hsg & Hwm & _). rewrite Ho in Hsg.
  assert (RequestEnvelope.command (BinaryRequest.envelope r) <> CmdSolve) as Hns by (intros E; by rewrite E in Ho).
  unfold optimize_post in Hpost. unfold Qfbvsmtrs.query_result in Ex. destruct (status result) eqn:Es.
  - destruct Hpost as (bytes & z & Eo & Hz & Hbest & _ & Hmod & Hsound). rewrite Eo in Ex.
    assert (Qfbvsmtrs.scalar_to_wire (ScalarBv w bytes) = WireScalar.bv (Z.of_nat w) bytes) as Esc by done.
    assert (forall block, (y ← Qfbvsmtrs.scalar_to_wire (ScalarBv w bytes);
        Ok (QueryResult.sat_optimization (OptimizationValueBlock.mk y block))) = Ok x ->
      x = QueryResult.sat_optimization (OptimizationValueBlock.mk (WireScalar.mk (Z.of_nat w) bytes) block)) as Hx.
    { intros block (y & Ey & [= <-])%bind_ok. rewrite Esc in Ey. unfold WireScalar.bv in Ey.
      by apply bind_ok in Ey as (n & _ & ([] & _ & ([] & _ & [= <-])%bind_ok)%bind_ok). }
    assert (forall σ env, same_meaning r nodes kids blob q env σ -> target_value env q t = request_value r nodes kids blob σ) as Htv.
    { intros σ env Hs. apply (sm_target _ _ _ _ _ _ _ Hs t Ht). }
    assert (forall σ, wire_holds σ r nodes kids blob ->
      no_better (wants r RequestFlags.SIGNED) minimize w (request_value r nodes kids blob σ) (bval bytes)) as Hnb.
    { intros σ Hσ. destruct (qm_env _ _ _ _ _ Hq σ) as [env Hs].
      apply (means_holds r nodes kids blob q Hq env σ Hs) in Hσ. apply Hbest in Hσ.
      rewrite Hsg, (Htv σ env Hs) in Hσ. by rewrite (repr_val _ _ _ Hz) in *. }
    destruct (model result) as [m|] eqn:Em.
    + destruct (Hsound m eq_refl) as [Hm Hval'].
      destruct (request_model r v nodes kids blob meta Hval Hr q m Eq Hm) as (block & Eb & _ & Hex & Hall).
      rewrite Eb in Ex. apply Hx in Ex as ->. split; try done. intros _ _. eexists. split; [done|]. cbv zeta.
      cbn [OptimizationValueBlock.optimum OptimizationValueBlock.model WireScalar.bytes WireScalar.width].
      rewrite Nat2Z.id, Hmin. split; [done|]. intros _. exists block. split; [done|]. split; [done|].
      intros σ Hσ. destruct (Hall σ Hσ) as (env & Hs & Hd). rewrite <- (Htv σ env Hs), (Hval' env Hd). split.
      * apply (means_holds r nodes kids blob q Hq env σ Hs). by apply (ms_satisfies _ _ Hm).
      * by rewrite (repr_val _ _ _ Hz).
    + apply Hx in Ex as ->. split; try done. intros _ _. eexists. split; [done|]. cbv zeta.
      cbn [OptimizationValueBlock.optimum OptimizationValueBlock.model WireScalar.bytes WireScalar.width].
      rewrite Nat2Z.id, Hmin. split; [done|]. intros Hw. destruct Hmod as [m ?]; [by rewrite Hwm|done].
  - injection Ex as <-. split; try done. intros _. by rewrite <- (means_satisfiable r nodes kids blob q Hq).
  - injection Ex as <-. apply claims_nothing.
  - done.
Qed.
End truthful.

Lemma worker_delivers r token polls x : checked r ->
  Qfbvsmtrs.solve_on_worker r token polls = Ok x ->
  RequestEnvelope.command (BinaryRequest.envelope r) <> CmdSimplify -> result_typed x /\ truthful r x.
Proof.
  intros Hr. unfold Qfbvsmtrs.solve_on_worker. destruct (query_from_wire r) as [q|e|] eqn:Eq; [|by intros [= <-]; split|done].
  set (config := Qfbvsmtrs.worker_config r token).
  destruct (Solver.solve config q polls) as [result|e|] eqn:Es; [|by intros [= <-]; split|done].
  intros Ex Hcmd. split; [by eapply query_result_typed, Ex; [..|apply (solve_typed config q polls)]|].
  intros Hin v nodes kids blob meta Hok. pose proof (ck_valid _ Hr) as Hval. destruct (Hin q Eq) as (Hrg & Hfit & Hopt).
  destruct (worker_trusted r token q Hrg) as [Htr Hsc].
  pose proof (query_means_q r v nodes kids blob meta Hval Hok q Eq) as Hq. pose proof (qm_command _ _ _ _ _ Hq) as Ecmd.
  destruct (query_target r v nodes kids blob meta q Hval Hok Eq) as [Hwf Htg].
  destruct (optimizes (RequestEnvelope.command (BinaryRequest.envelope r))) eqn:Eo.
  - destruct (Htg eq_refl) as (t & w & Ht & Hw). destruct (Hopt t w Ht Hw) as [Hmax Htrials].
    set (minimize := bool_decide (RequestEnvelope.command (BinaryRequest.envelope r) = CmdMinimize)).
    assert (command q = if minimize then Minimize else Maximize) as Hc.
    { rewrite Ecmd. unfold minimize. by destruct (RequestEnvelope.command _). }
    unfold Solver.solve in Es. cbv zeta in Es. destruct (negb _); [done|]. destruct (is_cancelled (limits_of config polls) [0%nat]).
    { injection Es as <-. injection Ex as <-. apply claims_nothing. }
    assert (optimize config q (under 1 (limits_of config polls)) = Ok result) as Es'.
    { rewrite Hc in Es. by destruct minimize. }
    pose proof (optimize_spec config q t w minimize (under 1 (limits_of config polls)) Htr Hsc Hwf
      (qm_formed _ _ _ _ _ Hq) Hc Ht Hw Hmax Htrials) as Hpost. rewrite Es' in Hpost.
    by apply (optimize_claims r v nodes kids blob meta Hval Hok q Eq config (under 1 (limits_of config polls)) result x t w minimize Eo).
  - assert (RequestEnvelope.command (BinaryRequest.envelope r) = CmdSolve) as Hc by (by destruct (RequestEnvelope.command _)).
    assert (command q = Solve) as Hc' by (by rewrite Ecmd, Hc).
    pose proof (solve_spec config q Htr Hsc (qm_formed _ _ _ _ _ Hq) Hc' (Hfit Hc') polls) as Hpost. rewrite Es in Hpost.
    by apply (solve_claims r v nodes kids blob meta Hval Hok q Eq config (limits_of config polls) result x Hc).
Qed.

Lemma join_delivers r (worker : wres QueryResult) : (forall x, worker = Ok x -> result_typed x /\ truthful r x) ->
  delivers truthful r (Qfbvsmtrs.join_worker worker).
Proof.
  intros Hw. destruct worker as [x|e|]; simpl; [by apply Hw|done|]. split; [apply unknown_typed|apply right_unknown].
Qed.

Lemma spawn_delivers w r token : checked r -> RequestEnvelope.command (BinaryRequest.envelope r) <> CmdSimplify ->
  delivers truthful r (worker ← Qfbvsmtrs.spawn_worker w r token; Qfbvsmtrs.join_worker worker).
Proof.
  intros Hr Hc. unfold Qfbvsmtrs.spawn_worker. destruct (spawns w []); [|done]. cbn [mbind res_bind].
  apply join_delivers. intros x E. by eapply worker_delivers.
Qed.

(** Simplification gives the request's expression back. *)
Lemma echo_truthful r : checked r -> RequestEnvelope.command (BinaryRequest.envelope r) = CmdSimplify ->
  let x := QueryResult.simplified (SimplifyBlock.mk (BinaryRequest.expression r)
    (RequestEnvelope.target_node (BinaryRequest.envelope r))) in
  result_typed x /\ truthful r x.
Proof.
  intros Hr Hc. cbv zeta. split.
  - split; try done. simpl. intros b [= <-]. split; [|by apply checked_expression]. apply (rv_envelope _ (ck_valid _ Hr)).
  - intros _ v nodes kids blob meta Hok. split; try done.
    intros _. exists (SimplifyBlock.mk (BinaryRequest.expression r) (RequestEnvelope.target_node (BinaryRequest.envelope r))).
    exists v, nodes, kids, blob, meta. split_and!; try done; apply Hok.
Qed.

#[export] Instance qfbvsmtrs_keeps : Keeps truthful QfbvsmtrsBackend.
Proof.
  assert (forall w r, checked r -> delivers truthful r (Qfbvsmtrs.handle_request w r)) as Hh.
  { intros w r Hr. unfold Qfbvsmtrs.handle_request. destruct (RequestEnvelope.command _) eqn:Ec;
      [apply spawn_delivers; [done|congruence]| |apply spawn_delivers; [done|congruence]..].
    unfold BinaryRequest.target_ref. rewrite Ec. by apply echo_truthful. }
  split; [exact Hh|]. intros w r Hr. simpl. unfold Qfbvsmtrs.handle_cancellable.
  destruct (is_cancelled _ _); [by apply delivers_unknown; apply _|].
  destruct (RequestEnvelope.command _) eqn:Ec; [apply spawn_delivers; [done|congruence]|by apply Hh|
    apply spawn_delivers; [done|congruence]..].
Qed.
End backend.

(** The server's own solver does not panic: a panic of its worker is joined as an answer. *)
Lemma qfbvsmtrs_total `{Backends} `{Recognisers} `{ErrorTexts} w r :
  total (handle QfbvsmtrsBackend w r) /\ total (handle_with_context QfbvsmtrsBackend w r).
Proof.
  assert (forall token, total (worker ← Qfbvsmtrs.spawn_worker w r token; Qfbvsmtrs.join_worker worker)) as Hw.
  { intros token. unfold Qfbvsmtrs.spawn_worker. destruct (spawns w []); [|done]. cbn [mbind res_bind].
    by destruct (Qfbvsmtrs.solve_on_worker _ _ _). }
  assert (total (Qfbvsmtrs.handle_request w r)) as Hh.
  { unfold Qfbvsmtrs.handle_request. destruct (RequestEnvelope.command _); [apply Hw| |apply Hw..].
    by destruct (BinaryRequest.target_ref r). }
  split; [exact Hh|]. simpl. unfold Qfbvsmtrs.handle_cancellable. destruct (is_cancelled _ _); [done|].
  destruct (RequestEnvelope.command _); [apply Hw|exact Hh|apply Hw..].
Qed.

(** ** Arrangements

    Routers, pools and races of the server's own solver, nested as one likes.  ([main.rs]
    also races third-party solvers; of them only [Keeps] can be asked.) *)

Section arrangement.
Context `{Backends} `{Recognisers} `{ErrorTexts}.

Inductive arrangement : Backend -> Prop :=
| own_solver : arrangement QfbvsmtrsBackend
| routed simplifier solver : arrangement simplifier -> arrangement solver ->
    arrangement (CommandRouterBackend simplifier solver)
| pooled `{RouteHash} backends : (forall b, b ∈ backends -> arrangement b) -> arrangement (PooledBackend backends)
| raced backends default_budget_ms : is_u32 (default 0 default_budget_ms) ->
    (forall b, b ∈ backends -> arrangement b) -> arrangement (RacingBackend backends default_budget_ms).

Lemma arrangement_keeps backend : trusted Splr -> SoundRecognisers -> arrangement backend -> Keeps truthful backend.
Proof.
  intros Hs Hr. induction 1 as [|simplifier solver _ IH1 _ IH2|hash backends _ IH|backends d Hd _ IH].
  - by apply qfbvsmtrs_keeps.
  - by apply router_keeps.
  - apply pool_keeps; [apply _|by apply Forall_forall].
  - apply racing_keeps; [apply _|by apply Forall_forall|done].
Qed.

Lemma arrangement_blind backend : arrangement backend -> IdBlind backend.
Proof.
  induction 1 as [|simplifier solver _ IH1 _ IH2|hash backends _ IH|backends d Hd _ IH].
  - split; reflexivity.
  - by apply router_blind.
  - by apply pool_blind, Forall_forall.
  - by apply racing_blind, Forall_forall.
Qed.
End arrangement.

#[export] Instance qfbvsmtrs_blind `{Backends} `{Recognisers} `{ErrorTexts} : IdBlind QfbvsmtrsBackend.
Proof. split; reflexivity. Qed.
