(* ===== verification/ServiceTheorems.v ===== *)
(** * What the server guarantees

    A payload is answered, and every conclusive answer is checked, unless the backend
    panics; races, the cache and concurrent connections change which answers are given,
    never what they say; and with the server's own solver, however it is arranged, what a
    client reads off a response is true. *)
From stdpp Require Import sorting.
From S2P Require Import WireBuilder WireBuilderFacts WireClientApi WireClient.
From S2P Require Import Prelude Bits Bytes BytesFacts Ir Sem Evaluator EvaluatorFacts PatternFacts.
From S2P Require Import Model Config Sat SatFacts Shortcuts ShortcutsFacts Solver SolverFacts OptimizeFacts SolveFacts.
From S2P Require Import WireBase WireBaseFacts WireExpr WireExprFacts WireDag WireRequest WireRequestFacts.
From S2P Require Import WireResponse WireResponseFacts Backend Server ServerFacts BackendFacts DispatchFacts.
From S2P Require Import WireMeaning WireQuery WireQueryFacts WireQueryTheorems WireModel SolverBackend ServiceFacts.

#[local] Open Scope Z_scope.

(** ** Answers that are true *)

(** What a response tells a client about the formula of its request. *)
Definition response_true (r : BinaryRequest.t) (nodes : list RawNode) (kids blob : list Z) (resp : BinaryResponse.t) : Prop :=
  let command := RequestEnvelope.command (BinaryRequest.envelope r) in
  let payload := BinaryResponse.payload resp in
  match ResponseEnvelope.status (BinaryResponse.envelope resp) with
  | StSat =>
      (command = CmdSolve -> wants r RequestFlags.WANT_MODEL = true -> exists block, ModelBlock.decode payload = Ok block /\
         block_implies nodes blob block (fun σ => wire_holds σ r nodes kids blob)) /\
      (optimizes command = true -> exists o,
         OptimizationValueBlock.decode payload (wants r RequestFlags.WANT_MODEL) = Ok o /\
         let z := bval (WireScalar.bytes (OptimizationValueBlock.optimum o)) in
         (forall σ, wire_holds σ r nodes kids blob ->
            no_better (wants r RequestFlags.SIGNED) (bool_decide (command = CmdMinimize))
              (Z.to_nat (WireScalar.width (OptimizationValueBlock.optimum o))) (request_value r nodes kids blob σ) z) /\
         (wants r RequestFlags.WANT_MODEL = true -> exists block, OptimizationValueBlock.model o = Some block /\
            block_implies nodes blob block (fun σ => wire_holds σ r nodes kids blob /\ request_value r nodes kids blob σ = z)))
  | StUnsat =>
      (~ exists σ, wire_holds σ r nodes kids blob) /\
      (command = CmdSolve -> wants r RequestFlags.WANT_CORE = true -> exists active,
         UnsatCoreBlock.decode payload = Ok (omap (assertion_name blob (BinaryRequest.named_assertion_refs r)) active) /\
         ~ exists σ, core_holds σ r nodes kids blob active)
  | StSimplified => exists b v' nodes' kids' blob' meta',
      SimplifyBlock.decode payload = Ok b /\ parse_and_validate (SimplifyBlock.expression b) = Ok v' /\
      view_of v' nodes' kids' blob' /\ dag_ok nodes' kids' blob' meta' /\
      forall σ, wire_denote blob' σ kids' nodes' !! Z.to_nat (NodeRef.index (SimplifyBlock.target_node b)) =
                wire_denote blob σ kids nodes !! target_index r
  | StUnknown | StError => True
  end.

(** A checked response says no more than the result it was made from. *)
Lemma conclusive_true r nodes kids blob result resp :
  conclusive_response r result resp -> claims r nodes kids blob result -> response_true r nodes kids blob resp.
Proof.
  intros Hc [Hu Hm Hk Ho Hs]. unfold conclusive_response in Hc. unfold response_true. cbv zeta in *.
  destruct (ResponseEnvelope.status _); [| | |done..].
  - destruct Hc as (Es & _ & b & Eb & _ & Ed). destruct (Hs Es) as (b' & v' & nodes' & kids' & blob' & meta' & Eb' & H').
    assert (b' = b) as -> by congruence. by exists b, v', nodes', kids', blob', meta'.
  - destruct Hc as (Es & _ & Hmod & Hopt). split.
    + intros Ec Ew. destruct (Hmod Ec Ew) as (m & Em & _ & Ed). destruct (Hm Ec Ew Es) as (block & Eb & Hb).
      assert (block = m) as -> by congruence. by exists m.
    + intros Eo. destruct (Hopt ltac:(intros E; by rewrite E in Eo)) as (o & o' & Eopt & Ed & Eval & Hw & _).
      destruct (Ho Eo Es) as (o2 & Eo2 & Hbest & Hmodel). assert (o2 = o) as -> by congruence.
      exists o'. rewrite Eval. split_and!; [done..|]. intros Ew. destruct (Hw Ew) as [-> _]. by apply Hmodel.
  - destruct Hc as (Es & _ & Hcore). split; [by apply Hu|]. intros Ec Ew. destruct (Hcore Ec Ew) as (c & Ecore & _ & Ed).
    destruct (Hk Ec Ew Es) as (active & Ea & Hun). exists active. split; [|done].
    rewrite Ed. f_equal. assert (Some c = Some (omap (assertion_name blob (BinaryRequest.named_assertion_refs r)) active)) as [= ->]
      by (by rewrite <- Ecore). done.
Qed.

Lemma parsed_binary payload r : slice_ok payload -> BinaryRequest.parse payload = Ok r ->
  is_binary_request_payload payload = true.
Proof.
  intros Hs (_ & _ & _ & ->)%parse_request_inv; [|done].
  unfold is_binary_request_payload. rewrite zlen_request. apply andb_true_iff. split; [apply Z.leb_le|by apply bool_decide_eq_true].
  pose proof (zlen_nonneg (BinaryRequest.expression r)). pose proof (zlen_nonneg (BinaryRequest.assertion_roots r)).
  pose proof (zlen_nonneg (BinaryRequest.named_assertion_refs r)). pose proof (zlen_nonneg (BinaryRequest.assumption_roots r)). lia.
Qed.

(** What a response the service can give to a request says, for any backend that keeps
    the promise. *)
Lemma genuine_claims `{ErrorTexts} `{TextProtocol} backend `{!Keeps truthful backend}
    payload response r v nodes kids blob meta resp :
  slice_ok payload -> BinaryRequest.parse payload = Ok r -> in_range r -> request_ok r v nodes kids blob meta ->
  genuine backend payload response -> BinaryResponse.parse response = Ok resp ->
  inconclusive resp \/ exists result, conclusive_response r result resp /\ claims r nodes kids blob result /\
    ResponseEnvelope.request_id (BinaryResponse.envelope resp) = RequestEnvelope.request_id (BinaryRequest.envelope r).
Proof.
  intros Hs Ep Hin Hr [w E] Er. pose proof (parsed_binary payload r Hs Ep) as Hb.
  destruct (dispatch_replies truthful backend w payload response Hs Hb E) as (_ & resp' & Er' & Hrep).
  assert (resp' = resp) as -> by congruence. destruct Hrep as [Hi|(r' & result & Ep' & Eh & Eid & Hc)]; [by left|right].
  assert (r' = r) as -> by congruence. exists result. split; [done|]. split; [|done].
  pose proof (keeps_handle (Keeps := _) w r (parsed_checked _ _ Hs Ep)) as Hk. rewrite Eh in Hk. by apply Hk with v meta.
Qed.

(** C2: what the service answers with the server's own solver is true.  The backend is
    [QfbvsmtrsBackend], or any nesting of routers, pools and races of it ([arrangement]).  It runs
    Splr, whose [Unsat] answers are assumed right
    ([trusted Splr]; it runs under [catch_unwind]), or the bundled solver for a request that is raced or has
    a budget, and the shortcuts are on, of which the recognisers that are not
    modelled are assumed sound ([SoundRecognisers]).  Whatever the clock, the threads
    and the cache did, read a response it can give to a request that is in range ([in_range]: the
    CNF variables of its query and subqueries are below 2^31, and the arena is [regular],
    so that the two recognisers proved wrong elsewhere can be trusted on it): [UNSAT]
    means that no valuation of the request's symbols makes every assertion and assumption
    true, and the core, when one was asked for, names assertions that already have
    none; the model of [SAT] is satisfiable and every valuation that agrees with it
    satisfies the request; no satisfying valuation gives the target of an optimisation a
    better value than the one returned, and the model attains it; and a simplified
    expression has the value of the one sent, whatever the symbols are. *)
Theorem service_truthful `{Backends} `{Recognisers} `{ErrorTexts} `{TextProtocol} backend
    payload response r v nodes kids blob meta resp :
  trusted Splr -> SoundRecognisers -> arrangement backend ->
  slice_ok payload -> BinaryRequest.parse payload = Ok r -> in_range r -> request_ok r v nodes kids blob meta ->
  genuine backend payload response -> BinaryResponse.parse response = Ok resp ->
  response_true r nodes kids blob resp.
Proof.
  intros Hsplr Hrec Hb Hs Ep Hin Hr Hg Er. pose proof (arrangement_keeps backend Hsplr Hrec Hb) as Hk.
  destruct (genuine_claims backend payload response r v nodes kids blob meta resp Hs Ep Hin Hr Hg Er)
    as [[Ei|Ei]|(result & Hc & Hcl & _)]; [unfold response_true; by rewrite Ei..|].
  by apply (conclusive_true r nodes kids blob result).
Qed.

(** *** Witness: a race of two workers *)

(** The backend of [main.rs] with the workers that are modelled. *)
Definition sample_texts : ErrorTexts :=
  {| wire_error_text _ := "error"%string; solver_error_text _ := "error"%string |}.

Definition sample_solver : Backend :=
  QfbvsmtrsBackend (H := silent_backends) (H0 := no_recognisers) (H1 := sample_texts).

Definition sample_backend : Backend :=
  CommandRouterBackend sample_solver (RacingBackend (H := sample_texts) [sample_solver; sample_solver] (Some 30000)).

(** Both workers start, nothing expires, and the second result arrives first. *)
Definition sample_world : World := mkWorld unlimited (fun _ => true) (fun _ => [1; 0]%nat).

Lemma sample_splr : trusted (H := silent_backends) Splr.
Proof. by intros lim cs []. Qed.

Lemma sample_arrangement : arrangement (H := silent_backends) (H0 := no_recognisers) (H1 := sample_texts) sample_backend.
Proof. apply routed; [apply own_solver|]. apply raced; [done|]. intros b [->|[->|[]%elem_of_nil]%elem_of_cons]%elem_of_cons; apply own_solver. Qed.

Lemma sample_keeps : Keeps truthful sample_backend.
Proof. eapply arrangement_keeps; [apply sample_splr|apply no_recognisers_sound|apply sample_arrangement]. Qed.

Lemma sample_blind : IdBlind sample_backend.
Proof. eapply arrangement_blind, sample_arrangement. Qed.

(** No text protocol. *)
Definition sample_text : TextProtocol := fun _ _ => Ok [].

Definition sample_dispatch (payload : list Z) : list Z :=
  match dispatch_payload (H := sample_texts) (H0 := sample_text) sample_world payload sample_backend with
  | Ok bytes => bytes
  | _ => []
  end.

Definition sample_response : BinaryResponse.t :=
  match BinaryResponse.parse (sample_dispatch sample_frame) with
  | Ok resp => resp
  | _ => BinaryResponse.mk (ResponseEnvelope.mk 0 StUnknown 0 0) []
  end.

Lemma sample_genuine : genuine (H := sample_texts) (H0 := sample_text) sample_backend sample_frame (sample_dispatch sample_frame).
Proof. exists sample_world. vm_compute. reflexivity. Qed.

Lemma sample_in_range : in_range sample_request.
Proof.
  intros q E. assert (query_from_wire sample_request = Ok sample_query_of_request) as E' by (vm_compute; reflexivity).
  assert (q = sample_query_of_request) as -> by congruence.
  split; [apply plain_regular; vm_compute; reflexivity|]. split; [by intros _; apply sample_request_fits|].
  intros t w Ht. exfalso. revert Ht. vm_compute. discriminate.
Qed.

Lemma service_truthful_witness : exists nodes kids blob,
  ResponseEnvelope.status (BinaryResponse.envelope sample_response) = StSat /\
  response_true sample_request nodes kids blob sample_response.
Proof.
  assert (BinaryRequest.parse sample_frame = Ok sample_request) as E by (vm_compute; reflexivity).
  destruct (parsed_checked _ _ sample_frame_slice E) as [Hval Hv].
  destruct (validate_request_ok sample_request tt Hval Hv) as (v & nodes & kids & blob & meta & Hr).
  exists nodes, kids, blob. split; [vm_compute; reflexivity|].
  apply (service_truthful (H := silent_backends) (H0 := no_recognisers) (H1 := sample_texts) (H2 := sample_text)
    sample_backend sample_frame (sample_dispatch sample_frame) sample_request v nodes kids blob meta sample_response);
    [apply sample_splr|apply no_recognisers_sound|apply sample_arrangement|apply sample_frame_slice|exact E|apply sample_in_range|exact Hr|apply sample_genuine|].
  vm_compute. reflexivity.
Defined.

(** ** What a client is told

    The chain of the whole system: a client builds terms and asserts them and sends a
    request; the server parses it, solves it and answers. *)

(** What the response says of the terms of the client's builder. *)
Section told.
Context (b : ExprBuilder) (v : ExprView) (nodes : list RawNode) (resp : BinaryResponse.t).

Let payload := BinaryResponse.payload resp.

Definition optimum_told (target : NodeRef) (signed minimize want_model : bool) : Prop := exists o,
  OptimizationValueBlock.decode payload want_model = Ok o /\
  let z := bval (WireScalar.bytes (OptimizationValueBlock.optimum o)) in
  (forall σ, client_holds b σ ->
     no_better signed minimize (Z.to_nat (WireScalar.width (OptimizationValueBlock.optimum o))) (bv_of b σ target) z) /\
  (want_model = true -> exists block, OptimizationValueBlock.model o = Some block /\
     block_implies nodes (eb_blob b) block (fun σ => client_holds b σ /\ bv_of b σ target = z)).

Definition told (call : SendCall) : Prop :=
  match ResponseEnvelope.status (BinaryResponse.envelope resp), call with
  | StSat, SSolve _ want_model _ => want_model = true -> exists block, ModelBlock.decode payload = Ok block /\
      ModelBlock.validate_against_expr block v = Ok tt /\ block_implies nodes (eb_blob b) block (client_holds b)
  | StSat, SMinimize target signed _ want_model => optimum_told target signed true want_model
  | StSat, SMaximize target signed _ want_model => optimum_told target signed false want_model
  | StUnsat, SSolve _ _ want_core => (~ exists σ, client_holds b σ) /\
      (want_core = true -> exists active, UnsatCoreBlock.decode payload = Ok (omap (sent_name b) active) /\
         ~ exists σ, client_core_holds b σ active)
  | StUnsat, (SMinimize _ _ _ _ | SMaximize _ _ _ _) => ~ exists σ, client_holds b σ
  | StSimplified, SSimplify target => exists e v' nodes' kids' blob' meta',
      SimplifyBlock.decode payload = Ok e /\ parse_and_validate (SimplifyBlock.expression e) = Ok v' /\
      view_of v' nodes' kids' blob' /\ dag_ok nodes' kids' blob' meta' /\
      forall σ, wire_denote blob' σ kids' nodes' !! Z.to_nat (NodeRef.index (SimplifyBlock.target_node e)) =
                values b σ !! Z.to_nat (NodeRef.index target)
  | (StUnknown | StError), _ => True
  | _, _ => False
  end.
End told.

(** A model a response carries passed the check against the request's expression. *)
Lemma sat_model_checked r v nodes kids blob meta result resp block : request_ok r v nodes kids blob meta ->
  conclusive_response r result resp -> ResponseEnvelope.status (BinaryResponse.envelope resp) = StSat ->
  RequestEnvelope.command (BinaryRequest.envelope r) = CmdSolve -> wants r RequestFlags.WANT_MODEL = true ->
  ModelBlock.decode (BinaryResponse.payload resp) = Ok block -> ModelBlock.validate_against_expr block v = Ok tt.
Proof.
  intros Hr Hc Es Ec Ew Ed. unfold conclusive_response in Hc. rewrite Es in Hc. destruct Hc as (_ & _ & Hm & _).
  destruct (Hm Ec Ew) as (m & _ & Hv & Ed'). assert (m = block) as -> by congruence.
  unfold validate_model, BinaryRequest.expression_view in Hv. by rewrite (ro_view _ _ _ _ _ _ Hr) in Hv.
Qed.

Section answered.
Context (b : ExprBuilder) (Hb : built b) (call : SendCall) (r : BinaryRequest.t) (v : ExprView)
  (nodes : list RawNode) (kids : list Z) (meta : list NodeInfo).
Context (Hok : request_ok r v nodes kids (eb_blob b) meta)
  (Hc : carries b (send_command call) (send_target call) r nodes kids meta)
  (Ecmd : RequestEnvelope.command (BinaryRequest.envelope r) = send_command call)
  (Eopt : request_options r = send_options call)
  (Hholds : send_command call <> CmdSimplify -> forall σ, wire_holds σ r nodes kids (eb_blob b) <-> client_holds b σ).

Lemma told_value σ t : send_target call = Some t ->
  wire_denote (eb_blob b) σ kids nodes !! target_index r = values b σ !! Z.to_nat (NodeRef.index t).
Proof. intros Ht. apply (sf_value _ _ _ _ _ _ _ (ca_target _ _ _ _ _ _ _ Hc t Ht)). Qed.

Lemma told_block block (P Q : Valuation -> Prop) : (forall σ, P σ -> Q σ) ->
  block_implies nodes (eb_blob b) block P -> block_implies nodes (eb_blob b) block Q.
Proof. intros H [Hex Hall]. split; [done|]. intros σ Hσ. by apply H, Hall. Qed.

Lemma told_optimum resp t signed minimize want_model : send_target call = Some t -> send_command call <> CmdSimplify ->
  wants r RequestFlags.SIGNED = signed -> wants r RequestFlags.WANT_MODEL = want_model ->
  bool_decide (send_command call = CmdMinimize) = minimize -> optimizes (send_command call) = true ->
  ResponseEnvelope.status (BinaryResponse.envelope resp) = StSat -> response_true r nodes kids (eb_blob b) resp ->
  optimum_told b nodes resp t signed minimize want_model.
Proof.
  intros Ht Hne <- <- <- Hopt Es. unfold response_true. rewrite Es, Ecmd. intros [_ Ho].
  destruct (Ho Hopt) as (o & Ed & Hbest & Hmodel). exists o. split; [done|]. cbv zeta in *.
  assert (forall σ, request_value r nodes kids (eb_blob b) σ = bv_of b σ t) as Hv.
  { intros σ. unfold request_value, bv_of, sem_bv. by rewrite (told_value σ t Ht). }
  split.
  - intros σ Hσ. rewrite <- Hv. by apply Hbest, (Hholds Hne).
  - intros Hw. destruct (Hmodel Hw) as (block & E & Hblock). exists block. split; [done|]. eapply told_block, Hblock.
    intros σ [H1 H2]. rewrite <- Hv. split; [by apply (Hholds Hne)|done].
Qed.

Lemma told_unsat : send_command call <> CmdSimplify -> ~ (exists σ, wire_holds σ r nodes kids (eb_blob b)) ->
  ~ exists σ, client_holds b σ.
Proof. intros Hne Hn [σ Hσ]. apply Hn. exists σ. by apply (Hholds Hne). Qed.

Lemma told_answer result resp : conclusive_response r result resp -> claims r nodes kids (eb_blob b) result ->
  told b v nodes resp call.
Proof.
  intros Hcr Hcl. pose proof (conclusive_true r nodes kids (eb_blob b) result resp Hcr Hcl) as Ht.
  assert (request_options r = (wants r RequestFlags.WANT_MODEL, wants r RequestFlags.WANT_CORE, wants r RequestFlags.SIGNED))
    as Eo by done. rewrite Eopt in Eo. unfold told.
  destruct (ResponseEnvelope.status (BinaryResponse.envelope resp)) eqn:Es; [| | |done..].
  - unfold response_true in Ht. rewrite Es in Ht. unfold conclusive_response in Hcr. rewrite Es, Ecmd in Hcr.
    destruct Hcr as (_ & Hs & _). pose proof told_value as Hval. destruct call as [| t | |]; [done| |done..].
    destruct Ht as (e & v' & nodes' & kids' & blob' & meta' & Ed & Ep & Hview & Hdag & Hv).
    exists e, v', nodes', kids', blob', meta'. split_and!; [done..|]. intros σ. by rewrite Hv, (Hval σ t eq_refl).
  - pose proof (told_optimum resp) as Hopt. pose proof (fun block => sat_model_checked r v nodes kids (eb_blob b) meta result resp block Hok Hcr Es) as Hck.
    unfold conclusive_response in Hcr. rewrite Es, Ecmd in Hcr. destruct Hcr as (_ & Hs & _).
    destruct call as [n m c|t|t s n m|t s n m]; [|done|injection Eo as Em _ Esg; by apply Hopt..].
    injection Eo as Em _ _. intros ->. unfold response_true in Ht. rewrite Es, Ecmd in Ht. destruct Ht as [Hm _].
    destruct (Hm eq_refl (eq_sym Em)) as (block & Ed & Hblock). exists block. split_and!; [done|by apply Hck|].
    eapply told_block, Hblock. intros σ Hσ. by apply (Hholds ltac:(done)).
  - unfold conclusive_response in Hcr. rewrite Es, Ecmd in Hcr. destruct Hcr as (_ & Hs & _).
    unfold response_true in Ht. rewrite Es, Ecmd in Ht. destruct Ht as [Hun Hcore]. pose proof told_unsat as Hu.
    destruct call as [n m c|t|t s n m|t s n m]; [|done|by apply Hu..].
    split; [by apply Hu|]. injection Eo as _ Ec _. intros ->.
    destruct (Hcore eq_refl (eq_sym Ec)) as (active & Ed & Hn). exists active.
    rewrite (carried_names b r v nodes kids meta Hok Hc) in Ed. split; [done|].
    setoid_rewrite (carried_core b Hb r nodes kids meta Hc) in Hn. done.
Qed.
End answered.

(** C8: what a client is told is true of the terms it built.  Whatever a client built and
    whichever request it makes of it -- to solve, simplify, minimise or maximise --, send
    the frame to the service over the server's own solver, arranged in any way
    ([arrangement]), with its own configuration: Splr, whose [Unsat] answers are
    assumed right ([trusted Splr]), or the bundled solver for a request that is raced or has a
    budget, and the shortcuts on,
    of which those not modelled are assumed sound ([SoundRecognisers]).  If the request is
    in range ([in_range]), any response the service can give to the frame is [UNKNOWN],
    [ERROR], or has the client's id and says what is true of the client's terms under every valuation of the
    symbols: [UNSAT] that none satisfies its assertions and assumptions, and the core,
    when one was asked for, lists names the client gave whose assertions already have
    none; the model of [SAT] passes the client's check against the expression it sent,
    some valuation agrees with it and every one that does satisfies the client's
    constraints; no satisfying valuation gives the target a better value than the
    optimum, and the model attains it; a simplified expression has the target's value.
    Nothing is said of whether the answer is conclusive. *)
Theorem client_told_truth `{Backends} `{Recognisers} `{ErrorTexts} `{TextProtocol} backend b id call frame r response resp :
  trusted Splr -> SoundRecognisers -> arrangement backend ->
  rtc client_step ExprBuilder.new b -> send_args id call -> run_send b id call = Ok frame ->
  BinaryRequest.parse frame = Ok r -> in_range r ->
  genuine backend frame response -> BinaryResponse.parse response = Ok resp ->
  exists v nodes kids meta, request_ok r v nodes kids (eb_blob b) meta /\
    (inconclusive resp \/ ResponseEnvelope.request_id (BinaryResponse.envelope resp) = id) /\ told b v nodes resp call.
Proof.
  intros Hsplr Hrec Harr Hreach Hargs Esend Ep Hin Hg Er. pose proof (reachable_built b Hreach) as Hb.
  pose proof (send_runs b id call Hb Hargs) as Hs. rewrite Esend in Hs.
  destruct Hs as (Hslice & r' & v & nodes & kids & meta & Ep' & Hok & Hc & Eid & Ecmd & _ & Eopt & Hholds).
  assert (r' = r) as -> by congruence. exists v, nodes, kids, meta. split; [done|].
  pose proof (arrangement_keeps backend Hsplr Hrec Harr) as Hk.
  destruct (genuine_claims backend frame response r v nodes kids (eb_blob b) meta resp Hslice Ep Hin Hok Hg Er)
    as [Hi|(result & Hcr & Hcl & Er')].
  - split; [by left|]. unfold told. by destruct Hi as [-> | ->].
  - split; [right; by rewrite Er'|]. by apply (told_answer b Hb call r v nodes kids meta Hok Hc Ecmd Eopt Hholds result).
Qed.

(** *** Witness: the client's [x + 5 = 5], sent with a budget *)

Definition client_response : BinaryResponse.t :=
  match BinaryResponse.parse (sample_dispatch client_frame) with
  | Ok resp => resp
  | _ => BinaryResponse.mk (ResponseEnvelope.mk 0 StUnknown 0 0) []
  end.

Lemma client_in_range : in_range client_request.
Proof.
  intros q E. assert (query_from_wire client_request = Ok client_query) as E' by (vm_compute; reflexivity).
  assert (q = client_query) as -> by congruence.
  split; [apply plain_regular; vm_compute; reflexivity|]. split; [by intros _; apply client_query_fits|].
  intros t w Ht. exfalso. revert Ht. vm_compute. discriminate.
Qed.

Lemma client_genuine : genuine (H := sample_texts) (H0 := sample_text) sample_backend client_frame (sample_dispatch client_frame).
Proof. exists sample_world. vm_compute. reflexivity. Qed.

Lemma client_told_truth_witness : exists v nodes,
  ResponseEnvelope.status (BinaryResponse.envelope client_response) = StSat /\
  told asserting_client v nodes client_response (SSolve 100 true true).
Proof.
  assert (send_args 9 (SSolve 100 true true)) as Hargs
    by (split; [split; [discriminate|reflexivity]|split; [split; [discriminate|reflexivity]|intros t E; discriminate E]]).
  assert (BinaryRequest.parse client_frame = Ok client_request) as Ep by (vm_compute; reflexivity).
  assert (BinaryResponse.parse (sample_dispatch client_frame) = Ok client_response) as Er by (vm_compute; reflexivity).
  destruct (client_told_truth (H := silent_backends) (H0 := no_recognisers) (H1 := sample_texts) (H2 := sample_text)
    sample_backend asserting_client 9 (SSolve 100 true true) client_frame client_request (sample_dispatch client_frame)
    client_response sample_splr no_recognisers_sound sample_arrangement asserting_client_reachable Hargs client_frame_sent Ep
    client_in_range client_genuine Er) as (v & nodes & kids & meta & _ & _ & Htold).
  exists v, nodes. split; [vm_compute; reflexivity|exact Htold].
Defined.

(** ** Every payload is answered *)

(** C12: a binary payload is answered unless the backend panics.  Take any backend whose
    results are values of their types and [right] ([Keeps]); it may fail or panic as it likes.  Whatever bytes follow
    the magic, the server has a response that parses, or the payload is a request
    on which the backend panics; and then nothing catches the panic, and there is no response.  Unless the response is
    [UNKNOWN] or [ERROR], the payload was a valid request, the response has its id, and
    it carries the artifacts of the backend's result for it: a model, an optimum or a
    simplified block that passes the checks against the request's expression, a core of
    names of its assertions.  On the server's own solver, which does not panic, every
    payload has a response. *)
Theorem payload_answered `{Backends} `{Recognisers} `{ErrorTexts} `{TextProtocol} right backend `{!Keeps right backend} w payload :
  slice_ok payload -> is_binary_request_payload payload = true ->
  match dispatch_payload w payload backend with
  | Ok response => exists resp, BinaryResponse.parse response = Ok resp /\
      (inconclusive resp \/
       exists r result, BinaryRequest.parse payload = Ok r /\ handle backend w r = Ok result /\ right r result /\
         ResponseEnvelope.request_id (BinaryResponse.envelope resp) = RequestEnvelope.request_id (BinaryRequest.envelope r) /\
         conclusive_response r result resp)
  | Err _ => False
  | Panic => backend_panics w backend payload
  end /\
  (backend_panics w backend payload -> dispatch_payload w payload backend = Panic) /\
  ~ backend_panics w QfbvsmtrsBackend payload.
Proof.
  intros Hs Hb. split_and!; [|by apply dispatch_panics|by intros (r & _ & E%qfbvsmtrs_total)].
  pose proof (dispatch_outcome right backend w payload Hs Hb) as Ho.
  destruct (dispatch_payload w payload backend) as [bytes|e|]; [|done..]. destruct Ho as (_ & resp & Ep & Hrep).
  exists resp. split; [done|]. destruct Hrep as [Hi|(r & result & Er & Eh & Eid & Hc)]; [by left|right].
  exists r, result. split_and!; try done. pose proof (keeps_handle (Keeps := _) w r (parsed_checked _ _ Hs Er)) as Hk.
  rewrite Eh in Hk. apply Hk.
Qed.

Lemma payload_answered_witness : exists response resp,
  dispatch_payload (H := sample_texts) (H0 := sample_text) sample_world sample_frame sample_backend = Ok response /\
  BinaryResponse.parse response = Ok resp.
Proof.
  destruct (payload_answered (H := silent_backends) (H0 := no_recognisers) (H1 := sample_texts) (H2 := sample_text)
    truthful sample_backend (Keeps0 := sample_keeps) sample_world sample_frame sample_frame_slice) as [Ho _];
    [vm_compute; reflexivity|].
  assert (dispatch_payload (H := sample_texts) (H0 := sample_text) sample_world sample_frame sample_backend
    = Ok (sample_dispatch sample_frame)) as E by (vm_compute; reflexivity).
  rewrite E in Ho. destruct Ho as (resp & Ep & _). exists (sample_dispatch sample_frame), resp. exact (conj E Ep).
Defined.

(** ** The cache *)

(** C10: the cache is transparent.  Connections run in any interleaving, share the cache
    and are answered from it.  Every answer of a run is one the backend can give to that
    very payload, request id included, so the service with the cache refines the one
    without; and the cache never holds more entries, longer keys or longer responses than
    its limits allow.  A connection's own call of the dispatcher is such a run. *)
Theorem cache_transparent `{ErrorTexts} `{TextProtocol} right backend `{!Keeps right backend, !IdBlind backend} n k m :
  0 <= n ->
  (forall answers s, service_run backend (mkService (ResponseCache.with_limits n k m) ∅) answers s ->
   (forall payload response, (payload, response) ∈ answers -> genuine backend payload response) /\
   ResponseCache.len (sv_cache s) <= n /\
   forall key response, cache_entries (sv_cache s) !! key = Some response -> zlen key <= k /\ zlen response <= m) /\
  (forall w payload c response c' conn flight, slice_ok payload -> flight !! conn = None ->
   dispatch_payload_with_cache w payload backend (Some c) = (Ok response, Some c') ->
   service_run backend (mkService c flight) [(payload, response)] (mkService c' flight)).
Proof.
  intros Hn. split.
  - intros answers s Hrun. destruct (run_ok right backend n k m _ answers s Hn (fresh_ok backend n k m Hn) Hrun) as [[Hc _] Ha].
    split_and!; [done|apply Hc|]. intros key response. apply (co_sizes _ _ _ _ _ Hc).
  - intros w payload c response c' conn flight Hs Hf. by apply (cached_dispatch_run backend w payload c response c' conn).
Qed.

(** The second of two equal requests is answered from the cache. *)
Lemma cache_transparent_witness : exists c',
  dispatch_payload_with_cache (H := sample_texts) (H0 := sample_text) sample_world sample_frame sample_backend
    (Some ResponseCache.default) = (Ok (sample_dispatch sample_frame), Some c') /\ ResponseCache.len c' = 1 /\
  forall answers s, service_run (H := sample_texts) (H0 := sample_text) sample_backend
      (mkService ResponseCache.default ∅) answers s ->
    forall payload response, (payload, response) ∈ answers ->
      genuine (H := sample_texts) (H0 := sample_text) sample_backend payload response.
Proof.
  eexists. split; [vm_compute; reflexivity|]. split; [vm_compute; reflexivity|].
  intros answers s Hrun. apply (cache_transparent (H := sample_texts) (H0 := sample_text) truthful sample_backend
    (Keeps0 := sample_keeps) (IdBlind0 := sample_blind) 4096 (1024 * 1024) (16 * 1024 * 1024)) in Hrun as [Ha _]; done.
Defined.

(** ** Races *)






(** ** Connections *)



Section connection.
Context `{ErrorTexts} `{TextProtocol} (config : ServerConfig).




End connection.




(** ** Permits *)

(** Connections never exceed their limit.  However connections are accepted, refused
    and closed, the counter is the number of live permits, it never exceeds
    [max_connections], and a connection is refused exactly when that many are alive. *)
Theorem permits_bounded max_connections s : 0 <= max_connections ->
  rtc (connection_step max_connections) (mkConnections 0 ∅) s ->
  active_connections s = Z.of_nat (size (permits s)) /\ active_connections s <= max_connections /\
  ((try_acquire_connection (active_connections s) max_connections).1 = false <->
   Z.of_nat (size (permits s)) = max_connections).
Proof.
  intros Hm Hrun. assert (active_connections s = Z.of_nat (size (permits s)) /\ active_connections s <= max_connections) as [E Hle].
  { revert s Hrun. refine (rtc_ind_r _ _ _ _); [by split|]. intros s1 s2 _ Hstep [E Hle].
    inversion Hstep as [c s0 a Hc Ha|s0 a Ha|c s0 Hc]; subst; simpl; try unfold try_acquire_connection in Ha.
    - destruct (max_connections =? 0); [done|]. destruct (Z.ltb_spec (active_connections s1) max_connections); [|done].
      injection Ha as <-. rewrite size_union by set_solver. rewrite size_singleton. lia.
    - destruct (max_connections =? 0); [by injection Ha as <-|]. by destruct (_ <? _); [|injection Ha as <-].
    - rewrite size_difference by set_solver. rewrite size_singleton.
      assert (size (permits s1) <> 0%nat) by (by apply size_non_empty_iff; set_solver). lia. }
  split_and!; [done..|]. unfold try_acquire_connection. destruct (Z.eqb_spec max_connections 0) as [->|]; simpl; [split; [|done]; lia|].
  destruct (Z.ltb_spec (active_connections s) max_connections); simpl; split; try done; lia.
Qed.
